(* ===== verification/_CoqProject ===== *)
-Q . S2P
Prelude.v
Qerr.v
ByteOrder.v
Float16.v
Protocol.v
WireStream.v
WireControl.v
AckRanges.v
WireAck.v
PublicHeader.v
Frames.v
ParserSafety.v
ReceivedPackets.v
Float32.v
RttStats.v
SentPackets.v
SentPacketsProofs.v
ConnParams.v
FlowControl.v
FlowControlProofs.v
StreamFrameSorter.v
SorterProofs.v
Congestion.v
CongestionProofs.v
Olia.v
OliaProofs.v
PacketNumberGenerator.v
StreamsMap.v
StreamsMapProofs.v
Stream.v
StreamProofs.v
StreamFramer.v
StreamFramerProofs.v
PacketPacker.v
PacketPackerProofs.v
Path.v
Scheduler.v
SchedulerProofs.v
Session.v
Sending.v
SessionProofs.v
SendingProofs.v
SessionExamples.v
HandshakeMessage.v
Aead.v
ServerConfig.v
Cookie.v
CryptoServer.v
CryptoServerProofs.v
CryptoClient.v
CryptoClientProofs.v
Handshake.v
HandshakeExamples.v
Addr.v
Server.v
ServerProofs.v
ClientProofs.v
EventLoop.v
EventLoopProofs.v
ServerExamples.v
Certs.v
CertManager.v
ConcurrentMap.v
Learning.v
Sac.v
LearningProofs.v
LearningTables.v
LearningExamples.v
LinkedList.v
LinkedListSpec.v
H2Request.v
H2RequestProofs.v
H2Server.v
H2Client.v
H2Examples.v
CryptoTLS.v
PconnManager.v
