(* ===== verification/Prelude.v ===== *)
(** * Verification of the MP-QUIC transport core (quic-go/)

    The repository is a multipath QUIC implementation in Go (src/quic-go/, a fork of
    quic-go) with schedulers that choose the path of each packet, and a learning
    service around it.  This library models the transport core as Rocq functions,
    translated from the source, and proves what makes each part correct.

    ** The program

    A session receives packets from several paths.  A packet is a public header
    (internal/wire/public_header.go) and an encrypted payload, a sequence of frames
    (internal/wire/*_frame.go) that the unpacker (packet_unpacker.go) parses.  STREAM
    frames go to their stream (streams_map.go, stream.go), which puts them in order
    (stream_frame_sorter.go) within the flow control windows (internal/flowcontrol/).
    Per path, the received packets are recorded and acknowledged
    (ackhandler/received_packet_*.go), the sent ones are kept until they are
    acknowledged or lost (ackhandler/sent_packet_handler.go), and a congestion
    controller (congestion/) bounds the bytes in flight.  To send, the packer
    (packet_packer.go) takes control frames, and STREAM frames from the framer
    (stream_framer.go): retransmissions first, then new data of the streams in turn.
    The session (session.go) handles the frames that arrive and owns the paths (path.go),
    which the path manager (path_manager.go) creates; its scheduler (scheduler.go) selects
    the path of each packet and runs the loop that sends.  The keys come from the handshake
    (internal/handshake/), messages on stream 1: the server answers the hellos of the client
    with rejections until the client has a source address token and its config, then
    with the server hello; the keys (internal/crypto/) raise the level of encryption
    from unencrypted to secure and forward-secure, of which the session is told on a channel.
    Some schedulers learn from the acknowledgements which path to use, in a table of their own,
    one that the sessions of a server share (internal/multiclients/), or from a service.
    A session runs a loop that handles one event per turn (session.run).  The server (server.go)
    hands each datagram to the session of its connection and makes the sessions of new ones;
    the client (client.go) has one connection, whose version it may negotiate once.

    ** The files

    - Prelude: machine integers with their wrap-around, the error and reader monads,
      tactics, shared lemmas.
    - Qerr: qerr/ (error codes, errors and their text).
    - ByteOrder, Float16, Protocol: internal/utils/byteorder*.go, float16.go, minmax.go
      and internal/protocol/ (packet number lengths and inference, versions).
    - WireStream, WireControl, AckRanges, WireAck: the frames of internal/wire/, each
      with Write, MinLength and Parse; a reader is a function on the remaining bytes,
      a writer yields bytes or an error.
    - PublicHeader: public_header.go and version_negotiation.go.
    - Frames, ParserSafety: packet_unpacker.go and the payload of a packet; decryption
      is a parameter.
    - ReceivedPackets: ackhandler/received_packet_history.go and _handler.go.
    - Float32, RttStats: congestion/rtt_stats.go, with the IEEE arithmetic it uses.
    - SentPackets, SentPacketsProofs: sent_packet_handler.go, stop_waiting_manager.go,
      packet.go, retransmittable.go, over the type class [SendAlgorithm].
    - ConnParams: internal/handshake/connection_parameters_manager.go, with the
      interface [ConnectionParametersManager] its clients are proved against.
    - FlowControl, FlowControlProofs: internal/flowcontrol/.
    - StreamFrameSorter, SorterProofs: stream_frame_sorter.go.
    - Congestion, CongestionProofs: cubic.go, cubic_sender.go, hybrid_slow_start.go,
      prr_sender.go; Olia, OliaProofs: olia.go, olia_sender.go, all paths together.
    - PacketNumberGenerator: packet_number_generator.go.
    - StreamsMap, StreamsMapProofs: streams_map.go, for any type of streams.
    - Stream, StreamProofs: stream.go.
    - StreamFramer, StreamFramerProofs: stream_framer.go on the streams and the flow
      control manager, and session.newStream.
    - PacketPacker, PacketPackerProofs: packet_packer.go.
    - Path: path.go and the address part of conn.go.
    - Scheduler, SchedulerProofs: how scheduler.go selects a path, for the schedulers
      that do not learn.
    - ConcurrentMap: the sharded map of internal/multiclients/qlearning.go that the sessions share.
    - Learning, Sac: the schedulers that learn (scheduler.go, scheduler_dl.go, scheduler_drl.go):
      Peekaboo, QSAT and Q-learning, and those that ask the learning service, DQN and SAC; a request
      under way is part of the state, its answer an event.  LearningProofs, LearningTables,
      LearningExamples: what they select, what they learn, sessions that are run.
    - LinkedList, LinkedListSpec: the linked lists generated in internal/utils/ and ackhandler/, as
      elements of a heap.
    - Session, SessionProofs: session.go and path_manager.go, in a monad of state, error
      and panic; Sending, SendingProofs: the retransmissions and the sending loop of
      scheduler.go on the session; SessionExamples: a session that is run.
    - HandshakeMessage: internal/handshake/handshake_message.go and
      internal/wire/public_reset.go.
    - Aead: the AEADs and the derivation of keys of internal/crypto/; the ciphers, HKDF,
      the 128-bit hash and the TLS library are parameters.
    - ServerConfig: curve_25519.go, server_config.go and server_config_client.go;
      Cookie: source_address_token.go, cookie_generator.go and the check of server.go.
    - CryptoServer, CryptoServerProofs: crypto_setup_server.go, with the interleavings of its
      two goroutines as a step relation; CryptoClient, CryptoClientProofs:
      crypto_setup_client.go, with the events its loop waits for; Handshake: both together;
      HandshakeExamples: an exchange that is run.
    - Addr: the text of an address (net.UDPAddr.String) and what server.go takes from it.
    - Server, ServerProofs, ClientProofs: server.go, client.go and the configuration of
      interface.go.  The sessions are objects of a store behind the type class
      [packetHandler]; the goroutines and timers of the server are part of its state, and
      their actions are steps.
    - EventLoop, EventLoopProofs: the run loop of session.go and internal/utils/timer.go; the
      loop is an instance of [packetHandler].  ServerExamples: a server, a client and a loop
      that are run, put together.
    - Certs: the chains of certificates of internal/crypto/ (cert_compression.go, cert_dict.go,
      cert_sets.go, cert_cache.go, cert_chain.go), an instance of the record [CertChain] the
      server uses; CertManager: cert_manager.go and server_proof.go, an instance of the
      record [CertManager] the client uses.
    - H2Request, H2RequestProofs: the header fields of requests and responses (h2quic/request.go,
      request_writer.go, response.go); H2Server: h2quic/server.go with its response writer, a
      handler being the list of its calls; H2Client: h2quic/client.go and roundtrip.go, the
      goroutines as a step relation; H2Examples: requests and a client that are run.
    - CryptoTLS: crypto_setup_tls.go, mint_utils.go and ephermal_cache.go of internal/handshake/.
    - PconnManager: pconn_manager.go, the host and its sockets being arguments.

    A struct is a Record with the prefix of its type, a method a function from the
    state to the new state and its result.  State that several objects share by
    reference is passed to each operation and returned by it.  A mutex makes the
    operations the steps of the model; an operation that blocks returns that it waits
    ([ReadWaits], [WriteWaits], [Waits]), and is called again when it is woken up.
    The order of an iteration over a Go map, the time and random bytes are arguments.

    ** The theorems

    - Wire format: frames, headers and whole payloads survive the wire
      ([payload_roundtrip], [PublicHeader_roundtrip], [AckFrame_roundtrip],
      [packet_number_recovered]); the unpacker never panics and terminates on any
      bytes ([Unpack_total]); a parsed ACK is valid; MinLength is exact.
    - Receiving: the history refines the set of received packet numbers, an ACK says
      exactly what was received and is sent in time ([history_refines_set],
      [GetAckFrame_exact], [ack_delay_bounded]); the sorter and the stream deliver the
      stream in order and without omission, however it arrives ([Push_receives],
      [sorter_delivers], [Read_delivers]).
    - Loss recovery: an ACK takes exactly the packets it acknowledges, no packet is
      lost track of, the bytes in flight are the sum over the packets in flight
      ([determineNewlyAckedPackets_exact], [ReceivedAck_conserves],
      [OnAlarm_conserves], [ReceivedClosePath_conserves], [bytesInFlight_exact]).
    - Flow control: the connection accounts for its streams, violations are detected,
      the windows leave room ([flow_control_accounting],
      [UpdateHighestReceived_enforces], [GetWindowUpdates_room]).
    - Congestion control: windows stay in their bounds, one reduction per loss event,
      the loops return; OLIA's epsilons cancel out ([congestion_window_bounds],
      [one_reduction_per_loss_event], [CongestionWindowAfterAck_returns],
      [epsilon_sums_to_zero], [olia_windows_bounded]).
    - Streams: the map is consistent and bounded, round robin serves every stream
      ([streams_map_consistent], [server_GetOrOpenStream], [round_robin_serves_all]);
      what is sent is what was written, and a stream ends once and for good
      ([written_is_sent], [stream_life_cycle]).
    - Sending: the framer refines an abstract relation of what a packet may carry
      ([PopStreamFrames_spec]), within the windows of the peer
      ([PopStreamFrames_flow_control]); a packed packet fits and the peer unpacks from
      it the frames it is recorded with ([PackPacket_sends], [crypto_packet_sends]).
    - Sessions: whatever happens, in every order, paths stay under their IDs, and
      stay the same paths until a client gave out its last ID, what is
      closed stays closed and the first error wins ([session_evolves]); retransmission
      returns, drains the queues and keeps every stream frame
      ([getRetransmission_spec]); what is sent is accounted for
      ([performPacketSending_accounts]); exactly the finished streams are collected
      ([garbageCollectStreams_spec]).
    - Schedulers: the lowest-RTT scheduler selects the best usable path
      ([low_latency_spec]), round robin the least used one ([round_robin_spec]); BLEST and
      ECF select the same as the lowest-RTT scheduler ([blest_ecf_are_low_latency]).  The
      schedulers that learn never panic, what they select is a path of the session that may send, and they do select one when every path
      may send, but for the cases listed ([learners_select_usable]); Q-learning learns one entry of its table
      at a time ([qlearning_learns_one_entry]); the one for many clients never learns
      ([multiclients_never_learns]); SAC falls back to the lowest RTT for good when its service
      fails ([sac_without_service]).
    - Shared structures: the sharded map behaves as one map ([concurrent_map_refines]); a program
      on linked lists gets the answers of plain lists ([linked_list_refines]), which
      the other files use in their place.
    - Handshake: messages, public resets, server configs and tokens survive the wire
      ([HandshakeMessage_roundtrip], [public_reset_roundtrip], [server_config_roundtrip],
      [token_accepted]) and their parsers are bounded ([ParseHandshakeMessage_bounded]); the
      server has keys only after a hello it has checked, also when the hello ends with an error ([server_keys_checked]),
      announces them in order in every interleaving ([server_announces]) and does not
      amplify ([rejection_not_amplified]); neither side accepts a lower level than before
      ([server_levels_never_decrease], [client_levels_never_decrease]); a client sends at most
      3 hellos ([client_hellos_bounded]); client and server end with matching keys
      ([handshake_keys_agree], [derived_keys_match]); when the reads of zlib fill their buffers, as the code takes it,
      the certificates of the server reach the client and its proof is accepted ([certs_reach_client],
      [chain_roundtrip]; [short_read_corrupts] is the other case), and no
      data sent for them makes the client panic ([SetData_total]).  The null AEAD of the TLS version
      detects every corrupted byte ([null_aead_detects_corruption]).
    - Server and client: in every order of events the table of the sessions agrees with the
      goroutines that run them and the timers that forget them
      ([server_sessions_consistent]); an answer of the server to a datagram is bounded
      ([server_replies_bounded]); the client changes its version at most once and never
      panics ([client_negotiates_once]), and a public reset is checked
      ([public_reset_checked]).
    - Run loop: what waits is bounded ([session_queues_bounded]), a session whose time is up
      is closed in the next turn that does not take an undecryptable packet ([timeouts_close_session]) and the timer is set for that
      ([timer_set_again]).
    - HTTP/2 over QUIC: a request reaches the server as it was made ([request_roundtrip]), and a
      response the client ([response_roundtrip]); whatever a handler does one response is sent
      ([response_once]), and it goes to the call that asked for it ([responses_matched]).
    - TLS and sockets: both setups end with matching keys ([tls_handshake_keys]); the ephemeral key is
      fresh ([ephermal_key_fresh]); there is one socket for each address
      ([one_socket_per_address]).
    - Deviations are theorems too: [server_crashes_on_ipv6], [timer_not_set_again],
      [failed_switch_panics], [cache_ignores_boundary], [nil_config_panics],
      [other_key_panics], [cached_client_trusts_any_config], [second_server_hello_panics],
      [unknown_path_panics], [cut_frame_keeps_fin], [client_opens_any_number],
      [rto_alarm_bounds], [AckFrame_long_gap], [PathsFrame_MinLength_wraps],
      [UpdateSendWindow_shrinks], [PackPing_dropped], [write_deadline_miscounts],
      [qsat_ignores_window], [sr_level_binary], [dqn_selects_nothing], [empty_answer_panics],
      [order_decides], [count_no_snapshot], [failed_body_blocks_all], [bad_status_panics],
      [late_panic_unseen], [signal_before_address], [fin_after_reset], [reset_nil_panics_reader],
      [path_id_wraps], [close_unused_path_panics], [timeout_not_seen].

    ** Fuel

    Loops that are not structural take fuel, and a theorem shows that there is enough
    of it: the bytes of the payload for the unpacker, n + 1 iterations for a Read into
    n bytes, half the distance of the stream IDs for [GetOrOpenStream] (two for the
    crypto stream), the length of the queue of BLOCKED frames, one round more than there
    are lost packets for [getRetransmission], one iteration per byte of the crypto stream for
    [HandleCryptoStream] ([server_stream_ends]), the length of the PUBS value of a server
    config, one iteration per compressed certificate and one more for [decompressChain].  The sending loop takes one [world] per iteration.  Out of fuel is a value
    of its own ([None], or [Panic] in the unpacker), never a result.

    ** Not modelled

    The goroutines of path.go and path_manager.go, and the
    functions that open connections (Listen, Dial, ListenAndServe); ciphers, the curve, HKDF, zlib,
    the parser of certificates, signatures and the TLS library, which are external (parameters of the model: decryption inverts
    encryption, scalar multiplication commutes, a serialization can be read back, zlib returns
    what was compressed, a signature verifies); the frames of golang.org/x/net/http2, HPACK, URLs and
    international names (parameters too); the matrices of gonum, the answers of the
    learning service and the text of a float (parameters of the schedulers that learn, of which the
    theorems assume nothing); what the schedulers write to files; examples, the tools of the
    integration tests and the learning service.  Floating point
    arithmetic is that of a processor that does not fuse a product with a sum.  A frame is a value: that a duplicated packet shares
    its frames with the packet in the history is not modelled.  The goroutine of a path is
    taken to close it at once.  The fields of the client setup that the session reads while
    the handshake runs are protected by a mutex: the steps of the model are the regions it
    protects.  What other
    goroutines do to a session happens between the turns of its loop, and
    the path manager creates its paths within the turn that launches it. *)
From stdpp Require Export base tactics list gmap strings numbers.
From Stdlib Require Export ZArith Lia.

(** ** Scopes and notations *)

Global Open Scope Z_scope.

Declare Scope go_scope.
Delimit Scope go_scope with go.

(** ** Machine integers

    A [w]-bit unsigned Go integer is a [Z] in [0, 2^w); every operation that
    can leave that range is followed by the wrap-around of its type. *)

Definition wrap (w x : Z) : Z := x mod 2 ^ w.

Definition u8 (x : Z) : Z := wrap 8 x.
Definition u16 (x : Z) : Z := wrap 16 x.
Definition u32 (x : Z) : Z := wrap 32 x.
Definition u64 (x : Z) : Z := wrap 64 x.

(** A Go [int], [int64] or [time.Duration]: two's complement on 64 bits. *)
Definition i64 (x : Z) : Z := (x + 2 ^ 63) mod 2 ^ 64 - 2 ^ 63.

Definition add64 (a b : Z) : Z := u64 (a + b).
Definition sub64 (a b : Z) : Z := u64 (a - b).
Definition mul64 (a b : Z) : Z := u64 (a * b).

(** [x << n] and [x >> n] on a [uint64]: shifting by 64 or more gives 0. *)
Definition shl64 (x n : Z) : Z := u64 (Z.shiftl x n).
Definition shr64 (x n : Z) : Z := Z.shiftr x n.

Notation "a +u b" := (add64 a b) (at level 50, left associativity) : go_scope.
Notation "a -u b" := (sub64 a b) (at level 50, left associativity) : go_scope.
Open Scope go_scope.

Definition is_u8 (x : Z) : Prop := 0 <= x < 2 ^ 8.
Definition is_u16 (x : Z) : Prop := 0 <= x < 2 ^ 16.
Definition is_u32 (x : Z) : Prop := 0 <= x < 2 ^ 32.
Definition is_u64 (x : Z) : Prop := 0 <= x < 2 ^ 64.

(** Every element of a byte slice is a byte. *)
Definition bytes_ok (l : list Z) : Prop := Forall is_u8 l.

(** The length of a Go slice, an [int]. *)
Definition zlen {A} (l : list A) : Z := Z.of_nat (length l).

(** ** Errors and panics *)

(** The error values of the code: the two sentinel values of package [io],
    [errors.New(msg)], a bare [qerr.ErrorCode], and [qerr.Error(code, msg)]. *)
Inductive error : Type :=
| EOF
| ErrUnexpectedEOF
| errors_New (msg : string)
| ErrCode (code : Z)
| QuicError (code : Z) (msg : string).

#[export] Instance error_eq_dec : EqDecision error.
Proof. solve_decision. Defined.

(** Outcome of a Go function that returns [(T, error)] and may panic. *)
Inductive result (A : Type) : Type :=
| Ok (a : A)
| Err (e : error)
| Panic.
Arguments Ok {A} a.
Arguments Err {A} e.
Arguments Panic {A}.

Definition bind {A B} (m : result A) (f : A -> result B) : result B :=
  match m with Ok a => f a | Err e => Err e | Panic => Panic end.

Notation "'let*' x ':=' m 'in' k" := (bind m (fun x => k))
  (at level 10, x pattern, m at level 100, k at level 200) : go_scope.

(** ** Byte readers and writers

    A [*bytes.Reader] is the list of the bytes that are still to be read; a
    reader returns its value and the bytes it leaves. *)

Definition reader (A : Type) : Type := list Z -> result (A * list Z).

Definition rret {A} (a : A) : reader A := fun r => Ok (a, r).
Definition rfail {A} (e : error) : reader A := fun _ => Err e.
Definition rbind {A B} (m : reader A) (f : A -> reader B) : reader B :=
  fun r => match m r with Ok (a, r') => f a r' | Err e => Err e | Panic => Panic end.

Notation "x <-- m ;; k" := (rbind m (fun x => k))
  (at level 100, m at next level, right associativity) : go_scope.
Notation "m >>> k" := (rbind m (fun _ => k)) (at level 100, right associativity) : go_scope.

(** [bytes.Reader.ReadByte]. *)
Definition ReadByte : reader Z :=
  fun r => match r with [] => Err EOF | b :: r' => Ok (b, r') end.

(** [io.ReadFull(r, make([]byte, n))]. *)
Definition ReadFull (n : nat) : reader (list Z) :=
  fun r =>
    if (n <=? length r)%nat then Ok (take n r, drop n r)
    else match r with [] => Err EOF | _ => Err ErrUnexpectedEOF end.

(** [bytes.Reader.Len]. *)
Definition ReaderLen : reader Z := fun r => Ok (zlen r, r).

(** What a [Write(b *bytes.Buffer)] method appends to its buffer.  The bytes
    written before an error are not observable: every caller drops the buffer
    when it gets an error. *)
Definition writer : Type := result (list Z).

Definition WriteByte (b : Z) : writer := Ok [b].
Definition WriteBytes (l : list Z) : writer := Ok l.
Definition wapp (m k : writer) : writer :=
  let* a := m in let* b := k in Ok (a ++ b).

Notation "m ;;; k" := (wapp m k) (at level 100, right associativity) : go_scope.

(** ** Time

    An instant is a number of nanoseconds since January 1, year 1 UTC, so that
    the zero [time.Time{}] is 0; a [time.Duration] is a signed 64-bit number of
    nanoseconds. *)

Definition zeroTime : Z := 0.
Definition IsZero (t : Z) : bool := t =? zeroTime.
Definition Microsecond : Z := 1000.
Definition Millisecond : Z := 1000000.
Definition Second : Z := 1000000000.

(** [t.Sub(u)] saturates at the range of [time.Duration]. *)
Definition timeSub (t u : Z) : Z := Z.max (- 2 ^ 63) (Z.min (2 ^ 63 - 1) (t - u)).
(** [t.Add(d)]. *)
Definition timeAdd (t d : Z) : Z := t + d.

(** ** Tactics *)

(** Replace boolean tests in the hypotheses and the goal by propositions. *)
Ltac bool_to_prop :=
  repeat match goal with
  | H : (_ && _) = true |- _ => apply andb_true_iff in H; destruct H
  | H : (_ || _) = false |- _ => apply orb_false_iff in H; destruct H
  | H : negb _ = true |- _ => apply negb_true_iff in H
  | H : negb _ = false |- _ => apply negb_false_iff in H
  | H : (_ <? _) = true |- _ => apply Z.ltb_lt in H
  | H : (_ <? _) = false |- _ => apply Z.ltb_ge in H
  | H : (_ <=? _) = true |- _ => apply Z.leb_le in H
  | H : (_ <=? _) = false |- _ => apply Z.leb_gt in H
  | H : (_ =? _) = true |- _ => apply Z.eqb_eq in H
  | H : (_ =? _) = false |- _ => apply Z.eqb_neq in H
  | H : (_ >? _) = _ |- _ => rewrite Z.gtb_ltb in H
  | H : (_ >=? _) = _ |- _ => rewrite Z.geb_leb in H
  end.

(** Case analysis on the test of the next [if] or [match], keeping the
    equation. *)
Ltac case_test :=
  match goal with
  | |- context [if ?b then _ else _] => let E := fresh "E" in destruct b eqn:E; bool_to_prop
  | H : context [if ?b then _ else _] |- _ => let E := fresh "E" in destruct b eqn:E; bool_to_prop
  end.

(** Decide a comparison of the goal or of a hypothesis by arithmetic. *)
Ltac decide_tests :=
  repeat match goal with
  | |- context [?a <? ?b] =>
      first [ rewrite (proj2 (Z.ltb_lt a b)) by lia | rewrite (proj2 (Z.ltb_ge a b)) by lia ]
  | |- context [?a <=? ?b] =>
      first [ rewrite (proj2 (Z.leb_le a b)) by lia | rewrite (proj2 (Z.leb_gt a b)) by lia ]
  | |- context [?a =? ?b] =>
      first [ rewrite (proj2 (Z.eqb_eq a b)) by lia | rewrite (proj2 (Z.eqb_neq a b)) by lia ]
  | |- context [?a >? ?b] => rewrite (Z.gtb_ltb a b)
  | |- context [?a >=? ?b] => rewrite (Z.geb_leb a b)
  end.

Ltac unfold_ints :=
  unfold is_u8, is_u16, is_u32, is_u64, add64, sub64, mul64, shl64, u8, u16, u32, u64, wrap in *.

(** Arithmetic with the widths written out as numbers. *)
Ltac zpow :=
  change (2 ^ 8) with 256 in *; change (2 ^ 16) with 65536 in *;
  change (2 ^ 24) with 16777216 in *; change (2 ^ 32) with 4294967296 in *;
  change (2 ^ 40) with 1099511627776 in *;
  change (2 ^ 48) with 281474976710656 in *; change (2 ^ 56) with 72057594037927936 in *;
  change (2 ^ 63) with 9223372036854775808 in *;
  change (2 ^ 64) with 18446744073709551616 in *.
Ltac mlia := unfold_ints; zpow; lia.

(** ** Lemmas on machine integers *)

Create HintDb go discriminated.

Lemma wrap_small w x : 0 <= x < 2 ^ w -> wrap w x = x.
Proof. apply Z.mod_small. Qed.

Lemma wrap_range w x : 0 <= w -> 0 <= wrap w x < 2 ^ w.
Proof. intros. apply Z.mod_pos_bound. lia. Qed.

Lemma u8_small x : is_u8 x -> u8 x = x.
Proof. apply wrap_small. Qed.
Lemma u16_small x : is_u16 x -> u16 x = x.
Proof. apply wrap_small. Qed.
Lemma u32_small x : is_u32 x -> u32 x = x.
Proof. apply wrap_small. Qed.
Lemma u64_small x : is_u64 x -> u64 x = x.
Proof. apply wrap_small. Qed.

Lemma u8_range x : is_u8 (u8 x).
Proof. by apply wrap_range. Qed.
Lemma u16_range x : is_u16 (u16 x).
Proof. by apply wrap_range. Qed.
Lemma u32_range x : is_u32 (u32 x).
Proof. by apply wrap_range. Qed.
Lemma u64_range x : is_u64 (u64 x).
Proof. by apply wrap_range. Qed.
#[export] Hint Resolve u8_range u16_range u32_range u64_range : go.

Lemma i64_small x : - 2 ^ 63 <= x < 2 ^ 63 -> i64 x = x.
Proof. intros. unfold i64. rewrite Z.mod_small; lia. Qed.

(** A left shift of a word by its width or more clears it. *)
Lemma i64_pow_zero x n : 64 <= n -> i64 (x * 2 ^ n) = 0.
Proof.
  intros Hn. unfold i64. replace n with ((n - 64) + 64) by lia. rewrite Z.pow_add_r by lia.
  rewrite Z.mul_assoc, Z.add_comm, Z.mod_add by lia. reflexivity.
Qed.

Lemma i64_range x : - 2 ^ 63 <= i64 x < 2 ^ 63.
Proof. unfold i64. pose proof (Z.mod_pos_bound (x + 2 ^ 63) (2 ^ 64)). lia. Qed.

Lemma add64_small a b : 0 <= a + b < 2 ^ 64 -> a +u b = a + b.
Proof. apply wrap_small. Qed.
Lemma sub64_small a b : 0 <= a - b < 2 ^ 64 -> a -u b = a - b.
Proof. apply wrap_small. Qed.

(** Evaluate sums and differences that stay in range, innermost first. *)
Ltac add64_exact :=
  repeat match goal with
  | |- context [add64 ?x ?y] =>
      lazymatch x with
      | context [add64 _ _] => fail
      | _ => rewrite (add64_small x y) by mlia
      end
  end.

Lemma add64_sub64 a b c : (a +u b) -u c = u64 (a + b - c).
Proof. unfold_ints. by rewrite Zminus_mod_idemp_l. Qed.
Lemma sub64_add64 a b c : (a -u b) +u c = u64 (a - b + c).
Proof. unfold_ints. by rewrite Zplus_mod_idemp_l. Qed.
Lemma sub64_sub64 a b c : (a -u b) -u c = u64 (a - b - c).
Proof. unfold_ints. by rewrite Zminus_mod_idemp_l. Qed.

(** XOR-ing in a byte above the bits in use is an addition. *)
Lemma lxor_disjoint_add a b n :
  0 <= n -> 0 <= a < 2 ^ n -> Z.lxor a (Z.shiftl b n) = a + Z.shiftl b n.
Proof.
  intros Hn Ha. rewrite Z.add_nocarry_lxor; [done|].
  apply Z.bits_inj'. intros i Hi. rewrite Z.land_spec, Z.bits_0.
  destruct (Z.lt_ge_cases i n) as [Hlt|Hge].
  - rewrite (Z.shiftl_spec_low b n i) by lia. by rewrite andb_false_r.
  - rewrite <- (Z.mod_small a (2 ^ n)) by lia.
    rewrite Z.mod_pow2_bits_high by lia. done.
Qed.

(** ** Lemmas on lists and results *)

Lemma zlen_app {A} (l k : list A) : zlen (l ++ k) = zlen l + zlen k.
Proof. unfold zlen. rewrite length_app. lia. Qed.
Lemma zlen_cons {A} (x : A) l : zlen (x :: l) = 1 + zlen l.
Proof. unfold zlen. simpl. lia. Qed.
Lemma zlen_nonneg {A} (l : list A) : 0 <= zlen l.
Proof. unfold zlen. lia. Qed.

(** Where an element of a trace lies that is extended at its end. *)
Lemma split_snoc {A} (tr pre post : list A) x y : tr ++ [x] = pre ++ y :: post ->
  (pre = tr /\ y = x /\ post = []) \/ exists post0, post = post0 ++ [x] /\ tr = pre ++ y :: post0.
Proof.
  destruct post as [|z post _] using rev_ind; intros E.
  - apply app_inj_tail in E as [-> ->]. by left.
  - right. exists post. change (pre ++ y :: post ++ [z]) with (pre ++ (y :: post) ++ [z]) in E. rewrite app_assoc in E.
    apply app_inj_tail in E as [-> ->]. done.
Qed.

Lemma bytes_ok_app l k : bytes_ok (l ++ k) <-> bytes_ok l /\ bytes_ok k.
Proof. apply Forall_app. Qed.

Lemma rbind_ok {A B} (m : reader A) (f : A -> reader B) r a r' :
  m r = Ok (a, r') -> rbind m f r = f a r'.
Proof. intros H. unfold rbind. by rewrite H. Qed.

Lemma ReadByte_cons b r : ReadByte (b :: r) = Ok (b, r).
Proof. done. Qed.

Lemma ReadFull_app l r : ReadFull (length l) (l ++ r) = Ok (l, r).
Proof.
  unfold ReadFull. rewrite length_app.
  rewrite (proj2 (Nat.leb_le _ _)) by lia.
  by rewrite take_app_length, drop_app_length.
Qed.

(** A reader that succeeds with a value of which [P] holds, when all the bytes
    it is given are bytes. *)
Definition reader_gives {A} (P : A -> Prop) (m : reader A) : Prop :=
  forall r a r', bytes_ok r -> m r = Ok (a, r') -> P a /\ bytes_ok r'.

Lemma rbind_gives {A B} (P : A -> Prop) (Q : B -> Prop) (m : reader A) f :
  reader_gives P m -> (forall a, P a -> reader_gives Q (f a)) -> reader_gives Q (rbind m f).
Proof.
  intros Hm Hf r b r' Hr E. unfold rbind in E.
  destruct (m r) as [[a r1]| |] eqn:Em; try done.
  destruct (Hm r a r1 Hr Em) as [Ha Hr1]. by apply (Hf a Ha r1).
Qed.

Lemma rret_gives {A} (P : A -> Prop) a : P a -> reader_gives P (rret a).
Proof. intros Ha r b r' Hr E. unfold rret in E. by simplify_eq. Qed.

Lemma rfail_gives {A} (P : A -> Prop) e : reader_gives P (rfail e : reader A).
Proof. by intros r b r' Hr E. Qed.

Lemma ReadByte_gives : reader_gives is_u8 ReadByte.
Proof. intros r b r' Hr E. destruct r; simplify_eq/=. by inv Hr. Qed.

Lemma ReadFull_gives n : reader_gives (fun l => bytes_ok l /\ length l = n) (ReadFull n).
Proof.
  intros r l r' Hr E. unfold ReadFull in E.
  destruct (n <=? length r)%nat eqn:Hn; [|by destruct r].
  apply Nat.leb_le in Hn. simplify_eq. unfold bytes_ok in *.
  rewrite length_take. split; [split; [by apply Forall_take|lia]|by apply Forall_drop].
Qed.
#[export] Hint Resolve rret_gives rfail_gives ReadByte_gives ReadFull_gives : go.
