(* ===== verification/Qerr.v ===== *)
(** * Error codes and error values (qerr/)

    The codes of [error_codes.go], their names as [errorcode_string.go] computes
    them from its tables, and [quic_error.go]. *)
From stdpp Require Import pretty.
From S2P Require Import Prelude.

Module qerr.

(** ** The error codes *)

Definition InternalError : Z := 1.
Definition StreamDataAfterTermination : Z := 2.
Definition InvalidPacketHeader : Z := 3.
Definition InvalidFrameData : Z := 4.
Definition MissingPayload : Z := 48.
Definition InvalidFecData : Z := 5.
Definition InvalidStreamData : Z := 46.
Definition OverlappingStreamData : Z := 87.
Definition UnencryptedStreamData : Z := 61.
Definition AttemptToSendUnencryptedStreamData : Z := 88.
Definition UnencryptedFecData : Z := 77.
Definition InvalidRstStreamData : Z := 6.
Definition InvalidConnectionCloseData : Z := 7.
Definition InvalidGoawayData : Z := 8.
Definition InvalidWindowUpdateData : Z := 57.
Definition InvalidBlockedData : Z := 58.
Definition InvalidStopWaitingData : Z := 60.
Definition InvalidPathCloseData : Z := 78.
Definition InvalidAckData : Z := 9.
Definition InvalidVersionNegotiationPacket : Z := 10.
Definition InvalidPublicRstPacket : Z := 11.
Definition DecryptionFailure : Z := 12.
Definition EncryptionFailure : Z := 13.
Definition PacketTooLarge : Z := 14.
Definition PeerGoingAway : Z := 16.
Definition InvalidStreamID : Z := 17.
Definition InvalidPriority : Z := 49.
Definition TooManyOpenStreams : Z := 18.
Definition TooManyAvailableStreams : Z := 76.
Definition PublicReset : Z := 19.
Definition InvalidVersion : Z := 20.
Definition InvalidHeaderID : Z := 22.
Definition InvalidNegotiatedValue : Z := 23.
Definition DecompressionFailure : Z := 24.
Definition NetworkIdleTimeout : Z := 25.
Definition HandshakeTimeout : Z := 67.
Definition ErrorMigratingAddress : Z := 26.
Definition ErrorMigratingPort : Z := 86.
Definition PacketWriteError : Z := 27.
Definition PacketReadError : Z := 51.
Definition EmptyStreamFrameNoFin : Z := 50.
Definition InvalidHeadersStreamData : Z := 56.
Definition HeadersStreamDataDecompressFailure : Z := 97.
Definition FlowControlReceivedTooMuchData : Z := 59.
Definition FlowControlSentTooMuchData : Z := 63.
Definition FlowControlInvalidWindow : Z := 64.
Definition ConnectionIPPooled : Z := 62.
Definition TooManyOutstandingSentPackets : Z := 68.
Definition TooManyOutstandingReceivedPackets : Z := 69.
Definition ConnectionCancelled : Z := 70.
Definition BadPacketLossRate : Z := 71.
Definition PublicResetsPostHandshake : Z := 73.
Definition TimeoutsWithOpenStreams : Z := 74.
Definition FailedToSerializePacket : Z := 75.
Definition TooManyRtos : Z := 85.
Definition HandshakeFailed : Z := 28.
Definition CryptoTagsOutOfOrder : Z := 29.
Definition CryptoTooManyEntries : Z := 30.
Definition CryptoInvalidValueLength : Z := 31.
Definition CryptoMessageAfterHandshakeComplete : Z := 32.
Definition InvalidCryptoMessageType : Z := 33.
Definition InvalidCryptoMessageParameter : Z := 34.
Definition InvalidChannelIDSignature : Z := 52.
Definition CryptoMessageParameterNotFound : Z := 35.
Definition CryptoMessageParameterNoOverlap : Z := 36.
Definition CryptoMessageIndexNotFound : Z := 37.
Definition CryptoInternalError : Z := 38.
Definition CryptoVersionNotSupported : Z := 39.
Definition CryptoHandshakeStatelessReject : Z := 72.
Definition CryptoNoSupport : Z := 40.
Definition CryptoTooManyRejects : Z := 41.
Definition ProofInvalid : Z := 42.
Definition CryptoDuplicateTag : Z := 43.
Definition CryptoEncryptionLevelIncorrect : Z := 44.
Definition CryptoServerConfigExpired : Z := 45.
Definition CryptoSymmetricKeySetupFailed : Z := 53.
Definition CryptoMessageWhileValidatingClientHello : Z := 54.
Definition CryptoUpdateBeforeHandshakeComplete : Z := 65.
Definition VersionNegotiationMismatch : Z := 55.
Definition BadMultipathFlag : Z := 79.
Definition IPAddressChanged : Z := 80.
Definition ConnectionMigrationNoMigratableStreams : Z := 81.
Definition ConnectionMigrationTooManyChanges : Z := 82.
Definition ConnectionMigrationNoNewNetwork : Z := 83.
Definition ConnectionMigrationNonMigratableStream : Z := 84.

(** ** [ErrorCode.String]

    The generated function cuts the name out of one of six strings. *)

Definition ErrorCode_name_0 : string :=
  "InternalErrorStreamDataAfterTerminationInvalidPacketHeaderInvalidFrameData" +:+
  "InvalidFecDataInvalidRstStreamDataInvalidConnectionCloseDataInvalidGoawayData" +:+
  "InvalidAckDataInvalidVersionNegotiationPacketInvalidPublicRstPacket" +:+
  "DecryptionFailureEncryptionFailurePacketTooLarge".
Definition ErrorCode_name_1 : string :=
  "PeerGoingAwayInvalidStreamIDTooManyOpenStreamsPublicResetInvalidVersion".
Definition ErrorCode_name_2 : string :=
  "InvalidHeaderIDInvalidNegotiatedValueDecompressionFailureNetworkIdleTimeout" +:+
  "ErrorMigratingAddressPacketWriteErrorHandshakeFailedCryptoTagsOutOfOrder" +:+
  "CryptoTooManyEntriesCryptoInvalidValueLengthCryptoMessageAfterHandshakeComplete" +:+
  "InvalidCryptoMessageTypeInvalidCryptoMessageParameter" +:+
  "CryptoMessageParameterNotFoundCryptoMessageParameterNoOverlap" +:+
  "CryptoMessageIndexNotFoundCryptoInternalErrorCryptoVersionNotSupported" +:+
  "CryptoNoSupportCryptoTooManyRejectsProofInvalidCryptoDuplicateTag" +:+
  "CryptoEncryptionLevelIncorrectCryptoServerConfigExpiredInvalidStreamData".
Definition ErrorCode_name_3 : string :=
  "MissingPayloadInvalidPriorityEmptyStreamFrameNoFinPacketReadError" +:+
  "InvalidChannelIDSignatureCryptoSymmetricKeySetupFailed" +:+
  "CryptoMessageWhileValidatingClientHelloVersionNegotiationMismatch" +:+
  "InvalidHeadersStreamDataInvalidWindowUpdateDataInvalidBlockedData" +:+
  "FlowControlReceivedTooMuchDataInvalidStopWaitingDataUnencryptedStreamData" +:+
  "ConnectionIPPooledFlowControlSentTooMuchDataFlowControlInvalidWindow" +:+
  "CryptoUpdateBeforeHandshakeComplete".
Definition ErrorCode_name_4 : string :=
  "HandshakeTimeoutTooManyOutstandingSentPacketsTooManyOutstandingReceivedPackets" +:+
  "ConnectionCancelledBadPacketLossRateCryptoHandshakeStatelessReject" +:+
  "PublicResetsPostHandshakeTimeoutsWithOpenStreamsFailedToSerializePacket" +:+
  "TooManyAvailableStreamsUnencryptedFecDataInvalidPathCloseDataBadMultipathFlag" +:+
  "IPAddressChangedConnectionMigrationNoMigratableStreams" +:+
  "ConnectionMigrationTooManyChangesConnectionMigrationNoNewNetwork" +:+
  "ConnectionMigrationNonMigratableStreamTooManyRtosErrorMigratingPort" +:+
  "OverlappingStreamDataAttemptToSendUnencryptedStreamData".
Definition ErrorCode_name_5 : string :=
  "HeadersStreamDataDecompressFailure".
Definition ErrorCode_index_0 : list nat :=
  [0; 13; 39; 58; 74; 88; 108; 134; 151; 165; 196; 218; 235; 252; 266]%nat.
Definition ErrorCode_index_1 : list nat :=
  [0; 13; 28; 46; 57; 71]%nat.
Definition ErrorCode_index_2 : list nat :=
  [0; 15; 37; 57; 75; 96; 112; 127; 147; 167; 191; 226; 250; 279; 309; 340; 366; 385; 410; 425; 445; 457; 475; 505; 530; 547]%nat.
Definition ErrorCode_index_3 : list nat :=
  [0; 14; 29; 50; 65; 90; 119; 158; 184; 208; 231; 249; 279; 301; 322; 340; 366; 390; 425]%nat.
Definition ErrorCode_index_4 : list nat :=
  [0; 16; 45; 78; 97; 114; 144; 169; 192; 215; 238; 256; 276; 292; 308; 346; 379; 410; 448; 459; 477; 498; 532]%nat.
Definition ErrorCode_index_5 : list nat :=
  [0; 34]%nat.

(** [s[lo:hi]]. *)
Definition slice (s : string) (lo hi : nat) : string := String.substring lo (hi - lo) s.

Definition tableEntry (name : string) (index : list nat) (i : Z) : string :=
  slice name (nth (Z.to_nat i) index 0%nat) (nth (Z.to_nat (i + 1)) index 0%nat).

Definition ErrorCode_String (i : Z) : string :=
  if (1 <=? i) && (i <=? 14) then tableEntry ErrorCode_name_0 ErrorCode_index_0 (i - 1)
  else if (16 <=? i) && (i <=? 20) then tableEntry ErrorCode_name_1 ErrorCode_index_1 (i - 16)
  else if (22 <=? i) && (i <=? 46) then tableEntry ErrorCode_name_2 ErrorCode_index_2 (i - 22)
  else if (48 <=? i) && (i <=? 65) then tableEntry ErrorCode_name_3 ErrorCode_index_3 (i - 48)
  else if (67 <=? i) && (i <=? 88) then tableEntry ErrorCode_name_4 ErrorCode_index_4 (i - 67)
  else if i =? 97 then ErrorCode_name_5
  else "ErrorCode(" +:+ pretty i +:+ ")".

(** ** Errors *)

(** The [Error] method of every error the code produces. *)
Definition error_Error (e : error) : string :=
  match e with
  | EOF => "EOF"
  | ErrUnexpectedEOF => "unexpected EOF"
  | errors_New msg => msg
  | ErrCode code => ErrorCode_String code
  | QuicError code msg => ErrorCode_String code +:+ ": " +:+ msg
  end.

(** [qerr.Error(code, err.Error())]. *)
Definition Wrap (code : Z) (e : error) : error := QuicError code (error_Error e).

(** [QuicError.Timeout], of the code of the error. *)
Definition QuicError_Timeout (code : Z) : bool :=
  (code =? NetworkIdleTimeout) || (code =? HandshakeTimeout) || (code =? TimeoutsWithOpenStreams).

(** [ToQuicError]: the code and the message. *)
Definition ToQuicError (e : error) : Z * string :=
  match e with
  | QuicError code msg => (code, msg)
  | ErrCode code => (code, "")
  | _ => (InternalError, error_Error e)
  end.

(** ** The table matches the constants *)

Definition declared_codes : list (string * Z) := [
  ("InternalError", InternalError);
  ("StreamDataAfterTermination", StreamDataAfterTermination);
  ("InvalidPacketHeader", InvalidPacketHeader);
  ("InvalidFrameData", InvalidFrameData);
  ("MissingPayload", MissingPayload);
  ("InvalidFecData", InvalidFecData);
  ("InvalidStreamData", InvalidStreamData);
  ("OverlappingStreamData", OverlappingStreamData);
  ("UnencryptedStreamData", UnencryptedStreamData);
  ("AttemptToSendUnencryptedStreamData", AttemptToSendUnencryptedStreamData);
  ("UnencryptedFecData", UnencryptedFecData);
  ("InvalidRstStreamData", InvalidRstStreamData);
  ("InvalidConnectionCloseData", InvalidConnectionCloseData);
  ("InvalidGoawayData", InvalidGoawayData);
  ("InvalidWindowUpdateData", InvalidWindowUpdateData);
  ("InvalidBlockedData", InvalidBlockedData);
  ("InvalidStopWaitingData", InvalidStopWaitingData);
  ("InvalidPathCloseData", InvalidPathCloseData);
  ("InvalidAckData", InvalidAckData);
  ("InvalidVersionNegotiationPacket", InvalidVersionNegotiationPacket);
  ("InvalidPublicRstPacket", InvalidPublicRstPacket);
  ("DecryptionFailure", DecryptionFailure);
  ("EncryptionFailure", EncryptionFailure);
  ("PacketTooLarge", PacketTooLarge);
  ("PeerGoingAway", PeerGoingAway);
  ("InvalidStreamID", InvalidStreamID);
  ("InvalidPriority", InvalidPriority);
  ("TooManyOpenStreams", TooManyOpenStreams);
  ("TooManyAvailableStreams", TooManyAvailableStreams);
  ("PublicReset", PublicReset);
  ("InvalidVersion", InvalidVersion);
  ("InvalidHeaderID", InvalidHeaderID);
  ("InvalidNegotiatedValue", InvalidNegotiatedValue);
  ("DecompressionFailure", DecompressionFailure);
  ("NetworkIdleTimeout", NetworkIdleTimeout);
  ("HandshakeTimeout", HandshakeTimeout);
  ("ErrorMigratingAddress", ErrorMigratingAddress);
  ("ErrorMigratingPort", ErrorMigratingPort);
  ("PacketWriteError", PacketWriteError);
  ("PacketReadError", PacketReadError);
  ("EmptyStreamFrameNoFin", EmptyStreamFrameNoFin);
  ("InvalidHeadersStreamData", InvalidHeadersStreamData);
  ("HeadersStreamDataDecompressFailure", HeadersStreamDataDecompressFailure);
  ("FlowControlReceivedTooMuchData", FlowControlReceivedTooMuchData);
  ("FlowControlSentTooMuchData", FlowControlSentTooMuchData);
  ("FlowControlInvalidWindow", FlowControlInvalidWindow);
  ("ConnectionIPPooled", ConnectionIPPooled);
  ("TooManyOutstandingSentPackets", TooManyOutstandingSentPackets);
  ("TooManyOutstandingReceivedPackets", TooManyOutstandingReceivedPackets);
  ("ConnectionCancelled", ConnectionCancelled);
  ("BadPacketLossRate", BadPacketLossRate);
  ("PublicResetsPostHandshake", PublicResetsPostHandshake);
  ("TimeoutsWithOpenStreams", TimeoutsWithOpenStreams);
  ("FailedToSerializePacket", FailedToSerializePacket);
  ("TooManyRtos", TooManyRtos);
  ("HandshakeFailed", HandshakeFailed);
  ("CryptoTagsOutOfOrder", CryptoTagsOutOfOrder);
  ("CryptoTooManyEntries", CryptoTooManyEntries);
  ("CryptoInvalidValueLength", CryptoInvalidValueLength);
  ("CryptoMessageAfterHandshakeComplete", CryptoMessageAfterHandshakeComplete);
  ("InvalidCryptoMessageType", InvalidCryptoMessageType);
  ("InvalidCryptoMessageParameter", InvalidCryptoMessageParameter);
  ("InvalidChannelIDSignature", InvalidChannelIDSignature);
  ("CryptoMessageParameterNotFound", CryptoMessageParameterNotFound);
  ("CryptoMessageParameterNoOverlap", CryptoMessageParameterNoOverlap);
  ("CryptoMessageIndexNotFound", CryptoMessageIndexNotFound);
  ("CryptoInternalError", CryptoInternalError);
  ("CryptoVersionNotSupported", CryptoVersionNotSupported);
  ("CryptoHandshakeStatelessReject", CryptoHandshakeStatelessReject);
  ("CryptoNoSupport", CryptoNoSupport);
  ("CryptoTooManyRejects", CryptoTooManyRejects);
  ("ProofInvalid", ProofInvalid);
  ("CryptoDuplicateTag", CryptoDuplicateTag);
  ("CryptoEncryptionLevelIncorrect", CryptoEncryptionLevelIncorrect);
  ("CryptoServerConfigExpired", CryptoServerConfigExpired);
  ("CryptoSymmetricKeySetupFailed", CryptoSymmetricKeySetupFailed);
  ("CryptoMessageWhileValidatingClientHello", CryptoMessageWhileValidatingClientHello);
  ("CryptoUpdateBeforeHandshakeComplete", CryptoUpdateBeforeHandshakeComplete);
  ("VersionNegotiationMismatch", VersionNegotiationMismatch);
  ("BadMultipathFlag", BadMultipathFlag);
  ("IPAddressChanged", IPAddressChanged);
  ("ConnectionMigrationNoMigratableStreams", ConnectionMigrationNoMigratableStreams);
  ("ConnectionMigrationTooManyChanges", ConnectionMigrationTooManyChanges);
  ("ConnectionMigrationNoNewNetwork", ConnectionMigrationNoNewNetwork);
  ("ConnectionMigrationNonMigratableStream", ConnectionMigrationNonMigratableStream)].

Lemma declared_codes_named :
  forallb (fun p => bool_decide (ErrorCode_String (snd p) = fst p)) declared_codes = true.
Proof. by vm_compute. Qed.

Lemma declared_codes_distinct : NoDup (map snd declared_codes).
Proof. by apply (bool_decide_unpack _). Qed.

(** [ErrorCode.String], which cuts names out of six concatenated strings,
    gives every declared error code the name of its constant, and no two
    constants share a code. *)
Theorem ErrorCode_String_name name code :
  In (name, code) declared_codes ->
  ErrorCode_String code = name /\
  forall name', In (name', code) declared_codes -> name' = name.
Proof.
  intros Hin. assert (H : forall n, In (n, code) declared_codes -> ErrorCode_String code = n).
  { intros n Hn. pose proof declared_codes_named as Hall. rewrite forallb_forall in Hall.
    by apply Hall, bool_decide_eq_true in Hn. }
  split; [by apply H|]. intros name' Hn. by rewrite <- (H _ Hin), <- (H _ Hn).
Qed.

Lemma ErrorCode_String_name_witness : ErrorCode_String InvalidAckData = "InvalidAckData".
Proof.
  refine (proj1 (ErrorCode_String_name "InvalidAckData" InvalidAckData _)). cbn. repeat (first [by left | right]).
Defined.

End qerr.
