(* ===== verification/ByteOrder.v ===== *)
(** * Byte orders (internal/utils/byteorder*.go)

    The two implementations of the interface [utils.ByteOrder], with the panics
    of the odd-sized writers, and the law the frames rely on: what a writer of
    [n] bytes appends, the reader of [n] bytes gives back.  The frames are
    verified against the class [ByteOrderLaws], which both byte orders
    discharge. *)
From S2P Require Import Prelude.

(** ** The interface *)

Record ByteOrder : Type := {
  ReadUintN : Z -> reader Z;
  ReadUint64 : reader Z;
  ReadUint32 : reader Z;
  ReadUint16 : reader Z;
  WriteUint64 : Z -> writer;
  WriteUint56 : Z -> writer;
  WriteUint48 : Z -> writer;
  WriteUint40 : Z -> writer;
  WriteUint32 : Z -> writer;
  WriteUint24 : Z -> writer;
  WriteUint16 : Z -> writer;
}.

(** ** Little endian *)

(** The loop of [littleEndian.ReadUintN]: [k] iterations are left, the loop
    variable is [i] and the accumulator [res]. *)
Fixpoint leReadUintN_loop (k : nat) (i res : Z) : reader Z :=
  match k with
  | O => rret res
  | S k' =>
      bt <-- ReadByte ;;
      leReadUintN_loop k' (u8 (i + 1)) (Z.lxor res (shl64 bt (u8 (i * 8))))
  end.

Definition leReadUintN (length : Z) : reader Z := leReadUintN_loop (Z.to_nat length) 0 0.

Definition leReadUint64 : reader Z :=
  b1 <-- ReadByte ;; b2 <-- ReadByte ;; b3 <-- ReadByte ;; b4 <-- ReadByte ;;
  b5 <-- ReadByte ;; b6 <-- ReadByte ;; b7 <-- ReadByte ;; b8 <-- ReadByte ;;
  rret (b1 +u shl64 b2 8 +u shl64 b3 16 +u shl64 b4 24 +u
        shl64 b5 32 +u shl64 b6 40 +u shl64 b7 48 +u shl64 b8 56).

Definition leReadUint32 : reader Z :=
  b1 <-- ReadByte ;; b2 <-- ReadByte ;; b3 <-- ReadByte ;; b4 <-- ReadByte ;;
  rret (u32 (b1 + u32 (Z.shiftl b2 8) + u32 (Z.shiftl b3 16) + u32 (Z.shiftl b4 24))).

Definition leReadUint16 : reader Z :=
  b1 <-- ReadByte ;; b2 <-- ReadByte ;;
  rret (u16 (b1 + u16 (Z.shiftl b2 8))).

Definition leWriteUint64 (i : Z) : writer :=
  WriteBytes [u8 i; u8 (shr64 i 8); u8 (shr64 i 16); u8 (shr64 i 24);
              u8 (shr64 i 32); u8 (shr64 i 40); u8 (shr64 i 48); u8 (shr64 i 56)].

Definition leWriteUint56 (i : Z) : writer :=
  if i >=? Z.shiftl 1 56 then Panic else
  WriteBytes [u8 i; u8 (shr64 i 8); u8 (shr64 i 16); u8 (shr64 i 24);
              u8 (shr64 i 32); u8 (shr64 i 40); u8 (shr64 i 48)].

Definition leWriteUint48 (i : Z) : writer :=
  if i >=? Z.shiftl 1 48 then Panic else
  WriteBytes [u8 i; u8 (shr64 i 8); u8 (shr64 i 16); u8 (shr64 i 24);
              u8 (shr64 i 32); u8 (shr64 i 40)].

Definition leWriteUint40 (i : Z) : writer :=
  if i >=? Z.shiftl 1 40 then Panic else
  WriteBytes [u8 i; u8 (shr64 i 8); u8 (shr64 i 16); u8 (shr64 i 24); u8 (shr64 i 32)].

Definition leWriteUint32 (i : Z) : writer :=
  WriteBytes [u8 i; u8 (shr64 i 8); u8 (shr64 i 16); u8 (shr64 i 24)].

Definition leWriteUint24 (i : Z) : writer :=
  if i >=? Z.shiftl 1 24 then Panic else
  WriteBytes [u8 i; u8 (shr64 i 8); u8 (shr64 i 16)].

Definition leWriteUint16 (i : Z) : writer :=
  WriteBytes [u8 i; u8 (shr64 i 8)].

Definition LittleEndian : ByteOrder := {|
  ReadUintN := leReadUintN;
  ReadUint64 := leReadUint64; ReadUint32 := leReadUint32; ReadUint16 := leReadUint16;
  WriteUint64 := leWriteUint64; WriteUint56 := leWriteUint56;
  WriteUint48 := leWriteUint48; WriteUint40 := leWriteUint40;
  WriteUint32 := leWriteUint32; WriteUint24 := leWriteUint24;
  WriteUint16 := leWriteUint16;
|}.

(** ** Big endian *)

Fixpoint beReadUintN_loop (length : Z) (k : nat) (i res : Z) : reader Z :=
  match k with
  | O => rret res
  | S k' =>
      bt <-- ReadByte ;;
      beReadUintN_loop length k' (u8 (i + 1))
        (Z.lxor res (shl64 bt (u8 (u8 (length - 1 - i) * 8))))
  end.

Definition beReadUintN (length : Z) : reader Z := beReadUintN_loop length (Z.to_nat length) 0 0.

Definition beReadUint64 : reader Z :=
  b8 <-- ReadByte ;; b7 <-- ReadByte ;; b6 <-- ReadByte ;; b5 <-- ReadByte ;;
  b4 <-- ReadByte ;; b3 <-- ReadByte ;; b2 <-- ReadByte ;; b1 <-- ReadByte ;;
  rret (b1 +u shl64 b2 8 +u shl64 b3 16 +u shl64 b4 24 +u
        shl64 b5 32 +u shl64 b6 40 +u shl64 b7 48 +u shl64 b8 56).

Definition beReadUint32 : reader Z :=
  b4 <-- ReadByte ;; b3 <-- ReadByte ;; b2 <-- ReadByte ;; b1 <-- ReadByte ;;
  rret (u32 (b1 + u32 (Z.shiftl b2 8) + u32 (Z.shiftl b3 16) + u32 (Z.shiftl b4 24))).

Definition beReadUint16 : reader Z :=
  b2 <-- ReadByte ;; b1 <-- ReadByte ;;
  rret (u16 (b1 + u16 (Z.shiftl b2 8))).

Definition beWriteUint64 (i : Z) : writer :=
  WriteBytes [u8 (shr64 i 56); u8 (shr64 i 48); u8 (shr64 i 40); u8 (shr64 i 32);
              u8 (shr64 i 24); u8 (shr64 i 16); u8 (shr64 i 8); u8 i].

Definition beWriteUint56 (i : Z) : writer :=
  if i >=? Z.shiftl 1 56 then Panic else
  WriteBytes [u8 (shr64 i 48); u8 (shr64 i 40); u8 (shr64 i 32);
              u8 (shr64 i 24); u8 (shr64 i 16); u8 (shr64 i 8); u8 i].

Definition beWriteUint48 (i : Z) : writer :=
  if i >=? Z.shiftl 1 48 then Panic else
  WriteBytes [u8 (shr64 i 40); u8 (shr64 i 32);
              u8 (shr64 i 24); u8 (shr64 i 16); u8 (shr64 i 8); u8 i].

Definition beWriteUint40 (i : Z) : writer :=
  if i >=? Z.shiftl 1 40 then Panic else
  WriteBytes [u8 (shr64 i 32); u8 (shr64 i 24); u8 (shr64 i 16); u8 (shr64 i 8); u8 i].

Definition beWriteUint32 (i : Z) : writer :=
  WriteBytes [u8 (shr64 i 24); u8 (shr64 i 16); u8 (shr64 i 8); u8 i].

Definition beWriteUint24 (i : Z) : writer :=
  if i >=? Z.shiftl 1 24 then Panic else
  WriteBytes [u8 (shr64 i 16); u8 (shr64 i 8); u8 i].

Definition beWriteUint16 (i : Z) : writer :=
  WriteBytes [u8 (shr64 i 8); u8 i].

Definition BigEndian : ByteOrder := {|
  ReadUintN := beReadUintN;
  ReadUint64 := beReadUint64; ReadUint32 := beReadUint32; ReadUint16 := beReadUint16;
  WriteUint64 := beWriteUint64; WriteUint56 := beWriteUint56;
  WriteUint48 := beWriteUint48; WriteUint40 := beWriteUint40;
  WriteUint32 := beWriteUint32; WriteUint24 := beWriteUint24;
  WriteUint16 := beWriteUint16;
|}.

Definition Version37 : Z := 37.
Definition Version38 : Z := 38.
Definition Version39 : Z := 39.

(** Values are big endian from QUIC 39 on. *)
Definition GetByteOrder (v : Z) : ByteOrder :=
  if v <? Version39 then LittleEndian else BigEndian.

(** ** The laws of a byte order *)

(** The [n]-byte encoding a byte order uses for all its sizes, and that its
    writers and readers agree on it. *)
Class ByteOrderLaws (bo : ByteOrder) := {
  enc : nat -> Z -> list Z;
  enc_length : forall n v, length (enc n v) = n;
  enc_bytes : forall n v, bytes_ok (enc n v);
  WriteUint64_enc : forall v, is_u64 v -> WriteUint64 bo v = Ok (enc 8 v);
  WriteUint56_enc : forall v, 0 <= v < 2 ^ 56 -> WriteUint56 bo v = Ok (enc 7 v);
  WriteUint48_enc : forall v, 0 <= v < 2 ^ 48 -> WriteUint48 bo v = Ok (enc 6 v);
  WriteUint40_enc : forall v, 0 <= v < 2 ^ 40 -> WriteUint40 bo v = Ok (enc 5 v);
  WriteUint32_enc : forall v, is_u32 v -> WriteUint32 bo v = Ok (enc 4 v);
  WriteUint24_enc : forall v, 0 <= v < 2 ^ 24 -> WriteUint24 bo v = Ok (enc 3 v);
  WriteUint16_enc : forall v, is_u16 v -> WriteUint16 bo v = Ok (enc 2 v);
  enc_1 : forall v, is_u8 v -> enc 1 v = [v];
  ReadUintN_enc : forall n v r, (n <= 8)%nat -> 0 <= v < 2 ^ (8 * Z.of_nat n) ->
    ReadUintN bo (Z.of_nat n) (enc n v ++ r) = Ok (v, r);
  ReadUint64_enc : forall v r, is_u64 v -> ReadUint64 bo (enc 8 v ++ r) = Ok (v, r);
  ReadUint32_enc : forall v r, is_u32 v -> ReadUint32 bo (enc 4 v ++ r) = Ok (v, r);
  ReadUint16_enc : forall v r, is_u16 v -> ReadUint16 bo (enc 2 v ++ r) = Ok (v, r);
  ReadUintN_gives : forall n, (n <= 8)%nat ->
    reader_gives (fun v => 0 <= v < 2 ^ (8 * Z.of_nat n)) (ReadUintN bo (Z.of_nat n));
  ReadUint64_gives : reader_gives is_u64 (ReadUint64 bo);
  ReadUint32_gives : reader_gives is_u32 (ReadUint32 bo);
  ReadUint16_gives : reader_gives is_u16 (ReadUint16 bo);
}.

(** ** Both byte orders satisfy them *)

(** The little-endian encoding, least significant byte first. *)
Fixpoint leEnc (n : nat) (v : Z) : list Z :=
  match n with
  | O => []
  | S n' => u8 v :: leEnc n' (v / 256)
  end.

Definition beEnc (n : nat) (v : Z) : list Z := rev (leEnc n v).

Lemma leEnc_length n v : length (leEnc n v) = n.
Proof. revert v. induction n as [|n IH]; intros v; simpl; [done|]. by rewrite IH. Qed.

Lemma beEnc_length n v : length (beEnc n v) = n.
Proof. unfold beEnc. by rewrite length_rev, leEnc_length. Qed.

Lemma leEnc_bytes n v : bytes_ok (leEnc n v).
Proof.
  revert v. induction n as [|n IH]; intros v; simpl; constructor; auto with go. apply IH.
Qed.

Lemma beEnc_bytes n v : bytes_ok (beEnc n v).
Proof. apply Forall_rev, leEnc_bytes. Qed.

Lemma shr64_div v n : 0 <= n -> shr64 v n = v / 2 ^ n.
Proof. intros. unfold shr64. by apply Z.shiftr_div_pow2. Qed.

(** The bytes of [leEnc] are the shifts the source writes. *)
Ltac shifts_to_divs :=
  rewrite ?shr64_div by lia; repeat rewrite Z.div_div by lia;
  repeat f_equal; try reflexivity.

Lemma leEnc_8 v : leEnc 8 v =
  [u8 v; u8 (shr64 v 8); u8 (shr64 v 16); u8 (shr64 v 24);
   u8 (shr64 v 32); u8 (shr64 v 40); u8 (shr64 v 48); u8 (shr64 v 56)].
Proof. cbn [leEnc]. shifts_to_divs. Qed.

Lemma leEnc_take n m v : (n <= m)%nat -> leEnc n v = take n (leEnc m v).
Proof.
  revert m v. induction n as [|n IH]; intros [|m] v Hle; simpl; try done; [lia|].
  by rewrite (IH m) by lia.
Qed.

(** ** Reading an encoding back *)

(** The value of a list of bytes, least significant first. *)
Fixpoint leVal (l : list Z) : Z :=
  match l with [] => 0 | b :: l' => b + 256 * leVal l' end.

Lemma leVal_range l : bytes_ok l -> 0 <= leVal l < 2 ^ (8 * zlen l).
Proof.
  induction 1 as [|b l Hb Hl IH]; [done|].
  rewrite zlen_cons. unfold is_u8 in Hb.
  replace (8 * (1 + zlen l)) with (8 + 8 * zlen l) by lia.
  rewrite Z.pow_add_r by (pose proof (zlen_nonneg l); lia). simpl leVal. zpow. lia.
Qed.

Lemma leVal_leEnc n v : 0 <= v < 2 ^ (8 * Z.of_nat n) -> leVal (leEnc n v) = v.
Proof.
  revert v. induction n as [|n IH]; intros v Hv; simpl.
  - change (2 ^ (8 * 0)) with 1 in Hv. lia.
  - replace (8 * Z.of_nat (S n)) with (8 + 8 * Z.of_nat n) in Hv by lia.
    rewrite Z.pow_add_r in Hv by lia. rewrite IH.
    + unfold u8, wrap. change (2 ^ 8) with 256. pose proof (Z.div_mod v 256). lia.
    + split; [apply Z.div_pos; lia|]. apply Z.div_lt_upper_bound; zpow; lia.
Qed.

Lemma leVal_app l k : leVal (l ++ k) = leVal l + 2 ^ (8 * zlen l) * leVal k.
Proof.
  induction l as [|b l IH]; simpl.
  - change (zlen []) with 0. change (2 ^ (8 * 0)) with 1. lia.
  - rewrite IH, zlen_cons. replace (8 * (1 + zlen l)) with (8 + 8 * zlen l) by lia.
    rewrite Z.pow_add_r by (pose proof (zlen_nonneg l); lia). zpow. lia.
Qed.

Lemma shl64_byte b i : 0 <= i <= 7 -> is_u8 b -> shl64 b (u8 (i * 8)) = Z.shiftl b (8 * i).
Proof.
  intros Hi Hb. rewrite u8_small by mlia. unfold shl64. rewrite Z.mul_comm.
  apply wrap_small. rewrite Z.shiftl_mul_pow2 by lia. unfold is_u8 in Hb. split; [lia|].
  assert (0 < 2 ^ (8 * i) <= 2 ^ 56) by (split; [lia|apply Z.pow_le_mono_r; lia]). zpow. nia.
Qed.

(** Adding a byte above the [8 * i] bits of the accumulator keeps it in range. *)
Lemma acc_range a b i :
  0 <= i -> 0 <= a < 2 ^ (8 * i) -> is_u8 b ->
  0 <= a + Z.shiftl b (8 * i) < 2 ^ (8 * (i + 1)).
Proof.
  intros Hi Ha Hb. rewrite Z.shiftl_mul_pow2 by lia.
  replace (8 * (i + 1)) with (8 + 8 * i) by lia. rewrite Z.pow_add_r by lia.
  unfold is_u8 in Hb. zpow. nia.
Qed.

Lemma leReadUintN_loop_app k i res l r :
  length l = k -> 0 <= i -> i + Z.of_nat k <= 8 -> 0 <= res < 2 ^ (8 * i) -> bytes_ok l ->
  leReadUintN_loop k i res (l ++ r) = Ok (res + 2 ^ (8 * i) * leVal l, r).
Proof.
  revert i res l. induction k as [|k IH]; intros i res l Hl Hi Hk Hres Hb.
  { apply nil_length_inv in Hl. subst. simpl. unfold rret. do 2 f_equal. lia. }
  destruct l as [|b l]; [done|]. inv Hb. injection Hl as Hl.
  cbn [leReadUintN_loop app]. rewrite (rbind_ok _ _ _ b (l ++ r)) by done.
  rewrite shl64_byte by (auto; lia).
  rewrite lxor_disjoint_add by (auto; lia).
  rewrite u8_small by mlia.
  rewrite IH; auto; try lia; [|by apply acc_range; auto; lia].
  rewrite Z.shiftl_mul_pow2 by lia. cbn [leVal].
  replace (8 * (i + 1)) with (8 * i + 8) by lia. rewrite Z.pow_add_r by lia.
  zpow. do 2 f_equal. lia.
Qed.

Lemma leReadUintN_app l r :
  (length l <= 8)%nat -> bytes_ok l ->
  leReadUintN (zlen l) (l ++ r) = Ok (leVal l, r).
Proof.
  intros Hl Hb. unfold leReadUintN, zlen. rewrite Nat2Z.id.
  rewrite leReadUintN_loop_app by (auto; simpl; lia). do 2 f_equal. simpl. lia.
Qed.

(** The big-endian loop after some bytes: the accumulator is a multiple of
    what is still to be read. *)
Lemma beReadUintN_loop_app n k res l r :
  length l = k -> (k <= n)%nat -> (n <= 8)%nat -> bytes_ok l ->
  0 <= res -> (2 ^ (8 * Z.of_nat k) | res) -> res < 2 ^ 64 ->
  beReadUintN_loop (Z.of_nat n) k (Z.of_nat (n - k)) res (l ++ r) =
    Ok (res + leVal (rev l), r).
Proof.
  revert res l. induction k as [|k IH]; intros res l Hl Hk Hn Hb Hres Hdiv Hlt.
  { apply nil_length_inv in Hl. subst. simpl. unfold rret. do 2 f_equal. lia. }
  destruct l as [|b l]; [done|]. inv Hb. injection Hl as Hl.
  cbn [beReadUintN_loop app]. rewrite (rbind_ok _ _ _ b (l ++ r)) by done.
  rewrite (u8_small (_ - 1 - _)) by mlia.
  rewrite shl64_byte by (auto; lia).
  replace (Z.of_nat n - 1 - Z.of_nat (n - S k)) with (Z.of_nat k) by lia.
  rewrite u8_small by mlia.
  replace (Z.of_nat (n - S k) + 1) with (Z.of_nat (n - k)) by lia.
  destruct Hdiv as [q Hq].
  assert (Hpow : 2 ^ (8 * Z.of_nat (S k)) = 256 * 2 ^ (8 * Z.of_nat k)).
  { replace (8 * Z.of_nat (S k)) with (8 + 8 * Z.of_nat k) by lia. by rewrite Z.pow_add_r by lia. }
  assert (0 < 2 ^ (8 * Z.of_nat k)) by lia.
  assert (Hx : Z.lxor res (Z.shiftl b (8 * Z.of_nat k)) = res + b * 2 ^ (8 * Z.of_nat k)).
  { rewrite Z.lxor_comm. rewrite Hq.
    rewrite <- (Z.shiftl_mul_pow2 q) by lia. rewrite lxor_disjoint_add; [|lia|].
    - rewrite !Z.shiftl_mul_pow2 by lia. lia.
    - rewrite Z.shiftl_mul_pow2 by lia. rewrite Hpow. unfold is_u8 in *. zpow. nia. }
  rewrite Hx.
  assert (Hq' : 2 ^ 64 = 2 ^ (64 - 8 * Z.of_nat (S k)) * (256 * 2 ^ (8 * Z.of_nat k))).
  { rewrite <- Hpow, <- Z.pow_add_r by lia. f_equal. lia. }
  rewrite Hpow in Hq. revert Hx IH Hq Hq'. unfold is_u8 in *. zpow.
  set (P := 2 ^ (8 * Z.of_nat k)) in *. generalize (2 ^ (64 - 8 * Z.of_nat (S k))) as q'.
  intros q' Hx IH Hq Hq'. assert (0 <= q < q') by nia.
  assert (res + b * P < 18446744073709551616) by nia.
  rewrite IH; auto; try lia.
  - cbn [rev]. rewrite leVal_app. unfold zlen. rewrite length_rev, Hl. simpl leVal.
    fold P. do 2 f_equal. lia.
  - exists (256 * q + b). rewrite Hq. lia.
Qed.

Lemma beReadUintN_app l r :
  (length l <= 8)%nat -> bytes_ok l ->
  beReadUintN (zlen l) (l ++ r) = Ok (leVal (rev l), r).
Proof.
  intros Hl Hb. unfold beReadUintN, zlen. rewrite Nat2Z.id.
  pose proof (beReadUintN_loop_app (length l) (length l) 0 l r) as H.
  rewrite Nat.sub_diag in H. change (Z.of_nat 0) with 0 in H. rewrite H; auto; try lia. by exists 0.
Qed.

(** What the fixed-size readers compute, on bytes. *)
Lemma leReadUint16_app a b r :
  is_u8 a -> is_u8 b -> leReadUint16 (a :: b :: r) = Ok (leVal [a; b], r).
Proof.
  intros. unfold leReadUint16, rbind, ReadByte, rret. simpl leVal.
  rewrite Z.shiftl_mul_pow2 by lia. do 2 f_equal.
  unfold u16. rewrite (wrap_small _ (b * _)) by mlia. rewrite wrap_small; mlia.
Qed.

Lemma leReadUint32_app a b c d r :
  is_u8 a -> is_u8 b -> is_u8 c -> is_u8 d ->
  leReadUint32 (a :: b :: c :: d :: r) = Ok (leVal [a; b; c; d], r).
Proof.
  intros. unfold leReadUint32, rbind, ReadByte, rret. simpl leVal.
  rewrite !Z.shiftl_mul_pow2 by lia. do 2 f_equal.
  unfold u32. rewrite (wrap_small _ (b * _)), (wrap_small _ (c * _)), (wrap_small _ (d * _)) by mlia.
  rewrite wrap_small; mlia.
Qed.

Lemma leReadUint64_app a b c d e f g h r :
  bytes_ok [a; b; c; d; e; f; g; h] ->
  leReadUint64 (a :: b :: c :: d :: e :: f :: g :: h :: r) =
    Ok (leVal [a; b; c; d; e; f; g; h], r).
Proof.
  intros Hb. unfold bytes_ok in Hb. rewrite !List.Forall_cons_iff in Hb. destruct_and! Hb.
  unfold leReadUint64, rbind, ReadByte, rret. simpl leVal.
  unfold shl64. rewrite !Z.shiftl_mul_pow2 by lia. do 2 f_equal.
  rewrite !(u64_small (_ * _)) by mlia.
  add64_exact. mlia.
Qed.

(** A read that runs into the end of the data fails with [EOF]. *)
Lemma leReadUintN_loop_short k i res r :
  (length r < k)%nat -> leReadUintN_loop k i res r = Err EOF.
Proof.
  revert i res r. induction k as [|k IH]; intros i res [|b r] H; simpl in *; try lia; [done|].
  rewrite (rbind_ok _ _ _ b r) by done. apply IH. lia.
Qed.

Lemma beReadUintN_loop_short n k i res r :
  (length r < k)%nat -> beReadUintN_loop n k i res r = Err EOF.
Proof.
  revert i res r. induction k as [|k IH]; intros i res [|b r] H; simpl in *; try lia; [done|].
  rewrite (rbind_ok _ _ _ b r) by done. apply IH. lia.
Qed.

(** The big-endian readers are the little-endian ones on reversed bytes. *)
Lemma beReadUint16_rev a b r : beReadUint16 (a :: b :: r) = leReadUint16 (b :: a :: r).
Proof. done. Qed.
Lemma beReadUint32_rev a b c d r :
  beReadUint32 (a :: b :: c :: d :: r) = leReadUint32 (d :: c :: b :: a :: r).
Proof. done. Qed.
Lemma beReadUint64_rev a b c d e f g h r :
  beReadUint64 (a :: b :: c :: d :: e :: f :: g :: h :: r) =
  leReadUint64 (h :: g :: f :: e :: d :: c :: b :: a :: r).
Proof. done. Qed.

Lemma leVal_bound l n : bytes_ok l -> zlen l = n -> 0 <= leVal l < 2 ^ (8 * n).
Proof. intros Hl <-. by apply leVal_range. Qed.

Lemma leReadUintN_gives n : (n <= 8)%nat ->
  reader_gives (fun v => 0 <= v < 2 ^ (8 * Z.of_nat n)) (leReadUintN (Z.of_nat n)).
Proof.
  intros Hn r v r' Hr E. destruct (decide (length r < n)%nat) as [Hs|Hs].
  { unfold leReadUintN in E. rewrite Nat2Z.id in E. by rewrite leReadUintN_loop_short in E. }
  rewrite <- (take_drop n r) in Hr, E. apply bytes_ok_app in Hr as [Ht Hd].
  assert (Hl : length (take n r) = n) by (rewrite length_take; lia).
  replace (Z.of_nat n) with (zlen (take n r)) in E by (unfold zlen; lia).
  rewrite leReadUintN_app in E by (auto; lia). simplify_eq.
  split; [|done]. apply leVal_bound; [done|]. unfold zlen. lia.
Qed.

Lemma beReadUintN_gives n : (n <= 8)%nat ->
  reader_gives (fun v => 0 <= v < 2 ^ (8 * Z.of_nat n)) (beReadUintN (Z.of_nat n)).
Proof.
  intros Hn r v r' Hr E. destruct (decide (length r < n)%nat) as [Hs|Hs].
  { unfold beReadUintN in E. rewrite Nat2Z.id in E. by rewrite beReadUintN_loop_short in E. }
  rewrite <- (take_drop n r) in Hr, E. apply bytes_ok_app in Hr as [Ht Hd].
  assert (Hl : length (take n r) = n) by (rewrite length_take; lia).
  replace (Z.of_nat n) with (zlen (take n r)) in E by (unfold zlen; lia).
  rewrite beReadUintN_app in E by (auto; lia). simplify_eq.
  split; [|done]. apply leVal_bound; [by apply Forall_rev|]. unfold zlen. rewrite length_rev. lia.
Qed.

(** A successful read of [n] bytes splits the input into bytes. *)
Tactic Notation "split_input" int_or_var(n) ident(r) ident(Hr) ident(E) :=
  do n (destruct r as [|? r]; [by vm_compute in E|]);
  unfold bytes_ok in Hr; rewrite !List.Forall_cons_iff in Hr; destruct_and! Hr.
Ltac bytes_bound := unfold bytes_ok; rewrite ?List.Forall_cons_iff; auto.

Lemma leRead16_gives : reader_gives is_u16 leReadUint16.
Proof.
  intros r v r' Hr E. split_input 2 r Hr E.
  rewrite leReadUint16_app in E by done. simplify_eq. split; [|done].
  apply (leVal_bound [_; _] 2); [by bytes_bound|done].
Qed.

Lemma leRead32_gives : reader_gives is_u32 leReadUint32.
Proof.
  intros r v r' Hr E. split_input 4 r Hr E.
  rewrite leReadUint32_app in E by done. simplify_eq. split; [|done].
  apply (leVal_bound [_; _; _; _] 4); [by bytes_bound|done].
Qed.

Lemma leRead64_gives : reader_gives is_u64 leReadUint64.
Proof.
  intros r v r' Hr E. split_input 8 r Hr E.
  rewrite leReadUint64_app in E by by bytes_bound. simplify_eq. split; [|done].
  apply (leVal_bound [_; _; _; _; _; _; _; _] 8); [by bytes_bound|done].
Qed.

Lemma beRead16_gives : reader_gives is_u16 beReadUint16.
Proof.
  intros r v r' Hr E. split_input 2 r Hr E. rewrite beReadUint16_rev in E.
  eapply leRead16_gives, E. by bytes_bound.
Qed.

Lemma beRead32_gives : reader_gives is_u32 beReadUint32.
Proof.
  intros r v r' Hr E. split_input 4 r Hr E. rewrite beReadUint32_rev in E.
  eapply leRead32_gives, E. by bytes_bound.
Qed.

Lemma beRead64_gives : reader_gives is_u64 beReadUint64.
Proof.
  intros r v r' Hr E. split_input 8 r Hr E. rewrite beReadUint64_rev in E.
  eapply leRead64_gives, E. by bytes_bound.
Qed.

(** ** The instances *)

Lemma leEnc_cons n v : leEnc (S n) v = u8 v :: leEnc n (v / 256).
Proof. done. Qed.

(** A guard of an odd-sized writer that does not fire. *)
Ltac writer_ok :=
  unfold leWriteUint56, leWriteUint48, leWriteUint40, leWriteUint24,
    beWriteUint56, beWriteUint48, beWriteUint40, beWriteUint24;
  rewrite Z.geb_leb; rewrite (proj2 (Z.leb_gt _ _)) by (rewrite Z.shiftl_mul_pow2; lia);
  unfold WriteBytes, beEnc; f_equal; cbn [leEnc rev app]; shifts_to_divs.

Lemma le_read_enc64 v r : is_u64 v -> leReadUint64 (leEnc 8 v ++ r) = Ok (v, r).
Proof.
  intros Hv. pose proof (leVal_leEnc 8 v Hv) as Hval. pose proof (leEnc_bytes 8 v) as Hb.
  revert Hval Hb. cbn [leEnc app]. intros Hval Hb. rewrite leReadUint64_app by done.
  by rewrite Hval.
Qed.

Lemma le_read_enc32 v r : is_u32 v -> leReadUint32 (leEnc 4 v ++ r) = Ok (v, r).
Proof.
  intros Hv. pose proof (leVal_leEnc 4 v Hv) as Hval. revert Hval. cbn [leEnc app].
  intros Hval. rewrite leReadUint32_app by auto with go. by rewrite Hval.
Qed.

Lemma le_read_enc16 v r : is_u16 v -> leReadUint16 (leEnc 2 v ++ r) = Ok (v, r).
Proof.
  intros Hv. pose proof (leVal_leEnc 2 v Hv) as Hval. revert Hval. cbn [leEnc app].
  intros Hval. rewrite leReadUint16_app by auto with go. by rewrite Hval.
Qed.

#[export] Program Instance LittleEndian_laws : ByteOrderLaws LittleEndian := {|
  enc := leEnc;
  enc_length := leEnc_length;
  enc_bytes := leEnc_bytes;
  ReadUint64_enc := le_read_enc64;
  ReadUint32_enc := le_read_enc32;
  ReadUint16_enc := le_read_enc16;
  ReadUintN_gives := leReadUintN_gives;
  ReadUint64_gives := leRead64_gives;
  ReadUint32_gives := leRead32_gives;
  ReadUint16_gives := leRead16_gives;
|}.
Next Obligation. intros v Hv. unfold WriteUint64; cbn -[leEnc]. unfold leWriteUint64. by rewrite leEnc_8. Qed.
Next Obligation. intros v Hv. cbn [WriteUint56 LittleEndian]. writer_ok. Qed.
Next Obligation. intros v Hv. cbn [WriteUint48 LittleEndian]. writer_ok. Qed.
Next Obligation. intros v Hv. cbn [WriteUint40 LittleEndian]. writer_ok. Qed.
Next Obligation.
  intros v Hv. cbn [WriteUint32 LittleEndian]. unfold leWriteUint32, WriteBytes. f_equal.
  cbn [leEnc]. shifts_to_divs.
Qed.
Next Obligation. intros v Hv. cbn [WriteUint24 LittleEndian]. writer_ok. Qed.
Next Obligation.
  intros v Hv. cbn [WriteUint16 LittleEndian]. unfold leWriteUint16, WriteBytes. f_equal.
  cbn [leEnc]. shifts_to_divs.
Qed.
Next Obligation. intros v Hv. cbn [leEnc]. by rewrite u8_small. Qed.
Next Obligation.
  intros n v r Hn Hv. cbn [ReadUintN LittleEndian].
  replace (Z.of_nat n) with (zlen (leEnc n v)) by (unfold zlen; by rewrite leEnc_length).
  rewrite leReadUintN_app.
  - by rewrite leVal_leEnc.
  - by rewrite leEnc_length.
  - apply leEnc_bytes.
Qed.

#[export] Program Instance BigEndian_laws : ByteOrderLaws BigEndian := {|
  enc := beEnc;
  enc_length := beEnc_length;
  enc_bytes := beEnc_bytes;
  ReadUint64_enc := le_read_enc64;
  ReadUint32_enc := le_read_enc32;
  ReadUint16_enc := le_read_enc16;
  ReadUintN_gives := beReadUintN_gives;
  ReadUint64_gives := beRead64_gives;
  ReadUint32_gives := beRead32_gives;
  ReadUint16_gives := beRead16_gives;
|}.
Next Obligation.
  intros v Hv. cbn [WriteUint64 BigEndian]. unfold beWriteUint64, WriteBytes, beEnc.
  by rewrite leEnc_8.
Qed.
Next Obligation. intros v Hv. cbn [WriteUint56 BigEndian]. writer_ok. Qed.
Next Obligation. intros v Hv. cbn [WriteUint48 BigEndian]. writer_ok. Qed.
Next Obligation. intros v Hv. cbn [WriteUint40 BigEndian]. writer_ok. Qed.
Next Obligation.
  intros v Hv. cbn [WriteUint32 BigEndian]. unfold beWriteUint32, WriteBytes, beEnc. f_equal.
  cbn [leEnc rev app]. shifts_to_divs.
Qed.
Next Obligation. intros v Hv. cbn [WriteUint24 BigEndian]. writer_ok. Qed.
Next Obligation.
  intros v Hv. cbn [WriteUint16 BigEndian]. unfold beWriteUint16, WriteBytes, beEnc. f_equal.
  cbn [leEnc rev app]. shifts_to_divs.
Qed.
Next Obligation. intros v Hv. unfold beEnc. cbn [leEnc rev app]. by rewrite u8_small. Qed.
Next Obligation.
  intros n v r Hn Hv. cbn [ReadUintN BigEndian].
  replace (Z.of_nat n) with (zlen (beEnc n v)) by (unfold zlen; by rewrite beEnc_length).
  rewrite beReadUintN_app.
  - unfold beEnc. by rewrite rev_involutive, leVal_leEnc.
  - by rewrite beEnc_length.
  - apply beEnc_bytes.
Qed.

(** The byte order a version uses satisfies the laws, whichever it is. *)
#[export] Instance GetByteOrder_laws v : ByteOrderLaws (GetByteOrder v).
Proof. unfold GetByteOrder. destruct (v <? Version39); apply _. Defined.
