(* ===== verification/Float16.v ===== *)
(** * The 16-bit unsigned float of ACK delays and path RTTs
    (internal/utils/float16.go)

    [readUfloat16] and [writeUfloat16] over any byte order, the value a 16-bit
    pattern stands for, and that a value that goes over the wire comes back
    truncated to 12 significant bits and clamped to the largest float. *)
From S2P Require Import Prelude ByteOrder.

Definition uFloat16ExponentBits : Z := 5.
Definition uFloat16MaxExponent : Z := Z.shiftl 1 uFloat16ExponentBits - 2.
Definition uFloat16MantissaBits : Z := 16 - uFloat16ExponentBits.
Definition uFloat16MantissaEffectiveBits : Z := uFloat16MantissaBits + 1.
Definition uFloat16MaxValue : Z :=
  shl64 (shl64 1 uFloat16MantissaEffectiveBits - 1) uFloat16MaxExponent.

(** The value of the 16-bit pattern [val]: the part of [readUfloat16] after
    the read. *)
Definition ufloat16_decode (val : Z) : Z :=
  let res := val in
  if res <? Z.shiftl 1 uFloat16MantissaEffectiveBits then res
  else
    let exponent := u16 (Z.shiftr val uFloat16MantissaBits - 1) in
    shl64 (res -u shl64 exponent uFloat16MantissaBits) exponent.

Definition readUfloat16 (byteOrder : ByteOrder) : reader Z :=
  val <-- ReadUint16 byteOrder ;; rret (ufloat16_decode val).

(** The loop of [writeUfloat16]; [offset] is halved until it is 0, so 5
    iterations are made when it starts at 16. *)
Fixpoint ufloat16_shift (fuel : nat) (offset exponent value : Z) : Z * Z :=
  match fuel with
  | O => (exponent, value)
  | S fuel' =>
      if offset >? 0 then
        if value >=? shl64 1 (u16 (uFloat16MantissaBits + offset))
        then ufloat16_shift fuel' (offset / 2) (u16 (exponent + offset)) (shr64 value offset)
        else ufloat16_shift fuel' (offset / 2) exponent value
      else (exponent, value)
  end.

Definition ufloat16_encode (value : Z) : Z :=
  if value <? shl64 1 uFloat16MantissaEffectiveBits then u16 value
  else if value >=? uFloat16MaxValue then 65535
  else
    let '(exponent, value) := ufloat16_shift 6 16 0 value in
    u16 (u16 value + u16 (Z.shiftl exponent uFloat16MantissaBits)).

Definition writeUfloat16 (byteOrder : ByteOrder) (value : Z) : writer :=
  WriteUint16 byteOrder (ufloat16_encode value).

(** ** Specification *)

(** The largest float not above [v], with 12 significant bits. *)
Definition ufloat16_round (v : Z) : Z :=
  if v <? 2 ^ 12 then v
  else if 4095 * 2 ^ 30 <=? v then 4095 * 2 ^ 30
  else let e := Z.log2 v - 11 in v / 2 ^ e * 2 ^ e.

(** ** Proofs *)

(** One iteration shifts by [o] when the value has more than [11 + o] bits. *)
Lemma ufloat16_shift_step fuel o e x :
  0 < o <= 16 -> 0 <= e -> e + o < 2 ^ 16 ->
  ufloat16_shift (S fuel) o e x =
    if 2 ^ (11 + o) <=? x then ufloat16_shift fuel (o / 2) (e + o) (x / 2 ^ o)
    else ufloat16_shift fuel (o / 2) e x.
Proof.
  intros Ho He Heo. cbn [ufloat16_shift]. rewrite Z.gtb_ltb, Z.geb_leb.
  rewrite (proj2 (Z.ltb_lt 0 o)) by lia.
  change uFloat16MantissaBits with 11. rewrite (u16_small (11 + o)) by mlia.
  unfold shl64. rewrite Z.shiftl_mul_pow2, Z.mul_1_l by lia. rewrite u64_small.
  - rewrite (u16_small (e + o)) by mlia. by rewrite shr64_div by lia.
  - split; [lia|]. apply Z.pow_lt_mono_r; lia.
Qed.

Lemma ufloat16_shift_end fuel e x : ufloat16_shift (S fuel) 0 e x = (e, x).
Proof. done. Qed.

(** The invariant of the loop: the value has been shifted by [e] and keeps its
    highest bit at 11 or above, below [11 + 2 * o]. *)
Definition shift_inv (v o e x : Z) : Prop :=
  0 <= e /\ x = v / 2 ^ e /\ 2 ^ 11 <= x < 2 ^ (11 + 2 * o).

Lemma shift_inv_step v o e x :
  0 < o <= 16 -> shift_inv v o e x ->
  if 2 ^ (11 + o) <=? x
  then 2 ^ 11 <= x / 2 ^ o < 2 ^ (11 + o) /\ x / 2 ^ o = v / 2 ^ (e + o)
  else 2 ^ 11 <= x < 2 ^ (11 + o).
Proof.
  intros Ho (He & Hx & Hlo & Hhi). case_test; [|lia].
  assert (Hp : 2 ^ (11 + o) = 2 ^ 11 * 2 ^ o) by (rewrite Z.pow_add_r; lia).
  assert (Hp2 : 2 ^ (11 + 2 * o) = 2 ^ (11 + o) * 2 ^ o)
    by (rewrite <- Z.pow_add_r by lia; f_equal; lia).
  assert (0 < 2 ^ o) by lia. split; [split|].
  - apply Z.div_le_lower_bound; lia.
  - apply Z.div_lt_upper_bound; lia.
  - rewrite Hx, Z.div_div by lia. by rewrite <- Z.pow_add_r by lia.
Qed.

(** An iteration of the loop, in terms of the invariant. *)
Lemma ufloat16_shift_inv fuel v o e x :
  0 < o <= 16 -> e + o < 2 ^ 16 -> shift_inv v o e x ->
  exists e' x', ufloat16_shift (S fuel) o e x = ufloat16_shift fuel (o / 2) e' x' /\
    e <= e' <= e + o /\ 0 <= e' /\ x' = v / 2 ^ e' /\ 2 ^ 11 <= x' < 2 ^ (11 + o).
Proof.
  intros Ho Heo Hinv. pose proof (shift_inv_step v o e x Ho Hinv) as Hs.
  destruct Hinv as (He & Hx & Hr). rewrite ufloat16_shift_step by lia.
  case_test; [exists (e + o), (x / 2 ^ o)|exists e, x]; split_and?; try done; lia.
Qed.

(** Five iterations leave the 12 highest bits, and count the others. *)
Lemma ufloat16_shift_spec v :
  2 ^ 12 <= v < 2 ^ 42 -> ufloat16_shift 6 16 0 v = (Z.log2 v - 11, v / 2 ^ (Z.log2 v - 11)).
Proof.
  intros Hv.
  assert (H0 : shift_inv v 16 0 v).
  { unfold shift_inv; split_and!; [lia|by rewrite Z.pow_0_r, Z.div_1_r|..]; zpow; simpl; lia. }
  destruct (ufloat16_shift_inv 5 v 16 0 v) as (e1 & x1 & -> & B1 & P1 & X1 & R1); [lia|zpow; lia|done|].
  destruct (ufloat16_shift_inv 4 v 8 e1 x1) as (e2 & x2 & E2 & B2 & P2 & X2 & R2);
    [lia|zpow; lia|exact (conj P1 (conj X1 R1))|].
  change (16 / 2) with 8. rewrite E2.
  destruct (ufloat16_shift_inv 3 v 4 e2 x2) as (e3 & x3 & E3 & B3 & P3 & X3 & R3);
    [lia|zpow; lia|exact (conj P2 (conj X2 R2))|].
  change (8 / 2) with 4. rewrite E3.
  destruct (ufloat16_shift_inv 2 v 2 e3 x3) as (e4 & x4 & E4 & B4 & P4 & X4 & R4);
    [lia|zpow; lia|exact (conj P3 (conj X3 R3))|].
  change (4 / 2) with 2. rewrite E4.
  destruct (ufloat16_shift_inv 1 v 1 e4 x4) as (e5 & x5 & E5 & B5 & P5 & X5 & R5);
    [lia|zpow; lia|exact (conj P4 (conj X4 R4))|].
  change (2 / 2) with 1. rewrite E5. change (1 / 2) with 0. rewrite ufloat16_shift_end.
  assert (Hlog : Z.log2 v = 11 + e5).
  { apply Z.log2_unique; [lia|]. rewrite X5 in R5.
    assert (0 < 2 ^ e5) by lia. pose proof (Z.mul_div_le v (2 ^ e5)).
    pose proof (Z.mul_succ_div_gt v (2 ^ e5)).
    replace (Z.succ (11 + e5)) with (12 + e5) by lia. rewrite !Z.pow_add_r by lia.
    change (2 ^ (11 + 1)) with (2 ^ 12) in R5. nia. }
  rewrite Hlog. replace (11 + e5 - 11) with e5 by lia. by rewrite X5.
Qed.

Lemma uFloat16MaxValue_val : uFloat16MaxValue = 4095 * 2 ^ 30.
Proof. reflexivity. Qed.

(** The exponent and the mantissa of a value between 2^12 and the maximum. *)
Lemma ufloat16_parts v :
  2 ^ 12 <= v < 4095 * 2 ^ 30 ->
  1 <= Z.log2 v - 11 <= 30 /\ 2 ^ 11 <= v / 2 ^ (Z.log2 v - 11) < 2 ^ 12.
Proof.
  intros Hv. pose proof (Z.log2_spec v ltac:(lia)) as [Hl Hu].
  assert (12 <= Z.log2 v) by (apply Z.log2_le_pow2; lia).
  assert (Z.log2 v < 42) by (apply Z.log2_lt_pow2; zpow; simpl; lia).
  set (e := Z.log2 v - 11). replace (Z.log2 v) with (11 + e) in Hl, Hu by lia.
  replace (Z.succ (11 + e)) with (12 + e) in Hu by lia.
  rewrite Z.pow_add_r in Hl, Hu by lia.
  split; [lia|]. split; [apply Z.div_le_lower_bound|apply Z.div_lt_upper_bound]; lia.
Qed.

Lemma ufloat16_encode_range v : 0 <= v -> is_u16 (ufloat16_encode v).
Proof.
  intros Hv. unfold ufloat16_encode. case_test; [apply u16_range|].
  case_test; [mlia|]. destruct (ufloat16_shift 6 16 0 v). apply u16_range.
Qed.

Lemma ufloat16_encode_mid v :
  2 ^ 12 <= v < 4095 * 2 ^ 30 ->
  ufloat16_encode v = v / 2 ^ (Z.log2 v - 11) + (Z.log2 v - 11) * 2 ^ 11.
Proof.
  intros Hv. unfold ufloat16_encode. change (shl64 1 uFloat16MantissaEffectiveBits) with (2 ^ 12).
  rewrite uFloat16MaxValue_val, Z.geb_leb.
  rewrite (proj2 (Z.ltb_ge _ _)), (proj2 (Z.leb_gt _ _)) by lia.
  rewrite ufloat16_shift_spec by (zpow; lia). change uFloat16MantissaBits with 11.
  destruct (ufloat16_parts v Hv) as [He Hm]. rewrite Z.shiftl_mul_pow2 by lia.
  change (2 ^ 11) with 2048 in *. change (2 ^ 12) with 4096 in *.
  rewrite (u16_small (v / _)) by mlia. rewrite (u16_small (_ * 2048)) by mlia.
  apply u16_small. mlia.
Qed.

Lemma ufloat16_decode_parts e m :
  1 <= e <= 30 -> 2 ^ 11 <= m < 2 ^ 12 -> ufloat16_decode (m + e * 2 ^ 11) = m * 2 ^ e.
Proof.
  intros He Hm. unfold ufloat16_decode. change uFloat16MantissaBits with 11.
  change (Z.shiftl 1 uFloat16MantissaEffectiveBits) with (2 ^ 12).
  change (2 ^ 11) with 2048 in *. change (2 ^ 12) with 4096 in *.
  rewrite (proj2 (Z.ltb_ge _ _)) by lia.
  assert (Hs : Z.shiftr (m + e * 2048) 11 = e + 1).
  { rewrite Z.shiftr_div_pow2 by lia. change (2 ^ 11) with 2048.
    rewrite Z.div_add by lia. replace (m / 2048) with 1; [lia|].
    apply Z.div_unique with (m - 2048); lia. }
  rewrite Hs. replace (e + 1 - 1) with e by lia. rewrite u16_small by mlia.
  unfold shl64. rewrite (Z.shiftl_mul_pow2 e 11) by lia. change (2 ^ 11) with 2048.
  rewrite (u64_small (e * 2048)) by mlia. rewrite sub64_small by mlia.
  replace (m + e * 2048 - e * 2048) with m by lia.
  rewrite Z.shiftl_mul_pow2 by lia. apply u64_small.
  assert (0 < 2 ^ e <= 2 ^ 30) by (split; [lia|apply Z.pow_le_mono_r; lia]).
  change (2 ^ 30) with 1073741824 in *. unfold is_u64. zpow. nia.
Qed.

(** Decoding the encoding rounds. *)
Lemma ufloat16_decode_encode v : 0 <= v -> ufloat16_decode (ufloat16_encode v) = ufloat16_round v.
Proof.
  intros Hv. unfold ufloat16_round. case_test.
  - unfold ufloat16_encode, ufloat16_decode.
    change (shl64 1 uFloat16MantissaEffectiveBits) with (2 ^ 12).
    change (Z.shiftl 1 uFloat16MantissaEffectiveBits) with (2 ^ 12).
    change (2 ^ 12) with 4096 in *.
    rewrite (proj2 (Z.ltb_lt v _)) by lia. rewrite u16_small by mlia.
    by rewrite (proj2 (Z.ltb_lt v _)) by lia.
  - case_test.
    + unfold ufloat16_encode. change (shl64 1 uFloat16MantissaEffectiveBits) with (2 ^ 12).
      rewrite uFloat16MaxValue_val, Z.geb_leb.
      by rewrite (proj2 (Z.ltb_ge _ _)), (proj2 (Z.leb_le _ _)) by lia.
    + rewrite ufloat16_encode_mid by lia. destruct (ufloat16_parts v) as [He Hm]; [lia|].
      by rewrite ufloat16_decode_parts.
Qed.

(** [readUfloat16] gives back what [writeUfloat16] was given, rounded. *)
Lemma readUfloat16_write bo `{!ByteOrderLaws bo} v l r :
  0 <= v -> writeUfloat16 bo v = Ok l -> readUfloat16 bo (l ++ r) = Ok (ufloat16_round v, r).
Proof.
  intros Hv Hw. unfold writeUfloat16 in Hw.
  rewrite WriteUint16_enc in Hw by by apply ufloat16_encode_range. simplify_eq.
  unfold readUfloat16. erewrite rbind_ok by by apply ReadUint16_enc, ufloat16_encode_range.
  unfold rret. by rewrite ufloat16_decode_encode.
Qed.

Lemma writeUfloat16_ok bo `{!ByteOrderLaws bo} v :
  0 <= v -> writeUfloat16 bo v = Ok (enc 2 (ufloat16_encode v)).
Proof. intros. by apply WriteUint16_enc, ufloat16_encode_range. Qed.

Lemma ufloat16_round_le v : 0 <= v -> 0 <= ufloat16_round v <= v.
Proof.
  intros Hv. unfold ufloat16_round. repeat case_test; [lia|lia|].
  destruct (ufloat16_parts v) as [He Hm]; [lia|].
  assert (0 < 2 ^ (Z.log2 v - 11)) by lia. pose proof (Z.mul_div_le v (2 ^ (Z.log2 v - 11))). nia.
Qed.

(** The relative error of a value in range is below 2^-11. *)
Lemma ufloat16_round_error v :
  0 <= v < 4095 * 2 ^ 30 -> 2 ^ 11 * (v - ufloat16_round v) <= v.
Proof.
  intros Hv. unfold ufloat16_round. repeat case_test; [lia|lia|].
  destruct (ufloat16_parts v) as [He Hm]; [lia|].
  assert (0 < 2 ^ (Z.log2 v - 11)) by lia.
  pose proof (Z.mul_succ_div_gt v (2 ^ (Z.log2 v - 11))).
  pose proof (Z.mul_div_le v (2 ^ (Z.log2 v - 11))).
  change (2 ^ 11) with 2048 in *. nia.
Qed.

Lemma ufloat16_decode_range w : is_u16 w -> 0 <= ufloat16_decode w <= uFloat16MaxValue.
Proof.
  intros Hw. destruct (Z.lt_ge_cases w 4096) as [Hlt|Hge].
  - unfold ufloat16_decode. change (Z.shiftl 1 uFloat16MantissaEffectiveBits) with 4096.
    rewrite (proj2 (Z.ltb_lt _ _)) by lia. rewrite uFloat16MaxValue_val. mlia.
  - pose proof (Z.div_mod w 2048 ltac:(lia)) as Hdm. pose proof (Z.mod_pos_bound w 2048 ltac:(lia)).
    assert (2 <= w / 2048 <= 31) by mlia.
    replace w with ((w mod 2048 + 2048) + (w / 2048 - 1) * 2 ^ 11) by (change (2 ^ 11) with 2048; lia).
    rewrite ufloat16_decode_parts; [|lia|change (2 ^ 11) with 2048; change (2 ^ 12) with 4096; lia].
    rewrite uFloat16MaxValue_val.
    assert (0 < 2 ^ (w / 2048 - 1) <= 2 ^ 30) by (split; [lia|apply Z.pow_le_mono_r; lia]). nia.
Qed.

(** Rounding is exact on what a decoder can return. *)
Lemma ufloat16_encode_decode w : is_u16 w -> ufloat16_encode (ufloat16_decode w) = w.
Proof.
  intros Hw. destruct (Z.lt_ge_cases w 4096) as [Hlt|Hge].
  - unfold ufloat16_decode. change (Z.shiftl 1 uFloat16MantissaEffectiveBits) with 4096.
    rewrite (proj2 (Z.ltb_lt _ _)) by lia. unfold ufloat16_encode.
    change (shl64 1 uFloat16MantissaEffectiveBits) with 4096.
    rewrite (proj2 (Z.ltb_lt _ _)) by lia. by apply u16_small.
  - pose proof (Z.div_mod w 2048 ltac:(lia)) as Hdm. pose proof (Z.mod_pos_bound w 2048 ltac:(lia)).
    set (e := w / 2048 - 1). set (m := w mod 2048 + 2048).
    assert (He : 1 <= e <= 30) by (subst e; mlia).
    assert (Hw' : w = m + e * 2 ^ 11) by (change (2 ^ 11) with 2048; lia).
    rewrite Hw', ufloat16_decode_parts by (try (change (2 ^ 11) with 2048; change (2 ^ 12) with 4096); lia).
    destruct (decide (m = 4095 /\ e = 30)) as [[-> ->]|Hne]; [reflexivity|].
    assert (Hp : 0 < 2 ^ e) by lia.
    assert (Hlog : Z.log2 (m * 2 ^ e) = 11 + e).
    { apply Z.log2_unique; [lia|]. replace (Z.succ (11 + e)) with (12 + e) by lia.
      rewrite !Z.pow_add_r by lia. change (2 ^ 11) with 2048. change (2 ^ 12) with 4096. nia. }
    rewrite ufloat16_encode_mid, Hlog.
    + replace (11 + e - 11) with e by lia. by rewrite Z.div_mul by lia.
    + assert (2 ^ 1 <= 2 ^ e) by (apply Z.pow_le_mono_r; lia). change (2 ^ 1) with 2 in *.
      change (2 ^ 12) with 4096. destruct (decide (e = 30)) as [->|].
      * split; [nia|]. change (2 ^ 30) with 1073741824. lia.
      * assert (2 ^ e <= 2 ^ 29) by (apply Z.pow_le_mono_r; lia).
        change (2 ^ 29) with 536870912 in *. change (2 ^ 30) with 1073741824. nia.
Qed.

(** ** Main result *)

(** The 16-bit floating point format is faithful in both byte orders: a
    value that is written is read back rounded down with a relative error of at
    most 1/2048 below the largest representable value, at which larger values are
    clamped; and every 16-bit pattern is the encoding of the value it decodes
    to. *)
Theorem ufloat16_faithful version v w rest :
  0 <= v -> is_u16 w ->
  (exists bs, writeUfloat16 (GetByteOrder version) v = Ok bs /\ length bs = 2%nat /\
     readUfloat16 (GetByteOrder version) (bs ++ rest) = Ok (ufloat16_round v, rest)) /\
  ufloat16_round v <= v /\
  (v < uFloat16MaxValue -> 2048 * (v - ufloat16_round v) <= v) /\
  (uFloat16MaxValue <= v -> ufloat16_round v = uFloat16MaxValue) /\
  ufloat16_encode (ufloat16_decode w) = w.
Proof.
  intros Hv Hw. split_and!.
  - exists (enc (bo := GetByteOrder version) 2 (ufloat16_encode v)).
    split_and!; [by apply writeUfloat16_ok|apply enc_length|].
    apply (readUfloat16_write (GetByteOrder version)); [done|]. by apply writeUfloat16_ok.
  - by apply ufloat16_round_le.
  - intros Hm. rewrite uFloat16MaxValue_val in Hm. by apply ufloat16_round_error.
  - intros Hm. unfold ufloat16_round. rewrite uFloat16MaxValue_val in *. repeat case_test; lia.
  - by apply ufloat16_encode_decode.
Qed.

Lemma ufloat16_faithful_witness :
  (exists bs, writeUfloat16 (GetByteOrder Version39) 1000003 = Ok bs /\ length bs = 2%nat /\
     readUfloat16 (GetByteOrder Version39) (bs ++ []) = Ok (ufloat16_round 1000003, [])) /\
  ufloat16_round 1000003 = 999936.
Proof.
  destruct (ufloat16_faithful Version39 1000003 77 []) as (H & _); [lia|by vm_compute|].
  split; [exact H|reflexivity].
Defined.
