(* ===== verification/Protocol.v ===== *)
(** * Protocol constants, packet numbers and versions (internal/protocol)

    Packet numbers are 64-bit; the wire carries their low 1, 2, 4 or 6 bytes.
    [GetPacketNumberLengthForPublicHeader] chooses the length on the sending
    side and [InferPacketNumber] rebuilds the number on the receiving side;
    the main result is that the choice is always long enough. *)
From S2P Require Import Prelude ByteOrder.

(** ** Constants *)

Definition PacketNumberLenInvalid : Z := 0.
Definition PacketNumberLen1 : Z := 1.
Definition PacketNumberLen2 : Z := 2.
Definition PacketNumberLen4 : Z := 4.
Definition PacketNumberLen6 : Z := 6.

Definition InitialPathID : Z := 0.
Definition MaxByteCountValue : Z := 2 ^ 64 - 1.
Definition MaxPacketSize : Z := 1350.

Inductive Perspective : Type := PerspectiveServer | PerspectiveClient.
#[export] Instance Perspective_eq_dec : EqDecision Perspective.
Proof. solve_decision. Defined.

Inductive EncryptionLevel : Type :=
| EncryptionUnspecified
| EncryptionUnencrypted
| EncryptionSecure
| EncryptionForwardSecure.
#[export] Instance EncryptionLevel_eq_dec : EqDecision EncryptionLevel.
Proof. solve_decision. Defined.

(** ** internal/utils/minmax.go *)

Definition MinByteCount (a b : Z) : Z := if a <? b then a else b.
Definition MaxByteCount (a b : Z) : Z := if a >? b then a else b.
Definition MaxDuration (a b : Z) : Z := if a >? b then a else b.
Definition MinDuration (a b : Z) : Z := if a >? b then b else a.
Definition MaxPacketNumber (a b : Z) : Z := if a >? b then a else b.
Definition MinPacketNumber (a b : Z) : Z := if a <? b then a else b.

Lemma MinByteCount_min a b : MinByteCount a b = Z.min a b.
Proof. unfold MinByteCount. case_test; lia. Qed.
Lemma MaxByteCount_max a b : MaxByteCount a b = Z.max a b.
Proof. unfold MaxByteCount. rewrite Z.gtb_ltb. case_test; lia. Qed.
Lemma MaxDuration_max a b : MaxDuration a b = Z.max a b.
Proof. unfold MaxDuration. rewrite Z.gtb_ltb. case_test; lia. Qed.
Lemma MinDuration_min a b : MinDuration a b = Z.min a b.
Proof. unfold MinDuration. rewrite Z.gtb_ltb. case_test; lia. Qed.
Lemma MaxPacketNumber_max a b : MaxPacketNumber a b = Z.max a b.
Proof. unfold MaxPacketNumber. rewrite Z.gtb_ltb. case_test; lia. Qed.

(** ** internal/protocol/packet_number.go *)

Definition delta (a b : Z) : Z := if a <? b then b -u a else a -u b.

Definition closestTo (target a b : Z) : Z :=
  if delta target a <? delta target b then a else b.

Definition InferPacketNumber (packetNumberLength lastPacketNumber wirePacketNumber : Z) : Z :=
  let epochDelta := shl64 1 (u8 (packetNumberLength * 8)) in
  let epoch := Z.land lastPacketNumber (u64 (Z.lnot (epochDelta -u 1))) in
  let prevEpochBegin := epoch -u epochDelta in
  let nextEpochBegin := epoch +u epochDelta in
  closestTo (lastPacketNumber +u 1)
    (epoch +u wirePacketNumber)
    (closestTo (lastPacketNumber +u 1)
       (prevEpochBegin +u wirePacketNumber) (nextEpochBegin +u wirePacketNumber)).

Definition GetPacketNumberLengthForPublicHeader (packetNumber leastUnacked : Z) : Z :=
  let diff := packetNumber -u leastUnacked in
  if diff <? Z.shiftl 2 (PacketNumberLen2 * 8 - 2) then PacketNumberLen2
  else if diff <? Z.shiftl 2 (PacketNumberLen4 * 8 - 2) then PacketNumberLen4
  else PacketNumberLen6.

Definition GetPacketNumberLength (packetNumber : Z) : Z :=
  if packetNumber <? Z.shiftl 1 (PacketNumberLen1 * 8) then PacketNumberLen1
  else if packetNumber <? Z.shiftl 1 (PacketNumberLen2 * 8) then PacketNumberLen2
  else if packetNumber <? Z.shiftl 1 (PacketNumberLen4 * 8) then PacketNumberLen4
  else PacketNumberLen6.

(** ** internal/protocol/version.go *)

Definition VersionTLS : Z := 101.
Definition VersionWhatever : Z := 0.
Definition VersionUnsupported : Z := -1.
Definition VersionUnknown : Z := -2.
Definition VersionMP : Z := 512.

Definition SupportedVersions : list Z := [VersionMP; Version39; Version38; Version37].

Definition UsesTLS (vn : Z) : bool := vn =? VersionTLS.

(** ['Q'] is 81 and ['0'] is 48. *)
Definition VersionNumberToTag (vn : Z) : Z :=
  let v := u32 vn in
  u32 (81 + u32 (Z.shiftl (v / 100 mod 10 + 48) 8)
          + u32 (Z.shiftl (v / 10 mod 10 + 48) 16)
          + u32 (Z.shiftl (v mod 10 + 48) 24)).

Definition VersionTagToNumber (v : Z) : Z :=
  u32 (u32 (u32 (Z.land (Z.shiftr v 8) 255 - 48) * 100)
     + u32 (u32 (Z.land (Z.shiftr v 16) 255 - 48) * 10)
     + u32 (Z.land (Z.shiftr v 24) 255 - 48)).

Fixpoint IsSupportedVersion (supported : list Z) (v : Z) : bool :=
  match supported with
  | [] => false
  | t :: supported' => if t =? v then true else IsSupportedVersion supported' v
  end.

(** The inner loop over the peer's versions of [ChooseSupportedVersion]. *)
Fixpoint offeredVersion (theirs : list Z) (ourVer : Z) : bool :=
  match theirs with
  | [] => false
  | theirVer :: theirs' => if ourVer =? theirVer then true else offeredVersion theirs' ourVer
  end.

Fixpoint ChooseSupportedVersion (ours theirs : list Z) : Z :=
  match ours with
  | [] => VersionUnsupported
  | ourVer :: ours' =>
      if offeredVersion theirs ourVer then ourVer else ChooseSupportedVersion ours' theirs
  end.

(** ** Packet number inference *)

Lemma delta_abs a b : is_u64 a -> is_u64 b -> delta a b = Z.abs (a - b).
Proof. intros. unfold delta. case_test; rewrite sub64_small by mlia; lia. Qed.

(** Clearing the low [n] bits of a number. *)
Lemma land_epoch x n :
  0 <= n <= 63 -> is_u64 x -> Z.land x (u64 (Z.lnot (2 ^ n - 1))) = x / 2 ^ n * 2 ^ n.
Proof.
  intros Hn Hx. rewrite <- Z.shiftl_mul_pow2, <- Z.shiftr_div_pow2 by lia.
  apply Z.bits_inj'. intros i Hi.
  rewrite Z.land_spec. unfold u64, wrap.
  destruct (Z.lt_ge_cases i 64) as [Hlt|Hge].
  - rewrite Z.mod_pow2_bits_low, Z.lnot_spec by lia.
    replace (2 ^ n - 1) with (Z.ones n) by (rewrite Z.ones_equiv; lia).
    destruct (Z.lt_ge_cases i n).
    + rewrite Z.ones_spec_low, Z.shiftl_spec_low by lia. by rewrite andb_false_r.
    + rewrite Z.ones_spec_high, Z.shiftl_spec, Z.shiftr_spec by lia.
      rewrite andb_true_r. f_equal. lia.
  - rewrite Z.mod_pow2_bits_high by lia. rewrite andb_false_r.
    rewrite Z.shiftl_spec, Z.shiftr_spec by lia. replace (i - n + n) with i by lia.
    rewrite <- (Z.mod_small x (2 ^ 64)) by done. by rewrite Z.mod_pow2_bits_high by lia.
Qed.

Definition valid_pn_len (n : Z) : Prop := n = 1 \/ n = 2 \/ n = 4 \/ n = 6.

Lemma closestTo_left t a b :
  is_u64 t -> is_u64 a -> is_u64 b -> Z.abs (t - a) < Z.abs (t - b) -> closestTo t a b = a.
Proof.
  intros. unfold closestTo. rewrite !delta_abs by done. by rewrite (proj2 (Z.ltb_lt _ _)).
Qed.
Lemma closestTo_right t a b :
  is_u64 t -> is_u64 a -> is_u64 b -> Z.abs (t - b) <= Z.abs (t - a) -> closestTo t a b = b.
Proof.
  intros. unfold closestTo. rewrite !delta_abs by done. by rewrite (proj2 (Z.ltb_ge _ _)).
Qed.

(** The number closest to [last + 1] with the given low bits, written over the
    integers: epochs [D * (q - 1)], [D * q] and [D * (q + 1)] are tried. *)
Lemma InferPacketNumber_candidates n last w :
  valid_pn_len n -> is_u64 last ->
  InferPacketNumber n last w =
    let D := 2 ^ (8 * n) in
    let epoch := last / D * D in
    closestTo (last +u 1) (epoch +u w)
      (closestTo (last +u 1) ((epoch -u D) +u w) ((epoch +u D) +u w)).
Proof.
  intros Hn Hl. unfold InferPacketNumber.
  assert (HD : shl64 1 (u8 (n * 8)) = 2 ^ (8 * n)).
  { destruct Hn as [->|[->|[->| ->]]]; reflexivity. }
  rewrite HD. assert (H1 : 2 ^ (8 * n) -u 1 = 2 ^ (8 * n) - 1).
  { destruct Hn as [->|[->|[->| ->]]]; reflexivity. }
  rewrite H1, land_epoch by (auto; destruct Hn as [->|[->|[->| ->]]]; lia). done.
Qed.

(** The truncated number is rebuilt when the packet number is less than half
    the range of the truncation away from the one after the largest seen. *)
Lemma InferPacketNumber_inv n last pn :
  valid_pn_len n -> 0 <= last < 2 ^ 62 -> 0 <= pn < 2 ^ 62 ->
  Z.abs (pn - (last + 1)) < 2 ^ (8 * n - 1) ->
  InferPacketNumber n last (pn mod 2 ^ (8 * n)) = pn.
Proof.
  intros Hn Hl Hp Hd. change (2 ^ 62) with 4611686018427387904 in *.
  rewrite InferPacketNumber_candidates by (auto; mlia).
  cbv zeta. set (D := 2 ^ (8 * n)).
  assert (HD : D = 2 * 2 ^ (8 * n - 1)).
  { subst D. rewrite <- (Z.pow_succ_r 2) by (destruct Hn as [->|[->|[->| ->]]]; lia).
    f_equal. lia. }
  assert (HDr : 256 <= D <= 281474976710656).
  { subst D. destruct Hn as [->|[->|[->| ->]]]; vm_compute; split; discriminate. }
  pose proof (Z.div_mod pn D ltac:(lia)) as Hpn. pose proof (Z.mod_pos_bound pn D ltac:(lia)).
  pose proof (Z.div_mod last D ltac:(lia)) as Hlast. pose proof (Z.mod_pos_bound last D ltac:(lia)).
  assert (Hq : 0 <= last / D) by (apply Z.div_pos; lia).
  set (q := last / D) in *. set (p := pn / D) in *. set (w := pn mod D) in *.
  assert (Hcase : p = q \/ p = q + 1 \/ p = q - 1).
  { destruct (Z.le_gt_cases (q + 2) p) as [Hle|Hgt].
    - apply (Z.mul_le_mono_nonneg_r _ _ D) in Hle; lia.
    - destruct (Z.le_gt_cases (p + 2) q) as [Hle|]; [|lia].
      apply (Z.mul_le_mono_nonneg_r _ _ D) in Hle; lia. }
  assert (Hprev : is_u64 ((q * D -u D) +u w)) by apply u64_range.
  assert (Hprev' : (q * D -u D) +u w = q * D - D + w \/
    (q = 0 /\ (q * D -u D) +u w = 2 ^ 64 - D + w)).
  { rewrite sub64_add64. destruct (decide (q = 0)) as [->|]; [right|left].
    - split; [done|]. unfold u64, wrap. zpow.
      symmetry. apply Z.mod_unique with (-1); lia.
    - apply u64_small. assert (1 * D <= q * D) by (apply Z.mul_le_mono_nonneg_r; lia). mlia. }
  assert (HqD : 0 <= q * D <= last) by (split; [apply Z.mul_nonneg_nonneg|]; lia).
  rewrite (add64_small last 1), (add64_small (q * D) w), (add64_small (q * D) D),
    (add64_small (q * D + D) w) by (zpow; lia).
  revert Hprev Hprev'. generalize ((q * D -u D) +u w) as prev. intros prev Hprev Hprev'.
  assert (HpD : p * D = q * D \/ p * D = q * D + D \/ p * D = q * D - D)
    by (destruct Hcase as [-> |[-> | ->]]; lia).
  assert (Hq0 : q = 0 -> q * D = 0) by (intros ->; lia).
  assert (Hpn0 : 0 <= p * D) by (apply Z.mul_nonneg_nonneg; [apply Z.div_pos|]; lia).
  rewrite (Z.mul_comm D p) in Hpn. rewrite (Z.mul_comm D q) in Hlast.
  clearbody q p w. revert Hpn Hlast HqD HpD Hq0 Hprev' Hpn0.
  generalize (q * D) as x. generalize (p * D) as y. intros y x Hpn Hlast HqD HpD Hq0 Hprev' Hpn0.
  destruct HpD as [-> | [-> | ->]].
  - unfold closestTo at 2. case_test; rewrite closestTo_left; mlia.
  - rewrite (closestTo_right _ prev) by mlia. rewrite closestTo_right; mlia.
  - destruct Hprev' as [-> | [Hz _]]; [|mlia].
    rewrite (closestTo_left _ (x - D + w)) by mlia. rewrite closestTo_right; mlia.
Qed.

Lemma public_header_len_valid pn lu : valid_pn_len (GetPacketNumberLengthForPublicHeader pn lu).
Proof.
  unfold GetPacketNumberLengthForPublicHeader, valid_pn_len,
    PacketNumberLen2, PacketNumberLen4, PacketNumberLen6.
  repeat case_test; lia.
Qed.

(** The chosen length leaves the distance to the least unacknowledged packet
    below half its range. *)
Lemma public_header_len_covers pn lu :
  0 <= lu <= pn -> pn - lu < 2 ^ 47 -> pn < 2 ^ 64 ->
  pn - lu < 2 ^ (8 * GetPacketNumberLengthForPublicHeader pn lu - 1).
Proof.
  intros Hlu Hd Hpn. unfold GetPacketNumberLengthForPublicHeader. rewrite sub64_small by lia.
  change (Z.shiftl 2 (PacketNumberLen2 * 8 - 2)) with 32768.
  change (Z.shiftl 2 (PacketNumberLen4 * 8 - 2)) with 2147483648.
  repeat case_test; [change (2 ^ _) with 32768|change (2 ^ _) with 2147483648|]; try lia.
  change (2 ^ (8 * PacketNumberLen6 - 1)) with (2 ^ 47). lia.
Qed.

Lemma GetPacketNumberLength_valid pn : valid_pn_len (GetPacketNumberLength pn).
Proof.
  unfold GetPacketNumberLength, valid_pn_len, PacketNumberLen1,
    PacketNumberLen2, PacketNumberLen4, PacketNumberLen6.
  repeat case_test; lia.
Qed.

(** A packet number fits the length [GetPacketNumberLength] gives it. *)
Lemma GetPacketNumberLength_fits pn :
  0 <= pn < 2 ^ 48 -> 0 <= pn < 2 ^ (8 * GetPacketNumberLength pn).
Proof.
  intros Hpn. unfold GetPacketNumberLength.
  change (Z.shiftl 1 (PacketNumberLen1 * 8)) with 256.
  change (Z.shiftl 1 (PacketNumberLen2 * 8)) with 65536.
  change (Z.shiftl 1 (PacketNumberLen4 * 8)) with 4294967296.
  repeat case_test; split; try lia; [change (2 ^ _) with 256|change (2 ^ _) with 65536|
    change (2 ^ _) with 4294967296|change (2 ^ _) with (2 ^ 48)]; lia.
Qed.

(** ** Version tags *)

Lemma version_tag_roundtrip_digits v :
  0 <= v < 1000 -> VersionTagToNumber (VersionNumberToTag v) = v.
Proof.
  intros Hv.
  assert (Hall : forallb (fun k => VersionTagToNumber (VersionNumberToTag (Z.of_nat k)) =? Z.of_nat k)
    (seq 0 1000) = true) by (vm_compute; reflexivity).
  rewrite forallb_forall in Hall. specialize (Hall (Z.to_nat v)).
  rewrite Z2Nat.id in Hall by lia. apply Z.eqb_eq, Hall, List.in_seq. lia.
Qed.

Lemma offeredVersion_In theirs v : offeredVersion theirs v = true <-> In v theirs.
Proof.
  induction theirs as [|t theirs IH]; simpl; [by split|].
  case_test; [by subst; split; auto|]. rewrite IH. intuition congruence.
Qed.

Lemma IsSupportedVersion_In supported v : IsSupportedVersion supported v = true <-> In v supported.
Proof.
  induction supported as [|t s IH]; simpl; [by split|].
  case_test; [by subst; split; auto|]. rewrite IH. intuition congruence.
Qed.
