(* ===== verification/WireStream.v ===== *)
(** * STREAM frames (internal/wire/stream_frame.go)

    Parsing, writing and sizing of STREAM frames, and the round trip through
    the wire in both byte orders. *)
From S2P Require Import Prelude Qerr ByteOrder Protocol.

Record StreamFrame : Type := {
  sf_StreamID : Z;
  sf_FinBit : bool;
  sf_DataLenPresent : bool;
  sf_Offset : Z;
  sf_Data : list Z;
}.

Definition errInvalidStreamIDLen : error := errors_New "StreamFrame: Invalid StreamID length".
Definition errInvalidOffsetLen : error := errors_New "StreamFrame: Invalid offset length".

Definition StreamFrame_DataLen (f : StreamFrame) : Z := u64 (zlen (sf_Data f)).

Definition ParseStreamFrame (version : Z) : reader StreamFrame :=
  let bo := GetByteOrder version in
  typeByte <-- ReadByte ;;
  let finBit := Z.land typeByte 64 >? 0 in
  let dataLenPresent := Z.land typeByte 32 >? 0 in
  let offsetLen0 := Z.shiftr (Z.land typeByte 28) 2 in
  let offsetLen := if offsetLen0 =? 0 then offsetLen0 else u8 (offsetLen0 + 1) in
  let streamIDLen := u8 (Z.land typeByte 3 + 1) in
  sid <-- ReadUintN bo streamIDLen ;;
  offset <-- ReadUintN bo offsetLen ;;
  dataLen0 <-- (if dataLenPresent then ReadUint16 bo else rret 0) ;;
  if dataLen0 >? u16 MaxPacketSize
  then rfail (QuicError qerr.InvalidStreamData "data len too large")
  else
  rlen <-- ReaderLen ;;
  let dataLen := if dataLenPresent then dataLen0 else u16 rlen in
  data <-- (if dataLen =? 0 then rret [] else ReadFull (Z.to_nat dataLen)) ;;
  let frame := {| sf_StreamID := u32 sid; sf_FinBit := finBit;
                  sf_DataLenPresent := dataLenPresent; sf_Offset := offset; sf_Data := data |} in
  if (sf_Offset frame +u StreamFrame_DataLen frame) <? sf_Offset frame
  then rfail (QuicError qerr.InvalidStreamData "data overflows maximum offset")
  else if negb (sf_FinBit frame) && (StreamFrame_DataLen frame =? 0)
  then rfail (ErrCode qerr.EmptyStreamFrameNoFin)
  else rret frame.

Definition calculateStreamIDLength (f : StreamFrame) : Z :=
  if sf_StreamID f <? Z.shiftl 1 8 then 1
  else if sf_StreamID f <? Z.shiftl 1 16 then 2
  else if sf_StreamID f <? Z.shiftl 1 24 then 3
  else 4.

Definition getOffsetLength (f : StreamFrame) : Z :=
  if sf_Offset f =? 0 then 0
  else if sf_Offset f <? Z.shiftl 1 16 then 2
  else if sf_Offset f <? Z.shiftl 1 24 then 3
  else if sf_Offset f <? Z.shiftl 1 32 then 4
  else if sf_Offset f <? Z.shiftl 1 40 then 5
  else if sf_Offset f <? Z.shiftl 1 48 then 6
  else if sf_Offset f <? Z.shiftl 1 56 then 7
  else 8.

(** The type byte of [StreamFrame.Write]. *)
Definition streamTypeByte (fin dataLenPresent : bool) (offsetLength streamIDLen : Z) : Z :=
  let typeByte := 128 in
  let typeByte := if fin then Z.lxor typeByte 64 else typeByte in
  let typeByte := if dataLenPresent then Z.lxor typeByte 32 else typeByte in
  let typeByte :=
    if offsetLength >? 0
    then Z.lxor typeByte (u8 (Z.shiftl (u8 (u8 offsetLength - 1)) 2)) else typeByte in
  Z.lxor typeByte (u8 (streamIDLen - 1)).

Definition writeStreamID (bo : ByteOrder) (streamIDLen streamID : Z) : writer :=
  match streamIDLen with
  | 1 => WriteByte (u8 streamID)
  | 2 => WriteUint16 bo (u16 streamID)
  | 3 => WriteUint24 bo (u32 streamID)
  | 4 => WriteUint32 bo (u32 streamID)
  | _ => Err errInvalidStreamIDLen
  end.

Definition writeOffset (bo : ByteOrder) (offsetLength offset : Z) : writer :=
  match offsetLength with
  | 0 => Ok []
  | 2 => WriteUint16 bo (u16 offset)
  | 3 => WriteUint24 bo (u32 offset)
  | 4 => WriteUint32 bo (u32 offset)
  | 5 => WriteUint40 bo offset
  | 6 => WriteUint48 bo offset
  | 7 => WriteUint56 bo offset
  | 8 => WriteUint64 bo offset
  | _ => Err errInvalidOffsetLen
  end.

Definition StreamFrame_Write (f : StreamFrame) (version : Z) : writer :=
  let bo := GetByteOrder version in
  if (zlen (sf_Data f) =? 0) && negb (sf_FinBit f)
  then Err (errors_New "StreamFrame: attempting to write empty frame without FIN")
  else
  let offsetLength := getOffsetLength f in
  let streamIDLen := calculateStreamIDLength f in
  (WriteByte (streamTypeByte (sf_FinBit f) (sf_DataLenPresent f) offsetLength streamIDLen) ;;;
   writeStreamID bo streamIDLen (sf_StreamID f) ;;;
   writeOffset bo offsetLength (sf_Offset f) ;;;
   (if sf_DataLenPresent f then WriteUint16 bo (u16 (zlen (sf_Data f))) else Ok []) ;;;
   WriteBytes (sf_Data f)).

Definition StreamFrame_MinLength (f : StreamFrame) : Z :=
  let length := 1 +u calculateStreamIDLength f +u getOffsetLength f in
  if sf_DataLenPresent f then length +u 2 else length.

(** ** Well-formed frames *)

(** A frame the types allow: 32-bit stream ID, 64-bit offset, bytes as data,
    and a final offset that does not overflow. *)
Record StreamFrame_wf (f : StreamFrame) : Prop := {
  sf_wf_id : is_u32 (sf_StreamID f);
  sf_wf_off : 0 <= sf_Offset f;
  sf_wf_end : sf_Offset f + zlen (sf_Data f) < 2 ^ 64;
  sf_wf_data : bytes_ok (sf_Data f);
}.

(** What can be sent: data or FIN, and a length the receiver accepts. *)
Definition StreamFrame_sendable (f : StreamFrame) : Prop :=
  StreamFrame_wf f /\ (sf_FinBit f = true \/ sf_Data f <> []) /\
  zlen (sf_Data f) <= if sf_DataLenPresent f then MaxPacketSize else 2 ^ 16 - 1.

(** ** Round trip *)

Lemma calculateStreamIDLength_range f :
  calculateStreamIDLength f = 1 \/ calculateStreamIDLength f = 2 \/
  calculateStreamIDLength f = 3 \/ calculateStreamIDLength f = 4.
Proof. unfold calculateStreamIDLength. repeat case_test; tauto. Qed.

Lemma getOffsetLength_range f : 0 <= getOffsetLength f <= 8 /\ getOffsetLength f <> 1.
Proof. unfold getOffsetLength. repeat case_test; lia. Qed.

Lemma calculateStreamIDLength_fits f :
  is_u32 (sf_StreamID f) -> 0 <= sf_StreamID f < 2 ^ (8 * calculateStreamIDLength f).
Proof.
  unfold calculateStreamIDLength. intros H. rewrite !Z.shiftl_mul_pow2 by lia.
  repeat case_test; rewrite ?Z.mul_1_l in *; simpl Z.mul; mlia.
Qed.

Lemma getOffsetLength_fits f :
  0 <= sf_Offset f < 2 ^ 64 -> 0 <= sf_Offset f < 2 ^ (8 * getOffsetLength f).
Proof.
  unfold getOffsetLength. intros H. rewrite !Z.shiftl_mul_pow2 by lia.
  repeat case_test; rewrite ?Z.mul_1_l in *; simpl Z.mul; rewrite ?Z.pow_0_r; mlia.
Qed.

(** The type byte gives back the flags and the lengths. *)
Lemma streamTypeByte_decode fin dlp ol il :
  (0 <= ol <= 8 /\ ol <> 1) -> 1 <= il <= 4 ->
  let tb := streamTypeByte fin dlp ol il in
  is_u8 tb /\ (Z.land tb 64 >? 0) = fin /\ (Z.land tb 32 >? 0) = dlp /\
  (let o := Z.shiftr (Z.land tb 28) 2 in if o =? 0 then o else u8 (o + 1)) = ol /\
  u8 (Z.land tb 3 + 1) = il /\ Z.land tb 128 = 128.
Proof.
  intros Ho Hi.
  assert (ol = 0 \/ ol = 2 \/ ol = 3 \/ ol = 4 \/ ol = 5 \/ ol = 6 \/ ol = 7 \/ ol = 8)
    as Ho' by lia.
  assert (il = 1 \/ il = 2 \/ il = 3 \/ il = 4) as Hi' by lia. clear Ho Hi.
  destruct fin, dlp; destruct_or! Ho'; destruct_or! Hi'; subst; vm_compute;
    repeat split; discriminate.
Qed.

Section roundtrip.
Context (bo : ByteOrder) `{!ByteOrderLaws bo}.

Lemma writeStreamID_enc n v :
  1 <= n <= 4 -> 0 <= v < 2 ^ (8 * n) ->
  writeStreamID bo n v = Ok (enc (Z.to_nat n) v).
Proof.
  intros Hn Hv. assert (n = 1 \/ n = 2 \/ n = 3 \/ n = 4) as Hn' by lia.
  destruct_or! Hn'; subst; unfold writeStreamID; simpl Z.mul in *.
  - rewrite u8_small by done. by rewrite enc_1.
  - rewrite u16_small by done. by apply WriteUint16_enc.
  - rewrite u32_small by mlia. by apply WriteUint24_enc.
  - rewrite u32_small by done. by apply WriteUint32_enc.
Qed.

Lemma enc_0 v : enc 0 v = [].
Proof. apply nil_length_inv, enc_length. Qed.

Lemma writeOffset_enc n v :
  0 <= n <= 8 -> n <> 1 -> 0 <= v < 2 ^ (8 * n) ->
  writeOffset bo n v = Ok (enc (Z.to_nat n) v).
Proof.
  intros Hn Hn1 Hv.
  assert (n = 0 \/ n = 2 \/ n = 3 \/ n = 4 \/ n = 5 \/ n = 6 \/ n = 7 \/ n = 8) as Hn' by lia.
  destruct_or! Hn'; subst; unfold writeOffset; simpl Z.mul in *.
  - by rewrite enc_0.
  - rewrite u16_small by done. by apply WriteUint16_enc.
  - rewrite u32_small by mlia. by apply WriteUint24_enc.
  - rewrite u32_small by done. by apply WriteUint32_enc.
  - by apply WriteUint40_enc.
  - by apply WriteUint48_enc.
  - by apply WriteUint56_enc.
  - by apply WriteUint64_enc.
Qed.

Lemma ReadUintN_enc_Z n v r :
  0 <= n <= 8 -> 0 <= v < 2 ^ (8 * n) ->
  ReadUintN bo n (enc (Z.to_nat n) v ++ r) = Ok (v, r).
Proof.
  intros Hn Hv. rewrite <- (Z2Nat.id n) at 1 by lia.
  apply ReadUintN_enc; [lia|]. by rewrite Z2Nat.id by lia.
Qed.
End roundtrip.

(** The bytes of a frame that is written. *)
Definition streamBytes (f : StreamFrame) (version : Z) : list Z :=
  streamTypeByte (sf_FinBit f) (sf_DataLenPresent f) (getOffsetLength f) (calculateStreamIDLength f)
  :: enc (bo := GetByteOrder version) (Z.to_nat (calculateStreamIDLength f)) (sf_StreamID f)
  ++ enc (bo := GetByteOrder version) (Z.to_nat (getOffsetLength f)) (sf_Offset f)
  ++ (if sf_DataLenPresent f then enc (bo := GetByteOrder version) 2 (zlen (sf_Data f)) else [])
  ++ sf_Data f.

Lemma sendable_len_u16 f : StreamFrame_sendable f -> is_u16 (zlen (sf_Data f)).
Proof.
  intros (_ & _ & H). unfold is_u16. pose proof (zlen_nonneg (sf_Data f)).
  destruct (sf_DataLenPresent f); unfold MaxPacketSize in H; zpow; lia.
Qed.

Lemma zlen_zero_nil {A} (l : list A) : zlen l = 0 <-> l = [].
Proof. unfold zlen. destruct l; simpl; split; intros; try done; lia. Qed.

Lemma StreamFrame_Write_bytes f version :
  StreamFrame_sendable f -> StreamFrame_Write f version = Ok (streamBytes f version).
Proof.
  intros Hs. pose proof (sendable_len_u16 f Hs) as Hlen. destruct Hs as ([Hid Ho He Hb] & Hne & Hmax).
  unfold StreamFrame_Write. assert ((zlen (sf_Data f) =? 0) && negb (sf_FinBit f) = false) as ->.
  { apply andb_false_iff. destruct Hne as [->|Hne]; [by right|left].
    apply Z.eqb_neq. by rewrite zlen_zero_nil. }
  rewrite (writeStreamID_enc (GetByteOrder version))
    by (first [by apply calculateStreamIDLength_fits|
        pose proof (calculateStreamIDLength_range f); lia]).
  pose proof (getOffsetLength_range f) as [Hol Hol1].
  rewrite (writeOffset_enc (GetByteOrder version))
    by (first [done|apply getOffsetLength_fits; pose proof (zlen_nonneg (sf_Data f)); lia]).
  unfold streamBytes, wapp, bind, WriteByte, WriteBytes.
  destruct (sf_DataLenPresent f); [|by rewrite ?app_nil_l].
  rewrite u16_small by done. by rewrite WriteUint16_enc by done.
Qed.

(** Reading the fields of a frame that was written, whatever follows it. *)
Lemma ParseStreamFrame_bytes f version rest :
  StreamFrame_sendable f -> (sf_DataLenPresent f = false -> rest = []) ->
  ParseStreamFrame version (streamBytes f version ++ rest) = Ok (f, rest).
Proof.
  intros Hs Hrest. pose proof (sendable_len_u16 f Hs) as Hlen.
  destruct Hs as ([Hid Ho He Hb] & Hne & Hmax).
  pose proof (zlen_nonneg (sf_Data f)) as Hnn.
  destruct (streamTypeByte_decode (sf_FinBit f) (sf_DataLenPresent f)
    (getOffsetLength f) (calculateStreamIDLength f)) as (Htb & Hfin & Hdlp & Hol & Hil & _).
  { apply getOffsetLength_range. }
  { pose proof (calculateStreamIDLength_range f). lia. }
  unfold ParseStreamFrame, streamBytes. rewrite <- app_comm_cons, <- !app_assoc.
  rewrite (rbind_ok _ _ _ _ _ (ReadByte_cons _ _)). cbv zeta beta in Hol |- *.
  rewrite Hfin, Hdlp, Hol, Hil.
  assert (Hidr : 0 <= calculateStreamIDLength f <= 8)
    by (pose proof (calculateStreamIDLength_range f); lia).
  rewrite (rbind_ok _ _ _ _ _ (ReadUintN_enc_Z _ _ _ _ Hidr (calculateStreamIDLength_fits f Hid))).
  rewrite (rbind_ok _ _ _ _ _ (ReadUintN_enc_Z _ _ _ _
    (proj1 (getOffsetLength_range f)) (getOffsetLength_fits f ltac:(lia)))).
  rewrite (rbind_ok _ _ _ (if sf_DataLenPresent f then zlen (sf_Data f) else 0) (sf_Data f ++ rest));
    [|by destruct (sf_DataLenPresent f); [rewrite ReadUint16_enc|]].
  change (u16 MaxPacketSize) with MaxPacketSize.
  assert (((if sf_DataLenPresent f then zlen (sf_Data f) else 0) >? MaxPacketSize) = false) as ->.
  { rewrite Z.gtb_ltb. apply Z.ltb_ge. unfold MaxPacketSize in *. by destruct (sf_DataLenPresent f). }
  rewrite (rbind_ok _ _ _ (zlen (sf_Data f ++ rest)) (sf_Data f ++ rest)) by done.
  assert ((if sf_DataLenPresent f then if sf_DataLenPresent f then zlen (sf_Data f) else 0
           else u16 (zlen (sf_Data f ++ rest))) = zlen (sf_Data f)) as ->.
  { destruct (sf_DataLenPresent f); [done|]. rewrite Hrest, app_nil_r by done. by apply u16_small. }
  rewrite (rbind_ok _ _ _ (sf_Data f) rest).
  2:{ case_test; [apply zlen_zero_nil in E; by rewrite E|].
      unfold zlen. rewrite Nat2Z.id. apply ReadFull_app. }
  cbn [sf_Offset sf_FinBit]. unfold StreamFrame_DataLen. cbn [sf_Data].
  rewrite u32_small, u64_small, add64_small by mlia.
  rewrite (proj2 (Z.ltb_ge _ _)) by lia.
  assert (negb (sf_FinBit f) && (zlen (sf_Data f) =? 0) = false) as ->.
  { apply andb_false_iff. destruct Hne as [->|Hne]; [by left|right].
    apply Z.eqb_neq. by rewrite zlen_zero_nil. }
  by destruct f.
Qed.

(** The number of bytes written. *)
Lemma streamBytes_length f version :
  zlen (streamBytes f version) = StreamFrame_MinLength f + zlen (sf_Data f).
Proof.
  unfold streamBytes. rewrite zlen_cons, !zlen_app. unfold zlen at 1 2. rewrite !enc_length.
  pose proof (calculateStreamIDLength_range f). pose proof (getOffsetLength_range f).
  unfold StreamFrame_MinLength. rewrite !Z2Nat.id by lia.
  destruct (sf_DataLenPresent f); [unfold zlen at 1; rewrite enc_length|]; 
    add64_exact; change (zlen (@nil Z)) with 0; lia.
Qed.

(** The length fields of the type byte are at most 8. *)
Lemma streamIDLen_small tb : 0 <= u8 (Z.land tb 3 + 1) <= 8.
Proof.
  assert (0 <= Z.land tb 3 < 4); [|rewrite u8_small; mlia].
  change 3 with (Z.ones 2). rewrite Z.land_ones by lia. apply (Z.mod_pos_bound tb (2 ^ 2)). lia.
Qed.

Lemma offsetLen_small tb :
  0 <= (if Z.shiftr (Z.land tb 28) 2 =? 0 then Z.shiftr (Z.land tb 28) 2
        else u8 (Z.shiftr (Z.land tb 28) 2 + 1)) <= 8.
Proof.
  assert (0 <= Z.shiftr (Z.land tb 28) 2 < 8).
  { rewrite Z.shiftr_land. change (Z.shiftr 28 2) with (Z.ones 3). rewrite Z.land_ones by lia.
    apply (Z.mod_pos_bound (Z.shiftr tb 2) (2 ^ 3)). lia. }
  case_test; [lia|]. rewrite u8_small; mlia.
Qed.

Lemma ReadUintN_gives_u64 bo `{!ByteOrderLaws bo} n :
  0 <= n <= 8 -> reader_gives is_u64 (ReadUintN bo n).
Proof.
  intros Hn r a r' Hr E. rewrite <- (Z2Nat.id n) in E by lia.
  apply ReadUintN_gives in E as [Ha Hr']; [|lia|done]. split; [|done].
  assert (2 ^ (8 * Z.of_nat (Z.to_nat n)) <= 2 ^ 64) by (apply Z.pow_le_mono_r; lia).
  unfold is_u64. lia.
Qed.

Lemma if_gives {A} (P : A -> Prop) (b : bool) (m k : reader A) :
  (b = true -> reader_gives P m) -> (b = false -> reader_gives P k) ->
  reader_gives P (if b then m else k).
Proof. destruct b; auto. Qed.

(** Everything the parser accepts is a well-formed frame that carries data or
    a FIN. *)
Lemma ParseStreamFrame_gives version :
  reader_gives (fun f => StreamFrame_wf f /\ (sf_FinBit f = true \/ sf_Data f <> []))
    (ParseStreamFrame version).
Proof.
  unfold ParseStreamFrame. eapply rbind_gives; [apply ReadByte_gives|]. intros tb Htb.
  eapply rbind_gives; [apply ReadUintN_gives_u64, streamIDLen_small; apply _|]. intros sid _.
  eapply rbind_gives; [apply ReadUintN_gives_u64, offsetLen_small; apply _|]. intros off Hoff.
  eapply (rbind_gives is_u16).
  { apply if_gives; intros _; [apply ReadUint16_gives|]. by apply rret_gives. }
  intros dl Hdl. apply if_gives; intros _; [apply rfail_gives|].
  eapply (rbind_gives (fun _ => True)).
  { intros r a r' Hr E2. unfold ReaderLen in E2. by simplify_eq. }
  intros rlen _. eapply (rbind_gives (fun d => bytes_ok d /\ zlen d < 2 ^ 16)).
  { apply if_gives; intros _; [by apply rret_gives; split; [constructor|]|].
    intros r a r' Hr E2. eapply ReadFull_gives in E2 as [[Ha Hl] Hr']; [|done].
    split; [|done]. split; [done|]. unfold zlen. rewrite Hl.
    pose proof (u16_range rlen). case_test; mlia. }
  intros data [Hdata Hlen]. cbn [sf_Offset sf_FinBit]. unfold StreamFrame_DataLen. cbn [sf_Data].
  pose proof (zlen_nonneg data). rewrite u64_small by mlia.
  apply if_gives; intros Hov; [apply rfail_gives|].
  apply if_gives; intros Hfin; [apply rfail_gives|]. apply rret_gives. bool_to_prop.
  split.
  - constructor; cbn; [apply u32_range|unfold is_u64 in Hoff; lia| |done].
    destruct (Z.lt_ge_cases (off + zlen data) (2 ^ 64)) as [|Hge]; [done|].
    assert (off +u zlen data = off + zlen data - 2 ^ 64); [|mlia].
    unfold add64, u64, wrap. symmetry. apply Z.mod_unique with 1; mlia.
  - cbn. apply andb_false_iff in Hfin as [Hf|Hf]; [left; by apply negb_false_iff in Hf|right].
    intros ->. done.
Qed.
