(* ===== verification/WireControl.v ===== *)
(** * Control frames (internal/wire: RST_STREAM, CONNECTION_CLOSE, GOAWAY,
    WINDOW_UPDATE, BLOCKED, STOP_WAITING, PING, ADD_ADDRESS and PATHS)

    For each frame its record, [Write], [MinLength] and parser; that parsing
    what was written gives the frame back and that [MinLength] is the number of
    bytes written. *)
From S2P Require Import Prelude Qerr ByteOrder Float16 Protocol WireStream.

(** ** WINDOW_UPDATE *)

Record WindowUpdateFrame : Type := { wu_StreamID : Z; wu_ByteOffset : Z }.

Definition WindowUpdateFrame_Write (f : WindowUpdateFrame) (version : Z) : writer :=
  let bo := GetByteOrder version in
  (WriteByte 4 ;;; WriteUint32 bo (u32 (wu_StreamID f)) ;;; WriteUint64 bo (wu_ByteOffset f)).

Definition WindowUpdateFrame_MinLength (f : WindowUpdateFrame) : Z := 1 + 4 + 8.

Definition ParseWindowUpdateFrame (version : Z) : reader WindowUpdateFrame :=
  let bo := GetByteOrder version in
  _ <-- ReadByte ;;
  sid <-- ReadUint32 bo ;;
  byteOffset <-- ReadUint64 bo ;;
  rret {| wu_StreamID := sid; wu_ByteOffset := byteOffset |}.

(** ** BLOCKED *)

Record BlockedFrame : Type := { bl_StreamID : Z }.

Definition BlockedFrame_Write (f : BlockedFrame) (version : Z) : writer :=
  let bo := GetByteOrder version in
  (WriteByte 5 ;;; WriteUint32 bo (u32 (bl_StreamID f))).

Definition BlockedFrame_MinLength (f : BlockedFrame) : Z := 1 + 4.

Definition ParseBlockedFrame (version : Z) : reader BlockedFrame :=
  let bo := GetByteOrder version in
  _ <-- ReadByte ;;
  sid <-- ReadUint32 bo ;;
  rret {| bl_StreamID := sid |}.

(** ** RST_STREAM *)

Record RstStreamFrame : Type := { rst_StreamID : Z; rst_ErrorCode : Z; rst_ByteOffset : Z }.

Definition RstStreamFrame_Write (f : RstStreamFrame) (version : Z) : writer :=
  let bo := GetByteOrder version in
  (WriteByte 1 ;;; WriteUint32 bo (u32 (rst_StreamID f)) ;;;
   WriteUint64 bo (rst_ByteOffset f) ;;; WriteUint32 bo (rst_ErrorCode f)).

Definition RstStreamFrame_MinLength (f : RstStreamFrame) : Z := 1 + 4 + 8 + 4.

Definition ParseRstStreamFrame (version : Z) : reader RstStreamFrame :=
  let bo := GetByteOrder version in
  _ <-- ReadByte ;;
  sid <-- ReadUint32 bo ;;
  byteOffset <-- ReadUint64 bo ;;
  errorCode <-- ReadUint32 bo ;;
  rret {| rst_StreamID := sid; rst_ErrorCode := errorCode; rst_ByteOffset := byteOffset |}.

(** ** PING *)

Record PingFrame : Type := mkPingFrame {}.

Definition PingFrame_Write (f : PingFrame) (version : Z) : writer := WriteByte 7.
Definition PingFrame_MinLength (f : PingFrame) : Z := 1.
Definition ParsePingFrame (version : Z) : reader PingFrame :=
  _ <-- ReadByte ;; rret mkPingFrame.

(** ** GOAWAY; a Go string is its bytes *)

Record GoawayFrame : Type := {
  ga_ErrorCode : Z; ga_LastGoodStream : Z; ga_ReasonPhrase : list Z }.

Definition ParseGoawayFrame (version : Z) : reader GoawayFrame :=
  let bo := GetByteOrder version in
  _ <-- ReadByte ;;
  errorCode <-- ReadUint32 bo ;;
  lastGoodStream <-- ReadUint32 bo ;;
  reasonPhraseLen <-- ReadUint16 bo ;;
  if reasonPhraseLen >? u16 MaxPacketSize
  then rfail (QuicError qerr.InvalidGoawayData "reason phrase too long")
  else
  reasonPhrase <-- ReadFull (Z.to_nat reasonPhraseLen) ;;
  rret {| ga_ErrorCode := errorCode; ga_LastGoodStream := lastGoodStream;
          ga_ReasonPhrase := reasonPhrase |}.

Definition GoawayFrame_Write (f : GoawayFrame) (version : Z) : writer :=
  let bo := GetByteOrder version in
  (WriteByte 3 ;;; WriteUint32 bo (u32 (ga_ErrorCode f)) ;;;
   WriteUint32 bo (u32 (ga_LastGoodStream f)) ;;;
   WriteUint16 bo (u16 (zlen (ga_ReasonPhrase f))) ;;;
   WriteBytes (ga_ReasonPhrase f)).

Definition GoawayFrame_MinLength (f : GoawayFrame) : Z :=
  u64 (1 + 4 + 4 + 2 + zlen (ga_ReasonPhrase f)).

(** ** CONNECTION_CLOSE *)

Record ConnectionCloseFrame : Type := { cc_ErrorCode : Z; cc_ReasonPhrase : list Z }.

Definition ParseConnectionCloseFrame (version : Z) : reader ConnectionCloseFrame :=
  let bo := GetByteOrder version in
  _ <-- ReadByte ;;
  errorCode <-- ReadUint32 bo ;;
  reasonPhraseLen <-- ReadUint16 bo ;;
  if reasonPhraseLen >? u16 MaxPacketSize
  then rfail (QuicError qerr.InvalidConnectionCloseData "reason phrase too long")
  else
  reasonPhrase <-- ReadFull (Z.to_nat reasonPhraseLen) ;;
  rret {| cc_ErrorCode := errorCode; cc_ReasonPhrase := reasonPhrase |}.

Definition ConnectionCloseFrame_MinLength (f : ConnectionCloseFrame) : Z :=
  1 + 4 + 2 +u zlen (cc_ReasonPhrase f).

Definition ConnectionCloseFrame_Write (f : ConnectionCloseFrame) (version : Z) : writer :=
  let bo := GetByteOrder version in
  (WriteByte 2 ;;; WriteUint32 bo (u32 (cc_ErrorCode f)) ;;;
   if zlen (cc_ReasonPhrase f) >? 65535
   then Err (errors_New "ConnectionFrame: ReasonPhrase too long")
   else
   (WriteUint16 bo (u16 (zlen (cc_ReasonPhrase f))) ;;; WriteBytes (cc_ReasonPhrase f))).

(** ** STOP_WAITING *)

Record StopWaitingFrame : Type := {
  sw_LeastUnacked : Z; sw_PacketNumberLen : Z; sw_PacketNumber : Z }.

Definition errLeastUnackedHigherThanPacketNumber : error :=
  errors_New "StopWaitingFrame: LeastUnacked can't be greater than the packet number".
Definition errPacketNumberNotSet : error := errors_New "StopWaitingFrame: PacketNumber not set".
Definition errPacketNumberLenNotSet : error :=
  errors_New "StopWaitingFrame: PacketNumberLen not set".

Definition StopWaitingFrame_Write (f : StopWaitingFrame) (version : Z) : writer :=
  let bo := GetByteOrder version in
  if sw_PacketNumber f =? 0 then Err errPacketNumberNotSet
  else if sw_LeastUnacked f >? sw_PacketNumber f
  then Err errLeastUnackedHigherThanPacketNumber
  else
  let leastUnackedDelta := sw_PacketNumber f -u sw_LeastUnacked f in
  (WriteByte 6 ;;;
   match sw_PacketNumberLen f with
   | 1 => WriteByte (u8 leastUnackedDelta)
   | 2 => WriteUint16 bo (u16 leastUnackedDelta)
   | 4 => WriteUint32 bo (u32 leastUnackedDelta)
   | 6 => WriteUint48 bo (Z.land leastUnackedDelta (Z.shiftl 1 48 - 1))
   | _ => Err errPacketNumberLenNotSet
   end).

Definition StopWaitingFrame_MinLength (f : StopWaitingFrame) : result Z :=
  let minLength := 1 in
  if sw_PacketNumberLen f =? PacketNumberLenInvalid then Err errPacketNumberLenNotSet
  else Ok (minLength +u sw_PacketNumberLen f).

Definition ParseStopWaitingFrame (packetNumber packetNumberLen version : Z) :
    reader StopWaitingFrame :=
  let bo := GetByteOrder version in
  _ <-- ReadByte ;;
  leastUnackedDelta <-- ReadUintN bo packetNumberLen ;;
  if leastUnackedDelta >=? packetNumber
  then rfail (QuicError qerr.InvalidStopWaitingData "invalid LeastUnackedDelta")
  else rret {| sw_LeastUnacked := packetNumber -u leastUnackedDelta;
               sw_PacketNumberLen := 0; sw_PacketNumber := 0 |}.

(** ** PATHS *)

Record PathsFrame : Type := {
  pf_MaxNumPaths : Z; pf_NumPaths : Z;
  pf_PathIDs : list Z; pf_RemoteRTTs : list Z }.

Definition ErrTooManyPaths : error :=
  errors_New "PathsFrame: more paths than the maximum enabled".
Definition ErrPathsNumber : error :=
  errors_New "PathsFrame: number of paths advertised and # of paths do not match".
Definition ErrMissingRTT : error :=
  errors_New "PathsFrame: number of paths IDs and number of remote RTTs do not match".

(** The loop over the paths; [ids] and [rtts] are what the index has not
    reached, and have the same length. *)
Fixpoint writePaths (bo : ByteOrder) (ids rtts : list Z) : writer :=
  match ids, rtts with
  | id :: ids', rtt :: rtts' =>
      (WriteByte (u8 id) ;;; writeUfloat16 bo (u64 (Z.quot rtt Microsecond)) ;;;
       writePaths bo ids' rtts')
  | _, _ => Ok []
  end.

Definition PathsFrame_Write (f : PathsFrame) (version : Z) : writer :=
  let bo := GetByteOrder version in
  (WriteByte 18 ;;; WriteByte (pf_MaxNumPaths f) ;;; WriteByte (pf_NumPaths f) ;;;
   if negb (pf_NumPaths f =? zlen (pf_PathIDs f)) then Err ErrPathsNumber
   else if negb (zlen (pf_PathIDs f) =? zlen (pf_RemoteRTTs f)) then Err ErrMissingRTT
   else writePaths bo (pf_PathIDs f) (pf_RemoteRTTs f)).

Fixpoint readPaths (bo : ByteOrder) (k : nat) (ids rtts : list Z) : reader (list Z * list Z) :=
  match k with
  | O => rret (ids, rtts)
  | S k' =>
      pathID <-- ReadByte ;;
      remoteRTT <-- readUfloat16 bo ;;
      readPaths bo k' (ids ++ [pathID]) (rtts ++ [i64 (i64 remoteRTT * Microsecond)])
  end.

Definition ParsePathsFrame (version : Z) : reader PathsFrame :=
  let bo := GetByteOrder version in
  _ <-- ReadByte ;;
  maxNum <-- ReadByte ;;
  num <-- ReadByte ;;
  if num >? maxNum then rfail ErrTooManyPaths
  else
  paths <-- readPaths bo (Z.to_nat num) [] [] ;;
  rret {| pf_MaxNumPaths := maxNum; pf_NumPaths := num;
          pf_PathIDs := fst paths; pf_RemoteRTTs := snd paths |}.

(** The sum is computed in the type of [NumPaths], a [uint8]. *)
Definition PathsFrame_MinLength (f : PathsFrame) : Z :=
  u8 (1 + 1 + 1 + u8 (3 * pf_NumPaths f)).

(** ** ADD_ADDRESS *)

Record UDPAddr : Type := { ua_IP : list Z; ua_Port : Z; ua_Zone : string }.

Record AddAddressFrame : Type := { aa_IPVersion : Z; aa_Addr : UDPAddr }.

Definition ErrUnknownIPVersion : error := errors_New "AddAddressFrame: unknown IP version".
Definition errInconsistentAddrIPVersion : error :=
  errors_New "internal inconsistency: Addr does not match IP version".

(** [net.IPv4]: the 16-byte form of an IPv4 address. *)
Definition v4InV6Prefix : list Z := [0; 0; 0; 0; 0; 0; 0; 0; 0; 0; 255; 255].
Definition netIPv4 (a b c d : Z) : list Z := v4InV6Prefix ++ [a; b; c; d].

(** [net.IP.To4]: the 4-byte form, [None] for nil. *)
Definition To4 (ip : list Z) : option (list Z) :=
  if (length ip =? 4)%nat then Some ip
  else if (length ip =? 16)%nat && bool_decide (take 12 ip = v4InV6Prefix)
  then Some (drop 12 ip)
  else None.

(** [net.IP.To16]. *)
Definition To16 (ip : list Z) : option (list Z) :=
  if (length ip =? 4)%nat then Some (v4InV6Prefix ++ ip)
  else if (length ip =? 16)%nat then Some ip
  else None.

Definition AddAddressFrame_Write (f : AddAddressFrame) (version : Z) : writer :=
  let bo := GetByteOrder version in
  (WriteByte 16 ;;; WriteByte (aa_IPVersion f) ;;;
   (match aa_IPVersion f with
    | 4 => match To4 (ua_IP (aa_Addr f)) with
           | None => Err errInconsistentAddrIPVersion
           | Some ip => WriteBytes (take 4 ip)
           end
    | 6 => match To16 (ua_IP (aa_Addr f)) with
           | None => Err errInconsistentAddrIPVersion
           | Some ip => WriteBytes (take 16 ip)
           end
    | _ => Err ErrUnknownIPVersion
    end) ;;;
   WriteUint16 bo (u16 (ua_Port (aa_Addr f)))).

(** [k] bytes read one by one. *)
Fixpoint readBytes (k : nat) : reader (list Z) :=
  match k with
  | O => rret []
  | S k' => b <-- ReadByte ;; l <-- readBytes k' ;; rret (b :: l)
  end.

Definition ParseAddAddressFrame (version : Z) : reader AddAddressFrame :=
  let bo := GetByteOrder version in
  _ <-- ReadByte ;;
  ipv <-- ReadByte ;;
  ip <-- (match ipv with
          | 4 => a <-- ReadByte ;; b <-- ReadByte ;; c <-- ReadByte ;; d <-- ReadByte ;;
                 rret (netIPv4 a b c d)
          | 6 => readBytes 16
          | _ => rfail ErrUnknownIPVersion
          end) ;;
  port <-- ReadUint16 bo ;;
  rret {| aa_IPVersion := ipv; aa_Addr := {| ua_IP := ip; ua_Port := port; ua_Zone := "" |} |}.

Definition AddAddressFrame_MinLength (f : AddAddressFrame) : result Z :=
  match aa_IPVersion f with
  | 4 => Ok (1 + 1 + 4 + 2)
  | 6 => Ok (1 + 1 + 16 + 2)
  | _ => Err ErrUnknownIPVersion
  end.

(** ** Round trips *)

(** Evaluate a writer whose fields are in range, then read it back. *)
Ltac write_step :=
  rewrite ?u8_small, ?u16_small, ?u32_small by done;
  rewrite ?WriteUint64_enc, ?WriteUint32_enc, ?WriteUint16_enc by done;
  cbn [wapp bind WriteByte WriteBytes app].

Ltac read_step :=
  match goal with
  | |- context [rbind ReadByte _ (?b :: ?r)] =>
      rewrite (rbind_ok ReadByte _ (b :: r) b r (ReadByte_cons b r))
  | |- context [rbind (ReadUint64 ?bo) _ (enc 8 ?v ++ ?r)] =>
      rewrite (rbind_ok (ReadUint64 bo) _ (enc 8 v ++ r) v r) by (by apply ReadUint64_enc)
  | |- context [rbind (ReadUint32 ?bo) _ (enc 4 ?v ++ ?r)] =>
      rewrite (rbind_ok (ReadUint32 bo) _ (enc 4 v ++ r) v r) by (by apply ReadUint32_enc)
  | |- context [rbind (ReadUint16 ?bo) _ (enc 2 ?v ++ ?r)] =>
      rewrite (rbind_ok (ReadUint16 bo) _ (enc 2 v ++ r) v r) by (by apply ReadUint16_enc)
  end.

Lemma zlen_enc bo `{!ByteOrderLaws bo} n v : zlen (enc n v) = Z.of_nat n.
Proof. unfold zlen. by rewrite enc_length. Qed.

Lemma WindowUpdateFrame_roundtrip f version :
  is_u32 (wu_StreamID f) -> is_u64 (wu_ByteOffset f) ->
  exists bs, WindowUpdateFrame_Write f version = Ok bs /\
    zlen bs = WindowUpdateFrame_MinLength f /\
    forall rest, ParseWindowUpdateFrame version (bs ++ rest) = Ok (f, rest).
Proof.
  intros Hid Hoff. unfold WindowUpdateFrame_Write. write_step. eexists. split_and!; [done|..].
  - by rewrite zlen_cons, zlen_app, !zlen_enc.
  - intros rest. rewrite <- app_comm_cons, <- app_assoc. unfold ParseWindowUpdateFrame.
    do 3 read_step. by destruct f.
Qed.

Lemma BlockedFrame_roundtrip f version :
  is_u32 (bl_StreamID f) ->
  exists bs, BlockedFrame_Write f version = Ok bs /\
    zlen bs = BlockedFrame_MinLength f /\
    forall rest, ParseBlockedFrame version (bs ++ rest) = Ok (f, rest).
Proof.
  intros Hid. unfold BlockedFrame_Write. write_step. eexists. split_and!; [done|..].
  - by rewrite zlen_cons, zlen_enc.
  - intros rest. rewrite <- app_comm_cons. unfold ParseBlockedFrame.
    do 2 read_step. by destruct f.
Qed.

Lemma RstStreamFrame_roundtrip f version :
  is_u32 (rst_StreamID f) -> is_u32 (rst_ErrorCode f) -> is_u64 (rst_ByteOffset f) ->
  exists bs, RstStreamFrame_Write f version = Ok bs /\
    zlen bs = RstStreamFrame_MinLength f /\
    forall rest, ParseRstStreamFrame version (bs ++ rest) = Ok (f, rest).
Proof.
  intros Hid He Hoff. unfold RstStreamFrame_Write. write_step. eexists. split_and!; [done|..].
  - by rewrite zlen_cons, !zlen_app, !zlen_enc.
  - intros rest. rewrite <- app_comm_cons, <- !app_assoc. unfold ParseRstStreamFrame.
    do 4 read_step. by destruct f.
Qed.

Lemma PingFrame_roundtrip f version :
  exists bs, PingFrame_Write f version = Ok bs /\
    zlen bs = PingFrame_MinLength f /\
    forall rest, ParsePingFrame version (bs ++ rest) = Ok (f, rest).
Proof. eexists. split_and!; [done|done|]. intros rest. by destruct f. Qed.

(** A reason phrase a receiver accepts. *)
Definition reason_ok (l : list Z) : Prop := bytes_ok l /\ zlen l <= MaxPacketSize.

Lemma reason_ok_u16 l : reason_ok l -> is_u16 (zlen l).
Proof. intros [_ H]. pose proof (zlen_nonneg l). unfold MaxPacketSize in H. mlia. Qed.

Lemma reason_guard l : reason_ok l -> (zlen l >? u16 MaxPacketSize) = false.
Proof. intros [_ H]. rewrite Z.gtb_ltb. by apply Z.ltb_ge. Qed.

Lemma ReadFull_zlen l r : ReadFull (Z.to_nat (zlen l)) (l ++ r) = Ok (l, r).
Proof. unfold zlen. rewrite Nat2Z.id. apply ReadFull_app. Qed.

Lemma GoawayFrame_roundtrip f version :
  is_u32 (ga_ErrorCode f) -> is_u32 (ga_LastGoodStream f) -> reason_ok (ga_ReasonPhrase f) ->
  exists bs, GoawayFrame_Write f version = Ok bs /\
    zlen bs = GoawayFrame_MinLength f /\
    forall rest, ParseGoawayFrame version (bs ++ rest) = Ok (f, rest).
Proof.
  intros He Hl Hr. pose proof (reason_ok_u16 _ Hr).
  unfold GoawayFrame_Write. write_step. eexists. split_and!; [done|..].
  - rewrite zlen_cons, !zlen_app, !zlen_enc. unfold GoawayFrame_MinLength.
    rewrite u64_small by mlia. lia.
  - intros rest. rewrite <- app_comm_cons, <- !app_assoc. unfold ParseGoawayFrame.
    do 4 read_step. rewrite reason_guard by done.
    rewrite (rbind_ok _ _ _ _ _ (ReadFull_zlen _ _)). by destruct f.
Qed.

Lemma ConnectionCloseFrame_roundtrip f version :
  is_u32 (cc_ErrorCode f) -> reason_ok (cc_ReasonPhrase f) ->
  exists bs, ConnectionCloseFrame_Write f version = Ok bs /\
    zlen bs = ConnectionCloseFrame_MinLength f /\
    forall rest, ParseConnectionCloseFrame version (bs ++ rest) = Ok (f, rest).
Proof.
  intros He Hr. pose proof (reason_ok_u16 _ Hr).
  unfold ConnectionCloseFrame_Write. rewrite Z.gtb_ltb, (proj2 (Z.ltb_ge _ _)) by mlia.
  write_step. eexists. split_and!; [done|..].
  - rewrite zlen_cons, !zlen_app, !zlen_enc. unfold ConnectionCloseFrame_MinLength.
    rewrite add64_small by mlia. lia.
  - intros rest. rewrite <- app_comm_cons, <- !app_assoc. unfold ParseConnectionCloseFrame.
    do 3 read_step. rewrite reason_guard by done.
    rewrite (rbind_ok _ _ _ _ _ (ReadFull_zlen _ _)). by destruct f.
Qed.

(** The switch over packet number lengths that the frames share. *)
Lemma writePN_enc bo `{!ByteOrderLaws bo} n v d :
  valid_pn_len n -> 0 <= v < 2 ^ (8 * n) ->
  match n with
  | 1 => WriteByte (u8 v)
  | 2 => WriteUint16 bo (u16 v)
  | 4 => WriteUint32 bo (u32 v)
  | 6 => WriteUint48 bo (Z.land v (Z.shiftl 1 48 - 1))
  | _ => d
  end = Ok (enc (Z.to_nat n) v).
Proof.
  intros Hn Hv. destruct Hn as [->|[->|[->| ->]]]; simpl Z.mul in Hv.
  - rewrite u8_small by done. by rewrite enc_1.
  - rewrite u16_small by done. by apply WriteUint16_enc.
  - rewrite u32_small by done. by apply WriteUint32_enc.
  - change (Z.shiftl 1 48 - 1) with (Z.ones 48). rewrite Z.land_ones, Z.mod_small by lia.
    by apply WriteUint48_enc.
Qed.

Lemma StopWaitingFrame_roundtrip f version :
  valid_pn_len (sw_PacketNumberLen f) ->
  0 < sw_LeastUnacked f <= sw_PacketNumber f -> is_u64 (sw_PacketNumber f) ->
  sw_PacketNumber f - sw_LeastUnacked f < 2 ^ (8 * sw_PacketNumberLen f) ->
  exists bs, StopWaitingFrame_Write f version = Ok bs /\
    StopWaitingFrame_MinLength f = Ok (zlen bs) /\
    forall rest,
      ParseStopWaitingFrame (sw_PacketNumber f) (sw_PacketNumberLen f) version (bs ++ rest) =
        Ok ({| sw_LeastUnacked := sw_LeastUnacked f; sw_PacketNumberLen := 0;
               sw_PacketNumber := 0 |}, rest).
Proof.
  intros Hn Hlu Hpn Hfit. unfold StopWaitingFrame_Write.
  rewrite (proj2 (Z.eqb_neq _ _)), Z.gtb_ltb, (proj2 (Z.ltb_ge _ _)) by lia.
  unfold is_u64 in Hpn. rewrite sub64_small by lia.
  rewrite (writePN_enc (GetByteOrder version)) by (auto; lia).
  cbn [wapp bind WriteByte app]. eexists. split_and!; [done|..].
  - unfold StopWaitingFrame_MinLength. rewrite zlen_cons, zlen_enc.
    destruct Hn as [->|[->|[->| ->]]]; reflexivity.
  - intros rest. rewrite <- app_comm_cons. unfold ParseStopWaitingFrame. read_step.
    rewrite (rbind_ok _ _ _ (sw_PacketNumber f - sw_LeastUnacked f) rest).
    + rewrite Z.geb_leb, (proj2 (Z.leb_gt _ _)) by lia. rewrite sub64_small by lia.
      unfold rret. do 3 f_equal. lia.
    + apply ReadUintN_enc_Z; [destruct Hn as [->|[->|[->| ->]]]; lia|lia].
Qed.

(** ** PATHS *)

(** A remote RTT as the receiver sees it: in microseconds, with the 12
    significant bits of the wire format. *)
Definition rtt_on_wire (rtt : Z) : Z := ufloat16_round (Z.quot rtt Microsecond) * Microsecond.

Lemma duration_quot d : 0 <= d < 2 ^ 63 -> u64 (Z.quot d Microsecond) = Z.quot d Microsecond /\
  0 <= Z.quot d Microsecond.
Proof.
  intros Hd. rewrite Z.quot_div_nonneg by (unfold Microsecond; lia).
  assert (0 <= d / Microsecond <= d).
  { unfold Microsecond. split; [apply Z.div_pos; lia|apply Z.div_le_upper_bound; lia]. }
  split; [|lia]. apply u64_small. zpow. mlia.
Qed.

Lemma ufloat16_round_max v : 0 <= v -> 0 <= ufloat16_round v <= 4095 * 2 ^ 30.
Proof.
  intros Hv. pose proof (ufloat16_round_le v Hv). unfold ufloat16_round in *.
  change (2 ^ 12) with 4096 in *. change (4095 * 2 ^ 30) with 4396972769280 in *.
  repeat case_test; lia.
Qed.

(** Durations that come out of a float fit easily in 63 bits. *)
Lemma wire_duration v :
  0 <= v -> i64 (i64 (ufloat16_round v) * Microsecond) = ufloat16_round v * Microsecond.
Proof.
  intros Hv. pose proof (ufloat16_round_max v Hv).
  change (4095 * 2 ^ 30) with 4396972769280 in *.
  unfold Microsecond. rewrite (i64_small (ufloat16_round v)), i64_small by (zpow; lia). done.
Qed.

Section paths.
Context (bo : ByteOrder) `{!ByteOrderLaws bo}.

Lemma writePaths_read ids rtts : length ids = length rtts -> Forall is_u8 ids ->
  Forall (fun d => 0 <= d < 2 ^ 63) rtts ->
  exists bs, writePaths bo ids rtts = Ok bs /\ zlen bs = 3 * zlen ids /\
    forall rest ids0 rtts0,
      readPaths bo (length ids) ids0 rtts0 (bs ++ rest) =
        Ok ((ids0 ++ ids, rtts0 ++ map rtt_on_wire rtts), rest).
Proof.
  revert rtts. induction ids as [|id ids IH]; intros [|rtt rtts] Hlen Hids Hrtts; try done.
  { exists []. split_and!; [done|done|]. intros. simpl. by rewrite !app_nil_r. }
  injection Hlen as Hlen. inv Hids. inv Hrtts.
  destruct (IH rtts Hlen) as (bs & Hw & Hl & Hr); [done|done|]. clear IH.
  destruct (duration_quot rtt) as [Hq Hq0]; [done|].
  cbn [writePaths]. rewrite Hq, u8_small by done. rewrite (writeUfloat16_ok bo) by done.
  rewrite Hw. cbn [wapp bind WriteByte app]. eexists. split_and!; [done|..].
  - rewrite zlen_cons, zlen_app, zlen_enc, zlen_cons. lia.
  - intros rest ids0 rtts0. rewrite <- app_comm_cons, <- app_assoc. cbn [length readPaths].
    read_step.
    rewrite (rbind_ok _ _ _ (ufloat16_round (Z.quot rtt Microsecond)) (bs ++ rest)).
    + rewrite Hr, wire_duration by done. by rewrite <- !app_assoc.
    + apply (readUfloat16_write bo); [done|]. by apply writeUfloat16_ok.
Qed.
End paths.

(** A PATHS frame the sender may write. *)
Record PathsFrame_wf (f : PathsFrame) : Prop := {
  pf_wf_max : is_u8 (pf_MaxNumPaths f);
  pf_wf_num : pf_NumPaths f <= pf_MaxNumPaths f;
  pf_wf_ids : pf_NumPaths f = zlen (pf_PathIDs f);
  pf_wf_rtts : length (pf_PathIDs f) = length (pf_RemoteRTTs f);
  pf_wf_id : Forall is_u8 (pf_PathIDs f);
  pf_wf_rtt : Forall (fun d => 0 <= d < 2 ^ 63) (pf_RemoteRTTs f);
}.

Lemma PathsFrame_roundtrip f version :
  PathsFrame_wf f ->
  exists bs, PathsFrame_Write f version = Ok bs /\
    zlen bs = 3 + 3 * pf_NumPaths f /\
    forall rest, ParsePathsFrame version (bs ++ rest) =
      Ok ({| pf_MaxNumPaths := pf_MaxNumPaths f; pf_NumPaths := pf_NumPaths f;
             pf_PathIDs := pf_PathIDs f;
             pf_RemoteRTTs := map rtt_on_wire (pf_RemoteRTTs f) |}, rest).
Proof.
  intros [Hmax Hnum Hids Hrtts Hid Hrtt].
  destruct (writePaths_read (GetByteOrder version) _ _ Hrtts Hid Hrtt) as (bs & Hw & Hl & Hr).
  unfold PathsFrame_Write. rewrite Hids, Z.eqb_refl.
  assert ((zlen (pf_PathIDs f) =? zlen (pf_RemoteRTTs f)) = true) as ->.
  { apply Z.eqb_eq. unfold zlen. by rewrite Hrtts. }
  cbn [negb]. rewrite Hw. cbn [wapp bind WriteByte app]. eexists. split_and!; [done|..].
  - rewrite !zlen_cons. lia.
  - intros rest. rewrite <- !app_comm_cons. unfold ParsePathsFrame. do 3 read_step.
    rewrite Z.gtb_ltb, (proj2 (Z.ltb_ge _ _)) by lia.
    rewrite (rbind_ok _ _ _ (pf_PathIDs f, map rtt_on_wire (pf_RemoteRTTs f)) rest); [done|].
    unfold zlen at 1. rewrite Nat2Z.id. by rewrite Hr.
Qed.

(** ** ADD_ADDRESS *)

Lemma readBytes_app l r : readBytes (length l) (l ++ r) = Ok (l, r).
Proof.
  induction l as [|b l IH]; [done|]. cbn [length readBytes app]. read_step.
  by rewrite (rbind_ok _ _ _ l r IH).
Qed.

Lemma To4_length ip ip4 : To4 ip = Some ip4 -> length ip4 = 4%nat.
Proof.
  unfold To4. destruct (length ip =? 4)%nat eqn:E; [apply Nat.eqb_eq in E; by intros [= <-]|].
  case_match eqn:E2; [|done]. intros [= <-]. apply andb_true_iff in E2 as [E2 _].
  apply Nat.eqb_eq in E2. rewrite length_drop. lia.
Qed.

Lemma To16_length ip ip16 : To16 ip = Some ip16 -> length ip16 = 16%nat.
Proof.
  unfold To16. destruct (length ip =? 4)%nat eqn:E.
  { intros [= <-]. apply Nat.eqb_eq in E. simpl. by rewrite E. }
  destruct (length ip =? 16)%nat eqn:E2; [|done]. intros [= <-]. by apply Nat.eqb_eq in E2.
Qed.

(** The address that arrives: the same port, and the address in 16-byte form. *)
Definition addr_on_wire (f : AddAddressFrame) : option (list Z) :=
  match aa_IPVersion f with
  | 4 => option_map (app v4InV6Prefix) (To4 (ua_IP (aa_Addr f)))
  | 6 => To16 (ua_IP (aa_Addr f))
  | _ => None
  end.

Lemma AddAddressFrame_roundtrip f version ip :
  is_u16 (ua_Port (aa_Addr f)) -> addr_on_wire f = Some ip ->
  exists bs, AddAddressFrame_Write f version = Ok bs /\
    AddAddressFrame_MinLength f = Ok (zlen bs) /\
    forall rest, ParseAddAddressFrame version (bs ++ rest) =
      Ok ({| aa_IPVersion := aa_IPVersion f;
             aa_Addr := {| ua_IP := ip; ua_Port := ua_Port (aa_Addr f); ua_Zone := "" |} |}, rest).
Proof.
  intros Hport Hip. unfold AddAddressFrame_Write, AddAddressFrame_MinLength, addr_on_wire in *.
  assert (aa_IPVersion f = 4 \/ aa_IPVersion f = 6) as [Hv|Hv].
  { destruct (aa_IPVersion f) as [|[[]|[[]|[]|]|]|]; naive_solver. }
  - rewrite Hv in *. destruct (To4 _) as [ip4|] eqn:E4; [|done]. simplify_eq/=.
    apply To4_length in E4. destruct ip4 as [|a [|b [|c [|d []]]]]; try done.
    change (take 4 [a; b; c; d]) with [a; b; c; d]. write_step. eexists. split_and!; [done|..].
    + by rewrite !zlen_cons, zlen_enc.
    + intros rest. rewrite <- !app_comm_cons. unfold ParseAddAddressFrame. do 2 read_step.
      rewrite (rbind_ok _ _ _ (netIPv4 a b c d) (enc 2 (ua_Port (aa_Addr f)) ++ rest)) by done.
      by read_step.
  - rewrite Hv in *. rewrite Hip. pose proof (To16_length _ _ Hip) as Hl.
    rewrite take_ge by lia. write_step. eexists. split_and!; [done|..].
    + rewrite !zlen_cons, zlen_app, zlen_enc. unfold zlen. by rewrite Hl.
    + intros rest. rewrite <- !app_comm_cons, <- app_assoc. unfold ParseAddAddressFrame.
      do 2 read_step. rewrite (rbind_ok _ _ _ ip (enc 2 (ua_Port (aa_Addr f)) ++ rest)).
      * by read_step.
      * rewrite <- Hl. apply readBytes_app.
Qed.
