(* ===== verification/AckRanges.v ===== *)
(** * ACK ranges on the wire (internal/wire/ack_range.go and the parts that
    ack_frame.go and close_path_frame.go share)

    ACK and CLOSE_PATH frames list the ranges of received packet numbers,
    highest first, as a first block followed by (gap, length) pairs.  A gap is
    one byte, so that a gap of more than 255 packets takes several blocks, all
    but the last of length 0; at most 255 blocks are written. *)
From S2P Require Import Prelude Qerr ByteOrder Protocol WireStream WireControl.

Record AckRange : Type := { ar_First : Z; ar_Last : Z }.
#[export] Instance AckRange_eq_dec : EqDecision AckRange.
Proof. solve_decision. Defined.

Definition ErrInvalidAckRanges : error :=
  errors_New "AckFrame: ACK frame contains invalid ACK ranges".
Definition ErrInvalidFirstAckRange : error :=
  errors_New "AckFrame: ACK frame has invalid first ACK range".
Definition errInconsistentAckLargestAcked : error :=
  errors_New "internal inconsistency: LargestAcked does not match ACK ranges".
Definition errInconsistentAckLowestAcked : error :=
  errors_New "internal inconsistency: LowestAcked does not match ACK ranges".

(** ** Validation *)

(** The loop that checks each range against the one before it. *)
Fixpoint rangesConsistent (lastAckRange : AckRange) (ranges : list AckRange) : bool :=
  match ranges with
  | [] => true
  | ackRange :: ranges' =>
      if ar_First lastAckRange <=? ar_First ackRange then false
      else if ar_First lastAckRange <=? (ar_Last ackRange +u 1) then false
      else rangesConsistent ackRange ranges'
  end.

Definition validateRanges (largestAcked : Z) (ranges : list AckRange) : bool :=
  match ranges with
  | [] => true
  | [_] => false
  | first :: rest =>
      if negb (ar_Last first =? largestAcked) then false
      else if existsb (fun r => ar_First r >? ar_Last r) ranges then false
      else rangesConsistent first rest
  end.

Fixpoint rangesAck (ranges : list AckRange) (p : Z) : bool :=
  match ranges with
  | [] => false
  | r :: ranges' =>
      if (p >=? ar_First r) && (p <=? ar_Last r) then true else rangesAck ranges' p
  end.

Definition rangesAcksPacket (lowest largest : Z) (ranges : list AckRange) (p : Z) : bool :=
  if (p <? lowest) || (p >? largest) then false
  else if negb (zlen ranges =? 0) then rangesAck ranges p
  else (p >=? lowest) && (p <=? largest).

(** ** Sizes *)

Definition rangeLength (r : AckRange) : Z := (ar_Last r -u ar_First r) +u 1.

(** The packets missing between a range and the next lower one. *)
Definition rangeGap (prev r : AckRange) : Z := (ar_First prev -u ar_Last r) -u 1.

(** [rangeLength] of [numWritableNackRanges], and [num] of [Write]: the number
    of blocks a gap takes. *)
Definition gapBlocks (gap : Z) : Z :=
  let n := (gap / 255) +u 1 in
  if gap mod 255 =? 0 then n -u 1 else n.

Fixpoint numWritable_loop (prev : AckRange) (ranges : list AckRange) (numRanges : Z) : Z :=
  match ranges with
  | [] => numRanges
  | r :: ranges' =>
      let n := gapBlocks (rangeGap prev r) in
      if (numRanges +u n) <? 255 then numWritable_loop r ranges' (numRanges +u n)
      else numRanges
  end.

Definition numWritableRanges (ranges : list AckRange) : Z :=
  match ranges with
  | [] => 0
  | r :: ranges' => numWritable_loop r ranges' 0 +u 1
  end.

Definition maxRangeLength (largest lowest : Z) (ranges : list AckRange) : Z :=
  match ranges with
  | [] => (largest -u lowest) +u 1
  | _ => fold_left (fun m r => if rangeLength r >? m then rangeLength r else m) ranges 0
  end.

Definition deltaLen (maxRangeLength : Z) : Z :=
  if maxRangeLength <=? 255 then PacketNumberLen1
  else if maxRangeLength <=? 65535 then PacketNumberLen2
  else if maxRangeLength <=? 4294967295 then PacketNumberLen4
  else PacketNumberLen6.

(** ** Writing blocks; [wl] writes a length in the chosen number of bytes *)

(** The blocks of a gap that needs several: [k] of them are left. *)
Fixpoint writeLongGap (wl : Z -> writer) (k : nat) (gap length : Z) : writer :=
  match k with
  | O => Ok []
  | S O => (WriteByte (u8 (1 + (gap -u 1) mod 255)) ;;; wl length)
  | S k' => (WriteByte 255 ;;; wl 0 ;;; writeLongGap wl k' gap length)
  end.

Definition writeRange (wl : Z -> writer) (prev r : AckRange) : writer :=
  let length := rangeLength r in
  let gap := rangeGap prev r in
  let num := gapBlocks gap in
  if num =? 1 then (WriteByte (u8 gap) ;;; wl length)
  else writeLongGap wl (Z.to_nat num) gap length.

(** The loop over the ranges after the first: the bytes, and the number of
    blocks written in the end. *)
Fixpoint writeRanges (wl : Z -> writer) (numRanges : Z) (prev : AckRange)
    (ranges : list AckRange) (numRangesWritten : Z) : result (list Z * Z) :=
  match ranges with
  | [] => Ok ([], numRangesWritten)
  | r :: ranges' =>
      let* bs := writeRange wl prev r in
      let written := numRangesWritten +u gapBlocks (rangeGap prev r) in
      if written >=? numRanges then Ok (bs, written)
      else
        let* rest := writeRanges wl numRanges r ranges' written in
        Ok (bs ++ fst rest, snd rest)
  end.

(** ** Reading blocks *)

(** The loop of the parsers.  The ranges read so far are kept last first, so
    that the head is [AckRanges[len(AckRanges)-1]]. *)
Fixpoint readBlocks (rl : reader Z) (k : nat) (acc : list AckRange)
    (inLongBlock lastRangeComplete : bool) : reader (list AckRange * bool) :=
  match k with
  | O => rret (acc, lastRangeComplete)
  | S k' =>
      gap <-- ReadByte ;;
      ackBlockLength <-- rl ;;
      match acc with
      | [] => fun _ => Panic
      | cur :: acc' =>
          let length := ackBlockLength in
          let '(acc2, complete) :=
            if inLongBlock then
              ({| ar_First := ar_First cur -u (gap +u length);
                  ar_Last := ar_Last cur -u gap |} :: acc', lastRangeComplete)
            else
              let last := (ar_First cur -u gap) -u 1 in
              ({| ar_First := (last -u length) +u 1; ar_Last := last |} :: acc, false) in
          readBlocks rl k' acc2 (ackBlockLength =? 0) (if length >? 0 then true else complete)
      end
  end.

(** The ranges of a frame with missing ranges and its [LowestAcked], after the
    first block; an incomplete last range is removed. *)
Definition readRanges (rl : reader Z) (largestAcked ackBlockLength numAckBlocks : Z) :
    reader (list AckRange * Z) :=
  let ackRange := {| ar_First := (largestAcked -u ackBlockLength) +u 1; ar_Last := largestAcked |} in
  res <-- readBlocks rl (Z.to_nat numAckBlocks) [ackRange] false false ;;
  let acc := if snd res then fst res else tail (fst res) in
  match acc with
  | [] => fun _ => Panic
  | lowest :: _ => rret (rev acc, ar_First lowest)
  end.

(** ** Descending ranges *)

(** Each range is non-empty, at least [m], and leaves a gap below the one
    before it. *)
Fixpoint ranges_desc (m : Z) (prev : AckRange) (l : list AckRange) : Prop :=
  match l with
  | [] => True
  | r :: l' => m <= ar_First r <= ar_Last r /\ ar_Last r + 1 < ar_First prev /\ ranges_desc m r l'
  end.

Definition ranges_ok (m : Z) (l : list AckRange) : Prop :=
  match l with
  | [] => True
  | r :: l' => m <= ar_First r <= ar_Last r /\ ranges_desc m r l'
  end.

(** Number of blocks of a gap: its quotient by 255, rounded up. *)
Lemma gapBlocks_spec gap : 0 < gap < 2 ^ 64 -> gapBlocks gap = (gap - 1) / 255 + 1.
Proof.
  intros Hg. unfold gapBlocks.
  pose proof (Z.div_mod gap 255 ltac:(lia)). pose proof (Z.mod_pos_bound gap 255 ltac:(lia)).
  assert (0 <= gap / 255 < 2 ^ 64 - 1).
  { split; [apply Z.div_pos; lia|]. apply Z.div_lt_upper_bound; zpow; lia. }
  rewrite add64_small by (zpow; lia). case_test.
  - rewrite sub64_small by (zpow; lia).
    replace ((gap - 1) / 255) with (gap / 255 - 1); [lia|].
    apply Z.div_unique with 254; lia.
  - f_equal. apply Z.div_unique with (gap mod 255 - 1); lia.
Qed.

Lemma gapBlocks_pos gap : 0 < gap < 2 ^ 64 -> 1 <= gapBlocks gap.
Proof.
  intros. rewrite gapBlocks_spec by done. assert (0 <= (gap - 1) / 255); [|lia].
  apply Z.div_pos; lia.
Qed.

(** Length and gap, when nothing wraps around. *)
Lemma rangeLength_val r :
  0 <= ar_First r <= ar_Last r -> ar_Last r < 2 ^ 64 - 1 ->
  rangeLength r = ar_Last r - ar_First r + 1.
Proof. intros. unfold rangeLength. rewrite sub64_small, add64_small by (zpow; lia). done. Qed.

Lemma rangeGap_val prev r :
  0 <= ar_Last r -> ar_Last r + 1 < ar_First prev < 2 ^ 64 ->
  rangeGap prev r = ar_First prev - ar_Last r - 1.
Proof. intros. unfold rangeGap. rewrite sub64_sub64. apply u64_small. mlia. Qed.

Section blocks.
(** A length writer and reader that agree on values below [B], [n] bytes each. *)
Context (wl : Z -> writer) (rl : reader Z) (el : Z -> list Z) (B n : Z).
Hypothesis wl_el : forall v, 0 <= v < B -> wl v = Ok (el v).
Hypothesis el_len : forall v, zlen (el v) = n.
Hypothesis rl_el : forall v r, 0 <= v < B -> rl (el v ++ r) = Ok (v, r).

(** One block read, when no range is being continued. *)
Lemma readBlocks_new k prev acc complete gap len rest :
  0 <= len < B -> 0 <= gap -> 0 <= ar_First prev - gap - len -> 1 <= ar_First prev - gap ->
  ar_First prev < 2 ^ 64 -> 
  readBlocks rl (S k) (prev :: acc) false complete (gap :: el len ++ rest) =
    readBlocks rl k ({| ar_First := ar_First prev - gap - len; ar_Last := ar_First prev - gap - 1 |}
                     :: prev :: acc) (len =? 0) (len >? 0) rest.
Proof.
  intros Hl Hg Hf Hp Hm. cbn [readBlocks].
  rewrite (rbind_ok _ _ _ _ _ (ReadByte_cons gap (el len ++ rest))).
  rewrite (rbind_ok _ _ _ _ _ (rl_el len rest Hl)).
  rewrite !(sub64_small (ar_First prev)) by lia. rewrite (sub64_small _ 1) by lia.
  rewrite sub64_add64, u64_small by mlia.
  replace (ar_First prev - gap - 1 - len + 1) with (ar_First prev - gap - len) by lia.
  by destruct (len >? 0).
Qed.

(** One block read, when the current range is continued. *)
Lemma readBlocks_cont k cur acc complete gap len rest :
  0 <= len < B -> 0 <= gap -> 0 <= ar_First cur - gap - len -> 0 <= ar_Last cur - gap ->
  ar_First cur < 2 ^ 64 -> ar_Last cur < 2 ^ 64 ->
  readBlocks rl (S k) (cur :: acc) true complete (gap :: el len ++ rest) =
    readBlocks rl k ({| ar_First := ar_First cur - gap - len; ar_Last := ar_Last cur - gap |}
                     :: acc) (len =? 0) (if len >? 0 then true else complete) rest.
Proof.
  intros Hl Hg Hf Hp Hm Hm'. cbn [readBlocks].
  rewrite (rbind_ok _ _ _ _ _ (ReadByte_cons gap (el len ++ rest))).
  rewrite (rbind_ok _ _ _ _ _ (rl_el len rest Hl)).
  rewrite add64_small, !sub64_small by lia.
  by replace (ar_First cur - (gap + len)) with (ar_First cur - gap - len) by lia.
Qed.

(** The remaining [S j] blocks of a long gap, read while its range is being
    continued from [c]. *)
Lemma writeLongGap_cont j gap len c :
  0 < len < B -> 0 < gap < 2 ^ 64 -> c < 2 ^ 64 - 1 ->
  len <= c - (255 * Z.of_nat j + (1 + (gap - 1) mod 255)) + 1 -> 0 < B ->
  exists bs, writeLongGap wl (S j) gap len = Ok bs /\ zlen bs = (1 + n) * Z.of_nat (S j) /\
    forall k acc complete rest,
    let last := c - (255 * Z.of_nat j + (1 + (gap - 1) mod 255)) in
    readBlocks rl (S j + k) ({| ar_First := c + 1; ar_Last := c |} :: acc) true complete (bs ++ rest) =
      readBlocks rl k ({| ar_First := last - len + 1; ar_Last := last |} :: acc) false true rest.
Proof.
  intros Hlen Hgap. pose proof (Z.mod_pos_bound (gap - 1) 255 ltac:(lia)) as Ht.
  revert c. induction j as [|j IH]; intros c Hc Hfit HB.
  - cbn [writeLongGap]. rewrite sub64_small by lia. rewrite u8_small by mlia.
    rewrite wl_el by lia. cbn [wapp bind WriteByte app]. eexists. split_and!; [done|..].
    { rewrite zlen_cons, el_len. lia. }
    intros k acc complete rest. cbv zeta. rewrite <- app_comm_cons.
    change (1 + k)%nat with (S k).
    rewrite readBlocks_cont by (cbn [ar_First ar_Last]; lia). cbn [ar_First ar_Last].
    rewrite Z.gtb_ltb, (proj2 (Z.ltb_lt _ _)), (proj2 (Z.eqb_neq _ _)) by lia.
    change (255 * Z.of_nat 0) with 0. rewrite Z.add_0_l.
    by replace (c + 1 - (1 + (gap - 1) mod 255) - len)
      with (c - (1 + (gap - 1) mod 255) - len + 1) by lia.
  - destruct (IH (c - 255)) as (bs & Hw & Hl & Hr); [lia|lia|lia|].
    change (writeLongGap wl (S (S j)) gap len) with
      (WriteByte 255 ;;; wl 0 ;;; writeLongGap wl (S j) gap len).
    rewrite Hw, wl_el by lia. cbn [wapp bind WriteByte app]. eexists. split_and!; [done|..].
    { rewrite zlen_cons, zlen_app, el_len. lia. }
    intros k acc complete rest. cbv zeta. rewrite <- app_comm_cons, <- app_assoc.
    change (S (S j) + k)%nat with (S (S j + k)).
    rewrite readBlocks_cont by (cbn [ar_First ar_Last]; lia). cbn [ar_First ar_Last].
    change (0 =? 0) with true. change (0 >? 0) with false. cbv iota.
    replace (c + 1 - 255 - 0) with (c - 255 + 1) by lia. rewrite Hr. cbv zeta.
    by replace (c - 255 - (255 * Z.of_nat j + (1 + (gap - 1) mod 255)))
      with (c - (255 * Z.of_nat (S j) + (1 + (gap - 1) mod 255))) by lia.
Qed.

(** A range that is written is read back, whatever comes after it. *)
Lemma writeRange_read prev r :
  0 <= ar_First r <= ar_Last r -> ar_Last r + 1 < ar_First prev < 2 ^ 64 ->
  rangeLength r < B ->
  exists bs, writeRange wl prev r = Ok bs /\
    zlen bs = (1 + n) * gapBlocks (rangeGap prev r) /\
    forall k acc complete rest,
      readBlocks rl (Z.to_nat (gapBlocks (rangeGap prev r)) + k) (prev :: acc) false complete
        (bs ++ rest) =
      readBlocks rl k (r :: prev :: acc) false true rest.
Proof.
  intros Hr Hp HB. unfold writeRange.
  rewrite rangeLength_val in HB |- * by lia. rewrite rangeGap_val by lia.
  set (gap := ar_First prev - ar_Last r - 1). set (len := ar_Last r - ar_First r + 1) in *.
  assert (Hg : 0 < gap < 2 ^ 64) by lia. rewrite gapBlocks_spec by done.
  pose proof (Z.div_mod (gap - 1) 255 ltac:(lia)) as Hdm.
  pose proof (Z.mod_pos_bound (gap - 1) 255 ltac:(lia)) as Ht.
  assert (Hq : 0 <= (gap - 1) / 255) by (apply Z.div_pos; lia).
  assert (Er : forall f l, f = ar_First r -> l = ar_Last r -> {| ar_First := f; ar_Last := l |} = r)
    by (intros f l -> ->; by destruct r).
  case_test.
  - rewrite u8_small by mlia. rewrite wl_el by lia. cbn [wapp bind WriteByte app].
    eexists. split_and!; [done|rewrite zlen_cons, el_len; lia|].
    intros k acc complete rest. rewrite <- app_comm_cons, E. change (Z.to_nat 1 + k)%nat with (S k).
    rewrite readBlocks_new by lia.
    rewrite Z.gtb_ltb, (proj2 (Z.ltb_lt _ _)), (proj2 (Z.eqb_neq _ _)) by lia.
    by rewrite Er by lia.
  - set (j := Z.to_nat ((gap - 1) / 255 - 1)).
    assert (Hj : (gap - 1) / 255 + 1 = Z.of_nat (S (S j))) by lia.
    rewrite Hj. rewrite !Nat2Z.id.
    change (writeLongGap wl (S (S j)) gap len) with
      (WriteByte 255 ;;; wl 0 ;;; writeLongGap wl (S j) gap len).
    destruct (writeLongGap_cont j gap len (ar_First prev - 255 - 1)) as (bs & Hw & Hl & Hrd); try lia.
    rewrite Hw, wl_el by lia. cbn [wapp bind WriteByte app]. eexists. split_and!; [done|..].
    { rewrite zlen_cons, zlen_app, el_len. lia. }
    intros k acc complete rest. rewrite <- app_comm_cons, <- app_assoc.
    change (S (S j) + k)%nat with (S (S j + k)). rewrite readBlocks_new by lia.
    change (0 =? 0) with true. change (0 >? 0) with false.
    replace (ar_First prev - 255 - 0) with (ar_First prev - 255 - 1 + 1) by lia.
    rewrite Hrd. cbv zeta. by rewrite Er by lia.
Qed.
End blocks.

(** ** The ranges that fit into a frame *)

(** The ranges after [prev] that are written when [acc] blocks are in use: the
    longest prefix that keeps the number of blocks below 255. *)
Fixpoint writable (prev : AckRange) (l : list AckRange) (acc : Z) : list AckRange :=
  match l with
  | [] => []
  | r :: l' =>
      let n := gapBlocks (rangeGap prev r) in
      if acc + n <? 255 then r :: writable r l' (acc + n) else []
  end.

(** The number of blocks a list of ranges takes. *)
Fixpoint blocksOf (prev : AckRange) (l : list AckRange) : Z :=
  match l with
  | [] => 0
  | r :: l' => gapBlocks (rangeGap prev r) + blocksOf r l'
  end.

Lemma ranges_desc_gap m prev r l :
  0 <= m -> ar_First prev < 2 ^ 64 -> ranges_desc m prev (r :: l) ->
  1 <= gapBlocks (rangeGap prev r) < 2 ^ 63 /\ ar_First r < 2 ^ 64 /\ ranges_desc m r l.
Proof.
  intros Hm Hp (Hr & Hg & Hl). split_and!; [..|lia|done].
  - apply gapBlocks_pos. rewrite rangeGap_val by lia. lia.
  - rewrite rangeGap_val, gapBlocks_spec by lia.
    assert ((ar_First prev - ar_Last r - 1 - 1) / 255 < 2 ^ 62); [|lia].
    apply Z.div_lt_upper_bound; lia.
Qed.

Lemma blocksOf_nonneg m prev l :
  0 <= m -> ar_First prev < 2 ^ 64 -> ranges_desc m prev l ->
  0 <= blocksOf prev l /\ (l <> [] -> 1 <= blocksOf prev l).
Proof.
  intros Hm. revert prev. induction l as [|r l IH]; intros prev Hp Hl; [done|].
  destruct (ranges_desc_gap m prev r l) as (Hn & Hr & Hl'); [done..|].
  destruct (IH r Hr Hl') as [H0 _]. simpl. lia.
Qed.

Lemma writable_desc m prev l acc : ranges_desc m prev l -> ranges_desc m prev (writable prev l acc).
Proof.
  revert prev acc. induction l as [|r l IH]; intros prev acc Hl; [done|].
  destruct Hl as (Hr & Hg & Hl). cbn [writable]. case_test; [|done]. split_and!; auto; lia.
Qed.

Lemma numWritable_loop_val m prev l acc :
  0 <= m -> ar_First prev < 2 ^ 64 -> ranges_desc m prev l -> 0 <= acc < 255 ->
  numWritable_loop prev l acc = acc + blocksOf prev (writable prev l acc) /\
  acc + blocksOf prev (writable prev l acc) < 255.
Proof.
  intros Hm. revert prev acc. induction l as [|r l IH]; intros prev acc Hp Hl Ha.
  { simpl. lia. }
  destruct (ranges_desc_gap m prev r l) as (Hn & Hr & Hl'); [done..|].
  cbn [numWritable_loop writable]. rewrite add64_small by (zpow; lia).
  case_test; [|simpl; lia]. cbn [blocksOf].
  destruct (IH r (acc + gapBlocks (rangeGap prev r)) Hr Hl') as [-> ?]; lia.
Qed.

(** The ranges that are written fit everything there is when the number of
    blocks stays below 255. *)
Lemma writable_all m prev l acc :
  0 <= m -> ar_First prev < 2 ^ 64 -> ranges_desc m prev l -> acc + blocksOf prev l < 255 ->
  writable prev l acc = l.
Proof.
  intros Hm. revert prev acc. induction l as [|r l IH]; intros prev acc Hp Hl Ha; [done|].
  destruct (ranges_desc_gap m prev r l) as (Hn & Hr & Hl'); [done..|].
  destruct (blocksOf_nonneg m r l) as [Hnn _]; [done..|].
  cbn [writable]. cbn [blocksOf] in Ha. case_test; [|lia]. f_equal. apply IH; auto. lia.
Qed.

Section ranges.
Context (wl : Z -> writer) (rl : reader Z) (el : Z -> list Z) (B n : Z).
Hypothesis wl_el : forall v, 0 <= v < B -> wl v = Ok (el v).
Hypothesis el_len : forall v, zlen (el v) = n.
Hypothesis rl_el : forall v r, 0 <= v < B -> rl (el v ++ r) = Ok (v, r).

(** What the loop over the ranges writes, and that it is read back. *)
Lemma writeRanges_read m prev l acc :
  0 <= m -> ar_First prev < 2 ^ 64 -> ranges_desc m prev l ->
  Forall (fun r => rangeLength r < B) l -> 0 <= acc < 255 ->
  writable prev l acc <> [] ->
  let p := writable prev l acc in
  exists bs, writeRanges wl (1 + acc + blocksOf prev p) prev l (1 + acc) =
      Ok (bs, 1 + acc + blocksOf prev p) /\
    zlen bs = (1 + n) * blocksOf prev p /\
    forall k acc0 complete rest,
      readBlocks rl (Z.to_nat (blocksOf prev p) + k) (prev :: acc0) false complete (bs ++ rest) =
      readBlocks rl k (rev p ++ prev :: acc0) false true rest.
Proof.
  intros Hm. revert prev acc. induction l as [|r l IH]; intros prev acc Hp Hl HB Ha Hne; [done|].
  destruct (ranges_desc_gap m prev r l) as (Hn & Hr & Hl'); [done..|].
  destruct Hl as (Hrr & Hg & _). inv HB.
  destruct (writeRange_read wl rl el B n wl_el el_len rl_el prev r) as (bs1 & Hw1 & Hl1 & Hr1);
    [lia|lia|done|].
  cbn [writable] in *. case_test; [|done]. clear Hne. cbv zeta. cbn [blocksOf].
  set (g := gapBlocks (rangeGap prev r)) in *.
  destruct (numWritable_loop_val m r l (acc + g)) as [_ Hlt]; [lia|lia|done|lia|].
  destruct (blocksOf_nonneg m r (writable r l (acc + g))) as [Hnn Hpos];
    [lia|lia|by apply writable_desc|].
  cbn [writeRanges]. rewrite Hw1. cbn [bind]. fold g. rewrite add64_small by (zpow; lia).
  rewrite Z.geb_leb. destruct (writable r l (acc + g)) as [|r2 p2] eqn:Ep.
  - cbn [blocksOf] in *. rewrite (proj2 (Z.leb_le _ _)) by lia.
    exists bs1. split_and!; [by rewrite Z.add_0_r|lia|].
    intros k acc0 complete rest. rewrite Z.add_0_r. by rewrite Hr1.
  - specialize (Hpos ltac:(done)). rewrite (proj2 (Z.leb_gt _ _)) by lia.
    destruct (IH r (acc + g)) as (bs2 & Hw2 & Hl2 & Hr2); [lia|done|done|lia|by rewrite Ep|].
    rewrite Ep in *.
    replace (1 + acc + (g + blocksOf r (r2 :: p2))) with (1 + (acc + g) + blocksOf r (r2 :: p2)) by lia.
    replace (1 + acc + g) with (1 + (acc + g)) by lia.
    rewrite Hw2. cbn [bind fst snd]. eexists. split_and!; [done|rewrite zlen_app; lia|].
    intros k acc0 complete rest. rewrite <- app_assoc.
    rewrite Z2Nat.inj_add, <- Nat.add_assoc by lia. rewrite Hr1, Hr2.
    cbn [rev]. by rewrite <- !app_assoc.
Qed.
End ranges.

(** ** Validation is what it should be *)

Lemma rangesConsistent_desc m prev l :
  0 <= m -> ranges_desc m prev l -> ar_First prev < 2 ^ 64 -> rangesConsistent prev l = true.
Proof.
  intros Hm. revert prev. induction l as [|r l IH]; intros prev Hl Hp; [done|].
  destruct Hl as (Hr & Hg & Hl). cbn [rangesConsistent].
  rewrite (proj2 (Z.leb_gt _ _)) by lia. rewrite add64_small by (zpow; lia).
  rewrite (proj2 (Z.leb_gt _ _)) by lia. apply IH; [done|lia].
Qed.

Lemma ranges_nonempty m prev l :
  ranges_desc m prev l -> existsb (fun r => ar_First r >? ar_Last r) l = false.
Proof.
  revert prev. induction l as [|r l IH]; intros prev Hl; [done|].
  destruct Hl as (Hr & Hg & Hl). cbn [existsb]. rewrite Z.gtb_ltb, (proj2 (Z.ltb_ge _ _)) by lia.
  by apply (IH r).
Qed.

Lemma validateRanges_desc m first rest :
  0 <= m -> rest <> [] -> ar_Last first < 2 ^ 64 -> ranges_ok m (first :: rest) ->
  validateRanges (ar_Last first) (first :: rest) = true.
Proof.
  intros Hm Hne Hl (Hf & Hd). destruct rest as [|r rest]; [done|].
  unfold validateRanges. rewrite Z.eqb_refl. cbn [negb existsb].
  rewrite Z.gtb_ltb, (proj2 (Z.ltb_ge _ _)) by lia.
  pose proof (ranges_nonempty _ _ _ Hd) as He. cbn [existsb] in He. rewrite He. simpl orb. cbv iota.
  by apply (rangesConsistent_desc m); [| |lia].
Qed.

Lemma maxRangeLength_ge l m0 :
  let M := fold_left (fun m r => if rangeLength r >? m then rangeLength r else m) l m0 in
  m0 <= M /\ Forall (fun r => rangeLength r <= M) l.
Proof.
  revert m0. induction l as [|r l IH]; intros m0; cbn [fold_left]; [split; [lia|constructor]|].
  destruct (IH (if rangeLength r >? m0 then rangeLength r else m0)) as [H1 H2].
  rewrite Z.gtb_ltb in *. cbv zeta in *. split.
  - destruct (m0 <? rangeLength r) eqn:E; bool_to_prop; lia.
  - constructor; [|done]. destruct (m0 <? rangeLength r) eqn:E; bool_to_prop; lia.
Qed.

Lemma deltaLen_valid x : valid_pn_len (deltaLen x).
Proof.
  unfold deltaLen, valid_pn_len, PacketNumberLen1, PacketNumberLen2, PacketNumberLen4,
    PacketNumberLen6. repeat case_test; lia.
Qed.

Lemma deltaLen_fits x : x < 2 ^ 48 -> x < 2 ^ (8 * deltaLen x).
Proof.
  intros Hx. unfold deltaLen. repeat case_test;
    [change (2 ^ _) with 256|change (2 ^ _) with 65536|
     change (2 ^ _) with 4294967296|change (2 ^ _) with (2 ^ 48)]; lia.
Qed.

(** ** What the parser accepts *)

(** A range as the parser builds it from a block length [L], modulo 2^64. *)
Definition built_from (L : Z) (r : AckRange) : Prop :=
  is_u64 (ar_Last r) /\ ar_First r = u64 (ar_Last r - L + 1).

Definition complete_range (r : AckRange) : Prop := exists L, 1 <= L < 2 ^ 48 /\ built_from L r.

Lemma built_new prev gap L :
  built_from L {| ar_First := (((ar_First prev -u gap) -u 1) -u L) +u 1;
                  ar_Last := (ar_First prev -u gap) -u 1 |}.
Proof.
  split; cbn [ar_First ar_Last]; [apply u64_range|]. rewrite sub64_add64. done.
Qed.

Lemma built_cont cur gap L :
  built_from 0 cur ->
  built_from L {| ar_First := ar_First cur -u (gap +u L); ar_Last := ar_Last cur -u gap |}.
Proof.
  intros [Hl Hf]. split; cbn [ar_First ar_Last]; [apply u64_range|]. rewrite Hf.
  unfold sub64, add64, u64, wrap. rewrite Zminus_mod_idemp_l, Zminus_mod_idemp_r.
  replace ((ar_Last cur - gap) mod 2 ^ 64 - L + 1) with ((ar_Last cur - gap) mod 2 ^ 64 + (1 - L)) by lia.
  rewrite Zplus_mod_idemp_l. f_equal. lia.
Qed.

(** All ranges but the highest come from complete blocks, once the incomplete
    one at the end is dropped. *)
Lemma readBlocks_complete rl k (first : AckRange) (body : list AckRange) (inLong complete : bool)
    r acc' c' r' :
  reader_gives (fun v => 0 <= v < 2 ^ 48) rl -> bytes_ok r ->
  (if inLong
   then complete = false /\ exists cur body', body = cur :: body' /\ built_from 0 cur /\
          Forall complete_range body'
   else Forall complete_range body /\ (body = [] -> k <> O) /\ (body <> [] -> complete = true)) ->
  readBlocks rl k (body ++ [first]) inLong complete r = Ok ((acc', c'), r') ->
  bytes_ok r' /\
  exists body', Forall complete_range body' /\ (if c' then acc' else tail acc') = body' ++ [first].
Proof.
  intros Hrl. revert body inLong complete r. induction k as [|k IH];
    intros body inLong complete r Hr Hinv E.
  { cbn in E. unfold rret in E. simplify_eq. split; [done|]. destruct inLong.
    - destruct Hinv as (-> & cur & body' & -> & _ & Hb). by exists body'.
    - destruct Hinv as (Hb & Hk & Hc). exists body. split; [done|].
      destruct body; [by destruct (Hk eq_refl)|]. by rewrite Hc. }
  cbn [readBlocks] in E. unfold rbind in E.
  destruct (ReadByte r) as [[gap r1]| |] eqn:E1; [|done..].
  destruct (ReadByte_gives _ _ _ Hr E1) as [Hgap Hr1].
  destruct (rl r1) as [[L r2]| |] eqn:E2; [|done..].
  destruct (Hrl _ _ _ Hr1 E2) as [HL Hr2].
  assert (Hnext : forall cur2 b, built_from L cur2 -> Forall complete_range b ->
    if L =? 0
    then (if L >? 0 then true else false) = false /\ exists cur body', cur2 :: b = cur :: body' /\
           built_from 0 cur /\ Forall complete_range body'
    else Forall complete_range (cur2 :: b) /\ (cur2 :: b = [] -> k <> O) /\
           (cur2 :: b <> [] -> (if L >? 0 then true else false) = true)).
  { intros cur2 b Hcur Hb. case_test.
    - subst L. split; [done|]. by exists cur2, b.
    - split_and!; [|done|]. { constructor; [|done]. exists L. split; [lia|done]. }
      intros _. rewrite Z.gtb_ltb. rewrite (proj2 (Z.ltb_lt _ _)) by lia. done. }
  destruct inLong.
  - destruct Hinv as (-> & cur & body' & -> & Hcur & Hb). rewrite <- app_comm_cons in E.
    eapply (IH (_ :: body')) in E; [exact E|done|]. apply Hnext; [by apply built_cont|done].
  - destruct Hinv as (Hb & _ & _). destruct body as [|cur body]; cbn [app] in E.
    + eapply (IH [_]) in E; [exact E|done|]. apply Hnext; [apply built_new|done].
    + eapply (IH (_ :: cur :: body)) in E; [exact E|done|]. apply Hnext; [apply built_new|done].
Qed.

(** Consistent ranges made of complete blocks are really descending: no
    wrapped-around bound survives the validation. *)
Lemma rangesConsistent_complete prev l :
  ar_First prev < 2 ^ 48 -> Forall complete_range l ->
  existsb (fun r => ar_First r >? ar_Last r) l = false -> rangesConsistent prev l = true ->
  ranges_desc 0 prev l.
Proof.
  revert prev. induction l as [|r l IH]; intros prev Hp Hc He Hv; [done|].
  inv Hc as [|? ? (L & HL & Hlast & Hfirst) Hcl].
  cbn [existsb] in He. apply orb_false_iff in He as [He1 He2]. bool_to_prop.
  cbn [rangesConsistent] in Hv. do 2 (case_test; [done|]).
  unfold is_u64 in Hlast.
  assert (Hf : is_u64 (ar_First r)) by (rewrite Hfirst; apply u64_range). unfold is_u64 in Hf.
  assert (Hne : ar_Last r <> 2 ^ 64 - 1).
  { intros Heq. rewrite Heq in Hfirst. rewrite u64_small in Hfirst by mlia. zpow. lia. }
  rewrite add64_small in E0 by (zpow; lia).
  split_and!; [lia|lia|lia|]. apply IH; auto. lia.
Qed.

Lemma readRanges_ok rl largest len num r ranges lowest r' :
  reader_gives (fun v => 0 <= v < 2 ^ 48) rl -> bytes_ok r ->
  0 <= largest < 2 ^ 48 -> num <> 0 -> 0 <= num ->
  readRanges rl largest len num r = Ok ((ranges, lowest), r') ->
  validateRanges largest ranges = true ->
  bytes_ok r' /\ exists first rest, ranges = first :: rest /\ rest <> [] /\
    ar_Last first = largest /\ ranges_ok 0 ranges /\
    lowest = ar_First (List.last ranges first).
Proof.
  intros Hrl Hr Hlg Hnum Hnum0 E Hv. unfold readRanges, rbind in E.
  destruct (readBlocks _ _ _ _ _ _) as [[[acc c] r1]| |] eqn:E1; [|done..].
  eapply (readBlocks_complete rl _ _ []) in E1 as [Hr1 (body & Hb & Ebody)]; [|done|done|].
  2:{ split_and!; [done| |done]. intros _. lia. }
  cbn [fst snd] in E. rewrite Ebody in E.
  destruct (body ++ _) as [|low tl] eqn:El; [by destruct body|].
  assert (ranges = rev (low :: tl) /\ lowest = ar_First low /\ r' = r1) as (-> & -> & ->).
  { unfold rret in E. by injection E as <- <- <-. }
  split; [done|]. rewrite <- El in Hv |- *.
  rewrite rev_app_distr in Hv |- *. simpl app in Hv |- *.
  set (first := {| ar_First := _; ar_Last := _ |}) in *.
  assert (Hrest : rev body <> []).
  { intros Hn. by rewrite Hn in Hv. }
  exists first, (rev body). split_and!; [done|done|done|..].
  - unfold validateRanges in Hv. destruct (rev body) as [|r2 rest] eqn:Er; [done|].
    destruct (negb _); [done|]. destruct (existsb _ _) eqn:Ex; [done|].
    cbn [existsb] in Ex. apply orb_false_iff in Ex as [Ex1 Ex2]. rewrite Z.gtb_ltb, Z.ltb_ge in Ex1.
    assert (is_u64 (ar_First first)) as [Hf0 _] by apply u64_range.
    change (ar_Last first) with largest in Ex1. split; [change (ar_Last first) with largest; lia|].
    apply rangesConsistent_complete; [lia| |done|done].
    rewrite <- Er. by apply Forall_rev.
  - destruct body as [|b body]; [done|]. cbn [rev]. injection El as <- _.
    change (first :: rev body ++ [b]) with ((first :: rev body) ++ [b]). by rewrite last_last.
Qed.

Lemma ranges_desc_lowest m prev l d :
  ranges_desc m prev l -> l <> [] -> m <= ar_First (List.last l d) < ar_First prev.
Proof.
  revert prev. induction l as [|r l IH]; intros prev Hl Hne; [done|].
  destruct Hl as (Hr & Hg & Hl). destruct l as [|r2 l]; [simpl; lia|].
  change (List.last (r :: r2 :: l) d) with (List.last (r2 :: l) d).
  destruct (IH r Hl ltac:(done)). lia.
Qed.

(** ** Membership *)

Definition in_range (p : Z) (r : AckRange) : Prop := ar_First r <= p <= ar_Last r.

Lemma rangesAck_spec l p : rangesAck l p = true <-> Exists (in_range p) l.
Proof.
  induction l as [|r l IH]; simpl; [split; [done|by intros H; inv H]|].
  rewrite Exists_cons, <- IH, Z.geb_leb. unfold in_range.
  destruct ((ar_First r <=? p) && (p <=? ar_Last r)) eqn:E.
  - bool_to_prop. tauto.
  - apply andb_false_iff in E. split; [by right|]. intros [H|H]; [|done].
    destruct E; bool_to_prop; lia.
Qed.

Lemma ranges_desc_bounds m prev l p :
  ranges_desc m prev l -> Exists (in_range p) l ->
  p < ar_First prev /\ forall d, ar_First (List.last l d) <= p.
Proof.
  revert prev. induction l as [|r l IH]; intros prev Hl He; [by inv He|].
  destruct Hl as (Hr & Hg & Hl). apply Exists_cons in He as [He|He].
  - unfold in_range in He. split; [lia|]. intros d. destruct l as [|r2 l]; [simpl; lia|].
    change (List.last (r :: r2 :: l) d) with (List.last (r2 :: l) d).
    destruct (ranges_desc_lowest m r (r2 :: l) d Hl ltac:(done)). lia.
  - destruct (IH r Hl He) as [H1 H2]. split; [lia|]. intros d. destruct l as [|r2 l]; [by inv He|].
    apply H2.
Qed.

(** The performance shortcut of [AcksPacket] does not change its answer. *)
Lemma rangesAcksPacket_ranges m first rest p :
  ranges_ok m (first :: rest) ->
  rangesAcksPacket (ar_First (List.last (first :: rest) first)) (ar_Last first) (first :: rest) p = true
  <-> Exists (in_range p) (first :: rest).
Proof.
  intros (Hf & Hd). unfold rangesAcksPacket. rewrite <- rangesAck_spec.
  assert (negb (zlen (first :: rest) =? 0) = true) as ->.
  { rewrite zlen_cons. pose proof (zlen_nonneg rest). apply negb_true_iff, Z.eqb_neq. lia. }
  destruct ((p <? _) || _) eqn:E; [|done]. split; [done|]. intros Ha.
  apply rangesAck_spec, Exists_cons in Ha. rewrite Z.gtb_ltb in E.
  destruct rest as [|r rest].
  - destruct Ha as [Ha|Ha]; [|by inv Ha]. unfold in_range in Ha. simpl in E.
    apply orb_true_iff in E. destruct E; bool_to_prop; lia.
  - change (List.last (first :: r :: rest) first) with (List.last (r :: rest) first) in E.
    destruct (ranges_desc_lowest m first (r :: rest) first Hd ltac:(done)).
    destruct Ha as [Ha|Ha].
    + unfold in_range in Ha. apply orb_true_iff in E. destruct E; bool_to_prop; lia.
    + destruct (ranges_desc_bounds m first (r :: rest) p Hd Ha) as [H1 H2].
      specialize (H2 first). apply orb_true_iff in E. destruct E; bool_to_prop; lia.
Qed.
