(* ===== verification/WireAck.v ===== *)
(** * ACK and CLOSE_PATH frames (internal/wire/ack_frame.go and
    close_path_frame.go)

    The multipath ACK frame names the path it acknowledges; a CLOSE_PATH frame
    carries the same ranges without the delay and the timestamps. *)
From S2P Require Import Prelude Qerr ByteOrder Float16 Protocol WireStream WireControl AckRanges.

(** ** ACK *)

Record AckFrame : Type := {
  ack_PathID : Z;
  ack_LargestAcked : Z;
  ack_LowestAcked : Z;
  ack_AckRanges : list AckRange;
  ack_PacketReceivedTime : Z;
  ack_DelayTime : Z;
}.

Definition AckFrame_HasMissingRanges (f : AckFrame) : bool := zlen (ack_AckRanges f) >? 0.

Definition AckFrame_validateAckRanges (f : AckFrame) : bool :=
  validateRanges (ack_LargestAcked f) (ack_AckRanges f).

Definition AckFrame_numWritableNackRanges (f : AckFrame) : Z := numWritableRanges (ack_AckRanges f).

Definition AckFrame_getMissingSequenceNumberDeltaLen (f : AckFrame) : Z :=
  deltaLen (maxRangeLength (ack_LargestAcked f) (ack_LowestAcked f) (ack_AckRanges f)).

Definition AckFrame_AcksPacket (f : AckFrame) (p : Z) : bool :=
  rangesAcksPacket (ack_LowestAcked f) (ack_LargestAcked f) (ack_AckRanges f) p.

(** Skipping the timestamps: [k] are left after the first. *)
Fixpoint skipTimestamps (bo : ByteOrder) (k : nat) : reader unit :=
  match k with
  | O => rret tt
  | S k' => _ <-- ReadByte ;; _ <-- ReadUint16 bo ;; skipTimestamps bo k'
  end.

(** The length fields of the type byte and of the flags. *)
Definition lenField (bits : Z) : Z := if u8 (2 * bits) =? 0 then 1 else u8 (2 * bits).

Definition ParseAckFrame (version : Z) : reader AckFrame :=
  let bo := GetByteOrder version in
  typeByte <-- ReadByte ;;
  let hasMissingRanges := Z.land typeByte 32 =? 32 in
  let largestAckedLen := lenField (Z.shiftr (Z.land typeByte 12) 2) in
  let missingSequenceNumberDeltaLen := lenField (Z.land typeByte 3) in
  pathID <-- (if Z.land typeByte 16 =? 16 then ReadByte else rret 0) ;;
  largestAcked <-- ReadUintN bo largestAckedLen ;;
  delay <-- readUfloat16 bo ;;
  let delayTime := i64 (i64 delay * Microsecond) in
  numAckBlocks <-- (if hasMissingRanges then ReadByte else rret 0) ;;
  if hasMissingRanges && (numAckBlocks =? 0) then rfail ErrInvalidAckRanges else
  ackBlockLength <-- ReadUintN bo missingSequenceNumberDeltaLen ;;
  if (largestAcked >? 0) && (ackBlockLength <? 1) then rfail ErrInvalidFirstAckRange
  else if ackBlockLength >? largestAcked then rfail ErrInvalidAckRanges else
  ranges <-- (if hasMissingRanges
              then readRanges (ReadUintN bo missingSequenceNumberDeltaLen)
                     largestAcked ackBlockLength numAckBlocks
              else rret ([], if largestAcked =? 0 then 0
                             else (largestAcked +u 1) -u ackBlockLength)) ;;
  let frame := {| ack_PathID := pathID; ack_LargestAcked := largestAcked;
                  ack_LowestAcked := snd ranges; ack_AckRanges := fst ranges;
                  ack_PacketReceivedTime := zeroTime; ack_DelayTime := delayTime |} in
  if negb (AckFrame_validateAckRanges frame) then rfail ErrInvalidAckRanges else
  numTimestamp <-- ReadByte ;;
  if numTimestamp >? 0 then
    _ <-- ReadByte ;;
    _ <-- ReadUint32 bo ;;
    _ <-- skipTimestamps bo (Z.to_nat (numTimestamp - 1)) ;;
    rret frame
  else rret frame.

(** A packet number or a length in 1, 2, 4 or 6 bytes; the 6-byte form is
    masked to 48 bits. *)
Definition writeAckPN (bo : ByteOrder) (len v : Z) : writer :=
  match len with
  | 1 => WriteByte (u8 v)
  | 2 => WriteUint16 bo (u16 v)
  | 4 => WriteUint32 bo (u32 v)
  | 6 => WriteUint48 bo (Z.land v (Z.shiftl 1 48 - 1))
  | _ => Ok []
  end.

Definition ackTypeByte (largestAckedLen deltaLen : Z) (missing : bool) (pathID : Z) : Z :=
  let t := 64 in
  let t := if largestAckedLen =? PacketNumberLen1 then t
           else Z.lxor t (u8 (Z.shiftl (u8 (largestAckedLen / 2)) 2)) in
  let t := if deltaLen =? PacketNumberLen1 then t else Z.lxor t (u8 (deltaLen / 2)) in
  let t := if missing then Z.lor t 32 else t in
  if pathID =? InitialPathID then t else Z.lor t 16.

(** [AckFrame.Write] at the instant [now]. *)
Definition AckFrame_Write (f : AckFrame) (version now : Z) : writer :=
  let bo := GetByteOrder version in
  let missing := AckFrame_HasMissingRanges f in
  let largestAckedLen := GetPacketNumberLength (ack_LargestAcked f) in
  let deltaLen := AckFrame_getMissingSequenceNumberDeltaLen f in
  let delayTime := timeSub now (ack_PacketReceivedTime f) in
  let numRanges := if missing then AckFrame_numWritableNackRanges f else 0 in
  (WriteByte (ackTypeByte largestAckedLen deltaLen missing (ack_PathID f)) ;;;
   (if ack_PathID f =? InitialPathID then Ok [] else WriteByte (u8 (ack_PathID f))) ;;;
   writeAckPN bo largestAckedLen (ack_LargestAcked f) ;;;
   writeUfloat16 bo (u64 (Z.quot delayTime Microsecond)) ;;;
   (if missing
    then if numRanges >? 255 then Panic else WriteByte (u8 (numRanges -u 1))
    else Ok []) ;;;
   match ack_AckRanges f with
   | [] =>
       let firstAckBlockLength := (ack_LargestAcked f -u ack_LowestAcked f) +u 1 in
       writeAckPN bo deltaLen firstAckBlockLength
   | first :: rest =>
       if negb (ack_LargestAcked f =? ar_Last first) then Err errInconsistentAckLargestAcked
       else if negb (ack_LowestAcked f =? ar_First (List.last (first :: rest) first))
       then Err errInconsistentAckLowestAcked
       else
         let firstAckBlockLength := (ack_LargestAcked f -u ar_First first) +u 1 in
         (writeAckPN bo deltaLen firstAckBlockLength ;;;
          let* blocks := writeRanges (writeAckPN bo deltaLen) numRanges first rest 1 in
          if negb (numRanges =? snd blocks)
          then Err (errors_New "BUG: Inconsistent number of ACK ranges written")
          else Ok (fst blocks))
   end ;;;
   WriteByte 0).

Definition AckFrame_MinLength (f : AckFrame) : Z :=
  let length := (1 + 2 + 1) +u GetPacketNumberLength (ack_LargestAcked f) in
  let deltaLen := AckFrame_getMissingSequenceNumberDeltaLen f in
  let length :=
    if AckFrame_HasMissingRanges f
    then length +u mul64 (1 +u deltaLen) (AckFrame_numWritableNackRanges f)
    else length +u deltaLen in
  if ack_PathID f =? InitialPathID then length else length +u 1.

(** ** CLOSE_PATH *)

Record ClosePathFrame : Type := {
  cp_PathID : Z;
  cp_LargestAcked : Z;
  cp_LowestAcked : Z;
  cp_AckRanges : list AckRange;
}.

Definition ClosePathFrame_HasMissingRanges (f : ClosePathFrame) : bool :=
  zlen (cp_AckRanges f) >? 0.

Definition ClosePathFrame_validateAckRanges (f : ClosePathFrame) : bool :=
  validateRanges (cp_LargestAcked f) (cp_AckRanges f).

Definition ClosePathFrame_getMissingSequenceNumberDeltaLen (f : ClosePathFrame) : Z :=
  deltaLen (maxRangeLength (cp_LargestAcked f) (cp_LowestAcked f) (cp_AckRanges f)).

Definition ClosePathFrame_numWritableNackRanges (f : ClosePathFrame) : Z :=
  numWritableRanges (cp_AckRanges f).

Definition ClosePathFrame_AcksPacket (f : ClosePathFrame) (p : Z) : bool :=
  rangesAcksPacket (cp_LowestAcked f) (cp_LargestAcked f) (cp_AckRanges f) p.

(** As in an ACK frame, but without the mask: the 6-byte writer panics on a
    larger value. *)
Definition writeClosePathPN (bo : ByteOrder) (len v : Z) : writer :=
  match len with
  | 1 => WriteByte (u8 v)
  | 2 => WriteUint16 bo (u16 v)
  | 4 => WriteUint32 bo (u32 v)
  | 6 => WriteUint48 bo v
  | _ => Ok []
  end.

Definition closePathFlags (largestAckedLen deltaLen : Z) (missing : bool) : Z :=
  let t := if missing then Z.lor 0 16 else 0 in
  let t := if largestAckedLen =? PacketNumberLen1 then t
           else Z.lxor t (u8 (Z.shiftl (u8 (largestAckedLen / 2)) 2)) in
  if deltaLen =? PacketNumberLen1 then t else Z.lxor t (u8 (deltaLen / 2)).

Definition ClosePathFrame_Write (f : ClosePathFrame) (version : Z) : writer :=
  let bo := GetByteOrder version in
  let missing := ClosePathFrame_HasMissingRanges f in
  let largestAckedLen := GetPacketNumberLength (cp_LargestAcked f) in
  let deltaLen := ClosePathFrame_getMissingSequenceNumberDeltaLen f in
  let numRanges := if missing then ClosePathFrame_numWritableNackRanges f else 0 in
  (WriteByte 17 ;;; WriteByte (u8 (cp_PathID f)) ;;;
   WriteByte (closePathFlags largestAckedLen deltaLen missing) ;;;
   (if missing
    then if numRanges >? 255 then Panic else WriteByte (u8 (numRanges -u 1))
    else Ok []) ;;;
   writeClosePathPN bo largestAckedLen (cp_LargestAcked f) ;;;
   match cp_AckRanges f with
   | [] =>
       let firstAckBlockLength := (cp_LargestAcked f -u cp_LowestAcked f) +u 1 in
       writeClosePathPN bo deltaLen firstAckBlockLength
   | first :: rest =>
       if negb (cp_LargestAcked f =? ar_Last first) then Err errInconsistentAckLargestAcked
       else if negb (cp_LowestAcked f =? ar_First (List.last (first :: rest) first))
       then Err errInconsistentAckLowestAcked
       else
         let firstAckBlockLength := (cp_LargestAcked f -u ar_First first) +u 1 in
         (writeClosePathPN bo deltaLen firstAckBlockLength ;;;
          let* blocks := writeRanges (writeClosePathPN bo deltaLen) numRanges first rest 1 in
          if negb (numRanges =? snd blocks)
          then Err (errors_New "BUG: Inconsistent number of ACK ranges written in ClosePath")
          else Ok (fst blocks))
   end).

Definition ParseClosePathFrame (version : Z) : reader ClosePathFrame :=
  let bo := GetByteOrder version in
  _ <-- ReadByte ;;
  pathID <-- ReadByte ;;
  flags <-- ReadByte ;;
  let hasMissingRanges := Z.land flags 16 =? 16 in
  let largestAckedLen := lenField (Z.shiftr (Z.land flags 12) 2) in
  let missingSequenceNumberDeltaLen := lenField (Z.land flags 3) in
  numAckBlocks <-- (if hasMissingRanges then ReadByte else rret 0) ;;
  if hasMissingRanges && (numAckBlocks =? 0) then rfail ErrInvalidAckRanges else
  largestAcked <-- ReadUintN bo largestAckedLen ;;
  ackBlockLength <-- ReadUintN bo missingSequenceNumberDeltaLen ;;
  if (largestAcked >? 0) && (ackBlockLength <? 1) then rfail ErrInvalidFirstAckRange
  else if ackBlockLength >? largestAcked then rfail ErrInvalidAckRanges else
  ranges <-- (if hasMissingRanges
              then readRanges (ReadUintN bo missingSequenceNumberDeltaLen)
                     largestAcked ackBlockLength numAckBlocks
              else rret ([], if largestAcked =? 0 then 0
                             else (largestAcked +u 1) -u ackBlockLength)) ;;
  let frame := {| cp_PathID := pathID; cp_LargestAcked := largestAcked;
                  cp_LowestAcked := snd ranges; cp_AckRanges := fst ranges |} in
  if negb (ClosePathFrame_validateAckRanges frame) then rfail ErrInvalidAckRanges
  else rret frame.

Definition ClosePathFrame_MinLength (f : ClosePathFrame) : Z :=
  let length := (1 + 1 + 1) +u GetPacketNumberLength (cp_LargestAcked f) in
  let deltaLen := ClosePathFrame_getMissingSequenceNumberDeltaLen f in
  if ClosePathFrame_HasMissingRanges f
  then length +u mul64 (1 +u deltaLen) (ClosePathFrame_numWritableNackRanges f)
  else length +u deltaLen.

(** ** Well-formed frames *)

(** The ranges of a frame: none when a single range [lowest..largest] is
    acknowledged, otherwise at least two, in descending order, that start and
    end where the frame says. *)
Definition ack_ranges_wf (m lowest largest : Z) (ranges : list AckRange) : Prop :=
  match ranges with
  | [] => m <= lowest <= largest
  | first :: rest =>
      rest <> [] /\ ranges_ok m ranges /\ ar_Last first = largest /\
      lowest = ar_First (List.last ranges first)
  end.

Definition AckFrame_wf (m : Z) (f : AckFrame) : Prop :=
  is_u8 (ack_PathID f) /\ ack_LargestAcked f < 2 ^ 48 /\
  ack_ranges_wf m (ack_LowestAcked f) (ack_LargestAcked f) (ack_AckRanges f).

Definition ClosePathFrame_wf (m : Z) (f : ClosePathFrame) : Prop :=
  is_u8 (cp_PathID f) /\ cp_LargestAcked f < 2 ^ 48 /\
  ack_ranges_wf m (cp_LowestAcked f) (cp_LargestAcked f) (cp_AckRanges f).

(** The packets a frame acknowledges. *)
Definition acked_by (lowest largest : Z) (ranges : list AckRange) (p : Z) : Prop :=
  match ranges with
  | [] => lowest <= p <= largest
  | _ => Exists (in_range p) ranges
  end.

Lemma rangesAcksPacket_spec m lowest largest ranges p :
  ack_ranges_wf m lowest largest ranges ->
  rangesAcksPacket lowest largest ranges p = true <-> acked_by lowest largest ranges p.
Proof.
  destruct ranges as [|first rest].
  - intros _. unfold rangesAcksPacket, acked_by. simpl. rewrite Z.gtb_ltb, Z.geb_leb.
    destruct (p <? lowest) eqn:E1, (largest <? p) eqn:E2; simpl; bool_to_prop;
      lia.
  - intros (Hne & Hok & <- & ->). apply (rangesAcksPacket_ranges m first rest p Hok).
Qed.

(** ** Round trip *)

(** The ranges that reach the peer: all when they take less than 255 blocks. *)
Definition sentRanges (ranges : list AckRange) : list AckRange :=
  match ranges with
  | [] => []
  | first :: rest => first :: writable first rest 0
  end.

(** The frame says something beyond its highest range. *)
Definition ranges_fit (ranges : list AckRange) : Prop :=
  match ranges with
  | [] => True
  | first :: rest => writable first rest 0 <> []
  end.

Definition sentLowest (lowest : Z) (ranges : list AckRange) : Z :=
  match ranges with
  | [] => lowest
  | first :: _ => ar_First (List.last (sentRanges ranges) first)
  end.

Lemma ackTypeByte_decode ll dl missing pid :
  valid_pn_len ll -> valid_pn_len dl ->
  let t := ackTypeByte ll dl missing pid in
  (Z.land t 32 =? 32) = missing /\ lenField (Z.shiftr (Z.land t 12) 2) = ll /\
  lenField (Z.land t 3) = dl /\ (Z.land t 16 =? 16) = negb (pid =? InitialPathID) /\
  Z.land t 192 = 64 /\ is_u8 t.
Proof.
  intros Hl Hd. unfold ackTypeByte. destruct (pid =? InitialPathID), missing;
    destruct Hl as [->|[->|[->| ->]]], Hd as [->|[->|[->| ->]]]; by vm_compute.
Qed.

Lemma closePathFlags_decode ll dl missing :
  valid_pn_len ll -> valid_pn_len dl ->
  let t := closePathFlags ll dl missing in
  (Z.land t 16 =? 16) = missing /\ lenField (Z.shiftr (Z.land t 12) 2) = ll /\
  lenField (Z.land t 3) = dl.
Proof.
  intros Hl Hd. destruct missing;
    destruct Hl as [->|[->|[->| ->]]], Hd as [->|[->|[->| ->]]]; by vm_compute.
Qed.

Lemma valid_pn_len_range n : valid_pn_len n -> 0 <= n <= 8.
Proof. unfold valid_pn_len. lia. Qed.

Lemma writeAckPN_enc bo `{!ByteOrderLaws bo} n v :
  valid_pn_len n -> 0 <= v < 2 ^ (8 * n) -> writeAckPN bo n v = Ok (enc (Z.to_nat n) v).
Proof. intros. by apply writePN_enc. Qed.

Lemma writeClosePathPN_enc bo `{!ByteOrderLaws bo} n v :
  valid_pn_len n -> 0 <= v < 2 ^ (8 * n) -> writeClosePathPN bo n v = Ok (enc (Z.to_nat n) v).
Proof.
  intros Hn Hv. destruct Hn as [->|[->|[->| ->]]]; simpl Z.mul in Hv; unfold writeClosePathPN.
  - rewrite u8_small by done. by rewrite enc_1.
  - rewrite u16_small by done. by apply WriteUint16_enc.
  - rewrite u32_small by done. by apply WriteUint32_enc.
  - by apply WriteUint48_enc.
Qed.

(** *** The part the two frames share: first block length and ranges *)

(** A descending list of ranges below 2^48 has lengths that fit. *)
Lemma ranges_lengths m prev l :
  1 <= m -> ar_First prev <= 2 ^ 48 -> ranges_desc m prev l ->
  Forall (fun r => 1 <= rangeLength r < 2 ^ 48) l.
Proof.
  intros Hm. revert prev. induction l as [|r l IH]; intros prev Hp Hl; [constructor|].
  destruct Hl as (Hr & Hg & Hl). constructor.
  - rewrite rangeLength_val by (zpow; lia). lia.
  - apply (IH r); [lia|done].
Qed.

Lemma max_length_bound l m0 :
  m0 < 2 ^ 48 -> Forall (fun r => 1 <= rangeLength r < 2 ^ 48) l ->
  fold_left (fun m r => if rangeLength r >? m then rangeLength r else m) l m0 < 2 ^ 48.
Proof.
  intros Hm Hl. revert m0 Hm. induction Hl as [|r l Hr Hl IH]; intros m0 Hm; cbn [fold_left]; [done|].
  apply IH. case_test; lia.
Qed.

(** The chosen length field has room for every range of the frame. *)
Lemma deltaLen_ranges lowest largest first rest :
  largest < 2 ^ 48 -> ack_ranges_wf 1 lowest largest (first :: rest) ->
  let dl := deltaLen (maxRangeLength largest lowest (first :: rest)) in
  Forall (fun r => rangeLength r < 2 ^ (8 * dl)) (first :: rest) /\ 0 < 2 ^ (8 * dl).
Proof.
  intros Hlg (Hne & (Hf & Hd) & Hlast & Hlow). cbv zeta.
  assert (Hall : Forall (fun r => 1 <= rangeLength r < 2 ^ 48) (first :: rest)).
  { constructor; [rewrite rangeLength_val by (zpow; lia); lia|].
    apply (ranges_lengths 1 first); [lia|lia|done]. }
  unfold maxRangeLength. pose proof (max_length_bound _ 0 ltac:(lia) Hall) as HM.
  destruct (maxRangeLength_ge (first :: rest) 0) as [HM0 Hge]. cbv zeta in Hge, HM0.
  revert HM Hge HM0.
  generalize (fold_left (fun m r => if rangeLength r >? m then rangeLength r else m) (first :: rest) 0)
    as M. intros M HM Hge HM0.
  pose proof (deltaLen_fits M HM). split; [|lia].
  eapply Forall_impl; [|exact Hge]. cbv beta. intros r Hr. lia.
Qed.

(** Writing and reading the blocks of a frame that has missing ranges. *)
Lemma blocks_roundtrip wl rl el n dl lowest largest first rest :
  largest < 2 ^ 48 -> ack_ranges_wf 1 lowest largest (first :: rest) ->
  dl = deltaLen (maxRangeLength largest lowest (first :: rest)) ->
  (forall v, 0 <= v < 2 ^ (8 * dl) -> wl v = Ok (el v)) -> (forall v, zlen (el v) = n) ->
  (forall v r, 0 <= v < 2 ^ (8 * dl) -> rl (el v ++ r) = Ok (v, r)) ->
  writable first rest 0 <> [] ->
  let p := writable first rest 0 in
  let nb := blocksOf first p in
  let len := (largest -u ar_First first) +u 1 in
  numWritableRanges (first :: rest) = 1 + nb /\ 1 <= nb < 255 /\
  1 <= len <= largest /\ len < 2 ^ (8 * dl) /\
  exists bs, writeRanges wl (1 + nb) first rest 1 = Ok (bs, 1 + nb) /\ zlen bs = (1 + n) * nb /\
    forall tl, readRanges rl largest len nb (bs ++ tl) =
      Ok ((first :: p, ar_First (List.last (first :: p) first)), tl).
Proof.
  intros Hlg Hwf Hdl Hwl Hel Hrl Hne. cbv zeta.
  destruct (deltaLen_ranges lowest largest first rest Hlg Hwf) as [HB HB0]. cbv zeta in HB, HB0.
  rewrite <- Hdl in HB, HB0. destruct Hwf as (Hne2 & (Hf & Hd) & Hlast & Hlow).
  inversion HB as [|? ? HBf HBr]; subst x l.
  assert (Hff : ar_First first < 2 ^ 64) by (zpow; lia).
  destruct (numWritable_loop_val 1 first rest 0) as [Hnw Hnb]; [lia|done|done|lia|].
  destruct (blocksOf_nonneg 1 first (writable first rest 0)) as [Hnn Hpos];
    [lia|done|by apply writable_desc|]. specialize (Hpos Hne).
  assert (Hlen : (largest -u ar_First first) +u 1 = largest - ar_First first + 1)
    by (rewrite sub64_small, add64_small by (zpow; lia); done).
  rewrite rangeLength_val in HBf by (zpow; lia). rewrite Hlen.
  split_and!; [|lia|lia|lia|lia|lia|].
  { cbn [numWritableRanges]. rewrite Hnw, add64_small by (zpow; lia). lia. }
  destruct (writeRanges_read wl rl el _ n Hwl Hel Hrl 1 first rest 0) as (bs & Hw & Hl & Hr);
    [lia|done|done|done|lia|done|].
  rewrite Z.add_0_r in Hw. exists bs. split_and!; [done|done|].
  intros tl. unfold readRanges.
  replace {| ar_First := (largest -u (largest - ar_First first + 1)) +u 1; ar_Last := largest |}
    with first.
  2:{ rewrite sub64_small, add64_small by (zpow; lia). destruct first as [a b]. simpl in *.
      f_equal; lia. }
  specialize (Hr 0%nat [] false tl). rewrite Nat.add_0_r in Hr.
  rewrite (rbind_ok _ _ _ _ _ Hr). cbn [fst snd].
  set (p := writable first rest 0) in *.
  assert (Hrev : rev (rev p ++ [first]) = first :: p) by (by rewrite rev_app_distr, rev_involutive).
  destruct (rev p ++ [first]) as [|low tl'] eqn:El; [by destruct (rev p)|].
  unfold rret. rewrite Hrev. do 3 f_equal.
  destruct (rev p) as [|b rp] eqn:Ep.
  { exfalso. apply Hne. rewrite <- (rev_involutive p), Ep. done. }
  injection El as -> _. rewrite <- (rev_involutive p), Ep. cbn [rev].
  change (first :: rev rp ++ [low]) with ((first :: rev rp) ++ [low]). by rewrite last_last.
Qed.

(** The length of the only range of a frame without missing ranges. *)
Lemma single_range lowest largest :
  1 <= lowest <= largest -> largest < 2 ^ 48 ->
  let len := (largest -u lowest) +u 1 in
  len = largest - lowest + 1 /\ 1 <= len <= largest /\ 0 <= len < 2 ^ (8 * deltaLen len) /\
  (largest +u 1) -u len = lowest.
Proof.
  intros Hl Hlg. cbv zeta. rewrite (sub64_small largest), add64_small by (zpow; lia).
  assert (Hfit : largest - lowest + 1 < 2 ^ 48) by lia. pose proof (deltaLen_fits _ Hfit).
  split_and!; try lia. rewrite add64_sub64, u64_small by mlia. lia.
Qed.

(** What the peer gets of an ACK frame sent at [now]. *)
Definition ack_on_wire (f : AckFrame) (now : Z) : AckFrame := {|
  ack_PathID := ack_PathID f;
  ack_LargestAcked := ack_LargestAcked f;
  ack_LowestAcked := sentLowest (ack_LowestAcked f) (ack_AckRanges f);
  ack_AckRanges := sentRanges (ack_AckRanges f);
  ack_PacketReceivedTime := zeroTime;
  ack_DelayTime := rtt_on_wire (timeSub now (ack_PacketReceivedTime f));
|}.

Definition pathBytes (pid : Z) : list Z := if pid =? InitialPathID then [] else [pid].

Lemma wapp_ok a b : wapp (Ok a) (Ok b) = Ok (a ++ b).
Proof. done. Qed.

Lemma largestLen_facts largest : 0 <= largest < 2 ^ 48 ->
  valid_pn_len (GetPacketNumberLength largest) /\ 0 <= GetPacketNumberLength largest <= 8 /\
  0 <= largest < 2 ^ (8 * GetPacketNumberLength largest).
Proof.
  intros H. split_and!; try apply GetPacketNumberLength_fits; try done;
    pose proof (GetPacketNumberLength_valid largest) as Hv; try apply Hv;
    apply valid_pn_len_range in Hv; lia.
Qed.

Lemma timeSub_range now t : t <= now -> 0 <= timeSub now t < 2 ^ 63.
Proof. intros. unfold timeSub. zpow. lia. Qed.

(** The bytes up to the number of blocks, which both kinds of ACK frame have. *)
Lemma AckFrame_Write_head f version now dl tailw :
  is_u8 (ack_PathID f) -> 0 <= ack_LargestAcked f < 2 ^ 48 ->
  ack_PacketReceivedTime f <= now ->
  (WriteByte (ackTypeByte (GetPacketNumberLength (ack_LargestAcked f)) dl
                (AckFrame_HasMissingRanges f) (ack_PathID f)) ;;;
   (if ack_PathID f =? InitialPathID then Ok [] else WriteByte (u8 (ack_PathID f))) ;;;
   writeAckPN (GetByteOrder version) (GetPacketNumberLength (ack_LargestAcked f)) (ack_LargestAcked f) ;;;
   writeUfloat16 (GetByteOrder version)
     (u64 (Z.quot (timeSub now (ack_PacketReceivedTime f)) Microsecond)) ;;; tailw) =
  (let* t := tailw in
   Ok (ackTypeByte (GetPacketNumberLength (ack_LargestAcked f)) dl
         (AckFrame_HasMissingRanges f) (ack_PathID f) :: pathBytes (ack_PathID f) ++
       enc (bo := GetByteOrder version) (Z.to_nat (GetPacketNumberLength (ack_LargestAcked f)))
         (ack_LargestAcked f) ++
       enc (bo := GetByteOrder version) 2
         (ufloat16_encode (Z.quot (timeSub now (ack_PacketReceivedTime f)) Microsecond)) ++ t)).
Proof.
  intros Hp Hl Ht. destruct (largestLen_facts _ Hl) as (Hv & Hr & Hfit).
  rewrite (writeAckPN_enc (GetByteOrder version)) by done.
  destruct (duration_quot (timeSub now (ack_PacketReceivedTime f))) as [Hq Hq0];
    [by apply timeSub_range|].
  rewrite Hq, (writeUfloat16_ok (GetByteOrder version)) by done.
  rewrite u8_small by done. unfold pathBytes.
  destruct (ack_PathID f =? InitialPathID), tailw; done.
Qed.

(** Reading that head back. *)
Lemma ParseAckFrame_head f version now dl missing t :
  valid_pn_len dl -> is_u8 (ack_PathID f) -> 0 <= ack_LargestAcked f < 2 ^ 48 ->
  ack_PacketReceivedTime f <= now ->
  ParseAckFrame version
    (ackTypeByte (GetPacketNumberLength (ack_LargestAcked f)) dl missing (ack_PathID f)
     :: pathBytes (ack_PathID f) ++
       enc (bo := GetByteOrder version) (Z.to_nat (GetPacketNumberLength (ack_LargestAcked f)))
         (ack_LargestAcked f) ++
       enc (bo := GetByteOrder version) 2
         (ufloat16_encode (Z.quot (timeSub now (ack_PacketReceivedTime f)) Microsecond)) ++ t) =
  (numAckBlocks <-- (if missing then ReadByte else rret 0) ;;
   if missing && (numAckBlocks =? 0) then rfail ErrInvalidAckRanges else
   ackBlockLength <-- ReadUintN (GetByteOrder version) dl ;;
   if (ack_LargestAcked f >? 0) && (ackBlockLength <? 1) then rfail ErrInvalidFirstAckRange
   else if ackBlockLength >? ack_LargestAcked f then rfail ErrInvalidAckRanges else
   ranges <-- (if missing
               then readRanges (ReadUintN (GetByteOrder version) dl)
                      (ack_LargestAcked f) ackBlockLength numAckBlocks
               else rret ([], if ack_LargestAcked f =? 0 then 0
                              else (ack_LargestAcked f +u 1) -u ackBlockLength)) ;;
   let frame := {| ack_PathID := ack_PathID f; ack_LargestAcked := ack_LargestAcked f;
                   ack_LowestAcked := snd ranges; ack_AckRanges := fst ranges;
                   ack_PacketReceivedTime := zeroTime;
                   ack_DelayTime := rtt_on_wire (timeSub now (ack_PacketReceivedTime f)) |} in
   if negb (AckFrame_validateAckRanges frame) then rfail ErrInvalidAckRanges else
   numTimestamp <-- ReadByte ;;
   if numTimestamp >? 0 then
     _ <-- ReadByte ;;
     _ <-- ReadUint32 (GetByteOrder version) ;;
     _ <-- skipTimestamps (GetByteOrder version) (Z.to_nat (numTimestamp - 1)) ;;
     rret frame
   else rret frame) t.
Proof.
  intros Hdl Hp Hl Ht. destruct (largestLen_facts _ Hl) as (Hv & Hr & Hfit).
  destruct (ackTypeByte_decode _ _ missing (ack_PathID f) Hv Hdl) as (D1 & D2 & D3 & D4 & _).
  destruct (duration_quot (timeSub now (ack_PacketReceivedTime f))) as [Hq Hq0];
    [by apply timeSub_range|].
  unfold ParseAckFrame. rewrite (rbind_ok _ _ _ _ _ (ReadByte_cons _ _)). cbv beta zeta.
  rewrite D1, D2, D3, D4.
  rewrite (rbind_ok _ _ _ (ack_PathID f)
    (enc (Z.to_nat (GetPacketNumberLength (ack_LargestAcked f))) (ack_LargestAcked f) ++
     enc 2 (ufloat16_encode (Z.quot (timeSub now (ack_PacketReceivedTime f)) Microsecond)) ++ t)).
  2:{ unfold pathBytes. destruct (ack_PathID f =? InitialPathID) eqn:E; [|done].
      bool_to_prop. by rewrite E. }
  rewrite (rbind_ok _ _ _ _ _ (ReadUintN_enc_Z _ _ _ _ Hr Hfit)).
  rewrite (rbind_ok _ _ _ (ufloat16_round (Z.quot (timeSub now (ack_PacketReceivedTime f)) Microsecond)) t).
  2:{ apply (readUfloat16_write (GetByteOrder version)); [done|]. by apply writeUfloat16_ok. }
  by rewrite wire_duration by done.
Qed.

(** A frame that reports only one range. *)
Lemma AckFrame_roundtrip_single f version now :
  is_u8 (ack_PathID f) -> ack_LargestAcked f < 2 ^ 48 -> ack_AckRanges f = [] ->
  1 <= ack_LowestAcked f <= ack_LargestAcked f -> ack_PacketReceivedTime f <= now ->
  exists bs, AckFrame_Write f version now = Ok bs /\ zlen bs = AckFrame_MinLength f /\
    forall rest, ParseAckFrame version (bs ++ rest) = Ok (ack_on_wire f now, rest).
Proof.
  intros Hp Hl Hr Hlow Ht.
  destruct (single_range _ _ Hlow Hl) as (Hlen & Hlen1 & Hlen2 & Hlen3). cbv zeta in *.
  assert (Hlr : 0 <= ack_LargestAcked f < 2 ^ 48) by lia.
  destruct (largestLen_facts _ Hlr) as (Hv & Hvr & _).
  set (dl := AckFrame_getMissingSequenceNumberDeltaLen f).
  assert (Hdl : valid_pn_len dl) by apply deltaLen_valid.
  pose proof (valid_pn_len_range _ Hdl) as Hdlr.
  assert (Hfit : 0 <= (ack_LargestAcked f -u ack_LowestAcked f) +u 1 < 2 ^ (8 * dl)).
  { unfold dl, AckFrame_getMissingSequenceNumberDeltaLen, maxRangeLength. by rewrite Hr. }
  assert (Hm : AckFrame_HasMissingRanges f = false) by (unfold AckFrame_HasMissingRanges; by rewrite Hr).
  unfold AckFrame_Write. cbv zeta. fold dl. rewrite AckFrame_Write_head by done.
  rewrite Hm, Hr, (writeAckPN_enc (GetByteOrder version)) by done. cbn [wapp bind WriteByte app].
  eexists. split_and!; [done| |intros rest].
  - rewrite zlen_cons, !zlen_app, !(zlen_enc (GetByteOrder version)), !Z2Nat.id by lia.
    unfold AckFrame_MinLength, pathBytes. fold dl. rewrite Hm.
    case_test; add64_exact; unfold zlen; simpl length; lia.
  - rewrite <- app_comm_cons, <- !app_assoc. rewrite ParseAckFrame_head by done. cbv iota.
    rewrite (rbind_ok _ _ _ _ _ (eq_refl : rret 0 _ = Ok (0, _))). cbn [andb].
    rewrite (rbind_ok _ _ _ _ _ (ReadUintN_enc_Z _ _ _ _ Hdlr Hfit)).
    rewrite !Z.gtb_ltb. decide_tests. cbn [andb].
    rewrite (rbind_ok _ _ _ _ _ (eq_refl : rret _ _ = Ok (_, _))), Hlen3.
    unfold AckFrame_validateAckRanges. cbn [ack_AckRanges fst snd validateRanges negb app].
    rewrite (rbind_ok _ _ _ _ _ (ReadByte_cons _ _)). cbn.
    unfold rret, ack_on_wire, sentLowest, sentRanges. by rewrite Hr.
Qed.

(** A frame with gaps, as many of its ranges as the 255 blocks hold. *)
Lemma AckFrame_roundtrip_ranges f version now first ranges :
  is_u8 (ack_PathID f) -> 0 <= ack_LargestAcked f < 2 ^ 48 -> ack_AckRanges f = first :: ranges ->
  ack_ranges_wf 1 (ack_LowestAcked f) (ack_LargestAcked f) (first :: ranges) ->
  writable first ranges 0 <> [] -> ack_PacketReceivedTime f <= now ->
  exists bs, AckFrame_Write f version now = Ok bs /\ zlen bs = AckFrame_MinLength f /\
    forall rest, ParseAckFrame version (bs ++ rest) = Ok (ack_on_wire f now, rest).
Proof.
  intros Hp Hl Hr Hwf Hne Ht.
  destruct (largestLen_facts _ Hl) as (Hv & Hvr & _).
  set (dl := AckFrame_getMissingSequenceNumberDeltaLen f).
  assert (Hdl : valid_pn_len dl) by apply deltaLen_valid.
  pose proof (valid_pn_len_range _ Hdl) as Hdlr.
  assert (Hm : AckFrame_HasMissingRanges f = true).
  { unfold AckFrame_HasMissingRanges. rewrite Hr, zlen_cons, Z.gtb_ltb.
    apply Z.ltb_lt. pose proof (zlen_nonneg ranges). lia. }
  destruct (blocks_roundtrip (writeAckPN (GetByteOrder version) dl) (ReadUintN (GetByteOrder version) dl)
    (enc (bo := GetByteOrder version) (Z.to_nat dl)) dl dl _ _ first ranges (proj2 Hl) Hwf)
    as (Hnw & Hnb & Hlen & Hlenf & bs & Hw & Hbs & Hrd); try done.
  { unfold dl, AckFrame_getMissingSequenceNumberDeltaLen. by rewrite Hr. }
  { intros. by apply (writeAckPN_enc (GetByteOrder version)). }
  { intros. rewrite (zlen_enc (GetByteOrder version)). lia. }
  { intros. by apply ReadUintN_enc_Z. }
  assert (Hlen0 : 0 <= (ack_LargestAcked f -u ar_First first) +u 1 < 2 ^ (8 * dl)) by lia.
  pose proof Hwf as (Hne2 & Hok & Hlast & Hlow).
  assert (HnN : AckFrame_numWritableNackRanges f = 1 + blocksOf first (writable first ranges 0))
    by (unfold AckFrame_numWritableNackRanges; by rewrite Hr).
  set (nb := blocksOf first (writable first ranges 0)) in *.
  unfold AckFrame_Write. cbv zeta. fold dl. rewrite AckFrame_Write_head by done.
  rewrite Hm, Hr, HnN, (writeAckPN_enc (GetByteOrder version)) by done.
  rewrite Z.gtb_ltb, <- Hlast, Z.eqb_refl, <- Hlow, Z.eqb_refl, (proj2 (Z.ltb_ge _ _)) by lia.
  rewrite sub64_small by (zpow; lia). replace (1 + nb - 1) with nb by lia.
  rewrite (u8_small nb) by mlia. rewrite Hw. cbn [negb bind snd fst]. rewrite Z.eqb_refl.
  cbn [negb wapp bind WriteByte app]. rewrite Hlast. eexists. split_and!; [done| |intros rest].
  - rewrite zlen_cons, !zlen_app, !(zlen_enc (GetByteOrder version)), !Z2Nat.id by lia.
    rewrite zlen_cons, !zlen_app, !(zlen_enc (GetByteOrder version)), !Z2Nat.id, Hbs by lia.
    unfold AckFrame_MinLength, pathBytes, mul64. fold dl. rewrite Hm, HnN, (add64_small 1 dl) by mlia.
    rewrite (u64_small ((1 + dl) * (1 + nb))) by (unfold is_u64; zpow; nia).
    rewrite (add64_small (1 + 2 + 1)) by mlia. rewrite (add64_small (_ + _)) by (zpow; nia).
    case_test; [|rewrite add64_small by (zpow; nia)]; unfold zlen; simpl length; lia.
  - rewrite <- !app_comm_cons, <- !app_assoc. rewrite ParseAckFrame_head by done. cbv iota.
    rewrite <- !app_comm_cons, <- !app_assoc.
    rewrite (rbind_ok _ _ _ _ _ (ReadByte_cons _ _)). rewrite (proj2 (Z.eqb_neq _ _)) by lia. cbn [andb].
    rewrite (rbind_ok _ _ _ _ _ (ReadUintN_enc_Z _ _ _ _ Hdlr Hlen0)).
    rewrite !Z.gtb_ltb. decide_tests. cbn [andb]. 
    rewrite (rbind_ok _ _ _ _ _ (Hrd _)).
    assert (Hval : validateRanges (ack_LargestAcked f) (first :: writable first ranges 0) = true).
    { rewrite <- Hlast. apply (validateRanges_desc 1); [lia|done|zpow; lia|].
      destruct Hok as [Hf Hd]. split; [lia|]. by apply writable_desc. }
    unfold AckFrame_validateAckRanges. cbn [ack_AckRanges ack_LargestAcked fst snd app].
    rewrite Hval. cbn [negb].
    rewrite (rbind_ok _ _ _ _ _ (ReadByte_cons _ _)). cbn [Z.gtb Z.compare].
    unfold rret, ack_on_wire, sentLowest, sentRanges. by rewrite Hr.
Qed.

(** Nothing is left out when the gaps take less than 255 blocks. *)
Lemma sentRanges_all m lowest largest ranges :
  0 <= m -> largest < 2 ^ 48 -> ack_ranges_wf m lowest largest ranges ->
  match ranges with [] => True | first :: rest => blocksOf first rest < 255 end ->
  ranges_fit ranges /\ sentRanges ranges = ranges /\ sentLowest lowest ranges = lowest.
Proof.
  intros Hm Hl Hwf Hb. destruct ranges as [|first rest]; [done|].
  destruct Hwf as (Hne & (Hf & Hd) & Hlast & Hlow).
  assert (Hw : writable first rest 0 = rest) by (apply (writable_all m); [lia|zpow; lia|done|lia]).
  unfold ranges_fit, sentLowest, sentRanges. rewrite Hw. by subst.
Qed.

(** *** CLOSE_PATH *)

Definition closepath_on_wire (f : ClosePathFrame) : ClosePathFrame := {|
  cp_PathID := cp_PathID f;
  cp_LargestAcked := cp_LargestAcked f;
  cp_LowestAcked := sentLowest (cp_LowestAcked f) (cp_AckRanges f);
  cp_AckRanges := sentRanges (cp_AckRanges f);
|}.

Lemma ClosePathFrame_roundtrip_single f version :
  is_u8 (cp_PathID f) -> cp_LargestAcked f < 2 ^ 48 -> cp_AckRanges f = [] ->
  1 <= cp_LowestAcked f <= cp_LargestAcked f ->
  exists bs, ClosePathFrame_Write f version = Ok bs /\ zlen bs = ClosePathFrame_MinLength f /\
    forall rest, ParseClosePathFrame version (bs ++ rest) = Ok (closepath_on_wire f, rest).
Proof.
  intros Hp Hl Hr Hlow.
  destruct (single_range _ _ Hlow Hl) as (Hlen & Hlen1 & Hlen2 & Hlen3). cbv zeta in *.
  assert (Hlr : 0 <= cp_LargestAcked f < 2 ^ 48) by lia.
  destruct (largestLen_facts _ Hlr) as (Hv & Hvr & Hlfit).
  set (dl := ClosePathFrame_getMissingSequenceNumberDeltaLen f).
  assert (Hdl : valid_pn_len dl) by apply deltaLen_valid.
  pose proof (valid_pn_len_range _ Hdl) as Hdlr.
  assert (Hfit : 0 <= (cp_LargestAcked f -u cp_LowestAcked f) +u 1 < 2 ^ (8 * dl)).
  { unfold dl, ClosePathFrame_getMissingSequenceNumberDeltaLen, maxRangeLength. by rewrite Hr. }
  assert (Hm : ClosePathFrame_HasMissingRanges f = false)
    by (unfold ClosePathFrame_HasMissingRanges; by rewrite Hr).
  destruct (closePathFlags_decode _ _ false Hv Hdl) as (D1 & D2 & D3).
  unfold ClosePathFrame_Write. cbv zeta. fold dl.
  rewrite Hm, Hr, !(writeClosePathPN_enc (GetByteOrder version)), u8_small by done.
  cbn [wapp bind WriteByte app]. eexists. split_and!; [done| |intros rest].
  - rewrite !zlen_cons, !zlen_app, !(zlen_enc (GetByteOrder version)), !Z2Nat.id by lia.
    unfold ClosePathFrame_MinLength. fold dl. rewrite Hm. add64_exact. lia.
  - rewrite <- !app_comm_cons, <- !app_assoc. unfold ParseClosePathFrame. do 3 read_step.
    cbv zeta. rewrite D1, D2, D3.
    rewrite (rbind_ok _ _ _ _ _ (eq_refl : rret 0 _ = Ok (0, _))). cbn [andb].
    rewrite (rbind_ok _ _ _ _ _ (ReadUintN_enc_Z _ _ _ _ Hvr Hlfit)).
    rewrite (rbind_ok _ _ _ _ _ (ReadUintN_enc_Z _ _ _ _ Hdlr Hfit)).
    rewrite !Z.gtb_ltb. decide_tests. cbn [andb].
    rewrite (rbind_ok _ _ _ _ _ (eq_refl : rret _ _ = Ok (_, _))), Hlen3.
    unfold ClosePathFrame_validateAckRanges. cbn [cp_AckRanges fst snd validateRanges negb app].
    unfold rret, closepath_on_wire, sentLowest, sentRanges. by rewrite Hr.
Qed.

Lemma ClosePathFrame_roundtrip_ranges f version first ranges :
  is_u8 (cp_PathID f) -> 0 <= cp_LargestAcked f < 2 ^ 48 -> cp_AckRanges f = first :: ranges ->
  ack_ranges_wf 1 (cp_LowestAcked f) (cp_LargestAcked f) (first :: ranges) ->
  writable first ranges 0 <> [] ->
  exists bs, ClosePathFrame_Write f version = Ok bs /\ zlen bs = ClosePathFrame_MinLength f /\
    forall rest, ParseClosePathFrame version (bs ++ rest) = Ok (closepath_on_wire f, rest).
Proof.
  intros Hp Hl Hr Hwf Hne.
  destruct (largestLen_facts _ Hl) as (Hv & Hvr & Hlfit).
  set (dl := ClosePathFrame_getMissingSequenceNumberDeltaLen f).
  assert (Hdl : valid_pn_len dl) by apply deltaLen_valid.
  pose proof (valid_pn_len_range _ Hdl) as Hdlr.
  assert (Hm : ClosePathFrame_HasMissingRanges f = true).
  { unfold ClosePathFrame_HasMissingRanges. rewrite Hr, zlen_cons, Z.gtb_ltb.
    apply Z.ltb_lt. pose proof (zlen_nonneg ranges). lia. }
  destruct (blocks_roundtrip (writeClosePathPN (GetByteOrder version) dl)
    (ReadUintN (GetByteOrder version) dl)
    (enc (bo := GetByteOrder version) (Z.to_nat dl)) dl dl _ _ first ranges (proj2 Hl) Hwf)
    as (Hnw & Hnb & Hlen & Hlenf & bs & Hw & Hbs & Hrd); try done.
  { unfold dl, ClosePathFrame_getMissingSequenceNumberDeltaLen. by rewrite Hr. }
  { intros. by apply (writeClosePathPN_enc (GetByteOrder version)). }
  { intros. rewrite (zlen_enc (GetByteOrder version)). lia. }
  { intros. by apply ReadUintN_enc_Z. }
  assert (Hlen0 : 0 <= (cp_LargestAcked f -u ar_First first) +u 1 < 2 ^ (8 * dl)) by lia.
  pose proof Hwf as (Hne2 & Hok & Hlast & Hlow).
  destruct (closePathFlags_decode _ _ true Hv Hdl) as (D1 & D2 & D3).
  assert (HnN : ClosePathFrame_numWritableNackRanges f = 1 + blocksOf first (writable first ranges 0))
    by (unfold ClosePathFrame_numWritableNackRanges; by rewrite Hr).
  set (nb := blocksOf first (writable first ranges 0)) in *.
  unfold ClosePathFrame_Write. cbv zeta. fold dl.
  rewrite Hm, Hr, HnN, !(writeClosePathPN_enc (GetByteOrder version)) by done.
  rewrite Z.gtb_ltb, <- Hlast, Z.eqb_refl, <- Hlow, Z.eqb_refl, (proj2 (Z.ltb_ge 255 (1 + nb))) by lia.
  rewrite sub64_small by (zpow; lia). replace (1 + nb - 1) with nb by lia.
  rewrite (u8_small nb), u8_small by (done || mlia). rewrite Hw. cbn [negb bind snd fst].
  rewrite Z.eqb_refl. cbn [negb wapp bind WriteByte app]. rewrite Hlast.
  eexists. split_and!; [done| |intros rest].
  - rewrite !zlen_cons, !zlen_app, !(zlen_enc (GetByteOrder version)), !Z2Nat.id, Hbs by lia.
    unfold ClosePathFrame_MinLength, mul64. fold dl. rewrite Hm, HnN, (add64_small 1 dl) by mlia.
    rewrite (u64_small ((1 + dl) * (1 + nb))) by (unfold is_u64; zpow; nia).
    rewrite (add64_small (1 + 1 + 1)) by mlia. rewrite (add64_small (_ + _)) by (zpow; nia). lia.
  - rewrite <- !app_comm_cons, <- !app_assoc. unfold ParseClosePathFrame. do 3 read_step.
    cbv zeta. rewrite D1, D2, D3. cbv iota. read_step.
    rewrite (proj2 (Z.eqb_neq _ _)) by lia. cbn [andb].
    rewrite (rbind_ok _ _ _ _ _ (ReadUintN_enc_Z _ _ _ _ Hvr Hlfit)).
    rewrite (rbind_ok _ _ _ _ _ (ReadUintN_enc_Z _ _ _ _ Hdlr Hlen0)).
    rewrite !Z.gtb_ltb. decide_tests. cbn [andb]. rewrite (rbind_ok _ _ _ _ _ (Hrd _)).
    assert (Hval : validateRanges (cp_LargestAcked f) (first :: writable first ranges 0) = true).
    { rewrite <- Hlast. apply (validateRanges_desc 1); [lia|done|zpow; lia|].
      destruct Hok as [Hf Hd]. split; [lia|]. by apply writable_desc. }
    unfold ClosePathFrame_validateAckRanges. cbn [cp_AckRanges cp_LargestAcked fst snd app].
    rewrite Hval. cbn [negb]. unfold rret, closepath_on_wire, sentLowest, sentRanges. by rewrite Hr.
Qed.

(** ** What the parsers accept *)

Lemma lenField_valid bits : 0 <= bits <= 3 -> valid_pn_len (lenField bits).
Proof.
  intros H. assert (bits = 0 \/ bits = 1 \/ bits = 2 \/ bits = 3) as [->|[->|[->| ->]]] by lia;
    unfold valid_pn_len; vm_compute; tauto.
Qed.

Lemma land3_range t : 0 <= Z.land t 3 <= 3.
Proof.
  change 3 with (Z.ones 2) at 1. change 3 with (Z.ones 2) at 1. rewrite Z.land_ones by lia.
  pose proof (Z.mod_pos_bound t (2 ^ 2)). change (Z.ones 2) with 3. lia.
Qed.

Lemma land12_range t : 0 <= Z.shiftr (Z.land t 12) 2 <= 3.
Proof.
  rewrite Z.shiftr_land. change (Z.shiftr 12 2) with 3. apply land3_range.
Qed.

(** A length field reads less than 48 bits. *)
Lemma ReadPN_gives bo `{!ByteOrderLaws bo} n :
  valid_pn_len n -> reader_gives (fun v => 0 <= v < 2 ^ 48) (ReadUintN bo n).
Proof.
  intros Hv r a r' Hr E. pose proof (valid_pn_len_range _ Hv).
  rewrite <- (Z2Nat.id n) in E by lia. apply ReadUintN_gives in E as [Ha Hr']; [|lia|done].
  split; [|done]. rewrite Z2Nat.id in Ha by lia.
  assert (2 ^ (8 * n) <= 2 ^ 48) by (apply Z.pow_le_mono_r; [lia|]; unfold valid_pn_len in Hv; lia). lia.
Qed.

(** The ranges part of both parsers. *)
Lemma ranges_gives {A} bo `{!ByteOrderLaws bo} n (hasMissing : bool) largest len num
    (k : list AckRange * Z -> reader A) (Q : A -> Prop) :
  valid_pn_len n -> 0 <= largest < 2 ^ 48 -> 0 <= len -> len <= largest -> (0 < largest -> 1 <= len) ->
  0 <= num -> (hasMissing = true -> num <> 0) ->
  (forall ranges lowest, validateRanges largest ranges = true ->
     ack_ranges_wf 0 lowest largest ranges -> reader_gives Q (k (ranges, lowest))) ->
  (forall ranges lowest r, validateRanges largest ranges = false ->
     exists e, k (ranges, lowest) r = Err e) ->
  reader_gives Q
    (ranges <-- (if hasMissing then readRanges (ReadUintN bo n) largest len num
                 else rret ([], if largest =? 0 then 0 else (largest +u 1) -u len)) ;; k ranges).
Proof.
  intros Hn Hl Hlen Hle Hpos Hnum Hnz Hk Hk' r a r' Hr E. unfold rbind in E.
  destruct hasMissing; cbv iota in E.
  - destruct (readRanges _ _ _ _ r) as [[[ranges lowest] r1]| |] eqn:Er; try done.
    destruct (validateRanges largest ranges) eqn:Ev.
    + destruct (readRanges_ok _ _ _ _ _ _ _ _ (ReadPN_gives bo n Hn) Hr Hl (Hnz eq_refl) Hnum Er Ev)
        as (Hr1 & first & rest & -> & Hw). eapply Hk; [done| |exact Hr1|exact E].
      cbn [ack_ranges_wf]. tauto.
    + destruct (Hk' ranges lowest r1 Ev) as [e He]. by rewrite He in E.
  - unfold rret in E. eapply (Hk [] _ eq_refl); [|exact Hr|exact E]. cbn [ack_ranges_wf].
    case_test; [lia|]. rewrite add64_sub64, u64_small by mlia. lia.
Qed.

Lemma skipTimestamps_gives bo `{!ByteOrderLaws bo} k :
  reader_gives (fun _ => True) (skipTimestamps bo k).
Proof.
  induction k as [|k IH]; [by apply rret_gives|]. cbn [skipTimestamps].
  eapply rbind_gives; [apply ReadByte_gives|]. intros _ _.
  eapply rbind_gives; [apply ReadUint16_gives|]. done.
Qed.

Lemma readUfloat16_gives bo `{!ByteOrderLaws bo} : reader_gives (fun _ => True) (readUfloat16 bo).
Proof. eapply rbind_gives; [apply ReadUint16_gives|]. intros v _. by apply rret_gives. Qed.

Lemma block_count_gives (b : bool) : reader_gives (fun v => 0 <= v) (if b then ReadByte else rret 0).
Proof.
  apply if_gives; intros _; [|by apply rret_gives].
  intros r a r' Hr E. apply ReadByte_gives in E as [Ha Hr']; [|done]. unfold is_u8 in Ha. split; [lia|done].
Qed.

Lemma ParseAckFrame_gives version : reader_gives (AckFrame_wf 0) (ParseAckFrame version).
Proof.
  unfold ParseAckFrame. eapply rbind_gives; [apply ReadByte_gives|]. intros tb Htb. cbv zeta.
  pose proof (lenField_valid _ (land12_range tb)) as Hll.
  pose proof (lenField_valid _ (land3_range tb)) as Hdl.
  eapply (rbind_gives is_u8).
  { apply if_gives; intros _; [apply ReadByte_gives|by apply rret_gives]. }
  intros pid Hpid. eapply rbind_gives; [apply (ReadPN_gives _ _ Hll)|]. intros largest Hlg. cbv beta in Hlg.
  eapply rbind_gives; [apply (readUfloat16_gives _)|]. intros delay _.
  eapply rbind_gives; [apply block_count_gives|]. intros num Hnum. cbv beta in Hnum.
  apply if_gives; intros Hnz; [apply rfail_gives|].
  eapply rbind_gives; [apply (ReadPN_gives _ _ Hdl)|]. intros len Hlen. cbv beta in Hlen.
  apply if_gives; intros Hf1; [apply rfail_gives|].
  apply if_gives; intros Hf2; [apply rfail_gives|]. bool_to_prop.
  apply (ranges_gives _ _ _ _ _ _ _ _ Hdl); try done; try lia.
  - intros ranges lowest Hv Hwf. unfold AckFrame_validateAckRanges.
    cbn [ack_AckRanges ack_LargestAcked fst snd]. rewrite Hv. cbn [negb].
    assert (Hok : AckFrame_wf 0 {| ack_PathID := pid; ack_LargestAcked := largest;
      ack_LowestAcked := lowest; ack_AckRanges := ranges; ack_PacketReceivedTime := zeroTime;
      ack_DelayTime := i64 (i64 delay * Microsecond) |}) by (split_and!; cbn; [apply Hpid..|lia|done]).
    eapply rbind_gives; [apply ReadByte_gives|]. intros nts _.
    apply if_gives; intros _; [|by apply rret_gives].
    eapply rbind_gives; [apply ReadByte_gives|]. intros _ _.
    eapply rbind_gives; [apply ReadUint32_gives|]. intros _ _.
    eapply rbind_gives; [apply (skipTimestamps_gives _)|]. intros _ _. by apply rret_gives.
  - intros ranges lowest r Hv. unfold AckFrame_validateAckRanges.
    cbn [ack_AckRanges ack_LargestAcked fst snd]. rewrite Hv. cbn [negb]. by eexists.
Qed.

Lemma ParseClosePathFrame_gives version :
  reader_gives (ClosePathFrame_wf 0) (ParseClosePathFrame version).
Proof.
  unfold ParseClosePathFrame. eapply rbind_gives; [apply ReadByte_gives|]. intros _ _.
  eapply rbind_gives; [apply ReadByte_gives|]. intros pid Hpid.
  eapply rbind_gives; [apply ReadByte_gives|]. intros tb Htb. cbv zeta.
  pose proof (lenField_valid _ (land12_range tb)) as Hll.
  pose proof (lenField_valid _ (land3_range tb)) as Hdl.
  eapply rbind_gives; [apply block_count_gives|]. intros num Hnum. cbv beta in Hnum.
  apply if_gives; intros Hnz; [apply rfail_gives|].
  eapply rbind_gives; [apply (ReadPN_gives _ _ Hll)|]. intros largest Hlg. cbv beta in Hlg.
  eapply rbind_gives; [apply (ReadPN_gives _ _ Hdl)|]. intros len Hlen. cbv beta in Hlen.
  apply if_gives; intros Hf1; [apply rfail_gives|].
  apply if_gives; intros Hf2; [apply rfail_gives|]. bool_to_prop.
  apply (ranges_gives _ _ _ _ _ _ _ _ Hdl); try done; try lia.
  - intros ranges lowest Hv Hwf. unfold ClosePathFrame_validateAckRanges.
    cbn [cp_AckRanges cp_LargestAcked fst snd]. rewrite Hv. cbn [negb].
    apply rret_gives. split_and!; cbn; [apply Hpid..|lia|done].
  - intros ranges lowest r Hv. unfold ClosePathFrame_validateAckRanges.
    cbn [cp_AckRanges cp_LargestAcked fst snd]. rewrite Hv. cbn [negb]. by eexists.
Qed.

Lemma AckFrame_wire f version now :
  AckFrame_wf 1 f -> ranges_fit (ack_AckRanges f) -> ack_PacketReceivedTime f <= now ->
  exists bs, AckFrame_Write f version now = Ok bs /\ zlen bs = AckFrame_MinLength f /\
    forall rest, ParseAckFrame version (bs ++ rest) = Ok (ack_on_wire f now, rest).
Proof.
  intros (Hp & Hl & Hwf) Hfit Ht. destruct (ack_AckRanges f) as [|first ranges] eqn:Er.
  - by apply AckFrame_roundtrip_single.
  - apply (AckFrame_roundtrip_ranges f version now first ranges); try done.
    destruct Hwf as (_ & (Hf & _) & Hlast & _). lia.
Qed.

Lemma ClosePathFrame_wire f version :
  ClosePathFrame_wf 1 f -> ranges_fit (cp_AckRanges f) ->
  exists bs, ClosePathFrame_Write f version = Ok bs /\ zlen bs = ClosePathFrame_MinLength f /\
    forall rest, ParseClosePathFrame version (bs ++ rest) = Ok (closepath_on_wire f, rest).
Proof.
  intros (Hp & Hl & Hwf) Hfit. destruct (cp_AckRanges f) as [|first ranges] eqn:Er.
  - by apply ClosePathFrame_roundtrip_single.
  - apply (ClosePathFrame_roundtrip_ranges f version first ranges); try done.
    destruct Hwf as (_ & (Hf & _) & Hlast & _). lia.
Qed.

Lemma writable_subset prev l acc p :
  Exists (in_range p) (writable prev l acc) -> Exists (in_range p) l.
Proof.
  revert prev acc. induction l as [|r l IH]; intros prev acc; cbn [writable]; [done|].
  case_test; [|by intros He; inv He]. rewrite !Exists_cons. intros [?|He]; [by left|right]. by eapply IH.
Qed.

(** ** Main results *)

(** Everything [ParseAckFrame] accepts is a valid ACK frame (its ranges are
    non-empty, descending and separated by gaps, and start and end at the
    largest and lowest acknowledged numbers), and on such a frame [AcksPacket]
    decides exactly whether a packet number lies in one of the ranges. *)
Theorem ParseAckFrame_valid version r f r' :
  bytes_ok r -> ParseAckFrame version r = Ok (f, r') ->
  AckFrame_wf 0 f /\ AckFrame_validateAckRanges f = true /\
  forall p, AckFrame_AcksPacket f p = true <->
    acked_by (ack_LowestAcked f) (ack_LargestAcked f) (ack_AckRanges f) p.
Proof.
  intros Hr E. destruct (ParseAckFrame_gives version r f r' Hr E) as [Hwf _].
  destruct Hwf as (Hp & Hl & Hwf). split_and!; [done..| |].
  - unfold AckFrame_validateAckRanges. destruct (ack_AckRanges f) as [|first rest] eqn:Er; [done|].
    destruct Hwf as (Hne & Hok & Hlast & _). rewrite <- Hlast. apply (validateRanges_desc 0); [lia|done|zpow; lia|done].
  - intros p. by apply (rangesAcksPacket_spec 0).
Qed.

(** A frame with three ranges, the lowest of which is behind a gap of 400. *)
Definition example_ack : AckFrame := {|
  ack_PathID := 2; ack_LargestAcked := 1000; ack_LowestAcked := 3;
  ack_AckRanges := [{| ar_First := 990; ar_Last := 1000 |}; {| ar_First := 501; ar_Last := 987 |};
                    {| ar_First := 3; ar_Last := 100 |}];
  ack_PacketReceivedTime := 0; ack_DelayTime := 0 |}.

Definition example_ack_bytes : list Z :=
  match AckFrame_Write example_ack VersionMP 7000 with Ok bs => bs | _ => [] end.

Lemma ParseAckFrame_valid_witness :
  AckFrame_wf 0 (ack_on_wire example_ack 7000) /\
  AckFrame_validateAckRanges (ack_on_wire example_ack 7000) = true /\
  forall p, AckFrame_AcksPacket (ack_on_wire example_ack 7000) p = true <->
    acked_by (ack_LowestAcked (ack_on_wire example_ack 7000)) (ack_LargestAcked (ack_on_wire example_ack 7000))
      (ack_AckRanges (ack_on_wire example_ack 7000)) p.
Proof.
  apply (ParseAckFrame_valid VersionMP example_ack_bytes _ []).
  - apply (bool_decide_unpack _). vm_compute. exact I.
  - vm_compute. reflexivity.
Defined.

(** An ACK frame survives the wire: it is written in exactly [MinLength]
    bytes, and the peer parses the same path, the same largest acknowledged
    packet and the ranges that fit in 255 blocks, all of them when the gaps take
    less than 255 blocks; the bytes after the frame are untouched. *)
Theorem AckFrame_roundtrip f version now :
  AckFrame_wf 1 f -> ranges_fit (ack_AckRanges f) -> ack_PacketReceivedTime f <= now ->
  exists bs f', AckFrame_Write f version now = Ok bs /\ zlen bs = AckFrame_MinLength f /\
    (forall rest, ParseAckFrame version (bs ++ rest) = Ok (f', rest)) /\
    ack_PathID f' = ack_PathID f /\ ack_LargestAcked f' = ack_LargestAcked f /\
    (forall p, AckFrame_AcksPacket f' p = true -> AckFrame_AcksPacket f p = true) /\
    (match ack_AckRanges f with [] => True | first :: rest => blocksOf first rest < 255 end ->
     ack_AckRanges f' = ack_AckRanges f /\ ack_LowestAcked f' = ack_LowestAcked f).
Proof.
  intros Hwf Hfit Ht. destruct (AckFrame_wire f version now Hwf Hfit Ht) as (bs & Hw & Hl & Hr).
  exists bs, (ack_on_wire f now). destruct Hwf as (Hp & Hlg & Hwf).
  split_and!; [done..| |].
  - intros p. unfold AckFrame_AcksPacket. cbn [ack_on_wire ack_LowestAcked ack_LargestAcked ack_AckRanges].
    destruct (ack_AckRanges f) as [|first rest] eqn:Er; [done|].
    destruct Hwf as (Hne & (Hf & Hd) & <- & ->). cbn [sentLowest sentRanges].
    rewrite (rangesAcksPacket_ranges 1) by (split; [done|by apply writable_desc]).
    rewrite (rangesAcksPacket_ranges 1) by done. rewrite !Exists_cons.
    intros [?|He]; [by left|right]. by eapply writable_subset.
  - intros Hb. destruct (sentRanges_all 1 _ _ _ ltac:(lia) Hlg Hwf Hb) as (_ & H1 & H2). done.
Qed.

Lemma AckFrame_roundtrip_witness :
  exists bs f', AckFrame_Write example_ack VersionMP 7000 = Ok bs /\ zlen bs = AckFrame_MinLength example_ack /\
    (forall rest, ParseAckFrame VersionMP (bs ++ rest) = Ok (f', rest)) /\
    ack_AckRanges f' = ack_AckRanges example_ack.
Proof.
  destruct (AckFrame_roundtrip example_ack VersionMP 7000) as (bs & f' & H1 & H2 & H3 & _ & _ & _ & H4).
  - repeat split; cbn; (done || lia).
  - cbn. done.
  - cbn. lia.
  - exists bs, f'. split_and!; [done..|]. apply H4. vm_compute. reflexivity.
Defined.

(** When the gap below the highest range is longer than 64770 packets, the
    frame cannot be written: its gap takes 255 blocks or more, which the writer
    counts as not writable but then writes, and its own consistency check fails.
    The error reaches [session.run] through [packetPacker.PackPacket], which
    then closes the session. *)
Theorem AckFrame_long_gap f version now first r rest :
  AckFrame_wf 1 f -> ack_PacketReceivedTime f <= now ->
  ack_AckRanges f = first :: r :: rest -> ar_First first - ar_Last r - 1 > 64770 ->
  AckFrame_Write f version now = Err (errors_New "BUG: Inconsistent number of ACK ranges written").
Proof.
  intros (Hp & Hl & Hwf) Ht Hr Hgap. rewrite Hr in Hwf.
  set (dl := AckFrame_getMissingSequenceNumberDeltaLen f).
  assert (Hdl : valid_pn_len dl) by apply deltaLen_valid. pose proof (valid_pn_len_range _ Hdl) as Hdlr.
  destruct (deltaLen_ranges _ _ _ _ Hl Hwf) as [HB HB0]. cbv zeta in HB, HB0.
  replace (deltaLen (maxRangeLength (ack_LargestAcked f) (ack_LowestAcked f) (first :: r :: rest)))
    with dl in HB, HB0 by (unfold dl, AckFrame_getMissingSequenceNumberDeltaLen; by rewrite Hr).
  destruct Hwf as (_ & (Hf & Hd) & Hlast & Hlow). pose proof Hd as (Hrr & Hg & _).
  inversion HB as [|? ? HBf HB']; subst x l. inversion HB' as [|? ? HBr _]; subst x l.
  assert (Hff : ar_First first < 2 ^ 64) by (zpow; lia).
  destruct (ranges_desc_gap 1 first r rest) as (Hgb & _ & _); [lia|done|done|].
  set (g := gapBlocks (rangeGap first r)) in *.
  assert (Hg255 : 255 <= g).
  { unfold g. rewrite rangeGap_val, gapBlocks_spec by (zpow; lia).
    assert (254 <= (ar_First first - ar_Last r - 1 - 1) / 255) by (apply Z.div_le_lower_bound; lia). lia. }
  assert (Hm : AckFrame_HasMissingRanges f = true).
  { unfold AckFrame_HasMissingRanges. rewrite Hr, zlen_cons, Z.gtb_ltb.
    apply Z.ltb_lt. pose proof (zlen_nonneg (r :: rest)). lia. }
  assert (HnN : AckFrame_numWritableNackRanges f = 1).
  { unfold AckFrame_numWritableNackRanges. rewrite Hr. cbn [numWritableRanges numWritable_loop].
    fold g. rewrite (add64_small 0 g) by (zpow; lia). by rewrite (proj2 (Z.ltb_ge _ _)) by lia. }
  destruct (writeRange_read (writeAckPN (GetByteOrder version) dl) (ReadUintN (GetByteOrder version) dl)
    (enc (bo := GetByteOrder version) (Z.to_nat dl)) (2 ^ (8 * dl)) dl) with (prev := first) (r := r)
    as (bs & Hw & _ & _); try done; try lia.
  { intros. by apply (writeAckPN_enc (GetByteOrder version)). }
  { intros. rewrite (zlen_enc (GetByteOrder version)). lia. }
  { intros. by apply ReadUintN_enc_Z. }
  unfold AckFrame_Write. cbv zeta. fold dl. rewrite AckFrame_Write_head by (done || lia).
  rewrite Hm, Hr, HnN, (writeAckPN_enc (GetByteOrder version)) by
    (try done; rewrite sub64_small, add64_small by (zpow; lia); rewrite rangeLength_val in HBf by (zpow; lia); lia).
  rewrite <- Hlast, Z.eqb_refl, <- Hlow, Z.eqb_refl. cbn [writeRanges]. rewrite Hw. cbn [bind].
  fold g.
  rewrite (add64_small 1 g) by (zpow; lia). rewrite Z.geb_leb, (proj2 (Z.leb_le 1 (1 + g))) by lia.
  cbn [bind snd]. rewrite (proj2 (Z.eqb_neq 1 (1 + g))) by lia. done.
Qed.

Definition example_gap_ack : AckFrame := {|
  ack_PathID := 0; ack_LargestAcked := 70000; ack_LowestAcked := 1;
  ack_AckRanges := [{| ar_First := 70000; ar_Last := 70000 |}; {| ar_First := 1; ar_Last := 5 |}];
  ack_PacketReceivedTime := 0; ack_DelayTime := 0 |}.

Lemma AckFrame_long_gap_witness :
  AckFrame_Write example_gap_ack Version39 0 = Err (errors_New "BUG: Inconsistent number of ACK ranges written").
Proof.
  apply (AckFrame_long_gap example_gap_ack Version39 0
    {| ar_First := 70000; ar_Last := 70000 |} {| ar_First := 1; ar_Last := 5 |} []).
  - repeat split; cbn; (done || lia).
  - cbn. lia.
  - reflexivity.
  - cbn. lia.
Defined.
