(* ===== verification/PublicHeader.v ===== *)
(** * Public headers (internal/wire/public_header.go and version_negotiation.go)

    Every packet starts with a public header: flags, connection ID, version,
    path ID and the truncated packet number. *)
From S2P Require Import Prelude Qerr ByteOrder Protocol WireStream WireControl.

(** The exported fields but [Raw], which the session fills in with the bytes of
    the header. *)
Record PublicHeader : Type := {
  ph_ConnectionID : Z;
  ph_PathID : Z;
  ph_VersionFlag : bool;
  ph_ResetFlag : bool;
  ph_TruncateConnectionID : bool;
  ph_MultipathFlag : bool;
  ph_PacketNumberLen : Z;
  ph_PacketNumber : Z;
  ph_VersionNumber : Z;
  ph_SupportedVersions : list Z;
  ph_DiversificationNonce : list Z;
}.

Definition ErrPacketWithUnknownVersion : error := errors_New
  "PublicHeader: Received a packet without version number, that we don't know the version for".
Definition errResetAndVersionFlagSet : error := errors_New
  "PublicHeader: Reset Flag and Version Flag should not be set at the same time".
Definition errReceivedTruncatedConnectionID : error := QuicError qerr.InvalidPacketHeader
  "receiving packets with truncated ConnectionID is not supported".
Definition errInvalidConnectionID : error := QuicError qerr.InvalidPacketHeader
  "connection ID cannot be 0".
Definition errGetLengthNotForVersionNegotiation : error := errors_New
  "PublicHeader: GetLength cannot be called for VersionNegotiation packets".

Definition hasPacketNumberFlags (reset version : bool) (packetSentBy : Perspective) : bool :=
  if reset then false
  else if version && bool_decide (packetSentBy = PerspectiveServer) then false
  else true.

Definition PublicHeader_hasPacketNumber (h : PublicHeader) (packetSentBy : Perspective) : bool :=
  hasPacketNumberFlags (ph_ResetFlag h) (ph_VersionFlag h) packetSentBy.

Definition publicFlagByte (h : PublicHeader) (pers : Perspective) : Z :=
  let t := 0 in
  let t := if ph_VersionFlag h then Z.lor t 1 else t in
  let t := if ph_ResetFlag h then Z.lor t 2 else t in
  let t := if ph_TruncateConnectionID h then t else Z.lor t 8 in
  let t := if zlen (ph_DiversificationNonce h) >? 0 then Z.lor t 4 else t in
  let t := if PublicHeader_hasPacketNumber h pers then
             match ph_PacketNumberLen h with
             | 1 => Z.lor t 0
             | 2 => Z.lor t 16
             | 4 => Z.lor t 32
             | 6 => Z.lor t 48
             | _ => t
             end
           else t in
  if ph_MultipathFlag h then Z.lor t 64 else t.

Definition PublicHeader_Write (h : PublicHeader) (version : Z) (pers : Perspective) : writer :=
  if ph_VersionFlag h && ph_ResetFlag h then Err errResetAndVersionFlagSet
  else if (zlen (ph_DiversificationNonce h) >? 0) && negb (zlen (ph_DiversificationNonce h) =? 32)
  then Err (errors_New "invalid diversification nonce length")
  else
  let bo := GetByteOrder version in
  (WriteByte (publicFlagByte h pers) ;;;
   (if ph_TruncateConnectionID h then Ok [] else WriteUint64 LittleEndian (ph_ConnectionID h)) ;;;
   (if ph_VersionFlag h && bool_decide (pers = PerspectiveClient)
    then WriteUint32 LittleEndian (VersionNumberToTag (ph_VersionNumber h)) else Ok []) ;;;
   (if zlen (ph_DiversificationNonce h) >? 0 then WriteBytes (ph_DiversificationNonce h) else Ok []) ;;;
   (if ph_MultipathFlag h then WriteByte (u8 (ph_PathID h)) else Ok []) ;;;
   if negb (PublicHeader_hasPacketNumber h pers) then Ok []
   else match ph_PacketNumberLen h with
        | 1 => WriteByte (u8 (ph_PacketNumber h))
        | 2 => WriteUint16 bo (u16 (ph_PacketNumber h))
        | 4 => WriteUint32 bo (u32 (ph_PacketNumber h))
        | 6 => WriteUint48 bo (Z.land (ph_PacketNumber h) (Z.shiftl 1 48 - 1))
        | _ => Err (errors_New "PublicHeader: PacketNumberLen not set")
        end).

(** The read position is restored on success. *)
Definition PeekConnectionID (packetSentBy : Perspective) : reader Z :=
  fun r =>
    let peek : reader Z :=
      flagByte <-- ReadByte ;;
      let truncateConnectionID := Z.land flagByte 8 =? 0 in
      if truncateConnectionID && bool_decide (packetSentBy = PerspectiveClient)
      then rfail errReceivedTruncatedConnectionID
      else if truncateConnectionID then rret 0 else ReadUint64 LittleEndian in
    let* res := peek r in Ok (fst res, r).

(** The loop over the versions of a version negotiation packet: it ends when a
    tag cannot be read, which leaves nothing to read. *)
Fixpoint readVersions (fuel : nat) (acc : list Z) : reader (list Z) :=
  fun r =>
    match fuel with
    | O => Ok (acc, [])
    | S fuel' =>
        match ReadUint32 LittleEndian r with
        | Ok (versionTag, r') => readVersions fuel' (acc ++ [VersionTagToNumber versionTag]) r'
        | _ => Ok (acc, [])
        end
    end.

Definition flagPacketNumberLen (flagByte : Z) : Z :=
  match Z.land flagByte 48 with
  | 48 => PacketNumberLen6
  | 32 => PacketNumberLen4
  | 16 => PacketNumberLen2
  | _ => PacketNumberLen1
  end.

Definition ParsePublicHeader (packetSentBy : Perspective) (version : Z) : reader PublicHeader :=
  flagByte <-- ReadByte ;;
  let resetFlag := Z.land flagByte 2 >? 0 in
  let versionFlag := Z.land flagByte 1 >? 0 in
  if (version =? VersionUnknown) && negb (versionFlag || resetFlag)
  then rfail ErrPacketWithUnknownVersion else
  let truncateConnectionID := Z.land flagByte 8 =? 0 in
  if truncateConnectionID && bool_decide (packetSentBy = PerspectiveClient)
  then rfail errReceivedTruncatedConnectionID else
  let hasPN := hasPacketNumberFlags resetFlag versionFlag packetSentBy in
  let packetNumberLen := if hasPN then flagPacketNumberLen flagByte else 0 in
  let multipathFlag := Z.land flagByte 64 >? 0 in
  connectionID <-- (if truncateConnectionID then rret 0 else ReadUint64 LittleEndian) ;;
  if negb truncateConnectionID && (connectionID =? 0) then rfail errInvalidConnectionID else
  diversificationNonce <--
    (if bool_decide (packetSentBy = PerspectiveServer) && (Z.land flagByte 4 >? 0) then
       if negb versionFlag && negb resetFlag then ReadFull 32 else rret []
     else rret []) ;;
  let header pathID packetNumber versionNumber supportedVersions :=
    {| ph_ConnectionID := connectionID; ph_PathID := pathID;
       ph_VersionFlag := versionFlag; ph_ResetFlag := resetFlag;
       ph_TruncateConnectionID := truncateConnectionID; ph_MultipathFlag := multipathFlag;
       ph_PacketNumberLen := packetNumberLen; ph_PacketNumber := packetNumber;
       ph_VersionNumber := versionNumber; ph_SupportedVersions := supportedVersions;
       ph_DiversificationNonce := diversificationNonce |} in
  if negb resetFlag && versionFlag && bool_decide (packetSentBy = PerspectiveServer) then
    len <-- ReaderLen ;;
    if negb (len mod 4 =? 0) then rfail (ErrCode qerr.InvalidVersionNegotiationPacket) else
    supportedVersions <-- readVersions (S (Z.to_nat len)) [] ;;
    rret (header 0 0 0 supportedVersions)
  else
  versionNumber <-- (if negb resetFlag && versionFlag
                     then versionTag <-- ReadUint32 LittleEndian ;;
                          rret (VersionTagToNumber versionTag)
                     else rret 0) ;;
  let version := if negb resetFlag && versionFlag then versionNumber else version in
  pathID <-- (if multipathFlag then ReadByte else rret 0) ;;
  packetNumber <-- (if hasPN then ReadUintN (GetByteOrder version) packetNumberLen else rret 0) ;;
  rret (header pathID packetNumber versionNumber []).

Definition PublicHeader_GetLength (h : PublicHeader) (pers : Perspective) : result Z :=
  if ph_VersionFlag h && ph_ResetFlag h then Err errResetAndVersionFlagSet
  else if ph_VersionFlag h && bool_decide (pers = PerspectiveServer)
  then Err errGetLengthNotForVersionNegotiation
  else
  let length := 1 in
  let* length :=
    if PublicHeader_hasPacketNumber h pers then
      if negb (ph_PacketNumberLen h =? PacketNumberLen1) && negb (ph_PacketNumberLen h =? PacketNumberLen2) &&
         negb (ph_PacketNumberLen h =? PacketNumberLen4) && negb (ph_PacketNumberLen h =? PacketNumberLen6)
      then Err errPacketNumberLenNotSet
      else Ok (length +u ph_PacketNumberLen h)
    else Ok length in
  let length := if ph_TruncateConnectionID h then length else length +u 8 in
  let length := if ph_VersionFlag h then length +u 4 else length in
  let length := length +u zlen (ph_DiversificationNonce h) in
  Ok (if ph_MultipathFlag h then length +u 1 else length).

(** ** Version negotiation *)

Fixpoint writeVersions (versions : list Z) : writer :=
  match versions with
  | [] => Ok []
  | v :: versions' => (WriteUint32 LittleEndian (VersionNumberToTag v) ;;; writeVersions versions')
  end.

(** The header of a version negotiation packet cannot fail to be written, so
    the error the code logs and ignores does not occur. *)
Definition ComposeVersionNegotiation (connectionID : Z) (versions : list Z) : writer :=
  let responsePublicHeader :=
    {| ph_ConnectionID := connectionID; ph_PathID := 0; ph_VersionFlag := true;
       ph_ResetFlag := false; ph_TruncateConnectionID := false; ph_MultipathFlag := false;
       ph_PacketNumberLen := 0; ph_PacketNumber := 1; ph_VersionNumber := 0;
       ph_SupportedVersions := []; ph_DiversificationNonce := [] |} in
  (PublicHeader_Write responsePublicHeader VersionWhatever PerspectiveServer ;;;
   writeVersions versions).

(** ** Round trip of the header of a regular packet *)

(** A header a sender builds: the version is only sent by clients, the nonce
    only by servers. *)
Record PublicHeader_sendable (h : PublicHeader) (version : Z) (pers : Perspective) : Prop := {
  sendable_reset : ph_ResetFlag h = false;
  sendable_pnlen : valid_pn_len (ph_PacketNumberLen h);
  sendable_pn : is_u64 (ph_PacketNumber h);
  sendable_path : is_u8 (ph_PathID h);
  sendable_id : is_u64 (ph_ConnectionID h) /\ ph_ConnectionID h <> 0;
  sendable_truncated : ph_TruncateConnectionID h = true -> pers = PerspectiveServer;
  sendable_version : ph_VersionFlag h = true ->
    pers = PerspectiveClient /\ ph_VersionNumber h = version /\ 0 <= version < 1000;
  sendable_nonce : ph_DiversificationNonce h = [] \/
    (pers = PerspectiveServer /\ length (ph_DiversificationNonce h) = 32%nat);
}.

(** The header the peer gets: the packet number is truncated. *)
Definition header_on_wire (h : PublicHeader) : PublicHeader := {|
  ph_ConnectionID := if ph_TruncateConnectionID h then 0 else ph_ConnectionID h;
  ph_PathID := if ph_MultipathFlag h then ph_PathID h else 0;
  ph_VersionFlag := ph_VersionFlag h;
  ph_ResetFlag := ph_ResetFlag h;
  ph_TruncateConnectionID := ph_TruncateConnectionID h;
  ph_MultipathFlag := ph_MultipathFlag h;
  ph_PacketNumberLen := ph_PacketNumberLen h;
  ph_PacketNumber := ph_PacketNumber h mod 2 ^ (8 * ph_PacketNumberLen h);
  ph_VersionNumber := if ph_VersionFlag h then ph_VersionNumber h else 0;
  ph_SupportedVersions := [];
  ph_DiversificationNonce := ph_DiversificationNonce h;
|}.

Lemma publicFlagByte_decode h pers :
  ph_ResetFlag h = false -> (ph_VersionFlag h = true -> pers = PerspectiveClient) ->
  valid_pn_len (ph_PacketNumberLen h) ->
  let t := publicFlagByte h pers in
  (Z.land t 2 >? 0) = false /\ (Z.land t 1 >? 0) = ph_VersionFlag h /\
  (Z.land t 8 =? 0) = ph_TruncateConnectionID h /\
  (Z.land t 4 >? 0) = (zlen (ph_DiversificationNonce h) >? 0) /\
  (Z.land t 64 >? 0) = ph_MultipathFlag h /\
  flagPacketNumberLen t = ph_PacketNumberLen h /\
  hasPacketNumberFlags (ph_ResetFlag h) (ph_VersionFlag h) pers = true.
Proof.
  intros Hr Hv Hn. unfold publicFlagByte, PublicHeader_hasPacketNumber.
  assert (HP : hasPacketNumberFlags (ph_ResetFlag h) (ph_VersionFlag h) pers = true).
  { rewrite Hr. unfold hasPacketNumberFlags. destruct (ph_VersionFlag h); [|done].
    by rewrite Hv. }
  rewrite HP, Hr.
  destruct (ph_VersionFlag h), (ph_TruncateConnectionID h), (ph_MultipathFlag h),
    (zlen (ph_DiversificationNonce h) >? 0), Hn as [->|[->|[->| ->]]]; by vm_compute.
Qed.

(** A truncated packet number on the wire. *)
Lemma writePN_mod bo `{!ByteOrderLaws bo} n v d :
  valid_pn_len n -> is_u64 v ->
  match n with
  | 1 => WriteByte (u8 v)
  | 2 => WriteUint16 bo (u16 v)
  | 4 => WriteUint32 bo (u32 v)
  | 6 => WriteUint48 bo (Z.land v (Z.shiftl 1 48 - 1))
  | _ => d
  end = Ok (enc (Z.to_nat n) (v mod 2 ^ (8 * n))).
Proof.
  intros Hn Hv. destruct Hn as [->|[->|[->| ->]]]; simpl Z.mul.
  - change (v mod 2 ^ 8) with (u8 v). rewrite enc_1 by apply u8_range. done.
  - apply WriteUint16_enc, u16_range.
  - apply WriteUint32_enc, u32_range.
  - change (Z.shiftl 1 48 - 1) with (Z.ones 48). rewrite Z.land_ones by lia.
    apply WriteUint48_enc. apply Z.mod_pos_bound. lia.
Qed.

Lemma VersionNumberToTag_u32 v : is_u32 (VersionNumberToTag v).
Proof. apply u32_range. Qed.

Definition idBytes (h : PublicHeader) : list Z :=
  if ph_TruncateConnectionID h then [] else enc (bo := LittleEndian) 8 (ph_ConnectionID h).
Definition versionBytes (h : PublicHeader) : list Z :=
  if ph_VersionFlag h then enc (bo := LittleEndian) 4 (VersionNumberToTag (ph_VersionNumber h)) else [].
Definition pathIDBytes (h : PublicHeader) : list Z := if ph_MultipathFlag h then [ph_PathID h] else [].

Definition headerBytes (h : PublicHeader) (version : Z) (pers : Perspective) : list Z :=
  publicFlagByte h pers :: idBytes h ++ versionBytes h ++ ph_DiversificationNonce h ++ pathIDBytes h ++
  enc (bo := GetByteOrder version) (Z.to_nat (ph_PacketNumberLen h))
    (ph_PacketNumber h mod 2 ^ (8 * ph_PacketNumberLen h)).

Lemma PublicHeader_Write_bytes h version pers :
  PublicHeader_sendable h version pers ->
  PublicHeader_Write h version pers = Ok (headerBytes h version pers).
Proof.
  intros [Hr Hn Hp Hpath [Hid _] Htr Hv Hnonce].
  assert (HP : PublicHeader_hasPacketNumber h pers = true).
  { by apply publicFlagByte_decode; [|intros; apply Hv|]. }
  unfold PublicHeader_Write, headerBytes, idBytes, versionBytes, pathIDBytes.
  rewrite Hr, HP, andb_false_r. cbn [negb].
  rewrite (WriteUint64_enc (bo := LittleEndian) _ Hid), u8_small by done.
  rewrite (writePN_mod (GetByteOrder version) _ _ _ Hn Hp).
  assert (Hvt : (if ph_VersionFlag h && bool_decide (pers = PerspectiveClient)
    then WriteUint32 LittleEndian (VersionNumberToTag (ph_VersionNumber h)) else Ok []) =
    Ok (versionBytes h)).
  { unfold versionBytes. destruct (ph_VersionFlag h) eqn:E; [|done].
    destruct (Hv eq_refl) as [-> _]. cbn [andb bool_decide].
    apply (WriteUint32_enc (bo := LittleEndian)), VersionNumberToTag_u32. }
  rewrite Hvt. unfold versionBytes.
  assert (Hnon : (zlen (ph_DiversificationNonce h) >? 0) && negb (zlen (ph_DiversificationNonce h) =? 32) = false /\
    (if zlen (ph_DiversificationNonce h) >? 0 then WriteBytes (ph_DiversificationNonce h) else Ok []) =
    Ok (ph_DiversificationNonce h)).
  { unfold zlen. destruct Hnonce as [->|[_ ->]]; done. }
  destruct Hnon as [-> ->].
  destruct (ph_TruncateConnectionID h), (ph_MultipathFlag h); done.
Qed.

Lemma ParsePublicHeader_bytes h version version' pers rest :
  PublicHeader_sendable h version pers ->
  (ph_VersionFlag h = false -> version' = version /\ version <> VersionUnknown) ->
  ParsePublicHeader pers version' (headerBytes h version pers ++ rest) = Ok (header_on_wire h, rest).
Proof.
  intros [Hr Hn Hp Hpath [Hid Hid0] Htr Hv Hnonce] Hver.
  destruct (publicFlagByte_decode h pers Hr (fun E => proj1 (Hv E)) Hn)
    as (D1 & D2 & D3 & D4 & D5 & D6 & D7). rewrite Hr in D7.
  pose proof (Z.mod_pos_bound (ph_PacketNumber h) (2 ^ (8 * ph_PacketNumberLen h))) as Hpn.
  assert (Hn8 : 0 <= ph_PacketNumberLen h <= 8) by (unfold valid_pn_len in Hn; lia).
  unfold headerBytes. rewrite <- app_comm_cons, <- !app_assoc. unfold ParsePublicHeader.
  rewrite (rbind_ok _ _ _ _ _ (ReadByte_cons _ _)). cbv zeta. rewrite D1, D2, D3, D4, D5, D6, D7.
  assert (Hc1 : (version' =? VersionUnknown) && negb (ph_VersionFlag h || false) = false).
  { destruct (ph_VersionFlag h); [by rewrite andb_false_r|].
    destruct (Hver eq_refl) as [-> Hne]. rewrite (proj2 (Z.eqb_neq _ _)) by done. done. }
  assert (Hc2 : ph_TruncateConnectionID h && bool_decide (pers = PerspectiveClient) = false).
  { destruct (ph_TruncateConnectionID h); [|done]. by rewrite Htr. }
  rewrite Hc1, Hc2.
  rewrite (rbind_ok _ _ _ (if ph_TruncateConnectionID h then 0 else ph_ConnectionID h)
    (versionBytes h ++ ph_DiversificationNonce h ++ pathIDBytes h ++
     enc (bo := GetByteOrder version) (Z.to_nat (ph_PacketNumberLen h))
       (ph_PacketNumber h mod 2 ^ (8 * ph_PacketNumberLen h)) ++ rest)).
  2:{ unfold idBytes. destruct (ph_TruncateConnectionID h); [done|].
      by apply (ReadUint64_enc (bo := LittleEndian)). }
  assert (Hc3 : negb (ph_TruncateConnectionID h) &&
    ((if ph_TruncateConnectionID h then 0 else ph_ConnectionID h) =? 0) = false).
  { destruct (ph_TruncateConnectionID h); [done|]. by apply Z.eqb_neq. }
  rewrite Hc3. destruct (ph_VersionFlag h) eqn:EV.
  - destruct (Hv eq_refl) as (-> & HvN & Hvr). destruct Hnonce as [Hnil|[? _]]; [|done].
    rewrite (rbind_ok _ _ _ [] _ eq_refl). cbn [negb andb bool_decide decide_rel].
    rewrite bool_decide_eq_false_2 by done. cbv iota.
    unfold versionBytes. rewrite EV, HvN, Hnil. cbn [app].
    rewrite (rbind_ok _ _ _ version (pathIDBytes h ++
      enc (bo := GetByteOrder version) (Z.to_nat (ph_PacketNumberLen h))
       (ph_PacketNumber h mod 2 ^ (8 * ph_PacketNumberLen h)) ++ rest)).
    2:{ rewrite (rbind_ok _ _ _ _ _ (ReadUint32_enc (bo := LittleEndian) _ _ (VersionNumberToTag_u32 _))).
        unfold rret. by rewrite version_tag_roundtrip_digits. }
    rewrite (rbind_ok _ _ _ (if ph_MultipathFlag h then ph_PathID h else 0)
      (enc (bo := GetByteOrder version) (Z.to_nat (ph_PacketNumberLen h))
       (ph_PacketNumber h mod 2 ^ (8 * ph_PacketNumberLen h)) ++ rest))
      by (unfold pathIDBytes; by destruct (ph_MultipathFlag h)).
    rewrite (rbind_ok _ _ _ _ _ (ReadUintN_enc_Z _ _ _ _ Hn8 (Hpn ltac:(lia)))).
    unfold rret, header_on_wire. by rewrite EV, Hr, HvN, Hnil.
  - destruct (Hver eq_refl) as [-> _]. unfold versionBytes. rewrite EV. cbn [app].
    rewrite (rbind_ok _ _ _ (ph_DiversificationNonce h) (pathIDBytes h ++
      enc (bo := GetByteOrder version) (Z.to_nat (ph_PacketNumberLen h))
       (ph_PacketNumber h mod 2 ^ (8 * ph_PacketNumberLen h)) ++ rest)).
    2:{ destruct Hnonce as [Hnil|[-> Hlen]].
        - rewrite Hnil. by rewrite andb_false_r.
        - rewrite bool_decide_eq_true_2 by done. unfold zlen. rewrite Hlen. cbn [andb negb Z.gtb Z.compare Z.of_nat].
          pose proof (ReadFull_app (ph_DiversificationNonce h)) as Hrf. rewrite Hlen in Hrf. apply Hrf. }
    cbn [negb andb]. rewrite (rbind_ok _ _ _ _ _ (eq_refl : rret 0 _ = Ok (0, _))).
    rewrite (rbind_ok _ _ _ (if ph_MultipathFlag h then ph_PathID h else 0)
      (enc (bo := GetByteOrder version) (Z.to_nat (ph_PacketNumberLen h))
       (ph_PacketNumber h mod 2 ^ (8 * ph_PacketNumberLen h)) ++ rest))
      by (unfold pathIDBytes; by destruct (ph_MultipathFlag h)).
    rewrite (rbind_ok _ _ _ _ _ (ReadUintN_enc_Z _ _ _ _ Hn8 (Hpn ltac:(lia)))).
    unfold rret, header_on_wire. by rewrite EV, Hr.
Qed.

(** The length the packer reserves for the header. *)
Lemma PublicHeader_GetLength_bytes h version pers :
  PublicHeader_sendable h version pers ->
  PublicHeader_GetLength h pers = Ok (zlen (headerBytes h version pers)).
Proof.
  intros [Hr Hn Hp Hpath [Hid _] Htr Hv Hnonce].
  assert (HP : PublicHeader_hasPacketNumber h pers = true).
  { by apply publicFlagByte_decode; [|intros; apply Hv|]. }
  assert (Hn8 : 0 <= ph_PacketNumberLen h <= 8) by (unfold valid_pn_len in Hn; lia).
  assert (Hlen : zlen (ph_DiversificationNonce h) = 0 \/ zlen (ph_DiversificationNonce h) = 32)
    by (unfold zlen; destruct Hnonce as [->|[_ ->]]; auto).
  assert (Hc : ph_VersionFlag h && bool_decide (pers = PerspectiveServer) = false).
  { destruct (ph_VersionFlag h); [|done]. by destruct (Hv eq_refl) as [-> _]. }
  unfold PublicHeader_GetLength. rewrite Hr, HP, Hc, andb_false_r.
  assert (Hb : negb (ph_PacketNumberLen h =? PacketNumberLen1) && negb (ph_PacketNumberLen h =? PacketNumberLen2) &&
    negb (ph_PacketNumberLen h =? PacketNumberLen4) && negb (ph_PacketNumberLen h =? PacketNumberLen6) = false).
  { destruct Hn as [->|[->|[->| ->]]]; done. }
  rewrite Hb. cbn [bind]. unfold headerBytes, idBytes, versionBytes, pathIDBytes.
  rewrite zlen_cons, !zlen_app. rewrite (zlen_enc (GetByteOrder version)), Z2Nat.id by lia.
  f_equal. destruct (ph_TruncateConnectionID h), (ph_VersionFlag h), (ph_MultipathFlag h);
    rewrite ?(zlen_enc LittleEndian); add64_exact; unfold zlen; cbn [length]; unfold zlen in Hlen; lia.
Qed.

(** ** Version negotiation *)

Lemma writeVersions_read versions acc fuel :
  Forall (fun v => 0 <= v < 1000) versions -> (length versions < fuel)%nat ->
  exists bs, writeVersions versions = Ok bs /\ zlen bs = 4 * zlen versions /\
    readVersions fuel acc bs = Ok (acc ++ versions, []).
Proof.
  intros Hv. revert acc fuel. induction Hv as [|v versions Hv Hvs IH]; intros acc fuel Hf.
  - exists []. destruct fuel; [simpl in Hf; lia|]. cbn. by rewrite app_nil_r.
  - destruct fuel as [|fuel]; [simpl in Hf; lia|]. cbn [length] in Hf.
    destruct (IH (acc ++ [v]) fuel ltac:(lia)) as (bs & Hw & Hl & Hr).
    exists (enc (bo := LittleEndian) 4 (VersionNumberToTag v) ++ bs). cbn [writeVersions].
    rewrite (WriteUint32_enc (bo := LittleEndian) _ (VersionNumberToTag_u32 v)), Hw. split_and!.
    + done.
    + rewrite zlen_app, (zlen_enc LittleEndian), zlen_cons. lia.
    + cbn [readVersions].
      rewrite (ReadUint32_enc (bo := LittleEndian) _ _ (VersionNumberToTag_u32 v)).
      rewrite version_tag_roundtrip_digits by done. by rewrite Hr, <- app_assoc.
Qed.

(** ** Main results *)

(** A sendable public header is written without error in exactly the number
    of bytes [GetLength] announces, the peer parses from it the same header with
    the packet number truncated to [PacketNumberLen] bytes and nothing after the
    header is consumed, and [PeekConnectionID] sees the connection ID without
    moving the read position. *)
Theorem PublicHeader_roundtrip h version version' pers :
  PublicHeader_sendable h version pers ->
  (ph_VersionFlag h = false -> version' = version /\ version <> VersionUnknown) ->
  exists bs, PublicHeader_Write h version pers = Ok bs /\
    PublicHeader_GetLength h pers = Ok (zlen bs) /\
    forall rest,
      ParsePublicHeader pers version' (bs ++ rest) = Ok (header_on_wire h, rest) /\
      PeekConnectionID pers (bs ++ rest) = Ok (ph_ConnectionID (header_on_wire h), bs ++ rest).
Proof.
  intros Hs Hver. exists (headerBytes h version pers). split_and!.
  - by apply PublicHeader_Write_bytes.
  - by apply PublicHeader_GetLength_bytes.
  - intros rest. split; [by apply ParsePublicHeader_bytes|].
    destruct Hs as [Hr Hn Hp Hpath [Hid Hid0] Htr Hv Hnonce].
    destruct (publicFlagByte_decode h pers Hr (fun E => proj1 (Hv E)) Hn) as (_ & _ & D3 & _).
    unfold PeekConnectionID, headerBytes. rewrite <- app_comm_cons, <- !app_assoc.
    rewrite (rbind_ok _ _ _ _ _ (ReadByte_cons _ _)). cbv zeta. rewrite D3.
    unfold idBytes, header_on_wire. destruct (ph_TruncateConnectionID h).
    + rewrite Htr by done. by rewrite bool_decide_eq_false_2.
    + cbn [andb]. by rewrite (ReadUint64_enc (bo := LittleEndian)).
Qed.

Definition example_header : PublicHeader := {|
  ph_ConnectionID := 81985529216486895; ph_PathID := 3; ph_VersionFlag := false; ph_ResetFlag := false;
  ph_TruncateConnectionID := false; ph_MultipathFlag := true; ph_PacketNumberLen := 2;
  ph_PacketNumber := 70001; ph_VersionNumber := 0; ph_SupportedVersions := [];
  ph_DiversificationNonce := [] |}.

Lemma PublicHeader_roundtrip_witness :
  exists bs, PublicHeader_Write example_header VersionMP PerspectiveClient = Ok bs /\
    PublicHeader_GetLength example_header PerspectiveClient = Ok (zlen bs) /\
    forall rest,
      ParsePublicHeader PerspectiveClient VersionMP (bs ++ rest) = Ok (header_on_wire example_header, rest) /\
      PeekConnectionID PerspectiveClient (bs ++ rest) =
        Ok (ph_ConnectionID (header_on_wire example_header), bs ++ rest).
Proof.
  apply (PublicHeader_roundtrip example_header VersionMP VersionMP PerspectiveClient).
  - constructor; cbn; try done; [unfold valid_pn_len; lia|by left].
  - done.
Defined.

(** The packet number of every packet is recovered by the peer.  The
    sender truncates it to the length it computes from the least packet number
    not yet acknowledged; the receiver, which has seen [last] as the largest
    number on the path (at least everything below [leastUnacked], and not more
    than half the range above this packet), infers the original number. *)
Theorem packet_number_recovered h version version' pers leastUnacked last rest :
  PublicHeader_sendable h version pers ->
  (ph_VersionFlag h = false -> version' = version /\ version <> VersionUnknown) ->
  ph_PacketNumberLen h = GetPacketNumberLengthForPublicHeader (ph_PacketNumber h) leastUnacked ->
  0 < leastUnacked <= ph_PacketNumber h -> ph_PacketNumber h - leastUnacked < 2 ^ 47 ->
  ph_PacketNumber h < 2 ^ 62 ->
  leastUnacked - 1 <= last -> last + 1 - ph_PacketNumber h < 2 ^ 15 -> last < 2 ^ 62 ->
  exists h', (let* bs := PublicHeader_Write h version pers in
              ParsePublicHeader pers version' (bs ++ rest)) = Ok (h', rest) /\
    InferPacketNumber (ph_PacketNumberLen h') last (ph_PacketNumber h') = ph_PacketNumber h.
Proof.
  intros Hs Hver Hlen Hlu Hd Hpn Hlast Hahead Hl62. exists (header_on_wire h). split.
  - rewrite PublicHeader_Write_bytes by done. by apply ParsePublicHeader_bytes.
  - cbn [header_on_wire ph_PacketNumberLen ph_PacketNumber].
    apply InferPacketNumber_inv; [by apply (sendable_pnlen _ _ _ Hs)|lia|lia|].
    pose proof (public_header_len_covers (ph_PacketNumber h) leastUnacked ltac:(lia) Hd ltac:(lia)) as Hc.
    rewrite Hlen in *. pose proof (public_header_len_valid (ph_PacketNumber h) leastUnacked) as Hv.
    assert (2 ^ 15 <= 2 ^ (8 * GetPacketNumberLengthForPublicHeader (ph_PacketNumber h) leastUnacked - 1)).
    { apply Z.pow_le_mono_r; [lia|]. revert Hv. unfold GetPacketNumberLengthForPublicHeader.
      unfold PacketNumberLen2, PacketNumberLen4, PacketNumberLen6. repeat case_test; lia. }
    lia.
Qed.

Lemma packet_number_recovered_witness :
  exists h', (let* bs := PublicHeader_Write example_header VersionMP PerspectiveClient in
              ParsePublicHeader PerspectiveClient VersionMP (bs ++ [1; 2])) = Ok (h', [1; 2]) /\
    InferPacketNumber (ph_PacketNumberLen h') 69990 (ph_PacketNumber h') = 70001.
Proof.
  apply (packet_number_recovered example_header VersionMP VersionMP PerspectiveClient 69900 69990 [1; 2]);
    try done.
  constructor; cbn; try done; [unfold valid_pn_len; lia|by left].
Defined.

(** A version negotiation packet tells the client the versions of the
    server, and the version the client then chooses is the first of its own
    that the server supports, or unsupported if there is none. *)
Theorem version_negotiation_roundtrip connectionID versions ours :
  is_u64 connectionID -> connectionID <> 0 -> Forall (fun v => 0 <= v < 1000) versions ->
  exists bs h, ComposeVersionNegotiation connectionID versions = Ok bs /\
    ParsePublicHeader PerspectiveServer VersionWhatever bs = Ok (h, []) /\
    ph_ConnectionID h = connectionID /\ ph_SupportedVersions h = versions /\
    match list_find (fun v => v ∈ versions) ours with
    | Some (_, v) => ChooseSupportedVersion ours (ph_SupportedVersions h) = v
    | None => ChooseSupportedVersion ours (ph_SupportedVersions h) = VersionUnsupported
    end.
Proof.
  intros Hid Hid0 Hv.
  destruct (writeVersions_read versions [] (S (Z.to_nat (4 * zlen versions))) Hv) as (bs & Hw & Hl & Hr).
  { unfold zlen. lia. }
  exists (9 :: enc (bo := LittleEndian) 8 connectionID ++ bs). eexists. split_and!.
  - unfold ComposeVersionNegotiation. rewrite Hw. unfold PublicHeader_Write.
    cbn -[enc WriteUint64 LittleEndian]. by rewrite (WriteUint64_enc (bo := LittleEndian) _ Hid).
  - unfold ParsePublicHeader. rewrite (rbind_ok _ _ _ _ _ (ReadByte_cons _ _)).
    cbv zeta. change (Z.land 9 2 >? 0) with false. change (Z.land 9 1 >? 0) with true.
    change (Z.land 9 8 =? 0) with false. change (Z.land 9 64 >? 0) with false.
    change (Z.land 9 4 >? 0) with false. change (VersionWhatever =? VersionUnknown) with false.
    cbn [negb andb orb].
    rewrite (rbind_ok _ _ _ _ _ (ReadUint64_enc (bo := LittleEndian) _ _ Hid)).
    rewrite (proj2 (Z.eqb_neq _ _)) by done.
    rewrite andb_false_r, (rbind_ok _ _ _ _ _ (eq_refl : rret [] _ = Ok ([], _))).
    rewrite bool_decide_eq_true_2 by done. cbv iota.
    rewrite (rbind_ok _ _ _ _ _ (eq_refl : ReaderLen bs = Ok (zlen bs, bs))).
    rewrite Hl, Z.mul_comm, Z.mod_mul by lia. cbn [negb Z.eqb]. rewrite Z.mul_comm.
    rewrite (rbind_ok _ _ _ _ _ Hr). done.
  - done.
  - done.
  - cbn [ph_SupportedVersions app]. induction ours as [|v ours IH]; [done|].
    cbn [ChooseSupportedVersion list_find].
    destruct (decide (v ∈ versions)) as [Hin|Hin].
    + by rewrite (proj2 (offeredVersion_In _ _)) by by apply list_elem_of_In.
    + destruct (offeredVersion versions v) eqn:E; [by apply offeredVersion_In, list_elem_of_In in E|].
      destruct (list_find _ ours) as [[i w]|]; exact IH.
Qed.

Lemma version_negotiation_roundtrip_witness :
  exists bs h, ComposeVersionNegotiation 7 [39; 38] = Ok bs /\
    ParsePublicHeader PerspectiveServer VersionWhatever bs = Ok (h, []) /\
    ph_ConnectionID h = 7 /\ ph_SupportedVersions h = [39; 38] /\
    ChooseSupportedVersion SupportedVersions (ph_SupportedVersions h) = 39.
Proof.
  destruct (version_negotiation_roundtrip 7 [39; 38] SupportedVersions) as (bs & h & H1 & H2 & H3 & H4 & H5).
  - done.
  - done.
  - repeat constructor; lia.
  - exists bs, h. split_and!; try done.
Defined.
