(* ===== verification/Frames.v ===== *)
(** * The payload of a packet: frames, [packetUnpacker.Unpack] and the writing
    of the frames of a packet (packet_unpacker.go, packet_packer.go)

    The payload is the concatenation of its frames; the unpacker tells them
    apart by their first byte and skips padding. *)
From stdpp Require Import pretty.
From S2P Require Import Prelude Qerr ByteOrder Float16 Protocol WireStream WireControl AckRanges WireAck.
From S2P Require Import PublicHeader.

(** The types that implement [wire.Frame]. *)
Inductive Frame : Type :=
| FStream (f : StreamFrame)
| FAck (f : AckFrame)
| FRstStream (f : RstStreamFrame)
| FConnectionClose (f : ConnectionCloseFrame)
| FGoaway (f : GoawayFrame)
| FWindowUpdate (f : WindowUpdateFrame)
| FBlocked (f : BlockedFrame)
| FStopWaiting (f : StopWaitingFrame)
| FPing (f : PingFrame)
| FAddAddress (f : AddAddressFrame)
| FClosePath (f : ClosePathFrame)
| FPaths (f : PathsFrame).

Definition Frame_Write (f : Frame) (version now : Z) : writer :=
  match f with
  | FStream f => StreamFrame_Write f version
  | FAck f => AckFrame_Write f version now
  | FRstStream f => RstStreamFrame_Write f version
  | FConnectionClose f => ConnectionCloseFrame_Write f version
  | FGoaway f => GoawayFrame_Write f version
  | FWindowUpdate f => WindowUpdateFrame_Write f version
  | FBlocked f => BlockedFrame_Write f version
  | FStopWaiting f => StopWaitingFrame_Write f version
  | FPing f => PingFrame_Write f version
  | FAddAddress f => AddAddressFrame_Write f version
  | FClosePath f => ClosePathFrame_Write f version
  | FPaths f => PathsFrame_Write f version
  end.

Definition Frame_MinLength (f : Frame) : result Z :=
  match f with
  | FStream f => Ok (StreamFrame_MinLength f)
  | FAck f => Ok (AckFrame_MinLength f)
  | FRstStream f => Ok (RstStreamFrame_MinLength f)
  | FConnectionClose f => Ok (ConnectionCloseFrame_MinLength f)
  | FGoaway f => Ok (GoawayFrame_MinLength f)
  | FWindowUpdate f => Ok (WindowUpdateFrame_MinLength f)
  | FBlocked f => Ok (BlockedFrame_MinLength f)
  | FStopWaiting f => StopWaitingFrame_MinLength f
  | FPing f => Ok (PingFrame_MinLength f)
  | FAddAddress f => AddAddressFrame_MinLength f
  | FClosePath f => Ok (ClosePathFrame_MinLength f)
  | FPaths f => Ok (PathsFrame_MinLength f)
  end.

(** The loop of [writeAndSealPacket] that writes the payload. *)
Fixpoint writeFrames (frames : list Frame) (version now : Z) : writer :=
  match frames with
  | [] => Ok []
  | f :: frames' => (Frame_Write f version now ;;; writeFrames frames' version now)
  end.

(** ** The unpacker *)

(** [x, err = p(r); if err != nil { err = wrap(err) }]. *)
Definition mapErr {A} (wrap : error -> error) (p : reader A) : reader A :=
  fun r => match p r with Err e => Err (wrap e) | res => res end.

Definition parseAs {A} (mk : A -> Frame) (wrap : error -> error) (p : reader A) : reader Frame :=
  f <-- mapErr wrap p ;; rret (mk f).

Definition hexDigit (d : Z) : string :=
  String (Ascii.ascii_of_nat (Z.to_nat (if d <? 10 then 48 + d else 87 + d))) EmptyString.
(** [fmt.Sprintf("0x%x", b)] of a byte. *)
Definition hexByte (b : Z) : string :=
  "0x" +:+ (if b <? 16 then hexDigit b else hexDigit (b / 16) +:+ hexDigit (b mod 16)).

(** [encryptionLevel <= protocol.EncryptionUnencrypted]. *)
Definition notEncrypted (l : EncryptionLevel) : bool :=
  match l with EncryptionUnspecified | EncryptionUnencrypted => true | _ => false end.

Definition parseStream (encryptionLevel : EncryptionLevel) (version : Z) : reader Frame :=
  f <-- mapErr (qerr.Wrap qerr.InvalidStreamData) (ParseStreamFrame version) ;;
  if negb (sf_StreamID f =? 1) && notEncrypted encryptionLevel
  then rfail (QuicError qerr.UnencryptedStreamData
                ("received unencrypted stream data on stream " +:+ pretty (sf_StreamID f)))
  else rret (FStream f).

(** One iteration of the loop, for a type byte that is not padding. *)
Definition parseFrame (encryptionLevel : EncryptionLevel) (hdr : PublicHeader) (version typeByte : Z) :
    reader Frame :=
  if Z.land typeByte 128 =? 128 then parseStream encryptionLevel version
  else if Z.land typeByte 192 =? 64 then
    parseAs FAck (qerr.Wrap qerr.InvalidAckData) (ParseAckFrame version)
  else if Z.land typeByte 224 =? 32 then rfail (errors_New "unimplemented: CONGESTION_FEEDBACK")
  else match typeByte with
  | 1 => parseAs FRstStream (qerr.Wrap qerr.InvalidRstStreamData) (ParseRstStreamFrame version)
  | 2 => parseAs FConnectionClose (qerr.Wrap qerr.InvalidConnectionCloseData)
           (ParseConnectionCloseFrame version)
  | 3 => parseAs FGoaway (qerr.Wrap qerr.InvalidGoawayData) (ParseGoawayFrame version)
  | 4 => parseAs FWindowUpdate (qerr.Wrap qerr.InvalidWindowUpdateData) (ParseWindowUpdateFrame version)
  | 5 => parseAs FBlocked (qerr.Wrap qerr.InvalidBlockedData) (ParseBlockedFrame version)
  | 6 => parseAs FStopWaiting (qerr.Wrap qerr.InvalidStopWaitingData)
           (ParseStopWaitingFrame (ph_PacketNumber hdr) (ph_PacketNumberLen hdr) version)
  | 7 => parseAs FPing id (ParsePingFrame version)
  | 16 => parseAs FAddAddress id (ParseAddAddressFrame version)
  | 17 => parseAs FClosePath id (ParseClosePathFrame version)
  | 18 => parseAs FPaths id (ParsePathsFrame version)
  | _ => rfail (QuicError qerr.InvalidFrameData ("unknown type byte " +:+ hexByte typeByte))
  end.

(** The loop [for r.Len() > 0]; each iteration consumes at least the type byte,
    so a fuel of the length of the payload is enough ([parseFrames_fuel]). *)
Fixpoint parseFrames (fuel : nat) (encryptionLevel : EncryptionLevel) (hdr : PublicHeader) (version : Z)
    (fs : list Frame) (r : list Z) : result (list Frame) :=
  match r with
  | [] => Ok fs
  | typeByte :: r1 =>
      match fuel with
      | O => Panic
      | S fuel' =>
          if typeByte =? 0 then parseFrames fuel' encryptionLevel hdr version fs r1
          else let* res := parseFrame encryptionLevel hdr version typeByte r in
               parseFrames fuel' encryptionLevel hdr version (fs ++ [fst res]) (snd res)
      end
  end.

(** [aead.Open]: decryption is a parameter. *)
Definition AeadOpen : Type :=
  list Z -> Z -> list Z -> result (list Z * EncryptionLevel).

Definition Unpack (Open : AeadOpen) (version : Z) (publicHeaderBinary : list Z) (hdr : PublicHeader)
    (data : list Z) : result (EncryptionLevel * list Frame) :=
  match Open data (ph_PacketNumber hdr) publicHeaderBinary with
  | Err e => Err (qerr.Wrap qerr.DecryptionFailure e)
  | Panic => Panic
  | Ok (decrypted, encryptionLevel) =>
      match decrypted with
      | [] => Err (ErrCode qerr.MissingPayload)
      | _ =>
          let* fs := parseFrames (length decrypted) encryptionLevel hdr version [] decrypted in
          Ok (encryptionLevel, fs)
      end
  end.

(** ** Round trip of a payload *)

(** The frames a sender puts in a packet with header [hdr] at [now]. *)
Definition Frame_sendable (encryptionLevel : EncryptionLevel) (hdr : PublicHeader) (now : Z) (f : Frame) : Prop :=
  match f with
  | FStream f => StreamFrame_sendable f /\ (sf_StreamID f = 1 \/ notEncrypted encryptionLevel = false)
  | FAck f => AckFrame_wf 1 f /\ ranges_fit (ack_AckRanges f) /\ ack_PacketReceivedTime f <= now
  | FRstStream f => is_u32 (rst_StreamID f) /\ is_u32 (rst_ErrorCode f) /\ is_u64 (rst_ByteOffset f)
  | FConnectionClose f => is_u32 (cc_ErrorCode f) /\ reason_ok (cc_ReasonPhrase f)
  | FGoaway f => is_u32 (ga_ErrorCode f) /\ is_u32 (ga_LastGoodStream f) /\ reason_ok (ga_ReasonPhrase f)
  | FWindowUpdate f => is_u32 (wu_StreamID f) /\ is_u64 (wu_ByteOffset f)
  | FBlocked f => is_u32 (bl_StreamID f)
  | FStopWaiting f =>
      sw_PacketNumber f = ph_PacketNumber hdr /\ sw_PacketNumberLen f = ph_PacketNumberLen hdr /\
      valid_pn_len (sw_PacketNumberLen f) /\ is_u64 (sw_PacketNumber f) /\
      0 < sw_LeastUnacked f <= sw_PacketNumber f /\
      sw_PacketNumber f - sw_LeastUnacked f < 2 ^ (8 * sw_PacketNumberLen f)
  | FPing _ => True
  | FAddAddress f => is_u16 (ua_Port (aa_Addr f)) /\ is_Some (addr_on_wire f)
  | FClosePath f => ClosePathFrame_wf 1 f /\ ranges_fit (cp_AckRanges f)
  | FPaths f => PathsFrame_wf f
  end.

(** What the peer gets: delays and round trip times are rounded to the 16-bit
    floating point format, the ranges of an ACK are cut at 255 blocks, a
    STOP_WAITING frame loses the fields of its sender, an address its zone. *)
Definition frame_on_wire (now : Z) (f : Frame) : Frame :=
  match f with
  | FAck f => FAck (ack_on_wire f now)
  | FClosePath f => FClosePath (closepath_on_wire f)
  | FStopWaiting f => FStopWaiting {| sw_LeastUnacked := sw_LeastUnacked f; sw_PacketNumberLen := 0;
                                      sw_PacketNumber := 0 |}
  | FPaths f => FPaths {| pf_MaxNumPaths := pf_MaxNumPaths f; pf_NumPaths := pf_NumPaths f;
                          pf_PathIDs := pf_PathIDs f; pf_RemoteRTTs := map rtt_on_wire (pf_RemoteRTTs f) |}
  | FAddAddress f =>
      FAddAddress {| aa_IPVersion := aa_IPVersion f;
                     aa_Addr := {| ua_IP := default [] (addr_on_wire f); ua_Port := ua_Port (aa_Addr f);
                                   ua_Zone := "" |} |}
  | _ => f
  end.

(** A stream frame without its length extends to the end of the packet. *)
Definition extends_to_end (f : Frame) : bool :=
  match f with FStream f => negb (sf_DataLenPresent f) | _ => false end.

Lemma wapp_head b k bs : (WriteByte b ;;; k) = Ok bs -> exists tl, bs = b :: tl.
Proof. unfold wapp, bind, WriteByte. destruct k; intros; simplify_eq. by eexists. Qed.

Lemma parseAs_ok {A} (mk : A -> Frame) wrap (p : reader A) r a r' :
  p r = Ok (a, r') -> parseAs mk wrap p r = Ok (mk a, r').
Proof. intros H. unfold parseAs, mapErr, rbind, rret. by rewrite H. Qed.

(** What [parseFrames] needs of one frame. *)
Definition frame_parses (encryptionLevel : EncryptionLevel) (hdr : PublicHeader) (version now : Z) (f : Frame) : Prop :=
  exists tb tl, Frame_Write f version now = Ok (tb :: tl) /\ tb <> 0 /\
    forall rest, (extends_to_end f = true -> rest = []) ->
      parseFrame encryptionLevel hdr version tb ((tb :: tl) ++ rest) = Ok (frame_on_wire now f, rest).

Lemma fixed_type_parses {A} (mk : A -> Frame) wrap (p : reader A) lvl hdr version now f tb bs a :
  Frame_Write f version now = Ok bs -> (exists k, Frame_Write f version now = (WriteByte tb ;;; k)) ->
  tb <> 0 -> (forall r, parseFrame lvl hdr version tb r = parseAs mk wrap p r) ->
  (forall rest, p (bs ++ rest) = Ok (a, rest)) -> mk a = frame_on_wire now f ->
  frame_parses lvl hdr version now f.
Proof.
  intros Hw [k Hk] Htb Hp Hr Ha. rewrite Hk in Hw. destruct (wapp_head _ _ _ Hw) as [tl ->].
  exists tb, tl. rewrite Hk. split_and!; [done..|].
  intros rest _. rewrite Hp. rewrite <- Ha. apply parseAs_ok, Hr.
Qed.

Lemma stop_waiting_head f version :
  0 < sw_LeastUnacked f <= sw_PacketNumber f ->
  exists k, StopWaitingFrame_Write f version = (WriteByte 6 ;;; k).
Proof.
  intros Hl. unfold StopWaitingFrame_Write. rewrite Z.gtb_ltb. decide_tests. by eexists.
Qed.

Lemma ack_parses lvl hdr version now f :
  Frame_sendable lvl hdr now (FAck f) -> frame_parses lvl hdr version now (FAck f).
Proof.
  intros (Hwf & Hfit & Ht). destruct (AckFrame_wire f version now Hwf Hfit Ht) as (bs & Hw & _ & Hr).
  assert (Hll : valid_pn_len (GetPacketNumberLength (ack_LargestAcked f))) by apply GetPacketNumberLength_valid.
  assert (Hdl : valid_pn_len (AckFrame_getMissingSequenceNumberDeltaLen f)) by apply deltaLen_valid.
  destruct (ackTypeByte_decode _ _ (AckFrame_HasMissingRanges f) (ack_PathID f) Hll Hdl)
    as (_ & _ & _ & _ & D5 & D6).
  eapply fixed_type_parses; [exact Hw|by eexists| | |exact Hr|done].
  - intros E. rewrite E in D5. done.
  - intros r. unfold parseFrame. rewrite D5.
    assert (Z.land (Z.land (ackTypeByte (GetPacketNumberLength (ack_LargestAcked f))
      (AckFrame_getMissingSequenceNumberDeltaLen f) (AckFrame_HasMissingRanges f) (ack_PathID f)) 192) 128 = 0)
      as E by (by rewrite D5).
    rewrite <- Z.land_assoc in E. change (Z.land 192 128) with 128 in E. rewrite E. done.
Qed.

Lemma stream_parses lvl hdr version now f :
  Frame_sendable lvl hdr now (FStream f) -> frame_parses lvl hdr version now (FStream f).
Proof.
  intros [Hs Henc].
  destruct (streamTypeByte_decode (sf_FinBit f) (sf_DataLenPresent f)
    (getOffsetLength f) (calculateStreamIDLength f)) as (_ & _ & _ & _ & _ & H128).
  { apply getOffsetLength_range. }
  { pose proof (calculateStreamIDLength_range f). lia. }
  eexists _, _. split; [by apply StreamFrame_Write_bytes|]. split.
  - intros E. rewrite E in H128. done.
  - intros rest Hrest. unfold parseFrame. rewrite H128, Z.eqb_refl. unfold parseStream, mapErr.
    rewrite (rbind_ok _ _ _ f rest).
    2:{ pose proof (ParseStreamFrame_bytes f version rest Hs) as Hp. unfold streamBytes in Hp.
        cbv zeta in Hp. rewrite Hp; [done|]. intros E. apply Hrest. cbn. by rewrite E. }
    destruct Henc as [->| ->]; [done|]. by rewrite andb_false_r.
Qed.

(** A sendable frame is written and read back. *)
Lemma sendable_parses lvl hdr version now f :
  Frame_sendable lvl hdr now f -> frame_parses lvl hdr version now f.
Proof.
  destruct f as [f|f|f|f|f|f|f|f|f|f|f|f]; intros Hs;
    [by apply stream_parses|by apply ack_parses|..]; cbn [Frame_sendable] in Hs.
  - destruct (RstStreamFrame_roundtrip f version) as (bs & Hw & _ & Hr); [tauto..|].
    by eapply (fixed_type_parses _ _ _ _ _ _ _ _ 1); [exact Hw|eexists| | |exact Hr|].
  - destruct (ConnectionCloseFrame_roundtrip f version) as (bs & Hw & _ & Hr); [tauto..|].
    by eapply (fixed_type_parses _ _ _ _ _ _ _ _ 2); [exact Hw|eexists| | |exact Hr|].
  - destruct (GoawayFrame_roundtrip f version) as (bs & Hw & _ & Hr); [tauto..|].
    by eapply (fixed_type_parses _ _ _ _ _ _ _ _ 3); [exact Hw|eexists| | |exact Hr|].
  - destruct (WindowUpdateFrame_roundtrip f version) as (bs & Hw & _ & Hr); [tauto..|].
    by eapply (fixed_type_parses _ _ _ _ _ _ _ _ 4); [exact Hw|eexists| | |exact Hr|].
  - destruct (BlockedFrame_roundtrip f version) as (bs & Hw & _ & Hr); [tauto..|].
    by eapply (fixed_type_parses _ _ _ _ _ _ _ _ 5); [exact Hw|eexists| | |exact Hr|].
  - destruct Hs as (Hpn & Hlen & Hv & Hu & Hl & Hd).
    destruct (StopWaitingFrame_roundtrip f version) as (bs & Hw & _ & Hr); [done..|].
    rewrite Hpn, Hlen in Hr.
    by eapply (fixed_type_parses _ _ _ _ _ _ _ _ 6); [exact Hw|by apply stop_waiting_head| | |exact Hr|].
  - exists 7, []. split_and!; [done..|]. intros rest _. by destruct f.
  - destruct Hs as [Hport [ip Hip]].
    destruct (AddAddressFrame_roundtrip f version ip Hport Hip) as (bs & Hw & _ & Hr).
    eapply (fixed_type_parses _ _ _ _ _ _ _ _ 16); [exact Hw|by eexists|done|done|exact Hr|].
    cbn [frame_on_wire]. by rewrite Hip.
  - destruct (ClosePathFrame_wire f version) as (bs & Hw & _ & Hr); [tauto..|].
    by eapply (fixed_type_parses _ _ _ _ _ _ _ _ 17); [exact Hw|eexists| | |exact Hr|].
  - destruct (PathsFrame_roundtrip f version Hs) as (bs & Hw & _ & Hr).
    by eapply (fixed_type_parses _ _ _ _ _ _ _ _ 18); [exact Hw|eexists| | |exact Hr|].
Qed.

(** Only the last frame may extend to the end of the packet. *)
Fixpoint only_last_extends (frames : list Frame) : Prop :=
  match frames with
  | [] => True
  | f :: frames' => (extends_to_end f = true -> frames' = []) /\ only_last_extends frames'
  end.

Lemma writeFrames_parse lvl hdr version now frames :
  Forall (Frame_sendable lvl hdr now) frames -> only_last_extends frames ->
  exists bs, writeFrames frames version now = Ok bs /\ (length frames <= length bs)%nat /\
    forall fuel acc, (length bs <= fuel)%nat ->
      parseFrames fuel lvl hdr version acc bs = Ok (acc ++ map (frame_on_wire now) frames).
Proof.
  intros Hs. induction Hs as [|f frames Hf Hs IH]; intros Hext.
  - exists []. split_and!; [done|done|]. intros fuel acc _. destruct fuel; cbn; by rewrite app_nil_r.
  - destruct Hext as [He Hext]. destruct (IH Hext) as (bs & Hw & Hlen & Hp).
    destruct (sendable_parses lvl hdr version now f Hf) as (tb & tl & Hwf & Htb & Hpf).
    exists ((tb :: tl) ++ bs). cbn [writeFrames]. rewrite Hwf, Hw. split_and!.
    + done.
    + rewrite length_app. cbn. lia.
    + intros fuel acc Hfuel. rewrite length_app in Hfuel. cbn [length] in Hfuel.
      destruct fuel as [|fuel]; [lia|]. cbn [parseFrames app].
      rewrite (proj2 (Z.eqb_neq _ _)) by done.
      change (tb :: tl ++ bs) with ((tb :: tl) ++ bs). rewrite Hpf.
      2:{ intros E. specialize (He E). subst frames. cbn in Hw. by simplify_eq. }
      cbn [bind fst snd]. rewrite Hp by lia. cbn [map]. by rewrite <- app_assoc.
Qed.

(** ** Main result *)

(** C1: what a packet carries survives the wire.  If decryption inverts
    encryption, the frames written into the payload of a packet, in either byte
    order, are what [Unpack] returns on the other side: the same frames in the
    same order, each up to the precision of its encoding ([frame_on_wire]).
    Only the last frame may be a STREAM frame without its length. *)
Theorem payload_roundtrip (Seal : list Z -> Z -> list Z -> list Z) (Open : AeadOpen)
    lvl hdr raw version now frames :
  (forall plain, Open (Seal plain (ph_PacketNumber hdr) raw) (ph_PacketNumber hdr) raw = Ok (plain, lvl)) ->
  frames <> [] -> Forall (Frame_sendable lvl hdr now) frames -> only_last_extends frames ->
  exists bs, writeFrames frames version now = Ok bs /\
    Unpack Open version raw hdr (Seal bs (ph_PacketNumber hdr) raw) =
      Ok (lvl, map (frame_on_wire now) frames).
Proof.
  intros Hopen Hne Hs Hext.
  destruct (writeFrames_parse lvl hdr version now frames Hs Hext) as (bs & Hw & Hlen & Hp).
  exists bs. split; [done|]. unfold Unpack. rewrite Hopen.
  destruct bs as [|b bs]; [destruct frames; [done|cbn in Hlen; lia]|].
  rewrite Hp by lia. done.
Qed.

Definition example_frames : list Frame := [
  FAck {| ack_PathID := 1; ack_LargestAcked := 1000; ack_LowestAcked := 3;
          ack_AckRanges := [{| ar_First := 700; ar_Last := 1000 |}; {| ar_First := 3; ar_Last := 100 |}];
          ack_PacketReceivedTime := 0; ack_DelayTime := 0 |};
  FWindowUpdate {| wu_StreamID := 5; wu_ByteOffset := 65536 |};
  FStream {| sf_StreamID := 5; sf_FinBit := true; sf_DataLenPresent := false; sf_Offset := 300;
             sf_Data := [104; 105] |} ].

(** With the identity as encryption. *)
Lemma payload_roundtrip_witness :
  exists bs, writeFrames example_frames VersionMP 5000 = Ok bs /\
    Unpack (fun d _ _ => Ok (d, EncryptionForwardSecure)) VersionMP [] example_header bs =
      Ok (EncryptionForwardSecure, map (frame_on_wire 5000) example_frames).
Proof.
  apply (payload_roundtrip (fun d _ _ => d) (fun d _ _ => Ok (d, EncryptionForwardSecure))
    EncryptionForwardSecure example_header [] VersionMP 5000 example_frames).
  - done.
  - done.
  - apply Forall_cons_2; [|apply Forall_cons_2; [|apply Forall_cons_2; [|constructor]]].
    + repeat split; cbn; (done || lia).
    + repeat split; cbn; (done || lia).
    + split; [|by right]. split; [|split; [by left|done]]. constructor; cbn; repeat constructor; done || lia.
  - cbn. split_and!; done.
Defined.

(** The bytes a frame takes: [MinLength], and the data of a STREAM frame. *)
Definition frame_size (f : Frame) (minLength : Z) : Z :=
  match f with FStream f => minLength + zlen (sf_Data f) | _ => minLength end.

(** [MinLength] is the number of bytes written, but for the data of a STREAM frame. *)
Lemma Frame_Write_size lvl hdr version now f :
  Frame_sendable lvl hdr now f ->
  match f with FPaths f => pf_NumPaths f < 85 | _ => True end ->
  exists bs n, Frame_Write f version now = Ok bs /\ Frame_MinLength f = Ok n /\
    zlen bs = frame_size f n.
Proof.
  destruct f as [f|f|f|f|f|f|f|f|f|f|f|f]; intros Hs Hpaths; cbn [Frame_sendable Frame_Write Frame_MinLength frame_size] in *.
  - destruct Hs as [Hs _]. eexists _, _. split_and!; [by apply StreamFrame_Write_bytes|done|].
    apply streamBytes_length.
  - destruct (AckFrame_wire f version now) as (bs & ? & ? & _); [tauto..|]. by eexists _, _.
  - destruct (RstStreamFrame_roundtrip f version) as (bs & ? & ? & _); [tauto..|]. by eexists _, _.
  - destruct (ConnectionCloseFrame_roundtrip f version) as (bs & ? & ? & _); [tauto..|]. by eexists _, _.
  - destruct (GoawayFrame_roundtrip f version) as (bs & ? & ? & _); [tauto..|]. by eexists _, _.
  - destruct (WindowUpdateFrame_roundtrip f version) as (bs & ? & ? & _); [tauto..|]. by eexists _, _.
  - destruct (BlockedFrame_roundtrip f version) as (bs & ? & ? & _); [tauto..|]. by eexists _, _.
  - destruct (StopWaitingFrame_roundtrip f version) as (bs & ? & ? & _); [tauto..|]. by eexists _, _.
  - by eexists _, _.
  - destruct Hs as [Hport [ip Hip]].
    destruct (AddAddressFrame_roundtrip f version ip Hport Hip) as (bs & ? & ? & _). by eexists _, _.
  - destruct (ClosePathFrame_wire f version) as (bs & ? & ? & _); [tauto..|]. by eexists _, _.
  - destruct (PathsFrame_roundtrip f version Hs) as (bs & Hw & Hl & _). eexists _, _. split_and!; [done..|].
    rewrite Hl. destruct Hs as [Hmax Hnum Hids]. pose proof (zlen_nonneg (pf_PathIDs f)). unfold PathsFrame_MinLength.
    rewrite (u8_small (3 * _)), u8_small by mlia. lia.
Qed.

(** [MinLength], with which the packer decides what fits in a packet, is
    exactly the number of bytes [Write] produces (plus the data of a STREAM
    frame), for every frame except a PATHS frame with 85 paths or more, whose
    [MinLength] is computed in a byte and wraps around. *)
Theorem Frame_MinLength_exact lvl hdr version now f :
  Frame_sendable lvl hdr now f ->
  match f with FPaths f => pf_NumPaths f < 85 | _ => True end ->
  exists bs n, Frame_Write f version now = Ok bs /\ Frame_MinLength f = Ok n /\
    zlen bs = frame_size f n.
Proof. apply Frame_Write_size. Qed.

Lemma Frame_MinLength_exact_witness :
  exists bs n, Frame_Write (FPaths {| pf_MaxNumPaths := 3; pf_NumPaths := 2; pf_PathIDs := [0; 1];
                                      pf_RemoteRTTs := [2000; 3000000] |}) VersionMP 0 = Ok bs /\
    Frame_MinLength (FPaths {| pf_MaxNumPaths := 3; pf_NumPaths := 2; pf_PathIDs := [0; 1];
                               pf_RemoteRTTs := [2000; 3000000] |}) = Ok n /\ zlen bs = n.
Proof.
  apply (Frame_MinLength_exact EncryptionForwardSecure example_header VersionMP 0
    (FPaths {| pf_MaxNumPaths := 3; pf_NumPaths := 2; pf_PathIDs := [0; 1];
               pf_RemoteRTTs := [2000; 3000000] |})).
  - constructor; cbn; repeat constructor; (done || lia).
  - cbn. lia.
Defined.

(** The [MinLength] of a PATHS frame with 85 to 255 paths is less than the
    bytes it takes, by a multiple of 256. *)
Theorem PathsFrame_MinLength_wraps f version :
  PathsFrame_wf f -> 85 <= pf_NumPaths f ->
  exists bs, PathsFrame_Write f version = Ok bs /\
    PathsFrame_MinLength f < zlen bs /\ (zlen bs - PathsFrame_MinLength f) mod 256 = 0.
Proof.
  intros Hwf Hn. destruct (PathsFrame_roundtrip f version Hwf) as (bs & Hw & Hl & _).
  exists bs. split; [done|]. rewrite Hl. destruct Hwf as [Hmax Hnum].
  unfold PathsFrame_MinLength, u8, wrap. rewrite !Zplus_mod_idemp_r.
  pose proof (Z.mod_pos_bound (1 + 1 + 1 + 3 * pf_NumPaths f) 256 ltac:(lia)).
  pose proof (Z.div_mod (1 + 1 + 1 + 3 * pf_NumPaths f) 256 ltac:(lia)).
  change (2 ^ 8) with 256. split; [lia|].
  replace (3 + 3 * pf_NumPaths f - (1 + 1 + 1 + 3 * pf_NumPaths f) mod 256)
    with ((1 + 1 + 1 + 3 * pf_NumPaths f) / 256 * 256) by lia. apply Z.mod_mul. lia.
Qed.

Lemma PathsFrame_MinLength_wraps_witness :
  exists bs, PathsFrame_Write {| pf_MaxNumPaths := 100; pf_NumPaths := 85; pf_PathIDs := repeat 1 85;
                                 pf_RemoteRTTs := repeat 2000 85 |} VersionMP = Ok bs /\
    2 < zlen bs /\ (zlen bs - 2) mod 256 = 0.
Proof.
  apply (PathsFrame_MinLength_wraps {| pf_MaxNumPaths := 100; pf_NumPaths := 85; pf_PathIDs := repeat 1 85;
                                 pf_RemoteRTTs := repeat 2000 85 |} VersionMP).
  - constructor; cbn; repeat constructor; (done || lia).
  - cbn. lia.
Defined.
