(* ===== verification/ParserSafety.v ===== *)
(** * The parsers are total

    No sequence of bytes makes a parser panic, and the loop over the frames of a
    packet ends: every parser leaves at most the bytes it was given, and one that
    is called for a frame consumes at least its type byte. *)
From S2P Require Import Prelude Qerr ByteOrder Float16 Protocol WireStream WireControl AckRanges WireAck.
From S2P Require Import PublicHeader Frames.

(** On bytes, the reader does not panic, does not grow what is left to be read,
    and its value satisfies [P]. *)
Definition reader_safe {A} (P : A -> Prop) (m : reader A) : Prop :=
  forall r, bytes_ok r ->
            match m r with
            | Ok (a, r') => P a /\ bytes_ok r' /\ (length r' <= length r)%nat
            | Err _ => True
            | Panic => False
            end.

Notation "'safe' m" := (reader_safe (fun _ => True) m) (at level 10, m at level 9) : go_scope.

(** It also consumes a byte. *)
Definition reader_eats {A} (m : reader A) : Prop :=
  forall r, bytes_ok r ->
            match m r with
            | Ok (_, r') => bytes_ok r' /\ (length r' < length r)%nat
            | Err _ => True
            | Panic => False
            end.

Create HintDb parse discriminated.

Lemma rbind_safe {A B} P (Q : B -> Prop) (m : reader A) f :
  reader_safe P m -> (forall a, P a -> reader_safe Q (f a)) -> reader_safe Q (rbind m f).
Proof.
  intros Hm Hf r Hr. unfold rbind. specialize (Hm r Hr). destruct (m r) as [[a r1]| |]; [|done..].
  destruct Hm as (Ha & Hr1 & Hl). specialize (Hf a Ha r1 Hr1).
  destruct (f a r1) as [[b r2]| |]; [|done..]. destruct Hf as (? & ? & ?). split_and!; [done..|lia].
Qed.

Lemma rbind_safe_any {A B} (m : reader A) (f : A -> reader B) :
  safe m -> (forall a, safe (f a)) -> safe (rbind m f).
Proof. intros. by eapply rbind_safe. Qed.

Lemma rbind_eats {A B} P (m : reader A) (f : A -> reader B) :
  reader_eats m -> reader_safe P m -> (forall a, P a -> safe (f a)) -> reader_eats (rbind m f).
Proof.
  intros Hm Hp Hf r Hr. unfold rbind. specialize (Hm r Hr). specialize (Hp r Hr).
  destruct (m r) as [[a r1]| |]; [|done..]. destruct Hm as [Hr1 Hl], Hp as [Ha _].
  specialize (Hf a Ha r1 Hr1). destruct (f a r1) as [[b r2]| |]; [|done..].
  destruct Hf as (? & ? & ?). split; [done|lia].
Qed.

Lemma rret_safe {A} (P : A -> Prop) a : P a -> reader_safe P (rret a).
Proof. intros Ha r Hr. by split_and!. Qed.
Lemma rret_safe_any {A} (a : A) : safe (rret a).
Proof. by apply rret_safe. Qed.
Lemma rfail_safe_any {A} e : safe (rfail e : reader A).
Proof. by intros r. Qed.
Lemma ReadByte_u8 : reader_safe is_u8 ReadByte.
Proof. intros [|b r] Hr; [done|]. inv Hr. cbn. split_and!; [done..|lia]. Qed.
Lemma ReadByte_safe : safe ReadByte.
Proof. intros [|b r] Hr; [done|]. inv Hr. cbn. split_and!; [done..|lia]. Qed.
Lemma ReadByte_eats : reader_eats ReadByte.
Proof. intros [|b r] Hr; [done|]. inv Hr. cbn. split; [done|lia]. Qed.
Lemma ReaderLen_safe : safe ReaderLen.
Proof. intros r Hr. by split_and!. Qed.
Lemma ReadFull_safe n : safe (ReadFull n).
Proof.
  intros r Hr. unfold ReadFull. destruct (n <=? length r)%nat eqn:E; [|by destruct r].
  rewrite length_drop. split_and!; [done|by apply Forall_drop|lia].
Qed.
Lemma if_safe {A} (P : A -> Prop) (b : bool) (m k : reader A) :
  (b = true -> reader_safe P m) -> (b = false -> reader_safe P k) ->
  reader_safe P (if b then m else k).
Proof. destruct b; auto. Qed.
#[export] Hint Resolve rret_safe_any rfail_safe_any ReadByte_safe ReaderLen_safe ReadFull_safe : parse.

(** Decompose a parser into its reads. *)
Ltac safe_steps :=
  repeat match goal with
  | |- forall _, _ => intros ?
  | |- reader_safe _ (let _ := _ in _) => cbv zeta
  | |- reader_safe _ (rbind _ _) => apply rbind_safe_any
  | |- reader_safe _ (if _ then _ else _) => apply if_safe; intros _
  | |- reader_safe _ _ => solve [auto with parse]
  end.

Lemma leReadUintN_safe n : safe (leReadUintN n).
Proof.
  assert (H : forall k i res, safe (leReadUintN_loop k i res)).
  { induction k as [|k IH]; intros i res; cbn [leReadUintN_loop]; safe_steps. }
  apply H.
Qed.

Lemma beReadUintN_safe n : safe (beReadUintN n).
Proof.
  assert (H : forall k i res, safe (beReadUintN_loop n k i res)).
  { induction k as [|k IH]; intros i res; cbn [beReadUintN_loop]; safe_steps. }
  apply H.
Qed.

Lemma ReadUintN_safe version n : safe (ReadUintN (GetByteOrder version) n).
Proof. unfold GetByteOrder. case_test; [apply leReadUintN_safe|apply beReadUintN_safe]. Qed.

Lemma ReadUint64_safe version : safe (ReadUint64 (GetByteOrder version)).
Proof. unfold GetByteOrder. case_test; cbn [ReadUint64 LittleEndian BigEndian];
  unfold leReadUint64, beReadUint64; safe_steps. Qed.
Lemma ReadUint32_safe version : safe (ReadUint32 (GetByteOrder version)).
Proof. unfold GetByteOrder. case_test; cbn [ReadUint32 LittleEndian BigEndian];
  unfold leReadUint32, beReadUint32; safe_steps. Qed.
Lemma ReadUint16_safe version : safe (ReadUint16 (GetByteOrder version)).
Proof. unfold GetByteOrder. case_test; cbn [ReadUint16 LittleEndian BigEndian];
  unfold leReadUint16, beReadUint16; safe_steps. Qed.
#[export] Hint Resolve ReadUintN_safe ReadUint64_safe ReadUint32_safe ReadUint16_safe : parse.

Lemma readUfloat16_safe version : safe (readUfloat16 (GetByteOrder version)).
Proof. unfold readUfloat16. safe_steps. Qed.
#[export] Hint Resolve readUfloat16_safe : parse.

Lemma skipTimestamps_safe version k : safe (skipTimestamps (GetByteOrder version) k).
Proof. induction k as [|k IH]; cbn [skipTimestamps]; safe_steps. Qed.
Lemma readPaths_safe version k ids rtts : safe (readPaths (GetByteOrder version) k ids rtts).
Proof. revert ids rtts. induction k as [|k IH]; intros; cbn [readPaths]; safe_steps. Qed.
Lemma readBytes_safe k : safe (readBytes k).
Proof. induction k as [|k IH]; cbn [readBytes]; safe_steps. Qed.
#[export] Hint Resolve skipTimestamps_safe readPaths_safe readBytes_safe : parse.

(** The loop over ACK blocks always has a range to extend, and leaves at least
    two once it has read a block. *)
Lemma readBlocks_safe rl k acc (inLong complete : bool) :
  safe rl -> (1 <= length acc)%nat -> (inLong = true -> 2 <= length acc)%nat ->
  reader_safe (fun res => (1 <= length (fst res) /\ (0 < k -> 2 <= length (fst res)))%nat /\
                          (length acc <= length (fst res))%nat)
    (readBlocks rl k acc inLong complete).
Proof.
  intros Hrl. revert acc inLong complete.
  induction k as [|k IH]; intros acc inLong complete H1 H2; cbn [readBlocks].
  - apply rret_safe. cbn. lia.
  - eapply rbind_safe; [apply ReadByte_safe|]. intros gap _.
    eapply rbind_safe; [apply Hrl|]. intros len _. destruct acc as [|cur acc]; [cbn in H1; lia|].
    destruct inLong; cbn [length] in *.
    + specialize (H2 eq_refl). intros r Hr.
      specialize (IH ({| ar_First := ar_First cur -u (gap +u len); ar_Last := ar_Last cur -u gap |} :: acc)
        (len =? 0) (if len >? 0 then true else complete) ltac:(cbn; lia) ltac:(cbn; lia) r Hr).
      destruct (readBlocks _ _ _ _ _ r) as [[res r']| |]; [|done..]. cbn [length] in IH.
      cbv beta in *. destruct IH as ([[? ?] ?] & ? & ?). split_and!; [lia..|done|lia].
    + intros r Hr.
      specialize (IH ({| ar_First := (((ar_First cur -u gap) -u 1) -u len) +u 1;
                         ar_Last := (ar_First cur -u gap) -u 1 |} :: cur :: acc)
        (len =? 0) (if len >? 0 then true else false) ltac:(cbn; lia) ltac:(cbn; lia) r Hr).
      cbv zeta. destruct (readBlocks _ _ _ _ _ r) as [[res r']| |]; [|done..]. cbn [length] in IH.
      cbv beta in *. destruct IH as ([[? ?] ?] & ? & ?). split_and!; [lia..|done|lia].
Qed.

Lemma readRanges_safe rl largest len num :
  safe rl -> 0 < num -> safe (readRanges rl largest len num).
Proof.
  intros Hrl Hn. unfold readRanges.
  eapply rbind_safe; [apply readBlocks_safe; [done|cbn; lia|done]|].
  intros [acc c] [[H1 H2] _]. cbn [fst snd] in *. specialize (H2 ltac:(lia)).
  destruct acc as [|a [|b acc]]; cbn [length] in H2; [lia|lia|].
  destruct c; apply rret_safe_any.
Qed.

(** ** The frame parsers *)

Ltac eats_steps := eapply rbind_eats; [apply ReadByte_eats|apply ReadByte_safe|]; safe_steps.

Lemma ParseStreamFrame_eats version : reader_eats (ParseStreamFrame version).
Proof. unfold ParseStreamFrame. eats_steps. Qed.
Lemma ParseRstStreamFrame_eats version : reader_eats (ParseRstStreamFrame version).
Proof. unfold ParseRstStreamFrame. eats_steps. Qed.
Lemma ParseConnectionCloseFrame_eats version : reader_eats (ParseConnectionCloseFrame version).
Proof. unfold ParseConnectionCloseFrame. eats_steps. Qed.
Lemma ParseGoawayFrame_eats version : reader_eats (ParseGoawayFrame version).
Proof. unfold ParseGoawayFrame. eats_steps. Qed.
Lemma ParseWindowUpdateFrame_eats version : reader_eats (ParseWindowUpdateFrame version).
Proof. unfold ParseWindowUpdateFrame. eats_steps. Qed.
Lemma ParseBlockedFrame_eats version : reader_eats (ParseBlockedFrame version).
Proof. unfold ParseBlockedFrame. eats_steps. Qed.
Lemma ParseStopWaitingFrame_eats pn len version : reader_eats (ParseStopWaitingFrame pn len version).
Proof. unfold ParseStopWaitingFrame. eats_steps. Qed.
Lemma ParsePingFrame_eats version : reader_eats (ParsePingFrame version).
Proof. unfold ParsePingFrame. eats_steps. Qed.
Lemma ParsePathsFrame_eats version : reader_eats (ParsePathsFrame version).
Proof. unfold ParsePathsFrame. eats_steps. Qed.

Lemma addr_safe ipv :
  safe (match ipv with
        | 4 => a <-- ReadByte ;; b <-- ReadByte ;; c <-- ReadByte ;; d <-- ReadByte ;;
               rret (netIPv4 a b c d)
        | 6 => readBytes 16
        | _ => rfail ErrUnknownIPVersion
        end).
Proof.
  destruct (decide (ipv = 4)) as [->|]; [safe_steps|].
  destruct (decide (ipv = 6)) as [->|]; [safe_steps|].
  repeat (case_match; try safe_steps); done.
Qed.
#[export] Hint Resolve addr_safe : parse.

Lemma ParseAddAddressFrame_eats version : reader_eats (ParseAddAddressFrame version).
Proof. unfold ParseAddAddressFrame. eats_steps. Qed.

(** Reading the ranges after the test of the number of blocks. *)
Lemma ack_ranges_safe {A} (missing : bool) rl largest len num low (k : list AckRange * Z -> reader A) :
  safe rl -> 0 <= num -> missing && (num =? 0) = false -> (forall x, safe (k x)) ->
  safe (ranges <-- (if missing then readRanges rl largest len num else rret ([], low)) ;; k ranges).
Proof.
  intros Hrl Hn Hnz Hk. apply rbind_safe_any; [|done]. destruct missing; [|safe_steps].
  cbn in Hnz. bool_to_prop. apply readRanges_safe; [done|lia].
Qed.

Lemma ack_count_safe (b : bool) : reader_safe (fun n => 0 <= n) (if b then ReadByte else rret 0).
Proof.
  apply if_safe; intros _; [|by apply rret_safe]. intros r Hr. specialize (ReadByte_u8 r Hr).
  destruct (ReadByte r) as [[a r']| |]; [|done..]. intros (Ha & ?). unfold is_u8 in Ha. split; [lia|done].
Qed.

Lemma ParseAckFrame_eats version : reader_eats (ParseAckFrame version).
Proof.
  unfold ParseAckFrame. eapply rbind_eats; [apply ReadByte_eats|apply ReadByte_safe|]. intros tb _.
  cbv zeta. do 3 (apply rbind_safe_any; [safe_steps|intros ?]).
  eapply rbind_safe; [apply ack_count_safe|]. intros num Hnum. cbv beta in Hnum.
  apply if_safe; intros Hnz; [safe_steps|]. apply rbind_safe_any; [safe_steps|]. intros len.
  apply if_safe; intros _; [safe_steps|]. apply if_safe; intros _; [safe_steps|].
  apply ack_ranges_safe; safe_steps; done.
Qed.

Lemma ParseClosePathFrame_eats version : reader_eats (ParseClosePathFrame version).
Proof.
  unfold ParseClosePathFrame. eapply rbind_eats; [apply ReadByte_eats|apply ReadByte_safe|]. intros _ _.
  do 2 (apply rbind_safe_any; [safe_steps|intros ?]). cbv zeta.
  eapply rbind_safe; [apply ack_count_safe|]. intros num Hnum. cbv beta in Hnum.
  apply if_safe; intros Hnz; [safe_steps|]. do 2 (apply rbind_safe_any; [safe_steps|intros ?]).
  apply if_safe; intros _; [safe_steps|]. apply if_safe; intros _; [safe_steps|].
  apply ack_ranges_safe; safe_steps; done.
Qed.

(** ** The unpacker *)

Lemma parseAs_eats {A} (mk : A -> Frame) wrap (p : reader A) : reader_eats p -> reader_eats (parseAs mk wrap p).
Proof.
  intros Hp r Hr. unfold parseAs, mapErr, rbind, rret. specialize (Hp r Hr).
  by destruct (p r) as [[a r']| |].
Qed.

Lemma parseStream_eats lvl version : reader_eats (parseStream lvl version).
Proof.
  intros r Hr. unfold parseStream, mapErr, rbind, rret, rfail.
  pose proof (ParseStreamFrame_eats version r Hr) as Hp.
  destruct (ParseStreamFrame version r) as [[a r']| |]; [|done..]. by case_test.
Qed.
#[export] Hint Resolve parseAs_eats parseStream_eats ParseAckFrame_eats ParseRstStreamFrame_eats
  ParseConnectionCloseFrame_eats ParseGoawayFrame_eats ParseWindowUpdateFrame_eats ParseBlockedFrame_eats
  ParseStopWaitingFrame_eats ParsePingFrame_eats ParseAddAddressFrame_eats ParseClosePathFrame_eats
  ParsePathsFrame_eats : parse.

Lemma rfail_eats {A} e : reader_eats (rfail e : reader A).
Proof. by intros r. Qed.
#[export] Hint Resolve rfail_eats : parse.

Lemma parseFrame_eats lvl hdr version tb : reader_eats (parseFrame lvl hdr version tb).
Proof.
  unfold parseFrame. do 3 (case_test; [solve [auto with parse]|]).
  repeat (case_match; try solve [auto with parse]).
Qed.

(** The fuel of the loop over the frames is enough, and nothing panics. *)
Lemma parseFrames_total lvl hdr version r : forall fuel acc,
  bytes_ok r -> (length r <= fuel)%nat -> parseFrames fuel lvl hdr version acc r <> Panic.
Proof.
  induction r as [r IH] using (induction_ltof1 _ (@length Z)). unfold ltof in IH.
  intros fuel acc Hr Hf. destruct r as [|tb r1]; [by destruct fuel|].
  destruct fuel as [|fuel]; [cbn in Hf; lia|]. cbn [parseFrames length] in *. case_test.
  - apply IH; [lia|by inv Hr|lia].
  - pose proof (parseFrame_eats lvl hdr version tb (tb :: r1) Hr) as Hp.
    destruct (parseFrame lvl hdr version tb (tb :: r1)) as [[f r']| |]; [|done..].
    cbn [bind fst snd length] in *. destruct Hp. apply IH; [lia|done|lia].
Qed.

(** ** Main result *)

(** C15: the unpacker is total: whatever bytes the decryption gives, in any
    version and for any header, [Unpack] ends and returns frames or an error;
    it neither panics nor loops. *)
Theorem Unpack_total (Open : AeadOpen) version raw hdr data :
  (forall d pn ad, Open d pn ad <> Panic) ->
  (forall d pn ad plain lvl, Open d pn ad = Ok (plain, lvl) -> bytes_ok plain) ->
  Unpack Open version raw hdr data <> Panic.
Proof.
  intros HnP Hbytes. unfold Unpack.
  destruct (Open data (ph_PacketNumber hdr) raw) as [[plain lvl]|e|] eqn:E; [|done|by apply HnP in E].
  apply Hbytes in E. destruct plain as [|b plain]; [done|].
  pose proof (parseFrames_total lvl hdr version (b :: plain) (length (b :: plain)) [] E ltac:(lia)) as Ht.
  destruct (parseFrames _ _ _ _ _ _); done.
Qed.

(** A malformed packet: an ACK frame that ends after its type byte. *)
Lemma Unpack_total_witness :
  Unpack (fun d _ _ => if forallb (fun b => (0 <=? b) && (b <? 256)) d
                       then Ok (d, EncryptionForwardSecure) else Err EOF)
    VersionMP [] example_header [0; 7; 96] <> Panic.
Proof.
  apply (Unpack_total (fun d _ _ => if forallb (fun b => (0 <=? b) && (b <? 256)) d
                       then Ok (d, EncryptionForwardSecure) else Err EOF)).
  - intros d _ _. by destruct (forallb _ d).
  - intros d _ _ plain lvl H. destruct (forallb (fun b => (0 <=? b) && (b <? 256)) d) eqn:E; [|done].
    simplify_eq. apply Forall_forall. intros b Hb.
    rewrite forallb_forall in E. apply E in Hb. unfold is_u8. lia.
Defined.
