(* ===== verification/ReceivedPackets.v ===== *)
(** * Received packets (ackhandler/received_packet_history.go and
    received_packet_handler.go)

    Each path keeps the set of the packet numbers it received as a list of
    intervals, decides when an acknowledgement is due and builds the ACK and
    CLOSE_PATH frames.  The history refines a set of packet numbers, and the
    frames the handler builds acknowledge exactly that set. *)
From S2P Require Import Prelude Qerr ByteOrder Protocol WireControl AckRanges WireAck.

(** ** Constants (internal/protocol/server_parameters.go) *)

Definition MaxTrackedReceivedAckRanges : Z := 2500.
Definition MaxPacketsReceivedBeforeAckSend : Z := 20.
Definition RetransmittablePacketsBeforeAck : Z := 2.
Definition AckSendDelay : Z := 25 * Millisecond.

(** ** The history *)

Record PacketInterval : Type := { pi_Start : Z; pi_End : Z }.

(** The linked list is kept from [Back()] to [Front()], the order in which the
    code walks it. *)
Record receivedPacketHistory : Type := {
  rh_ranges : list PacketInterval;
  rh_lowestInReceivedPacketNumbers : Z;
}.

Definition newReceivedPacketHistory : receivedPacketHistory :=
  {| rh_ranges := []; rh_lowestInReceivedPacketNumbers := 0 |}.

Definition errTooManyOutstandingReceivedAckRanges : error :=
  QuicError qerr.TooManyOutstandingReceivedPackets "Too many outstanding received ACK ranges".

(** After a range was extended: merge it with the one before it. *)
Definition mergeWithPrev (el : PacketInterval) (prevs : list PacketInterval) : list PacketInterval :=
  match prevs with
  | [] => [el]
  | prev :: prevs' =>
      if (pi_End prev +u 1) =? pi_Start el
      then {| pi_Start := pi_Start prev; pi_End := pi_End el |} :: prevs'
      else el :: prevs
  end.

(** The loop of [ReceivedPacket], from the back of the list. *)
Fixpoint insertPacket (p : Z) (ranges : list PacketInterval) : list PacketInterval :=
  match ranges with
  | [] => [{| pi_Start := p; pi_End := p |}]
  | el :: prevs =>
      if (p >=? pi_Start el) && (p <=? pi_End el) then ranges
      else if pi_End el =? p -u 1
      then mergeWithPrev {| pi_Start := pi_Start el; pi_End := p |} prevs
      else if pi_Start el =? p +u 1
      then mergeWithPrev {| pi_Start := p; pi_End := pi_End el |} prevs
      else if p >? pi_End el then {| pi_Start := p; pi_End := p |} :: ranges
      else el :: insertPacket p prevs
  end.

Definition history_ReceivedPacket (h : receivedPacketHistory) (p : Z) : result receivedPacketHistory :=
  if zlen (rh_ranges h) >=? MaxTrackedReceivedAckRanges
  then Err errTooManyOutstandingReceivedAckRanges
  else Ok {| rh_ranges := insertPacket p (rh_ranges h);
             rh_lowestInReceivedPacketNumbers := rh_lowestInReceivedPacketNumbers h |}.

(** The loop of [DeleteUpTo], from the front of the list. *)
Fixpoint deleteLoop (p : Z) (ranges : list PacketInterval) : list PacketInterval :=
  match ranges with
  | [] => []
  | el :: next =>
      if (p >=? pi_Start el) && (p <? pi_End el)
      then {| pi_Start := p +u 1; pi_End := pi_End el |} :: deleteLoop p next
      else if pi_End el <=? p then deleteLoop p next
      else ranges
  end.

Definition history_DeleteUpTo (h : receivedPacketHistory) (p : Z) : receivedPacketHistory :=
  {| rh_ranges := rev (deleteLoop p (rev (rh_ranges h)));
     rh_lowestInReceivedPacketNumbers := MaxPacketNumber (rh_lowestInReceivedPacketNumbers h) (p +u 1) |}.

Definition toAckRange (r : PacketInterval) : AckRange := {| ar_First := pi_Start r; ar_Last := pi_End r |}.

Definition history_GetAckRanges (h : receivedPacketHistory) : list AckRange := map toAckRange (rh_ranges h).

Definition history_GetHighestAckRange (h : receivedPacketHistory) : AckRange :=
  match rh_ranges h with
  | [] => {| ar_First := 0; ar_Last := 0 |}
  | r :: _ => toAckRange r
  end.

(** ** The handler *)

Definition errInvalidPacketNumber : error :=
  errors_New "ReceivedPacketHandler: Invalid packet number".

Record receivedPacketHandler : Type := {
  rp_largestObserved : Z;
  rp_lowerLimit : Z;
  rp_largestObservedReceivedTime : Z;
  rp_packetHistory : receivedPacketHistory;
  rp_ackSendDelay : Z;
  rp_packetsReceivedSinceLastAck : Z;
  rp_retransmittablePacketsReceivedSinceLastAck : Z;
  rp_ackQueued : bool;
  rp_ackAlarm : Z;
  rp_lastAck : option AckFrame;
  rp_version : Z;
  rp_packets : Z;
}.

Definition NewReceivedPacketHandler (version : Z) : receivedPacketHandler := {|
  rp_largestObserved := 0; rp_lowerLimit := 0; rp_largestObservedReceivedTime := zeroTime;
  rp_packetHistory := newReceivedPacketHistory; rp_ackSendDelay := AckSendDelay;
  rp_packetsReceivedSinceLastAck := 0; rp_retransmittablePacketsReceivedSinceLastAck := 0;
  rp_ackQueued := false; rp_ackAlarm := zeroTime; rp_lastAck := None;
  rp_version := version; rp_packets := 0 |}.

(** [maybeQueueAck] at [now]: the new counters, [ackQueued] and [ackAlarm]. *)
Definition maybeQueueAck (h : receivedPacketHandler) (packetNumber : Z) (shouldInstigateAck : bool) (now : Z) :
    receivedPacketHandler :=
  let received := i64 (rp_packetsReceivedSinceLastAck h + 1) in
  let retransmittable :=
    if shouldInstigateAck then i64 (rp_retransmittablePacketsReceivedSinceLastAck h + 1)
    else rp_retransmittablePacketsReceivedSinceLastAck h in
  let queued := rp_ackQueued h in
  let queued := match rp_lastAck h with None => true | Some _ => queued end in
  let queued :=
    if rp_version h <? Version39 then
      if received >=? MaxPacketsReceivedBeforeAckSend then true else queued
    else queued in
  let queued :=
    match rp_lastAck h with
    | Some lastAck => if packetNumber <? ack_LargestAcked lastAck then true else queued
    | None => queued
    end in
  let queued :=
    match rp_lastAck h with
    | Some lastAck =>
        if ar_First (history_GetHighestAckRange (rp_packetHistory h)) >? ack_LargestAcked lastAck
        then true else queued
    | None => queued
    end in
  let '(queued, alarm) :=
    if negb queued && shouldInstigateAck then
      if retransmittable >=? RetransmittablePacketsBeforeAck then (true, rp_ackAlarm h)
      else if IsZero (rp_ackAlarm h) then (queued, timeAdd now (rp_ackSendDelay h))
      else (queued, rp_ackAlarm h)
    else (queued, rp_ackAlarm h) in
  let alarm := if queued then zeroTime else alarm in
  {| rp_largestObserved := rp_largestObserved h; rp_lowerLimit := rp_lowerLimit h;
     rp_largestObservedReceivedTime := rp_largestObservedReceivedTime h;
     rp_packetHistory := rp_packetHistory h; rp_ackSendDelay := rp_ackSendDelay h;
     rp_packetsReceivedSinceLastAck := received;
     rp_retransmittablePacketsReceivedSinceLastAck := retransmittable;
     rp_ackQueued := queued; rp_ackAlarm := alarm; rp_lastAck := rp_lastAck h;
     rp_version := rp_version h; rp_packets := rp_packets h |}.

(** The statistics and the largest observed packet, before the packet is
    recorded. *)
Definition observePacket (h : receivedPacketHandler) (packetNumber now : Z) : receivedPacketHandler :=
  let newer := packetNumber >? rp_largestObserved h in
  {| rp_largestObserved := if newer then packetNumber else rp_largestObserved h;
     rp_lowerLimit := rp_lowerLimit h;
     rp_largestObservedReceivedTime := if newer then now else rp_largestObservedReceivedTime h;
     rp_packetHistory := rp_packetHistory h; rp_ackSendDelay := rp_ackSendDelay h;
     rp_packetsReceivedSinceLastAck := rp_packetsReceivedSinceLastAck h;
     rp_retransmittablePacketsReceivedSinceLastAck := rp_retransmittablePacketsReceivedSinceLastAck h;
     rp_ackQueued := rp_ackQueued h; rp_ackAlarm := rp_ackAlarm h; rp_lastAck := rp_lastAck h;
     rp_version := rp_version h; rp_packets := rp_packets h +u 1 |}.

Definition set_history (h : receivedPacketHandler) (hist : receivedPacketHistory) (limit : Z) :
    receivedPacketHandler :=
  {| rp_largestObserved := rp_largestObserved h; rp_lowerLimit := limit;
     rp_largestObservedReceivedTime := rp_largestObservedReceivedTime h;
     rp_packetHistory := hist; rp_ackSendDelay := rp_ackSendDelay h;
     rp_packetsReceivedSinceLastAck := rp_packetsReceivedSinceLastAck h;
     rp_retransmittablePacketsReceivedSinceLastAck := rp_retransmittablePacketsReceivedSinceLastAck h;
     rp_ackQueued := rp_ackQueued h; rp_ackAlarm := rp_ackAlarm h; rp_lastAck := rp_lastAck h;
     rp_version := rp_version h; rp_packets := rp_packets h |}.

(** The state after the call, and the error it returns. *)
Definition handler_ReceivedPacket (h : receivedPacketHandler) (packetNumber : Z)
    (shouldInstigateAck : bool) (now : Z) : receivedPacketHandler * option error :=
  if packetNumber =? 0 then (h, Some errInvalidPacketNumber)
  else
  let h := observePacket h packetNumber now in
  if packetNumber <=? rp_lowerLimit h then (h, None)
  else match history_ReceivedPacket (rp_packetHistory h) packetNumber with
       | Ok hist => (maybeQueueAck (set_history h hist (rp_lowerLimit h)) packetNumber shouldInstigateAck now, None)
       | Err e => (h, Some e)
       | Panic => (h, None)
       end.

Definition SetLowerLimit (h : receivedPacketHandler) (p : Z) : receivedPacketHandler :=
  set_history h (history_DeleteUpTo (rp_packetHistory h) p) p.

(** [GetAckFrame] at [now]: [Ok None] is a nil frame; an empty list of ranges
    is indexed with -1 and panics. *)
Definition GetAckFrame (h : receivedPacketHandler) (now : Z) :
    result (receivedPacketHandler * option AckFrame) :=
  if negb (rp_ackQueued h) && (IsZero (rp_ackAlarm h) || (rp_ackAlarm h >? now)) then Ok (h, None)
  else
  let ackRanges := history_GetAckRanges (rp_packetHistory h) in
  match ackRanges with
  | [] => Panic
  | first :: _ =>
      let ack :=
        {| ack_PathID := 0; ack_LargestAcked := rp_largestObserved h;
           ack_LowestAcked := ar_First (List.last ackRanges first);
           ack_AckRanges := if zlen ackRanges >? 1 then ackRanges else [];
           ack_PacketReceivedTime := rp_largestObservedReceivedTime h; ack_DelayTime := 0 |} in
      Ok ({| rp_largestObserved := rp_largestObserved h; rp_lowerLimit := rp_lowerLimit h;
             rp_largestObservedReceivedTime := rp_largestObservedReceivedTime h;
             rp_packetHistory := rp_packetHistory h; rp_ackSendDelay := rp_ackSendDelay h;
             rp_packetsReceivedSinceLastAck := 0;
             rp_retransmittablePacketsReceivedSinceLastAck := 0;
             rp_ackQueued := false; rp_ackAlarm := zeroTime; rp_lastAck := Some ack;
             rp_version := rp_version h; rp_packets := rp_packets h |}, Some ack)
  end.

Definition GetClosePathFrame (h : receivedPacketHandler) : result ClosePathFrame :=
  let ackRanges := history_GetAckRanges (rp_packetHistory h) in
  match ackRanges with
  | [] => Panic
  | first :: _ =>
      Ok {| cp_PathID := 0; cp_LargestAcked := rp_largestObserved h;
            cp_LowestAcked := ar_First (List.last ackRanges first);
            cp_AckRanges := if zlen ackRanges >? 1 then ackRanges else [] |}
  end.

Definition handler_GetAlarmTimeout (h : receivedPacketHandler) : Z := rp_ackAlarm h.

(** ** The history refines a set *)

Definition contains (h : receivedPacketHistory) (q : Z) : Prop :=
  Exists (fun r => pi_Start r <= q <= pi_End r) (rh_ranges h).

(** Intervals from the highest to the lowest, below [B], non-empty and with
    gaps between them: the maximal intervals of a set of packet numbers. *)
Fixpoint intervals (B : Z) (l : list PacketInterval) : Prop :=
  match l with
  | [] => True
  | r :: l' => 1 <= pi_Start r <= pi_End r /\ pi_End r + 1 < B /\ intervals (pi_Start r) l'
  end.

Lemma intervals_mono B B' l : B <= B' -> intervals B l -> intervals B' l.
Proof. destruct l; simpl; [done|]. intros ? (? & ? & ?). split_and!; auto; lia. Qed.

Lemma intervals_below B l q :
  intervals B l -> Exists (fun r => pi_Start r <= q <= pi_End r) l -> 1 <= q /\ q + 1 < B.
Proof.
  intros Hl He. revert B Hl. induction He as [r l Hr|r l He IH]; intros B (H1 & H2 & H3); [lia|].
  apply IH in H3. lia.
Qed.

Lemma mergeWithPrev_spec B el prevs :
  1 <= pi_Start el <= pi_End el -> pi_End el + 1 < B -> B <= 2 ^ 64 ->
  (forall r, head prevs = Some r -> pi_End r < pi_Start el) ->
  intervals (pi_Start el + 1) prevs ->
  intervals B (mergeWithPrev el prevs) /\
  forall q, Exists (fun r => pi_Start r <= q <= pi_End r) (mergeWithPrev el prevs) <->
    (pi_Start el <= q <= pi_End el) \/ Exists (fun r => pi_Start r <= q <= pi_End r) prevs.
Proof.
  intros H1 H2 HB Hh Hp. destruct prevs as [|prev prevs]; cbn [mergeWithPrev].
  - split; [by split_and!; [lia..|]|]. intros q. by rewrite Exists_cons.
  - destruct Hp as (P1 & P2 & P3). specialize (Hh prev eq_refl). rewrite add64_small by (zpow; lia).
    case_test.
    + split; [split_and!; simpl; [lia..|done]|]. intros q. rewrite !Exists_cons. simpl. intuition lia.
    + split; [cbn [intervals]; split_and!; simpl; auto; lia|]. intros q. by rewrite Exists_cons.
Qed.

Lemma insertPacket_spec B p l :
  1 <= p -> p + 1 < B -> B <= 2 ^ 64 -> intervals B l ->
  intervals B (insertPacket p l) /\
  forall q, Exists (fun r => pi_Start r <= q <= pi_End r) (insertPacket p l) <->
    q = p \/ Exists (fun r => pi_Start r <= q <= pi_End r) l.
Proof.
  intros Hp. revert B. induction l as [|el l IH]; intros B HpB HB Hl; cbn [insertPacket].
  - split; [simpl; lia|]. intros q. rewrite Exists_cons, !Exists_nil. simpl. intuition lia.
  - pose proof Hl as (H1 & H2 & H3). rewrite Z.geb_leb, sub64_small, add64_small, Z.gtb_ltb by (zpow; lia).
    assert (Hhd : forall r, head l = Some r -> pi_End r + 1 < pi_Start el)
      by (destruct l; intros r [= <-]; simpl in H3; lia).
    case_test.
    { split; [done|]. intros q. split; [auto|]. intros [->|?]; [left; lia|done]. }
    apply andb_false_iff in E. case_test.
    { destruct (mergeWithPrev_spec B {| pi_Start := pi_Start el; pi_End := p |} l) as [Hi Hc];
        simpl; try lia; [intros r Hr; apply Hhd in Hr; lia|by eapply intervals_mono; [|exact H3]; lia|].
      split; [done|]. intros q. rewrite Hc, Exists_cons. simpl. intuition lia. }
    case_test.
    { destruct (mergeWithPrev_spec B {| pi_Start := p; pi_End := pi_End el |} l) as [Hi Hc];
        simpl; try lia; [intros r Hr; apply Hhd in Hr; lia|by eapply intervals_mono; [|exact H3]; lia|].
      split; [done|]. intros q. rewrite Hc, Exists_cons. simpl. intuition lia. }
    case_test.
    { split; [cbn [intervals]; split_and!; simpl; auto; lia|].
      intros q. rewrite !Exists_cons. simpl. intuition lia. }
    destruct (IH (pi_Start el)) as [Hi Hc]; [lia|lia|done|].
    split; [cbn [intervals]; split_and!; [lia..|done]|]. intros q. rewrite !Exists_cons, Hc. intuition lia.
Qed.

(** From the lowest to the highest. *)
Fixpoint intervals_asc (A : Z) (l : list PacketInterval) : Prop :=
  match l with
  | [] => True
  | r :: l' => A + 1 < pi_Start r /\ pi_Start r <= pi_End r /\ intervals_asc (pi_End r) l'
  end.

Lemma last_last_default {A} (l : list A) d d' : l <> [] -> List.last l d = List.last l d'.
Proof. induction l as [|x l IH]; [done|]. intros _. destruct l; [done|]. simpl. by apply IH. Qed.

Lemma intervals_asc_app A l r :
  intervals_asc A (l ++ [r]) <->
  intervals_asc A l /\ pi_Start r <= pi_End r /\ List.last (map pi_End l) A + 1 < pi_Start r.
Proof.
  revert A. induction l as [|x l IH]; intros A; simpl; [tauto|]. rewrite IH.
  destruct l as [|y l]; [simpl; tauto|].
  change (List.last (pi_End x :: map pi_End (y :: l)) A) with (List.last (map pi_End (y :: l)) A).
  rewrite (last_last_default (map pi_End (y :: l)) (pi_End x) A) by done. tauto.
Qed.

Lemma intervals_rev B l :
  intervals B l <-> intervals_asc (-1) (rev l) /\ Forall (fun r => 1 <= pi_Start r) l /\
    forall r, head l = Some r -> pi_End r + 1 < B.
Proof.
  revert B. induction l as [|r l IH]; intros B; simpl; [by split; auto|].
  rewrite intervals_asc_app, Forall_cons_iff, (IH (pi_Start r)), map_rev.
  assert (Hlast : l <> [] -> forall d, List.last (rev (map pi_End l)) d = default d (pi_End <$> head l)).
  { destruct l as [|x l]; [done|]. intros _ d. simpl. by rewrite last_last. }
  destruct l as [|x l].
  - simpl. split; [intros (? & ? & ? & ? & ?); split_and!; auto; try lia|].
    + intros r' [= <-]. done.
    + intros ((? & ? & ?) & (? & ?) & Hh). specialize (Hh r eq_refl). split_and!; auto; (lia || done).
  - rewrite Hlast by done. simpl. split.
    + intros (? & ? & ? & ? & Hh). specialize (Hh x eq_refl). split_and!; auto; [lia..|]. by intros r' [= <-].
    + intros ((? & ? & ?) & (? & ?) & Hh). specialize (Hh r eq_refl). split_and!; auto; [lia..|].
      intros r' [= <-]. done.
Qed.

Lemma deleteLoop_spec A p l :
  0 <= p < 2 ^ 64 - 1 -> intervals_asc A l ->
  (forall A', A' <= A -> intervals_asc A' (deleteLoop p l)) /\
  (forall q, Exists (fun r => pi_Start r <= q <= pi_End r) (deleteLoop p l) <->
    p < q /\ Exists (fun r => pi_Start r <= q <= pi_End r) l).
Proof.
  intros Hp. revert A. induction l as [|r l IH]; intros A Hl; cbn [deleteLoop].
  - split; [done|]. intros q. rewrite Exists_nil. tauto.
  - destruct Hl as (H1 & H2 & H3). rewrite Z.geb_leb, add64_small by (zpow; lia).
    destruct (IH _ H3) as [Hi Hc]. case_test; [|case_test].
    + split.
      * intros A' HA. cbn [intervals_asc pi_Start pi_End]. split_and!; [lia..|]. by apply Hi.
      * intros q. rewrite !Exists_cons, Hc. simpl. split; [intros [?|?]; [split; [lia|left; lia]|tauto]|].
        intros [? [?|?]]; [left; lia|right; tauto].
    + split.
      * intros A' HA. apply Hi. lia.
      * intros q. rewrite Hc, Exists_cons. split; [tauto|]. intros [? [?|?]]; [lia|tauto].
    + apply andb_false_iff in E. split.
      * intros A' HA. split_and!; [lia..|done].
      * intros q. split; [|tauto]. intros He. split; [|done].
        apply Exists_cons in He as [?|He]; [lia|].
        assert (Hlow : pi_End r < q); [|lia].
        clear -H3 He. revert H3. generalize (pi_End r) as a.
        induction He as [x l Hx|x l He IH']; intros a (? & ? & H); [lia|]. apply IH' in H. lia.
Qed.

(** *** Operations on the abstract set *)

Inductive history_op : Type := OReceived (p : Z) | ODeleteUpTo (p : Z).

Definition history_op_ok (o : history_op) : Prop :=
  match o with
  | OReceived p => 1 <= p < 2 ^ 64 - 1
  | ODeleteUpTo p => 0 <= p < 2 ^ 64 - 1
  end.

Definition history_step (h : receivedPacketHistory) (o : history_op) : result receivedPacketHistory :=
  match o with
  | OReceived p => history_ReceivedPacket h p
  | ODeleteUpTo p => Ok (history_DeleteUpTo h p)
  end.

Fixpoint history_run (h : receivedPacketHistory) (ops : list history_op) : result receivedPacketHistory :=
  match ops with
  | [] => Ok h
  | o :: ops' => let* h' := history_step h o in history_run h' ops'
  end.

Definition set_step (S : gset Z) (o : history_op) : gset Z :=
  match o with
  | OReceived p => {[p]} ∪ S
  | ODeleteUpTo p => filter (fun q => p < q) S
  end.

Definition history_refines (h : receivedPacketHistory) (S : gset Z) : Prop :=
  intervals (2 ^ 64) (rh_ranges h) /\ forall q, contains h q <-> q ∈ S.

Lemma history_received_spec h p h' :
  1 <= p < 2 ^ 64 - 1 -> intervals (2 ^ 64) (rh_ranges h) -> history_ReceivedPacket h p = Ok h' ->
  intervals (2 ^ 64) (rh_ranges h') /\ forall q, contains h' q <-> q = p \/ contains h q.
Proof.
  intros Hp Hi E. unfold history_ReceivedPacket in E. case_test; [done|]. simplify_eq.
  apply insertPacket_spec; [lia|lia|lia|done].
Qed.

Lemma history_delete_spec h p :
  0 <= p < 2 ^ 64 - 1 -> intervals (2 ^ 64) (rh_ranges h) ->
  intervals (2 ^ 64) (rh_ranges (history_DeleteUpTo h p)) /\
  forall q, contains (history_DeleteUpTo h p) q <-> p < q /\ contains h q.
Proof.
  intros Hp Hi. pose proof Hi as Hi'. apply intervals_rev in Hi as (Ha & Hs & Hh).
  destruct (deleteLoop_spec (-1) p _ Hp Ha) as [Hd Hc]. specialize (Hd (-1) ltac:(lia)).
  assert (Hcon : forall q, contains (history_DeleteUpTo h p) q <-> p < q /\ contains h q).
  { intros q. unfold contains, history_DeleteUpTo. cbn [rh_ranges]. rewrite !Exists_exists.
    setoid_rewrite <- in_rev. rewrite <- !Exists_exists. rewrite Hc, !Exists_exists.
    by setoid_rewrite <- in_rev. }
  split; [|done]. apply intervals_rev. cbn [history_DeleteUpTo rh_ranges]. rewrite rev_involutive.
  assert (Hin : forall r, In r (rev (deleteLoop p (rev (rh_ranges h)))) -> 1 <= pi_Start r /\ pi_End r + 1 < 2 ^ 64).
  { intros r Hr. assert (Hne : pi_Start r <= pi_End r).
    { apply in_rev in Hr. clear -Hr Hd. revert Hd Hr. generalize (-1) as a.
      induction (deleteLoop p (rev (rh_ranges h))) as [|x l IH]; intros a Hd Hr; [done|].
      destruct Hd as (? & ? & ?), Hr as [->|Hr]; [done|by eapply IH]. }
    assert (Hct : forall q, pi_Start r <= q <= pi_End r -> contains h q).
    { intros q Hq. apply Hcon. unfold contains. cbn [history_DeleteUpTo rh_ranges]. apply Exists_exists. eauto. }
    destruct (intervals_below _ _ _ Hi' (Hct (pi_Start r) ltac:(lia))).
    destruct (intervals_below _ _ _ Hi' (Hct (pi_End r) ltac:(lia))). lia. }
  split_and!; [done|apply Forall_forall; intros r Hr; by apply Hin|].
  intros r Hr. apply Hin. destruct (rev (deleteLoop p (rev (rh_ranges h)))) as [|x l]; simplify_eq/=. by left.
Qed.

Lemma history_step_refines h S o h' :
  history_op_ok o -> history_refines h S -> history_step h o = Ok h' -> history_refines h' (set_step S o).
Proof.
  intros Ho [Hi Hq] E. destruct o as [p|p]; simpl in *.
  - destruct (history_received_spec h p h' Ho Hi E) as [Hi' Hq']. split; [done|].
    intros q. rewrite Hq', Hq. rewrite elem_of_union, elem_of_singleton. done.
  - simplify_eq. destruct (history_delete_spec h p Ho Hi) as [Hi' Hq']. split; [done|].
    intros q. rewrite Hq', Hq, elem_of_filter. done.
Qed.

(** C14: the received packet history, a list of intervals that are extended,
    merged, split and dropped, implements a set of packet numbers: after any
    sequence of receptions and deletions that does not exceed the limit on the
    number of intervals, the intervals are the maximal intervals of exactly the
    set the sequence describes. *)
Theorem history_refines_set ops h :
  Forall history_op_ok ops -> history_run newReceivedPacketHistory ops = Ok h ->
  history_refines h (fold_left set_step ops ∅).
Proof.
  assert (Hgen : forall h0 S, history_refines h0 S -> Forall history_op_ok ops ->
    history_run h0 ops = Ok h -> history_refines h (fold_left set_step ops S)).
  { induction ops as [|o ops IH]; intros h0 S HR Hok E; simpl in *; [by simplify_eq|].
    inv Hok. destruct (history_step h0 o) as [h1| |] eqn:E1; [|done..]. simpl in E.
    apply (IH h1); [by eapply history_step_refines|done|done]. }
  intros Hok E. apply (Hgen newReceivedPacketHistory ∅); [|done|done].
  split; [done|]. intros q. unfold contains. simpl. rewrite Exists_nil. set_solver.
Qed.

Definition example_history_ops : list history_op :=
  [OReceived 4; OReceived 7; OReceived 5; OReceived 6; OReceived 1; OReceived 2; ODeleteUpTo 1].

Lemma history_refines_set_witness :
  exists h, history_run newReceivedPacketHistory example_history_ops = Ok h /\
    history_refines h (fold_left set_step example_history_ops ∅) /\
    rh_ranges h = [{| pi_Start := 4; pi_End := 7 |}; {| pi_Start := 2; pi_End := 2 |}].
Proof.
  eexists. split; [reflexivity|]. split; [|reflexivity].
  apply (history_refines_set example_history_ops); [|reflexivity].
  repeat (apply Forall_cons; [simpl; lia|]). apply Forall_nil.
Defined.

(** ** The handler *)

(** One call into the handler.  The lower limit is one less than the
    [LeastUnacked] of a STOP_WAITING frame, which its parser keeps at most the
    number of the packet that carries it, and that packet was received before
    its frames are handled: the limit is below [largestObserved]. *)
Inductive rp_step : receivedPacketHandler -> receivedPacketHandler -> Prop :=
| rp_received h pn ack now h' :
    0 < pn < 2 ^ 48 -> handler_ReceivedPacket h pn ack now = (h', None) -> rp_step h h'
| rp_lower_limit h p :
    0 <= p < rp_largestObserved h -> rp_step h (SetLowerLimit h p)
| rp_get_ack h now h' f :
    GetAckFrame h now = Ok (h', f) -> rp_step h h'.

Definition rp_reachable (version : Z) : receivedPacketHandler -> Prop :=
  rtc rp_step (NewReceivedPacketHandler version).

Record rp_inv (h : receivedPacketHandler) : Prop := {
  rpi_intervals : intervals (2 ^ 64) (rh_ranges (rp_packetHistory h));
  rpi_range : 0 <= rp_lowerLimit h /\ 0 <= rp_largestObserved h < 2 ^ 48;
  rpi_limit : rp_lowerLimit h < rp_largestObserved h \/ rp_lowerLimit h = 0;
  rpi_largest : 0 < rp_largestObserved h -> contains (rp_packetHistory h) (rp_largestObserved h);
  rpi_max : forall q, contains (rp_packetHistory h) q -> q <= rp_largestObserved h;
  rpi_due : rp_ackQueued h = true \/ rp_ackAlarm h <> zeroTime -> 0 < rp_largestObserved h;
  rpi_delay : rp_ackSendDelay h = AckSendDelay;
}.

Lemma maybeQueueAck_same h pn ack now :
  let h' := maybeQueueAck h pn ack now in
  rp_largestObserved h' = rp_largestObserved h /\ rp_lowerLimit h' = rp_lowerLimit h /\
  rp_packetHistory h' = rp_packetHistory h /\ rp_ackSendDelay h' = rp_ackSendDelay h.
Proof.
  unfold maybeQueueAck. cbv zeta. destruct (rp_lastAck h) as [la|];
    repeat case_test; done.
Qed.

Lemma rp_inv_received h pn ack now h' :
  rp_inv h -> 0 < pn < 2 ^ 48 -> handler_ReceivedPacket h pn ack now = (h', None) -> rp_inv h'.
Proof.
  intros [Hi Hr Hl Hc Hm Hd Hdl] Hpn E. unfold handler_ReceivedPacket in E.
  rewrite (proj2 (Z.eqb_neq _ _)) in E by lia.
  unfold observePacket in E. cbn [rp_lowerLimit rp_packetHistory] in E.
  destruct (pn <=? rp_lowerLimit h) eqn:Elim; bool_to_prop.
  - injection E as <-. rewrite Z.gtb_ltb, (proj2 (Z.ltb_ge _ _)) by lia. by constructor.
  - destruct (history_ReceivedPacket (rp_packetHistory h) pn) as [hist|e|] eqn:EH.
    + assert (Hp64 : 1 <= pn < 2 ^ 64 - 1) by (zpow; lia).
      destruct (history_received_spec _ _ _ Hp64 Hi EH) as [Hi' Hc']. injection E as <-.
      match goal with |- rp_inv (maybeQueueAck ?h0 _ _ _) =>
        destruct (maybeQueueAck_same h0 pn ack now) as (F1 & F2 & F3 & F4) end.
      cbn [set_history rp_largestObserved rp_lowerLimit rp_packetHistory rp_ackSendDelay] in F1, F2, F3, F4.
      constructor; rewrite ?F1, ?F2, ?F3, ?F4; try done; rewrite ?Z.gtb_ltb.
      * case_test; lia.
      * case_test; lia.
      * intros _. apply Hc'. case_test; [by left|right; apply Hc; lia].
      * intros q Hq. apply Hc' in Hq as [->|Hq]; [|apply Hm in Hq]; case_test; lia.
      * intros _. case_test; lia.
    + done.
    + unfold history_ReceivedPacket in EH. destruct (_ >=? _); done.
Qed.

Lemma rp_inv_limit h p :
  rp_inv h -> 0 <= p < rp_largestObserved h -> rp_inv (SetLowerLimit h p).
Proof.
  intros [Hi Hr Hl Hc Hm Hd Hdl] Hp. destruct (history_delete_spec (rp_packetHistory h) p ltac:(zpow; lia) Hi) as [Hi' Hc'].
  constructor; cbn [SetLowerLimit set_history rp_packetHistory rp_lowerLimit rp_largestObserved rp_ackQueued
    rp_ackAlarm]; try done; [lia|lia| |].
  - intros Hpos. apply Hc'. split; [lia|]. by apply Hc.
  - intros q Hq. apply Hc' in Hq as [_ Hq]. by apply Hm.
Qed.

Lemma rp_inv_step h h' : rp_inv h -> rp_step h h' -> rp_inv h'.
Proof.
  intros Hinv Hs. destruct Hs as [h pn ack now h' Hpn E|h p Hp|h now h' f E].
  - by eapply rp_inv_received.
  - by apply rp_inv_limit.
  - unfold GetAckFrame in E. case_test; [by simplify_eq|].
    destruct (history_GetAckRanges _) as [|first rest]; [done|]. injection E as <- _.
    destruct Hinv as [Hi Hr Hl Hc Hm Hd Hdl]. constructor; cbn [rp_packetHistory rp_lowerLimit rp_largestObserved
      rp_ackQueued rp_ackAlarm]; try done. intros [?|?]; done.
Qed.

Lemma rp_reachable_inv version h : rp_reachable version h -> rp_inv h.
Proof.
  unfold rp_reachable. intros Hr. remember (NewReceivedPacketHandler version) as h0 eqn:E0.
  assert (H0 : rp_inv h0).
  { subst h0. constructor; cbn; try done; try lia.
    - intros q Hq. by apply Exists_nil in Hq. 
  }
  clear E0. induction Hr as [|h0 h1 h2 Hs Hr IH]; [done|]. apply IH. by eapply rp_inv_step.
Qed.

Lemma intervals_ranges B l :
  intervals B l -> match map toAckRange l with [] => True | r :: l' => ranges_ok 1 (r :: l') end.
Proof.
  destruct l as [|r l]; [done|]. intros (H1 & _ & H). cbn [map]. split; [done|].
  revert r H1 H. induction l as [|x l IH]; intros r H1 H; [done|]. destruct H as (Hx & Hg & H).
  cbn [map ranges_desc]. split_and!; simpl; [lia..|by apply IH].
Qed.

(** The frame built from the history and its largest packet number. *)
Lemma built_ranges h (first : AckRange) rest :
  rp_inv h -> history_GetAckRanges (rp_packetHistory h) = first :: rest ->
  let ranges := if zlen (first :: rest) >? 1 then first :: rest else [] in
  let lowest := ar_First (List.last (first :: rest) first) in
  ack_ranges_wf 1 lowest (rp_largestObserved h) ranges /\
  forall q, rangesAcksPacket lowest (rp_largestObserved h) ranges q = true <->
    contains (rp_packetHistory h) q.
Proof.
  intros [Hi Hr Hl Hc Hm Hd Hdl] E. cbv zeta.
  pose proof (intervals_ranges _ _ Hi) as Hok. unfold history_GetAckRanges in E. rewrite E in Hok.
  assert (Hcon : forall q, contains (rp_packetHistory h) q <-> Exists (in_range q) (first :: rest)).
  { intros q. rewrite <- E. unfold contains. rewrite Exists_map. done. }
  destruct Hok as [Hf Hdsc].
  assert (Hlast : ar_Last first = rp_largestObserved h).
  { assert (contains (rp_packetHistory h) (ar_Last first)) as Hin
      by (apply Hcon, Exists_cons; left; unfold in_range; lia).
    pose proof (Hm _ Hin). pose proof (Hc ltac:(lia)) as Hlg. apply Hcon, Exists_cons in Hlg as [Hlg|Hlg].
    - unfold in_range in Hlg. lia.
    - apply (ranges_desc_bounds 1 first) in Hlg as [? _]; [lia|done]. }
  assert (Hwf : ack_ranges_wf 1 (ar_First (List.last (first :: rest) first)) (rp_largestObserved h)
    (if zlen (first :: rest) >? 1 then first :: rest else [])).
  { destruct rest as [|r rest].
    - simpl. lia.
    - assert ((zlen (first :: r :: rest) >? 1) = true) as ->.
      { rewrite !zlen_cons, Z.gtb_ltb. apply Z.ltb_lt. pose proof (zlen_nonneg rest). lia. }
      split_and!; done. }
  split; [done|]. intros q. rewrite (rangesAcksPacket_spec 1) by done. rewrite Hcon.
  destruct rest as [|r rest].
  - simpl. rewrite Exists_cons, Exists_nil. unfold in_range. rewrite Hlast. tauto.
  - assert ((zlen (first :: r :: rest) >? 1) = true) as ->; [|done].
    rewrite !zlen_cons, Z.gtb_ltb. apply Z.ltb_lt. pose proof (zlen_nonneg rest). lia.
Qed.

Lemma due_nonempty h :
  rp_inv h -> 0 < rp_largestObserved h -> history_GetAckRanges (rp_packetHistory h) <> [].
Proof.
  intros [Hi Hr Hl Hc Hm Hd Hdl] Hpos E. specialize (Hc Hpos). unfold contains in Hc.
  unfold history_GetAckRanges in E. destruct (rh_ranges (rp_packetHistory h)); [|done].
  by apply Exists_nil in Hc.
Qed.

(** What happened to the receive side of a path: the packets that were received, without an error, and the lower
    limits that were set. *)
Inductive rp_event : Type :=
| RReceived (pn : Z)
| RLimit (p : Z).

Inductive rp_run (version : Z) : list rp_event -> receivedPacketHandler -> Prop :=
| rr_new : rp_run version [] (NewReceivedPacketHandler version)
| rr_received tr h pn ack now h' :
    rp_run version tr h -> 0 < pn < 2 ^ 48 -> handler_ReceivedPacket h pn ack now = (h', None) ->
    rp_run version (tr ++ [RReceived pn]) h'
| rr_limit tr h p :
    rp_run version tr h -> 0 <= p < rp_largestObserved h -> rp_run version (tr ++ [RLimit p]) (SetLowerLimit h p)
| rr_ack tr h now h' f :
    rp_run version tr h -> GetAckFrame h now = Ok (h', f) -> rp_run version tr h'.

Lemma rp_run_reachable version tr h : rp_run version tr h -> rp_reachable version h.
Proof.
  unfold rp_reachable. induction 1; [apply rtc_refl|..]; (eapply rtc_r; [eassumption|]).
  - by eapply rp_received.
  - by apply rp_lower_limit.
  - by eapply rp_get_ack.
Qed.

(** The lower limit after a run. *)
Definition limit_of (tr : list rp_event) : Z := fold_left (fun l e => match e with RLimit p => p | RReceived _ => l end) tr 0.

(** A packet that is to be acknowledged: it was received above the limit of that time, and no limit was set since
    then that it is not above. *)
Definition to_ack (tr : list rp_event) (q : Z) : Prop :=
  exists pre post, tr = pre ++ RReceived q :: post /\ limit_of pre < q /\
    Forall (fun e => match e with RLimit p => p < q | RReceived _ => True end) post.

Lemma to_ack_received tr pn q : to_ack (tr ++ [RReceived pn]) q <-> (q = pn /\ limit_of tr < q) \/ to_ack tr q.
Proof.
  split.
  - intros (pre & post & [(-> & [= ->] & ->)|(post0 & -> & ->)]%split_snoc & Hl & Hf); [by left|].
    right. exists pre, post0. split; [done|]. split; [done|]. apply Forall_app in Hf. apply Hf.
  - intros [[-> Hl]|(pre & post & -> & Hl & Hf)]; [by exists tr, []|].
    exists pre, (post ++ [RReceived pn]). rewrite <- app_assoc. split; [done|]. split; [done|]. apply Forall_app. split; [done|by repeat constructor].
Qed.

Lemma to_ack_limit tr p q : to_ack (tr ++ [RLimit p]) q <-> p < q /\ to_ack tr q.
Proof.
  split.
  - intros (pre & post & [(_ & [=] & _)|(post0 & -> & ->)]%split_snoc & Hl & Hf). apply Forall_app in Hf as [Hf Hp].
    split; [by apply List.Forall_inv in Hp|]. by exists pre, post0.
  - intros [Hp (pre & post & -> & Hl & Hf)]. exists pre, (post ++ [RLimit p]). rewrite <- app_assoc. split; [done|]. split; [done|].
    apply Forall_app. split; [done|by repeat constructor].
Qed.

Lemma limit_of_snoc tr e : limit_of (tr ++ [e]) = match e with RLimit p => p | RReceived _ => limit_of tr end.
Proof. unfold limit_of. rewrite fold_left_app. by destruct e. Qed.

(** The history is what is to be acknowledged. *)
Lemma rp_run_history version tr h : rp_run version tr h ->
  rp_lowerLimit h = limit_of tr /\ forall q, contains (rp_packetHistory h) q <-> to_ack tr q.
Proof.
  induction 1 as [|tr h pn ack now h' Hr [IHl IH] Hpn E|tr h p Hr [IHl IH] Hp|tr h now h' f Hr [IHl IH] E].
  - split; [done|]. intros q. unfold contains. cbn. rewrite Exists_nil. split; [done|]. by intros ([] & ? & [=] & _).
  - pose proof (rp_reachable_inv _ _ (rp_run_reachable _ _ _ Hr)) as Hinv. unfold handler_ReceivedPacket in E.
    rewrite (proj2 (Z.eqb_neq _ _)) in E by lia. unfold observePacket in E. cbn [rp_lowerLimit rp_packetHistory] in E.
    rewrite limit_of_snoc. destruct (pn <=? rp_lowerLimit h) eqn:Elim; bool_to_prop.
    + injection E as <-. split; [done|]. intros q. rewrite to_ack_received. cbn. rewrite IH. split; [by right|]. intros [[-> ?]|?]; [lia|done].
    + destruct (history_ReceivedPacket (rp_packetHistory h) pn) as [hist|e|] eqn:EH; [|done|].
      2:{ unfold history_ReceivedPacket in EH. destruct (_ >=? _); done. }
      destruct (history_received_spec _ _ _ (ltac:(zpow; lia) : 1 <= pn < 2 ^ 64 - 1) (rpi_intervals _ Hinv) EH) as [_ Hc]. injection E as <-.
      match goal with |- context [maybeQueueAck ?h0 _ _ _] => destruct (maybeQueueAck_same h0 pn ack now) as (_ & F2 & F3 & _) end.
      rewrite F2, F3. cbn [set_history rp_lowerLimit rp_packetHistory]. split; [done|]. intros q. rewrite Hc, IH, to_ack_received.
      split; [intros [->|?]; [left; split; [done|lia]|by right]|intros [[-> _]|?]; [by left|by right]].
  - pose proof (rp_reachable_inv _ _ (rp_run_reachable _ _ _ Hr)) as Hinv. rewrite limit_of_snoc. split; [done|]. intros q.
    destruct (history_delete_spec (rp_packetHistory h) p) as [_ Hc]; [pose proof (rpi_range _ Hinv); zpow; lia|apply Hinv|].
    cbn [SetLowerLimit set_history rp_packetHistory]. rewrite Hc, IH, to_ack_limit. done.
  - unfold GetAckFrame in E. case_test; [by simplify_eq|]. destruct (history_GetAckRanges _); [done|]. injection E as <- _. done.
Qed.

Lemma acked_received tr q : to_ack tr q -> RReceived q ∈ tr.
Proof. intros (pre & post & -> & _). apply elem_of_app. right. left. Qed.

Lemma received_acked tr q : 0 < q -> RReceived q ∈ tr -> (forall p, RLimit p ∈ tr -> p < q) -> to_ack tr q.
Proof.
  intros Hq (pre & post & ->)%list_elem_of_split Hl. exists pre, post. split; [done|]. split.
  - assert (Hpre : forall p, RLimit p ∈ pre -> p < q) by (intros p Hp; apply Hl, elem_of_app; by left). clear Hl.
    induction pre as [|e pre IH] using rev_ind; [done|]. rewrite limit_of_snoc.
    destruct e as [pn|p]; [|apply Hpre, elem_of_app; right; by apply list_elem_of_singleton].
    apply IH. intros p Hp. apply Hpre, elem_of_app. by left.
  - apply list.Forall_forall. intros [pn|p] Hin; [done|]. apply Hl, elem_of_app. right. by right.
Qed.

(** C16: in every state a path's receive side can reach, with packet numbers below 2^48 and until a reception
    fails, asking for an ACK frame
    never panics, and a frame it returns is a valid ACK frame that acknowledges
    exactly the packets that are to be acknowledged: those that were received above the lower limit of that time, and
    are above every limit that was set since then.  No packet that was not received is acknowledged, and no received packet
    is left out that is above all limits that were set. *)
Theorem GetAckFrame_exact version tr h now :
  rp_run version tr h ->
  exists h' res, GetAckFrame h now = Ok (h', res) /\
    forall f, res = Some f -> AckFrame_wf 1 f /\
      forall q, (AckFrame_AcksPacket f q = true <-> to_ack tr q) /\
        (AckFrame_AcksPacket f q = true -> RReceived q ∈ tr) /\
        (0 < q -> RReceived q ∈ tr -> (forall p, RLimit p ∈ tr -> p < q) -> AckFrame_AcksPacket f q = true).
Proof.
  intros Hrun. destruct (rp_run_history version tr h Hrun) as [_ Hhist].
  pose proof (rp_reachable_inv _ _ (rp_run_reachable _ _ _ Hrun)) as Hinv.
  enough (Hex : exists h' res, GetAckFrame h now = Ok (h', res) /\ forall f, res = Some f -> AckFrame_wf 1 f /\
    forall q, AckFrame_AcksPacket f q = true <-> contains (rp_packetHistory h) q).
  { destruct Hex as (h' & res & E & Hf). exists h', res. split; [done|]. intros f Ef. destruct (Hf f Ef) as [Hwf Ha]. split; [done|].
    intros q. rewrite Ha, Hhist. split; [done|]. split; [apply acked_received|apply received_acked]. }
  unfold GetAckFrame.
  destruct (negb (rp_ackQueued h) && _) eqn:Edue.
  - eexists _, _. split; [done|]. by intros f [=].
  - assert (Hpos : 0 < rp_largestObserved h).
    { apply (rpi_due _ Hinv). apply andb_false_iff in Edue as [Ed|Ed].
      - apply negb_false_iff in Ed. by left.
      - apply orb_false_iff in Ed as [Ed _]. unfold IsZero in Ed. apply Z.eqb_neq in Ed. by right. }
    destruct (history_GetAckRanges (rp_packetHistory h)) as [|first rest] eqn:E;
      [by apply due_nonempty in E|].
    destruct (built_ranges h first rest Hinv E) as [Hwf Hacks].
    eexists _, _. split; [done|]. intros f [= <-]. split.
    + split_and!; cbn; [done..|apply (rpi_range _ Hinv)|done].
    + apply Hacks.
Qed.

Definition example_receiver : receivedPacketHandler :=
  fst (handler_ReceivedPacket (fst (handler_ReceivedPacket (NewReceivedPacketHandler VersionMP) 1 true 100))
         3 true 200).

Lemma GetAckFrame_exact_witness :
  exists h' f, GetAckFrame example_receiver 300 = Ok (h', Some f) /\ AckFrame_wf 1 f /\ ack_LargestAcked f = 3 /\
    AckFrame_AcksPacket f 1 = true /\ AckFrame_AcksPacket f 2 = false.
Proof.
  destruct (GetAckFrame_exact VersionMP [RReceived 1; RReceived 3] example_receiver 300) as (h' & res & E & H).
  - apply (rr_received VersionMP [RReceived 1] (fst (handler_ReceivedPacket (NewReceivedPacketHandler VersionMP) 1 true 100)) 3 true 200);
      [|lia|reflexivity].
    apply (rr_received VersionMP [] (NewReceivedPacketHandler VersionMP) 1 true 100); [constructor|lia|reflexivity].
  - assert (Ef : (match GetAckFrame example_receiver 300 with Ok (_, Some f) => ack_LargestAcked f | _ => 0 end) = 3) by (vm_compute; reflexivity).
    rewrite E in Ef. destruct res as [f|]; [|discriminate Ef]. exists h', f. destruct (H f eq_refl) as [Hwf Hq].
    split; [exact E|]. split; [exact Hwf|]. split; [exact Ef|]. split.
    + apply (Hq 1); [lia|left|]. intros p Hp. apply list_elem_of_In in Hp. destruct Hp as [[=]|[[=]|[]]].
    + apply not_true_is_false. intros Ha. apply (Hq 2), list_elem_of_In in Ha. destruct Ha as [[=]|[[=]|[]]].
Defined.

(** Acknowledgements are not delayed: once a retransmittable packet above
    the lower limit was recorded at time [t], asking for an ACK frame at any
    time from [t + AckSendDelay] on gives one, unless the alarm that is already
    running was set for later than that. *)
Theorem ack_delay_bounded version h pn t h' now :
  rp_reachable version h -> 0 < pn < 2 ^ 48 -> rp_lowerLimit h < pn ->
  handler_ReceivedPacket h pn true t = (h', None) ->
  0 < t ->
  (rp_ackAlarm h = zeroTime \/ 0 < rp_ackAlarm h <= t + AckSendDelay) ->
  t + AckSendDelay <= now ->
  exists h'' f, GetAckFrame h' now = Ok (h'', Some f) /\ AckFrame_AcksPacket f pn = true.
Proof.
  intros Hr Hpn Hlim E Ht Halarm Hnow.
  pose proof (rp_inv_received _ _ _ _ _ (rp_reachable_inv _ _ Hr) Hpn E) as Hinv'.
  pose proof (rp_reachable_inv _ _ Hr) as Hinv. pose proof (rpi_delay _ Hinv) as Hdelay.
  assert (Hc : contains (rp_packetHistory h') pn /\ rp_ackQueued h' = true \/
    contains (rp_packetHistory h') pn /\ 0 < rp_ackAlarm h' <= t + AckSendDelay).
  { unfold handler_ReceivedPacket in E. rewrite (proj2 (Z.eqb_neq _ _)) in E by lia.
    unfold observePacket in E. cbn [rp_lowerLimit rp_packetHistory] in E.
    rewrite (proj2 (Z.leb_gt _ _)) in E by lia.
    destruct (history_ReceivedPacket (rp_packetHistory h) pn) as [hist|e|] eqn:EH; [|done|].
    2:{ unfold history_ReceivedPacket in EH. destruct (_ >=? _); done. }
    destruct (history_received_spec _ _ _ (ltac:(zpow; lia) : 1 <= pn < 2 ^ 64 - 1) (rpi_intervals _ Hinv) EH)
      as [_ Hc']. injection E as <-.
    match goal with |- context [maybeQueueAck ?h0 _ _ _] =>
      destruct (maybeQueueAck_same h0 pn true t) as (_ & _ & F3 & _) end.
    rewrite F3. cbn [set_history rp_packetHistory].
    assert (contains hist pn) by (apply Hc'; by left).
    unfold maybeQueueAck, AckSendDelay, Millisecond, timeAdd, IsZero, zeroTime in *.
    cbn [set_history rp_ackQueued rp_ackAlarm rp_lastAck rp_version rp_ackSendDelay
      rp_packetsReceivedSinceLastAck rp_retransmittablePacketsReceivedSinceLastAck rp_packetHistory].
    rewrite Hdelay. destruct (rp_lastAck h) as [la|]; repeat case_test;
      cbn [rp_ackQueued rp_ackAlarm]; auto; right; split; auto; lia. }
  assert (Hg : rp_largestObserved h' > 0).
  { destruct Hc as [[Hc _]|[Hc _]]; apply (rpi_max _ Hinv') in Hc; lia. }
  destruct (history_GetAckRanges (rp_packetHistory h')) as [|first rest] eqn:Er.
  { by apply due_nonempty in Er; [|done|lia]. }
  destruct (built_ranges h' first rest Hinv' Er) as [Hwf Hacks].
  unfold GetAckFrame. rewrite Er.
  destruct (negb (rp_ackQueued h') && (IsZero (rp_ackAlarm h') || (rp_ackAlarm h' >? now))) eqn:Ed.
  { exfalso. apply andb_true_iff in Ed as [Ed1 Ed2]. apply negb_true_iff in Ed1.
    destruct Hc as [[_ Hq]|[_ Ha]]; [congruence|]. unfold IsZero, zeroTime in Ed2.
    apply orb_true_iff in Ed2 as [Ed2|Ed2]; bool_to_prop; lia. }
  eexists _, _. split; [done|]. apply Hacks. by destruct Hc as [[? _]|[? _]].
Qed.

Lemma ack_delay_bounded_witness :
  exists h'' f, GetAckFrame (fst (handler_ReceivedPacket (NewReceivedPacketHandler VersionMP) 1 true 100))
    (100 + AckSendDelay) = Ok (h'', Some f) /\ AckFrame_AcksPacket f 1 = true.
Proof.
  apply (ack_delay_bounded VersionMP (NewReceivedPacketHandler VersionMP) 1 100
    (fst (handler_ReceivedPacket (NewReceivedPacketHandler VersionMP) 1 true 100)) (100 + AckSendDelay)).
  - apply rtc_refl.
  - lia.
  - cbn. lia.
  - reflexivity.
  - lia.
  - left. reflexivity.
  - lia.
Defined.
