(* ===== verification/Float32.v ===== *)
(** * Floating point arithmetic

    A Go [float32] is an IEEE 754 binary32 number; its operations round to
    nearest even.  The model is the executable specification of the Standard
    Library at that precision; [float64] is the same at its precision.  A multiplication followed by an addition is
    rounded twice, as the compiler does where the processor has no fused
    operation (amd64). *)
From Stdlib Require Export SpecFloat.
From S2P Require Import Prelude.

Definition float32 : Type := spec_float.

Definition f32_prec : Z := 24.
Definition f32_emax : Z := 128.

(** [float32(n)] of an integer. *)
Definition f32_of_Z (n : Z) : float32 := binary_normalize f32_prec f32_emax n 0 false.

Definition f32_add (a b : float32) : float32 := SFadd f32_prec f32_emax a b.
Definition f32_sub (a b : float32) : float32 := SFsub f32_prec f32_emax a b.
Definition f32_mul (a b : float32) : float32 := SFmul f32_prec f32_emax a b.
Definition f32_div (a b : float32) : float32 := SFdiv f32_prec f32_emax a b.

(** Conversion to an integer type: the fraction is discarded.  The value of an
    infinity or a NaN is not specified by the language and is 0 here. *)
Definition f32_trunc (a : float32) : Z :=
  match a with
  | S754_finite s m e => (if s then Z.opp else id) (Z.shiftl (Z.pos m) e)
  | _ => 0
  end.

(** The decimal constant [n / d], rounded. *)
Definition f32_const (n d : Z) : float32 := f32_div (f32_of_Z n) (f32_of_Z d).

Lemma f32_trunc_nonneg m e : 0 <= f32_trunc (S754_finite false m e).
Proof. simpl. apply Z.shiftl_nonneg. done. Qed.

(** [float64], likewise. *)
Definition f64_of_Z (n : Z) : spec_float := binary_normalize 53 1024 n 0 false.
Definition f64_mul (a b : spec_float) : spec_float := SFmul 53 1024 a b.
Definition f64_div (a b : spec_float) : spec_float := SFdiv 53 1024 a b.
Definition f64_trunc (a : spec_float) : Z := f32_trunc a.

(** ** Numbers from one on stay from one on

    Rounding never moves a number across one, which is representable: the
    quotient of a number from one on and a divisor of at most one is not
    truncated to zero. *)

(** [m * 2^e] is at least one and of magnitude at most [2^k]. *)
Definition ge_one (k m e : Z) : Prop := 0 < m /\ (e <= 0 -> 2 ^ (- e) <= m) /\ Zdigits2 m + e <= k.

Lemma digits2_bound p : 2 ^ (Z.pos (digits2_pos p) - 1) <= Z.pos p < 2 ^ Z.pos (digits2_pos p).
Proof.
  induction p as [p IH|p IH|]; cbn [digits2_pos].
  - rewrite Pos2Z.inj_succ. replace (Z.succ (Z.pos (digits2_pos p)) - 1) with (Z.pos (digits2_pos p)) by lia.
    rewrite Z.pow_succ_r by lia. rewrite (Pos2Z.inj_xI p). split; [|lia].
    replace (Z.pos (digits2_pos p)) with (Z.succ (Z.pos (digits2_pos p) - 1)) by lia. rewrite Z.pow_succ_r by lia. lia.
  - rewrite Pos2Z.inj_succ. replace (Z.succ (Z.pos (digits2_pos p)) - 1) with (Z.pos (digits2_pos p)) by lia.
    rewrite Z.pow_succ_r by lia. rewrite (Pos2Z.inj_xO p). split; [|lia].
    replace (Z.pos (digits2_pos p)) with (Z.succ (Z.pos (digits2_pos p) - 1)) by lia. rewrite Z.pow_succ_r by lia. lia.
  - cbn. lia.
Qed.

Lemma Zdigits2_bound m : 0 < m -> 2 ^ (Zdigits2 m - 1) <= m < 2 ^ Zdigits2 m.
Proof. destruct m as [|p|p]; [done| |done]. intros _. apply digits2_bound. Qed.

Lemma Zdigits2_le m d : 0 < m < 2 ^ d -> Zdigits2 m <= d.
Proof.
  intros Hm. destruct (Zdigits2_bound m) as [Hl _]; [lia|]. destruct (Z.le_gt_cases (Zdigits2 m) d) as [|Hgt]; [done|].
  exfalso. assert (2 ^ d <= 2 ^ (Zdigits2 m - 1)); [|lia]. apply Z.pow_le_mono_r; lia.
Qed.

Lemma shr_1_m r : 0 <= shr_m r -> shr_m (shr_1 r) = shr_m r / 2.
Proof.
  destruct r as [m b s]. cbn. destruct m as [|p|p]; [done| |lia]. intros _. destruct p as [p|p|]; cbn [shr_m].
  - rewrite Pos2Z.inj_xI. apply (Z.div_unique _ 2 (Z.pos p) 1); lia.
  - rewrite Pos2Z.inj_xO. apply (Z.div_unique _ 2 (Z.pos p) 0); lia.
  - done.
Qed.

Lemma iter_shr_m p r : 0 <= shr_m r -> shr_m (SpecFloat.iter_pos shr_1 p r) = shr_m r / 2 ^ Z.pos p.
Proof.
  revert r. induction p as [p IH|p IH|]; intros r Hr; cbn [SpecFloat.iter_pos].
  - assert (0 <= shr_m (shr_1 r)) by (rewrite shr_1_m by done; apply Z.div_pos; lia).
    assert (0 <= shr_m (SpecFloat.iter_pos shr_1 p (shr_1 r))) by (rewrite IH by done; apply Z.div_pos; lia).
    rewrite IH, IH, shr_1_m by done. rewrite !Z.div_div by lia. f_equal.
    rewrite <- Z.pow_add_r by lia. replace 2 with (2 ^ 1) at 1 by done. rewrite <- Z.pow_add_r by lia. f_equal. lia.
  - assert (0 <= shr_m (SpecFloat.iter_pos shr_1 p r)) by (rewrite IH by done; apply Z.div_pos; lia).
    rewrite IH, IH by done. rewrite Z.div_div by lia. f_equal. rewrite <- Z.pow_add_r by lia. f_equal. lia.
  - rewrite shr_1_m by done. done.
Qed.

Lemma shr_m_of_loc m l : shr_m (shr_record_of_loc m l) = m.
Proof. by destruct l as [|[]]. Qed.

Lemma shr_fexp_ge_one k m e l :
  k <= 100 -> e <= 100 -> ge_one k m e ->
  let '(mrs, e') := shr_fexp f32_prec f32_emax m e l in ge_one k (shr_m mrs) e' /\ e' <= 100.
Proof.
  intros Hk He (Hm & Hge & Hd). destruct (Zdigits2_bound m Hm) as [B1 B2].
  unfold shr_fexp, shr. set (n := fexp f32_prec f32_emax (Zdigits2 m + e) - e).
  assert (Hn : n = Z.max (Zdigits2 m - 24) (-149 - e)) by (unfold n, fexp, emin, f32_prec, f32_emax; lia).
  destruct n as [|p|p] eqn:En; [by rewrite shr_m_of_loc| |by rewrite shr_m_of_loc].
  rewrite iter_shr_m, shr_m_of_loc by (rewrite shr_m_of_loc; lia).
  assert (Hdiv : 2 ^ (Z.pos p) * (m / 2 ^ Z.pos p) <= m) by (apply Z.mul_div_le; lia).
  assert (Hpos : 0 < 2 ^ Z.pos p) by lia.
  assert (Hq : e + Z.pos p <= 0 -> 2 ^ (- (e + Z.pos p)) <= m / 2 ^ Z.pos p).
  { intros Hle. apply Z.div_le_lower_bound; [lia|]. rewrite <- Z.pow_add_r by lia.
    replace (Z.pos p + - (e + Z.pos p)) with (- e) by lia. apply Hge. lia. }
  assert (Hp' : 0 < m / 2 ^ Z.pos p).
  { destruct (Z.le_gt_cases (e + Z.pos p) 0) as [Hle|Hgt].
    - specialize (Hq Hle). pose proof (Z.pow_pos_nonneg 2 (- (e + Z.pos p))). lia.
    - apply Z.div_str_pos. split; [lia|]. apply (Z.le_trans _ (2 ^ (Zdigits2 m - 1))); [|done].
      apply Z.pow_le_mono_r; lia. }
  split; [split; [done|]; split; [done|]|lia].
  assert (Zdigits2 (m / 2 ^ Z.pos p) <= Zdigits2 m - Z.pos p); [|lia].
  assert (Z.pos p < Zdigits2 m).
  { destruct (Z.le_gt_cases (Zdigits2 m) (Z.pos p)) as [Hle|]; [|done]. exfalso.
    rewrite Z.div_small in Hp'; [lia|]. split; [lia|]. apply (Z.lt_le_trans _ _ _ B2), Z.pow_le_mono_r; lia. }
  apply Zdigits2_le. split; [done|]. apply Z.div_lt_upper_bound; [lia|]. rewrite <- Z.pow_add_r by lia.
  replace (Z.pos p + (Zdigits2 m - Z.pos p)) with (Zdigits2 m) by lia. done.
Qed.

Lemma round_up_ge_one k m e l : ge_one k m e -> ge_one (k + 1) (round_nearest_even m l) e.
Proof.
  intros (Hm & Hge & Hd). destruct (Zdigits2_bound m Hm) as [_ B2].
  assert (Hr : m <= round_nearest_even m l <= m + 1) by (destruct l as [|[]]; cbn; try case_match; lia).
  split; [lia|]. split; [intros He; specialize (Hge He); lia|].
  assert (Zdigits2 (round_nearest_even m l) <= Zdigits2 m + 1); [|lia]. apply Zdigits2_le.
  assert (0 <= Zdigits2 m) by (destruct m; cbn; lia). rewrite Z.pow_add_r by lia. lia.
Qed.

Lemma binary_round_aux_ge_one k m e l :
  k <= 99 -> e <= 100 -> ge_one k m e ->
  exists m' e', binary_round_aux f32_prec f32_emax false m e l = S754_finite false m' e' /\
    ge_one (k + 1) (Z.pos m') e' /\ e' <= 100.
Proof.
  intros Hk He H. unfold binary_round_aux.
  pose proof (shr_fexp_ge_one k m e l ltac:(lia) He H) as H1.
  destruct (shr_fexp f32_prec f32_emax m e l) as [mrs e1]. destruct H1 as [H1 He1].
  apply (round_up_ge_one k _ _ (loc_of_shr_record mrs)) in H1.
  pose proof (shr_fexp_ge_one (k + 1) _ e1 loc_Exact ltac:(lia) He1 H1) as H2.
  destruct (shr_fexp f32_prec f32_emax _ e1 loc_Exact) as [mrs2 e2]. destruct H2 as [H2 He2].
  destruct (shr_m mrs2) as [|m'|m'] eqn:Em; try (destruct H2; lia).
  rewrite (proj2 (Z.leb_le _ _)) by (unfold f32_emax, f32_prec; lia). by exists m', e2.
Qed.

Lemma f32_of_Z_ge_one n k :
  1 <= n < 2 ^ k -> k <= 64 ->
  exists m e, f32_of_Z n = S754_finite false m e /\ ge_one (k + 1) (Z.pos m) e /\ e <= 100.
Proof.
  intros Hn Hk. destruct n as [|p|p]; [lia| |lia]. unfold f32_of_Z, binary_normalize, binary_round.
  destruct (digits2_bound p) as [B1 B2].
  assert (Hd : Z.pos (digits2_pos p) <= k) by (apply (Zdigits2_le (Z.pos p)); lia).
  set (d := Z.pos (digits2_pos p)) in *. unfold shl_align.
  assert (Hf : fexp f32_prec f32_emax (d + 0) - 0 = d - 24) by (unfold fexp, emin, f32_prec, f32_emax; lia).
  destruct (fexp f32_prec f32_emax (d + 0) - 0) as [|q|q] eqn:E;
    try (apply (binary_round_aux_ge_one k); [lia|lia|]; split; [lia|]; split; [cbn; lia|cbn; lia]).
  replace (fexp f32_prec f32_emax (d + 0)) with (Z.neg q) by lia.
  assert (Hit : Z.pos (Pos.iter xO p q) = Z.pos p * 2 ^ Z.pos q).
  { clear. induction q as [|q IH] using Pos.peano_ind; [cbn; lia|].
    rewrite Pos.iter_succ, Pos2Z.inj_succ, Z.pow_succ_r, Pos2Z.inj_xO by lia. lia. }
  apply (binary_round_aux_ge_one k); [lia|lia|]. rewrite Hit.
  split; [lia|]. split; [intros _; change (- Z.neg q) with (Z.pos q); nia|].
  assert (Zdigits2 (Z.pos p * 2 ^ Z.pos q) <= d + Z.pos q); [|lia]. apply Zdigits2_le.
  rewrite Z.pow_add_r by lia. nia.
Qed.

Lemma trunc_ge_one k m e :
  ge_one k (Z.pos m) e -> 1 <= f32_trunc (S754_finite false m e) < 2 ^ k.
Proof.
  intros (_ & G & Hd). cbn [f32_trunc id]. destruct (Zdigits2_bound (Z.pos m)) as [_ B]; [lia|].
  assert (Hp : 0 <= Zdigits2 (Z.pos m)) by (cbn; lia).
  destruct (Z.le_gt_cases e 0) as [Hle|Hgt].
  - specialize (G Hle). replace e with (- (- e)) by lia. rewrite Z.shiftl_opp_r, Z.shiftr_div_pow2 by lia.
    pose proof (Z.pow_pos_nonneg 2 (- e)). split; [apply Z.div_le_lower_bound; lia|].
    assert (Hlt : 2 ^ (- e) < 2 ^ Zdigits2 (Z.pos m)) by lia.
    apply Z.pow_lt_mono_r_iff in Hlt; [|lia|done].
    apply Z.div_lt_upper_bound; [lia|]. rewrite <- Z.pow_add_r by lia.
    apply (Z.lt_le_trans _ _ _ B), Z.pow_le_mono_r; lia.
  - rewrite Z.shiftl_mul_pow2 by lia. pose proof (Z.pow_pos_nonneg 2 e). split; [nia|].
    apply (Z.lt_le_trans _ (2 ^ Zdigits2 (Z.pos m) * 2 ^ e)); [nia|].
    rewrite <- Z.pow_add_r by lia. apply Z.pow_le_mono_r; lia.
Qed.

(** Dividing by a number from a half to one. *)
Lemma f32_div_ge_one n k ma :
  1 <= n < 2 ^ k -> k <= 64 -> Zdigits2 (Z.pos ma) = 24 ->
  1 <= f32_trunc (f32_div (f32_of_Z n) (S754_finite false ma (-24))) < 2 ^ (k + 3).
Proof.
  intros Hn Hk Hma. destruct (f32_of_Z_ge_one n k Hn Hk) as (m & e & -> & (Hm & Hge & Hd) & He).
  destruct (Zdigits2_bound (Z.pos ma)) as [Ba1 Ba]; [lia|]. rewrite Hma in Ba1, Ba.
  destruct (Zdigits2_bound (Z.pos m)) as [Bm _]; [lia|].
  unfold f32_div, SFdiv, SFdiv_core_binary. rewrite Hma. set (d := Zdigits2 (Z.pos m)) in *.
  assert (Hd1 : 1 <= d) by (unfold d; cbn; lia).
  set (e' := Z.min (fexp f32_prec f32_emax (d + e - (24 + -24))) (e - -24)).
  assert (He' : e' = Z.min (Z.max (d + e - 24) (-149)) (e + 24)) by (unfold e', fexp, emin, f32_prec, f32_emax; lia).
  set (s := e - -24 - e'). assert (Hs : 0 <= s) by lia.
  assert (Em : match s with Z0 => Z.pos m | Zpos _ => Z.shiftl (Z.pos m) s | Zneg _ => 0 end = Z.pos m * 2 ^ s).
  { destruct s as [|q|q]; [lia|by rewrite Z.shiftl_mul_pow2|lia]. }
  rewrite Em. pose proof (Z_div_mod (Z.pos m * 2 ^ s) (Z.pos ma) ltac:(lia)) as Hdiv.
  destruct (Z.div_eucl (Z.pos m * 2 ^ s) (Z.pos ma)) as [q r]. destruct Hdiv as [Hq Hr].
  assert (Hqd : q = Z.pos m * 2 ^ s / Z.pos ma) by (apply (Z.div_unique _ _ _ r); lia).
  assert (H1 : e' <= 0 -> 2 ^ (- e') <= q).
  { intros Hle. rewrite Hqd. apply Z.div_le_lower_bound; [lia|].
    assert (2 ^ (24 + - e') <= Z.pos m * 2 ^ s); [|rewrite Z.pow_add_r in H by lia; nia].
    destruct (Z.le_gt_cases e 0) as [Hle'|Hgt].
    - specialize (Hge Hle'). replace (24 + - e') with (- e + s) by lia. rewrite Z.pow_add_r by lia. nia.
    - assert (2 ^ (24 + - e') <= 2 ^ s) by (apply Z.pow_le_mono_r; lia). nia. }
  assert (H2 : 0 < q).
  { destruct (Z.le_gt_cases e' 0) as [Hle|Hgt]; [specialize (H1 Hle); pose proof (Z.pow_pos_nonneg 2 (- e')); lia|].
    rewrite Hqd. apply Z.div_str_pos. split; [lia|]. assert (2 ^ 24 <= Z.pos m * 2 ^ s); [|lia].
    apply (Z.le_trans _ (2 ^ (d - 1) * 2 ^ s)); [|nia]. rewrite <- Z.pow_add_r by lia. apply Z.pow_le_mono_r; lia. }
  destruct (binary_round_aux_ge_one (k + 2) q e' (new_location (Z.pos ma) r)) as (m' & e2 & E2 & G & _).
  - lia.
  - lia.
  - split; [done|]. split; [done|]. assert (Zdigits2 q <= d + s - 23); [|lia]. apply Zdigits2_le. split; [done|].
    destruct (Zdigits2_bound (Z.pos m)) as [_ Bm2]; [lia|]. fold d in Bm2.
    assert (Hms : Z.pos m * 2 ^ s < 2 ^ (d + s)) by (rewrite Z.pow_add_r by lia; apply Z.mul_lt_mono_pos_r; lia).
    assert (2 ^ 23 <= Z.pos m * 2 ^ s) by nia.
    assert (23 <= d + s) by (apply Z.lt_le_incl, (Z.pow_lt_mono_r_iff 2); lia).
    rewrite Hqd. apply Z.div_lt_upper_bound; [lia|].
    replace (d + s) with (23 + (d + s - 23)) in Hms by lia. rewrite Z.pow_add_r in Hms by lia.
    pose proof (Z.pow_pos_nonneg 2 (d + s - 23)). nia.
  - cbn [xorb]. rewrite E2. replace (k + 3) with (k + 2 + 1) by lia. by apply trunc_ge_one.
Qed.
