(* ===== verification/RttStats.v ===== *)
(** * Round-trip time statistics (congestion/rtt_stats.go)

    The smoothed round-trip time and its deviation, the minimum over the
    connection and the windowed minimum. *)
From S2P Require Import Prelude Protocol Float32.

(** ** Constants *)

Definition InfDuration : Z := 2 ^ 63 - 1.
Definition initialRTTus_default : Z := 100 * 1000.
Definition rttAlpha : float32 := f32_const 1 8.
Definition oneMinusAlpha : float32 := f32_const 7 8.
Definition rttBeta : float32 := f32_const 1 4.
Definition oneMinusBeta : float32 := f32_const 3 4.
Definition halfWindow : float32 := f32_const 1 2.
Definition quarterWindow : float32 := f32_const 1 4.

Definition AbsDuration (d : Z) : Z := if d >=? 0 then d else i64 (- d).

(** ** State *)

Record rttSample : Type := { rs_rtt : Z; rs_time : Z }.
Definition zeroSample : rttSample := {| rs_rtt := 0; rs_time := zeroTime |}.

Record RTTStats : Type := {
  rtt_initialRTTus : Z;
  rtt_recentMinRTTwindow : Z;
  rtt_minRTT : Z;
  rtt_maxRTT : Z;
  rtt_latestRTT : Z;
  rtt_smoothedRTT : Z;
  rtt_meanDeviation : Z;
  rtt_numMinRTTsamplesRemaining : Z;
  rtt_newMinRTT : rttSample;
  rtt_recentMinRTT : rttSample;
  rtt_halfWindowRTT : rttSample;
  rtt_quarterWindowRTT : rttSample;
}.

Definition NewRTTStats : RTTStats := {|
  rtt_initialRTTus := initialRTTus_default; rtt_recentMinRTTwindow := InfDuration;
  rtt_minRTT := 0; rtt_maxRTT := 0; rtt_latestRTT := 0; rtt_smoothedRTT := 0; rtt_meanDeviation := 0;
  rtt_numMinRTTsamplesRemaining := 0; rtt_newMinRTT := zeroSample; rtt_recentMinRTT := zeroSample;
  rtt_halfWindowRTT := zeroSample; rtt_quarterWindowRTT := zeroSample |}.

Definition SetRecentMinRTTwindow (r : RTTStats) (w : Z) : RTTStats := {|
  rtt_initialRTTus := rtt_initialRTTus r; rtt_recentMinRTTwindow := w;
  rtt_minRTT := rtt_minRTT r; rtt_maxRTT := rtt_maxRTT r; rtt_latestRTT := rtt_latestRTT r;
  rtt_smoothedRTT := rtt_smoothedRTT r; rtt_meanDeviation := rtt_meanDeviation r;
  rtt_numMinRTTsamplesRemaining := rtt_numMinRTTsamplesRemaining r; rtt_newMinRTT := rtt_newMinRTT r;
  rtt_recentMinRTT := rtt_recentMinRTT r; rtt_halfWindowRTT := rtt_halfWindowRTT r;
  rtt_quarterWindowRTT := rtt_quarterWindowRTT r |}.

(** The four samples and the number of samples left. *)
Definition set_samples (r : RTTStats) (n : Z) (new recent half quarter : rttSample) : RTTStats := {|
  rtt_initialRTTus := rtt_initialRTTus r; rtt_recentMinRTTwindow := rtt_recentMinRTTwindow r;
  rtt_minRTT := rtt_minRTT r; rtt_maxRTT := rtt_maxRTT r; rtt_latestRTT := rtt_latestRTT r;
  rtt_smoothedRTT := rtt_smoothedRTT r; rtt_meanDeviation := rtt_meanDeviation r;
  rtt_numMinRTTsamplesRemaining := n; rtt_newMinRTT := new;
  rtt_recentMinRTT := recent; rtt_halfWindowRTT := half; rtt_quarterWindowRTT := quarter |}.

(** ** [updateRecentMinRTT] *)

(** Sampling a new recent minimum. *)
Definition sampleNewMin (r : RTTStats) (sample now : Z) : RTTStats :=
  if rtt_numMinRTTsamplesRemaining r >? 0 then
    let n := rtt_numMinRTTsamplesRemaining r - 1 in
    let new := if (rs_rtt (rtt_newMinRTT r) =? 0) || (sample <=? rs_rtt (rtt_newMinRTT r))
               then {| rs_rtt := sample; rs_time := now |} else rtt_newMinRTT r in
    if n =? 0 then set_samples r n new new new new
    else set_samples r n new (rtt_recentMinRTT r) (rtt_halfWindowRTT r) (rtt_quarterWindowRTT r)
  else r.

(** The three recent samples. *)
Definition updateThree (r : RTTStats) (sample now : Z) : RTTStats :=
  let s := {| rs_rtt := sample; rs_time := now |} in
  let n := rtt_numMinRTTsamplesRemaining r in
  let new := rtt_newMinRTT r in
  if (rs_rtt (rtt_recentMinRTT r) =? 0) || (sample <=? rs_rtt (rtt_recentMinRTT r))
  then set_samples r n new s s s
  else if sample <=? rs_rtt (rtt_halfWindowRTT r)
  then set_samples r n new (rtt_recentMinRTT r) s s
  else if sample <=? rs_rtt (rtt_quarterWindowRTT r)
  then set_samples r n new (rtt_recentMinRTT r) (rtt_halfWindowRTT r) s
  else r.

(** [-time.Duration(float32(window/time.Microsecond)*fraction) * time.Microsecond]. *)
Definition windowFraction (window : Z) (fraction : float32) : Z :=
  i64 (i64 (- f32_trunc (f32_mul (f32_of_Z (Z.quot window Microsecond)) fraction)) * Microsecond).

Definition timeBefore (a b : Z) : bool := a <? b.

Definition expireOld (r : RTTStats) (sample now : Z) : RTTStats :=
  let s := {| rs_rtt := sample; rs_time := now |} in
  let n := rtt_numMinRTTsamplesRemaining r in
  let new := rtt_newMinRTT r in
  let window := rtt_recentMinRTTwindow r in
  if timeBefore (rs_time (rtt_recentMinRTT r)) (timeAdd now (i64 (- window)))
  then set_samples r n new (rtt_halfWindowRTT r) (rtt_quarterWindowRTT r) s
  else if timeBefore (rs_time (rtt_halfWindowRTT r)) (timeAdd now (windowFraction window halfWindow))
  then set_samples r n new (rtt_recentMinRTT r) (rtt_quarterWindowRTT r) s
  else if timeBefore (rs_time (rtt_quarterWindowRTT r)) (timeAdd now (windowFraction window quarterWindow))
  then set_samples r n new (rtt_recentMinRTT r) (rtt_halfWindowRTT r) s
  else r.

Definition updateRecentMinRTT (r : RTTStats) (sample now : Z) : RTTStats :=
  expireOld (updateThree (sampleNewMin r sample now) sample now) sample now.

(** ** [UpdateRTT] *)

Definition set_minmax (r : RTTStats) (mn mx : Z) : RTTStats := {|
  rtt_initialRTTus := rtt_initialRTTus r; rtt_recentMinRTTwindow := rtt_recentMinRTTwindow r;
  rtt_minRTT := mn; rtt_maxRTT := mx; rtt_latestRTT := rtt_latestRTT r;
  rtt_smoothedRTT := rtt_smoothedRTT r; rtt_meanDeviation := rtt_meanDeviation r;
  rtt_numMinRTTsamplesRemaining := rtt_numMinRTTsamplesRemaining r; rtt_newMinRTT := rtt_newMinRTT r;
  rtt_recentMinRTT := rtt_recentMinRTT r; rtt_halfWindowRTT := rtt_halfWindowRTT r;
  rtt_quarterWindowRTT := rtt_quarterWindowRTT r |}.

Definition set_smoothed (r : RTTStats) (latest smoothed meanDev : Z) : RTTStats := {|
  rtt_initialRTTus := rtt_initialRTTus r; rtt_recentMinRTTwindow := rtt_recentMinRTTwindow r;
  rtt_minRTT := rtt_minRTT r; rtt_maxRTT := rtt_maxRTT r; rtt_latestRTT := latest;
  rtt_smoothedRTT := smoothed; rtt_meanDeviation := meanDev;
  rtt_numMinRTTsamplesRemaining := rtt_numMinRTTsamplesRemaining r; rtt_newMinRTT := rtt_newMinRTT r;
  rtt_recentMinRTT := rtt_recentMinRTT r; rtt_halfWindowRTT := rtt_halfWindowRTT r;
  rtt_quarterWindowRTT := rtt_quarterWindowRTT r |}.

Definition us32 (d : Z) : float32 := f32_of_Z (Z.quot d Microsecond).

Definition newMeanDeviation (meanDeviation smoothed sample : Z) : Z :=
  i64 (f32_trunc (f32_add (f32_mul oneMinusBeta (us32 meanDeviation))
                          (f32_mul rttBeta (us32 (AbsDuration (i64 (smoothed - sample)))))) * Microsecond).

Definition newSmoothedRTT (smoothed sample : Z) : Z :=
  i64 (f32_trunc (f32_add (f32_mul (us32 smoothed) oneMinusAlpha)
                          (f32_mul (us32 sample) rttAlpha)) * Microsecond).

Definition UpdateRTT (r : RTTStats) (sendDelta ackDelay now : Z) : RTTStats :=
  if (sendDelta =? InfDuration) || (sendDelta <=? 0) then r
  else
  let r := set_minmax r
    (if (rtt_minRTT r =? 0) || (rtt_minRTT r >? sendDelta) then sendDelta else rtt_minRTT r)
    (if rtt_maxRTT r <? sendDelta then sendDelta else rtt_maxRTT r) in
  let r := updateRecentMinRTT r sendDelta now in
  let sample := if sendDelta >? ackDelay then i64 (sendDelta - ackDelay) else sendDelta in
  if rtt_smoothedRTT r =? 0 then set_smoothed r sample sample (Z.quot sample 2)
  else set_smoothed r sample (newSmoothedRTT (rtt_smoothedRTT r) sample)
         (newMeanDeviation (rtt_meanDeviation r) (rtt_smoothedRTT r) sample).

(** ** The other operations *)

Definition SampleNewRecentMinRTT (r : RTTStats) (numSamples : Z) : RTTStats :=
  set_samples r numSamples zeroSample (rtt_recentMinRTT r) (rtt_halfWindowRTT r) (rtt_quarterWindowRTT r).

Definition rtt_OnConnectionMigration (r : RTTStats) : RTTStats := {|
  rtt_initialRTTus := initialRTTus_default; rtt_recentMinRTTwindow := InfDuration;
  rtt_minRTT := 0; rtt_maxRTT := 10; rtt_latestRTT := 0; rtt_smoothedRTT := 0; rtt_meanDeviation := 0;
  rtt_numMinRTTsamplesRemaining := 0; rtt_newMinRTT := rtt_newMinRTT r; rtt_recentMinRTT := zeroSample;
  rtt_halfWindowRTT := zeroSample; rtt_quarterWindowRTT := zeroSample |}.

Definition ExpireSmoothedMetrics (r : RTTStats) : RTTStats :=
  set_smoothed r (rtt_latestRTT r)
    (MaxDuration (rtt_smoothedRTT r) (rtt_latestRTT r))
    (MaxDuration (rtt_meanDeviation r) (AbsDuration (i64 (rtt_smoothedRTT r - rtt_latestRTT r)))).

Definition UpdateSessionRTT (r : RTTStats) (smoothedRTT : Z) : RTTStats :=
  set_smoothed r (rtt_latestRTT r) smoothedRTT (rtt_meanDeviation r).

(** ** The minima *)

Definition samples_ordered (r : RTTStats) : Prop :=
  rs_rtt (rtt_recentMinRTT r) <= rs_rtt (rtt_halfWindowRTT r) <= rs_rtt (rtt_quarterWindowRTT r).

Lemma sampleNewMin_ordered r sample now : samples_ordered r -> samples_ordered (sampleNewMin r sample now).
Proof.
  unfold samples_ordered, sampleNewMin. intros. repeat case_test; simpl; lia.
Qed.

Lemma updateThree_ordered r sample now :
  samples_ordered r -> samples_ordered (updateThree r sample now) /\
  rs_rtt (rtt_quarterWindowRTT (updateThree r sample now)) <= sample.
Proof.
  unfold samples_ordered, updateThree. intros. repeat case_test; simpl; lia.
Qed.

Lemma expireOld_ordered r sample now :
  samples_ordered r -> rs_rtt (rtt_quarterWindowRTT r) <= sample -> samples_ordered (expireOld r sample now).
Proof. unfold samples_ordered, expireOld. intros. repeat case_test; simpl; lia. Qed.

(** What the windowed minima leave alone. *)
Lemma updateRecentMinRTT_frame r sample now :
  let r' := updateRecentMinRTT r sample now in
  rtt_minRTT r' = rtt_minRTT r /\ rtt_maxRTT r' = rtt_maxRTT r /\ rtt_smoothedRTT r' = rtt_smoothedRTT r /\
  rtt_meanDeviation r' = rtt_meanDeviation r.
Proof.
  unfold updateRecentMinRTT, expireOld, updateThree, sampleNewMin. cbv zeta.
  repeat case_test; done.
Qed.

Lemma updateRecentMinRTT_ordered r sample now :
  samples_ordered r -> samples_ordered (updateRecentMinRTT r sample now).
Proof.
  intros H. unfold updateRecentMinRTT.
  destruct (updateThree_ordered _ sample now (sampleNewMin_ordered r sample now H)) as [H1 H2].
  by apply expireOld_ordered.
Qed.

(** A measurement that is used. *)
Definition valid_delta (d : Z) : bool := (0 <? d) && (d <? InfDuration).

Lemma UpdateRTT_spec r d ackDelay now :
  d <= InfDuration -> 0 <= rtt_minRTT r -> samples_ordered r ->
  let r' := UpdateRTT r d ackDelay now in
  samples_ordered r' /\
  (valid_delta d = false -> r' = r) /\
  (valid_delta d = true ->
     rtt_minRTT r' = (if rtt_minRTT r =? 0 then d else Z.min (rtt_minRTT r) d) /\
     rtt_maxRTT r' = Z.max (rtt_maxRTT r) d /\
     rtt_latestRTT r' = if d >? ackDelay then i64 (d - ackDelay) else d).
Proof.
  intros Hd Hmin Ho. unfold UpdateRTT, valid_delta. cbv zeta.
  destruct ((d =? InfDuration) || (d <=? 0)) eqn:E.
  - split; [done|]. split; [done|]. lia.
  - match goal with |- context [updateRecentMinRTT ?r0 d now] =>
      destruct (updateRecentMinRTT_frame r0 d now) as (F1 & F2 & F3 & F4);
      pose proof (updateRecentMinRTT_ordered r0 d now Ho) as Ho' end.
    cbn [set_minmax rtt_minRTT rtt_maxRTT] in F1, F2. split; [|split].
    + by case_test.
    + intros. lia.
    + intros _. destruct (rtt_smoothedRTT (updateRecentMinRTT _ d now) =? 0);
        cbn [set_smoothed rtt_minRTT rtt_maxRTT rtt_latestRTT]; rewrite F1, F2; split_and!; try done;
        repeat case_test; lia.
Qed.

Fixpoint rtt_run (r : RTTStats) (l : list (Z * Z * Z)) : RTTStats :=
  match l with
  | [] => r
  | (d, ackDelay, now) :: l' => rtt_run (UpdateRTT r d ackDelay now) l'
  end.

Definition valid_deltas (l : list (Z * Z * Z)) : list Z := List.filter valid_delta (map (fun x => fst (fst x)) l).

(** Over any sequence of measurements, [minRTT] and [maxRTT] are the
    minimum and the maximum of the valid ones (0 if there was none), and the
    windowed minima stay ordered: recent, half window, quarter window. *)
Theorem rtt_min_max_exact l :
  Forall (fun x => fst (fst x) <= InfDuration) l ->
  let r := rtt_run NewRTTStats l in
  samples_ordered r /\
  (valid_deltas l = [] -> rtt_minRTT r = 0 /\ rtt_maxRTT r = 0) /\
  (valid_deltas l <> [] ->
     In (rtt_minRTT r) (valid_deltas l) /\ In (rtt_maxRTT r) (valid_deltas l) /\
     Forall (fun d => rtt_minRTT r <= d <= rtt_maxRTT r) (valid_deltas l)).
Proof.
  assert (Hgen : forall l r (seen : list Z), Forall (fun x => fst (fst x) <= InfDuration) l ->
    samples_ordered r -> Forall (fun d => 0 < d) seen ->
    (seen = [] -> rtt_minRTT r = 0 /\ rtt_maxRTT r = 0) ->
    (seen <> [] -> In (rtt_minRTT r) seen /\ In (rtt_maxRTT r) seen /\
      Forall (fun d => rtt_minRTT r <= d <= rtt_maxRTT r) seen) ->
    let r' := rtt_run r l in let all := seen ++ valid_deltas l in
    samples_ordered r' /\ (all = [] -> rtt_minRTT r' = 0 /\ rtt_maxRTT r' = 0) /\
    (all <> [] -> In (rtt_minRTT r') all /\ In (rtt_maxRTT r') all /\
      Forall (fun d => rtt_minRTT r' <= d <= rtt_maxRTT r') all)).
  { clear l. induction l as [|[[d a] now] l IH]; intros r seen Hl Ho Hpos H0 H1; cbn [rtt_run].
    - change (valid_deltas []) with (@nil Z). rewrite app_nil_r. done.
    - inv Hl. cbn [fst] in *.
      assert (Hmin : 0 <= rtt_minRTT r /\ (rtt_minRTT r = 0 -> seen = [])).
      { destruct seen as [|x seen]; [destruct (H0 eq_refl); split; [lia|done]|].
        destruct (H1 ltac:(done)) as (Hin & _). rewrite Forall_forall in Hpos. apply Hpos in Hin. lia. }
      destruct (UpdateRTT_spec r d a now ltac:(done) (proj1 Hmin) Ho) as (Ho' & Hinv & Hval).
      destruct (valid_delta d) eqn:Ev.
      + replace (seen ++ valid_deltas ((d, a, now) :: l)) with ((seen ++ [d]) ++ valid_deltas l).
        2:{ unfold valid_deltas. cbn [map fst List.filter]. rewrite Ev. by rewrite <- app_assoc. }
        destruct (Hval eq_refl) as (Emin & Emax & _). assert (0 < d) by (unfold valid_delta in Ev; lia).
        apply IH; [done|done| |by destruct seen|].
        { apply Forall_app. split; [done|by repeat constructor]. }
        intros _. rewrite Emin, Emax. destruct seen as [|x seen].
        * destruct (H0 eq_refl) as [-> ->]. simpl. rewrite Z.max_r by lia.
          split_and!; auto. repeat constructor; lia.
        * destruct (H1 ltac:(done)) as (I1 & I2 & I3).
          rewrite (proj2 (Z.eqb_neq _ _)) by (intros E0; by apply (proj2 Hmin) in E0).
          split_and!.
          -- apply in_or_app. destruct (Z.min_spec (rtt_minRTT r) d) as [[_ ->]|[_ ->]]; [by left|right; by left].
          -- apply in_or_app. destruct (Z.max_spec (rtt_maxRTT r) d) as [[_ ->]|[_ ->]]; [right; by left|by left].
          -- apply Forall_app. split; [|repeat constructor; lia].
             eapply Forall_impl; [|exact I3]. simpl. intros. lia.
      + rewrite (Hinv eq_refl). replace (valid_deltas ((d, a, now) :: l)) with (valid_deltas l); [by apply IH|].
        unfold valid_deltas. cbn [map fst List.filter]. by rewrite Ev. }
  intros Hl. apply (Hgen l NewRTTStats []); try done.
Qed.

Definition example_rtts : list (Z * Z * Z) :=
  [(30000000, 0, 1000); (0, 5, 2000); (20000000, 1000000, 3000); (45000000, 0, 4000)].

Lemma rtt_min_max_exact_witness :
  rtt_minRTT (rtt_run NewRTTStats example_rtts) = 20000000 /\
  Forall (fun d => rtt_minRTT (rtt_run NewRTTStats example_rtts) <= d <= 
                   rtt_maxRTT (rtt_run NewRTTStats example_rtts)) (valid_deltas example_rtts).
Proof.
  split; [reflexivity|]. apply (rtt_min_max_exact example_rtts).
  - repeat (apply Forall_cons; [vm_compute; discriminate|]). apply Forall_nil.
  - vm_compute. discriminate.
Defined.
