(* ===== verification/SentPackets.v ===== *)
(** * Sent packets and loss recovery (ackhandler/sent_packet_handler.go,
    stop_waiting_manager.go, packet.go and retransmittable.go)

    Each path tracks the packets it sent until they are acknowledged or queued
    for retransmission, detects losses and arms the retransmission alarm.
    Congestion control is behind an interface. *)
From S2P Require Import Prelude Qerr ByteOrder Protocol Float32 RttStats WireControl AckRanges WireAck Frames.

(** ** Packets *)

Record Packet : Type := {
  pk_PacketNumber : Z;
  pk_Frames : list Frame;
  pk_Length : Z;
  pk_EncryptionLevel : EncryptionLevel;
  pk_SendTime : Z;
}.

Definition GetFramesForRetransmission (p : Packet) : list Frame :=
  List.filter (fun f => match f with FAck _ | FStopWaiting _ => false | _ => true end) (pk_Frames p).

Definition Packet_IsRetransmittable (p : Packet) : bool :=
  existsb (fun f => match f with
    | FStream _ | FRstStream _ | FWindowUpdate _ | FBlocked _ | FPing _ | FGoaway _
    | FAddAddress _ | FPaths _ => true
    | _ => false
    end) (pk_Frames p).

Definition IsFrameRetransmittable (f : Frame) : bool :=
  match f with FStopWaiting _ | FAck _ => false | _ => true end.

Definition stripNonRetransmittableFrames (fs : list Frame) : list Frame :=
  List.filter IsFrameRetransmittable fs.

Definition HasRetransmittableFrames (fs : list Frame) : bool := existsb IsFrameRetransmittable fs.

(** ** STOP_WAITING *)

Record stopWaitingManager : Type := {
  sw_largestLeastUnackedSent : Z;
  sw_nextLeastUnacked : Z;
  sw_lastStopWaitingFrame : option StopWaitingFrame;
}.

Definition newStopWaitingManager : stopWaitingManager :=
  {| sw_largestLeastUnackedSent := 0; sw_nextLeastUnacked := 0; sw_lastStopWaitingFrame := None |}.

Definition newSwf (leastUnacked : Z) : StopWaitingFrame :=
  {| sw_LeastUnacked := leastUnacked; sw_PacketNumberLen := 0; sw_PacketNumber := 0 |}.

Definition swm_GetStopWaitingFrame (s : stopWaitingManager) (force : bool) :
    stopWaitingManager * option StopWaitingFrame :=
  let next := sw_nextLeastUnacked s in
  if next <=? sw_largestLeastUnackedSent s then
    if force then
      match sw_lastStopWaitingFrame s with
      | None =>
          if sw_largestLeastUnackedSent s >? 0 then
            ({| sw_largestLeastUnackedSent := sw_largestLeastUnackedSent s; sw_nextLeastUnacked := next;
                sw_lastStopWaitingFrame := Some (newSwf next) |}, Some (newSwf next))
          else (s, None)
      | Some swf => (s, Some swf)
      end
    else (s, None)
  else
    ({| sw_largestLeastUnackedSent := next; sw_nextLeastUnacked := next;
        sw_lastStopWaitingFrame := Some (newSwf next) |}, Some (newSwf next)).

Definition swm_advance (s : stopWaitingManager) (p : Z) : stopWaitingManager :=
  if p >=? sw_nextLeastUnacked s
  then {| sw_largestLeastUnackedSent := sw_largestLeastUnackedSent s; sw_nextLeastUnacked := p +u 1;
          sw_lastStopWaitingFrame := sw_lastStopWaitingFrame s |}
  else s.

Definition swm_ReceivedAck (s : stopWaitingManager) (ack : AckFrame) : stopWaitingManager :=
  swm_advance s (ack_LargestAcked ack).

Definition swm_QueuedRetransmissionForPacketNumber (s : stopWaitingManager) (p : Z) : stopWaitingManager :=
  swm_advance s p.

(** ** Congestion control *)

(** The methods of [congestion.SendAlgorithm] the handler calls.  The algorithm
    reads the [RTTStats] it shares with the handler, and the clock. *)
Class SendAlgorithm (C : Type) : Type := {
  OnPacketSent : C -> Z -> Z -> Z -> Z -> bool -> C;
  GetCongestionWindow : C -> Z;
  MaybeExitSlowStart : C -> RTTStats -> C;
  OnPacketAcked : C -> RTTStats -> Z -> Z -> Z -> Z -> C;
  OnPacketLost : C -> Z -> Z -> Z -> C;
  OnRetransmissionTimeout : C -> bool -> C;
  RetransmissionDelay : C -> RTTStats -> Z;
  AlgSmoothedRTT : C -> RTTStats -> Z;
}.

(** ** The handler *)

Definition defaultRTOTimeout : Z := 500 * Millisecond.
Definition minRTOTimeout : Z := 200 * Millisecond.
Definition maxRTOTimeout : Z := 60 * Second.
Definition maxTailLossProbes : Z := 2.
Definition minRetransmissionTime : Z := 200 * Millisecond.
Definition minTailLossProbeTimeout : Z := 10 * Millisecond.
Definition MaxTrackedSentPackets : Z := 2 * 2500.
Definition MaxTrackedSkippedPackets : Z := 10.
Definition MaxNonRetransmittablePackets : Z := 19.

Definition ErrDuplicateOrOutOfOrderAck : error :=
  errors_New "SentPacketHandler: Duplicate or out-of-order ACK".
Definition ErrTooManyTrackedSentPackets : error :=
  errors_New "Too many outstanding non-acked and non-retransmitted packets".
Definition ErrAckForSkippedPacket : error :=
  QuicError qerr.InvalidAckData "Received an ACK for a skipped packet number".
Definition errAckForUnsentPacket : error :=
  QuicError qerr.InvalidAckData "Received ACK for an unsent package".
Definition errPacketNumberNotIncreasing : error :=
  errors_New "Already sent a packet with a higher packet number".

(** [packetHistory] is the linked list from front to back. *)
Record sentPacketHandler (C : Type) : Type := mkSPH {
  sp_lastSentPacketNumber : Z;
  sp_skippedPackets : list Z;
  sp_numNonRetransmittablePackets : Z;
  sp_LargestAcked : Z;
  sp_largestReceivedPacketWithAck : Z;
  sp_packetHistory : list Packet;
  sp_stopWaitingManager : stopWaitingManager;
  sp_retransmissionQueue : list Packet;
  sp_bytesInFlight : Z;
  sp_congestion : C;
  sp_rttStats : RTTStats;
  sp_rtoCount : Z;
  sp_tlpCount : Z;
  sp_lossTime : Z;
  sp_lastSentTime : Z;
  sp_alarm : Z;
  sp_packets : Z;
  sp_retransmissions : Z;
  sp_losses : Z;
  sp_ackedBytes : Z;
  sp_sentBytes : Z;
}.
Arguments mkSPH {C}.
Arguments sp_lastSentPacketNumber {C}.
Arguments sp_skippedPackets {C}.
Arguments sp_numNonRetransmittablePackets {C}.
Arguments sp_LargestAcked {C}.
Arguments sp_largestReceivedPacketWithAck {C}.
Arguments sp_packetHistory {C}.
Arguments sp_stopWaitingManager {C}.
Arguments sp_retransmissionQueue {C}.
Arguments sp_bytesInFlight {C}.
Arguments sp_congestion {C}.
Arguments sp_rttStats {C}.
Arguments sp_rtoCount {C}.
Arguments sp_tlpCount {C}.
Arguments sp_lossTime {C}.
Arguments sp_lastSentTime {C}.
Arguments sp_alarm {C}.
Arguments sp_packets {C}.
Arguments sp_retransmissions {C}.
Arguments sp_losses {C}.
Arguments sp_ackedBytes {C}.
Arguments sp_sentBytes {C}.

(** *** Field updates *)

Definition set_lastSentPacketNumber {C} (h : sentPacketHandler C) (v : Z) : sentPacketHandler C :=
    mkSPH v (sp_skippedPackets h) (sp_numNonRetransmittablePackets h) (sp_LargestAcked h)
    (sp_largestReceivedPacketWithAck h) (sp_packetHistory h) (sp_stopWaitingManager h)
    (sp_retransmissionQueue h) (sp_bytesInFlight h) (sp_congestion h) (sp_rttStats h) (sp_rtoCount
    h) (sp_tlpCount h) (sp_lossTime h) (sp_lastSentTime h) (sp_alarm h) (sp_packets h)
    (sp_retransmissions h) (sp_losses h) (sp_ackedBytes h) (sp_sentBytes h).
Definition set_skippedPackets {C} (h : sentPacketHandler C) (v : list Z) : sentPacketHandler C :=
    mkSPH (sp_lastSentPacketNumber h) v (sp_numNonRetransmittablePackets h) (sp_LargestAcked h)
    (sp_largestReceivedPacketWithAck h) (sp_packetHistory h) (sp_stopWaitingManager h)
    (sp_retransmissionQueue h) (sp_bytesInFlight h) (sp_congestion h) (sp_rttStats h) (sp_rtoCount
    h) (sp_tlpCount h) (sp_lossTime h) (sp_lastSentTime h) (sp_alarm h) (sp_packets h)
    (sp_retransmissions h) (sp_losses h) (sp_ackedBytes h) (sp_sentBytes h).
Definition set_numNonRetransmittablePackets {C} (h : sentPacketHandler C) (v : Z) : sentPacketHandler C :=
    mkSPH (sp_lastSentPacketNumber h) (sp_skippedPackets h) v (sp_LargestAcked h)
    (sp_largestReceivedPacketWithAck h) (sp_packetHistory h) (sp_stopWaitingManager h)
    (sp_retransmissionQueue h) (sp_bytesInFlight h) (sp_congestion h) (sp_rttStats h) (sp_rtoCount
    h) (sp_tlpCount h) (sp_lossTime h) (sp_lastSentTime h) (sp_alarm h) (sp_packets h)
    (sp_retransmissions h) (sp_losses h) (sp_ackedBytes h) (sp_sentBytes h).
Definition set_LargestAcked {C} (h : sentPacketHandler C) (v : Z) : sentPacketHandler C :=
    mkSPH (sp_lastSentPacketNumber h) (sp_skippedPackets h) (sp_numNonRetransmittablePackets h) v
    (sp_largestReceivedPacketWithAck h) (sp_packetHistory h) (sp_stopWaitingManager h)
    (sp_retransmissionQueue h) (sp_bytesInFlight h) (sp_congestion h) (sp_rttStats h) (sp_rtoCount
    h) (sp_tlpCount h) (sp_lossTime h) (sp_lastSentTime h) (sp_alarm h) (sp_packets h)
    (sp_retransmissions h) (sp_losses h) (sp_ackedBytes h) (sp_sentBytes h).
Definition set_largestReceivedPacketWithAck {C} (h : sentPacketHandler C) (v : Z) : sentPacketHandler C :=
    mkSPH (sp_lastSentPacketNumber h) (sp_skippedPackets h) (sp_numNonRetransmittablePackets h)
    (sp_LargestAcked h) v (sp_packetHistory h) (sp_stopWaitingManager h) (sp_retransmissionQueue h)
    (sp_bytesInFlight h) (sp_congestion h) (sp_rttStats h) (sp_rtoCount h) (sp_tlpCount h)
    (sp_lossTime h) (sp_lastSentTime h) (sp_alarm h) (sp_packets h) (sp_retransmissions h)
    (sp_losses h) (sp_ackedBytes h) (sp_sentBytes h).
Definition set_packetHistory {C} (h : sentPacketHandler C) (v : list Packet) : sentPacketHandler C :=
    mkSPH (sp_lastSentPacketNumber h) (sp_skippedPackets h) (sp_numNonRetransmittablePackets h)
    (sp_LargestAcked h) (sp_largestReceivedPacketWithAck h) v (sp_stopWaitingManager h)
    (sp_retransmissionQueue h) (sp_bytesInFlight h) (sp_congestion h) (sp_rttStats h) (sp_rtoCount
    h) (sp_tlpCount h) (sp_lossTime h) (sp_lastSentTime h) (sp_alarm h) (sp_packets h)
    (sp_retransmissions h) (sp_losses h) (sp_ackedBytes h) (sp_sentBytes h).
Definition set_stopWaitingManager {C} (h : sentPacketHandler C) (v : stopWaitingManager) : sentPacketHandler C :=
    mkSPH (sp_lastSentPacketNumber h) (sp_skippedPackets h) (sp_numNonRetransmittablePackets h)
    (sp_LargestAcked h) (sp_largestReceivedPacketWithAck h) (sp_packetHistory h) v
    (sp_retransmissionQueue h) (sp_bytesInFlight h) (sp_congestion h) (sp_rttStats h) (sp_rtoCount
    h) (sp_tlpCount h) (sp_lossTime h) (sp_lastSentTime h) (sp_alarm h) (sp_packets h)
    (sp_retransmissions h) (sp_losses h) (sp_ackedBytes h) (sp_sentBytes h).
Definition set_retransmissionQueue {C} (h : sentPacketHandler C) (v : list Packet) : sentPacketHandler C :=
    mkSPH (sp_lastSentPacketNumber h) (sp_skippedPackets h) (sp_numNonRetransmittablePackets h)
    (sp_LargestAcked h) (sp_largestReceivedPacketWithAck h) (sp_packetHistory h)
    (sp_stopWaitingManager h) v (sp_bytesInFlight h) (sp_congestion h) (sp_rttStats h) (sp_rtoCount
    h) (sp_tlpCount h) (sp_lossTime h) (sp_lastSentTime h) (sp_alarm h) (sp_packets h)
    (sp_retransmissions h) (sp_losses h) (sp_ackedBytes h) (sp_sentBytes h).
Definition set_bytesInFlight {C} (h : sentPacketHandler C) (v : Z) : sentPacketHandler C :=
    mkSPH (sp_lastSentPacketNumber h) (sp_skippedPackets h) (sp_numNonRetransmittablePackets h)
    (sp_LargestAcked h) (sp_largestReceivedPacketWithAck h) (sp_packetHistory h)
    (sp_stopWaitingManager h) (sp_retransmissionQueue h) v (sp_congestion h) (sp_rttStats h)
    (sp_rtoCount h) (sp_tlpCount h) (sp_lossTime h) (sp_lastSentTime h) (sp_alarm h) (sp_packets h)
    (sp_retransmissions h) (sp_losses h) (sp_ackedBytes h) (sp_sentBytes h).
Definition set_congestion {C} (h : sentPacketHandler C) (v : C) : sentPacketHandler C :=
    mkSPH (sp_lastSentPacketNumber h) (sp_skippedPackets h) (sp_numNonRetransmittablePackets h)
    (sp_LargestAcked h) (sp_largestReceivedPacketWithAck h) (sp_packetHistory h)
    (sp_stopWaitingManager h) (sp_retransmissionQueue h) (sp_bytesInFlight h) v (sp_rttStats h)
    (sp_rtoCount h) (sp_tlpCount h) (sp_lossTime h) (sp_lastSentTime h) (sp_alarm h) (sp_packets h)
    (sp_retransmissions h) (sp_losses h) (sp_ackedBytes h) (sp_sentBytes h).
Definition set_rttStats {C} (h : sentPacketHandler C) (v : RTTStats) : sentPacketHandler C :=
    mkSPH (sp_lastSentPacketNumber h) (sp_skippedPackets h) (sp_numNonRetransmittablePackets h)
    (sp_LargestAcked h) (sp_largestReceivedPacketWithAck h) (sp_packetHistory h)
    (sp_stopWaitingManager h) (sp_retransmissionQueue h) (sp_bytesInFlight h) (sp_congestion h) v
    (sp_rtoCount h) (sp_tlpCount h) (sp_lossTime h) (sp_lastSentTime h) (sp_alarm h) (sp_packets h)
    (sp_retransmissions h) (sp_losses h) (sp_ackedBytes h) (sp_sentBytes h).
Definition set_rtoCount {C} (h : sentPacketHandler C) (v : Z) : sentPacketHandler C :=
    mkSPH (sp_lastSentPacketNumber h) (sp_skippedPackets h) (sp_numNonRetransmittablePackets h)
    (sp_LargestAcked h) (sp_largestReceivedPacketWithAck h) (sp_packetHistory h)
    (sp_stopWaitingManager h) (sp_retransmissionQueue h) (sp_bytesInFlight h) (sp_congestion h)
    (sp_rttStats h) v (sp_tlpCount h) (sp_lossTime h) (sp_lastSentTime h) (sp_alarm h) (sp_packets
    h) (sp_retransmissions h) (sp_losses h) (sp_ackedBytes h) (sp_sentBytes h).
Definition set_tlpCount {C} (h : sentPacketHandler C) (v : Z) : sentPacketHandler C :=
    mkSPH (sp_lastSentPacketNumber h) (sp_skippedPackets h) (sp_numNonRetransmittablePackets h)
    (sp_LargestAcked h) (sp_largestReceivedPacketWithAck h) (sp_packetHistory h)
    (sp_stopWaitingManager h) (sp_retransmissionQueue h) (sp_bytesInFlight h) (sp_congestion h)
    (sp_rttStats h) (sp_rtoCount h) v (sp_lossTime h) (sp_lastSentTime h) (sp_alarm h) (sp_packets
    h) (sp_retransmissions h) (sp_losses h) (sp_ackedBytes h) (sp_sentBytes h).
Definition set_lossTime {C} (h : sentPacketHandler C) (v : Z) : sentPacketHandler C :=
    mkSPH (sp_lastSentPacketNumber h) (sp_skippedPackets h) (sp_numNonRetransmittablePackets h)
    (sp_LargestAcked h) (sp_largestReceivedPacketWithAck h) (sp_packetHistory h)
    (sp_stopWaitingManager h) (sp_retransmissionQueue h) (sp_bytesInFlight h) (sp_congestion h)
    (sp_rttStats h) (sp_rtoCount h) (sp_tlpCount h) v (sp_lastSentTime h) (sp_alarm h) (sp_packets
    h) (sp_retransmissions h) (sp_losses h) (sp_ackedBytes h) (sp_sentBytes h).
Definition set_lastSentTime {C} (h : sentPacketHandler C) (v : Z) : sentPacketHandler C :=
    mkSPH (sp_lastSentPacketNumber h) (sp_skippedPackets h) (sp_numNonRetransmittablePackets h)
    (sp_LargestAcked h) (sp_largestReceivedPacketWithAck h) (sp_packetHistory h)
    (sp_stopWaitingManager h) (sp_retransmissionQueue h) (sp_bytesInFlight h) (sp_congestion h)
    (sp_rttStats h) (sp_rtoCount h) (sp_tlpCount h) (sp_lossTime h) v (sp_alarm h) (sp_packets h)
    (sp_retransmissions h) (sp_losses h) (sp_ackedBytes h) (sp_sentBytes h).
Definition set_alarm {C} (h : sentPacketHandler C) (v : Z) : sentPacketHandler C :=
    mkSPH (sp_lastSentPacketNumber h) (sp_skippedPackets h) (sp_numNonRetransmittablePackets h)
    (sp_LargestAcked h) (sp_largestReceivedPacketWithAck h) (sp_packetHistory h)
    (sp_stopWaitingManager h) (sp_retransmissionQueue h) (sp_bytesInFlight h) (sp_congestion h)
    (sp_rttStats h) (sp_rtoCount h) (sp_tlpCount h) (sp_lossTime h) (sp_lastSentTime h) v
    (sp_packets h) (sp_retransmissions h) (sp_losses h) (sp_ackedBytes h) (sp_sentBytes h).
Definition set_packets {C} (h : sentPacketHandler C) (v : Z) : sentPacketHandler C :=
    mkSPH (sp_lastSentPacketNumber h) (sp_skippedPackets h) (sp_numNonRetransmittablePackets h)
    (sp_LargestAcked h) (sp_largestReceivedPacketWithAck h) (sp_packetHistory h)
    (sp_stopWaitingManager h) (sp_retransmissionQueue h) (sp_bytesInFlight h) (sp_congestion h)
    (sp_rttStats h) (sp_rtoCount h) (sp_tlpCount h) (sp_lossTime h) (sp_lastSentTime h) (sp_alarm h)
    v (sp_retransmissions h) (sp_losses h) (sp_ackedBytes h) (sp_sentBytes h).
Definition set_retransmissions {C} (h : sentPacketHandler C) (v : Z) : sentPacketHandler C :=
    mkSPH (sp_lastSentPacketNumber h) (sp_skippedPackets h) (sp_numNonRetransmittablePackets h)
    (sp_LargestAcked h) (sp_largestReceivedPacketWithAck h) (sp_packetHistory h)
    (sp_stopWaitingManager h) (sp_retransmissionQueue h) (sp_bytesInFlight h) (sp_congestion h)
    (sp_rttStats h) (sp_rtoCount h) (sp_tlpCount h) (sp_lossTime h) (sp_lastSentTime h) (sp_alarm h)
    (sp_packets h) v (sp_losses h) (sp_ackedBytes h) (sp_sentBytes h).
Definition set_losses {C} (h : sentPacketHandler C) (v : Z) : sentPacketHandler C :=
    mkSPH (sp_lastSentPacketNumber h) (sp_skippedPackets h) (sp_numNonRetransmittablePackets h)
    (sp_LargestAcked h) (sp_largestReceivedPacketWithAck h) (sp_packetHistory h)
    (sp_stopWaitingManager h) (sp_retransmissionQueue h) (sp_bytesInFlight h) (sp_congestion h)
    (sp_rttStats h) (sp_rtoCount h) (sp_tlpCount h) (sp_lossTime h) (sp_lastSentTime h) (sp_alarm h)
    (sp_packets h) (sp_retransmissions h) v (sp_ackedBytes h) (sp_sentBytes h).
Definition set_ackedBytes {C} (h : sentPacketHandler C) (v : Z) : sentPacketHandler C :=
    mkSPH (sp_lastSentPacketNumber h) (sp_skippedPackets h) (sp_numNonRetransmittablePackets h)
    (sp_LargestAcked h) (sp_largestReceivedPacketWithAck h) (sp_packetHistory h)
    (sp_stopWaitingManager h) (sp_retransmissionQueue h) (sp_bytesInFlight h) (sp_congestion h)
    (sp_rttStats h) (sp_rtoCount h) (sp_tlpCount h) (sp_lossTime h) (sp_lastSentTime h) (sp_alarm h)
    (sp_packets h) (sp_retransmissions h) (sp_losses h) v (sp_sentBytes h).
Definition set_sentBytes {C} (h : sentPacketHandler C) (v : Z) : sentPacketHandler C :=
    mkSPH (sp_lastSentPacketNumber h) (sp_skippedPackets h) (sp_numNonRetransmittablePackets h)
    (sp_LargestAcked h) (sp_largestReceivedPacketWithAck h) (sp_packetHistory h)
    (sp_stopWaitingManager h) (sp_retransmissionQueue h) (sp_bytesInFlight h) (sp_congestion h)
    (sp_rttStats h) (sp_rtoCount h) (sp_tlpCount h) (sp_lossTime h) (sp_lastSentTime h) (sp_alarm h)
    (sp_packets h) (sp_retransmissions h) (sp_losses h) (sp_ackedBytes h) v.

(** *** Lists of packets *)

(** [packetHistory.Remove(el)]: packet numbers identify the elements. *)
Fixpoint removePacket (pn : Z) (l : list Packet) : list Packet :=
  match l with
  | [] => []
  | p :: l' => if pk_PacketNumber p =? pn then l' else p :: removePacket pn l'
  end.

(** [fmt] verb [%x] of a [uint64]: at most 16 digits. *)
Fixpoint hexDigits (fuel : nat) (n : Z) : string :=
  match fuel with
  | O => ""
  | S fuel' => if n <? 16 then hexDigit n else hexDigits fuel' (n / 16) +:+ hexDigit (n mod 16)
  end.
Definition hex64 (n : Z) : string := "0x" +:+ hexDigits 16 n.

Definition errWrongPacket (pn : Z) (r : AckRange) (suffix : string) : error :=
  errors_New ("BUG: ackhandler would have acked wrong packet " +:+ hex64 pn +:+
    ", while evaluating range " +:+ hex64 (ar_First r) +:+ " -> " +:+ hex64 (ar_Last r) +:+ suffix).

(** The inner loop of [determineNewlyAckedPackets]; the ranges from the index
    on, lowest first. *)
Fixpoint advanceRange (pn : Z) (ranges : list AckRange) : list AckRange :=
  match ranges with
  | r :: ((_ :: _) as rest) => if pn >? ar_Last r then advanceRange pn rest else ranges
  | _ => ranges
  end.

Fixpoint determineLoop (hasMissing : bool) (lowest largest : Z) (suffix : string)
    (ranges : list AckRange) (history : list Packet) : result (list Packet) :=
  match history with
  | [] => Ok []
  | packet :: history' =>
      let pn := pk_PacketNumber packet in
      if pn <? lowest then determineLoop hasMissing lowest largest suffix ranges history'
      else if pn >? largest then Ok []
      else if hasMissing then
        let ranges' := advanceRange pn ranges in
        match ranges' with
        | [] => Panic
        | ackRange :: _ =>
            if pn >=? ar_First ackRange then
              if pn >? ar_Last ackRange then Err (errWrongPacket pn ackRange suffix)
              else let* acked := determineLoop hasMissing lowest largest suffix ranges' history' in
                   Ok (packet :: acked)
            else determineLoop hasMissing lowest largest suffix ranges' history'
        end
      else let* acked := determineLoop hasMissing lowest largest suffix ranges history' in
           Ok (packet :: acked)
  end.

Definition determineNewlyAckedPackets (history : list Packet) (f : AckFrame) : result (list Packet) :=
  determineLoop (AckFrame_HasMissingRanges f) (ack_LowestAcked f) (ack_LargestAcked f) ""
    (rev (ack_AckRanges f)) history.

Definition determineNewlyAckedPacketsClosePath (history : list Packet) (f : ClosePathFrame) :
    result (list Packet) :=
  determineLoop (ClosePathFrame_HasMissingRanges f) (cp_LowestAcked f) (cp_LargestAcked f)
    " with ClosePath frame" (rev (cp_AckRanges f)) history.

(** The loop over the skipped numbers of [SentPacket], from [p] on, [k] times. *)
Fixpoint skipLoop (k : nat) (p : Z) (skipped : list Z) : list Z :=
  match k with
  | O => skipped
  | S k' =>
      let skipped := skipped ++ [p] in
      let skipped := if zlen skipped >? MaxTrackedSkippedPackets then tail skipped else skipped in
      skipLoop k' (p +u 1) skipped
  end.

(** [deleteIndex] of [garbageCollectSkippedPackets]: one more than the last
    index of a number at most [lioa]. *)
Fixpoint deleteIndexLoop (lioa : Z) (i deleteIndex : nat) (skipped : list Z) : nat :=
  match skipped with
  | [] => deleteIndex
  | p :: skipped' =>
      deleteIndexLoop lioa (S i) (if p <=? lioa then S i else deleteIndex) skipped'
  end.

Definition rttLoopFind (largestAcked : Z) : list Packet -> option Packet :=
  fix go (history : list Packet) : option Packet :=
    match history with
    | [] => None
    | packet :: history' =>
        if pk_PacketNumber packet =? largestAcked then Some packet
        else if pk_PacketNumber packet >? largestAcked then None
        else go history'
    end.

(** The loop of [detectLostPackets]: the packets lost, and the loss time. *)
Fixpoint lostLoop (LargestAcked now delayUntilLost : Z) (history : list Packet) (lossTime : Z) :
    list Packet * Z :=
  match history with
  | [] => ([], lossTime)
  | packet :: history' =>
      if pk_PacketNumber packet >? LargestAcked then ([], lossTime)
      else
      let timeSinceSent := timeSub now (pk_SendTime packet) in
      if timeSinceSent >? delayUntilLost then
        let '(lost, lt) := lostLoop LargestAcked now delayUntilLost history' lossTime in
        (packet :: lost, lt)
      else lostLoop LargestAcked now delayUntilLost history'
             (if IsZero lossTime then timeAdd now (i64 (delayUntilLost - timeSinceSent)) else lossTime)
  end.

(** The loop of [SetInflightAsLost]. *)
Fixpoint inflightLoop (LargestAcked : Z) (history : list Packet) : list Packet :=
  match history with
  | [] => []
  | packet :: history' =>
      if pk_PacketNumber packet >? LargestAcked then [] else packet :: inflightLoop LargestAcked history'
  end.

(** [time.Duration((1.0 + timeReorderingFraction) * float64(maxRTT))]. *)
Definition delayUntilLost (r : RTTStats) : Z :=
  f64_trunc (f64_mul (f64_div (f64_of_Z 9) (f64_of_Z 8))
    (f64_of_Z (MaxDuration (rtt_latestRTT r) (rtt_smoothedRTT r)))).

Section handler.
Context {C : Type} `{SendAlgorithm C}.
Implicit Types h : sentPacketHandler C.

Definition NewSentPacketHandler (rttStats : RTTStats) (cong : C) : sentPacketHandler C :=
  mkSPH 0 [] 0 0 0 [] newStopWaitingManager [] 0 cong rttStats 0 0 zeroTime zeroTime zeroTime 0 0 0 0 0.

Definition largestInOrderAcked h : Z :=
  match sp_packetHistory h with
  | f :: _ => pk_PacketNumber f -u 1
  | [] => sp_LargestAcked h
  end.

Definition GetLeastUnacked h : Z := largestInOrderAcked h +u 1.

Definition ShouldSendRetransmittablePacket h : bool :=
  sp_numNonRetransmittablePackets h >=? MaxNonRetransmittablePackets.

Definition hasOutstandingRetransmittablePacket h : bool :=
  existsb Packet_IsRetransmittable (sp_packetHistory h).

(** *** The alarm *)

Definition computeRTOTimeout h : Z :=
  let rto := RetransmissionDelay (sp_congestion h) (sp_rttStats h) in
  let rto := if rto =? 0 then defaultRTOTimeout else rto in
  let rto := MaxDuration rto minRTOTimeout in
  let rto := i64 (Z.shiftl rto (sp_rtoCount h)) in
  MinDuration rto maxRTOTimeout.

Definition hasMultipleOutstandingRetransmittablePackets h : bool :=
  match sp_packetHistory h with _ :: _ :: _ => true | _ => false end.

Definition computeTLPTimeout h : Z :=
  let rtt := AlgSmoothedRTT (sp_congestion h) (sp_rttStats h) in
  if hasMultipleOutstandingRetransmittablePackets h
  then MaxDuration (i64 (2 * rtt)) (i64 (Z.quot (i64 (rtt * 3)) 2 + Z.quot minRetransmissionTime 2))
  else MaxDuration (i64 (2 * rtt)) minTailLossProbeTimeout.

Definition updateLossDetectionAlarm h : sentPacketHandler C :=
  match sp_packetHistory h with
  | [] => set_alarm h zeroTime
  | _ =>
      if negb (IsZero (sp_lossTime h)) then set_alarm h (sp_lossTime h)
      else if negb (rtt_smoothedRTT (sp_rttStats h) =? 0) && (sp_tlpCount h <? maxTailLossProbes)
      then set_alarm h (timeAdd (sp_lastSentTime h) (computeTLPTimeout h))
      else set_alarm h (timeAdd (sp_lastSentTime h) (MaxDuration (computeRTOTimeout h) minRetransmissionTime))
  end.

(** *** Retransmission *)

Definition queuePacketForRetransmission h (packet : Packet) : sentPacketHandler C :=
  let h := set_bytesInFlight h (sp_bytesInFlight h -u pk_Length packet) in
  let h := set_retransmissionQueue h (sp_retransmissionQueue h ++ [packet]) in
  let h := set_packetHistory h (removePacket (pk_PacketNumber packet) (sp_packetHistory h)) in
  set_stopWaitingManager h
    (swm_QueuedRetransmissionForPacketNumber (sp_stopWaitingManager h) (pk_PacketNumber packet)).

(** [queuePacketForRetransmission] and the report to congestion control, for
    each lost packet. *)
Definition loseOne h (packet : Packet) : sentPacketHandler C :=
  let h := queuePacketForRetransmission h packet in
  set_congestion h (OnPacketLost (sp_congestion h) (pk_PacketNumber packet) (pk_Length packet)
    (sp_bytesInFlight h)).

Definition detectLostPackets h (now : Z) : sentPacketHandler C :=
  let '(lost, lossTime) :=
    lostLoop (sp_LargestAcked h) now (delayUntilLost (sp_rttStats h)) (sp_packetHistory h) zeroTime in
  let h := set_losses (set_lossTime h lossTime) (sp_losses h +u zlen lost) in
  fold_left loseOne lost h.

Definition SetInflightAsLost h : sentPacketHandler C :=
  let lost := inflightLoop (sp_LargestAcked h) (sp_packetHistory h) in
  let h := set_losses h (sp_losses h +u zlen lost) in
  fold_left loseOne lost h.

Definition queueRTO h (packet : Packet) : sentPacketHandler C :=
  let h := queuePacketForRetransmission h packet in
  let h := set_losses h (sp_losses h +u 1) in
  set_congestion h (OnPacketLost (sp_congestion h) (pk_PacketNumber packet) (pk_Length packet)
    (sp_bytesInFlight h)).

Definition retransmitTLP h : sentPacketHandler C :=
  match rev (sp_packetHistory h) with
  | p :: _ => queuePacketForRetransmission h p
  | [] => h
  end.

Definition retransmitOldestPacket h : sentPacketHandler C :=
  match sp_packetHistory h with
  | p :: _ => queueRTO h p
  | [] => h
  end.

Definition retransmitOldestTwoPackets h : sentPacketHandler C :=
  let h := retransmitOldestPacket h in
  let h := retransmitOldestPacket h in
  set_congestion h (OnRetransmissionTimeout (sp_congestion h) true).

(** The loop [for h.packetHistory.Len() > 0]: each iteration removes the front. *)
Fixpoint retransmitAllLoop (fuel : nat) h : sentPacketHandler C :=
  match fuel with
  | O => h
  | S fuel' =>
      match sp_packetHistory h with
      | [] => h
      | p :: _ => retransmitAllLoop fuel' (queueRTO h p)
      end
  end.

Definition retransmitAllPackets h : sentPacketHandler C :=
  let h := retransmitAllLoop (length (sp_packetHistory h)) h in
  set_congestion h (OnRetransmissionTimeout (sp_congestion h) true).

(** [OnAlarm] at [now], with the callback of the path. *)
Definition OnAlarm h (onRTOCallback : option (Z -> bool)) (now : Z) : sentPacketHandler C :=
  if negb (hasOutstandingRetransmittablePacket h) then set_alarm h zeroTime
  else
  let h :=
    if negb (IsZero (sp_lossTime h)) then detectLostPackets h now
    else if sp_tlpCount h <? maxTailLossProbes then
      let h := retransmitTLP h in set_tlpCount h (u32 (sp_tlpCount h + 1))
    else
      let potentiallyFailed :=
        match onRTOCallback with Some f => f (sp_lastSentTime h) | None => false end in
      let h := if potentiallyFailed then retransmitAllPackets h else retransmitOldestTwoPackets h in
      set_rtoCount h (u32 (sp_rtoCount h + 1)) in
  updateLossDetectionAlarm h.

Definition DequeuePacketForRetransmission h : sentPacketHandler C * option Packet :=
  match sp_retransmissionQueue h with
  | [] => (h, None)
  | packet :: queue =>
      (set_retransmissions (set_retransmissionQueue h queue) (sp_retransmissions h +u 1), Some packet)
  end.

Definition DuplicatePacket h (packet : Packet) : sentPacketHandler C :=
  set_retransmissionQueue h (sp_retransmissionQueue h ++ [packet]).

(** *** Sending *)

Definition SendingAllowed h : bool :=
  let congestionLimited := sp_bytesInFlight h >? GetCongestionWindow (sp_congestion h) in
  let maxTrackedLimited :=
    zlen (sp_retransmissionQueue h) + zlen (sp_packetHistory h) >=? MaxTrackedSentPackets in
  let haveRetransmissions := zlen (sp_retransmissionQueue h) >? 0 in
  negb maxTrackedLimited && (negb congestionLimited || haveRetransmissions).

Definition SentPacket h (packet : Packet) (now : Z) : sentPacketHandler C * option error :=
  if pk_PacketNumber packet <=? sp_lastSentPacketNumber h then (h, Some errPacketNumberNotIncreasing)
  else if zlen (sp_retransmissionQueue h) + zlen (sp_packetHistory h) + 1 >? MaxTrackedSentPackets
  then (h, Some ErrTooManyTrackedSentPackets)
  else
  let first := sp_lastSentPacketNumber h +u 1 in
  let h := set_skippedPackets h
    (skipLoop (Z.to_nat (pk_PacketNumber packet - first)) first (sp_skippedPackets h)) in
  let h := set_lastSentPacketNumber h (pk_PacketNumber packet) in
  let h := set_packets h (sp_packets h +u 1) in
  let h := set_lastSentTime h now in
  let frames := stripNonRetransmittableFrames (pk_Frames packet) in
  let isRetransmittable := negb (zlen frames =? 0) in
  let h :=
    if isRetransmittable then
      let packet := {| pk_PacketNumber := pk_PacketNumber packet; pk_Frames := frames;
                       pk_Length := pk_Length packet; pk_EncryptionLevel := pk_EncryptionLevel packet;
                       pk_SendTime := now |} in
      let h := set_bytesInFlight h (sp_bytesInFlight h +u pk_Length packet) in
      let h := set_sentBytes h (sp_sentBytes h +u pk_Length packet) in
      let h := set_packetHistory h (sp_packetHistory h ++ [packet]) in
      set_numNonRetransmittablePackets h 0
    else set_numNonRetransmittablePackets h (i64 (sp_numNonRetransmittablePackets h + 1)) in
  let h := set_congestion h
    (OnPacketSent (sp_congestion h) now (sp_bytesInFlight h) (pk_PacketNumber packet) (pk_Length packet)
       isRetransmittable) in
  (updateLossDetectionAlarm h, None).

(** *** Acknowledgements *)

Definition skippedPacketsAcked h (f : AckFrame) : bool :=
  existsb (AckFrame_AcksPacket f) (sp_skippedPackets h).

Definition skippedPacketsAckedClosePath h (f : ClosePathFrame) : bool :=
  existsb (ClosePathFrame_AcksPacket f) (sp_skippedPackets h).

Definition garbageCollectSkippedPackets h : sentPacketHandler C :=
  set_skippedPackets h
    (drop (deleteIndexLoop (largestInOrderAcked h) 0 0 (sp_skippedPackets h)) (sp_skippedPackets h)).

(** The new statistics when a sample was taken. *)
Definition maybeUpdateRTT h (largestAcked ackDelay rcvTime now : Z) : option RTTStats :=
  match rttLoopFind largestAcked (sp_packetHistory h) with
  | Some packet => Some (UpdateRTT (sp_rttStats h) (timeSub rcvTime (pk_SendTime packet)) ackDelay now)
  | None => None
  end.

Definition onPacketAcked h (packet : Packet) : sentPacketHandler C :=
  let h := set_bytesInFlight h (sp_bytesInFlight h -u pk_Length packet) in
  let h := set_tlpCount (set_rtoCount h 0) 0 in
  let h := set_packetHistory h (removePacket (pk_PacketNumber packet) (sp_packetHistory h)) in
  set_ackedBytes h (sp_ackedBytes h +u pk_Length packet).

Definition ackOne (now : Z) h (packet : Packet) : sentPacketHandler C :=
  let h := onPacketAcked h packet in
  set_congestion h (OnPacketAcked (sp_congestion h) (sp_rttStats h) (pk_PacketNumber packet)
    (pk_Length packet) (sp_bytesInFlight h) now).

Definition ReceivedAck h (f : AckFrame) (withPacketNumber rcvTime now : Z) :
    result (sentPacketHandler C * option error) :=
  if ack_LargestAcked f >? sp_lastSentPacketNumber h then Ok (h, Some errAckForUnsentPacket)
  else if withPacketNumber <=? sp_largestReceivedPacketWithAck h
  then Ok (h, Some ErrDuplicateOrOutOfOrderAck)
  else
  let h := set_largestReceivedPacketWithAck h withPacketNumber in
  if ack_LargestAcked f <=? largestInOrderAcked h then Ok (h, None)
  else
  let h := set_LargestAcked h (ack_LargestAcked f) in
  if skippedPacketsAcked h f then Ok (h, Some ErrAckForSkippedPacket)
  else
  let h :=
    match maybeUpdateRTT h (ack_LargestAcked f) (ack_DelayTime f) rcvTime now with
    | Some rtt => let h := set_rttStats h rtt in
                  set_congestion h (MaybeExitSlowStart (sp_congestion h) (sp_rttStats h))
    | None => h
    end in
  match determineNewlyAckedPackets (sp_packetHistory h) f with
  | Panic => Panic
  | Err e => Ok (h, Some e)
  | Ok ackedPackets =>
      let h := fold_left (ackOne now) ackedPackets h in
      let h := detectLostPackets h now in
      let h := updateLossDetectionAlarm h in
      let h := garbageCollectSkippedPackets h in
      Ok (set_stopWaitingManager h (swm_ReceivedAck (sp_stopWaitingManager h) f), None)
  end.

Definition ReceivedClosePath h (f : ClosePathFrame) (withPacketNumber rcvTime now : Z) :
    result (sentPacketHandler C * option error) :=
  if cp_LargestAcked f >? sp_lastSentPacketNumber h then Ok (h, Some errAckForUnsentPacket)
  else if withPacketNumber <=? sp_largestReceivedPacketWithAck h
  then Ok (h, Some ErrDuplicateOrOutOfOrderAck)
  else
  let h := set_largestReceivedPacketWithAck h withPacketNumber in
  if skippedPacketsAckedClosePath h f then Ok (h, Some ErrAckForSkippedPacket)
  else
  match determineNewlyAckedPacketsClosePath (sp_packetHistory h) f with
  | Panic => Panic
  | Err e => Ok (h, Some e)
  | Ok ackedPackets =>
      let h := fold_left (ackOne now) ackedPackets h in
      let h := SetInflightAsLost h in
      Ok (garbageCollectSkippedPackets h, None)
  end.

Definition sph_GetStopWaitingFrame h (force : bool) : sentPacketHandler C * option StopWaitingFrame :=
  let '(swm, swf) := swm_GetStopWaitingFrame (sp_stopWaitingManager h) force in
  (set_stopWaitingManager h swm, swf).
End handler.
