(* ===== verification/SentPacketsProofs.v ===== *)
(** * Properties of the sent packet handler

    The optimised search for newly acknowledged packets is a filter by
    [AcksPacket]; the bytes in flight are the lengths of the tracked packets; and
    no operation forgets a packet that was not acknowledged. *)
From S2P Require Import Prelude Qerr ByteOrder Protocol RttStats WireControl AckRanges WireAck Frames.
From S2P Require Import SentPackets.

(** ** Sorted histories *)

(** Strictly increasing packet numbers above [a]. *)
Fixpoint sorted_above (a : Z) (l : list Packet) : Prop :=
  match l with
  | [] => True
  | p :: l' => a < pk_PacketNumber p /\ sorted_above (pk_PacketNumber p) l'
  end.

Lemma sorted_above_Forall a l : sorted_above a l -> Forall (fun p => a < pk_PacketNumber p) l.
Proof.
  revert a. induction l as [|p l IH]; intros a Hs; [done|]. destruct Hs as [Hp Hs].
  constructor; [done|]. eapply Forall_impl; [|by apply IH]. simpl. lia.
Qed.

Lemma sorted_above_weaken a b l : a <= b -> sorted_above b l -> sorted_above a l.
Proof. destruct l; simpl; [done|]. intros ? []; split; [lia|done]. Qed.

Lemma sorted_above_filter f a l : sorted_above a l -> sorted_above a (List.filter f l).
Proof.
  revert a. induction l as [|p l IH]; intros a Hs; [done|]. destruct Hs as [Hp Hs]. simpl.
  case_test; [split; [done|by apply IH]|]. apply (sorted_above_weaken _ (pk_PacketNumber p)); [lia|by apply IH].
Qed.

Lemma sorted_above_snoc a l p :
  sorted_above a l -> Forall (fun q => pk_PacketNumber q < pk_PacketNumber p) l -> a < pk_PacketNumber p ->
  sorted_above a (l ++ [p]).
Proof.
  revert a. induction l as [|q l IH]; intros a Hs Hf Ha; simpl; [done|]. destruct Hs as [Hq Hs]. inv Hf.
  split; [done|]. by apply IH.
Qed.

Lemma filter_all {A} (f : A -> bool) l : Forall (fun x => f x = true) l -> List.filter f l = l.
Proof. induction 1 as [|x l Hx Hl IH]; simpl; [done|]. by rewrite Hx, IH. Qed.

Lemma filter_none {A} (f : A -> bool) l : Forall (fun x => f x = false) l -> List.filter f l = [].
Proof. induction 1 as [|x l Hx Hl IH]; simpl; [done|]. by rewrite Hx, IH. Qed.

Lemma filter_ext_Forall {A} (f g : A -> bool) l :
  Forall (fun x => f x = g x) l -> List.filter f l = List.filter g l.
Proof. induction 1 as [|x l Hx Hl IH]; simpl; [done|]. by rewrite Hx, IH. Qed.

Lemma filter_split_perm {A} (f : A -> bool) (l : list A) :
  List.filter f l ++ List.filter (fun x => negb (f x)) l ≡ₚ l.
Proof.
  induction l as [|x l IH]; [done|]. simpl. destruct (f x); simpl; [by rewrite IH|].
  by rewrite <- Permutation_middle, IH.
Qed.

(** ** Finding the acknowledged packets *)

(** Ascending ranges, the last of which ends at [largest]. *)
Fixpoint ranges_asc (a largest : Z) (l : list AckRange) : Prop :=
  match l with
  | [] => False
  | [r] => a < ar_First r <= ar_Last r /\ ar_Last r = largest
  | r :: l' => a < ar_First r <= ar_Last r /\ ranges_asc (ar_Last r) largest l'
  end.

Lemma ranges_asc_cons a largest r l :
  ranges_asc a largest (r :: l) <->
  a < ar_First r <= ar_Last r /\ (if l is [] then ar_Last r = largest else ranges_asc (ar_Last r) largest l).
Proof. destruct l; simpl; tauto. Qed.

Lemma ranges_asc_first a largest r l pn :
  ranges_asc a largest (r :: l) -> pn <= ar_Last r ->
  rangesAck (r :: l) pn = (ar_First r <=? pn).
Proof.
  intros Ha Hp. cbn [rangesAck]. rewrite Z.geb_leb, (proj2 (Z.leb_le pn (ar_Last r))), andb_true_r by done.
  destruct (ar_First r <=? pn) eqn:E; [done|]. bool_to_prop.
  apply ranges_asc_cons in Ha as [_ Ha].
  assert (Hl : forall l b, (if l is [] then True else ranges_asc b largest l) -> pn <= b ->
    rangesAck l pn = false).
  { clear. induction l as [|r l IH]; intros b Hl Hb; [done|]. apply ranges_asc_cons in Hl as [Hr Hl].
    cbn [rangesAck]. rewrite Z.geb_leb, (proj2 (Z.leb_gt _ _)) by lia. cbn [andb].
    apply (IH (ar_Last r)); [by destruct l|lia]. }
  apply (Hl l (ar_Last r)); [by destruct l|done].
Qed.

Lemma advanceRange_spec a largest pn l :
  ranges_asc a largest l -> pn <= largest ->
  exists r l', advanceRange pn l = r :: l' /\ pn <= ar_Last r /\
    ranges_asc (ar_First r - 1) largest (r :: l') /\
    (forall q, pn <= q -> rangesAck (r :: l') q = rangesAck l q).
Proof.
  revert a. induction l as [|r l IH]; intros a Ha Hp; [done|]. pose proof Ha as Ha'.
  apply ranges_asc_cons in Ha as [Hr Ha]. destruct l as [|r2 l].
  - exists r, []. simpl in *. split_and!; (lia || done).
  - cbn [advanceRange]. rewrite Z.gtb_ltb. case_test.
    + destruct (IH _ Ha Hp) as (r' & l' & E1 & Hl & Hasc & Hq). exists r', l'. split_and!; [done..|].
      intros q Hpq. rewrite Hq by done. symmetry. cbn [rangesAck]. rewrite Z.geb_leb.
      rewrite (proj2 (Z.leb_gt q (ar_Last r))) by lia. by rewrite andb_false_r.
    + exists r, (r2 :: l). split_and!; [done|lia| |done].
      apply ranges_asc_cons. split; [lia|done].
Qed.

(** The single pass over the history with an index into the ranges finds the
    packets whose number is in a range. *)
Lemma determineLoop_missing a lowest largest suffix ranges history b :
  ranges_asc a largest ranges -> sorted_above b history ->
  determineLoop true lowest largest suffix ranges history =
  Ok (List.filter (fun p => (lowest <=? pk_PacketNumber p) && (pk_PacketNumber p <=? largest) &&
                            rangesAck ranges (pk_PacketNumber p)) history).
Proof.
  revert a ranges b. induction history as [|p l IH]; intros a ranges b Ha Hs; [done|].
  destruct Hs as [Hp Hs]. cbn [determineLoop List.filter]. rewrite Z.gtb_ltb.
  destruct (pk_PacketNumber p <? lowest) eqn:E1; bool_to_prop.
  { rewrite (proj2 (Z.leb_gt lowest _)) by lia. cbn [andb]. by apply (IH a ranges (pk_PacketNumber p)). }
  destruct (largest <? pk_PacketNumber p) eqn:E2; bool_to_prop.
  { rewrite (proj2 (Z.leb_gt (pk_PacketNumber p) largest)) by lia. rewrite andb_false_r. cbn [andb].
    rewrite filter_none; [done|]. eapply Forall_impl; [|by apply sorted_above_Forall]. simpl.
    intros q Hq. rewrite (proj2 (Z.leb_gt (pk_PacketNumber q) largest)) by lia. by rewrite andb_false_r. }
  rewrite (proj2 (Z.leb_le lowest _)), (proj2 (Z.leb_le _ largest)) by lia. cbn [andb].
  destruct (advanceRange_spec a largest (pk_PacketNumber p) ranges Ha E2) as (r & l' & Er & Hle & Hasc & Hq).
  rewrite Er, Z.geb_leb, <- (Hq (pk_PacketNumber p)), (ranges_asc_first _ _ _ _ _ Hasc Hle) by lia.
  assert (Hrest : List.filter (fun p0 => (lowest <=? pk_PacketNumber p0) && (pk_PacketNumber p0 <=? largest) &&
      rangesAck (r :: l') (pk_PacketNumber p0)) l =
    List.filter (fun p0 => (lowest <=? pk_PacketNumber p0) && (pk_PacketNumber p0 <=? largest) &&
      rangesAck ranges (pk_PacketNumber p0)) l).
  { apply filter_ext_Forall. eapply Forall_impl; [|by apply sorted_above_Forall]. simpl.
    intros q Hlt. change (rangesAck (r :: l') (pk_PacketNumber q)) with (rangesAck (r :: l') (pk_PacketNumber q)).
    pose proof (Hq (pk_PacketNumber q) ltac:(lia)) as Hqq. simpl in Hqq. by rewrite Hqq. }
  rewrite <- Hrest. destruct (ar_First r <=? pk_PacketNumber p) eqn:E3.
  - rewrite (Z.gtb_ltb (pk_PacketNumber p) (ar_Last r)), (proj2 (Z.ltb_ge (ar_Last r) _)) by lia.
    rewrite (IH _ (r :: l') (pk_PacketNumber p) Hasc Hs). done.
  - rewrite (IH _ (r :: l') (pk_PacketNumber p) Hasc Hs). done.
Qed.

Lemma determineLoop_single lowest largest suffix ranges history b :
  sorted_above b history ->
  determineLoop false lowest largest suffix ranges history =
  Ok (List.filter (fun p => (lowest <=? pk_PacketNumber p) && (pk_PacketNumber p <=? largest)) history).
Proof.
  revert b. induction history as [|p l IH]; intros b Hs; [done|].
  destruct Hs as [Hp Hs]. cbn [determineLoop List.filter]. rewrite Z.gtb_ltb.
  destruct (pk_PacketNumber p <? lowest) eqn:E1; bool_to_prop.
  { rewrite (proj2 (Z.leb_gt lowest _)) by lia. cbn [andb]. by apply (IH (pk_PacketNumber p)). }
  destruct (largest <? pk_PacketNumber p) eqn:E2; bool_to_prop.
  { rewrite (proj2 (Z.leb_gt (pk_PacketNumber p) largest)) by lia. rewrite andb_false_r.
    rewrite filter_none; [done|]. eapply Forall_impl; [|by apply sorted_above_Forall]. simpl.
    intros q Hq. rewrite (proj2 (Z.leb_gt (pk_PacketNumber q) largest)) by lia. by rewrite andb_false_r. }
  rewrite (proj2 (Z.leb_le lowest _)), (proj2 (Z.leb_le _ largest)) by lia. cbn [andb].
  by rewrite (IH (pk_PacketNumber p) Hs).
Qed.

(** Descending ranges of a frame, reversed. *)
Lemma ranges_desc_rev m prev l a :
  a < m -> m <= ar_First prev <= ar_Last prev -> ranges_desc m prev l ->
  ranges_asc a (ar_Last prev) (rev l ++ [prev]).
Proof.
  revert prev. induction l as [|r l IH]; intros prev Ha Hp Hd.
  - simpl. lia.
  - destruct Hd as (Hr & Hg & Hd). cbn [rev]. specialize (IH r Ha Hr Hd).
    clear -IH Hg Hp. remember (rev l ++ [r]) as rs eqn:Ers. clear Ers.
    revert a IH. induction rs as [|x rs IHrs]; intros a Hrs; [done|].
    apply ranges_asc_cons in Hrs as [Hx Hrs]. rewrite <- app_comm_cons. apply ranges_asc_cons.
    split; [done|]. destruct rs as [|y rs].
    + simpl. lia.
    + apply (IHrs (ar_Last x)). done.
Qed.

Lemma rangesAck_rev l q : rangesAck (rev l) q = rangesAck l q.
Proof.
  apply eq_true_iff_eq. rewrite !rangesAck_spec, !Exists_exists. by setoid_rewrite <- in_rev.
Qed.

(** Both kinds of frame. *)
Lemma determine_filter m lowest largest ranges suffix history b :
  ack_ranges_wf m lowest largest ranges -> sorted_above b history ->
  determineLoop (zlen ranges >? 0) lowest largest suffix (rev ranges) history =
  Ok (List.filter (fun p => rangesAcksPacket lowest largest ranges (pk_PacketNumber p)) history).
Proof.
  intros Hwf Hs. destruct ranges as [|first rest].
  - rewrite (determineLoop_single _ _ _ _ _ b Hs). f_equal. apply filter_ext_Forall, Forall_forall.
    intros p _. unfold rangesAcksPacket. cbn [zlen length]. rewrite !Z.gtb_ltb, Z.geb_leb. simpl.
    destruct (lowest <=? pk_PacketNumber p) eqn:E1, (pk_PacketNumber p <=? largest) eqn:E2; simpl;
      repeat case_test; lia.
  - destruct Hwf as (Hne & (Hf & Hd) & Hlast & Hlow).
    assert ((zlen (first :: rest) >? 0) = true) as ->.
    { rewrite zlen_cons, Z.gtb_ltb. pose proof (zlen_nonneg rest). lia. }
    rewrite <- Hlast. rewrite (determineLoop_missing (m - 1) lowest (ar_Last first) suffix _ history b);
      [|apply (ranges_desc_rev m); [lia|done|done]|done].
    f_equal. apply filter_ext_Forall, Forall_forall. intros p _.
    change (rev rest ++ [first]) with (rev (first :: rest)). rewrite rangesAck_rev.
    unfold rangesAcksPacket. rewrite Z.gtb_ltb.
    assert ((zlen (first :: rest) =? 0) = false) as ->.
    { rewrite zlen_cons. pose proof (zlen_nonneg rest). lia. }
    cbn [negb]. destruct (lowest <=? pk_PacketNumber p) eqn:E1, (pk_PacketNumber p <=? ar_Last first) eqn:E2;
      cbn [andb]; repeat case_test; try done; lia.
Qed.

(** ** Removing packets *)

Definition sumLengths (l : list Packet) : Z := fold_right (fun p s => pk_Length p + s) 0 l.

Lemma sumLengths_app l k : sumLengths (l ++ k) = sumLengths l + sumLengths k.
Proof. induction l as [|p l IH]; simpl; [done|]. unfold sumLengths in *. simpl. lia. Qed.

Lemma sumLengths_perm l k : l ≡ₚ k -> sumLengths l = sumLengths k.
Proof. unfold sumLengths. induction 1; simpl; lia. Qed.

Lemma removePacket_app pn pre l :
  Forall (fun p => pk_PacketNumber p <> pn) pre -> removePacket pn (pre ++ l) = pre ++ removePacket pn l.
Proof.
  induction 1 as [|p pre Hp Hpre IH]; [done|]. cbn [app removePacket].
  rewrite (proj2 (Z.eqb_neq _ _)) by done. by rewrite IH.
Qed.

(** Removing one by one the packets a test selects. *)
Lemma remove_filter f a l :
  sorted_above a l ->
  fold_left (fun k p => removePacket (pk_PacketNumber p) k) (List.filter f l) l =
  List.filter (fun p => negb (f p)) l.
Proof.
  assert (Hgen : forall l pre a, sorted_above a l -> Forall (fun p => pk_PacketNumber p <= a) pre ->
    fold_left (fun k p => removePacket (pk_PacketNumber p) k) (List.filter f l) (pre ++ l) =
    pre ++ List.filter (fun p => negb (f p)) l).
  { clear. induction l as [|p l IH]; intros pre a Hs Hpre; [done|]. destruct Hs as [Hp Hs]. simpl.
    assert (Hpre' : Forall (fun q => pk_PacketNumber q <= pk_PacketNumber p) pre)
      by (eapply Forall_impl; [|exact Hpre]; simpl; lia).
    destruct (f p); simpl.
    - rewrite removePacket_app by (eapply Forall_impl; [|exact Hpre]; simpl; lia).
      cbn [removePacket]. rewrite Z.eqb_refl. by apply (IH pre (pk_PacketNumber p)).
    - specialize (IH (pre ++ [p]) (pk_PacketNumber p) Hs). rewrite <- !app_assoc in IH. apply IH.
      apply Forall_app. split; [done|]. repeat constructor. lia. }
  intros Hs. apply (Hgen l [] a Hs). constructor.
Qed.

Lemma lostLoop_filter LA now delay l lt a :
  sorted_above a l ->
  fst (lostLoop LA now delay l lt) =
  List.filter (fun p => (pk_PacketNumber p <=? LA) && (delay <? timeSub now (pk_SendTime p))) l.
Proof.
  revert a lt. induction l as [|p l IH]; intros a lt Hs; [done|]. destruct Hs as [Hp Hs].
  cbn [lostLoop List.filter]. rewrite !Z.gtb_ltb. destruct (LA <? pk_PacketNumber p) eqn:E1; bool_to_prop.
  { rewrite (proj2 (Z.leb_gt _ LA)) by lia. cbn [andb fst]. symmetry. apply filter_none.
    eapply Forall_impl; [|by apply sorted_above_Forall]. simpl. intros q Hq.
    by rewrite (proj2 (Z.leb_gt _ LA)) by lia. }
  rewrite (proj2 (Z.leb_le _ LA)) by lia. cbn [andb].
  destruct (delay <? timeSub now (pk_SendTime p)).
  - specialize (IH _ lt Hs). destruct (lostLoop LA now delay l lt). cbn [fst] in *. by rewrite IH.
  - by apply (IH (pk_PacketNumber p)).
Qed.

Lemma inflightLoop_filter LA l a :
  sorted_above a l -> inflightLoop LA l = List.filter (fun p => pk_PacketNumber p <=? LA) l.
Proof.
  revert a. induction l as [|p l IH]; intros a Hs; [done|]. destruct Hs as [Hp Hs].
  cbn [inflightLoop List.filter]. rewrite Z.gtb_ltb. destruct (LA <? pk_PacketNumber p) eqn:E1; bool_to_prop.
  - rewrite (proj2 (Z.leb_gt _ LA)) by lia. symmetry. apply filter_none.
    eapply Forall_impl; [|by apply sorted_above_Forall]. simpl. intros q Hq.
    by rewrite (proj2 (Z.leb_gt _ LA)) by lia.
  - rewrite (proj2 (Z.leb_le _ LA)) by lia. f_equal. by apply (IH (pk_PacketNumber p)).
Qed.

(** ** What the operations do to the tracked packets *)

Section effects.
Context {C : Type} `{SendAlgorithm C}.
Implicit Types h : sentPacketHandler C.

(** The bytes in flight are those of the tracked packets, modulo 2^64. *)
Definition flight_ok h : Prop := sp_bytesInFlight h = u64 (sumLengths (sp_packetHistory h)).

Lemma u64_sub_lengths b s l : b = u64 s -> b -u l = u64 (s - l).
Proof. intros ->. unfold sub64, u64, wrap. by rewrite Zminus_mod_idemp_l. Qed.

(** A fold that removes each packet of [xs] and subtracts its length. *)
Lemma fold_remove (step : sentPacketHandler C -> Packet -> sentPacketHandler C) xs h :
  (forall h p, sp_packetHistory (step h p) = removePacket (pk_PacketNumber p) (sp_packetHistory h)) ->
  (forall h p, sp_bytesInFlight (step h p) = sp_bytesInFlight h -u pk_Length p) ->
  sp_packetHistory (fold_left step xs h) =
    fold_left (fun k p => removePacket (pk_PacketNumber p) k) xs (sp_packetHistory h) /\
  (forall s, sp_bytesInFlight h = u64 s -> sp_bytesInFlight (fold_left step xs h) = u64 (s - sumLengths xs)).
Proof.
  intros Hh Hb. revert h. induction xs as [|p xs IH]; intros h; simpl.
  - split; [done|]. intros s ->. f_equal. lia.
  - destruct (IH (step h p)) as [IH1 IH2]. split; [by rewrite IH1, Hh|].
    intros s Hs. rewrite (IH2 (s - pk_Length p)); [f_equal; simpl; lia|].
    rewrite Hb. by apply u64_sub_lengths.
Qed.

Lemma fold_filter step f h a :
  (forall h p, sp_packetHistory (step h p) = removePacket (pk_PacketNumber p) (sp_packetHistory h)) ->
  (forall h p, sp_bytesInFlight (step h p) = sp_bytesInFlight h -u pk_Length p) ->
  sorted_above a (sp_packetHistory h) -> flight_ok h ->
  let h' := fold_left step (List.filter f (sp_packetHistory h)) h in
  sp_packetHistory h' = List.filter (fun p => negb (f p)) (sp_packetHistory h) /\ flight_ok h'.
Proof.
  intros Hh Hb Hs Hf. cbv zeta. destruct (fold_remove step (List.filter f (sp_packetHistory h)) h Hh Hb) as [E1 E2].
  assert (E : sp_packetHistory (fold_left step (List.filter f (sp_packetHistory h)) h) =
    List.filter (fun p => negb (f p)) (sp_packetHistory h)) by (rewrite E1; by apply (remove_filter f a)).
  split; [done|]. unfold flight_ok. rewrite E, (E2 _ Hf). f_equal.
  rewrite <- (sumLengths_perm _ _ (filter_split_perm f (sp_packetHistory h))), sumLengths_app. lia.
Qed.

(** The fields the invariants mention and [loseOne] leaves alone. *)
Lemma fold_loseOne xs h :
  sp_retransmissionQueue (fold_left loseOne xs h) = sp_retransmissionQueue h ++ xs /\
  sp_lastSentPacketNumber (fold_left loseOne xs h) = sp_lastSentPacketNumber h /\
  sp_LargestAcked (fold_left loseOne xs h) = sp_LargestAcked h.
Proof.
  revert h. induction xs as [|p xs IH]; intros h; simpl; [by rewrite app_nil_r|].
  destruct (IH (loseOne h p)) as (-> & -> & ->). cbn. by rewrite <- app_assoc.
Qed.

Lemma fold_ackOne now xs h :
  sp_retransmissionQueue (fold_left (ackOne now) xs h) = sp_retransmissionQueue h /\
  sp_lastSentPacketNumber (fold_left (ackOne now) xs h) = sp_lastSentPacketNumber h /\
  sp_LargestAcked (fold_left (ackOne now) xs h) = sp_LargestAcked h.
Proof.
  revert h. induction xs as [|p xs IH]; intros h; simpl; [done|].
  destruct (IH (ackOne now h p)) as (-> & -> & ->). done.
Qed.

Lemma updateAlarm_same h :
  let h' := updateLossDetectionAlarm h in
  sp_packetHistory h' = sp_packetHistory h /\ sp_bytesInFlight h' = sp_bytesInFlight h /\
  sp_retransmissionQueue h' = sp_retransmissionQueue h /\
  sp_lastSentPacketNumber h' = sp_lastSentPacketNumber h /\ sp_LargestAcked h' = sp_LargestAcked h.
Proof.
  unfold updateLossDetectionAlarm. destruct (sp_packetHistory h) eqn:E; repeat case_test; cbn; by rewrite ?E.
Qed.

(** *** The invariant *)

Record sp_inv h : Prop := {
  spi_sorted : sorted_above 0 (sp_packetHistory h);
  spi_sent : Forall (fun p => pk_PacketNumber p <= sp_lastSentPacketNumber h) (sp_packetHistory h);
  spi_flight : flight_ok h;
  spi_tracked : zlen (sp_packetHistory h) <= MaxTrackedSentPackets;
  spi_lengths : Forall (fun p => is_u16 (pk_Length p)) (sp_packetHistory h);
  spi_frames : Forall (fun p => Forall (fun f => IsFrameRetransmittable f = true) (pk_Frames p) /\
                                pk_Frames p <> []) (sp_packetHistory h);
  spi_last : 0 <= sp_lastSentPacketNumber h;
}.

Lemma zlen_filter_le {A} (f : A -> bool) (l : list A) : zlen (List.filter f l) <= zlen l.
Proof.
  unfold zlen. pose proof (filter_length_le f l). lia.
Qed.

Lemma Forall_filter {A} (P : A -> Prop) (f : A -> bool) l : Forall P l -> Forall P (List.filter f l).
Proof.
  rewrite !Forall_forall. intros Hl x Hx. apply filter_In in Hx as [Hx _]. by apply Hl.
Qed.

(** A step that keeps a part of the history keeps the invariant. *)
Lemma sp_inv_shrink h h' f :
  sp_inv h -> sp_packetHistory h' = List.filter f (sp_packetHistory h) -> flight_ok h' ->
  sp_lastSentPacketNumber h' = sp_lastSentPacketNumber h -> sp_inv h'.
Proof.
  intros [Hs Hl Hf Ht Hlen Hfr H0] Eh Hf' El. constructor; rewrite ?Eh, ?El; try done.
  - by apply sorted_above_filter.
  - by apply Forall_filter.
  - pose proof (zlen_filter_le f (sp_packetHistory h)). lia.
  - by apply Forall_filter.
  - by apply Forall_filter.
Qed.

Lemma sp_inv_same h h' :
  sp_inv h -> sp_packetHistory h' = sp_packetHistory h -> sp_bytesInFlight h' = sp_bytesInFlight h ->
  sp_lastSentPacketNumber h' = sp_lastSentPacketNumber h -> sp_inv h'.
Proof.
  intros [Hs Hl Hf Ht Hlen Hfr H0] E1 E2 E3. constructor; rewrite ?E1, ?E3; try done.
  unfold flight_ok. by rewrite E1, E2.
Qed.

(** What a step that only loses packets does. *)
Definition loses h h' (lost : list Packet) : Prop :=
  sp_retransmissionQueue h' = sp_retransmissionQueue h ++ lost /\
  lost ++ sp_packetHistory h' ≡ₚ sp_packetHistory h.

Lemma lose_filter h f :
  sp_inv h ->
  let h' := fold_left loseOne (List.filter f (sp_packetHistory h)) h in
  sp_inv h' /\ loses h h' (List.filter f (sp_packetHistory h)) /\
  sp_packetHistory h' = List.filter (fun p => negb (f p)) (sp_packetHistory h) /\
  sp_LargestAcked h' = sp_LargestAcked h.
Proof.
  intros Hinv. cbv zeta. destruct (fold_loseOne (List.filter f (sp_packetHistory h)) h) as (Q & L & A).
  destruct (fold_filter loseOne f h 0) as [Eh Hf]; [done|done|apply Hinv|apply Hinv|].
  split; [by eapply sp_inv_shrink|]. split; [|done]. split; [done|]. rewrite Eh. apply filter_split_perm.
Qed.

Lemma loses_nil h h' :
  sp_retransmissionQueue h' = sp_retransmissionQueue h -> sp_packetHistory h' = sp_packetHistory h -> loses h h' [].
Proof. intros E1 E2. split; [by rewrite app_nil_r|]. by rewrite E2. Qed.

Lemma loses_trans h1 h2 h3 l1 l2 : loses h1 h2 l1 -> loses h2 h3 l2 -> loses h1 h3 (l1 ++ l2).
Proof.
  intros [Q1 P1] [Q2 P2]. split; [by rewrite Q2, Q1, app_assoc|].
  rewrite <- app_assoc, P2. done.
Qed.

Lemma loses_same h1 h2 h3 l :
  loses h1 h2 l -> sp_retransmissionQueue h3 = sp_retransmissionQueue h2 ->
  sp_packetHistory h3 = sp_packetHistory h2 -> loses h1 h3 l.
Proof. intros [Q P] E1 E2. split; [by rewrite E1|by rewrite E2]. Qed.

Lemma detectLost_spec h now :
  sp_inv h ->
  let h' := detectLostPackets h now in
  exists lost, sp_inv h' /\ loses h h' lost /\
    Forall (fun p => pk_PacketNumber p <= sp_LargestAcked h) lost.
Proof.
  intros Hinv. cbv zeta. unfold detectLostPackets.
  pose proof (lostLoop_filter (sp_LargestAcked h) now (delayUntilLost (sp_rttStats h)) (sp_packetHistory h)
    zeroTime 0 (spi_sorted _ Hinv)) as El.
  destruct (lostLoop _ _ _ _ _) as [lost lt]. cbn [fst] in El. subst lost.
  set (f := fun p => (pk_PacketNumber p <=? sp_LargestAcked h) &&
    (delayUntilLost (sp_rttStats h) <? timeSub now (pk_SendTime p))).
  set (h0 := set_losses (set_lossTime h lt) _).
  assert (Hinv0 : sp_inv h0) by (by eapply sp_inv_same).
  destruct (lose_filter h0 f Hinv0) as (Hi & Hl & Eh & _). exists (List.filter f (sp_packetHistory h)).
  split; [done|]. split; [exact Hl|].
  apply Forall_forall. intros p Hp. apply filter_In in Hp as [_ Hp]. unfold f in Hp. lia.
Qed.

Lemma inflightLost_spec h :
  sp_inv h ->
  let h' := SetInflightAsLost h in
  exists lost, sp_inv h' /\ loses h h' lost /\
    Forall (fun p => pk_PacketNumber p <= sp_LargestAcked h) lost /\
    Forall (fun p => sp_LargestAcked h < pk_PacketNumber p) (sp_packetHistory h').
Proof.
  intros Hinv. cbv zeta. unfold SetInflightAsLost.
  rewrite (inflightLoop_filter _ _ 0 (spi_sorted _ Hinv)).
  set (f := fun p => pk_PacketNumber p <=? sp_LargestAcked h). set (h0 := set_losses h _).
  assert (Hinv0 : sp_inv h0) by (by eapply sp_inv_same).
  destruct (lose_filter h0 f Hinv0) as (Hi & Hl & Eh & _). exists (List.filter f (sp_packetHistory h)).
  split; [done|]. split; [done|]. split.
  - apply Forall_forall. intros p Hp. apply filter_In in Hp as [_ Hp]. unfold f in Hp. lia.
  - change (List.filter f (sp_packetHistory h)) with (List.filter f (sp_packetHistory h0)). rewrite Eh.
    apply Forall_forall. intros p Hp. apply filter_In in Hp as [_ Hp]. unfold f in Hp. lia.
Qed.

Lemma removePacket_In a l p :
  sorted_above a l -> In p l ->
  removePacket (pk_PacketNumber p) l = List.filter (fun q => negb (pk_PacketNumber q =? pk_PacketNumber p)) l /\
  p :: removePacket (pk_PacketNumber p) l ≡ₚ l.
Proof.
  revert a. induction l as [|q l IH]; intros a Hs Hin; [done|]. destruct Hs as [Hq Hs].
  pose proof (sorted_above_Forall _ _ Hs) as Hall. rewrite Forall_forall in Hall.
  cbn [removePacket List.filter]. destruct Hin as [->|Hin].
  - rewrite Z.eqb_refl. cbn [negb]. split; [|done]. symmetry. apply filter_all, Forall_forall.
    intros x Hx. apply Hall in Hx. rewrite (proj2 (Z.eqb_neq _ _)) by lia. done.
  - pose proof (Hall _ Hin). rewrite (proj2 (Z.eqb_neq _ _)) by lia. cbn [negb].
    destruct (IH _ Hs Hin) as [E P]. split; [by rewrite E|]. rewrite Permutation_swap. by rewrite P.
Qed.

(** Moving one tracked packet to the retransmission queue. *)
Lemma lose_one (step : sentPacketHandler C -> Packet -> sentPacketHandler C) h p :
  sp_packetHistory (step h p) = removePacket (pk_PacketNumber p) (sp_packetHistory h) ->
  sp_bytesInFlight (step h p) = sp_bytesInFlight h -u pk_Length p ->
  sp_retransmissionQueue (step h p) = sp_retransmissionQueue h ++ [p] ->
  sp_lastSentPacketNumber (step h p) = sp_lastSentPacketNumber h ->
  sp_inv h -> In p (sp_packetHistory h) -> sp_inv (step h p) /\ loses h (step h p) [p].
Proof.
  intros Eh Eb Eq El Hinv Hin.
  destruct (removePacket_In 0 _ p (spi_sorted _ Hinv) Hin) as [Er Pr]. split.
  - eapply sp_inv_shrink; [done|by rewrite Eh, Er| |done].
    unfold flight_ok. rewrite Eb, Eh, (u64_sub_lengths _ _ _ (spi_flight _ Hinv)). f_equal.
    rewrite <- (sumLengths_perm _ _ Pr). simpl. lia.
  - split; [done|]. rewrite Eh. exact Pr.
Qed.

Lemma retransmitTLP_spec h :
  sp_inv h -> exists lost, sp_inv (retransmitTLP h) /\ loses h (retransmitTLP h) lost /\
    (sp_packetHistory h <> [] -> lost <> []).
Proof.
  intros Hinv. unfold retransmitTLP. destruct (rev (sp_packetHistory h)) as [|p l] eqn:E.
  - exists []. split; [done|]. split; [by apply loses_nil|].
    intros Hne. destruct Hne. rewrite <- (rev_involutive (sp_packetHistory h)), E. done.
  - destruct (lose_one queuePacketForRetransmission h p) as [Hi Hl]; try done; [|by exists [p]].
    apply in_rev. rewrite E. by left.
Qed.

Lemma queueRTO_spec h p : sp_inv h -> In p (sp_packetHistory h) -> sp_inv (queueRTO h p) /\ loses h (queueRTO h p) [p].
Proof. intros. by apply (lose_one queueRTO). Qed.

Lemma retransmitOldest_spec h :
  sp_inv h -> exists lost, sp_inv (retransmitOldestPacket h) /\ loses h (retransmitOldestPacket h) lost /\
    (sp_packetHistory h <> [] -> lost <> []).
Proof.
  intros Hinv. unfold retransmitOldestPacket. destruct (sp_packetHistory h) as [|p l] eqn:E.
  - exists []. split; [done|]. by split; [apply loses_nil|].
  - destruct (queueRTO_spec h p Hinv) as [Hi Hl]; [rewrite E; by left|by exists [p]].
Qed.

Lemma retransmitOldestTwo_spec h :
  sp_inv h -> exists lost, sp_inv (retransmitOldestTwoPackets h) /\ loses h (retransmitOldestTwoPackets h) lost /\
    (sp_packetHistory h <> [] -> lost <> []).
Proof.
  intros Hinv. unfold retransmitOldestTwoPackets.
  destruct (retransmitOldest_spec h Hinv) as (l1 & I1 & L1 & N1).
  destruct (retransmitOldest_spec _ I1) as (l2 & I2 & L2 & _).
  exists (l1 ++ l2). split; [by eapply sp_inv_same|].
  split; [eapply loses_same; [by eapply loses_trans|done|done]|].
  intros Hne [E _]%app_eq_nil. by apply N1.
Qed.

Lemma retransmitAllLoop_spec fuel h :
  (length (sp_packetHistory h) <= fuel)%nat -> sp_inv h ->
  sp_inv (retransmitAllLoop fuel h) /\ loses h (retransmitAllLoop fuel h) (sp_packetHistory h) /\
  sp_packetHistory (retransmitAllLoop fuel h) = [].
Proof.
  revert h. induction fuel as [|fuel IH]; intros h Hf Hinv; cbn [retransmitAllLoop].
  - destruct (sp_packetHistory h) eqn:E; [|simpl in Hf; lia]. split; [done|]. split; [|done].
    by apply loses_nil.
  - destruct (sp_packetHistory h) as [|p l] eqn:E.
    + split; [done|]. split; [|done]. by apply loses_nil.
    + destruct (queueRTO_spec h p Hinv) as [Hi Hl]; [rewrite E; by left|].
      assert (Eq : sp_packetHistory (queueRTO h p) = l).
      { cbn. rewrite E. cbn [removePacket]. by rewrite Z.eqb_refl. }
      destruct (IH (queueRTO h p)) as (Hi2 & Hl2 & He); [rewrite Eq; simpl in Hf; lia|done|].
      split; [done|]. split; [|done]. rewrite Eq in Hl2. by apply (loses_trans _ _ _ [p] l Hl).
Qed.

Lemma retransmitAll_spec h :
  sp_inv h -> sp_inv (retransmitAllPackets h) /\ loses h (retransmitAllPackets h) (sp_packetHistory h) /\
  sp_packetHistory (retransmitAllPackets h) = [].
Proof.
  intros Hinv. unfold retransmitAllPackets.
  destruct (retransmitAllLoop_spec (length (sp_packetHistory h)) h ltac:(lia) Hinv) as (Hi & Hl & He).
  split; [by eapply sp_inv_same|]. split; [|done]. by eapply loses_same.
Qed.

Lemma OnAlarm_spec h cb now :
  sp_inv h -> exists lost, sp_inv (OnAlarm h cb now) /\ loses h (OnAlarm h cb now) lost /\
    (hasOutstandingRetransmittablePacket h = true -> sp_lossTime h = zeroTime -> lost <> []) /\
    (hasOutstandingRetransmittablePacket h = false -> lost = [] /\ sp_alarm (OnAlarm h cb now) = zeroTime).
Proof.
  intros Hinv. unfold OnAlarm. destruct (hasOutstandingRetransmittablePacket h) eqn:Eo; cbn [negb].
  2:{ exists []. split; [by eapply sp_inv_same|]. by split; [apply loses_nil|]. }
  assert (Hne : sp_packetHistory h <> []).
  { unfold hasOutstandingRetransmittablePacket in Eo. intros E. by rewrite E in Eo. }
  assert (Hgen : forall h1 lost, sp_inv h1 -> loses h h1 lost ->
    (sp_lossTime h = zeroTime -> lost <> []) ->
    exists lost, sp_inv (updateLossDetectionAlarm h1) /\ loses h (updateLossDetectionAlarm h1) lost /\
      (true = true -> sp_lossTime h = zeroTime -> lost <> []) /\
      (true = false -> lost = [] /\ sp_alarm (updateLossDetectionAlarm h1) = zeroTime)).
  { intros h1 lost Hi Hl Hn. destruct (updateAlarm_same h1) as (E1 & E2 & E3 & E4 & _).
    exists lost. split; [by eapply sp_inv_same|]. split; [by eapply loses_same|]. by split; [intros _|]. }
  unfold IsZero. destruct (sp_lossTime h =? zeroTime) eqn:Ez; cbn [negb].
  - case_test.
    + destruct (retransmitTLP_spec h Hinv) as (lost & Hi & Hl & Hn).
      apply (Hgen _ lost); [by eapply sp_inv_same|by eapply loses_same|]. by intros _; apply Hn.
    + destruct (match cb with Some f => f (sp_lastSentTime h) | None => false end).
      * destruct (retransmitAll_spec h Hinv) as (Hi & Hl & _).
        by apply (Hgen _ (sp_packetHistory h)); [eapply sp_inv_same|eapply loses_same|].
      * destruct (retransmitOldestTwo_spec h Hinv) as (lost & Hi & Hl & Hn).
        apply (Hgen _ lost); [by eapply sp_inv_same|by eapply loses_same|]. by intros _; apply Hn.
  - destruct (detectLost_spec h now Hinv) as (lost & Hi & Hl & _). apply (Hgen _ lost); [done..|].
    intros E. by rewrite E in Ez.
Qed.

(** *** Acknowledging *)

Lemma ack_filter now h f :
  sp_inv h ->
  let h' := fold_left (ackOne now) (List.filter f (sp_packetHistory h)) h in
  sp_inv h' /\ sp_retransmissionQueue h' = sp_retransmissionQueue h /\
  sp_packetHistory h' = List.filter (fun p => negb (f p)) (sp_packetHistory h) /\
  sp_LargestAcked h' = sp_LargestAcked h.
Proof.
  intros Hinv. cbv zeta. destruct (fold_ackOne now (List.filter f (sp_packetHistory h)) h) as (Q & L & A).
  destruct (fold_filter (ackOne now) f h 0) as [Eh Hf]; [done|done|apply Hinv|apply Hinv|].
  split; [by eapply sp_inv_shrink|done].
Qed.

(** The handler up to the fields that do not concern the tracked packets. *)
Definition same_tracking h h' : Prop :=
  sp_packetHistory h' = sp_packetHistory h /\ sp_retransmissionQueue h' = sp_retransmissionQueue h /\
  sp_bytesInFlight h' = sp_bytesInFlight h.

(** What an accepted acknowledgement with the test [acks] does: the packets it
    acknowledges leave the history, and every other one is still tracked or is
    queued for retransmission. *)
Definition acknowledges (acks : Z -> bool) h h' (lost : list Packet) : Prop :=
  sp_retransmissionQueue h' = sp_retransmissionQueue h ++ lost /\
  lost ++ sp_packetHistory h' ≡ₚ
    List.filter (fun p => negb (acks (pk_PacketNumber p))) (sp_packetHistory h).

Lemma acknowledges_intro acks h h1 h2 lost :
  sp_retransmissionQueue h1 = sp_retransmissionQueue h ->
  sp_packetHistory h1 = List.filter (fun p => negb (acks (pk_PacketNumber p))) (sp_packetHistory h) ->
  loses h1 h2 lost -> acknowledges acks h h2 lost.
Proof. intros E1 E2 [Q P]. split; [by rewrite Q, E1|by rewrite P, E2]. Qed.

Lemma ReceivedAck_spec h f pn rcvTime now :
  sp_inv h -> AckFrame_wf 0 f ->
  exists h' e, ReceivedAck h f pn rcvTime now = Ok (h', e) /\ sp_inv h' /\
    ((e <> None \/ ack_LargestAcked f <= largestInOrderAcked h) /\ same_tracking h h' \/
     e = None /\ largestInOrderAcked h < ack_LargestAcked f <= sp_lastSentPacketNumber h /\
       exists lost, acknowledges (AckFrame_AcksPacket f) h h' lost /\
       Forall (fun p => pk_PacketNumber p <= ack_LargestAcked f) lost).
Proof.
  intros Hinv Hwf. unfold ReceivedAck. rewrite !Z.gtb_ltb.
  destruct (_ <? _) eqn:E1; [do 2 eexists; split; [done|]; split; [done|]; left; by split; [left|]|].
  destruct (pn <=? _) eqn:E2; [do 2 eexists; split; [done|]; split; [done|]; left; by split; [left|]|].
  set (h1 := set_largestReceivedPacketWithAck h pn).
  assert (I1 : sp_inv h1) by (by eapply sp_inv_same).
  change (largestInOrderAcked h1) with (largestInOrderAcked h).
  destruct (_ <=? largestInOrderAcked h) eqn:E3; bool_to_prop.
  { do 2 eexists. split; [done|]. split; [done|]. left. split; [by right|done]. }
  set (h2 := set_LargestAcked h1 (ack_LargestAcked f)).
  destruct (skippedPacketsAcked h2 f).
  { do 2 eexists. split; [done|]. split; [by eapply sp_inv_same|]. left. by split; [left|]. }
  set (h3 := match maybeUpdateRTT _ _ _ _ _ with Some _ => _ | None => _ end).
  assert (T3 : same_tracking h h3 /\ sp_LargestAcked h3 = ack_LargestAcked f /\
    sp_lastSentPacketNumber h3 = sp_lastSentPacketNumber h) by (unfold h3; by case_match).
  destruct T3 as ((Th & Tq & Tb) & TL & TS). clearbody h3.
  assert (I3 : sp_inv h3) by (by eapply sp_inv_same).
  destruct Hwf as (_ & _ & Hwf). unfold determineNewlyAckedPackets, AckFrame_HasMissingRanges.
  rewrite (determine_filter 0 _ _ _ _ _ 0 Hwf (spi_sorted _ I3)).
  destruct (ack_filter now h3 (fun p => AckFrame_AcksPacket f (pk_PacketNumber p)) I3) as (I4 & Q4 & H4 & L4).
  destruct (detectLost_spec _ now I4) as (lost & I5 & L5 & B5).
  set (h5 := detectLostPackets _ now) in *. do 2 eexists. split; [done|].
  destruct (updateAlarm_same h5) as (U1 & U2 & U3 & U4 & _). split; [by eapply sp_inv_same|]. right.
  split; [done|]. split; [lia|]. exists lost. split; [|by rewrite L4, TL in B5].
  eapply acknowledges_intro; [|..|eapply loses_same; [exact L5|exact U3|exact U1]].
  - by rewrite Q4.
  - rewrite H4. by rewrite Th.
Qed.

Lemma ReceivedClosePath_spec h f pn rcvTime now :
  sp_inv h -> ClosePathFrame_wf 0 f ->
  exists h' e, ReceivedClosePath h f pn rcvTime now = Ok (h', e) /\ sp_inv h' /\
    (e <> None /\ same_tracking h h' \/
     e = None /\ cp_LargestAcked f <= sp_lastSentPacketNumber h /\
       exists lost, acknowledges (ClosePathFrame_AcksPacket f) h h' lost /\
       Forall (fun p => pk_PacketNumber p <= sp_LargestAcked h) lost /\
       Forall (fun p => sp_LargestAcked h < pk_PacketNumber p) (sp_packetHistory h')).
Proof.
  intros Hinv Hwf. unfold ReceivedClosePath. rewrite !Z.gtb_ltb.
  destruct (_ <? _) eqn:E1; [do 2 eexists; split; [done|]; split; [done|]; by left|].
  destruct (pn <=? _) eqn:E2; [do 2 eexists; split; [done|]; split; [done|]; by left|].
  set (h1 := set_largestReceivedPacketWithAck h pn).
  assert (I1 : sp_inv h1) by (by eapply sp_inv_same).
  destruct (skippedPacketsAckedClosePath h1 f); [do 2 eexists; split; [done|]; split; [done|]; by left|].
  destruct Hwf as (_ & _ & Hwf). unfold determineNewlyAckedPacketsClosePath, ClosePathFrame_HasMissingRanges.
  rewrite (determine_filter 0 _ _ _ _ _ 0 Hwf (spi_sorted _ I1)).
  destruct (ack_filter now h1 (fun p => ClosePathFrame_AcksPacket f (pk_PacketNumber p)) I1) as (I4 & Q4 & H4 & L4).
  destruct (inflightLost_spec _ I4) as (lost & I5 & L5 & B5 & A5). rewrite L4 in A5, B5.
  do 2 eexists. split; [done|]. split; [by eapply sp_inv_same|]. right.
  split; [done|]. split; [lia|]. exists lost. split; [|done].
  eapply acknowledges_intro; [exact Q4|exact H4|exact L5].
Qed.

(** *** Sending *)

(** The packet the history keeps. *)
Definition tracked_packet (packet : Packet) (now : Z) : Packet :=
  {| pk_PacketNumber := pk_PacketNumber packet;
     pk_Frames := stripNonRetransmittableFrames (pk_Frames packet);
     pk_Length := pk_Length packet; pk_EncryptionLevel := pk_EncryptionLevel packet;
     pk_SendTime := now |}.

Lemma strip_empty fs : (zlen (stripNonRetransmittableFrames fs) =? 0) = negb (HasRetransmittableFrames fs).
Proof.
  unfold stripNonRetransmittableFrames, HasRetransmittableFrames.
  induction fs as [|f fs IH]; [done|]. cbn [List.filter existsb]. destruct (IsFrameRetransmittable f); [|done].
  rewrite zlen_cons. cbn [orb negb]. pose proof (zlen_nonneg (List.filter IsFrameRetransmittable fs)). lia.
Qed.

Lemma sp_inv_track h h' packet now :
  sp_inv h -> is_u16 (pk_Length packet) -> HasRetransmittableFrames (pk_Frames packet) = true ->
  sp_lastSentPacketNumber h < pk_PacketNumber packet ->
  zlen (sp_packetHistory h) < MaxTrackedSentPackets ->
  sp_packetHistory h' = sp_packetHistory h ++ [tracked_packet packet now] ->
  sp_bytesInFlight h' = sp_bytesInFlight h +u pk_Length packet ->
  sp_lastSentPacketNumber h' = pk_PacketNumber packet -> sp_inv h'.
Proof.
  intros [Hs Hl Hf Ht Hlen Hfr H0] Hu Hr Hlt Hroom Eh Eb El. constructor; rewrite ?Eh, ?El; try apply Forall_app_2.
  - apply sorted_above_snoc; cbn; [done| |lia]. eapply Forall_impl; [|exact Hl]. simpl. lia.
  - eapply Forall_impl; [|exact Hl]. simpl. lia.
  - by apply Forall_singleton.
  - unfold flight_ok in *. rewrite Eb, Eh, Hf, sumLengths_app. cbn. unfold add64, u64, wrap.
    rewrite Zplus_mod_idemp_l. f_equal. lia.
  - rewrite zlen_app. change (zlen [_]) with 1. lia.
  - done.
  - by apply Forall_singleton.
  - done.
  - apply Forall_singleton. cbn. split.
    + apply Forall_forall. intros f Hin. by apply filter_In in Hin as [_ Hin].
    + intros En. pose proof (strip_empty (pk_Frames packet)) as E. by rewrite En, Hr in E.
  - lia.
Qed.

Lemma SentPacket_spec h packet now :
  sp_inv h -> is_u16 (pk_Length packet) ->
  let '(h', e) := SentPacket h packet now in
  sp_inv h' /\ sp_retransmissionQueue h' = sp_retransmissionQueue h /\
  (e <> None /\ h' = h \/
   e = None /\ sp_lastSentPacketNumber h < pk_PacketNumber packet /\
   sp_lastSentPacketNumber h' = pk_PacketNumber packet /\
   sp_packetHistory h' = sp_packetHistory h ++
     (if HasRetransmittableFrames (pk_Frames packet) then [tracked_packet packet now] else [])).
Proof.
  intros Hinv Hu. unfold SentPacket. rewrite Z.gtb_ltb.
  destruct (_ <=? _) eqn:E1; [split; [done|]; split; [done|]; by left|].
  destruct (_ <? _) eqn:E2; [split; [done|]; split; [done|]; by left|]. bool_to_prop.
  rewrite strip_empty, negb_involutive. set (h1 := if HasRetransmittableFrames _ then _ else _).
  assert (T : sp_packetHistory h1 = sp_packetHistory h ++
      (if HasRetransmittableFrames (pk_Frames packet) then [tracked_packet packet now] else []) /\
    sp_retransmissionQueue h1 = sp_retransmissionQueue h /\
    sp_lastSentPacketNumber h1 = pk_PacketNumber packet /\
    sp_bytesInFlight h1 = if HasRetransmittableFrames (pk_Frames packet)
      then sp_bytesInFlight h +u pk_Length packet else sp_bytesInFlight h).
  { unfold h1. destruct (HasRetransmittableFrames _); cbn; by rewrite ?app_nil_r. }
  destruct T as (Th & Tq & Tl & Tb). clearbody h1.
  set (h2 := set_congestion _ _). destruct (updateAlarm_same h2) as (U1 & U2 & U3 & U4 & _).
  change (sp_packetHistory h2) with (sp_packetHistory h1) in U1.
  change (sp_bytesInFlight h2) with (sp_bytesInFlight h1) in U2.
  change (sp_retransmissionQueue h2) with (sp_retransmissionQueue h1) in U3.
  change (sp_lastSentPacketNumber h2) with (sp_lastSentPacketNumber h1) in U4.
  rewrite Th in U1. rewrite Tb in U2. rewrite Tq in U3. rewrite Tl in U4. clearbody h2.
  split; [|split; [done|right; split; [done|]; split; [lia|done]]].
  destruct (HasRetransmittableFrames (pk_Frames packet)) eqn:Er.
  - apply (sp_inv_track h _ packet now); try done.
    pose proof (zlen_nonneg (sp_retransmissionQueue h)). lia.
  - rewrite app_nil_r in U1. destruct Hinv as [Hs Hl Hf Ht Hlen Hfr H0]. constructor; rewrite ?U1, ?U4; try done.
    + eapply Forall_impl; [|exact Hl]. simpl. lia.
    + unfold flight_ok in *. by rewrite U1, U2.
    + lia.
Qed.

(** *** Reachable handlers *)

(** The operations of the [SentPacketHandler] interface that change the state,
    with the arguments its callers can pass: lengths of packets that fit in a
    datagram, and frames a parser accepted. *)
Inductive sp_step : sentPacketHandler C -> sentPacketHandler C -> Prop :=
| step_SentPacket h packet now :
    is_u16 (pk_Length packet) -> sp_step h (fst (SentPacket h packet now))
| step_ReceivedAck h h' e f pn rcvTime now :
    AckFrame_wf 0 f -> ReceivedAck h f pn rcvTime now = Ok (h', e) -> sp_step h h'
| step_ReceivedClosePath h h' e f pn rcvTime now :
    ClosePathFrame_wf 0 f -> ReceivedClosePath h f pn rcvTime now = Ok (h', e) -> sp_step h h'
| step_OnAlarm h callback now : sp_step h (OnAlarm h callback now)
| step_SetInflightAsLost h : sp_step h (SetInflightAsLost h)
| step_Dequeue h : sp_step h (fst (DequeuePacketForRetransmission h))
| step_Duplicate h packet : sp_step h (DuplicatePacket h packet)
| step_GetStopWaitingFrame h force : sp_step h (fst (sph_GetStopWaitingFrame h force)).

Inductive sp_reachable : sentPacketHandler C -> Prop :=
| reach_new rttStats cong : sp_reachable (NewSentPacketHandler rttStats cong)
| reach_step h h' : sp_reachable h -> sp_step h h' -> sp_reachable h'.

Lemma sp_step_inv h h' : sp_inv h -> sp_step h h' -> sp_inv h'.
Proof.
  intros Hinv Hstep. destruct Hstep as [h packet now Hu|h h' e f pn rt now Hwf E|h h' e f pn rt now Hwf E
    |h cb now|h|h|h packet|h force].
  - pose proof (SentPacket_spec h packet now Hinv Hu) as Hs. destruct (SentPacket h packet now). apply Hs.
  - destruct (ReceivedAck_spec h f pn rt now Hinv Hwf) as (h2 & e2 & E2 & Hi & _).
    rewrite E in E2. by injection E2 as <- <-.
  - destruct (ReceivedClosePath_spec h f pn rt now Hinv Hwf) as (h2 & e2 & E2 & Hi & _).
    rewrite E in E2. by injection E2 as <- <-.
  - by destruct (OnAlarm_spec h cb now Hinv) as (lost & Hi & _).
  - by destruct (inflightLost_spec h Hinv) as (lost & Hi & _).
  - unfold DequeuePacketForRetransmission. case_match; [done|]. by eapply sp_inv_same.
  - by eapply sp_inv_same.
  - unfold sph_GetStopWaitingFrame. destruct (swm_GetStopWaitingFrame _ _). by eapply sp_inv_same.
Qed.

Lemma sp_reachable_inv h : sp_reachable h -> sp_inv h.
Proof.
  induction 1 as [rttStats cong|h h' Hr IH Hstep]; [|by eapply sp_step_inv].
  constructor; cbn; (done || lia || constructor).
Qed.

Lemma sumLengths_bound l :
  Forall (fun p => is_u16 (pk_Length p)) l -> 0 <= sumLengths l <= zlen l * (2 ^ 16 - 1).
Proof.
  induction 1 as [|p l Hp Hl IH]; [done|]. unfold sumLengths in *. cbn [fold_right]. rewrite zlen_cons.
  unfold is_u16 in Hp. lia.
Qed.

(** ** Main results *)

(** C36: the single pass of [determineNewlyAckedPackets] over the packet history
    with a moving index into the ACK ranges finds exactly the tracked packets
    that the frame acknowledges, in order; on a history the handler can build
    and a frame the parser accepts, the branch reporting a bug is never taken
    and no range is read out of bounds. *)
Theorem determineNewlyAckedPackets_exact h f :
  sp_reachable h -> AckFrame_wf 0 f ->
  determineNewlyAckedPackets (sp_packetHistory h) f =
  Ok (List.filter (fun p => AckFrame_AcksPacket f (pk_PacketNumber p)) (sp_packetHistory h)).
Proof.
  intros Hr (_ & _ & Hwf). apply sp_reachable_inv in Hr.
  exact (determine_filter 0 _ _ _ "" _ 0 Hwf (spi_sorted _ Hr)).
Qed.

(** C12: whatever the sequence of operations, [bytesInFlight] is exactly the sum
    of the lengths of the tracked packets (no update of the unsigned counter
    ever wraps), the packet history is sorted by packet number and holds at most
    [MaxTrackedSentPackets] packets, and every packet of it still has frames to
    retransmit and none that must not be. *)
Theorem bytesInFlight_exact h :
  sp_reachable h ->
  sp_bytesInFlight h = sumLengths (sp_packetHistory h) /\
  sorted_above 0 (sp_packetHistory h) /\ zlen (sp_packetHistory h) <= MaxTrackedSentPackets /\
  Forall (fun p => pk_PacketNumber p <= sp_lastSentPacketNumber h /\ pk_Frames p <> [] /\
    Forall (fun f => IsFrameRetransmittable f = true) (pk_Frames p)) (sp_packetHistory h).
Proof.
  intros Hr. apply sp_reachable_inv in Hr as [Hs Hl Hf Ht Hlen Hfr H0].
  split; [|split; [done|split; [done|]]].
  - rewrite Hf. unfold u64. apply wrap_small. pose proof (sumLengths_bound _ Hlen).
    unfold MaxTrackedSentPackets in Ht. nia.
  - rewrite !Forall_forall in *. intros p Hp. split; [by apply Hl|]. by apply and_comm, Hfr.
Qed.

(** C11: no packet is forgotten by an acknowledgement. [ReceivedAck] never panics;
    when it returns an error or ignores a repeated ACK, the tracked packets, the
    retransmission queue and the bytes in flight are unchanged; otherwise the
    packets the frame acknowledges leave the history, and each of the other
    ones is either still tracked or appended once to the retransmission queue,
    the latter only for packet numbers up to the largest acknowledged one. *)
Theorem ReceivedAck_conserves h f pn rcvTime now :
  sp_reachable h -> AckFrame_wf 0 f ->
  exists h' e, ReceivedAck h f pn rcvTime now = Ok (h', e) /\
    ((e <> None \/ ack_LargestAcked f <= largestInOrderAcked h) /\ same_tracking h h' \/
     e = None /\ largestInOrderAcked h < ack_LargestAcked f <= sp_lastSentPacketNumber h /\
       exists lost, acknowledges (AckFrame_AcksPacket f) h h' lost /\
       Forall (fun p => pk_PacketNumber p <= ack_LargestAcked f) lost).
Proof.
  intros Hr Hwf. apply sp_reachable_inv in Hr.
  destruct (ReceivedAck_spec h f pn rcvTime now Hr Hwf) as (h' & e & E & _ & Hs). by exists h', e.
Qed.

(** The retransmission alarm makes progress and loses nothing. [OnAlarm]
    moves packets from the history to the retransmission queue and drops none;
    when a retransmittable packet is outstanding and no early-loss timer is
    pending, it queues at least one; when none is outstanding it only cancels
    the alarm. *)
Theorem OnAlarm_conserves h callback now :
  sp_reachable h ->
  exists lost, loses h (OnAlarm h callback now) lost /\
    (hasOutstandingRetransmittablePacket h = true -> sp_lossTime h = zeroTime -> lost <> []) /\
    (hasOutstandingRetransmittablePacket h = false -> lost = [] /\ sp_alarm (OnAlarm h callback now) = zeroTime).
Proof.
  intros Hr. apply sp_reachable_inv in Hr. destruct (OnAlarm_spec h callback now Hr) as (lost & _ & Hs).
  by exists lost.
Qed.

(** The packets a CLOSE_PATH frame leaves behind. [ReceivedClosePath] never
    panics and drops only the packets the frame acknowledges; the other ones up
    to the [LargestAcked] of the last ACK frame are queued for retransmission,
    and those above it stay in the history of the closed path. *)
Theorem ReceivedClosePath_conserves h f pn rcvTime now :
  sp_reachable h -> ClosePathFrame_wf 0 f ->
  exists h' e, ReceivedClosePath h f pn rcvTime now = Ok (h', e) /\
    (e <> None /\ same_tracking h h' \/
     e = None /\ cp_LargestAcked f <= sp_lastSentPacketNumber h /\
       exists lost, acknowledges (ClosePathFrame_AcksPacket f) h h' lost /\
       Forall (fun p => pk_PacketNumber p <= sp_LargestAcked h) lost /\
       Forall (fun p => sp_LargestAcked h < pk_PacketNumber p) (sp_packetHistory h')).
Proof.
  intros Hr Hwf. apply sp_reachable_inv in Hr.
  destruct (ReceivedClosePath_spec h f pn rcvTime now Hr Hwf) as (h' & e & E & _ & Hs). by exists h', e.
Qed.

(** When the congestion controller and the tracking limit allow sending, a
    packet with a fresh number is accepted: it is appended to the history,
    without its ACK and STOP_WAITING frames, when it has other frames, and
    otherwise only counted. *)
Theorem SendingAllowed_SentPacket h packet now :
  sp_reachable h -> is_u16 (pk_Length packet) -> SendingAllowed h = true ->
  sp_lastSentPacketNumber h < pk_PacketNumber packet ->
  snd (SentPacket h packet now) = None /\
  sp_packetHistory (fst (SentPacket h packet now)) = sp_packetHistory h ++
    (if HasRetransmittableFrames (pk_Frames packet) then [tracked_packet packet now] else []).
Proof.
  intros Hr Hu Ha Hl. apply sp_reachable_inv in Hr. pose proof (SentPacket_spec h packet now Hr Hu) as Hs.
  assert (Hn : snd (SentPacket h packet now) = None).
  { unfold SendingAllowed in Ha. apply andb_prop in Ha as [Ha _]. rewrite Z.geb_leb in Ha.
    unfold SentPacket. rewrite (proj2 (Z.leb_gt _ _)) by lia. rewrite Z.gtb_ltb, (proj2 (Z.ltb_ge _ _)) by lia. done. }
  split; [done|]. destruct (SentPacket h packet now) as [h' e]. cbn [fst snd] in *.
  destruct Hs as (_ & _ & [[Hne _]|(_ & _ & _ & Hs)]); [by destruct Hne|done].
Qed.

(** The retransmission timeout backs off exponentially between 200 ms and
    60 s: while the shifted timeout fits in 63 bits it is the base timeout times
    2^[rtoCount], capped at a minute. *)
Theorem computeRTOTimeout_backoff h :
  let base := Z.max minRTOTimeout
    (if RetransmissionDelay (sp_congestion h) (sp_rttStats h) =? 0 then defaultRTOTimeout
     else RetransmissionDelay (sp_congestion h) (sp_rttStats h)) in
  0 <= sp_rtoCount h -> base * 2 ^ sp_rtoCount h < 2 ^ 63 ->
  computeRTOTimeout h = Z.min maxRTOTimeout (base * 2 ^ sp_rtoCount h) /\
  minRTOTimeout <= computeRTOTimeout h <= maxRTOTimeout.
Proof.
  intros base H0 Hb. assert (Hbase : minRTOTimeout <= base) by (unfold base; lia).
  assert (E : computeRTOTimeout h = Z.min maxRTOTimeout (base * 2 ^ sp_rtoCount h)).
  { unfold computeRTOTimeout. rewrite Z.shiftl_mul_pow2 by done.
    assert (forall x, MaxDuration x minRTOTimeout = Z.max minRTOTimeout x) as ->
      by (intros; unfold MaxDuration; rewrite Z.gtb_ltb; case_test; lia).
    fold base. rewrite i64_small.
    - unfold MinDuration. rewrite Z.gtb_ltb. case_test; lia.
    - pose proof (Z.pow_pos_nonneg 2 (sp_rtoCount h)). unfold minRTOTimeout, Millisecond in Hbase. nia. }
  split; [done|]. rewrite E. pose proof (Z.pow_pos_nonneg 2 (sp_rtoCount h) ltac:(lia) H0).
  unfold minRTOTimeout, maxRTOTimeout, Millisecond, Second in *. nia.
Qed.

(** The alarm of a retransmission timeout is armed between 200 ms and 60 s
    after the last packet was sent whatever the congestion controller, the RTT
    and the number of timeouts; but the shift by [rtoCount] overflows, and from
    the 64th timeout on the exponential backoff is gone and the alarm is back at
    200 ms. *)
Theorem rto_alarm_bounds h :
  sp_packetHistory h <> [] -> sp_lossTime h = zeroTime -> maxTailLossProbes <= sp_tlpCount h ->
  let alarm := sp_alarm (updateLossDetectionAlarm h) in
  sp_lastSentTime h + minRetransmissionTime <= alarm <= sp_lastSentTime h + maxRTOTimeout /\
  (64 <= sp_rtoCount h -> alarm = sp_lastSentTime h + minRetransmissionTime).
Proof.
  intros Hne Hz Ht. cbv zeta. unfold updateLossDetectionAlarm. destruct (sp_packetHistory h); [done|].
  rewrite Hz. cbn [IsZero negb]. change (IsZero zeroTime) with true. cbn [negb].
  rewrite (proj2 (Z.ltb_ge _ _)) by done. rewrite andb_false_r. cbn [sp_alarm set_alarm]. unfold timeAdd.
  assert (Hle : computeRTOTimeout h <= maxRTOTimeout).
  { unfold computeRTOTimeout, MinDuration. cbv zeta. rewrite Z.gtb_ltb. case_test; lia. }
  unfold MaxDuration. rewrite Z.gtb_ltb. split.
  - case_test; unfold minRetransmissionTime, maxRTOTimeout, Millisecond, Second in *; lia.
  - intros Hc. assert (E : computeRTOTimeout h = 0).
    { unfold computeRTOTimeout. cbv zeta. rewrite Z.shiftl_mul_pow2 by lia.
      rewrite i64_pow_zero by done. done. }
    rewrite E. done.
Qed.
End effects.

(** ** A concrete run *)

(** A controller with a fixed window, for the examples. *)
#[export] Instance fixed_window : SendAlgorithm unit := {|
  OnPacketSent c _ _ _ _ _ := c;
  GetCongestionWindow _ := 10000;
  MaybeExitSlowStart c _ := c;
  OnPacketAcked c _ _ _ _ _ := c;
  OnPacketLost c _ _ _ := c;
  OnRetransmissionTimeout c _ := c;
  RetransmissionDelay _ r := rtt_smoothedRTT r;
  AlgSmoothedRTT _ r := rtt_smoothedRTT r;
|}.

Definition example_packet (pn : Z) : Packet := {|
  pk_PacketNumber := pn; pk_Frames := [FPing mkPingFrame; FAck example_ack]; pk_Length := 1000 + pn;
  pk_EncryptionLevel := EncryptionForwardSecure; pk_SendTime := 0 |}.

(** Packets 1 to 5 sent 10 ms apart. *)
Definition example_sent : sentPacketHandler unit :=
  fold_left (fun h pn => fst (SentPacket h (example_packet pn) (Second + pn * (10 * Millisecond))))
    [1; 2; 3; 4; 5] (NewSentPacketHandler NewRTTStats tt).

Lemma example_sent_reachable : sp_reachable example_sent.
Proof.
  unfold example_sent. cbn [fold_left].
  do 5 (eapply reach_step; [|apply step_SentPacket; unfold is_u16; cbn; lia]). apply reach_new.
Qed.

(** Packets 1, 2 and 4 are acknowledged. *)
Definition example_sent_ack : AckFrame := {|
  ack_PathID := 0; ack_LargestAcked := 4; ack_LowestAcked := 1;
  ack_AckRanges := [{| ar_First := 4; ar_Last := 4 |}; {| ar_First := 1; ar_Last := 2 |}];
  ack_PacketReceivedTime := 0; ack_DelayTime := 0 |}.

Lemma example_sent_ack_wf : AckFrame_wf 0 example_sent_ack.
Proof. unfold AckFrame_wf. cbn. unfold is_u8. split_and!; try lia; done. Qed.

Definition example_sent_close : ClosePathFrame := {|
  cp_PathID := 0; cp_LargestAcked := 4; cp_LowestAcked := 1;
  cp_AckRanges := [{| ar_First := 4; ar_Last := 4 |}; {| ar_First := 1; ar_Last := 2 |}] |}.

Lemma example_sent_close_wf : ClosePathFrame_wf 0 example_sent_close.
Proof. unfold ClosePathFrame_wf. cbn. unfold is_u8. split_and!; try lia; done. Qed.

Lemma determineNewlyAckedPackets_exact_witness :
  determineNewlyAckedPackets (sp_packetHistory example_sent) example_sent_ack =
  Ok (List.filter (fun p => AckFrame_AcksPacket example_sent_ack (pk_PacketNumber p)) (sp_packetHistory example_sent)) /\
  map pk_PacketNumber (List.filter (fun p => AckFrame_AcksPacket example_sent_ack (pk_PacketNumber p))
    (sp_packetHistory example_sent)) = [1; 2; 4].
Proof.
  split; [apply determineNewlyAckedPackets_exact; [exact example_sent_reachable|exact example_sent_ack_wf]|].
  vm_compute. reflexivity.
Defined.

Lemma bytesInFlight_exact_witness : sp_bytesInFlight example_sent = 5015.
Proof.
  rewrite (proj1 (bytesInFlight_exact example_sent example_sent_reachable)). vm_compute. reflexivity.
Defined.

Definition example_after_ack : result (sentPacketHandler unit * option error) :=
  ReceivedAck example_sent example_sent_ack 7 (Second + 90 * Millisecond) (Second + 200 * Millisecond).

Lemma ReceivedAck_conserves_witness :
  exists h' lost, example_after_ack = Ok (h', None) /\
    acknowledges (AckFrame_AcksPacket example_sent_ack) example_sent h' lost.
Proof.
  destruct (ReceivedAck_conserves example_sent example_sent_ack 7 (Second + 90 * Millisecond)
    (Second + 200 * Millisecond) example_sent_reachable example_sent_ack_wf)
    as (h' & e & E & [[[He|Hl] _]|(He & _ & lost & Ha & _)]).
  - exfalso. apply He. enough (Hs : (match example_after_ack with Ok (_, e) => e | _ => None end) = None).
    { unfold example_after_ack in Hs. rewrite E in Hs. exact Hs. }
    vm_compute. reflexivity.
  - exfalso. revert Hl. vm_compute. intros Hl. by apply Hl.
  - exists h', lost. subst e. split; [exact E|exact Ha].
Defined.

Lemma OnAlarm_conserves_witness :
  exists lost, loses example_sent (OnAlarm example_sent None (2 * Second)) lost /\ lost <> [].
Proof.
  destruct (OnAlarm_conserves example_sent None (2 * Second) example_sent_reachable) as (lost & Hl & Hn & _).
  exists lost. split; [exact Hl|]. apply Hn; vm_compute; reflexivity.
Defined.

Lemma ReceivedClosePath_conserves_witness :
  exists h' e, ReceivedClosePath example_sent example_sent_close 7 (2 * Second) (2 * Second) = Ok (h', e) /\
    (e <> None /\ same_tracking example_sent h' \/
     e = None /\ cp_LargestAcked example_sent_close <= sp_lastSentPacketNumber example_sent /\
       exists lost, acknowledges (ClosePathFrame_AcksPacket example_sent_close) example_sent h' lost /\
       Forall (fun p => pk_PacketNumber p <= sp_LargestAcked example_sent) lost /\
       Forall (fun p => sp_LargestAcked example_sent < pk_PacketNumber p) (sp_packetHistory h')).
Proof.
  apply ReceivedClosePath_conserves; [exact example_sent_reachable|exact example_sent_close_wf].
Defined.

(** With no ACK frame before it, a CLOSE_PATH frame queues nothing: packets 3
    and 5 stay in the history. *)
Example close_path_leaves_packets :
  match ReceivedClosePath example_sent example_sent_close 7 (2 * Second) (2 * Second) with
  | Ok (h', None) => map pk_PacketNumber (sp_packetHistory h') = [3; 5] /\ sp_retransmissionQueue h' = []
  | _ => False
  end.
Proof. vm_compute. done. Qed.

Lemma SendingAllowed_SentPacket_witness :
  snd (SentPacket example_sent (example_packet 6) (2 * Second)) = None /\
  sp_packetHistory (fst (SentPacket example_sent (example_packet 6) (2 * Second))) =
    sp_packetHistory example_sent ++ [tracked_packet (example_packet 6) (2 * Second)].
Proof.
  apply (SendingAllowed_SentPacket example_sent (example_packet 6) (2 * Second)).
  - exact example_sent_reachable.
  - unfold is_u16; cbn; lia.
  - vm_compute. reflexivity.
  - vm_compute. reflexivity.
Defined.

Definition example_rto (count : Z) : sentPacketHandler unit :=
  set_tlpCount (set_rtoCount example_sent count) 2.

Lemma computeRTOTimeout_backoff_witness : computeRTOTimeout (example_rto 3) = 4 * Second.
Proof.
  pose proof (computeRTOTimeout_backoff (example_rto 3) ltac:(vm_compute; discriminate)
    ltac:(vm_compute; reflexivity)) as [E _].
  rewrite E. vm_compute. reflexivity.
Defined.

Lemma rto_alarm_bounds_witness :
  sp_alarm (updateLossDetectionAlarm (example_rto 64)) = sp_lastSentTime (example_rto 64) + minRetransmissionTime.
Proof.
  apply (rto_alarm_bounds (example_rto 64)).
  - vm_compute. discriminate.
  - vm_compute. reflexivity.
  - vm_compute. discriminate.
  - vm_compute. discriminate.
Defined.
