(* ===== verification/ConnParams.v ===== *)
(** * Connection parameters (internal/handshake/connection_parameters_manager.go
    and tags.go)

    The parameters each endpoint announces in its hello message and negotiates
    from the one of its peer.  Flow control and the streams read them through the
    interface [ConnectionParametersManager], here a type class. *)
From S2P Require Import Prelude Qerr ByteOrder Protocol Float32 PublicHeader.

(** ** Tags *)

(** ['A' + 'B'<<8 + 'C'<<16 + 'D'<<24]. *)
Definition mkTag (a b c d : Z) : Z := a + Z.shiftl b 8 + Z.shiftl c 16 + Z.shiftl d 24.

Definition TagMSPC : Z := mkTag 77 83 80 67.
Definition TagMIDS : Z := mkTag 77 73 68 83.
Definition TagTCID : Z := mkTag 84 67 73 68.
Definition TagICSL : Z := mkTag 73 67 83 76.
Definition TagCFCW : Z := mkTag 67 70 67 87.
Definition TagSFCW : Z := mkTag 83 70 67 87.

(** ** Constants *)

Definition ReceiveStreamFlowControlWindow : Z := Z.shiftl 1 10 * 32.
Definition ReceiveConnectionFlowControlWindow : Z := Z.shiftl 1 10 * 48.
Definition InitialStreamFlowControlWindow : Z := Z.shiftl 1 14.
Definition InitialConnectionFlowControlWindow : Z := Z.shiftl 1 14.
Definition MaxStreamsPerConnection : Z := 100.
Definition MaxIncomingDynamicStreamsPerConnection : Z := 100.
Definition MaxStreamsMinimumIncrement : Z := 10.

Definition MinUint32 (a b : Z) : Z := if a <? b then a else b.
Definition MaxUint32 (a b : Z) : Z := if a <? b then b else a.

(** ** The manager *)

Record connectionParametersManager : Type := {
  cpm_version : Z;
  cpm_perspective : Perspective;
  cpm_flowControlNegotiated : bool;
  cpm_truncateConnectionID : bool;
  cpm_maxStreamsPerConnection : Z;
  cpm_maxIncomingDynamicStreamsPerConnection : Z;
  cpm_idleConnectionStateLifetime : Z;
  cpm_sendStreamFlowControlWindow : Z;
  cpm_sendConnectionFlowControlWindow : Z;
  cpm_receiveStreamFlowControlWindow : Z;
  cpm_receiveConnectionFlowControlWindow : Z;
  cpm_maxReceiveStreamFlowControlWindow : Z;
  cpm_maxReceiveConnectionFlowControlWindow : Z;
}.

Definition ErrMalformedTag : error := QuicError qerr.InvalidCryptoMessageParameter "malformed Tag value".
Definition ErrFlowControlRenegotiationNotSupported : error :=
  QuicError qerr.InvalidCryptoMessageParameter "renegotiation of flow control parameters not supported".

Definition NewConnectionParamatersManager (pers : Perspective) (v maxStream maxConnection idleTimeout : Z) :
    connectionParametersManager := {|
  cpm_version := v; cpm_perspective := pers; cpm_flowControlNegotiated := false;
  cpm_truncateConnectionID := false;
  cpm_maxStreamsPerConnection := MaxStreamsPerConnection;
  cpm_maxIncomingDynamicStreamsPerConnection := MaxStreamsPerConnection;
  cpm_idleConnectionStateLifetime := idleTimeout;
  cpm_sendStreamFlowControlWindow := InitialStreamFlowControlWindow;
  cpm_sendConnectionFlowControlWindow := InitialConnectionFlowControlWindow;
  cpm_receiveStreamFlowControlWindow := ReceiveStreamFlowControlWindow;
  cpm_receiveConnectionFlowControlWindow := ReceiveConnectionFlowControlWindow;
  cpm_maxReceiveStreamFlowControlWindow := maxStream;
  cpm_maxReceiveConnectionFlowControlWindow := maxConnection |}.

(** *** Reading the map of a hello message *)

(** A clause of [SetFromMap]: it changes the manager or returns an error, and
    the clauses before an error have already changed it. *)
Definition clause : Type := connectionParametersManager -> connectionParametersManager * option error.

Definition andThen (m k : clause) : clause :=
  fun h => match m h with (h', None) => k h' | (h', Some e) => (h', Some e) end.

(** [if value, ok := params[tag]; ok { v, err := ReadUint32(value); ...; set(v) }]. *)
Definition fromTag (params : gmap Z (list Z)) (tag : Z)
    (set : connectionParametersManager -> Z -> connectionParametersManager) : clause :=
  fun h =>
    match params !! tag with
    | None => (h, None)
    | Some value =>
        match leReadUint32 value with
        | Ok (v, _) => (set h v, None)
        | _ => (h, Some ErrMalformedTag)
        end
    end.

Definition negotiateMaxStreamsPerConnection (clientValue : Z) : Z :=
  MinUint32 clientValue MaxStreamsPerConnection.
Definition negotiateMaxIncomingDynamicStreamsPerConnection (clientValue : Z) : Z :=
  MinUint32 clientValue MaxIncomingDynamicStreamsPerConnection.
Definition negotiateIdleConnectionStateLifetime (h : connectionParametersManager) (clientValue : Z) : Z :=
  MinDuration clientValue (cpm_idleConnectionStateLifetime h).

Definition set_params (h : connectionParametersManager) (negotiated tcid : bool)
    (mspc mids icsl sfcw cfcw : Z) : connectionParametersManager := {|
  cpm_version := cpm_version h; cpm_perspective := cpm_perspective h;
  cpm_flowControlNegotiated := negotiated; cpm_truncateConnectionID := tcid;
  cpm_maxStreamsPerConnection := mspc; cpm_maxIncomingDynamicStreamsPerConnection := mids;
  cpm_idleConnectionStateLifetime := icsl;
  cpm_sendStreamFlowControlWindow := sfcw; cpm_sendConnectionFlowControlWindow := cfcw;
  cpm_receiveStreamFlowControlWindow := cpm_receiveStreamFlowControlWindow h;
  cpm_receiveConnectionFlowControlWindow := cpm_receiveConnectionFlowControlWindow h;
  cpm_maxReceiveStreamFlowControlWindow := cpm_maxReceiveStreamFlowControlWindow h;
  cpm_maxReceiveConnectionFlowControlWindow := cpm_maxReceiveConnectionFlowControlWindow h |}.

Definition set_tcid h (v : bool) := set_params h (cpm_flowControlNegotiated h) v
  (cpm_maxStreamsPerConnection h) (cpm_maxIncomingDynamicStreamsPerConnection h)
  (cpm_idleConnectionStateLifetime h) (cpm_sendStreamFlowControlWindow h) (cpm_sendConnectionFlowControlWindow h).
Definition set_mspc h (v : Z) := set_params h (cpm_flowControlNegotiated h) (cpm_truncateConnectionID h)
  v (cpm_maxIncomingDynamicStreamsPerConnection h)
  (cpm_idleConnectionStateLifetime h) (cpm_sendStreamFlowControlWindow h) (cpm_sendConnectionFlowControlWindow h).
Definition set_mids h (v : Z) := set_params h (cpm_flowControlNegotiated h) (cpm_truncateConnectionID h)
  (cpm_maxStreamsPerConnection h) v
  (cpm_idleConnectionStateLifetime h) (cpm_sendStreamFlowControlWindow h) (cpm_sendConnectionFlowControlWindow h).
Definition set_icsl h (v : Z) := set_params h (cpm_flowControlNegotiated h) (cpm_truncateConnectionID h)
  (cpm_maxStreamsPerConnection h) (cpm_maxIncomingDynamicStreamsPerConnection h)
  v (cpm_sendStreamFlowControlWindow h) (cpm_sendConnectionFlowControlWindow h).
Definition set_sfcw h (v : Z) := set_params h (cpm_flowControlNegotiated h) (cpm_truncateConnectionID h)
  (cpm_maxStreamsPerConnection h) (cpm_maxIncomingDynamicStreamsPerConnection h)
  (cpm_idleConnectionStateLifetime h) v (cpm_sendConnectionFlowControlWindow h).
Definition set_cfcw h (v : Z) := set_params h (cpm_flowControlNegotiated h) (cpm_truncateConnectionID h)
  (cpm_maxStreamsPerConnection h) (cpm_maxIncomingDynamicStreamsPerConnection h)
  (cpm_idleConnectionStateLifetime h) (cpm_sendStreamFlowControlWindow h) v.
Definition set_negotiated h (v : bool) := set_params h v (cpm_truncateConnectionID h)
  (cpm_maxStreamsPerConnection h) (cpm_maxIncomingDynamicStreamsPerConnection h)
  (cpm_idleConnectionStateLifetime h) (cpm_sendStreamFlowControlWindow h) (cpm_sendConnectionFlowControlWindow h).

Definition isServer (p : Perspective) : bool := match p with PerspectiveServer => true | PerspectiveClient => false end.

(** The clauses of the flow control windows reject a second negotiation before
    they read the value. *)
Definition onceOnly (params : gmap Z (list Z)) (tag : Z) (k : clause) : clause :=
  fun h =>
    match params !! tag with
    | Some _ => if cpm_flowControlNegotiated h then (h, Some ErrFlowControlRenegotiationNotSupported) else k h
    | None => (h, None)
    end.

Definition SetFromMap (params : gmap Z (list Z)) : clause :=
  andThen (fun h => if isServer (cpm_perspective h)
                    then fromTag params TagTCID (fun h v => set_tcid h (v =? 0)) h else (h, None))
  (andThen (fromTag params TagMSPC (fun h v => set_mspc h (negotiateMaxStreamsPerConnection v)))
  (andThen (fromTag params TagMIDS (fun h v => set_mids h (negotiateMaxIncomingDynamicStreamsPerConnection v)))
  (andThen (fromTag params TagICSL
              (fun h v => set_icsl h (negotiateIdleConnectionStateLifetime h (i64 (v * Second)))))
  (andThen (onceOnly params TagSFCW (fromTag params TagSFCW set_sfcw))
  (andThen (onceOnly params TagCFCW (fromTag params TagCFCW set_cfcw))
  (fun h => (if bool_decide (is_Some (params !! TagCFCW)) || bool_decide (is_Some (params !! TagSFCW))
             then set_negotiated h true else h, None))))))).

(** [WriteUint32] into an empty buffer. *)
Definition le32 (v : Z) : list Z := match leWriteUint32 (u32 v) with Ok bs => bs | _ => [] end.

Definition GetHelloMap (h : connectionParametersManager) : gmap Z (list Z) :=
  <[TagICSL := le32 (Z.quot (cpm_idleConnectionStateLifetime h) Second)]>
  (<[TagMSPC := le32 (cpm_maxStreamsPerConnection h)]>
  (<[TagMIDS := le32 MaxIncomingDynamicStreamsPerConnection]>
  (<[TagCFCW := le32 (cpm_receiveConnectionFlowControlWindow h)]>
  (<[TagSFCW := le32 (cpm_receiveStreamFlowControlWindow h)]> ∅)))).

Definition cpm_GetMaxIncomingStreams : Z :=
  let maxStreams := MaxIncomingDynamicStreamsPerConnection in
  MaxUint32 (u32 (maxStreams + MaxStreamsMinimumIncrement))
    (u32 (f64_trunc (f64_mul (f64_of_Z maxStreams) (f64_div (f64_of_Z 11) (f64_of_Z 10))))).

Definition cpm_TruncateConnectionID (h : connectionParametersManager) : bool :=
  match cpm_perspective h with PerspectiveClient => false | PerspectiveServer => cpm_truncateConnectionID h end.

(** ** The interface *)

Class ConnectionParametersManager (P : Type) : Type := {
  GetSendStreamFlowControlWindow : P -> Z;
  GetSendConnectionFlowControlWindow : P -> Z;
  GetReceiveStreamFlowControlWindow : P -> Z;
  GetMaxReceiveStreamFlowControlWindow : P -> Z;
  GetReceiveConnectionFlowControlWindow : P -> Z;
  GetMaxReceiveConnectionFlowControlWindow : P -> Z;
  GetMaxOutgoingStreams : P -> Z;
  GetMaxIncomingStreams : P -> Z;
  GetIdleConnectionStateLifetime : P -> Z;
  TruncateConnectionID : P -> bool;
}.

#[export] Instance cpm_interface : ConnectionParametersManager connectionParametersManager := {|
  GetSendStreamFlowControlWindow := cpm_sendStreamFlowControlWindow;
  GetSendConnectionFlowControlWindow := cpm_sendConnectionFlowControlWindow;
  GetReceiveStreamFlowControlWindow := cpm_receiveStreamFlowControlWindow;
  GetMaxReceiveStreamFlowControlWindow := cpm_maxReceiveStreamFlowControlWindow;
  GetReceiveConnectionFlowControlWindow := cpm_receiveConnectionFlowControlWindow;
  GetMaxReceiveConnectionFlowControlWindow := cpm_maxReceiveConnectionFlowControlWindow;
  GetMaxOutgoingStreams := cpm_maxIncomingDynamicStreamsPerConnection;
  GetMaxIncomingStreams _ := cpm_GetMaxIncomingStreams;
  GetIdleConnectionStateLifetime := cpm_idleConnectionStateLifetime;
  TruncateConnectionID := cpm_TruncateConnectionID;
|}.

(** ** Negotiation *)

Lemma read_le32 v : leReadUint32 (le32 v) = Ok (u32 v, []).
Proof.
  unfold le32. change leWriteUint32 with (WriteUint32 LittleEndian).
  rewrite (WriteUint32_enc (u32 v)) by auto with go.
  rewrite <- (app_nil_r (enc 4 (u32 v))). apply le_read_enc32. auto with go.
Qed.

Lemma fromTag_hello params tag v set h :
  params !! tag = Some (le32 v) -> fromTag params tag set h = (set h (u32 v), None).
Proof. intros E. unfold fromTag. by rewrite E, read_le32. Qed.

(** What a hello message carries. *)
Lemma hello_lookup h :
  GetHelloMap h !! TagTCID = None /\
  GetHelloMap h !! TagICSL = Some (le32 (Z.quot (cpm_idleConnectionStateLifetime h) Second)) /\
  GetHelloMap h !! TagMSPC = Some (le32 (cpm_maxStreamsPerConnection h)) /\
  GetHelloMap h !! TagMIDS = Some (le32 MaxIncomingDynamicStreamsPerConnection) /\
  GetHelloMap h !! TagCFCW = Some (le32 (cpm_receiveConnectionFlowControlWindow h)) /\
  GetHelloMap h !! TagSFCW = Some (le32 (cpm_receiveStreamFlowControlWindow h)).
Proof.
  unfold GetHelloMap. split_and!; repeat (rewrite lookup_insert_ne by (vm_compute; discriminate)).
  { apply lookup_empty. }
  all: apply lookup_insert_eq.
Qed.

Lemma SetFromMap_hello h peer :
  cpm_flowControlNegotiated h = false ->
  SetFromMap (GetHelloMap peer) h =
  (set_params h true (cpm_truncateConnectionID h)
     (negotiateMaxStreamsPerConnection (u32 (cpm_maxStreamsPerConnection peer)))
     (negotiateMaxIncomingDynamicStreamsPerConnection (u32 MaxIncomingDynamicStreamsPerConnection))
     (negotiateIdleConnectionStateLifetime h
        (i64 (u32 (Z.quot (cpm_idleConnectionStateLifetime peer) Second) * Second)))
     (u32 (cpm_receiveStreamFlowControlWindow peer)) (u32 (cpm_receiveConnectionFlowControlWindow peer)), None).
Proof.
  intros Hn. destruct (hello_lookup peer) as (T & I & M & D & C & S). unfold SetFromMap, andThen, onceOnly.
  assert (Etc : (if isServer (cpm_perspective h)
    then fromTag (GetHelloMap peer) TagTCID (fun h v => set_tcid h (v =? 0)) h else (h, None)) = (h, None)).
  { unfold fromTag. rewrite T. by case_match. }
  rewrite Etc, (fromTag_hello _ _ _ _ _ M), (fromTag_hello _ _ _ _ _ D), (fromTag_hello _ _ _ _ _ I), S.
  cbn [cpm_flowControlNegotiated set_icsl set_mids set_mspc set_params]. rewrite Hn.
  rewrite (fromTag_hello _ _ _ _ _ S), C.
  cbn [cpm_flowControlNegotiated set_sfcw set_icsl set_mids set_mspc set_params]. rewrite Hn.
  rewrite (fromTag_hello _ _ _ _ _ C). rewrite (bool_decide_true (is_Some (Some _))) by (by eexists). done.
Qed.

(** A hello message after the windows were negotiated. *)
Lemma SetFromMap_again h peer :
  cpm_flowControlNegotiated h = true ->
  snd (SetFromMap (GetHelloMap peer) h) = Some ErrFlowControlRenegotiationNotSupported.
Proof.
  intros Hn. destruct (hello_lookup peer) as (T & I & M & D & C & S). unfold SetFromMap, andThen, onceOnly.
  assert (Etc : (if isServer (cpm_perspective h)
    then fromTag (GetHelloMap peer) TagTCID (fun h v => set_tcid h (v =? 0)) h else (h, None)) = (h, None)).
  { unfold fromTag. rewrite T. by case_match. }
  rewrite Etc, (fromTag_hello _ _ _ _ _ M), (fromTag_hello _ _ _ _ _ D), (fromTag_hello _ _ _ _ _ I), S.
  cbn [cpm_flowControlNegotiated set_icsl set_mids set_mspc set_params]. by rewrite Hn.
Qed.

(** The two endpoints agree on the parameters. When the client has announced
    its parameters to the server and the server has answered with its own, each
    endpoint's send windows are the receive windows of the other, both have the
    same stream limit and the same idle timeout, the smaller of the two
    configured ones, and a further hello message that changes the windows is
    rejected. *)
Theorem negotiation_agrees v ms_c mc_c ms_s mc_s kc ks :
  is_u32 kc -> is_u32 ks ->
  let client := NewConnectionParamatersManager PerspectiveClient v ms_c mc_c (kc * Second) in
  let server := NewConnectionParamatersManager PerspectiveServer v ms_s mc_s (ks * Second) in
  exists server' client',
    SetFromMap (GetHelloMap client) server = (server', None) /\
    SetFromMap (GetHelloMap server') client = (client', None) /\
    cpm_sendStreamFlowControlWindow server' = cpm_receiveStreamFlowControlWindow client' /\
    cpm_sendConnectionFlowControlWindow server' = cpm_receiveConnectionFlowControlWindow client' /\
    cpm_sendStreamFlowControlWindow client' = cpm_receiveStreamFlowControlWindow server' /\
    cpm_sendConnectionFlowControlWindow client' = cpm_receiveConnectionFlowControlWindow server' /\
    cpm_maxStreamsPerConnection client' = cpm_maxStreamsPerConnection server' /\
    cpm_idleConnectionStateLifetime server' = Z.min kc ks * Second /\
    cpm_idleConnectionStateLifetime client' = Z.min kc ks * Second /\
    (forall peer, snd (SetFromMap (GetHelloMap peer) client') = Some ErrFlowControlRenegotiationNotSupported /\
                  snd (SetFromMap (GetHelloMap peer) server') = Some ErrFlowControlRenegotiationNotSupported).
Proof.
  intros Hc Hs client server.
  pose proof (SetFromMap_hello server client eq_refl) as E1. destruct (SetFromMap _ server) as [server' e1].
  injection E1 as E1 ->. pose proof (SetFromMap_hello client server' eq_refl) as E2.
  destruct (SetFromMap _ client) as [client' e2] eqn:R2. injection E2 as E2 ->.
  assert (Hidle : forall a b, is_u32 a -> is_u32 b ->
    MinDuration (i64 (u32 (Z.quot (a * Second) Second) * Second)) (b * Second) = Z.min a b * Second).
  { intros a b Ha Hb. rewrite Z.quot_mul by done. rewrite u32_small by done. rewrite i64_small by (unfold Second; mlia).
    unfold MinDuration. rewrite Z.gtb_ltb. case_test; unfold Second in *; lia. }
  assert (I1 : cpm_idleConnectionStateLifetime server' = Z.min kc ks * Second).
  { subst server'. by apply Hidle. }
  exists server', client'. split; [done|]. split; [exact R2|]. clear R2.
  subst server' client'. do 5 (split; [reflexivity|]). split; [exact I1|]. split.
  - cbn [cpm_idleConnectionStateLifetime set_params] in *. rewrite I1.
    unfold negotiateIdleConnectionStateLifetime. cbn [cpm_idleConnectionStateLifetime client NewConnectionParamatersManager].
    rewrite Hidle; [f_equal; lia|unfold is_u32 in *; lia|done].
  - intros peer. by split; apply SetFromMap_again.
Qed.

Lemma negotiation_agrees_witness :
  exists server' client',
    SetFromMap (GetHelloMap (NewConnectionParamatersManager PerspectiveClient VersionMP 100000 200000 (45 * Second)))
      (NewConnectionParamatersManager PerspectiveServer VersionMP 300000 400000 (30 * Second)) = (server', None) /\
    SetFromMap (GetHelloMap server')
      (NewConnectionParamatersManager PerspectiveClient VersionMP 100000 200000 (45 * Second)) = (client', None) /\
    cpm_idleConnectionStateLifetime client' = 30 * Second.
Proof.
  destruct (negotiation_agrees VersionMP 100000 200000 300000 400000 45 30) as
    (server' & client' & E1 & E2 & _ & _ & _ & _ & _ & _ & Hi & _); [unfold is_u32; lia..|].
  exists server', client'. split; [exact E1|]. split; [exact E2|exact Hi].
Defined.
