(* ===== verification/FlowControl.v ===== *)
(** * Flow control (internal/flowcontrol/)

    A flow controller per stream and one for the connection bound what the peer
    may send and what the endpoint may send.  The manager keeps them together:
    the connection counts the bytes of all the streams that contribute to it. *)
From stdpp Require Import pretty.
From S2P Require Import Prelude Qerr ByteOrder Protocol Float32 RttStats ConnParams.

(** ** The flow controller of a stream or of the connection *)

Record flowController : Type := mkFC {
  fc_streamID : Z;
  fc_contributesToConnection : bool;
  fc_bytesSent : Z;
  fc_sendWindow : Z;
  fc_bytesRetrans : Z;
  fc_lastWindowUpdateTime : Z;
  fc_bytesRead : Z;
  fc_highestReceived : Z;
  fc_receiveWindow : Z;
  fc_receiveWindowIncrement : Z;
  fc_maxReceiveWindowIncrement : Z;
}.

(** The objects all flow controllers share by reference: the connection
    parameters, the RTT statistics and the RTTs the peer reported per path. *)
Record fcEnv (P : Type) : Type := mkEnv {
  env_params : P;
  env_rttStats : RTTStats;
  env_remoteRTTs : gmap Z Z;
}.
Arguments mkEnv {P}.
Arguments env_params {P}.
Arguments env_rttStats {P}.
Arguments env_remoteRTTs {P}.

Definition ErrReceivedSmallerByteOffset : error := errors_New "Received a smaller byte offset".

Section flow_controller.
Context {P : Type} `{ConnectionParametersManager P}.
Implicit Types (env : fcEnv P) (c : flowController).

Definition newFlowController env (streamID : Z) (contributesToConnection : bool) : flowController :=
  if streamID =? 0 then
    mkFC streamID contributesToConnection 0 0 0 zeroTime 0 0
      (GetReceiveConnectionFlowControlWindow (env_params env))
      (GetReceiveConnectionFlowControlWindow (env_params env))
      (GetMaxReceiveConnectionFlowControlWindow (env_params env))
  else
    mkFC streamID contributesToConnection 0 0 0 zeroTime 0 0
      (GetReceiveStreamFlowControlWindow (env_params env))
      (GetReceiveStreamFlowControlWindow (env_params env))
      (GetMaxReceiveStreamFlowControlWindow (env_params env)).

Definition getSendWindow env c : Z :=
  if fc_sendWindow c =? 0 then
    if fc_streamID c =? 0 then GetSendConnectionFlowControlWindow (env_params env)
    else GetSendStreamFlowControlWindow (env_params env)
  else fc_sendWindow c.

Definition fc_AddBytesSent c (n : Z) : flowController :=
  mkFC (fc_streamID c) (fc_contributesToConnection c) (fc_bytesSent c +u n) (fc_sendWindow c)
    (fc_bytesRetrans c) (fc_lastWindowUpdateTime c) (fc_bytesRead c) (fc_highestReceived c)
    (fc_receiveWindow c) (fc_receiveWindowIncrement c) (fc_maxReceiveWindowIncrement c).

Definition fc_AddBytesRetrans c (n : Z) : flowController :=
  mkFC (fc_streamID c) (fc_contributesToConnection c) (fc_bytesSent c) (fc_sendWindow c)
    (fc_bytesRetrans c +u n) (fc_lastWindowUpdateTime c) (fc_bytesRead c) (fc_highestReceived c)
    (fc_receiveWindow c) (fc_receiveWindowIncrement c) (fc_maxReceiveWindowIncrement c).

Definition UpdateSendWindow c (newOffset : Z) : flowController * bool :=
  if newOffset >? fc_sendWindow c then
    (mkFC (fc_streamID c) (fc_contributesToConnection c) (fc_bytesSent c) newOffset
       (fc_bytesRetrans c) (fc_lastWindowUpdateTime c) (fc_bytesRead c) (fc_highestReceived c)
       (fc_receiveWindow c) (fc_receiveWindowIncrement c) (fc_maxReceiveWindowIncrement c), true)
  else (c, false).

Definition fc_SendWindowSize env c : Z :=
  let sendWindow := getSendWindow env c in
  if fc_bytesSent c >? sendWindow then 0 else sendWindow -u fc_bytesSent c.

Definition set_highestReceived c (v : Z) : flowController :=
  mkFC (fc_streamID c) (fc_contributesToConnection c) (fc_bytesSent c) (fc_sendWindow c)
    (fc_bytesRetrans c) (fc_lastWindowUpdateTime c) (fc_bytesRead c) v
    (fc_receiveWindow c) (fc_receiveWindowIncrement c) (fc_maxReceiveWindowIncrement c).

Definition fc_UpdateHighestReceived c (byteOffset : Z) : flowController * Z * option error :=
  if byteOffset =? fc_highestReceived c then (c, 0, None)
  else if byteOffset >? fc_highestReceived c then
    (set_highestReceived c byteOffset, byteOffset -u fc_highestReceived c, None)
  else (c, 0, Some ErrReceivedSmallerByteOffset).

Definition IncrementHighestReceived c (increment : Z) : flowController :=
  set_highestReceived c (fc_highestReceived c +u increment).

Definition fc_AddBytesRead c (n now : Z) : flowController :=
  mkFC (fc_streamID c) (fc_contributesToConnection c) (fc_bytesSent c) (fc_sendWindow c)
    (fc_bytesRetrans c) (if fc_bytesRead c =? 0 then now else fc_lastWindowUpdateTime c)
    (fc_bytesRead c +u n) (fc_highestReceived c)
    (fc_receiveWindow c) (fc_receiveWindowIncrement c) (fc_maxReceiveWindowIncrement c).

Definition set_increment c (inc time : Z) : flowController :=
  mkFC (fc_streamID c) (fc_contributesToConnection c) (fc_bytesSent c) (fc_sendWindow c)
    (fc_bytesRetrans c) time (fc_bytesRead c) (fc_highestReceived c)
    (fc_receiveWindow c) inc (fc_maxReceiveWindowIncrement c).

Definition maxRemoteRTT env : Z := map_fold (fun _ r m => MaxDuration m r) 0 (env_remoteRTTs env).

Definition maybeAdjustWindowIncrement env c (now : Z) : flowController :=
  if IsZero (fc_lastWindowUpdateTime c) then c
  else
  let rtt := rtt_smoothedRTT (env_rttStats env) in
  if rtt =? 0 then c
  else
  let timeSinceLastWindowUpdate := timeSub now (fc_lastWindowUpdateTime c) in
  if timeSinceLastWindowUpdate >=? i64 (2 * MaxDuration rtt (maxRemoteRTT env)) then c
  else set_increment c (MinByteCount (u64 (2 * fc_receiveWindowIncrement c)) (fc_maxReceiveWindowIncrement c))
         (fc_lastWindowUpdateTime c).

(** The new controller, whether an update is needed, the new increment and the
    new offset. *)
Definition MaybeUpdateWindow env c (now : Z) : flowController * (bool * Z * Z) :=
  let diff := fc_receiveWindow c -u fc_bytesRead c in
  if diff <? fc_receiveWindowIncrement c / 2 then
    let oldWindowIncrement := fc_receiveWindowIncrement c in
    let c := maybeAdjustWindowIncrement env c now in
    let newWindowIncrement :=
      if negb (fc_receiveWindowIncrement c =? oldWindowIncrement) then fc_receiveWindowIncrement c else 0 in
    let c := mkFC (fc_streamID c) (fc_contributesToConnection c) (fc_bytesSent c) (fc_sendWindow c)
      (fc_bytesRetrans c) now (fc_bytesRead c) (fc_highestReceived c)
      (fc_bytesRead c +u fc_receiveWindowIncrement c) (fc_receiveWindowIncrement c)
      (fc_maxReceiveWindowIncrement c) in
    (c, (true, newWindowIncrement, fc_receiveWindow c))
  else (c, (false, fc_receiveWindowIncrement c, fc_receiveWindow c)).

Definition EnsureMinimumWindowIncrement c (inc : Z) : flowController :=
  if inc >? fc_receiveWindowIncrement c
  then set_increment c (MinByteCount inc (fc_maxReceiveWindowIncrement c)) zeroTime
  else c.

Definition CheckFlowControlViolation c : bool := fc_highestReceived c >? fc_receiveWindow c.

(** ** The manager *)

Record flowControlManager : Type := mkFM {
  fm_streamFlowController : gmap Z flowController;
  fm_connFlowController : flowController;
}.
Implicit Types f : flowControlManager.

Definition errMapAccess : error := errors_New "Error accessing the flowController map.".

Definition errStreamViolation (byteOffset streamID window : Z) : error :=
  QuicError qerr.FlowControlReceivedTooMuchData
    ("Received " +:+ pretty byteOffset +:+ " bytes on stream " +:+ pretty streamID +:+ ", allowed " +:+
     pretty window +:+ " bytes").
Definition errConnViolation (highestReceived window : Z) : error :=
  QuicError qerr.FlowControlReceivedTooMuchData
    ("Received " +:+ pretty highestReceived +:+ " bytes for the connection, allowed " +:+
     pretty window +:+ " bytes").

Definition NewFlowControlManager env : flowControlManager := mkFM ∅ (newFlowController env 0 false).

Definition NewStream env f (streamID : Z) (contributesToConnection : bool) : flowControlManager :=
  match fm_streamFlowController f !! streamID with
  | Some _ => f
  | None => mkFM (<[streamID := newFlowController env streamID contributesToConnection]> (fm_streamFlowController f))
              (fm_connFlowController f)
  end.

Definition RemoveStream f (streamID : Z) : flowControlManager :=
  mkFM (delete streamID (fm_streamFlowController f)) (fm_connFlowController f).

(** What [ResetStream] and [UpdateHighestReceived] do after the stream's
    controller [fc] was updated. *)
Definition chargeConnection f (streamID byteOffset : Z) (fc : flowController) (increment : Z) :
    flowControlManager * option error :=
  let f := mkFM (<[streamID := fc]> (fm_streamFlowController f)) (fm_connFlowController f) in
  if CheckFlowControlViolation fc
  then (f, Some (errStreamViolation byteOffset streamID (fc_receiveWindow fc)))
  else if fc_contributesToConnection fc then
    let conn := IncrementHighestReceived (fm_connFlowController f) increment in
    let f := mkFM (fm_streamFlowController f) conn in
    if CheckFlowControlViolation conn
    then (f, Some (errConnViolation (fc_highestReceived conn) (fc_receiveWindow conn)))
    else (f, None)
  else (f, None).

Definition ResetStream f (streamID byteOffset : Z) : flowControlManager * option error :=
  match fm_streamFlowController f !! streamID with
  | None => (f, Some errMapAccess)
  | Some fc =>
      let '(fc, increment, err) := fc_UpdateHighestReceived fc byteOffset in
      match err with
      | Some _ => (f, Some (ErrCode qerr.StreamDataAfterTermination))
      | None => chargeConnection f streamID byteOffset fc increment
      end
  end.

Definition UpdateHighestReceived f (streamID byteOffset : Z) : flowControlManager * option error :=
  match fm_streamFlowController f !! streamID with
  | None => (f, Some errMapAccess)
  | Some fc =>
      let '(fc, increment, _) := fc_UpdateHighestReceived fc byteOffset in
      chargeConnection f streamID byteOffset fc increment
  end.

(** The operations that add to a counter of the stream and, when it
    contributes, of the connection. *)
Definition addToBoth (add : flowController -> flowController) f (streamID : Z) :
    flowControlManager * option error :=
  match fm_streamFlowController f !! streamID with
  | None => (f, Some errMapAccess)
  | Some fc =>
      (mkFM (<[streamID := add fc]> (fm_streamFlowController f))
         (if fc_contributesToConnection fc then add (fm_connFlowController f) else fm_connFlowController f), None)
  end.

Definition AddBytesRead f (streamID n now : Z) := addToBoth (fun c => fc_AddBytesRead c n now) f streamID.
Definition AddBytesSent f (streamID n : Z) := addToBoth (fun c => fc_AddBytesSent c n) f streamID.
Definition AddBytesRetrans f (streamID n : Z) := addToBoth (fun c => fc_AddBytesRetrans c n) f streamID.

Record WindowUpdate : Type := mkWU { wu_StreamID : Z; wu_Offset : Z }.

(** [protocol.ByteCount(float64(inc) * protocol.ConnectionFlowControlMultiplier)]. *)
Definition connectionIncrement (inc : Z) : Z :=
  f64_trunc (f64_mul (f64_of_Z inc) (f64_div (f64_of_Z 3) (f64_of_Z 2))).

(** One iteration over the map, for the stream [id]. *)
Definition updateStreamWindow env (force : bool) (now : Z) f (id : Z) : flowControlManager * list WindowUpdate :=
  match fm_streamFlowController f !! id with
  | None => (f, [])
  | Some fc =>
      let '(fc, (necessary, newIncrement, offset)) := MaybeUpdateWindow env fc now in
      let streams := <[id := fc]> (fm_streamFlowController f) in
      if force || necessary then
        (mkFM streams
           (if fc_contributesToConnection fc && negb (newIncrement =? 0)
            then EnsureMinimumWindowIncrement (fm_connFlowController f) (connectionIncrement newIncrement)
            else fm_connFlowController f),
         [mkWU id offset])
      else (mkFM streams (fm_connFlowController f), [])
  end.

Fixpoint updateStreamWindows env (force : bool) (now : Z) f (order : list Z) :
    flowControlManager * list WindowUpdate :=
  match order with
  | [] => (f, [])
  | id :: order' =>
      let '(f, res) := updateStreamWindow env force now f id in
      let '(f, res') := updateStreamWindows env force now f order' in
      (f, res ++ res')
  end.

(** [order] is the order in which the iteration over the map meets its keys,
    which the language leaves unspecified. *)
Definition GetWindowUpdates env f (force : bool) (now : Z) (order : list Z) :
    flowControlManager * list WindowUpdate :=
  let '(f, res) := updateStreamWindows env force now f order in
  let '(conn, (necessary, _, offset)) := MaybeUpdateWindow env (fm_connFlowController f) now in
  (mkFM (fm_streamFlowController f) conn, if force || necessary then res ++ [mkWU 0 offset] else res).

(** The getters, which fail on an unknown stream. *)
Definition ofStream (get : flowController -> Z) f (streamID : Z) : result Z :=
  match fm_streamFlowController f !! streamID with
  | Some fc => Ok (get fc)
  | None => Err errMapAccess
  end.

Definition GetReceiveWindow f (streamID : Z) : result Z :=
  if streamID =? 0 then Ok (fc_receiveWindow (fm_connFlowController f))
  else ofStream fc_receiveWindow f streamID.
Definition GetBytesSent f (streamID : Z) : result Z := ofStream fc_bytesSent f streamID.
Definition GetBytesRetrans f (streamID : Z) : result Z := ofStream fc_bytesRetrans f streamID.

Definition SendWindowSize env f (streamID : Z) : result Z :=
  ofStream (fun fc =>
    let res := fc_SendWindowSize env fc in
    if fc_contributesToConnection fc
    then MinByteCount res (fc_SendWindowSize env (fm_connFlowController f)) else res) f streamID.

Definition RemainingConnectionWindowSize env f : Z := fc_SendWindowSize env (fm_connFlowController f).

Definition UpdateWindow f (streamID offset : Z) : flowControlManager * result bool :=
  if streamID =? 0 then
    let '(conn, b) := UpdateSendWindow (fm_connFlowController f) offset in
    (mkFM (fm_streamFlowController f) conn, Ok b)
  else
    match fm_streamFlowController f !! streamID with
    | None => (f, Err errMapAccess)
    | Some fc =>
        let '(fc, b) := UpdateSendWindow fc offset in
        (mkFM (<[streamID := fc]> (fm_streamFlowController f)) (fm_connFlowController f), Ok b)
    end.
End flow_controller.
