(* ===== verification/FlowControlProofs.v ===== *)
(** * Properties of flow control

    The connection's counters are the sums of those of the streams that
    contribute to it, the peer is never allowed past an advertised window, and
    the order in which the map of streams is visited does not matter. *)
From S2P Require Import Prelude Qerr ByteOrder Protocol Float32 RttStats ConnParams FlowControl.

(** ** Sums over the streams that contribute to the connection *)

Definition weight (get : flowController -> Z) (c : flowController) : Z :=
  if fc_contributesToConnection c then get c else 0.

Definition csum (get : flowController -> Z) (m : gmap Z flowController) : Z :=
  map_fold (fun _ c s => weight get c + s) 0 m.

Lemma csum_insert get m i c : m !! i = None -> csum get (<[i := c]> m) = weight get c + csum get m.
Proof. intros E. unfold csum. rewrite map_fold_insert_L; [done| |done]. intros. lia. Qed.

Lemma csum_delete get m i c : m !! i = Some c -> csum get (delete i m) = csum get m - weight get c.
Proof.
  intros E. unfold csum. rewrite (map_fold_delete_L _ _ i c m); [lia| |done]. intros. lia.
Qed.

Lemma csum_update get m i c c' :
  m !! i = Some c -> csum get (<[i := c']> m) = csum get m - weight get c + weight get c'.
Proof.
  intros E. rewrite <- insert_delete_eq, csum_insert by apply lookup_delete_eq.
  rewrite (csum_delete _ _ _ c) by done. lia.
Qed.

Lemma csum_le get get' m :
  (forall i c, m !! i = Some c -> get c <= get' c) -> csum get m <= csum get' m.
Proof.
  induction m as [|i c m Hi IH] using map_ind; intros Hle; [done|].
  rewrite !csum_insert by done. assert (get c <= get' c) by (apply (Hle i), lookup_insert_eq).
  assert (csum get m <= csum get' m).
  { apply IH. intros j d Hj. apply (Hle j). rewrite lookup_insert_ne; [done|congruence]. }
  unfold weight. destruct (fc_contributesToConnection c); lia.
Qed.

Lemma csum_nonneg get m : (forall i c, m !! i = Some c -> 0 <= get c) -> 0 <= csum get m.
Proof.
  intros Hle. enough (E : csum (fun _ => 0) m = 0) by (rewrite <- E; by apply csum_le).
  clear. induction m as [|i c m Hi IH] using map_ind; [done|].
  rewrite csum_insert by done. unfold weight. case_match; lia.
Qed.

(** ** One controller *)

(** A controller whose peer respected the window, with at most 2^62 bytes. *)
Record fc_ok (c : flowController) : Prop := {
  fo_read : 0 <= fc_bytesRead c <= fc_highestReceived c;
  fo_received : fc_highestReceived c <= fc_receiveWindow c;
  fo_window : fc_receiveWindow c <= fc_bytesRead c + fc_maxReceiveWindowIncrement c;
  fo_increment : 0 <= fc_receiveWindowIncrement c <= fc_maxReceiveWindowIncrement c;
  fo_max : fc_maxReceiveWindowIncrement c < 2 ^ 32;
  fo_small : fc_highestReceived c < 2 ^ 62;
  fo_sent : is_u64 (fc_bytesSent c);
  fo_send : is_u64 (fc_sendWindow c);
}.

(** The parameters of a connection: the configured maximum is at least the
    initial window. *)
Definition params_ok {P} `{ConnectionParametersManager P} (p : P) : Prop :=
  0 <= GetReceiveStreamFlowControlWindow p <= GetMaxReceiveStreamFlowControlWindow p /\
  GetMaxReceiveStreamFlowControlWindow p < 2 ^ 32 /\
  0 <= GetReceiveConnectionFlowControlWindow p <= GetMaxReceiveConnectionFlowControlWindow p /\
  GetMaxReceiveConnectionFlowControlWindow p < 2 ^ 32 /\
  is_u64 (GetSendStreamFlowControlWindow p) /\ is_u64 (GetSendConnectionFlowControlWindow p).

Section flow_control.
Context {P : Type} `{ConnectionParametersManager P}.
Implicit Types (env : fcEnv P) (c : flowController) (f : flowControlManager).

Lemma newFlowController_ok env id b : params_ok (env_params env) -> fc_ok (newFlowController env id b).
Proof.
  intros (S1 & S2 & C1 & C2 & _). unfold newFlowController. case_test; constructor; cbn; unfold is_u64; lia.
Qed.

(** The fields [MaybeUpdateWindow] leaves alone. *)
Lemma MaybeUpdateWindow_same env c now :
  let c' := fst (MaybeUpdateWindow env c now) in
  fc_contributesToConnection c' = fc_contributesToConnection c /\ fc_bytesSent c' = fc_bytesSent c /\
  fc_bytesRead c' = fc_bytesRead c /\ fc_highestReceived c' = fc_highestReceived c.
Proof.
  unfold MaybeUpdateWindow, maybeAdjustWindowIncrement. cbv zeta. repeat case_test; done.
Qed.

Lemma adjust_increment env c now :
  0 <= fc_receiveWindowIncrement c <= fc_maxReceiveWindowIncrement c -> fc_maxReceiveWindowIncrement c < 2 ^ 32 ->
  exists inc, maybeAdjustWindowIncrement env c now = set_increment c inc (fc_lastWindowUpdateTime c) /\
    fc_receiveWindowIncrement c <= inc <= fc_maxReceiveWindowIncrement c.
Proof.
  intros Hi Hm. unfold maybeAdjustWindowIncrement.
  assert (Hs : c = set_increment c (fc_receiveWindowIncrement c) (fc_lastWindowUpdateTime c)) by (by destruct c).
  repeat (case_test; [exists (fc_receiveWindowIncrement c); split; [exact Hs|lia]|]).
  eexists. split; [done|]. unfold MinByteCount. rewrite u64_small by (unfold is_u64; lia). case_test; lia.
Qed.

(** A window update never takes back what was advertised, and leaves the peer
    at least half an increment. *)
Lemma MaybeUpdateWindow_spec env c now :
  fc_ok c ->
  let '(c', (necessary, newIncrement, offset)) := MaybeUpdateWindow env c now in
  fc_ok c' /\ fc_receiveWindow c <= fc_receiveWindow c' /\ offset = fc_receiveWindow c' /\
  fc_receiveWindowIncrement c <= fc_receiveWindowIncrement c' /\
  fc_receiveWindowIncrement c' / 2 <= fc_receiveWindow c' - fc_bytesRead c' /\
  (necessary = false -> c' = c) /\ (necessary = true -> fc_receiveWindow c < fc_receiveWindow c').
Proof.
  intros [Hr Hh Hw Hi Hm Hs Ht Hd]. unfold MaybeUpdateWindow.
  rewrite sub64_small by lia. destruct (_ <? _) eqn:E; bool_to_prop.
  - destruct (adjust_increment env c now Hi Hm) as (inc & -> & Hinc). cbn.
    rewrite add64_small by lia. assert (0 <= inc) by lia.
    pose proof (Z.div_le_mono (fc_receiveWindowIncrement c) inc 2 ltac:(lia) (proj1 Hinc)).
    assert (fc_receiveWindowIncrement c / 2 <= fc_receiveWindowIncrement c /\ inc / 2 <= inc) by
      (split; apply Z.div_le_upper_bound; lia).
    split; [constructor; cbn; (lia || done)|]. repeat split; (lia || done).
  - split; [done|]. repeat split; (lia || done).
Qed.

Lemma EnsureMinimum_ok c inc :
  fc_ok c -> fc_ok (EnsureMinimumWindowIncrement c inc) /\
  fc_receiveWindow (EnsureMinimumWindowIncrement c inc) = fc_receiveWindow c /\
  fc_bytesRead (EnsureMinimumWindowIncrement c inc) = fc_bytesRead c /\
  fc_highestReceived (EnsureMinimumWindowIncrement c inc) = fc_highestReceived c /\
  fc_bytesSent (EnsureMinimumWindowIncrement c inc) = fc_bytesSent c.
Proof.
  intros Hok. unfold EnsureMinimumWindowIncrement. case_test; [|done].
  split; [|done]. destruct Hok. constructor; cbn; try done. unfold MinByteCount. case_test; lia.
Qed.

(** Two demands of a minimum commute. *)
Lemma EnsureMinimum_comm c a b :
  EnsureMinimumWindowIncrement (EnsureMinimumWindowIncrement c a) b =
  EnsureMinimumWindowIncrement (EnsureMinimumWindowIncrement c b) a.
Proof.
  unfold EnsureMinimumWindowIncrement. rewrite !Z.gtb_ltb.
  destruct (fc_receiveWindowIncrement c <? a) eqn:Ea, (fc_receiveWindowIncrement c <? b) eqn:Eb;
    cbn [set_increment fc_receiveWindowIncrement fc_maxReceiveWindowIncrement]; unfold MinByteCount;
    rewrite ?Ea, ?Eb; try done;
    destruct (a <? fc_maxReceiveWindowIncrement c) eqn:Ma, (b <? fc_maxReceiveWindowIncrement c) eqn:Mb;
    bool_to_prop; repeat case_test; unfold set_increment; cbn; try (f_equal; lia).
Qed.

(** ** The iteration over the map of streams *)

(** What one iteration does to each component, as functions of the stream. *)
Definition streamUpdate env (force : bool) (now : Z) (fc : flowController) : list (Z -> WindowUpdate) :=
  let '(_, (necessary, _, offset)) := MaybeUpdateWindow env fc now in
  if force || necessary then [fun id => mkWU id offset] else [].

Definition streamDemand env (force : bool) (now : Z) (fc conn : flowController) : flowController :=
  let '(fc', (necessary, newIncrement, _)) := MaybeUpdateWindow env fc now in
  if (force || necessary) && (fc_contributesToConnection fc' && negb (newIncrement =? 0))
  then EnsureMinimumWindowIncrement conn (connectionIncrement newIncrement) else conn.

Lemma updateStreamWindow_eq env force now f id fc :
  fm_streamFlowController f !! id = Some fc ->
  updateStreamWindow env force now f id =
  (mkFM (<[id := fst (MaybeUpdateWindow env fc now)]> (fm_streamFlowController f))
        (streamDemand env force now fc (fm_connFlowController f)),
   map (fun g => g id) (streamUpdate env force now fc)).
Proof.
  intros E. unfold updateStreamWindow, streamUpdate, streamDemand. rewrite E.
  destruct (MaybeUpdateWindow env fc now) as [c' [[nec inc] off]]. cbn [fst].
  destruct (force || nec); cbn [andb map]; done.
Qed.

Lemma streamDemand_comm env force now fc1 fc2 conn :
  streamDemand env force now fc1 (streamDemand env force now fc2 conn) =
  streamDemand env force now fc2 (streamDemand env force now fc1 conn).
Proof.
  unfold streamDemand.
  destruct (MaybeUpdateWindow env fc1 now) as [c1 [[nec1 inc1] off1]].
  destruct (MaybeUpdateWindow env fc2 now) as [c2 [[nec2 inc2] off2]].
  destruct ((force || nec1) && _), ((force || nec2) && _); try done. apply EnsureMinimum_comm.
Qed.

Lemma updateStreamWindow_comm env force now f i j :
  i <> j ->
  let '(f1, r1) := updateStreamWindow env force now f i in
  let '(f2, r2) := updateStreamWindow env force now f1 j in
  let '(g1, s1) := updateStreamWindow env force now f j in
  let '(g2, s2) := updateStreamWindow env force now g1 i in
  f2 = g2 /\ r1 = s2 /\ r2 = s1.
Proof.
  intros Hij.
  assert (Hnone : forall g k, fm_streamFlowController g !! k = None -> updateStreamWindow env force now g k = (g, []))
    by (intros g k E; unfold updateStreamWindow; by rewrite E).
  destruct (fm_streamFlowController f !! i) as [ci|] eqn:Ei, (fm_streamFlowController f !! j) as [cj|] eqn:Ej.
  - rewrite (updateStreamWindow_eq _ _ _ f i ci Ei), (updateStreamWindow_eq _ _ _ f j cj Ej).
    rewrite (updateStreamWindow_eq _ _ _ _ j cj), (updateStreamWindow_eq _ _ _ _ i ci);
      cbn [fm_streamFlowController fm_connFlowController].
    + split; [|done]. rewrite insert_insert_ne by done. f_equal. apply streamDemand_comm.
    + rewrite lookup_insert_ne by congruence. done.
    + rewrite lookup_insert_ne by congruence. done.
  - rewrite (Hnone f j Ej), (updateStreamWindow_eq _ _ _ f i ci Ei).
    rewrite Hnone; [done|]. cbn. by rewrite lookup_insert_ne by congruence.
  - rewrite (Hnone f i Ei), (updateStreamWindow_eq _ _ _ f j cj Ej).
    rewrite Hnone; [done|]. cbn. by rewrite lookup_insert_ne by congruence.
  - rewrite (Hnone f i Ei), (Hnone f j Ej), (Hnone f i Ei). done.
Qed.

Lemma updateStreamWindows_perm env force now f o1 o2 :
  o1 ≡ₚ o2 -> NoDup o1 ->
  fst (updateStreamWindows env force now f o1) = fst (updateStreamWindows env force now f o2) /\
  snd (updateStreamWindows env force now f o1) ≡ₚ snd (updateStreamWindows env force now f o2).
Proof.
  intros Hp. revert f. induction Hp as [|x l l' Hp IH|x y l|l l' l'' Hp1 IH1 Hp2 IH2]; intros f Hn.
  - done.
  - cbn [updateStreamWindows]. destruct (updateStreamWindow env force now f x) as [f1 r1].
    inversion_clear Hn as [|? ? _ Hl]. destruct (IH f1 Hl) as [E1 E2].
    destruct (updateStreamWindows env force now f1 l), (updateStreamWindows env force now f1 l').
    cbn [fst snd] in *. split; [done|]. by rewrite E2.
  - cbn [updateStreamWindows]. inversion_clear Hn as [|? ? Hxy _].
    pose proof (updateStreamWindow_comm env force now f y x ltac:(set_solver)) as Hc.
    destruct (updateStreamWindow env force now f y) as [f1 r1].
    destruct (updateStreamWindow env force now f1 x) as [f2 r2].
    destruct (updateStreamWindow env force now f x) as [g1 s1].
    destruct (updateStreamWindow env force now g1 y) as [g2 s2]. destruct Hc as (-> & -> & ->).
    destruct (updateStreamWindows env force now g2 l). cbn [fst snd]. split; [done|].
    rewrite !app_assoc. by rewrite (Permutation_app_comm s2 s1).
  - destruct (IH1 f Hn) as [E1 E2], (IH2 f) as [E3 E4]; [by rewrite <- Hp1|].
    split; [by rewrite E1|by rewrite E2].
Qed.

(** ** Runs of the manager *)

(** A manager and what the streams removed so far had received, read and sent. *)
Record fstate : Type := mkFState { g_recv : Z; g_read : Z; g_sent : Z; g_fm : flowControlManager }.
Implicit Types s : fstate.

Definition with_fm s f : fstate := mkFState (g_recv s) (g_read s) (g_sent s) f.
Definition streamsOf s : gmap Z flowController := fm_streamFlowController (g_fm s).
Definition connOf s : flowController := fm_connFlowController (g_fm s).

Definition removed s (id : Z) : fstate :=
  let w get := match streamsOf s !! id with Some c => weight get c | None => 0 end in
  mkFState (g_recv s + w fc_highestReceived) (g_read s + w fc_bytesRead) (g_sent s + w fc_bytesSent)
    (RemoveStream (g_fm s) id).

(** All bytes received on the streams that contribute, closed ones included. *)
Definition total_received s : Z := g_recv s + csum fc_highestReceived (streamsOf s).

(** The operations, with what their callers guarantee: a stream reads only what
    it received, and sends at most the send window; data is received while no
    operation failed, and fewer than 2^62 bytes in all. *)
Inductive fstep : fstate -> fstate -> Prop :=
| fstep_NewStream s env id b :
    params_ok (env_params env) -> fstep s (with_fm s (NewStream env (g_fm s) id b))
| fstep_RemoveStream s id : fstep s (removed s id)
| fstep_UpdateHighestReceived s f id off :
    0 <= off < 2 ^ 62 -> UpdateHighestReceived (g_fm s) id off = (f, None) ->
    total_received (with_fm s f) < 2 ^ 62 -> fstep s (with_fm s f)
| fstep_ResetStream s f id off :
    0 <= off < 2 ^ 62 -> ResetStream (g_fm s) id off = (f, None) ->
    total_received (with_fm s f) < 2 ^ 62 -> fstep s (with_fm s f)
| fstep_AddBytesRead s c id n now :
    streamsOf s !! id = Some c -> 0 <= n <= fc_highestReceived c - fc_bytesRead c ->
    fstep s (with_fm s (fst (AddBytesRead (g_fm s) id n now)))
| fstep_AddBytesSent s env id n w :
    params_ok (env_params env) -> SendWindowSize env (g_fm s) id = Ok w -> 0 <= n <= w ->
    fstep s (with_fm s (fst (AddBytesSent (g_fm s) id n)))
| fstep_AddBytesRetrans s id n : fstep s (with_fm s (fst (AddBytesRetrans (g_fm s) id n)))
| fstep_UpdateWindow s id off : is_u64 off -> fstep s (with_fm s (fst (UpdateWindow (g_fm s) id off)))
| fstep_GetWindowUpdates s env force now order :
    fstep s (with_fm s (fst (GetWindowUpdates env (g_fm s) force now order))).

Inductive freach : fstate -> Prop :=
| freach_new env : params_ok (env_params env) -> freach (mkFState 0 0 0 (NewFlowControlManager env))
| freach_step s s' : freach s -> fstep s s' -> freach s'.

Record f_inv s : Prop := {
  fi_streams : forall i c, streamsOf s !! i = Some c -> fc_ok c;
  fi_conn : fc_ok (connOf s);
  fi_recv : fc_highestReceived (connOf s) = g_recv s + csum fc_highestReceived (streamsOf s);
  fi_read : fc_bytesRead (connOf s) = g_read s + csum fc_bytesRead (streamsOf s);
  fi_sent : fc_bytesSent (connOf s) = g_sent s + csum fc_bytesSent (streamsOf s);
  fi_closed : 0 <= g_read s <= g_recv s;
}.

(** Changing one stream and the connection accordingly. *)
Lemma f_inv_update s id c c' conn' :
  f_inv s -> streamsOf s !! id = Some c -> fc_ok c' -> fc_ok conn' ->
  fc_contributesToConnection c' = fc_contributesToConnection c ->
  fc_highestReceived conn' - fc_highestReceived (connOf s) =
    weight fc_highestReceived c' - weight fc_highestReceived c ->
  fc_bytesRead conn' - fc_bytesRead (connOf s) = weight fc_bytesRead c' - weight fc_bytesRead c ->
  fc_bytesSent conn' - fc_bytesSent (connOf s) = weight fc_bytesSent c' - weight fc_bytesSent c ->
  f_inv (with_fm s (mkFM (<[id := c']> (streamsOf s)) conn')).
Proof.
  intros [Hs Hc Hv Hr Ht Hcl] E Hok Hok' Eb E1 E2 E3.
  constructor; cbn; try done; [|rewrite (csum_update _ _ _ c) by done; lia..].
  intros i d. destruct (decide (i = id)) as [->|Hne].
  - rewrite lookup_insert_eq. congruence.
  - rewrite lookup_insert_ne by congruence. apply Hs.
Qed.

Lemma f_inv_conn s conn' :
  f_inv s -> fc_ok conn' -> fc_highestReceived conn' = fc_highestReceived (connOf s) ->
  fc_bytesRead conn' = fc_bytesRead (connOf s) -> fc_bytesSent conn' = fc_bytesSent (connOf s) ->
  f_inv (with_fm s (mkFM (streamsOf s) conn')).
Proof. intros [Hs Hc Hv Hr Ht Hcl] Hok E1 E2 E3. constructor; cbn; (done || congruence). Qed.

(** *** Receiving *)

Lemma violation_spec c : CheckFlowControlViolation c = false <-> fc_highestReceived c <= fc_receiveWindow c.
Proof. unfold CheckFlowControlViolation. rewrite Z.gtb_ltb. apply Z.ltb_ge. Qed.

Lemma raise_ok c v :
  fc_ok c -> fc_highestReceived c <= v <= fc_receiveWindow c -> v < 2 ^ 62 -> fc_ok (set_highestReceived c v).
Proof. intros [] Hv Hs. constructor; cbn; (done || lia). Qed.

Lemma fc_UpdateHighestReceived_spec c off :
  fc_ok c -> 0 <= off < 2 ^ 62 ->
  let v := Z.max (fc_highestReceived c) off in
  exists e, fc_UpdateHighestReceived c off = (set_highestReceived c v, v - fc_highestReceived c, e) /\
    (e = None <-> fc_highestReceived c <= off).
Proof.
  intros [Hr Hh Hw Hi Hm Hs Ht Hd] Ho. cbv zeta. unfold fc_UpdateHighestReceived. rewrite Z.gtb_ltb.
  assert (Hsame : set_highestReceived c (fc_highestReceived c) = c) by (by destruct c).
  destruct (off =? _) eqn:E1; bool_to_prop; [|destruct (_ <? off) eqn:E2; bool_to_prop].
  - exists None. subst off. rewrite Z.max_id, Hsame, Z.sub_diag. split; [done|]. split; [lia|done].
  - exists None. rewrite Z.max_r, sub64_small by lia. split; [done|]. split; [lia|done].
  - eexists. rewrite Z.max_l, Hsame, Z.sub_diag by lia. split; [done|]. split; [done|lia].
Qed.

Lemma chargeConnection_inv s id off c v f :
  f_inv s -> streamsOf s !! id = Some c -> fc_highestReceived c <= v < 2 ^ 62 ->
  chargeConnection (g_fm s) id off (set_highestReceived c v) (v - fc_highestReceived c) = (f, None) ->
  total_received (with_fm s f) < 2 ^ 62 -> f_inv (with_fm s f).
Proof.
  intros Hinv E Hv Hch Htot. unfold chargeConnection in Hch.
  destruct (CheckFlowControlViolation (set_highestReceived c v)) eqn:V1; [done|].
  apply violation_spec in V1. cbn in V1.
  assert (Hc : fc_ok c) by (by eapply fi_streams). pose proof Hc as Hc'. destruct Hc' as [].
  assert (Hok : fc_ok (set_highestReceived c v)) by (apply raise_ok; (done || lia)).
  cbn [fc_contributesToConnection set_highestReceived] in Hch.
  destruct (fc_contributesToConnection c) eqn:Eb; cbn [fm_streamFlowController fm_connFlowController] in Hch.
  - destruct (CheckFlowControlViolation (IncrementHighestReceived _ _)) eqn:V2; [done|].
    injection Hch as <-. unfold total_received in Htot. cbn in Htot.
    rewrite (csum_update _ _ _ c) in Htot by done. unfold weight in Htot at 1 2. cbn in Htot. rewrite Eb in Htot.
    pose proof (fi_recv _ Hinv) as Hrecv. pose proof (fi_conn _ Hinv) as Hconn. pose proof Hconn as Hconn'.
    destruct Hconn'. apply violation_spec in V2. unfold connOf, streamsOf in *. cbn in V2.
    assert (Einc : IncrementHighestReceived (fm_connFlowController (g_fm s)) (v - fc_highestReceived c) =
      set_highestReceived (fm_connFlowController (g_fm s))
        (fc_highestReceived (fm_connFlowController (g_fm s)) + (v - fc_highestReceived c))).
    { unfold IncrementHighestReceived. rewrite add64_small; [done|]. lia. }
    rewrite add64_small in V2 by lia.
    apply (f_inv_update s id c); try done; cbn [fc_contributesToConnection set_highestReceived]; rewrite ?Einc;
      unfold weight; cbn; rewrite ?Eb; try (unfold connOf; lia).
    apply raise_ok; (done || lia).
  - injection Hch as <-. apply (f_inv_update s id c); try done; [apply Hinv|..]; unfold weight; cbn;
      rewrite ?Eb; unfold connOf; lia.
Qed.

Lemma receive_inv s id off f (reset : bool) :
  f_inv s -> 0 <= off < 2 ^ 62 ->
  (if reset then ResetStream (g_fm s) id off else UpdateHighestReceived (g_fm s) id off) = (f, None) ->
  total_received (with_fm s f) < 2 ^ 62 -> f_inv (with_fm s f).
Proof.
  intros Hinv Ho E Htot. unfold ResetStream, UpdateHighestReceived in E. fold (streamsOf s) in E.
  destruct (streamsOf s !! id) as [c|] eqn:Ec; [|by destruct reset].
  pose proof (fi_streams _ Hinv _ _ Ec) as Hc.
  destruct (fc_UpdateHighestReceived_spec c off Hc Ho) as (e & Eu & _). rewrite Eu in E.
  destruct Hc. apply (chargeConnection_inv s id off c (Z.max (fc_highestReceived c) off)); [done|done|lia| |done].
  destruct reset; [by destruct e|done].
Qed.

(** *** Counters *)

Lemma addToBoth_inv s id c add :
  f_inv s -> streamsOf s !! id = Some c ->
  (forall d, fc_contributesToConnection (add d) = fc_contributesToConnection d) ->
  fc_ok (add c) -> (fc_contributesToConnection c = true -> fc_ok (add (connOf s))) ->
  (forall get, get = fc_highestReceived \/ get = fc_bytesRead \/ get = fc_bytesSent ->
     fc_contributesToConnection c = true -> get (add (connOf s)) - get (connOf s) = get (add c) - get c) ->
  f_inv (with_fm s (fst (addToBoth add (g_fm s) id))).
Proof.
  intros Hinv E Hb Hok Hok' Hd. unfold addToBoth. fold (streamsOf s). rewrite E. cbn [fst].
  fold (connOf s). apply (f_inv_update s id c); try done.
  - case_match; [by apply Hok'|apply Hinv].
  - unfold weight. rewrite Hb. case_match; [|lia]. apply Hd; tauto.
  - unfold weight. rewrite Hb. case_match; [|lia]. apply Hd; tauto.
  - unfold weight. rewrite Hb. case_match; [|lia]. apply Hd; tauto.
Qed.

(** Unread bytes of one contributing stream are unread bytes of the connection. *)
Lemma unread_le s id c :
  f_inv s -> streamsOf s !! id = Some c -> fc_contributesToConnection c = true ->
  fc_highestReceived c - fc_bytesRead c <= fc_highestReceived (connOf s) - fc_bytesRead (connOf s).
Proof.
  intros [Hs Hc Hv Hr Ht Hcl] E Eb. rewrite Hv, Hr.
  assert (Hle : csum fc_bytesRead (delete id (streamsOf s)) <= csum fc_highestReceived (delete id (streamsOf s))).
  { apply csum_le. intros i d Hd. apply lookup_delete_Some in Hd as [_ Hd]. apply Hs in Hd. apply Hd. }
  rewrite !(csum_delete _ _ _ _ E) in Hle. unfold weight in Hle. rewrite Eb in Hle. lia.
Qed.

Lemma read_inv s id c n now :
  f_inv s -> streamsOf s !! id = Some c -> 0 <= n <= fc_highestReceived c - fc_bytesRead c ->
  f_inv (with_fm s (fst (AddBytesRead (g_fm s) id n now))).
Proof.
  intros Hinv E Hn. pose proof (fi_streams _ Hinv _ _ E) as Hc. pose proof (fi_conn _ Hinv) as Hconn.
  assert (Hread : forall d, fc_ok d -> n <= fc_highestReceived d - fc_bytesRead d ->
    fc_bytesRead d +u n = fc_bytesRead d + n /\ fc_ok (fc_AddBytesRead d n now)).
  { intros d [] Hd. assert (Ea : fc_bytesRead d +u n = fc_bytesRead d + n) by (apply add64_small; lia).
    split; [done|]. constructor; cbn; rewrite ?Ea; (lia || done). }
  apply (addToBoth_inv s id c); try done.
  - apply Hread; [done|lia].
  - intros Eb. apply Hread; [done|]. pose proof (unread_le s id c Hinv E Eb). lia.
  - intros get Hg Eb. pose proof (unread_le s id c Hinv E Eb).
    destruct (Hread c Hc ltac:(lia)) as [E1 _]. destruct (Hread (connOf s) Hconn ltac:(lia)) as [E2 _].
    destruct Hg as [->|[->| ->]]; cbn; lia.
Qed.

(** *** Sending *)

Lemma sendWindow_u64 env c : params_ok (env_params env) -> fc_ok c -> is_u64 (getSendWindow env c).
Proof.
  intros (_ & _ & _ & _ & Hs & Hc) Hok. unfold getSendWindow. repeat case_test; try done. apply Hok.
Qed.

Lemma fc_SendWindowSize_spec env c n :
  params_ok (env_params env) -> fc_ok c -> 0 <= n <= fc_SendWindowSize env c ->
  fc_bytesSent c +u n = fc_bytesSent c + n /\ fc_ok (fc_AddBytesSent c n) /\
  (0 < n -> fc_bytesSent c + n <= getSendWindow env c).
Proof.
  intros Hp Hok Hn. pose proof (sendWindow_u64 env c Hp Hok) as Hw. unfold fc_SendWindowSize in Hn.
  rewrite Z.gtb_ltb in Hn. pose proof Hok as Hok'. destruct Hok' as [? ? ? ? ? ? Hs ?].
  unfold is_u64 in Hs, Hw.
  assert (Hb : (0 < n -> fc_bytesSent c + n <= getSendWindow env c) /\ 0 <= fc_bytesSent c + n < 2 ^ 64).
  { destruct (_ <? _) eqn:E; bool_to_prop; [split; lia|]. rewrite sub64_small in Hn by lia. split; lia. }
  destruct Hb as [Hb1 Hb2]. rewrite add64_small by lia. split; [done|]. split; [|done].
  constructor; cbn; rewrite ?add64_small by lia; (done || unfold is_u64; lia).
Qed.

Lemma sent_inv s env id n w :
  f_inv s -> params_ok (env_params env) -> SendWindowSize env (g_fm s) id = Ok w -> 0 <= n <= w ->
  f_inv (with_fm s (fst (AddBytesSent (g_fm s) id n))).
Proof.
  intros Hinv Hp Ew Hn. unfold SendWindowSize, ofStream in Ew. fold (streamsOf s) in Ew.
  destruct (streamsOf s !! id) as [c|] eqn:E; [|done]. injection Ew as <-.
  pose proof (fi_streams _ Hinv _ _ E) as Hc. pose proof (fi_conn _ Hinv) as Hconn.
  fold (connOf s) in Hn.
  assert (H1 : 0 <= n <= fc_SendWindowSize env c).
  { split; [lia|]. revert Hn. unfold MinByteCount. repeat case_test; lia. }
  assert (H2 : fc_contributesToConnection c = true -> 0 <= n <= fc_SendWindowSize env (connOf s)).
  { intros Eb. rewrite Eb in Hn. revert Hn. unfold MinByteCount. case_test; lia. }
  destruct (fc_SendWindowSize_spec env c n Hp Hc H1) as (E1 & Ok1 & _).
  apply (addToBoth_inv s id c); try done.
  - intros Eb. by apply (fc_SendWindowSize_spec env (connOf s) n Hp Hconn (H2 Eb)).
  - intros get Hg Eb. destruct (fc_SendWindowSize_spec env (connOf s) n Hp Hconn (H2 Eb)) as (E2 & _).
    destruct Hg as [->|[->| ->]]; cbn; lia.
Qed.

Lemma retrans_inv s id n : f_inv s -> f_inv (with_fm s (fst (AddBytesRetrans (g_fm s) id n))).
Proof.
  intros Hinv. destruct (streamsOf s !! id) as [c|] eqn:E.
  - apply (addToBoth_inv s id c); try done.
    + pose proof (fi_streams _ Hinv _ _ E) as []. by constructor.
    + intros _. destruct (fi_conn _ Hinv). by constructor.
    + intros get [->|[->| ->]] _; cbn; lia.
  - unfold AddBytesRetrans, addToBoth. fold (streamsOf s). rewrite E. by destruct s.
Qed.

Lemma UpdateSendWindow_ok c off : fc_ok c -> is_u64 off -> fc_ok (fst (UpdateSendWindow c off)).
Proof. intros [] Ho. unfold UpdateSendWindow. case_test; by constructor. Qed.

Lemma UpdateSendWindow_same c off :
  let c' := fst (UpdateSendWindow c off) in
  fc_contributesToConnection c' = fc_contributesToConnection c /\ fc_bytesSent c' = fc_bytesSent c /\
  fc_bytesRead c' = fc_bytesRead c /\ fc_highestReceived c' = fc_highestReceived c.
Proof. unfold UpdateSendWindow. by case_test. Qed.

(** A change of one stream that touches none of its three counters. *)
Lemma f_inv_stream s id c c' conn' :
  f_inv s -> streamsOf s !! id = Some c -> fc_ok c' ->
  fc_contributesToConnection c' = fc_contributesToConnection c /\ fc_bytesSent c' = fc_bytesSent c /\
  fc_bytesRead c' = fc_bytesRead c /\ fc_highestReceived c' = fc_highestReceived c ->
  fc_ok conn' -> fc_bytesSent conn' = fc_bytesSent (connOf s) ->
  fc_bytesRead conn' = fc_bytesRead (connOf s) -> fc_highestReceived conn' = fc_highestReceived (connOf s) ->
  f_inv (with_fm s (mkFM (<[id := c']> (streamsOf s)) conn')).
Proof.
  intros Hinv E Hok (E0 & E1 & E2 & E3) Hok' F1 F2 F3.
  apply (f_inv_update s id c); try done; unfold weight; rewrite E0, ?E1, ?E2, ?E3, ?F1, ?F2, ?F3; lia.
Qed.

Lemma updateWindow_inv s id off : f_inv s -> is_u64 off -> f_inv (with_fm s (fst (UpdateWindow (g_fm s) id off))).
Proof.
  intros Hinv Ho. unfold UpdateWindow. fold (streamsOf s) (connOf s). case_test.
  - pose proof (UpdateSendWindow_ok (connOf s) off (fi_conn _ Hinv) Ho) as Hok.
    destruct (UpdateSendWindow_same (connOf s) off) as (_ & E1 & E2 & E3).
    destruct (UpdateSendWindow (connOf s) off) as [conn b]. by apply f_inv_conn.
  - destruct (streamsOf s !! id) as [c|] eqn:Ec; [|by destruct s].
    pose proof (UpdateSendWindow_ok c off (fi_streams _ Hinv _ _ Ec) Ho) as Hok.
    pose proof (UpdateSendWindow_same c off) as Hsame.
    destruct (UpdateSendWindow c off) as [c' b]. apply (f_inv_stream s id c); try done. apply Hinv.
Qed.

(** *** Window updates *)

Lemma updateStreamWindow_inv env force now s id :
  f_inv s -> f_inv (with_fm s (fst (updateStreamWindow env force now (g_fm s) id))).
Proof.
  intros Hinv. destruct (streamsOf s !! id) as [c|] eqn:E.
  - rewrite (updateStreamWindow_eq _ _ _ _ _ _ E). cbn [fst].
    pose proof (MaybeUpdateWindow_spec env c now (fi_streams _ Hinv _ _ E)) as Hm.
    pose proof (MaybeUpdateWindow_same env c now) as Hsame. unfold streamDemand.
    destruct (MaybeUpdateWindow env c now) as [c' [[nec inc] off]]. cbn [fst] in *.
    fold (connOf s) (streamsOf s). destruct Hm as [Hok _].
    assert (Hd : forall b, let conn := if b : bool then
        EnsureMinimumWindowIncrement (connOf s) (connectionIncrement inc) else connOf s in
      fc_ok conn /\ fc_bytesSent conn = fc_bytesSent (connOf s) /\ fc_bytesRead conn = fc_bytesRead (connOf s) /\
      fc_highestReceived conn = fc_highestReceived (connOf s)).
    { intros [|]; [|by split; [apply Hinv|]].
      destruct (EnsureMinimum_ok (connOf s) (connectionIncrement inc) (fi_conn _ Hinv)) as (? & ? & ? & ? & ?). done. }
    specialize (Hd ((force || nec) && (fc_contributesToConnection c' && negb (inc =? 0)))) as (D1 & D2 & D3 & D4).
    by apply (f_inv_stream s id c).
  - unfold updateStreamWindow. fold (streamsOf s). rewrite E. by destruct s.
Qed.

Lemma updateStreamWindows_inv env force now s order :
  f_inv s -> f_inv (with_fm s (fst (updateStreamWindows env force now (g_fm s) order))).
Proof.
  revert s. induction order as [|id order IH]; intros s Hinv; [by destruct s|]. cbn [updateStreamWindows].
  pose proof (updateStreamWindow_inv env force now s id Hinv) as H1.
  destruct (updateStreamWindow env force now (g_fm s) id) as [f1 r1]. cbn [fst] in H1.
  specialize (IH (with_fm s f1) H1). cbn in IH. by destruct (updateStreamWindows env force now f1 order).
Qed.

Lemma getUpdates_inv env force now s order :
  f_inv s -> f_inv (with_fm s (fst (GetWindowUpdates env (g_fm s) force now order))).
Proof.
  intros Hinv. unfold GetWindowUpdates. pose proof (updateStreamWindows_inv env force now s order Hinv) as H1.
  destruct (updateStreamWindows env force now (g_fm s) order) as [f1 r1]. cbn [fst] in H1.
  pose proof (MaybeUpdateWindow_spec env (fm_connFlowController f1) now (fi_conn _ H1)) as Hm.
  destruct (MaybeUpdateWindow_same env (fm_connFlowController f1) now) as (_ & E1 & E2 & E3).
  destruct (MaybeUpdateWindow env (fm_connFlowController f1) now) as [c' [[nec inc] off]].
  destruct Hm as [Hok _]. by apply (f_inv_conn (with_fm s f1)).
Qed.

Lemma new_inv s env id b :
  f_inv s -> params_ok (env_params env) -> f_inv (with_fm s (NewStream env (g_fm s) id b)).
Proof.
  intros [Hs Hc Hv Hr Ht Hcl] Hp. unfold NewStream. fold (streamsOf s).
  destruct (streamsOf s !! id) as [c|] eqn:E; [by destruct s|].
  pose proof (newFlowController_ok env id b Hp) as Hok.
  assert (Hz : forall get, get (newFlowController env id b) = 0 ->
    csum get (<[id := newFlowController env id b]> (streamsOf s)) = csum get (streamsOf s)).
  { intros get Eg. rewrite csum_insert by done. unfold weight. rewrite Eg. case_match; lia. }
  constructor; cbn; try done; try (rewrite Hz; [done|]; unfold newFlowController; by case_match).
  intros i d. destruct (decide (i = id)) as [->|Hne].
  - rewrite lookup_insert_eq. congruence.
  - rewrite lookup_insert_ne by congruence. apply Hs.
Qed.

Lemma remove_inv s id : f_inv s -> f_inv (removed s id).
Proof.
  intros [Hs Hc Hv Hr Ht Hcl]. unfold removed, RemoveStream. fold (streamsOf s) (connOf s).
  assert (Hd : forall get, csum get (delete id (streamsOf s)) =
    csum get (streamsOf s) - match streamsOf s !! id with Some c => weight get c | None => 0 end).
  { intros get. destruct (streamsOf s !! id) as [c|] eqn:E; [by apply csum_delete|].
    rewrite delete_id by done. lia. }
  constructor; cbn; try done; fold (streamsOf s); try (rewrite Hd; unfold connOf in *; cbn; lia).
  - intros i d [_ Hl]%lookup_delete_Some. by apply (Hs i).
  - destruct (streamsOf s !! id) as [c|] eqn:E; [|lia]. apply Hs in E as []. unfold weight. case_match; lia.
Qed.

Lemma fstep_inv s s' : f_inv s -> fstep s s' -> f_inv s'.
Proof.
  intros Hinv Hstep. destruct Hstep as [s env id b Hp|s id|s f id off Ho E Ht|s f id off Ho E Ht|s c id n now Ec Hn
    |s env id n w Hp Hw Hn|s id n|s id off Ho|s env force now order].
  - by apply new_inv.
  - by apply remove_inv.
  - by apply (receive_inv s id off f false).
  - by apply (receive_inv s id off f true).
  - by apply (read_inv s id c).
  - by apply (sent_inv s env id n w).
  - by apply retrans_inv.
  - by apply updateWindow_inv.
  - by apply getUpdates_inv.
Qed.

Lemma freach_inv s : freach s -> f_inv s.
Proof.
  induction 1 as [env Hp|s s' Hr IH Hstep]; [|by eapply fstep_inv].
  constructor; cbn; try done. exact (newFlowController_ok env 0 false Hp).
Qed.

(** *** What an iteration leaves *)

Lemma updateStreamWindow_other env force now f id j :
  id <> j ->
  fm_streamFlowController (fst (updateStreamWindow env force now f id)) !! j = fm_streamFlowController f !! j.
Proof.
  intros Hne. destruct (fm_streamFlowController f !! id) as [c|] eqn:E.
  - rewrite (updateStreamWindow_eq _ _ _ _ _ _ E). cbn. by rewrite lookup_insert_ne.
  - unfold updateStreamWindow. by rewrite E.
Qed.

Lemma updateStreamWindows_lookup env force now f order j c :
  NoDup order -> fm_streamFlowController f !! j = Some c ->
  let '(f', res) := updateStreamWindows env force now f order in
  (j ∉ order -> fm_streamFlowController f' !! j = Some c) /\
  (j ∈ order -> fm_streamFlowController f' !! j = Some (fst (MaybeUpdateWindow env c now)) /\
     map (fun g => g j) (streamUpdate env force now c) ⊆ res).
Proof.
  intros Hn. revert f. induction order as [|id order IH]; intros f E; cbn [updateStreamWindows].
  { split; [done|]. by intros ?%elem_of_nil. }
  inversion_clear Hn as [|? ? Hid Hn'].
  destruct (decide (id = j)) as [->|Hne].
  - rewrite (updateStreamWindow_eq _ _ _ _ _ _ E). set (f1 := mkFM _ _). specialize (IH Hn').
    assert (Hj : forall g d, fm_streamFlowController g !! j = Some d ->
      fm_streamFlowController (fst (updateStreamWindows env force now g order)) !! j = Some d).
    { clear -Hid. revert Hid. induction order as [|k order IH]; intros Hid g d Eg; [done|].
      cbn [updateStreamWindows]. rewrite not_elem_of_cons in Hid. destruct Hid as [Hk Hid].
      pose proof (updateStreamWindow_other env force now g k j ltac:(congruence)) as Ho.
      destruct (updateStreamWindow env force now g k) as [g1 r1]. cbn [fst] in Ho.
      specialize (IH Hid g1 d ltac:(congruence)). by destruct (updateStreamWindows env force now g1 order). }
    specialize (Hj f1 (fst (MaybeUpdateWindow env c now)) ltac:(cbn; apply lookup_insert_eq)).
    destruct (updateStreamWindows env force now f1 order) as [f2 r2]. cbn [fst] in Hj.
    split; [set_solver|]. intros _. split; [done|]. set_solver.
  - pose proof (updateStreamWindow_other env force now f id j Hne) as Ho.
    destruct (updateStreamWindow env force now f id) as [f1 r1]. cbn [fst] in Ho.
    specialize (IH Hn' f1 ltac:(congruence)). destruct (updateStreamWindows env force now f1 order) as [f2 r2].
    destruct IH as [IH1 IH2]. split; [set_solver|]. intros Hj. destruct IH2; set_solver.
Qed.

Lemma updateStreamWindow_conn env force now f id :
  fc_receiveWindow (fm_connFlowController (fst (updateStreamWindow env force now f id))) =
  fc_receiveWindow (fm_connFlowController f).
Proof.
  unfold updateStreamWindow. destruct (fm_streamFlowController f !! id) as [c|]; [|done].
  destruct (MaybeUpdateWindow env c now) as [c' [[nec inc] off]]. unfold EnsureMinimumWindowIncrement.
  by repeat case_test.
Qed.

Lemma updateStreamWindows_conn env force now f order :
  fc_receiveWindow (fm_connFlowController (fst (updateStreamWindows env force now f order))) =
  fc_receiveWindow (fm_connFlowController f).
Proof.
  revert f. induction order as [|id order IH]; intros f; [done|]. cbn [updateStreamWindows].
  pose proof (updateStreamWindow_conn env force now f id) as E.
  destruct (updateStreamWindow env force now f id) as [f1 r1]. cbn [fst] in E. specialize (IH f1).
  destruct (updateStreamWindows env force now f1 order). cbn [fst] in *. congruence.
Qed.

(** ** Main results *)

(** C13: whatever the interleaving of operations, the flow control state of the
    connection is exactly the sum of its streams: the bytes it counts as
    received, read and sent are the sums over the streams that contribute to it,
    removed ones included; and on every stream and on the connection the bytes
    read never exceed the bytes received, and those never exceed the advertised
    window. *)
Theorem flow_control_accounting s :
  freach s ->
  fc_highestReceived (connOf s) = total_received s /\
  fc_bytesRead (connOf s) = g_read s + csum fc_bytesRead (streamsOf s) /\
  fc_bytesSent (connOf s) = g_sent s + csum fc_bytesSent (streamsOf s) /\
  (forall c, c = connOf s \/ (exists id, streamsOf s !! id = Some c) ->
     0 <= fc_bytesRead c <= fc_highestReceived c /\ fc_highestReceived c <= fc_receiveWindow c).
Proof.
  intros Hr. apply freach_inv in Hr as [Hs Hc Hv Hrd Ht Hcl]. split; [done|]. split; [done|]. split; [done|].
  intros c [->|[id Hid]]; [by destruct Hc|by destruct (Hs id c Hid)].
Qed.

(** [UpdateHighestReceived] accepts data exactly up to the advertised
    windows: with [v] the highest offset of the stream after the frame, it
    succeeds if and only if [v] is within the stream's window and, when the
    stream contributes to the connection, the new bytes are within the
    connection's; otherwise it fails with [FlowControlReceivedTooMuchData], and
    with another error only when the stream is unknown. *)
Theorem UpdateHighestReceived_enforces s id off :
  freach s -> 0 <= off < 2 ^ 62 ->
  match streamsOf s !! id with
  | None => UpdateHighestReceived (g_fm s) id off = (g_fm s, Some errMapAccess)
  | Some c =>
      let v := Z.max (fc_highestReceived c) off in
      let allowed := v <= fc_receiveWindow c /\
        (fc_contributesToConnection c = true ->
         fc_highestReceived (connOf s) + (v - fc_highestReceived c) <= fc_receiveWindow (connOf s)) in
      (allowed /\ snd (UpdateHighestReceived (g_fm s) id off) = None) \/
      (~ allowed /\ exists msg, snd (UpdateHighestReceived (g_fm s) id off) =
                                Some (QuicError qerr.FlowControlReceivedTooMuchData msg))
  end.
Proof.
  intros Hr Ho. apply freach_inv in Hr. unfold UpdateHighestReceived. fold (streamsOf s).
  destruct (streamsOf s !! id) as [c|] eqn:E; [|done]. cbv zeta.
  pose proof (fi_streams _ Hr _ _ E) as Hc. pose proof (fi_conn _ Hr) as Hconn.
  destruct (fc_UpdateHighestReceived_spec c off Hc Ho) as (e & -> & _).
  set (v := Z.max (fc_highestReceived c) off). assert (fc_highestReceived c <= v < 2 ^ 62) by (destruct Hc; lia).
  unfold chargeConnection. cbn [fm_connFlowController fm_streamFlowController]. fold (connOf s).
  destruct (CheckFlowControlViolation (set_highestReceived c v)) eqn:V1.
  { right. apply not_false_iff_true in V1. rewrite violation_spec in V1. cbn in V1.
    split; [tauto|]. by eexists. }
  apply violation_spec in V1. cbn in V1. cbn [fc_contributesToConnection set_highestReceived].
  destruct (fc_contributesToConnection c) eqn:Eb; [|by left].
  destruct (CheckFlowControlViolation (IncrementHighestReceived _ _)) eqn:V2; cbn [snd].
  - right. apply not_false_iff_true in V2. rewrite violation_spec in V2. cbn in V2.
    rewrite add64_small in V2 by (destruct Hconn; destruct Hc; lia).
    split; [intros [_ Ha]; by apply V2, Ha|]. by eexists.
  - left. apply violation_spec in V2. cbn in V2. rewrite add64_small in V2 by (destruct Hconn; destruct Hc; lia). done.
Qed.

(** [GetWindowUpdates] keeps data flowing. It never takes back advertised
    window; after it, every stream and the connection have at least half of
    their increment of room beyond the bytes read; and each window it moved is
    announced with its new offset. *)
Theorem GetWindowUpdates_room s env force now order :
  freach s -> NoDup order -> (forall id, is_Some (streamsOf s !! id) -> id ∈ order) ->
  let '(f', res) := GetWindowUpdates env (g_fm s) force now order in
  (forall id c, streamsOf s !! id = Some c ->
     exists c', fm_streamFlowController f' !! id = Some c' /\
       fc_receiveWindow c <= fc_receiveWindow c' /\
       fc_receiveWindowIncrement c' / 2 <= fc_receiveWindow c' - fc_bytesRead c' /\
       (fc_receiveWindow c < fc_receiveWindow c' -> mkWU id (fc_receiveWindow c') ∈ res)) /\
  fc_receiveWindow (connOf s) <= fc_receiveWindow (fm_connFlowController f') /\
  fc_receiveWindowIncrement (fm_connFlowController f') / 2 <=
    fc_receiveWindow (fm_connFlowController f') - fc_bytesRead (fm_connFlowController f') /\
  (fc_receiveWindow (connOf s) < fc_receiveWindow (fm_connFlowController f') ->
   mkWU 0 (fc_receiveWindow (fm_connFlowController f')) ∈ res).
Proof.
  intros Hr Hn Hall. apply freach_inv in Hr. unfold GetWindowUpdates.
  pose proof (updateStreamWindows_inv env force now s order Hr) as H1.
  pose proof (updateStreamWindows_conn env force now (g_fm s) order) as Hw.
  pose proof (fun j c => updateStreamWindows_lookup env force now (g_fm s) order j c Hn) as Hl.
  destruct (updateStreamWindows env force now (g_fm s) order) as [f1 r1]. cbn [fst] in H1, Hw.
  pose proof (MaybeUpdateWindow_spec env (fm_connFlowController f1) now (fi_conn _ H1)) as Hm.
  destruct (MaybeUpdateWindow env (fm_connFlowController f1) now) as [c' [[nec inc] off]].
  destruct Hm as (Hok & Hge & -> & _ & Hroom & Hsame & _). cbn [fm_streamFlowController fm_connFlowController].
  unfold connOf. rewrite <- Hw. split.
  - intros id c Hid. destruct (Hl id c Hid) as [_ Hin]. destruct Hin as [Hin Hres]; [apply Hall; by eexists|].
    pose proof (MaybeUpdateWindow_spec env c now (fi_streams _ Hr _ _ Hid)) as Hm. unfold streamUpdate in Hres.
    destruct (MaybeUpdateWindow env c now) as [d [[nec2 inc2] off2]]. cbn [fst] in Hin.
    destruct Hm as (_ & Hge2 & -> & _ & Hroom2 & Hsame2 & _). exists d. split; [done|]. split; [done|]. split; [done|].
    intros Hlt. assert (nec2 = true) as ->.
    { destruct nec2; [done|]. rewrite (Hsame2 eq_refl) in Hlt. lia. }
    rewrite orb_true_r in Hres. cbn [map] in Hres. destruct (force || nec); set_solver.
  - split; [done|]. split; [done|]. intros Hlt. assert (nec = true) as ->.
    { destruct nec; [done|]. rewrite (Hsame eq_refl) in Hlt. lia. }
    rewrite orb_true_r. set_solver.
Qed.

(** The result of [GetWindowUpdates] does not depend on the order in which
    the map of streams is visited, which Go leaves unspecified: any two orders
    lead to the same flow control state and announce the same updates. *)
Theorem GetWindowUpdates_order env f force now order order' :
  order ≡ₚ order' -> NoDup order ->
  fst (GetWindowUpdates env f force now order) = fst (GetWindowUpdates env f force now order') /\
  snd (GetWindowUpdates env f force now order) ≡ₚ snd (GetWindowUpdates env f force now order').
Proof.
  intros Hp Hn. unfold GetWindowUpdates.
  destruct (updateStreamWindows_perm env force now f order order' Hp Hn) as [E1 E2].
  destruct (updateStreamWindows env force now f order) as [f1 r1].
  destruct (updateStreamWindows env force now f order') as [f2 r2]. cbn [fst snd] in E1, E2. subst f2.
  destruct (MaybeUpdateWindow env (fm_connFlowController f1) now) as [c' [[nec inc] off]]. cbn [fst snd].
  split; [done|]. case_match; [by rewrite E2|done].
Qed.

(** A sender that asks [SendWindowSize] first respects both windows of the
    peer: after it sends [n] bytes within the answer, the bytes sent on the
    stream are within the stream's window and, when the stream contributes, the
    bytes sent on the connection are within the connection's window. *)
Theorem SendWindowSize_safe s env id w n :
  freach s -> params_ok (env_params env) -> SendWindowSize env (g_fm s) id = Ok w -> 0 < n <= w ->
  let f' := fst (AddBytesSent (g_fm s) id n) in
  exists c c', streamsOf s !! id = Some c /\ fm_streamFlowController f' !! id = Some c' /\
    fc_bytesSent c' = fc_bytesSent c + n /\ fc_bytesSent c' <= getSendWindow env c' /\
    (fc_contributesToConnection c = true ->
     fc_bytesSent (fm_connFlowController f') = fc_bytesSent (connOf s) + n /\
     fc_bytesSent (fm_connFlowController f') <= getSendWindow env (fm_connFlowController f')).
Proof.
  intros Hr Hp Ew Hn. apply freach_inv in Hr. unfold SendWindowSize, ofStream in Ew.
  unfold AddBytesSent, addToBoth. fold (streamsOf s) (connOf s) in *. cbv zeta.
  destruct (streamsOf s !! id) as [c|] eqn:E; [|done]. injection Ew as <-.
  pose proof (fi_streams _ Hr _ _ E) as Hc. pose proof (fi_conn _ Hr) as Hconn.
  assert (H1 : 0 <= n <= fc_SendWindowSize env c).
  { split; [lia|]. revert Hn. unfold MinByteCount. repeat case_test; lia. }
  destruct (fc_SendWindowSize_spec env c n Hp Hc H1) as (E1 & _ & B1).
  exists c, (fc_AddBytesSent c n). split; [done|]. cbn [fst fm_streamFlowController fm_connFlowController].
  split; [apply lookup_insert_eq|]. split; [done|]. split; [cbn; rewrite E1; apply B1; lia|].
  intros Eb. rewrite Eb in Hn |- *.
  assert (H2 : 0 <= n <= fc_SendWindowSize env (connOf s)) by (revert Hn; unfold MinByteCount; case_test; lia).
  destruct (fc_SendWindowSize_spec env (connOf s) n Hp Hconn H2) as (E2 & _ & B2).
  split; [done|]. cbn. rewrite E2. apply B2. lia.
Qed.

(** A WINDOW_UPDATE can shrink the send window. Until the first update a
    controller uses the negotiated window without storing it, and
    [UpdateSendWindow] compares with the stored 0: an offset below the
    negotiated window is taken for an increase, and replaces it. *)
Theorem UpdateSendWindow_shrinks env c off :
  fc_sendWindow c = 0 -> 0 < off < getSendWindow env c ->
  snd (UpdateSendWindow c off) = true /\
  getSendWindow env (fst (UpdateSendWindow c off)) = off /\
  getSendWindow env (fst (UpdateSendWindow c off)) < getSendWindow env c.
Proof.
  intros Hz Ho. unfold UpdateSendWindow. rewrite Z.gtb_ltb, Hz, (proj2 (Z.ltb_lt _ _)) by lia. cbn [fst snd].
  assert (E : getSendWindow env (mkFC (fc_streamID c) (fc_contributesToConnection c) (fc_bytesSent c) off
    (fc_bytesRetrans c) (fc_lastWindowUpdateTime c) (fc_bytesRead c) (fc_highestReceived c)
    (fc_receiveWindow c) (fc_receiveWindowIncrement c) (fc_maxReceiveWindowIncrement c)) = off).
  { unfold getSendWindow at 1. cbn. by rewrite (proj2 (Z.eqb_neq off 0)) by lia. }
  rewrite E. split; [done|]. split; [done|lia].
Qed.
End flow_control.

(** ** A concrete run *)

Definition example_env : fcEnv connectionParametersManager := mkEnv
  (NewConnectionParamatersManager PerspectiveServer VersionMP (Z.shiftl 1 20) (Z.shiftl 1 20 + Z.shiftl 1 19)
     (30 * Second))
  NewRTTStats (<[1 := 40 * Millisecond]> ∅).

Lemma example_env_ok : params_ok (env_params example_env).
Proof. unfold params_ok, is_u64. vm_compute. intuition discriminate. Qed.

Definition example_new : flowControlManager :=
  NewStream example_env (NewStream example_env (NewFlowControlManager example_env) 3 false) 5 true.

(** Stream 5 has received 20000 bytes and read 18000 of them. *)
Definition example_received : flowControlManager := fst (UpdateHighestReceived example_new 5 20000).
Definition example_read : flowControlManager := fst (AddBytesRead example_received 5 18000 Second).
Definition example_fstate : fstate := mkFState 0 0 0 example_read.

Lemma example_fstate_reachable : freach example_fstate.
Proof.
  eapply (freach_step (mkFState 0 0 0 example_received)).
  2:{ eapply (fstep_AddBytesRead (mkFState 0 0 0 example_received)); [vm_compute; reflexivity|cbn; lia]. }
  eapply (freach_step (mkFState 0 0 0 example_new)).
  2:{ eapply (fstep_UpdateHighestReceived (mkFState 0 0 0 example_new) example_received 5 20000);
      [lia|vm_compute; reflexivity|vm_compute; reflexivity]. }
  eapply freach_step; [|exact (fstep_NewStream (mkFState 0 0 0 _) example_env 5 true example_env_ok)].
  eapply freach_step; [|exact (fstep_NewStream (mkFState 0 0 0 _) example_env 3 false example_env_ok)].
  exact (freach_new example_env example_env_ok).
Qed.

Lemma flow_control_accounting_witness :
  fc_highestReceived (connOf example_fstate) = 20000 /\ fc_bytesRead (connOf example_fstate) = 18000.
Proof.
  destruct (flow_control_accounting example_fstate example_fstate_reachable) as (E1 & E2 & _).
  rewrite E1, E2. vm_compute. split; reflexivity.
Defined.

Lemma UpdateHighestReceived_enforces_witness :
  exists msg, snd (UpdateHighestReceived example_read 5 40000) =
              Some (QuicError qerr.FlowControlReceivedTooMuchData msg).
Proof.
  pose proof (UpdateHighestReceived_enforces example_fstate 5 40000 example_fstate_reachable ltac:(lia)) as Hc.
  change (match streamsOf example_fstate !! 5 with
          | None => UpdateHighestReceived example_read 5 40000 = (example_read, Some errMapAccess)
          | Some c => let v := Z.max (fc_highestReceived c) 40000 in
              let allowed := v <= fc_receiveWindow c /\ (fc_contributesToConnection c = true ->
                fc_highestReceived (connOf example_fstate) + (v - fc_highestReceived c) <=
                fc_receiveWindow (connOf example_fstate)) in
              (allowed /\ snd (UpdateHighestReceived example_read 5 40000) = None) \/
              (~ allowed /\ exists msg, snd (UpdateHighestReceived example_read 5 40000) =
                Some (QuicError qerr.FlowControlReceivedTooMuchData msg))
          end) in Hc.
  assert (E : exists c, streamsOf example_fstate !! 5 = Some c /\ fc_receiveWindow c = 32768).
  { eexists. split; [vm_compute; reflexivity|reflexivity]. }
  destruct E as (c & E & Hw). rewrite E in Hc. destruct Hc as [[[Hv _] _]|[_ Hc]]; [|exact Hc].
  exfalso. lia.
Defined.

Lemma GetWindowUpdates_room_witness :
  exists c', fm_streamFlowController (fst (GetWindowUpdates example_env example_read false (2 * Second) [5; 3])) !! 5
    = Some c' /\ fc_receiveWindowIncrement c' / 2 <= fc_receiveWindow c' - fc_bytesRead c'.
Proof.
  pose proof (GetWindowUpdates_room example_fstate example_env false (2 * Second) [5; 3] example_fstate_reachable)
    as Hc.
  assert (Hn : NoDup [5; 3]) by (apply (bool_decide_unpack _); vm_compute; exact I).
  assert (Ha : forall id, is_Some (streamsOf example_fstate !! id) -> id ∈ [5; 3]).
  { intros id Hid. apply elem_of_dom in Hid. revert id Hid.
    assert (Ed : forall id, id ∈ elements (dom (streamsOf example_fstate)) -> id ∈ [5; 3])
      by (vm_compute elements; set_solver).
    intros id Hid. by apply Ed, elem_of_elements. }
  specialize (Hc Hn Ha). change (g_fm example_fstate) with example_read in Hc.
  destruct (GetWindowUpdates example_env example_read false (2 * Second) [5; 3]) as [f' res]. cbn [fst].
  destruct Hc as [Hc _].
  assert (E : exists c, streamsOf example_fstate !! 5 = Some c) by (eexists; vm_compute; reflexivity).
  destruct E as [c E]. destruct (Hc 5 c E) as (c' & E' & _ & Hr & _). exists c'. split; [exact E'|exact Hr].
Defined.

Lemma GetWindowUpdates_order_witness :
  fst (GetWindowUpdates example_env example_read true (2 * Second) [5; 3]) =
  fst (GetWindowUpdates example_env example_read true (2 * Second) [3; 5]).
Proof.
  apply (GetWindowUpdates_order example_env example_read true (2 * Second) [5; 3] [3; 5]).
  - apply perm_swap.
  - apply (bool_decide_unpack _); vm_compute; exact I.
Defined.

Lemma SendWindowSize_safe_witness :
  exists c', fm_streamFlowController (fst (AddBytesSent example_read 5 16000)) !! 5 = Some c' /\
    fc_bytesSent c' <= getSendWindow example_env c'.
Proof.
  destruct (SendWindowSize_safe example_fstate example_env 5 16384 16000 example_fstate_reachable example_env_ok)
    as (c & c' & _ & E & _ & Hle & _); [vm_compute; reflexivity|lia|].
  exists c'. split; [exact E|exact Hle].
Defined.

Lemma UpdateSendWindow_shrinks_witness :
  getSendWindow example_env (fst (UpdateSendWindow (newFlowController example_env 5 true) 1000)) = 1000.
Proof.
  apply (UpdateSendWindow_shrinks example_env (newFlowController example_env 5 true) 1000); [reflexivity|].
  vm_compute. split; reflexivity.
Defined.
