(* ===== verification/StreamFrameSorter.v ===== *)
(** * Reassembly of stream data (stream_frame_sorter.go)

    The sorter queues the STREAM frames of a stream by their offset, cuts the
    parts that were already received, and hands the data out in order.  The gaps
    between the received data are a linked list, here the list of its values. *)
From S2P Require Import Prelude Qerr ByteOrder Protocol WireStream.

Record ByteInterval : Type := mkBI { bi_Start : Z; bi_End : Z }.

Record streamFrameSorter : Type := mkSFS {
  sfs_queuedFrames : gmap Z StreamFrame;
  sfs_readPosition : Z;
  sfs_gaps : list ByteInterval;
}.

Definition MaxStreamFrameSorterGaps : Z := 2500.

Definition errTooManyGapsInReceivedStreamData : error :=
  errors_New "Too many gaps in received StreamFrame data".
Definition errDuplicateStreamData : error := errors_New "Duplicate Stream Data".
Definition errEmptyStreamData : error := errors_New "Stream Data empty".
Definition errNoGapFound : error := errors_New "StreamFrameSorter BUG: no gap found".
Definition errNoEndGapFound : error := errors_New "StreamFrameSorter BUG: no end gap found".

Definition newStreamFrameSorter : streamFrameSorter := mkSFS ∅ 0 [mkBI 0 MaxByteCountValue].

(** [frame.DataLen()]: the length of a slice is below 2^63, so that its conversion
    to [ByteCount] is exact. *)
Definition DataLen (f : StreamFrame) : Z := zlen (sf_Data f).

Definition set_frame (f : StreamFrame) (offset : Z) (data : list Z) : StreamFrame := {|
  sf_StreamID := sf_StreamID f; sf_FinBit := sf_FinBit f; sf_DataLenPresent := sf_DataLenPresent f;
  sf_Offset := offset; sf_Data := data |}.

(** [data[n:]] and [data[:n]], which panic out of range. *)
Definition sliceFrom (data : list Z) (n : Z) : result (list Z) :=
  if n <=? zlen data then Ok (drop (Z.to_nat n) data) else Panic.
Definition sliceTo (data : list Z) (n : Z) : result (list Z) :=
  if n <=? zlen data then Ok (take (Z.to_nat n) data) else Panic.

(** The loop that skips the gaps before the frame: the gaps before the one
    found, that one, and those after it. *)
Inductive foundGap : Type :=
| DuplicateData
| NoGap
| FoundGap (before : list ByteInterval) (gap : ByteInterval) (after : list ByteInterval).

Fixpoint findGap (start endv : Z) (gaps : list ByteInterval) : foundGap :=
  match gaps with
  | [] => NoGap
  | gap :: after =>
      if endv <=? bi_Start gap then DuplicateData
      else if (endv >? bi_Start gap) && (start <=? bi_End gap) then FoundGap [] gap after
      else match findGap start endv after with
           | FoundGap before g after' => FoundGap (gap :: before) g after'
           | r => r
           end
  end.

(** The loop that looks for the last gap the frame reaches.  [first] tells
    whether [endGap] is still the gap the frame starts in; the others are
    removed from the list as the loop passes them, [er_inList] tells whether the
    last one is still in it. *)
Record endResult : Type := mkER {
  er_bug : bool;
  er_queued : gmap Z StreamFrame;
  er_first : bool;
  er_inList : bool;
  er_endGap : ByteInterval;
  er_after : list ByteInterval;
}.

Fixpoint findEndGap (endv : Z) (first : bool) (endGap : ByteInterval) (after : list ByteInterval)
    (queued : gmap Z StreamFrame) : endResult :=
  if endv >=? bi_End endGap then
    match after with
    | [] => mkER true queued first true endGap []
    | nextEndGap :: after' =>
        if endv <=? bi_Start nextEndGap then mkER false queued first first endGap after
        else findEndGap endv false nextEndGap after' (delete (bi_End endGap) queued)
    end
  else mkER false queued first true endGap after.

(** The list of gaps after the frame [start, end) was taken out of [gap] and
    [endGap]. *)
Definition adjustGaps (start endv : Z) (gap : ByteInterval) (r : endResult) : list ByteInterval :=
  let endGap := er_endGap r in
  let rest g := if er_first r then [] else if er_inList r then [g] else [] in
  if start =? bi_Start gap then
    let endGap' := if endv <? bi_End endGap then mkBI endv (bi_End endGap) else endGap in
    (if endv >=? bi_End gap then [] else [if er_first r then endGap' else gap]) ++ rest endGap'
  else if endv =? bi_End endGap then mkBI (bi_Start gap) start :: rest endGap
  else if er_first r then [mkBI (bi_Start gap) start; mkBI endv (bi_End gap)]
  else mkBI (bi_Start gap) start :: rest (mkBI endv (bi_End endGap)).

(** [Push] from the search for the gap on, for the part of the frame that is not
    in a queued frame with the same offset. *)
Definition pushIntoGaps (s : streamFrameSorter) (frame : StreamFrame) :
    result (streamFrameSorter * option error) :=
  let start := sf_Offset frame in
  let endv := sf_Offset frame +u DataLen frame in
  match findGap start endv (sfs_gaps s) with
  | DuplicateData => Ok (s, Some errDuplicateStreamData)
  | NoGap => Ok (s, Some errNoGapFound)
  | FoundGap before gap after =>
      let add := bi_Start gap -u start in
      let* frame :=
        if start <? bi_Start gap then
          let* data := sliceFrom (sf_Data frame) add in
          Ok (set_frame frame (sf_Offset frame +u add) data)
        else Ok frame in
      let start := if start <? bi_Start gap then start +u add else start in
      let r := findEndGap endv true gap after (sfs_queuedFrames s) in
      if er_bug r then
        Ok (mkSFS (er_queued r) (sfs_readPosition s)
              (before ++ gap :: (if er_first r then [] else [er_endGap r])), Some errNoEndGapFound)
      else
      let cutLen := endv -u bi_End (er_endGap r) in
      let* frame :=
        if endv >? bi_End (er_endGap r) then
          let* data := sliceTo (sf_Data frame) (DataLen frame -u cutLen) in
          Ok (set_frame frame (sf_Offset frame) data)
        else Ok frame in
      let endv := if endv >? bi_End (er_endGap r) then endv -u cutLen else endv in
      let gaps := before ++ adjustGaps start endv gap r ++ er_after r in
      if zlen gaps >? MaxStreamFrameSorterGaps
      then Ok (mkSFS (er_queued r) (sfs_readPosition s) gaps, Some errTooManyGapsInReceivedStreamData)
      else Ok (mkSFS (<[sf_Offset frame := frame]> (er_queued r)) (sfs_readPosition s) gaps, None)
  end.

Definition Push (s : streamFrameSorter) (frame : StreamFrame) : result (streamFrameSorter * option error) :=
  if DataLen frame =? 0 then
    if sf_FinBit frame
    then Ok (mkSFS (<[sf_Offset frame := frame]> (sfs_queuedFrames s)) (sfs_readPosition s) (sfs_gaps s), None)
    else Ok (s, Some errEmptyStreamData)
  else
  match sfs_queuedFrames s !! sf_Offset frame with
  | Some oldFrame =>
      if DataLen frame <=? DataLen oldFrame then Ok (s, Some errDuplicateStreamData)
      else let* data := sliceFrom (sf_Data frame) (DataLen oldFrame) in
           pushIntoGaps s (set_frame frame (sf_Offset frame +u DataLen oldFrame) data)
  | None => pushIntoGaps s frame
  end.

Definition Head (s : streamFrameSorter) : option StreamFrame := sfs_queuedFrames s !! sfs_readPosition s.

Definition Pop (s : streamFrameSorter) : streamFrameSorter * option StreamFrame :=
  match Head s with
  | Some frame =>
      (mkSFS (delete (sf_Offset frame) (sfs_queuedFrames s)) (sfs_readPosition s +u DataLen frame) (sfs_gaps s),
       Some frame)
  | None => (s, None)
  end.
