(* ===== verification/SorterProofs.v ===== *)
(** * Properties of the stream frame sorter

    The gaps are exactly the offsets that were not received, the queued frames
    tile the data between them, and what is popped is the data that was sent, in
    order and without omission. *)
From S2P Require Import Prelude Qerr ByteOrder Protocol WireStream StreamFrameSorter.

Local Abbreviation Max := MaxByteCountValue.

(** ** Gaps *)

(** Non-empty intervals from [lo] on, apart from each other, up to the largest
    offset. *)
Fixpoint gaps_ok (lo : Z) (l : list ByteInterval) : Prop :=
  match l with
  | [] => lo = Max + 1
  | g :: l' => lo <= bi_Start g < bi_End g /\ gaps_ok (bi_End g + 1) l'
  end.

Definition in_gaps (l : list ByteInterval) (x : Z) : Prop := Exists (fun g => bi_Start g <= x < bi_End g) l.

Lemma in_gaps_cons g l x : in_gaps (g :: l) x <-> bi_Start g <= x < bi_End g \/ in_gaps l x.
Proof. apply Exists_cons. Qed.
Lemma in_gaps_app l k x : in_gaps (l ++ k) x <-> in_gaps l x \/ in_gaps k x.
Proof. apply Exists_app. Qed.
Lemma in_gaps_nil x : in_gaps [] x <-> False.
Proof. apply Exists_nil. Qed.

Lemma gaps_ok_le lo l : gaps_ok lo l -> lo <= Max + 1.
Proof.
  revert lo. induction l as [|g l IH]; intros lo Hl; [simpl in Hl; lia|]. destruct Hl as [Hg Hl].
  apply IH in Hl. lia.
Qed.

Lemma in_gaps_ge lo l x : gaps_ok lo l -> in_gaps l x -> lo <= x < Max.
Proof.
  revert lo. induction l as [|g l IH]; intros lo Hl Hx; [by apply in_gaps_nil in Hx|].
  destruct Hl as [Hg Hl]. apply in_gaps_cons in Hx as [Hx|Hx].
  - apply gaps_ok_le in Hl. lia.
  - apply (IH _ Hl) in Hx. lia.
Qed.

(** The smallest lower bound the gaps after [l] can have. *)
Definition lo_after (lo : Z) (l : list ByteInterval) : Z := fold_left (fun _ g => bi_End g + 1) l lo.

Lemma gaps_ok_app lo l k : gaps_ok lo (l ++ k) <-> gaps_ok lo (l ++ k) /\ gaps_ok (lo_after lo l) k.
Proof.
  split; [|tauto]. intros Hl. split; [done|]. revert lo Hl. induction l as [|g l IH]; intros lo Hl; [done|].
  destruct Hl as [_ Hl]. by apply IH.
Qed.

(** Replacing the gaps after a prefix. *)
Lemma gaps_ok_replace lo l k k' :
  gaps_ok lo (l ++ k) -> gaps_ok (lo_after lo l) k' -> gaps_ok lo (l ++ k').
Proof.
  revert lo. induction l as [|g l IH]; intros lo Hl Hk; [done|]. destruct Hl as [Hg Hl].
  split; [done|]. by apply (IH _ Hl).
Qed.

(** ** Tiles *)

(** The queued frames from offset [a] on reach [b] without a hole. *)
Inductive chain (q : gmap Z StreamFrame) : Z -> Z -> Prop :=
| chain_nil a : chain q a a
| chain_cons a f b : q !! a = Some f -> 0 < DataLen f -> chain q (a + DataLen f) b -> chain q a b.

Lemma chain_le q a b : chain q a b -> a <= b.
Proof. induction 1; lia. Qed.

Lemma chain_trans q a b c : chain q a b -> chain q b c -> chain q a c.
Proof. induction 1 as [|a f b Hq Hl Hc IH]; intros; [done|]. by eapply chain_cons, IH. Qed.

(** Chains look only at the keys between their ends. *)
Lemma chain_agree q q' a b :
  (forall k, a <= k < b -> q' !! k = q !! k) -> chain q a b -> chain q' a b.
Proof.
  intros Hq Hc. induction Hc as [|a f b Hf Hl Hc IH]; [constructor|]. pose proof (chain_le _ _ _ Hc).
  apply (chain_cons _ _ f); [by rewrite Hq by lia|done|]. apply IH. intros k Hk. apply Hq. lia.
Qed.

(** From [a] to the first gap, and from each gap to the next. *)
Fixpoint tiled (q : gmap Z StreamFrame) (a : Z) (l : list ByteInterval) : Prop :=
  match l with
  | [] => True
  | g :: l' => chain q a (bi_Start g) /\ tiled q (bi_End g) l'
  end.

Definition end_after (a : Z) (l : list ByteInterval) : Z := fold_left (fun _ g => bi_End g) l a.

Lemma tiled_app q a l k : tiled q a (l ++ k) <-> tiled q a l /\ tiled q (end_after a l) k.
Proof.
  revert a. induction l as [|g l IH]; intros a; [simpl; tauto|]. simpl. rewrite IH. unfold end_after. simpl. tauto.
Qed.

Lemma tiled_extend q a b l : l <> [] -> chain q a b -> tiled q b l -> tiled q a l.
Proof. destruct l as [|g l]; [done|]. intros _ Hc [Ht Hl]. split; [by eapply chain_trans|done]. Qed.

(** Tiles look only at the keys outside the gaps and below the last one. *)
Lemma tiled_agree q q' a l lo :
  gaps_ok lo l -> (forall k, a <= k < Max -> ~ in_gaps l k -> q' !! k = q !! k) -> tiled q a l -> tiled q' a l.
Proof.
  revert a lo. induction l as [|g l IH]; intros a lo Hg Hq Ht; [done|]. destruct Hg as [Hg Hl], Ht as [Hc Ht].
  assert (Hge : forall k, in_gaps l k -> bi_End g < k) by (intros k Hk; pose proof (in_gaps_ge _ _ _ Hl Hk); lia).
  pose proof (gaps_ok_le _ _ Hl). split.
  - eapply chain_agree; [|exact Hc]. intros k Hk. apply Hq; [lia|]. rewrite in_gaps_cons. intros [?|Hk']; [lia|].
    apply Hge in Hk'. lia.
  - destruct l as [|g' l']; [done|]. apply (IH _ _ Hl); [|done]. intros k Hk Hn. apply Hq.
    + split; [|lia]. destruct Hk as [Hk _]. pose proof (chain_le _ _ _ Hc). lia.
    + rewrite in_gaps_cons. intros [?|?]; [lia|done].
Qed.

(** ** Searching the gaps *)

Lemma findGap_spec lo start endv gaps :
  gaps_ok lo gaps -> lo <= start -> start < endv -> start < Max ->
  match findGap start endv gaps with
  | DuplicateData => forall x, start <= x < endv -> ~ in_gaps gaps x
  | NoGap => False
  | FoundGap before gap after =>
      gaps = before ++ gap :: after /\ bi_Start gap < endv /\ start <= bi_End gap /\
      Forall (fun g => bi_End g < start) before
  end.
Proof.
  revert lo. induction gaps as [|g l IH]; intros lo Hg Hlo Hse Hm; [simpl in *; lia|].
  destruct Hg as [Hg Hl]. cbn [findGap]. rewrite Z.gtb_ltb.
  destruct (endv <=? bi_Start g) eqn:E1; bool_to_prop.
  { intros x Hx. rewrite in_gaps_cons. intros [?|Hin]; [lia|]. pose proof (in_gaps_ge _ _ _ Hl Hin). lia. }
  destruct (_ && _) eqn:E2.
  { apply andb_prop in E2 as [E2 E3]. bool_to_prop. done. }
  rewrite (proj2 (Z.ltb_lt _ _)) in E2 by lia. cbn [andb] in E2. bool_to_prop.
  specialize (IH (bi_End g + 1) Hl ltac:(lia) Hse Hm). destruct (findGap start endv l) as [| |before g' after].
  - intros x Hx. rewrite in_gaps_cons. intros [?|Hin]; [lia|]. by apply (IH x).
  - done.
  - destruct IH as (-> & H1 & H2 & H3). split; [done|]. split; [done|]. split; [done|]. by constructor.
Qed.

Definition deleteEnds (passed : list ByteInterval) (q : gmap Z StreamFrame) : gmap Z StreamFrame :=
  fold_left (fun q g => delete (bi_End g) q) passed q.

Lemma findEndGap_spec lo endv first endGap after q :
  gaps_ok lo (endGap :: after) -> bi_Start endGap < endv < Max ->
  let r := findEndGap endv first endGap after q in
  er_bug r = false /\
  exists passed, endGap :: after = passed ++ er_endGap r :: er_after r /\
    er_queued r = deleteEnds passed q /\
    er_first r = (match passed with [] => first | _ => false end) /\
    er_inList r = (endv <? bi_End (er_endGap r)) || er_first r /\
    bi_Start (er_endGap r) < endv /\ Forall (fun g => bi_End g < endv) passed /\
    (bi_End (er_endGap r) <= endv -> match er_after r with [] => False | g :: _ => endv <= bi_Start g end).
Proof.
  revert lo first endGap q. induction after as [|g l IH]; intros lo first endGap q Hg He; cbv zeta;
    destruct Hg as [Hg Hl]; cbn [findEndGap]; rewrite Z.geb_leb; destruct (_ <=? endv) eqn:E1; bool_to_prop.
  - simpl in Hl. lia.
  - cbn [er_bug er_queued er_first er_inList er_endGap er_after]. split; [done|]. exists [].
    rewrite (proj2 (Z.ltb_lt _ _)) by lia. split_and!; try done; lia.
  - destruct Hl as [Hg' Hl']. destruct (endv <=? bi_Start g) eqn:E2; bool_to_prop.
    + cbn [er_bug er_queued er_first er_inList er_endGap er_after]. split; [done|]. exists [].
      rewrite (proj2 (Z.ltb_ge endv _)) by lia. split_and!; try done; lia.
    + destruct (IH _ false g (delete (bi_End endGap) q) (conj Hg' Hl') ltac:(lia))
        as (Hb & passed & P1 & P2 & P3 & P4 & P5 & P6 & P7).
      split; [done|]. exists (endGap :: passed). rewrite P1 at 1. split; [done|]. split; [done|].
      split; [rewrite P3; by destruct passed|]. split; [done|]. split; [done|]. split; [|done].
      constructor; [lia|done].
  - cbn [er_bug er_queued er_first er_inList er_endGap er_after]. split; [done|]. exists [].
    rewrite (proj2 (Z.ltb_lt _ _)) by lia. split_and!; try done; lia.
Qed.

(** The case analysis on where the frame lies leaves the part of the first gap
    before it and the part of the last gap after it. *)
Lemma adjustGaps_spec lo start endv gap after r passed :
  gaps_ok lo (gap :: after) -> gap :: after = passed ++ er_endGap r :: er_after r ->
  er_first r = (match passed with [] => true | _ => false end) ->
  er_inList r = (endv <? bi_End (er_endGap r)) || er_first r ->
  bi_Start gap <= start < bi_End gap -> start < endv ->
  bi_Start (er_endGap r) < endv <= bi_End (er_endGap r) ->
  adjustGaps start endv gap r =
  (if bi_Start gap <? start then [mkBI (bi_Start gap) start] else []) ++
  (if endv <? bi_End (er_endGap r) then [mkBI endv (bi_End (er_endGap r))] else []).
Proof.
  intros Hg Hp Hf Hi Hs Hse He. unfold adjustGaps.
  destruct passed as [|g passed]; cbv iota in Hf; rewrite Hi, Hf, Z.geb_leb.
  - injection Hp as Hge _. rewrite <- Hge in *.
    destruct (start =? bi_Start gap) eqn:E1, (endv <? bi_End gap) eqn:E2, (endv =? bi_End gap) eqn:E3;
      bool_to_prop; try lia.
    + rewrite (proj2 (Z.leb_gt _ _)), (proj2 (Z.ltb_ge (bi_Start gap) _)) by lia. done.
    + rewrite (proj2 (Z.leb_le _ _)), (proj2 (Z.ltb_ge (bi_Start gap) _)) by lia. done.
    + rewrite (proj2 (Z.ltb_lt (bi_Start gap) _)) by lia. done.
    + rewrite (proj2 (Z.ltb_lt (bi_Start gap) _)) by lia. done.
  - injection Hp as Hge Hp. destruct Hg as [Hg Hl]. rewrite Hp in Hl. subst g.
    assert (Hlt : bi_End gap < bi_Start (er_endGap r)).
    { clear -Hl. apply gaps_ok_app in Hl as [Hl Hr]. destruct Hr as [Hr _].
      assert (Hm : forall l lo, gaps_ok lo (l ++ er_endGap r :: er_after r) -> lo <= lo_after lo l).
      { clear. induction l as [|g l IH]; intros lo Hl; [done|]. destruct Hl as [Hg Hl].
        unfold lo_after in *. cbn [fold_left]. apply IH in Hl. lia. }
      apply Hm in Hl. lia. }
    rewrite ?orb_false_r.
    destruct (start =? bi_Start gap) eqn:E1, (endv <? bi_End (er_endGap r)) eqn:E2, (endv =? bi_End (er_endGap r)) eqn:E3;
      bool_to_prop; try lia.
    + rewrite (proj2 (Z.leb_le _ _)), (proj2 (Z.ltb_ge (bi_Start gap) _)) by lia. done.
    + rewrite (proj2 (Z.leb_le _ _)), (proj2 (Z.ltb_ge (bi_Start gap) _)) by lia. done.
    + rewrite (proj2 (Z.ltb_lt (bi_Start gap) _)) by lia. done.
    + rewrite (proj2 (Z.ltb_lt (bi_Start gap) _)) by lia. done.
Qed.

(** ** Taking a frame out of the gaps *)

Lemma gaps_ok_weaken lo lo' l : l <> [] -> lo' <= lo -> gaps_ok lo l -> gaps_ok lo' l.
Proof. destruct l as [|g l]; [done|]. intros _ Hle [Hg Hl]. split; [lia|done]. Qed.

Lemma before_lo lo before l c :
  gaps_ok lo (before ++ l) -> lo <= c -> Forall (fun g => bi_End g < c) before -> lo_after lo before <= c.
Proof.
  revert lo. induction before as [|g before IH]; intros lo Hg Hc Hb; [done|].
  inv Hb. destruct Hg as [Hg Hl]. unfold lo_after. cbn [fold_left]. apply IH; [done|lia|done].
Qed.

(** The gaps a frame [start, end) leaves: [taken] says which part of the gaps
    [gap] to [eg] it covers. *)
Section take.
Variables (before passed rest : list ByteInterval) (gap eg : ByteInterval) (after : list ByteInterval).
Variables (off start e endv : Z).
Hypothesis Hgaps : gaps_ok 0 (before ++ gap :: after).
Hypothesis Hsplit : gap :: after = passed ++ eg :: rest.
Hypothesis Hbefore : Forall (fun g => bi_End g < off) before.
Hypothesis Hoff : 0 <= off.
Hypothesis Hstart : start = Z.max off (bi_Start gap).
Hypothesis Hin : off < bi_End gap.
Hypothesis He : e = Z.min endv (bi_End eg).
Hypothesis Heg : bi_Start eg < endv.
Hypothesis Hend : off < endv /\ bi_Start gap < endv.
Hypothesis Hstop : bi_End eg <= endv -> match rest with [] => False | g :: _ => endv <= bi_Start g end.

Let left : list ByteInterval := if bi_Start gap <? start then [mkBI (bi_Start gap) start] else [].
Let right : list ByteInterval := if e <? bi_End eg then [mkBI e (bi_End eg)] else [].

Lemma take_gap_after : bi_Start gap < bi_End gap /\ gaps_ok (bi_End gap + 1) after.
Proof. apply gaps_ok_app in Hgaps as [_ [Hg Hl]]. split; [lia|done]. Qed.

(** The gaps passed on the way are inside the frame. *)
Lemma take_passed :
  (passed = [] /\ gap = eg /\ after = rest) \/
  (exists mid, passed = gap :: mid /\ after = mid ++ eg :: rest /\
     bi_End gap < bi_Start eg /\
     Forall (fun g => bi_End gap < bi_Start g < bi_End g /\ bi_End g < bi_Start eg) mid).
Proof.
  destruct take_gap_after as [_ Ha]. destruct passed as [|g mid].
  - left. by injection Hsplit.
  - right. injection Hsplit as -> Hs. exists mid. split; [done|]. split; [done|]. rewrite Hs in Ha. clear -Ha.
    assert (Hgen : forall l lo, gaps_ok lo (l ++ eg :: rest) ->
      lo <= bi_Start eg /\ Forall (fun g => lo <= bi_Start g < bi_End g /\ bi_End g < bi_Start eg) l).
    { clear. induction l as [|g l IH]; intros lo Hg; destruct Hg as [Hg Hl]; [split; [lia|done]|].
      apply IH in Hl as [Hle Hf]. split; [lia|]. constructor; [lia|].
      eapply Forall_impl; [|exact Hf]. simpl. lia. }
    apply Hgen in Ha as [Hle Hf]. split; [lia|]. eapply Forall_impl; [|exact Hf]. simpl. lia.
Qed.

Lemma take_bounds :
  bi_Start gap <= start < bi_End gap /\ start < e <= endv /\ bi_Start eg < bi_End eg /\ bi_Start eg < e <= bi_End eg /\
  gaps_ok (bi_End eg + 1) rest /\ off <= start.
Proof.
  destruct take_gap_after as [Hg Ha].
  assert (Hr : bi_Start eg < bi_End eg /\ gaps_ok (bi_End eg + 1) rest).
  { destruct take_passed as [(_ & -> & ->)|(mid & _ & Es & _ & _)].
    - done.
    - rewrite Es in Ha. apply gaps_ok_app in Ha as [_ [? ?]]. split; [lia|done]. }
  destruct Hr as [Hr1 Hr2]. assert (start < e).
  { destruct take_passed as [(_ & -> & _)|(mid & _ & _ & Hlt & _)]; lia. }
  split; [lia|]. split; [lia|]. split; [done|]. split; [lia|]. split; [done|lia].
Qed.

Lemma take_rest x : in_gaps rest x -> bi_End eg < x /\ (bi_End eg <= endv -> endv <= x).
Proof.
  destruct take_bounds as (_ & _ & _ & _ & Hr & _). intros Hx. split; [apply (in_gaps_ge _ _ _ Hr) in Hx; lia|].
  intros Hle. specialize (Hstop Hle). destruct rest as [|g l]; [done|]. destruct Hr as [Hg Hl].
  apply in_gaps_cons in Hx as [Hx|Hx]; [lia|]. apply (in_gaps_ge _ _ _ Hl) in Hx. lia.
Qed.

Lemma take_ok : gaps_ok 0 (before ++ left ++ right ++ rest).
Proof.
  destruct take_bounds as (B1 & B2 & B3 & B4 & Hr & B5). apply (gaps_ok_replace _ _ (gap :: after)); [done|].
  pose proof Hgaps as Hg. apply gaps_ok_app in Hg as [_ [Hg _]].
  assert (HR : forall lo, lo <= e -> gaps_ok lo (right ++ rest)).
  { intros lo Hlo. unfold right. destruct (e <? bi_End eg) eqn:E; bool_to_prop; [split; cbn; [lia|done]|].
    apply (gaps_ok_weaken (bi_End eg + 1)); [|lia|done].
    cbn [app]. intros Hn. pose proof (Hstop ltac:(lia)) as Hs. by rewrite Hn in Hs. }
  unfold left. destruct (bi_Start gap <? start) eqn:E; bool_to_prop; cbn [app].
  - split; [cbn; lia|]. cbn [bi_End]. apply HR. lia.
  - apply HR. lia.
Qed.

Lemma take_in x :
  in_gaps (before ++ left ++ right ++ rest) x <-> in_gaps (before ++ gap :: after) x /\ ~ (off <= x < endv).
Proof.
  destruct take_bounds as (B1 & B2 & B3 & B4 & Hr & B5). rewrite Hsplit, !in_gaps_app, in_gaps_cons.
  assert (Hbef : in_gaps before x -> x < off).
  { unfold in_gaps. rewrite Exists_exists. rewrite Forall_forall in Hbefore. intros (g & Hg & Hx).
    apply Hbefore in Hg. lia. }
  assert (Hleft : in_gaps left x <-> bi_Start gap <= x < start).
  { unfold left. destruct (bi_Start gap <? start) eqn:E; bool_to_prop; rewrite ?in_gaps_cons, in_gaps_nil; cbn; lia. }
  assert (Hright : in_gaps right x <-> e <= x < bi_End eg).
  { unfold right. destruct (e <? bi_End eg) eqn:E; bool_to_prop; rewrite ?in_gaps_cons, in_gaps_nil; cbn; lia. }
  rewrite Hleft, Hright. pose proof (take_rest x) as Hrest.
  destruct take_passed as [(Ep & Eg & _)|(mid & Ep & _ & Hlt & Hmid)]; rewrite Ep.
  - rewrite <- Eg in *. rewrite in_gaps_nil. split.
    + intros [Hx|[Hx|[Hx|Hx]]]; [split; [tauto|apply Hbef in Hx; lia]|split; [lia|lia]|split; [lia|lia]|].
      split; [tauto|]. apply Hrest in Hx. lia.
    + intros [[Hx|[[]|[Hx|Hx]]] Hn]; [tauto|lia|tauto].
  - rewrite in_gaps_cons.
    assert (Hm : in_gaps mid x -> bi_End gap < x < bi_Start eg).
    { unfold in_gaps. rewrite Exists_exists. rewrite Forall_forall in Hmid. intros (g & Hg & Hx).
      apply Hmid in Hg. lia. }
    split.
    + intros [Hx|[Hx|[Hx|Hx]]]; [split; [tauto|apply Hbef in Hx; lia]|split; [lia|lia]|split; [lia|lia]|].
      split; [tauto|]. apply Hrest in Hx. lia.
    + intros [[Hx|[[Hx|Hx]|[Hx|Hx]]] Hn]; [tauto|lia|apply Hm in Hx; lia|lia|tauto].
Qed.

(** *** The tiles around the frame *)

Lemma deleteEnds_lookup l q k :
  (forall g, In g l -> bi_End g <> k) -> deleteEnds l q !! k = q !! k.
Proof.
  clear. revert q. induction l as [|g l IH]; intros q Hk; [done|]. unfold deleteEnds. cbn [fold_left].
  fold (deleteEnds l (delete (bi_End g) q)). rewrite IH by (intros; apply Hk; by right).
  apply lookup_delete_ne. apply Hk. by left.
Qed.

Lemma passed_ends g : In g passed -> bi_End gap <= bi_End g < bi_Start eg.
Proof.
  destruct take_passed as [(Ep & _)|(mid & Ep & _ & Hlt & Hmid)]; rewrite Ep; [done|].
  intros [<-|Hg]; [lia|]. rewrite Forall_forall in Hmid. apply Hmid in Hg. lia.
Qed.

Variable (q : gmap Z StreamFrame) (f : StreamFrame) (r : Z).
Hypothesis Hlen : DataLen f = e - start.
Hypothesis Htiled : tiled q r (before ++ gap :: after).
Let q' : gmap Z StreamFrame := <[start := f]> (deleteEnds passed q).

Lemma take_agree k : k < start \/ bi_End eg <= k -> k < bi_End gap \/ bi_Start eg <= k -> q' !! k = q !! k.
Proof.
  destruct take_bounds as (B1 & B2 & B3 & B4 & _). intros Hk Hk'. unfold q'. rewrite lookup_insert_ne by lia.
  apply deleteEnds_lookup. intros g Hg. apply passed_ends in Hg. lia.
Qed.

Lemma take_rest_tiled : tiled q' (bi_End eg) rest.
Proof.
  destruct take_bounds as (B1 & B2 & B3 & B4 & Hr & _).
  pose proof Htiled as Ht. rewrite Hsplit, !tiled_app in Ht. destruct Ht as (_ & _ & Ht). cbn [tiled] in Ht.
  destruct Ht as [_ Ht]. apply (tiled_agree q q' _ _ _ Hr); [|done]. intros k Hk _. apply take_agree; lia.
Qed.

Lemma take_start_tiled : tiled q' start (right ++ rest).
Proof.
  destruct take_bounds as (B1 & B2 & B3 & B4 & Hr & _).
  assert (Hc : chain q' start e).
  { apply (chain_cons _ _ f); [apply lookup_insert_eq|lia|]. rewrite Hlen. replace (start + (e - start)) with e by lia.
    constructor. }
  unfold right. destruct (e <? bi_End eg) eqn:E; bool_to_prop; cbn [app].
  - split; [done|]. apply take_rest_tiled.
  - apply (tiled_extend _ _ e); [|done|].
    + intros Hn. pose proof (Hstop ltac:(lia)) as Hs. by rewrite Hn in Hs.
    + replace e with (bi_End eg) by lia. apply take_rest_tiled.
Qed.

Lemma chain_below l a c :
  tiled q a l -> Forall (fun g => bi_Start g < c) l -> (forall k, k < c -> q' !! k = q !! k) -> tiled q' a l.
Proof.
  clear. revert a. induction l as [|g l IH]; intros a Ht Hl Hq; [done|]. destruct Ht as [Hc Ht]. inv Hl.
  split; [|by apply IH]. eapply chain_agree; [|exact Hc]. intros k Hk. apply Hq. lia.
Qed.

Lemma before_starts : Forall (fun g => bi_Start g < bi_Start gap) before.
Proof.
  clear -Hgaps. revert Hgaps. generalize 0. induction before as [|g l IH]; intros lo Hg; [done|].
  destruct Hg as [Hg Hl]. constructor; [|by apply IH in Hl].
  assert (Hgen : forall l lo, gaps_ok lo (l ++ gap :: after) -> lo <= bi_Start gap).
  { clear. induction l as [|g l IH]; intros lo [Hg Hl]; [lia|]. apply IH in Hl. lia. }
  apply Hgen in Hl. lia.
Qed.

Lemma take_tiled : tiled q' r (before ++ left ++ right ++ rest).
Proof.
  destruct take_bounds as (B1 & B2 & B3 & B4 & Hr & _).
  pose proof Htiled as Ht. rewrite tiled_app in Ht. destruct Ht as (Hb & Hc & _). rewrite tiled_app. split.
  - apply (chain_below _ _ (bi_Start gap)); [done|exact before_starts|]. intros k Hk. apply take_agree; lia.
  - assert (Hc' : chain q' (end_after r before) (bi_Start gap)).
    { eapply chain_agree; [|exact Hc]. intros k Hk. apply take_agree; lia. }
    unfold left. destruct (bi_Start gap <? start) eqn:E; bool_to_prop; cbn [app].
    + split; [done|]. apply take_start_tiled.
    + replace (bi_Start gap) with start in Hc' by lia. apply (tiled_extend _ _ start); [|done|apply take_start_tiled].
      unfold right. destruct (e <? bi_End eg) eqn:E2; [done|]. cbn [app]. bool_to_prop.
      intros Hn. pose proof (Hstop ltac:(lia)) as Hs. by rewrite Hn in Hs.
Qed.
End take.

(** ** The invariant *)

(** The bytes of a frame are those of the stream [D] from its offset on. *)
Definition consistent (D : Z -> Z) (off : Z) (data : list Z) : Prop :=
  forall i b, data !! i = Some b -> b = D (off + Z.of_nat i).

Lemma consistent_drop D off data n :
  0 <= n -> consistent D off data -> consistent D (off + n) (drop (Z.to_nat n) data).
Proof.
  intros Hn Hc i b. rewrite lookup_drop. intros Hb. apply Hc in Hb. rewrite Hb. f_equal. lia.
Qed.

Lemma consistent_take D off data n : consistent D off data -> consistent D off (take n data).
Proof. intros Hc i b Hb. apply lookup_take_Some in Hb as [Hb _]. by apply Hc. Qed.

Lemma zlen_drop {A} (l : list A) n : 0 <= n <= zlen l -> zlen (drop (Z.to_nat n) l) = zlen l - n.
Proof. unfold zlen. rewrite length_drop. lia. Qed.
Lemma zlen_take {A} (l : list A) n : 0 <= n <= zlen l -> zlen (take (Z.to_nat n) l) = n.
Proof. unfold zlen. rewrite length_take. lia. Qed.

(** A frame of the stream with content [D] and length [N]. *)
Record frame_ok (D : Z -> Z) (N : Z) (f : StreamFrame) : Prop := {
  fr_off : 0 <= sf_Offset f;
  fr_end : sf_Offset f + DataLen f <= N;
  fr_data : consistent D (sf_Offset f) (sf_Data f);
  fr_empty : DataLen f = 0 -> sf_FinBit f = true /\ sf_Offset f = N;
}.

Record sorter_inv (D : Z -> Z) (N : Z) (s : streamFrameSorter) : Prop := {
  si_gaps : gaps_ok 0 (sfs_gaps s);
  si_read : 0 <= sfs_readPosition s;
  si_tiled : tiled (sfs_queuedFrames s) (sfs_readPosition s) (sfs_gaps s);
  si_frames : forall k f, sfs_queuedFrames s !! k = Some f -> sf_Offset f = k /\ frame_ok D N f /\
    forall x, k <= x < k + DataLen f -> ~ in_gaps (sfs_gaps s) x;
  si_rest : forall x, N <= x < Max -> in_gaps (sfs_gaps s) x;
}.

Section push.
Variables (D : Z -> Z) (N : Z).
Hypothesis HN : 0 <= N < Max.

Lemma frame_len_nonneg f : 0 <= DataLen f.
Proof. apply zlen_nonneg. Qed.

(** The frames queued below all the gaps stay as they are. *)
Definition low_keys (s s' : streamFrameSorter) : Prop :=
  forall k, (forall x, in_gaps (sfs_gaps s) x -> k < x) -> sfs_queuedFrames s' !! k = sfs_queuedFrames s !! k.

Lemma gap_start_in lo l g : gaps_ok lo l -> In g l -> in_gaps l (bi_Start g) /\ bi_Start g < bi_End g.
Proof.
  revert lo. induction l as [|h l IH]; intros lo Hl Hin; [done|]. destruct Hl as [Hh Hl]. rewrite in_gaps_cons.
  destruct Hin as [->|Hin]; [split; [left|]; lia|]. destruct (IH _ Hl Hin) as [? ?]. split; [by right|done].
Qed.

(** What [Push] does to a frame with data. *)
Definition push_outcome (s s' : streamFrameSorter) (e : option error) (off endv : Z) : Prop :=
  (e = Some errDuplicateStreamData /\ s' = s /\ forall x, off <= x < endv -> ~ in_gaps (sfs_gaps s) x) \/
  (e = Some errTooManyGapsInReceivedStreamData /\ MaxStreamFrameSorterGaps < zlen (sfs_gaps s')) \/
  (e = None /\ (sorter_inv D N s' /\ low_keys s s') /\ sfs_readPosition s' = sfs_readPosition s /\
   forall x, in_gaps (sfs_gaps s') x <-> in_gaps (sfs_gaps s) x /\ ~ (off <= x < endv)).

(** The end of a gap is the offset of a queued frame. *)
Lemma gap_end_queued s before gap after :
  sorter_inv D N s -> sfs_gaps s = before ++ gap :: after -> bi_End gap < Max ->
  exists f, sfs_queuedFrames s !! bi_End gap = Some f.
Proof.
  intros Hinv E Hlt. pose proof (si_gaps _ _ _ Hinv) as Hg. pose proof (si_tiled _ _ _ Hinv) as Ht.
  rewrite E in Hg, Ht. apply gaps_ok_app in Hg as [_ [_ Hg]]. apply tiled_app in Ht as [_ [_ Ht]].
  destruct after as [|g l]; [simpl in Hg; lia|]. destruct Hg as [Hg _], Ht as [Hc _].
  inversion Hc as [|a f b Hf]; subst; [lia|]. by exists f.
Qed.

(** The offset of a frame lies strictly before the end of the gap found. *)
Lemma start_in_gap s before gap after off :
  sorter_inv D N s -> sfs_gaps s = before ++ gap :: after -> off < Max -> off <= bi_End gap ->
  sfs_queuedFrames s !! off = None \/ ~ in_gaps (sfs_gaps s) (off - 1) -> off < bi_End gap.
Proof.
  intros Hinv E Hm Hle Ho. destruct (Z.eq_dec off (bi_End gap)) as [->|]; [|lia]. destruct Ho as [Ho|Ho].
  - destruct (gap_end_queued s before gap after Hinv E Hm) as [f Hf]. congruence.
  - destruct Ho. rewrite E, in_gaps_app, in_gaps_cons. right. left.
    pose proof (si_gaps _ _ _ Hinv) as Hg. rewrite E in Hg. apply gaps_ok_app in Hg as [_ [Hg _]]. lia.
Qed.

Lemma store_low_keys s before gap after passed eg rest start f gaps' :
  sorter_inv D N s -> sfs_gaps s = before ++ gap :: after -> gap :: after = passed ++ eg :: rest ->
  bi_Start gap <= start ->
  low_keys s (mkSFS (<[start := f]> (deleteEnds passed (sfs_queuedFrames s))) (sfs_readPosition s) gaps').
Proof.
  intros Hinv E Hs Hst k Hk. pose proof (si_gaps _ _ _ Hinv) as Hg. cbn [sfs_queuedFrames].
  assert (Hin : forall g, In g (gap :: after) -> k < bi_Start g < bi_End g).
  { intros g Hin. assert (Hin' : In g (sfs_gaps s)) by (rewrite E; apply in_or_app; by right).
    destruct (gap_start_in 0 _ g Hg Hin') as [H1 H2]. split; [by apply Hk|done]. }
  pose proof (Hin gap (or_introl eq_refl)). rewrite lookup_insert_ne by lia. apply deleteEnds_lookup. intros g Hg'.
  assert (Hg2 : In g (gap :: after)) by (rewrite Hs; apply in_or_app; by left). specialize (Hin g Hg2). lia.
Qed.

(** Storing the part of the frame that fills the gaps. *)
Lemma store_inv s before gap after passed eg rest off endv f :
  sorter_inv D N s -> sfs_gaps s = before ++ gap :: after -> gap :: after = passed ++ eg :: rest ->
  Forall (fun g => bi_End g < off) before -> 0 <= off < bi_End gap -> bi_Start eg < endv <= N ->
  off < endv -> bi_Start gap < endv ->
  (bi_End eg <= endv -> match rest with [] => False | g :: _ => endv <= bi_Start g end) ->
  let start := Z.max off (bi_Start gap) in
  let e := Z.min endv (bi_End eg) in
  sf_Offset f = start -> DataLen f = e - start -> consistent D start (sf_Data f) ->
  let gaps' := before ++ (if bi_Start gap <? start then [mkBI (bi_Start gap) start] else []) ++
    (if e <? bi_End eg then [mkBI e (bi_End eg)] else []) ++ rest in
  (sorter_inv D N (mkSFS (<[start := f]> (deleteEnds passed (sfs_queuedFrames s))) (sfs_readPosition s) gaps') /\
   low_keys s (mkSFS (<[start := f]> (deleteEnds passed (sfs_queuedFrames s))) (sfs_readPosition s) gaps')) /\
  (forall x, in_gaps gaps' x <-> in_gaps (sfs_gaps s) x /\ ~ (off <= x < endv)).
Proof.
  intros Hinv E Hs Hb Ho He Hlt1 Hlt2 Hstop start e Hoff Hlen Hdata gaps'.
  pose proof (si_gaps _ _ _ Hinv) as Hg. rewrite E in Hg.
  pose proof (take_bounds before passed rest gap eg after off start e endv Hg Hs eq_refl (proj2 Ho) eq_refl
    (proj1 He) (conj Hlt1 Hlt2)) as (B1 & B2 & B3 & B4 & _ & B5).
  assert (Hin : forall x, in_gaps gaps' x <-> in_gaps (sfs_gaps s) x /\ ~ (off <= x < endv)).
  { intros x. rewrite E. apply (take_in before passed rest gap eg after off start e endv); (done || lia). }
  split; [|exact Hin]. split; [|apply (store_low_keys s before gap after passed eg rest); (done || lia)].
  constructor; cbn [sfs_gaps sfs_readPosition sfs_queuedFrames].
  - apply (take_ok before passed rest gap eg after off start e endv); (done || lia).
  - apply Hinv.
  - pose proof (si_tiled _ _ _ Hinv) as Ht. rewrite E in Ht.
    apply (take_tiled before passed rest gap eg after off start e endv); (done || lia).
  - intros k g. rewrite lookup_insert_Some. intros [[<- <-]|[_ Hk]].
    + split; [done|]. split; [constructor; [lia|lia|by rewrite Hoff|lia]|].
      intros x Hx. rewrite Hin. intros [_ Hx']. lia.
    + assert (Hk' : sfs_queuedFrames s !! k = Some g).
      { revert Hk. clear. unfold deleteEnds. generalize (sfs_queuedFrames s).
        induction passed as [|h l IH]; intros q Hk; [done|]. cbn [fold_left] in Hk. apply IH in Hk.
        by apply lookup_delete_Some in Hk as [_ Hk]. }
      destruct (si_frames _ _ _ Hinv k g Hk') as (E1 & E2 & E3). split; [done|]. split; [done|].
      intros x Hx. rewrite Hin. intros [Hx' _]. by apply (E3 x).
  - intros x Hx. rewrite Hin. split; [by apply Hinv|]. lia.
Qed.

Lemma sliceFrom_ok data n : 0 <= n <= zlen data -> sliceFrom data n = Ok (drop (Z.to_nat n) data).
Proof. intros Hn. unfold sliceFrom. by rewrite (proj2 (Z.leb_le _ _)) by lia. Qed.
Lemma sliceTo_ok data n : 0 <= n <= zlen data -> sliceTo data n = Ok (take (Z.to_nat n) data).
Proof. intros Hn. unfold sliceTo. by rewrite (proj2 (Z.leb_le _ _)) by lia. Qed.

(** Cutting the part of a frame before [g]. *)
Lemma cutFront_ok f g :
  frame_ok D N f -> 0 < DataLen f -> g < sf_Offset f + DataLen f ->
  let off := sf_Offset f in
  let c := Z.max off g in
  (if off <? g then off +u (g -u off) else off) = c /\
  exists f', (if off <? g then
      let* data := sliceFrom (sf_Data f) (g -u off) in Ok (set_frame f (off +u (g -u off)) data) else Ok f) = Ok f' /\
    sf_Offset f' = c /\ DataLen f' = off + DataLen f - c /\ consistent D c (sf_Data f').
Proof.
  intros [Ho He Hd _] Hl Hc. unfold MaxByteCountValue in HN. cbv zeta.
  destruct (_ <? g) eqn:E; bool_to_prop.
  - rewrite sub64_small, sliceFrom_ok by (unfold DataLen in *; lia). cbn [bind].
    rewrite add64_small by lia. replace (sf_Offset f + (g - sf_Offset f)) with g by lia. rewrite Z.max_r by lia.
    split; [done|]. eexists. split; [done|]. cbn. split; [done|]. unfold DataLen in *. cbn. rewrite zlen_drop by lia.
    split; [lia|]. replace g with (sf_Offset f + (g - sf_Offset f)) at 1 by lia. apply consistent_drop; [lia|done].
  - rewrite Z.max_l by lia. split; [done|]. exists f. split; [done|]. split; [done|]. split; [lia|done].
Qed.

(** Cutting the part after [c]. *)
Lemma cutBack_ok f endv c :
  sf_Offset f + DataLen f = endv -> endv < Max -> 0 <= sf_Offset f < c -> consistent D (sf_Offset f) (sf_Data f) ->
  exists f', (if endv >? c then
      let* data := sliceTo (sf_Data f) (DataLen f -u (endv -u c)) in
      Ok (set_frame f (sf_Offset f) data) else Ok f) = Ok f' /\
    sf_Offset f' = sf_Offset f /\ DataLen f' = Z.min endv c - sf_Offset f /\ consistent D (sf_Offset f) (sf_Data f').
Proof.
  intros He Hm Hc Hd. unfold MaxByteCountValue in Hm. rewrite Z.gtb_ltb. destruct (c <? endv) eqn:E; bool_to_prop.
  - pose proof (zlen_nonneg (sf_Data f)). unfold DataLen in *.
    rewrite (sub64_small endv c), sub64_small by lia. rewrite sliceTo_ok by lia. cbn [bind].
    eexists. split; [done|]. cbn. split; [done|]. rewrite zlen_take by lia. split; [lia|].
    by apply consistent_take.
  - exists f. split; [done|]. split; [done|]. split; [lia|done].
Qed.

Lemma pushIntoGaps_spec s f :
  sorter_inv D N s -> frame_ok D N f -> 0 < DataLen f ->
  sfs_queuedFrames s !! sf_Offset f = None \/ ~ in_gaps (sfs_gaps s) (sf_Offset f - 1) ->
  exists s' e, pushIntoGaps s f = Ok (s', e) /\ push_outcome s s' e (sf_Offset f) (sf_Offset f + DataLen f).
Proof.
  intros Hinv Hok Hl Ho. pose proof Hok as Hok'. destruct Hok' as [Hoff Hend Hdata _].
  assert (HM : Max = 2 ^ 64 - 1) by done.
  unfold pushIntoGaps. rewrite add64_small by lia. set (off := sf_Offset f) in *. set (endv := off + DataLen f) in *.
  assert (Hoe : off < endv) by (unfold endv; lia).
  pose proof (findGap_spec 0 off endv (sfs_gaps s) (si_gaps _ _ _ Hinv) Hoff ltac:(lia) ltac:(lia)) as Hf.
  destruct (findGap off endv (sfs_gaps s)) as [| |before gap after].
  { do 2 eexists. split; [done|]. left. done. }
  { done. }
  destruct Hf as (E & Hgs & Hge & Hb). pose proof (si_gaps _ _ _ Hinv) as Hg. rewrite E in Hg.
  apply gaps_ok_app in Hg as [_ Hg].
  assert (Hlt : off < bi_End gap) by (apply (start_in_gap s before gap after off Hinv E); (done || lia)).
  destruct (findEndGap_spec _ endv true gap after (sfs_queuedFrames s) Hg ltac:(lia))
    as (Hbug & passed & P1 & P2 & P3 & P4 & P5 & P6 & P7).
  set (r := findEndGap endv true gap after (sfs_queuedFrames s)) in *.
  pose proof (si_gaps _ _ _ Hinv) as Hg0. rewrite E in Hg0.
  set (start := Z.max off (bi_Start gap)). set (e := Z.min endv (bi_End (er_endGap r))).
  pose proof (take_bounds before passed (er_after r) gap (er_endGap r) after off start e endv Hg0 P1 eq_refl Hlt
    eq_refl P5 (conj Hoe Hgs)) as (B1 & B2 & B3 & B4 & _ & B5).
  destruct (cutFront_ok f (bi_Start gap) Hok Hl Hgs) as (Es & f1 & Ef & O1 & L1 & C1).
  fold off in Es, Ef, O1, L1, C1. fold start in Es, O1, L1, C1. rewrite Ef, Es, Hbug. cbn [bind].
  destruct (cutBack_ok f1 endv (bi_End (er_endGap r))) as (f2 & Ef2 & O2 & L2 & C2);
    [unfold endv in *; lia|lia|lia|by rewrite O1|]. rewrite Ef2. cbn [bind].
  assert (Eend : (if endv >? bi_End (er_endGap r) then endv -u (endv -u bi_End (er_endGap r)) else endv) = e).
  { rewrite Z.gtb_ltb. unfold e. case_test; [|lia].
    rewrite (sub64_small endv (bi_End (er_endGap r))) by lia. rewrite sub64_small by lia. lia. }
  rewrite Eend. rewrite (adjustGaps_spec _ start e gap after r passed Hg P1 P3) by (done || lia ||
    (rewrite P4; f_equal; apply eq_true_iff_eq; rewrite !Z.ltb_lt; unfold e; lia)).
  rewrite <- !app_assoc. rewrite O2, O1.
  destruct (store_inv s before gap after passed (er_endGap r) (er_after r) off endv f2) as [Hi Hx];
    [done|done|done|done|lia|lia|lia|done|done|by rewrite O2|fold start e; lia|fold start; by rewrite <- O1|].
  fold start e in Hi, Hx. rewrite P2. rewrite Z.gtb_ltb. case_test.
  - do 2 eexists. split; [done|]. right. left. done.
  - do 2 eexists. split; [done|]. right. right. split; [done|]. split; [done|]. split; [done|exact Hx].
Qed.

Lemma Push_spec s f :
  sorter_inv D N s -> frame_ok D N f ->
  exists s' e, Push s f = Ok (s', e) /\ push_outcome s s' e (sf_Offset f) (sf_Offset f + DataLen f).
Proof.
  intros Hinv Hok. pose proof (frame_len_nonneg f). unfold Push. destruct (DataLen f =? 0) eqn:E0; bool_to_prop.
  { destruct (fr_empty _ _ _ Hok E0) as [Ef Eo]. rewrite Ef, E0. do 2 eexists. split; [done|]. right. right.
    split; [done|]. cbn [sfs_gaps sfs_readPosition]. split; [|split; [done|]; intros x; split; [|tauto]; intros; split; [done|lia]].
    split; [|intros k Hk; apply lookup_insert_ne; pose proof (Hk N (si_rest _ _ _ Hinv N ltac:(lia))); lia].
    destruct Hinv as [Hg Hr Ht Hf Hn]. constructor; try done; cbn [sfs_gaps sfs_readPosition sfs_queuedFrames].
    - apply (tiled_agree (sfs_queuedFrames s) _ _ _ 0 Hg); [|done]. intros k Hk Hk'.
      rewrite lookup_insert_ne; [done|]. intros <-. apply Hk', Hn. lia.
    - intros k g. rewrite lookup_insert_Some. intros [[<- <-]|[_ Hk]]; [|by apply Hf].
      split; [done|]. split; [done|]. lia. }
  destruct (sfs_queuedFrames s !! sf_Offset f) as [old|] eqn:Eq; [|apply pushIntoGaps_spec; (done || lia || by left)].
  destruct (si_frames _ _ _ Hinv _ _ Eq) as (Eo & Hold & Hrecv). pose proof (frame_len_nonneg old).
  destruct (DataLen f <=? DataLen old) eqn:El; bool_to_prop.
  { do 2 eexists. split; [done|]. left. split; [done|]. split; [done|]. intros x Hx. apply Hrecv. lia. }
  assert (Hpos : 0 < DataLen old).
  { destruct (Z.eq_dec (DataLen old) 0) as [E|]; [|lia]. apply (fr_empty _ _ _ Hold) in E as [_ E].
    destruct Hok. lia. }
  pose proof Hok as [Hoff Hend Hdata _]. assert (HM : Max = 2 ^ 64 - 1) by done.
  rewrite sliceFrom_ok by (unfold DataLen in *; lia). cbn [bind]. rewrite add64_small by lia.
  set (f' := set_frame f (sf_Offset f + DataLen old) (drop (Z.to_nat (DataLen old)) (sf_Data f))).
  assert (El' : DataLen f' = DataLen f - DataLen old) by (unfold DataLen at 1; cbn; apply zlen_drop; unfold DataLen in *; lia).
  destruct (pushIntoGaps_spec s f') as (s' & e & Ep & Ho); [done| |lia| |].
  - constructor; [cbn; lia|rewrite El'; cbn; lia| |lia]. cbn. by apply consistent_drop.
  - right. cbn. apply Hrecv. lia.
  - exists s', e. split; [done|]. rewrite El' in Ho. cbn [sf_Offset f' set_frame] in Ho.
    replace (sf_Offset f + DataLen old + (DataLen f - DataLen old)) with (sf_Offset f + DataLen f) in Ho by lia.
    assert (Hcov : forall x, sf_Offset f <= x < sf_Offset f + DataLen old -> ~ in_gaps (sfs_gaps s) x) by (intros; apply Hrecv; lia).
    destruct Ho as [(-> & -> & Hx)|[Ho|(-> & Hi & Hr & Hx)]].
    + left. split; [done|]. split; [done|]. intros x Hx'.
      destruct (Z.lt_ge_cases x (sf_Offset f + DataLen old)); [apply Hcov; lia|apply Hx; lia].
    + right. by left.
    + right. right. split; [done|]. split; [done|]. split; [done|]. intros x. rewrite Hx.
      split; [|intros [? ?]; split; [done|lia]]. intros [Hg Hn]. split; [done|]. intros Hx'.
      destruct (Z.lt_ge_cases x (sf_Offset f + DataLen old)); [by apply (Hcov x); [lia|]|lia].
Qed.

(** ** Reading *)

Lemma Pop_inv s s' f :
  sorter_inv D N s -> Pop s = (s', Some f) ->
  sorter_inv D N s' /\ sfs_readPosition s' = sfs_readPosition s + DataLen f /\ sfs_gaps s' = sfs_gaps s /\
  consistent D (sfs_readPosition s) (sf_Data f).
Proof.
  intros Hinv E. unfold Pop in E. destruct (Head s) as [g|] eqn:Eh; [|done]. injection E as <- <-. unfold Head in Eh.
  destruct (si_frames _ _ _ Hinv _ _ Eh) as (Eo & Hok & Hrecv). destruct Hinv as [Hg Hr Ht Hf Hn].
  pose proof Hok as [O1 O2 O3 O4]. pose proof (frame_len_nonneg g). assert (HM : Max = 2 ^ 64 - 1) by done.
  cbn [sfs_gaps sfs_readPosition]. rewrite add64_small, Eo by lia. split; [|split; [done|]; split; [done|by rewrite <- Eo]].
  constructor; cbn [sfs_gaps sfs_readPosition sfs_queuedFrames]; try done; [lia| |].
  - destruct (Z.eq_dec (DataLen g) 0) as [E0|Hne].
    + rewrite E0, Z.add_0_r. apply (tiled_agree (sfs_queuedFrames s) _ _ _ 0 Hg); [|done]. intros k Hk Hk'.
      apply lookup_delete_ne. intros <-. apply Hk', Hn. apply O4 in E0 as [_ E0]. lia.
    + apply (tiled_agree (sfs_queuedFrames s) _ _ _ 0 Hg).
      { intros k Hk _. apply lookup_delete_ne. lia. }
      destruct (sfs_gaps s) as [|gap l]; [done|]. destruct Ht as [Hc Ht]. split; [|done].
      inversion Hc as [|a f b Hq Hl Hc']; subst.
      * exfalso. apply (Hrecv (sfs_readPosition s)); [lia|]. apply in_gaps_cons. left. destruct Hg as [Hg _]. lia.
      * rewrite Eh in Hq. injection Hq as <-. done.
  - intros k h [_ Hk]%lookup_delete_Some. by apply Hf.
Qed.

(** The data of the frames that can be popped one after the other. *)
Fixpoint drain (fuel : nat) (s : streamFrameSorter) : list Z :=
  match fuel with
  | O => []
  | S fuel' => match Pop s with (s', Some f) => sf_Data f ++ drain fuel' s' | (_, None) => [] end
  end.

Lemma consistent_app out data :
  consistent D 0 out -> consistent D (zlen out) data -> consistent D 0 (out ++ data).
Proof.
  intros Ho Hd i b Hb. apply lookup_app_Some in Hb as [Hb|[Hi Hb]]; [by apply Ho|].
  apply Hd in Hb. rewrite Hb. f_equal. unfold zlen. lia.
Qed.

Lemma drain_spec fuel s out n :
  sorter_inv D N s -> zlen out = sfs_readPosition s -> consistent D 0 out ->
  (forall x, 0 <= x < n -> ~ in_gaps (sfs_gaps s) x) -> n <= N -> n - sfs_readPosition s <= Z.of_nat fuel ->
  consistent D 0 (out ++ drain fuel s) /\ n <= zlen (out ++ drain fuel s).
Proof.
  revert s out. induction fuel as [|fuel IH]; intros s out Hinv Hz Hc Hx Hn Hf; cbn [drain].
  { rewrite app_nil_r. split; [done|lia]. }
  destruct (Pop s) as [s' [f|]] eqn:Ep.
  - destruct (Pop_inv s s' f Hinv Ep) as (Hi & Er & Eg & Hcf). rewrite app_assoc.
    assert (Hlen : zlen (out ++ sf_Data f) = sfs_readPosition s') by (rewrite zlen_app, Er; unfold DataLen; lia).
    destruct (Z.lt_ge_cases (sfs_readPosition s) n) as [Hlt|Hge].
    + apply IH; try done.
      * apply consistent_app; [done|by rewrite Hz].
      * by rewrite Eg.
      * enough (0 < DataLen f) by lia.
        unfold Pop, Head in Ep. destruct (sfs_queuedFrames s !! sfs_readPosition s) as [g|] eqn:Eq; [|done].
        injection Ep as _ <-. destruct (si_frames _ _ _ Hinv _ _ Eq) as (Eo & Hok & _).
        pose proof (frame_len_nonneg g). destruct (Z.eq_dec (DataLen g) 0) as [E0|]; [|lia].
        apply (fr_empty _ _ _ Hok) in E0 as [_ E0]. lia.
    + apply IH; try done; [by apply consistent_app; [|rewrite Hz]|by rewrite Eg|].
      pose proof (frame_len_nonneg f). lia.
  - rewrite app_nil_r. split; [done|]. destruct (Z.lt_ge_cases (sfs_readPosition s) n) as [Hlt|Hge]; [|lia].
    exfalso. destruct Hinv as [Hg Hr Ht Hfr Hre]. unfold Pop in Ep. destruct (Head s) eqn:Eh; [done|]. unfold Head in Eh.
    destruct (sfs_gaps s) as [|gap l]; [simpl in Hg; unfold MaxByteCountValue in *; lia|].
    destruct Hg as [Hg _], Ht as [Ht _]. inversion Ht as [a Ea|a f b Hq]; subst; [|congruence].
    apply (Hx (sfs_readPosition s)); [lia|]. apply in_gaps_cons. left. lia.
Qed.

(** A run: frames of the stream are pushed in any order and any number of
    times, and frames are popped; [out] is the data popped so far. *)
Inductive sreach : list Z -> streamFrameSorter -> Prop :=
| sreach_new : sreach [] newStreamFrameSorter
| sreach_push out s f s' e :
    sreach out s -> frame_ok D N f -> Push s f = Ok (s', e) -> e = None \/ e = Some errDuplicateStreamData ->
    sreach out s'
| sreach_pop out s f s' : sreach out s -> Pop s = (s', Some f) -> sreach (out ++ sf_Data f) s'.

Lemma sreach_inv out s :
  sreach out s -> sorter_inv D N s /\ zlen out = sfs_readPosition s /\ consistent D 0 out.
Proof.
  induction 1 as [|out s f s' e Hr (IH & Iz & Ic) Hok E He|out s f s' Hr (IH & Iz & Ic) E].
  - split; [|done]. constructor; cbn; try done.
    + split; [constructor|done].
    + intros x Hx. apply in_gaps_cons. left. cbn. lia.
  - destruct (Push_spec s f IH Hok) as (s2 & e2 & E2 & Ho). rewrite E in E2. injection E2 as <- <-.
    destruct Ho as [(_ & -> & _)|[(-> & _)|(_ & [Hi _] & Er & _)]]; [done| |].
    + by destruct He as [He|He].
    + split; [done|]. by rewrite Er.
  - destruct (Pop_inv s s' f IH E) as (Hi & Er & _ & Hcf). split; [done|].
    split; [rewrite zlen_app, Er, Iz; done|]. apply consistent_app; [done|by rewrite Iz].
Qed.
End push.

(** ** Main results *)

(** C2: the sorter keeps track of exactly the bytes received. Pushing a frame of
    the stream never panics and never reports a bug of the sorter; on success
    the bytes of the frame, and no others, leave the gaps; a frame is reported
    as a duplicate only when all its bytes were received before, and then nothing
    changes; the only other failure is a list of more than
    [MaxStreamFrameSorterGaps] gaps. *)
Theorem Push_receives D N out s f :
  0 <= N < Max -> sreach D N out s -> frame_ok D N f ->
  exists s' e, Push s f = Ok (s', e) /\
    ((e = Some errDuplicateStreamData /\ s' = s /\
        forall x, sf_Offset f <= x < sf_Offset f + DataLen f -> ~ in_gaps (sfs_gaps s) x) \/
     (e = Some errTooManyGapsInReceivedStreamData /\ MaxStreamFrameSorterGaps < zlen (sfs_gaps s')) \/
     (e = None /\ sfs_readPosition s' = sfs_readPosition s /\
        forall x, in_gaps (sfs_gaps s') x <->
          in_gaps (sfs_gaps s) x /\ ~ (sf_Offset f <= x < sf_Offset f + DataLen f))).
Proof.
  intros HN Hr Hok. destruct (sreach_inv D N HN out s Hr) as [Hinv _].
  destruct (Push_spec D N HN s f Hinv Hok) as (s' & e & E & Ho). exists s', e. split; [done|].
  destruct Ho as [Ho|[Ho|(E1 & _ & E2 & E3)]]; [by left|by right; left|by right; right].
Qed.

(** The reader gets the stream, in order and complete. Whatever the order,
    overlap and repetition of the frames pushed and however pops are interleaved
    with them, the data popped so far is the prefix of the stream up to the read
    position; and as soon as the first [n] bytes were all received, popping
    delivers them all. *)
Theorem sorter_delivers D N out s :
  0 <= N < Max -> sreach D N out s ->
  zlen out = sfs_readPosition s /\ consistent D 0 out /\
  forall n, n <= N -> (forall x, 0 <= x < n -> ~ in_gaps (sfs_gaps s) x) ->
    let delivered := out ++ drain (Z.to_nat n) s in
    consistent D 0 delivered /\ n <= zlen delivered.
Proof.
  intros HN Hr. destruct (sreach_inv D N HN out s Hr) as (Hinv & Hz & Hc). split; [done|]. split; [done|].
  intros n Hn Hx. apply (drain_spec D N HN); try done. pose proof (si_read _ _ _ Hinv). lia.
Qed.

Definition mkFrame (fin : bool) (off : Z) (data : list Z) : StreamFrame := {|
  sf_StreamID := 5; sf_FinBit := fin; sf_DataLenPresent := true; sf_Offset := off; sf_Data := data |}.

(** A frame cut at its end keeps its FIN bit. When the end of the stream
    [m, N) has arrived before a copy of the whole stream [0, N) with FIN, that
    copy is cut to its first [m] bytes but still carries the FIN bit: a reader
    that stops at the first frame with FIN gets [m] of the [N] bytes. *)
Theorem cut_frame_keeps_fin head tail :
  head <> [] -> tail <> [] -> zlen head + zlen tail < Max ->
  exists s1 s2, Push newStreamFrameSorter (mkFrame true (zlen head) tail) = Ok (s1, None) /\
    Push s1 (mkFrame true 0 (head ++ tail)) = Ok (s2, None) /\
    Head s2 = Some (mkFrame true 0 head).
Proof.
  intros Hh Ht Hlen. assert (HM : Max = 2 ^ 64 - 1) by done.
  assert (Hhp : 0 < zlen head) by (destruct head; [done|]; rewrite zlen_cons; pose proof (zlen_nonneg head); lia).
  assert (Htp : 0 < zlen tail) by (destruct tail; [done|]; rewrite zlen_cons; pose proof (zlen_nonneg tail); lia).
  set (m := zlen head) in *. set (n := m + zlen tail).
  exists (mkSFS {[m := mkFrame true m tail]} 0 [mkBI 0 m; mkBI n Max]).
  exists (mkSFS (<[0 := mkFrame true 0 head]> {[m := mkFrame true m tail]}) 0 [mkBI n Max]).
  split; [|split; [|unfold Head; cbn; apply lookup_insert_eq]].
  - unfold Push, DataLen. cbn [sf_Data mkFrame sfs_queuedFrames newStreamFrameSorter sf_Offset sf_FinBit].
    rewrite (proj2 (Z.eqb_neq _ _)) by lia. rewrite lookup_empty. unfold pushIntoGaps, DataLen.
    cbn [sf_Data mkFrame sfs_queuedFrames newStreamFrameSorter sf_Offset sf_FinBit sfs_gaps]. fold n.
    rewrite add64_small by lia. fold n. cbn [findGap bi_Start bi_End].
    decide_tests. cbn [andb bind]. cbn [findEndGap bi_End]. decide_tests.
    cbn [er_bug er_endGap er_first er_inList er_after er_queued bind bi_End]. decide_tests. cbn [bind].
    unfold adjustGaps. cbn [er_bug er_endGap er_first er_inList er_after er_queued bind bi_End bi_Start].
    decide_tests. cbn [app zlen length]. done.
  - unfold Push, DataLen. cbn [sf_Data mkFrame sfs_queuedFrames newStreamFrameSorter sf_Offset sf_FinBit].
    rewrite zlen_app. fold m n. rewrite (proj2 (Z.eqb_neq _ _)) by lia. rewrite lookup_singleton_ne by lia.
    unfold pushIntoGaps, DataLen. cbn [sf_Data mkFrame sfs_queuedFrames sf_Offset sf_FinBit sfs_gaps].
    rewrite zlen_app. fold m n. rewrite add64_small by lia. rewrite Z.add_0_l. cbn [findGap bi_Start bi_End].
    decide_tests. cbn [andb bind]. cbn [findEndGap bi_End bi_Start]. decide_tests.
    cbn [er_bug er_endGap er_first er_inList er_after er_queued bind bi_End]. decide_tests.
    rewrite (sub64_small n m) by lia. unfold sf_Data at 1 2, mkFrame at 1 2. rewrite zlen_app. fold m n.
    rewrite sub64_small by lia. replace (n - (n - m)) with m by lia.
    rewrite sliceTo_ok by (rewrite zlen_app; fold m; lia). cbn [bind].
    unfold adjustGaps. cbn [er_bug er_endGap er_first er_inList er_after er_queued bind bi_End bi_Start].
    rewrite Z.geb_leb, Z.leb_refl. cbn [app]. change (0 =? 0) with true. cbv iota.
    change (MaxStreamFrameSorterGaps <? zlen [_]) with false. cbv iota. unfold set_frame, mkFrame. cbn -[insert take].
    rewrite take_app_length' by (unfold m, zlen; lia). done.
Qed.

(** ** A concrete run *)

(** A stream of ten bytes: its end arrives first, then an overlapping start. *)
Definition example_stream (x : Z) : Z := 100 + x.
Definition example_end : StreamFrame := mkFrame true 4 [104; 105; 106; 107; 108; 109].
Definition example_start : StreamFrame := mkFrame false 0 [100; 101; 102; 103; 104].

Definition pushed (s : streamFrameSorter) (f : StreamFrame) : streamFrameSorter :=
  match Push s f with Ok (s', _) => s' | _ => s end.
Definition example_sorter : streamFrameSorter := pushed (pushed newStreamFrameSorter example_end) example_start.

Lemma example_end_ok : frame_ok example_stream 10 example_end.
Proof.
  constructor; [vm_compute; discriminate|vm_compute; discriminate| |by vm_compute]. intros i b Hb. do 6 (destruct i; [by injection Hb as <-|]). done.
Qed.
Lemma example_start_ok : frame_ok example_stream 10 example_start.
Proof.
  constructor; [vm_compute; discriminate|vm_compute; discriminate| |by vm_compute]. intros i b Hb. do 5 (destruct i; [by injection Hb as <-|]). done.
Qed.

Lemma example_sorter_reach : sreach example_stream 10 [] example_sorter.
Proof.
  apply (sreach_push _ _ [] (pushed newStreamFrameSorter example_end) example_start example_sorter None); [|exact example_start_ok|vm_compute; reflexivity|by left].
  apply (sreach_push _ _ [] newStreamFrameSorter example_end (pushed newStreamFrameSorter example_end) None);
    [|exact example_end_ok|vm_compute; reflexivity|by left].
  apply sreach_new.
Qed.

Lemma sorter_delivers_witness : 10 <= zlen (drain 10 example_sorter) /\ drain 10 example_sorter =
  [100; 101; 102; 103; 104; 105; 106; 107; 108; 109].
Proof.
  destruct (sorter_delivers example_stream 10 [] example_sorter ltac:(vm_compute; split; [discriminate|reflexivity])
    example_sorter_reach) as (_ & _ & Hd).
  destruct (Hd 10 ltac:(lia)) as [_ Hn].
  - intros x Hx Hg. assert (E : sfs_gaps example_sorter = [mkBI 10 MaxByteCountValue]) by (vm_compute; reflexivity).
    rewrite E in Hg. apply in_gaps_cons in Hg as [Hg|Hg]; [cbn in Hg; lia|by apply in_gaps_nil in Hg].
  - split; [exact Hn|vm_compute; reflexivity].
Defined.

Lemma Push_receives_witness :
  exists s' e, Push (pushed newStreamFrameSorter example_end) example_start = Ok (s', e) /\ e = None.
Proof.
  assert (Hr : sreach example_stream 10 [] (pushed newStreamFrameSorter example_end)).
  { apply (sreach_push _ _ [] newStreamFrameSorter example_end (pushed newStreamFrameSorter example_end) None);
      [|exact example_end_ok|vm_compute; reflexivity|by left].
    apply sreach_new. }
  destruct (Push_receives example_stream 10 [] _ example_start ltac:(vm_compute; split; [discriminate|reflexivity])
    Hr example_start_ok) as (s' & e & E & Ho).
  exists s', e. split; [exact E|]. assert (Ee : (match Push (pushed newStreamFrameSorter example_end) example_start with
    Ok (_, e) => e | _ => None end) = None) by (vm_compute; reflexivity).
  rewrite E in Ee. exact Ee.
Defined.

Lemma cut_frame_keeps_fin_witness :
  exists s1 s2, Push newStreamFrameSorter (mkFrame true 3 [4; 5]) = Ok (s1, None) /\
    Push s1 (mkFrame true 0 [1; 2; 3; 4; 5]) = Ok (s2, None) /\ Head s2 = Some (mkFrame true 0 [1; 2; 3]).
Proof. apply (cut_frame_keeps_fin [1; 2; 3] [4; 5]); vm_compute; (discriminate || reflexivity). Defined.
