(* ===== verification/Congestion.v ===== *)
(** * Congestion control (congestion/: hybrid_slow_start.go, prr_sender.go,
    cubic.go and cubic_sender.go)

    The default algorithm of a path: slow start with delay based exit, the cubic
    window growth, and proportional rate reduction during recovery.  [math.Cbrt]
    is a parameter: the window is bounded whatever it returns. *)
From S2P Require Import Prelude Protocol Float32 RttStats SentPackets.

Definition DefaultTCPMSS : Z := 1460.
Definition InitialCongestionWindow : Z := 32.
Definition DefaultMaxCongestionWindow : Z := 2500.

(** ** Hybrid slow start *)

Definition hybridStartLowWindow : Z := 16.
Definition hybridStartMinSamples : Z := 8.
Definition hybridStartDelayFactorExp : Z := 3.
Definition hybridStartDelayMinThresholdUs : Z := 4000.
Definition hybridStartDelayMaxThresholdUs : Z := 16000.

Definition MinInt64 (a b : Z) : Z := if a <? b then a else b.
Definition MaxInt64 (a b : Z) : Z := if a >? b then a else b.

Record HybridSlowStart : Type := mkHSS {
  hss_endPacketNumber : Z;
  hss_lastSentPacketNumber : Z;
  hss_started : bool;
  hss_currentMinRTT : Z;
  hss_rttSampleCount : Z;
  hss_hystartFound : bool;
}.

Definition newHybridSlowStart : HybridSlowStart := mkHSS 0 0 false 0 0 false.

Definition StartReceiveRound (s : HybridSlowStart) (lastSent : Z) : HybridSlowStart :=
  mkHSS lastSent (hss_lastSentPacketNumber s) true 0 0 (hss_hystartFound s).

Definition IsEndOfRound (s : HybridSlowStart) (ack : Z) : bool := hss_endPacketNumber s <? ack.

Definition ShouldExitSlowStart (s : HybridSlowStart) (latestRTT minRTT congestionWindow : Z) :
    HybridSlowStart * bool :=
  let s := if negb (hss_started s) then StartReceiveRound s (hss_lastSentPacketNumber s) else s in
  if hss_hystartFound s then (s, true)
  else
  let count := u32 (hss_rttSampleCount s + 1) in
  let currentMinRTT :=
    if (count <=? hybridStartMinSamples) &&
       ((hss_currentMinRTT s =? 0) || (hss_currentMinRTT s >? latestRTT))
    then latestRTT else hss_currentMinRTT s in
  let found :=
    if count =? hybridStartMinSamples then
      let thresholdUs := Z.shiftr (Z.quot minRTT Microsecond) hybridStartDelayFactorExp in
      let thresholdUs := MinInt64 thresholdUs hybridStartDelayMaxThresholdUs in
      let threshold := i64 (MaxInt64 thresholdUs hybridStartDelayMinThresholdUs * Microsecond) in
      (currentMinRTT >? i64 (minRTT + threshold)) || hss_hystartFound s
    else hss_hystartFound s in
  (mkHSS (hss_endPacketNumber s) (hss_lastSentPacketNumber s) (hss_started s) currentMinRTT count found,
   (congestionWindow >=? hybridStartLowWindow) && found).

Definition hss_OnPacketSent (s : HybridSlowStart) (packetNumber : Z) : HybridSlowStart :=
  mkHSS (hss_endPacketNumber s) packetNumber (hss_started s) (hss_currentMinRTT s) (hss_rttSampleCount s)
    (hss_hystartFound s).

Definition hss_OnPacketAcked (s : HybridSlowStart) (ackedPacketNumber : Z) : HybridSlowStart :=
  if IsEndOfRound s ackedPacketNumber
  then mkHSS (hss_endPacketNumber s) (hss_lastSentPacketNumber s) false (hss_currentMinRTT s)
         (hss_rttSampleCount s) (hss_hystartFound s)
  else s.

Definition hss_Restart (s : HybridSlowStart) : HybridSlowStart :=
  mkHSS (hss_endPacketNumber s) (hss_lastSentPacketNumber s) false (hss_currentMinRTT s) (hss_rttSampleCount s) false.

(** ** Proportional rate reduction *)

Record PrrSender : Type := mkPrr {
  prr_bytesSentSinceLoss : Z;
  prr_bytesDeliveredSinceLoss : Z;
  prr_ackCountSinceLoss : Z;
  prr_bytesInFlightBeforeLoss : Z;
}.

Definition newPrrSender : PrrSender := mkPrr 0 0 0 0.

Definition prr_OnPacketSent (p : PrrSender) (sentBytes : Z) : PrrSender :=
  mkPrr (prr_bytesSentSinceLoss p +u sentBytes) (prr_bytesDeliveredSinceLoss p) (prr_ackCountSinceLoss p)
    (prr_bytesInFlightBeforeLoss p).

Definition prr_OnPacketLost (p : PrrSender) (bytesInFlight : Z) : PrrSender := mkPrr 0 0 0 bytesInFlight.

Definition prr_OnPacketAcked (p : PrrSender) (ackedBytes : Z) : PrrSender :=
  mkPrr (prr_bytesSentSinceLoss p) (prr_bytesDeliveredSinceLoss p +u ackedBytes) (prr_ackCountSinceLoss p +u 1)
    (prr_bytesInFlightBeforeLoss p).

Definition prr_TimeUntilSend (p : PrrSender) (congestionWindow bytesInFlight slowstartThreshold : Z) : Z :=
  if (prr_bytesSentSinceLoss p =? 0) || (bytesInFlight <? DefaultTCPMSS) then 0
  else if congestionWindow >? bytesInFlight then
    if (prr_bytesDeliveredSinceLoss p +u mul64 (prr_ackCountSinceLoss p) DefaultTCPMSS) <=? prr_bytesSentSinceLoss p
    then InfDuration else 0
  else if mul64 (prr_bytesDeliveredSinceLoss p) slowstartThreshold >?
          mul64 (prr_bytesSentSinceLoss p) (prr_bytesInFlightBeforeLoss p)
  then 0 else InfDuration.

(** ** Cubic *)

Definition cubeScale : Z := 40.
Definition cubeCongestionWindowScale : Z := 410.
Definition cubeFactor : Z := Z.shiftl 1 cubeScale / cubeCongestionWindowScale.
Definition defaultNumConnections : Z := 2.
Definition beta : float32 := f32_const 7 10.
Definition betaLastMax : float32 := f32_const 85 100.
Definition maxCubicTimeInterval : Z := 30 * Millisecond.

Record Cubic : Type := mkCubic {
  cu_numConnections : Z;
  cu_epoch : Z;
  cu_appLimitedStartTime : Z;
  cu_lastUpdateTime : Z;
  cu_lastCongestionWindow : Z;
  cu_lastMaxCongestionWindow : Z;
  cu_ackedPacketsCount : Z;
  cu_estimatedTCPcongestionWindow : Z;
  cu_originPointCongestionWindow : Z;
  cu_timeToOriginPoint : Z;
  cu_lastTargetCongestionWindow : Z;
}.

Definition cubic_Reset (c : Cubic) : Cubic :=
  mkCubic (cu_numConnections c) zeroTime zeroTime zeroTime 0 0 0 0 0 0 0.

Definition NewCubic : Cubic :=
  cubic_Reset (mkCubic defaultNumConnections zeroTime zeroTime zeroTime 0 0 0 0 0 0 0).

(** [(float32(n) - 1 + b) / float32(n)]. *)
Definition backoff (numConnections : Z) (b : float32) : float32 :=
  f32_div (f32_add (f32_sub (f32_of_Z numConnections) (f32_of_Z 1)) b) (f32_of_Z numConnections).

Definition cubic_beta (c : Cubic) : float32 := backoff (cu_numConnections c) beta.

Definition cubic_alpha (c : Cubic) : float32 :=
  let b := cubic_beta c in
  let n := f32_of_Z (cu_numConnections c) in
  f32_div (f32_mul (f32_mul (f32_mul (f32_of_Z 3) n) n) (f32_sub (f32_of_Z 1) b)) (f32_add (f32_of_Z 1) b).

Definition OnApplicationLimited (c : Cubic) (now : Z) : Cubic :=
  if IsZero (cu_appLimitedStartTime c) then
    mkCubic (cu_numConnections c) (cu_epoch c) now (cu_lastUpdateTime c) (cu_lastCongestionWindow c)
      (cu_lastMaxCongestionWindow c) (cu_ackedPacketsCount c) (cu_estimatedTCPcongestionWindow c)
      (cu_originPointCongestionWindow c) (cu_timeToOriginPoint c) (cu_lastTargetCongestionWindow c)
  else c.

Definition CongestionWindowAfterPacketLoss (c : Cubic) (currentCongestionWindow : Z) : Cubic * Z :=
  let lastMax :=
    if currentCongestionWindow <? cu_lastMaxCongestionWindow c
    then u64 (f32_trunc (f32_mul betaLastMax (f32_of_Z currentCongestionWindow)))
    else currentCongestionWindow in
  (mkCubic (cu_numConnections c) zeroTime (cu_appLimitedStartTime c) (cu_lastUpdateTime c)
     (cu_lastCongestionWindow c) lastMax (cu_ackedPacketsCount c) (cu_estimatedTCPcongestionWindow c)
     (cu_originPointCongestionWindow c) (cu_timeToOriginPoint c) (cu_lastTargetCongestionWindow c),
   u64 (f32_trunc (f32_mul (f32_of_Z currentCongestionWindow) (cubic_beta c)))).

Definition requiredAckCount (alpha : float32) (est : Z) : Z := u64 (f32_trunc (f32_div (f32_of_Z est) alpha)).

(** The loop that grows the window of the emulated TCP flow; out of fuel is
    [None]. *)
Fixpoint tcpLoop (fuel : nat) (alpha : float32) (acked est : Z) : option (Z * Z) :=
  match fuel with
  | O => None
  | S fuel' =>
      let required := requiredAckCount alpha est in
      if acked <? required then Some (acked, est)
      else tcpLoop fuel' alpha (acked -u required) (est +u 1)
  end.

Section cubic.
Variable Cbrt : spec_float -> spec_float.

(** The first ACK after a loss event starts an epoch. *)
Definition startEpoch (c : Cubic) (currentCongestionWindow currentTime : Z) : Cubic :=
  let tto :=
    if cu_lastMaxCongestionWindow c <=? currentCongestionWindow then 0
    else u32 (f64_trunc (Cbrt (f64_of_Z
           (mul64 cubeFactor (cu_lastMaxCongestionWindow c -u currentCongestionWindow))))) in
  let origin :=
    if cu_lastMaxCongestionWindow c <=? currentCongestionWindow then currentCongestionWindow
    else cu_lastMaxCongestionWindow c in
  mkCubic (cu_numConnections c) currentTime (cu_appLimitedStartTime c) (cu_lastUpdateTime c)
    (cu_lastCongestionWindow c) (cu_lastMaxCongestionWindow c) 1 currentCongestionWindow origin tto
    (cu_lastTargetCongestionWindow c).

(** Freeze the growth during an application-limited period. *)
Definition shiftEpoch (c : Cubic) (currentTime : Z) : Cubic :=
  if negb (IsZero (cu_appLimitedStartTime c)) then
    let shift := timeSub currentTime (cu_appLimitedStartTime c) in
    mkCubic (cu_numConnections c) (timeAdd (cu_epoch c) shift) zeroTime (cu_lastUpdateTime c)
      (cu_lastCongestionWindow c) (cu_lastMaxCongestionWindow c) (cu_ackedPacketsCount c)
      (cu_estimatedTCPcongestionWindow c) (cu_originPointCongestionWindow c) (cu_timeToOriginPoint c)
      (cu_lastTargetCongestionWindow c)
  else c.

Definition cubicTarget (c : Cubic) (currentTime delayMin : Z) : Z :=
  let elapsedTime := Z.quot
    (i64 (Z.shiftl (Z.quot (timeSub (timeAdd currentTime delayMin) (cu_epoch c)) Microsecond) 10)) 1000000 in
  let offset := i64 (cu_timeToOriginPoint c - elapsedTime) in
  let offset := if offset <? 0 then i64 (- offset) else offset in
  let delta := u64 (Z.shiftr
    (i64 (i64 (i64 (cubeCongestionWindowScale * offset) * offset) * offset)) cubeScale) in
  if elapsedTime >? cu_timeToOriginPoint c
  then cu_originPointCongestionWindow c +u delta
  else cu_originPointCongestionWindow c -u delta.

(** [fuel] bounds the iterations of the loop. *)
Definition CongestionWindowAfterAck (fuel : nat) (c : Cubic) (currentCongestionWindow delayMin now : Z) :
    option (Cubic * Z) :=
  let acked := cu_ackedPacketsCount c +u 1 in
  let c := mkCubic (cu_numConnections c) (cu_epoch c) (cu_appLimitedStartTime c) (cu_lastUpdateTime c)
    (cu_lastCongestionWindow c) (cu_lastMaxCongestionWindow c) acked (cu_estimatedTCPcongestionWindow c)
    (cu_originPointCongestionWindow c) (cu_timeToOriginPoint c) (cu_lastTargetCongestionWindow c) in
  if (cu_lastCongestionWindow c =? currentCongestionWindow) &&
     (timeSub now (cu_lastUpdateTime c) <=? maxCubicTimeInterval)
  then Some (c, MaxPacketNumber (cu_lastTargetCongestionWindow c) (cu_estimatedTCPcongestionWindow c))
  else
  let c := mkCubic (cu_numConnections c) (cu_epoch c) (cu_appLimitedStartTime c) now
    currentCongestionWindow (cu_lastMaxCongestionWindow c) acked (cu_estimatedTCPcongestionWindow c)
    (cu_originPointCongestionWindow c) (cu_timeToOriginPoint c) (cu_lastTargetCongestionWindow c) in
  let c := if IsZero (cu_epoch c) then startEpoch c currentCongestionWindow now else shiftEpoch c now in
  let target := cubicTarget c now delayMin in
  match tcpLoop fuel (cubic_alpha c) (cu_ackedPacketsCount c) (cu_estimatedTCPcongestionWindow c) with
  | None => None
  | Some (acked, est) =>
      let c := mkCubic (cu_numConnections c) (cu_epoch c) (cu_appLimitedStartTime c) (cu_lastUpdateTime c)
        (cu_lastCongestionWindow c) (cu_lastMaxCongestionWindow c) acked est
        (cu_originPointCongestionWindow c) (cu_timeToOriginPoint c) target in
      Some (c, if target <? est then est else target)
  end.
End cubic.

(** ** The sender *)

Definition maxBurstBytes : Z := 3 * DefaultTCPMSS.
Definition defaultMinimumCongestionWindow : Z := 2.
Definition renoBeta : float32 := f32_const 7 10.

Record cubicSender : Type := mkCS {
  cs_hybridSlowStart : HybridSlowStart;
  cs_prr : PrrSender;
  cs_slowstartPacketsLost : Z;
  cs_slowstartBytesLost : Z;
  cs_cubic : Cubic;
  cs_reno : bool;
  cs_largestSentPacketNumber : Z;
  cs_largestAckedPacketNumber : Z;
  cs_largestSentAtLastCutback : Z;
  cs_congestionWindow : Z;
  cs_slowstartThreshold : Z;
  cs_lastCutbackExitedSlowstart : bool;
  cs_slowStartLargeReduction : bool;
  cs_minCongestionWindow : Z;
  cs_maxTCPCongestionWindow : Z;
  cs_numConnections : Z;
  cs_congestionWindowCount : Z;
  cs_initialCongestionWindow : Z;
  cs_initialMaxCongestionWindow : Z;
}.

Definition NewCubicSender (reno : bool) (initialCongestionWindow initialMaxCongestionWindow : Z) : cubicSender :=
  mkCS newHybridSlowStart newPrrSender 0 0 NewCubic reno 0 0 0 initialCongestionWindow initialMaxCongestionWindow
    false false defaultMinimumCongestionWindow initialMaxCongestionWindow defaultNumConnections 0
    initialCongestionWindow initialMaxCongestionWindow.

(** *** Field updates *)

Definition cs_set_hss (c : cubicSender) (v : HybridSlowStart) : cubicSender :=
  mkCS v (cs_prr c) (cs_slowstartPacketsLost c) (cs_slowstartBytesLost c) (cs_cubic c) (cs_reno c)
    (cs_largestSentPacketNumber c) (cs_largestAckedPacketNumber c) (cs_largestSentAtLastCutback c)
    (cs_congestionWindow c) (cs_slowstartThreshold c) (cs_lastCutbackExitedSlowstart c)
    (cs_slowStartLargeReduction c) (cs_minCongestionWindow c) (cs_maxTCPCongestionWindow c) (cs_numConnections c)
    (cs_congestionWindowCount c) (cs_initialCongestionWindow c) (cs_initialMaxCongestionWindow c).
Definition cs_set_prr (c : cubicSender) (v : PrrSender) : cubicSender :=
  mkCS (cs_hybridSlowStart c) v (cs_slowstartPacketsLost c) (cs_slowstartBytesLost c) (cs_cubic c) (cs_reno c)
    (cs_largestSentPacketNumber c) (cs_largestAckedPacketNumber c) (cs_largestSentAtLastCutback c)
    (cs_congestionWindow c) (cs_slowstartThreshold c) (cs_lastCutbackExitedSlowstart c)
    (cs_slowStartLargeReduction c) (cs_minCongestionWindow c) (cs_maxTCPCongestionWindow c) (cs_numConnections c)
    (cs_congestionWindowCount c) (cs_initialCongestionWindow c) (cs_initialMaxCongestionWindow c).
Definition cs_set_stats (c : cubicSender) (packets bytes : Z) : cubicSender :=
  mkCS (cs_hybridSlowStart c) (cs_prr c) packets bytes (cs_cubic c) (cs_reno c)
    (cs_largestSentPacketNumber c) (cs_largestAckedPacketNumber c) (cs_largestSentAtLastCutback c)
    (cs_congestionWindow c) (cs_slowstartThreshold c) (cs_lastCutbackExitedSlowstart c)
    (cs_slowStartLargeReduction c) (cs_minCongestionWindow c) (cs_maxTCPCongestionWindow c) (cs_numConnections c)
    (cs_congestionWindowCount c) (cs_initialCongestionWindow c) (cs_initialMaxCongestionWindow c).
Definition cs_set_cubic (c : cubicSender) (v : Cubic) : cubicSender :=
  mkCS (cs_hybridSlowStart c) (cs_prr c) (cs_slowstartPacketsLost c) (cs_slowstartBytesLost c) v (cs_reno c)
    (cs_largestSentPacketNumber c) (cs_largestAckedPacketNumber c) (cs_largestSentAtLastCutback c)
    (cs_congestionWindow c) (cs_slowstartThreshold c) (cs_lastCutbackExitedSlowstart c)
    (cs_slowStartLargeReduction c) (cs_minCongestionWindow c) (cs_maxTCPCongestionWindow c) (cs_numConnections c)
    (cs_congestionWindowCount c) (cs_initialCongestionWindow c) (cs_initialMaxCongestionWindow c).
Definition cs_set_numbers (c : cubicSender) (sent acked cutback : Z) : cubicSender :=
  mkCS (cs_hybridSlowStart c) (cs_prr c) (cs_slowstartPacketsLost c) (cs_slowstartBytesLost c) (cs_cubic c)
    (cs_reno c) sent acked cutback
    (cs_congestionWindow c) (cs_slowstartThreshold c) (cs_lastCutbackExitedSlowstart c)
    (cs_slowStartLargeReduction c) (cs_minCongestionWindow c) (cs_maxTCPCongestionWindow c) (cs_numConnections c)
    (cs_congestionWindowCount c) (cs_initialCongestionWindow c) (cs_initialMaxCongestionWindow c).
Definition cs_set_window (c : cubicSender) (window threshold count : Z) : cubicSender :=
  mkCS (cs_hybridSlowStart c) (cs_prr c) (cs_slowstartPacketsLost c) (cs_slowstartBytesLost c) (cs_cubic c)
    (cs_reno c) (cs_largestSentPacketNumber c) (cs_largestAckedPacketNumber c) (cs_largestSentAtLastCutback c)
    window threshold (cs_lastCutbackExitedSlowstart c)
    (cs_slowStartLargeReduction c) (cs_minCongestionWindow c) (cs_maxTCPCongestionWindow c) (cs_numConnections c)
    count (cs_initialCongestionWindow c) (cs_initialMaxCongestionWindow c).
Definition cs_set_exited (c : cubicSender) (exited : bool) : cubicSender :=
  mkCS (cs_hybridSlowStart c) (cs_prr c) (cs_slowstartPacketsLost c) (cs_slowstartBytesLost c) (cs_cubic c)
    (cs_reno c) (cs_largestSentPacketNumber c) (cs_largestAckedPacketNumber c) (cs_largestSentAtLastCutback c)
    (cs_congestionWindow c) (cs_slowstartThreshold c) exited
    (cs_slowStartLargeReduction c) (cs_minCongestionWindow c) (cs_maxTCPCongestionWindow c) (cs_numConnections c)
    (cs_congestionWindowCount c) (cs_initialCongestionWindow c) (cs_initialMaxCongestionWindow c).
Definition cs_set_config (c : cubicSender) (largeReduction : bool) (maxWindow numConnections : Z) : cubicSender :=
  mkCS (cs_hybridSlowStart c) (cs_prr c) (cs_slowstartPacketsLost c) (cs_slowstartBytesLost c) (cs_cubic c)
    (cs_reno c) (cs_largestSentPacketNumber c) (cs_largestAckedPacketNumber c) (cs_largestSentAtLastCutback c)
    (cs_congestionWindow c) (cs_slowstartThreshold c) (cs_lastCutbackExitedSlowstart c)
    largeReduction (cs_minCongestionWindow c) maxWindow numConnections
    (cs_congestionWindowCount c) (cs_initialCongestionWindow c) (cs_initialMaxCongestionWindow c).

(** *** Operations *)

Definition cs_GetCongestionWindow (c : cubicSender) : Z := mul64 (cs_congestionWindow c) DefaultTCPMSS.
Definition cs_GetSlowStartThreshold (c : cubicSender) : Z := mul64 (cs_slowstartThreshold c) DefaultTCPMSS.

Definition cs_InRecovery (c : cubicSender) : bool :=
  (cs_largestAckedPacketNumber c <=? cs_largestSentAtLastCutback c) && negb (cs_largestAckedPacketNumber c =? 0).

Definition cs_InSlowStart (c : cubicSender) : bool := cs_GetCongestionWindow c <? cs_GetSlowStartThreshold c.

Definition cs_TimeUntilSend (c : cubicSender) (bytesInFlight : Z) : Z :=
  if cs_InRecovery c
  then prr_TimeUntilSend (cs_prr c) (cs_GetCongestionWindow c) bytesInFlight (cs_GetSlowStartThreshold c)
  else if cs_GetCongestionWindow c >? bytesInFlight then 0 else InfDuration.

Definition cs_OnPacketSent (c : cubicSender) (sentTime bytesInFlight packetNumber bytes : Z)
    (isRetransmittable : bool) : cubicSender :=
  if negb isRetransmittable then c
  else
  let c := if cs_InRecovery c then cs_set_prr c (prr_OnPacketSent (cs_prr c) bytes) else c in
  let c := cs_set_numbers c packetNumber (cs_largestAckedPacketNumber c) (cs_largestSentAtLastCutback c) in
  cs_set_hss c (hss_OnPacketSent (cs_hybridSlowStart c) packetNumber).

Definition cs_ExitSlowstart (c : cubicSender) : cubicSender :=
  cs_set_window c (cs_congestionWindow c) (cs_congestionWindow c) (cs_congestionWindowCount c).

Definition cs_MaybeExitSlowStart (c : cubicSender) (rttStats : RTTStats) : cubicSender :=
  if cs_InSlowStart c then
    let '(hss, exit) := ShouldExitSlowStart (cs_hybridSlowStart c) (rtt_latestRTT rttStats) (rtt_minRTT rttStats)
                          (cs_GetCongestionWindow c / DefaultTCPMSS) in
    let c := cs_set_hss c hss in
    if exit then cs_ExitSlowstart c else c
  else c.

Definition cs_isCwndLimited (c : cubicSender) (bytesInFlight : Z) : bool :=
  let congestionWindow := cs_GetCongestionWindow c in
  if bytesInFlight >=? congestionWindow then true
  else
  let availableBytes := congestionWindow -u bytesInFlight in
  let slowStartLimited := cs_InSlowStart c && (bytesInFlight >? congestionWindow / 2) in
  slowStartLimited || (availableBytes <=? maxBurstBytes).

Definition cs_RenoBeta (c : cubicSender) : float32 := backoff (cs_numConnections c) renoBeta.

(** Enough iterations for the loop of [CongestionWindowAfterAck]. *)
Definition cubicFuel (c : Cubic) : nat := S (S (S (Z.to_nat (cu_ackedPacketsCount c)))).

Section sender.
Variable Cbrt : spec_float -> spec_float.

Definition cs_maybeIncreaseCwnd (c : cubicSender) (rttStats : RTTStats) (bytesInFlight now : Z) : cubicSender :=
  if negb (cs_isCwndLimited c bytesInFlight) then cs_set_cubic c (OnApplicationLimited (cs_cubic c) now)
  else if cs_congestionWindow c >=? cs_maxTCPCongestionWindow c then c
  else if cs_InSlowStart c
  then cs_set_window c (cs_congestionWindow c +u 1) (cs_slowstartThreshold c) (cs_congestionWindowCount c)
  else if cs_reno c then
    let count := cs_congestionWindowCount c +u 1 in
    if mul64 count (u64 (cs_numConnections c)) >=? cs_congestionWindow c
    then cs_set_window c (cs_congestionWindow c +u 1) (cs_slowstartThreshold c) 0
    else cs_set_window c (cs_congestionWindow c) (cs_slowstartThreshold c) count
  else
    match CongestionWindowAfterAck Cbrt (cubicFuel (cs_cubic c)) (cs_cubic c) (cs_congestionWindow c)
            (rtt_minRTT rttStats) now with
    | None => c
    | Some (cubic, window) =>
        cs_set_window (cs_set_cubic c cubic) (MinPacketNumber (cs_maxTCPCongestionWindow c) window)
          (cs_slowstartThreshold c) (cs_congestionWindowCount c)
    end.

Definition cs_OnPacketAcked (c : cubicSender) (rttStats : RTTStats)
    (ackedPacketNumber ackedBytes bytesInFlight now : Z) : cubicSender :=
  let c := cs_set_numbers c (cs_largestSentPacketNumber c)
    (MaxPacketNumber ackedPacketNumber (cs_largestAckedPacketNumber c)) (cs_largestSentAtLastCutback c) in
  if cs_InRecovery c then cs_set_prr c (prr_OnPacketAcked (cs_prr c) ackedBytes)
  else
  let c := cs_maybeIncreaseCwnd c rttStats bytesInFlight now in
  if cs_InSlowStart c then cs_set_hss c (hss_OnPacketAcked (cs_hybridSlowStart c) ackedPacketNumber) else c.

Definition cs_OnPacketLost (c : cubicSender) (packetNumber lostBytes bytesInFlight : Z) : cubicSender :=
  if packetNumber <=? cs_largestSentAtLastCutback c then
    if cs_lastCutbackExitedSlowstart c then
      let packets := cs_slowstartPacketsLost c +u 1 in
      let bytes := cs_slowstartBytesLost c +u lostBytes in
      let c := cs_set_stats c packets bytes in
      if cs_slowStartLargeReduction c then
        let window :=
          if (packets =? 1) || (bytes / DefaultTCPMSS >? (bytes -u lostBytes) / DefaultTCPMSS)
          then MaxPacketNumber (cs_congestionWindow c -u 1) (cs_minCongestionWindow c)
          else cs_congestionWindow c in
        cs_set_window c window window (cs_congestionWindowCount c)
      else c
    else c
  else
  let inSlowStart := cs_InSlowStart c in
  let c := cs_set_exited c inSlowStart in
  let c := if inSlowStart then cs_set_stats c (cs_slowstartPacketsLost c +u 1) (cs_slowstartBytesLost c) else c in
  let c := cs_set_prr c (prr_OnPacketLost (cs_prr c) bytesInFlight) in
  let '(cubic, window) :=
    if cs_slowStartLargeReduction c && inSlowStart then (cs_cubic c, cs_congestionWindow c -u 1)
    else if cs_reno c
    then (cs_cubic c, u64 (f32_trunc (f32_mul (f32_of_Z (cs_congestionWindow c)) (cs_RenoBeta c))))
    else CongestionWindowAfterPacketLoss (cs_cubic c) (cs_congestionWindow c) in
  let c := cs_set_cubic c cubic in
  let window := if window <? cs_minCongestionWindow c then cs_minCongestionWindow c else window in
  let c := cs_set_window c window window 0 in
  cs_set_numbers c (cs_largestSentPacketNumber c) (cs_largestAckedPacketNumber c) (cs_largestSentPacketNumber c).

Definition cs_OnRetransmissionTimeout (c : cubicSender) (packetsRetransmitted : bool) : cubicSender :=
  let c := cs_set_numbers c (cs_largestSentPacketNumber c) (cs_largestAckedPacketNumber c) 0 in
  if negb packetsRetransmitted then c
  else
  let c := cs_set_hss c (hss_Restart (cs_hybridSlowStart c)) in
  let c := cs_set_cubic c (cubic_Reset (cs_cubic c)) in
  cs_set_window c (cs_minCongestionWindow c) (cs_congestionWindow c / 2) (cs_congestionWindowCount c).

Definition cs_OnConnectionMigration (c : cubicSender) : cubicSender :=
  let c := cs_set_hss c (hss_Restart (cs_hybridSlowStart c)) in
  let c := cs_set_prr c newPrrSender in
  let c := cs_set_numbers c 0 0 0 in
  let c := cs_set_exited c false in
  let c := cs_set_cubic c (cubic_Reset (cs_cubic c)) in
  let c := cs_set_window c (cs_initialCongestionWindow c) (cs_initialMaxCongestionWindow c) 0 in
  cs_set_config c (cs_slowStartLargeReduction c) (cs_initialMaxCongestionWindow c) (cs_numConnections c).

Definition cs_RetransmissionDelay (c : cubicSender) (rttStats : RTTStats) : Z :=
  if rtt_smoothedRTT rttStats =? 0 then 0
  else i64 (rtt_smoothedRTT rttStats + i64 (rtt_meanDeviation rttStats * 4)).

(** The default controller of a path. *)
#[export] Instance cubic_algorithm : SendAlgorithm cubicSender := {|
  OnPacketSent := cs_OnPacketSent;
  GetCongestionWindow := cs_GetCongestionWindow;
  MaybeExitSlowStart := cs_MaybeExitSlowStart;
  OnPacketAcked := cs_OnPacketAcked;
  OnPacketLost := cs_OnPacketLost;
  OnRetransmissionTimeout := cs_OnRetransmissionTimeout;
  RetransmissionDelay := cs_RetransmissionDelay;
  AlgSmoothedRTT _ rttStats := rtt_smoothedRTT rttStats;
|}.
End sender.

(** [SetNumEmulatedConnections] and [SetSlowStartLargeReduction]. *)
Definition cs_SetNumEmulatedConnections (c : cubicSender) (n : Z) : cubicSender :=
  let n := if n <? 1 then 1 else n in
  let cu := cs_cubic c in
  cs_set_cubic (cs_set_config c (cs_slowStartLargeReduction c) (cs_maxTCPCongestionWindow c) n)
    (mkCubic n (cu_epoch cu) (cu_appLimitedStartTime cu) (cu_lastUpdateTime cu) (cu_lastCongestionWindow cu)
       (cu_lastMaxCongestionWindow cu) (cu_ackedPacketsCount cu) (cu_estimatedTCPcongestionWindow cu)
       (cu_originPointCongestionWindow cu) (cu_timeToOriginPoint cu) (cu_lastTargetCongestionWindow cu)).

Definition cs_SetSlowStartLargeReduction (c : cubicSender) (enabled : bool) : cubicSender :=
  cs_set_config c enabled (cs_maxTCPCongestionWindow c) (cs_numConnections c).
