(* ===== verification/CongestionProofs.v ===== *)
(** * Properties of the cubic congestion controller

    The loop of [CongestionWindowAfterAck] terminates, the window stays between
    its minimum and its maximum along every run, and a loss event reduces the
    window once. *)
From S2P Require Import Prelude Protocol Float32 RttStats SentPackets Congestion.

Local Opaque f32_of_Z f32_mul f32_div f32_trunc.

(** ** The multiplicative decrease *)

(** The backoff factor of two emulated connections is [17/20] up to rounding,
    and the rounding is invisible in every window the sender can have. *)
Definition decrease_table (b : float32) : bool :=
  forallb (fun k => u64 (f32_trunc (f32_mul (f32_of_Z (Z.of_nat k)) b)) =? 17 * Z.of_nat k / 20) (seq 0 2501).

Lemma decrease_table_ok : decrease_table (backoff 2 beta) = true.
Proof. vm_compute. reflexivity. Qed.

Lemma decrease_exact w :
  0 <= w <= DefaultMaxCongestionWindow ->
  u64 (f32_trunc (f32_mul (f32_of_Z w) (backoff 2 beta))) = 17 * w / 20.
Proof.
  intros Hw. unfold DefaultMaxCongestionWindow in Hw. pose proof decrease_table_ok as H. unfold decrease_table in H.
  rewrite forallb_forall in H. specialize (H (Z.to_nat w)). rewrite Z2Nat.id in H by lia.
  apply Z.eqb_eq, H, in_seq. lia.
Qed.

Lemma decrease_bounds w : 0 <= w -> 0 <= 17 * w / 20 <= w.
Proof. intros Hw. split; [apply Z.div_pos; lia|apply Z.div_le_upper_bound; lia]. Qed.

(** ** The emulated TCP flow *)

(** The growth factor of two emulated connections. *)
Definition alpha2 : float32 := S754_finite false 16323775 (-24).

Lemma cubic_alpha_two c : cu_numConnections c = defaultNumConnections -> cubic_alpha c = alpha2.
Proof. intros H. unfold cubic_alpha, cubic_beta. rewrite H. vm_compute. reflexivity. Qed.

Lemma requiredAckCount_pos est : 1 <= est < 2 ^ 60 -> 1 <= requiredAckCount alpha2 est.
Proof.
  intros H. unfold requiredAckCount, alpha2.
  pose proof (f32_div_ge_one est 60 16323775 H ltac:(lia) eq_refl) as Hd. rewrite u64_small by (split; [lia|];
    apply (Z.lt_le_trans _ _ _ (proj2 Hd)); done). lia.
Qed.

(** One more iteration than acknowledged packets is enough. *)
Lemma tcpLoop_total fuel acked est :
  1 <= est -> 0 <= acked -> est + acked < 2 ^ 60 -> (Z.to_nat acked < fuel)%nat ->
  exists acked' est', tcpLoop fuel alpha2 acked est = Some (acked', est') /\
    est <= est' /\ 0 <= acked' < requiredAckCount alpha2 est' /\ est' + acked' <= est + acked.
Proof.
  revert acked est. induction fuel as [|fuel IH]; intros acked est He Ha Hs Hf; [lia|]. cbn [tcpLoop].
  pose proof (requiredAckCount_pos est ltac:(lia)) as Hr. destruct (acked <? _) eqn:E.
  - exists acked, est. split; [done|lia].
  - apply Z.ltb_ge in E.
    rewrite sub64_small, add64_small by lia.
    destruct (IH (acked - requiredAckCount alpha2 est) (est + 1)) as (a & e & -> & H1 & H2 & H3); try lia.
    exists a, e. split; [done|lia].
Qed.

(** ** The cubic state *)

(** The state of [Cubic] after [n] acknowledgements: the emulated window is a
    window once an epoch has started. *)
Record cubic_ok (n : Z) (c : Cubic) : Prop := {
  cok_num : cu_numConnections c = defaultNumConnections;
  cok_est : cu_epoch c <> 0 \/ cu_lastCongestionWindow c <> 0 -> 2 <= cu_estimatedTCPcongestionWindow c;
  cok_est0 : 0 <= cu_estimatedTCPcongestionWindow c;
  cok_acked : 0 <= cu_ackedPacketsCount c;
  cok_sum : cu_estimatedTCPcongestionWindow c + cu_ackedPacketsCount c <= DefaultMaxCongestionWindow + 1 + n;
}.

Lemma cubic_ok_mono n n' c : n <= n' -> cubic_ok n c -> cubic_ok n' c.
Proof. intros Hn []. split; try done. lia. Qed.

Lemma cubic_ok_Reset n c : 0 <= n -> cubic_ok n c -> cubic_ok n (cubic_Reset c).
Proof. intros Hn []. by split; cbn; try done; try (intros [?|?]; done); unfold DefaultMaxCongestionWindow; lia. Qed.

Lemma cubic_ok_limited n c now : cubic_ok n c -> cubic_ok n (OnApplicationLimited c now).
Proof. intros []. unfold OnApplicationLimited. by case_match; split. Qed.

Lemma cubic_ok_loss n c w : cubic_ok n c -> cubic_ok n (CongestionWindowAfterPacketLoss c w).1.
Proof. intros [? He]. split; try done. cbn. intros [?|?]; [done|]. apply He. by right. Qed.

Section cubic.
Variable Cbrt : spec_float -> spec_float.

(** The state in which the loop of [CongestionWindowAfterAck] starts. *)
Lemma epoch_ok n c w now :
  cu_numConnections c = defaultNumConnections ->
  (cu_epoch c <> 0 -> 2 <= cu_estimatedTCPcongestionWindow c) ->
  cu_estimatedTCPcongestionWindow c + cu_ackedPacketsCount c <= DefaultMaxCongestionWindow + 1 + n ->
  0 <= n -> 2 <= w <= DefaultMaxCongestionWindow -> 0 < cu_ackedPacketsCount c ->
  let c1 := if IsZero (cu_epoch c) then startEpoch Cbrt c w now else shiftEpoch c now in
  cu_numConnections c1 = defaultNumConnections /\ 2 <= cu_estimatedTCPcongestionWindow c1 /\
  1 <= cu_ackedPacketsCount c1 <= cu_ackedPacketsCount c /\
  cu_estimatedTCPcongestionWindow c1 + cu_ackedPacketsCount c1 <= DefaultMaxCongestionWindow + 1 + n /\
  (cu_epoch c <> 0 -> cu_estimatedTCPcongestionWindow c1 = cu_estimatedTCPcongestionWindow c).
Proof.
  intros Hnum Hest Hsum Hn Hw Ha. unfold IsZero, zeroTime. destruct (cu_epoch c =? 0) eqn:E; bool_to_prop.
  - cbn. repeat split; try done; lia.
  - specialize (Hest E). unfold shiftEpoch. case_match; cbn; repeat split; try done; lia.
Qed.

Lemma afterAck_ok n c w delayMin now :
  cubic_ok n c -> 0 <= n < 2 ^ 59 -> 2 <= w <= DefaultMaxCongestionWindow ->
  exists c' w', CongestionWindowAfterAck Cbrt (cubicFuel c) c w delayMin now = Some (c', w') /\
    cubic_ok (n + 1) c' /\ 2 <= cu_estimatedTCPcongestionWindow c' <= w' /\
    (cu_epoch c <> 0 -> cu_estimatedTCPcongestionWindow c <= cu_estimatedTCPcongestionWindow c').
Proof.
  intros Hok Hn Hw. pose proof Hok as [Hnum Hest Hest0 Hack Hsum]. unfold DefaultMaxCongestionWindow in Hsum.
  unfold CongestionWindowAfterAck. rewrite add64_small by lia.
  cbn [cu_numConnections cu_epoch cu_appLimitedStartTime cu_lastUpdateTime cu_lastCongestionWindow
    cu_lastMaxCongestionWindow cu_ackedPacketsCount cu_estimatedTCPcongestionWindow cu_originPointCongestionWindow
    cu_timeToOriginPoint cu_lastTargetCongestionWindow].
  destruct (_ && _) eqn:E; bool_to_prop.
  - assert (He : 2 <= cu_estimatedTCPcongestionWindow c) by (apply Hest; lia).
    do 2 eexists. split; [done|]. unfold MaxPacketNumber.
    split; [split; cbn; try done; unfold DefaultMaxCongestionWindow; lia|]. cbn. case_test; lia.
  - set (c0 := mkCubic _ _ _ now w _ _ _ _ _ _).
    assert (Hc1 := epoch_ok (n + 1) c0 w now). cbv zeta in Hc1. change (cu_epoch c0) with (cu_epoch c) in Hc1.
    set (c1 := if IsZero (cu_epoch c) then startEpoch Cbrt c0 w now else shiftEpoch c0 now) in *.
    destruct Hc1 as (H1 & H2 & H3 & H4 & H5); try (unfold DefaultMaxCongestionWindow; cbn; done || lia).
    cbn [cu_ackedPacketsCount c0] in H3. rewrite (cubic_alpha_two c1 H1). unfold DefaultMaxCongestionWindow in H4.
    destruct (tcpLoop_total (cubicFuel c) (cu_ackedPacketsCount c1) (cu_estimatedTCPcongestionWindow c1))
      as (a & e & -> & G1 & G2 & G3); try lia; [unfold cubicFuel; lia|].
    do 2 eexists. split; [done|]. split; [split; cbn; try done; unfold DefaultMaxCongestionWindow; lia|].
    cbn. split; [case_test; lia|]. intros Hep. specialize (H5 Hep). cbn in H5. lia.
Qed.
End cubic.

(** ** Runs of the sender *)

(** The calls a sentPacketHandler makes of its congestion controller. *)
Inductive cs_op : Type :=
| CsSent (sentTime bytesInFlight packetNumber bytes : Z) (isRetransmittable : bool)
| CsAcked (rttStats : RTTStats) (packetNumber bytes bytesInFlight now : Z)
| CsLost (packetNumber bytes bytesInFlight : Z)
| CsTimeout (packetsRetransmitted : bool)
| CsMaybeExit (rttStats : RTTStats)
| CsMigration
| CsLargeReduction (enabled : bool).

Section run.
Variable Cbrt : spec_float -> spec_float.

Definition cs_step (c : cubicSender) (o : cs_op) : cubicSender :=
  match o with
  | CsSent t f p b r => cs_OnPacketSent c t f p b r
  | CsAcked rtt p b f now => cs_OnPacketAcked Cbrt c rtt p b f now
  | CsLost p b f => cs_OnPacketLost c p b f
  | CsTimeout r => cs_OnRetransmissionTimeout c r
  | CsMaybeExit rtt => cs_MaybeExitSlowStart c rtt
  | CsMigration => cs_OnConnectionMigration c
  | CsLargeReduction b => cs_SetSlowStartLargeReduction c b
  end.

Definition cs_run (c : cubicSender) (l : list cs_op) : cubicSender := fold_left cs_step l c.

Record cs_inv (initial max n : Z) (c : cubicSender) : Prop := {
  ci_window : defaultMinimumCongestionWindow <= cs_congestionWindow c <= max;
  ci_min : cs_minCongestionWindow c = defaultMinimumCongestionWindow;
  ci_max : cs_maxTCPCongestionWindow c = max;
  ci_initial : cs_initialCongestionWindow c = initial;
  ci_initialMax : cs_initialMaxCongestionWindow c = max;
  ci_num : cs_numConnections c = defaultNumConnections;
  ci_cubic : cubic_ok n (cs_cubic c);
}.

(** Operations that leave the window, its limits and the cubic state alone. *)
Definition same_window (c c' : cubicSender) : Prop :=
  cs_congestionWindow c' = cs_congestionWindow c /\ cs_minCongestionWindow c' = cs_minCongestionWindow c /\
  cs_maxTCPCongestionWindow c' = cs_maxTCPCongestionWindow c /\
  cs_initialCongestionWindow c' = cs_initialCongestionWindow c /\
  cs_initialMaxCongestionWindow c' = cs_initialMaxCongestionWindow c /\
  cs_numConnections c' = cs_numConnections c /\ cs_cubic c' = cs_cubic c.

Lemma cs_inv_same initial max n c c' : same_window c c' -> cs_inv initial max n c -> cs_inv initial max n c'.
Proof. intros (? & ? & ? & ? & ? & ? & Hcu) []. split; rewrite ?Hcu; by try congruence. Qed.

Lemma cs_inv_window initial max n c w t k :
  defaultMinimumCongestionWindow <= w <= max -> cs_inv initial max n c ->
  cs_inv initial max n (cs_set_window c w t k).
Proof. intros Hw []. by split. Qed.

Lemma cs_inv_cubic initial max n n' c cu :
  cubic_ok n' cu -> cs_inv initial max n c -> cs_inv initial max n' (cs_set_cubic c cu).
Proof. intros Hc []. by split. Qed.

Lemma cs_inv_mono initial max n n' c : n <= n' -> cs_inv initial max n c -> cs_inv initial max n' c.
Proof. intros Hn []. split; try done. by apply (cubic_ok_mono n). Qed.

Context (initial max : Z).
Hypothesis Hinitial : defaultMinimumCongestionWindow <= initial <= max.
Hypothesis Hmax : max <= DefaultMaxCongestionWindow.

Ltac limits := unfold defaultMinimumCongestionWindow, DefaultMaxCongestionWindow in *; lia.

Lemma cc_new_inv reno : cs_inv initial max 0 (NewCubicSender reno initial max).
Proof. split; try done. by split; cbn; try done; try (intros [?|?]; done). Qed.

Lemma cc_sent_inv n c t f p b r : cs_inv initial max n c -> cs_inv initial max n (cs_OnPacketSent c t f p b r).
Proof. apply cs_inv_same. unfold cs_OnPacketSent. by repeat case_match. Qed.

Lemma maybeExit_inv n c rtt : cs_inv initial max n c -> cs_inv initial max n (cs_MaybeExitSlowStart c rtt).
Proof. apply cs_inv_same. unfold cs_MaybeExitSlowStart. by repeat case_match. Qed.

Lemma timeout_inv n c r : 0 <= n -> cs_inv initial max n c -> cs_inv initial max n (cs_OnRetransmissionTimeout c r).
Proof.
  intros Hn Hc. unfold cs_OnRetransmissionTimeout. case_match; [by apply (cs_inv_same _ _ _ c)|].
  apply cs_inv_window; [cbn; rewrite (ci_min _ _ _ _ Hc); limits|].
  apply (cs_inv_cubic _ _ n); [by apply cubic_ok_Reset; [|apply Hc]|]. by apply (cs_inv_same _ _ _ c).
Qed.

Lemma migration_inv n c : 0 <= n -> cs_inv initial max n c -> cs_inv initial max n (cs_OnConnectionMigration c).
Proof.
  intros Hn []. split; cbn; try done; [by rewrite ci_initial0|]. by apply cubic_ok_Reset.
Qed.

Lemma increase_inv n c rtt f now :
  0 <= n < 2 ^ 59 -> cs_inv initial max n c -> cs_inv initial max (n + 1) (cs_maybeIncreaseCwnd Cbrt c rtt f now).
Proof.
  intros Hn Hc. pose proof Hc as [Hw Hmin Hm _ _ _ Hcu]. unfold cs_maybeIncreaseCwnd.
  assert (Hc1 : cs_inv initial max (n + 1) c) by (apply (cs_inv_mono _ _ n); [lia|done]).
  case_match; [apply (cs_inv_cubic _ _ (n + 1)); [apply cubic_ok_limited, Hc1|done]|].
  case_match eqn:E; [done|]. rewrite Z.geb_leb in E. bool_to_prop. rewrite Hm in E.
  assert (Hadd : cs_congestionWindow c +u 1 = cs_congestionWindow c + 1) by (apply add64_small; limits).
  case_match; [rewrite Hadd; apply cs_inv_window; [limits|done]|].
  case_match; [case_match; rewrite ?Hadd; apply cs_inv_window; done || limits|].
  destruct (afterAck_ok Cbrt n (cs_cubic c) (cs_congestionWindow c) (rtt_minRTT rtt) now)
    as (cu & w & -> & Hcu' & Hw' & _); [done|done|limits|].
  apply cs_inv_window; [rewrite Hm; unfold MinPacketNumber; case_test; limits|]. by apply (cs_inv_cubic _ _ n).
Qed.

Lemma acked_inv n c rtt p b f now :
  0 <= n < 2 ^ 59 -> cs_inv initial max n c -> cs_inv initial max (n + 1) (cs_OnPacketAcked Cbrt c rtt p b f now).
Proof.
  intros Hn Hc. unfold cs_OnPacketAcked. set (c1 := cs_set_numbers _ _ _ _).
  assert (Hc1 : cs_inv initial max n c1) by by apply (cs_inv_same _ _ _ c).
  case_match; [apply (cs_inv_same _ _ _ c1); [done|]; apply (cs_inv_mono _ _ n); [lia|done]|].
  pose proof (increase_inv n c1 rtt f now Hn Hc1) as Hi. case_match; [|done].
  revert Hi. by apply cs_inv_same.
Qed.

(** The window after a loss event: one packet less, or the multiplicative
    decrease, and not below the minimum. *)
Definition window_after_loss (c : cubicSender) : Z :=
  Z.max defaultMinimumCongestionWindow
    (if cs_slowStartLargeReduction c && cs_InSlowStart c then cs_congestionWindow c - 1
     else 17 * cs_congestionWindow c / 20).

(** The branch of a loss that starts a loss event, as one equation. *)
Lemma OnPacketLost_event c p b f :
  cs_largestSentAtLastCutback c < p ->
  exists c1 cu w, cs_OnPacketLost c p b f =
    cs_set_numbers (cs_set_window (cs_set_cubic c1 cu) w w 0) (cs_largestSentPacketNumber c)
      (cs_largestAckedPacketNumber c) (cs_largestSentPacketNumber c) /\ same_window c c1 /\
    (cu = cs_cubic c \/ cu = (CongestionWindowAfterPacketLoss (cs_cubic c) (cs_congestionWindow c)).1) /\
    let w0 := if cs_slowStartLargeReduction c && cs_InSlowStart c then cs_congestionWindow c -u 1
              else if cs_reno c
              then u64 (f32_trunc (f32_mul (f32_of_Z (cs_congestionWindow c)) (cs_RenoBeta c)))
              else (CongestionWindowAfterPacketLoss (cs_cubic c) (cs_congestionWindow c)).2 in
    w = if w0 <? cs_minCongestionWindow c then cs_minCongestionWindow c else w0.
Proof.
  intros Hp. unfold cs_OnPacketLost. rewrite (proj2 (Z.leb_gt _ _) Hp).
  set (c1 := cs_set_prr _ _).
  assert (same_window c c1) by (unfold c1; by case_match). exists c1.
  destruct (cs_InSlowStart c) eqn:Es, (cs_slowStartLargeReduction c) eqn:El, (cs_reno c) eqn:Er;
    cbn; rewrite ?El, ?Er; cbn; do 2 eexists; (split; [reflexivity|]); split_and!; auto.
Qed.

Lemma lost_window n c p b f :
  cs_inv initial max n c -> cs_largestSentAtLastCutback c < p ->
  cs_inv initial max n (cs_OnPacketLost c p b f) /\
  cs_congestionWindow (cs_OnPacketLost c p b f) = window_after_loss c.
Proof.
  intros Hc Hp. pose proof Hc as [Hw Hmin Hm _ _ Hnum Hcu].
  destruct (OnPacketLost_event c p b f Hp) as (c1 & cu & w & -> & Hs & Hcu' & Hw').
  assert (Hww : w = window_after_loss c).
  { rewrite Hw', Hmin. unfold window_after_loss, cs_RenoBeta, CongestionWindowAfterPacketLoss, cubic_beta. cbn.
    rewrite Hnum, (cok_num _ _ Hcu). unfold renoBeta. fold beta. change defaultNumConnections with 2.
    rewrite decrease_exact by limits. rewrite sub64_small by limits. repeat case_match; limits. }
  split; [|by rewrite <- Hww].
  eapply cs_inv_same; [|apply cs_inv_window; [|apply (cs_inv_cubic _ _ n); [|by apply (cs_inv_same _ _ _ c)]]].
  - done.
  - rewrite Hww. unfold window_after_loss. pose proof (decrease_bounds (cs_congestionWindow c)).
    case_match; limits.
  - destruct Hcu' as [->| ->]; [done|by apply cubic_ok_loss].
Qed.

Lemma lost_inv n c p b f : cs_inv initial max n c -> cs_inv initial max n (cs_OnPacketLost c p b f).
Proof.
  intros Hc. destruct (Z.le_gt_cases p (cs_largestSentAtLastCutback c)) as [Hp|Hp]; [|by apply lost_window].
  pose proof Hc as [Hw Hmin Hm _ _ Hnum Hcu]. unfold cs_OnPacketLost. rewrite (proj2 (Z.leb_le _ _) Hp).
  case_match; [|done]. case_match; [|by apply (cs_inv_same _ _ _ c)].
  apply cs_inv_window; [|by apply (cs_inv_same _ _ _ c)]. cbn.
  rewrite Hmin, (sub64_small (cs_congestionWindow c) 1) by limits.
  unfold MaxPacketNumber. case_match; [|done]. case_test; limits.
Qed.

Lemma step_inv n c o : 0 <= n < 2 ^ 59 -> cs_inv initial max n c -> cs_inv initial max (n + 1) (cs_step c o).
Proof.
  intros Hn Hc. destruct o; cbn [cs_step]; [..|by apply (cs_inv_same _ _ _ c), (cs_inv_mono _ _ n); [|lia|]].
  2: by apply acked_inv.
  all: apply (cs_inv_mono _ _ n); [lia|].
  - by apply cc_sent_inv.
  - by apply lost_inv.
  - by apply timeout_inv; [lia|].
  - by apply maybeExit_inv.
  - by apply migration_inv; [lia|].
Qed.

Lemma run_inv n c l :
  0 <= n -> n + zlen l <= 2 ^ 59 -> cs_inv initial max n c -> cs_inv initial max (n + zlen l) (cs_run c l).
Proof.
  unfold zlen. revert n c. induction l as [|o l IH]; intros n c Hn Hl Hc; cbn [cs_run fold_left length] in *.
  - by rewrite Z.add_0_r.
  - rewrite Nat2Z.inj_succ in *. replace (n + Z.succ (Z.of_nat (length l))) with (n + 1 + Z.of_nat (length l)) by lia.
    apply IH; [lia|lia|]. apply step_inv; [lia|done].
Qed.
End run.

(** ** The claims *)

Section claims.
Variable Cbrt : spec_float -> spec_float.

(** C40: the congestion window of a cubic (or Reno) sender stays between the
    minimum of two packets and the configured maximum, whatever packets are sent,
    acknowledged, lost or timed out in whatever order, and whatever the cube root
    routine and the clock return; the byte window does not overflow. *)
Theorem congestion_window_bounds reno initial max l :
  2 <= initial <= max -> max <= DefaultMaxCongestionWindow -> zlen l <= 2 ^ 59 ->
  let c := cs_run Cbrt (NewCubicSender reno initial max) l in
  2 <= cs_congestionWindow c <= max /\ cs_GetCongestionWindow c = cs_congestionWindow c * DefaultTCPMSS.
Proof.
  intros Hi Hm Hl. pose proof (run_inv Cbrt initial max Hi Hm 0 _ l ltac:(lia) ltac:(lia) (cc_new_inv initial max Hi reno)) as [Hw _].
  cbv zeta. split; [done|]. unfold cs_GetCongestionWindow, mul64. apply u64_small.
  unfold defaultMinimumCongestionWindow, DefaultMaxCongestionWindow, DefaultTCPMSS, is_u64 in *. lia.
Qed.

(** In every state a run of a cubic sender reaches, CongestionWindowAfterAck
    returns: its loop, which has no bound in the code, ends within as many
    iterations as there are unaccounted acknowledged packets plus three; the
    window it returns is at least the window of the emulated TCP flow, which is
    at least two packets and does not shrink within an epoch. *)
Theorem CongestionWindowAfterAck_returns reno initial max l delayMin now :
  2 <= initial <= max -> max <= DefaultMaxCongestionWindow -> zlen l < 2 ^ 59 ->
  let c := cs_run Cbrt (NewCubicSender reno initial max) l in
  exists cu w, CongestionWindowAfterAck Cbrt (cubicFuel (cs_cubic c)) (cs_cubic c) (cs_congestionWindow c)
                 delayMin now = Some (cu, w) /\
    2 <= cu_estimatedTCPcongestionWindow cu <= w /\
    (cu_epoch (cs_cubic c) <> 0 ->
     cu_estimatedTCPcongestionWindow (cs_cubic c) <= cu_estimatedTCPcongestionWindow cu).
Proof.
  intros Hi Hm Hl c.
  pose proof (run_inv Cbrt initial max Hi Hm 0 _ l ltac:(lia) ltac:(lia) (cc_new_inv initial max Hi reno)) as [Hw _ _ _ _ _ Hcu].
  fold c in Hw, Hcu. destruct (afterAck_ok Cbrt (0 + zlen l) (cs_cubic c) (cs_congestionWindow c) delayMin now)
    as (cu & w & E & _ & H); [done| |unfold defaultMinimumCongestionWindow in Hw; lia|by exists cu, w].
  unfold zlen in *. lia.
Qed.

(** Losses of packets up to the last cutback leave the window alone. *)
Lemma lost_again c p b f :
  cs_slowStartLargeReduction c = false -> p <= cs_largestSentAtLastCutback c ->
  cs_congestionWindow (cs_OnPacketLost c p b f) = cs_congestionWindow c /\
  cs_largestSentAtLastCutback (cs_OnPacketLost c p b f) = cs_largestSentAtLastCutback c /\
  cs_slowStartLargeReduction (cs_OnPacketLost c p b f) = false.
Proof.
  intros Hs Hp. unfold cs_OnPacketLost. rewrite (proj2 (Z.leb_le _ _) Hp). case_match; [|done].
  cbn. rewrite Hs. by cbn.
Qed.

Definition lose_all (c : cubicSender) (l : list (Z * Z * Z)) : cubicSender :=
  fold_left (fun c '(p, bytes, bytesInFlight) => cs_OnPacketLost c p bytes bytesInFlight) l c.

Lemma lost_again_all c l :
  cs_slowStartLargeReduction c = false -> Forall (fun '(p, _, _) => p <= cs_largestSentAtLastCutback c) l ->
  cs_congestionWindow (lose_all c l) = cs_congestionWindow c.
Proof.
  unfold lose_all.
  revert c. induction l as [|[[p b] f] l IH]; intros c Hs Hl; [done|]. inversion_clear Hl. cbn [fold_left].
  destruct (lost_again c p b f Hs H) as (Ew & Ec & Es). rewrite IH; [done|done|by rewrite Ec].
Qed.

Lemma lost_event_frame c p b f :
  cs_largestSentAtLastCutback c < p ->
  cs_largestSentAtLastCutback (cs_OnPacketLost c p b f) = cs_largestSentPacketNumber c /\
  cs_slowStartLargeReduction (cs_OnPacketLost c p b f) = cs_slowStartLargeReduction c.
Proof.
  intros Hp. unfold cs_OnPacketLost. rewrite (proj2 (Z.leb_gt _ _) Hp). by repeat case_match.
Qed.

(** A loss event reduces the window once.  In every state a run reaches, the
    loss of a packet sent after the last cutback sets the window to 17/20 of
    itself, rounded down, and at least two packets; the loss of any number of
    further packets that had been sent by then leaves that window as it is
    (without the large reduction experiment). *)
Theorem one_reduction_per_loss_event reno initial max run p b f l :
  2 <= initial <= max -> max <= DefaultMaxCongestionWindow -> zlen run <= 2 ^ 59 ->
  let c := cs_run Cbrt (NewCubicSender reno initial max) run in
  cs_slowStartLargeReduction c = false -> cs_largestSentAtLastCutback c < p ->
  Forall (fun '(q, _, _) => q <= cs_largestSentPacketNumber c) l ->
  cs_congestionWindow (lose_all (cs_OnPacketLost c p b f) l) = Z.max 2 (17 * cs_congestionWindow c / 20).
Proof.
  intros Hi Hm Hl c Hs Hp Hq.
  pose proof (run_inv Cbrt initial max Hi Hm 0 _ run ltac:(lia) ltac:(lia) (cc_new_inv initial max Hi reno)) as Hc.
  fold c in Hc. destruct (lost_event_frame c p b f Hp) as [Ec Es].
  rewrite lost_again_all; [|by rewrite Es|by rewrite Ec].
  destruct (lost_window initial max Hm _ c p b f Hc Hp) as [_ ->]. unfold window_after_loss. by rewrite Hs.
Qed.
End claims.

(** A cube root of the right magnitude, bit by bit. *)
Definition integer_cbrt (x : spec_float) : spec_float :=
  f64_of_Z (fold_left (fun r k => let r' := r + 2 ^ Z.of_nat k in if r' ^ 3 <=? f64_trunc x then r' else r)
              (rev (seq 0 21)) 0).

(** A run: five packets, an acknowledgement in slow start, a loss, and
    acknowledgements in recovery and after it. *)
Definition sample_run : list cs_op :=
  [CsSent 10 0 1 1350 true; CsSent 11 1350 2 1350 true; CsSent 12 2700 3 1350 true; CsSent 13 4050 4 1350 true;
   CsAcked NewRTTStats 1 1350 60000 20; CsLost 2 1350 4050; CsSent 30 2700 5 1350 true;
   CsAcked NewRTTStats 4 1350 60000 40; CsAcked NewRTTStats 5 1350 60000 (50 * Millisecond); CsSent (60 * Millisecond) 0 6 1350 true].

Lemma congestion_window_bounds_witness :
  let c := cs_run integer_cbrt (NewCubicSender false 32 2500) sample_run in
  cs_congestionWindow c = 29 /\ 2 <= cs_congestionWindow c <= 2500.
Proof.
  split; [vm_compute; reflexivity|].
  apply (congestion_window_bounds integer_cbrt false 32 2500 sample_run);
    vm_compute; try split; congruence || reflexivity.
Defined.

Lemma CongestionWindowAfterAck_returns_witness :
  let c := cs_run integer_cbrt (NewCubicSender false 32 2500) sample_run in
  exists cu w, CongestionWindowAfterAck integer_cbrt (cubicFuel (cs_cubic c)) (cs_cubic c) (cs_congestionWindow c)
    0 (90 * Millisecond) = Some (cu, w) /\ 2 <= w.
Proof.
  intros c. destruct (CongestionWindowAfterAck_returns integer_cbrt false 32 2500 sample_run 0 (90 * Millisecond))
    as (cu & w & E & H & _); [lia|vm_compute; congruence|vm_compute; reflexivity|].
  exists cu, w. split; [exact E|lia].
Defined.

Lemma one_reduction_per_loss_event_witness :
  let c := cs_run integer_cbrt (NewCubicSender false 32 2500) sample_run in
  cs_congestionWindow (lose_all (cs_OnPacketLost c 6 1350 2700) [(5, 1350, 2700)]) = 24.
Proof.
  intros c. etransitivity; [apply (one_reduction_per_loss_event integer_cbrt false 32 2500 sample_run)|].
  all: vm_compute; try reflexivity; try (split; congruence); try congruence.
  repeat constructor. congruence.
Defined.
