(* ===== verification/Olia.v ===== *)
(** * The coupled congestion controller of the paths (congestion/: olia.go and
    olia_sender.go)

    The senders of the additional paths of a session share a map; an
    acknowledgement on one path adjusts the epsilon terms of all of them.  The
    map is a [gmap] from path ids; the order in which a loop ranges over it, which
    the language leaves open, is an argument where the result depends on it.  A
    sender reads the RTT estimate of its path through a pointer: the field
    [os_rttStats] is the pointed-to value. *)
From S2P Require Import Prelude Protocol Float32 RttStats SentPackets Congestion.

(** ** Olia *)

Definition oliaShift : Z := 10.

Record Olia : Type := mkOlia {
  loss1 : Z;
  loss2 : Z;
  loss3 : Z;
  epsilonNum : Z;
  epsilonDen : Z;
  sndCwndCnt : Z;
}.

Definition NewOlia (ackedBytes : Z) : Olia := mkOlia ackedBytes ackedBytes ackedBytes 0 1 0.

Definition oliaScale (val scale : Z) : Z := shl64 val scale.

Definition olia_Reset (o : Olia) : Olia := mkOlia 0 0 0 0 1 0.

Definition SmoothedBytesBetweenLosses (o : Olia) : Z := MaxByteCount (loss3 o -u loss2 o) (loss2 o -u loss1 o).

Definition UpdateAckedSinceLastLoss (o : Olia) (ackedBytes : Z) : Olia :=
  mkOlia (loss1 o) (loss2 o) (loss3 o +u ackedBytes) (epsilonNum o) (epsilonDen o) (sndCwndCnt o).

Definition olia_OnPacketLost (o : Olia) : Olia :=
  mkOlia (loss2 o) (loss3 o) (loss3 o) (epsilonNum o) (epsilonDen o) (sndCwndCnt o).

Definition set_epsilon (o : Olia) (num den : Z) : Olia :=
  mkOlia (loss1 o) (loss2 o) (loss3 o) num den (sndCwndCnt o).

Definition set_sndCwndCnt (o : Olia) (cnt : Z) : Olia :=
  mkOlia (loss1 o) (loss2 o) (loss3 o) (epsilonNum o) (epsilonDen o) cnt.

(** The counter after the increasing term was added. *)
Definition sndCwndCnt_inc (o : Olia) (currentCongestionWindow rate cwndScaled : Z) : Z :=
  let incDen := mul64 (mul64 (epsilonDen o) currentCongestionWindow) rate in
  let incDen := if incDen =? 0 then 1 else incDen in
  let square := mul64 (mul64 (epsilonDen o) cwndScaled) cwndScaled in
  if epsilonNum o =? -1 then
    if square <? rate
    then i64 (sndCwndCnt o - i64 (oliaScale (rate -u square) oliaShift / incDen))
    else i64 (sndCwndCnt o + i64 (oliaScale (square -u rate) oliaShift / incDen))
  else i64 (sndCwndCnt o + i64 (oliaScale (mul64 (u64 (epsilonNum o)) rate +u square) oliaShift / incDen)).

Definition olia_CongestionWindowAfterAck (o : Olia) (currentCongestionWindow rate cwndScaled : Z) : Olia * Z :=
  let cnt := sndCwndCnt_inc o currentCongestionWindow rate cwndScaled in
  if cnt >=? Z.shiftl 1 oliaShift - 1 then (set_sndCwndCnt o 0, currentCongestionWindow +u 1)
  else if cnt <=? 0 - Z.shiftl 1 oliaShift + 1
  then (set_sndCwndCnt o 0, MaxPacketNumber 1 (currentCongestionWindow -u 1))
  else (set_sndCwndCnt o cnt, currentCongestionWindow).

(** ** The sender of a path *)

Record OliaSender : Type := mkOS {
  os_hybridSlowStart : HybridSlowStart;
  os_prr : PrrSender;
  os_rttStats : RTTStats;
  os_slowstartPacketsLost : Z;
  os_slowstartBytesLost : Z;
  os_olia : Olia;
  os_largestSentPacketNumber : Z;
  os_largestAckedPacketNumber : Z;
  os_largestSentAtLastCutback : Z;
  os_congestionWindow : Z;
  os_slowstartThreshold : Z;
  os_lastCutbackExitedSlowstart : bool;
  os_slowStartLargeReduction : bool;
  os_minCongestionWindow : Z;
  os_maxTCPCongestionWindow : Z;
  os_numConnections : Z;
  os_congestionWindowCount : Z;
  os_initialCongestionWindow : Z;
  os_initialMaxCongestionWindow : Z;
}.

Definition NewOliaSender (rttStats : RTTStats) (initialCongestionWindow initialMaxCongestionWindow : Z) : OliaSender :=
  mkOS newHybridSlowStart newPrrSender rttStats 0 0 (NewOlia 0) 0 0 0 initialCongestionWindow
    initialMaxCongestionWindow false false defaultMinimumCongestionWindow initialMaxCongestionWindow
    defaultNumConnections 0 initialCongestionWindow initialMaxCongestionWindow.

(** *** Field updates *)

Definition os_set_hss (o : OliaSender) (v : HybridSlowStart) : OliaSender :=
  mkOS v (os_prr o) (os_rttStats o) (os_slowstartPacketsLost o) (os_slowstartBytesLost o) (os_olia o)
    (os_largestSentPacketNumber o) (os_largestAckedPacketNumber o) (os_largestSentAtLastCutback o)
    (os_congestionWindow o) (os_slowstartThreshold o) (os_lastCutbackExitedSlowstart o)
    (os_slowStartLargeReduction o) (os_minCongestionWindow o) (os_maxTCPCongestionWindow o)
    (os_numConnections o) (os_congestionWindowCount o) (os_initialCongestionWindow o)
    (os_initialMaxCongestionWindow o).
Definition os_set_prr (o : OliaSender) (v : PrrSender) : OliaSender :=
  mkOS (os_hybridSlowStart o) v (os_rttStats o) (os_slowstartPacketsLost o) (os_slowstartBytesLost o)
    (os_olia o) (os_largestSentPacketNumber o) (os_largestAckedPacketNumber o) (os_largestSentAtLastCutback o)
    (os_congestionWindow o) (os_slowstartThreshold o) (os_lastCutbackExitedSlowstart o)
    (os_slowStartLargeReduction o) (os_minCongestionWindow o) (os_maxTCPCongestionWindow o)
    (os_numConnections o) (os_congestionWindowCount o) (os_initialCongestionWindow o)
    (os_initialMaxCongestionWindow o).
Definition os_set_rtt (o : OliaSender) (v : RTTStats) : OliaSender :=
  mkOS (os_hybridSlowStart o) (os_prr o) v (os_slowstartPacketsLost o) (os_slowstartBytesLost o) (os_olia o)
    (os_largestSentPacketNumber o) (os_largestAckedPacketNumber o) (os_largestSentAtLastCutback o)
    (os_congestionWindow o) (os_slowstartThreshold o) (os_lastCutbackExitedSlowstart o)
    (os_slowStartLargeReduction o) (os_minCongestionWindow o) (os_maxTCPCongestionWindow o)
    (os_numConnections o) (os_congestionWindowCount o) (os_initialCongestionWindow o)
    (os_initialMaxCongestionWindow o).
Definition os_set_stats (o : OliaSender) (packets bytes : Z) : OliaSender :=
  mkOS (os_hybridSlowStart o) (os_prr o) (os_rttStats o) packets bytes (os_olia o)
    (os_largestSentPacketNumber o) (os_largestAckedPacketNumber o) (os_largestSentAtLastCutback o)
    (os_congestionWindow o) (os_slowstartThreshold o) (os_lastCutbackExitedSlowstart o)
    (os_slowStartLargeReduction o) (os_minCongestionWindow o) (os_maxTCPCongestionWindow o)
    (os_numConnections o) (os_congestionWindowCount o) (os_initialCongestionWindow o)
    (os_initialMaxCongestionWindow o).
Definition os_set_olia (o : OliaSender) (v : Olia) : OliaSender :=
  mkOS (os_hybridSlowStart o) (os_prr o) (os_rttStats o) (os_slowstartPacketsLost o) (os_slowstartBytesLost o) v
    (os_largestSentPacketNumber o) (os_largestAckedPacketNumber o) (os_largestSentAtLastCutback o)
    (os_congestionWindow o) (os_slowstartThreshold o) (os_lastCutbackExitedSlowstart o)
    (os_slowStartLargeReduction o) (os_minCongestionWindow o) (os_maxTCPCongestionWindow o)
    (os_numConnections o) (os_congestionWindowCount o) (os_initialCongestionWindow o)
    (os_initialMaxCongestionWindow o).
Definition os_set_numbers (o : OliaSender) (sent acked cutback : Z) : OliaSender :=
  mkOS (os_hybridSlowStart o) (os_prr o) (os_rttStats o) (os_slowstartPacketsLost o) (os_slowstartBytesLost o)
    (os_olia o) sent acked cutback (os_congestionWindow o) (os_slowstartThreshold o)
    (os_lastCutbackExitedSlowstart o) (os_slowStartLargeReduction o) (os_minCongestionWindow o)
    (os_maxTCPCongestionWindow o) (os_numConnections o) (os_congestionWindowCount o)
    (os_initialCongestionWindow o) (os_initialMaxCongestionWindow o).
Definition os_set_window (o : OliaSender) (window threshold count : Z) : OliaSender :=
  mkOS (os_hybridSlowStart o) (os_prr o) (os_rttStats o) (os_slowstartPacketsLost o) (os_slowstartBytesLost o)
    (os_olia o) (os_largestSentPacketNumber o) (os_largestAckedPacketNumber o) (os_largestSentAtLastCutback o)
    window threshold (os_lastCutbackExitedSlowstart o) (os_slowStartLargeReduction o) (os_minCongestionWindow o)
    (os_maxTCPCongestionWindow o) (os_numConnections o) count (os_initialCongestionWindow o)
    (os_initialMaxCongestionWindow o).
Definition os_set_exited (o : OliaSender) (exited : bool) : OliaSender :=
  mkOS (os_hybridSlowStart o) (os_prr o) (os_rttStats o) (os_slowstartPacketsLost o) (os_slowstartBytesLost o)
    (os_olia o) (os_largestSentPacketNumber o) (os_largestAckedPacketNumber o) (os_largestSentAtLastCutback o)
    (os_congestionWindow o) (os_slowstartThreshold o) exited (os_slowStartLargeReduction o)
    (os_minCongestionWindow o) (os_maxTCPCongestionWindow o) (os_numConnections o) (os_congestionWindowCount o)
    (os_initialCongestionWindow o) (os_initialMaxCongestionWindow o).
Definition os_set_config (o : OliaSender) (largeReduction : bool) (maxWindow numConnections : Z) : OliaSender :=
  mkOS (os_hybridSlowStart o) (os_prr o) (os_rttStats o) (os_slowstartPacketsLost o) (os_slowstartBytesLost o)
    (os_olia o) (os_largestSentPacketNumber o) (os_largestAckedPacketNumber o) (os_largestSentAtLastCutback o)
    (os_congestionWindow o) (os_slowstartThreshold o) (os_lastCutbackExitedSlowstart o) largeReduction
    (os_minCongestionWindow o) maxWindow numConnections (os_congestionWindowCount o)
    (os_initialCongestionWindow o) (os_initialMaxCongestionWindow o).

(** *** Operations of one sender *)

Definition os_GetCongestionWindow (o : OliaSender) : Z := mul64 (os_congestionWindow o) DefaultTCPMSS.

Definition os_GetSlowStartThreshold (o : OliaSender) : Z := mul64 (os_slowstartThreshold o) DefaultTCPMSS.

Definition os_InRecovery (o : OliaSender) : bool :=
  (os_largestAckedPacketNumber o <=? os_largestSentAtLastCutback o) && negb (os_largestAckedPacketNumber o =? 0).

Definition os_InSlowStart (o : OliaSender) : bool := os_GetCongestionWindow o <? os_GetSlowStartThreshold o.

Definition os_TimeUntilSend (o : OliaSender) (bytesInFlight : Z) : Z :=
  if os_InRecovery o
  then prr_TimeUntilSend (os_prr o) (os_GetCongestionWindow o) bytesInFlight (os_GetSlowStartThreshold o)
  else if os_GetCongestionWindow o >? bytesInFlight then 0 else InfDuration.

Definition os_OnPacketSent (o : OliaSender) (sentTime bytesInFlight packetNumber bytes : Z)
    (isRetransmittable : bool) : OliaSender :=
  if negb isRetransmittable then o
  else
  let o := if os_InRecovery o then os_set_prr o (prr_OnPacketSent (os_prr o) bytes) else o in
  let o := os_set_numbers o packetNumber (os_largestAckedPacketNumber o) (os_largestSentAtLastCutback o) in
  os_set_hss o (hss_OnPacketSent (os_hybridSlowStart o) packetNumber).

Definition os_ExitSlowstart (o : OliaSender) : OliaSender :=
  os_set_window o (os_congestionWindow o) (os_congestionWindow o) (os_congestionWindowCount o).

Definition os_isCwndLimited (o : OliaSender) (bytesInFlight : Z) : bool :=
  let congestionWindow := os_GetCongestionWindow o in
  if bytesInFlight >=? congestionWindow then true
  else
  let availableBytes := congestionWindow -u bytesInFlight in
  let slowStartLimited := os_InSlowStart o && (bytesInFlight >? congestionWindow / 2) in
  slowStartLimited || (availableBytes <=? maxBurstBytes).

Definition os_RenoBeta (o : OliaSender) : float32 := backoff (os_numConnections o) renoBeta.

Definition os_MaybeExitSlowStart (o : OliaSender) : OliaSender :=
  if os_InSlowStart o then
    let '(hss, exit) := ShouldExitSlowStart (os_hybridSlowStart o) (rtt_latestRTT (os_rttStats o))
                          (rtt_minRTT (os_rttStats o)) (os_GetCongestionWindow o / DefaultTCPMSS) in
    let o := os_set_hss o hss in
    if exit then os_ExitSlowstart o else o
  else o.

Definition os_OnPacketLost (o : OliaSender) (packetNumber lostBytes bytesInFlight : Z) : OliaSender :=
  if packetNumber <=? os_largestSentAtLastCutback o then
    if os_lastCutbackExitedSlowstart o then
      let packets := os_slowstartPacketsLost o +u 1 in
      let bytes := os_slowstartBytesLost o +u lostBytes in
      let o := os_set_stats o packets bytes in
      if os_slowStartLargeReduction o then
        let window :=
          if (packets =? 1) || (bytes / DefaultTCPMSS >? (bytes -u lostBytes) / DefaultTCPMSS)
          then MaxPacketNumber (os_congestionWindow o -u 1) (os_minCongestionWindow o)
          else os_congestionWindow o in
        os_set_window o window window (os_congestionWindowCount o)
      else o
    else o
  else
  let inSlowStart := os_InSlowStart o in
  let o := os_set_exited o inSlowStart in
  let o := if inSlowStart then os_set_stats o (os_slowstartPacketsLost o +u 1) (os_slowstartBytesLost o) else o in
  let o := os_set_prr o (prr_OnPacketLost (os_prr o) bytesInFlight) in
  let o := os_set_olia o (olia_OnPacketLost (os_olia o)) in
  let window :=
    if os_slowStartLargeReduction o && inSlowStart then os_congestionWindow o -u 1
    else u64 (f32_trunc (f32_mul (f32_of_Z (os_congestionWindow o)) (os_RenoBeta o))) in
  let window := if window <? os_minCongestionWindow o then os_minCongestionWindow o else window in
  let o := os_set_window o window window 0 in
  os_set_numbers o (os_largestSentPacketNumber o) (os_largestAckedPacketNumber o) (os_largestSentPacketNumber o).

Definition os_OnRetransmissionTimeout (o : OliaSender) (packetsRetransmitted : bool) : OliaSender :=
  let o := os_set_numbers o (os_largestSentPacketNumber o) (os_largestAckedPacketNumber o) 0 in
  if negb packetsRetransmitted then o
  else
  let o := os_set_hss o (hss_Restart (os_hybridSlowStart o)) in
  let o := os_set_olia o (olia_Reset (os_olia o)) in
  os_set_window o (os_minCongestionWindow o) (os_congestionWindow o / 2) (os_congestionWindowCount o).

Definition os_OnConnectionMigration (o : OliaSender) : OliaSender :=
  let o := os_set_hss o (hss_Restart (os_hybridSlowStart o)) in
  let o := os_set_prr o newPrrSender in
  let o := os_set_numbers o 0 0 0 in
  let o := os_set_exited o false in
  let o := os_set_olia o (olia_Reset (os_olia o)) in
  let o := os_set_window o (os_initialCongestionWindow o) (os_initialMaxCongestionWindow o) 0 in
  os_set_config o (os_slowStartLargeReduction o) (os_initialMaxCongestionWindow o) (os_numConnections o).

Definition os_RetransmissionDelay (o : OliaSender) : Z :=
  if rtt_smoothedRTT (os_rttStats o) =? 0 then 0
  else i64 (rtt_smoothedRTT (os_rttStats o) + i64 (rtt_meanDeviation (os_rttStats o) * 4)).

Definition os_SetNumEmulatedConnections (o : OliaSender) (n : Z) : OliaSender :=
  os_set_config o (os_slowStartLargeReduction o) (os_maxTCPCongestionWindow o) (if n <? 1 then 1 else n).

Definition os_SetSlowStartLargeReduction (o : OliaSender) (enabled : bool) : OliaSender :=
  os_set_config o enabled (os_maxTCPCongestionWindow o) (os_numConnections o).

(** ** The coupling of the paths *)

Abbreviation oliaMap := (gmap Z OliaSender).

Definition senders (m : oliaMap) : list OliaSender := (map_to_list m).*2.

Definition srtt (o : OliaSender) : Z := rtt_smoothedRTT (os_rttStats o).

Definition getMaxCwnd (l : list OliaSender) : Z :=
  fold_left (fun bestCwnd o => MaxPacketNumber bestCwnd (os_congestionWindow o)) l 0.

Definition rateStep (pathRTT rate : Z) (o : OliaSender) : Z :=
  let scaledNum := mul64 (oliaScale (os_congestionWindow o) oliaShift) (u64 pathRTT) in
  if negb (srtt o =? 0) then rate +u scaledNum / u64 (srtt o) else rate.

Definition getRate (l : list OliaSender) (pathRTT : Z) : Z :=
  let rate := fold_left (rateStep pathRTT) l 1 in
  mul64 rate rate.

(** [int64(tmpBytes)*bestRTT >= int64(bestBytes)*tmpRTT], with [tmpRTT] the square
    of the smoothed RTT of the path. *)
Definition squareRTT (o : OliaSender) : Z := i64 (srtt o * srtt o).
Definition betterPath (bestRTT bestBytes : Z) (o : OliaSender) : bool :=
  let tmpBytes := SmoothedBytesBetweenLosses (os_olia o) in
  i64 (i64 tmpBytes * bestRTT) >=? i64 (i64 bestBytes * squareRTT o).

(** The first loop, in the order of the list. *)
Definition bestPath (l : list OliaSender) : Z * Z :=
  fold_left (fun '(bestRTT, bestBytes) o =>
    if betterPath bestRTT bestBytes o then (squareRTT o, SmoothedBytesBetweenLosses (os_olia o))
    else (bestRTT, bestBytes)) l (0, 0).

(** The second loop: the sizes of the set of the paths with the largest window
    and of the set of the best other paths, in [uint8]. *)
Definition countSets (maxCwnd bestRTT bestBytes : Z) (l : list OliaSender) : Z * Z :=
  fold_left (fun '(M, BNotM) o =>
    if os_congestionWindow o =? maxCwnd then (u8 (M + 1), BNotM)
    else if betterPath bestRTT bestBytes o then (M, u8 (BNotM + 1))
    else (M, BNotM)) l (0, 0).

(** The body of the third loop. *)
Definition setEpsilon (maxCwnd bestRTT bestBytes M BNotM len : Z) (o : OliaSender) : OliaSender :=
  let '(num, den) :=
    if BNotM =? 0 then (0, 1)
    else if (os_congestionWindow o <? maxCwnd) && betterPath bestRTT bestBytes o then (1, u32 (u32 len * BNotM))
    else if os_congestionWindow o =? maxCwnd then (-1, u32 (u32 len * M))
    else (0, 1) in
  os_set_olia o (set_epsilon (os_olia o) num den).

(** [order] lists the path ids in the order of the first loop; the result of the
    other loops does not depend on theirs. *)
Definition getEpsilon (order : list Z) (m : oliaMap) : oliaMap :=
  let maxCwnd := getMaxCwnd (senders m) in
  let '(bestRTT, bestBytes) := bestPath (omap (fun id => m !! id) order) in
  let '(M, BNotM) := countSets maxCwnd bestRTT bestBytes (senders m) in
  setEpsilon maxCwnd bestRTT bestBytes M BNotM (Z.of_nat (size m)) <$> m.

(** [maybeIncreaseCwnd] of the sender of path [id]. *)
Definition os_maybeIncreaseCwnd (order : list Z) (m : oliaMap) (id bytesInFlight : Z) : oliaMap :=
  match m !! id with
  | None => m
  | Some o =>
      if negb (os_isCwndLimited o bytesInFlight) then m
      else if os_congestionWindow o >=? os_maxTCPCongestionWindow o then m
      else if os_InSlowStart o
      then <[id := os_set_window o (os_congestionWindow o +u 1) (os_slowstartThreshold o) (os_congestionWindowCount o)]> m
      else
        let m := getEpsilon order m in
        match m !! id with
        | None => m
        | Some o =>
            let rate := getRate (senders m) (srtt o) in
            let cwndScaled := oliaScale (os_congestionWindow o) oliaShift in
            let '(olia, window) := olia_CongestionWindowAfterAck (os_olia o) (os_congestionWindow o) rate cwndScaled in
            <[id := os_set_window (os_set_olia o olia) (MinPacketNumber (os_maxTCPCongestionWindow o) window)
                      (os_slowstartThreshold o) (os_congestionWindowCount o)]> m
        end
  end.

Definition os_OnPacketAcked (order : list Z) (m : oliaMap) (id ackedPacketNumber ackedBytes bytesInFlight : Z) :
    oliaMap :=
  match m !! id with
  | None => m
  | Some o =>
      let o := os_set_numbers o (os_largestSentPacketNumber o)
        (MaxPacketNumber ackedPacketNumber (os_largestAckedPacketNumber o)) (os_largestSentAtLastCutback o) in
      if os_InRecovery o then <[id := os_set_prr o (prr_OnPacketAcked (os_prr o) ackedBytes)]> m
      else
      let o := os_set_olia o (UpdateAckedSinceLastLoss (os_olia o) ackedBytes) in
      let m := os_maybeIncreaseCwnd order (<[id := o]> m) id bytesInFlight in
      match m !! id with
      | None => m
      | Some o =>
          if os_InSlowStart o
          then <[id := os_set_hss o (hss_OnPacketAcked (os_hybridSlowStart o) ackedPacketNumber)]> m
          else m
      end
  end.
