(* ===== verification/OliaProofs.v ===== *)
(** * Properties of the coupled congestion controller

    The epsilon terms of the paths always cancel out, the loops over the map do
    not depend on its iteration order, and the windows stay in range. *)
From Stdlib Require Import QArith.
From S2P Require Import Prelude Protocol Float32 RttStats SentPackets Congestion CongestionProofs Olia.
Open Scope Z_scope.

(** ** Ranging over a map *)

Lemma fold_left_perm {A B} (f : A -> B -> A) (l l' : list B) a :
  (forall a x y, f (f a x) y = f (f a y) x) -> l ≡ₚ l' -> fold_left f l a = fold_left f l' a.
Proof.
  intros Hf Hp. revert a. induction Hp as [|x l l' _ IH|x y l|l l' l'' _ IH1 _ IH2]; intros a; cbn; auto.
  - by rewrite Hf.
  - by rewrite IH1.
Qed.

#[export] Instance getMaxCwnd_perm : Proper (Permutation ==> eq) getMaxCwnd.
Proof.
  intros l l' Hp. apply fold_left_perm; [|done]. intros a x y. unfold MaxPacketNumber. repeat case_test; lia.
Qed.

#[export] Instance getRate_perm : Proper (Permutation ==> eq ==> eq) getRate.
Proof.
  intros l l' Hp r ? <-. unfold getRate. f_equal; apply fold_left_perm; try done; intros a x y; unfold rateStep;
    repeat case_match; unfold add64, u64, wrap; rewrite ?Z.add_mod_idemp_l by lia; try done; f_equal; lia.
Qed.

#[export] Instance countSets_perm : Proper (eq ==> eq ==> eq ==> Permutation ==> eq) countSets.
Proof.
  intros m ? <- r ? <- b ? <- l l' Hp. apply fold_left_perm; [|done]. intros [M B] x y.
  destruct (os_congestionWindow x =? m) eqn:E1, (os_congestionWindow y =? m) eqn:E2, (betterPath r b x) eqn:E3,
    (betterPath r b y) eqn:E4; cbv beta iota zeta; by rewrite ?E1, ?E2, ?E3, ?E4.
Qed.

(** ** The epsilon terms *)

Lemma getMaxCwnd_ge l a :
  a <= fold_left (fun best o => MaxPacketNumber best (os_congestionWindow o)) l a /\
  Forall (fun o => os_congestionWindow o <= fold_left (fun best o => MaxPacketNumber best (os_congestionWindow o)) l a) l.
Proof.
  revert a. induction l as [|o l IH]; intros a; cbn [fold_left]; [split; [lia|constructor]|].
  destruct (IH (MaxPacketNumber a (os_congestionWindow o))) as [H1 H2].
  assert (a <= MaxPacketNumber a (os_congestionWindow o) /\ os_congestionWindow o <= MaxPacketNumber a (os_congestionWindow o))
    by (unfold MaxPacketNumber; case_test; lia).
  split; [lia|]. constructor; [lia|done].
Qed.

Lemma getMaxCwnd_attained l a :
  fold_left (fun best o => MaxPacketNumber best (os_congestionWindow o)) l a = a \/
  Exists (fun o => os_congestionWindow o = fold_left (fun best o => MaxPacketNumber best (os_congestionWindow o)) l a) l.
Proof.
  revert a. induction l as [|o l IH]; intros a; cbn [fold_left]; [by left|].
  destruct (IH (MaxPacketNumber a (os_congestionWindow o))) as [E|E]; [|right; by apply Exists_cons_tl].
  assert (Hm : MaxPacketNumber a (os_congestionWindow o) = a \/
               MaxPacketNumber a (os_congestionWindow o) = os_congestionWindow o) by (unfold MaxPacketNumber; case_test; lia).
  rewrite E. destruct Hm as [->| ->]; [by left|]. right. by apply Exists_cons_hd.
Qed.

(** The senders with the largest window, and the best ones among the others. *)
Definition inM (maxCwnd : Z) (o : OliaSender) : bool := os_congestionWindow o =? maxCwnd.
Definition inB (maxCwnd bestRTT bestBytes : Z) (o : OliaSender) : bool :=
  negb (inM maxCwnd o) && betterPath bestRTT bestBytes o.

Definition count (f : OliaSender -> bool) (l : list OliaSender) : Z := zlen (List.filter f l).

Lemma count_cons f o l : count f (o :: l) = (if f o then 1 else 0) + count f l.
Proof. unfold count, zlen. cbn. destruct (f o); cbn [length]; lia. Qed.

Lemma count_bounds f l : 0 <= count f l <= zlen l.
Proof. induction l as [|o l IH]; [done|]. rewrite count_cons. unfold zlen in *. cbn [length]. destruct (f o); lia. Qed.

Lemma countSets_count mx r b l :
  zlen l < 256 -> countSets mx r b l = (count (inM mx) l, count (inB mx r b) l).
Proof.
  intros Hl. unfold countSets.
  assert (H : forall l M B, 0 <= M -> 0 <= B -> M + zlen l < 256 -> B + zlen l < 256 ->
    fold_left (fun '(M, BNotM) o => if os_congestionWindow o =? mx then (u8 (M + 1), BNotM)
      else if betterPath r b o then (M, u8 (BNotM + 1)) else (M, BNotM)) l (M, B) =
    (M + count (inM mx) l, B + count (inB mx r b) l)); [|by apply H].
  clear. unfold zlen. induction l as [|o l IH]; intros M B HM HB HlM HlB; cbn [fold_left length] in *;
    [unfold count, zlen; cbn; f_equal; lia|].
  rewrite !count_cons. change (inM mx o) with (os_congestionWindow o =? mx).
  change (inB mx r b o) with (negb (os_congestionWindow o =? mx) && betterPath r b o).
  assert (Hu : forall x, 0 <= x < 256 -> u8 x = x) by (intros; unfold u8, wrap; by apply Z.mod_small).
  destruct (os_congestionWindow o =? mx); cbn [negb andb]; [|destruct (betterPath r b o)];
    rewrite ?(Hu (M + 1)), ?(Hu (B + 1)) by lia; rewrite IH by lia; f_equal; lia.
Qed.

(** The epsilon term of a sender, a rational number. *)
Definition epsilon (o : OliaSender) : Q := epsilonNum (os_olia o) # Z.to_pos (epsilonDen (os_olia o)).

Definition Qsum (l : list Q) : Q := fold_right Qplus 0%Q l.

Lemma Qsum_classes mx r b (x y : Q) l :
  (Qsum (map (fun o => if inM mx o then x else if inB mx r b o then y else 0%Q) l) ==
   inject_Z (count (inM mx) l) * x + inject_Z (count (inB mx r b) l) * y)%Q.
Proof.
  induction l as [|o l IH]; [unfold count; cbn [List.filter map Qsum fold_right]; change (inject_Z (zlen [])) with 0%Q; ring|].
  rewrite !count_cons, !inject_Z_plus. cbn [map Qsum fold_right].
  fold (Qsum (map (fun o => if inM mx o then x else if inB mx r b o then y else 0%Q) l)). rewrite IH.
  destruct (inM mx o) eqn:E1; [|destruct (inB mx r b o) eqn:E2].
  - assert (E2 : inB mx r b o = false) by (unfold inB; by rewrite E1). rewrite E2.
    change (inject_Z 1) with 1%Q. change (inject_Z 0) with 0%Q. ring.
  - change (inject_Z 1) with 1%Q. change (inject_Z 0) with 0%Q. ring.
  - change (inject_Z 0) with 0%Q. ring.
Qed.

(** What [setEpsilon] gives a sender, by the set it is in. *)
Lemma setEpsilon_class mx r b M B len o :
  os_congestionWindow o <= mx -> 0 < B -> 0 < len -> len * B < 2 ^ 32 -> len * M < 2 ^ 32 -> 0 < M -> len < 2 ^ 32 ->
  epsilon (setEpsilon mx r b M B len o) =
  if inM mx o then -1 # Z.to_pos (len * M) else if inB mx r b o then 1 # Z.to_pos (len * B) else 0%Q.
Proof.
  intros Hw HB Hlen H1 H2 HM H3. unfold setEpsilon, inB, inM.
  assert (Hu : forall x, 0 <= x < 2 ^ 32 -> u32 x = x) by (intros; unfold u32, wrap; by apply Z.mod_small).
  rewrite (Hu len), (Hu (len * B)), (Hu (len * M)) by nia. rewrite (proj2 (Z.eqb_neq B 0)) by lia.
  destruct (os_congestionWindow o =? mx) eqn:E.
  - apply Z.eqb_eq in E. by rewrite (proj2 (Z.ltb_ge _ _)) by lia.
  - apply Z.eqb_neq in E. rewrite (proj2 (Z.ltb_lt _ _)) by lia. cbn [negb andb]. by destruct (betterPath r b o).
Qed.

Lemma getMaxCwnd_count l :
  l <> [] -> Forall (fun o => 0 <= os_congestionWindow o) l -> 0 < count (inM (getMaxCwnd l)) l.
Proof.
  intros Hne Hpos. assert (H : Exists (fun o => os_congestionWindow o = getMaxCwnd l) l).
  { destruct (getMaxCwnd_attained l 0) as [E|E]; [|done]. destruct (getMaxCwnd_ge l 0) as [_ Hle].
    destruct l as [|o l]; [done|]. apply Exists_cons_hd. inversion_clear Hpos. inversion_clear Hle.
    unfold getMaxCwnd. lia. }
  clear Hne Hpos. generalize dependent (getMaxCwnd l). intros mx H.
  induction H as [o l E|o l _ IH]; rewrite count_cons.
  - unfold inM at 1. rewrite (proj2 (Z.eqb_eq _ _) E). pose proof (count_bounds (inM mx) l). lia.
  - destruct (inM mx o); lia.
Qed.

Lemma senders_fmap (f : OliaSender -> OliaSender) (m : gmap Z OliaSender) : senders (f <$> m) = map f (senders m).
Proof. unfold senders. rewrite map_to_list_fmap. induction (map_to_list m) as [|[k o] l IH]; [done|]. cbn. by f_equal. Qed.

Lemma senders_length (m : gmap Z OliaSender) : zlen (senders m) = Z.of_nat (size m).
Proof. unfold senders, zlen. by rewrite length_fmap, length_map_to_list. Qed.

Lemma Qsum_zero l : Forall (fun q => q = 0%Q) l -> Qsum l = 0%Q.
Proof. unfold Qsum. induction 1 as [|q l -> _ IH]; [done|]. cbn [fold_right]. by rewrite IH. Qed.

Lemma balanced n M B :
  0 < n -> 0 < M -> 0 < B ->
  (inject_Z M * (-1 # Z.to_pos (n * M)) + inject_Z B * (1 # Z.to_pos (n * B)) == 0)%Q.
Proof.
  intros Hn HM HB. assert (Hp : Z.pos (Z.to_pos (n * M)) = n * M) by (apply Z2Pos.id; nia).
  assert (Hq : Z.pos (Z.to_pos (n * B)) = n * B) by (apply Z2Pos.id; nia).
  unfold Qeq, Qplus, Qmult, inject_Z. cbn [Qnum Qden]. rewrite !Pos.mul_1_l, Hp, Hq. nia.
Qed.

(** Whichever of the paths getEpsilon takes for the best, and in whatever order
    it ranges over the map, the epsilon terms it gives the senders of a session sum
    up to zero: what the best paths gain the paths with the largest window lose,
    for up to 255 paths. *)
Theorem epsilon_sums_to_zero order m :
  (size m <= 255)%nat -> map_Forall (fun _ o => 0 <= os_congestionWindow o) m ->
  (Qsum (map epsilon (senders (getEpsilon order m))) == 0)%Q.
Proof.
  intros Hs Hw. unfold getEpsilon. destruct (bestPath _) as [r b].
  assert (Hl : Forall (fun o => 0 <= os_congestionWindow o) (senders m)).
  { unfold senders. apply Forall_fmap, Forall_forall. intros [k o] Hin. apply list_elem_of_In, elem_of_map_to_list in Hin. exact (Hw k o Hin). }
  pose proof (senders_length m) as Hlen. rewrite countSets_count by lia. rewrite senders_fmap, map_map.
  destruct (getMaxCwnd_ge (senders m) 0) as [_ Hle]. fold (getMaxCwnd (senders m)) in Hle.
  set (l := senders m) in *. set (mx := getMaxCwnd l) in *.
  pose proof (count_bounds (inM mx) l). pose proof (count_bounds (inB mx r b) l).
  destruct (Z.eq_dec (count (inB mx r b) l) 0) as [E|E].
  - rewrite E, Qsum_zero; [done|]. apply Forall_map, Forall_forall. done.
  - assert (Hne : l <> []) by (intros ->; unfold count, zlen in E; cbn in E; done).
    pose proof (getMaxCwnd_count l Hne Hl) as HM. fold mx in HM.
    assert (Heq : map (fun o => epsilon (setEpsilon mx r b (count (inM mx) l) (count (inB mx r b) l) (Z.of_nat (size m)) o)) l =
      map (fun o => if inM mx o then -1 # Z.to_pos (Z.of_nat (size m) * count (inM mx) l)
        else if inB mx r b o then 1 # Z.to_pos (Z.of_nat (size m) * count (inB mx r b) l) else 0%Q) l).
    { apply map_ext_in. intros o Hin. rewrite List.Forall_forall in Hle. apply setEpsilon_class; try nia.
      by apply Hle. }
    rewrite Heq, Qsum_classes. apply balanced; lia.
Qed.

(** ** The windows *)

Record os_inv (initial max : Z) (o : OliaSender) : Prop := {
  oi_window : 1 <= os_congestionWindow o <= max;
  oi_min : os_minCongestionWindow o = defaultMinimumCongestionWindow;
  oi_max : os_maxTCPCongestionWindow o = max;
  oi_initial : os_initialCongestionWindow o = initial;
  oi_initialMax : os_initialMaxCongestionWindow o = max;
  oi_num : os_numConnections o = defaultNumConnections;
}.

(** The calls on the senders of a session: a new path, the calls of the
    sentPacketHandler of a path, and a change of the RTT estimate of a path. *)
Inductive olia_op : Type :=
| OsOpen (rttStats : RTTStats)
| OsSent (sentTime bytesInFlight packetNumber bytes : Z) (isRetransmittable : bool)
| OsAcked (order : list Z) (packetNumber bytes bytesInFlight : Z)
| OsLost (packetNumber bytes bytesInFlight : Z)
| OsTimeout (packetsRetransmitted : bool)
| OsMaybeExit
| OsMigration
| OsLargeReduction (enabled : bool)
| OsRtt (rttStats : RTTStats).

Section run.
Context (initial max : Z).

Definition olia_step (m : oliaMap) (op : Z * olia_op) : oliaMap :=
  let '(id, op) := op in
  match op with
  | OsOpen rtt => <[id := NewOliaSender rtt initial max]> m
  | OsSent t f p b r => alter (fun o => os_OnPacketSent o t f p b r) id m
  | OsAcked order p b f => os_OnPacketAcked order m id p b f
  | OsLost p b f => alter (fun o => os_OnPacketLost o p b f) id m
  | OsTimeout r => alter (fun o => os_OnRetransmissionTimeout o r) id m
  | OsMaybeExit => alter os_MaybeExitSlowStart id m
  | OsMigration => alter os_OnConnectionMigration id m
  | OsLargeReduction b => alter (fun o => os_SetSlowStartLargeReduction o b) id m
  | OsRtt rtt => alter (fun o => os_set_rtt o rtt) id m
  end.

Definition olia_run (l : list (Z * olia_op)) : oliaMap := fold_left olia_step l ∅.

Hypothesis Hinitial : 2 <= initial <= max.
Hypothesis Hmax : max <= DefaultMaxCongestionWindow.

Abbreviation inv := (os_inv initial max).
Definition all_inv (m : oliaMap) : Prop := map_Forall (fun _ o => inv o) m.

Lemma inv_window o w t k : 1 <= w <= max -> inv o -> inv (os_set_window o w t k).
Proof. intros Hw []. by split. Qed.

Lemma all_inv_alter f id m : (forall o, inv o -> inv (f o)) -> all_inv m -> all_inv (alter f id m).
Proof.
  intros Hf Hm k o. destruct (decide (k = id)) as [->|Hk].
  - rewrite lookup_alter. intros H. rewrite decide_True in H by done. destruct (m !! id) as [o'|] eqn:E; [|done]. injection H as <-. apply Hf, (Hm id _ E).
  - rewrite lookup_alter_ne by done. apply Hm.
Qed.

Lemma lost_os_inv o p b f : inv o -> inv (os_OnPacketLost o p b f).
Proof.
  intros Ho. pose proof Ho as [Hw Hmin Hm _ _ Hnum]. pose proof Hmax as Hmax'.
  unfold DefaultMaxCongestionWindow in Hmax'. unfold os_OnPacketLost. case_match.
  - case_match; [|done]. case_match; [|by destruct Ho; split]. apply inv_window; [|by destruct Ho; split].
    cbn. rewrite Hmin, (sub64_small (os_congestionWindow o) 1) by lia. unfold MaxPacketNumber, defaultMinimumCongestionWindow.
    case_match; [|done]. case_test; lia.
  - set (o1 := os_set_olia _ _). assert (Ho1 : inv o1) by (unfold o1; case_match; by destruct Ho; split).
    assert (E : os_congestionWindow o1 = os_congestionWindow o) by (unfold o1; by case_match).
    pose proof Ho1 as [_ Hmin1 _ _ _ Hnum1].
    unfold os_RenoBeta, renoBeta. fold beta. rewrite Hnum1, Hmin1, E. change defaultNumConnections with 2.
    rewrite decrease_exact by (unfold DefaultMaxCongestionWindow in *; lia). rewrite sub64_small by lia.
    pose proof (decrease_bounds (os_congestionWindow o)). unfold defaultMinimumCongestionWindow.
    assert (Hi : forall w, inv (os_set_window o1 w w 0) -> inv (os_set_numbers (os_set_window o1 w w 0)
      (os_largestSentPacketNumber (os_set_window o1 w w 0)) (os_largestAckedPacketNumber (os_set_window o1 w w 0))
      (os_largestSentPacketNumber (os_set_window o1 w w 0)))) by (intros w []; by split).
    apply Hi, inv_window; [|done]. case_match; case_test; lia.
Qed.

Lemma getEpsilon_inv order m : all_inv m -> all_inv (getEpsilon order m).
Proof.
  intros Hm k o. unfold getEpsilon. destruct (bestPath _), (countSets _ _ _ _). rewrite lookup_fmap.
  destruct (m !! k) as [o'|] eqn:E; [|done]. cbn. intros [= <-]. destruct (Hm k o' E). unfold setEpsilon.
  case_match. by split.
Qed.

Lemma olia_window_bounds o w r s :
  1 <= w <= DefaultMaxCongestionWindow -> 1 <= (olia_CongestionWindowAfterAck o w r s).2 <= w + 1.
Proof.
  intros Hw. unfold DefaultMaxCongestionWindow in Hw. unfold olia_CongestionWindowAfterAck.
  case_match; [cbn; rewrite add64_small; lia|]. case_match; [|cbn; lia].
  cbn. unfold MaxPacketNumber. rewrite sub64_small by lia. case_test; lia.
Qed.

Lemma increase_os_inv order m id f : all_inv m -> all_inv (os_maybeIncreaseCwnd order m id f).
Proof.
  intros Hm. unfold os_maybeIncreaseCwnd. destruct (m !! id) as [o|] eqn:E; [|done].
  pose proof (Hm id o E) as Ho. pose proof Ho as [Hw _ Hmx _ _ _].
  case_match; [done|]. case_match eqn:El; [done|]. rewrite Z.geb_leb in El. bool_to_prop. rewrite Hmx in El.
  unfold DefaultMaxCongestionWindow in *. case_match.
  - apply map_Forall_insert_2; [|done]. apply inv_window; [|done]. rewrite add64_small; lia.
  - pose proof (getEpsilon_inv order m Hm) as Hg. destruct (getEpsilon order m !! id) as [o2|] eqn:E2; [|done].
    pose proof (Hg id o2 E2) as Ho2. pose proof Ho2 as [Hw2 _ Hmx2 _ _ _].
    pose proof (olia_window_bounds (os_olia o2) (os_congestionWindow o2) (getRate (senders (getEpsilon order m)) (srtt o2))
      (oliaScale (os_congestionWindow o2) oliaShift) ltac:(unfold DefaultMaxCongestionWindow; lia)) as Hb.
    destruct (olia_CongestionWindowAfterAck _ _ _ _) as [ol w]. cbn in Hb.
    apply map_Forall_insert_2; [|done]. apply inv_window; [|by destruct Ho2; split].
    rewrite Hmx2. unfold MinPacketNumber. case_test; lia.
Qed.

Lemma acked_os_inv order m id p b f : all_inv m -> all_inv (os_OnPacketAcked order m id p b f).
Proof.
  intros Hm. unfold os_OnPacketAcked. destruct (m !! id) as [o|] eqn:E; [|done]. pose proof (Hm id o E) as Ho.
  case_match; [apply map_Forall_insert_2; [by destruct Ho; split|done]|].
  set (m1 := <[id := _]> m). assert (H1 : all_inv m1) by (apply map_Forall_insert_2; [by destruct Ho; split|done]).
  pose proof (increase_os_inv order m1 id f H1) as H2. destruct (os_maybeIncreaseCwnd _ _ _ _ !! id) as [o2|] eqn:E2; [|done].
  case_match; [|done]. apply map_Forall_insert_2; [|done]. by destruct (H2 id o2 E2); split.
Qed.

Lemma olia_step_inv m op : all_inv m -> all_inv (olia_step m op).
Proof.
  intros Hm. destruct op as [id []]; cbn [olia_step]; try (apply all_inv_alter; [|done]; intros o Ho).
  - apply map_Forall_insert_2; [|done]. split; cbn; try done. lia.
  - unfold os_OnPacketSent. destruct Ho. repeat case_match; by split.
  - by apply acked_os_inv.
  - by apply lost_os_inv.
  - unfold os_OnRetransmissionTimeout. pose proof Ho as []. case_match; [by split|].
    apply inv_window; [cbn; rewrite oi_min0; unfold defaultMinimumCongestionWindow; lia|]. by split.
  - unfold os_MaybeExitSlowStart. destruct Ho. repeat case_match; by split.
  - destruct Ho. split; cbn; try done. rewrite oi_initial0. lia.
  - by destruct Ho; split.
  - by destruct Ho; split.
Qed.
End run.

(** Whatever is sent, acknowledged, lost or timed out on the paths of a session,
    in whatever order, the congestion window of every path stays between one packet
    and the configured maximum. *)
Theorem olia_windows_bounded initial max l id o :
  2 <= initial <= max -> max <= DefaultMaxCongestionWindow ->
  olia_run initial max l !! id = Some o -> 1 <= os_congestionWindow o <= max.
Proof.
  intros Hi Hm Hl. assert (H : forall m, all_inv initial max m ->
    all_inv initial max (fold_left (olia_step initial max) l m)).
  { clear Hl. induction l as [|op l IH]; intros m Hinv; [done|]. cbn. by apply IH, olia_step_inv. }
  apply (H ∅ (map_Forall_empty _) id o Hl).
Qed.

(** ** Instances *)

(** A sender with a given window, RTT and number of bytes since the last loss. *)
Definition sample_sender (window rtt bytes : Z) : OliaSender :=
  os_set_olia
    (os_set_window (NewOliaSender (UpdateRTT NewRTTStats rtt 0 0) 32 2500) window 2 0)
    (UpdateAckedSinceLastLoss (NewOlia 0) bytes).

Lemma epsilon_sums_to_zero_witness :
  let m : oliaMap := <[1 := sample_sender 10 (10 * Millisecond) 9000]> (<[3 := sample_sender 20 (20 * Millisecond) 9000]> ∅) in
  map epsilon (senders (getEpsilon [1; 3] m)) = [-1 # 2; 1 # 2]%Q /\
  (Qsum (map epsilon (senders (getEpsilon [1; 3]%Z m))) == 0)%Q.
Proof.
  split; [vm_compute; reflexivity|].
  apply (epsilon_sums_to_zero [1; 3]); [vm_compute; lia|].
  repeat (apply map_Forall_insert_2; [vm_compute; congruence|]). apply map_Forall_empty.
Defined.

Lemma olia_windows_bounded_witness :
  let m := olia_run 32 2500 [(1, OsOpen NewRTTStats); (1, OsSent 10 0 1 1350 true);
    (1, OsAcked [1] 1 1350 60000); (1, OsSent 20 0 2 1350 true); (1, OsLost 2 1350 1350)] in
  exists o, m !! 1 = Some o /\ os_congestionWindow o = 28 /\ 1 <= os_congestionWindow o <= 2500.
Proof.
  eexists. split; [vm_compute; reflexivity|]. split; [vm_compute; reflexivity|].
  apply (olia_windows_bounded 32 2500 [(1, OsOpen NewRTTStats); (1, OsSent 10 0 1 1350 true);
    (1, OsAcked [1] 1 1350 60000); (1, OsSent 20 0 2 1350 true); (1, OsLost 2 1350 1350)] 1).
  - lia.
  - vm_compute. congruence.
  - vm_compute. reflexivity.
Defined.

(** The decrease of OLIA goes below the minimum window of the sender. *)
Example olia_below_minimum :
  olia_CongestionWindowAfterAck (mkOlia 0 0 0 (-1) 2 (-900)) defaultMinimumCongestionWindow (2 ^ 30) (2 * 1024) =
  (mkOlia 0 0 0 (-1) 2 0, 1).
Proof. vm_compute. reflexivity. Qed.

(** The products that compare two paths overflow the 64 bit integers: of two paths
    with an RTT of 100 ms the one with fewer bytes between losses is the best. *)
Example bestPath_overflows :
  let more := sample_sender 10 (100 * Millisecond) 1000 in
  let fewer := sample_sender 10 (100 * Millisecond) 900 in
  bestPath [more; fewer] = bestPath [fewer] /\ bestPath [fewer; more] = bestPath [fewer].
Proof. vm_compute. done. Qed.
