(* ===== verification/PacketNumberGenerator.v ===== *)
(** * Packet numbers (packet_number_generator.go)

    The two random bytes [crypto/rand] gives are an argument of the operation
    that may draw them; [None] is a failing read. *)
From S2P Require Import Prelude Protocol.

Record packetNumberGenerator : Type := mkPNG {
  averagePeriod : Z;
  png_next : Z;
  nextToSkip : Z;
}.

Definition newPacketNumberGenerator (averagePeriod : Z) : packetNumberGenerator := mkPNG averagePeriod 1 0.

Definition png_Peek (p : packetNumberGenerator) : Z := png_next p.

(** [uint16(b[0])<<8 + uint16(b[1])]. *)
Definition getRandomNumber (rand : option (Z * Z)) : option Z :=
  match rand with
  | None => None
  | Some (b0, b1) => Some (u16 (u16 (Z.shiftl b0 8) + b1))
  end.

(** [math.MaxUint16 / 2] is 32767. *)
Definition generateNewSkip (rand : option (Z * Z)) (p : packetNumberGenerator) : packetNumberGenerator :=
  match getRandomNumber rand with
  | None => p
  | Some num =>
      let skip := mul64 num (averagePeriod p -u 1) / 32767 in
      mkPNG (averagePeriod p) (png_next p) (png_next p +u 2 +u skip)
  end.

Definition png_Pop (rand : option (Z * Z)) (p : packetNumberGenerator) : packetNumberGenerator * Z :=
  let next := png_next p in
  let p := mkPNG (averagePeriod p) (png_next p +u 1) (nextToSkip p) in
  let p :=
    if png_next p =? nextToSkip p
    then generateNewSkip rand (mkPNG (averagePeriod p) (png_next p +u 1) (nextToSkip p))
    else p in
  (p, next).

(** Successive calls of [Pop]. *)
Fixpoint png_pops (rands : list (option (Z * Z))) (p : packetNumberGenerator) : packetNumberGenerator * list Z :=
  match rands with
  | [] => (p, [])
  | r :: rands =>
      let '(p, n) := png_Pop r p in
      let '(p, ns) := png_pops rands p in (p, n :: ns)
  end.

(** ** No two consecutive skips *)

(** [ns] continues [prev] upwards, without two skipped numbers in a row;
    [skip] tells whether the number after [prev] may be skipped. *)
Fixpoint spaced (skip : bool) (prev : Z) (ns : list Z) : Prop :=
  match ns with
  | [] => True
  | n :: ns => (n = prev + 1 /\ spaced true n ns) \/ (skip = true /\ n = prev + 2 /\ spaced false n ns)
  end.

(** Far enough from the end of the number space. *)
Definition png_ok (p : packetNumberGenerator) : Prop :=
  1 <= averagePeriod p <= 2 ^ 32 /\ 1 <= png_next p.

Lemma getRandomNumber_range rand num : getRandomNumber rand = Some num -> 0 <= num < 2 ^ 16.
Proof. destruct rand as [[a b]|]; [|done]. cbn. intros [= <-]. unfold u16, wrap. apply Z.mod_pos_bound. lia. Qed.

Lemma generateNewSkip_far rand p :
  png_ok p -> png_next p < 2 ^ 63 -> nextToSkip p < png_next p ->
  let p' := generateNewSkip rand p in
  averagePeriod p' = averagePeriod p /\ png_next p' = png_next p /\ nextToSkip p' <> png_next p' /\
  nextToSkip p' <> png_next p' + 1.
Proof.
  intros [Ha Hn] Hlt Hs. unfold generateNewSkip. destruct (getRandomNumber rand) as [num|] eqn:E; cbn; [|lia].
  apply getRandomNumber_range in E. rewrite sub64_small by lia. unfold mul64. rewrite u64_small by (unfold is_u64; nia).
  assert (0 <= num * (averagePeriod p - 1) / 32767 < 2 ^ 48).
  { split; [apply Z.div_pos; nia|apply Z.div_lt_upper_bound; nia]. }
  rewrite !add64_small by (rewrite ?add64_small; lia). lia.
Qed.

(** A call of [Pop] moves on by one number, or by two over the number to skip,
    and then the number after that is not to be skipped. *)
Lemma Pop_next rand p :
  png_ok p -> png_next p < 2 ^ 62 ->
  let '(p', n) := png_Pop rand p in
  png_ok p' /\ n = png_next p /\
  (png_next p' = n + 1 \/ (nextToSkip p = n + 1 /\ png_next p' = n + 2 /\ nextToSkip p' <> png_next p' + 1)).
Proof.
  intros [Ha Hn] Hlt. unfold png_Pop. cbn [png_next nextToSkip averagePeriod].
  rewrite add64_small by lia. destruct (_ =? _) eqn:E; [|unfold png_ok; cbn; lia].
  rewrite add64_small by lia. apply Z.eqb_eq in E. set (q := mkPNG _ _ _).
  destruct (generateNewSkip_far rand q) as (H1 & H2 & H3 & H4); [unfold png_ok; cbn; lia|cbn; lia|cbn; lia|].
  cbn in H1, H2. unfold png_ok. rewrite H1. lia.
Qed.

Lemma pops_spaced rands p prev skip :
  png_ok p -> png_next p + 2 * zlen rands < 2 ^ 62 ->
  png_next p = prev + 1 \/ (skip = true /\ png_next p = prev + 2 /\ nextToSkip p <> png_next p + 1) ->
  spaced skip prev (png_pops rands p).2.
Proof.
  unfold zlen. revert p prev skip. induction rands as [|r rands IH]; intros p prev skip Hp Hlt Hs; [done|].
  cbn [png_pops length] in *. rewrite Nat2Z.inj_succ in Hlt. pose proof (Pop_next r p Hp ltac:(lia)) as Hpop.
  destruct (png_Pop r p) as [p' n]. destruct Hpop as (Hp' & -> & Hn).
  destruct (png_pops rands p') as [p2 ns] eqn:E. change ns with (p2, ns).2. rewrite <- E. cbn [snd spaced].
  destruct Hs as [Hs|(-> & Hs & Hk)]; [left|right]; (split; [lia|]); try split; try lia; apply IH; try done; lia.
Qed.

(** However the random numbers fall, and also when reading them fails, the
    packet numbers a generator hands out strictly increase, and two consecutive
    numbers are never both skipped. *)
Theorem packet_numbers_spaced rands p :
  png_ok p -> png_next p + 2 * zlen rands < 2 ^ 62 ->
  spaced false (png_Peek p - 1) (png_pops rands p).2.
Proof. intros Hp Hlt. apply pops_spaced; [done|done|unfold png_Peek; lia]. Qed.

Lemma packet_numbers_spaced_witness :
  (png_pops (replicate 5 (Some (0, 0))) (mkPNG 500 1 4)).2 = [1; 2; 3; 5; 6] /\
  spaced false 0 (png_pops (replicate 5 (Some (0, 0))) (mkPNG 500 1 4)).2.
Proof.
  split; [vm_compute; reflexivity|].
  apply (packet_numbers_spaced (replicate 5 (Some (0, 0))) (mkPNG 500 1 4)); [|vm_compute; reflexivity].
  unfold png_ok. cbn. lia.
Defined.

(** A generator as the code makes it never skips a number: the number to skip
    starts at 0, behind the first number, and a new one is only drawn when it is
    reached. *)
Theorem fresh_generator_never_skips period rands k n :
  zlen rands < 2 ^ 62 -> (png_pops rands (newPacketNumberGenerator period)).2 !! k = Some n -> n = Z.of_nat k + 1.
Proof.
  unfold newPacketNumberGenerator, zlen. intros Hlt.
  assert (H : forall rands i k n, 1 <= i -> i + Z.of_nat (length rands) < 2 ^ 63 ->
    (png_pops rands (mkPNG period i 0)).2 !! k = Some n -> n = i + Z.of_nat k).
  { clear. induction rands as [|r rands IH]; intros i k n Hi Hlt; [done|].
    cbn [length] in Hlt. rewrite Nat2Z.inj_succ in Hlt. cbn [png_pops]. unfold png_Pop. cbn [png_next nextToSkip averagePeriod].
    rewrite add64_small by lia. rewrite (proj2 (Z.eqb_neq _ _)) by lia.
    destruct (png_pops rands (mkPNG period (i + 1) 0)) as [p2 ns] eqn:E. cbn [snd].
    destruct k as [|k]; cbn; [intros [= <-]; lia|]. intros Hk. specialize (IH (i + 1) k n ltac:(lia) ltac:(lia)).
    rewrite E in IH. specialize (IH Hk). lia. }
  intros Hk. apply H in Hk; lia.
Qed.
