(* ===== verification/StreamsMap.v ===== *)
(** * The streams of a session (streams_map.go)

    Opening, accepting, iterating over and removing streams.  The type of the
    streams and what opening one does elsewhere are parameters: [W] is the state
    that [newStream] and the functions the map is iterated with may change.  A
    pointer to a stream is its ID in the map.  The mutex makes the operations the
    steps of the model; an operation that waits on a condition variable tells so,
    and is the same operation again when it is woken up. *)
From stdpp Require Import pretty.
From S2P Require Import Prelude Qerr ByteOrder Protocol Float32 RttStats ConnParams.

Definition MaxNewStreamIDDelta : Z := 4 * MaxStreamsPerConnection.

Record streamsMap (S : Type) : Type := mkSM {
  sm_perspective : Perspective;
  sm_streams : gmap Z S;
  sm_openStreams : list Z;
  sm_roundRobinIndex : Z;
  sm_nextStream : Z;
  sm_highestStreamOpenedByPeer : Z;
  sm_closeErr : option error;
  sm_nextStreamToAccept : Z;
  sm_numOutgoingStreams : Z;
  sm_numIncomingStreams : Z;
}.
Arguments mkSM {S}.
Arguments sm_perspective {S}.
Arguments sm_streams {S}.
Arguments sm_openStreams {S}.
Arguments sm_roundRobinIndex {S}.
Arguments sm_nextStream {S}.
Arguments sm_highestStreamOpenedByPeer {S}.
Arguments sm_closeErr {S}.
Arguments sm_nextStreamToAccept {S}.
Arguments sm_numOutgoingStreams {S}.
Arguments sm_numIncomingStreams {S}.

Definition errStreamsMapAccess : error := errors_New "streamsMap: Error accessing the streams map".

Definition newStreamsMap {S} (pers : Perspective) : streamsMap S :=
  match pers with
  | PerspectiveClient => mkSM pers ∅ [] 0 1 0 None 2 0 0
  | PerspectiveServer => mkSM pers ∅ [] 0 2 0 None 1 0 0
  end.

(** What a caller gets that asks for a stream: a pointer to it, a nil pointer, or
    an error. *)
Inductive got : Type :=
| GotStream (id : Z)
| GotNil
| GotErr (e : error).

(** A call that may have to wait. *)
Inductive sync (A : Type) : Type :=
| Returns (a : A)
| Waits.
Arguments Returns {A} a.
Arguments Waits {A}.

Section streams_map.
Context {S W P : Type} `{ConnectionParametersManager P}.
Variable newStream : Z -> W -> W * S.
Implicit Types m : streamsMap S.
Implicit Types w : W.

(** *** Field updates *)

Definition sm_set_streams m (streams : gmap Z S) (openStreams : list Z) : streamsMap S :=
  mkSM (sm_perspective m) streams openStreams (sm_roundRobinIndex m) (sm_nextStream m)
    (sm_highestStreamOpenedByPeer m) (sm_closeErr m) (sm_nextStreamToAccept m) (sm_numOutgoingStreams m)
    (sm_numIncomingStreams m).
Definition sm_set_index m (i : Z) : streamsMap S :=
  mkSM (sm_perspective m) (sm_streams m) (sm_openStreams m) i (sm_nextStream m)
    (sm_highestStreamOpenedByPeer m) (sm_closeErr m) (sm_nextStreamToAccept m) (sm_numOutgoingStreams m)
    (sm_numIncomingStreams m).
Definition sm_set_ids m (nextStream highest toAccept : Z) : streamsMap S :=
  mkSM (sm_perspective m) (sm_streams m) (sm_openStreams m) (sm_roundRobinIndex m) nextStream
    highest (sm_closeErr m) toAccept (sm_numOutgoingStreams m) (sm_numIncomingStreams m).
Definition sm_set_counts m (outgoing incoming : Z) : streamsMap S :=
  mkSM (sm_perspective m) (sm_streams m) (sm_openStreams m) (sm_roundRobinIndex m) (sm_nextStream m)
    (sm_highestStreamOpenedByPeer m) (sm_closeErr m) (sm_nextStreamToAccept m) outgoing incoming.

(** *** Opening streams *)

(** [putStream], with the ID the stream has. *)
Definition putStream m (id : Z) (s : S) : streamsMap S :=
  match sm_streams m !! id with
  | Some _ => m
  | None => sm_set_streams m (<[id := s]> (sm_streams m)) (sm_openStreams m ++ [id])
  end.

Definition openRemoteStream (params : P) m w (id : Z) : streamsMap S * W * option error :=
  if sm_numIncomingStreams m >=? GetMaxIncomingStreams params then (m, w, Some (ErrCode qerr.TooManyOpenStreams))
  else if u32 (id + MaxNewStreamIDDelta) <? sm_highestStreamOpenedByPeer m then
    (m, w, Some (QuicError qerr.InvalidStreamID ("attempted to open stream " +:+ pretty id +:+
       ", which is a lot smaller than the highest opened stream, " +:+ pretty (sm_highestStreamOpenedByPeer m))))
  else
  let m := match sm_perspective m with
    | PerspectiveServer => sm_set_counts m (sm_numOutgoingStreams m) (u32 (sm_numIncomingStreams m + 1))
    | PerspectiveClient => sm_set_counts m (u32 (sm_numOutgoingStreams m + 1)) (sm_numIncomingStreams m)
    end in
  let m := if id >? sm_highestStreamOpenedByPeer m
    then sm_set_ids m (sm_nextStream m) id (sm_nextStreamToAccept m) else m in
  let '(w, s) := newStream id w in
  (putStream m id s, w, None).

(** [for ; sid <= id; sid += 2]; out of fuel is [None]. *)
Fixpoint openUpTo (fuel : nat) (params : P) m w (sid id : Z) : option (streamsMap S * W * option error) :=
  match fuel with
  | O => None
  | Datatypes.S fuel =>
      if sid <=? id then
        let '(m, w, err) := openRemoteStream params m w sid in
        match err with
        | Some e => Some (m, w, Some e)
        | None => openUpTo fuel params m w (u32 (sid + 2)) id
        end
      else Some (m, w, None)
  end.

(** A stream of the endpoint's own that is not in the map, or one of the peer's
    that was closed: nothing is opened. *)
Definition refuseStream m (id : Z) : option got :=
  match sm_perspective m with
  | PerspectiveServer =>
      if id mod 2 =? 0 then
        if id <=? sm_nextStream m then Some GotNil
        else Some (GotErr (QuicError qerr.InvalidStreamID
               ("attempted to open stream " +:+ pretty id +:+ " from client-side")))
      else if id <=? sm_highestStreamOpenedByPeer m then Some GotNil else None
  | PerspectiveClient =>
      if id mod 2 =? 1 then
        if id <=? sm_nextStream m then Some GotNil
        else Some (GotErr (QuicError qerr.InvalidStreamID
               ("attempted to open stream " +:+ pretty id +:+ " from server-side")))
      else if id <=? sm_highestStreamOpenedByPeer m then Some GotNil else None
  end.

Definition firstToOpen m : Z :=
  let sid := u32 (sm_highestStreamOpenedByPeer m + 2) in
  match sm_perspective m with
  | PerspectiveServer => if sid =? 2 then 1 else sid
  | PerspectiveClient => sid
  end.

Definition GetOrOpenStream (fuel : nat) (params : P) m w (id : Z) : option (streamsMap S * W * got) :=
  match sm_streams m !! id with
  | Some _ => Some (m, w, GotStream id)
  | None =>
      match refuseStream m id with
      | Some g => Some (m, w, g)
      | None =>
          match openUpTo fuel params m w (firstToOpen m) id with
          | None => None
          | Some (m, w, Some e) => Some (m, w, GotErr e)
          | Some (m, w, None) =>
              Some (m, w, match sm_streams m !! id with Some _ => GotStream id | None => GotNil end)
          end
      end
  end.

Definition openStreamImpl (params : P) m w : streamsMap S * W * got :=
  let id := sm_nextStream m in
  if sm_numOutgoingStreams m >=? GetMaxOutgoingStreams params then (m, w, GotErr (ErrCode qerr.TooManyOpenStreams))
  else
  let m := match sm_perspective m with
    | PerspectiveServer => sm_set_counts m (u32 (sm_numOutgoingStreams m + 1)) (sm_numIncomingStreams m)
    | PerspectiveClient => sm_set_counts m (sm_numOutgoingStreams m) (u32 (sm_numIncomingStreams m + 1))
    end in
  let m := sm_set_ids m (u32 (sm_nextStream m + 2)) (sm_highestStreamOpenedByPeer m) (sm_nextStreamToAccept m) in
  let '(w, s) := newStream id w in
  (putStream m id s, w, GotStream id).

Definition OpenStream (params : P) m w : streamsMap S * W * got :=
  match sm_closeErr m with
  | Some e => (m, w, GotErr e)
  | None => openStreamImpl params m w
  end.

Definition OpenStreamSync (params : P) m w : streamsMap S * W * sync got :=
  match sm_closeErr m with
  | Some e => (m, w, Returns (GotErr e))
  | None =>
      let '(m, w, g) := openStreamImpl params m w in
      match g with
      | GotErr e => if decide (e = ErrCode qerr.TooManyOpenStreams) then (m, w, Waits) else (m, w, Returns (GotErr e))
      | g => (m, w, Returns g)
      end
  end.

Definition AcceptStream m : streamsMap S * sync got :=
  match sm_closeErr m with
  | Some e => (m, Returns (GotErr e))
  | None =>
      match sm_streams m !! sm_nextStreamToAccept m with
      | None => (m, Waits)
      | Some _ =>
          (sm_set_ids m (sm_nextStream m) (sm_highestStreamOpenedByPeer m) (u32 (sm_nextStreamToAccept m + 2)),
           Returns (GotStream (sm_nextStreamToAccept m)))
      end
  end.

(** *** Iterating *)

(** A [streamLambda]: it gets the stream, and may change it, the map and the rest
    of the state; it returns whether to go on. *)
Definition streamLambda : Type := streamsMap S -> W -> Z -> S -> streamsMap S * W * (bool * option error).

Definition iterateFunc (fn : streamLambda) m w (streamID : Z) : streamsMap S * W * (bool * option error) :=
  match sm_streams m !! streamID with
  | None => (m, w, (true, Some errStreamsMapAccess))
  | Some str => fn m w streamID str
  end.

Fixpoint iterateOver (fn : streamLambda) m w (openStreams : list Z) : streamsMap S * W * option error :=
  match openStreams with
  | [] => (m, w, None)
  | streamID :: rest =>
      let '(m, w, (cont, err)) := iterateFunc fn m w streamID in
      match err with
      | Some e => (m, w, Some e)
      | None => if cont then iterateOver fn m w rest else (m, w, None)
      end
  end.

Definition Iterate (fn : streamLambda) m w : streamsMap S * W * option error :=
  iterateOver fn m w (sm_openStreams m).

(** The streams 1 and 3: the result tells whether to go on. *)
Fixpoint iteratePriority (fn : streamLambda) m w (ids : list Z) : streamsMap S * W * (bool * option error) :=
  match ids with
  | [] => (m, w, (true, None))
  | i :: rest =>
      let '(m, w, (cont, err)) := iterateFunc fn m w i in
      match err with
      | Some e =>
          if decide (e = errStreamsMapAccess)
          then if cont then iteratePriority fn m w rest else (m, w, (false, None))
          else (m, w, (false, Some e))
      | None => if cont then iteratePriority fn m w rest else (m, w, (false, None))
      end
  end.

(** [n] iterations of the loop from [i] on; indexing the slice panics out of
    range. *)
Fixpoint iterateRobin (fn : streamLambda) m w (numStreams startIndex : Z) (i : Z) (n : nat) :
    result (streamsMap S * W * option error) :=
  match n with
  | O => Ok (m, w, None)
  | Datatypes.S n =>
      match sm_openStreams m !! Z.to_nat (u32 (i + startIndex) mod numStreams) with
      | None => Panic
      | Some streamID =>
          if (streamID =? 1) || (streamID =? 3) then iterateRobin fn m w numStreams startIndex (i + 1) n
          else
          let '(m, w, (cont, err)) := iterateFunc fn m w streamID in
          match err with
          | Some e => Ok (m, w, Some e)
          | None =>
              let m := sm_set_index m (u32 (sm_roundRobinIndex m + 1) mod numStreams) in
              if cont then iterateRobin fn m w numStreams startIndex (i + 1) n else Ok (m, w, None)
          end
      end
  end.

Definition RoundRobinIterate (fn : streamLambda) m w : result (streamsMap S * W * option error) :=
  let numStreams := u32 (Z.of_nat (size (sm_streams m))) in
  let startIndex := sm_roundRobinIndex m in
  let '(m, w, (cont, err)) := iteratePriority fn m w [1; 3] in
  match err with
  | Some e => Ok (m, w, Some e)
  | None => if cont then iterateRobin fn m w numStreams startIndex 0 (Z.to_nat numStreams) else Ok (m, w, None)
  end.

(** *** Removing and closing *)

(** The first position of an ID in [openStreams]. *)
Fixpoint indexOf (id : Z) (l : list Z) : option nat :=
  match l with
  | [] => None
  | x :: l => if x =? id then Some O else Datatypes.S <$> indexOf id l
  end.

Definition sm_RemoveStream m (id : Z) : streamsMap S * option error :=
  match sm_streams m !! id with
  | None => (m, Some (errors_New ("attempted to remove non-existing stream: " +:+ pretty id)))
  | Some _ =>
      let m := if id mod 2 =? 0
        then sm_set_counts m (u32 (sm_numOutgoingStreams m - 1)) (sm_numIncomingStreams m)
        else sm_set_counts m (sm_numOutgoingStreams m) (u32 (sm_numIncomingStreams m - 1)) in
      let m := match indexOf id (sm_openStreams m) with
        | None => m
        | Some i =>
            let openStreams := take i (sm_openStreams m) ++ drop (Datatypes.S i) (sm_openStreams m) in
            let m := sm_set_streams m (sm_streams m) openStreams in
            if u32 (Z.of_nat i) <? sm_roundRobinIndex m then sm_set_index m (u32 (sm_roundRobinIndex m - 1)) else m
        end in
      (sm_set_streams m (delete id (sm_streams m)) (sm_openStreams m), None)
  end.

(** [CloseWithError]: [Cancel] is what it calls on every open stream; a stream that
    is not in the map would be a nil pointer. *)
Fixpoint cancelAll (Cancel : S -> S) (streams : gmap Z S) (ids : list Z) : result (gmap Z S) :=
  match ids with
  | [] => Ok streams
  | id :: ids =>
      match streams !! id with
      | None => Panic
      | Some s => cancelAll Cancel (<[id := Cancel s]> streams) ids
      end
  end.

Definition CloseWithError (Cancel : S -> S) m (err : error) : result (streamsMap S) :=
  let* streams := cancelAll Cancel (sm_streams m) (sm_openStreams m) in
  Ok (mkSM (sm_perspective m) streams (sm_openStreams m) (sm_roundRobinIndex m) (sm_nextStream m)
        (sm_highestStreamOpenedByPeer m) (Some err) (sm_nextStreamToAccept m) (sm_numOutgoingStreams m)
        (sm_numIncomingStreams m)).
End streams_map.
