(* ===== verification/StreamsMapProofs.v ===== *)
(** * Properties of the streams map

    The slice of open streams, the map and the counters stay consistent; a server
    bounds the streams of its peer and looking up a stream returns; a client
    enforces no limit; and the round robin serves every stream. *)
From S2P Require Import Prelude Qerr ByteOrder Protocol Float32 RttStats ConnParams StreamsMap.

(** ** Lists of stream IDs *)

Definition count_parity (r : Z) (l : list Z) : Z := zlen (List.filter (fun id => id mod 2 =? r) l).

Lemma count_parity_app r l k : count_parity r (l ++ k) = count_parity r l + count_parity r k.
Proof. unfold count_parity, zlen. rewrite List.filter_app, length_app. lia. Qed.

Lemma count_parity_one r id : count_parity r [id] = if id mod 2 =? r then 1 else 0.
Proof. unfold count_parity. cbn. by case_match. Qed.

Lemma count_parity_nonneg r l : 0 <= count_parity r l.
Proof. unfold count_parity, zlen. lia. Qed.

Lemma indexOf_Some id l i :
  indexOf id l = Some i -> l !! i = Some id /\ l = take i l ++ id :: drop (S i) l.
Proof.
  revert i. induction l as [|x l IH]; intros i; [done|]. cbn. case_test.
  - intros [= <-]. by subst.
  - destruct (indexOf id l) as [j|]; [|done]. intros [= <-]. destruct (IH j eq_refl) as [H1 H2].
    split; [done|]. cbn. by f_equal.
Qed.

Lemma indexOf_None id l : indexOf id l = None -> id ∉ l.
Proof.
  induction l as [|x l IH]; intros Hi; [apply not_elem_of_nil|]. cbn in Hi. revert Hi. case_test; [done|].
  destruct (indexOf id l); [done|]. intros _. rewrite not_elem_of_cons. split; [congruence|by apply IH].
Qed.

Section proofs.
Context {S W P : Type} `{ConnectionParametersManager P}.
Variable newStream : Z -> W -> W * S.
Implicit Types m : streamsMap S.

(** ** Consistency *)

(** The parity of the streams the peer opens. *)
Definition peerParity (p : Perspective) : Z := match p with PerspectiveServer => 1 | PerspectiveClient => 0 end.

Record sm_inv m : Prop := {
  smi_nodup : NoDup (sm_openStreams m);
  smi_dom : forall id, id ∈ sm_openStreams m <-> is_Some (sm_streams m !! id);
  smi_out : sm_numOutgoingStreams m = count_parity 0 (sm_openStreams m);
  smi_in : sm_numIncomingStreams m = count_parity 1 (sm_openStreams m);
  smi_own : forall id, id ∈ sm_openStreams m -> id mod 2 <> peerParity (sm_perspective m) -> 0 < id < sm_nextStream m;
  smi_peer : forall id, id ∈ sm_openStreams m -> id mod 2 = peerParity (sm_perspective m) ->
    0 < id <= sm_highestStreamOpenedByPeer m;
  smi_next : 0 < sm_nextStream m < 2 ^ 32 /\ sm_nextStream m mod 2 <> peerParity (sm_perspective m);
  smi_highest : 0 <= sm_highestStreamOpenedByPeer m < 2 ^ 32 /\
    (sm_highestStreamOpenedByPeer m = 0 \/ sm_highestStreamOpenedByPeer m mod 2 = peerParity (sm_perspective m));
  smi_index : 0 <= sm_roundRobinIndex m < 2 ^ 32;
}.

Lemma mod2 x : x mod 2 = 0 \/ x mod 2 = 1.
Proof. pose proof (Z.mod_pos_bound x 2). lia. Qed.

Lemma mod2_add2 x : (x + 2) mod 2 = x mod 2.
Proof. replace (x + 2) with (x + 1 * 2) by lia. apply Z.mod_add. lia. Qed.

Lemma new_sm_inv pers : sm_inv (newStreamsMap pers).
Proof.
  destruct pers; split; cbn; try done; try (by apply NoDup_nil_2); try lia;
    try (intros id; rewrite lookup_empty; split; [by intros ?%elem_of_nil|by intros [? ?]]);
    try (intros id ?%elem_of_nil; done).
Qed.

(** There are not more open streams than IDs. *)
Lemma nodup_range_length (l : list Z) N : 0 < N -> NoDup l -> (forall x, x ∈ l -> 0 < x < N) -> zlen l < N.
Proof.
  intros HN Hd Hr. assert (Hs : l ⊆+ seqZ 1 (N - 1)).
  { apply NoDup_submseteq; [done|]. intros x Hx. apply elem_of_seqZ. specialize (Hr x Hx). lia. }
  apply submseteq_length in Hs. rewrite length_seqZ in Hs. unfold zlen. lia.
Qed.

Lemma filter_length_le {A} (f : A -> bool) (l : list A) : (length (List.filter f l) <= length l)%nat.
Proof. induction l as [|x l IH]; cbn; [lia|]. case_match; cbn; lia. Qed.

Lemma inv_ids m x : sm_inv m -> x ∈ sm_openStreams m -> 0 < x < 2 ^ 32.
Proof.
  intros I Hx. pose proof (smi_next _ I). pose proof (smi_highest _ I).
  destruct (Z.eq_dec (x mod 2) (peerParity (sm_perspective m))) as [E|E];
    [pose proof (smi_peer _ I x Hx E)|pose proof (smi_own _ I x Hx E)]; lia.
Qed.

Lemma fresh_count m id r : sm_inv m -> id ∉ sm_openStreams m -> 0 < id < 2 ^ 32 ->
  0 <= count_parity r (sm_openStreams m) < 2 ^ 32 - 1.
Proof.
  intros I Hnew Hid. assert (Hl : zlen (id :: sm_openStreams m) < 2 ^ 32).
  { apply nodup_range_length; [lia|by constructor; [|apply (smi_nodup _ I)]|].
    intros x [->|Hx]%elem_of_cons; [done|by apply (inv_ids m)]. }
  unfold count_parity, zlen in *. cbn [length] in Hl.
  pose proof (filter_length_le (fun id => id mod 2 =? r) (sm_openStreams m)). lia.
Qed.

Lemma fresh_not_open m id next high : sm_inv m ->
  (if decide (id mod 2 = peerParity (sm_perspective m)) then sm_highestStreamOpenedByPeer m < id <= high
   else sm_nextStream m <= id < next) -> id ∉ sm_openStreams m.
Proof.
  intros I Hf Hin. destruct (decide _) as [E|E];
    [pose proof (smi_peer _ I id Hin E)|pose proof (smi_own _ I id Hin E)]; lia.
Qed.

(** A fresh stream, with the counter of its parity one up. *)
Lemma open_inv m id s next high acc :
  sm_inv m -> 0 < id < 2 ^ 32 ->
  sm_nextStream m <= next < 2 ^ 32 -> next mod 2 = sm_nextStream m mod 2 ->
  sm_highestStreamOpenedByPeer m <= high < 2 ^ 32 ->
  (high = 0 \/ high mod 2 = peerParity (sm_perspective m)) ->
  (if decide (id mod 2 = peerParity (sm_perspective m)) then sm_highestStreamOpenedByPeer m < id <= high
   else sm_nextStream m <= id < next) ->
  sm_inv (putStream (sm_set_ids (sm_set_counts m
    (sm_numOutgoingStreams m + (if id mod 2 =? 0 then 1 else 0))
    (sm_numIncomingStreams m + (if id mod 2 =? 0 then 0 else 1))) next high acc) id s).
Proof.
  intros I Hid Hn Hnp Hh Hhp Hfresh. pose proof I as [Hd Hdom Ho Hi Hown Hpeer Hnx Hhi Hix].
  pose proof (fresh_not_open m id next high I Hfresh) as Hnew.
  assert (Hnone : sm_streams m !! id = None).
  { destruct (sm_streams m !! id) eqn:E; [|done]. exfalso. apply Hnew, Hdom. by rewrite E. }
  unfold putStream. cbn. rewrite Hnone. split; cbn; try done.
  - apply list.NoDup_app. split; [done|]. split; [|apply NoDup_singleton].
    intros x Hx ->%list_elem_of_singleton. done.
  - intros x. rewrite elem_of_app, list_elem_of_singleton, Hdom. destruct (decide (x = id)) as [->|Hx].
    + rewrite lookup_insert, decide_True by done. split; [by eauto|by right].
    + rewrite lookup_insert_ne by done. split; [by intros [?|?]|by left].
  - rewrite count_parity_app, count_parity_one, Ho. lia.
  - rewrite count_parity_app, count_parity_one, Hi. destruct (mod2 id) as [-> | ->]; cbn; lia.
  - intros x [Hx|Hx]%elem_of_app Hp; [specialize (Hown x Hx Hp); lia|]. apply list_elem_of_singleton in Hx as ->.
    destruct (decide _); [done|lia].
  - intros x [Hx|Hx]%elem_of_app Hp; [specialize (Hpeer x Hx Hp); lia|]. apply list_elem_of_singleton in Hx as ->.
    destruct (decide _); [lia|done].
  - rewrite Hnp. split; [lia|apply Hnx].
  - split; [lia|done].
Qed.

Lemma u32_within x : 0 <= x < 2 ^ 32 -> u32 x = x.
Proof. intros Hx. unfold u32, wrap. by apply Z.mod_small. Qed.

(** What opening a stream of the peer does: it is added to the open streams, or
    there was an error and nothing changed. *)
Record remote_opened (params : P) m (id : Z) m' (e : option error) : Prop := {
  ro_inv : sm_inv m';
  ro_perspective : sm_perspective m' = sm_perspective m;
  ro_next : sm_nextStream m' = sm_nextStream m;
  ro_closeErr : sm_closeErr m' = sm_closeErr m;
  ro_accept : sm_nextStreamToAccept m' = sm_nextStreamToAccept m;
  ro_ok : e = None -> sm_highestStreamOpenedByPeer m' = id /\ sm_openStreams m' = sm_openStreams m ++ [id] /\
    sm_numIncomingStreams m < GetMaxIncomingStreams params;
  ro_err : e <> None -> m' = m;
}.

Lemma openRemoteStream_opens params m w id m' w' e :
  sm_inv m -> 0 < id < 2 ^ 32 -> id mod 2 = peerParity (sm_perspective m) -> sm_highestStreamOpenedByPeer m < id ->
  openRemoteStream newStream params m w id = (m', w', e) -> remote_opened params m id m' e.
Proof.
  intros I Hid Hp Hh. unfold openRemoteStream. case_match eqn:E1; [by intros [= <- <- <-]|].
  case_match eqn:E2; [by intros [= <- <- <-]|].
  assert (Hfresh : if decide (id mod 2 = peerParity (sm_perspective m)) then sm_highestStreamOpenedByPeer m < id <= id
    else sm_nextStream m <= id < sm_nextStream m) by (rewrite decide_True by done; lia).
  pose proof (fresh_not_open m id _ _ I Hfresh) as Hnew.
  pose proof (fresh_count m id 0 I Hnew Hid) as Hc0. pose proof (fresh_count m id 1 I Hnew Hid) as Hc1.
  rewrite <- (smi_out _ I) in Hc0. rewrite <- (smi_in _ I) in Hc1.
  destruct (newStream id w) as [w1 s] eqn:Ew.
  assert (Hnone : sm_streams m !! id = None).
  { destruct (sm_streams m !! id) eqn:E; [|done]. exfalso. apply Hnew, (smi_dom _ I). by rewrite E. }
  pose proof (smi_next _ I). pose proof (smi_highest _ I).
  pose proof (open_inv m id s (sm_nextStream m) id (sm_nextStreamToAccept m) I Hid ltac:(lia) eq_refl ltac:(lia)
    (or_intror Hp) Hfresh) as HI.
  set (m1 := putStream _ id s) in HI.
  assert (Heq : remote_opened params m id m1 None).
  { unfold m1 in *. clear m1. unfold putStream in *. cbn in *. rewrite Hnone in *. split; try done.
    intros _. repeat split; try done. rewrite Z.geb_leb in E1. by apply Z.leb_gt in E1. }
  destruct (sm_perspective m) eqn:Ep; cbn [peerParity] in Hp; unfold m1 in Heq; rewrite Hp in Heq; cbn in Heq |- *;
    rewrite Z.gtb_ltb, (proj2 (Z.ltb_lt _ _)) by done; rewrite u32_within by lia; rewrite ?Z.add_0_r in Heq;
    intros [= <- <- <-]; by apply Heq.
Qed.

(** [n] stream IDs of the same parity from [sid] on. *)
Definition ids_from (sid : Z) (n : nat) : list Z := map (fun k => sid + 2 * Z.of_nat k) (seq 0 n).

Lemma ids_from_S sid n : ids_from sid (Datatypes.S n) = sid :: ids_from (sid + 2) n.
Proof.
  unfold ids_from. cbn. f_equal; [lia|]. rewrite <- seq_shift, map_map. apply map_ext. intros k. lia.
Qed.

(** The loop opens consecutive streams, up to the one asked for or up to the first
    error. *)
Record remote_opened_upto (params : P) m (sid id : Z) m' (e : option error) (n : nat) : Prop := {
  ru_inv : sm_inv m';
  ru_perspective : sm_perspective m' = sm_perspective m;
  ru_next : sm_nextStream m' = sm_nextStream m;
  ru_closeErr : sm_closeErr m' = sm_closeErr m;
  ru_accept : sm_nextStreamToAccept m' = sm_nextStreamToAccept m;
  ru_open : sm_openStreams m' = sm_openStreams m ++ ids_from sid n;
  ru_highest : sm_highestStreamOpenedByPeer m' = if decide (n = O) then sm_highestStreamOpenedByPeer m
                                                else sid + 2 * Z.of_nat n - 2;
  ru_reached : sid + 2 * Z.of_nat n - 2 <= Z.max (sid - 2) id;
  ru_ok : e = None -> id < sid + 2 * Z.of_nat n;
}.

(** At the end of the 32 bit range [sid += 2] wraps around; the stream that is opened next is then refused. *)
Lemma wrapped_refused params m w sid : 0 <= sid <= 1 -> 2 ^ 32 - 2 <= sm_highestStreamOpenedByPeer m ->
  exists e, openRemoteStream newStream params m w sid = (m, w, Some e).
Proof.
  intros Hs Hh. unfold openRemoteStream. case_match; [by eexists|].
  unfold MaxNewStreamIDDelta, MaxStreamsPerConnection. rewrite u32_within by lia.
  rewrite (proj2 (Z.ltb_lt _ _)) by lia. by eexists.
Qed.

Lemma openUpTo_wrapped fuel params m w sid id : sid < 2 ^ 32 -> 2 ^ 32 <= sid + 2 -> sid <= id ->
  sm_highestStreamOpenedByPeer m = sid ->
  openUpTo newStream fuel params m w (u32 (sid + 2)) id = None /\ fuel = O \/
  exists e, openUpTo newStream fuel params m w (u32 (sid + 2)) id = Some (m, w, Some e).
Proof.
  intros Hs Hw Hid Hh. assert (Hu : u32 (sid + 2) = sid + 2 - 2 ^ 32).
  { unfold u32, wrap. rewrite <- (Z.mod_small (sid + 2 - 2 ^ 32) (2 ^ 32)) by lia. by rewrite Zminus_mod, Z_mod_same_full, Z.sub_0_r, Zmod_mod. }
  rewrite Hu. destruct fuel as [|fuel]; [by left|right]. cbn [openUpTo]. rewrite (proj2 (Z.leb_le _ _)) by lia.
  destruct (wrapped_refused params m w (sid + 2 - 2 ^ 32)) as [e ->]; [lia|lia|by eexists].
Qed.

Lemma openUpTo_opens fuel params m w sid id m' w' e :
  sm_inv m -> 0 < sid < 2 ^ 32 -> id < 2 ^ 32 -> sid mod 2 = peerParity (sm_perspective m) ->
  sm_highestStreamOpenedByPeer m < sid ->
  openUpTo newStream fuel params m w sid id = Some (m', w', e) ->
  exists n, remote_opened_upto params m sid id m' e n.
Proof.
  revert m w sid. induction fuel as [|fuel IH]; intros m w sid I Hsid Hid Hp Hh; [done|]. cbn [openUpTo].
  destruct (sid <=? id) eqn:E; [|intros [= <- <- <-]; exists O; split; cbn; rewrite ?app_nil_r; try done; lia].
  destruct (openRemoteStream newStream params m w sid) as [[m1 w1] e1] eqn:E1.
  pose proof (openRemoteStream_opens params m w sid m1 w1 e1 I Hsid Hp Hh E1) as [R1 R2 R3 R4 R5 R6 R7].
  destruct e1 as [e1|].
  - intros [= <- <- <-]. rewrite R7 in * by done. exists O. split; cbn; rewrite ?app_nil_r; try done. lia.
  - destruct (R6 eq_refl) as (H1 & H2 & _). apply Z.leb_le in E. destruct (Z.le_gt_cases (2 ^ 32) (sid + 2)) as [Hwr|Hwr].
    { destruct (openUpTo_wrapped fuel params m1 w1 sid id ltac:(lia) Hwr E H1) as [[-> _]|[e2 ->]]; [done|].
      intros [= <- <- <-]. exists 1%nat. split; try done; try lia.
      - rewrite H2. unfold ids_from. cbn. by rewrite Z.add_0_r.
      - rewrite decide_False by done. lia. }
    rewrite u32_within by lia. intros Hloop.
    destruct (IH m1 w1 (sid + 2)) as [n [U1 U2 U3 U4 U5 U6 U7 U8 U9]]; try done; try lia.
    { by rewrite R2, mod2_add2. }
    exists (Datatypes.S n). split; try done; try congruence; try lia.
    + rewrite U6, H2, ids_from_S, <- app_assoc. done.
    + rewrite U7, H1. destruct n; cbn [decide]; rewrite ?decide_True, ?decide_False by done; lia.
    + intros He. specialize (U9 He). lia.
Qed.

(** ** Every operation preserves the consistency *)

Lemma firstToOpen_ok m : sm_inv m -> sm_highestStreamOpenedByPeer m < 2 ^ 32 - 2 ->
  0 < firstToOpen m < 2 ^ 32 /\ firstToOpen m mod 2 = peerParity (sm_perspective m) /\
  sm_highestStreamOpenedByPeer m < firstToOpen m <= sm_highestStreamOpenedByPeer m + 2.
Proof.
  intros I Hlt. pose proof (smi_highest _ I) as [Hh Hp]. unfold firstToOpen. rewrite u32_within by lia.
  destruct (sm_perspective m) eqn:Ep; cbn [peerParity] in *.
  - destruct (_ =? _) eqn:E; bool_to_prop; [split_and!; try reflexivity; lia|].
    rewrite mod2_add2. destruct Hp as [Hp|Hp]; lia.
  - rewrite mod2_add2. destruct Hp as [Hp|Hp]; [rewrite Hp; split_and!; try reflexivity|]; lia.
Qed.

(** A stream ID that is not refused is above those the peer opened. *)
Lemma refuse_None m id : sm_inv m -> refuseStream m id = None ->
  id mod 2 = peerParity (sm_perspective m) /\ sm_highestStreamOpenedByPeer m < id.
Proof.
  intros I. unfold refuseStream. destruct (sm_perspective m); cbn [peerParity]; repeat case_match; try done; intros _;
    bool_to_prop; destruct (mod2 id); lia.
Qed.

Lemma below_highest m id : sm_inv m -> id < 2 ^ 32 -> id mod 2 = peerParity (sm_perspective m) ->
  sm_highestStreamOpenedByPeer m < id -> sm_highestStreamOpenedByPeer m < 2 ^ 32 - 2.
Proof.
  intros I Hid Hp Hlt. destruct (smi_highest _ I) as [Hh [Hz|Hm]]; [lia|].
  destruct (Z.eq_dec id (sm_highestStreamOpenedByPeer m + 1)) as [->|]; [|lia]. exfalso.
  rewrite Zplus_mod, Hm in Hp. by destruct (sm_perspective m).
Qed.

Lemma GetOrOpenStream_inv fuel params m w id m' w' g :
  sm_inv m -> id < 2 ^ 32 -> GetOrOpenStream newStream fuel params m w id = Some (m', w', g) ->
  sm_inv m' /\ sm_perspective m' = sm_perspective m.
Proof.
  intros I Hid. unfold GetOrOpenStream. case_match; [by intros [= <- <- <-]|].
  case_match eqn:Er; [by intros [= <- <- <-]|]. destruct (refuse_None m id I Er) as [Hpar Hlt].
  destruct (openUpTo _ _ _ _ _ _ _) as [[[m1 w1] e]|] eqn:E; [|done].
  destruct (firstToOpen_ok m I (below_highest m id I Hid Hpar Hlt)) as (H1 & H2 & H3).
  destruct (openUpTo_opens fuel params m w (firstToOpen m) id m1 w1 e I H1 Hid H2 ltac:(lia) E) as [n [U1 U2 _]].
  destruct e; intros [= <- <- <-]; done.
Qed.

Lemma openStreamImpl_inv params m w m' w' g :
  sm_inv m -> sm_nextStream m < 2 ^ 32 - 2 -> openStreamImpl newStream params m w = (m', w', g) ->
  sm_inv m' /\ sm_perspective m' = sm_perspective m /\
  (forall id, g = GotStream id -> id = sm_nextStream m /\ sm_openStreams m' = sm_openStreams m ++ [id] /\
     sm_nextStream m' = sm_nextStream m + 2 /\ sm_numOutgoingStreams m < GetMaxOutgoingStreams params) /\
  (forall e, g = GotErr e -> m' = m).
Proof.
  intros I Hlt. unfold openStreamImpl. case_match eqn:E1; [by intros [= <- <- <-]|].
  destruct (newStream _ w) as [w1 s] eqn:Ew. pose proof (smi_next _ I) as [Hn Hnp]. pose proof (smi_highest _ I) as [Hh Hhp].
  set (id := sm_nextStream m) in *.
  assert (Hfresh : if decide (id mod 2 = peerParity (sm_perspective m))
    then sm_highestStreamOpenedByPeer m < id <= sm_highestStreamOpenedByPeer m
    else sm_nextStream m <= id < id + 2) by (rewrite decide_False by done; fold id; lia).
  pose proof (fresh_not_open m id _ _ I Hfresh) as Hnew.
  pose proof (fresh_count m id 0 I Hnew ltac:(lia)) as Hc0. pose proof (fresh_count m id 1 I Hnew ltac:(lia)) as Hc1.
  rewrite <- (smi_out _ I) in Hc0. rewrite <- (smi_in _ I) in Hc1.
  assert (Hnone : sm_streams m !! id = None).
  { destruct (sm_streams m !! id) eqn:E; [|done]. exfalso. apply Hnew, (smi_dom _ I). by rewrite E. }
  pose proof (open_inv m id s (id + 2) (sm_highestStreamOpenedByPeer m) (sm_nextStreamToAccept m) I ltac:(lia)
    ltac:(fold id; lia) (mod2_add2 id) ltac:(lia) Hhp Hfresh) as HI.
  rewrite Z.geb_leb in E1. apply Z.leb_gt in E1. unfold putStream in *. cbn in HI. rewrite Hnone in HI.
  destruct (sm_perspective m) eqn:Ep; cbn [peerParity] in Hnp;
    destruct (mod2 id) as [E|E]; rewrite E in *; try done; cbn in HI |- *; fold id; rewrite Hnone;
    rewrite !u32_within by lia; rewrite ?Z.add_0_r in HI; intros [= <- <- <-];
    (split; [done|]); (split; [done|]); split; try done; intros x [= <-]; done.
Qed.

Lemma AcceptStream_inv m : sm_inv m -> sm_inv (AcceptStream m).1.
Proof. intros []. unfold AcceptStream. repeat case_match; split; done. Qed.

Lemma update_inv m streams : sm_inv m -> (forall id, is_Some (streams !! id) <-> is_Some (sm_streams m !! id)) ->
  sm_inv (sm_set_streams m streams (sm_openStreams m)).
Proof. intros [] Hs. split; try done. cbn. intros id. by rewrite Hs. Qed.

Lemma open_counts m r : sm_inv m -> 0 <= count_parity r (sm_openStreams m) < 2 ^ 32.
Proof.
  intros I. assert (Hl : zlen (sm_openStreams m) < 2 ^ 32).
  { apply nodup_range_length; [lia|apply (smi_nodup _ I)|]. intros x. by apply inv_ids. }
  unfold count_parity, zlen in *. pose proof (filter_length_le (fun id => id mod 2 =? r) (sm_openStreams m)). lia.
Qed.

Lemma RemoveStream_inv m id : sm_inv m ->
  sm_inv (sm_RemoveStream m id).1 /\ sm_perspective (sm_RemoveStream m id).1 = sm_perspective m /\
  sm_nextStream (sm_RemoveStream m id).1 = sm_nextStream m /\
  sm_highestStreamOpenedByPeer (sm_RemoveStream m id).1 = sm_highestStreamOpenedByPeer m /\
  (forall r, count_parity r (sm_openStreams (sm_RemoveStream m id).1) <= count_parity r (sm_openStreams m)).
Proof.
  intros I. pose proof I as [Hd Hdom Ho Hi Hown Hpeer Hnx Hhi Hix]. unfold sm_RemoveStream.
  destruct (sm_streams m !! id) as [s|] eqn:E; [|by split_and!].
  assert (Hin : id ∈ sm_openStreams m) by (apply Hdom; by rewrite E).
  set (m1 := if id mod 2 =? 0 then _ else _).
  assert (Hm1 : sm_openStreams m1 = sm_openStreams m /\ sm_streams m1 = sm_streams m /\
    sm_roundRobinIndex m1 = sm_roundRobinIndex m /\ sm_nextStream m1 = sm_nextStream m /\
    sm_highestStreamOpenedByPeer m1 = sm_highestStreamOpenedByPeer m /\ sm_perspective m1 = sm_perspective m)
    by (unfold m1; by case_match).
  destruct Hm1 as (E1 & E2 & E3 & E4 & E5 & E6). rewrite E1.
  destruct (indexOf id (sm_openStreams m)) as [i|] eqn:Ei; [|by apply indexOf_None in Ei].
  destruct (indexOf_Some _ _ _ Ei) as [_ Hsplit]. set (k := take i (sm_openStreams m) ++ drop (Datatypes.S i) (sm_openStreams m)).
  assert (Hperm : sm_openStreams m ≡ₚ id :: k) by (rewrite Hsplit at 1; unfold k; by rewrite Permutation_middle).
  assert (Hk : NoDup (id :: k)) by (by rewrite <- Hperm). apply list.NoDup_cons in Hk as [Hnk Hk].
  assert (Hcnt : forall r, count_parity r (sm_openStreams m) = (if id mod 2 =? r then 1 else 0) + count_parity r k).
  { intros r. rewrite Hsplit at 1. unfold k. rewrite !count_parity_app. change (id :: ?l) with ([id] ++ l).
    rewrite count_parity_app, count_parity_one. lia. }
  assert (Hmem : forall x, x ∈ k <-> x ∈ sm_openStreams m /\ x <> id).
  { intros x. rewrite Hperm, elem_of_cons. split; [intros Hx; split; [by right|intros ->; done]|by intros [[?|?] ?]]. }
  set (m2 := if _ <? _ then _ else _).
  assert (Hm2 : sm_openStreams m2 = k /\ sm_streams m2 = sm_streams m /\ 0 <= sm_roundRobinIndex m2 < 2 ^ 32 /\
    sm_nextStream m2 = sm_nextStream m /\ sm_highestStreamOpenedByPeer m2 = sm_highestStreamOpenedByPeer m /\
    sm_perspective m2 = sm_perspective m /\ sm_numOutgoingStreams m2 = sm_numOutgoingStreams m1 /\
    sm_numIncomingStreams m2 = sm_numIncomingStreams m1).
  { unfold m2. case_match; cbn; rewrite ?E2, ?E3, ?E4, ?E5, ?E6; split_and!; try done; try lia;
      unfold u32, wrap; pose proof (Z.mod_pos_bound (sm_roundRobinIndex m1 - 1) (2 ^ 32)); rewrite ?E3 in *; lia. }
  destruct Hm2 as (F1 & F2 & F3 & F4 & F5 & F6 & F7 & F8).
  pose proof (open_counts m 0 I) as B0. pose proof (open_counts m 1 I) as B1.
  pose proof (Hcnt 0) as C0. pose proof (Hcnt 1) as C1.
  pose proof (count_parity_nonneg 0 k). pose proof (count_parity_nonneg 1 k).
  cbn [fst]. split; [|cbn; rewrite F1, F4, F5, F6; split_and!; try done; intros r; specialize (Hcnt r); destruct (id mod 2 =? r); lia].
  split; cbn; rewrite ?F1, ?F2, ?F4, ?F5, ?F6, ?F7, ?F8; try done.
  - intros x. rewrite Hmem, Hdom. destruct (decide (x = id)) as [->|Hx].
    + rewrite lookup_delete, decide_True by done. split; [by intros [_ ?]|by intros [? ?]].
    + rewrite lookup_delete_ne by done. split; [by intros [? _]|by split].
  - unfold m1. destruct (mod2 id) as [Em|Em]; rewrite Em in *; cbn in *; rewrite ?u32_within; lia.
  - unfold m1. destruct (mod2 id) as [Em|Em]; rewrite Em in *; cbn in *; rewrite ?u32_within; lia.
  - intros x [Hx _]%Hmem. by apply Hown.
  - intros x [Hx _]%Hmem. by apply Hpeer.
Qed.

Lemma cancelAll_dom Cancel (streams streams' : gmap Z S) ids :
  cancelAll Cancel streams ids = Ok streams' -> forall id, is_Some (streams' !! id) <-> is_Some (streams !! id).
Proof.
  revert streams. induction ids as [|x ids IH]; intros streams; cbn; [by intros [= <-]|].
  destruct (streams !! x) as [s|] eqn:E; [|done]. intros Hc id. rewrite (IH _ Hc id).
  destruct (decide (id = x)) as [->|Hx].
  - rewrite lookup_insert, decide_True, E by done. done.
  - by rewrite lookup_insert_ne by done.
Qed.

Lemma cancelAll_total Cancel (streams : gmap Z S) ids :
  Forall (fun id => is_Some (streams !! id)) ids -> exists streams', cancelAll Cancel streams ids = Ok streams'.
Proof.
  revert streams. induction ids as [|x ids IH]; intros streams Hf; cbn; [by eauto|]. inversion_clear Hf as [|? ? Hx Hr].
  destruct Hx as [s ->]. apply IH. revert Hr. apply Forall_impl. intros y [s' Hy].
  destruct (decide (y = x)) as [->|Hyx]; [rewrite lookup_insert, decide_True by done; by eauto|].
  rewrite lookup_insert_ne by done. by eauto.
Qed.

(** ** Runs *)

(** The maps an endpoint reaches with fixed connection parameters, whatever stream IDs
    the frames of the peer carry; the streams the endpoint opens itself stay two below the end of the 32 bit range. *)
Inductive sm_reach (params : P) (pers : Perspective) : streamsMap S -> Prop :=
| smr_new : sm_reach params pers (newStreamsMap pers)
| smr_get m w fuel id m' w' g :
    sm_reach params pers m -> id < 2 ^ 32 ->
    GetOrOpenStream newStream fuel params m w id = Some (m', w', g) -> sm_reach params pers m'
| smr_open m w m' w' g :
    sm_reach params pers m -> sm_nextStream m < 2 ^ 32 - 2 ->
    OpenStream newStream params m w = (m', w', g) -> sm_reach params pers m'
| smr_opensync m w m' w' g :
    sm_reach params pers m -> sm_nextStream m < 2 ^ 32 - 2 ->
    OpenStreamSync newStream params m w = (m', w', g) -> sm_reach params pers m'
| smr_accept m : sm_reach params pers m -> sm_reach params pers (AcceptStream m).1
| smr_remove m id : sm_reach params pers m -> sm_reach params pers (sm_RemoveStream m id).1
| smr_close m Cancel e m' :
    sm_reach params pers m -> CloseWithError Cancel m e = Ok m' -> sm_reach params pers m'
| smr_update m f id :
    sm_reach params pers m -> sm_reach params pers (sm_set_streams m (alter f id (sm_streams m)) (sm_openStreams m))
| smr_index m i : sm_reach params pers m -> 0 <= i < 2 ^ 32 -> sm_reach params pers (sm_set_index m i).

Lemma OpenStream_inv params m w m' w' g :
  sm_inv m -> sm_nextStream m < 2 ^ 32 - 2 -> OpenStream newStream params m w = (m', w', g) ->
  sm_inv m' /\ sm_perspective m' = sm_perspective m.
Proof.
  intros I Hn. unfold OpenStream. case_match; [by intros [= <- <- <-]|]. intros E.
  by destruct (openStreamImpl_inv params m w m' w' g I Hn E) as (? & ? & _).
Qed.

Lemma OpenStreamSync_inv params m w m' w' g :
  sm_inv m -> sm_nextStream m < 2 ^ 32 - 2 -> OpenStreamSync newStream params m w = (m', w', g) ->
  sm_inv m' /\ sm_perspective m' = sm_perspective m.
Proof.
  intros I Hn. unfold OpenStreamSync. case_match; [by intros [= <- <- <-]|].
  destruct (openStreamImpl newStream params m w) as [[m1 w1] g1] eqn:E.
  destruct (openStreamImpl_inv params m w m1 w1 g1 I Hn E) as (? & ? & _). repeat case_match; by intros [= <- <- <-].
Qed.

Lemma sm_reach_inv params pers m : sm_reach params pers m -> sm_inv m /\ sm_perspective m = pers.
Proof.
  induction 1 as [|m w fuel id m' w' g _ [I E] Hid Hg|m w m' w' g _ [I E] Hn Ho|m w m' w' g _ [I E] Hn Ho|m _ [I E]
    |m id _ [I E]|m Cancel e m' _ [I E] Hc|m f id _ [I E]|m i _ [I E] Hi].
  - split; [apply new_sm_inv|by destruct pers].
  - destruct (GetOrOpenStream_inv fuel params m w id m' w' g I Hid Hg). by split; [|congruence].
  - destruct (OpenStream_inv params m w m' w' g I Hn Ho). by split; [|congruence].
  - destruct (OpenStreamSync_inv params m w m' w' g I Hn Ho). by split; [|congruence].
  - split; [by apply AcceptStream_inv|]. unfold AcceptStream. by repeat case_match.
  - destruct (RemoveStream_inv m id I) as (? & ? & _). by split; [|congruence].
  - unfold CloseWithError in Hc. destruct (cancelAll _ _ _) as [streams| |] eqn:Ec; [|done..]. injection Hc as <-.
    split; [|done]. pose proof (update_inv m streams I (cancelAll_dom _ _ _ _ Ec)) as []. by split.
  - split; [|done]. apply update_inv; [done|]. intros x. rewrite lookup_alter. case_decide; [|done].
    subst. by rewrite fmap_is_Some.
  - split; [|done]. destruct I. by split.
Qed.

(** C8: in every state a client's or a server's map reaches, the slice of open
    streams lists exactly the streams of the map, each once; the counters are the
    numbers of open streams with odd and with even IDs; a stream of the endpoint's
    own lies below the next one it will open and one of the peer's not above the
    highest the peer opened; so that closing the map with an error never follows a
    nil pointer. *)
Theorem streams_map_consistent params pers m Cancel e :
  sm_reach params pers m ->
  NoDup (sm_openStreams m) /\ (forall id, id ∈ sm_openStreams m <-> is_Some (sm_streams m !! id)) /\
  sm_numOutgoingStreams m = count_parity 0 (sm_openStreams m) /\
  sm_numIncomingStreams m = count_parity 1 (sm_openStreams m) /\
  (forall id, id ∈ sm_openStreams m ->
     if decide (id mod 2 = peerParity pers) then 0 < id <= sm_highestStreamOpenedByPeer m
     else 0 < id < sm_nextStream m) /\
  exists m', CloseWithError Cancel m e = Ok m' /\ sm_closeErr m' = Some e.
Proof.
  intros [I <-]%sm_reach_inv. pose proof I as [Hd Hdom Ho Hi Hown Hpeer _ _ _]. split_and!; try done.
  - intros id Hid. case_decide; [by apply Hpeer|by apply Hown].
  - unfold CloseWithError. destruct (cancelAll_total Cancel (sm_streams m) (sm_openStreams m)) as [streams ->].
    + apply list.Forall_forall. intros id Hid. by apply Hdom.
    + by eexists.
Qed.

(** ** The limits of a server *)

Lemma opened_counts m m' id r : sm_openStreams m' = sm_openStreams m ++ [id] ->
  count_parity r (sm_openStreams m') = count_parity r (sm_openStreams m) + (if id mod 2 =? r then 1 else 0).
Proof. intros ->. by rewrite count_parity_app, count_parity_one. Qed.

(** On a server the loop keeps the limit, and ends after as many streams as the
    limit allows. *)
Lemma openUpTo_server fuel params m w sid id :
  sm_inv m -> sm_perspective m = PerspectiveServer -> 0 < sid < 2 ^ 32 -> id < 2 ^ 32 -> sid mod 2 = 1 ->
  sm_highestStreamOpenedByPeer m < sid -> count_parity 1 (sm_openStreams m) <= Z.max 0 (GetMaxIncomingStreams params) ->
  match openUpTo newStream fuel params m w sid id with
  | Some (m', w', e) => count_parity 1 (sm_openStreams m') <= Z.max 0 (GetMaxIncomingStreams params) /\
      count_parity 0 (sm_openStreams m') = count_parity 0 (sm_openStreams m)
  | None => (fuel <= Z.to_nat (GetMaxIncomingStreams params - sm_numIncomingStreams m))%nat
  end.
Proof.
  revert m w sid. induction fuel as [|fuel IH]; intros m w sid I Ep Hsid Hid Hp Hh Hc; cbn [openUpTo]; [lia|].
  destruct (sid <=? id) eqn:E; [|done]. apply Z.leb_le in E.
  destruct (openRemoteStream newStream params m w sid) as [[m1 w1] e1] eqn:E1.
  assert (Hp' : sid mod 2 = peerParity (sm_perspective m)) by by rewrite Ep.
  pose proof (openRemoteStream_opens params m w sid m1 w1 e1 I Hsid Hp' Hh E1) as [R1 R2 R3 R4 R5 R6 R7].
  destruct e1 as [e1|]; [by rewrite R7|]. destruct (R6 eq_refl) as (H1 & H2 & H3).
  pose proof (opened_counts m m1 sid 0 H2) as C0. pose proof (opened_counts m m1 sid 1 H2) as C1.
  rewrite Hp in C0, C1. cbn in C0, C1. pose proof (smi_in _ I) as Hi. pose proof (smi_in _ R1) as Hi1.
  destruct (Z.le_gt_cases (2 ^ 32) (sid + 2)) as [Hwr|Hwr].
  { destruct (openUpTo_wrapped fuel params m1 w1 sid id ltac:(lia) Hwr E H1) as [[-> ->]|[e2 ->]]; lia. }
  rewrite u32_within by lia. specialize (IH m1 w1 (sid + 2) R1 ltac:(congruence) ltac:(lia) Hid
    ltac:(by rewrite mod2_add2) ltac:(lia) ltac:(lia)).
  destruct (openUpTo newStream fuel params m1 w1 (sid + 2) id) as [[[m' w'] e]|]; lia.
Qed.

(** How a lookup ends: with the stream, with nil for a stream that was closed or
    that the endpoint has not opened, or with an error. *)
Definition lookup_result m m' (id : Z) (g : got) : Prop :=
  match g with
  | GotStream i => i = id /\ is_Some (sm_streams m' !! id)
  | GotNil => m' = m /\ sm_streams m !! id = None
  | GotErr _ => sm_streams m !! id = None
  end.

Lemma elem_of_ids_from x sid n : x ∈ ids_from sid n <-> exists k, (k < n)%nat /\ x = sid + 2 * Z.of_nat k.
Proof.
  unfold ids_from. rewrite list_elem_of_In, in_map_iff. split.
  - intros (k & <- & Hk). apply in_seq in Hk. exists k. split; [lia|done].
  - intros (k & Hk & ->). exists k. split; [done|]. apply in_seq. lia.
Qed.

Lemma firstToOpen_le m id : sm_inv m -> id < 2 ^ 32 ->
  id mod 2 = peerParity (sm_perspective m) -> sm_highestStreamOpenedByPeer m < id -> firstToOpen m <= id.
Proof.
  intros I Hid Hpar Hlt. pose proof (smi_highest _ I) as [Hh Hhp]. pose proof (below_highest m id I Hid Hpar Hlt).
  unfold firstToOpen. rewrite u32_within by lia.
  assert (Hne : sm_highestStreamOpenedByPeer m <> 0 \/ sm_perspective m = PerspectiveClient ->
    id <> sm_highestStreamOpenedByPeer m + 1).
  { intros Hc ->. rewrite Zplus_mod in Hpar. destruct Hhp as [Hhp|Hhp]; [|rewrite Hhp in Hpar; by destruct (sm_perspective m)].
    destruct Hc as [Hc|Hc]; [lia|]. rewrite Hhp, Hc in Hpar. done. }
  destruct (sm_perspective m); [|specialize (Hne (or_intror eq_refl)); lia].
  destruct (_ =? _) eqn:E; bool_to_prop; [lia|]. assert (id <> sm_highestStreamOpenedByPeer m + 1); [|lia].
  apply Hne. left. lia.
Qed.

Lemma GetOrOpenStream_result fuel params m w id m' w' g :
  sm_inv m -> id < 2 ^ 32 -> GetOrOpenStream newStream fuel params m w id = Some (m', w', g) ->
  lookup_result m m' id g.
Proof.
  intros I Hid. unfold GetOrOpenStream. destruct (sm_streams m !! id) as [s|] eqn:Es; [intros [= <- <- <-]; cbn; by rewrite Es|].
  destruct (refuseStream m id) as [g'|] eqn:Er.
  { intros [= <- <- <-]. revert Er. unfold refuseStream. repeat case_match; intros [= <-]; done. }
  destruct (refuse_None m id I Er) as [Hpar Hlt]. destruct (firstToOpen_ok m I (below_highest m id I Hid Hpar Hlt)) as (H1 & H2 & H3).
  destruct (openUpTo _ _ _ _ _ _ _) as [[[m1 w1] e]|] eqn:E; [|done].
  destruct (openUpTo_opens fuel params m w (firstToOpen m) id m1 w1 e I H1 Hid H2 ltac:(lia) E) as
    [n [U1 _ _ _ _ U6 _ U8 U9]].
  destruct e as [e|]; intros [= <- <- <-]; [done|]. specialize (U9 eq_refl).
  assert (Hin : id ∈ sm_openStreams m1).
  { rewrite U6, elem_of_app, elem_of_ids_from. right. exists (Z.to_nat ((id - firstToOpen m) / 2)).
    pose proof (Z.div_mod (id - firstToOpen m) 2 ltac:(lia)) as Hdm.
    rewrite (Zminus_mod id), Hpar, H2, Z.sub_diag in Hdm. change (0 mod 2) with 0 in Hdm.
    pose proof (firstToOpen_le m id I ltac:(lia) Hpar Hlt).
    rewrite Z2Nat.id by (apply Z.div_pos; lia). split; [|lia].
    apply Nat2Z.inj_lt. rewrite Z2Nat.id by (apply Z.div_pos; lia). lia. }
  pose proof (proj1 (smi_dom _ U1 id) Hin) as [s' Hs']. rewrite Hs'. cbn. by rewrite Hs'.
Qed.

(** The limits, as an invariant of a server's map. *)
Definition within_limits (params : P) m : Prop :=
  count_parity 1 (sm_openStreams m) <= Z.max 0 (GetMaxIncomingStreams params) /\
  count_parity 0 (sm_openStreams m) <= Z.max 0 (GetMaxOutgoingStreams params).

Lemma GetOrOpenStream_limits fuel params m w id :
  sm_inv m -> sm_perspective m = PerspectiveServer -> within_limits params m -> id < 2 ^ 32 ->
  match GetOrOpenStream newStream fuel params m w id with
  | Some (m', _, _) => within_limits params m'
  | None => (fuel <= Z.to_nat (GetMaxIncomingStreams params))%nat
  end.
Proof.
  intros I Ep [L1 L0] Hid. unfold GetOrOpenStream.
  destruct (sm_streams m !! id); [by split|]. destruct (refuseStream m id) eqn:Er; [by split|].
  destruct (refuse_None m id I Er) as [Hpar Hlt]. destruct (firstToOpen_ok m I (below_highest m id I Hid Hpar Hlt)) as (H1 & H2 & H3).
  rewrite Ep in H2. pose proof (openUpTo_server fuel params m w (firstToOpen m) id I Ep H1 Hid H2 ltac:(lia) L1) as Hs.
  pose proof (smi_in _ I). pose proof (count_parity_nonneg 1 (sm_openStreams m)).
  destruct (openUpTo _ _ _ _ _ _ _) as [[[m' w'] [e|]]|]; [..|lia]; unfold within_limits; lia.
Qed.

Lemma openStreamImpl_limits params m w m' w' g :
  sm_inv m -> sm_perspective m = PerspectiveServer -> sm_nextStream m < 2 ^ 32 - 2 -> within_limits params m ->
  openStreamImpl newStream params m w = (m', w', g) -> within_limits params m'.
Proof.
  intros I Ep Hn [L1 L0] E. destruct (openStreamImpl_inv params m w m' w' g I Hn E) as (I' & _ & Hs & He).
  destruct g as [id| |e]; [|revert E; unfold openStreamImpl; case_match; [by intros [=]|];
    destruct (newStream _ _); by intros [=]|by rewrite (He e)].
  destruct (Hs id eq_refl) as (-> & Ho & _ & Hlt). pose proof (smi_next _ I) as [_ Hp]. rewrite Ep in Hp. cbn in Hp.
  pose proof (opened_counts m m' _ 0 Ho) as C0. pose proof (opened_counts m m' _ 1 Ho) as C1.
  pose proof (smi_out _ I). destruct (mod2 (sm_nextStream m)) as [E2|E2]; [|done]. rewrite E2 in C0, C1. cbn in C0, C1.
  split; lia.
Qed.

Lemma reach_limits params m : sm_reach params PerspectiveServer m -> within_limits params m.
Proof.
  induction 1 as [|m w fuel id m' w' g Hr L Hid Hg|m w m' w' g Hr L Hn Ho|m w m' w' g Hr L Hn Ho|m Hr L
    |m id Hr L|m Cancel e m' Hr L Hc|m f id Hr L|m i Hr L Hi];
    try (destruct (sm_reach_inv params PerspectiveServer m Hr) as [I Ep]).
  - unfold within_limits, count_parity, zlen. cbn. lia.
  - pose proof (GetOrOpenStream_limits fuel params m w id I Ep L Hid) as HL. by rewrite Hg in HL.
  - revert Ho. unfold OpenStream. case_match; [by intros [= <- <- <-]|]. by apply openStreamImpl_limits.
  - revert Ho. unfold OpenStreamSync. case_match; [by intros [= <- <- <-]|].
    destruct (openStreamImpl newStream params m w) as [[m1 w1] g1] eqn:E.
    pose proof (openStreamImpl_limits params m w m1 w1 g1 I Ep Hn L E). repeat case_match; by intros [= <- <- <-].
  - unfold AcceptStream. by repeat case_match.
  - destruct (RemoveStream_inv m id I) as (_ & _ & _ & _ & Hle). destruct L. split; [pose proof (Hle 1)|pose proof (Hle 0)]; lia.
  - unfold CloseWithError in Hc. destruct (cancelAll _ _ _); [|done..]. by injection Hc as <-.
  - done.
  - done.
Qed.

(** C9: looking up a stream on a server returns, for every stream ID a frame can
    carry, also at the end of the 32 bit range, where the ID of the loop wraps around: the loop that opens the streams below it, which the code bounds by nothing
    but the ID, ends after at most as many streams as the connection parameters
    allow; the caller gets the stream, nil for a stream that is closed or not opened,
    or an error; and the limits on the open streams of both directions hold before
    and after. *)
Theorem server_GetOrOpenStream params m w id fuel :
  sm_reach params PerspectiveServer m -> id < 2 ^ 32 -> (Z.to_nat (GetMaxIncomingStreams params) < fuel)%nat ->
  exists m' w' g, GetOrOpenStream newStream fuel params m w id = Some (m', w', g) /\ lookup_result m m' id g /\
    within_limits params m /\ within_limits params m'.
Proof.
  intros Hr Hid Hf. destruct (sm_reach_inv _ _ _ Hr) as [I Ep]. pose proof (reach_limits params m Hr) as L.
  pose proof (GetOrOpenStream_limits fuel params m w id I Ep L Hid) as HL.
  destruct (GetOrOpenStream newStream fuel params m w id) as [[[m' w'] g]|] eqn:E; [|lia].
  exists m', w', g. split; [done|]. split; [by apply (GetOrOpenStream_result fuel params m w id m' w' g I Hid E)|done].
Qed.

(** ** A client enforces no limit on the streams of its peer *)

Lemma client_open_ok params m w sid :
  sm_perspective m = PerspectiveClient -> sm_numIncomingStreams m < GetMaxIncomingStreams params ->
  0 < sid < 2 ^ 32 - 400 -> sm_highestStreamOpenedByPeer m < sid ->
  exists m' w', openRemoteStream newStream params m w sid = (m', w', None).
Proof.
  intros Ep Hlim Hsid Hh. unfold openRemoteStream. rewrite Z.geb_leb, (proj2 (Z.leb_gt _ _)) by done.
  unfold MaxNewStreamIDDelta, MaxStreamsPerConnection. rewrite u32_within by lia.
  rewrite (proj2 (Z.ltb_ge _ _)) by lia. destruct (newStream sid w). by do 2 eexists.
Qed.

Lemma openUpTo_client n params m w sid :
  sm_inv m -> sm_perspective m = PerspectiveClient -> sm_numIncomingStreams m < GetMaxIncomingStreams params ->
  0 < sid -> sid + 2 * Z.of_nat n < 2 ^ 32 - 402 -> sid mod 2 = 0 -> sm_highestStreamOpenedByPeer m < sid ->
  exists m' w', openUpTo newStream (Datatypes.S n) params m w sid (sid + 2 * Z.of_nat n - 2) = Some (m', w', None) /\
    sm_inv m' /\ sm_openStreams m' = sm_openStreams m ++ ids_from sid n.
Proof.
  revert m w sid. induction n as [|n IH]; intros m w sid I Ep Hlim H0 Hlt Hp Hh; cbn [openUpTo].
  - rewrite (proj2 (Z.leb_gt _ _)) by lia. exists m, w. split; [done|]. split; [done|]. by rewrite app_nil_r.
  - rewrite (proj2 (Z.leb_le _ _)) by lia. destruct (client_open_ok params m w sid Ep Hlim ltac:(lia) Hh) as (m1 & w1 & E1).
    rewrite E1. assert (Hp' : sid mod 2 = peerParity (sm_perspective m)) by by rewrite Ep.
    pose proof (openRemoteStream_opens params m w sid m1 w1 None I ltac:(lia) Hp' Hh E1) as [R1 R2 R3 R4 R5 R6 R7].
    destruct (R6 eq_refl) as (H1 & H2 & _). rewrite u32_within by lia.
    pose proof (opened_counts m m1 sid 1 H2) as C1. rewrite Hp in C1. cbn in C1.
    pose proof (smi_in _ I). pose proof (smi_in _ R1).
    destruct (IH m1 w1 (sid + 2)) as (m' & w' & E & I' & Ho); try done; try lia; [congruence|by rewrite mod2_add2|].
    replace (sid + 2 * Z.of_nat (Datatypes.S n) - 2) with (sid + 2 + 2 * Z.of_nat n - 2) by lia.
    exists m', w'. split; [done|]. split; [done|]. by rewrite Ho, H2, ids_from_S, <- app_assoc.
Qed.

(** A client does not limit the streams its peer opens.  One frame on stream 2n,
    for any n up to about 2^31, makes it open n streams, whatever the limit on
    incoming streams is: the counter it compares with the limit counts the streams
    the client opens itself. *)
Theorem client_opens_any_number params n w :
  0 < GetMaxIncomingStreams params -> (0 < n)%nat -> 2 * Z.of_nat n < 2 ^ 32 - 404 ->
  exists m' w', GetOrOpenStream newStream (Datatypes.S n) params (newStreamsMap PerspectiveClient) w (2 * Z.of_nat n) =
      Some (m', w', GotStream (2 * Z.of_nat n)) /\
    sm_openStreams m' = ids_from 2 n /\ sm_numIncomingStreams m' = 0.
Proof.
  intros Hlim Hn Hlt. assert (Hm : (2 * Z.of_nat n) mod 2 = 0) by (rewrite Z.mul_comm; apply Z.mod_mul; lia).
  assert (Hr : @refuseStream S (newStreamsMap PerspectiveClient) (2 * Z.of_nat n) = None).
  { unfold refuseStream. cbn [sm_perspective newStreamsMap sm_highestStreamOpenedByPeer]. rewrite Hm.
    change (0 =? 1) with false. cbv iota. by rewrite (proj2 (Z.leb_gt _ _)) by lia. }
  unfold GetOrOpenStream. rewrite Hr. change (sm_streams (newStreamsMap PerspectiveClient) !! _) with (@None S).
  cbv iota. change (firstToOpen _) with 2.
  destruct (openUpTo_client n params (newStreamsMap PerspectiveClient) w 2) as (m' & w' & E & I' & Ho);
    [apply new_sm_inv|done|done|lia|lia|done|cbn; lia|].
  replace (2 + 2 * Z.of_nat n - 2) with (2 * Z.of_nat n) in E by lia. rewrite E. cbn in Ho.
  assert (Hin : 2 * Z.of_nat n ∈ sm_openStreams m').
  { rewrite Ho, elem_of_ids_from. exists (pred n). lia. }
  destruct (proj1 (smi_dom _ I' _) Hin) as [s ->]. exists m', w'. split; [done|]. split; [done|].
  rewrite (smi_in _ I'), Ho. unfold ids_from. clear. induction n as [|n IH]; [done|].
  rewrite seq_S, map_app, count_parity_app, IH. cbn. rewrite count_parity_one.
  replace (2 + 2 * Z.of_nat n) with ((1 + Z.of_nat n) * 2) by lia. by rewrite Z.mod_mul.
Qed.
End proofs.

(** ** The round robin *)

Section robin.
Context {S W : Type}.
Implicit Types m : streamsMap S.

(** The functions the framer iterates with: they change the streams and their own
    state, and return no error; they may stop at any stream (see [popNormal_well_behaved]). *)
Definition well_behaved (fn : @streamLambda S W) : Prop :=
  forall m w id s, sm_streams m !! id = Some s ->
  let '(m', _, (_, err)) := fn m w id s in
  sm_openStreams m' = sm_openStreams m /\ sm_roundRobinIndex m' = sm_roundRobinIndex m /\
  (forall x, is_Some (sm_streams m' !! x) <-> is_Some (sm_streams m !! x)) /\ err = None.

(** The same function, with a log of the streams it was called for. *)
Definition logged (fn : @streamLambda S W) : @streamLambda S (W * list Z) :=
  fun m '(w, log) id s => let '(m', w', r) := fn m w id s in (m', (w', log ++ [id]), r).

Definition special (id : Z) : bool := (id =? 1) || (id =? 3).

(** The stream at a position, counted cyclically. *)
Definition at_position (l : list Z) (k : Z) : option Z := l !! Z.to_nat (k mod zlen l).

(** The map as far as the iteration is concerned. *)
Record robin_ok (l : list Z) m : Prop := {
  rk_open : sm_openStreams m = l;
  rk_dom : forall x, x ∈ l <-> is_Some (sm_streams m !! x);
  rk_index : 0 <= sm_roundRobinIndex m <= zlen l;
}.

Lemma iterate_logged fn m w log id l :
  well_behaved fn -> robin_ok l m -> id ∈ l ->
  exists m' w' cont, iterateFunc (logged fn) m (w, log) id = (m', (w', log ++ [id]), (cont, None)) /\
    robin_ok l m' /\ sm_roundRobinIndex m' = sm_roundRobinIndex m.
Proof.
  intros Hfn [Ho Hd Hi] Hin. unfold iterateFunc. destruct (proj1 (Hd id) Hin) as [s Es]. rewrite Es. cbn [logged].
  specialize (Hfn m w id s Es). destruct (fn m w id s) as [[m' w'] [cont err]]. destruct Hfn as (H1 & H2 & H3 & ->).
  exists m', w', cont. split; [done|]. split; [split; [congruence|intros x; by rewrite H3|by rewrite H2]|done].
Qed.

(** The streams 1 and 3: those that are open are called in turn, up to the first that stops the iteration. *)
Lemma iteratePriority_calls fn m w log ids l :
  well_behaved fn -> robin_ok l m ->
  exists m' w' p cont, iteratePriority (logged fn) m (w, log) ids = (m', (w', log ++ p), (cont, None)) /\
    robin_ok l m' /\ sm_roundRobinIndex m' = sm_roundRobinIndex m /\
    p `prefix_of` filter (fun x => x ∈ l) ids /\ (if cont then p = filter (fun x => x ∈ l) ids else p <> []).
Proof.
  intros Hfn. revert m w log. induction ids as [|id ids IH]; intros m w log Hok; cbn [iteratePriority].
  { exists m, w, [], true. rewrite app_nil_r. done. }
  rewrite filter_cons. destruct (decide (id ∈ l)) as [Hin|Hin].
  - destruct (iterate_logged fn m w log id l Hfn Hok Hin) as (m1 & w1 & cont & -> & Hok1 & Hi1). destruct cont.
    + destruct (IH m1 w1 (log ++ [id]) Hok1) as (m2 & w2 & p & cont & -> & Hok2 & Hi2 & Hp & Hc).
      exists m2, w2, (id :: p), cont. rewrite <- app_assoc. split; [done|]. split; [done|]. split; [congruence|].
      split; [by apply prefix_cons|]. destruct cont; [by f_equal|done].
    + exists m1, w1, [id], false. split_and!; try done. apply prefix_cons, prefix_nil.
  - destruct (sm_streams m !! id) as [s|] eqn:Es; [exfalso; apply Hin, (rk_dom _ _ Hok); by rewrite Es|].
    unfold iterateFunc. rewrite Es, decide_True by done. destruct (IH m w log Hok) as (m2 & w2 & p & cont & -> & HH).
    by exists m2, w2, p, cont.
Qed.

Lemma u32_id x : 0 <= x < 2 ^ 32 -> u32 x = x.
Proof. intros Hx. unfold u32, wrap. by apply Z.mod_small. Qed.

(** The loop after [i] positions: every position it passes is visited or special,
    and the index moves on by at most as many positions as were passed. *)
Lemma iterateRobin_covers fn m w log l start v i r :
  well_behaved fn -> robin_ok l m -> 0 < zlen l < 2 ^ 30 -> 0 <= start <= zlen l ->
  0 <= v <= i -> i + Z.of_nat r = zlen l -> sm_roundRobinIndex m mod zlen l = (start + v) mod zlen l ->
  (forall k x, 0 <= k < i -> at_position l (start + k) = Some x -> special x = true \/ x ∈ log) ->
  exists m' w' q v', iterateRobin (logged fn) m (w, log) (zlen l) start i r = Ok (m', (w', log ++ q), None) /\
    robin_ok l m' /\ v <= v' <= zlen l /\ sm_roundRobinIndex m' mod zlen l = (start + v') mod zlen l /\
    Forall (fun x => special x = false) q /\
    (forall k x, 0 <= k < v' -> at_position l (start + k) = Some x -> special x = true \/ x ∈ log ++ q) /\
    (v' = v -> Forall (fun k => forall x, at_position l (start + k) = Some x -> special x = true) (seqZ i (Z.of_nat r))).
Proof.
  intros Hfn. revert m w log v i. induction r as [|r IH]; intros m w log v i Hok Hl Hst Hv Hir Hidx Hcov.
  - exists m, w, [], v. rewrite app_nil_r. split_and!; try done; try lia. intros k x Hk. apply Hcov. lia.
  - cbn [iterateRobin]. rewrite (rk_open _ _ Hok), u32_id by lia. rewrite (Z.add_comm i start).
    assert (Hpos : 0 <= (start + i) mod zlen l < zlen l) by (apply Z.mod_pos_bound; lia).
    destruct (lookup_lt_is_Some_2 l (Z.to_nat ((start + i) mod zlen l))) as [id Eid]; [unfold zlen in *; lia|].
    rewrite Eid. change ((id =? 1) || (id =? 3)) with (special id).
    assert (Hcov' : forall log' : list Z, (special id = true \/ id ∈ log') -> (forall x, x ∈ log -> x ∈ log') ->
      forall k x, 0 <= k < i + 1 -> at_position l (start + k) = Some x -> special x = true \/ x ∈ log').
    { intros log' Hid Hsub k x Hk Hx. destruct (Z.eq_dec k i) as [->|]; [unfold at_position in Hx; rewrite Eid in Hx; by injection Hx as <-|].
      destruct (Hcov k x ltac:(lia) Hx) as [?|?]; [by left|right; by apply Hsub]. }
    destruct (special id) eqn:Esp.
    + destruct (IH m w log v (i + 1)) as (m' & w' & q & v' & E & H1 & H2 & H3 & H4 & H5 & H6); try done; try lia.
      { apply Hcov'; [by left|done]. }
      exists m', w', q, v'. split_and!; try done; try lia. intros Hvv. specialize (H6 Hvv).
      rewrite seqZ_cons by lia. constructor; [|by replace (Z.pred (Z.of_nat (Datatypes.S r))) with (Z.of_nat r) by lia].
      intros x Hx. unfold at_position in Hx. rewrite Eid in Hx. by injection Hx as <-.
    + assert (Hin : id ∈ l) by (by eapply list_elem_of_lookup_2).
      destruct (iterate_logged fn m w log id l Hfn Hok Hin) as (m1 & w1 & cont & -> & Hok1 & Hi1).
      set (m2 := sm_set_index m1 _).
      assert (Hb : 0 <= sm_roundRobinIndex m1 <= zlen l) by apply Hok1.
      assert (Hm2 : sm_roundRobinIndex m2 = (sm_roundRobinIndex m + 1) mod zlen l) by (cbn; by rewrite u32_id, Hi1 by lia).
      assert (Hok2 : robin_ok l m2).
      { destruct Hok1 as [O1 O2 O3]. split; try done. rewrite Hm2. pose proof (Z.mod_pos_bound (sm_roundRobinIndex m + 1) (zlen l)). lia. }
      assert (Hidx2 : sm_roundRobinIndex m2 mod zlen l = (start + (v + 1)) mod zlen l).
      { rewrite Hm2, Z.mod_mod, Zplus_mod, Hidx, <- Zplus_mod by lia. f_equal. lia. }
      assert (Hsub : forall x, x ∈ log -> x ∈ log ++ [id]) by (intros x Hx; apply elem_of_app; by left).
      assert (Hself : id ∈ log ++ [id]) by (apply elem_of_app; right; by apply list_elem_of_singleton).
      destruct cont.
      * destruct (IH m2 w1 (log ++ [id]) (v + 1) (i + 1)) as (m' & w' & q & v' & E & H1 & H2 & H3 & H4 & H5 & H6);
          try done; try lia; [apply Hcov'; [by right|done]|].
        rewrite <- app_assoc in E, H5. exists m', w', (id :: q), v'. split_and!; try done; try lia. by constructor.
      * exists m2, w1, [id], (v + 1). split_and!; try done; try lia; [by repeat constructor|].
        intros k x Hk. apply Hcov'; [by right|done|lia].
Qed.

Lemma open_size l m : NoDup l -> (forall x, x ∈ l <-> is_Some (sm_streams m !! x)) -> size (sm_streams m) = length l.
Proof.
  intros Hd Hx. rewrite <- size_dom. rewrite <- (size_list_to_set (C := gset Z) l Hd). apply set_size_proper.
  intros x. rewrite elem_of_dom, elem_of_list_to_set. by rewrite Hx.
Qed.

(** Whether a call gets past the streams 1 and 3. *)
Definition passes (fn : @streamLambda S W) m (w : W * list Z) : bool := (iteratePriority (logged fn) m w [1; 3]).2.1.

(** One call: when it gets past the streams 1 and 3, it moves the index on, past positions that were visited. *)
Lemma RoundRobinIterate_covers fn m w log l :
  well_behaved fn -> robin_ok l m -> NoDup l -> 0 < zlen l < 2 ^ 30 -> Exists (fun x => special x = false) l ->
  exists m' w' p q v, RoundRobinIterate (logged fn) m (w, log) = Ok (m', (w', log ++ p ++ q), None) /\
    robin_ok l m' /\ 0 <= v <= zlen l /\ sm_roundRobinIndex m' mod zlen l = (sm_roundRobinIndex m + v) mod zlen l /\
    Forall (fun x => special x = false) q /\ p `prefix_of` filter (fun x => x ∈ l) [1; 3] /\
    (if passes fn m (w, log) then p = filter (fun x => x ∈ l) [1; 3] /\ 1 <= v else p <> []) /\
    (forall k x, 0 <= k < v -> at_position l (sm_roundRobinIndex m + k) = Some x -> special x = true \/ x ∈ log ++ p ++ q).
Proof.
  intros Hfn Hok Hd Hl Hex. unfold RoundRobinIterate, passes. rewrite (open_size l m Hd (rk_dom _ _ Hok)). fold (zlen l).
  rewrite u32_id by lia.
  destruct (iteratePriority_calls fn m w log [1; 3] l Hfn Hok) as (m1 & w1 & p & cont & -> & Hok1 & Hi1 & Hp & Hc).
  cbn [snd fst]. destruct cont.
  2: { exists m1, w1, p, [], 0. rewrite app_nil_r, Z.add_0_r, Hi1. split_and!; try done; try lia. }
  destruct (iterateRobin_covers fn m1 w1 (log ++ p) l (sm_roundRobinIndex m) 0 0 (Z.to_nat (zlen l)))
    as (m' & w' & q & v & E & H1 & H2 & H3 & H4 & H5 & H6); try done; try lia.
  - apply Hok.
  - by rewrite Hi1, Z.add_0_r.
  - rewrite <- app_assoc in E, H5. exists m', w', p, q, v. split_and!; try done; try lia.
    destruct (Z.eq_dec v 0) as [->|]; [|lia]. exfalso. specialize (H6 eq_refl).
    rewrite list.Exists_exists in Hex. destruct Hex as (x & Hx & Hsp). apply list_elem_of_lookup in Hx as [i Hi].
    assert (Hpl : (i < length l)%nat) by (by eapply lookup_lt_Some).
    rewrite list.Forall_forall in H6.
    assert (Hsp' : special x = true); [|congruence].
    apply (H6 ((Z.of_nat i - sm_roundRobinIndex m) mod zlen l)).
    + apply elem_of_seqZ. pose proof (Z.mod_pos_bound (Z.of_nat i - sm_roundRobinIndex m) (zlen l)). lia.
    + unfold at_position. rewrite Zplus_mod_idemp_r.
      replace (sm_roundRobinIndex m + (Z.of_nat i - sm_roundRobinIndex m)) with (Z.of_nat i) by lia.
      rewrite Z.mod_small by (unfold zlen; lia). by rewrite Nat2Z.id.
Qed.

(** Successive calls, each with a function of its own; the last number is that of the calls that got past 1 and 3. *)
Fixpoint rounds (fns : list (@streamLambda S W)) m (w : W * list Z) : result (streamsMap S * (W * list Z) * Z) :=
  match fns with
  | [] => Ok (m, w, 0)
  | fn :: fns =>
      let passed := if passes fn m w then 1 else 0 in
      let* r := RoundRobinIterate (logged fn) m w in
      let* r' := rounds fns r.1.1 r.1.2 in
      Ok (r'.1, passed + r'.2)
  end.

(** How often a stream is in a log. *)
Definition calls_of (x : Z) (log : list Z) : Z := zlen (filter (fun y => y = x) log).
Lemma calls_of_app x a b : calls_of x (a ++ b) = calls_of x a + calls_of x b.
Proof. unfold calls_of. by rewrite list.filter_app, zlen_app. Qed.
Lemma calls_of_nonspecial x q : special x = true -> Forall (fun x => special x = false) q -> calls_of x q = 0.
Proof.
  intros Hx. unfold calls_of. induction 1 as [|y q Hy _ IH]; [done|]. rewrite filter_cons, decide_False by congruence. done.
Qed.

(** The calls of a round for 1 and 3. *)
Lemma priority_calls (l p : list Z) (passed : bool) : p `prefix_of` filter (fun x => x ∈ l) [1; 3] ->
  (if passed then p = filter (fun x => x ∈ l) [1; 3] else p <> []) ->
  (1 ∈ l -> calls_of 1 p = 1) /\ (3 ∈ l -> (if passed then 1 else 0) <= calls_of 3 p).
Proof.
  rewrite !filter_cons, filter_nil. destruct (decide (1 ∈ l)), (decide (3 ∈ l)); intros Hp Hc;
    destruct passed; subst; try (split; [intros|intros]; try done; unfold calls_of, zlen; lia).
  - destruct p as [|a p]; [done|]. apply prefix_cons_inv_1 in Hp as Ea. apply prefix_cons_inv_2 in Hp. subst a.
    destruct p as [|b p]; [split; [done|]; intros _; unfold calls_of, zlen; lia|]. apply prefix_cons_inv_1 in Hp as Eb.
    apply prefix_cons_inv_2, prefix_nil_inv in Hp. subst. split; [done|]; intros _; unfold calls_of, zlen; lia.
  - destruct p as [|a p]; [done|]. apply prefix_cons_inv_1 in Hp as Ea. apply prefix_cons_inv_2, prefix_nil_inv in Hp. subst. done.
Qed.

Lemma rounds_cover fns m w log l start v :
  Forall well_behaved fns -> robin_ok l m -> NoDup l -> 0 < zlen l < 2 ^ 30 -> Exists (fun x => special x = false) l ->
  0 <= v -> sm_roundRobinIndex m mod zlen l = (start + v) mod zlen l ->
  (forall k x, 0 <= k < v -> at_position l (start + k) = Some x -> special x = true \/ x ∈ log) ->
  exists m' w' more passed, rounds fns m (w, log) = Ok (m', (w', log ++ more), passed) /\ 0 <= passed /\
    (1 ∈ l -> calls_of 1 more = zlen fns) /\ (3 ∈ l -> passed <= calls_of 3 more) /\
    (forall k x, 0 <= k < v + passed -> at_position l (start + k) = Some x -> special x = true \/ x ∈ log ++ more).
Proof.
  intros Hf Hok Hd Hl Hex. revert m w log v Hok. induction Hf as [|fn fns Hfn _ IH]; intros m w log v Hok Hv Hidx Hcov.
  - exists m, w, [], 0. rewrite app_nil_r, Z.add_0_r. done.
  - cbn [rounds].
    destruct (RoundRobinIterate_covers fn m w log l Hfn Hok Hd Hl Hex)
      as (m1 & w1 & p & q & v1 & -> & H1 & H2 & H3 & H4 & Hp & Hpass & H5).
    cbn [bind fst snd]. destruct (IH m1 w1 (log ++ p ++ q) (v + v1)) as (m' & w' & more & passed & -> & P0 & P1 & P3 & Hc); try done; try lia.
    + rewrite H3, Zplus_mod, Hidx, <- Zplus_mod. f_equal. lia.
    + intros k x Hk Hx. destruct (Z.lt_ge_cases k v) as [Hlt|Hge].
      * destruct (Hcov k x ltac:(lia) Hx) as [?|?]; [by left|right; apply elem_of_app; by left].
      * apply (H5 (k - v)); [lia|]. rewrite <- Hx. unfold at_position. do 2 f_equal.
        rewrite Zplus_mod, Hidx, <- Zplus_mod. f_equal. lia.
    + cbn [bind fst snd]. exists m', w', ((p ++ q) ++ more). rewrite (app_assoc log (p ++ q) more). eexists. split; [reflexivity|].
      destruct (priority_calls l p (passes fn m (w, log)) Hp) as [C1 C3]; [revert Hpass; destruct (passes fn m (w, log)); [by intros [? _]|done]|].
      rewrite !calls_of_app. split_and!.
      * destruct (passes _ _ _); lia.
      * intros Hi. rewrite C1, P1, (calls_of_nonspecial 1 q) by done. unfold zlen. cbn. lia.
      * intros Hi. rewrite (calls_of_nonspecial 3 q) by done. specialize (C3 Hi). specialize (P3 Hi). lia.
      * intros k x Hk. apply Hc. revert Hk Hpass. destruct (passes _ _ _); [intros Hk [_ Hv1]|intros Hk _]; lia.
Qed.

(** C10: no stream starves behind another one: in successive calls of RoundRobinIterate, with functions that open and remove no streams
    and return no errors, as that of the framer, wherever each of them stops, every open
    stream other than 1 and 3 is served at least once as soon as as many of the calls as there are
    open streams got past the streams 1 and 3; stream 1, if it is open, is considered exactly once in every call, and stream 3 in every call
    that gets past it.  (A call that stops at one of these two, because the packet is full, serves no other stream.) *)
Theorem round_robin_serves_all fns m w x :
  Forall well_behaved fns -> NoDup (sm_openStreams m) ->
  (forall id, id ∈ sm_openStreams m <-> is_Some (sm_streams m !! id)) ->
  0 <= sm_roundRobinIndex m <= zlen (sm_openStreams m) -> zlen (sm_openStreams m) < 2 ^ 30 ->
  x ∈ sm_openStreams m -> x <> 1 -> x <> 3 ->
  exists m' w' log passed, rounds fns m (w, []) = Ok (m', (w', log), passed) /\
    (zlen (sm_openStreams m) <= passed -> x ∈ log) /\
    (1 ∈ sm_openStreams m -> calls_of 1 log = zlen fns) /\ (3 ∈ sm_openStreams m -> passed <= calls_of 3 log).
Proof.
  intros Hf Hd Hdom Hidx Hlen Hx H1 H3. set (l := sm_openStreams m) in *.
  assert (Hsp : special x = false) by (unfold special; lia).
  apply list_elem_of_lookup in Hx as [p Hp]. assert (Hpl : (p < length l)%nat) by (by eapply lookup_lt_Some).
  destruct (rounds_cover fns m w [] l (sm_roundRobinIndex m) 0) as (m' & w' & log & passed & E & P0 & P1 & P3 & Hc); try done; try lia.
  - unfold zlen in *. lia.
  - apply list.Exists_exists. exists x. split; [by eapply list_elem_of_lookup_2|done].
  - by rewrite Z.add_0_r.
  - exists m', w', log, passed. split; [done|]. split; [|done]. intros Hn.
    destruct (Hc ((Z.of_nat p - sm_roundRobinIndex m) mod zlen l) x) as [?|?]; [| |congruence|done].
    + pose proof (Z.mod_pos_bound (Z.of_nat p - sm_roundRobinIndex m) (zlen l)). unfold zlen in *. lia.
    + unfold at_position. rewrite Zplus_mod_idemp_r.
      replace (sm_roundRobinIndex m + (Z.of_nat p - sm_roundRobinIndex m)) with (Z.of_nat p) by lia.
      rewrite Z.mod_small by (unfold zlen; lia). by rewrite Nat2Z.id.
Qed.
End robin.

(** ** Instances *)

(** Streams that are just their IDs, and the parameters of a new connection. *)
Definition plain_stream (id : Z) (w : unit) : unit * Z := (w, id).
Definition sample_params : connectionParametersManager :=
  NewConnectionParamatersManager PerspectiveServer 39 32768 49152 (30 * Second).

Definition sample_map : streamsMap Z :=
  match GetOrOpenStream plain_stream 200 sample_params (newStreamsMap PerspectiveServer) tt 7 with
  | Some (m, _, _) => m
  | None => newStreamsMap PerspectiveServer
  end.

Lemma sample_map_reach : sm_reach plain_stream sample_params PerspectiveServer sample_map.
Proof.
  eapply (smr_get _ _ _ (newStreamsMap PerspectiveServer) tt 200 7 sample_map tt (GotStream 7)); [constructor|lia|].
  vm_compute. reflexivity.
Qed.

Lemma streams_map_consistent_witness :
  sm_openStreams sample_map = [1; 3; 5; 7] /\ NoDup (sm_openStreams sample_map) /\
  sm_numIncomingStreams sample_map = 4.
Proof.
  split; [vm_compute; reflexivity|].
  destruct (streams_map_consistent plain_stream sample_params PerspectiveServer sample_map (fun s => s) EOF sample_map_reach)
    as (H & _). split; [exact H|vm_compute; reflexivity].
Defined.

Lemma server_GetOrOpenStream_witness :
  exists m' w' g, GetOrOpenStream plain_stream 200 sample_params sample_map tt 1001 = Some (m', w', g) /\
    g = GotErr (ErrCode qerr.TooManyOpenStreams) /\ count_parity 1 (sm_openStreams m') = 110.
Proof.
  destruct (server_GetOrOpenStream plain_stream sample_params sample_map tt 1001 200 sample_map_reach) as (m' & w' & g & E & _);
    [lia|vm_compute; lia|].
  exists m', w', g. split; [exact E|]. revert E. vm_compute. intros [= <- <- <-]. split; reflexivity.
Defined.

Lemma client_opens_any_number_witness :
  exists m' w', GetOrOpenStream plain_stream 151 sample_params (newStreamsMap PerspectiveClient) tt 300 =
      Some (m', w', GotStream 300) /\ sm_openStreams m' = ids_from 2 150 /\ GetMaxIncomingStreams sample_params = 110.
Proof.
  destruct (client_opens_any_number plain_stream sample_params 150 tt) as (m' & w' & E & Ho & _);
    [vm_compute; reflexivity|lia|lia|].
  exists m', w'. split; [exact E|]. split; [exact Ho|vm_compute; reflexivity].
Defined.

(** Serves one stream other than 1 and 3 and stops. *)
Definition serve_one : @streamLambda Z unit := fun m w id _ => (m, w, ((id =? 1) || (id =? 3), None)).
(** Stops at stream 3, as a packet that it fills does. *)
Definition stop_at_3 : @streamLambda Z unit := fun m w id _ => (m, w, (id =? 1, None)).

Lemma serve_one_well_behaved : well_behaved serve_one.
Proof. intros m w id s Hs. cbn. done. Qed.
Lemma stop_at_3_well_behaved : well_behaved stop_at_3.
Proof. intros m w id s Hs. cbn. done. Qed.

Definition sample_rounds : list (@streamLambda Z unit) := [serve_one; stop_at_3; serve_one; serve_one; serve_one].

Lemma round_robin_serves_all_witness :
  exists m' w' log passed, rounds sample_rounds sample_map (tt, []) = Ok (m', (w', log), passed) /\ passed = 4 /\ 7 ∈ log /\
    calls_of 1 log = 5.
Proof.
  destruct (sm_reach_inv plain_stream sample_params PerspectiveServer sample_map sample_map_reach) as [[H1 H2] _].
  destruct (round_robin_serves_all sample_rounds sample_map tt 7) as (m' & w' & log & passed & E & Hx & H3 & _).
  - repeat (constructor; [exact serve_one_well_behaved || exact stop_at_3_well_behaved|]). constructor.
  - exact H1.
  - exact H2.
  - vm_compute. split; congruence.
  - vm_compute. reflexivity.
  - apply list_elem_of_In. vm_compute. tauto.
  - lia.
  - lia.
  - exists m', w', log, passed. split; [exact E|].
    assert (Ep : (match rounds sample_rounds sample_map (tt, []) with Ok (_, _, n) => n | _ => 0 end) = 4) by (vm_compute; reflexivity).
    rewrite E in Ep. split; [exact Ep|]. split; [apply Hx; rewrite Ep; vm_compute; discriminate|]. apply H3.
    apply list_elem_of_In. vm_compute. tauto.
Defined.

(** The index does not move over the streams 1 and 3, so that the stream behind them
    is served three times as often as the others. *)
Example round_robin_uneven :
  rounds [serve_one; serve_one; serve_one; serve_one] sample_map (tt, []) =
  Ok (sm_set_index sample_map 0, (tt, [1; 3; 5; 1; 3; 5; 1; 3; 5; 1; 3; 7]), 4).
Proof. vm_compute. reflexivity. Qed.
