(* ===== verification/Stream.v ===== *)
(** * Streams (stream.go)

    One stream of a session: its read side on top of the frame sorter, its write
    side, and the flags of its life cycle.  The mutex makes the operations the steps
    of the model.  [Read] and [Write] may have to wait on a channel; the model tells
    so, and the caller runs the rest of the operation again when it is woken up.  A
    buffered channel of capacity one is a boolean.  The callbacks [onData] and
    [onReset] are the events an operation returns. *)
From stdpp Require Import pretty.
From S2P Require Import Prelude Qerr ByteOrder Protocol WireStream Float32 RttStats ConnParams FlowControl.
From S2P Require Import StreamFrameSorter.

Record stream : Type := mkStr {
  str_streamID : Z;
  str_readPosInFrame : Z;
  str_writeOffset : Z;
  str_readOffset : Z;
  str_err : option error;
  str_cancelled : bool;
  str_finishedReading : bool;
  str_finishedWriting : bool;
  str_resetLocally : bool;
  str_resetRemotely : bool;
  str_frameQueue : streamFrameSorter;
  str_readChan : bool;
  str_readDeadline : Z;
  str_dataForWriting : option (list Z);
  str_finSent : bool;
  str_rstSent : bool;
  str_writeChan : bool;
  str_writeDeadline : Z;
  str_ctxDone : bool;
}.

Inductive stream_event : Type :=
| EvData
| EvReset (streamID offset : Z).

Definition errDeadline : error := errors_New "deadline exceeded".

Definition newStr (streamID : Z) : stream :=
  mkStr streamID 0 0 0 None false false false false false newStreamFrameSorter false zeroTime None false false false
    zeroTime false.

(** *** Field updates *)

Definition str_set_reading (s : stream) (posInFrame offset : Z) : stream :=
  mkStr (str_streamID s) posInFrame (str_writeOffset s) offset (str_err s) (str_cancelled s) (str_finishedReading s)
    (str_finishedWriting s) (str_resetLocally s) (str_resetRemotely s) (str_frameQueue s) (str_readChan s)
    (str_readDeadline s) (str_dataForWriting s) (str_finSent s) (str_rstSent s) (str_writeChan s) (str_writeDeadline s)
    (str_ctxDone s).
Definition str_set_queue (s : stream) (q : streamFrameSorter) : stream :=
  mkStr (str_streamID s) (str_readPosInFrame s) (str_writeOffset s) (str_readOffset s) (str_err s) (str_cancelled s)
    (str_finishedReading s) (str_finishedWriting s) (str_resetLocally s) (str_resetRemotely s) q (str_readChan s)
    (str_readDeadline s) (str_dataForWriting s) (str_finSent s) (str_rstSent s) (str_writeChan s) (str_writeDeadline s)
    (str_ctxDone s).
Definition str_set_writing (s : stream) (offset : Z) (data : option (list Z)) : stream :=
  mkStr (str_streamID s) (str_readPosInFrame s) offset (str_readOffset s) (str_err s) (str_cancelled s)
    (str_finishedReading s) (str_finishedWriting s) (str_resetLocally s) (str_resetRemotely s) (str_frameQueue s)
    (str_readChan s) (str_readDeadline s) data (str_finSent s) (str_rstSent s) (str_writeChan s) (str_writeDeadline s)
    (str_ctxDone s).
Definition str_set_done (s : stream) (finishedReading finishedWriting finSent rstSent ctxDone : bool) : stream :=
  mkStr (str_streamID s) (str_readPosInFrame s) (str_writeOffset s) (str_readOffset s) (str_err s) (str_cancelled s)
    finishedReading finishedWriting (str_resetLocally s) (str_resetRemotely s) (str_frameQueue s) (str_readChan s)
    (str_readDeadline s) (str_dataForWriting s) finSent rstSent (str_writeChan s) (str_writeDeadline s) ctxDone.
Definition str_set_reset (s : stream) (cancelled resetLocally resetRemotely : bool) (err : option error) : stream :=
  mkStr (str_streamID s) (str_readPosInFrame s) (str_writeOffset s) (str_readOffset s) err cancelled
    (str_finishedReading s) (str_finishedWriting s) resetLocally resetRemotely (str_frameQueue s) (str_readChan s)
    (str_readDeadline s) (str_dataForWriting s) (str_finSent s) (str_rstSent s) (str_writeChan s) (str_writeDeadline s)
    (str_ctxDone s).
Definition str_set_chans (s : stream) (readChan writeChan : bool) : stream :=
  mkStr (str_streamID s) (str_readPosInFrame s) (str_writeOffset s) (str_readOffset s) (str_err s) (str_cancelled s)
    (str_finishedReading s) (str_finishedWriting s) (str_resetLocally s) (str_resetRemotely s) (str_frameQueue s)
    readChan (str_readDeadline s) (str_dataForWriting s) (str_finSent s) (str_rstSent s) writeChan
    (str_writeDeadline s) (str_ctxDone s).
Definition str_set_deadlines (s : stream) (readDeadline writeDeadline : Z) : stream :=
  mkStr (str_streamID s) (str_readPosInFrame s) (str_writeOffset s) (str_readOffset s) (str_err s) (str_cancelled s)
    (str_finishedReading s) (str_finishedWriting s) (str_resetLocally s) (str_resetRemotely s) (str_frameQueue s)
    (str_readChan s) readDeadline (str_dataForWriting s) (str_finSent s) (str_rstSent s) (str_writeChan s)
    writeDeadline (str_ctxDone s).

(** *** Signals *)

(** A non-blocking send on a channel with room for one token. *)
Definition signalRead (s : stream) : stream := str_set_chans s true (str_writeChan s).
Definition signalWrite (s : stream) : stream := str_set_chans s (str_readChan s) true.

Definition isSet (e : option error) : bool := match e with Some _ => true | None => false end.

(** [!deadline.IsZero() && !now.Before(deadline)]. *)
Definition expired (deadline now : Z) : bool := negb (IsZero deadline) && negb (now <? deadline).

(** *** Reading *)

Inductive readResult : Type :=
| ReadReturns (data : list Z) (err : option error)
| ReadWaits.

(** The body of the outer loop of [Read]; [n] bytes of the buffer are free, and
    [data] was read into it before.  [RContinue] is the next iteration. *)
Inductive readStep : Type :=
| RDone (r : readResult)
| RContinue (read : list Z).

Definition readIteration (s : stream) (f : flowControlManager) (n : Z) (data : list Z) (now : Z) :
    result (stream * flowControlManager * list stream_event * readStep) :=
  match Head (str_frameQueue s), data with
  | None, _ :: _ => Ok (s, f, [], RDone (ReadReturns data (str_err s)))
  | frame, _ =>
      let stopped := str_resetLocally s || str_cancelled s in
      if stopped && isSet (str_err s) then Ok (s, f, [], RDone (ReadReturns data (str_err s)))
      else if negb stopped && expired (str_readDeadline s) now
      then Ok (s, f, [], RDone (ReadReturns data (Some errDeadline)))
      else
      match frame with
      | None => if stopped then Panic else Ok (s, f, [], RDone ReadWaits)
      | Some frame =>
          let pos := if stopped then str_readPosInFrame s else i64 (str_readOffset s -u sf_Offset frame) in
          let m := Z.min n (DataLen frame - pos) in
          if pos >? DataLen frame then
            Ok (str_set_reading s pos (str_readOffset s), f, [], RDone (ReadReturns data (Some (errors_New
              ("BUG: readPosInFrame (" +:+ pretty pos +:+ ") > frame.DataLen (" +:+ pretty (DataLen frame) +:+
               ") in stream.Read")))))
          else if pos <? 0 then Panic
          else
          let read := take (Z.to_nat m) (drop (Z.to_nat pos) (sf_Data frame)) in
          let s := str_set_reading s (pos + m) (str_readOffset s +u m) in
          let f := if negb (str_resetRemotely s) then (AddBytesRead f (str_streamID s) m now).1 else f in
          if pos + m >=? DataLen frame then
            let s := str_set_queue s (Pop (str_frameQueue s)).1 in
            if sf_FinBit frame then
              Ok (str_set_done s true (str_finishedWriting s) (str_finSent s) (str_rstSent s) (str_ctxDone s), f,
                  [EvData], RDone (ReadReturns (data ++ read) (Some EOF)))
            else Ok (s, f, [EvData], RContinue read)
          else Ok (s, f, [EvData], RContinue read)
      end
  end.

(** [for bytesRead < len(p)]; [clock k] is the time in the [k]-th iteration from the
    end of the fuel; out of fuel is [None]. *)
Fixpoint readLoop (fuel : nat) (clock : nat -> Z) (s : stream) (f : flowControlManager) (n : Z) (data : list Z) :
    option (result (stream * flowControlManager * list stream_event * readResult)) :=
  match fuel with
  | O => None
  | S fuel =>
      if n <=? 0 then Some (Ok (s, f, [], ReadReturns data None))
      else
      match readIteration s f n data (clock fuel) with
      | Panic => Some Panic
      | Err e => Some (Err e)
      | Ok (s, f, evs, RDone r) => Some (Ok (s, f, evs, r))
      | Ok (s, f, evs, RContinue read) =>
          match readLoop fuel clock s f (n - zlen read) (data ++ read) with
          | Some (Ok (s, f, evs', r)) => Some (Ok (s, f, evs ++ evs', r))
          | r => r
          end
      end
  end.

(** [Read(p)] for a buffer of [n] bytes. *)
Definition Read (fuel : nat) (clock : nat -> Z) (s : stream) (f : flowControlManager) (n : Z) :
    option (result (stream * flowControlManager * list stream_event * readResult)) :=
  if str_cancelled s || str_resetLocally s then Some (Ok (s, f, [], ReadReturns [] (str_err s)))
  else if str_finishedReading s then Some (Ok (s, f, [], ReadReturns [] (Some EOF)))
  else readLoop fuel clock s f n [].

Definition AddStreamFrame (s : stream) (f : flowControlManager) (frame : StreamFrame) :
    result (stream * flowControlManager * option error) :=
  let maxOffset := sf_Offset frame +u DataLen frame in
  let '(f, err) := UpdateHighestReceived f (str_streamID s) maxOffset in
  match err with
  | Some e => Ok (s, f, Some e)
  | None =>
      let* r := Push (str_frameQueue s) frame in
      let s := str_set_queue s r.1 in
      match r.2 with
      | Some e => if bool_decide (e = errDuplicateStreamData) then Ok (signalRead s, f, None) else Ok (s, f, Some e)
      | None => Ok (signalRead s, f, None)
      end
  end.

(** A virtual FIN frame; the error is dropped. *)
Definition CloseRemote (s : stream) (f : flowControlManager) (offset : Z) : result (stream * flowControlManager) :=
  let* r := AddStreamFrame s f {| sf_StreamID := 0; sf_FinBit := true; sf_DataLenPresent := false;
                                  sf_Offset := offset; sf_Data := [] |} in
  Ok (r.1.1, r.1.2).

(** *** Writing *)

Inductive writeResult : Type :=
| WriteReturns (n : Z) (err : option error)
| WriteWaits.

(** The loop of [Write] of [len] bytes, each time it is reached. *)
Definition writePoll (s : stream) (len now : Z) : writeResult :=
  if expired (str_writeDeadline s) now then WriteReturns 0 (Some errDeadline)
  else
  match str_dataForWriting s, str_err s with
  | Some _, None => WriteWaits
  | data, Some e => WriteReturns (len - match data with Some d => zlen d | None => 0 end) (Some e)
  | None, None => WriteReturns len None
  end.

Definition Write (s : stream) (p : list Z) (now : Z) : stream * list stream_event * writeResult :=
  if str_resetLocally s || isSet (str_err s) then (s, [], WriteReturns 0 (str_err s))
  else if str_finishedWriting s
  then (s, [], WriteReturns 0 (Some (errors_New ("write on closed stream " +:+ pretty (str_streamID s)))))
  else if zlen p =? 0 then (s, [], WriteReturns 0 None)
  else
  let s := str_set_writing s (str_writeOffset s) (Some p) in
  (s, [EvData], writePoll s (zlen p) now).

Definition lenOfDataForWriting (s : stream) : Z :=
  match str_err s, str_dataForWriting s with
  | None, Some d => zlen d
  | _, _ => 0
  end.

(** The slice that is returned, [None] for nil. *)
Definition getDataForWriting (s : stream) (maxBytes : Z) : stream * option (list Z) :=
  match str_err s, str_dataForWriting s with
  | None, Some d =>
      if zlen d >? maxBytes
      then (str_set_writing s (str_writeOffset s +u zlen (take (Z.to_nat maxBytes) d)) (Some (drop (Z.to_nat maxBytes) d)),
            Some (take (Z.to_nat maxBytes) d))
      else (signalWrite (str_set_writing s (str_writeOffset s +u zlen d) None), Some d)
  | _, _ => (s, None)
  end.

(** *** Life cycle *)

Definition Close (s : stream) : stream * list stream_event :=
  (str_set_done s (str_finishedReading s) true (str_finSent s) (str_rstSent s) true, [EvData]).

Definition finishedWriteAndSentFin (s : stream) : bool := str_finishedWriting s && str_finSent s.

Definition shouldSendReset (s : stream) : bool :=
  if str_rstSent s then false
  else (str_resetLocally s || str_resetRemotely s) && negb (finishedWriteAndSentFin s).

Definition isNil (d : option (list Z)) : bool := match d with None => true | Some _ => false end.

Definition shouldSendFin (s : stream) : bool :=
  str_finishedWriting s && negb (str_finSent s) && negb (isSet (str_err s)) && isNil (str_dataForWriting s).

Definition sentFin (s : stream) : stream :=
  str_set_done s (str_finishedReading s) (str_finishedWriting s) true (str_rstSent s) (str_ctxDone s).

Definition SetReadDeadline (s : stream) (t : Z) : stream :=
  let old := str_readDeadline s in
  let s := str_set_deadlines s t (str_writeDeadline s) in
  if t <? old then signalRead s else s.

Definition SetWriteDeadline (s : stream) (t : Z) : stream :=
  let old := str_writeDeadline s in
  let s := str_set_deadlines s (str_readDeadline s) t in
  if t <? old then signalWrite s else s.

Definition SetDeadline (s : stream) (t : Z) : stream := SetWriteDeadline (SetReadDeadline s t) t.

Definition cancelCtx (s : stream) : stream :=
  str_set_done s (str_finishedReading s) (str_finishedWriting s) (str_finSent s) (str_rstSent s) true.

(** The error is set once. *)
Definition setErr (s : stream) (err : option error) : stream :=
  str_set_reset s (str_cancelled s) (str_resetLocally s) (str_resetRemotely s) err.

Definition Cancel (s : stream) (err : option error) : stream :=
  let s := cancelCtx (str_set_reset s true (str_resetLocally s) (str_resetRemotely s) (str_err s)) in
  if isSet (str_err s) then s else signalWrite (signalRead (setErr s err)).

(** [onReset] and [rstSent], when a reset is to be sent. *)
Definition maybeSendReset (s : stream) : stream * list stream_event :=
  if shouldSendReset s
  then (str_set_done s (str_finishedReading s) (str_finishedWriting s) (str_finSent s) true (str_ctxDone s),
        [EvReset (str_streamID s) (str_writeOffset s)])
  else (s, []).

Definition Reset (s : stream) (err : option error) : stream * list stream_event :=
  if str_resetLocally s then (s, [])
  else
  let s := cancelCtx (str_set_reset s (str_cancelled s) true (str_resetRemotely s) (str_err s)) in
  let s := if isSet (str_err s) then s else signalWrite (signalRead (setErr s err)) in
  maybeSendReset s.

Definition RegisterRemoteError (s : stream) (err : option error) : stream * list stream_event :=
  if str_resetRemotely s then (s, [])
  else
  let s := cancelCtx (str_set_reset s (str_cancelled s) (str_resetLocally s) true (str_err s)) in
  let s := if isSet (str_err s) then s else signalWrite (setErr s err) in
  maybeSendReset s.

Definition str_finished (s : stream) : bool :=
  str_cancelled s ||
  (str_finishedReading s && finishedWriteAndSentFin s) ||
  (str_resetRemotely s && str_rstSent s) ||
  (str_finishedReading s && str_rstSent s) ||
  (finishedWriteAndSentFin s && str_resetRemotely s).
