(* ===== verification/StreamProofs.v ===== *)
(** * Properties of streams

    What [Read] returns is the stream, in order; what is taken for sending is what
    was written, in order; and the flags of the life cycle only move forward. *)
From S2P Require Import Prelude Qerr ByteOrder Protocol WireStream Float32 RttStats ConnParams FlowControl.
From S2P Require Import FlowControlProofs StreamFrameSorter SorterProofs Stream.

(** ** Reading *)

Section read.
Variables (D : Z -> Z) (N : Z).
Hypothesis HN : 0 <= N < 2 ^ 63.

Lemma HNmax : 0 <= N < MaxByteCountValue.
Proof. unfold MaxByteCountValue. lia. Qed.

(** The read offset lies at the read position of the sorter, or inside the frame at
    its head. *)
Record read_inv (s : stream) : Prop := {
  ri_sorter : sorter_inv D N (str_frameQueue s);
  ri_offset : sfs_readPosition (str_frameQueue s) <= str_readOffset s <= N;
  ri_partial : str_readOffset s = sfs_readPosition (str_frameQueue s) \/
    exists f, Head (str_frameQueue s) = Some f /\ str_readOffset s < sfs_readPosition (str_frameQueue s) + DataLen f;
}.

Lemma new_read_inv id : read_inv (newStr id).
Proof.
  split; cbn; [|lia|by left].
  destruct (sreach_inv D N HNmax [] newStreamFrameSorter (sreach_new D N)) as [Hs _]. exact Hs.
Qed.

(** The frame at the head, in terms of the stream. *)
Lemma Head_ok s f :
  read_inv s -> Head (str_frameQueue s) = Some f ->
  let pos := str_readOffset s - sfs_readPosition (str_frameQueue s) in
  sf_Offset f = sfs_readPosition (str_frameQueue s) /\ frame_ok D N f /\
  i64 (str_readOffset s -u sf_Offset f) = pos /\ 0 <= pos /\ (pos < DataLen f \/ (pos = 0 /\ DataLen f = 0)) /\
  str_readOffset s + (DataLen f - pos) <= N.
Proof.
  intros [Hs Ho Hp] Hh. pose proof Hh as Hh'. unfold Head in Hh'. destruct (si_frames _ _ _ Hs _ _ Hh') as (E & Hok & _).
  pose proof (si_read _ _ _ Hs). pose proof Hok as [Ho1 Ho2 _ _]. pose proof (frame_len_nonneg f) as Hlen.
  assert (Hlt : str_readOffset s = sfs_readPosition (str_frameQueue s) \/
    str_readOffset s - sfs_readPosition (str_frameQueue s) < DataLen f).
  { destruct Hp as [Hp|(g & Hg & Hp)]; [by left|right]. rewrite Hh in Hg. injection Hg as <-. lia. }
  cbv zeta. split; [done|]. split; [done|]. rewrite E in *. rewrite sub64_small, i64_small by lia. lia.
Qed.

(** What an iteration of the loop read, and how it ended. *)
Definition step_ok (s s' : stream) (n : Z) (data : list Z) (step : readStep) : Prop :=
  match step with
  | RContinue read => consistent D (str_readOffset s) read /\ 0 < zlen read <= n /\
      str_readOffset s' = str_readOffset s + zlen read
  | RDone ReadWaits => data = [] /\ s' = s /\ Head (str_frameQueue s) = None
  | RDone (ReadReturns d e) =>
      exists read, d = data ++ read /\ consistent D (str_readOffset s) read /\ zlen read <= n /\
      str_readOffset s' = str_readOffset s + zlen read /\
      ((e = Some EOF /\ exists f, Head (str_frameQueue s) = Some f /\ sf_FinBit f = true) \/
       (e = Some errDeadline /\ expired (str_readDeadline s) = expired (str_readDeadline s') /\ read = []) \/
       (e = str_err s /\ s' = s /\ data <> [] /\ read = [] /\ Head (str_frameQueue s) = None))
  end.

Definition running (s : stream) : Prop := str_resetLocally s = false /\ str_cancelled s = false.

Lemma consistent_nil off : consistent D off [].
Proof. intros i b Hb. by rewrite lookup_nil in Hb. Qed.

Lemma readIteration_ok s f n data now :
  read_inv s -> running s -> 0 < n ->
  exists s' f' evs step, readIteration s f n data now = Ok (s', f', evs, step) /\
    read_inv s' /\ running s' /\ str_err s' = str_err s /\ step_ok s s' n data step.
Proof.
  intros Hi [Hr1 Hr2] Hn. unfold readIteration. rewrite Hr1, Hr2. cbn [orb andb negb].
  destruct (Head (str_frameQueue s)) as [fr|] eqn:Eh.
  2: { destruct data as [|b data].
       - destruct (expired _ _) eqn:Ex; [|by exists s, f, [], (RDone ReadWaits)].
         do 4 eexists. split; [done|]. split; [done|]. split; [done|]. split; [done|]. exists [].
         split; [done|]. split; [apply consistent_nil|]. unfold zlen. cbn. split; [lia|]. split; [lia|]. right. by left.
       - do 4 eexists. split; [done|]. split; [done|]. split; [done|]. split; [done|]. exists [].
         split; [by rewrite app_nil_r|]. split; [apply consistent_nil|]. unfold zlen. cbn. split; [lia|]. split; [lia|].
         right. by right. }
  destruct (Head_ok s fr Hi Eh) as (Eo & Hok & Epos & Hpos & Hcase & HeN).
  destruct (expired _ _) eqn:Ex.
  { do 4 eexists. split; [done|]. split; [done|]. split; [done|]. split; [done|]. exists [].
    split; [by rewrite app_nil_r|]. split; [apply consistent_nil|]. unfold zlen. cbn. split; [lia|]. split; [lia|]. right. by left. }
  rewrite Epos. set (pos := str_readOffset s - sfs_readPosition (str_frameQueue s)) in *.
  assert (Hpd : pos = str_readOffset s - sfs_readPosition (str_frameQueue s)) by done.
  pose proof (si_read _ _ _ (ri_sorter _ Hi)). pose proof (ri_offset _ Hi).
  set (m := Z.min n (DataLen fr - pos)).
  assert (Hm : 0 <= m <= n /\ m <= DataLen fr - pos /\ (m = n \/ m = DataLen fr - pos)) by (unfold m; lia).
  rewrite Z.gtb_ltb, (proj2 (Z.ltb_ge _ _)) by lia.
  rewrite (proj2 (Z.ltb_ge pos 0)) by lia. rewrite add64_small by lia.
  set (read := take (Z.to_nat m) (drop (Z.to_nat pos) (sf_Data fr))).
  assert (Hrl : zlen read = m).
  { unfold read. apply zlen_take. rewrite zlen_drop; unfold DataLen in *; lia. }
  assert (Hrc : consistent D (str_readOffset s) read).
  { apply consistent_take. replace (str_readOffset s) with (sf_Offset fr + pos) by lia.
    apply consistent_drop; [lia|apply Hok]. }
  set (s1 := str_set_reading s (pos + m) (str_readOffset s + m)).
  rewrite Z.geb_leb. destruct (DataLen fr <=? pos + m) eqn:El; bool_to_prop.
  - assert (Hpop : exists q', Pop (str_frameQueue s) = (q', Some fr)) by (unfold Pop; rewrite Eh; by eexists).
    destruct Hpop as [q' Hpop]. destruct (Pop_inv D N HNmax _ _ _ (ri_sorter _ Hi) Hpop) as (Hq & Hrp & _ & _).
    change (Pop (str_frameQueue s1)) with (Pop (str_frameQueue s)). rewrite Hpop. cbn [fst].
    assert (Hi' : read_inv (str_set_queue s1 q')) by (split; cbn; [done|lia|left; lia]).
    destruct (sf_FinBit fr) eqn:Ef.
    + do 4 eexists. split; [done|]. split; [by destruct Hi'; split|]. split; [done|]. split; [done|].
      exists read. split; [done|]. split; [done|]. cbn. split; [lia|]. split; [lia|]. left. split; [done|]. by exists fr.
    + do 4 eexists. split; [done|]. split; [done|]. split; [done|]. split; [done|]. split; [done|]. cbn.
      assert (DataLen fr <> 0) by (intros E0; apply (fr_empty _ _ _ Hok) in E0 as [? _]; congruence). lia.
  - do 4 eexists. split; [done|]. split; [split; cbn; [apply Hi|lia|right; exists fr; split; [done|lia]]|].
    split; [done|]. split; [done|]. split; [done|]. cbn. lia.
Qed.

(** How [Read] ends. *)
Definition read_ok (s s' : stream) (n : Z) (r : readResult) : Prop :=
  match r with
  | ReadWaits => s' = s /\ 0 < n /\ Head (str_frameQueue s) = None
  | ReadReturns d e =>
      consistent D (str_readOffset s) d /\ zlen d <= n /\ str_readOffset s' = str_readOffset s + zlen d /\
      (e = None -> zlen d = n \/ (d <> [] /\ Head (str_frameQueue s') = None))
  end.

Lemma consistent_app_at off data more :
  consistent D off data -> consistent D (off + zlen data) more -> consistent D off (data ++ more).
Proof.
  intros Hd Hm i b Hb. apply lookup_app_Some in Hb as [Hb|[Hi Hb]]; [by apply Hd|].
  apply Hm in Hb. rewrite Hb. f_equal. unfold zlen. lia.
Qed.

Lemma readLoop_ok fuel clock s f n data off :
  read_inv s -> running s -> 0 <= n -> n < Z.of_nat fuel ->
  str_readOffset s = off + zlen data -> consistent D off data ->
  exists s' f' evs r, readLoop fuel clock s f n data = Some (Ok (s', f', evs, r)) /\ read_inv s' /\ running s' /\
    match r with
    | ReadWaits => data = [] /\ s' = s /\ 0 < n /\ Head (str_frameQueue s) = None
    | ReadReturns d e => consistent D off d /\ zlen d <= zlen data + n /\ str_readOffset s' = off + zlen d /\
        (e = None -> zlen d = zlen data + n \/ (d <> [] /\ Head (str_frameQueue s') = None))
    end.
Proof.
  revert s f n data. induction fuel as [|fuel IH]; intros s f n data Hi Hr Hn Hf Ho Hc; [lia|]. cbn [readLoop].
  destruct (n <=? 0) eqn:En; bool_to_prop.
  { do 4 eexists. split; [done|]. split; [done|]. split; [done|]. split; [done|]. split; [lia|]. split; [done|].
    intros _. left. lia. }
  destruct (readIteration_ok s f n data (clock fuel) Hi Hr ltac:(lia)) as (s1 & f1 & evs & step & -> & Hi1 & Hr1 & He1 & Hs).
  destruct step as [[d e|]|read].
  - destruct Hs as (read & -> & Hrc & Hrl & Hro & Hend). do 4 eexists. split; [done|]. split; [done|]. split; [done|].
    rewrite Ho in Hrc. split; [by apply consistent_app_at|]. rewrite zlen_app. split; [lia|]. split; [lia|].
    intros ->. right. destruct Hend as [(? & _)|[(? & _)|(_ & -> & Hd & -> & Hh)]]; [done|done|].
    rewrite app_nil_r. done.
  - destruct Hs as (-> & -> & Hh). do 4 eexists. split; [done|]. done.
  - destruct Hs as (Hrc & Hrl & Hro). rewrite Ho in Hrc.
    destruct (IH s1 f1 (n - zlen read) (data ++ read)) as (s' & f' & evs' & r & -> & Hi' & Hr' & Hres); try done; try lia.
    + rewrite zlen_app. lia.
    + by apply consistent_app_at.
    + do 4 eexists. split; [done|]. split; [done|]. split; [done|]. destruct r as [d e|].
      * destruct Hres as (H1 & H2 & H3 & H4). rewrite zlen_app in *. split; [done|]. split; [lia|]. split; [done|].
        intros ->. destruct (H4 eq_refl); [left; lia|by right].
      * destruct Hres as (Hnil & _). apply app_eq_nil in Hnil as [_ ->]. unfold zlen in Hrl. cbn in Hrl. lia.
Qed.
End read.

(** ** Runs *)

(** The operations of the write side and of the life cycle.  The application may reset
    a stream without an error, as h2quic/server.go does; the session passes an error
    when the peer resets it (session.go).  A FIN is sent when [shouldSendFin] asks for it. *)
Inductive stream_op : Type :=
| OpWrite (p : list Z) (now : Z)
| OpGetData (maxBytes : Z)
| OpClose
| OpSendFin
| OpDeadline (t : Z)
| OpReadDeadline (t : Z)
| OpWriteDeadline (t : Z)
| OpCancel (e : option error)
| OpReset (e : option error)
| OpRemoteError (e : error).

Definition str_do (s : stream) (o : stream_op) : stream * list stream_event :=
  match o with
  | OpWrite p now => ((Write s p now).1.1, (Write s p now).1.2)
  | OpGetData n => ((getDataForWriting s n).1, [])
  | OpClose => Close s
  | OpSendFin => (if shouldSendFin s then sentFin s else s, [])
  | OpDeadline t => (SetDeadline s t, [])
  | OpReadDeadline t => (SetReadDeadline s t, [])
  | OpWriteDeadline t => (SetWriteDeadline s t, [])
  | OpCancel e => (Cancel s e, [])
  | OpReset e => Reset s e
  | OpRemoteError e => RegisterRemoteError s (Some e)
  end.

(** What the peer learns of the stream, in order: the data that is taken for sending, the
    FIN, and the reset with its offset and the data that may still be taken after it. *)
Inductive life_event : Type :=
| LTaken (d : list Z)
| LFin
| LReset (streamID offset : Z) (left : list Z).

Definition pending (s : stream) : list Z := default [] (str_dataForWriting s).
Definition takeable (s : stream) : list Z := if isSet (str_err s) then [] else pending s.

Definition resets_of (s' : stream) (evs : list stream_event) : list life_event :=
  omap (fun e => match e with EvReset id off => Some (LReset id off (takeable s')) | EvData => None end) evs.

Definition life_of (s : stream) (o : stream_op) : list life_event :=
  match o with
  | OpGetData n => [LTaken (default [] (getDataForWriting s n).2)]
  | OpSendFin => if shouldSendFin s then [LFin] else []
  | _ => resets_of (str_do s o).1 (str_do s o).2
  end.

(** A Read that waited goes on when it is woken up.  When the stream was reset without
    an error in the meantime it does not get here: see [reset_nil_panics_reader]. *)
Definition wakeable (s : stream) : Prop := running s \/ str_err s <> None.

(** One step, with the data it hands to the reader and what the peer learns; received
    frames are frames of the stream with content [D] and length [N]. *)
Inductive str_step (D : Z -> Z) (N : Z) (s : stream) : list Z -> list life_event -> stream -> Prop :=
| st_op o : match o with OpGetData n => 0 <= n | _ => True end -> str_step D N s [] (life_of s o) (str_do s o).1
| st_add f frame s' f' :
    frame_ok D N frame -> AddStreamFrame s f frame = Ok (s', f', None) -> str_step D N s [] [] s'
| st_read fuel clock f n s' f' evs r :
    0 <= n < Z.of_nat fuel -> Read fuel clock s f n = Some (Ok (s', f', evs, r)) ->
    str_step D N s (match r with ReadReturns d _ => d | ReadWaits => [] end) (resets_of s' evs) s'
| st_wake fuel clock f n s' f' evs r :
    0 < n < Z.of_nat fuel -> wakeable s -> readLoop fuel clock s f n [] = Some (Ok (s', f', evs, r)) ->
    str_step D N s (match r with ReadReturns d _ => d | ReadWaits => [] end) (resets_of s' evs) s'.

Inductive str_reach (D : Z -> Z) (N id : Z) : list Z -> list life_event -> stream -> Prop :=
| sr_new : str_reach D N id [] [] (newStr id)
| sr_step out tr s data tr' s' :
    str_reach D N id out tr s -> str_step D N s data tr' s' ->
    str_reach D N id (out ++ data) (tr ++ tr') s'.

(** What the read side of a stream consists of. *)
Definition same_read (s s' : stream) : Prop :=
  str_frameQueue s' = str_frameQueue s /\ str_readOffset s' = str_readOffset s.

Lemma str_do_read s o : same_read s (str_do s o).1.
Proof.
  destruct o; cbn [str_do fst]; try done.
  - unfold Write. by repeat case_match.
  - unfold getDataForWriting. by repeat case_match.
  - by case_match.
  - unfold SetDeadline, SetWriteDeadline, SetReadDeadline. by repeat case_match.
  - unfold SetReadDeadline. by case_match.
  - unfold SetWriteDeadline. by case_match.
  - unfold Cancel. by case_match.
  - unfold Reset, maybeSendReset. by repeat case_match.
  - unfold RegisterRemoteError, maybeSendReset. by repeat case_match.
Qed.

Section reach.
Variables (D : Z -> Z) (N : Z).
Hypothesis HN : 0 <= N < 2 ^ 63.

Lemma read_inv_same s s' : same_read s s' -> read_inv D N s -> read_inv D N s'.
Proof. intros [Eq Eo] []. split; rewrite ?Eq, ?Eo; done. Qed.

(** The head of the queue lies below every gap. *)
Lemma head_below_gaps q f : sorter_inv D N q -> Head q = Some f -> 0 < DataLen f ->
  forall x, in_gaps (sfs_gaps q) x -> sfs_readPosition q < x.
Proof.
  intros Hq Hh Hl x Hx. pose proof Hh as Hh'. unfold Head in Hh'. destruct (si_frames _ _ _ Hq _ _ Hh') as (_ & _ & Hrecv).
  pose proof (si_gaps _ _ _ Hq) as Hg. pose proof (si_tiled _ _ _ Hq) as Ht.
  destruct (sfs_gaps q) as [|g l] eqn:Eg; [by apply in_gaps_nil in Hx|]. destruct Hg as [Hgs Hgl], Ht as [Hc _].
  pose proof (chain_le _ _ _ Hc). assert (bi_Start g <> sfs_readPosition q).
  { intros E. apply (Hrecv (sfs_readPosition q)); [lia|]. apply in_gaps_cons. left. lia. }
  apply in_gaps_cons in Hx as [Hx|Hx]; [lia|]. pose proof (in_gaps_ge _ _ _ Hgl Hx). lia.
Qed.

Lemma add_read_inv s f frame s' f' :
  read_inv D N s -> frame_ok D N frame -> AddStreamFrame s f frame = Ok (s', f', None) ->
  read_inv D N s' /\ str_readOffset s' = str_readOffset s.
Proof.
  intros Hi Hok. unfold AddStreamFrame. destruct (UpdateHighestReceived _ _ _) as [f1 [e1|]]; [done|].
  destruct (Push_spec D N (HNmax N HN) (str_frameQueue s) frame (ri_sorter _ _ _ Hi) Hok) as (q & e & -> & Ho). cbn [bind fst snd].
  assert (Hgo : e = None \/ e = Some errDuplicateStreamData -> read_inv D N (signalRead (str_set_queue s q)) /\
    str_readOffset (signalRead (str_set_queue s q)) = str_readOffset s).
  { intros He. split; [|done]. destruct Ho as [(_ & -> & _)|[(-> & _)|(_ & [Hq Hlow] & Hr & _)]]; [by destruct Hi| |].
    - destruct He as [He|He]; done.
    - destruct Hi as [H1 H2 H3]. split; cbn; rewrite ?Hr; try done. destruct H3 as [H3|(g & Hg & H3)]; [by left|].
      right. exists g. split; [|done]. unfold Head in *. rewrite Hr, Hlow; [done|].
      apply (head_below_gaps _ g); [done|done|lia]. }
  destruct e as [e|]; [|intros [= <- <-]; apply Hgo; by left].
  case_bool_decide as Ee; [|done]. intros [= <- <-]. apply Hgo. right. congruence.
Qed.

(** What a Read into [n] bytes came to. *)
Definition read_result (off : Z) (s s' : stream) (n : Z) (r : readResult) : Prop :=
  match r with
  | ReadReturns d e =>
      consistent D off d /\ zlen d <= n /\ str_readOffset s' = str_readOffset s + zlen d /\
      (running s -> e = None -> zlen d = n \/ (d <> [] /\ Head (str_frameQueue s') = None)) /\
      (~ running s -> d = [] /\ e = str_err s)
  | ReadWaits => running s /\ 0 < n /\ Head (str_frameQueue s) = None /\ s' = s
  end.

Lemma running_loop fuel clock s f n :
  read_inv D N s -> running s -> 0 <= n < Z.of_nat fuel ->
  exists s' f' evs r, readLoop fuel clock s f n [] = Some (Ok (s', f', evs, r)) /\ read_inv D N s' /\
    read_result (str_readOffset s) s s' n r.
Proof.
  intros Hi Hrun Hn.
  destruct (readLoop_ok D N HN fuel clock s f n [] (str_readOffset s)) as (s' & f' & evs & r & -> & Hi' & Hr' & Hres);
    try done; try lia; try (unfold zlen; cbn; lia); try apply consistent_nil.
  exists s', f', evs, r. split; [done|]. split; [done|]. assert (H0 : zlen (@nil Z) = 0) by done. destruct r as [d e|].
  - destruct Hres as (H1 & H2 & H3 & H4). split; [done|]. split; [lia|]. split; [done|].
    split; [intros _ He; destruct (H4 He); [left; lia|by right]|]. done.
  - destruct Hres as (_ & -> & Hn' & Hh). done.
Qed.

(** A stream that was reset or cancelled gives its error, and nothing else. *)
Lemma stopped_result s n : ~ running s -> 0 <= n -> read_result (str_readOffset s) s s n (ReadReturns [] (str_err s)).
Proof. intros Hr Hn. split; [apply consistent_nil|]. unfold zlen. cbn. split_and!; try lia; done. Qed.

(** [Read] returns, without a panic. *)
Lemma Read_total fuel clock s f n :
  read_inv D N s -> 0 <= n < Z.of_nat fuel ->
  exists s' f' evs r, Read fuel clock s f n = Some (Ok (s', f', evs, r)) /\ read_inv D N s' /\
    read_result (str_readOffset s) s s' n r.
Proof.
  intros Hi Hn. unfold Read. destruct (str_cancelled s || str_resetLocally s) eqn:E1.
  { do 4 eexists. split; [done|]. split; [done|]. apply stopped_result; [|lia].
    intros [Ha Hb]. by rewrite Ha, Hb in E1. }
  apply orb_false_iff in E1 as [Ec Er]. destruct (str_finishedReading s) eqn:Ef; [|by apply running_loop].
  do 4 eexists. split; [done|]. split; [done|]. split; [apply consistent_nil|]. unfold zlen. cbn. split_and!; try lia; try done.
  intros Hx. by destruct Hx.
Qed.

Lemma wake_total fuel clock s f n :
  read_inv D N s -> wakeable s -> 0 < n < Z.of_nat fuel ->
  exists s' f' evs r, readLoop fuel clock s f n [] = Some (Ok (s', f', evs, r)) /\ read_inv D N s' /\
    read_result (str_readOffset s) s s' n r.
Proof.
  intros Hi Hw Hn. destruct (str_resetLocally s || str_cancelled s) eqn:E1.
  - assert (Hnr : ~ running s) by (intros [Ha Hb]; by rewrite Ha, Hb in E1). destruct Hw as [Hw|Hw]; [done|].
    destruct fuel as [|fuel]; [lia|]. cbn [readLoop]. rewrite (proj2 (Z.leb_gt n 0)) by lia.
    unfold readIteration. rewrite E1. destruct (str_err s) as [e|] eqn:Ee; [|done]. cbn [andb isSet].
    exists s, f, [], (ReadReturns [] (Some e)). rewrite <- Ee. split; [by destruct (Head _)|]. split; [done|].
    apply stopped_result; [done|lia].
  - apply orb_false_iff in E1. apply running_loop; [done|done|lia].
Qed.

Lemma read_result_out out s s' n r : str_readOffset s = zlen out -> consistent D 0 out -> read_result (str_readOffset s) s s' n r ->
  let out' := out ++ match r with ReadReturns d _ => d | ReadWaits => [] end in
  str_readOffset s' = zlen out' /\ consistent D 0 out'.
Proof.
  intros Ho Hc Hres. destruct r as [d e|]; cbn.
  - destruct Hres as (H1 & _ & H3 & _). rewrite zlen_app, H3, Ho. split; [done|].
    apply consistent_app_at; [done|]. by rewrite Z.add_0_l, <- Ho.
  - destruct Hres as (_ & _ & _ & ->). by rewrite app_nil_r.
Qed.

(** The data handed out so far is the beginning of the stream. *)
Lemma str_reach_read id out tr s :
  str_reach D N id out tr s -> read_inv D N s /\ str_readOffset s = zlen out /\ consistent D 0 out.
Proof.
  induction 1 as [|out tr s data tr' s' _ (Hi & Ho & Hc) Hstep].
  { split; [by apply new_read_inv|]. split; [done|apply consistent_nil]. }
  destruct Hstep as [o _|f frame s' f' Hok Ha|fuel clock f n s' f' evs' r Hn Hr|fuel clock f n s' f' evs' r Hn Hw Hr].
  - destruct (str_do_read s o) as [Eq Eo]. rewrite app_nil_r. split; [by apply (read_inv_same s)|]. by rewrite Eo.
  - destruct (add_read_inv s f frame s' f' Hi Hok Ha) as [Hi' Eo]. rewrite app_nil_r, Eo. done.
  - destruct (Read_total fuel clock s f n Hi Hn) as (s2 & f2 & evs2 & r2 & E & Hi' & Hres). rewrite Hr in E.
    injection E as <- <- <- <-. split; [done|]. by apply (read_result_out out s s' n).
  - destruct (wake_total fuel clock s f n Hi Hw Hn) as (s2 & f2 & evs2 & r2 & E & Hi' & Hres). rewrite Hr in E.
    injection E as <- <- <- <-. split; [done|]. by apply (read_result_out out s s' n).
Qed.
End reach.


(** ** The life cycle *)

(** The flags of a stream only move forward, and its error is set once. *)
Record advances (s s' : stream) : Prop := {
  adv_streamID : str_streamID s' = str_streamID s;
  adv_err : forall e, str_err s = Some e -> str_err s' = Some e;
  adv_cancelled : str_cancelled s = true -> str_cancelled s' = true;
  adv_finishedReading : str_finishedReading s = true -> str_finishedReading s' = true;
  adv_finishedWriting : str_finishedWriting s = true -> str_finishedWriting s' = true;
  adv_resetLocally : str_resetLocally s = true -> str_resetLocally s' = true;
  adv_resetRemotely : str_resetRemotely s = true -> str_resetRemotely s' = true;
  adv_finSent : str_finSent s = true -> str_finSent s' = true;
  adv_rstSent : str_rstSent s = true -> str_rstSent s' = true;
}.

Ltac solve_advances := split; cbn; congruence.

#[global] Instance advances_preorder : PreOrder advances.
Proof. split; [intros s; by split|]. intros s1 s2 s3 [] []. split; eauto; congruence. Qed.

Lemma advances_finished s s' : advances s s' -> str_finished s = true -> str_finished s' = true.
Proof.
  intros []. unfold str_finished, finishedWriteAndSentFin. rewrite !orb_true_iff, !andb_true_iff. naive_solver.
Qed.

(** The write side of a stream. *)
Definition same_write (s s' : stream) : Prop :=
  str_writeOffset s' = str_writeOffset s /\ str_dataForWriting s' = str_dataForWriting s /\
  str_err s' = str_err s /\ str_finSent s' = str_finSent s /\ str_rstSent s' = str_rstSent s /\
  str_finishedWriting s' = str_finishedWriting s /\ str_resetLocally s' = str_resetLocally s.

#[global] Instance same_write_preorder : PreOrder same_write.
Proof. split; [by intros s|]. unfold same_write. intros s1 s2 s3. intuition congruence. Qed.

(** What [Read] and received frames leave alone. *)
Definition reads (s s' : stream) : Prop := same_write s s' /\ advances s s'.

#[global] Instance reads_preorder : PreOrder reads.
Proof. split; [intros s; by split|]. intros s1 s2 s3 [] []. split; by etrans. Qed.

Lemma readIteration_reads s f n data now s' f' evs step :
  readIteration s f n data now = Ok (s', f', evs, step) -> reads s s' /\ forall id off, EvReset id off ∉ evs.
Proof.
  unfold readIteration. intros Hr.
  repeat first [case_match; simplify_eq/= | progress simplify_eq/=]; (split; [split; [done|solve_advances]|set_solver]).
Qed.

Lemma readLoop_reads fuel clock s f n data s' f' evs r :
  readLoop fuel clock s f n data = Some (Ok (s', f', evs, r)) -> reads s s' /\ forall id off, EvReset id off ∉ evs.
Proof.
  revert s f n data evs. induction fuel as [|fuel IH]; [done|]. intros s f n data evs. cbn [readLoop].
  destruct (n <=? 0); [intros [= <- <- <- <-]; split; [done|set_solver]|].
  destruct (readIteration s f n data (clock fuel)) as [[[[s1 f1] evs1] [r1|read]]| |] eqn:E; try done.
  - intros [= <- <- <- <-]. by eapply readIteration_reads.
  - destruct (readLoop fuel clock s1 f1 _ _) as [[[[[s2 f2] evs2] r2]| |]|] eqn:El; try done. intros [= <- <- <- <-].
    apply readIteration_reads in E as [E1 H1]. apply IH in El as [E2 H2]. split; [by etrans|]. set_solver.
Qed.

Lemma Read_reads fuel clock s f n s' f' evs r :
  Read fuel clock s f n = Some (Ok (s', f', evs, r)) -> reads s s' /\ forall id off, EvReset id off ∉ evs.
Proof.
  unfold Read. repeat case_match; [intros [= <- <- <- <-]; split; [done|set_solver]..|]. apply readLoop_reads.
Qed.

Lemma AddStreamFrame_reads s f frame s' f' e : AddStreamFrame s f frame = Ok (s', f', e) -> reads s s'.
Proof.
  unfold AddStreamFrame. destruct (UpdateHighestReceived _ _ _) as [f1 [e1|]]; [by intros [= <- <- <-]|].
  destruct (Push _ _) as [[q e1]| |]; [|done|done]. cbn [bind fst snd]. intros Ha.
  repeat case_match; simplify_eq/=; (split; [done|solve_advances]).
Qed.

Lemma str_do_advances s o : advances s (str_do s o).1.
Proof.
  destruct o; cbn [str_do fst];
    unfold Write, getDataForWriting, Close, sentFin, SetDeadline, SetReadDeadline, SetWriteDeadline, Cancel, Reset,
      RegisterRemoteError, maybeSendReset, isSet; repeat case_match; simplify_eq/=; solve_advances.
Qed.

Lemma str_step_advances D N s data tr s' : str_step D N s data tr s' -> advances s s'.
Proof.
  destruct 1 as [o _|f frame s' f' _ Ha|fuel clock f n s' f' evs r _ Hr|fuel clock f n s' f' evs r _ _ Hr].
  - apply str_do_advances.
  - by apply AddStreamFrame_reads in Ha as [_ Ha].
  - by apply Read_reads in Hr as [[_ Hr] _].
  - by apply readLoop_reads in Hr as [[_ Hr] _].
Qed.

(** The end of the write side: a FIN is sent when nothing is left to send; and a stream that
    sent a reset was reset by the application, which is why nothing more is written, or has an error. *)
Record ended (s : stream) : Prop := {
  en_fin : str_finSent s = true -> str_finishedWriting s = true /\ str_dataForWriting s = None;
  en_rst : str_rstSent s = true -> str_resetLocally s = true \/ str_err s <> None;
}.

Lemma shouldSendFin_spec s : shouldSendFin s = true <->
  str_finishedWriting s = true /\ str_finSent s = false /\ str_err s = None /\ str_dataForWriting s = None.
Proof.
  unfold shouldSendFin, isSet, isNil. destruct (str_finishedWriting s), (str_finSent s), (str_err s), (str_dataForWriting s);
    cbn; intuition congruence.
Qed.

(** A step of which the peer learns nothing. *)
Record quiet (s s' : stream) : Prop := {
  qu_offset : str_writeOffset s' = str_writeOffset s;
  qu_rst : str_rstSent s' = str_rstSent s;
  qu_fin : str_finSent s' = str_finSent s;
  qu_ended : ended s';
  qu_left : str_rstSent s = true -> takeable s' `prefix_of` takeable s;
}.

Lemma same_write_quiet s s' : same_write s s' -> ended s -> quiet s s'.
Proof.
  intros (E1 & E2 & E3 & E4 & E5 & E6 & E7) []. split; try done; [split; rewrite ?E2, ?E3, ?E4, ?E5, ?E6, ?E7; done|].
  unfold takeable, pending. by rewrite E2, E3.
Qed.

(** A step that leaves the data alone, and may set the error. *)
Lemma silent_quiet s s' : str_writeOffset s' = str_writeOffset s -> str_dataForWriting s' = str_dataForWriting s ->
  str_rstSent s' = str_rstSent s -> str_finSent s' = str_finSent s -> advances s s' -> ended s -> quiet s s'.
Proof.
  intros E1 E2 E3 E4 [] [H1 H2]. split; try done.
  - split; rewrite ?E2, ?E3, ?E4; [naive_solver|]. intros Hr. destruct (H2 Hr) as [?|He]; [auto|].
    right. destruct (str_err s) as [e|]; [|done]. by rewrite (adv_err0 e).
  - intros _. unfold takeable, pending. rewrite E2. destruct (str_err s) as [e|]; [by rewrite (adv_err0 e)|].
    destruct (str_err s'); [apply prefix_nil|done].
Qed.

Lemma Write_quiet s p now : ended s -> quiet s (Write s p now).1.1.
Proof.
  intros He. assert (Hs : quiet s s) by (by apply same_write_quiet). unfold Write.
  destruct (_ || _) eqn:Ec; [done|]. destruct (str_finishedWriting s) eqn:Ef; [done|]. destruct (zlen p =? 0); [done|].
  apply orb_false_iff in Ec as [Er Ee]. destruct He as [H1 H2]. split; try done.
  - split; cbn; [|done]. intros Hs'. destruct (H1 Hs'). congruence.
  - intros Hr. destruct (H2 Hr) as [?|Hn]; [congruence|]. by destruct (str_err s).
Qed.

(** The operations that may send a reset. *)
Definition reset_step (s s' : stream) (evs : list stream_event) : Prop :=
  (evs = [] /\ quiet s s') \/
  (evs = [EvReset (str_streamID s) (str_writeOffset s)] /\ str_rstSent s = false /\ str_rstSent s' = true /\
   str_finSent s = false /\ str_finSent s' = false /\ str_writeOffset s' = str_writeOffset s /\ ended s').

Lemma maybeSendReset_step s s1 :
  advances s s1 -> str_writeOffset s1 = str_writeOffset s -> str_dataForWriting s1 = str_dataForWriting s ->
  str_rstSent s1 = str_rstSent s -> str_finSent s1 = str_finSent s -> str_finishedWriting s1 = str_finishedWriting s ->
  (str_resetLocally s1 = true \/ str_err s1 <> None) -> ended s ->
  reset_step s (maybeSendReset s1).1 (maybeSendReset s1).2.
Proof.
  intros Ha E1 E2 E3 E4 E5 Hend He. unfold maybeSendReset. destruct (shouldSendReset s1) eqn:Es; cbn [fst snd].
  - unfold shouldSendReset, finishedWriteAndSentFin in Es. destruct (str_rstSent s1) eqn:Er; [done|].
    apply andb_true_iff in Es as [_ Ef%negb_true_iff]. right. rewrite (adv_streamID _ _ Ha), E1. destruct He as [H1 _].
    assert (Hf : str_finSent s = false).
    { destruct (str_finSent s) eqn:Hf; [|done]. destruct (H1 eq_refl) as [Hw _]. by rewrite E5, Hw, E4 in Ef. }
    split_and!; cbn; try congruence. split; cbn; [congruence|done].
  - left. split; [done|]. by apply silent_quiet.
Qed.

Lemma Reset_step s e : ended s -> reset_step s (Reset s e).1 (Reset s e).2.
Proof.
  intros He. unfold Reset. destruct (str_resetLocally s) eqn:Er; [left; split; [done|by apply same_write_quiet]|].
  apply maybeSendReset_step; try done; unfold isSet; cbn; destruct (str_err s) eqn:Ee; cbn; try done; try solve_advances; by left.
Qed.

Lemma RegisterRemoteError_step s e : ended s -> reset_step s (RegisterRemoteError s (Some e)).1 (RegisterRemoteError s (Some e)).2.
Proof.
  intros He. unfold RegisterRemoteError. destruct (str_resetRemotely s) eqn:Er; [left; split; [done|by apply same_write_quiet]|].
  apply maybeSendReset_step; try done; unfold isSet; cbn; destruct (str_err s) eqn:Ee; cbn; try done; try solve_advances; right; by rewrite ?Ee.
Qed.

(** ** What the peer learns *)

Definition taken (tr : list life_event) : list Z := concat (omap (fun e => match e with LTaken d => Some d | _ => None end) tr).
Definition is_reset (e : life_event) : bool := match e with LReset _ _ _ => true | _ => false end.
Definition is_fin (e : life_event) : bool := match e with LFin => true | _ => false end.

Lemma taken_app tr tr' : taken (tr ++ tr') = taken tr ++ taken tr'.
Proof. unfold taken. by rewrite omap_app, concat_app. Qed.

(** The trace [tr] of a stream that is [s] now. *)
Record life_inv (id : Z) (tr : list life_event) (s : stream) : Prop := {
  li_id : str_streamID s = id;
  li_offset : str_writeOffset s = u64 (zlen (taken tr));
  li_ended : ended s;
  li_rstSent : str_rstSent s = existsb is_reset tr;
  li_finSent : str_finSent s = existsb is_fin tr;
  li_reset : forall pre i off left post, tr = pre ++ LReset i off left :: post ->
    i = id /\ off = u64 (zlen (taken pre)) /\ existsb is_reset (pre ++ post) = false /\ existsb is_fin pre = false /\
    (taken post ++ takeable s) `prefix_of` left;
  li_fin : forall pre post, tr = pre ++ LFin :: post -> existsb is_fin (pre ++ post) = false /\ taken post = [];
}.

Lemma life_quiet id tr s s' : life_inv id tr s -> advances s s' -> quiet s s' -> life_inv id tr s'.
Proof.
  intros [] Ha [Q1 Q2 Q3 Q4 Q5]. split; rewrite ?Q1, ?Q2, ?Q3, ?(adv_streamID _ _ Ha); try done.
  intros pre i off left post E. destruct (li_reset0 _ _ _ _ _ E) as (H1 & H2 & H3 & H4 & H5). split_and!; try done.
  etrans; [|exact H5]. apply prefix_app. apply Q5. rewrite li_rstSent0, E, existsb_app. cbn. by rewrite orb_true_r.
Qed.

Lemma take_step s n : 0 <= n ->
  let s' := (getDataForWriting s n).1 in let d := default [] (getDataForWriting s n).2 in
  takeable s = d ++ takeable s' /\ str_writeOffset s' = u64 (str_writeOffset s + zlen d) \/ s' = s /\ d = [].
Proof.
  intros Hn. unfold getDataForWriting, takeable, pending. destruct (str_err s) eqn:Ee; [by right|].
  destruct (str_dataForWriting s) as [p|]; [|by right]. left. destruct (zlen p >? n); cbn; rewrite ?Ee; cbn; [by rewrite take_drop|by rewrite app_nil_r].
Qed.

Lemma take_keeps s n : let s' := (getDataForWriting s n).1 in
  str_rstSent s' = str_rstSent s /\ str_finSent s' = str_finSent s /\ (ended s -> ended s').
Proof.
  unfold getDataForWriting. destruct (str_err s) eqn:Ee; [done|]. destruct (str_dataForWriting s) eqn:Ed; [|done].
  cbv zeta. split; [by case_match|]. split; [by case_match|]. intros [H1 H2]. rewrite Ed in H1.
  case_match; split; cbn; rewrite ?Ee; try done; naive_solver.
Qed.

Lemma life_take id tr s n : 0 <= n -> life_inv id tr s ->
  life_inv id (tr ++ [LTaken (default [] (getDataForWriting s n).2)]) (getDataForWriting s n).1.
Proof.
  intros Hn []. destruct (take_keeps s n) as (K1 & K2 & K3). pose proof (take_step s n Hn) as Ht. cbv zeta in *.
  set (s' := (getDataForWriting s n).1) in *. set (d := default [] _) in *.
  assert (Hd : takeable s = d ++ takeable s' /\ str_writeOffset s' = u64 (str_writeOffset s + zlen d)).
  { destruct Ht as [Ht|[-> ->]]; [done|]. split; [done|]. rewrite Z.add_0_r, li_offset0. unfold u64, wrap. by rewrite Zmod_mod. }
  destruct Hd as [Hd Ho]. split.
  - unfold s', getDataForWriting. by repeat case_match.
  - rewrite Ho, li_offset0, taken_app, zlen_app. unfold taken. cbn. rewrite app_nil_r. unfold u64, wrap. by rewrite Zplus_mod_idemp_l.
  - auto.
  - rewrite existsb_app. cbn. by rewrite orb_false_r, K1.
  - rewrite existsb_app. cbn. by rewrite orb_false_r, K2.
  - intros pre i off left post [(_ & [=] & _)|(post0 & -> & E)]%split_snoc.
    destruct (li_reset0 _ _ _ _ _ E) as (H1 & H2 & H3 & H4 & H5). rewrite app_assoc, existsb_app. cbn. rewrite orb_false_r.
    split_and!; try done. rewrite taken_app. unfold taken at 2. cbn. rewrite app_nil_r, <- app_assoc, <- Hd. done.
  - intros pre post [(_ & [=] & _)|(post0 & -> & E)]%split_snoc. destruct (li_fin0 _ _ E) as [H1 H2].
    rewrite app_assoc, existsb_app, taken_app, H1, H2. split; [done|]. unfold taken. cbn. rewrite app_nil_r.
    assert (Hfs : str_finSent s = true) by (rewrite li_finSent0, E, existsb_app; cbn; by rewrite orb_true_r).
    destruct (en_fin _ li_ended0 Hfs) as [_ Hnone]. unfold d, getDataForWriting. rewrite Hnone. by destruct (str_err s).
Qed.

Lemma life_fin id tr s : shouldSendFin s = true -> life_inv id tr s -> life_inv id (tr ++ [LFin]) (sentFin s).
Proof.
  intros (Hw & Hf & Hn & Hd)%shouldSendFin_spec []. split; try done.
  - rewrite taken_app. cbn. by rewrite app_nil_r.
  - by destruct li_ended0; split.
  - rewrite existsb_app. cbn. by rewrite orb_false_r.
  - rewrite existsb_app. cbn. by rewrite orb_true_r.
  - intros pre i off left post [(_ & [=] & _)|(post0 & -> & E)]%split_snoc.
    destruct (li_reset0 _ _ _ _ _ E) as (H1 & H2 & H3 & H4 & H5). rewrite app_assoc, existsb_app, taken_app. cbn. rewrite orb_false_r, app_nil_r. done.
  - intros pre post [(-> & _ & ->)|(post0 & -> & E)]%split_snoc.
    + rewrite app_nil_r. split; [congruence|done].
    + rewrite E, existsb_app in li_finSent0. cbn in li_finSent0. rewrite orb_true_r in li_finSent0. congruence.
Qed.

Lemma life_reset id tr s s' evs : life_inv id tr s -> advances s s' -> reset_step s s' evs -> life_inv id (tr ++ resets_of s' evs) s'.
Proof.
  intros Hl Ha [[-> Hq]|(-> & R1 & R2 & R3 & R4 & R5 & R6)]; [rewrite app_nil_r; by apply (life_quiet id tr s)|].
  destruct Hl. cbn. split; try done.
  - by rewrite (adv_streamID _ _ Ha).
  - rewrite taken_app, R5. cbn. by rewrite app_nil_r.
  - rewrite existsb_app. cbn. by rewrite orb_true_r.
  - rewrite existsb_app. cbn. rewrite orb_false_r. congruence.
  - intros pre i off left post [(-> & [= -> -> ->] & ->)|(post0 & -> & E)]%split_snoc.
    + rewrite app_nil_r. split_and!; try done; congruence.
    + rewrite E, existsb_app in li_rstSent0. cbn in li_rstSent0. rewrite orb_true_r in li_rstSent0. congruence.
  - intros pre post [(_ & [=] & _)|(post0 & -> & E)]%split_snoc. rewrite E, existsb_app in li_finSent0. cbn in li_finSent0.
    rewrite orb_true_r in li_finSent0. congruence.
Qed.

Lemma no_resets s' evs : (forall id off, EvReset id off ∉ evs) -> resets_of s' evs = [].
Proof.
  induction evs as [|[|id off] evs IH]; intros Hn; [done| |].
  - apply IH. intros id off Hi. apply (Hn id off). by right.
  - destruct (Hn id off). by left.
Qed.

(** The operations that are neither a taking nor a FIN nor a reset. *)
Lemma str_do_quiet s o : ended s -> match o with OpGetData _ | OpSendFin | OpReset _ | OpRemoteError _ => False | _ => True end ->
  quiet s (str_do s o).1 /\ resets_of (str_do s o).1 (str_do s o).2 = [].
Proof.
  intros He Ho. pose proof (str_do_advances s o) as Ha. destruct o; try done; cbn [str_do fst snd] in *.
  - split; [by apply Write_quiet|]. unfold Write. by repeat case_match.
  - split; [|done]. by apply silent_quiet.
  - split; [|done]. apply silent_quiet; try done; unfold SetDeadline, SetWriteDeadline, SetReadDeadline; by repeat case_match.
  - split; [|done]. apply silent_quiet; try done; unfold SetReadDeadline; by repeat case_match.
  - split; [|done]. apply silent_quiet; try done; unfold SetWriteDeadline; by repeat case_match.
  - split; [|done]. apply silent_quiet; try done; unfold Cancel; by repeat case_match.
Qed.

Lemma str_step_life D N id tr s data tr' s' : life_inv id tr s -> str_step D N s data tr' s' -> life_inv id (tr ++ tr') s'.
Proof.
  intros Hl Hs. pose proof (str_step_advances D N s data tr' s' Hs) as Ha. pose proof (li_ended _ _ _ Hl) as He.
  destruct Hs as [o Ho|f frame s' f' _ Hadd|fuel clock f n s' f' evs r _ Hr|fuel clock f n s' f' evs r _ _ Hr].
  - destruct o; cbn [life_of]; try (match goal with |- life_inv _ (_ ++ resets_of (str_do ?s ?o).1 _) _ =>
      destruct (str_do_quiet s o He I) as [Hq ->]; rewrite app_nil_r; by apply (life_quiet id tr s) end).
    + by apply life_take.
    + cbn [str_do fst]. destruct (shouldSendFin s) eqn:Es; [by apply life_fin|by rewrite app_nil_r].
    + apply (life_reset id tr s); [done|done|by apply Reset_step].
    + apply (life_reset id tr s); [done|done|by apply RegisterRemoteError_step].
  - apply AddStreamFrame_reads in Hadd as [Hw _]. rewrite app_nil_r. apply (life_quiet id tr s); [done|done|by apply same_write_quiet].
  - apply Read_reads in Hr as [[Hw _] Hn]. rewrite no_resets, app_nil_r by done. apply (life_quiet id tr s); [done|done|by apply same_write_quiet].
  - apply readLoop_reads in Hr as [[Hw _] Hn]. rewrite no_resets, app_nil_r by done. apply (life_quiet id tr s); [done|done|by apply same_write_quiet].
Qed.

Lemma str_reach_life D N id out tr s : str_reach D N id out tr s -> life_inv id tr s.
Proof.
  induction 1 as [|out tr s data tr' s' _ IH Hs]; [|by apply (str_step_life D N id tr s data)].
  split; try done; [by intros []|by intros []].
Qed.

(** What happens to a stream later. *)
Definition later D N : relation stream := rtc (fun s s' => exists data tr, str_step D N s data tr s').

Lemma later_advances D N s s' : later D N s s' -> advances s s'.
Proof. induction 1 as [|s s1 s' (data & tr & Hs) _ IH]; [done|]. etrans; [by eapply str_step_advances|done]. Qed.

(** C7: the life cycle of a stream.  Whatever sequence of calls and received frames it
    goes through, its write offset is the number of bytes that were taken for sending; at
    most one RST_STREAM is sent, with the offset of what was taken until then, and never after a FIN;
    after a FIN, of which there is at most one, nothing is taken any more, and after a RST_STREAM nothing either, unless the stream was reset
    with a nil error: then only data that was waiting at the time may still be taken.
    The flags tell whether a FIN and a RST_STREAM were sent; the flags, the error of
    the stream and [finished] never go back. *)
Theorem stream_life_cycle D N id out tr s s' :
  str_reach D N id out tr s -> later D N s s' ->
  str_writeOffset s = u64 (zlen (taken tr)) /\
  (forall pre i off left post, tr = pre ++ LReset i off left :: post ->
     i = id /\ off = u64 (zlen (taken pre)) /\ existsb is_reset (pre ++ post) = false /\ existsb is_fin pre = false /\
     taken post `prefix_of` left) /\
  (forall pre post, tr = pre ++ LFin :: post -> existsb is_fin (pre ++ post) = false /\ taken post = []) /\
  str_rstSent s = existsb is_reset tr /\ str_finSent s = existsb is_fin tr /\
  advances s s' /\ (str_finished s = true -> str_finished s' = true).
Proof.
  intros Hr Hl. destruct (str_reach_life D N id out tr s Hr). pose proof (later_advances D N s s' Hl) as Ha.
  split_and!; try done; [|by apply advances_finished]. intros pre i off left post E.
  destruct (li_reset0 _ _ _ _ _ E) as (H1 & H2 & H3 & H4 & H5). split_and!; try done. etrans; [|exact H5]. by apply prefix_app_r.
Qed.

(** ** Writing *)

(** [Write] takes the data. *)
Definition writable (s : stream) : bool :=
  negb (str_resetLocally s || isSet (str_err s)) && negb (str_finishedWriting s).

Definition is_writing (o : stream_op) : bool :=
  match o with OpWrite _ _ | OpGetData _ => true | _ => false end.

(** The data the application wrote, the data that was taken for sending, and the
    length of what was written before the last [Write].  A [Write] begins when the
    data of the last one was taken. *)
Inductive wr_reach (id : Z) : list Z -> list Z -> Z -> stream -> Prop :=
| wr_new : wr_reach id [] [] 0 (newStr id)
| wr_write written sent base s p now :
    wr_reach id written sent base s -> str_dataForWriting s = None ->
    wr_reach id (written ++ if writable s then p else []) sent (zlen written) (Write s p now).1.1
| wr_take written sent base s n s' d :
    wr_reach id written sent base s -> 0 <= n -> getDataForWriting s n = (s', d) ->
    wr_reach id written (sent ++ default [] d) base s'
| wr_op written sent base s o :
    wr_reach id written sent base s -> is_writing o = false -> wr_reach id written sent base (str_do s o).1
| wr_frame written sent base s f frame s' f' e :
    wr_reach id written sent base s -> AddStreamFrame s f frame = Ok (s', f', e) -> wr_reach id written sent base s'
| wr_read written sent base s fuel clock f n s' f' evs r :
    wr_reach id written sent base s -> Read fuel clock s f n = Some (Ok (s', f', evs, r)) ->
    wr_reach id written sent base s'.

Lemma take_spec s n s' d : 0 <= n -> getDataForWriting s n = (s', d) ->
  pending s = default [] d ++ pending s' /\ str_writeOffset s' = u64 (str_writeOffset s + zlen (default [] d)) \/
  d = None /\ s' = s.
Proof.
  intros Hn. unfold getDataForWriting, pending. destruct (str_err s); [intros [= <- <-]; by right|].
  destruct (str_dataForWriting s) as [p|]; [|intros [= <- <-]; by right]. case_match; intros [= <- <-]; left; cbn.
  - by rewrite take_drop.
  - by rewrite app_nil_r.
Qed.

Lemma Write_spec s p now : str_dataForWriting s = None ->
  pending (Write s p now).1.1 = (if writable s then p else []) /\
  str_writeOffset (Write s p now).1.1 = str_writeOffset s.
Proof.
  intros Hd. unfold Write, writable, pending. destruct (_ || _); [cbn; by rewrite Hd|]. cbn [negb andb].
  destruct (str_finishedWriting s); [cbn; by rewrite Hd|]. cbn [negb]. destruct (zlen p =? 0) eqn:E; [|done]. cbn. rewrite Hd.
  bool_to_prop. destruct p; [done|]. unfold zlen in E. cbn in E. lia.
Qed.

Lemma str_do_writing s o : is_writing o = false ->
  str_dataForWriting (str_do s o).1 = str_dataForWriting s /\ str_writeOffset (str_do s o).1 = str_writeOffset s.
Proof.
  destruct o; try done; intros _; cbn [str_do fst];
    unfold Close, sentFin, SetDeadline, SetReadDeadline, SetWriteDeadline, Cancel, Reset, RegisterRemoteError,
      maybeSendReset; repeat case_match; done.
Qed.

Lemma wr_reach_inv id written sent base s : wr_reach id written sent base s ->
  written = sent ++ pending s /\ str_writeOffset s = u64 (zlen sent) /\ 0 <= base <= zlen sent.
Proof.
  induction 1 as [|written sent base s p now _ (IH1 & IH2 & IH3) Hd|written sent base s n s' d _ (IH1 & IH2 & IH3) Hn Hg
    |written sent base s o _ (IH1 & IH2 & IH3) Ho|written sent base s f frame s' f' e _ (IH1 & IH2 & IH3) Ha
    |written sent base s fuel clock f n s' f' evs r _ (IH1 & IH2 & IH3) Hr]; [done|..].
  - destruct (Write_spec s p now Hd) as [-> ->]. unfold pending in IH1. rewrite Hd in IH1. cbn in IH1.
    rewrite app_nil_r in IH1. subst written. split; [done|]. split; [done|]. unfold zlen. lia.
  - destruct (take_spec s n s' d Hn Hg) as [[Hp Ho]|[-> ->]].
    + rewrite <- app_assoc, <- Hp. split; [done|]. rewrite Ho, IH2, zlen_app. split.
      * unfold u64, wrap. by rewrite Zplus_mod_idemp_l.
      * unfold zlen in *. lia.
    + cbn. by rewrite app_nil_r.
  - unfold pending. destruct (str_do_writing s o Ho) as [-> ->]. done.
  - apply AddStreamFrame_reads in Ha as [(E1 & E2 & _) _]. unfold pending. by rewrite E1, E2.
  - apply Read_reads in Hr as [[(E1 & E2 & _) _] _]. unfold pending. by rewrite E1, E2.
Qed.

(** What is sent is what was written.  However the data of a stream is cut into
    frames, and whatever else happens to the stream, the bytes taken for sending are
    a prefix of the bytes the application wrote, the write offset is their number,
    the next ones taken are those that follow, at most as many as asked for; and a
    Write that ends other than by its deadline tells how many of its bytes were
    taken. *)
Theorem written_is_sent id written sent base s n now :
  wr_reach id written sent base s -> zlen written < 2 ^ 64 -> 0 <= n ->
  written = sent ++ pending s /\ str_writeOffset s = zlen sent /\
  (forall d, (getDataForWriting s n).2 = Some d -> d = take (Z.to_nat n) (pending s)) /\
  match writePoll s (zlen written - base) now with
  | WriteReturns k e => e = Some errDeadline \/ zlen sent = base + k
  | WriteWaits => str_dataForWriting s <> None /\ str_err s = None
  end.
Proof.
  intros Hr Hw Hn. destruct (wr_reach_inv id written sent base s Hr) as (Hs & Ho & Hb). split; [done|].
  assert (Hl : zlen written = zlen sent + zlen (pending s)) by (rewrite Hs, zlen_app; done).
  assert (0 <= zlen (pending s)) by (unfold zlen; lia).
  split; [rewrite Ho; apply u64_small; unfold is_u64, zlen in *; lia|]. split.
  - intros d. unfold getDataForWriting, pending. destruct (str_err s); [done|].
    destruct (str_dataForWriting s) as [p|]; [|done]. cbn. case_match; intros [= <-]; [done|].
    rewrite take_ge; [done|]. bool_to_prop. unfold zlen in *. lia.
  - unfold writePoll, pending in *. destruct (expired _ _); [by left|].
    destruct (str_dataForWriting s) as [p|], (str_err s); cbn in *; unfold zlen in *; cbn in *; try (right; lia). done.
Qed.

(** A [Write] that runs into its deadline reports that nothing was written, also when
    a part of its data was sent. *)
Example write_deadline_miscounts :
  let s1 := (Write (SetWriteDeadline (newStr 5) 10) [1; 2; 3] 0).1.1 in
  let s2 := (getDataForWriting s1 2).1 in
  (getDataForWriting s1 2).2 = Some [1; 2] /\ str_writeOffset s2 = 2 /\
  writePoll s2 3 10 = WriteReturns 0 (Some errDeadline).
Proof. vm_compute. done. Qed.

(** ** Witnesses *)

Definition sample_fcm : flowControlManager := NewStream example_env (NewFlowControlManager example_env) 5 true.
Definition after_frame (s : stream) (frame : StreamFrame) : stream :=
  match AddStreamFrame s sample_fcm frame with Ok (s', _, _) => s' | _ => s end.
Definition sample_str : stream := after_frame (after_frame (newStr 5) example_end) example_start.

Lemma sample_str_reach : str_reach example_stream 10 5 [] [] sample_str.
Proof.
  apply (sr_step example_stream 10 5 [] [] (after_frame (newStr 5) example_end) [] []).
  - apply (sr_step example_stream 10 5 [] [] (newStr 5) [] []); [apply sr_new|].
    apply (st_add _ _ _ sample_fcm example_end _ (UpdateHighestReceived sample_fcm 5 10).1); [exact example_end_ok|].
    vm_compute. reflexivity.
  - apply (st_add _ _ _ sample_fcm example_start _ (UpdateHighestReceived sample_fcm 5 5).1); [exact example_start_ok|].
    vm_compute. reflexivity.
Qed.

Definition no_clock (_ : nat) : Z := 0.


(** A stream of which two bytes were taken when it is reset without an error: the third one is taken afterwards. *)
Definition taken_str : stream := (str_do (str_do (newStr 5) (OpWrite [1; 2; 3] 0)).1 (OpGetData 2)).1.
Definition reset_str : stream := (str_do taken_str (OpReset None)).1.
Definition drained_str : stream := (str_do reset_str (OpGetData 7)).1.

Lemma op_reach D N id out tr s o tr' : match o with OpGetData n => 0 <= n | _ => True end ->
  life_of s o = tr' -> str_reach D N id out tr s -> str_reach D N id out (tr ++ tr') (str_do s o).1.
Proof. intros Ho <- Hr. rewrite <- (app_nil_r out). by apply (sr_step _ _ _ _ _ s), st_op. Qed.

Lemma drained_str_reach : str_reach example_stream 10 5 [] [LTaken [1; 2]; LReset 5 2 [3]; LTaken [3]] drained_str.
Proof.
  apply (op_reach _ _ _ _ [LTaken [1; 2]; LReset 5 2 [3]] reset_str (OpGetData 7) [LTaken [3]]); [lia|vm_compute; reflexivity|].
  apply (op_reach _ _ _ _ [LTaken [1; 2]] taken_str (OpReset None) [LReset 5 2 [3]]); [done|vm_compute; reflexivity|].
  apply (op_reach _ _ _ _ [] _ (OpGetData 2) [LTaken [1; 2]]); [lia|vm_compute; reflexivity|].
  apply (op_reach _ _ _ _ [] (newStr 5) (OpWrite [1; 2; 3] 0) []); [done|vm_compute; reflexivity|apply sr_new].
Qed.

Lemma stream_life_cycle_witness :
  str_writeOffset drained_str = 3 /\ taken [LTaken [3]] `prefix_of` [3] /\ str_rstSent (Close drained_str).1 = true.
Proof.
  destruct (stream_life_cycle example_stream 10 5 [] [LTaken [1; 2]; LReset 5 2 [3]; LTaken [3]] drained_str (Close drained_str).1
    drained_str_reach) as (Ho & Hr & _ & _ & _ & Ha & _).
  { apply rtc_once. exists [], []. exact (st_op _ _ _ OpClose I). }
  split; [rewrite Ho; vm_compute; reflexivity|]. split; [exact (proj2 (proj2 (proj2 (proj2 (Hr [LTaken [1; 2]] 5 2 [3] [LTaken [3]] eq_refl)))))|].
  apply (adv_rstSent _ _ Ha). vm_compute. reflexivity.
Defined.

(** *** Resets without an error *)

(** The server of h2quic resets a stream with nil and closes it then: a FIN is sent after the RST_STREAM. *)
Example fin_after_reset : life_of (Close (Reset (newStr 5) None).1).1 OpSendFin = [LFin].
Proof. vm_compute. done. Qed.

(** A Read that waits while the stream is reset with nil dereferences a frame that is not there. *)
Example reset_nil_panics_reader :
  readLoop 2 no_clock (newStr 5) sample_fcm 1 [] = Some (Ok (newStr 5, sample_fcm, [], ReadWaits)) /\
  readLoop 2 no_clock (Reset (newStr 5) None).1 sample_fcm 1 [] = Some Panic.
Proof. vm_compute. done. Qed.

Lemma written_is_sent_witness :
  let s := (getDataForWriting (Write (newStr 5) [1; 2; 3] 0).1.1 2).1 in
  str_writeOffset s = 2 /\ (getDataForWriting s 7).2 = Some [3] /\ pending s = [3].
Proof.
  cbv zeta. assert (Hr : wr_reach 5 [1; 2; 3] [1; 2] 0 (getDataForWriting (Write (newStr 5) [1; 2; 3] 0).1.1 2).1).
  { apply (wr_take 5 [1; 2; 3] [] 0 (Write (newStr 5) [1; 2; 3] 0).1.1 2 _ (Some [1; 2])); [|lia|reflexivity].
    apply (wr_write 5 [] [] 0 (newStr 5) [1; 2; 3] 0); [apply wr_new|reflexivity]. }
  destruct (written_is_sent 5 [1; 2; 3] [1; 2] 0 _ 7 0 Hr ltac:(vm_compute; reflexivity) ltac:(lia)) as (_ & Ho & Hd & _).
  split; [exact Ho|]. split; [vm_compute; reflexivity|vm_compute; reflexivity].
Defined.
