(* ===== verification/StreamFramer.v ===== *)
(** * The stream framer (stream_framer.go)

    Cuts the data of the streams into frames for the next packet: first the frames
    that have to be sent again, then new data, stream by stream and within the flow
    control windows of the peer.  The streams and the flow control manager, which
    the framer shares with the session by reference, are passed to the operations
    and returned by them.  A stream that is opened is opened by [session.newStream]. *)
From S2P Require Import Prelude Qerr ByteOrder Protocol WireStream WireControl AckRanges WireAck Float32.
From S2P Require Import RttStats ConnParams FlowControl StreamFrameSorter StreamsMap Stream.

Record streamFramer : Type := mkFramer {
  sfr_retransmissionQueue : list StreamFrame;
  sfr_blockedFrameQueue : list BlockedFrame;
  sfr_addAddressFrameQueue : list AddAddressFrame;
  sfr_closePathFrameQueue : list ClosePathFrame;
  sfr_pathsFrame : option PathsFrame;
}.

Definition newStreamFramer : streamFramer := mkFramer [] [] [] [] None.

Definition set_retransmissions (fr : streamFramer) (q : list StreamFrame) : streamFramer :=
  mkFramer q (sfr_blockedFrameQueue fr) (sfr_addAddressFrameQueue fr) (sfr_closePathFrameQueue fr) (sfr_pathsFrame fr).
Definition set_blocked (fr : streamFramer) (q : list BlockedFrame) : streamFramer :=
  mkFramer (sfr_retransmissionQueue fr) q (sfr_addAddressFrameQueue fr) (sfr_closePathFrameQueue fr)
    (sfr_pathsFrame fr).
Definition set_addAddress (fr : streamFramer) (q : list AddAddressFrame) : streamFramer :=
  mkFramer (sfr_retransmissionQueue fr) (sfr_blockedFrameQueue fr) q (sfr_closePathFrameQueue fr) (sfr_pathsFrame fr).
Definition set_closePath (fr : streamFramer) (q : list ClosePathFrame) : streamFramer :=
  mkFramer (sfr_retransmissionQueue fr) (sfr_blockedFrameQueue fr) (sfr_addAddressFrameQueue fr) q (sfr_pathsFrame fr).
Definition set_pathsFrame (fr : streamFramer) (p : option PathsFrame) : streamFramer :=
  mkFramer (sfr_retransmissionQueue fr) (sfr_blockedFrameQueue fr) (sfr_addAddressFrameQueue fr)
    (sfr_closePathFrameQueue fr) p.

(** ** The queues *)

Definition AddFrameForRetransmission (fr : streamFramer) (frame : StreamFrame) : streamFramer :=
  set_retransmissions fr (sfr_retransmissionQueue fr ++ [frame]).

Definition PopBlockedFrame (fr : streamFramer) : streamFramer * option BlockedFrame :=
  match sfr_blockedFrameQueue fr with
  | [] => (fr, None)
  | frame :: rest => (set_blocked fr rest, Some frame)
  end.

Definition AddAddressForTransmission (fr : streamFramer) (ipVersion : Z) (addr : UDPAddr) : streamFramer :=
  set_addAddress fr (sfr_addAddressFrameQueue fr ++ [{| aa_IPVersion := ipVersion; aa_Addr := addr |}]).

Definition PopAddAddressFrame (fr : streamFramer) : streamFramer * option AddAddressFrame :=
  match sfr_addAddressFrameQueue fr with
  | [] => (fr, None)
  | frame :: rest => (set_addAddress fr rest, Some frame)
  end.

(** What the frame tells of a path: its ID, whether it potentially failed, and its
    statistics; the list is the order in which the iteration over the map of the
    paths meets them. *)
Definition remoteRTT (p : Z * bool * RTTStats) : Z :=
  let '(_, potentiallyFailed, rttStats) := p in
  if potentiallyFailed then 3600 * Second else rtt_smoothedRTT rttStats.

Definition AddPathsFrameForTransmission (fr : streamFramer) (paths : list (Z * bool * RTTStats)) : streamFramer :=
  set_pathsFrame fr (Some {| pf_MaxNumPaths := 255; pf_NumPaths := u8 (zlen paths);
    pf_PathIDs := map (fun p => p.1.1) paths; pf_RemoteRTTs := map remoteRTT paths |}).

Definition PopPathsFrame (fr : streamFramer) : streamFramer * option PathsFrame :=
  match sfr_pathsFrame fr with
  | None => (fr, None)
  | Some frame => (set_pathsFrame fr None, Some frame)
  end.

Definition AddClosePathFrameForTransmission (fr : streamFramer) (frame : ClosePathFrame) : streamFramer :=
  set_closePath fr (sfr_closePathFrameQueue fr ++ [frame]).

Definition PopClosePathFrame (fr : streamFramer) : streamFramer * option ClosePathFrame :=
  match sfr_closePathFrameQueue fr with
  | [] => (fr, None)
  | frame :: rest => (set_closePath fr rest, Some frame)
  end.

Definition HasFramesForRetransmission (fr : streamFramer) : bool :=
  match sfr_retransmissionQueue fr with [] => false | _ => true end.

(** ** Retransmissions *)

Definition set_DataLenPresent (f : StreamFrame) (b : bool) : StreamFrame := {|
  sf_StreamID := sf_StreamID f; sf_FinBit := sf_FinBit f; sf_DataLenPresent := b;
  sf_Offset := sf_Offset f; sf_Data := sf_Data f |}.

(** The frame that is split off, and what is left of the frame. *)
Definition maybeSplitOffFrame (frame : StreamFrame) (n : Z) : option (StreamFrame * StreamFrame) :=
  if n >=? DataLen frame then None
  else Some ({| sf_StreamID := sf_StreamID frame; sf_FinBit := false; sf_DataLenPresent := sf_DataLenPresent frame;
                sf_Offset := sf_Offset frame; sf_Data := take (Z.to_nat n) (sf_Data frame) |},
             {| sf_StreamID := sf_StreamID frame; sf_FinBit := sf_FinBit frame;
                sf_DataLenPresent := sf_DataLenPresent frame; sf_Offset := sf_Offset frame +u n;
                sf_Data := drop (Z.to_nat n) (sf_Data frame) |}).

(** The loop of [maybePopFramesForRetransmission]: the queue it leaves, the frames,
    and [currentLen]. *)
Fixpoint popRetransmissions (maxLen currentLen : Z) (f : flowControlManager) (queue : list StreamFrame) :
    list StreamFrame * flowControlManager * list StreamFrame * Z :=
  match queue with
  | [] => ([], f, [], currentLen)
  | frame :: rest =>
      let frame := set_DataLenPresent frame true in
      let frameHeaderLen := StreamFrame_MinLength frame in
      if currentLen +u frameHeaderLen >=? maxLen then (frame :: rest, f, [], currentLen)
      else
      let currentLen := currentLen +u frameHeaderLen in
      match maybeSplitOffFrame frame (maxLen -u currentLen) with
      | Some (splitFrame, frame) =>
          (frame :: rest, (AddBytesRetrans f (sf_StreamID splitFrame) (DataLen splitFrame)).1, [splitFrame],
           currentLen +u DataLen splitFrame)
      | None =>
          let f := (AddBytesRetrans f (sf_StreamID frame) (DataLen frame)).1 in
          let '(queue, f, res, currentLen) := popRetransmissions maxLen (currentLen +u DataLen frame) f rest in
          (queue, f, frame :: res, currentLen)
      end
  end.

Definition maybePopFramesForRetransmission (fr : streamFramer) (f : flowControlManager) (maxLen : Z) :
    streamFramer * flowControlManager * list StreamFrame * Z :=
  let '(queue, f, res, currentLen) := popRetransmissions maxLen 0 f (sfr_retransmissionQueue fr) in
  (set_retransmissions fr queue, f, res, currentLen).

(** ** New data *)

Section framer.
Context {P : Type} `{ConnectionParametersManager P}.
Variable env : fcEnv P.

(** [session.newStream], with what it does to the flow control manager. *)
Definition session_newStream (id : Z) (f : flowControlManager) : flowControlManager * stream :=
  (if (id =? 1) || (id =? 3) then NewStream env f id false else NewStream env f id true, newStr id).

(** The variables [maybePopNormalFrames] shares with the function it iterates
    with. *)
Record popState : Type := mkPop {
  pop_f : flowControlManager;
  pop_blocked : list BlockedFrame;
  pop_res : list StreamFrame;
  pop_currentLen : Z;
}.

Definition set_stream (m : streamsMap stream) (id : Z) (s : stream) : streamsMap stream :=
  sm_set_streams m (<[id := s]> (sm_streams m)) (sm_openStreams m).

Definition emptyFrame (s : stream) : StreamFrame := {|
  sf_StreamID := str_streamID s; sf_FinBit := false; sf_DataLenPresent := true;
  sf_Offset := str_writeOffset s; sf_Data := [] |}.

Definition fillFrame (frame : StreamFrame) (data : list Z) (fin : bool) : StreamFrame := {|
  sf_StreamID := sf_StreamID frame; sf_FinBit := fin; sf_DataLenPresent := sf_DataLenPresent frame;
  sf_Offset := sf_Offset frame; sf_Data := data |}.

(** The BLOCKED frames that are queued after [frame] was filled. *)
Definition blockedFrames (f : flowControlManager) (frame : StreamFrame) (sendWindowSize : Z) : list BlockedFrame :=
  if RemainingConnectionWindowSize env f =? 0 then [{| bl_StreamID := 0 |}]
  else if negb (sf_FinBit frame) && (sendWindowSize -u DataLen frame =? 0)
  then [{| bl_StreamID := sf_StreamID frame |}] else [].

(** The function [fn]. *)
Definition popNormal (maxBytes : Z) : @streamLambda stream popState := fun m w id s =>
  if str_streamID s =? 1 then (m, w, (true, None))
  else
  let frame := emptyFrame s in
  let frameHeaderBytes := StreamFrame_MinLength frame in
  if pop_currentLen w +u frameHeaderBytes >? maxBytes then (m, w, (false, None))
  else
  let maxLen := maxBytes -u pop_currentLen w -u frameHeaderBytes in
  let hasData := negb (lenOfDataForWriting s =? 0) in
  let sendWindowSize :=
    if hasData then match SendWindowSize env (pop_f w) (str_streamID s) with Ok n => n | _ => 0 end else 0 in
  let maxLen := if hasData then MinByteCount maxLen sendWindowSize else maxLen in
  if maxLen =? 0 then (m, w, (true, None))
  else
  let '(s, data) := if hasData then getDataForWriting s maxLen else (s, None) in
  let fin := shouldSendFin s in
  if isNil data && negb fin then (m, w, (true, None))
  else
  let s := if fin then sentFin s else s in
  let frame := fillFrame frame (default [] data) fin in
  let f := (AddBytesSent (pop_f w) (str_streamID s) (DataLen frame)).1 in
  let currentLen := pop_currentLen w +u (frameHeaderBytes +u DataLen frame) in
  (set_stream m id s,
   mkPop f (pop_blocked w ++ blockedFrames f frame sendWindowSize) (pop_res w ++ [frame]) currentLen,
   (negb (currentLen =? maxBytes), None)).

(** [RoundRobinIterate] returns no error that is looked at. *)
Definition maybePopNormalFrames (fr : streamFramer) (m : streamsMap stream) (f : flowControlManager) (maxBytes : Z) :
    result (streamFramer * streamsMap stream * flowControlManager * list StreamFrame) :=
  let* r := RoundRobinIterate (popNormal maxBytes) m (mkPop f (sfr_blockedFrameQueue fr) [] 0) in
  let '(m, w, _) := r in
  Ok (set_blocked fr (pop_blocked w), m, pop_f w, pop_res w).

Definition PopStreamFrames (fr : streamFramer) (m : streamsMap stream) (f : flowControlManager) (maxLen : Z) :
    result (streamFramer * streamsMap stream * flowControlManager * list StreamFrame) :=
  let '(fr, f, fs, currentLen) := maybePopFramesForRetransmission fr f maxLen in
  let* r := maybePopNormalFrames fr m f (maxLen -u currentLen) in
  let '(fr, m, f, fs') := r in
  Ok (fr, m, f, fs ++ fs').

(** ** The crypto stream *)

(** [cs, _ := f.streamsMap.GetOrOpenStream(1)], before a method is called on [cs]; a
    server opens at most this one stream, so that two iterations are enough. *)
Definition cryptoStream (m : streamsMap stream) (f : flowControlManager) :
    result (streamsMap stream * flowControlManager * stream) :=
  match GetOrOpenStream session_newStream 2 (env_params env) m f 1 with
  | Some (m, f, GotStream id) =>
      match sm_streams m !! id with Some cs => Ok (m, f, cs) | None => Panic end
  | _ => Panic
  end.

Definition HasCryptoStreamFrame (m : streamsMap stream) (f : flowControlManager) :
    result (streamsMap stream * flowControlManager * bool) :=
  let* r := cryptoStream m f in
  let '(m, f, cs) := r in
  Ok (m, f, lenOfDataForWriting cs >? 0).

Definition PopCryptoStreamFrame (m : streamsMap stream) (f : flowControlManager) (maxLen : Z) :
    result (streamsMap stream * flowControlManager * option StreamFrame) :=
  let* r := HasCryptoStreamFrame m f in
  let '(m, f, has) := r in
  if negb has then Ok (m, f, None)
  else
  let* r := cryptoStream m f in
  let '(m, f, cs) := r in
  let frame := {| sf_StreamID := 1; sf_FinBit := false; sf_DataLenPresent := false;
                  sf_Offset := str_writeOffset cs; sf_Data := [] |} in
  let frameHeaderBytes := StreamFrame_MinLength frame in
  let '(cs, data) := getDataForWriting cs (maxLen -u frameHeaderBytes) in
  Ok (set_stream m 1 cs, f, Some (fillFrame frame (default [] data) false)).
End framer.
