(* ===== verification/StreamFramerProofs.v ===== *)
(** * Properties of the stream framer

    The frames of a packet fit in it, retransmitted data is neither lost nor
    repeated, and new data continues the streams within the windows of the peer. *)
From S2P Require Import Prelude Qerr ByteOrder Protocol WireStream WireControl AckRanges WireAck Float32.
From S2P Require Import RttStats ConnParams FlowControl FlowControlProofs StreamFrameSorter StreamsMap.
From S2P Require Import StreamsMapProofs Stream SorterProofs StreamProofs StreamFramer.

(** ** Sizes *)

Lemma MinLength_range f : 2 <= StreamFrame_MinLength f <= 15.
Proof.
  pose proof (calculateStreamIDLength_range f). pose proof (getOffsetLength_range f).
  unfold StreamFrame_MinLength. case_match; add64_exact; lia.
Qed.

(** A frame with the length of its data: what the framer counts for it. *)
Definition framed (f : StreamFrame) : Z := StreamFrame_MinLength f + DataLen f.
Definition sizes (fs : list StreamFrame) : Z := foldr (fun f n => framed f + n) 0 fs.

Lemma sizes_app l k : sizes (l ++ k) = sizes l + sizes k.
Proof. induction l as [|f l IH]; [done|]. cbn. unfold sizes in *. lia. Qed.

Lemma sizes_one f : sizes [f] = framed f.
Proof. unfold sizes. cbn. lia. Qed.

Lemma framed_pos f : 2 <= framed f.
Proof. unfold framed. pose proof (MinLength_range f). pose proof (frame_len_nonneg f). lia. Qed.

Lemma sizes_nonneg l : 0 <= sizes l.
Proof. induction l as [|f l IH]; [done|]. pose proof (framed_pos f). cbn. unfold sizes in *. lia. Qed.

(** ** Retransmissions *)

(** The bytes of a frame, each with its stream and its offset, and its FIN. *)
Fixpoint bytes_at (id off : Z) (data : list Z) : list (Z * Z * Z) :=
  match data with [] => [] | b :: data => (id, off, b) :: bytes_at id (off + 1) data end.
Definition frame_bytes (f : StreamFrame) : list (Z * Z * Z) := bytes_at (sf_StreamID f) (sf_Offset f) (sf_Data f).
Definition frame_fin (f : StreamFrame) : list (Z * Z) :=
  if sf_FinBit f then [(sf_StreamID f, sf_Offset f + DataLen f)] else [].

(** What a list of frames transmits. *)
Definition contents (fs : list StreamFrame) : list (Z * Z * Z) * list (Z * Z) :=
  (concat (map frame_bytes fs), concat (map frame_fin fs)).

Lemma bytes_at_app id off l k : bytes_at id off (l ++ k) = bytes_at id off l ++ bytes_at id (off + zlen l) k.
Proof.
  revert off. induction l as [|b l IH]; intros off; cbn [bytes_at app]; [by rewrite Z.add_0_r|].
  rewrite IH, zlen_cons. do 3 f_equal. lia.
Qed.

Lemma contents_app l k : contents (l ++ k) = ((contents l).1 ++ (contents k).1, (contents l).2 ++ (contents k).2).
Proof. unfold contents. by rewrite !map_app, !concat_app. Qed.

(** A frame in the queue: its end is a 64-bit offset. *)
Definition queued_ok (f : StreamFrame) : Prop := 0 <= sf_Offset f /\ sf_Offset f + DataLen f < 2 ^ 64.

Lemma maybeSplitOffFrame_spec f n f1 f2 :
  queued_ok f -> 0 <= n -> maybeSplitOffFrame f n = Some (f1, f2) ->
  DataLen f1 = n /\ n < DataLen f /\ contents [f1; f2] = contents [f] /\ queued_ok f2 /\
  sf_StreamID f1 = sf_StreamID f /\ StreamFrame_MinLength f1 = StreamFrame_MinLength f /\
  sf_DataLenPresent f1 = sf_DataLenPresent f /\ sf_FinBit f1 = false.
Proof.
  intros [Ho He] Hn. unfold maybeSplitOffFrame. rewrite Z.geb_leb. destruct (DataLen f <=? n) eqn:E; [done|].
  bool_to_prop. intros [= <- <-]. unfold DataLen in *. cbn [sf_Data sf_StreamID sf_DataLenPresent sf_FinBit].
  assert (Hl : zlen (take (Z.to_nat n) (sf_Data f)) = n) by (apply zlen_take; lia).
  assert (Hd : zlen (drop (Z.to_nat n) (sf_Data f)) = zlen (sf_Data f) - n) by (apply zlen_drop; lia).
  assert (Ho2 : sf_Offset f +u n = sf_Offset f + n) by (apply add64_small; mlia).
  split; [done|]. split; [done|]. split.
  - unfold contents, frame_bytes, frame_fin, DataLen. cbn. rewrite !app_nil_r, Ho2, Hd.
    f_equal; [|case_match; [do 2 f_equal; lia|done]].
    rewrite <- Hl at 2. by rewrite <- bytes_at_app, take_drop.
  - split; [unfold queued_ok, DataLen; cbn; rewrite Ho2, Hd; lia|]. done.
Qed.

Definition dlp (f : StreamFrame) : Prop := sf_DataLenPresent f = true.

(** The windows and the counters of the data sent, which retransmissions leave
    alone. *)
Definition same_sending (c c' : flowController) : Prop :=
  fc_streamID c' = fc_streamID c /\ fc_contributesToConnection c' = fc_contributesToConnection c /\
  fc_bytesSent c' = fc_bytesSent c /\ fc_sendWindow c' = fc_sendWindow c.

Definition same_fcm (f f' : flowControlManager) : Prop :=
  (forall id, option_Forall2 same_sending (fm_streamFlowController f !! id) (fm_streamFlowController f' !! id)) /\
  same_sending (fm_connFlowController f) (fm_connFlowController f').

#[global] Instance same_sending_equiv : Equivalence same_sending.
Proof. unfold same_sending. split; [by intros c|intros ? ?; intuition congruence|intros ? ? ?; intuition congruence]. Qed.

#[global] Instance same_fcm_equiv : Equivalence same_fcm.
Proof.
  split.
  - intros f. split; [intros id|]; reflexivity.
  - intros f g [H1 H2]. split; [intros id; specialize (H1 id)|]; by symmetry.
  - intros f g h [H1 H2] [H3 H4]. split; [intros id; specialize (H1 id); specialize (H3 id)|]; by etrans.
Qed.

Lemma AddBytesRetrans_same f id n : same_fcm f (AddBytesRetrans f id n).1.
Proof.
  unfold AddBytesRetrans, addToBoth. destruct (fm_streamFlowController f !! id) as [c|] eqn:E; [|reflexivity]. cbn [fst].
  split; cbn; [|by case_match]. intros i. destruct (decide (i = id)) as [->|Hn].
  - rewrite lookup_insert_eq, E. by constructor.
  - rewrite lookup_insert_ne by done. reflexivity.
Qed.

(** The loop: what it returns and what it leaves is what was queued, and it fits. *)
Lemma popRetransmissions_spec maxLen cur f queue q' f' res cur' :
  0 <= cur <= maxLen -> maxLen < 2 ^ 63 -> Forall queued_ok queue ->
  popRetransmissions maxLen cur f queue = (q', f', res, cur') ->
  cur' = cur + sizes res /\ cur' <= maxLen /\ contents (res ++ q') = contents queue /\ Forall queued_ok q' /\
  Forall dlp res /\ same_fcm f f' /\ (queue <> [] -> cur + 15 < maxLen -> res <> []).
Proof.
  intros Hc Hm Hq. revert cur f q' f' res cur' Hc.
  induction Hq as [|fr rest Hfr Hq IH]; intros cur f q' f' res cur' Hc; cbn [popRetransmissions].
  { intros [= <- <- <- <-]. split_and!; try done; cbn; lia. }
  set (fr1 := set_DataLenPresent fr true). pose proof (MinLength_range fr1) as Hml.
  assert (Hc1 : forall l, contents (fr1 :: l) = contents (fr :: l)) by done.
  rewrite add64_small by mlia. rewrite Z.geb_leb. destruct (maxLen <=? _) eqn:E; bool_to_prop.
  { intros [= <- <- <- <-]. split_and!; try done; try lia; cbn; [lia|]. by constructor. }
  rewrite sub64_small by mlia.
  destruct (maybeSplitOffFrame fr1 _) as [[f1 f2]|] eqn:Es.
  - apply maybeSplitOffFrame_spec in Es as (E1 & E2 & E3 & E4 & E5 & E6 & E7 & E8); [|done|lia].
    intros [= <- <- <- <-]. rewrite E1, add64_small by mlia. rewrite sizes_one. unfold framed. rewrite E6, E1.
    split; [lia|]. split; [lia|]. split.
    { change ([f1] ++ f2 :: rest) with ([f1; f2] ++ rest). rewrite contents_app, E3. by rewrite <- contents_app. }
    split; [by constructor|]. split; [by constructor|]. split; [apply AddBytesRetrans_same|done].
  - unfold maybeSplitOffFrame in Es. rewrite Z.geb_leb in Es. destruct (_ <=? _) eqn:El in Es; [|done]. bool_to_prop.
    pose proof (frame_len_nonneg fr1). rewrite add64_small by mlia.
    destruct (popRetransmissions _ _ _ rest) as [[[q2 f2] res2] cur2] eqn:Er. intros [= <- <- <- <-].
    apply IH in Er as (R1 & R2 & R3 & R4 & R5 & R6 & _); [|lia]. cbn [sizes foldr]. fold (sizes res2). unfold framed.
    split; [lia|]. split; [done|]. split.
    { cbn [app]. change (fr1 :: res2 ++ q2) with ([fr1] ++ (res2 ++ q2)). rewrite contents_app, R3. by rewrite <- contents_app. }
    split; [done|]. split; [by constructor|]. split; [|done]. etrans; [apply AddBytesRetrans_same|done].
Qed.

(** ** Frames the peer can parse *)

(** A frame with data or a FIN, whose fields are in range; it is sendable in a packet
    that has room for its data. *)
Definition frame_wf (f : StreamFrame) : Prop := StreamFrame_wf f /\ (sf_FinBit f = true \/ sf_Data f <> []).

Lemma frame_wf_queued f : frame_wf f -> queued_ok f.
Proof. intros [[H1 H2 H3 H4] _]. by split. Qed.

Lemma split_wf f n f1 f2 : frame_wf f -> 0 < n -> maybeSplitOffFrame f n = Some (f1, f2) -> frame_wf f1 /\ frame_wf f2.
Proof.
  intros [[H1 H2 H3 H4] _] Hn. unfold maybeSplitOffFrame. rewrite Z.geb_leb. destruct (_ <=? n) eqn:E; [done|].
  bool_to_prop. intros [= <- <-]. unfold DataLen in *.
  assert (Hl : zlen (take (Z.to_nat n) (sf_Data f)) = n) by (apply zlen_take; lia).
  assert (Hd : zlen (drop (Z.to_nat n) (sf_Data f)) = zlen (sf_Data f) - n) by (apply zlen_drop; lia).
  assert (Hz : zlen (@nil Z) = 0) by done.
  split; (split; [split; cbn; rewrite ?Hl, ?Hd, ?add64_small by mlia; try lia; try done; try mlia|]).
  - by apply Forall_take.
  - right. cbn. intros E0. rewrite E0 in Hl. lia.
  - by apply Forall_drop.
  - right. cbn. intros E0. rewrite E0 in Hd. lia.
Qed.

Lemma popRetransmissions_wf maxLen cur f queue q' f' res cur' :
  0 <= cur <= maxLen -> maxLen < 2 ^ 63 -> Forall frame_wf queue ->
  popRetransmissions maxLen cur f queue = (q', f', res, cur') -> Forall frame_wf res /\ Forall frame_wf q'.
Proof.
  intros Hc Hm Hq. revert cur f q' f' res cur' Hc.
  induction Hq as [|fr rest Hfr Hq IH]; intros cur f q' f' res cur' Hc; cbn [popRetransmissions].
  { by intros [= <- <- <- <-]. }
  set (fr1 := set_DataLenPresent fr true). pose proof (MinLength_range fr1) as Hml.
  assert (Hfr1 : frame_wf fr1) by (destruct Hfr as [[] ?]; by split).
  rewrite add64_small by mlia. rewrite Z.geb_leb. destruct (maxLen <=? _) eqn:E; bool_to_prop.
  { intros [= <- <- <- <-]. split; [done|by constructor]. }
  rewrite sub64_small by mlia. destruct (maybeSplitOffFrame fr1 _) as [[f1 f2]|] eqn:Es.
  - apply split_wf in Es as [Es1 Es2]; [|done|lia]. intros [= <- <- <- <-]. split; [by constructor|by constructor].
  - unfold maybeSplitOffFrame in Es. rewrite Z.geb_leb in Es. destruct (_ <=? _) eqn:El in Es; [|done]. bool_to_prop.
    pose proof (frame_len_nonneg fr1). rewrite add64_small by mlia.
    destruct (popRetransmissions _ _ _ rest) as [[[q2 f2] res2] cur2] eqn:Er. intros [= <- <- <- <-].
    apply IH in Er as [R1 R2]; [|lia]. split; [by constructor|done].
Qed.

(** ** Iterating over the streams *)

(** A rule for [RoundRobinIterate]: an invariant of the streams and of the rest of
    the state that every call keeps holds at the end; the iteration does not panic
    and meets no missing stream. *)
Section iterate.
Context {S W : Type}.
Variables (I : gmap Z S -> W -> Prop) (fn : @streamLambda S W) (l : list Z).

(** A map the iteration can start from. *)
Definition open_are (m : streamsMap S) : Prop :=
  sm_openStreams m = l /\ forall x, x ∈ l <-> is_Some (sm_streams m !! x).

Hypothesis fn_keeps : forall m w id s, open_are m -> I (sm_streams m) w -> sm_streams m !! id = Some s ->
  exists m' w' cont, fn m w id s = (m', w', (cont, None)) /\ open_are m' /\ I (sm_streams m') w'.

Lemma iterateFunc_keeps m w id : open_are m -> I (sm_streams m) w -> id ∈ l ->
  exists m' w' cont, iterateFunc fn m w id = (m', w', (cont, None)) /\ open_are m' /\ I (sm_streams m') w'.
Proof. intros Hm Hi Hl. apply Hm in Hl as [s Es]. unfold iterateFunc. rewrite Es. by apply fn_keeps. Qed.

Lemma iteratePriority_keeps m w ids : open_are m -> I (sm_streams m) w ->
  exists m' w' cont, iteratePriority fn m w ids = (m', w', (cont, None)) /\ open_are m' /\ I (sm_streams m') w'.
Proof.
  revert m w. induction ids as [|id ids IH]; intros m w Hm Hi; cbn [iteratePriority]; [by exists m, w, true|].
  destruct (decide (id ∈ l)) as [Hl|Hl].
  - destruct (iterateFunc_keeps m w id Hm Hi Hl) as (m1 & w1 & cont & -> & Hm1 & Hi1).
    destruct cont; [by apply IH|by exists m1, w1, false].
  - unfold iterateFunc. destruct (sm_streams m !! id) eqn:Es; [by destruct Hl; apply Hm; rewrite Es|].
    rewrite decide_True by done. by apply IH.
Qed.

Lemma iterateRobin_keeps m w start i n : open_are m -> I (sm_streams m) w -> (n = O \/ l <> []) ->
  exists m' w', iterateRobin fn m w (zlen l) start i n = Ok (m', w', None) /\ open_are m' /\ I (sm_streams m') w'.
Proof.
  revert m w i. induction n as [|n IH]; intros m w i Hm Hi Hl; cbn [iterateRobin]; [by exists m, w|].
  destruct Hl as [?|Hl]; [done|]. destruct Hm as [Ho Hd]. rewrite Ho.
  assert (Hpos : 0 < zlen l) by (destruct l; [done|unfold zlen; cbn; lia]).
  destruct (lookup_lt_is_Some_2 l (Z.to_nat (u32 (i + start) mod zlen l))) as [id Eid].
  { pose proof (Z.mod_pos_bound (u32 (i + start)) (zlen l)). unfold zlen in *. lia. }
  rewrite Eid. destruct (_ || _); [by apply IH; [| |right]|].
  destruct (iterateFunc_keeps m w id) as (m1 & w1 & cont & -> & Hm1 & Hi1); [done|done|by eapply list_elem_of_lookup_2|].
  destruct cont; [by apply IH; [| |right]|]. by eexists _, w1.
Qed.

Lemma RoundRobinIterate_keeps m w : NoDup l -> zlen l < 2 ^ 32 -> open_are m -> I (sm_streams m) w ->
  exists m' w', RoundRobinIterate fn m w = Ok (m', w', None) /\ open_are m' /\ I (sm_streams m') w'.
Proof.
  intros Hn Hl Hm Hi. unfold RoundRobinIterate. rewrite (open_size l m Hn (proj2 Hm)). fold (zlen l).
  rewrite u32_id by (unfold zlen in *; lia).
  destruct (iteratePriority_keeps m w [1; 3] Hm Hi) as (m1 & w1 & cont & -> & Hm1 & Hi1).
  destruct cont; [|by exists m1, w1]. apply iterateRobin_keeps; [done|done|].
  destruct l; [by left|by right].
Qed.
End iterate.

(** ** New data *)

Section framer.
Context {P : Type} `{ConnectionParametersManager P}.
Variable env : fcEnv P.

(** One new frame: the next bytes of a stream, its offset and its FIN, within the
    windows of the peer. *)
Record new_frame (st : gmap Z stream) (f : flowControlManager) (fr : StreamFrame) (st' : gmap Z stream)
    (f' : flowControlManager) : Prop := {
  nf_crypto : sf_StreamID fr <> 1;
  nf_stream : exists s s', st !! sf_StreamID fr = Some s /\ st' = <[sf_StreamID fr := s']> st /\
    str_streamID s' = str_streamID s /\ sf_Offset fr = str_writeOffset s /\
    str_writeOffset s' = str_writeOffset s +u DataLen fr /\ pending s = sf_Data fr ++ pending s' /\
    (sf_FinBit fr = true -> shouldSendFin s' = false /\ str_finishedWriting s = true /\ str_finSent s = false /\
       pending s' = [] /\ str_finSent s' = true) /\
    (sf_FinBit fr = false -> str_finSent s' = str_finSent s);
  nf_window : sf_Data fr = [] \/ exists w, SendWindowSize env f (sf_StreamID fr) = Ok w /\ 0 < DataLen fr <= w;
  nf_sent : f' = (AddBytesSent f (sf_StreamID fr) (DataLen fr)).1;
  nf_some : sf_Data fr <> [] \/ sf_FinBit fr = true;
  nf_dlp : dlp fr;
}.

Inductive new_frames (st : gmap Z stream) (f : flowControlManager) :
    list StreamFrame -> gmap Z stream -> flowControlManager -> Prop :=
| nfs_nil : new_frames st f [] st f
| nfs_snoc fs st1 f1 fr st2 f2 :
    new_frames st f fs st1 f1 -> new_frame st1 f1 fr st2 f2 -> new_frames st f (fs ++ [fr]) st2 f2.

(** The streams of the map are the ones of their IDs, at 64-bit offsets. *)
Definition streams_ok (st : gmap Z stream) : Prop :=
  forall id s, st !! id = Some s -> str_streamID s = id /\ is_u64 (str_writeOffset s).

Lemma new_frame_streams_ok st f fr st' f' : new_frame st f fr st' f' -> streams_ok st -> streams_ok st'.
Proof.
  intros [_ (s & s' & Es & -> & Eid & _ & Ew & _) _ _ _ _] Hok id x Hx.
  destruct (decide (id = sf_StreamID fr)) as [->|Hn].
  - rewrite lookup_insert_eq in Hx. injection Hx as <-. split; [rewrite Eid; by apply Hok|]. rewrite Ew. apply u64_range.
  - rewrite lookup_insert_ne in Hx by done. by apply Hok.
Qed.

(** When a stream has data left although the packet has room, the peer's windows are
    the reason, and a BLOCKED frame is queued. *)
Definition reports_blocked (w w' : popState) (maxBytes : Z) (fr : StreamFrame) (s' : stream) : Prop :=
  pending s' <> [] -> pop_currentLen w' < maxBytes ->
  exists id, pop_blocked w' = pop_blocked w ++ [{| bl_StreamID := id |}] /\ (id = 0 \/ id = sf_StreamID fr).

Lemma getDataForWriting_len s n s' d : 0 < n -> getDataForWriting s n = (s', Some d) -> zlen d <= n /\
  pending s = d ++ pending s' /\ (pending s' <> [] -> zlen d = n) /\ str_writeOffset s' = str_writeOffset s +u zlen d /\
  str_streamID s' = str_streamID s /\ str_finSent s' = str_finSent s /\ str_finishedWriting s' = str_finishedWriting s.
Proof.
  intros Hn. unfold getDataForWriting, pending. destruct (str_err s); [done|].
  destruct (str_dataForWriting s) as [p|]; [|done]. rewrite Z.gtb_ltb. destruct (n <? zlen p) eqn:E; bool_to_prop;
    intros [= <- <-]; cbn.
  - rewrite take_drop. rewrite zlen_take by lia. done.
  - rewrite app_nil_r. done.
Qed.

Lemma SendWindowSize_nonneg f id n : SendWindowSize env f id = Ok n -> 0 <= n.
Proof.
  unfold SendWindowSize, ofStream. destruct (_ !! id); [|done]. intros [= <-].
  assert (Hc : forall c, 0 <= fc_SendWindowSize env c).
  { intros c. unfold fc_SendWindowSize. case_match; [lia|]. apply u64_range. }
  pose proof (Hc f0). pose proof (Hc (fm_connFlowController f)). unfold MinByteCount. repeat case_match; lia.
Qed.

Lemma getDataForWriting_some s n s' d :
  lenOfDataForWriting s <> 0 -> n <> 0 -> 0 <= n -> getDataForWriting s n = (s', Some d) -> d <> [].
Proof.
  unfold lenOfDataForWriting, getDataForWriting. destruct (str_err s), (str_dataForWriting s) as [p|]; try done.
  intros Hl Hn Hn0. assert (p <> []) by (by intros ->). case_match; intros [= <- <-]; [|done].
  destruct p, (Z.to_nat n) eqn:E; try done. lia.
Qed.

(** The end of the function, when the frame is filled with [data]: the stream was
    [s], and is [s1] after the data was taken. *)
Definition pop_tail (maxBytes win : Z) m (w : popState) (id : Z) (s s1 : stream) (data : list Z) :=
  let fin := shouldSendFin s1 in
  let s2 := if fin then sentFin s1 else s1 in
  let frame := fillFrame (emptyFrame s) data fin in
  let f := (AddBytesSent (pop_f w) (str_streamID s2) (DataLen frame)).1 in
  let currentLen := pop_currentLen w +u (StreamFrame_MinLength (emptyFrame s) +u DataLen frame) in
  (set_stream m id s2,
   mkPop f (pop_blocked w ++ blockedFrames env f frame win) (pop_res w ++ [frame]) currentLen,
   (negb (currentLen =? maxBytes), @None error)).

(** What a call that adds a frame does. *)
Definition adds_frame (maxBytes : Z) (m : streamsMap stream) (w : popState) (id : Z) (m' : streamsMap stream)
    (w' : popState) : Prop :=
  exists fr s', m' = set_stream m id s' /\
    new_frame (sm_streams m) (pop_f w) fr (sm_streams m') (pop_f w') /\
    pop_res w' = pop_res w ++ [fr] /\ pop_currentLen w' = pop_currentLen w + framed fr /\
    pop_currentLen w' <= maxBytes /\ reports_blocked w w' maxBytes fr s'.

Lemma pop_tail_adds maxBytes win m w id s s1 data :
  sm_streams m !! id = Some s -> str_streamID s = id -> id <> 1 -> maxBytes < 2 ^ 63 -> 0 <= pop_currentLen w ->
  pop_currentLen w + StreamFrame_MinLength (emptyFrame s) + zlen data <= maxBytes ->
  pending s = data ++ pending s1 -> str_writeOffset s1 = str_writeOffset s +u zlen data ->
  str_streamID s1 = str_streamID s -> str_finSent s1 = str_finSent s -> str_finishedWriting s1 = str_finishedWriting s ->
  data = [] \/ (SendWindowSize env (pop_f w) id = Ok win /\ 0 < zlen data <= win) ->
  data <> [] \/ shouldSendFin s1 = true ->
  (pending s1 <> [] -> zlen data = win \/ pop_currentLen w + StreamFrame_MinLength (emptyFrame s) + zlen data = maxBytes) ->
  let '(m', w', _) := pop_tail maxBytes win m w id s s1 data in adds_frame maxBytes m w id m' w'.
Proof.
  intros Es Eid H1 Hmax Hcur Hfit Hp Hw Eid1 Efs Efw Hwin Hsome Hleft. unfold pop_tail.
  set (fin := shouldSendFin s1) in *. set (fr := fillFrame (emptyFrame s) data fin).
  assert (Hlen : DataLen fr = zlen data) by done. pose proof (MinLength_range (emptyFrame s)). pose proof (zlen_nonneg data).
  assert (Hfr : StreamFrame_MinLength fr = StreamFrame_MinLength (emptyFrame s)) by done.
  assert (Hfin : fin = true -> str_finishedWriting s1 = true /\ str_finSent s1 = false /\ pending s1 = []).
  { intros Hf. apply shouldSendFin_spec in Hf as (? & ? & _ & Hd). unfold pending. by rewrite Hd. }
  rewrite Hlen, (add64_small (StreamFrame_MinLength _)), add64_small by mlia. exists fr, (if fin then sentFin s1 else s1). split; [done|]. split.
  - assert (Efid : sf_StreamID fr = id) by done.
    assert (Es2 : str_streamID (if fin then sentFin s1 else s1) = id) by (destruct fin; cbn; congruence).
    split; rewrite ?Efid, ?Hlen; try done.
    + exists s, (if fin then sentFin s1 else s1). split; [done|]. split; [done|]. split; [by rewrite Es2|].
      split; [done|]. split; [by destruct fin|]. split; [by destruct fin|].
      split; [|by destruct fin]. change (sf_FinBit fr) with fin. intros Hf. destruct (Hfin Hf) as (F1 & F2 & F3). rewrite Hf.
      split; [|by rewrite <- Efw, <- Efs]. unfold shouldSendFin, sentFin. cbn. by rewrite andb_false_r.
    + destruct Hwin as [?|[? ?]]; [by left|]. right. by exists win.
    + cbn [pop_f]. by rewrite Es2.
  - cbn [pop_res pop_currentLen pop_blocked]. split; [done|]. unfold framed. rewrite Hfr, Hlen. split; [lia|]. split; [lia|].
    intros Hpend Hroom. assert (Hnf : fin = false).
    { destruct fin eqn:Ef; [|done]. destruct (Hfin eq_refl) as (_ & _ & Hp0). by destruct Hpend. }
    cbn [pop_blocked pop_currentLen] in *. rewrite Hnf in Hpend.
    destruct (Hleft Hpend) as [Hw0|]; [|lia]. unfold blockedFrames. case_match; [by exists 0; split; [|left]|].
    change (sf_FinBit fr) with fin. rewrite Hnf, Hlen, Hw0. cbn [negb andb].
    rewrite sub64_small, Z.sub_diag by mlia. cbn. exists id. split; [by rewrite <- Eid|by right].
Qed.

Lemma popNormal_spec maxBytes m w id s :
  sm_streams m !! id = Some s -> streams_ok (sm_streams m) -> 0 <= pop_currentLen w <= maxBytes -> maxBytes < 2 ^ 63 ->
  exists m' w' cont, popNormal env maxBytes m w id s = (m', w', (cont, None)) /\
    ((m' = m /\ w' = w) \/ adds_frame maxBytes m w id m' w').
Proof.
  intros Es Hok Hc Hmax. destruct (Hok id s Es) as [Eid Hoff]. unfold popNormal. pose proof (MinLength_range (emptyFrame s)) as Hml.
  destruct (str_streamID s =? 1) eqn:E1; [do 3 eexists; split; [done|by left]|]. bool_to_prop. rewrite Eid in E1.
  rewrite add64_small by mlia. rewrite Z.gtb_ltb. destruct (maxBytes <? _) eqn:E2; [do 3 eexists; split; [done|by left]|].
  bool_to_prop. rewrite (sub64_small maxBytes) by mlia. rewrite sub64_small by mlia.
  set (avail := maxBytes - pop_currentLen w - StreamFrame_MinLength (emptyFrame s)).
  assert (Ha : avail = maxBytes - pop_currentLen w - StreamFrame_MinLength (emptyFrame s)) by done.
  destruct (lenOfDataForWriting s =? 0) eqn:El; cbn [negb]; bool_to_prop.
  - destruct (avail =? 0); [do 3 eexists; split; [done|by left]|]. cbn [isNil andb].
    destruct (shouldSendFin s) eqn:Ef; [|do 3 eexists; split; [done|by left]]. cbn [negb].
    assert (Hz : zlen (@nil Z) = 0) by done.
    pose proof (pop_tail_adds maxBytes 0 m w id s s [] Es Eid E1 Hmax ltac:(lia) ltac:(lia) eq_refl) as Hadd.
    unfold pop_tail in Hadd. rewrite Ef in Hadd. do 3 eexists. split; [reflexivity|]. right. cbn [default]. apply Hadd; try done.
    + rewrite add64_small; [lia|mlia].
    + by left.
    + by right.
    + apply shouldSendFin_spec in Ef as (_ & _ & _ & Hd). unfold pending. by rewrite Hd.
  - rewrite Eid. set (win := match SendWindowSize env (pop_f w) id with Ok n => n | _ => 0 end).
    destruct (MinByteCount avail win =? 0) eqn:Em; [do 3 eexists; split; [done|by left]|]. bool_to_prop.
    assert (Hwin : SendWindowSize env (pop_f w) id = Ok win /\ 0 < win /\ MinByteCount avail win = Z.min avail win).
    { assert (Hw0 : 0 <= win -> win <> 0 /\ MinByteCount avail win = Z.min avail win) by (unfold MinByteCount in *; case_test; lia).
      destruct (SendWindowSize env (pop_f w) id) as [n| |] eqn:Ew; subst win; [|by destruct Hw0..].
      apply SendWindowSize_nonneg in Ew. split; [done|]. lia. }
    destruct Hwin as (Ew & Hwin & Emin). rewrite Emin in *.
    destruct (getDataForWriting s (Z.min avail win)) as [s1 [d|]] eqn:Eg; cbn [isNil andb].
    + assert (Hd : d <> []) by (eapply getDataForWriting_some; [done| | |exact Eg]; lia).
      apply getDataForWriting_len in Eg as (G1 & G2 & G3 & G4 & G5 & G6 & G7); [|lia].
      assert (0 < zlen d) by (destruct d; [done|unfold zlen; cbn; lia]).
      do 3 eexists. split; [reflexivity|]. right. cbn [default].
      apply (pop_tail_adds maxBytes win m w id s s1 d); try done; try lia.
      * right. split; [done|lia].
      * by left.
      * intros Hp%G3. lia.
    + exfalso. revert Eg El. unfold getDataForWriting, lenOfDataForWriting. by repeat case_match.
Qed.

(** The streams that got a frame and still have data are reported as blocked, when
    the packet is not full. *)
Definition all_reported (maxBytes : Z) (st : gmap Z stream) (w : popState) : Prop :=
  forall fr s, fr ∈ pop_res w -> st !! sf_StreamID fr = Some s -> pending s <> [] -> pop_currentLen w < maxBytes ->
  exists b, b ∈ pop_blocked w /\ (bl_StreamID b = 0 \/ bl_StreamID b = sf_StreamID fr).

(** The invariant of the iteration, which began with [st0] and [f0]. *)
Record pop_inv (maxBytes : Z) (st0 : gmap Z stream) (f0 : flowControlManager) (q : list BlockedFrame)
    (st : gmap Z stream) (w : popState) : Prop := {
  pi_frames : new_frames st0 f0 (pop_res w) st (pop_f w);
  pi_streams : streams_ok st;
  pi_len : pop_currentLen w = sizes (pop_res w);
  pi_fits : pop_currentLen w <= maxBytes;
  pi_reported : all_reported maxBytes st w;
  pi_queue : exists more, pop_blocked w = q ++ more;
}.

Lemma adds_frame_inv maxBytes st0 f0 q m w id m' w' :
  pop_inv maxBytes st0 f0 q (sm_streams m) w -> adds_frame maxBytes m w id m' w' ->
  (exists more, pop_blocked w' = pop_blocked w ++ more) -> sm_streams m !! id <> None ->
  (forall fr, pop_res w' = pop_res w ++ [fr] -> sf_StreamID fr = id) ->
  pop_inv maxBytes st0 f0 q (sm_streams m') w'.
Proof.
  intros [H1 H2 H3 H4 H5 [more H6]] (fr & s' & -> & Hf & Hr & Hl & Hfit & Hrep) [more' Hb] Hs Hid. split.
  - rewrite Hr. by apply (nfs_snoc _ _ _ (sm_streams m) (pop_f w)).
  - by eapply new_frame_streams_ok.
  - rewrite Hr, sizes_app, sizes_one, Hl. lia.
  - done.
  - intros fr0 s Hin Hst Hp Hroom. pose proof (framed_pos fr). specialize (Hid fr Hr).
    cbn [set_stream sm_set_streams sm_streams] in Hst. destruct (decide (sf_StreamID fr0 = id)) as [E|Hne].
    + rewrite E, lookup_insert_eq in Hst. injection Hst as <-. destruct (Hrep Hp Hroom) as (i & Ei & Hi).
      exists {| bl_StreamID := i |}. rewrite Ei. split; [set_solver|]. cbn. by rewrite E, <- Hid.
    + rewrite lookup_insert_ne in Hst by congruence. rewrite Hr in Hin. apply elem_of_app in Hin as [Hin|Hin].
      * destruct (H5 fr0 s Hin Hst Hp ltac:(lia)) as (b & Hb1 & Hb2). exists b. rewrite Hb. set_solver.
      * apply list_elem_of_singleton in Hin. congruence.
  - exists (more ++ more'). by rewrite Hb, H6, app_assoc.
Qed.

(** What [popNormal] does to the queue of BLOCKED frames and to the result. *)
Lemma popNormal_queues maxBytes m w id s m' w' r :
  popNormal env maxBytes m w id s = (m', w', r) ->
  (exists more, pop_blocked w' = pop_blocked w ++ more) /\
  (forall fr, pop_res w' = pop_res w ++ [fr] -> sf_StreamID fr = str_streamID s).
Proof.
  unfold popNormal. intros Hp.
  assert (Hsame : (exists more, pop_blocked w = pop_blocked w ++ more) /\
    (forall fr, pop_res w = pop_res w ++ [fr] -> sf_StreamID fr = str_streamID s)).
  { split; [exists []; by rewrite app_nil_r|]. intros fr Hx. apply (f_equal length) in Hx. rewrite length_app in Hx. cbn in Hx. lia. }
  do 3 (lazymatch type of Hp with (if ?b then _ else _) = _ => destruct b end; [by injection Hp as <- <- <-|]).
  destruct (if negb _ then _ else _) as [s1 d].
  lazymatch type of Hp with (if ?b then _ else _) = _ => destruct b end; [by injection Hp as <- <- <-|].
  injection Hp as <- <- <-. cbn [pop_blocked pop_res]. split; [by eexists|]. intros fr Hx. by apply app_inj_2 in Hx as [_ [= <-]].
Qed.

Lemma maybePopNormalFrames_spec fr m f maxBytes l :
  NoDup l -> zlen l < 2 ^ 32 -> open_are l m -> streams_ok (sm_streams m) -> 0 <= maxBytes < 2 ^ 63 ->
  exists fr' m' f' fs, maybePopNormalFrames env fr m f maxBytes = Ok (fr', m', f', fs) /\ open_are l m' /\
    fr' = set_blocked fr (sfr_blockedFrameQueue fr') /\
    exists cur, pop_inv maxBytes (sm_streams m) f (sfr_blockedFrameQueue fr) (sm_streams m')
      (mkPop f' (sfr_blockedFrameQueue fr') fs cur).
Proof.
  intros Hn Hl Hm Hok Hmax.
  destruct (RoundRobinIterate_keeps (pop_inv maxBytes (sm_streams m) f (sfr_blockedFrameQueue fr)) (popNormal env maxBytes) l)
    with (m := m) (w := mkPop f (sfr_blockedFrameQueue fr) [] 0) as (m' & w' & E & Hm' & Hi'); try done.
  - intros m1 w1 id s [Ho Hd] Hi Es. pose proof (pi_len _ _ _ _ _ _ Hi). pose proof (sizes_nonneg (pop_res w1)).
    destruct (popNormal_spec maxBytes m1 w1 id s Es (pi_streams _ _ _ _ _ _ Hi)) as (m2 & w2 & cont & E & Hadd); [|lia|].
    { split; [lia|]. apply Hi. }
    exists m2, w2, cont. split; [done|]. destruct (popNormal_queues _ _ _ _ _ _ _ _ E) as [Hq1 Hq2].
    destruct Hadd as [[-> ->]|Hadd]; [done|]. split.
    + destruct Hadd as (fr0 & s' & -> & _). split; [done|]. intros x. rewrite Hd. cbn.
      destruct (decide (x = id)) as [->|Hne]; [rewrite lookup_insert_eq, Es; split; intros _; by eexists|].
      by rewrite lookup_insert_ne.
    + eapply adds_frame_inv; [done|done|done|by rewrite Es|]. intros fr0 Hr. rewrite (Hq2 fr0 Hr). by apply (pi_streams _ _ _ _ _ _ Hi).
  - split; try done; cbn; [constructor|lia|intros ? ? Hin; set_solver|exists []; by rewrite app_nil_r].
  - unfold maybePopNormalFrames. rewrite E. cbn [bind]. do 4 eexists. split; [done|]. split; [done|]. split; [done|].
    exists (pop_currentLen w'). by destruct w'.
Qed.

(** ** Flow control *)

(** The counters of the manager are those of the streams. *)
Definition synced (st : gmap Z stream) (f : flowControlManager) : Prop :=
  forall id s, id <> 1 -> st !! id = Some s ->
  exists c, fm_streamFlowController f !! id = Some c /\ fc_bytesSent c = str_writeOffset s.

Definition sends_u64 (c : flowController) : Prop := is_u64 (fc_bytesSent c) /\ is_u64 (getSendWindow env c).
Definition fcm_u64 (f : flowControlManager) : Prop :=
  (forall id c, fm_streamFlowController f !! id = Some c -> sends_u64 c) /\ sends_u64 (fm_connFlowController f).

(** [n] bytes within the window of a controller. *)
Lemma AddBytesSent_within c n : sends_u64 c -> 0 < n <= fc_SendWindowSize env c ->
  fc_bytesSent (fc_AddBytesSent c n) = fc_bytesSent c + n /\ fc_bytesSent c + n <= getSendWindow env c.
Proof.
  intros [H1 H2] Hn. unfold fc_SendWindowSize in Hn. destruct (fc_bytesSent c >? _) eqn:E; bool_to_prop; [lia|].
  rewrite sub64_small in Hn by mlia. cbn. rewrite add64_small by mlia. lia.
Qed.

(** The windows of two managers are the same. *)
Definition same_windows (f f' : flowControlManager) : Prop :=
  (forall id, (getSendWindow env <$> fm_streamFlowController f' !! id) = (getSendWindow env <$> fm_streamFlowController f !! id)) /\
  getSendWindow env (fm_connFlowController f') = getSendWindow env (fm_connFlowController f).

(** Data within the windows that a frame has. *)
Definition within_window (f : flowControlManager) (fr : StreamFrame) : Prop :=
  sf_Data fr = [] \/ exists c, fm_streamFlowController f !! sf_StreamID fr = Some c /\
    sf_Offset fr + DataLen fr <= getSendWindow env c.

(** What the connection sent is within its window, unless it sends nothing more. *)
Definition conn_within (f f' : flowControlManager) : Prop :=
  fc_bytesSent (fm_connFlowController f') = fc_bytesSent (fm_connFlowController f) \/
  fc_bytesSent (fm_connFlowController f') <= getSendWindow env (fm_connFlowController f').

Lemma add_zero64 x : is_u64 x -> x +u 0 = x.
Proof. intros Hx. rewrite add64_small; [lia|mlia]. Qed.

Lemma new_frame_windows st f fr st' f' :
  new_frame st f fr st' f' -> synced st f -> fcm_u64 f -> streams_ok st ->
  synced st' f' /\ fcm_u64 f' /\ same_windows f f' /\ within_window f fr /\ conn_within f f'.
Proof.
  intros [H1 (s & s' & Es & -> & Eid & Eo & Ew & _) Hw -> _ _] Hsync Hu Hok.
  destruct (Hsync _ s H1 Es) as (c & Ec & Eb). destruct Hu as [Hu Hconn]. pose proof (Hu _ c Ec) as Hc.
  unfold AddBytesSent, addToBoth. rewrite Ec. cbn [fst]. set (n := DataLen fr) in *.
  assert (Hn : fc_bytesSent (fc_AddBytesSent c n) = fc_bytesSent c +u n) by done.
  assert (Hc' : sends_u64 (fc_AddBytesSent c n)) by (split; [apply u64_range|apply Hc]).
  split; [|split; [|split; [|split]]].
  - intros id x Hid Hx. cbn [fm_streamFlowController]. destruct (decide (id = sf_StreamID fr)) as [->|Hne].
    + rewrite lookup_insert_eq in Hx. rewrite lookup_insert_eq. injection Hx as <-. eexists. split; [done|]. by rewrite Hn, Eb, Ew.
    + rewrite lookup_insert_ne in Hx by done. rewrite lookup_insert_ne by done. by apply Hsync.
  - split; cbn.
    + intros id x. destruct (decide (id = sf_StreamID fr)) as [->|Hne].
      * rewrite lookup_insert_eq. by intros [= <-].
      * rewrite lookup_insert_ne by done. apply Hu.
    + case_match; [split; [apply u64_range|apply Hconn]|done].
  - split; cbn; [|by case_match]. intros id. destruct (decide (id = sf_StreamID fr)) as [->|Hne].
    + by rewrite lookup_insert_eq, Ec.
    + by rewrite lookup_insert_ne.
  - destruct Hw as [?|(w & Hw & Hlen)]; [by left|right]. exists c. split; [done|]. rewrite Eo, <- Eb.
    unfold SendWindowSize, ofStream in Hw. rewrite Ec in Hw. injection Hw as <-.
    apply AddBytesSent_within; [done|]. unfold MinByteCount in Hlen. repeat case_match; bool_to_prop; unfold n in *; lia.
  - unfold conn_within. cbn. destruct (fc_contributesToConnection c) eqn:Econ; [|by left].
    destruct Hw as [E0|(w & Hw & Hlen)].
    + left. unfold n, DataLen. rewrite E0. apply add_zero64, Hconn.
    + right. unfold SendWindowSize, ofStream in Hw. rewrite Ec, Econ in Hw. injection Hw as <-.
      destruct (AddBytesSent_within (fm_connFlowController f) n Hconn) as [-> Hle]; [|exact Hle].
      unfold MinByteCount in Hlen. repeat case_match; bool_to_prop; unfold n in *; lia.
Qed.

Lemma new_frames_windows st f fs st' f' :
  new_frames st f fs st' f' -> synced st f -> fcm_u64 f -> streams_ok st ->
  synced st' f' /\ fcm_u64 f' /\ streams_ok st' /\ same_windows f f' /\ Forall (within_window f) fs /\ conn_within f f'.
Proof.
  intros Hfs Hs Hu Hok. induction Hfs as [|fs st1 f1 fr st2 f2 _ (I1 & I2 & I3 & I4 & I5 & I6) Hf].
  { split_and!; try done. by left. }
  destruct (new_frame_windows st1 f1 fr st2 f2 Hf I1 I2 I3) as (N1 & N2 & N3 & N4 & N5).
  split; [done|]. split; [done|]. split; [by eapply new_frame_streams_ok|]. destruct N3 as [N3 N3'], I4 as [I4 I4'].
  split; [split; [intros id; by rewrite N3, I4|by rewrite N3', I4']|]. split.
  - apply Forall_app. split; [done|]. constructor; [|done]. destruct N4 as [N4|(c & Ec & Hle)]; [by left|right].
    specialize (I4 (sf_StreamID fr)). rewrite Ec in I4. destruct (fm_streamFlowController f !! sf_StreamID fr) as [c0|]; [|done].
    injection I4 as I4. exists c0. split; [done|]. by rewrite <- I4.
  - destruct N5 as [N5|N5]; [|by right]. destruct I6 as [I6|I6]; [left; congruence|right]. rewrite N5, N3'. done.
Qed.

Lemma same_fcm_facts st f f' : same_fcm f f' -> synced st f -> fcm_u64 f ->
  synced st f' /\ fcm_u64 f' /\ same_windows f f'.
Proof.
  intros [Hs Hc] Hsync [Hu Hconn].
  assert (Hw : forall c c', same_sending c c' -> getSendWindow env c' = getSendWindow env c).
  { intros c c' (E1 & _ & _ & E4). unfold getSendWindow. by rewrite E1, E4. }
  split; [|split; [split|split]].
  - intros id s Hid Es. destruct (Hsync id s Hid Es) as (c & Ec & Eb). pose proof (Hs id) as Hi. rewrite Ec in Hi.
    inversion Hi as [x c' (_ & _ & E3 & _)|]; subst. exists c'. split; [done|]. congruence.
  - intros id c' Ec'. pose proof (Hs id) as Hi. rewrite Ec' in Hi. inversion Hi as [c x Hcc Ec|]; subst.
    symmetry in Ec. destruct (Hu id c Ec). destruct Hcc as (E1 & E2 & E3 & E4). unfold sends_u64, getSendWindow in *.
    by rewrite E1, E3, E4.
  - destruct Hc as (E1 & E2 & E3 & E4), Hconn. unfold sends_u64, getSendWindow in *. by rewrite E1, E3, E4.
  - intros id. pose proof (Hs id) as Hi. inversion Hi as [c c' Hcc|]; cbn; [|done]. f_equal. by apply Hw.
  - by apply Hw.
Qed.

(** ** The frames of a packet *)

(** What the framer works on: the queued frames, and the open streams [l]. *)
Record framer_ok (fr : streamFramer) (m : streamsMap stream) (l : list Z) : Prop := {
  fk_queue : Forall queued_ok (sfr_retransmissionQueue fr);
  fk_open : open_are l m;
  fk_nodup : NoDup l;
  fk_few : zlen l < 2 ^ 32;
  fk_streams : streams_ok (sm_streams m);
}.

Lemma PopStreamFrames_ok fr m f maxLen l :
  framer_ok fr m l -> 0 <= maxLen < 2 ^ 63 ->
  exists fr' m' f1 f' retr fs, PopStreamFrames env fr m f maxLen = Ok (fr', m', f', retr ++ fs) /\
    sizes (retr ++ fs) <= maxLen /\ Forall dlp (retr ++ fs) /\
    contents (retr ++ sfr_retransmissionQueue fr') = contents (sfr_retransmissionQueue fr) /\
    (sfr_retransmissionQueue fr <> [] -> 15 < maxLen -> retr <> []) /\
    framer_ok fr' m' l /\ same_fcm f f1 /\ new_frames (sm_streams m) f1 fs (sm_streams m') f' /\
    (sizes (retr ++ fs) < maxLen -> forall x s, x ∈ fs -> sm_streams m' !! sf_StreamID x = Some s -> pending s <> [] ->
       exists b, b ∈ sfr_blockedFrameQueue fr' /\ (bl_StreamID b = 0 \/ bl_StreamID b = sf_StreamID x)) /\
    (Forall frame_wf (sfr_retransmissionQueue fr) ->
       Forall frame_wf retr /\ Forall frame_wf (sfr_retransmissionQueue fr')).
Proof.
  intros [K1 K2 K3 K4 K5] Hmax. unfold PopStreamFrames, maybePopFramesForRetransmission.
  destruct (popRetransmissions maxLen 0 f (sfr_retransmissionQueue fr)) as [[[q f1] retr] cur] eqn:Er.
  assert (Hwf : Forall frame_wf (sfr_retransmissionQueue fr) -> Forall frame_wf retr /\ Forall frame_wf q)
    by (intros Hwf; eapply popRetransmissions_wf; [| |exact Hwf|exact Er]; lia).
  apply popRetransmissions_spec in Er as (R1 & R2 & R3 & R4 & R5 & R6 & R7); [|lia|lia|done].
  pose proof (sizes_nonneg retr). rewrite sub64_small by mlia.
  destruct (maybePopNormalFrames_spec (set_retransmissions fr q) m f1 (maxLen - cur) l) as
    (fr' & m' & f' & fs & -> & Hm' & Hfr & cur2 & [I1 I2 I3 I4 I5 I6]); try done; [lia|]. cbn [bind].
  cbn [pop_res pop_f pop_currentLen] in *.
  exists fr', m', f1, f', retr, fs. split; [done|]. split; [rewrite sizes_app; lia|]. split.
  { apply Forall_app. split; [done|]. clear -I1. induction I1 as [|fs st1 f1' x st2 f2 _ IH Hx]; [done|].
    apply Forall_app. split; [done|]. constructor; [apply Hx|done]. }
  assert (Eq : sfr_retransmissionQueue fr' = q) by (rewrite Hfr; done). rewrite Eq. split; [done|].
  split; [intros Hq Hm; apply R7; [done|lia]|]. split; [by split; rewrite ?Eq|]. split; [done|]. split; [done|].
  split; [|done]. rewrite sizes_app. intros Hroom x s Hx Es Hp. apply (I5 x s Hx Es Hp). cbn. lia.
Qed.

(** C4: the stream frames of a packet.  When the queued frames and the open streams are in order,
    PopStreamFrames returns, with frames that fit in the
    space it is given.  It takes retransmissions first, and at least one if there are
    any and 16 bytes of space; what it returns of them and what it leaves queued is
    byte for byte what was queued, FINs included.  Then it takes new data: each new
    frame continues its stream at the write offset, with bytes that were written and
    within the peer's windows, or ends it; and when the packet has room left, a stream that
    got a new frame and still has data is reported as BLOCKED, or the connection is.  (A stream that
    could not send at all is passed over without a report.) *)
Theorem PopStreamFrames_spec fr m f maxLen l :
  framer_ok fr m l -> 0 <= maxLen < 2 ^ 63 ->
  exists fr' m' f1 f' retr fs, PopStreamFrames env fr m f maxLen = Ok (fr', m', f', retr ++ fs) /\
    sizes (retr ++ fs) <= maxLen /\
    contents (retr ++ sfr_retransmissionQueue fr') = contents (sfr_retransmissionQueue fr) /\
    (sfr_retransmissionQueue fr <> [] -> 15 < maxLen -> retr <> []) /\
    framer_ok fr' m' l /\ same_fcm f f1 /\ new_frames (sm_streams m) f1 fs (sm_streams m') f' /\
    (sizes (retr ++ fs) < maxLen -> forall x s, x ∈ fs -> sm_streams m' !! sf_StreamID x = Some s -> pending s <> [] ->
       exists b, b ∈ sfr_blockedFrameQueue fr' /\ (bl_StreamID b = 0 \/ bl_StreamID b = sf_StreamID x)).
Proof.
  intros Hk Hmax. destruct (PopStreamFrames_ok fr m f maxLen l Hk Hmax)
    as (fr' & m' & f1 & f' & retr & fs & H1 & H2 & _ & H3 & H4 & H5 & H6 & H7 & H8 & _). by exists fr', m', f1, f', retr, fs.
Qed.

(** The round robin is used with a function it is proved for ([round_robin_serves_all]). *)
Lemma popNormal_well_behaved maxBytes : well_behaved (popNormal env maxBytes).
Proof.
  intros m w id s Es. unfold popNormal. repeat case_match; simplify_eq; split_and!; try done.
  all: intros x; cbn; rewrite lookup_insert; case_decide; [subst; rewrite Es; split; eauto|done].
Qed.

(** C6: what is sent respects the flow control windows of the peer.  When the counters
    of the flow control manager are the write offsets of the streams, they are so
    again after PopStreamFrames, the windows are the same, no new frame with data
    reaches beyond the window of its stream, and the connection sends nothing more or
    is within its own window. *)
Theorem PopStreamFrames_flow_control fr m f maxLen l fr' m' f' fs :
  framer_ok fr m l -> 0 <= maxLen < 2 ^ 63 -> synced (sm_streams m) f -> fcm_u64 f ->
  PopStreamFrames env fr m f maxLen = Ok (fr', m', f', fs) ->
  synced (sm_streams m') f' /\ fcm_u64 f' /\ same_windows f f' /\ conn_within f f' /\
  exists retr new, fs = retr ++ new /\ Forall (within_window f) new /\
    contents (retr ++ sfr_retransmissionQueue fr') = contents (sfr_retransmissionQueue fr).
Proof.
  intros Hk Hmax Hs Hu E. destruct (PopStreamFrames_ok fr m f maxLen l Hk Hmax)
    as (fr2 & m2 & f1 & f2 & retr & new & E2 & _ & _ & Hret & _ & _ & Hsame & Hnew & _).
  rewrite E in E2. injection E2 as -> -> -> ->. destruct (same_fcm_facts _ _ _ Hsame Hs Hu) as (Hs1 & Hu1 & Hw1 & Hw1').
  destruct (new_frames_windows _ _ _ _ _ Hnew Hs1 Hu1 (fk_streams _ _ _ Hk)) as (H1 & H2 & _ & [H3 H3'] & H4 & H5).
  split; [done|]. split; [done|]. split; [split; [intros id; by rewrite H3, Hw1|by rewrite H3', Hw1']|].
  split.
  - destruct H5 as [H5|H5]; [left; rewrite H5; apply Hsame|by right].
  - exists retr, new. split; [done|]. split; [|done]. apply (List.Forall_impl (P := within_window f1)); [|exact H4].
    intros x [Hx|(c & Ec & Hle)]; [by left|right]. specialize (Hw1 (sf_StreamID x)). rewrite Ec in Hw1.
    destruct (fm_streamFlowController f !! sf_StreamID x) as [c0|]; [|done]. injection Hw1 as Hw1.
    exists c0. split; [done|]. by rewrite <- Hw1.
Qed.
End framer.

(** ** New frames the peer can parse *)

(** The streams hold bytes, and end at a 64-bit offset. *)
Definition streams_wf (st : gmap Z stream) : Prop :=
  forall id s, st !! id = Some s -> is_u32 id /\ 0 <= str_writeOffset s /\
  str_writeOffset s + zlen (pending s) < 2 ^ 64 /\ bytes_ok (pending s).

Lemma new_frames_wf {P} `{ConnectionParametersManager P} (env : fcEnv P) st f fs st' f' :
  new_frames env st f fs st' f' -> streams_wf st -> Forall frame_wf fs /\ streams_wf st'.
Proof.
  intros Hfs Hst. induction Hfs as [|fs st1 f1 fr st2 f2 _ [IH1 IH2] Hf]; [done|].
  destruct Hf as [H1 (s & s' & Es & -> & _ & Eo & Ew & Ep & _) _ _ Hsome _].
  destruct (IH2 _ s Es) as (W1 & W2 & W3 & W4). rewrite Ep, zlen_app in W3. rewrite Ep in W4.
  apply Forall_app in W4 as [W4 W5]. unfold DataLen in Ew.
  pose proof (zlen_nonneg (sf_Data fr)). pose proof (zlen_nonneg (pending s')).
  split.
  - apply Forall_app. split; [done|]. constructor; [|done]. split; [split; rewrite ?Eo; try done; lia|tauto].
  - intros id x Hx. destruct (decide (id = sf_StreamID fr)) as [->|Hne].
    + rewrite lookup_insert_eq in Hx. injection Hx as <-. rewrite Ew, add64_small by mlia. split; [done|]. split; [lia|].
      split; [lia|done].
    + rewrite lookup_insert_ne in Hx by done. by apply IH2.
Qed.

(** The frames [PopStreamFrames] returns are fit for a packet. *)
Lemma PopStreamFrames_wf {P} `{ConnectionParametersManager P} (env : fcEnv P) fr m f maxLen l :
  framer_ok fr m l -> 0 <= maxLen < 2 ^ 63 -> Forall frame_wf (sfr_retransmissionQueue fr) -> streams_wf (sm_streams m) ->
  exists fr' m' f' fs, PopStreamFrames env fr m f maxLen = Ok (fr', m', f', fs) /\ sizes fs <= maxLen /\
    Forall dlp fs /\ Forall frame_wf fs /\ framer_ok fr' m' l /\ Forall frame_wf (sfr_retransmissionQueue fr') /\
    streams_wf (sm_streams m').
Proof.
  intros Hk Hmax Hq Hst. destruct (PopStreamFrames_ok env fr m f maxLen l Hk Hmax)
    as (fr' & m' & f1 & f' & retr & fs & E & Hs & Hd & _ & _ & Hk' & _ & Hnew & _ & Hret).
  destruct (new_frames_wf env _ _ _ _ _ Hnew Hst) as [Hwf Hst'].
  exists fr', m', f', (retr ++ fs). split; [done|]. split; [done|]. split; [done|].
  destruct (Hret Hq) as [H1 H2]. split; [by apply Forall_app|done].
Qed.

(** ** Witnesses *)

Definition sample_opened : streamsMap stream * flowControlManager :=
  match GetOrOpenStream (session_newStream example_env) 5 (env_params example_env) (newStreamsMap PerspectiveServer)
          (NewFlowControlManager example_env) 5 with
  | Some (m, f, _) => (m, f)
  | None => (newStreamsMap PerspectiveServer, NewFlowControlManager example_env)
  end.

(** Stream 5 has 40 bytes to send, and 20 bytes of stream 3 are to be sent again. *)
Definition sample_streams : streamsMap stream :=
  set_stream sample_opened.1 5 (Write (newStr 5) (repeat 7 40) 0).1.1.
Definition sample_framer : streamFramer := AddFrameForRetransmission newStreamFramer (mkFrame false 100 (repeat 9 20)).

Lemma sample_streams_all id s : sm_streams sample_streams !! id = Some s ->
  (id = 1 /\ s = newStr 1) \/ (id = 3 /\ s = newStr 3) \/ (id = 5 /\ s = (Write (newStr 5) (repeat 7 40) 0).1.1).
Proof.
  assert (Hst : map_to_list (sm_streams sample_streams) =
    [(5, (Write (newStr 5) (repeat 7 40) 0).1.1); (3, newStr 3); (1, newStr 1)]) by (vm_compute; reflexivity).
  intros Es. apply elem_of_map_to_list in Es. rewrite Hst, !elem_of_cons in Es.
    destruct Es as [[= -> ->]|[[= -> ->]|[[= -> ->]|Es]]]; [right; right; split; reflexivity|right; left; split; reflexivity|left; split; reflexivity|destruct (not_elem_of_nil _ Es)].
Qed.

Lemma sample_framer_ok : framer_ok sample_framer sample_streams [1; 3; 5].
Proof.
  split.
  - constructor; [vm_compute; split; [discriminate|reflexivity]|constructor].
  - split; [vm_compute; reflexivity|]. intros x. split.
    + rewrite !elem_of_cons. intros [->|[ ->|[ ->|Hx]]]; [vm_compute; eexists; reflexivity..|destruct (not_elem_of_nil _ Hx)].
    + intros [s Es]. rewrite !elem_of_cons. destruct (sample_streams_all x s Es) as [[-> _]|[[-> _]|[-> _]]]; auto.
  - apply (bool_decide_unpack _); vm_compute; exact I.
  - vm_compute. reflexivity.
  - intros id s Es. destruct (sample_streams_all id s Es) as [[-> ->]|[[-> ->]|[-> ->]]];
      (split; [reflexivity|vm_compute; split; [discriminate|reflexivity]]).
Qed.

Lemma PopStreamFrames_spec_witness :
  exists fr' m' f' fs, PopStreamFrames example_env sample_framer sample_streams sample_opened.2 50 = Ok (fr', m', f', fs) /\
    sizes fs <= 50 /\ map DataLen fs = [20; 20].
Proof.
  destruct (PopStreamFrames_spec example_env sample_framer sample_streams sample_opened.2 50 [1; 3; 5] sample_framer_ok
    ltac:(lia)) as (fr' & m' & f1 & f' & retr & fs & E & Hs & _).
  exists fr', m', f', (retr ++ fs). split; [exact E|]. split; [exact Hs|].
  assert (El : (match PopStreamFrames example_env sample_framer sample_streams sample_opened.2 50 with
    | Ok (_, _, _, fs) => map DataLen fs | _ => [] end) = [20; 20]) by (vm_compute; reflexivity).
  rewrite E in El. exact El.
Defined.

Lemma sample_synced : synced (sm_streams sample_streams) sample_opened.2.
Proof.
  intros id s Hid Es. assert (Hin : id ∈ [1; 3; 5]) by (apply (fk_open _ _ _ sample_framer_ok); by rewrite Es).
  rewrite !elem_of_cons in Hin. destruct Hin as [->|[ ->|[ ->|Hin]]]; [destruct (Hid eq_refl)| | |destruct (not_elem_of_nil _ Hin)].
  - vm_compute in Es. injection Es as <-. eexists. split; vm_compute; reflexivity.
  - vm_compute in Es. injection Es as <-. eexists. split; vm_compute; reflexivity.
Qed.

Lemma sample_fcm_u64 : fcm_u64 example_env sample_opened.2.
Proof.
  assert (Hf : map_to_list (fm_streamFlowController sample_opened.2) =
    [(5, newFlowController example_env 5 true); (3, newFlowController example_env 3 false);
     (1, newFlowController example_env 1 false)]) by (vm_compute; reflexivity).
  split; [|vm_compute; repeat split; try discriminate; reflexivity]. intros id c Ec.
  apply elem_of_map_to_list in Ec. rewrite Hf, !elem_of_cons in Ec.
  destruct Ec as [[= _ ->]|[[= _ ->]|[[= _ ->]|Ec]]]; [..|destruct (not_elem_of_nil _ Ec)];
    vm_compute; repeat split; try discriminate; reflexivity.
Qed.

Lemma PopStreamFrames_flow_control_witness :
  exists fr' m' f' fs, PopStreamFrames example_env sample_framer sample_streams sample_opened.2 50 = Ok (fr', m', f', fs) /\
    synced (sm_streams m') f' /\ conn_within example_env sample_opened.2 f'.
Proof.
  destruct (PopStreamFrames_ok example_env sample_framer sample_streams sample_opened.2 50 [1; 3; 5] sample_framer_ok
    ltac:(lia)) as (fr' & m' & f1 & f' & retr & fs & E & _).
  exists fr', m', f', (retr ++ fs). split; [exact E|].
  destruct (PopStreamFrames_flow_control example_env sample_framer sample_streams sample_opened.2 50 [1; 3; 5] fr' m' f'
    (retr ++ fs) sample_framer_ok ltac:(lia) sample_synced sample_fcm_u64 E) as (H1 & _ & _ & H4 & _).
  split; [exact H1|exact H4].
Defined.
