(* ===== verification/PacketPacker.v ===== *)
(** * The packet packer (packet_packer.go)

    Composes the packets of a session: the header, the frames that fit, their
    encryption and the packet number.  The packer works on the state it shares with
    the session by reference: the stream framer, the streams, the flow control
    manager, and the path the packet is for.  The crypto setup is an interface: the
    levels and the sealers it gives at the time of the call. *)
From stdpp Require Import pretty.
From S2P Require Import Prelude Qerr ByteOrder Protocol WireStream WireControl AckRanges WireAck PublicHeader.
From S2P Require Import Frames Float32 RttStats SentPackets ConnParams FlowControl StreamFrameSorter StreamsMap.
From S2P Require Import Stream StreamFramer PacketNumberGenerator.

Definition NonForwardSecurePacketSizeReduction : Z := 50.

(** [handshake.Sealer]; [Seal] is given the plaintext, the packet number and the
    associated data. *)
Record Sealer : Type := mkSealer {
  Overhead : Z;
  Seal : list Z -> Z -> list Z -> list Z;
}.

Record CryptoSetup : Type := mkCrypto {
  GetSealer : EncryptionLevel * Sealer;
  GetSealerWithEncryptionLevel : EncryptionLevel -> result Sealer;
  GetSealerForCryptoStream : EncryptionLevel * Sealer;
  DiversificationNonce : list Z;
}.

Record packedPacket : Type := mkPacked {
  pkt_number : Z;
  pkt_raw : list Z;
  pkt_frames : list Frame;
  pkt_encryptionLevel : EncryptionLevel;
}.

(** A nil entry of the maps is no entry. *)
Record packetPacker : Type := mkPacker {
  pk_connectionID : Z;
  pk_perspective : Perspective;
  pk_version : Z;
  pk_controlFrames : list Frame;
  pk_stopWaiting : gmap Z StopWaitingFrame;
  pk_ackFrame : gmap Z AckFrame;
}.

Definition newPacketPacker (connectionID : Z) (perspective : Perspective) (version : Z) : packetPacker :=
  mkPacker connectionID perspective version [] ∅ ∅.

(** What the packer uses of a [path]; [pth_handshakeComplete] is
    [pth.sess != nil && pth.sess.handshakeComplete]. *)
Record packPath : Type := mkPath {
  pth_pathID : Z;
  pth_leastUnacked : Z;
  pth_packetNumberGenerator : packetNumberGenerator;
  pth_handshakeComplete : bool;
}.

(** The state an operation of the packer works on. *)
Record packState : Type := mkPS {
  ps_packer : packetPacker;
  ps_framer : streamFramer;
  ps_streams : streamsMap stream;
  ps_fcm : flowControlManager;
  ps_path : packPath;
}.

(** *** Field updates *)

Definition set_packer (s : packState) (p : packetPacker) : packState :=
  mkPS p (ps_framer s) (ps_streams s) (ps_fcm s) (ps_path s).
Definition set_path (s : packState) (pth : packPath) : packState :=
  mkPS (ps_packer s) (ps_framer s) (ps_streams s) (ps_fcm s) pth.
Definition set_sending (s : packState) (fr : streamFramer) (m : streamsMap stream) (f : flowControlManager) : packState :=
  mkPS (ps_packer s) fr m f (ps_path s).
Definition set_controlFrames (p : packetPacker) (fs : list Frame) : packetPacker :=
  mkPacker (pk_connectionID p) (pk_perspective p) (pk_version p) fs (pk_stopWaiting p) (pk_ackFrame p).
Definition set_stopWaiting (p : packetPacker) (m : gmap Z StopWaitingFrame) : packetPacker :=
  mkPacker (pk_connectionID p) (pk_perspective p) (pk_version p) (pk_controlFrames p) m (pk_ackFrame p).
Definition set_ackFrame (p : packetPacker) (m : gmap Z AckFrame) : packetPacker :=
  mkPacker (pk_connectionID p) (pk_perspective p) (pk_version p) (pk_controlFrames p) (pk_stopWaiting p) m.
Definition set_generator (pth : packPath) (g : packetNumberGenerator) : packPath :=
  mkPath (pth_pathID pth) (pth_leastUnacked pth) g (pth_handshakeComplete pth).
Definition SetLeastUnacked (pth : packPath) (leastUnacked : Z) : packPath :=
  mkPath (pth_pathID pth) leastUnacked (pth_packetNumberGenerator pth) (pth_handshakeComplete pth).

Definition QueueControlFrame (p : packetPacker) (frame : Frame) (pth : packPath) : packetPacker :=
  match frame with
  | FStopWaiting f => set_stopWaiting p (<[pth_pathID pth := f]> (pk_stopWaiting p))
  | FAck f => set_ackFrame p (<[pth_pathID pth := f]> (pk_ackFrame p))
  | f => set_controlFrames p (pk_controlFrames p ++ [f])
  end.

Section packer.
Context {P : Type} `{ConnectionParametersManager P}.
Variables (env : fcEnv P) (crypto : CryptoSetup).
(** The time frames are written at, and the random bytes of the packet number
    generator. *)
Variables (now : Z) (rand : option (Z * Z)).

Definition getPublicHeader (p : packetPacker) (encLevel : EncryptionLevel) (pth : packPath) : PublicHeader :=
  let pnum := png_Peek (pth_packetNumberGenerator pth) in
  let multipath := pth_handshakeComplete pth && (VersionMP <=? pk_version p) in
  let sendVersion := bool_decide (pk_perspective p = PerspectiveClient) &&
    negb (bool_decide (encLevel = EncryptionForwardSecure)) in
  {| ph_ConnectionID := pk_connectionID p;
     ph_PathID := if multipath then pth_pathID pth else 0;
     ph_VersionFlag := sendVersion;
     ph_ResetFlag := false;
     ph_TruncateConnectionID := if multipath then false else TruncateConnectionID (env_params env);
     ph_MultipathFlag := multipath;
     ph_PacketNumberLen := GetPacketNumberLengthForPublicHeader pnum (pth_leastUnacked pth);
     ph_PacketNumber := pnum;
     ph_VersionNumber := if sendVersion then pk_version p else 0;
     ph_SupportedVersions := [];
     ph_DiversificationNonce :=
       if bool_decide (pk_perspective p = PerspectiveServer) && bool_decide (encLevel = EncryptionSecure)
       then DiversificationNonce crypto else [] |}.

(** The packet is sealed in place, behind its header. *)
Definition writeAndSealPacket (s : packState) (publicHeader : PublicHeader) (payloadFrames : list Frame)
    (sealer : Sealer) : packState * result (list Z) :=
  let p := ps_packer s in
  match PublicHeader_Write publicHeader (pk_version p) (pk_perspective p) with
  | Err e => (s, Err e)
  | Panic => (s, Panic)
  | Ok header =>
      match writeFrames payloadFrames (pk_version p) now with
      | Err e => (s, Err e)
      | Panic => (s, Panic)
      | Ok payload =>
          if zlen header + zlen payload + Overhead sealer >? MaxPacketSize
          then (s, Err (errors_New "PacketPacker BUG: packet too large"))
          else
          let raw := header ++ Seal sealer payload (ph_PacketNumber publicHeader) header in
          let '(g, num) := png_Pop rand (pth_packetNumberGenerator (ps_path s)) in
          let s := set_path s (set_generator (ps_path s) g) in
          if negb (num =? ph_PacketNumber publicHeader)
          then (s, Err (errors_New "packetPacker BUG: Peeked and Popped packet numbers do not match"))
          else (s, Ok raw)
      end
  end.

(** Both are returned by the code, the packet and the error; the packet is used when
    there is no error. *)
Definition sealedPacket (s : packState) (publicHeader : PublicHeader) (frames : list Frame) (sealer : Sealer)
    (encLevel : EncryptionLevel) : packState * result (option packedPacket) :=
  let '(s, r) := writeAndSealPacket s publicHeader frames sealer in
  (s, let* raw := r in Ok (Some (mkPacked (ph_PacketNumber publicHeader) raw frames encLevel))).

Definition PackConnectionClose (s : packState) (ccf : ConnectionCloseFrame) : packState * result (option packedPacket) :=
  let '(encLevel, sealer) := GetSealer crypto in
  sealedPacket s (getPublicHeader (ps_packer s) encLevel (ps_path s)) [FConnectionClose ccf] sealer encLevel.

(** [stopWaiting.PacketNumber] and [PacketNumberLen] are those of the packet. *)
Definition stampStopWaiting (hdr : PublicHeader) (f : StopWaitingFrame) : StopWaitingFrame :=
  {| sw_LeastUnacked := sw_LeastUnacked f; sw_PacketNumberLen := ph_PacketNumberLen hdr;
     sw_PacketNumber := ph_PacketNumber hdr |}.

Definition PackAckPacket (s : packState) : packState * result (option packedPacket) :=
  let p := ps_packer s in
  let pathID := pth_pathID (ps_path s) in
  match pk_ackFrame p !! pathID with
  | None => (s, Err (errors_New "packet packer BUG: no ack frame queued"))
  | Some ack =>
      let '(encLevel, sealer) := GetSealer crypto in
      let ph := getPublicHeader p encLevel (ps_path s) in
      let '(frames, p) :=
        match pk_stopWaiting p !! pathID with
        | Some sw => ([FAck ack; FStopWaiting (stampStopWaiting ph sw)],
                      set_stopWaiting p (delete pathID (pk_stopWaiting p)))
        | None => ([FAck ack], p)
        end in
      let p := set_ackFrame p (delete pathID (pk_ackFrame p)) in
      sealedPacket (set_packer s p) ph frames sealer encLevel
  end.

Definition PackHandshakeRetransmission (s : packState) (packet : Packet) : packState * result (option packedPacket) :=
  let p := ps_packer s in
  let encryptionLevel := pk_EncryptionLevel packet in
  let pathID := pth_pathID (ps_path s) in
  if decide (encryptionLevel = EncryptionForwardSecure)
  then (s, Err (errors_New
         "PacketPacker BUG: forward-secure encrypted handshake packets don't need special treatment"))
  else
  match GetSealerWithEncryptionLevel crypto encryptionLevel with
  | Err e => (s, Err e)
  | Panic => (s, Panic)
  | Ok sealer =>
      match pk_stopWaiting p !! pathID with
      | None => (s, Err (errors_New
          "PacketPacker BUG: Handshake retransmissions must contain a StopWaitingFrame"))
      | Some sw =>
          let ph := getPublicHeader p encryptionLevel (ps_path s) in
          let frames := FStopWaiting (stampStopWaiting ph sw) :: pk_Frames packet in
          let p := set_stopWaiting p (delete pathID (pk_stopWaiting p)) in
          sealedPacket (set_packer s p) ph frames sealer encryptionLevel
      end
  end.

(** *** Composing *)

(** The loop over the control frames, from the last one on: the frames taken, their
    length, what is left (last one first), and whether it went well. *)
Fixpoint takeControlFrames (maxFrameSize payloadLength : Z) (controlFrames : list Frame) :
    list Frame * Z * list Frame * result unit :=
  match controlFrames with
  | [] => ([], payloadLength, [], Ok tt)
  | frame :: rest =>
      match Frame_MinLength frame with
      | Err e => ([], payloadLength, controlFrames, Err e)
      | Panic => ([], payloadLength, controlFrames, Panic)
      | Ok minLength =>
          if payloadLength +u minLength >? maxFrameSize then ([], payloadLength, controlFrames, Ok tt)
          else
          let '(taken, payloadLength, rem, r) := takeControlFrames maxFrameSize (payloadLength +u minLength) rest in
          (frame :: taken, payloadLength, rem, r)
      end
  end.

(** STOP_WAITING and ACK, with their length. *)
Definition firstFrames (p : packetPacker) (pathID : Z) : result (list Frame * Z) :=
  let* r1 := match pk_stopWaiting p !! pathID with
    | Some sw => let* l := StopWaitingFrame_MinLength sw in Ok ([FStopWaiting sw], 0 +u l)
    | None => Ok ([], 0)
    end in
  match pk_ackFrame p !! pathID with
  | Some ack => Ok (fst r1 ++ [FAck ack], snd r1 +u AckFrame_MinLength ack)
  | None => Ok r1
  end.

(** [fs[len(fs)-1].DataLenPresent = false]. *)
Fixpoint dropLastDataLen (fs : list StreamFrame) : list StreamFrame :=
  match fs with
  | [] => []
  | [f] => [set_DataLenPresent f false]
  | f :: fs => f :: dropLastDataLen fs
  end.

(** [for b := PopBlockedFrame(); b != nil; b = PopBlockedFrame()]: the queue gets
    shorter, so that its length is enough fuel. *)
Fixpoint queueBlocked (fuel : nat) (fr : streamFramer) (controlFrames : list Frame) : streamFramer * list Frame :=
  match fuel with
  | O => (fr, controlFrames)
  | S fuel =>
      match PopBlockedFrame fr with
      | (fr, Some b) => queueBlocked fuel fr (controlFrames ++ [FBlocked b])
      | (fr, None) => (fr, controlFrames)
      end
  end.

Definition errPayloadTooLarge (payloadLength maxFrameSize : Z) : error := errors_New
  ("Packet Packer BUG: packet payload (" +:+ pretty payloadLength +:+ ") too large (" +:+ pretty maxFrameSize +:+ ")").

(** The stream frames, for which [space] is left, and the BLOCKED frames
    that are for the next packet. *)
Definition addStreamFrames (s : packState) (payloadFrames : list Frame) (space : Z) : packState * result (list Frame) :=
  match PopStreamFrames env (ps_framer s) (ps_streams s) (ps_fcm s) space with
  | Ok (fr, m, f, fs) =>
      let '(fr, control) := queueBlocked (length (sfr_blockedFrameQueue fr)) fr (pk_controlFrames (ps_packer s)) in
      (set_packer (set_sending s fr m f) (set_controlFrames (ps_packer s) control),
       Ok (payloadFrames ++ map FStream (dropLastDataLen fs)))
  | Err e => (s, Err e)
  | Panic => (s, Panic)
  end.

Definition composeNextPacket (s : packState) (maxFrameSize : Z) (canSendStreamFrames : bool) :
    packState * result (list Frame) :=
  let p := ps_packer s in
  match firstFrames p (pth_pathID (ps_path s)) with
  | Err e => (s, Err e)
  | Panic => (s, Panic)
  | Ok (payloadFrames, payloadLength) =>
      let '(taken, payloadLength, rem, r) :=
        takeControlFrames maxFrameSize payloadLength (rev (pk_controlFrames p)) in
      let s := set_packer s (set_controlFrames p (rev rem)) in
      match r with
      | Err e => (s, Err e)
      | Panic => (s, Panic)
      | Ok _ =>
          if payloadLength >? maxFrameSize then (s, Err (errPayloadTooLarge payloadLength maxFrameSize))
          else if negb canSendStreamFrames then (s, Ok (payloadFrames ++ taken))
          else addStreamFrames s (payloadFrames ++ taken) (maxFrameSize +u 2 -u payloadLength)
      end
  end.

Definition canSendData (p : packetPacker) (encLevel : EncryptionLevel) : bool :=
  match pk_perspective p with
  | PerspectiveClient => negb (notEncrypted encLevel)
  | PerspectiveServer => bool_decide (encLevel = EncryptionForwardSecure)
  end.

Definition packCryptoPacket (s : packState) : packState * result (option packedPacket) :=
  let p := ps_packer s in
  let '(encLevel, sealer) := GetSealerForCryptoStream crypto in
  let publicHeader := getPublicHeader p encLevel (ps_path s) in
  match PublicHeader_GetLength publicHeader (pk_perspective p) with
  | Err e => (s, Err e)
  | Panic => (s, Panic)
  | Ok publicHeaderLength =>
      let maxLen := MaxPacketSize -u Overhead sealer -u NonForwardSecurePacketSizeReduction -u publicHeaderLength in
      match PopCryptoStreamFrame env (ps_streams s) (ps_fcm s) maxLen with
      | Ok (m, f, Some frame) =>
          sealedPacket (set_sending s (ps_framer s) m f) publicHeader [FStream frame] sealer encLevel
      | Ok (_, _, None) => (s, Panic)
      | Err e => (s, Err e)
      | Panic => (s, Panic)
      end
  end.

Definition isPing (fs : list Frame) : bool := match fs with FPing _ :: _ => true | _ => false end.

(** The part of [PackPacket] after the payload was composed. *)
Definition finishPacket (s : packState) (publicHeader : PublicHeader) (payloadFrames : list Frame) (sealer : Sealer)
    (encLevel : EncryptionLevel) : packState * result (option packedPacket) :=
  let p := ps_packer s in
  let pathID := pth_pathID (ps_path s) in
  match payloadFrames, pk_stopWaiting p !! pathID with
  | [], _ => (s, Ok None)
  | [_], Some _ => (s, Ok None)
  | _, _ =>
      let p := set_stopWaiting p (delete pathID (pk_stopWaiting p)) in
      let p := set_ackFrame p (delete pathID (pk_ackFrame p)) in
      sealedPacket (set_packer s p) publicHeader payloadFrames sealer encLevel
  end.

Definition PackPacket (s : packState) : packState * result (option packedPacket) :=
  match HasCryptoStreamFrame env (ps_streams s) (ps_fcm s) with
  | Err e => (s, Err e)
  | Panic => (s, Panic)
  | Ok (m, f, hasCrypto) =>
      let s := set_sending s (ps_framer s) m f in
      if hasCrypto then packCryptoPacket s
      else
      let p := ps_packer s in
      let pathID := pth_pathID (ps_path s) in
      let '(encLevel, sealer) := GetSealer crypto in
      let publicHeader := getPublicHeader p encLevel (ps_path s) in
      match PublicHeader_GetLength publicHeader (pk_perspective p) with
      | Err e => (s, Err e)
      | Panic => (s, Panic)
      | Ok publicHeaderLength =>
          let p := set_stopWaiting p (alter (stampStopWaiting publicHeader) pathID (pk_stopWaiting p)) in
          let s := set_packer s p in
          if isPing (pk_controlFrames p) then
            finishPacket (set_packer s (set_controlFrames p (tail (pk_controlFrames p)))) publicHeader
              (take 1 (pk_controlFrames p)) sealer encLevel
          else
          let maxSize := MaxPacketSize -u Overhead sealer -u publicHeaderLength in
          let '(s, r) := composeNextPacket s maxSize (canSendData p encLevel) in
          match r with
          | Err e => (s, Err e)
          | Panic => (s, Panic)
          | Ok payloadFrames => finishPacket s publicHeader payloadFrames sealer encLevel
          end
      end
  end.

(** The ping goes in front of the control frames; [leastUnacked] is
    [sentPacketHandler.GetLeastUnacked()]. *)
Definition PackPing (s : packState) (pf : PingFrame) (leastUnacked : Z) : packState * result (option packedPacket) :=
  let s := set_path s (SetLeastUnacked (ps_path s) leastUnacked) in
  let p := ps_packer s in
  PackPacket (set_packer s (set_controlFrames p (FPing pf :: pk_controlFrames p))).
End packer.
