(* ===== verification/PacketPackerProofs.v ===== *)
(** * Properties of the packet packer

    A packet that is packed fits in a datagram and is exactly the sequence of frames
    it is recorded with, as the unpacker of the peer sees it. *)
From S2P Require Import Prelude Qerr ByteOrder Protocol WireStream WireControl AckRanges WireAck PublicHeader.
From S2P Require Import Frames Float32 RttStats SentPackets ConnParams FlowControl FlowControlProofs.
From S2P Require Import StreamFrameSorter StreamsMap StreamsMapProofs Stream SorterProofs StreamProofs.
From S2P Require Import StreamFramer StreamFramerProofs PacketNumberGenerator PacketPacker.

(** ** Lengths *)

Definition frame_len (f : Frame) : Z := match Frame_MinLength f with Ok n => frame_size f n | _ => 0 end.
Definition frames_len (fs : list Frame) : Z := foldr (fun f n => frame_len f + n) 0 fs.

Lemma frames_len_app l k : frames_len (l ++ k) = frames_len l + frames_len k.
Proof. induction l as [|f l IH]; [done|]. cbn. unfold frames_len in *. lia. Qed.

Lemma frames_len_cons f l : frames_len (f :: l) = frame_len f + frames_len l.
Proof. done. Qed.

(** A frame of a packet with the header [hdr]: the peer can parse it, and
    [MinLength] does not wrap. *)
Definition packable (lvl : EncryptionLevel) (hdr : PublicHeader) (now : Z) (f : Frame) : Prop :=
  Frame_sendable lvl hdr now f /\ match f with FPaths f => pf_NumPaths f < 85 | _ => True end.

Lemma packable_len lvl hdr version now f : packable lvl hdr now f ->
  exists bs n, Frame_Write f version now = Ok bs /\ Frame_MinLength f = Ok n /\ zlen bs = frame_len f.
Proof.
  intros [Hs Hp]. destruct (Frame_Write_size lvl hdr version now f Hs Hp) as (bs & n & Hw & Hn & Hl).
  exists bs, n. split; [done|]. split; [done|]. unfold frame_len. by rewrite Hn.
Qed.

Lemma packable_nonneg lvl hdr now f : packable lvl hdr now f -> 0 <= frame_len f.
Proof. intros Hp. destruct (packable_len lvl hdr 0 now f Hp) as (bs & n & _ & _ & <-). apply zlen_nonneg. Qed.

Lemma writeFrames_len lvl hdr version now fs : Forall (packable lvl hdr now) fs ->
  exists bs, writeFrames fs version now = Ok bs /\ zlen bs = frames_len fs.
Proof.
  induction 1 as [|f fs Hf _ IH]; [by exists []|]. destruct IH as (bs & Hw & Hl).
  destruct (packable_len lvl hdr version now f Hf) as (bs1 & n & Hw1 & _ & Hl1).
  exists (bs1 ++ bs). cbn [writeFrames]. rewrite Hw1, Hw. split; [done|]. rewrite zlen_app, frames_len_cons. lia.
Qed.

(** A control frame: not one of the frames the packer treats in its own way, fit for
    any packet, and of an ordinary size. *)
Definition control_ok (f : Frame) : Prop :=
  match f with FStream _ | FAck _ | FStopWaiting _ => False | _ => True end /\
  (forall lvl hdr now, packable lvl hdr now f) /\ frame_len f < 2 ^ 32.

Lemma control_MinLength f : control_ok f -> Frame_MinLength f = Ok (frame_len f) /\ 0 <= frame_len f < 2 ^ 32.
Proof.
  intros (Hk & Hp & Hl). specialize (Hp EncryptionForwardSecure example_header 0).
  pose proof (packable_nonneg _ _ _ _ Hp). split; [|lia].
  destruct (packable_len _ _ 0 _ _ Hp) as (bs & n & _ & Hn & _). unfold frame_len. rewrite Hn. by destruct f.
Qed.

(** ** Composing *)

Lemma takeControlFrames_spec max n cs taken n' rem r :
  Forall control_ok cs -> 0 <= n < 2 ^ 63 -> 0 <= max < 2 ^ 63 ->
  takeControlFrames max n cs = (taken, n', rem, r) ->
  r = Ok tt /\ cs = taken ++ rem /\ n' = n + frames_len taken /\ (n <= max -> n' <= max) /\ (max < n -> taken = []).
Proof.
  intros Hcs. revert n taken n' rem r. induction Hcs as [|f cs Hf Hcs IH]; intros n taken n' rem r Hn Hmax; cbn [takeControlFrames].
  { intros [= <- <- <- <-]. split_and!; try done; try lia. cbn. lia. }
  destruct (control_MinLength f Hf) as [-> Hl]. rewrite add64_small by mlia. rewrite Z.gtb_ltb.
  destruct (max <? _) eqn:E; bool_to_prop.
  { intros [= <- <- <- <-]. split_and!; try done; try lia. cbn. lia. }
  destruct (takeControlFrames max _ cs) as [[[taken1 n1] rem1] r1] eqn:Et. intros [= <- <- <- <-].
  apply IH in Et as (-> & -> & -> & Hle & _); [|lia|lia]. rewrite frames_len_cons. split_and!; try done; lia.
Qed.

(** What the packer holds for a packet on the path [id] with the header [hdr]. *)
Record packer_ok (p : packetPacker) (id : Z) (lvl : EncryptionLevel) (hdr : PublicHeader) (now : Z) : Prop := {
  po_control : Forall control_ok (pk_controlFrames p);
  po_sw : forall sw, pk_stopWaiting p !! id = Some sw -> Frame_sendable lvl hdr now (FStopWaiting sw);
  po_ack : forall ack, pk_ackFrame p !! id = Some ack -> Frame_sendable lvl hdr now (FAck ack) /\
    AckFrame_MinLength ack < 2 ^ 32;
}.

Definition first_frames (p : packetPacker) (id : Z) : list Frame :=
  match pk_stopWaiting p !! id with Some sw => [FStopWaiting sw] | None => [] end ++
  match pk_ackFrame p !! id with Some ack => [FAck ack] | None => [] end.

Lemma firstFrames_spec p id lvl hdr now : packer_ok p id lvl hdr now ->
  firstFrames p id = Ok (first_frames p id, frames_len (first_frames p id)) /\
  Forall (packable lvl hdr now) (first_frames p id) /\ 0 <= frames_len (first_frames p id) < 2 ^ 33.
Proof.
  intros [_ Hsw Hack]. unfold firstFrames, first_frames.
  assert (Hone : match pk_stopWaiting p !! id with
    | Some sw => exists n, StopWaitingFrame_MinLength sw = Ok n /\ frame_len (FStopWaiting sw) = n /\ 0 <= n < 2 ^ 16 /\
        packable lvl hdr now (FStopWaiting sw)
    | None => True end).
  { destruct (pk_stopWaiting p !! id) as [sw|] eqn:Es; [|done]. pose proof (Hsw sw eq_refl) as Hs.
    assert (Hp : packable lvl hdr now (FStopWaiting sw)) by done. cbn [Frame_sendable] in Hs.
    destruct Hs as (_ & _ & Hv & _). unfold frame_len. cbn [Frame_MinLength frame_size]. unfold StopWaitingFrame_MinLength.
    rewrite (proj2 (Z.eqb_neq _ _)) by (unfold valid_pn_len in Hv; unfold PacketNumberLenInvalid; lia).
    eexists. split; [done|]. split; [done|]. split; [|done]. rewrite add64_small; unfold valid_pn_len in Hv; mlia. }
  assert (Htwo : match pk_ackFrame p !! id with
    | Some ack => frame_len (FAck ack) = AckFrame_MinLength ack /\ 0 <= AckFrame_MinLength ack < 2 ^ 32 /\
        packable lvl hdr now (FAck ack)
    | None => True end).
  { destruct (pk_ackFrame p !! id) as [ack|] eqn:Ea; [|done]. destruct (Hack ack eq_refl) as [Hs Hl].
    assert (Hp : packable lvl hdr now (FAck ack)) by done. pose proof (packable_nonneg _ _ _ _ Hp) as H0.
    unfold frame_len in *. cbn in *. split; [done|]. split; [lia|done]. }
  destruct (pk_stopWaiting p !! id) as [sw|], (pk_ackFrame p !! id) as [ack|]; cbn [bind fst snd app].
  - destruct Hone as (n & -> & En & Hn & Hp1), Htwo as (Ea & Ha & Hp2). cbn [bind fst snd app]. rewrite !frames_len_cons, En, Ea.
    rewrite (add64_small 0 n), add64_small by mlia. cbn [frames_len foldr]. rewrite Z.add_0_r. split; [done|]. split; [constructor; [done|constructor; [done|constructor]]|lia].
  - destruct Hone as (n & -> & En & Hn & Hp1). cbn [bind fst snd app]. rewrite !frames_len_cons, En.
    rewrite !add64_small by mlia. cbn [frames_len foldr]. rewrite Z.add_0_r. split; [done|]. split; [constructor; [done|constructor]|lia].
  - destruct Htwo as (Ea & Ha & Hp2). rewrite !frames_len_cons, Ea.
    rewrite !add64_small by mlia. cbn [frames_len foldr]. rewrite Z.add_0_r. split; [done|]. split; [constructor; [done|constructor]|lia].
  - split; [done|]. split; [done|]. cbn. lia.
Qed.

(** The last stream frame loses its length, and two bytes with it. *)
Lemma framed_frame_len f : frame_len (FStream f) = framed f.
Proof. done. Qed.

Lemma dropLast_len fs : Forall dlp fs -> fs <> [] -> frames_len (map FStream (dropLastDataLen fs)) = sizes fs - 2.
Proof.
  intros Hd Hne. induction Hd as [|f fs Hf Hd IH]; [done|]. destruct fs as [|g fs].
  - unfold sizes. cbn [dropLastDataLen map frames_len foldr]. rewrite framed_frame_len. unfold framed, StreamFrame_MinLength, dlp in *.
    cbn [set_DataLenPresent sf_DataLenPresent]. rewrite Hf.
    change (calculateStreamIDLength (set_DataLenPresent f false)) with (calculateStreamIDLength f).
    change (getOffsetLength (set_DataLenPresent f false)) with (getOffsetLength f).
    pose proof (calculateStreamIDLength_range f). pose proof (getOffsetLength_range f).
    change (DataLen (set_DataLenPresent f false)) with (DataLen f). add64_exact. lia.
  - change (dropLastDataLen (f :: g :: fs)) with (f :: dropLastDataLen (g :: fs)). cbn [map]. rewrite frames_len_cons, IH by done.
    rewrite framed_frame_len. unfold sizes. cbn [foldr]. lia.
Qed.

(** A frame whose data fits in a packet. *)
Lemma frame_wf_sendable lvl hdr now f : frame_wf f -> DataLen f <= MaxPacketSize -> notEncrypted lvl = false ->
  packable lvl hdr now (FStream f).
Proof.
  intros [Hw Hs] Hl Hn. split; [|done]. split; [|by right]. split; [done|]. split; [done|].
  unfold DataLen in Hl. case_match; [done|]. unfold MaxPacketSize in Hl. lia.
Qed.

Lemma dropLast_packable lvl hdr now fs max : Forall frame_wf fs -> sizes fs <= max -> max <= MaxPacketSize ->
  notEncrypted lvl = false -> Forall (packable lvl hdr now) (map FStream (dropLastDataLen fs)).
Proof.
  intros Hw. revert max. induction Hw as [|f fs Hf Hw IH]; intros max Hs Hm Hn; [constructor|].
  pose proof (sizes_nonneg fs). pose proof (MinLength_range f). unfold sizes in Hs. cbn [foldr] in Hs. fold (sizes fs) in Hs.
  unfold framed in Hs. assert (DataLen f <= MaxPacketSize) by lia. pose proof (frame_len_nonneg f).
  assert (Hf' : frame_wf (set_DataLenPresent f false)) by (destruct Hf as [[] ?]; by split).
  destruct fs as [|g fs].
  - constructor; [by apply frame_wf_sendable|constructor].
  - change (dropLastDataLen (f :: g :: fs)) with (f :: dropLastDataLen (g :: fs)). constructor; [by apply frame_wf_sendable|].
    apply (IH max); [lia|done|done].
Qed.

Lemma dropLast_extends fs : Forall dlp fs -> only_last_extends (map FStream (dropLastDataLen fs)).
Proof.
  induction 1 as [|f fs Hf Hd IH]; [done|]. destruct fs as [|g fs]; [done|].
  change (dropLastDataLen (f :: g :: fs)) with (f :: dropLastDataLen (g :: fs)). cbn [map only_last_extends].
  split; [|done]. cbn. by rewrite Hf.
Qed.

Lemma only_last_app l k : Forall (fun f => extends_to_end f = false) l -> only_last_extends k -> only_last_extends (l ++ k).
Proof. induction 1 as [|f l Hf _ IH]; intros Hk; [done|]. cbn. rewrite Hf. split; [done|by apply IH]. Qed.

Lemma control_not_extending f : control_ok f -> extends_to_end f = false.
Proof. intros [Hk _]. by destruct f. Qed.

Lemma first_not_extending p id : Forall (fun f => extends_to_end f = false) (first_frames p id).
Proof. unfold first_frames. destruct (_ !! id), (_ !! id); repeat constructor. Qed.

Lemma queueBlocked_retransmissions n fr c fr' c' :
  queueBlocked n fr c = (fr', c') -> sfr_retransmissionQueue fr' = sfr_retransmissionQueue fr.
Proof.
  revert fr c. induction n as [|n IH]; intros fr c; cbn [queueBlocked]; [by intros [= <- _]|].
  unfold PopBlockedFrame. destruct (sfr_blockedFrameQueue fr); [by intros [= <- _]|]. intros Hq. by apply IH in Hq.
Qed.

(** What the packer leaves alone while it composes a packet. *)
Definition same_packer (s s' : packState) : Prop :=
  ps_path s' = ps_path s /\ pk_connectionID (ps_packer s') = pk_connectionID (ps_packer s) /\
  pk_perspective (ps_packer s') = pk_perspective (ps_packer s) /\ pk_version (ps_packer s') = pk_version (ps_packer s) /\
  pk_stopWaiting (ps_packer s') = pk_stopWaiting (ps_packer s) /\ pk_ackFrame (ps_packer s') = pk_ackFrame (ps_packer s).

Section packer.
Context {P : Type} `{ConnectionParametersManager P}.
Variables (env : fcEnv P) (crypto : CryptoSetup) (now : Z) (rand : option (Z * Z)).

(** The streams and the queues the frames are taken from. *)
Definition sending_ok (s : packState) : Prop :=
  (exists l, framer_ok (ps_framer s) (ps_streams s) l) /\ Forall frame_wf (sfr_retransmissionQueue (ps_framer s)) /\
  streams_wf (sm_streams (ps_streams s)).

Lemma composeNextPacket_spec s max can lvl hdr :
  packer_ok (ps_packer s) (pth_pathID (ps_path s)) lvl hdr now -> sending_ok s ->
  max + 2 <= MaxPacketSize -> frames_len (first_frames (ps_packer s) (pth_pathID (ps_path s))) <= max ->
  (can = true -> notEncrypted lvl = false) ->
  exists s' more, let fs := first_frames (ps_packer s) (pth_pathID (ps_path s)) ++ more in
    composeNextPacket env s max can = (s', Ok fs) /\ Forall (packable lvl hdr now) fs /\ only_last_extends fs /\
    frames_len fs <= max /\ same_packer s s' /\ sending_ok s'.
Proof.
  intros Hp Hs Hmax Hfirst Hcan. unfold composeNextPacket.
  destruct (firstFrames_spec _ _ _ _ _ Hp) as (-> & Hpk1 & Hl1).
  set (first := first_frames (ps_packer s) (pth_pathID (ps_path s))) in *. unfold MaxPacketSize in Hmax.
  destruct (takeControlFrames _ _ _) as [[[taken n'] rem] r] eqn:Et.
  apply takeControlFrames_spec in Et as (-> & Hsplit & -> & Hle & _); [|apply Forall_rev, Hp|lia|lia].
  assert (Hct : Forall control_ok taken).
  { pose proof (Forall_rev (po_control _ _ _ _ _ Hp)) as Hr. rewrite Hsplit in Hr. by apply Forall_app in Hr as [? _]. }
  assert (Hpk2 : Forall (packable lvl hdr now) taken) by (eapply List.Forall_impl; [|exact Hct]; intros f (_ & Hf & _); apply Hf).
  assert (Hext : Forall (fun f => extends_to_end f = false) (first ++ taken)).
  { apply Forall_app. split; [apply first_not_extending|]. eapply List.Forall_impl; [|exact Hct]. intros f. apply control_not_extending. }
  assert (Hpk : Forall (packable lvl hdr now) (first ++ taken)) by (by apply Forall_app).
  assert (Hn' : 0 <= frames_len taken).
  { clear -Hpk2. induction Hpk2 as [|f l Hf _ IH]; [done|]. rewrite frames_len_cons. apply packable_nonneg in Hf. lia. }
  specialize (Hle Hfirst). rewrite Z.gtb_ltb, (proj2 (Z.ltb_ge _ _)) by lia.
  destruct can; cbn [negb].
  - unfold addStreamFrames. cbn [set_packer ps_framer ps_streams ps_fcm ps_packer]. rewrite add64_small, sub64_small by mlia.
    destruct Hs as ([l Hk] & Hq & Hst).
    destruct (PopStreamFrames_wf env (ps_framer s) (ps_streams s) (ps_fcm s)
      (max + 2 - (frames_len first + frames_len taken)) l Hk) as (fr' & m' & f' & fs & -> & Hsz & Hd & Hwf & Hk' & Hq' & Hst');
      [lia|done|done|].
    destruct (queueBlocked _ fr' _) as [fr2 control] eqn:Eb.
    assert (Hfr2 : sfr_retransmissionQueue fr2 = sfr_retransmissionQueue fr') by (by eapply queueBlocked_retransmissions).
    eexists _, (taken ++ map FStream (dropLastDataLen fs)). cbv zeta. rewrite app_assoc. split; [reflexivity|].
    split; [apply Forall_app; split; [done|]; eapply dropLast_packable; [done|done|unfold MaxPacketSize; lia|by apply Hcan]|].
    split; [by apply only_last_app; [|apply dropLast_extends]|]. split.
    + rewrite !frames_len_app. destruct fs as [|g fs]; [cbn; lia|]. rewrite dropLast_len by done. lia.
    + split; [done|]. split; [|cbn; by rewrite Hfr2]. exists l. destruct Hk' as [K1 K2 K3 K4 K5]. split; try done.
      cbn. by rewrite Hfr2.
  - eexists _, taken. split; [reflexivity|]. split; [done|].
    split; [rewrite <- (app_nil_r (first ++ taken)); by apply only_last_app|]. split; [rewrite frames_len_app; lia|].
    split; [done|]. destruct Hs as ([l Hk] & Hq & Hst). split; [by exists l|done].
Qed.

(** ** Sealing *)

(** A sealer adds a fixed number of bytes. *)
Record Sealer_ok (sealer : Sealer) : Prop := {
  so_overhead : 0 <= Overhead sealer <= 100;
  so_length : forall plain pn ad, zlen (Seal sealer plain pn ad) = zlen plain + Overhead sealer;
}.

(** The identity of the connection and of the path. *)
Record identity_ok (p : packetPacker) (pth : packPath) : Prop := {
  io_connectionID : 0 < pk_connectionID p < 2 ^ 64;
  io_version : 0 <= pk_version p < 1000;
  io_pathID : is_u8 (pth_pathID pth);
  io_next : is_u64 (png_next (pth_packetNumberGenerator pth));
  io_truncate : TruncateConnectionID (env_params env) = true -> pk_perspective p = PerspectiveServer;
  io_nonce : DiversificationNonce crypto = [] \/ length (DiversificationNonce crypto) = 32%nat;
}.

Lemma getPublicHeader_sendable p lvl pth : identity_ok p pth ->
  PublicHeader_sendable (getPublicHeader env crypto p lvl pth) (pk_version p) (pk_perspective p).
Proof.
  intros [H1 H2 H3 H4 H5 H6]. split; cbn.
  - done.
  - apply public_header_len_valid.
  - done.
  - case_match; [done|mlia].
  - split; [mlia|lia].
  - case_match; [done|]. apply H5.
  - destruct (bool_decide (pk_perspective p = PerspectiveClient)) eqn:E; [|done]. apply bool_decide_eq_true in E.
    cbn [andb]. intros ->. done.
  - destruct (bool_decide (pk_perspective p = PerspectiveServer)) eqn:E; [|by left]. apply bool_decide_eq_true in E.
    cbn [andb]. case_match; [|by left]. destruct H6 as [?|?]; [by left|by right].
Qed.

Lemma header_len h version pers : PublicHeader_sendable h version pers -> 2 <= zlen (headerBytes h version pers) <= 60.
Proof.
  intros [_ Hn _ _ _ _ _ Hnonce]. unfold headerBytes. rewrite zlen_cons, !zlen_app, (zlen_enc (GetByteOrder version)).
  assert (Hd : 0 <= zlen (ph_DiversificationNonce h) <= 32) by (unfold zlen; destruct Hnonce as [->|[_ ->]]; cbn; lia).
  assert (Hi : 0 <= zlen (idBytes h) <= 8) by (unfold idBytes; case_match; [done|by rewrite (zlen_enc LittleEndian)]).
  assert (Hv : 0 <= zlen (versionBytes h) <= 4) by (unfold versionBytes; case_match; [by rewrite (zlen_enc LittleEndian)|done]).
  assert (Hp : 0 <= zlen (pathIDBytes h) <= 1) by (unfold pathIDBytes; by case_match).
  unfold valid_pn_len in Hn. rewrite Z2Nat.id by lia. lia.
Qed.

(** The number popped is the number peeked. *)
Lemma png_Pop_peeks g : (png_Pop rand g).2 = png_Peek g.
Proof. done. Qed.

(** What the peer makes of a packet: it finds the header, and the payload opens to
    the frames. *)
Definition peer_gets (Open : AeadOpen) (pers : Perspective) (version : Z) (hdr : PublicHeader) (lvl : EncryptionLevel)
    (pkt : packedPacket) : Prop :=
  exists header rest, pkt_raw pkt = header ++ rest /\
    ParsePublicHeader pers version (pkt_raw pkt) = Ok (header_on_wire hdr, rest) /\
    Unpack Open version header hdr rest = Ok (lvl, map (frame_on_wire now) (pkt_frames pkt)).

(** A packet with these frames under this header. *)
Record good_packet (Open : AeadOpen) (pers : Perspective) (version : Z) (hdr : PublicHeader) (lvl : EncryptionLevel)
    (fs : list Frame) (pkt : packedPacket) : Prop := {
  gp_size : zlen (pkt_raw pkt) <= MaxPacketSize;
  gp_number : pkt_number pkt = ph_PacketNumber hdr;
  gp_frames : pkt_frames pkt = fs;
  gp_level : pkt_encryptionLevel pkt = lvl;
  gp_peer : version <> VersionUnknown -> peer_gets Open pers version hdr lvl pkt;
}.

Definition opens (Open : AeadOpen) (sealer : Sealer) (pn : Z) (lvl : EncryptionLevel) : Prop :=
  forall plain ad, Open (Seal sealer plain pn ad) pn ad = Ok (plain, lvl).

Lemma sealedPacket_spec Open s hdr fs sealer lvl :
  PublicHeader_sendable hdr (pk_version (ps_packer s)) (pk_perspective (ps_packer s)) ->
  Forall (packable lvl hdr now) fs -> only_last_extends fs -> fs <> [] -> Sealer_ok sealer ->
  zlen (headerBytes hdr (pk_version (ps_packer s)) (pk_perspective (ps_packer s))) + frames_len fs + Overhead sealer
    <= MaxPacketSize ->
  ph_PacketNumber hdr = png_Peek (pth_packetNumberGenerator (ps_path s)) ->
  opens Open sealer (ph_PacketNumber hdr) lvl ->
  exists pkt, sealedPacket now rand s hdr fs sealer lvl =
    (set_path s (set_generator (ps_path s) (png_Pop rand (pth_packetNumberGenerator (ps_path s))).1), Ok (Some pkt)) /\
    good_packet Open (pk_perspective (ps_packer s)) (pk_version (ps_packer s)) hdr lvl fs pkt /\
    zlen (pkt_raw pkt) =
      zlen (headerBytes hdr (pk_version (ps_packer s)) (pk_perspective (ps_packer s))) + frames_len fs + Overhead sealer.
Proof.
  intros Hh Hfs Hext Hne [Hov Hlen] Hsize Hpn Hopen. set (header := headerBytes _ _ _) in *.
  destruct (writeFrames_len lvl hdr (pk_version (ps_packer s)) now fs Hfs) as (payload & Hw & Hpl).
  unfold sealedPacket, writeAndSealPacket. rewrite (PublicHeader_Write_bytes _ _ _ Hh), Hw. fold header.
  rewrite Hpl, Z.gtb_ltb, (proj2 (Z.ltb_ge _ _)) by lia.
  destruct (png_Pop rand (pth_packetNumberGenerator (ps_path s))) as [g num] eqn:Eg.
  assert (Enum : num = ph_PacketNumber hdr) by (rewrite Hpn, <- png_Pop_peeks, Eg; done).
  rewrite Enum, Z.eqb_refl. cbn [negb bind fst]. eexists. split; [reflexivity|].
  split; [|cbn [pkt_raw]; rewrite zlen_app, Hlen, Hpl; lia].
  split; cbn [pkt_raw pkt_number pkt_frames pkt_encryptionLevel]; try done.
  - rewrite zlen_app, Hlen, Hpl. lia.
  - intros Hver. exists header. eexists. split; [reflexivity|]. cbn [pkt_raw pkt_frames]. split.
    + by apply (ParsePublicHeader_bytes hdr (pk_version (ps_packer s))).
    + assert (Hs : Forall (Frame_sendable lvl hdr now) fs) by (eapply List.Forall_impl; [|exact Hfs]; by intros f [? _]).
      destruct (writeFrames_parse lvl hdr (pk_version (ps_packer s)) now fs Hs Hext) as (bs & Hw' & Hl & Hp).
      rewrite Hw in Hw'. injection Hw' as <-. unfold Unpack. rewrite Hopen.
      destruct payload as [|b payload]; [destruct fs; [done|cbn in Hl; lia]|]. by rewrite Hp by lia.
Qed.

(** ** Packing *)

(** A state that is ready for a packet under [lvl] and [hdr]: what is queued for the
    path is in order, and STOP_WAITING and ACK fit in a packet. *)
Record pack_ready (s : packState) (lvl : EncryptionLevel) (sealer : Sealer) (hdr : PublicHeader) : Prop := {
  pr_identity : identity_ok (ps_packer s) (ps_path s);
  pr_sealer : Sealer_ok sealer;
  pr_packer : packer_ok (set_stopWaiting (ps_packer s)
    (alter (stampStopWaiting hdr) (pth_pathID (ps_path s)) (pk_stopWaiting (ps_packer s)))) (pth_pathID (ps_path s)) lvl hdr now;
  pr_sending : sending_ok s;
  pr_first : match pk_ackFrame (ps_packer s) !! pth_pathID (ps_path s) with
    | Some ack => AckFrame_MinLength ack | None => 0 end + 7 + 60 + Overhead sealer <= MaxPacketSize;
}.

Lemma first_frames_small p id lvl hdr now' : packer_ok p id lvl hdr now' ->
  frames_len (first_frames p id) <= 7 + match pk_ackFrame p !! id with Some ack => AckFrame_MinLength ack | None => 0 end.
Proof.
  intros Hp. unfold first_frames. rewrite frames_len_app.
  assert (Hs : frames_len match pk_stopWaiting p !! id with Some sw => [FStopWaiting sw] | None => [] end <= 7).
  { destruct (pk_stopWaiting p !! id) as [sw|] eqn:E; [|done]. destruct (po_sw _ _ _ _ _ Hp sw E) as (_ & _ & Hv & _).
    unfold frames_len, frame_len. cbn [foldr Frame_MinLength frame_size]. unfold StopWaitingFrame_MinLength.
    unfold valid_pn_len in Hv. rewrite (proj2 (Z.eqb_neq _ _)) by (unfold PacketNumberLenInvalid; lia).
    rewrite add64_small by mlia. cbn [frame_size]. lia. }
  destruct (pk_ackFrame p !! id); unfold frames_len, frame_len in *; cbn [foldr Frame_MinLength frame_size] in *; lia.
Qed.

(** The frames [PackPacket] may put behind STOP_WAITING and ACK. *)
Lemma finishPacket_spec Open s hdr fs sealer lvl :
  PublicHeader_sendable hdr (pk_version (ps_packer s)) (pk_perspective (ps_packer s)) ->
  Forall (packable lvl hdr now) fs -> only_last_extends fs -> Sealer_ok sealer ->
  zlen (headerBytes hdr (pk_version (ps_packer s)) (pk_perspective (ps_packer s))) + frames_len fs + Overhead sealer
    <= MaxPacketSize ->
  ph_PacketNumber hdr = png_Peek (pth_packetNumberGenerator (ps_path s)) ->
  opens Open sealer (ph_PacketNumber hdr) lvl ->
  exists s' r, finishPacket now rand s hdr fs sealer lvl = (s', Ok r) /\
    match r with
    | None => fs = [] \/ (exists f, fs = [f]) /\ is_Some (pk_stopWaiting (ps_packer s) !! pth_pathID (ps_path s))
    | Some pkt => good_packet Open (pk_perspective (ps_packer s)) (pk_version (ps_packer s)) hdr lvl fs pkt
    end.
Proof.
  intros Hh Hfs Hext Hso Hsize Hpn Hopen. unfold finishPacket.
  set (p1 := set_ackFrame _ _).
  assert (Hseal : fs <> [] -> exists s' r, sealedPacket now rand (set_packer s p1) hdr fs sealer lvl = (s', Ok r) /\
    match r with
    | None => fs = [] \/ (exists f, fs = [f]) /\ is_Some (pk_stopWaiting (ps_packer s) !! pth_pathID (ps_path s))
    | Some pkt => good_packet Open (pk_perspective (ps_packer s)) (pk_version (ps_packer s)) hdr lvl fs pkt
    end).
  { intros Hne. destruct (sealedPacket_spec Open (set_packer s p1) hdr fs sealer lvl) as (pkt & E & Hg & _); try done.
    eexists _, (Some pkt). by split. }
  destruct fs as [|f [|g fs]]; [eexists s, None; split; [done|by left]| |by apply Hseal].
  destruct (pk_stopWaiting (ps_packer s) !! pth_pathID (ps_path s)); [|by apply Hseal].
  exists s, None. split; [done|]. right. split; by eexists.
Qed.

Lemma cryptoStream_open m f cs : sm_streams m !! 1 = Some cs -> cryptoStream env m f = Ok (m, f, cs).
Proof. intros E. unfold cryptoStream, GetOrOpenStream. rewrite E. by rewrite E. Qed.


Lemma getDataForWriting_max s n s' d : 0 <= n -> getDataForWriting s n = (s', Some d) -> zlen d <= n.
Proof.
  intros Hn. unfold getDataForWriting. destruct (str_err s); [done|]. destruct (str_dataForWriting s) as [p|]; [|done].
  rewrite Z.gtb_ltb. destruct (n <? zlen p) eqn:E; bool_to_prop; intros [= <- <-]; [rewrite zlen_take by lia|]; lia.
Qed.

(** Handshake data goes first and alone.  When the crypto stream has data to send,
    PackPacket returns a packet with one frame: the next bytes of stream 1, at least
    one, at its write offset, in a packet that leaves the room it reserves for packets
    that are not forward-secure, and that the peer can read. *)
Theorem crypto_packet_sends Open s cs lvl sealer :
  let hdr := getPublicHeader env crypto (ps_packer s) lvl (ps_path s) in
  sm_streams (ps_streams s) !! 1 = Some cs -> 0 < lenOfDataForWriting cs -> GetSealerForCryptoStream crypto = (lvl, sealer) ->
  identity_ok (ps_packer s) (ps_path s) -> Sealer_ok sealer -> streams_wf (sm_streams (ps_streams s)) ->
  opens Open sealer (ph_PacketNumber hdr) lvl ->
  exists s' pkt frame cs', PackPacket env crypto now rand s = (s', Ok (Some pkt)) /\
    good_packet Open (pk_perspective (ps_packer s)) (pk_version (ps_packer s)) hdr lvl [FStream frame] pkt /\
    zlen (pkt_raw pkt) <= MaxPacketSize - NonForwardSecurePacketSizeReduction /\
    sf_StreamID frame = 1 /\ sf_Offset frame = str_writeOffset cs /\ sf_Data frame <> [] /\
    sm_streams (ps_streams s') !! 1 = Some cs' /\ pending cs = sf_Data frame ++ pending cs'.
Proof.
  cbv zeta. intros E1 El Es Hid Hso Hst Hopen. set (hdr := getPublicHeader _ _ _ _ _) in *.
  pose proof (getPublicHeader_sendable (ps_packer s) lvl (ps_path s) Hid) as Hh. fold hdr in Hh.
  pose proof (header_len _ _ _ Hh) as Hhl. set (hl := zlen (headerBytes hdr _ _)) in *. pose proof (so_overhead _ Hso) as Hov.
  unfold PackPacket, HasCryptoStreamFrame. rewrite (cryptoStream_open _ _ cs E1). cbn [bind].
  assert (Egt : (lenOfDataForWriting cs >? 0) = true) by lia. rewrite Egt.
  unfold packCryptoPacket. cbn [ps_packer ps_streams ps_path ps_fcm set_sending]. rewrite Es. fold hdr.
  rewrite (PublicHeader_GetLength_bytes _ _ _ Hh). fold hl.
  rewrite (sub64_small MaxPacketSize) by (unfold MaxPacketSize; mlia).
  rewrite (sub64_small (MaxPacketSize - _)), sub64_small by (unfold MaxPacketSize, NonForwardSecurePacketSizeReduction; mlia).
  unfold PopCryptoStreamFrame, HasCryptoStreamFrame. rewrite (cryptoStream_open _ _ cs E1). cbn [bind]. rewrite Egt.
  cbn [negb bind]. rewrite (cryptoStream_open _ _ cs E1). cbn [bind]. set (frame0 := Build_StreamFrame 1 _ _ _ _).
  pose proof (MinLength_range frame0) as Hml.
  rewrite sub64_small by (unfold MaxPacketSize, NonForwardSecurePacketSizeReduction; mlia).
  set (avail := MaxPacketSize - Overhead sealer - NonForwardSecurePacketSizeReduction - hl - StreamFrame_MinLength frame0).
  assert (Hav : 0 < avail /\ avail = MaxPacketSize - Overhead sealer - NonForwardSecurePacketSizeReduction - hl -
    StreamFrame_MinLength frame0) by (unfold avail, MaxPacketSize, NonForwardSecurePacketSizeReduction in *; lia).
  destruct (getDataForWriting cs avail) as [cs' [d|]] eqn:Eg.
  2: { exfalso. revert Eg El. unfold getDataForWriting, lenOfDataForWriting. by repeat case_match. }
  assert (Hd : d <> []) by (eapply getDataForWriting_some; [| | |exact Eg]; lia).
  assert (Hdl : zlen d <= avail) by (eapply getDataForWriting_max; [|exact Eg]; lia).
  assert (Hp : pending cs = d ++ pending cs')
    by (destruct (take_spec cs avail cs' (Some d) ltac:(lia) Eg) as [[Hp _]|[? _]]; [exact Hp|done]).
  destruct (Hst 1 cs E1) as (_ & W2 & W3 & W4). rewrite Hp, zlen_app in W3. rewrite Hp in W4. apply Forall_app in W4 as [W4 _].
  pose proof (zlen_nonneg d). pose proof (zlen_nonneg (pending cs')).
  set (fr := fillFrame frame0 d false). assert (Hfr : frame_len (FStream fr) = StreamFrame_MinLength frame0 + zlen d) by done.
  assert (Hpk : packable lvl hdr now (FStream fr)).
  { split; [|done]. split; [|by left]. unfold MaxPacketSize, NonForwardSecurePacketSizeReduction in *.
    split; [split; [by cbn|exact W2|change (str_writeOffset cs + zlen d < 2 ^ 64); lia|exact W4]|]. split; [by right|].
    change (zlen d <= 2 ^ 16 - 1). lia. }
  set (s1 := set_sending _ _ (set_stream _ _ _) _).
  destruct (sealedPacket_spec Open s1 hdr [FStream fr] sealer lvl) as (pkt & E & Hg & Hlen); try done.
  - constructor; [done|constructor].
  - change (hl + frames_len [FStream fr] + Overhead sealer <= MaxPacketSize). cbn [frames_len foldr]. rewrite Hfr.
    unfold MaxPacketSize, NonForwardSecurePacketSizeReduction in *. lia.
  - eexists _, pkt, fr, cs'. split; [exact E|]. split; [exact Hg|]. split.
    { rewrite Hlen. change (hl + frames_len [FStream fr] + Overhead sealer <= MaxPacketSize - NonForwardSecurePacketSizeReduction).
      cbn [frames_len foldr]. rewrite Hfr. lia. }
    split; [done|]. split; [done|]. split; [done|]. split; [|done]. cbn. apply lookup_insert_eq.
Qed.

(** A ping is lost when a STOP_WAITING frame is queued.  On a path for which a
    STOP_WAITING frame waits, PackPing returns no packet and no error, and the PING
    frame is gone: the test that keeps a lone STOP_WAITING frame from being sent takes
    the single PING frame for it. *)
Theorem PackPing_dropped s pf leastUnacked cs sw :
  sm_streams (ps_streams s) !! 1 = Some cs -> lenOfDataForWriting cs = 0 ->
  identity_ok (ps_packer s) (ps_path s) ->
  pk_stopWaiting (ps_packer s) !! pth_pathID (ps_path s) = Some sw ->
  exists s', PackPing env crypto now rand s pf leastUnacked = (s', Ok None) /\
    pk_controlFrames (ps_packer s') = pk_controlFrames (ps_packer s).
Proof.
  intros E1 El Hid Esw. unfold PackPing, PackPacket, HasCryptoStreamFrame. cbn [ps_streams ps_fcm set_packer set_path].
  rewrite (cryptoStream_open _ _ cs E1). cbn [bind]. rewrite El. cbn [Z.gtb Z.compare].
  destruct (GetSealer crypto) as [lvl sealer]. cbn [ps_packer ps_path set_sending set_packer set_path].
  set (p1 := set_controlFrames (ps_packer s) _). set (pth := SetLeastUnacked _ _).
  assert (Hid1 : identity_ok p1 pth) by (by destruct Hid).
  pose proof (getPublicHeader_sendable p1 lvl pth Hid1) as Hh. rewrite (PublicHeader_GetLength_bytes _ _ _ Hh).
  unfold finishPacket. cbn [isPing p1 set_controlFrames set_stopWaiting pk_controlFrames take pk_stopWaiting ps_packer ps_path
    set_packer pth SetLeastUnacked pth_pathID set_path set_sending].
  rewrite lookup_alter_eq, Esw. eexists. split; [reflexivity|done].
Qed.
End packer.

(** ** Witnesses *)

(** A sealer that adds twelve bytes, and how its packets open. *)
Definition pad_sealer : Sealer := mkSealer 12 (fun plain _ _ => plain ++ repeat 0 12).
Definition pad_open : AeadOpen := fun data _ _ => Ok (take (length data - 12) data, EncryptionForwardSecure).
Definition sample_crypto : CryptoSetup :=
  mkCrypto (EncryptionForwardSecure, pad_sealer) (fun _ => Ok pad_sealer) (EncryptionForwardSecure, pad_sealer) [].

Definition sample_path : packPath := mkPath 0 1 (newPacketNumberGenerator 500) false.
Definition sample_packer : packetPacker :=
  QueueControlFrame (QueueControlFrame (QueueControlFrame (newPacketPacker 77 PerspectiveServer 39)
    (FWindowUpdate (Build_WindowUpdateFrame 5 65536)) sample_path)
    (FStopWaiting {| sw_LeastUnacked := 1; sw_PacketNumberLen := 0; sw_PacketNumber := 0 |}) sample_path)
    (FAck {| ack_PathID := 0; ack_LargestAcked := 9; ack_LowestAcked := 3; ack_AckRanges := [];
             ack_PacketReceivedTime := 0; ack_DelayTime := 0 |}) sample_path.
Definition sample_pack : packState := mkPS sample_packer sample_framer sample_streams sample_opened.2 sample_path.

Lemma pad_sealer_ok : Sealer_ok pad_sealer.
Proof. split; [cbn; lia|]. intros plain pn ad. cbn. by rewrite zlen_app. Qed.

Lemma pad_opens pn : opens pad_open pad_sealer pn EncryptionForwardSecure.
Proof.
  intros plain ad. unfold pad_open. cbn [Seal pad_sealer]. do 2 f_equal. rewrite length_app.
  change (length (repeat 0 12)) with 12%nat. rewrite Nat.add_sub. apply take_app_length.
Qed.

Lemma sample_identity : identity_ok example_env sample_crypto sample_packer sample_path.
Proof. split; vm_compute; try done. by left. Qed.

Lemma sample_streams_wf : streams_wf (sm_streams sample_streams).
Proof.
  intros id s Es. destruct (sample_streams_all id s Es) as [[-> ->]|[[-> ->]|[-> ->]]];
    (split; [split; [discriminate|reflexivity]|]; split; [vm_compute; discriminate|]; split; [vm_compute; reflexivity|]).
  - constructor.
  - constructor.
  - apply List.Forall_forall. intros x Hx. apply repeat_spec in Hx as ->. split; [discriminate|reflexivity].
Qed.

Lemma sample_sending : sending_ok sample_pack.
Proof.
  split; [exists [1; 3; 5]; exact sample_framer_ok|]. split; [|exact sample_streams_wf].
  constructor; [|constructor]. split; [|right; discriminate]. split.
  - vm_compute. split; [discriminate|reflexivity].
  - vm_compute. discriminate.
  - vm_compute. reflexivity.
  - apply List.Forall_forall. intros x Hx. apply repeat_spec in Hx as ->. split; [discriminate|reflexivity].
Qed.

Lemma sample_ready : pack_ready example_env sample_crypto 5000 sample_pack EncryptionForwardSecure pad_sealer
  (getPublicHeader example_env sample_crypto sample_packer EncryptionForwardSecure sample_path).
Proof.
  split; [exact sample_identity|exact pad_sealer_ok| |exact sample_sending|vm_compute; discriminate]. split.
  - constructor; [|constructor]. split; [done|]. split; [|vm_compute; reflexivity]. intros lvl hdr now.
    split; [|done]. vm_compute. repeat split; discriminate.
  - intros sw Esw. vm_compute in Esw. injection Esw as <-. vm_compute. repeat split; try discriminate; auto.
  - intros ack Ea. vm_compute in Ea. injection Ea as <-. split; [|vm_compute; reflexivity].
    repeat split; cbn; (done || lia).
Qed.


(** The same with five bytes of handshake data waiting. *)
Definition sample_handshake : packState :=
  mkPS sample_packer sample_framer (set_stream sample_streams 1 (Write (newStr 1) [1; 2; 3; 4; 5] 0).1.1) sample_opened.2
    sample_path.

Lemma crypto_packet_sends_witness :
  exists s' pkt frame, PackPacket example_env sample_crypto 5000 None sample_handshake = (s', Ok (Some pkt)) /\
    pkt_frames pkt = [FStream frame] /\ sf_StreamID frame = 1.
Proof.
  destruct (crypto_packet_sends example_env sample_crypto 5000 None pad_open sample_handshake
    (Write (newStr 1) [1; 2; 3; 4; 5] 0).1.1 EncryptionForwardSecure pad_sealer)
    as (s' & pkt & frame & cs' & E & Hg & _ & Hid & _).
  - vm_compute. reflexivity.
  - vm_compute. reflexivity.
  - reflexivity.
  - exact sample_identity.
  - exact pad_sealer_ok.
  - intros id s Es. cbn [ps_streams sample_handshake set_stream sm_set_streams sm_streams] in Es.
    destruct (decide (id = 1)) as [->|Hne].
    + rewrite lookup_insert_eq in Es. injection Es as <-.
      split; [split; [discriminate|reflexivity]|]. split; [vm_compute; discriminate|]. split; [vm_compute; reflexivity|].
      repeat (constructor; [split; [discriminate|reflexivity]|]). constructor.
    + rewrite lookup_insert_ne in Es by congruence. exact (sample_streams_wf id s Es).
  - apply pad_opens.
  - exists s', pkt, frame. split; [exact E|]. split; [exact (gp_frames _ _ _ _ _ _ _ _ Hg)|exact Hid].
Defined.

Lemma PackPing_dropped_witness :
  exists s', PackPing example_env sample_crypto 5000 None sample_pack mkPingFrame 1 = (s', Ok None) /\
    pk_controlFrames (ps_packer s') = pk_controlFrames sample_packer.
Proof.
  apply (PackPing_dropped example_env sample_crypto 5000 None sample_pack mkPingFrame 1 (newStr 1)
    {| sw_LeastUnacked := 1; sw_PacketNumberLen := 0; sw_PacketNumber := 0 |}).
  - vm_compute. reflexivity.
  - vm_compute. reflexivity.
  - exact sample_identity.
  - vm_compute. reflexivity.
Defined.
