(* ===== verification/Path.v ===== *)
(** * Paths (path.go)

    What a session keeps per path: the packets sent and received on it, the packet
    number generator and whether it works.  The statistics of the path are those of
    its sent packet handler, with which it shares them by reference.  What a path
    reads of its session is an argument; the goroutine of the path is not modelled,
    the deadline it waits for is. *)
From S2P Require Import Prelude Qerr ByteOrder Protocol WireStream WireControl AckRanges WireAck PublicHeader.
From S2P Require Import Frames ReceivedPackets Float32 RttStats SentPackets PacketNumberGenerator.

Definition minPathTimer : Z := 10 * Millisecond.
Definition maxPathTimer : Z := 1 * Second.
Definition SkipPacketAveragePeriodLength : Z := 500.

(** [utils.MinTime] and [utils.MaxTime]. *)
Definition MinTime (a b : Z) : Z := if a >? b then b else a.
Definition MaxTime (a b : Z) : Z := if a >? b then a else b.

(** [conn] of conn.go: the address of its socket and the one it sends to. *)
Record conn : Type := mkConn {
  conn_LocalAddr : UDPAddr;
  conn_RemoteAddr : UDPAddr;
}.

Definition SetCurrentRemoteAddr (c : conn) (addr : UDPAddr) : conn := mkConn (conn_LocalAddr c) addr.

Record path (C : Type) : Type := mkPth {
  p_pathID : Z;
  p_conn : conn;
  p_sentPacketHandler : sentPacketHandler C;
  p_receivedPacketHandler : receivedPacketHandler;
  p_open : bool;
  p_potentiallyFailed : bool;
  p_packetNumberGenerator : packetNumberGenerator;
  p_lastRcvdPacketNumber : Z;
  p_largestRcvdPacketNumber : Z;
  p_leastUnacked : Z;
  p_lastNetworkActivityTime : Z;
}.
Arguments mkPth {C}.
Arguments p_pathID {C}.
Arguments p_conn {C}.
Arguments p_sentPacketHandler {C}.
Arguments p_receivedPacketHandler {C}.
Arguments p_open {C}.
Arguments p_potentiallyFailed {C}.
Arguments p_packetNumberGenerator {C}.
Arguments p_lastRcvdPacketNumber {C}.
Arguments p_largestRcvdPacketNumber {C}.
Arguments p_leastUnacked {C}.
Arguments p_lastNetworkActivityTime {C}.

Section path.
Context {C : Type} `{SendAlgorithm C}.
Implicit Types p : path C.

Definition p_rttStats p : RTTStats := sp_rttStats (p_sentPacketHandler p).

(** *** Field updates *)

Definition set_sentPacketHandler p (h : sentPacketHandler C) : path C :=
  mkPth (p_pathID p) (p_conn p) h (p_receivedPacketHandler p) (p_open p) (p_potentiallyFailed p) (p_packetNumberGenerator p)
    (p_lastRcvdPacketNumber p) (p_largestRcvdPacketNumber p) (p_leastUnacked p) (p_lastNetworkActivityTime p).
Definition set_receivedPacketHandler p (h : receivedPacketHandler) : path C :=
  mkPth (p_pathID p) (p_conn p) (p_sentPacketHandler p) h (p_open p) (p_potentiallyFailed p) (p_packetNumberGenerator p)
    (p_lastRcvdPacketNumber p) (p_largestRcvdPacketNumber p) (p_leastUnacked p) (p_lastNetworkActivityTime p).
Definition set_failed p (b : bool) : path C :=
  mkPth (p_pathID p) (p_conn p) (p_sentPacketHandler p) (p_receivedPacketHandler p) (p_open p) b (p_packetNumberGenerator p)
    (p_lastRcvdPacketNumber p) (p_largestRcvdPacketNumber p) (p_leastUnacked p) (p_lastNetworkActivityTime p).
Definition set_activity p (t : Z) : path C :=
  mkPth (p_pathID p) (p_conn p) (p_sentPacketHandler p) (p_receivedPacketHandler p) (p_open p) (p_potentiallyFailed p)
    (p_packetNumberGenerator p) (p_lastRcvdPacketNumber p) (p_largestRcvdPacketNumber p) (p_leastUnacked p) t.
Definition set_received p (last largest : Z) : path C :=
  mkPth (p_pathID p) (p_conn p) (p_sentPacketHandler p) (p_receivedPacketHandler p) (p_open p) (p_potentiallyFailed p)
    (p_packetNumberGenerator p) last largest (p_leastUnacked p) (p_lastNetworkActivityTime p).

Definition set_generator_of p (g : packetNumberGenerator) (leastUnacked : Z) : path C :=
  mkPth (p_pathID p) (p_conn p) (p_sentPacketHandler p) (p_receivedPacketHandler p) (p_open p) (p_potentiallyFailed p)
    g (p_lastRcvdPacketNumber p) (p_largestRcvdPacketNumber p) leastUnacked (p_lastNetworkActivityTime p).
Definition set_conn p (c : conn) : path C :=
  mkPth (p_pathID p) c (p_sentPacketHandler p) (p_receivedPacketHandler p) (p_open p) (p_potentiallyFailed p)
    (p_packetNumberGenerator p) (p_lastRcvdPacketNumber p) (p_largestRcvdPacketNumber p) (p_leastUnacked p)
    (p_lastNetworkActivityTime p).

(** [setup], with the congestion controller it creates. *)
Definition path_setup (pathID : Z) (c : conn) (version : Z) (cong : C) (now : Z) : path C :=
  mkPth pathID c (NewSentPacketHandler NewRTTStats cong) (NewReceivedPacketHandler version) true false
    (newPacketNumberGenerator SkipPacketAveragePeriodLength) 0 0 0 now.

Definition path_close p : path C :=
  mkPth (p_pathID p) (p_conn p) (p_sentPacketHandler p) (p_receivedPacketHandler p) false (p_potentiallyFailed p)
    (p_packetNumberGenerator p) (p_lastRcvdPacketNumber p) (p_largestRcvdPacketNumber p) (p_leastUnacked p)
    (p_lastNetworkActivityTime p).

Definition path_SendingAllowed p : bool := p_open p && SendingAllowed (p_sentPacketHandler p).

Definition path_GetStopWaitingFrame p (force : bool) : path C * option StopWaitingFrame :=
  let '(h, swf) := sph_GetStopWaitingFrame (p_sentPacketHandler p) force in (set_sentPacketHandler p h, swf).

(** The frame is the one the handler keeps as its last, so that it has the path ID
    there as well. *)
Definition withPathID (id : Z) (f : AckFrame) : AckFrame :=
  {| ack_PathID := id; ack_LargestAcked := ack_LargestAcked f; ack_LowestAcked := ack_LowestAcked f;
     ack_AckRanges := ack_AckRanges f; ack_PacketReceivedTime := ack_PacketReceivedTime f;
     ack_DelayTime := ack_DelayTime f |}.

Definition set_lastAck (h : receivedPacketHandler) (ack : option AckFrame) : receivedPacketHandler :=
  {| rp_largestObserved := rp_largestObserved h; rp_lowerLimit := rp_lowerLimit h;
     rp_largestObservedReceivedTime := rp_largestObservedReceivedTime h; rp_packetHistory := rp_packetHistory h;
     rp_ackSendDelay := rp_ackSendDelay h; rp_packetsReceivedSinceLastAck := rp_packetsReceivedSinceLastAck h;
     rp_retransmittablePacketsReceivedSinceLastAck := rp_retransmittablePacketsReceivedSinceLastAck h;
     rp_ackQueued := rp_ackQueued h; rp_ackAlarm := rp_ackAlarm h; rp_lastAck := ack;
     rp_version := rp_version h; rp_packets := rp_packets h |}.

Definition path_GetAckFrame p (now : Z) : result (path C * option AckFrame) :=
  let* r := GetAckFrame (p_receivedPacketHandler p) now in
  let '(h, ack) := r in
  match ack with
  | None => Ok (set_receivedPacketHandler p h, None)
  | Some ack =>
      let ack := withPathID (p_pathID p) ack in
      Ok (set_receivedPacketHandler p (set_lastAck h (Some ack)), Some ack)
  end.

Definition path_GetClosePathFrame p : result ClosePathFrame :=
  let* f := GetClosePathFrame (p_receivedPacketHandler p) in
  Ok {| cp_PathID := p_pathID p; cp_LargestAcked := cp_LargestAcked f; cp_LowestAcked := cp_LowestAcked f;
        cp_AckRanges := cp_AckRanges f |}.

(** [cryptoSetup] tells whether the session has one. *)
Definition path_idleTimeout p (cryptoSetup handshakeComplete : bool) (idleLifetime handshakeTimeout : Z) : Z :=
  if cryptoSetup then
    if p_open p && (negb (p_pathID p =? 0) || handshakeComplete) then idleLifetime else handshakeTimeout
  else Second.

(** The deadline [maybeResetTimer] sets. *)
Definition timerDeadline p (idleTimeout now : Z) : Z :=
  let deadline := timeAdd (p_lastNetworkActivityTime p) idleTimeout in
  let ackAlarm := handler_GetAlarmTimeout (p_receivedPacketHandler p) in
  let deadline := if negb (IsZero ackAlarm) then ackAlarm else deadline in
  let lossTime := sp_alarm (p_sentPacketHandler p) in
  let deadline := if negb (IsZero lossTime) then MinTime deadline lossTime else deadline in
  MinTime (MaxTime deadline (timeAdd now minPathTimer)) (timeAdd now maxPathTimer).

(** What a packet does: nothing on a path that is closed; an error; or its frames are
    to be handled. *)
Inductive received : Type :=
| Ignored
| Rejected (e : error)
| Accepted (encryptionLevel : EncryptionLevel) (frames : list Frame).

Definition isDecryptionFailure (e : error) : bool :=
  match e with QuicError code _ => code =? qerr.DecryptionFailure | _ => false end.

Definition set_PacketNumber (hdr : PublicHeader) (pn : Z) : PublicHeader :=
  {| ph_ConnectionID := ph_ConnectionID hdr; ph_PathID := ph_PathID hdr; ph_VersionFlag := ph_VersionFlag hdr;
     ph_ResetFlag := ph_ResetFlag hdr; ph_TruncateConnectionID := ph_TruncateConnectionID hdr;
     ph_MultipathFlag := ph_MultipathFlag hdr; ph_PacketNumberLen := ph_PacketNumberLen hdr; ph_PacketNumber := pn;
     ph_VersionNumber := ph_VersionNumber hdr; ph_SupportedVersions := ph_SupportedVersions hdr;
     ph_DiversificationNonce := ph_DiversificationNonce hdr |}.

(** [handlePacketImpl] up to [handleFrames]; [raw] are the bytes of the header.  A
    server takes the address of the packet, unless it could not be decrypted. *)
Definition path_handlePacketImpl (Open : AeadOpen) (perspective : Perspective) (version : Z) p (hdr : PublicHeader)
    (raw data : list Z) (remoteAddr : UDPAddr) (rcvTime now : Z) : result (path C * received) :=
  if negb (p_open p) then Ok (p, Ignored)
  else
  let p := if negb (IsZero rcvTime) then set_activity p rcvTime else p in
  let p := set_failed p false in
  let pn := InferPacketNumber (ph_PacketNumberLen hdr) (p_largestRcvdPacketNumber p) (ph_PacketNumber hdr) in
  let hdr := set_PacketNumber hdr pn in
  let moved := match perspective with
    | PerspectiveServer => set_conn p (SetCurrentRemoteAddr (p_conn p) remoteAddr)
    | PerspectiveClient => p
    end in
  match Unpack Open version raw hdr data with
  | Panic => Panic
  | Err e => Ok (if isDecryptionFailure e then p else moved, Rejected e)
  | Ok (encryptionLevel, frames) =>
      let p := set_received moved pn (MaxPacketNumber (p_largestRcvdPacketNumber p) pn) in
      let '(h, err) := handler_ReceivedPacket (p_receivedPacketHandler p) pn (HasRetransmittableFrames frames) now in
      let p := set_receivedPacketHandler p h in
      match err with
      | Some e => Ok (p, Rejected e)
      | None => Ok (p, Accepted encryptionLevel frames)
      end
  end.

(** The callback of the sent packet handler; when it returns true a PATHS frame is
    scheduled. *)
Definition onRTO p (lastSentTime : Z) : path C * bool :=
  if p_lastNetworkActivityTime p <? lastSentTime then (set_failed p true, true) else (p, false).
End path.
