(* ===== verification/Scheduler.v ===== *)
(** * Path schedulers (scheduler.go)

    Which path the next packet is sent on: round robin, the lowest round trip time,
    BLEST, ECF and the random choice.  A pointer to a path is the key it has in
    [s.paths], nil is [None].  Go leaves the order of an iteration over a map
    unspecified: each loop over [s.paths] gets the entries in the order it meets them,
    and the theorems hold for every order.  The schedulers that learn are
    in Learning.v and Sac.v. *)
From S2P Require Import Prelude Qerr ByteOrder Protocol WireStream WireControl AckRanges WireAck PublicHeader.
From S2P Require Import Frames ReceivedPackets Float32 RttStats SentPackets ConnParams FlowControl Congestion.
From S2P Require Import StreamFrameSorter StreamsMap Stream PacketNumberGenerator Path.

(** The fields the selection uses; [setup] made the map. *)
Record scheduler : Type := mkSch {
  sch_quotas : gmap Z Z;
  sch_waiting : Z;
}.

(** [sch.quotas[id]], 0 when there is none. *)
Definition quota (q : gmap Z Z) (id : Z) : Z := default 0 (q !! id).

(** [if !ok { sch.quotas[id] = 0 }]. *)
Definition addQuota (q : gmap Z Z) (id : Z) : gmap Z Z :=
  match q !! id with Some _ => q | None => <[id := 0]> q end.

Section scheduler.
Context {C : Type} `{SendAlgorithm C}.
Implicit Types p : path C.
Implicit Types ps : gmap Z (path C).
Implicit Types range : list (Z * path C).

Definition pathRTT p : Z := rtt_smoothedRTT (p_rttStats p).

(** The case of at most one path. *)
Definition onlyInitialPath ps (hasRetransmission : bool) : result (option Z) :=
  match ps !! InitialPathID with
  | None => if hasRetransmission then Ok None else Panic
  | Some p => Ok (if negb hasRetransmission && negb (path_SendingAllowed p) then None else Some InitialPathID)
  end.

(** The guards with which each loop starts. *)
Definition usable (hasRetransmission : bool) (e : Z * path C) : bool :=
  let '(pathID, pth) := e in
  if negb hasRetransmission && negb (path_SendingAllowed pth) then false
  else if p_potentiallyFailed pth then false
  else negb (pathID =? InitialPathID).

(** *** Round robin *)

Fixpoint roundRobinLoop (hasRetransmission : bool) (q : gmap Z Z) (selectedPath : option Z) (lowerQuota : Z) range :
    gmap Z Z * option Z :=
  match range with
  | [] => (q, selectedPath)
  | (pathID, pth) :: range =>
      if negb (usable hasRetransmission (pathID, pth)) then
        roundRobinLoop hasRetransmission q selectedPath lowerQuota range
      else
      let currentQuota := quota q pathID in
      let q := addQuota q pathID in
      if currentQuota <? lowerQuota then roundRobinLoop hasRetransmission q (Some pathID) currentQuota range
      else roundRobinLoop hasRetransmission q selectedPath lowerQuota range
  end.

Definition selectPathRoundRobin (sch : scheduler) ps (hasRetransmission : bool) range : result (scheduler * option Z) :=
  if Z.of_nat (size ps) <=? 1 then
    let* pth := onlyInitialPath ps hasRetransmission in Ok (sch, pth)
  else
  let '(q, pth) := roundRobinLoop hasRetransmission (sch_quotas sch) None (2 ^ 64 - 1) range in
  Ok (mkSch q (sch_waiting sch), pth).

(** *** Lowest round trip time *)

(** The loop for a retransmission from a path that was not probed yet: the first
    path on which less was sent. *)
Fixpoint lowQuotaLoop (q : gmap Z Z) (fromID : Z) range : option Z :=
  match range with
  | [] => None
  | (pathID, _) :: range =>
      if (pathID =? InitialPathID) || (pathID =? fromID) then lowQuotaLoop q fromID range
      else if quota q pathID <? quota q fromID then Some pathID
      else lowQuotaLoop q fromID range
  end.

(** The path for a retransmission, when it is the loop above that selects it. *)
Definition lowQuotaPath (q : gmap Z Z) (hasRetransmission hasStreamRetransmission : bool) (fromPth : option (path C))
    range : result (option Z) :=
  if hasRetransmission && hasStreamRetransmission then
    match fromPth with
    | None => Panic
    | Some from => Ok (if pathRTT from =? 0 then lowQuotaLoop q (p_pathID from) range else None)
    end
  else Ok None.

(** The variables of the loop; [sel_second] and [sel_secondRTT] are those of BLEST
    and ECF. *)
Record selection : Type := mkSel {
  sel_quotas : gmap Z Z;
  sel_path : option Z;
  sel_lowerRTT : Z;
  sel_pathID : Z;
  sel_second : option Z;
  sel_secondRTT : Z;
}.

Definition noSelection (q : gmap Z Z) : selection := mkSel q None 0 255 None 0.

Definition isSome (o : option Z) : bool := match o with Some _ => true | None => false end.

(** The part of the loop on paths that were not probed: the quotas, and whether the
    path is skipped. *)
Definition unprobed (s : selection) (pathID currentRTT : Z) : gmap Z Z * bool :=
  if currentRTT =? 0 then
    let currentQuota := quota (sel_quotas s) pathID in
    let q := addQuota (sel_quotas s) pathID in
    (q, isSome (sel_path s) && (currentQuota >? quota q (sel_pathID s)))
  else (sel_quotas s, false).

Definition sel_set_quotas (s : selection) (q : gmap Z Z) : selection :=
  mkSel q (sel_path s) (sel_lowerRTT s) (sel_pathID s) (sel_second s) (sel_secondRTT s).

Definition sel_update (s : selection) (pathID currentRTT : Z) : selection :=
  mkSel (sel_quotas s) (Some pathID) currentRTT pathID (sel_second s) (sel_secondRTT s).

Definition lowLatencyStep (hasRetransmission : bool) (s : selection) (e : Z * path C) : selection :=
  let '(pathID, pth) := e in
  if negb (usable hasRetransmission (pathID, pth)) then s
  else
  let currentRTT := pathRTT pth in
  if negb (sel_lowerRTT s =? 0) && (currentRTT =? 0) then s
  else
  let '(q, skip) := unprobed s pathID currentRTT in
  let s := sel_set_quotas s q in
  if skip then s
  else if negb (currentRTT =? 0) && negb (sel_lowerRTT s =? 0) && isSome (sel_path s) &&
      (currentRTT >=? sel_lowerRTT s) then s
  else sel_update s pathID currentRTT.

(** [range1] and [range2] are the orders of the two loops. *)
Definition selectPathLowLatency (sch : scheduler) ps (hasRetransmission hasStreamRetransmission : bool)
    (fromPth : option (path C)) range1 range2 : result (scheduler * option Z) :=
  if Z.of_nat (size ps) <=? 1 then
    let* pth := onlyInitialPath ps hasRetransmission in Ok (sch, pth)
  else
  let* low := lowQuotaPath (sch_quotas sch) hasRetransmission hasStreamRetransmission fromPth range1 in
  match low with
  | Some pathID => Ok (sch, Some pathID)
  | None =>
      let s := fold_left (lowLatencyStep hasRetransmission) range2 (noSelection (sch_quotas sch)) in
      Ok (mkSch (sel_quotas s) (sch_waiting sch), sel_path s)
  end.

(** *** BLEST and ECF *)

(** The loop of both. *)
Definition secondBestStep (hasRetransmission : bool) (s : selection) (e : Z * path C) : selection :=
  let '(pathID, pth) := e in
  if negb (usable hasRetransmission (pathID, pth)) then s
  else
  let currentRTT := pathRTT pth in
  if negb (sel_lowerRTT s =? 0) && (currentRTT =? 0) then s
  else
  let '(q, skip) := unprobed s pathID currentRTT in
  let s := sel_set_quotas s q in
  if skip then s
  else if currentRTT >=? sel_lowerRTT s then
    let s' := if ((sel_secondRTT s =? 0) || (currentRTT <? sel_secondRTT s)) && path_SendingAllowed pth
      then mkSel (sel_quotas s) (sel_path s) (sel_lowerRTT s) (sel_pathID s) (Some pathID) currentRTT else s in
    if negb (currentRTT =? 0) && negb (sel_lowerRTT s =? 0) && isSome (sel_path s) then s'
    else sel_update s' pathID currentRTT
  else sel_update s pathID currentRTT.

Definition getPath ps (id : Z) : result (path C) := match ps !! id with Some p => Ok p | None => Panic end.

Definition cwnd p : Z := GetCongestionWindow (sp_congestion (p_sentPacketHandler p)).

Section session.
Context {P : Type} `{ConnectionParametersManager P}.
(** What the two read of the session: the flow control windows, and the data that
    waits in the streams. *)
Variables (env : fcEnv P) (fcm : flowControlManager) (streams : streamsMap stream).

(** Whether BLEST waits for the best path rather than use the second one. *)
Definition blestWaits (best second : path C) (lowerRTT secondLowerRTT : Z) : bool :=
  let lowerRTT := u64 lowerRTT in
  let secondLowerRTT := u64 secondLowerRTT in
  let FirstCo := mul64 (mul64 DefaultTCPMSS secondLowerRTT)
    (mul64 (mul64 (cwnd best) 2) lowerRTT +u secondLowerRTT -u lowerRTT) in
  let BSend := match SendWindowSize env fcm 5 with Ok n => n | _ => 0 end in
  let SecondCo := mul64 (mul64 (mul64 2 lowerRTT) lowerRTT)
    (BSend -u (sp_bytesInFlight (p_sentPacketHandler second) +u DefaultTCPMSS)) in
  FirstCo >? SecondCo.

Definition selectBLEST (sch : scheduler) ps (hasRetransmission hasStreamRetransmission : bool)
    (fromPth : option (path C)) range1 range2 : result (scheduler * option Z) :=
  if Z.of_nat (size ps) <=? 1 then
    let* pth := onlyInitialPath ps hasRetransmission in Ok (sch, pth)
  else
  let* low := lowQuotaPath (sch_quotas sch) hasRetransmission hasStreamRetransmission fromPth range1 in
  match low with
  | Some pathID => Ok (sch, Some pathID)
  | None =>
      let s := fold_left (secondBestStep hasRetransmission) range2 (noSelection (sch_quotas sch)) in
      let sch := mkSch (sel_quotas s) (sch_waiting sch) in
      match sel_path s with
      | None => Ok (sch, sel_second s)
      | Some bestID =>
          let* best := getPath ps bestID in
          if hasRetransmission || path_SendingAllowed best then Ok (sch, Some bestID)
          else
          match sel_second s with
          | None => Ok (sch, None)
          | Some secondID =>
              let* second := getPath ps secondID in
              if blestWaits best second (sel_lowerRTT s) (sel_secondRTT s) then Ok (sch, None)
              else Ok (sch, Some secondID)
          end
      end
  end.

(** The bytes that wait in the streams. *)
Definition queueSize : Z :=
  let '(_, n, _) := Iterate (fun m n _ str => (m, n +u lenOfDataForWriting str, (true, None))) streams 0 in n.

(** What ECF decides: whether it waits, and the flag it keeps. *)
Definition ecfWaits (waiting : Z) (best second : path C) (lowerRTT secondLowerRTT : Z) : Z * bool :=
  let lowerRTT := u64 lowerRTT in
  let secondLowerRTT := u64 secondLowerRTT in
  let cwndBest := cwnd best in
  let cwndSecond := cwnd second in
  let deviationBest := u64 (rtt_meanDeviation (p_rttStats best)) in
  let deviationSecond := u64 (rtt_meanDeviation (p_rttStats second)) in
  let delta := if deviationBest <? deviationSecond then deviationSecond else deviationBest in
  let xBest := if queueSize <? cwndBest then cwndBest else queueSize in
  let lhs := mul64 lowerRTT (xBest +u cwndBest) in
  let rhs := mul64 cwndBest (secondLowerRTT +u delta) in
  if mul64 lhs 4 <? mul64 rhs 4 +u mul64 waiting rhs then
    let xSecond := if queueSize <? cwndSecond then cwndSecond else queueSize in
    let lhsSecond := mul64 secondLowerRTT xSecond in
    let rhsSecond := mul64 cwndSecond (mul64 2 lowerRTT +u delta) in
    if lhsSecond >? rhsSecond then (1, true) else (waiting, false)
  else (0, false).

Definition selectECF (sch : scheduler) ps (hasRetransmission hasStreamRetransmission : bool)
    (fromPth : option (path C)) range1 range2 : result (scheduler * option Z) :=
  if Z.of_nat (size ps) <=? 1 then
    let* pth := onlyInitialPath ps hasRetransmission in Ok (sch, pth)
  else
  let* low := lowQuotaPath (sch_quotas sch) hasRetransmission hasStreamRetransmission fromPth range1 in
  match low with
  | Some pathID => Ok (sch, Some pathID)
  | None =>
      let s := fold_left (secondBestStep hasRetransmission) range2 (noSelection (sch_quotas sch)) in
      let sch := mkSch (sel_quotas s) (sch_waiting sch) in
      match sel_path s with
      | None => Ok (sch, sel_second s)
      | Some bestID =>
          let* best := getPath ps bestID in
          if hasRetransmission || path_SendingAllowed best then Ok (sch, Some bestID)
          else
          match sel_second s with
          | None => Ok (sch, None)
          | Some secondID =>
              let* second := getPath ps secondID in
              let '(waiting, wait) := ecfWaits (sch_waiting sch) best second (sel_lowerRTT s) (sel_secondRTT s) in
              Ok (mkSch (sch_quotas sch) waiting, if wait then None else Some secondID)
          end
      end
  end.
End session.

(** *** Random *)

(** The loop over two paths: the one that is not the initial path. *)
Fixpoint otherPath range : option Z :=
  match range with
  | [] => None
  | (pathID, _) :: range => if negb (pathID =? InitialPathID) then Some pathID else otherPath range
  end.

(** [draw] is [sch.current_Prob > r.Float64()]. *)
Definition selectPathRandom (sch : scheduler) ps (hasRetransmission hasStreamRetransmission : bool)
    (fromPth : option (path C)) (draw : bool) range1 range2 : result (option Z) :=
  if Z.of_nat (size ps) <=? 1 then onlyInitialPath ps hasRetransmission
  else
  match (if Z.of_nat (size ps) =? 2 then otherPath range1 else None) with
  | Some pathID => Ok (Some pathID)
  | None =>
      let* low := lowQuotaPath (sch_quotas sch) hasRetransmission hasStreamRetransmission fromPth range2 in
      match low with
      | Some pathID => Ok (Some pathID)
      | None =>
          let action := if draw then 3 else 1 in
          let* p := getPath ps action in
          if path_SendingAllowed p then Ok (Some action)
          else if hasRetransmission then
            let* p := getPath ps InitialPathID in
            if path_SendingAllowed p then Ok (Some InitialPathID) else Ok None
          else Ok None
      end
  end.
End scheduler.
