(* ===== verification/SchedulerProofs.v ===== *)
(** * What the path schedulers select

    The loop of the lowest-RTT scheduler keeps an invariant, from which the path it
    selects is characterised for every order of the iteration; the loop of BLEST and
    ECF simulates it. *)
From S2P Require Import Prelude Qerr ByteOrder Protocol WireStream WireControl AckRanges WireAck PublicHeader.
From S2P Require Import Frames ReceivedPackets Float32 RttStats SentPackets ConnParams FlowControl Congestion.
From S2P Require Import SentPacketsProofs FlowControlProofs StreamFrameSorter StreamsMap Stream PacketNumberGenerator Path Scheduler.

(** ** Quotas *)

Lemma quota_addQuota (q : gmap Z Z) (id id' : Z) : quota (addQuota q id) id' = quota q id'.
Proof.
  unfold quota, addQuota. destruct (q !! id) eqn:E; [done|].
  destruct (decide (id = id')) as [<-|]; rewrite ?lookup_insert_eq, ?lookup_insert_ne, ?E by done; done.
Qed.

Section selection.
Context {C : Type} `{SendAlgorithm C}.
Implicit Types p : path C.
Implicit Types ps : gmap Z (path C).
Implicit Types range : list (Z * path C).

(** The path [id] is no worse than the path [id']: a probed path is better than one
    that was not probed, and one with a lower round trip time better than one with a
    higher; of those that were not probed, the one on which less was sent. *)
Definition no_worse (q : gmap Z Z) (id : Z) p (id' : Z) (p' : path C) : Prop :=
  if pathRTT p =? 0 then pathRTT p' = 0 /\ quota q id <= quota q id'
  else pathRTT p' = 0 \/ pathRTT p <= pathRTT p'.

(** The best of the paths of the range that may be used. *)
Definition best_of (q : gmap Z Z) (hasRetransmission : bool) range (sel : option Z) : Prop :=
  match sel with
  | None => forall e, e ∈ range -> usable hasRetransmission e = false
  | Some id => exists p, (id, p) ∈ range /\ usable hasRetransmission (id, p) = true /\
      forall id' p', (id', p') ∈ range -> usable hasRetransmission (id', p') = true -> no_worse q id p id' p'
  end.

(** The invariant of the loop, after it met the paths of [range]. *)
Definition loop_inv (q : gmap Z Z) (hasRetransmission : bool) range (s : selection) : Prop :=
  (forall id, quota (sel_quotas s) id = quota q id) /\
  match sel_path s with
  | None => sel_lowerRTT s = 0 /\ forall e, e ∈ range -> usable hasRetransmission e = false
  | Some id => exists p, (id, p) ∈ range /\ usable hasRetransmission (id, p) = true /\
      sel_pathID s = id /\ sel_lowerRTT s = pathRTT p /\
      forall id' p', (id', p') ∈ range -> usable hasRetransmission (id', p') = true -> no_worse q id p id' p'
  end.

(** A path that is not better than the one selected is skipped. *)
Lemma loop_inv_skip q hasRet range s e :
  loop_inv q hasRet range s ->
  (usable hasRet e = true -> exists id p, sel_path s = Some id /\ (id, p) ∈ range /\ usable hasRet (id, p) = true /\
     sel_pathID s = id /\ sel_lowerRTT s = pathRTT p /\
     (forall id' p', (id', p') ∈ range -> usable hasRet (id', p') = true -> no_worse q id p id' p') /\
     no_worse q id p (fst e) (snd e)) ->
  loop_inv q hasRet (range ++ [e]) s.
Proof.
  intros [Hq Hs] He. split; [done|].
  destruct (usable hasRet e) eqn:Eu.
  - destruct (He eq_refl) as (id & p & -> & Hin & Hu & Hid & Hl & Hall & Hnw).
    exists p. repeat split; try done; [set_solver|].
    intros id' p' [Hin'|<-%list_elem_of_singleton]%elem_of_app Hu'; [by apply Hall|done].
  - destruct (sel_path s) as [id|].
    + destruct Hs as (p & Hin & Hu & Hid & Hl & Hall). exists p. repeat split; try done; [set_solver|].
      intros id' p' [Hin'|<-%list_elem_of_singleton]%elem_of_app Hu'; [by apply Hall|congruence].
    + destruct Hs as [Hl Hall]. split; [done|].
      intros e' [Hin| ->%list_elem_of_singleton]%elem_of_app; auto.
Qed.

(** A path that is no worse than those met so far is selected. *)
Lemma loop_inv_update q hasRet range s pathID pth :
  loop_inv q hasRet range s -> usable hasRet (pathID, pth) = true ->
  (forall id' p', (id', p') ∈ range -> usable hasRet (id', p') = true -> no_worse q pathID pth id' p') ->
  loop_inv q hasRet (range ++ [(pathID, pth)]) (sel_update s pathID (pathRTT pth)).
Proof.
  intros [Hq _] Hu Hall. split; [done|]. exists pth. repeat split; try done; [set_solver|].
  intros id' p' [Hin'|Heq%list_elem_of_singleton]%elem_of_app Hu'; [by apply Hall|].
  simplify_eq. unfold no_worse. destruct (Z.eqb_spec (pathRTT pth) 0); lia.
Qed.

Lemma loop_inv_quotas q hasRet range s q' :
  loop_inv q hasRet range s -> (forall id, quota q' id = quota (sel_quotas s) id) ->
  loop_inv q hasRet range (sel_set_quotas s q').
Proof. intros [Hq Hs] Hq'. split; [|done]. intros id. simpl. by rewrite Hq', Hq. Qed.

Lemma unprobed_quotas s pathID rtt q skip id :
  unprobed s pathID rtt = (q, skip) -> quota q id = quota (sel_quotas s) id.
Proof. unfold unprobed. case_match; intros [= <- _]; [apply quota_addQuota|done]. Qed.

(** The path that replaces the one selected is no worse than those before. *)
Lemma no_worse_update q hasRet range s pathID pth q' :
  loop_inv q hasRet range s -> unprobed s pathID (pathRTT pth) = (q', false) ->
  negb (sel_lowerRTT s =? 0) && (pathRTT pth =? 0) = false ->
  negb (pathRTT pth =? 0) && negb (sel_lowerRTT s =? 0) && isSome (sel_path s) && (pathRTT pth >=? sel_lowerRTT s) = false ->
  forall id' p', (id', p') ∈ range -> usable hasRet (id', p') = true -> no_worse q pathID pth id' p'.
Proof.
  intros [Hq Hs] Ep E1 E2 id' p' Hin Hu'.
  destruct (sel_path s) as [id|] eqn:Esel; [|destruct Hs as [_ Hn]; rewrite (Hn _ Hin) in Hu'; done].
  destruct Hs as (p & ?&?& Hid & Hl & Hall). specialize (Hall _ _ Hin Hu').
  unfold unprobed in Ep. unfold no_worse in *. rewrite Hl in *.
  destruct (Z.eqb_spec (pathRTT pth) 0), (Z.eqb_spec (pathRTT p) 0); simpl in *; try lia.
  injection Ep as _ Hle. rewrite Esel, quota_addQuota, !Hq, Hid in Hle. simpl in Hle. lia.
Qed.

Lemma lowLatencyStep_inv q hasRet range s e :
  loop_inv q hasRet range s -> loop_inv q hasRet (range ++ [e]) (lowLatencyStep hasRet s e).
Proof.
  intros Hinv. destruct e as [pathID pth]. unfold lowLatencyStep.
  destruct (usable hasRet (pathID, pth)) eqn:Eu; cbn [negb].
  2:{ apply loop_inv_skip; [done|congruence]. }
  destruct (negb (sel_lowerRTT s =? 0) && (pathRTT pth =? 0)) eqn:E1.
  { apply loop_inv_skip; [done|]. intros _. destruct Hinv as [Hq Hs].
    destruct (sel_path s) as [id|]; [|lia].
    destruct Hs as (p & ?&?&?& Hl &?). exists id, p. repeat split; try done.
    unfold no_worse. cbn [snd]. rewrite Hl in E1. destruct (Z.eqb_spec (pathRTT p) 0); [lia|]. left. lia. }
  destruct (unprobed s pathID (pathRTT pth)) as [q' skip] eqn:Ep.
  assert (Hinv' : loop_inv q hasRet range (sel_set_quotas s q'))
    by (apply loop_inv_quotas; [done|]; intros; by eapply unprobed_quotas).
  pose proof Hinv as [Hq Hs].
  assert (Hlow : sel_path s = None -> sel_lowerRTT s = 0) by (intros E; rewrite E in Hs; tauto).
  destruct skip.
  - (* more was sent on this path *)
    apply loop_inv_skip; [done|]. intros _. unfold unprobed in Ep.
    destruct (Z.eqb_spec (pathRTT pth) 0) as [E0|]; [|congruence].
    injection Ep as <- Hskip. simpl.
    destruct (sel_path s) as [id|]; [|done].
    destruct Hs as (p & ?&?& Hid & Hl &?). exists id, p. repeat split; try done.
    unfold no_worse. simpl in *. rewrite quota_addQuota, !Hq, Hid in Hskip. rewrite Hl in E1.
    destruct (Z.eqb_spec (pathRTT p) 0); [lia|]. by left.
  - simpl. destruct (negb (pathRTT pth =? 0) && _ && _ && _) eqn:E2.
    + (* its round trip time is not lower *)
      apply loop_inv_skip; [done|]. intros _. simpl.
      destruct (sel_path s) as [id|]; [|simpl in E2; lia].
      destruct Hs as (p & ?&?&?& Hl &?). exists id, p. repeat split; try done.
      unfold no_worse. simpl in *. rewrite Hl in E2.
      destruct (Z.eqb_spec (pathRTT p) 0); [lia|]. right. lia.
    + apply loop_inv_update; [done..|]. eapply no_worse_update; [exact Hinv|done..].
Qed.

Lemma lowLatency_loop q hasRet range2 range1 s :
  loop_inv q hasRet range1 s ->
  loop_inv q hasRet (range1 ++ range2) (fold_left (lowLatencyStep hasRet) range2 s).
Proof.
  revert range1 s. induction range2 as [|e range2 IH]; intros range1 s Hinv; simpl.
  { by rewrite app_nil_r. }
  replace (range1 ++ e :: range2) with ((range1 ++ [e]) ++ range2) by (by rewrite <- app_assoc).
  apply IH. by apply lowLatencyStep_inv.
Qed.

Lemma loop_inv_init q hasRet : loop_inv q hasRet [] (noSelection q).
Proof. split; [done|]. simpl. split; [done|]. intros e He%elem_of_nil. done. Qed.

Lemma loop_inv_best q hasRet range s : loop_inv q hasRet range s -> best_of q hasRet range (sel_path s).
Proof.
  intros [_ Hs]. unfold best_of. destruct (sel_path s); [|tauto].
  destruct Hs as (p & Hin & Hu & _ & _ & Hall). by exists p.
Qed.

(** What the loop over [range] selects. *)
Lemma lowLatency_best q hasRet range :
  let s := fold_left (lowLatencyStep hasRet) range (noSelection q) in
  (forall id, quota (sel_quotas s) id = quota q id) /\ best_of q hasRet range (sel_path s).
Proof.
  simpl. pose proof (lowLatency_loop q hasRet range [] _ (loop_inv_init q hasRet)) as Hinv.
  split; [apply Hinv|by apply loop_inv_best].
Qed.

Lemma lowQuotaLoop_spec q fromID range :
  match lowQuotaLoop q fromID range with
  | Some id => id ∈ range.*1 /\ id <> InitialPathID /\ quota q id < quota q fromID
  | None => forall id, id ∈ range.*1 -> id = InitialPathID \/ quota q fromID <= quota q id
  end.
Proof.
  induction range as [|[pathID pth] range IH]; simpl; [intros id []%elem_of_nil|].
  destruct ((pathID =? InitialPathID) || (pathID =? fromID)) eqn:E1;
    [|destruct (quota q pathID <? quota q fromID) eqn:E2].
  - destruct (lowQuotaLoop q fromID range); [set_solver|].
    intros id [->|Hin]%elem_of_cons; [|by apply IH].
    apply orb_prop in E1 as [?%Z.eqb_eq|?%Z.eqb_eq]; subst; [by left|right; lia].
  - split; [left|lia].
  - destruct (lowQuotaLoop q fromID range); [set_solver|].
    intros id [->|Hin]%elem_of_cons; [right; lia|by apply IH].
Qed.

(** ** BLEST and ECF run the same loop *)

Definition same_best (s1 s2 : selection) : Prop :=
  sel_quotas s1 = sel_quotas s2 /\ sel_path s1 = sel_path s2 /\ sel_lowerRTT s1 = sel_lowerRTT s2 /\
  sel_pathID s1 = sel_pathID s2 /\ (sel_path s2 = None -> sel_second s2 = None).

Lemma same_best_step hasRet s1 s2 e :
  same_best s1 s2 -> same_best (lowLatencyStep hasRet s1 e) (secondBestStep hasRet s2 e).
Proof.
  destruct e as [pathID pth], s1 as [q1 sp1 l1 i1 x1 y1], s2 as [q2 sp2 l2 i2 x2 y2].
  intros (Hq & Hp & Hl & Hi & Hn). cbn in Hq, Hp, Hl, Hi, Hn. subst q2 sp2 l2 i2.
  unfold lowLatencyStep, secondBestStep, unprobed, sel_set_quotas, sel_update.
  cbn [sel_quotas sel_path sel_lowerRTT sel_pathID sel_second sel_secondRTT].
  destruct (negb (usable hasRet (pathID, pth))); [split_and!; simpl; by auto|].
  destruct (negb (l1 =? 0) && (pathRTT pth =? 0)); [split_and!; simpl; by auto|].
  destruct (if pathRTT pth =? 0 then _ else _) as [q skip]. destruct skip; [split_and!; simpl; by auto|].
  destruct (pathRTT pth >=? l1), (negb (pathRTT pth =? 0) && negb (l1 =? 0)), sp1; cbn [andb isSome]; try (split_and!; simpl; by auto);
    destruct (_ && path_SendingAllowed pth); split_and!; simpl; by auto.
Qed.

Lemma same_best_loop hasRet range s1 s2 :
  same_best s1 s2 ->
  same_best (fold_left (lowLatencyStep hasRet) range s1) (fold_left (secondBestStep hasRet) range s2).
Proof. revert s1 s2. induction range; intros s1 s2 Hs; simpl; [done|]. by apply IHrange, same_best_step. Qed.

(** The best path of the loop of BLEST and ECF is one on which sending is allowed,
    unless there is a retransmission. *)
Lemma secondBest_loop q hasRet range ps :
  range ≡ₚ map_to_list ps ->
  let s1 := fold_left (lowLatencyStep hasRet) range (noSelection q) in
  let s2 := fold_left (secondBestStep hasRet) range (noSelection q) in
  sel_quotas s2 = sel_quotas s1 /\ sel_path s2 = sel_path s1 /\
  match sel_path s1 with
  | None => sel_second s2 = None
  | Some id => exists p, ps !! id = Some p /\ hasRet || path_SendingAllowed p = true
  end.
Proof.
  intros Hr. simpl.
  destruct (same_best_loop hasRet range (noSelection q) (noSelection q)) as (Hq & Hp & _ & _ & Hn); [by split_and!|].
  destruct (lowLatency_best q hasRet range) as [_ Hb]. simpl in Hb. split_and!; [done..|].
  destruct (sel_path (fold_left (lowLatencyStep _) _ _)) as [id|] eqn:E; [|by apply Hn].
  destruct Hb as (p & Hin & Hu & _). exists p. split; [by rewrite <- elem_of_map_to_list, <- Hr|].
  unfold usable in Hu. by destruct hasRet, (path_SendingAllowed p).
Qed.

Section theorems.
Context {P : Type} `{ConnectionParametersManager P}.
Variables (env : fcEnv P) (fcm : flowControlManager) (streams : streamsMap stream).

(** C20: BLEST and ECF are the scheduler of the lowest round trip time: for the same
    session, the same quotas and any order of the iterations they select the same
    path, change the quotas in the same way, and ECF never changes the flag it keeps.
    The estimates of both (when it pays to wait for the fast path) are never
    reached, because their loop has skipped the paths on which nothing may be sent. *)
Theorem blest_ecf_are_low_latency (sch : scheduler) ps (hasRetransmission hasStreamRetransmission : bool)
    (fromPth : option (path C)) range1 range2 :
  range2 ≡ₚ map_to_list ps ->
  selectBLEST env fcm sch ps hasRetransmission hasStreamRetransmission fromPth range1 range2 =
    selectPathLowLatency sch ps hasRetransmission hasStreamRetransmission fromPth range1 range2 /\
  selectECF streams sch ps hasRetransmission hasStreamRetransmission fromPth range1 range2 =
    selectPathLowLatency sch ps hasRetransmission hasStreamRetransmission fromPth range1 range2.
Proof.
  intros Hr. unfold selectBLEST, selectECF, selectPathLowLatency.
  destruct (Z.of_nat (size ps) <=? 1); [done|].
  destruct (lowQuotaPath _ _ _ _ _) as [[id|]|e|]; simpl; try done.
  destruct (secondBest_loop (sch_quotas sch) hasRetransmission range2 ps Hr) as (-> & -> & Hb).
  destruct (sel_path _) as [id|]; [|by rewrite Hb].
  destruct Hb as (p & Hp & Ha). unfold getPath. rewrite Hp. simpl. by rewrite Ha.
Qed.
End theorems.

(** A path other than the initial one on which less was sent than on [from]. *)
Definition less_used (q : gmap Z Z) ps (from : path C) (id : Z) : Prop :=
  is_Some (ps !! id) /\ id <> InitialPathID /\ quota q id < quota q (p_pathID from).

(** Stream data is sent again, and there is a path it can go to instead of the path
    [fromPth] it was sent on, which was not probed yet. *)
Definition reinjects (q : gmap Z Z) ps (hasRetransmission hasStreamRetransmission : bool) (fromPth : option (path C)) : Prop :=
  exists from, fromPth = Some from /\ hasRetransmission && hasStreamRetransmission = true /\ pathRTT from = 0 /\
    exists id, less_used q ps from id.

Lemma best_of_perm q hasRet range range' sel :
  range ≡ₚ range' -> best_of q hasRet range sel -> best_of q hasRet range' sel.
Proof.
  intros Hr. unfold best_of. destruct sel.
  - intros (p & Hin & Hu & Hall). exists p. rewrite Hr in Hin. split_and!; [done..|].
    intros id' p' Hin' Hu'. apply Hall; [by rewrite Hr|done].
  - intros Hall e Hin. apply Hall. by rewrite Hr.
Qed.

Lemma elem_of_range_fst ps range id : range ≡ₚ map_to_list ps -> (id ∈ range.*1 <-> is_Some (ps !! id)).
Proof.
  intros Hr. rewrite Hr, list_elem_of_fmap. split.
  - intros ([id' p] & -> & Hin%elem_of_map_to_list). by exists p.
  - intros [p Hp]. exists (id, p). split; [done|by apply elem_of_map_to_list].
Qed.

(** What the first loop finds. *)
Lemma lowQuotaPath_spec q ps hasRet hasStreamRet fromPth range :
  range ≡ₚ map_to_list ps -> (hasRet && hasStreamRet = true -> fromPth <> None) ->
  exists low, lowQuotaPath q hasRet hasStreamRet fromPth range = Ok low /\
  match low with
  | Some id => reinjects q ps hasRet hasStreamRet fromPth /\
      exists from, fromPth = Some from /\ less_used q ps from id
  | None => ~ reinjects q ps hasRet hasStreamRet fromPth
  end.
Proof.
  intros Hr Hfrom. unfold lowQuotaPath.
  destruct (hasRet && hasStreamRet) eqn:Eret; [|exists None; split; [done|]; intros (?&?&?&?); congruence].
  destruct fromPth as [from|]; [|by destruct Hfrom].
  destruct (Z.eqb_spec (pathRTT from) 0) as [E0|];
    [|exists None; split; [done|]; intros (?&?&?&?&?); simplify_eq].
  eexists. split; [done|]. pose proof (lowQuotaLoop_spec q (p_pathID from) range) as Hs.
  destruct (lowQuotaLoop _ _ _) as [id|].
  - destruct Hs as (Hin%(elem_of_range_fst ps) & Hne & Hlt); [|done].
    assert (Hl : less_used q ps from id) by done.
    split; [exists from|exists from]; eauto 6.
  - intros (from' & Heq & _ & _ & id & Hin%(elem_of_range_fst _ _ _ Hr) & Hne & Hlt). injection Heq as <-.
    destruct (Hs id Hin); [done|lia].
Qed.

(** C19: the lowest-RTT scheduler, with more than one path and whatever the order of
    the iterations: it selects without panicking (a retransmission of stream data
    comes from a path), and the quotas stay what they are.  Stream data that is sent
    again, and was sent on a path that is not probed yet, goes to a path on which less
    was sent, if there is one.  Otherwise the path it selects is the best of those that
    may be used: not the initial path, not potentially failed, and with room in its
    congestion window unless there is a retransmission; it has the lowest nonzero
    round trip time, or, when none was probed, the fewest packets sent.  It selects
    none only when none may be used. *)
Theorem low_latency_spec (sch : scheduler) ps (hasRetransmission hasStreamRetransmission : bool)
    (fromPth : option (path C)) range1 range2 :
  1 < Z.of_nat (size ps) -> range1 ≡ₚ map_to_list ps -> range2 ≡ₚ map_to_list ps ->
  (hasRetransmission && hasStreamRetransmission = true -> fromPth <> None) ->
  exists sch' sel,
    selectPathLowLatency sch ps hasRetransmission hasStreamRetransmission fromPth range1 range2 = Ok (sch', sel) /\
    (forall id, quota (sch_quotas sch') id = quota (sch_quotas sch) id) /\
    (reinjects (sch_quotas sch) ps hasRetransmission hasStreamRetransmission fromPth ->
     exists id from, sel = Some id /\ fromPth = Some from /\ less_used (sch_quotas sch) ps from id) /\
    (~ reinjects (sch_quotas sch) ps hasRetransmission hasStreamRetransmission fromPth ->
     best_of (sch_quotas sch) hasRetransmission (map_to_list ps) sel).
Proof.
  intros Hsize Hr1 Hr2 Hfrom. unfold selectPathLowLatency.
  replace (Z.of_nat (size ps) <=? 1) with false by lia.
  destruct (lowQuotaPath_spec (sch_quotas sch) ps hasRetransmission hasStreamRetransmission fromPth range1)
    as (low & -> & Hlow); [done..|]. simpl.
  destruct low as [id|].
  - destruct Hlow as (Hre & from & Hf & Hl). exists sch, (Some id). split_and!; try done. intros _. by exists id, from.
  - destruct (lowLatency_best (sch_quotas sch) hasRetransmission range2) as [Hq Hb].
    eexists _, _. split_and!; [done|done|done|]. intros _. simpl in Hb. by eapply best_of_perm.
Qed.

(** ** Round robin *)

Lemma roundRobinLoop_spec hasRet range q sel lower :
  let '(q', sel') := roundRobinLoop hasRet q sel lower range in
  (forall id, quota q' id = quota q id) /\
  exists lower', lower' <= lower /\
    (forall id p, (id, p) ∈ range -> usable hasRet (id, p) = true -> lower' <= quota q id) /\
    (lower' = lower /\ sel' = sel \/
     exists id p, sel' = Some id /\ (id, p) ∈ range /\ usable hasRet (id, p) = true /\ quota q id = lower' /\ lower' < lower).
Proof.
  revert q sel lower. induction range as [|[pathID pth] range IH]; intros q sel lower; cbn [roundRobinLoop].
  { split; [done|]. exists lower. split_and!; [lia|intros id p []%elem_of_nil|by left]. }
  destruct (usable hasRet (pathID, pth)) eqn:Eu; cbn [negb].
  2:{ specialize (IH q sel lower). destruct (roundRobinLoop _ _ _ _ _) as [q' sel'].
      destruct IH as (Hq & lower' & Hle & Hall & Hsel). split; [done|]. exists lower'. split_and!; [done|..].
      - intros id p [Heq|Hin]%elem_of_cons Hu; [congruence|by eapply Hall].
      - destruct Hsel as [?|(id & p & ?&?&?)]; [by left|right]. exists id, p. rewrite elem_of_cons. tauto. }
  destruct (quota q pathID <? lower) eqn:El.
  - specialize (IH (addQuota q pathID) (Some pathID) (quota q pathID)).
    destruct (roundRobinLoop _ _ _ _ _) as [q' sel']. destruct IH as (Hq & lower' & Hle & Hall & Hsel).
    split; [intros id; by rewrite Hq, quota_addQuota|]. exists lower'. split_and!; [lia|..].
    + intros id p [Heq|Hin]%elem_of_cons Hu; [simplify_eq; done|]. rewrite <- (quota_addQuota q pathID). by eapply Hall.
    + right. destruct Hsel as [[-> ->]|(id & p & -> & Hin & Hu & Hid & Hlt)].
      * exists pathID, pth. split_and!; [done|left|done|done|lia].
      * exists id, p. rewrite quota_addQuota in Hid. split_and!; [done|by right|done|done|lia].
  - specialize (IH (addQuota q pathID) sel lower).
    destruct (roundRobinLoop _ _ _ _ _) as [q' sel']. destruct IH as (Hq & lower' & Hle & Hall & Hsel).
    split; [intros id; by rewrite Hq, quota_addQuota|]. exists lower'. split_and!; [lia|..].
    + intros id p [Heq|Hin]%elem_of_cons Hu; [simplify_eq; lia|]. rewrite <- (quota_addQuota q pathID). by eapply Hall.
    + destruct Hsel as [?|(id & p & -> & Hin & Hu & Hid & Hlt)]; [by left|right].
      exists id, p. rewrite quota_addQuota in Hid. split_and!; [done|by right|done|done|lia].
Qed.

(** Round robin, with more than one path and whatever the order of the iteration:
    it selects a path that may be used (as in the lowest-RTT scheduler) on which the
    fewest packets were sent, and none only when none may be used; the quotas stay
    what they are.  The quotas count packets and are below the largest integer. *)
Theorem round_robin_spec (sch : scheduler) ps (hasRetransmission : bool) range :
  1 < Z.of_nat (size ps) -> range ≡ₚ map_to_list ps -> (forall id, quota (sch_quotas sch) id < 2 ^ 64 - 1) ->
  exists sch' sel, selectPathRoundRobin sch ps hasRetransmission range = Ok (sch', sel) /\
    (forall id, quota (sch_quotas sch') id = quota (sch_quotas sch) id) /\
    match sel with
    | None => forall id p, ps !! id = Some p -> usable hasRetransmission (id, p) = false
    | Some id => exists p, ps !! id = Some p /\ usable hasRetransmission (id, p) = true /\
        forall id' p', ps !! id' = Some p' -> usable hasRetransmission (id', p') = true ->
          quota (sch_quotas sch) id <= quota (sch_quotas sch) id'
    end.
Proof.
  intros Hsize Hr Hq. unfold selectPathRoundRobin. replace (Z.of_nat (size ps) <=? 1) with false by lia.
  pose proof (roundRobinLoop_spec hasRetransmission range (sch_quotas sch) None (2 ^ 64 - 1)) as Hs.
  destruct (roundRobinLoop _ _ _ _ _) as [q sel]. destruct Hs as (Hq' & lower & Hle & Hall & Hsel).
  assert (Hin : forall id p, ps !! id = Some p <-> (id, p) ∈ range)
    by (intros; by rewrite Hr, elem_of_map_to_list).
  eexists _, _. split_and!; [done..|]. destruct Hsel as [[Hl ->]|(id & p & -> & Hp & Hu & Hid & _)].
  - intros id p Hp%Hin. apply not_true_is_false. intros Hu. specialize (Hall _ _ Hp Hu). specialize (Hq id). lia.
  - exists p. split_and!; [by apply Hin|done|]. intros id' p' Hp'%Hin Hu'. rewrite Hid. by eapply Hall.
Qed.
End selection.

(** ** Concrete sessions *)

Definition example_addr (port : Z) : UDPAddr := {| ua_IP := [127; 0; 0; 1]; ua_Port := port; ua_Zone := "" |}.
Definition example_conn : conn := mkConn (example_addr 1) (example_addr 2).

(** Three paths with windows of a fixed size, the last two with the given round trip
    times. *)
Definition example_path (id rtt : Z) : path unit :=
  let p := path_setup id example_conn VersionMP tt 0 in
  set_sentPacketHandler p (set_rttStats (p_sentPacketHandler p) (UpdateRTT NewRTTStats rtt 0 0)).
Definition example_paths (rtt1 rtt3 : Z) : gmap Z (path unit) :=
  {[ 0 := example_path 0 0; 1 := example_path 1 rtt1; 3 := example_path 3 rtt3 ]}.
Definition example_scheduler : scheduler := mkSch {[ 1 := 5; 3 := 2 ]} 0.

Definition select_example (rtt1 rtt3 : Z) : result (option Z) :=
  let ps := example_paths rtt1 rtt3 in
  let* r := selectPathLowLatency example_scheduler ps false false None (map_to_list ps) (map_to_list ps) in
  Ok (snd r).

Example select_lower_rtt : select_example (10 * Millisecond) (20 * Millisecond) = Ok (Some 1).
Proof. vm_compute. reflexivity. Qed.
Example select_only_probed : select_example (10 * Millisecond) 0 = Ok (Some 1).
Proof. vm_compute. reflexivity. Qed.
Example select_unprobed : select_example 0 0 = Ok (Some 3).
Proof. vm_compute. reflexivity. Qed.

Lemma blest_ecf_are_low_latency_witness :
  let ps := example_paths (10 * Millisecond) (20 * Millisecond) in
  selectBLEST example_env (NewFlowControlManager example_env) example_scheduler ps true false None [] (map_to_list ps) =
    selectPathLowLatency example_scheduler ps true false None [] (map_to_list ps).
Proof.
  intros ps.
  exact (proj1 (blest_ecf_are_low_latency example_env (NewFlowControlManager example_env)
    (newStreamsMap PerspectiveServer) example_scheduler ps true false None [] (map_to_list ps) (Permutation_refl _))).
Defined.

Lemma low_latency_spec_witness :
  let ps := example_paths 0 0 in
  exists sch' sel, selectPathLowLatency example_scheduler ps true true (ps !! 1) (map_to_list ps) (map_to_list ps) =
    Ok (sch', sel).
Proof.
  intros ps. destruct (low_latency_spec example_scheduler ps true true (ps !! 1) (map_to_list ps) (map_to_list ps))
    as (sch' & sel & Hs & _); [vm_compute; reflexivity|reflexivity|reflexivity|vm_compute; discriminate|].
  exists sch', sel. exact Hs.
Defined.

Lemma round_robin_spec_witness :
  let ps := example_paths 0 0 in
  exists sch' sel, selectPathRoundRobin example_scheduler ps false (map_to_list ps) = Ok (sch', sel).
Proof.
  intros ps. destruct (round_robin_spec example_scheduler ps false (map_to_list ps))
    as (sch' & sel & Hs & _); [vm_compute; reflexivity|reflexivity| |exists sch', sel; exact Hs].
  intros id. unfold quota, example_scheduler, sch_quotas.
  destruct (decide (id = 1)) as [->|H1]; [reflexivity|]. destruct (decide (id = 3)) as [->|H3]; [reflexivity|].
  rewrite lookup_insert_ne, lookup_singleton_ne by congruence. reflexivity.
Defined.
