(* ===== verification/Session.v ===== *)
(** * Sessions (session.go, path_manager.go)

    The session owns the paths, the streams, flow control, the framer and the packer,
    and lets them work together: it handles the frames of the packets that arrive,
    sends the packets the packer made, opens and closes paths.  Its operations thread
    the state, errors and panics through a monad.  The session's RTT statistics are
    those of the initial path, by reference: they have no copy here.  What a
    session gets from outside (the time, random numbers, the crypto setup, what its
    sockets answer, the order in which an iteration over a map meets its entries) is in
    a record [world] that the operations take. *)
From stdpp Require Import pretty.
From S2P Require Import Prelude Qerr ByteOrder Protocol WireStream WireControl AckRanges WireAck PublicHeader.
From S2P Require Import Frames ReceivedPackets Float32 RttStats SentPackets ConnParams FlowControl Congestion.
From S2P Require Import StreamFrameSorter StreamsMap Stream StreamFramer PacketNumberGenerator PacketPacker Path Scheduler.

Definition errRstStreamOnInvalidStream : error := errors_New "RST_STREAM received for unknown stream".
Definition errWindowUpdateOnClosedStream : error :=
  errors_New "WINDOW_UPDATE received for an already closed stream".

(** What tells two addresses apart: [net.UDPAddr.String] of addresses of 4 or 16
    bytes, where an IPv4 address has the same text in both forms. *)
Definition addr_String (a : UDPAddr) : list Z * string * Z :=
  (match To4 (ua_IP a) with Some ip => ip | None => ua_IP a end, ua_Zone a, ua_Port a).

Definition getIPVersion (ip : list Z) : Z := match To4 ip with Some _ => 4 | None => 6 end.

(** The path manager; [pm_localAddrs] are those of its [pconnMgr], which has a socket
    for each of them. *)
Record pathManager : Type := mkPM {
  pm_nxtPathID : Z;
  pm_remoteAddrs4 : list UDPAddr;
  pm_remoteAddrs6 : list UDPAddr;
  pm_advertisedLocAddrs : list (list Z * string * Z);
  pm_localAddrs : list UDPAddr;
}.

(** The schedulers that are modelled, by the value of [SchedulerName]; [SchRTT] is that
    of every other name that is not one of a learning scheduler. *)
Inductive schedulerName : Type := SchRTT | SchRandom | SchECF | SchBLEST.

(** [ses_written] are the datagrams the session gave to the socket of a path. *)
Record session (C P : Type) : Type := mkSess {
  ses_perspective : Perspective;
  ses_version : Z;
  ses_createPaths : bool;
  ses_params : P;
  ses_paths : gmap Z (path C);
  ses_closedPaths : gset Z;
  ses_pathManager : option pathManager;
  ses_streams : streamsMap stream;
  ses_framer : streamFramer;
  ses_fcm : flowControlManager;
  ses_packer : packetPacker;
  ses_remoteRTTs : gmap Z Z;
  ses_peerBlocked : bool;
  ses_handshakeComplete : bool;
  ses_lastPathsFrameSent : Z;
  ses_closeErr : option (option error * bool);
  ses_sendingScheduled : bool;
  ses_written : list (Z * list Z);
  ses_schedulerName : schedulerName;
  ses_scheduler : scheduler;
}.
Arguments mkSess {C P}.
Arguments ses_perspective {C P}.
Arguments ses_version {C P}.
Arguments ses_createPaths {C P}.
Arguments ses_params {C P}.
Arguments ses_paths {C P}.
Arguments ses_closedPaths {C P}.
Arguments ses_pathManager {C P}.
Arguments ses_streams {C P}.
Arguments ses_framer {C P}.
Arguments ses_fcm {C P}.
Arguments ses_packer {C P}.
Arguments ses_remoteRTTs {C P}.
Arguments ses_peerBlocked {C P}.
Arguments ses_handshakeComplete {C P}.
Arguments ses_lastPathsFrameSent {C P}.
Arguments ses_closeErr {C P}.
Arguments ses_sendingScheduled {C P}.
Arguments ses_written {C P}.
Arguments ses_schedulerName {C P}.
Arguments ses_scheduler {C P}.

(** What comes from outside, during one operation: the time, the random bytes for a
    packet number of a path, the crypto setup, the answer of a socket, the congestion
    controller of a new path, the orders of the iterations over the paths and the
    streams and of the rounds of [getRetransmission], and the draw of the random
    scheduler. *)
Record world (C : Type) : Type := mkWorld {
  w_now : Z;
  w_rand : Z -> Z -> option (Z * Z);
  w_crypto : CryptoSetup;
  w_write : Z -> list Z -> option error;
  w_controller : Z -> C;
  w_pathOrder : list Z;
  w_streamOrder : list Z;
  w_retransmitOrders : list (list Z);
  w_draw : bool;
}.
Arguments mkWorld {C}.
Arguments w_now {C}.
Arguments w_rand {C}.
Arguments w_crypto {C}.
Arguments w_write {C}.
Arguments w_controller {C}.
Arguments w_pathOrder {C}.
Arguments w_streamOrder {C}.
Arguments w_retransmitOrders {C}.
Arguments w_draw {C}.

Section session.
Context {C P : Type} `{SendAlgorithm C} `{ConnectionParametersManager P}.
Implicit Types s : session C P.
Implicit Types p : path C.
Implicit Types w : world C.

(** *** Field updates *)

Definition ses_set_paths s (ps : gmap Z (path C)) : session C P :=
  mkSess (ses_perspective s) (ses_version s) (ses_createPaths s) (ses_params s) ps (ses_closedPaths s)
    (ses_pathManager s) (ses_streams s) (ses_framer s) (ses_fcm s) (ses_packer s) (ses_remoteRTTs s)
    (ses_peerBlocked s) (ses_handshakeComplete s) (ses_lastPathsFrameSent s) (ses_closeErr s)
    (ses_sendingScheduled s) (ses_written s) (ses_schedulerName s) (ses_scheduler s).
Definition ses_set_manager s (closed : gset Z) (pm : option pathManager) : session C P :=
  mkSess (ses_perspective s) (ses_version s) (ses_createPaths s) (ses_params s) (ses_paths s) closed
    pm (ses_streams s) (ses_framer s) (ses_fcm s) (ses_packer s) (ses_remoteRTTs s)
    (ses_peerBlocked s) (ses_handshakeComplete s) (ses_lastPathsFrameSent s) (ses_closeErr s)
    (ses_sendingScheduled s) (ses_written s) (ses_schedulerName s) (ses_scheduler s).
Definition ses_set_sending s (fr : streamFramer) (m : streamsMap stream) (f : flowControlManager)
    (pk : packetPacker) : session C P :=
  mkSess (ses_perspective s) (ses_version s) (ses_createPaths s) (ses_params s) (ses_paths s) (ses_closedPaths s)
    (ses_pathManager s) m fr f pk (ses_remoteRTTs s)
    (ses_peerBlocked s) (ses_handshakeComplete s) (ses_lastPathsFrameSent s) (ses_closeErr s)
    (ses_sendingScheduled s) (ses_written s) (ses_schedulerName s) (ses_scheduler s).
Definition ses_set_remoteRTTs s (rtts : gmap Z Z) : session C P :=
  mkSess (ses_perspective s) (ses_version s) (ses_createPaths s) (ses_params s) (ses_paths s) (ses_closedPaths s)
    (ses_pathManager s) (ses_streams s) (ses_framer s) (ses_fcm s) (ses_packer s) rtts
    (ses_peerBlocked s) (ses_handshakeComplete s) (ses_lastPathsFrameSent s) (ses_closeErr s)
    (ses_sendingScheduled s) (ses_written s) (ses_schedulerName s) (ses_scheduler s).
Definition ses_set_peerBlocked s (b : bool) : session C P :=
  mkSess (ses_perspective s) (ses_version s) (ses_createPaths s) (ses_params s) (ses_paths s) (ses_closedPaths s)
    (ses_pathManager s) (ses_streams s) (ses_framer s) (ses_fcm s) (ses_packer s) (ses_remoteRTTs s)
    b (ses_handshakeComplete s) (ses_lastPathsFrameSent s) (ses_closeErr s)
    (ses_sendingScheduled s) (ses_written s) (ses_schedulerName s) (ses_scheduler s).
Definition ses_set_signals s (lastPathsFrameSent : Z) (closeErr : option (option error * bool))
    (sendingScheduled : bool) (written : list (Z * list Z)) : session C P :=
  mkSess (ses_perspective s) (ses_version s) (ses_createPaths s) (ses_params s) (ses_paths s) (ses_closedPaths s)
    (ses_pathManager s) (ses_streams s) (ses_framer s) (ses_fcm s) (ses_packer s) (ses_remoteRTTs s)
    (ses_peerBlocked s) (ses_handshakeComplete s) lastPathsFrameSent closeErr sendingScheduled written
    (ses_schedulerName s) (ses_scheduler s).
Definition ses_set_scheduler s (sch : scheduler) : session C P :=
  mkSess (ses_perspective s) (ses_version s) (ses_createPaths s) (ses_params s) (ses_paths s) (ses_closedPaths s)
    (ses_pathManager s) (ses_streams s) (ses_framer s) (ses_fcm s) (ses_packer s) (ses_remoteRTTs s)
    (ses_peerBlocked s) (ses_handshakeComplete s) (ses_lastPathsFrameSent s) (ses_closeErr s)
    (ses_sendingScheduled s) (ses_written s) (ses_schedulerName s) sch.
Definition ses_set_handshakeComplete s : session C P :=
  mkSess (ses_perspective s) (ses_version s) (ses_createPaths s) (ses_params s) (ses_paths s) (ses_closedPaths s)
    (ses_pathManager s) (ses_streams s) (ses_framer s) (ses_fcm s) (ses_packer s) (ses_remoteRTTs s)
    (ses_peerBlocked s) true (ses_lastPathsFrameSent s) (ses_closeErr s)
    (ses_sendingScheduled s) (ses_written s) (ses_schedulerName s) (ses_scheduler s).
Definition ses_set_framer s (fr : streamFramer) : session C P :=
  ses_set_sending s fr (ses_streams s) (ses_fcm s) (ses_packer s).
Definition ses_set_streams s (m : streamsMap stream) (f : flowControlManager) : session C P :=
  ses_set_sending s (ses_framer s) m f (ses_packer s).
Definition ses_set_packer s (pk : packetPacker) : session C P :=
  ses_set_sending s (ses_framer s) (ses_streams s) (ses_fcm s) pk.

(** *** The monad: a loop that runs out of fuel is [None]. *)

Definition M (A : Type) : Type := session C P -> option (session C P * result A).

Definition mret {A} (a : A) : M A := fun s => Some (s, Ok a).
Definition mfail {A} (e : error) : M A := fun s => Some (s, Err e).
Definition mpanic {A} : M A := fun s => Some (s, Panic).
Definition mbind {A B} (m : M A) (k : A -> M B) : M B := fun s =>
  match m s with
  | Some (s, Ok a) => k a s
  | Some (s, Err e) => Some (s, Err e)
  | Some (s, Panic) => Some (s, Panic)
  | None => None
  end.
Definition mget {A} (f : session C P -> A) : M A := fun s => Some (s, Ok (f s)).
Definition mset (f : session C P -> session C P) : M unit := fun s => Some (f s, Ok tt).
(** [err := m] *)
Definition mtry (m : M unit) : M (option error) := fun s =>
  match m s with
  | Some (s, Ok _) => Some (s, Ok None)
  | Some (s, Err e) => Some (s, Ok (Some e))
  | Some (s, Panic) => Some (s, Panic)
  | None => None
  end.
(** [return err] *)
Definition merr (err : option error) : M unit := match err with Some e => mfail e | None => mret tt end.

#[local] Notation "'let!' x ':=' m 'in' k" := (mbind m (fun x => k)) (at level 200, x binder, right associativity).
#[local] Notation "m ';!' k" := (mbind m (fun _ => k)) (at level 100, right associativity).

(** [s.paths[id]], before it is dereferenced. *)
Definition get_path (id : Z) : M (path C) := fun s =>
  match ses_paths s !! id with Some p => Some (s, Ok p) | None => Some (s, Panic) end.
Definition put_path (id : Z) p : M unit := mset (fun s => ses_set_paths s (<[id := p]> (ses_paths s))).

(** What flow control shares with the session: the RTT statistics are those of
    the initial path. *)
Definition ses_env s : fcEnv P :=
  mkEnv (ses_params s) (match ses_paths s !! InitialPathID with Some p => p_rttStats p | None => NewRTTStats end)
    (ses_remoteRTTs s).

Definition scheduleSending : M unit :=
  mset (fun s => ses_set_signals s (ses_lastPathsFrameSent s) (ses_closeErr s) true (ses_written s)).

(** [closeOnce]: only the first error is sent to the run loop. *)
Definition closeWith (e : option error) (remote : bool) : M unit := mset (fun s =>
  match ses_closeErr s with
  | Some _ => s
  | None => ses_set_signals s (ses_lastPathsFrameSent s) (Some (e, remote)) (ses_sendingScheduled s) (ses_written s)
  end).
Definition closeLocal (e : option error) : M unit := closeWith e false.
Definition closeRemote (e : option error) : M unit := closeWith e true.

(** *** Frames for sending *)

(** The path as the packer sees it. *)
Definition pack_path s p : packPath :=
  mkPath (p_pathID p) (p_leastUnacked p) (p_packetNumberGenerator p) (ses_handshakeComplete s).

(** The packer looks at the path for STOP_WAITING and ACK frames alone. *)
Definition queueControlFrame (frame : Frame) (id : Z) : M unit := fun s =>
  match ses_paths s !! id with
  | Some p => Some (ses_set_packer s (QueueControlFrame (ses_packer s) frame (pack_path s p)), Ok tt)
  | None =>
      match frame with
      | FStopWaiting _ | FAck _ => Some (s, Panic)
      | f => Some (ses_set_packer s (set_controlFrames (ses_packer s) (pk_controlFrames (ses_packer s) ++ [f])), Ok tt)
      end
  end.

Definition queueResetStreamFrame (id offset : Z) : M unit :=
  queueControlFrame (FRstStream {| rst_StreamID := id; rst_ErrorCode := 0; rst_ByteOffset := offset |}) InitialPathID ;!
  scheduleSending.

(** The callbacks of a stream, in the order it calls them. *)
Fixpoint stream_callbacks (evs : list stream_event) : M unit :=
  match evs with
  | [] => mret tt
  | EvData :: evs => scheduleSending ;! stream_callbacks evs
  | EvReset id offset :: evs => queueResetStreamFrame id offset ;! stream_callbacks evs
  end.

Definition path_info (e : Z * path C) : Z * bool * RTTStats :=
  (fst e, p_potentiallyFailed (snd e), p_rttStats (snd e)).

(** The entries of the map, in the order [order] of its keys. *)
Definition in_order (order : list Z) s : list (Z * path C) :=
  omap (fun id => pair id <$> ses_paths s !! id) order.

Definition schedulePathsFrame w : M unit := mset (fun s =>
  ses_set_framer
    (ses_set_signals s (w_now w) (ses_closeErr s) (ses_sendingScheduled s) (ses_written s))
    (AddPathsFrameForTransmission (ses_framer s) (map path_info (in_order (w_pathOrder w) s)))).

Definition getWindowUpdateFrames w (force : bool) : M (list WindowUpdateFrame) := fun s =>
  let '(f, updates) := GetWindowUpdates (ses_env s) (ses_fcm s) force (w_now w) (w_streamOrder w) in
  Some (ses_set_streams s (ses_streams s) f,
    Ok (map (fun u => {| WireControl.wu_StreamID := wu_StreamID u; wu_ByteOffset := wu_Offset u |}) updates)).

(** *** Sending *)

(** An operation of the packer for the path [id]. *)
Definition packing {A} w (id : Z)
    (pack : fcEnv P -> CryptoSetup -> Z -> option (Z * Z) -> packState -> packState * result A) : M A := fun s =>
  match ses_paths s !! id with
  | None => Some (s, Panic)
  | Some p =>
      let rand := w_rand w id (png_Peek (p_packetNumberGenerator p)) in
      let '(ps, r) := pack (ses_env s) (w_crypto w) (w_now w) rand
        (mkPS (ses_packer s) (ses_framer s) (ses_streams s) (ses_fcm s) (pack_path s p)) in
      let p := set_generator_of p (pth_packetNumberGenerator (ps_path ps)) (pth_leastUnacked (ps_path ps)) in
      Some (ses_set_paths (ses_set_sending s (ps_framer ps) (ps_streams ps) (ps_fcm ps) (ps_packer ps))
              (<[id := p]> (ses_paths s)), r)
  end.

(** The goroutine of the path is told that a packet was sent, and resets its timer. *)
Definition sendPackedPacket w (packet : packedPacket) (id : Z) : M unit :=
  let! p := get_path id in
  let '(h, err) := SentPacket (p_sentPacketHandler p)
    {| pk_PacketNumber := pkt_number packet; pk_Frames := pkt_frames packet; pk_Length := zlen (pkt_raw packet);
       pk_EncryptionLevel := pkt_encryptionLevel packet; pk_SendTime := zeroTime |} (w_now w) in
  put_path id (set_sentPacketHandler p h) ;!
  merr err ;!
  mset (fun s => ses_set_signals s (ses_lastPathsFrameSent s) (ses_closeErr s) (ses_sendingScheduled s)
          (ses_written s ++ [(id, pkt_raw packet)])) ;!
  merr (w_write w id (pkt_raw packet)).

Definition sendPing w (id : Z) : M unit :=
  let! p := get_path id in
  let! packet := packing w id (fun env crypto now rand ps =>
    PackPing env crypto now rand ps mkPingFrame (GetLeastUnacked (p_sentPacketHandler p))) in
  match packet with
  | None => mfail (errors_New "Session BUG: expected ping packet not to be nil")
  | Some packet => sendPackedPacket w packet id
  end.

(** *** The path manager *)

Definition set_pm (pm : pathManager) : M unit := mset (fun s => ses_set_manager s (ses_closedPaths s) (Some pm)).
Definition get_pm : M pathManager := fun s =>
  match ses_pathManager s with Some pm => Some (s, Ok pm) | None => Some (s, Panic) end.

Definition same_conn (locAddr remAddr : UDPAddr) p : bool :=
  bool_decide (addr_String locAddr = addr_String (conn_LocalAddr (p_conn p))) &&
  bool_decide (addr_String remAddr = addr_String (conn_RemoteAddr (p_conn p))).

Definition createPath w (locAddr remAddr : UDPAddr) : M unit :=
  let! exists_ := mget (fun s => existsb (fun e => same_conn locAddr remAddr e.2) (map_to_list (ses_paths s))) in
  if exists_ : bool then mret tt
  else
  let! pm := get_pm in
  let! version := mget ses_version in
  let id := pm_nxtPathID pm in
  put_path id (path_setup id (mkConn locAddr remAddr) version (w_controller w id) (w_now w)) ;!
  set_pm (mkPM (u8 (id + 2)) (pm_remoteAddrs4 pm) (pm_remoteAddrs6 pm) (pm_advertisedLocAddrs pm) (pm_localAddrs pm)) ;!
  sendPing w id.

Fixpoint mforeach {A} (f : A -> M unit) (l : list A) : M unit :=
  match l with
  | [] => mret tt
  | a :: l => f a ;! mforeach f l
  end.

Definition advertiseAddress (locAddr : UDPAddr) : M unit :=
  let! pm := get_pm in
  if bool_decide (addr_String locAddr ∈ pm_advertisedLocAddrs pm) then mret tt
  else
  mset (fun s => ses_set_framer s (AddAddressForTransmission (ses_framer s) (getIPVersion (ua_IP locAddr)) locAddr)) ;!
  set_pm (mkPM (pm_nxtPathID pm) (pm_remoteAddrs4 pm) (pm_remoteAddrs6 pm)
            (pm_advertisedLocAddrs pm ++ [addr_String locAddr]) (pm_localAddrs pm)).

Definition advertiseAddresses : M unit :=
  let! pm := get_pm in mforeach advertiseAddress (pm_localAddrs pm).

Definition createPaths w : M unit :=
  let! perspective := mget ses_perspective in
  match perspective with
  | PerspectiveServer => advertiseAddresses
  | PerspectiveClient =>
      let! pm := get_pm in
      mforeach (fun locAddr =>
        mforeach (createPath w locAddr)
          (if getIPVersion (ua_IP locAddr) =? 4 then pm_remoteAddrs4 pm else pm_remoteAddrs6 pm)) (pm_localAddrs pm) ;!
      schedulePathsFrame w
  end.

Definition handleAddAddressFrame w (f : AddAddressFrame) : M unit :=
  let! pm := get_pm in
  (if aa_IPVersion f =? 4 then
     set_pm (mkPM (pm_nxtPathID pm) (pm_remoteAddrs4 pm ++ [aa_Addr f]) (pm_remoteAddrs6 pm)
               (pm_advertisedLocAddrs pm) (pm_localAddrs pm))
   else if aa_IPVersion f =? 6 then
     set_pm (mkPM (pm_nxtPathID pm) (pm_remoteAddrs4 pm) (pm_remoteAddrs6 pm ++ [aa_Addr f])
               (pm_advertisedLocAddrs pm) (pm_localAddrs pm))
   else mfail ErrUnknownIPVersion) ;!
  let! create := mget ses_createPaths in
  if create : bool then createPaths w else mret tt.

(** The path is closed by its goroutine, to which the path manager sends; it is taken
    to do so at once. *)
Definition pm_closePath (id : Z) : M unit := mset (fun s =>
  match ses_paths s !! id with
  | Some p => if p_open p then ses_set_paths s (<[id := path_close p]> (ses_paths s)) else s
  | None => s
  end).

(** [rcvPconn] is the address of the socket the packet came from. *)
Definition createPathFromRemote w (pathID : Z) (rcvPconn remoteAddr : UDPAddr) : M unit :=
  let! known := mget (fun s => bool_decide (is_Some (ses_paths s !! pathID))) in
  if known : bool then mfail (errors_New "trying to create already existing path")
  else
  let! perspective := mget ses_perspective in
  if bool_decide (perspective = PerspectiveClient) && negb (pathID mod 2 =? 0)
  then mfail (errors_New "server tries to create odd pathID")
  else if bool_decide (perspective = PerspectiveServer) && (pathID mod 2 =? 0)
  then mfail (errors_New "client tries to create even pathID")
  else
  let! version := mget ses_version in
  put_path pathID (path_setup pathID (mkConn rcvPconn remoteAddr) version (w_controller w pathID) (w_now w)).

(** *** Frames that arrive *)

Section fuel.
(** For the loop of [GetOrOpenStream]. *)
Variable fuel : nat.

Definition get_or_open (id : Z) : M got := fun s =>
  match GetOrOpenStream (session_newStream (ses_env s)) fuel (ses_params s) (ses_streams s) (ses_fcm s) id with
  | None => None
  | Some (m, f, g) => Some (ses_set_streams s m f, Ok g)
  end.

Definition add_stream_frame (id : Z) (frame : StreamFrame) : M unit := fun s =>
  match sm_streams (ses_streams s) !! id with
  | None => Some (s, Panic)
  | Some str =>
      match AddStreamFrame str (ses_fcm s) frame with
      | Ok (str, f, err) => merr err (ses_set_streams s (set_stream (ses_streams s) id str) f)
      | Err e => Some (s, Err e)
      | Panic => Some (s, Panic)
      end
  end.

Definition handleStreamFrame (frame : StreamFrame) : M unit :=
  let! str := get_or_open (sf_StreamID frame) in
  match str with
  | GotErr e => mfail e
  | GotNil => mret tt
  | GotStream id => add_stream_frame id frame
  end.

Definition update_window (streamID offset : Z) : M unit := fun s =>
  let '(f, r) := UpdateWindow (ses_fcm s) streamID offset in
  let s := ses_set_streams s (ses_streams s) f in
  Some (s, match r with Ok _ => Ok tt | Err e => Err e | Panic => Panic end).

Definition handleWindowUpdateFrame (frame : WindowUpdateFrame) : M unit :=
  (if negb (WireControl.wu_StreamID frame =? 0) then
     let! str := get_or_open (WireControl.wu_StreamID frame) in
     match str with
     | GotErr e => mfail e
     | GotNil => mfail errWindowUpdateOnClosedStream
     | GotStream _ => mret tt
     end
   else mret tt) ;!
  update_window (WireControl.wu_StreamID frame) (wu_ByteOffset frame).

Definition register_remote_error (id : Z) (err : error) : M unit := fun s =>
  match sm_streams (ses_streams s) !! id with
  | None => Some (s, Panic)
  | Some str =>
      let '(str, evs) := RegisterRemoteError str (Some err) in
      stream_callbacks evs (ses_set_streams s (set_stream (ses_streams s) id str) (ses_fcm s))
  end.

Definition handleRstStreamFrame (frame : RstStreamFrame) : M unit :=
  let! str := get_or_open (rst_StreamID frame) in
  match str with
  | GotErr e => mfail e
  | GotNil => mfail errRstStreamOnInvalidStream
  | GotStream id =>
      register_remote_error id (errors_New ("RST_STREAM received with code " +:+ pretty (rst_ErrorCode frame))) ;!
      (fun s => let '(f, err) := ResetStream (ses_fcm s) (rst_StreamID frame) (rst_ByteOffset frame) in
                merr err (ses_set_streams s (ses_streams s) f))
  end.

(** An operation of the sent packet handler of a path that may fail. *)
Definition sent_handler (id : Z) (op : path C -> result (sentPacketHandler C * option error)) : M unit :=
  let! p := get_path id in
  fun s => match op p with
  | Ok (h, err) => merr err (ses_set_paths s (<[id := set_sentPacketHandler p h]> (ses_paths s)))
  | Err e => Some (s, Err e)
  | Panic => Some (s, Panic)
  end.

(** [s.rttStats.UpdateSessionRTT], on the statistics of the initial path. *)
Definition update_session_rtt (rtt : Z) : M unit :=
  let! p0 := get_path InitialPathID in
  let h := p_sentPacketHandler p0 in
  if rtt >? rtt_smoothedRTT (sp_rttStats h)
  then put_path InitialPathID (set_sentPacketHandler p0 (set_rttStats h (UpdateSessionRTT (sp_rttStats h) rtt)))
  else mret tt.

(** Without what the learning schedulers do, which is in Learning.v and Sac.v. *)
Definition handleAckFrame w (frame : AckFrame) : M unit :=
  let id := ack_PathID frame in
  sent_handler id (fun p => ReceivedAck (p_sentPacketHandler p) frame (p_lastRcvdPacketNumber p)
    (p_lastNetworkActivityTime p) (w_now w)) ;!
  let! p := get_path id in
  update_session_rtt (rtt_smoothedRTT (p_rttStats p)).

Definition closePath (id : Z) (sendClosePathFrame : bool) : M unit :=
  let! known := mget (fun s => bool_decide (is_Some (ses_paths s !! id))) in
  if negb known then mfail (errors_New "Unknown path ID to close")
  else
  let! closed := mget (fun s => bool_decide (id ∈ ses_closedPaths s)) in
  if closed : bool then mret tt
  else
  let! pm := mget ses_pathManager in
  (match pm with Some _ => pm_closePath id | None => mret tt end) ;!
  mset (fun s => ses_set_manager s ({[ id ]} ∪ ses_closedPaths s) (ses_pathManager s)) ;!
  if negb sendClosePathFrame then mret tt
  else
  let! p := get_path id in
  let p := set_sentPacketHandler p (SetInflightAsLost (p_sentPacketHandler p)) in
  put_path id p ;!
  match path_GetClosePathFrame p with
  | Ok f => mset (fun s => ses_set_framer s (AddClosePathFrameForTransmission (ses_framer s) f))
  | Err e => mfail e
  | Panic => mpanic
  end.

Definition handleClosePathFrame w (frame : ClosePathFrame) : M unit :=
  closePath (cp_PathID frame) false ;!
  sent_handler (cp_PathID frame) (fun p => ReceivedClosePath (p_sentPacketHandler p) frame (p_lastRcvdPacketNumber p)
    (p_lastNetworkActivityTime p) (w_now w)).

Definition setRemoteRTT (id rtt : Z) : M unit :=
  mset (fun s => ses_set_remoteRTTs s (<[id := rtt]> (ses_remoteRTTs s))) ;!
  if rtt >=? 30 * (60 * Second) then
    let! p := get_path id in put_path id (set_failed p true)
  else mret tt.

(** The loop of [handleFrames] over a PATHS frame. *)
Definition handlePathsFrame (f : PathsFrame) : M unit :=
  mforeach (fun i =>
    match pf_PathIDs f !! i, pf_RemoteRTTs f !! i with
    | Some id, Some rtt => setRemoteRTT id rtt
    | _, _ => mpanic
    end) (seq 0 (Z.to_nat (pf_NumPaths f))).

Definition bytes_string (l : list Z) : string := String.string_of_list_ascii (map (fun b => Ascii.ascii_of_N (Z.to_N b)) l).

(** What a frame does; [id] is the path of the packet. *)
Definition handleFrame w (id : Z) (ff : Frame) : M unit :=
  match ff with
  | FStream frame => handleStreamFrame frame
  | FAck frame => handleAckFrame w frame
  | FConnectionClose frame => closeRemote (Some (QuicError (cc_ErrorCode frame) (bytes_string (cc_ReasonPhrase frame))))
  | FGoaway _ => mfail (errors_New "unimplemented: handling GOAWAY frames")
  | FStopWaiting frame =>
      let! p := get_path id in
      put_path id (set_receivedPacketHandler p (SetLowerLimit (p_receivedPacketHandler p) (sw_LeastUnacked frame -u 1)))
  | FRstStream frame => handleRstStreamFrame frame
  | FWindowUpdate frame => handleWindowUpdateFrame frame
  | FBlocked _ => mset (fun s => ses_set_peerBlocked s true)
  | FPing _ => mret tt
  | FAddAddress frame =>
      let! pm := mget ses_pathManager in
      match pm with
      | Some _ =>
          let! err := mtry (handleAddAddressFrame w frame) in
          schedulePathsFrame w ;! merr err
      | None => mret tt
      end
  | FClosePath frame => let! _ := mtry (handleClosePathFrame w frame) in mret tt
  | FPaths frame => handlePathsFrame frame
  end.

(** The errors that do not end the connection. *)
Definition ignoredError (e : error) : bool :=
  bool_decide (e = ErrDuplicateOrOutOfOrderAck) || bool_decide (e = errRstStreamOnInvalidStream) ||
  bool_decide (e = errWindowUpdateOnClosedStream).

Fixpoint handleFrames w (fs : list Frame) (id : Z) : M unit :=
  match fs with
  | [] => mret tt
  | ff :: fs =>
      let! err := mtry (handleFrame w id ff) in
      match err with
      | Some e => if ignoredError e then handleFrames w fs id else mfail e
      | None => handleFrames w fs id
      end
  end.

(** [session.handlePacketImpl]: the path of the packet is created when it is new;
    [rcvTime] is not zero.  The diversification nonce goes to the crypto setup. *)
Definition handlePacketImpl (Open : AeadOpen) w (hdr : PublicHeader) (raw data : list Z) (rcvPconn remoteAddr : UDPAddr)
    (rcvTime : Z) : M unit :=
  let id := ph_PathID hdr in
  let! known := mget (fun s => bool_decide (is_Some (ses_paths s !! id))) in
  (if known : bool then mret tt else
   let! _ := get_pm in createPathFromRemote w id rcvPconn remoteAddr) ;!
  let! p := get_path id in
  let! perspective := mget ses_perspective in
  let! version := mget ses_version in
  match path_handlePacketImpl Open perspective version p hdr raw data remoteAddr rcvTime (w_now w) with
  | Panic => mpanic
  | Err e => mfail e
  | Ok (p, r) =>
      put_path id p ;!
      match r with
      | Ignored => mret tt
      | Rejected e => mfail e
      | Accepted _ frames => handleFrames w frames id
      end
  end.
End fuel.

(** *** Streams *)

Definition removeFinished : @streamLambda stream flowControlManager := fun m f id str =>
  if str_finished str then
    match sm_RemoveStream m id with
    | (m, Some e) => (m, f, (false, Some e))
    | (m, None) => (m, RemoveStream f id, (true, None))
    end
  else (m, f, (true, None)).

Definition garbageCollectStreams : M unit := mset (fun s =>
  let '(m, f, _) := Iterate removeFinished (ses_streams s) (ses_fcm s) in ses_set_streams s m f).

(** *** Timers *)

(** Whether [OnAlarm] calls the callback of the path. *)
Definition callsRTO (h : sentPacketHandler C) : bool :=
  hasOutstandingRetransmittablePacket h && IsZero (sp_lossTime h) && negb (sp_tlpCount h <? maxTailLossProbes).

(** The run loop, when the timer of the path [id] fires. *)
Definition handlePathTimer w (id : Z) : M unit :=
  let! p := get_path id in
  let h := p_sentPacketHandler p in
  if negb (IsZero (sp_alarm h)) && (sp_alarm h <? w_now w) then
    let '(p, failed) := if callsRTO h then onRTO p (sp_lastSentTime h) else (p, false) in
    put_path id p ;!
    (if failed : bool then schedulePathsFrame w else mret tt) ;!
    put_path id (set_sentPacketHandler p
      (OnAlarm h (Some (fun lastSentTime => p_lastNetworkActivityTime p <? lastSentTime)) (w_now w)))
  else mret tt.

(** *** A new session *)

(** [pathManager.setup]. *)
Definition newPathManager (perspective : Perspective) (localAddrs : list UDPAddr) (remAddr : UDPAddr) : pathManager :=
  let v4 := getIPVersion (ua_IP remAddr) =? 4 in
  mkPM (match perspective with PerspectiveClient => 1 | PerspectiveServer => 2 end)
    (if v4 then [remAddr] else []) (if v4 then [] else [remAddr]) [] localAddrs.

(** [session.setup]: the initial path, the stream for the handshake and the packer.
    Without a [pconnMgr] there is no path manager. *)
Definition session_setup (perspective : Perspective) (version connectionID : Z) (createPaths : bool) (params : P)
    (localAddrs : option (list UDPAddr)) (c : conn) (name : schedulerName) w : session C P :=
  let p0 := path_setup InitialPathID c version (w_controller w InitialPathID) (w_now w) in
  let env := mkEnv params (p_rttStats p0) ∅ in
  let m := newStreamsMap perspective in
  let f := NewFlowControlManager env in
  let '(m, f) := match perspective with
    | PerspectiveServer =>
        match GetOrOpenStream (session_newStream env) 2 params m f 1 with
        | Some (m, f, _) => ((AcceptStream m).1, f)
        | None => (m, f)
        end
    | PerspectiveClient => (OpenStream (session_newStream env) params m f).1
    end in
  mkSess perspective version createPaths params {[ InitialPathID := p0 ]} ∅
    ((fun l => newPathManager perspective l (conn_RemoteAddr c)) <$> localAddrs)
    m newStreamFramer f (newPacketPacker connectionID perspective version) ∅ false false zeroTime None false []
    name (mkSch ∅ 0).
End session.
