(* ===== verification/Sending.v ===== *)
(** * Sending the packets of a session (scheduler.go)

    The loop that sends: what was lost goes back to the queues, a path is selected, its
    packet is composed and sent, until there is no data or no path with room. *)
From S2P Require Import Prelude Qerr ByteOrder Protocol WireStream WireControl AckRanges WireAck PublicHeader.
From S2P Require Import Frames ReceivedPackets Float32 RttStats SentPackets ConnParams FlowControl Congestion.
From S2P Require Import StreamFrameSorter StreamsMap Stream StreamFramer PacketNumberGenerator PacketPacker Path.
From S2P Require Import Scheduler Session.

Section sending.
Context {C P : Type} `{SendAlgorithm C} `{ConnectionParametersManager P}.
Implicit Types s : session C P.
Implicit Types p : path C.
Implicit Types w : world C.
#[local] Notation M := (@M C P).
#[local] Notation "'let!' x ':=' m 'in' k" := (mbind m (fun x => k)) (at level 200, x binder, right associativity).
#[local] Notation "m ';!' k" := (mbind m (fun _ => k)) (at level 100, right associativity).

(** *** Retransmissions *)

(** [retransmitLoop]: the first packet in the queues of the paths. *)
Fixpoint dequeueRetransmission (order : list Z) : M (option (Z * Packet)) :=
  match order with
  | [] => mret None
  | id :: order =>
      let! p := get_path id in
      match DequeuePacketForRetransmission (p_sentPacketHandler p) with
      | (h, Some packet) => put_path id (set_sentPacketHandler p h) ;! mret (Some (id, packet))
      | (_, None) => dequeueRetransmission order
      end
  end.

(** A frame of a lost packet, back to where it is sent from. *)
Definition retransmitFrame w (id : Z) (frame : Frame) : M unit :=
  match frame with
  | FStream f => mset (fun s => ses_set_framer s (AddFrameForRetransmission (ses_framer s) f))
  | FWindowUpdate f =>
      let! window := mget (fun s => GetReceiveWindow (ses_fcm s) (WireControl.wu_StreamID f)) in
      match window with
      | Ok currentOffset =>
          if wu_ByteOffset f >=? currentOffset then queueControlFrame (FWindowUpdate f) id else mret tt
      | _ => mret tt
      end
  | FPaths _ => schedulePathsFrame w
  | frame => queueControlFrame frame id
  end.

(** One round per order in [orders]; without an order left it is out of fuel.  The
    result tells whether there was a retransmission, the handshake packet to send
    again, and the path of the last packet. *)
Fixpoint getRetransmission w (orders : list (list Z)) (hasRetransmission : bool) (pth : option Z) :
    M (bool * option Packet * option Z) :=
  match orders with
  | [] => fun _ => None
  | order :: orders =>
      let! dequeued := dequeueRetransmission order in
      match dequeued with
      | None => mret (hasRetransmission, None, pth)
      | Some (id, packet) =>
          let! handshakeComplete := mget ses_handshakeComplete in
          if negb (bool_decide (pk_EncryptionLevel packet = EncryptionForwardSecure)) then
            if handshakeComplete : bool then getRetransmission w orders true (Some id)
            else mret (true, Some packet, Some id)
          else
          mforeach (retransmitFrame w id) (GetFramesForRetransmission packet) ;!
          getRetransmission w orders true (Some id)
      end
  end.

(** *** Selecting *)

Definition selectPath w (hasRetransmission hasStreamRetransmission : bool) (fromPth : option Z) : M (option Z) := fun s =>
  let range := in_order (w_pathOrder w) s in
  let from := fromPth ≫= fun id => ses_paths s !! id in
  let finish r := match r with
    | Ok (sch, sel) => Some (ses_set_scheduler s sch, Ok sel)
    | Err e => Some (s, Err e)
    | Panic => Some (s, Panic)
    end in
  let sch := ses_scheduler s in
  match ses_schedulerName s with
  | SchRTT => finish (selectPathLowLatency sch (ses_paths s) hasRetransmission hasStreamRetransmission from range range)
  | SchBLEST => finish (selectBLEST (ses_env s) (ses_fcm s) sch (ses_paths s) hasRetransmission
      hasStreamRetransmission from range range)
  | SchECF => finish (selectECF (ses_streams s) sch (ses_paths s) hasRetransmission hasStreamRetransmission
      from range range)
  | SchRandom => Some (s, selectPathRandom sch (ses_paths s) hasRetransmission hasStreamRetransmission from
      (w_draw w) range range)
  end.

(** *** Packets *)

Definition incQuota (id : Z) : M unit := mset (fun s =>
  let sch := ses_scheduler s in
  ses_set_scheduler s (mkSch (<[id := quota (sch_quotas sch) id +u 1]> (sch_quotas sch)) (sch_waiting sch))).

(** [None] when there was nothing to send. *)
Definition performPacketSending w (windowUpdateFrames : list WindowUpdateFrame) (id : Z) : M (option Packet) :=
  let! p := get_path id in
  (if ShouldSendRetransmittablePacket (p_sentPacketHandler p) then queueControlFrame (FPing mkPingFrame) id
   else mret tt) ;!
  let! packet := packing w id PackPacket in
  match packet with
  | None => mret None
  | Some packet =>
      sendPackedPacket w packet id ;!
      mforeach (fun f => queueControlFrame (FWindowUpdate f) id) windowUpdateFrames ;!
      incQuota id ;!
      mret (Some {| pk_PacketNumber := pkt_number packet; pk_Frames := pkt_frames packet;
                    pk_Length := zlen (pkt_raw packet); pk_EncryptionLevel := pkt_encryptionLevel packet;
                    pk_SendTime := zeroTime |})
  end.

(** The handlers of a path give the next ACK or STOP_WAITING frame. *)
Definition next_ack w (id : Z) : M (option AckFrame) :=
  let! p := get_path id in
  match path_GetAckFrame p (w_now w) with
  | Ok (p, ack) => put_path id p ;! mret ack
  | Err e => mfail e
  | Panic => mpanic
  end.

Definition next_stop_waiting (id : Z) (force : bool) : M (option StopWaitingFrame) :=
  let! p := get_path id in
  let '(p, swf) := path_GetStopWaitingFrame p force in
  put_path id p ;! mret swf.

Definition queue_stop_waiting (id : Z) (swf : option StopWaitingFrame) : M unit :=
  match swf with Some f => queueControlFrame (FStopWaiting f) id | None => mret tt end.

(** As in the code where the frame is not compared with nil: a nil frame removes the
    one that is queued. *)
Definition queue_stop_waiting_nil (id : Z) (swf : option StopWaitingFrame) : M unit :=
  match swf with
  | Some f => queueControlFrame (FStopWaiting f) id
  | None => mset (fun s => ses_set_packer s (set_stopWaiting (ses_packer s) (delete id (pk_stopWaiting (ses_packer s)))))
  end.

(** [s.packer.QueueControlFrame(ack, pth)], where a nil frame removes the one that is
    queued. *)
Definition queue_ack (id : Z) (ack : option AckFrame) : M unit :=
  match ack with
  | Some f => queueControlFrame (FAck f) id
  | None => mset (fun s => ses_set_packer s (set_ackFrame (ses_packer s) (delete id (pk_ackFrame (ses_packer s)))))
  end.

(** A nil packet is dereferenced. *)
Definition send_packet w (packet : option packedPacket) (id : Z) : M unit :=
  match packet with Some packet => sendPackedPacket w packet id | None => mpanic end.

Definition ackPath w (windowUpdateFrames : list WindowUpdateFrame) (id : Z) : M unit :=
  let! ack := next_ack w id in
  mforeach (fun f => queueControlFrame (FWindowUpdate f) id) windowUpdateFrames ;!
  match ack, windowUpdateFrames with
  | None, [] => mret tt
  | _, _ =>
      if (id =? InitialPathID) && bool_decide (ack = None) then mret tt
      else
      let! swf := next_stop_waiting id false in
      queue_stop_waiting id swf ;!
      queue_ack id ack ;!
      let! packet := match ack with
        | Some _ => packing w id PackAckPacket
        | None => packing w id PackPacket
        end in
      send_packet w packet id
  end.

Definition ackRemainingPaths w (totalWindowUpdateFrames : list WindowUpdateFrame) : M unit :=
  let! windowUpdateFrames := match totalWindowUpdateFrames with
    | [] => let! blocked := mget ses_peerBlocked in getWindowUpdateFrames w blocked
    | fs => mret fs
    end in
  mforeach (ackPath w windowUpdateFrames) (w_pathOrder w) ;!
  mset (fun s => ses_set_peerBlocked s false).

(** [for f := pop(); f != nil; f = pop()]: the queue gets shorter. *)
Fixpoint queueAll {F} (fuel : nat) (pop : streamFramer -> streamFramer * option F) (frame : F -> Frame) (id : Z) : M unit :=
  match fuel with
  | O => mret tt
  | S fuel =>
      let! fr := mget ses_framer in
      match pop fr with
      | (fr, Some f) =>
          mset (fun s => ses_set_framer s fr) ;! queueControlFrame (frame f) id ;! queueAll fuel pop frame id
      | (_, None) => mret tt
      end
  end.

Definition queueSpecialFrames (id : Z) : M unit :=
  let! fr := mget ses_framer in
  queueAll (length (sfr_closePathFrameQueue fr)) PopClosePathFrame FClosePath id ;!
  queueAll (length (sfr_addAddressFrameQueue fr)) PopAddAddressFrame FAddAddress id ;!
  queueAll 1 PopPathsFrame FPaths id.

(** Whether the packet is sent on another path too: the first path of the range on
    which less was sent. *)
Definition duplicatePacket w (id : Z) (pkt : Packet) : M unit :=
  let! p := get_path id in
  if pathRTT p =? 0 then
    let! again := mget (fun s => existsb (fun e =>
      negb ((e.1 =? InitialPathID) || (e.1 =? p_pathID p)) &&
      (quota (sch_quotas (ses_scheduler s)) e.1 <? quota (sch_quotas (ses_scheduler s)) (p_pathID p)) &&
      SendingAllowed (p_sentPacketHandler e.2)) (in_order (w_pathOrder w) s)) in
    if again : bool then put_path id (set_sentPacketHandler p (DuplicatePacket (p_sentPacketHandler p) pkt))
    else mret tt
  else mret tt.

(** The loop of [sendPacket]; one world per iteration, without one left it is out of
    fuel. *)
Fixpoint sendLoop (ws : list (world C)) (windowUpdateFrames : list WindowUpdateFrame) : M unit :=
  match ws with
  | [] => fun _ => None
  | w :: ws =>
      let! ret := getRetransmission w (w_retransmitOrders w) false None in
      let '(hasRetransmission, retransmitHandshakePacket, fromPth) := ret in
      let! hasStreamRetransmission := mget (fun s => HasFramesForRetransmission (ses_framer s)) in
      let! pth := selectPath w hasRetransmission hasStreamRetransmission fromPth in
      match pth with
      | None =>
          let! windowUpdateFrames := getWindowUpdateFrames w false in
          ackRemainingPaths w windowUpdateFrames
      | Some id =>
          match retransmitHandshakePacket with
          | Some handshakePacket =>
              let! swf := next_stop_waiting id true in
              queue_stop_waiting_nil id swf ;!
              let! packet := packing w id (fun env crypto now rand ps =>
                PackHandshakeRetransmission env crypto now rand ps handshakePacket) in
              send_packet w packet id ;!
              sendLoop ws windowUpdateFrames
          | None =>
              let! ack := next_ack w id in
              match ack with Some _ => queue_ack id ack | None => mret tt end ;!
              (if bool_decide (ack <> None) || hasStreamRetransmission then
                 let! swf := next_stop_waiting id hasStreamRetransmission in queue_stop_waiting id swf
               else mret tt) ;!
              queueSpecialFrames id ;!
              let! sent := performPacketSending w windowUpdateFrames id in
              match sent with
              | None => ackRemainingPaths w []
              | Some pkt =>
                  duplicatePacket w id pkt ;!
                  let! failed := mget (fun s => match fromPth ≫= fun id => ses_paths s !! id with
                    | Some p => p_potentiallyFailed p
                    | None => false
                    end) in
                  match fromPth with
                  | Some from => if failed : bool then sendPing w from else mret tt
                  | None => mret tt
                  end ;!
                  sendLoop ws []
              end
          end
      end
  end.

Definition sendPacket w (ws : list (world C)) : M unit :=
  mset (fun s => ses_set_paths s ((fun p => set_generator_of p (p_packetNumberGenerator p)
    (GetLeastUnacked (p_sentPacketHandler p))) <$> ses_paths s)) ;!
  let! windowUpdateFrames := getWindowUpdateFrames w false in
  mforeach (fun f => mset (fun s => ses_set_packer s
    (set_controlFrames (ses_packer s) (pk_controlFrames (ses_packer s) ++ [FWindowUpdate f])))) windowUpdateFrames ;!
  sendLoop ws windowUpdateFrames.
End sending.
