(* ===== verification/SessionProofs.v ===== *)
(** * Sessions evolve

    What every operation of a session keeps: its paths stay and stay under their own
    ID, what is closed stays closed, the first error that closes it stays the one, and
    nothing that was written is taken back. *)
From S2P Require Import Prelude Qerr ByteOrder Protocol WireStream WireControl AckRanges WireAck PublicHeader.
From S2P Require Import Frames ReceivedPackets Float32 RttStats SentPackets ConnParams FlowControl Congestion.
From S2P Require Import StreamFrameSorter StreamsMap Stream StreamFramer PacketNumberGenerator PacketPacker Path.
From S2P Require Import Scheduler Session Sending StreamsMapProofs.

Create HintDb session.

Section evolution.
Context {C P : Type} `{SendAlgorithm C} `{ConnectionParametersManager P}.
Implicit Types s : session C P.
Implicit Types p : path C.
Implicit Types w : world C.

(** A path is in the map under its own ID, so that the key stands for the pointer. *)
Definition keyed s : Prop := forall id p, ses_paths s !! id = Some p -> p_pathID p = id.

(** The IDs of the paths a client creates are odd and go up in steps of two, until the last one, 255, is given out;
    then the counter of the path manager wraps around. *)
Definition own_ids s : Prop :=
  ses_perspective s = PerspectiveClient -> ses_paths s !! 255 = None -> forall pm, ses_pathManager s = Some pm ->
  0 < pm_nxtPathID pm < 256 /\ pm_nxtPathID pm mod 2 = 1 /\
  forall id, is_Some (ses_paths s !! id) -> id mod 2 = 1 -> id < pm_nxtPathID pm.

(** [p'] is the path that was [p] before: it has the same socket, it has not forgotten the highest packet number it
    received, and when it was closed it still is. *)
Record continues p p' : Prop := {
  co_pathID : p_pathID p' = p_pathID p;
  co_local : conn_LocalAddr (p_conn p') = conn_LocalAddr (p_conn p);
  co_largest : p_largestRcvdPacketNumber p <= p_largestRcvdPacketNumber p';
  co_closed : p_open p = false -> p_open p' = false;
}.

#[local] Instance continues_preorder : PreOrder continues.
Proof. split; [intros p; by constructor|]. intros p1 p2 p3 [] []. constructor; try congruence; [lia|auto]. Qed.

Record evolves s s' : Prop := {
  ev_perspective : ses_perspective s' = ses_perspective s;
  ev_version : ses_version s' = ses_version s;
  ev_params : ses_params s' = ses_params s;
  ev_paths : forall id, is_Some (ses_paths s !! id) -> is_Some (ses_paths s' !! id);
  ev_own : own_ids s -> own_ids s';
  ev_same : own_ids s -> ses_perspective s = PerspectiveServer \/ ses_paths s' !! 255 = None ->
    forall id p, ses_paths s !! id = Some p -> exists p', ses_paths s' !! id = Some p' /\ continues p p';
  ev_closed : ses_closedPaths s ⊆ ses_closedPaths s';
  ev_closeErr : forall e, ses_closeErr s = Some e -> ses_closeErr s' = Some e;
  ev_written : ses_written s `prefix_of` ses_written s';
  ev_complete : ses_handshakeComplete s = true -> ses_handshakeComplete s' = true;
}.

#[local] Instance evolves_refl : Reflexive evolves.
Proof. constructor; try done. intros _ _ id p Hp. by exists p. Qed.
#[local] Instance evolves_trans : Transitive evolves.
Proof.
  intros s1 s2 s3 E1 E2. constructor.
  4: intros id Hi; by apply E2, E1.
  4: intros Ho; by apply E2, E1.
  4: { intros Ho Hw id p Hp. destruct (ev_same _ _ E1 Ho) with id p as (p2 & Hp2 & C1); [|done|].
       - destruct Hw as [Hw|Hw]; [by left|right]. apply eq_None_not_Some. intros Hs. apply (ev_paths _ _ E2) in Hs.
         rewrite Hw in Hs. by destruct Hs.
       - destruct (ev_same _ _ E2 (ev_own _ _ E1 Ho)) with id p2 as (p3 & Hp3 & C2); [|done|].
         + rewrite (ev_perspective _ _ E1). done.
         + exists p3. split; [done|by etrans]. }
  all: destruct E1, E2; try congruence; eauto; by etrans.
Qed.

(** What an operation keeps, from a state of which something is known. *)
Definition keeps_if {A} (Pre : session C P -> Prop) (m : @M C P A) : Prop :=
  forall s s' r, keyed s -> Pre s -> m s = Some (s', r) -> keyed s' /\ evolves s s'.
Definition keeps {A} (m : @M C P A) : Prop :=
  forall s s' r, keyed s -> m s = Some (s', r) -> keyed s' /\ evolves s s'.

Lemma keeps_weaken {A} Pre (m : M A) : keeps m -> keeps_if Pre m.
Proof. intros Hm s s' r Hs _. by apply Hm. Qed.

Lemma keeps_ret {A} (a : A) : keeps (mret a).
Proof. by intros s s' r Hk [= <- _]. Qed.
Lemma keeps_fail {A} e : keeps (mfail (A := A) e).
Proof. by intros s s' r Hk [= <- _]. Qed.
Lemma keeps_panic {A} : keeps (mpanic (A := A)).
Proof. by intros s s' r Hk [= <- _]. Qed.
Lemma keeps_out {A} : keeps (A := A) (fun _ => None).
Proof. done. Qed.
Lemma keeps_get {A} (f : session C P -> A) : keeps (mget f).
Proof. by intros s s' r Hk [= <- _]. Qed.
Lemma keeps_err err : keeps (merr err).
Proof. destruct err; [apply keeps_fail|apply keeps_ret]. Qed.

Lemma keeps_bind {A B} (m : M A) (k : A -> M B) : keeps m -> (forall a, keeps (k a)) -> keeps (mbind m k).
Proof.
  intros Hm Hk s s' r Hs. unfold mbind. destruct (m s) as [[s1 r1]|] eqn:E; [|done].
  destruct (Hm _ _ _ Hs E) as [Hs1 E1].
  destruct r1; [|by intros [= <- _]|by intros [= <- _]].
  intros E2. destruct (Hk a _ _ _ Hs1 E2). split; [done|by etrans].
Qed.

Lemma keeps_try m : keeps m -> keeps (mtry m).
Proof.
  intros Hm s s' r Hs. unfold mtry. destruct (m s) as [[s1 r1]|] eqn:E; [|done].
  destruct (Hm _ _ _ Hs E). destruct r1; by intros [= <- _].
Qed.

Lemma keeps_set f : (forall s, keyed s -> keyed (f s) /\ evolves s (f s)) -> keeps (mset f).
Proof. intros Hf s s' r Hs [= <- _]. by apply Hf. Qed.

Lemma keeps_foreach {A} (f : A -> M unit) l : (forall a, keeps (f a)) -> keeps (mforeach f l).
Proof. intros Hf. induction l; simpl; [apply keeps_ret|]. by apply keeps_bind. Qed.

(** The path that was looked up, as long as it is not changed. *)
Definition at_path (id : Z) p s : Prop := ses_paths s !! id = Some p.

Lemma keeps_get_path {A} id (k : path C -> M A) :
  (forall p, p_pathID p = id -> keeps_if (at_path id p) (k p)) -> keeps (mbind (get_path id) k).
Proof.
  intros Hk s s' r Hs. unfold mbind, get_path. destruct (ses_paths s !! id) as [p|] eqn:E; [|by intros [= <- _]].
  apply Hk; [by apply Hs|done|done].
Qed.

Lemma keeps_mget_then {A B} Pre (f : session C P -> A) (k : A -> M B) :
  (forall a, keeps_if Pre (k a)) -> keeps_if Pre (mbind (mget f) k).
Proof. intros Hk s s' r Hs HP. unfold mbind, mget. by apply Hk. Qed.

Lemma put_path_ok s id p p' : keyed s -> at_path id p s -> continues p p' ->
  keyed (ses_set_paths s (<[id := p']> (ses_paths s))) /\ evolves s (ses_set_paths s (<[id := p']> (ses_paths s))).
Proof.
  intros Hk Hp Hc. unfold at_path in Hp.
  assert (Hdom : forall x, is_Some (<[id := p']> (ses_paths s) !! x) <-> is_Some (ses_paths s !! x)).
  { intros x. rewrite lookup_insert. case_decide; [subst; rewrite Hp; split; eauto|done]. }
  split.
  { intros id' q. simpl. rewrite lookup_insert_Some. intros [[<- <-]|[_ ?]]; [|by apply Hk].
    rewrite (co_pathID _ _ Hc). by apply Hk. }
  constructor; try done; [intros x; simpl; by rewrite Hdom|..].
  - intros Hi Hcl Hn pm Hpm. simpl in Hn, Hpm. destruct (Hi Hcl) with pm as (H1 & H2 & H3); [|done|].
    + apply eq_None_not_Some. rewrite <- Hdom, Hn. by intros [? ?].
    + split; [done|]. split; [done|]. intros x. simpl. rewrite Hdom. apply H3.
  - intros _ _ x q Hx. simpl. rewrite lookup_insert. case_decide; [|by exists q].
    subst x. exists p'. split; [done|]. rewrite Hx in Hp. injection Hp as ->. done.
Qed.

Lemma map_paths_ok s f : keyed s -> (forall p, continues p (f p)) ->
  keyed (ses_set_paths s (f <$> ses_paths s)) /\ evolves s (ses_set_paths s (f <$> ses_paths s)).
Proof.
  intros Hk Hf. split.
  { intros id p. simpl. rewrite lookup_fmap_Some. intros (p0 & <- & Hp). rewrite (co_pathID _ _ (Hf p0)). by apply Hk. }
  constructor; try done; [intros id; simpl; by rewrite lookup_fmap, fmap_is_Some|..].
  - unfold own_ids. simpl. intros Hi Hcl Hn pm Hpm. rewrite lookup_fmap, fmap_None in Hn.
    destruct (Hi Hcl Hn pm Hpm) as (H1 & H2 & H3). split; [done|]. split; [done|]. intros id.
    rewrite lookup_fmap, fmap_is_Some. apply H3.
  - intros _ _ id p Hp. exists (f p). simpl. by rewrite lookup_fmap, Hp.
Qed.

Lemma keeps_put_path id p p' : continues p p' -> keeps_if (at_path id p) (put_path id p').
Proof. intros Hc s s' r Hs Hp [= <- _]. by apply (put_path_ok s id p). Qed.

Lemma keeps_put_then {A} id p p' (k : M A) : continues p p' -> keeps_if (at_path id p') k ->
  keeps_if (at_path id p) (mbind (put_path id p') (fun _ => k)).
Proof.
  intros Hc Hk s s' r Hs Hp. unfold mbind, put_path, mset. intros E. destruct (put_path_ok s id p p' Hs Hp Hc) as [Hs1 E1].
  assert (Hp1 : at_path id p' (ses_set_paths s (<[id := p']> (ses_paths s)))) by (unfold at_path; simpl; by rewrite lookup_insert_eq).
  destruct (Hk _ _ _ Hs1 Hp1 E). split; [done|by etrans].
Qed.

(** An update that leaves the paths, their IDs and what is only added to alone. *)
Definition nxt s : option Z := pm_nxtPathID <$> ses_pathManager s.

Lemma update_ok s s' : keyed s ->
  ses_paths s' = ses_paths s -> nxt s' = nxt s -> ses_perspective s' = ses_perspective s -> ses_version s' = ses_version s ->
  ses_params s' = ses_params s -> ses_closedPaths s ⊆ ses_closedPaths s' ->
  (forall e, ses_closeErr s = Some e -> ses_closeErr s' = Some e) -> ses_written s `prefix_of` ses_written s' ->
  (ses_handshakeComplete s = true -> ses_handshakeComplete s' = true) -> keyed s' /\ evolves s s'.
Proof.
  intros Hk Hp Hn Hpe. split; [unfold keyed; by rewrite Hp|].
  constructor; try done; [intros id; by rewrite Hp|..].
  - unfold own_ids. rewrite Hp, Hpe. intros Hi Hcl Hnone pm Hpm. unfold nxt in Hn. rewrite Hpm in Hn. simpl in Hn.
    destruct (ses_pathManager s) as [pm0|]; [|done]. injection Hn as ->. by apply Hi.
  - intros _ _ id p Hx. rewrite Hp. by exists p.
Qed.

Lemma keeps_update f :
  (forall s, ses_paths (f s) = ses_paths s /\ nxt (f s) = nxt s /\ ses_perspective (f s) = ses_perspective s /\
     ses_version (f s) = ses_version s /\ ses_params (f s) = ses_params s /\ ses_closedPaths s ⊆ ses_closedPaths (f s) /\
     (forall e, ses_closeErr s = Some e -> ses_closeErr (f s) = Some e) /\ ses_written s `prefix_of` ses_written (f s) /\
     (ses_handshakeComplete s = true -> ses_handshakeComplete (f s) = true)) ->
  keeps (mset f).
Proof. intros Hf. apply keeps_set. intros s Hs. destruct (Hf s) as (?&?&?&?&?&?&?&?&?). by apply update_ok. Qed.

Lemma keeps_scheduleSending : keeps scheduleSending.
Proof. by apply keeps_update. Qed.
Lemma keeps_closeWith e b : keeps (closeWith e b).
Proof. apply keeps_update. intros s. destruct (ses_closeErr s) eqn:E; split_and!; try done; by rewrite E. Qed.
Lemma keeps_schedulePathsFrame w : keeps (schedulePathsFrame w).
Proof. by apply keeps_update. Qed.
Lemma keeps_framer f : keeps (mset (fun s => ses_set_framer s (f s))).
Proof. by apply keeps_update. Qed.
Lemma keeps_packer f : keeps (mset (fun s => ses_set_packer s (f s))).
Proof. by apply keeps_update. Qed.
Lemma keeps_peerBlocked b : keeps (mset (fun s => ses_set_peerBlocked s b)).
Proof. by apply keeps_update. Qed.
Lemma keeps_remoteRTTs f : keeps (mset (fun s => ses_set_remoteRTTs s (f s))).
Proof. by apply keeps_update. Qed.
(** The path manager is changed, but for the next ID. *)
Lemma keeps_schedule_then {A} id p w (k : M A) : keeps_if (at_path id p) k ->
  keeps_if (at_path id p) (mbind (schedulePathsFrame w) (fun _ => k)).
Proof.
  intros Hk s s' r Hs HP. unfold mbind. destruct (schedulePathsFrame w s) as [[s1 r1]|] eqn:E; [|done].
  destruct (keeps_schedulePathsFrame w _ _ _ Hs E) as [Hs1 E1]. injection E as <- <-.
  intros E. destruct (Hk _ _ _ Hs1 HP E). split; [done|by etrans].
Qed.
Lemma keeps_mret_then {A} Pre (k : M A) : keeps_if Pre k -> keeps_if Pre (mbind (mret tt) (fun _ => k)).
Proof. done. Qed.

Definition at_pm (pm : pathManager) s : Prop := nxt s = Some (pm_nxtPathID pm).

Lemma keeps_set_pm pm pm' : pm_nxtPathID pm' = pm_nxtPathID pm -> keeps_if (at_pm pm) (set_pm pm').
Proof.
  intros Hn s s' r Hs HP [= <- _]. apply update_ok; try done. unfold at_pm in HP. rewrite HP. unfold nxt. simpl. by rewrite Hn.
Qed.
Lemma keeps_get_pm_then {A} (k : pathManager -> M A) : (forall pm, keeps_if (at_pm pm) (k pm)) -> keeps (mbind get_pm k).
Proof.
  intros Hk s s' r Hs. unfold mbind, get_pm. destruct (ses_pathManager s) as [pm|] eqn:E; [|by intros [= <- _]].
  apply Hk; [done|]. unfold at_pm, nxt. by rewrite E.
Qed.
Lemma keeps_if_bind {A B} Pre (m : M A) (k : A -> M B) : keeps_if Pre m -> (forall a, keeps (k a)) -> keeps_if Pre (mbind m k).
Proof.
  intros Hm Hk s s' r Hs HP. unfold mbind. destruct (m s) as [[s1 r1]|] eqn:E; [|done].
  destruct (Hm _ _ _ Hs HP E) as [Hs1 E1].
  destruct r1; [|by intros [= <- _]|by intros [= <- _]].
  intros E2. destruct (Hk a _ _ _ Hs1 E2). split; [done|by etrans].
Qed.
Lemma keeps_framer_then {A} pm f (k : M A) : keeps_if (at_pm pm) k ->
  keeps_if (at_pm pm) (mbind (mset (fun s => ses_set_framer s (f s))) (fun _ => k)).
Proof.
  intros Hk s s' r Hs HP. unfold mbind, mset. destruct (update_ok s (ses_set_framer s (f s)) Hs) as [Hs1 E1]; try done.
  intros E. destruct (Hk _ _ _ Hs1 HP E). split; [done|by etrans].
Qed.

(** *** New paths *)

Definition is_client s : Prop := ses_perspective s = PerspectiveClient.

Lemma evolves_client s s' : evolves s s' -> is_client s -> is_client s'.
Proof. intros E. unfold is_client. by rewrite (ev_perspective _ _ E). Qed.

Lemma keeps_client_foreach {A} (f : A -> M unit) l :
  (forall a, keeps_if is_client (f a)) -> keeps_if is_client (mforeach f l).
Proof.
  intros Hf. induction l as [|a l IH]; simpl; [by apply keeps_weaken, keeps_ret|].
  intros s s' r Hs HP. unfold mbind. destruct (f a s) as [[s1 r1]|] eqn:E; [|done].
  destruct (Hf a _ _ _ Hs HP E) as [Hs1 E1]. destruct r1; [|by intros [= <- _]|by intros [= <- _]].
  intros E2. destruct (IH _ _ _ Hs1 (evolves_client _ _ E1 HP) E2). split; [done|by etrans].
Qed.

Lemma new_path_evolves s s' id p : ses_paths s' = <[id := p]> (ses_paths s) ->
  ses_perspective s = PerspectiveServer \/ ses_paths s' !! 255 = None -> ses_paths s !! id = None ->
  forall x q, ses_paths s !! x = Some q -> exists q', ses_paths s' !! x = Some q' /\ continues q q'.
Proof. intros -> _ Hid x q Hx. exists q. by rewrite lookup_insert_ne by congruence. Qed.

(** A path the peer creates. *)
Lemma put_remote_path_ok s id p : keyed s -> ses_paths s !! id = None -> p_pathID p = id ->
  (is_client s -> id mod 2 = 0) ->
  keyed (ses_set_paths s (<[id := p]> (ses_paths s))) /\ evolves s (ses_set_paths s (<[id := p]> (ses_paths s))).
Proof.
  intros Hk Hnew Hid Heven. split.
  { intros x q. simpl. rewrite lookup_insert_Some. intros [[<- <-]|[_ ?]]; [done|by apply Hk]. }
  constructor; try done; [|..|intros _ Hw; by apply (new_path_evolves s _ id p)].
  - intros x. simpl. rewrite lookup_insert. case_decide; [by eexists|done].
  - intros Hi Hcl Hn pm Hpm. simpl in Hcl, Hn, Hpm. apply lookup_insert_None in Hn as [Hn _].
    destruct (Hi Hcl Hn pm Hpm) as (H1 & H2 & H3). split; [done|]. split; [done|]. intros x. simpl.
    rewrite lookup_insert. case_decide; [subst x; specialize (Heven Hcl); lia|apply H3].
Qed.

(** A path the client creates, with the ID of its counter. *)
Lemma put_own_path_ok s pm pm' p : keyed s -> is_client s -> ses_pathManager s = Some pm ->
  p_pathID p = pm_nxtPathID pm -> pm_nxtPathID pm' = u8 (pm_nxtPathID pm + 2) ->
  let s' := ses_set_manager (ses_set_paths s (<[pm_nxtPathID pm := p]> (ses_paths s))) (ses_closedPaths s) (Some pm') in
  keyed s' /\ evolves s s'.
Proof.
  intros Hk Hcl Hpm Hid Hnext s'. set (id := pm_nxtPathID pm) in *.
  assert (Hfresh : own_ids s -> ses_paths s' !! 255 = None ->
    ses_paths s !! 255 = None /\ 0 < id < 255 /\ id mod 2 = 1 /\ ses_paths s !! id = None /\
    forall x, is_Some (ses_paths s !! x) -> x mod 2 = 1 -> x < id).
  { intros Hi Hn. simpl in Hn. apply lookup_insert_None in Hn as [Hn Hne].
    destruct (Hi Hcl Hn pm Hpm) as (H1 & H2 & H3). fold id in H1, H2, H3. split_and!; try done; try lia.
    apply eq_None_not_Some. intros Hs. specialize (H3 _ Hs H2). lia. }
  split.
  { intros x q. simpl. rewrite lookup_insert_Some. intros [[<- <-]|[_ ?]]; [done|by apply Hk]. }
  constructor; try done.
  - intros x. simpl. rewrite lookup_insert. case_decide; [by eexists|done].
  - intros Hi _ Hn q [= <-]. destruct (Hfresh Hi Hn) as (_ & H1 & H2 & _ & H3). rewrite Hnext.
    assert (id <> 254) by (intros E; by rewrite E in H2). rewrite u8_small by (unfold is_u8; lia).
    split; [lia|]. split; [by rewrite Z.add_mod, H2 by done|]. intros x. simpl.
    rewrite lookup_insert. case_decide; [lia|]. intros Hx Hodd. specialize (H3 x Hx Hodd). lia.
  - intros Hi Hw. destruct (Hw) as [Hw'|Hw']; [by rewrite Hcl in Hw'|].
    apply (new_path_evolves s s' id p); [done..|]. by apply Hfresh.
Qed.
Lemma keeps_incQuota id : keeps (incQuota id).
Proof. by apply keeps_update. Qed.
Lemma keeps_get_pm : keeps get_pm.
Proof. intros s s' r Hk. unfold get_pm. destruct (ses_pathManager s); by intros [= <- _]. Qed.

Lemma keeps_queueControlFrame frame id : keeps (queueControlFrame frame id).
Proof.
  intros s s' r Hk. unfold queueControlFrame.
  destruct (ses_paths s !! id); [intros [= <- _]|destruct frame; intros [= <- _]]; by apply update_ok.
Qed.

Lemma keeps_getWindowUpdateFrames w force : keeps (getWindowUpdateFrames w force).
Proof.
  intros s s' r Hk. unfold getWindowUpdateFrames. destruct (GetWindowUpdates _ _ _ _ _) as [f u].
  intros [= <- _]. by apply update_ok.
Qed.

Lemma keeps_packing {A} w id (pack : fcEnv P -> CryptoSetup -> Z -> option (Z * Z) -> packState -> packState * result A) :
  keeps (packing w id pack).
Proof.
  intros s s' r Hk. unfold packing. destruct (ses_paths s !! id) as [p|] eqn:E; [|by intros [= <- _]].
  destruct (pack _ _ _ _ _) as [ps r']. intros [= <- _].
  destruct (update_ok s (ses_set_sending s (ps_framer ps) (ps_streams ps) (ps_fcm ps) (ps_packer ps)) Hk) as [Hk1 E1]; try done.
  destruct (put_path_ok (ses_set_sending s (ps_framer ps) (ps_streams ps) (ps_fcm ps) (ps_packer ps)) id p
    (set_generator_of p (pth_packetNumberGenerator (ps_path ps)) (pth_leastUnacked (ps_path ps)))) as [Hk' Ev]; try done.
  split; [done|]. by etrans.
Qed.

(** Lifted state functions, whose new state is given by [f]. *)
Lemma keeps_sent_handler id op : keeps (sent_handler id op).
Proof.
  unfold sent_handler. apply keeps_get_path. intros p Hp s s' r Hk Hat.
  destruct (op p) as [[h err]|e|]; [|by intros [= <- _]..].
  intros E. destruct (put_path_ok s id p (set_sentPacketHandler p h)) as [Hk' Ev]; [done..|].
  destruct (keeps_err err _ _ _ Hk' E). split; [done|by etrans].
Qed.

Lemma keeps_get_or_open fuel id : keeps (get_or_open fuel id).
Proof.
  intros s s' r Hk. unfold get_or_open. destruct (GetOrOpenStream _ _ _ _ _ _) as [[[m f] g]|]; [|done].
  intros [= <- _]. by apply update_ok.
Qed.

Lemma keeps_after {A} (m : M A) s s1 s' r : keeps m -> keyed s -> (keyed s -> keyed s1 /\ evolves s s1) ->
  m s1 = Some (s', r) -> keyed s' /\ evolves s s'.
Proof. intros Hm Hk H1 E. destruct (H1 Hk) as [Hk1 E1]. destruct (Hm _ _ _ Hk1 E). split; [done|by etrans]. Qed.

Lemma keeps_add_stream_frame id frame : keeps (add_stream_frame id frame).
Proof.
  intros s s' r Hk. unfold add_stream_frame. destruct (sm_streams _ !! id); [|by intros [= <- _]].
  destruct (AddStreamFrame _ _ _) as [[[str f] err]|e|]; [|by intros [= <- _]..].
  eapply keeps_after; [apply keeps_err|done|]. intros _. by apply update_ok.
Qed.

Lemma keeps_update_window id offset : keeps (update_window id offset).
Proof.
  intros s s' r Hk. unfold update_window. destruct (UpdateWindow _ _ _) as [f u]. intros [= <- _]. by apply update_ok.
Qed.

Lemma keeps_queueResetStreamFrame id offset : keeps (queueResetStreamFrame id offset).
Proof. apply keeps_bind; [apply keeps_queueControlFrame|]. intros _. apply keeps_scheduleSending. Qed.

Lemma keeps_stream_callbacks evs : keeps (stream_callbacks evs).
Proof.
  induction evs as [|[|id offset] evs IH]; simpl; [apply keeps_ret| |]; apply keeps_bind;
    [apply keeps_scheduleSending|done|apply keeps_queueResetStreamFrame|done].
Qed.

Lemma keeps_register_remote_error id err : keeps (register_remote_error id err).
Proof.
  intros s s' r Hk. unfold register_remote_error. destruct (sm_streams _ !! id); [|by intros [= <- _]].
  destruct (RegisterRemoteError _ _) as [str evs].
  eapply keeps_after; [apply keeps_stream_callbacks|done|]. intros _. by apply update_ok.
Qed.

Lemma keeps_resetStream id offset :
  keeps (fun s => let '(f, err) := ResetStream (ses_fcm s) id offset in merr err (ses_set_streams s (ses_streams s) f)).
Proof.
  intros s s' r Hk. destruct (ResetStream _ _ _) as [f err].
  eapply keeps_after; [apply keeps_err|done|]. intros _. by apply update_ok.
Qed.

Lemma keeps_pm_closePath id : keeps (pm_closePath id).
Proof.
  apply keeps_set. intros s Hs. destruct (ses_paths s !! id) as [p|] eqn:E; [|done].
  destruct (p_open p); [|done]. by apply (put_path_ok s id p).
Qed.

Lemma keeps_close_path_set id : keeps (mset (fun s => ses_set_manager s ({[ id ]} ∪ ses_closedPaths s) (ses_pathManager s))).
Proof. apply keeps_update. intros s. split_and!; try done. set_solver. Qed.

Lemma keeps_selectPath w hr hsr from : keeps (selectPath w hr hsr from).
Proof.
  intros s s' r Hk. unfold selectPath.
  destruct (ses_schedulerName s); try (destruct (_ : result (scheduler * option Z)) as [[sch sel]|e|]);
    intros [= <- _]; first [by apply update_ok|done].
Qed.
End evolution.

#[export] Existing Instance evolves_refl.
#[export] Existing Instance evolves_trans.
#[export] Hint Resolve keeps_ret keeps_fail keeps_panic keeps_out keeps_get keeps_err keeps_scheduleSending
  keeps_closeWith keeps_schedulePathsFrame keeps_framer keeps_packer keeps_incQuota keeps_get_pm
  keeps_peerBlocked keeps_remoteRTTs
  keeps_queueControlFrame keeps_getWindowUpdateFrames keeps_packing keeps_sent_handler keeps_get_or_open
  keeps_add_stream_frame keeps_update_window keeps_queueResetStreamFrame keeps_register_remote_error
  keeps_resetStream keeps_pm_closePath keeps_close_path_set keeps_selectPath : session.

#[export] Hint Extern 1 (continues _ _) => (constructor; done) : session.

(** Goes through an operation, step by step. *)
Ltac keeps_step :=
  first
    [ solve [auto with session nocore]
    | solve [apply keeps_weaken; auto with session nocore]
    | lazymatch goal with |- keeps_if (at_path _ _) (put_path _ _) => eapply keeps_put_path; auto with session nocore end
    | lazymatch goal with |- keeps_if (at_path _ _) (mbind (put_path _ _) _) =>
        eapply keeps_put_then; [auto with session nocore|] end
    | apply keeps_mget_then; intros ?
    | apply keeps_framer_then
    | apply keeps_set_pm; reflexivity
    | apply keeps_get_pm_then; intros ?
    | apply keeps_get_path; intros ? ?
    | apply keeps_weaken, keeps_get_path; intros ? ?
    | apply keeps_try
    | apply keeps_foreach; intros ?
    | apply keeps_bind; [|intros ?]
    | case_match
    | apply keeps_weaken ].
Ltac keeps := repeat keeps_step.

Section operations.
Context {C P : Type} `{SendAlgorithm C} `{ConnectionParametersManager P}.
Implicit Types w : world C.
#[local] Notation keeps m := (@keeps C P _ m).

Lemma keeps_sendPackedPacket w packet id : keeps (sendPackedPacket w packet id).
Proof. unfold sendPackedPacket. keeps. apply keeps_update. intros s0. split_and!; try done. by eexists. Qed.
#[local] Hint Resolve keeps_sendPackedPacket : session.

Lemma keeps_sendPing w id : keeps (sendPing w id).
Proof. unfold sendPing. keeps. Qed.
#[local] Hint Resolve keeps_sendPing : session.

Lemma keeps_createPath w loc rem : keeps_if is_client (createPath (P := P) w loc rem).
Proof.
  unfold createPath. apply keeps_mget_then. intros [|]; [apply keeps_weaken; keeps|].
  intros s s' r Hs Hcl. unfold mbind at 1, get_pm. destruct (ses_pathManager s) as [pm|] eqn:E; [|by intros [= <- _]].
  unfold mbind at 1 2 3, mget, put_path, set_pm, mset. cbn [ses_version]. intros Ek.
  eapply keeps_after; [apply (keeps_sendPing w (pm_nxtPathID pm))|exact Hs| |exact Ek]. intros _.
  by apply (put_own_path_ok s pm).
Qed.

Lemma keeps_advertiseAddress loc : keeps (advertiseAddress loc).
Proof. unfold advertiseAddress. keeps. Qed.
#[local] Hint Resolve keeps_advertiseAddress : session.

Lemma keeps_createPaths w : keeps (createPaths w).
Proof.
  unfold createPaths, advertiseAddresses. intros s s' r Hs. unfold mbind at 1, mget.
  destruct (ses_perspective s) eqn:Ep; revert s' r.
  - assert (Hk : keeps (mbind get_pm (fun pm => mforeach advertiseAddress (pm_localAddrs pm)))).
    { apply keeps_bind; [apply keeps_get_pm|]. intros pm. apply keeps_foreach. intros. apply keeps_advertiseAddress. }
    intros s' r. by apply Hk.
  - unfold mbind at 1, get_pm. destruct (ses_pathManager s) as [pm|] eqn:E; [|by intros s' r [= <- _]].
    intros s' r. revert Hs Ep.
    match goal with |- keyed s -> _ -> ?m s = _ -> _ => assert (Hk : keeps_if is_client m) end; [|intros Hs Ep; by apply Hk].
    apply keeps_if_bind; [|intros _; keeps].
    apply keeps_client_foreach. intros loc. apply keeps_client_foreach. intros rem. apply keeps_createPath.
Qed.
#[local] Hint Resolve keeps_createPaths : session.

Lemma keeps_handleAddAddressFrame w f : keeps (handleAddAddressFrame w f).
Proof.
  unfold handleAddAddressFrame. apply keeps_get_pm_then. intros pm. apply keeps_if_bind; [|intros ?; keeps].
  repeat case_match; keeps.
Qed.
#[local] Hint Resolve keeps_handleAddAddressFrame : session.

Lemma keeps_createPathFromRemote w id loc rem : keeps (createPathFromRemote w id loc rem).
Proof.
  unfold createPathFromRemote. intros s s' r Hs. unfold mbind, mget. case_bool_decide as Hknown; [by intros [= <- _]|].
  destruct (bool_decide _ && _) eqn:E1; [by intros [= <- _]|]. destruct (bool_decide _ && (_ =? 0)) eqn:E2; [by intros [= <- _]|].
  intros [= <- _]. apply put_remote_path_ok; [done|by apply eq_None_not_Some|done|].
  intros Hcl. unfold is_client in Hcl. rewrite Hcl, bool_decide_eq_true_2 in E1 by done. simpl in E1. lia.
Qed.
#[local] Hint Resolve keeps_createPathFromRemote : session.

Lemma keeps_handleFrame fuel w id ff : keeps (handleFrame fuel w id ff).
Proof.
  destruct ff; simpl; unfold handleStreamFrame, handleAckFrame, update_session_rtt, handleRstStreamFrame,
    handleWindowUpdateFrame, closeRemote, handleClosePathFrame, closePath, handlePathsFrame,
    setRemoteRTT; keeps.
Qed.
#[local] Hint Resolve keeps_handleFrame : session.

Lemma keeps_handleFrames fuel w fs id : keeps (handleFrames fuel w fs id).
Proof. induction fs; simpl; keeps. Qed.
#[local] Hint Resolve keeps_handleFrames : session.

Lemma path_handlePacketImpl_continues Open pers version p hdr raw data addr rcvTime now p' r :
  path_handlePacketImpl Open pers version p hdr raw data addr rcvTime now = Ok (p', r) -> continues (C := C) p p'.
Proof.
  unfold path_handlePacketImpl. destruct (p_open p) eqn:Ho; simpl; [|intros [= <- <-]; by constructor].
  repeat case_match; intros [= <- <-]; constructor; simpl; try done; try congruence; unfold MaxPacketNumber;
    repeat case_match; simpl; lia.
Qed.

Lemma keeps_handlePacketImpl fuel Open w hdr raw data rcvPconn addr rcvTime :
  keeps (handlePacketImpl fuel Open w hdr raw data rcvPconn addr rcvTime).
Proof.
  unfold handlePacketImpl. keeps. by eapply path_handlePacketImpl_continues.
Qed.

Lemma keeps_dequeueRetransmission order : keeps (dequeueRetransmission order).
Proof. induction order; simpl; keeps. Qed.
#[local] Hint Resolve keeps_dequeueRetransmission : session.

Lemma keeps_getRetransmission w orders b pth : keeps (getRetransmission w orders b pth).
Proof. revert b pth. induction orders; intros b pth; simpl; unfold retransmitFrame; keeps. Qed.
#[local] Hint Resolve keeps_getRetransmission : session.

Lemma keeps_performPacketSending w wufs id : keeps (performPacketSending w wufs id).
Proof. unfold performPacketSending. keeps. Qed.

Lemma path_GetAckFrame_continues p now p' ack : path_GetAckFrame p now = Ok (p', ack) -> continues (C := C) p p'.
Proof.
  unfold path_GetAckFrame. destruct (GetAckFrame _ _) as [[h a]|e|]; [|done..]. simpl.
  destruct a; intros [= <- <-]; by constructor.
Qed.

Lemma keeps_next_ack w id : keeps (next_ack w id).
Proof.
  unfold next_ack. keeps. by eapply path_GetAckFrame_continues.
Qed.

Lemma keeps_next_stop_waiting id force : keeps (next_stop_waiting id force).
Proof.
  unfold next_stop_waiting. keeps.
  unfold path_GetStopWaitingFrame in *. case_match; simplify_eq/=; by constructor.
Qed.
#[local] Hint Resolve keeps_performPacketSending keeps_next_ack keeps_next_stop_waiting : session.

Lemma keeps_ackRemainingPaths w wufs : keeps (ackRemainingPaths w wufs).
Proof. unfold ackRemainingPaths, ackPath, queue_stop_waiting, queue_ack, send_packet. keeps. Qed.

Lemma keeps_queueAll {F} n pop (frame : F -> Frame) id : keeps (queueAll n pop frame id).
Proof. induction n; simpl; keeps. Qed.
#[local] Hint Resolve keeps_ackRemainingPaths keeps_queueAll : session.

Lemma keeps_sendLoop ws wufs : keeps (sendLoop ws wufs).
Proof.
  revert wufs. induction ws as [|w ws IH]; intros wufs; simpl; unfold queueSpecialFrames, duplicatePacket,
    queue_stop_waiting, queue_stop_waiting_nil, queue_ack, send_packet; keeps.
Qed.
#[local] Hint Resolve keeps_sendLoop : session.

Lemma keeps_sendPacket w ws : keeps (sendPacket w ws).
Proof.
  unfold sendPacket. keeps. apply keeps_set. intros s Hs. apply map_paths_ok; [done|]. intros p. by constructor.
Qed.

Lemma keeps_closePath id send : keeps (closePath id send).
Proof. unfold closePath. keeps. Qed.

Lemma keeps_handlePathTimer w id : keeps (handlePathTimer w id).
Proof.
  unfold handlePathTimer. apply keeps_get_path. intros p _. case_match; [|apply keeps_weaken; keeps].
  destruct (if callsRTO _ then _ else _) as [p1 failed] eqn:E.
  assert (Hc : continues p p1) by (revert E; unfold onRTO; repeat case_match; intros [= <- <-]; by constructor).
  apply keeps_put_then; [done|]. destruct failed; [apply keeps_schedule_then|apply keeps_mret_then];
    apply keeps_put_path; by constructor.
Qed.
#[local] Hint Resolve keeps_handlePacketImpl keeps_sendPacket keeps_closePath keeps_handlePathTimer : session.

(** What happens to a session: a packet arrives, packets are sent, the timer of a path
    fires, the path manager opens paths, the application closes a path, uses the
    streams or closes the session, the handshake completes, finished streams are
    collected. *)
Inductive ses_step : session C P -> session C P -> Prop :=
| step_packet fuel Open w hdr raw data rcvPconn addr rcvTime s s' r :
    handlePacketImpl fuel Open w hdr raw data rcvPconn addr rcvTime s = Some (s', r) -> ses_step s s'
| step_send w ws s s' r : sendPacket w ws s = Some (s', r) -> ses_step s s'
| step_timer w id s s' r : handlePathTimer w id s = Some (s', r) -> ses_step s s'
| step_create w s s' r : createPaths w s = Some (s', r) -> ses_step s s'
| step_close_path id send s s' r : closePath id send s = Some (s', r) -> ses_step s s'
| step_streams m f s : ses_step s (ses_set_streams s m f)
| step_close e s s' r : closeLocal e s = Some (s', r) -> ses_step s s'
| step_handshake s : ses_step s (ses_set_handshakeComplete s)
| step_collect s s' r : garbageCollectStreams s = Some (s', r) -> ses_step s s'.

Lemma keeps_garbageCollectStreams : keeps garbageCollectStreams.
Proof. apply keeps_update. intros s. by destruct (Iterate _ _ _) as [[m f] e]. Qed.

Lemma ses_step_keeps s s' : ses_step s s' -> keyed s -> keyed s' /\ evolves s s'.
Proof.
  destruct 1 as [fuel Open w hdr raw data rcvPconn addr rcvTime s s' r E|w ws s s' r E|w id s s' r E|w s s' r E
    |id send s s' r E|m f s|e s s' r E|s|s s' r E]; intros Hk.
  - by eapply keeps_handlePacketImpl.
  - by eapply keeps_sendPacket.
  - by eapply keeps_handlePathTimer.
  - by eapply keeps_createPaths.
  - by eapply keeps_closePath.
  - by apply update_ok.
  - by eapply keeps_closeWith.
  - by apply update_ok.
  - by eapply keeps_garbageCollectStreams.
Qed.

Lemma ses_steps_keep s s' : rtc ses_step s s' -> keyed s -> keyed s' /\ evolves s s'.
Proof.
  induction 1 as [s|s s1 s' H1 _ IH]; intros Hk; [by split|].
  destruct (ses_step_keeps _ _ H1 Hk) as [Hk1 E1]. destruct (IH Hk1). split; [done|by etrans].
Qed.

Lemma session_setup_ok pers version connID create params localAddrs c name w :
  keyed (session_setup pers version connID create params localAddrs c name w) /\
  own_ids (session_setup pers version connID create params localAddrs c name w) /\
  is_Some (ses_paths (session_setup pers version connID create params localAddrs c name w) !! InitialPathID).
Proof.
  unfold session_setup.
  destruct (match pers with PerspectiveServer => _ | PerspectiveClient => _ end) as [m f]. split_and!.
  - intros id p. simpl. rewrite lookup_singleton_Some. by intros [<- <-].
  - intros Hcl _ pm. simpl in Hcl |- *. subst pers. destruct localAddrs as [l|]; [|done]. intros [= <-]. split; [done|].
    split; [done|]. intros id [p Hp]. apply lookup_singleton_Some in Hp as [<- _]. done.
  - simpl. rewrite lookup_singleton_eq. by eexists.
Qed.

End operations.

(** ** Collecting the streams *)

Section collect.
Context {C P : Type} `{SendAlgorithm C} `{ConnectionParametersManager P}.

(** The stream [id] is open and can be removed. *)
Definition gone (m : streamsMap stream) (id : Z) : bool :=
  match sm_streams m !! id with Some str => str_finished str | None => false end.

Lemma RemoveStream_streams (m : streamsMap stream) id : is_Some (sm_streams m !! id) ->
  (sm_RemoveStream m id).2 = None /\ sm_streams (sm_RemoveStream m id).1 = delete id (sm_streams m).
Proof. intros [str E]. unfold sm_RemoveStream. rewrite E. split; [done|]. cbn. f_equal. by repeat case_match. Qed.

Lemma removeFinished_loop l (m : streamsMap stream) f : sm_inv m -> NoDup l -> (forall id, id ∈ l -> is_Some (sm_streams m !! id)) ->
  exists m' f', iterateOver removeFinished m f l = (m', f', None) /\ sm_inv m' /\
    (forall id, sm_streams m' !! id = if bool_decide (id ∈ l) && gone m id then None else sm_streams m !! id) /\
    (forall id, fm_streamFlowController f' !! id =
       if bool_decide (id ∈ l) && gone m id then None else fm_streamFlowController f !! id) /\
    fm_connFlowController f' = fm_connFlowController f.
Proof.
  revert m f. induction l as [|x l IH]; intros m f I Hnd Hin.
  { exists m, f. split_and!; try done. }
  inversion_clear Hnd as [|? ? Hx Hnd']. simpl. unfold iterateFunc.
  destruct (Hin x) as [str Ex]; [left|]. rewrite Ex. unfold removeFinished at 1.
  assert (Hgx : gone m x = str_finished str) by (unfold gone; by rewrite Ex).
  destruct (str_finished str) eqn:Ef.
  - destruct (RemoveStream_streams m x) as [Hn Hs]; [by exists str|].
    destruct (RemoveStream_inv m x I) as (I1 & _).
    destruct (sm_RemoveStream m x) as [m1 e] eqn:Er. simpl in Hn, Hs, I1. subst e.
    destruct (IH m1 (RemoveStream f x) I1 Hnd') as (m' & f' & -> & I' & Hm & Hf & Hc).
    { intros id Hid. rewrite Hs, lookup_delete_ne by congruence. apply Hin. by right. }
    exists m', f'. split_and!; try done; intros id; rewrite ?Hm, ?Hf; unfold gone; rewrite Hs; simpl;
      (destruct (decide (id = x)) as [->|Hne];
       [rewrite (bool_decide_eq_true_2 (x ∈ x :: l)) by left; rewrite ?lookup_delete_eq, Ex, Ef; by destruct (bool_decide (x ∈ l))
       |rewrite lookup_delete_ne by done; rewrite ?(lookup_delete_ne (fm_streamFlowController f)) by done;
        by rewrite (bool_decide_ext (id ∈ x :: l) (id ∈ l)) by set_solver]).
  - destruct (IH m f I Hnd') as (m' & f' & -> & I' & Hm & Hf & Hc); [intros id Hid; apply Hin; by right|].
    exists m', f'. split_and!; try done; intros id; rewrite ?Hm, ?Hf;
      (destruct (decide (id = x)) as [->|Hne];
       [rewrite Hgx, !andb_false_r; done|by rewrite (bool_decide_ext (id ∈ x :: l) (id ∈ l)) by set_solver]).
Qed.

(** Collecting removes exactly the finished streams, with their flow controllers,
    and keeps every other stream, its flow controller and that of the connection as
    they are, though the open streams change during the iteration over them; the map of
    the streams stays consistent. *)
Theorem garbageCollectStreams_spec (s : session C P) : sm_inv (ses_streams s) ->
  exists s', garbageCollectStreams s = Some (s', Ok tt) /\ sm_inv (ses_streams s') /\
    (forall id, sm_streams (ses_streams s') !! id =
       if gone (ses_streams s) id then None else sm_streams (ses_streams s) !! id) /\
    (forall id, fm_streamFlowController (ses_fcm s') !! id =
       if gone (ses_streams s) id then None else fm_streamFlowController (ses_fcm s) !! id) /\
    fm_connFlowController (ses_fcm s') = fm_connFlowController (ses_fcm s).
Proof.
  intros I. pose proof (smi_dom _ I) as Hdom.
  destruct (removeFinished_loop (sm_openStreams (ses_streams s)) (ses_streams s) (ses_fcm s) I (smi_nodup _ I))
    as (m' & f' & E & I' & Hm & Hf & Hc); [by intros id ?%Hdom|].
  assert (Hg : forall id, bool_decide (id ∈ sm_openStreams (ses_streams s)) && gone (ses_streams s) id = gone (ses_streams s) id).
  { intros id. destruct (gone (ses_streams s) id) eqn:G; [|apply andb_false_r]. rewrite andb_true_r.
    apply bool_decide_eq_true_2. rewrite Hdom. unfold gone in G. destruct (_ !! id); [by eexists|done]. }
  unfold garbageCollectStreams, mset, Iterate. rewrite E. eexists. split; [done|]. cbn. split_and!; try done.
  - intros id. by rewrite Hm, Hg.
  - intros id. by rewrite Hf, Hg.
Qed.

(** ** Frames that name a path the session does not have *)

Lemma handleFrames_app fuel w fs fs' id (s s1 : session C P) :
  handleFrames fuel w fs id s = Some (s1, Ok tt) -> handleFrames fuel w (fs ++ fs') id s = handleFrames fuel w fs' id s1.
Proof.
  revert s. induction fs as [|ff fs IH]; intros s; [by intros [= ->]|]. cbn [handleFrames app].
  unfold mbind. destruct (mtry _ s) as [[s0 [err|e|]]|]; [|done..].
  destruct err as [e|]; [destruct (ignoredError e); [apply IH|done]|apply IH].
Qed.

(** An entry of a PATHS frame leaves the set of the paths as it is; it panics when its path is not there and is
    reported as failed. *)
Lemma setRemoteRTT_outcome pid rtt (s : session C P) :
  exists s' r, setRemoteRTT pid rtt s = Some (s', r) /\ (r = Ok tt \/ r = Panic) /\
    (forall x, ses_paths s !! x = None -> ses_paths s' !! x = None) /\
    (ses_paths s !! pid = None -> rtt >= 30 * (60 * Second) -> r = Panic).
Proof.
  unfold setRemoteRTT, mbind, mset, get_path, put_path, mset, mret.
  destruct (rtt >=? 30 * (60 * Second)) eqn:E; [|eexists _, _; split_and!; [done|by left|done|lia]].
  cbn [ses_set_remoteRTTs ses_paths]. destruct (ses_paths s !! pid) as [p|] eqn:Ep;
    (eexists _, _; split_and!; [done|by (left + right)| |done]); [|done].
  intros x Hx. simpl. rewrite lookup_insert_None. split; [done|]. intros ->. by rewrite Ep in Hx.
Qed.

Lemma handlePathsFrame_panics (f : PathsFrame) pid rtt l i (s : session C P) : i ∈ l ->
  pf_PathIDs f !! i = Some pid -> pf_RemoteRTTs f !! i = Some rtt ->
  ses_paths s !! pid = None -> rtt >= 30 * (60 * Second) ->
  exists s', mforeach (fun i => match pf_PathIDs f !! i, pf_RemoteRTTs f !! i with
    | Some id, Some rtt => setRemoteRTT id rtt
    | _, _ => mpanic
    end) l s = Some (s', Panic).
Proof.
  intros Hi Hid Hrtt. revert s. induction l as [|j l IH]; intros s Hp Hr; [by apply elem_of_nil in Hi|]. cbn [mforeach].
  unfold mbind at 1. destruct (pf_PathIDs f !! j) as [pj|] eqn:Ej; [|by exists s].
  destruct (pf_RemoteRTTs f !! j) as [rj|] eqn:Rj; [|by exists s].
  destruct (setRemoteRTT_outcome pj rj s) as (s1 & r & -> & [->| ->] & Hkeep & Hbad); [|by exists s1].
  apply elem_of_cons in Hi as [->|Hi]; [|by apply IH; [|apply Hkeep|]].
  rewrite Ej in Hid. rewrite Rj in Hrtt. simplify_eq. by specialize (Hbad Hp Hr).
Qed.

(** C31: when the frames [fs] at the start of a packet are handled without an error that ends the
    connection, and the frame after them is an ACK frame for a path the session does not have then, or a
    PATHS frame one of whose entries reports such a path with a round trip time of half an hour or
    more, handling the packet panics, whatever frames come after it: the path is looked up in the map and used
    without a check. *)
Theorem unknown_path_panics fuel w fs fs' id (s s1 : session C P) :
  handleFrames fuel w fs id s = Some (s1, Ok tt) ->
  (forall f, ses_paths s1 !! ack_PathID f = None -> handleFrames fuel w (fs ++ FAck f :: fs') id s = Some (s1, Panic)) /\
  (forall f i pid rtt, (i < Z.to_nat (pf_NumPaths f))%nat -> pf_PathIDs f !! i = Some pid ->
   pf_RemoteRTTs f !! i = Some rtt -> ses_paths s1 !! pid = None -> rtt >= 30 * (60 * Second) ->
   exists s', handleFrames fuel w (fs ++ FPaths f :: fs') id s = Some (s', Panic)).
Proof.
  intros E. split.
  - intros f Hf. rewrite (handleFrames_app _ _ _ _ _ _ _ E). cbn [handleFrames handleFrame].
    unfold handleAckFrame, sent_handler, mbind, mtry, get_path. by rewrite Hf.
  - intros f i pid rtt Hi Hid Hrtt Hp Hr. rewrite (handleFrames_app _ _ _ _ _ _ _ E). cbn [handleFrames handleFrame].
    unfold handlePathsFrame, mbind at 1, mtry.
    destruct (handlePathsFrame_panics f pid rtt (seq 0 (Z.to_nat (pf_NumPaths f))) i s1) as [s' ->]; [|done..|by exists s'].
    apply elem_of_seq. lia.
Qed.
End collect.
