(* ===== verification/SendingProofs.v ===== *)
(** * What is sent again, and what is sent

    [getRetransmission] takes the lost packets out of the queues of all paths and gives
    their frames back to where they are sent from; [performPacketSending] keeps the
    account of what it gives to the socket. *)
From S2P Require Import Prelude Qerr ByteOrder Protocol WireStream WireControl AckRanges WireAck PublicHeader.
From S2P Require Import Frames ReceivedPackets Float32 RttStats SentPackets ConnParams FlowControl Congestion.
From S2P Require Import StreamFrameSorter StreamsMap Stream StreamFramer PacketNumberGenerator PacketPacker Path.
From S2P Require Import Scheduler Session Sending SentPacketsProofs.

Section retransmission.
Context {C P : Type} `{SendAlgorithm C} `{ConnectionParametersManager P}.
Implicit Types s : session C P.
Implicit Types p : path C.
Implicit Types w : world C.

(** The lost packets of the path [id]. *)
Definition lost s (id : Z) : list Packet :=
  match ses_paths s !! id with Some p => sp_retransmissionQueue (p_sentPacketHandler p) | None => [] end.

(** The stream frames that are to be sent again. *)
Definition again s : list StreamFrame := sfr_retransmissionQueue (ses_framer s).

Definition stream_frames (fs : list Frame) : list StreamFrame :=
  omap (fun f => match f with FStream f => Some f | _ => None end) fs.

Definition secure (pk : Packet) : bool := bool_decide (pk_EncryptionLevel pk = EncryptionForwardSecure).

(** The stream frames of the packets that were sent with forward security. *)
Definition frames_of (taken : list (Z * Packet)) : list StreamFrame :=
  concat (map (fun e => if secure e.2 then stream_frames (pk_Frames e.2) else []) taken).

(** The packets of [taken] that were lost on the path [id]. *)
Definition from_path (id : Z) (taken : list (Z * Packet)) : list Packet :=
  omap (fun e => if e.1 =? id then Some e.2 else None) taken.

Lemma retransmitFrame_ok w id frame s : is_Some (ses_paths s !! id) ->
  exists s', retransmitFrame w id frame s = Some (s', Ok tt) /\ ses_paths s' = ses_paths s /\
    ses_handshakeComplete s' = ses_handshakeComplete s /\ again s' = again s ++ stream_frames [frame].
Proof.
  intros [p Hp].
  assert (Hq : forall f, exists s', queueControlFrame f id s = Some (s', Ok tt) /\ ses_paths s' = ses_paths s /\
    ses_handshakeComplete s' = ses_handshakeComplete s /\ again s' = again s ++ []).
  { intros f. unfold queueControlFrame. rewrite Hp. eexists. split_and!; try done. by rewrite app_nil_r. }
  destruct frame; simpl; try apply Hq.
  - eexists. split_and!; done.
  - unfold mbind, mget. destruct (GetReceiveWindow _ _); simpl; [destruct (_ >=? _); [apply Hq|]|..];
      eexists; split_and!; try done; by rewrite app_nil_r.
  - eexists. split_and!; try done. by rewrite app_nil_r.
Qed.

Lemma retransmitFrames_ok w id fs s : is_Some (ses_paths s !! id) ->
  exists s', mforeach (retransmitFrame w id) fs s = Some (s', Ok tt) /\ ses_paths s' = ses_paths s /\
    ses_handshakeComplete s' = ses_handshakeComplete s /\ again s' = again s ++ stream_frames fs.
Proof.
  revert s. induction fs as [|f fs IH]; intros s Hid; simpl.
  - exists s. split_and!; try done. by rewrite app_nil_r.
  - destruct (retransmitFrame_ok w id f s Hid) as (s1 & E1 & Hp1 & Hh1 & Ha1).
    unfold mbind. rewrite E1. destruct (IH s1) as (s2 & E2 & Hp2 & Hh2 & Ha2); [by rewrite Hp1|].
    exists s2. split_and!; [done|congruence|congruence|]. rewrite Ha2, Ha1, <- app_assoc. f_equal.
    simpl. by destruct f.
Qed.

(** The frames of a packet that are not sent again are no stream frames. *)
Lemma stream_frames_retransmission pk : stream_frames (GetFramesForRetransmission pk) = stream_frames (pk_Frames pk).
Proof. unfold GetFramesForRetransmission. induction (pk_Frames pk) as [|[] fs IH]; simpl; try done; by rewrite IH. Qed.

Lemma dequeue_ok order s : (forall id, id ∈ order -> is_Some (ses_paths s !! id)) ->
  exists s' r, dequeueRetransmission order s = Some (s', Ok r) /\
  match r with
  | None => s' = s /\ forall id, id ∈ order -> lost s id = []
  | Some (id, pk) => id ∈ order /\ lost s id = pk :: lost s' id /\ (forall id', id' <> id -> lost s' id' = lost s id') /\
      (forall id', is_Some (ses_paths s' !! id') <-> is_Some (ses_paths s !! id')) /\
      ses_framer s' = ses_framer s /\ ses_handshakeComplete s' = ses_handshakeComplete s
  end.
Proof.
  intros Hin. induction order as [|id order IH]; simpl.
  { exists s, None. split_and!; try done. intros id []%elem_of_nil. }
  destruct (Hin id) as [p Hp]; [left|]. unfold mbind at 1, get_path. rewrite Hp.
  unfold DequeuePacketForRetransmission. destruct (sp_retransmissionQueue (p_sentPacketHandler p)) as [|pk q] eqn:Eq.
  - destruct IH as (s' & r & E & Hr); [intros id' Hid'; apply Hin; by right|].
    exists s', r. split; [done|]. destruct r as [[id' pk]|].
    + destruct Hr as (?&?). split; [by right|done].
    + destruct Hr as [-> Hr]. split; [done|]. intros id' [->|Hid']%elem_of_cons; [|by apply Hr].
      unfold lost. by rewrite Hp.
  - eexists _, (Some (id, pk)). split; [done|]. unfold lost. cbn [ses_set_paths ses_paths]. split_and!.
    + left.
    + by rewrite lookup_insert_eq, Hp.
    + intros id' Hne. by rewrite lookup_insert_ne.
    + intros id'. rewrite lookup_insert_is_Some'. split; [intros [<-|?]; [by eexists|done]|tauto].
    + done.
    + done.
Qed.

(** What taking the packets [taken] out of the queues, one after the other, makes of the
    session [s]: [hs] is the handshake packet among them that is to be sent again as it
    is. *)
Record retransmitted s s' (hs : option Packet) (taken : list (Z * Packet)) : Prop := {
  rt_lost : forall id, lost s id = from_path id taken ++ lost s' id;
  rt_again : again s' = again s ++ frames_of taken;
  rt_rest : match hs with
    | None => (forall id, lost s' id = []) /\
        (ses_handshakeComplete s = false -> Forall (fun e => secure e.2 = true) taken)
    | Some pk => ses_handshakeComplete s = false /\ secure pk = false /\
        exists id init, taken = init ++ [(id, pk)] /\ Forall (fun e => secure e.2 = true) init
    end;
}.

Definition pending s (ids : list Z) : nat := sum_list_with (fun id => length (lost s id)) ids.

Lemma pending_take s s' ids id pk : NoDup ids -> id ∈ ids ->
  lost s id = pk :: lost s' id -> (forall id', id' <> id -> lost s' id' = lost s id') -> pending s ids = S (pending s' ids).
Proof.
  intros Hnd Hin Hid Hne. unfold pending. induction ids as [|x ids IH]; [by apply elem_of_nil in Hin|].
  inversion_clear Hnd as [|? ? Hx Hnd']. simpl. apply elem_of_cons in Hin as [->|Hin].
  - rewrite Hid. simpl. do 2 f_equal. clear IH. induction ids as [|y ids IH]; [done|]. simpl.
    inversion_clear Hnd' as [|? ? _ Hnd]. rewrite Hne by set_solver. rewrite IH by set_solver. done.
  - rewrite IH by done. rewrite (Hne x) by set_solver. lia.
Qed.

(** One more packet in front. *)
Lemma retransmitted_cons s s1 s2 s' hs taken id pk :
  lost s id = pk :: lost s1 id -> (forall id', id' <> id -> lost s1 id' = lost s id') ->
  ses_paths s2 = ses_paths s1 -> ses_handshakeComplete s2 = ses_handshakeComplete s ->
  again s2 = again s ++ (if secure pk then stream_frames (pk_Frames pk) else []) ->
  (secure pk = true \/ ses_handshakeComplete s = true) ->
  retransmitted s2 s' hs taken -> retransmitted s s' hs ((id, pk) :: taken).
Proof.
  intros Hid Hne Hp Hh Ha Hs [Hl Hag Hr].
  assert (Hl2 : forall id', lost s2 id' = lost s1 id') by (intros; unfold lost; by rewrite Hp).
  constructor.
  - intros id'. simpl. destruct (Z.eqb_spec id id') as [<-|Hn].
    + rewrite Hid, <- Hl2, Hl. done.
    + rewrite <- Hne, <- Hl2, Hl by done. done.
  - by rewrite Hag, Ha, <- app_assoc.
  - rewrite Hh in Hr. destruct hs as [pk'|].
    + destruct Hr as (Hc & Hs' & id' & init & -> & Hall). split_and!; [done..|].
      exists id', ((id, pk) :: init). split; [done|]. constructor; [|done]. destruct Hs; [done|congruence].
    + destruct Hr as [Hr Hall]. split; [done|]. intros Hc. constructor; [|by apply Hall]. destruct Hs; [done|congruence].
Qed.

(** The path of the last packet. *)
Definition last_path (taken : list (Z * Packet)) (pth : option Z) : option Z :=
  fold_left (fun _ e => Some e.1) taken pth.

Definition covers s (ids : list Z) : Prop := forall id, is_Some (ses_paths s !! id) <-> id ∈ ids.

Lemma getRetransmission_ok w ids orders b pth s :
  NoDup ids -> covers s ids -> Forall (fun o => o ≡ₚ ids) orders -> (pending s ids < length orders)%nat ->
  exists s' hs taken,
    getRetransmission w orders b pth s =
      Some (s', Ok (match taken with [] => b | _ => true end, hs, last_path taken pth)) /\
    retransmitted s s' hs taken.
Proof.
  intros Hnd. revert b pth s. induction orders as [|order orders IH]; intros b pth s Hc Ho Hp; [simpl in Hp; lia|].
  inversion_clear Ho as [|? ? Hord Ho']. cbn [getRetransmission].
  destruct (dequeue_ok order s) as (s1 & r & E & Hr); [intros id Hid; apply Hc; by rewrite <- Hord|].
  unfold mbind at 1. rewrite E. destruct r as [[id pk]|].
  2:{ destruct Hr as [-> Hr]. exists s, None, []. split; [done|]. constructor.
      - done.
      - by rewrite app_nil_r.
      - split; [|done]. intros id. destruct (ses_paths s !! id) as [p|] eqn:Ep; [|unfold lost; by rewrite Ep].
        apply Hr. rewrite Hord. apply Hc. by exists p. }
  destruct Hr as (Hin & Hid & Hne & Hdom & Hfr & Hh). rewrite Hord in Hin.
  pose proof (pending_take s s1 ids id pk Hnd Hin Hid Hne) as Hpend. simpl in Hp.
  assert (Hagain : again s1 = again s) by (unfold again; by rewrite Hfr).
  unfold mbind at 1, mget. fold (secure pk). destruct (secure pk) eqn:Es; simpl.
  - (* its frames go back to the queues *)
    destruct (retransmitFrames_ok w id (GetFramesForRetransmission pk) s1) as (s2 & E2 & Hp2 & Hh2 & Ha2);
      [by apply Hdom, Hc|].
    unfold mbind. rewrite E2.
    destruct (IH true (Some id) s2) as (s' & hs & taken & E3 & Hrt); [|done| |].
    + intros id'. rewrite Hp2, Hdom. apply Hc.
    + replace (pending s2 ids) with (pending s1 ids) by (unfold pending, lost; by rewrite Hp2). lia.
    + exists s', hs, ((id, pk) :: taken). rewrite E3. split; [by destruct taken|].
      eapply (retransmitted_cons s s1 s2); try done; [congruence| |by left].
      rewrite Es, Ha2, Hagain. f_equal. apply stream_frames_retransmission.
  - rewrite Hh. destruct (ses_handshakeComplete s) eqn:Ehs.
    + (* a handshake packet nobody needs any more *)
      destruct (IH true (Some id) s1) as (s' & hs & taken & E3 & Hrt); [|done|lia|].
      { intros id'. rewrite Hdom. apply Hc. }
      exists s', hs, ((id, pk) :: taken). rewrite E3. split; [by destruct taken|].
      eapply (retransmitted_cons s s1 s1); try done; [congruence| |by right]. rewrite Es, Hagain. by rewrite app_nil_r.
    + exists s1, (Some pk), [(id, pk)]. split; [done|]. constructor.
      * intros id'. simpl. destruct (Z.eqb_spec id id') as [<-|Hn]; [by rewrite Hid|]. by rewrite Hne.
      * unfold frames_of. simpl. rewrite Es. by rewrite app_nil_r.
      * split_and!; [done..|]. by exists id, [].
Qed.

(** C18: the check for retransmissions, in whatever order each of its rounds goes over the
    paths: it returns after at most one round more than there are lost packets, without
    panicking.  It takes packets out of the queues of the paths in their order; the
    stream frames of those sent with forward security, all of them and no others, are
    appended to the frames that are to be sent again.  Unless it hands back a handshake
    packet, which is the last one it took and happens only before the handshake is
    complete, it has emptied the queues of all paths, and before the handshake is
    complete it drops no packet; it reports a retransmission exactly when it
    took one, and the path of the last one. *)
Theorem getRetransmission_spec w ids orders s :
  NoDup ids -> covers s ids -> Forall (fun o => o ≡ₚ ids) orders -> (pending s ids < length orders)%nat ->
  exists s' hs taken,
    getRetransmission w orders false None s =
      Some (s', Ok (match taken with [] => false | _ => true end, hs, last_path taken None)) /\
    retransmitted s s' hs taken.
Proof.
  intros Hnd Hc Ho Hp. by apply getRetransmission_ok with ids.
Qed.
End retransmission.

(** ** What was sent is accounted for *)

Section accounts.
Context {C P : Type} `{SendAlgorithm C} `{ConnectionParametersManager P}.
Implicit Types s : session C P.
Implicit Types p : path C.
Implicit Types w : world C.

Lemma alarm_keeps (h : sentPacketHandler C) :
  sp_lastSentPacketNumber (updateLossDetectionAlarm h) = sp_lastSentPacketNumber h /\
  sp_packetHistory (updateLossDetectionAlarm h) = sp_packetHistory h.
Proof. unfold updateLossDetectionAlarm. by repeat case_match. Qed.

Lemma SentPacket_None (h : sentPacketHandler C) packet now h' : SentPacket h packet now = (h', None) ->
  sp_lastSentPacketNumber h < pk_PacketNumber packet /\ sp_lastSentPacketNumber h' = pk_PacketNumber packet /\
  sp_packetHistory h' = sp_packetHistory h ++
    (if HasRetransmittableFrames (pk_Frames packet) then [tracked_packet packet now] else []).
Proof.
  unfold SentPacket. destruct (_ <=? _) eqn:E1; [done|]. destruct (_ >? _); [done|].
  intros Heq. injection Heq as <-. rewrite !(proj1 (alarm_keeps _)), !(proj2 (alarm_keeps _)).
  rewrite strip_empty, negb_involutive. split; [lia|].
  destruct (HasRetransmittableFrames _); simpl; [done|]. by rewrite app_nil_r.
Qed.

(** *** The packer *)

Section packer.
Variables (env : fcEnv P) (crypto : CryptoSetup) (now : Z) (rand : option (Z * Z)).

Lemma sealedPacket_number ps hdr fs sealer lvl ps' pkt :
  sealedPacket now rand ps hdr fs sealer lvl = (ps', Ok (Some pkt)) -> pkt_number pkt = ph_PacketNumber hdr.
Proof.
  unfold sealedPacket. destruct (writeAndSealPacket _ _ _ _ _ _) as [ps1 [raw|e|]]; simpl; [|done..].
  by intros [= _ <-].
Qed.

Lemma PackPacket_number ps ps' pkt :
  PackPacket env crypto now rand ps = (ps', Ok (Some pkt)) ->
  pkt_number pkt = png_Peek (pth_packetNumberGenerator (ps_path ps)).
Proof.
  unfold PackPacket. destruct (HasCryptoStreamFrame _ _ _) as [[[m f] [|]]|e|]; [| |done..].
  - unfold packCryptoPacket. destruct (GetSealerForCryptoStream crypto) as [lvl sealer].
    destruct (PublicHeader_GetLength _ _); [|done..].
    destruct (PopCryptoStreamFrame _ _ _ _) as [[[m' f'] [frame|]]|e|]; [|done..]. apply sealedPacket_number.
  - destruct (GetSealer crypto) as [lvl sealer]. destruct (PublicHeader_GetLength _ _); [|done..].
    unfold finishPacket. destruct (isPing _).
    + intros E. repeat case_match; try done; by apply sealedPacket_number in E.
    + destruct (composeNextPacket _ _ _ _) as [s1 [fs|e|]]; [|done..].
      intros E. repeat case_match; try done; by apply sealedPacket_number in E.
Qed.
End packer.

(** *** The session *)

(** The paths, what was written and the quotas are the same. *)
Definition same_accounts s s' : Prop :=
  ses_paths s' = ses_paths s /\ ses_written s' = ses_written s /\ ses_scheduler s' = ses_scheduler s.

Lemma queueControlFrame_accounts f id s s' r : queueControlFrame f id s = Some (s', r) -> same_accounts s s'.
Proof. unfold queueControlFrame. destruct (ses_paths s !! id); [|destruct f]; by intros [= <- _]. Qed.

Lemma queueFrames_accounts {F} (frame : F -> Frame) id fs s s' r :
  mforeach (fun f => queueControlFrame (frame f) id) fs s = Some (s', r) -> same_accounts s s'.
Proof.
  revert s. induction fs as [|f fs IH]; intros s; simpl; [by intros [= <- _]|]. unfold mbind.
  destruct (queueControlFrame (frame f) id s) as [[s1 r1]|] eqn:E; [|done].
  destruct (queueControlFrame_accounts _ _ _ _ _ E) as (H1 & H2 & H3).
  destruct r1; [|by intros [= <- _]..]. intros (E1 & E2 & E3)%IH. split_and!; congruence.
Qed.

(** [p'] is [p] after the packet [pkt] was sent on it at [now]. *)
Definition sent_on p p' (pkt : Packet) (now : Z) : Prop :=
  let h := p_sentPacketHandler p in
  let h' := p_sentPacketHandler p' in
  pk_PacketNumber pkt = png_Peek (p_packetNumberGenerator p) /\
  sp_lastSentPacketNumber h < pk_PacketNumber pkt /\ sp_lastSentPacketNumber h' = pk_PacketNumber pkt /\
  sp_packetHistory h' = sp_packetHistory h ++
    (if HasRetransmittableFrames (pk_Frames pkt) then [tracked_packet pkt now] else []).

Lemma packing_packet w id s s1 pkt : packing w id PackPacket s = Some (s1, Ok (Some pkt)) ->
  exists p p1, ses_paths s !! id = Some p /\ ses_paths s1 = <[id := p1]> (ses_paths s) /\
    p_sentPacketHandler p1 = p_sentPacketHandler p /\ pkt_number pkt = png_Peek (p_packetNumberGenerator p) /\
    ses_written s1 = ses_written s /\ ses_scheduler s1 = ses_scheduler s.
Proof.
  unfold packing. destruct (ses_paths s !! id) as [p|] eqn:E; [|done].
  destruct (PackPacket _ _ _ _ _) as [ps r] eqn:Ep. intros [= <- ->].
  exists p. eexists. split_and!; try done. by apply PackPacket_number in Ep.
Qed.

Lemma sendPackedPacket_ok w pkt id s s' : sendPackedPacket w pkt id s = Some (s', Ok tt) ->
  exists p h, ses_paths s !! id = Some p /\ ses_paths s' = <[id := set_sentPacketHandler p h]> (ses_paths s) /\
    SentPacket (p_sentPacketHandler p) {| pk_PacketNumber := pkt_number pkt; pk_Frames := pkt_frames pkt;
      pk_Length := zlen (pkt_raw pkt); pk_EncryptionLevel := pkt_encryptionLevel pkt; pk_SendTime := zeroTime |}
      (w_now w) = (h, None) /\
    ses_written s' = ses_written s ++ [(id, pkt_raw pkt)] /\ w_write w id (pkt_raw pkt) = None /\
    ses_scheduler s' = ses_scheduler s.
Proof.
  unfold sendPackedPacket, mbind at 1, get_path. destruct (ses_paths s !! id) as [p|] eqn:E; [|done].
  destruct (SentPacket _ _ _) as [h err] eqn:Es. unfold mbind, put_path, mset. simpl.
  destruct err; simpl; [done|]. destruct (w_write w id (pkt_raw pkt)) eqn:Ew; simpl; [done|].
  intros [= <-]. by exists p, h.
Qed.

Lemma bind_inv {A B} (m : @M C P A) (k : A -> M B) s s' b :
  mbind m k s = Some (s', Ok b) -> exists s1 a, m s = Some (s1, Ok a) /\ k a s1 = Some (s', Ok b).
Proof. unfold mbind. destruct (m s) as [[s1 [a|e|]]|]; try done. by exists s1, a. Qed.

(** C30: when a packet is sent, the accounts agree: exactly one datagram was given to the
    socket of the path, and it took it; its packet number is the one the generator of
    the path announced, higher than those sent before, and becomes the last one sent; it is
    tracked for retransmission, with its frames and at that time, when it has a
    retransmittable frame; no other path changes; and the quota of the path, and no
    other, is one higher. *)
Theorem performPacketSending_accounts w wufs id s s' pkt :
  performPacketSending w wufs id s = Some (s', Ok (Some pkt)) ->
  exists p p' raw, ses_paths s !! id = Some p /\ ses_paths s' = <[id := p']> (ses_paths s) /\
    sent_on p p' pkt (w_now w) /\
    ses_written s' = ses_written s ++ [(id, raw)] /\ zlen raw = pk_Length pkt /\ w_write w id raw = None /\
    forall id', quota (sch_quotas (ses_scheduler s')) id' =
      if id' =? id then quota (sch_quotas (ses_scheduler s)) id +u 1 else quota (sch_quotas (ses_scheduler s)) id'.
Proof.
  intros Hs. unfold performPacketSending in Hs.
  apply bind_inv in Hs as (s0 & p0 & Hget & Hs).
  assert (s0 = s) as -> by (unfold get_path in Hget; destruct (ses_paths s !! id); congruence). clear Hget.
  apply bind_inv in Hs as (s1 & [] & Hping & Hs).
  assert (Hacc1 : same_accounts s s1)
    by (case_match; [by eapply queueControlFrame_accounts|by injection Hping as <-]).
  apply bind_inv in Hs as (s2 & [packet|] & Hpack & Hs); [|done].
  destruct (packing_packet _ _ _ _ _ Hpack) as (p & p1 & Hp & Hps2 & Hh1 & Hn & Hw2 & Hsch2).
  apply bind_inv in Hs as (s3 & [] & Hsend & Hs).
  destruct (sendPackedPacket_ok _ _ _ _ _ Hsend) as (p2 & h & Hp2 & Hps3 & Hsent & Hw3 & Hwr & Hsch3).
  apply bind_inv in Hs as (s4 & [] & Hwufs & Hs). apply queueFrames_accounts in Hwufs as Hacc4.
  injection Hs as <- <-.
  destruct Hacc1 as (E1 & E2 & E3), Hacc4 as (F1 & F2 & F3).
  rewrite Hps2, lookup_insert_eq in Hp2. injection Hp2 as <-. rewrite Hh1 in Hsent.
  destruct (SentPacket_None _ _ _ _ Hsent) as (Hlt & Hlast & Hhist).
  exists p, (set_sentPacketHandler p1 h), (pkt_raw packet). split_and!; try done.
  - by rewrite <- E1.
  - cbn [incQuota ses_set_scheduler ses_paths]. by rewrite F1, Hps3, Hps2, insert_insert_eq, E1.
  - cbn. by rewrite F2, Hw3, Hw2, E2.
  - intros id'. cbn. rewrite F3, Hsch3, Hsch2, E3. unfold quota.
    destruct (Z.eqb_spec id' id) as [->|Hne]; [by rewrite lookup_insert_eq|by rewrite lookup_insert_ne].
Qed.
End accounts.
