(* ===== verification/SessionExamples.v ===== *)
(** * A session to run

    A server session with its initial path; the theorems on sessions are applied to it,
    and its operations are evaluated. *)
From S2P Require Import Prelude Qerr ByteOrder Protocol WireStream WireControl AckRanges WireAck PublicHeader.
From S2P Require Import Frames ReceivedPackets Float32 RttStats SentPackets ConnParams FlowControl Congestion.
From S2P Require Import StreamFrameSorter StreamsMap Stream StreamFramer PacketNumberGenerator PacketPacker Path.
From S2P Require Import Scheduler Session Sending SentPacketsProofs FlowControlProofs StreamsMapProofs.
From S2P Require Import PacketPackerProofs SchedulerProofs SessionProofs SendingProofs.

Definition sample_world : world unit :=
  mkWorld 1000 (fun _ _ => None) sample_crypto (fun _ _ => None) (fun _ => tt) [0] [] [[0]; [0]; [0]] false.

Definition sample_session : session unit connectionParametersManager :=
  session_setup PerspectiveServer VersionMP 77 false (env_params example_env) (Some []) example_conn SchRTT sample_world.

(** The state after an operation. *)
Definition after {A} (m : M A) (s : session unit connectionParametersManager) : session unit connectionParametersManager :=
  match m s with Some (s', _) => s' | None => s end.

Definition sample_queued := after (queueControlFrame (FWindowUpdate (Build_WindowUpdateFrame 5 65536)) 0) sample_session.

(** The loop sends the frame that waits in one packet, then it has nothing to send. *)
Example sendPacket_runs :
  map fst (ses_written (after (sendPacket sample_world [sample_world; sample_world]) sample_queued)) = [0].
Proof. vm_compute. reflexivity. Qed.

Lemma performPacketSending_accounts_witness :
  match performPacketSending sample_world [] 0 sample_queued with
  | Some (s', Ok (Some pkt)) => exists raw, ses_written s' = ses_written sample_queued ++ [(0, raw)] /\ zlen raw = pk_Length pkt
  | _ => False
  end.
Proof.
  destruct (performPacketSending sample_world [] 0 sample_queued) as [[s' [[pkt|]|e|]]|] eqn:E;
    [|vm_compute in E; discriminate E..].
  destruct (performPacketSending_accounts sample_world [] 0 sample_queued s' pkt E)
    as (p & p' & raw & _ & _ & _ & Hw & Hl & _).
  exists raw. split; [exact Hw|exact Hl].
Defined.

(** A lost packet with a stream frame, on the initial path. *)
Definition sample_frame : StreamFrame := {| sf_StreamID := 5; sf_FinBit := false; sf_DataLenPresent := true;
  sf_Offset := 0; sf_Data := [1; 2; 3] |}.
Definition sample_lost_path : path unit :=
  let p := path_setup 0 example_conn VersionMP tt 0 in
  set_sentPacketHandler p (DuplicatePacket (p_sentPacketHandler p)
    {| pk_PacketNumber := 1; pk_Frames := [FStream sample_frame]; pk_Length := 50;
       pk_EncryptionLevel := EncryptionForwardSecure; pk_SendTime := 0 |}).
Definition sample_lost : session unit connectionParametersManager :=
  ses_set_paths sample_session {[ 0 := sample_lost_path ]}.

Lemma getRetransmission_spec_witness :
  exists s' hs taken, getRetransmission sample_world [[0]; [0]] false None sample_lost =
    Some (s', Ok (match taken with [] => false | _ => true end, hs, last_path taken None)) /\
  retransmitted sample_lost s' hs taken.
Proof.
  apply (getRetransmission_spec sample_world [0] [[0]; [0]] sample_lost).
  - apply NoDup_singleton.
  - intros id. cbn [sample_lost ses_set_paths ses_paths]. rewrite lookup_singleton_is_Some, list_elem_of_singleton.
    split; intros ->; reflexivity.
  - repeat constructor.
  - vm_compute. constructor.
Defined.

Example retransmission_queued :
  again (after (getRetransmission sample_world [[0]; [0]] false None) sample_lost) = [sample_frame].
Proof. vm_compute. reflexivity. Qed.

(** A client that creates paths, with a socket of its own for them. *)
Definition client_session : session unit connectionParametersManager :=
  session_setup PerspectiveClient VersionMP 77 true (env_params example_env) (Some [example_addr 7]) example_conn SchRTT
    sample_world.
(** It opens path 1; then its handshake is complete, it closes the path and the session. *)
Definition client_open := after (createPaths sample_world) client_session.
Definition client_closed := after (closePath 1 false) (ses_set_handshakeComplete client_open).
Definition client_end := after (closeLocal (Some (errors_New "done"))) client_closed.


(** Closing a path on which nothing was received panics, when the peer is to be told: the CLOSE_PATH frame takes the last of
    the ranges that were received, and there is none. *)
Theorem close_unused_path_panics : option_map snd (closePath 1 true client_open) = Some Panic.
Proof. vm_compute. reflexivity. Qed.

(** The peer of the client announces one address after the other, with the ports [first], [first + 1], ... *)
Definition announce (first : Z) (n : nat) : list Frame :=
  map (fun i => FAddAddress {| aa_IPVersion := 4; aa_Addr := {| ua_IP := [10; 0; 0; 9]; ua_Port := first + Z.of_nat i;
    ua_Zone := EmptyString |} |}) (seq 0 n).
(** The port of the remote address of a path. *)
Definition remote_port (id : Z) (s : session unit connectionParametersManager) : option Z :=
  (fun p => ua_Port (conn_RemoteAddr (p_conn p))) <$> ses_paths s !! id.

(** The path manager counts the IDs of its paths in a byte and does not look whether an ID is in use: after the peer announced
    128 addresses the new path takes the ID of path 1, and path 1 is gone from the map with the packets it has in
    flight. *)
Theorem path_id_wraps :
  let s := after (handleFrames 10 sample_world (announce 1000 127) 0) client_session in
  let s' := after (handleFrames 10 sample_world (announce 1127 1) 0) s in
  size (ses_paths s) = 129%nat /\ remote_port 255 s = Some 1126 /\ remote_port 1 s = Some 2 /\
  size (ses_paths s') = 129%nat /\ remote_port 1 s' = Some 1127.
Proof. vm_compute. split_and!; reflexivity. Qed.

(** A session on which no stream is open yet. *)
Definition sample_empty : session unit connectionParametersManager :=
  ses_set_streams sample_session (newStreamsMap PerspectiveServer) (ses_fcm sample_session).

Lemma garbageCollectStreams_spec_witness :
  exists s', garbageCollectStreams sample_empty = Some (s', Ok tt) /\ sm_inv (ses_streams s').
Proof.
  destruct (garbageCollectStreams_spec sample_empty) as (s' & E & I & _).
  - exact (new_sm_inv PerspectiveServer).
  - exists s'. split; [exact E|exact I].
Defined.

(** The crypto stream is open, and it stays. *)
Example collect_keeps_open : sm_openStreams (ses_streams (after garbageCollectStreams sample_session)) = [1].
Proof. vm_compute. reflexivity. Qed.

(** An ACK frame for path 5, of which the session has never heard. *)
Definition crash_ack : AckFrame := {| ack_PathID := 5; ack_LargestAcked := 1; ack_LowestAcked := 1;
  ack_AckRanges := []; ack_PacketReceivedTime := 0; ack_DelayTime := 0 |}.

(** A PATHS frame whose second entry is the unknown path. *)
Definition crash_paths : PathsFrame :=
  {| pf_MaxNumPaths := 255; pf_NumPaths := 2; pf_PathIDs := [0; 5]; pf_RemoteRTTs := [0; 3600 * Second] |}.

Lemma unknown_path_panics_witness :
  handleFrames 10 sample_world [FPing mkPingFrame; FAck crash_ack; FPing mkPingFrame] 0 sample_session =
    Some (sample_session, Panic) /\
  exists s', handleFrames 10 sample_world [FPing mkPingFrame; FPaths crash_paths] 0 sample_session = Some (s', Panic).
Proof.
  split.
  - apply (unknown_path_panics 10 sample_world [FPing mkPingFrame] [FPing mkPingFrame] 0 sample_session sample_session);
      vm_compute; reflexivity.
  - apply (unknown_path_panics 10 sample_world [FPing mkPingFrame] [] 0 sample_session sample_session)
      with (i := 1%nat) (pid := 5) (rtt := 3600 * Second); [vm_compute; reflexivity|cbn; lia|vm_compute; reflexivity..|].
    vm_compute. discriminate.
Defined.
