(* ===== verification/HandshakeMessage.v ===== *)
(** * Handshake messages and public resets (internal/handshake/handshake_message.go,
    internal/wire/public_reset.go)

    A handshake message is a tag and a map from tags to values; on the wire an index of
    the tags and the ends of their values precedes the values, in the order of the
    tags.  A public reset is such a message behind a header of its own. *)
From stdpp Require Import sorting.
From S2P Require Import Prelude Qerr ByteOrder Protocol PublicHeader ConnParams.

Definition CryptoMaxParams : Z := 128.
Definition CryptoParameterMaxLength : Z := 4000.

Record HandshakeMessage : Type := mkHM {
  hm_Tag : Z;
  hm_Data : gmap Z (list Z);
}.

(** ** Parsing *)

(** [binary.LittleEndian.Uint32] and [Uint64] of a slice of their length are [leVal]. *)

(** The loop over the index, 8 bytes at a time. *)
Fixpoint parseEntries (n : nat) (index : list Z) (dataStart : Z) (resultMap : gmap Z (list Z)) :
    reader (gmap Z (list Z)) :=
  match n with
  | O => rret resultMap
  | S n =>
      let tag := leVal (take 4 index) in
      let dataEnd := leVal (take 4 (drop 4 index)) in
      let dataLen := u32 (dataEnd - dataStart) in
      if dataLen >? CryptoParameterMaxLength
      then rfail (QuicError qerr.CryptoInvalidValueLength "value too long")
      else
      data <-- ReadFull (Z.to_nat dataLen) ;;
      parseEntries n (drop 8 index) dataEnd (<[tag := data]> resultMap)
  end.

Definition ParseHandshakeMessage : reader HandshakeMessage :=
  slice4 <-- ReadFull 4 ;;
  let messageTag := leVal slice4 in
  slice4 <-- ReadFull 4 ;;
  let nPairs := leVal slice4 in
  if nPairs >? CryptoMaxParams then rfail (ErrCode qerr.CryptoTooManyEntries)
  else
  index <-- ReadFull (Z.to_nat (u32 (nPairs * 8))) ;;
  resultMap <-- parseEntries (Z.to_nat nPairs) index 0 ∅ ;;
  rret (mkHM messageTag resultMap).

(** ** Writing *)

Definition getTagsSorted (h : HandshakeMessage) : list Z := merge_sort Z.le (map fst (map_to_list (hm_Data h))).

(** The index and the values: for each tag, the end of its value. *)
Fixpoint writeEntries (data : gmap Z (list Z)) (offset : Z) (tags : list Z) : list Z * list Z :=
  match tags with
  | [] => ([], [])
  | t :: tags =>
      let v := default [] (data !! t) in
      let offset := u32 (offset + u32 (zlen v)) in
      let '(index, values) := writeEntries data offset tags in
      (leEnc 4 t ++ leEnc 4 offset ++ index, v ++ values)
  end.

Definition HandshakeMessage_Write (h : HandshakeMessage) : list Z :=
  let '(index, values) := writeEntries (hm_Data h) 0 (getTagsSorted h) in
  leEnc 4 (hm_Tag h) ++ leEnc 2 (u16 (Z.of_nat (size (hm_Data h)))) ++ leEnc 2 0 ++ index ++ values.

(** ** Public resets *)

Record PublicReset : Type := { pr_RejectedPacketNumber : Z; pr_Nonce : Z }.

Definition TagPRST : Z := mkTag 80 82 83 84.
Definition TagRNON : Z := mkTag 82 78 79 78.
Definition TagRSEQ : Z := mkTag 82 83 69 81.

Definition WritePublicReset (connectionID rejectedPacketNumber nonceProof : Z) : list Z :=
  [10] ++ leEnc 8 connectionID ++ leEnc 4 TagPRST ++ leEnc 4 2 ++ leEnc 4 TagRNON ++ leEnc 4 8 ++
  leEnc 4 TagRSEQ ++ leEnc 4 16 ++ leEnc 8 nonceProof ++ leEnc 8 rejectedPacketNumber.

Definition ParsePublicReset : reader PublicReset :=
  msg <-- ParseHandshakeMessage ;;
  if negb (hm_Tag msg =? TagPRST) then rfail (errors_New "wrong public reset tag")
  else
  match hm_Data msg !! TagRSEQ with
  | None => rfail (errors_New "RSEQ missing")
  | Some rseq =>
      if negb (zlen rseq =? 8) then rfail (errors_New "invalid RSEQ tag")
      else
      match hm_Data msg !! TagRNON with
      | None => rfail (errors_New "RNON missing")
      | Some rnon =>
          if negb (zlen rnon =? 8) then rfail (errors_New "invalid RNON tag")
          else rret {| pr_RejectedPacketNumber := leVal rseq; pr_Nonce := leVal rnon |}
      end
  end.

(** ** What is parsed is bounded *)

(** A message within the limits of the protocol. *)
Definition bounded_data (m : gmap Z (list Z)) : Prop :=
  forall tag v, m !! tag = Some v -> zlen v <= CryptoParameterMaxLength.

Lemma bounded_insert m tag v : bounded_data m -> zlen v <= CryptoParameterMaxLength -> bounded_data (<[tag := v]> m).
Proof. intros Hm Hv tag' v'. rewrite lookup_insert_Some. intros [[_ <-]|[_ ?]]; [done|by eapply Hm]. Qed.

Lemma parseEntries_bounded n index start m r :
  bounded_data m -> (size m + n <= 128)%nat ->
  match parseEntries n index start m r with
  | Ok (m', r') => bounded_data m' /\ (size m' <= 128)%nat /\ (length r' <= length r)%nat
  | Err _ => True
  | Panic => False
  end.
Proof.
  revert index start m r. induction n as [|n IH]; intros index start m r Hm Hn; cbn [parseEntries].
  { split_and!; [done|lia..]. }
  set (tag := leVal (take 4 index)). set (dataEnd := leVal (take 4 (drop 4 index))).
  set (len := u32 (dataEnd - start)). pose proof (u32_range (dataEnd - start) : is_u32 len) as Hlen. unfold is_u32 in Hlen.
  destruct (len >? CryptoParameterMaxLength) eqn:E; [done|]. unfold rbind, ReadFull.
  destruct (Z.to_nat len <=? length r)%nat; [|by destruct r].
  specialize (IH (drop 8 index) dataEnd (<[tag := take (Z.to_nat len) r]> m) (drop (Z.to_nat len) r)).
  rewrite length_drop in IH.
  destruct (parseEntries n _ _ _ _) as [[m' r']|e|]; [|done|]; [destruct IH as (? & ? & ?)|apply IH].
  1,4: apply bounded_insert; [done|]; unfold zlen; rewrite length_take; lia.
  1,3: rewrite map_size_insert; destruct (m !! tag); simpl; lia.
  split_and!; [done|done|lia].
Qed.

Lemma ReadFull_inv n r l r' : ReadFull n r = Ok (l, r') -> length l = n /\ r = l ++ r'.
Proof.
  unfold ReadFull. destruct (_ <=? _)%nat eqn:E; [|by destruct r]. intros [= <- <-].
  apply Nat.leb_le in E. rewrite length_take, take_drop. split; [lia|done].
Qed.

Lemma ParseHandshakeMessage_limits r :
  match ParseHandshakeMessage r with
  | Ok (h, r') => bounded_data (hm_Data h) /\ (size (hm_Data h) <= 128)%nat /\ (length r' + 8 <= length r)%nat
  | Err _ => True
  | Panic => False
  end.
Proof.
  assert (Hread : forall n r0, match ReadFull n r0 with Panic => False | Ok (l, r1) => (length r1 + n = length r0)%nat | _ => True end).
  { intros n r0. destruct (ReadFull n r0) as [[l r1]|e|] eqn:E; [|done|].
    - apply ReadFull_inv in E as [<- ->]. rewrite length_app. lia.
    - unfold ReadFull in E. by repeat case_match. }
  unfold ParseHandshakeMessage, rbind. cbv beta iota zeta.
  pose proof (Hread 4%nat r) as H1. destruct (ReadFull 4 r) as [[l1 r1]|e|]; [|done..].
  pose proof (Hread 4%nat r1) as H2. destruct (ReadFull 4 r1) as [[l2 r2]|e|]; [|done..].
  destruct (leVal l2 >? CryptoMaxParams) eqn:E; [done|]. 
  pose proof (Hread (Z.to_nat (u32 (leVal l2 * 8))) r2) as H3. destruct (ReadFull _ r2) as [[index r3]|e|]; [|done..].
  pose proof (parseEntries_bounded (Z.to_nat (leVal l2)) index 0 ∅ r3) as H4. unfold CryptoMaxParams in E.
  destruct (parseEntries _ _ _ _ _) as [[m r4]|e|]; [|done|].
  - destruct H4 as (? & ? & ?); [intros tag v; by rewrite lookup_empty|rewrite map_size_empty; lia|].
    split_and!; [done..|lia].
  - apply H4; [intros tag v; by rewrite lookup_empty|rewrite map_size_empty; lia].
Qed.

(** Parsing a handshake message never panics, whatever the bytes are, although the
    lengths come from the peer and are subtracted from each other: a message that is
    accepted has at most 128 values of at most 4000 bytes each, so that the memory the
    parser allocates is bounded before it is allocated. *)
Theorem ParseHandshakeMessage_bounded r :
  match ParseHandshakeMessage r with
  | Ok (h, r') => bounded_data (hm_Data h) /\ (size (hm_Data h) <= 128)%nat /\ (length r' + 8 <= length r)%nat
  | Err _ => True
  | Panic => False
  end.
Proof. apply ParseHandshakeMessage_limits. Qed.

(** The values of a message are made of the bytes that were read. *)
Lemma parseEntries_gives n index start m :
  (forall tag v, m !! tag = Some v -> bytes_ok v) ->
  reader_gives (fun m => forall tag v, m !! tag = Some v -> bytes_ok v) (parseEntries n index start m).
Proof.
  revert index start m. induction n as [|n IH]; intros index start m Hm; cbn [parseEntries]; [by apply rret_gives|].
  destruct (_ >? _); [apply rfail_gives|]. eapply rbind_gives; [apply ReadFull_gives|]. intros data [Hd _]. apply IH.
  intros tag v. rewrite lookup_insert_Some. intros [[_ <-]|[_ ?]]; [done|by eapply Hm].
Qed.

Lemma ParseHandshakeMessage_gives :
  reader_gives (fun h => forall tag v, hm_Data h !! tag = Some v -> bytes_ok v) ParseHandshakeMessage.
Proof.
  unfold ParseHandshakeMessage. eapply rbind_gives; [apply ReadFull_gives|]. intros l1 _.
  eapply rbind_gives; [apply ReadFull_gives|]. intros l2 _. cbv zeta. destruct (_ >? _); [apply rfail_gives|].
  eapply rbind_gives; [apply ReadFull_gives|]. intros index _.
  eapply rbind_gives; [apply parseEntries_gives; intros tag v; by rewrite lookup_empty|]. intros m Hm. by apply rret_gives.
Qed.

(** ** Round trips *)

(** A message that can be sent. *)
Record message_ok (h : HandshakeMessage) : Prop := {
  hm_ok_tag : is_u32 (hm_Tag h);
  hm_ok_tags : forall tag, is_Some (hm_Data h !! tag) -> is_u32 tag;
  hm_ok_values : bounded_data (hm_Data h);
  hm_ok_size : (size (hm_Data h) <= 128)%nat;
}.

Lemma getTagsSorted_spec h :
  NoDup (getTagsSorted h) /\ StronglySorted Z.le (getTagsSorted h) /\ length (getTagsSorted h) = size (hm_Data h) /\
  (forall tag, tag ∈ getTagsSorted h <-> is_Some (hm_Data h !! tag)).
Proof.
  unfold getTagsSorted. pose proof (merge_sort_Permutation Z.le (map fst (map_to_list (hm_Data h)))) as Hp.
  split_and!.
  - rewrite Hp. apply NoDup_fst_map_to_list.
  - apply StronglySorted_merge_sort; typeclasses eauto.
  - rewrite Hp, length_map. by rewrite length_map_to_list.
  - intros tag. rewrite Hp, list_elem_of_fmap. split.
    + intros ([t v] & -> & Hin%elem_of_map_to_list). by exists v.
    + intros [v Hv]. exists (tag, v). split; [done|by apply elem_of_map_to_list].
Qed.

Definition collect (data : gmap Z (list Z)) (tags : list Z) (m : gmap Z (list Z)) : gmap Z (list Z) :=
  fold_left (fun m t => <[t := default [] (data !! t)]> m) tags m.

Lemma collect_lookup data tags m t :
  collect data tags m !! t = if bool_decide (t ∈ tags) then Some (default [] (data !! t)) else m !! t.
Proof.
  revert m. induction tags as [|x tags IH]; intros m; simpl; [done|]. rewrite IH.
  destruct (decide (t = x)) as [->|Hne].
  - rewrite (bool_decide_eq_true_2 (x ∈ x :: tags)) by left. rewrite lookup_insert_eq. by case_match.
  - rewrite lookup_insert_ne by done. by rewrite (bool_decide_ext (t ∈ x :: tags) (t ∈ tags)) by set_solver.
Qed.

Definition total (data : gmap Z (list Z)) (tags : list Z) : Z := foldr (fun t n => zlen (default [] (data !! t)) + n) 0 tags.

Lemma total_nonneg data tags : 0 <= total data tags.
Proof. induction tags; simpl; [done|]. pose proof (zlen_nonneg (default [] (data !! a))). lia. Qed.

(** One entry of the index. *)
Lemma entry_fields t e index : is_u32 t -> is_u32 e ->
  leVal (take 4 (leEnc 4 t ++ leEnc 4 e ++ index)) = t /\
  leVal (take 4 (drop 4 (leEnc 4 t ++ leEnc 4 e ++ index))) = e /\
  drop 8 (leEnc 4 t ++ leEnc 4 e ++ index) = index.
Proof.
  intros Ht He. pose proof (leEnc_length 4 t) as Lt. pose proof (leEnc_length 4 e) as Le. split_and!.
  - rewrite take_app_length' by done. by apply leVal_leEnc.
  - rewrite drop_app_length', take_app_length' by done. by apply leVal_leEnc.
  - rewrite app_assoc. apply drop_app_length'. by rewrite length_app, Lt, Le.
Qed.

Lemma parse_written data tags off m r :
  Forall is_u32 tags -> bounded_data data -> 0 <= off -> off + total data tags < 2 ^ 32 ->
  let '(index, values) := writeEntries data off tags in
  zlen index = 8 * zlen tags /\ parseEntries (length tags) index off m (values ++ r) = Ok (collect data tags m, r).
Proof.
  intros Ht Hb. revert off m. induction tags as [|t tags IH]; intros off m Hoff Hlt; [done|].
  inversion_clear Ht as [|? ? Ht1 Ht2]. simpl in Hlt.
  set (v := default [] (data !! t)) in *. pose proof (zlen_nonneg v) as Hv0.
  assert (Hv : zlen v <= CryptoParameterMaxLength).
  { unfold v. destruct (data !! t) as [l|] eqn:E; [by eapply Hb|done]. }
  pose proof (total_nonneg data tags) as Htot. unfold CryptoParameterMaxLength in Hv.
  assert (Eoff : u32 (off + u32 (zlen v)) = off + zlen v) by (rewrite !u32_small; unfold is_u32; rewrite ?u32_small; unfold is_u32; lia).
  cbn [writeEntries]. fold v. rewrite Eoff.
  specialize (IH Ht2 (off + zlen v) (<[t := v]> m) ltac:(lia) ltac:(lia)).
  destruct (writeEntries data (off + zlen v) tags) as [index values]. destruct IH as [Hlen IH]. split.
  { rewrite !zlen_app, zlen_cons, Hlen. unfold zlen at 1 2. rewrite !leEnc_length. lia. }
  destruct (entry_fields t (off + zlen v) index Ht1 ltac:(unfold is_u32; lia)) as (E1 & E2 & E3).
  cbn [length parseEntries]. rewrite E1, E2, E3. replace (off + zlen v - off) with (zlen v) by lia.
  rewrite (u32_small (zlen v)) by (unfold is_u32; lia).
  replace (zlen v >? CryptoParameterMaxLength) with false by (unfold CryptoParameterMaxLength; lia).
  unfold rbind, zlen. rewrite Nat2Z.id, <- app_assoc, ReadFull_app. exact IH.
Qed.

Lemma total_bound data tags : bounded_data data -> total data tags <= 4000 * zlen tags.
Proof.
  intros Hb. induction tags as [|t tags IH]; [done|]. rewrite zlen_cons. simpl.
  assert (zlen (default [] (data !! t)) <= 4000); [|lia].
  destruct (data !! t) eqn:E; [by eapply Hb|done].
Qed.

Lemma HandshakeMessage_parse h r : message_ok h ->
  ParseHandshakeMessage (HandshakeMessage_Write h ++ r) = Ok (h, r) /\ StronglySorted Z.lt (getTagsSorted h).
Proof.
  intros [Htag Htags Hvals Hsize]. destruct (getTagsSorted_spec h) as (Hnd & Hsorted & Hlen & Hel). split.
  2:{ clear -Hnd Hsorted. induction Hsorted as [|t tags Hs IH Hle]; [constructor|].
      inversion_clear Hnd as [|? ? Hin Hnd']. constructor; [by apply IH|].
      apply List.Forall_forall. intros x Hx. rewrite List.Forall_forall in Hle. specialize (Hle x Hx).
      assert (t <> x); [|lia]. intros ->. apply Hin. by apply list_elem_of_In. }
  assert (Hu : Forall is_u32 (getTagsSorted h)) by (apply List.Forall_forall; intros t Ht; by apply Htags, Hel, list_elem_of_In).
  pose proof (total_bound (hm_Data h) (getTagsSorted h) Hvals) as Htot. unfold zlen in Htot. rewrite Hlen in Htot.
  pose proof (parse_written (hm_Data h) (getTagsSorted h) 0 ∅ r Hu Hvals ltac:(lia) ltac:(lia)) as Hp.
  unfold HandshakeMessage_Write. destruct (writeEntries (hm_Data h) 0 (getTagsSorted h)) as [index values].
  destruct Hp as [Hindex Hp]. unfold zlen in Hindex. rewrite Hlen in Hindex, Hp.
  assert (Hcount : leEnc 2 (u16 (Z.of_nat (size (hm_Data h)))) ++ leEnc 2 0 = leEnc 4 (Z.of_nat (size (hm_Data h)))).
  { rewrite u16_small by (unfold is_u16; lia). cbn [leEnc app].
    rewrite (Z.div_small (Z.of_nat (size (hm_Data h))) 256) by lia. reflexivity. }
  unfold ParseHandshakeMessage, rbind. cbv beta iota zeta.
  rewrite <- !app_assoc, (app_assoc (leEnc 2 _)), Hcount.
  rewrite <- (leEnc_length 4 (hm_Tag h)) at 1. rewrite ReadFull_app, leVal_leEnc by exact Htag.
  rewrite <- (leEnc_length 4 (Z.of_nat (size (hm_Data h)))) at 1. rewrite ReadFull_app, leVal_leEnc by lia.
  replace (Z.of_nat (size (hm_Data h)) >? CryptoMaxParams) with false by (unfold CryptoMaxParams; lia).
  rewrite u32_small by (unfold is_u32; lia).
  replace (Z.to_nat (Z.of_nat (size (hm_Data h)) * 8)) with (length index) by lia. rewrite ReadFull_app, Nat2Z.id, Hp.
  unfold rret. destruct h as [tag data]. simpl in *. do 3 f_equal. apply map_eq. intros t.
  rewrite collect_lookup. destruct (data !! t) as [v|] eqn:E.
  - rewrite bool_decide_eq_true_2; [done|]. apply Hel. by rewrite E.
  - rewrite bool_decide_eq_false_2; [by rewrite lookup_empty|]. rewrite Hel, E. by intros [].
Qed.

(** A handshake message within the limits is parsed back as it was, whatever
    follows it; its tags are on the wire in ascending order, each once. *)
Theorem HandshakeMessage_roundtrip h r : message_ok h ->
  ParseHandshakeMessage (HandshakeMessage_Write h ++ r) = Ok (h, r) /\ StronglySorted Z.lt (getTagsSorted h).
Proof. apply HandshakeMessage_parse. Qed.

(** The length of a message on the wire. *)
Lemma writeEntries_length data off tags :
  zlen (writeEntries data off tags).1 = 8 * zlen tags /\ zlen (writeEntries data off tags).2 = total data tags.
Proof.
  revert off. induction tags as [|t tags IH]; intros off; [done|]. cbn [writeEntries].
  specialize (IH (u32 (off + u32 (zlen (default [] (data !! t)))))). destruct (writeEntries _ _ tags) as [index values].
  cbn [fst snd] in *. destruct IH as [IH1 IH2]. rewrite !zlen_app, zlen_cons, IH1, IH2. unfold zlen at 1 2.
  rewrite !leEnc_length. simpl. lia.
Qed.

Lemma HandshakeMessage_length h :
  zlen (HandshakeMessage_Write h) = 8 + 8 * Z.of_nat (size (hm_Data h)) + total (hm_Data h) (getTagsSorted h).
Proof.
  unfold HandshakeMessage_Write. pose proof (writeEntries_length (hm_Data h) 0 (getTagsSorted h)) as [H1 H2].
  destruct (writeEntries _ _ _) as [index values]. cbn [fst snd] in *. rewrite !zlen_app, H1, H2.
  destruct (getTagsSorted_spec h) as (_ & _ & <- & _). unfold zlen. rewrite !leEnc_length. lia.
Qed.

(** ** Public resets are handshake messages *)

Definition resetMessage (rejectedPacketNumber nonceProof : Z) : HandshakeMessage :=
  mkHM TagPRST {[ TagRNON := leEnc 8 nonceProof; TagRSEQ := leEnc 8 rejectedPacketNumber ]}.

Lemma reset_nonce pn nonce : hm_Data (resetMessage pn nonce) !! TagRNON = Some (leEnc 8 nonce).
Proof. apply lookup_insert_eq. Qed.
Lemma reset_seq pn nonce : hm_Data (resetMessage pn nonce) !! TagRSEQ = Some (leEnc 8 pn).
Proof. unfold resetMessage. cbn [hm_Data]. rewrite lookup_insert_ne by done. apply lookup_singleton_eq. Qed.

(** The bytes that are written one by one are those of a message. *)
Lemma WritePublicReset_message connectionID pn nonce :
  WritePublicReset connectionID pn nonce = [10] ++ leEnc 8 connectionID ++ HandshakeMessage_Write (resetMessage pn nonce).
Proof.
  unfold WritePublicReset, HandshakeMessage_Write.
  change (getTagsSorted (resetMessage pn nonce)) with [TagRNON; TagRSEQ].
  replace (size (hm_Data (resetMessage pn nonce))) with 2%nat by done.
  cbn [writeEntries]. rewrite reset_nonce, reset_seq. cbn [default]. unfold id, zlen. rewrite !leEnc_length.
  cbn [hm_Tag resetMessage]. rewrite !app_nil_r. by rewrite <- !app_assoc.
Qed.

Lemma resetMessage_ok pn nonce : message_ok (resetMessage pn nonce).
Proof.
  constructor.
  - unfold is_u32. vm_compute. intuition discriminate.
  - intros tag. unfold resetMessage. cbn [hm_Data]. rewrite lookup_insert_is_Some', lookup_singleton_is_Some.
    intros [<-|<-]; unfold is_u32; vm_compute; intuition discriminate.
  - intros tag v. unfold resetMessage. cbn [hm_Data]. rewrite lookup_insert_Some, lookup_singleton_Some.
    unfold CryptoParameterMaxLength, zlen. intros [[_ <-]|[_ [_ <-]]]; rewrite leEnc_length; lia.
  - replace (size _) with 2%nat by done. lia.
Qed.

(** A public reset survives the wire: for every version, the header of the packet is
    parsed as that of a reset for the connection, without a packet number and
    consuming exactly the header, and from the rest the rejected packet number and the
    nonce are parsed. *)
Theorem public_reset_roundtrip connectionID pn nonce version r :
  is_u64 connectionID -> connectionID <> 0 -> is_u64 pn -> is_u64 nonce ->
  exists hdr body, ParsePublicHeader PerspectiveServer version (WritePublicReset connectionID pn nonce ++ r) = Ok (hdr, body) /\
    ph_ResetFlag hdr = true /\ ph_VersionFlag hdr = false /\ ph_ConnectionID hdr = connectionID /\
    ParsePublicReset body = Ok ({| pr_RejectedPacketNumber := pn; pr_Nonce := nonce |}, r).
Proof.
  intros Hid Hnz Hpn Hnonce. rewrite WritePublicReset_message, <- !app_assoc.
  eexists _, (HandshakeMessage_Write (resetMessage pn nonce) ++ r). split_and!.
  - unfold ParsePublicHeader, rbind. cbn [ReadByte app].
    change (Z.land 10 2 >? 0) with true. change (Z.land 10 1 >? 0) with false. change (Z.land 10 8 =? 0) with false.
    change (Z.land 10 64 >? 0) with false. change (Z.land 10 4 >? 0) with false.
    cbn [andb negb orb]. rewrite !andb_false_r. change (ReadUint64 LittleEndian) with leReadUint64.
    cbn [negb andb]. rewrite le_read_enc64 by done.
    replace (connectionID =? 0) with false by lia. reflexivity.
  - done.
  - done.
  - done.
  - destruct (HandshakeMessage_parse (resetMessage pn nonce) r (resetMessage_ok pn nonce)) as [Hp _].
    unfold ParsePublicReset, rbind. rewrite Hp, reset_seq, reset_nonce. cbn [hm_Tag resetMessage].
    rewrite Z.eqb_refl. unfold zlen. rewrite !leEnc_length.
    change (negb (Z.of_nat 8 =? 8)) with false. cbn [negb]. unfold rret. by rewrite !leVal_leEnc.
Qed.

Lemma HandshakeMessage_roundtrip_witness :
  ParseHandshakeMessage (HandshakeMessage_Write (resetMessage 7 9) ++ [1]) = Ok (resetMessage 7 9, [1]).
Proof. apply (HandshakeMessage_roundtrip (resetMessage 7 9) [1]). apply resetMessage_ok. Defined.

Lemma public_reset_roundtrip_witness :
  exists hdr body, ParsePublicHeader PerspectiveServer VersionMP (WritePublicReset 77 5 6 ++ []) = Ok (hdr, body) /\
    ParsePublicReset body = Ok ({| pr_RejectedPacketNumber := 5; pr_Nonce := 6 |}, []).
Proof.
  destruct (public_reset_roundtrip 77 5 6 VersionMP []) as (hdr & body & E & _ & _ & _ & Er);
    [unfold is_u64; lia|lia|unfold is_u64; lia|unfold is_u64; lia|].
  exists hdr, body. split; [exact E|exact Er].
Defined.
