(* ===== verification/Aead.v ===== *)
(** * Authenticated encryption and key derivation (internal/crypto)

    The null AEADs that protect the packets before keys exist, the two AES-GCM AEADs
    with their nonces, and the derivation of the keys of both sides from the data of
    the handshake.  FNV-1a with 64 bits is written out; the ciphers, the 128-bit hash, the
    HKDF and the TLS library are parameters, with what the code relies on as
    hypotheses of the theorems. *)
From Stdlib Require Import ZifyBool.
From S2P Require Import Prelude ByteOrder Protocol.

(** The bytes of a string constant. *)
Definition bytesOf (s : string) : list Z :=
  map (fun c => Z.of_N (Ascii.N_of_ascii c)) (String.list_ascii_of_string s).

(** [crypto.AEAD]; the destination of [Open] and [Seal] is a buffer for the result only. *)
Record AEAD : Type := mkAEAD {
  aead_Open : list Z -> Z -> list Z -> result (list Z);
  aead_Seal : list Z -> Z -> list Z -> list Z;
  aead_Overhead : Z;
}.

(** What [a] seals, [b] opens. *)
Definition opens (a b : AEAD) : Prop :=
  forall plain pn ad, aead_Open b (aead_Seal a plain pn ad) pn ad = Ok plain.

(** ** hash/fnv, 64 bits *)

Definition fnv64a_offset : Z := 14695981039346656037.
Definition fnv64a_prime : Z := 1099511628211.

Definition fnv64a_step (h b : Z) : Z := u64 (Z.lxor h b * fnv64a_prime).

(** [hash.Write(data)]; [hash.Sum64()] is the state. *)
Definition fnv64a_Write (h : Z) (data : list Z) : Z := fold_left fnv64a_step data h.

Definition HashCert (cert : list Z) : Z := fnv64a_Write fnv64a_offset cert.

(** ** null_aead_fnv64a.go *)

(** [binary.BigEndian.Uint64] of a slice of 8 bytes is [leVal (rev l)]. *)
Definition nullAEADFNV64a_Open (src : list Z) (packetNumber : Z) (associatedData : list Z) : result (list Z) :=
  if zlen src <? 8 then Err (errors_New "NullAEAD: ciphertext cannot be less than 8 bytes long")
  else
  let n := (length src - 8)%nat in
  let data := take n src in
  let hash := fnv64a_Write (fnv64a_Write fnv64a_offset associatedData) data in
  if negb (hash =? leVal (rev (drop n src)))
  then Err (errors_New "NullAEAD: failed to authenticate received data")
  else Ok data.

Definition nullAEADFNV64a_Seal (src : list Z) (packetNumber : Z) (associatedData : list Z) : list Z :=
  src ++ beEnc 8 (fnv64a_Write (fnv64a_Write fnv64a_offset associatedData) src).

Definition nullAEADFNV64a : AEAD := mkAEAD nullAEADFNV64a_Open nullAEADFNV64a_Seal 8.

(** ** null_aead_fnv128a.go and null_aead.go *)

Section null_fnv128a.
(** [fnv128a.New()], all that is written and [Sum128()]: the high and the low half. *)
Variable sum128 : list Z -> Z * Z.

Definition nullAEADFNV128a_Open (perspective : Perspective) (src : list Z) (packetNumber : Z)
    (associatedData : list Z) : result (list Z) :=
  if zlen src <? 12 then Err (errors_New "NullAEAD: ciphertext cannot be less than 12 bytes long")
  else
  let '(testHigh, testLow) := sum128 (associatedData ++ drop 12 src ++
    match perspective with PerspectiveServer => bytesOf "Client" | PerspectiveClient => bytesOf "Server" end) in
  let low := leVal (take 8 src) in
  let high := leVal (take 4 (drop 8 src)) in
  if negb (u32 (Z.land testHigh 4294967295) =? high) || negb (testLow =? low)
  then Err (errors_New "NullAEAD: failed to authenticate received data")
  else Ok (drop 12 src).

Definition nullAEADFNV128a_Seal (perspective : Perspective) (src : list Z) (packetNumber : Z)
    (associatedData : list Z) : list Z :=
  let '(high, low) := sum128 (associatedData ++ src ++
    match perspective with PerspectiveServer => bytesOf "Server" | PerspectiveClient => bytesOf "Client" end) in
  leEnc 8 low ++ leEnc 4 (u32 high) ++ src.

Definition nullAEADFNV128a (perspective : Perspective) : AEAD :=
  mkAEAD (nullAEADFNV128a_Open perspective) (nullAEADFNV128a_Seal perspective) 12.

Definition NewNullAEAD (p : Perspective) (v : Z) : AEAD :=
  if UsesTLS v then nullAEADFNV64a else nullAEADFNV128a p.
End null_fnv128a.

(** ** AES-GCM (aesgcm12_aead.go, aesgcm_aead.go) *)

(** [cipher.AEAD]; [Open] and [Seal] are given the nonce, the text and the associated data. *)
Record cipherAEAD : Type := mkCipher {
  cipher_Open : list Z -> list Z -> list Z -> result (list Z);
  cipher_Seal : list Z -> list Z -> list Z -> list Z;
  cipher_Overhead : Z;
}.

(** The nonce of the first is the IV and the packet number; the second adds the packet
    number to the end of the IV by [xor]. *)
Definition gcm12_makeNonce (iv : list Z) (packetNumber : Z) : list Z :=
  take 4 (iv ++ replicate 4 0) ++ leEnc 8 (u64 packetNumber).

Definition ivLen : Z := 12.

Definition gcm_makeNonce (iv : list Z) (packetNumber : Z) : list Z :=
  zip_with Z.lxor (replicate 4 0 ++ beEnc 8 (u64 packetNumber)) iv.

Section aesgcm.
(** [NewCipher] of a key and [NewGCM] of that cipher. *)
Variable newGCM : list Z -> result cipherAEAD.

Definition gcmAEAD (makeNonce : list Z -> Z -> list Z) (encrypter decrypter : cipherAEAD) (otherIV myIV : list Z) : AEAD :=
  mkAEAD (fun src packetNumber associatedData => cipher_Open decrypter (makeNonce otherIV packetNumber) src associatedData)
         (fun src packetNumber associatedData => cipher_Seal encrypter (makeNonce myIV packetNumber) src associatedData)
         (cipher_Overhead encrypter).

Definition NewAEADAESGCM12 (otherKey myKey otherIV myIV : list Z) : result AEAD :=
  if negb (zlen myKey =? 16) || negb (zlen otherKey =? 16) || negb (zlen myIV =? 4) || negb (zlen otherIV =? 4)
  then Err (errors_New "AES-GCM: expected 16-byte keys and 4-byte IVs")
  else
  let* encrypter := newGCM myKey in
  let* decrypter := newGCM otherKey in
  Ok (gcmAEAD gcm12_makeNonce encrypter decrypter otherIV myIV).

Definition NewAEADAESGCM (otherKey myKey otherIV myIV : list Z) : result AEAD :=
  if negb (zlen otherIV =? ivLen) || negb (zlen myIV =? ivLen)
  then Err (errors_New "AES-GCM: expected 12 byte IVs")
  else
  let* encrypter := newGCM myKey in
  let* decrypter := newGCM otherKey in
  Ok (gcmAEAD gcm_makeNonce encrypter decrypter otherIV myIV).

(** ** key_derivation_quic_crypto.go *)

(** The first bytes of [hkdf.New(sha256.New, secret, salt, info)]. *)
Variable hkdf : list Z -> list Z -> list Z -> nat -> result (list Z).

(** The key and the IV are overwritten in place; here the new ones are returned. *)
Definition diversify (key iv divNonce : list Z) : result (list Z * list Z) :=
  let* out := hkdf (key ++ iv) divNonce (bytesOf "QUIC key diversification") (length key + length iv) in
  Ok (take (length key) out, drop (length key) out).

(** The other side's key, our key, the other side's IV and our IV. *)
Definition deriveKeys (forwardSecure : bool) (sharedSecret nonces : list Z) (connID : Z)
    (chlo scfg cert divNonce : list Z) (keyLen : nat) (swap : bool) :
    result (list Z * list Z * list Z * list Z) :=
  let info := (if forwardSecure then bytesOf "QUIC forward secure key expansion" else bytesOf "QUIC key expansion") ++
    [0] ++ leEnc 8 (u64 connID) ++ chlo ++ scfg ++ cert in
  let* s := hkdf sharedSecret nonces info (2 * keyLen + 2 * 4) in
  let key1 := take keyLen s in
  let key2 := take keyLen (drop keyLen s) in
  let iv1 := take 4 (drop (2 * keyLen) s) in
  let iv2 := drop (2 * keyLen + 4) s in
  let* (key2, iv2) := if forwardSecure then Ok (key2, iv2) else diversify key2 iv2 divNonce in
  Ok (if swap then (key2, key1, iv2, iv1) else (key1, key2, iv1, iv2)).

Definition DeriveQuicCryptoAESKeys (forwardSecure : bool) (sharedSecret nonces : list Z) (connID : Z)
    (chlo scfg cert divNonce : list Z) (pers : Perspective) : result AEAD :=
  let swap := match pers with PerspectiveClient => true | PerspectiveServer => false end in
  let* (otherKey, myKey, otherIV, myIV) :=
    deriveKeys forwardSecure sharedSecret nonces connID chlo scfg cert divNonce 16 swap in
  NewAEADAESGCM12 otherKey myKey otherIV myIV.

(** ** key_derivation.go: the keys of the TLS handshake *)

(** What is used of [mint]: the exporter of the connection with the size of the hash of its
    cipher suite, [HkdfExpandLabel] with that hash, and the lengths of the key and the IV. *)
Record MintController : Type := mkMint {
  mint_ComputeExporter : list Z -> result (list Z);
  mint_HkdfExpandLabel : list Z -> string -> Z -> list Z;
  mint_KeyLen : Z;
  mint_IvLen : Z;
}.

Definition clientExporterLabel : list Z := bytesOf "EXPORTER-QUIC client 1-RTT Secret".
Definition serverExporterLabel : list Z := bytesOf "EXPORTER-QUIC server 1-RTT Secret".

Definition computeKeyAndIV (mc : MintController) (label : list Z) : result (list Z * list Z) :=
  let* secret := mint_ComputeExporter mc label in
  Ok (mint_HkdfExpandLabel mc secret "key" (mint_KeyLen mc), mint_HkdfExpandLabel mc secret "iv" (mint_IvLen mc)).

Definition DeriveAESKeys (mc : MintController) (pers : Perspective) : result AEAD :=
  let '(myLabel, otherLabel) :=
    match pers with
    | PerspectiveClient => (clientExporterLabel, serverExporterLabel)
    | PerspectiveServer => (serverExporterLabel, clientExporterLabel)
    end in
  let* (myKey, myIV) := computeKeyAndIV mc myLabel in
  let* (otherKey, otherIV) := computeKeyAndIV mc otherLabel in
  NewAEADAESGCM otherKey myKey otherIV myIV.
End aesgcm.

(** ** FNV-1a distinguishes texts that differ in one byte *)

(** The inverse of the prime modulo 2^64. *)
Definition fnv64a_inverse : Z := 14886173955864302971.

Lemma fnv64a_step_back h b : is_u64 h -> is_u8 b -> Z.lxor (u64 (fnv64a_step h b * fnv64a_inverse)) b = h.
Proof.
  intros Hh Hb. unfold fnv64a_step, u64, wrap.
  rewrite Zmult_mod_idemp_l, <- Z.mul_assoc, Z.mul_mod by lia.
  change ((fnv64a_prime * fnv64a_inverse) mod 2 ^ 64) with 1. rewrite Z.mul_1_r, Zmod_mod.
  rewrite Z.mod_small; [by rewrite Z.lxor_assoc, Z.lxor_nilpotent, Z.lxor_0_r|].
  unfold is_u64, is_u8 in *. split; [by apply Z.lxor_nonneg; lia|].
  destruct (decide (Z.lxor h b = 0)) as [->|Hne]; [lia|].
  assert (0 <= Z.lxor h b) by (apply Z.lxor_nonneg; lia).
  apply Z.log2_lt_pow2; [lia|]. pose proof (Z.log2_lxor h b ltac:(lia) ltac:(lia)) as Hl.
  assert (Hlog : forall x, 0 <= x < 2 ^ 64 -> Z.log2 x < 64).
  { intros x Hx. destruct (decide (x = 0)) as [->|]; [done|]. apply Z.log2_lt_pow2; lia. }
  pose proof (Hlog h ltac:(lia)). pose proof (Hlog b ltac:(lia)). lia.
Qed.

Lemma fnv64a_step_inj h h' b : is_u64 h -> is_u64 h' -> is_u8 b -> fnv64a_step h b = fnv64a_step h' b -> h = h'.
Proof. intros Hh Hh' Hb E. rewrite <- (fnv64a_step_back h b), <- (fnv64a_step_back h' b) by done. by rewrite E. Qed.

Lemma fnv64a_step_byte h b b' : is_u64 h -> is_u8 b -> is_u8 b' -> fnv64a_step h b = fnv64a_step h b' -> b = b'.
Proof.
  intros Hh Hb Hb' E. pose proof (fnv64a_step_back h b Hh Hb) as E1. pose proof (fnv64a_step_back h b' Hh Hb') as E2.
  rewrite E in E1. rewrite <- E2 in E1 at 2.
  apply (f_equal (Z.lxor (u64 (fnv64a_step h b' * fnv64a_inverse)))) in E1.
  by rewrite <- !Z.lxor_assoc, Z.lxor_nilpotent, !Z.lxor_0_l in E1.
Qed.

Lemma fnv64a_Write_range h l : is_u64 h -> is_u64 (fnv64a_Write h l).
Proof.
  revert h. induction l as [|b l IH]; intros h Hh; [done|]. simpl. apply IH. apply u64_range.
Qed.

Lemma fnv64a_Write_inj h h' l : is_u64 h -> is_u64 h' -> bytes_ok l ->
  fnv64a_Write h l = fnv64a_Write h' l -> h = h'.
Proof.
  intros Hh Hh' Hl. revert h h' Hh Hh'. induction Hl as [|b l Hb Hl IH]; intros h h' Hh Hh'; [done|].
  simpl. intros E. apply IH in E; [|apply u64_range..]. by eapply fnv64a_step_inj.
Qed.

Lemma fnv64a_offset_u64 : is_u64 fnv64a_offset.
Proof. unfold is_u64, fnv64a_offset. lia. Qed.

(** ** The null AEADs *)

Lemma zlen_leEnc n v : zlen (leEnc n v) = Z.of_nat n.
Proof. unfold zlen. by rewrite leEnc_length. Qed.
Lemma zlen_beEnc n v : zlen (beEnc n v) = Z.of_nat n.
Proof. unfold zlen. by rewrite beEnc_length. Qed.

Definition opposite (p : Perspective) : Perspective :=
  match p with PerspectiveServer => PerspectiveClient | PerspectiveClient => PerspectiveServer end.

Lemma null64_opens : opens nullAEADFNV64a nullAEADFNV64a.
Proof.
  intros plain pn ad. cbn [nullAEADFNV64a aead_Open aead_Seal]. unfold nullAEADFNV64a_Open, nullAEADFNV64a_Seal.
  set (h := fnv64a_Write _ plain). rewrite zlen_app, zlen_beEnc.
  pose proof (zlen_nonneg plain). replace (_ <? 8) with false by lia.
  rewrite length_app, beEnc_length, Nat.add_sub, take_app_length, drop_app_length.
  fold h. unfold beEnc. rewrite rev_involutive, leVal_leEnc; [by rewrite Z.eqb_refl|].
  apply (fnv64a_Write_range _ plain), fnv64a_Write_range, fnv64a_offset_u64.
Qed.

Lemma null128_opens sum128 p : (forall l, is_u64 (sum128 l).2) -> opens (nullAEADFNV128a sum128 p) (nullAEADFNV128a sum128 (opposite p)).
Proof.
  intros Hlow plain pn ad. cbn [nullAEADFNV128a aead_Open aead_Seal]. unfold nullAEADFNV128a_Open, nullAEADFNV128a_Seal.
  set (text := ad ++ plain ++ _). pose proof (Hlow text) as Hl. destruct (sum128 text) as [high low] eqn:E. simpl in Hl.
  assert (Ed : drop 12 (leEnc 8 low ++ leEnc 4 (u32 high) ++ plain) = plain).
  { rewrite app_assoc. apply drop_app_length'. by rewrite length_app, !leEnc_length. }
  rewrite Ed, !zlen_app, !zlen_leEnc. pose proof (zlen_nonneg plain).
  replace (_ <? 12) with false by lia.
  replace (sum128 _) with (high, low) by (rewrite <- E; by destruct p).
  rewrite take_app_length', drop_app_length', take_app_length' by (by rewrite leEnc_length).
  rewrite (leVal_leEnc 8 low) by exact Hl. rewrite leVal_leEnc by apply u32_range. rewrite Z.eqb_refl.
  replace (u32 (Z.land high 4294967295)) with (u32 high); [by rewrite Z.eqb_refl|].
  change 4294967295 with (Z.ones 32). rewrite Z.land_ones by lia. unfold u32, wrap. by rewrite Zmod_mod.
Qed.

(** Unencrypted packets: whatever the version, what one side seals with the null AEAD
    the other side opens and gets back unchanged, for every packet number, associated
    data and text, the empty one included. *)
Theorem null_aead_roundtrip sum128 p v : (forall l, is_u64 (sum128 l).2) ->
  opens (NewNullAEAD sum128 p v) (NewNullAEAD sum128 (opposite p) v).
Proof. intros H. unfold NewNullAEAD. destruct (UsesTLS v); [apply null64_opens|by apply null128_opens]. Qed.

Lemma null_aead_roundtrip_witness :
  opens (NewNullAEAD (fun l => (zlen l, HashCert l)) PerspectiveClient VersionMP)
        (NewNullAEAD (fun l => (zlen l, HashCert l)) PerspectiveServer VersionMP).
Proof.
  apply (null_aead_roundtrip (fun l => (zlen l, HashCert l)) PerspectiveClient VersionMP).
  intros l. apply (fnv64a_Write_range _ l), fnv64a_offset_u64.
Defined.

(** The null AEAD of the TLS version detects every corruption of a single byte: of the
    text, or of the associated data (the public header), wherever it is. *)
Theorem null_aead_detects_corruption ad ad' text text' pn l b b' k :
  ad ++ text = l ++ b :: k -> ad' ++ text' = l ++ b' :: k -> b <> b' ->
  bytes_ok (ad ++ text) -> bytes_ok (ad' ++ text') -> length ad = length ad' ->
  forall pn', exists e,
    nullAEADFNV64a_Open (text' ++ drop (length text) (nullAEADFNV64a_Seal text pn ad)) pn' ad' = Err e.
Proof.
  intros E E' Hne Hok Hok' Hlen pn'.
  assert (Elen : length text = length text').
  { apply (f_equal length) in E, E'. rewrite !length_app in E, E'. simpl in E, E'. lia. }
  unfold nullAEADFNV64a_Open, nullAEADFNV64a_Seal. rewrite drop_app_length.
  rewrite zlen_app, zlen_beEnc. pose proof (zlen_nonneg text').
  replace (_ <? 8) with false by lia.
  rewrite length_app, beEnc_length, Nat.add_sub, take_app_length, drop_app_length.
  unfold beEnc. rewrite rev_involutive, leVal_leEnc.
  2:{ apply (fnv64a_Write_range _ text), fnv64a_Write_range, fnv64a_offset_u64. }
  destruct (_ =? _) eqn:Eh; [exfalso|eexists; reflexivity]. apply Z.eqb_eq in Eh. unfold fnv64a_Write in Eh.
  rewrite <- !fold_left_app, E, E', !fold_left_app in Eh. simpl in Eh. fold (fnv64a_Write fnv64a_offset l) in Eh.
  rewrite E, bytes_ok_app in Hok. rewrite E', bytes_ok_app in Hok'.
  destruct Hok as [Hl Hbk]. destruct Hok' as [_ Hbk'].
  inversion_clear Hbk as [|? ? Hb Hk]. inversion_clear Hbk' as [|? ? Hb' _].
  apply (fnv64a_Write_inj _ _ k) in Eh; [|apply u64_range..|done].
  apply fnv64a_step_byte in Eh; [by apply Hne|apply fnv64a_Write_range, fnv64a_offset_u64|done|done].
Qed.

Lemma null_aead_detects_corruption_witness : exists e,
  nullAEADFNV64a_Open ([1; 3] ++ drop 2 (nullAEADFNV64a_Seal [1; 2] 7 [9])) 7 [9] = Err e.
Proof.
  apply (null_aead_detects_corruption [9] [9] [1; 2] [1; 3] 7 [9; 1] 2 3 []);
    try reflexivity; try discriminate; repeat constructor; unfold is_u8; lia.
Defined.

(** ** Both sides derive matching keys *)

(** What is used of a cipher. *)
Definition cipher_ok (newGCM : list Z -> result cipherAEAD) : Prop :=
  forall key c c' nonce plain ad, newGCM key = Ok c -> newGCM key = Ok c' ->
    cipher_Open c' nonce (cipher_Seal c nonce plain ad) ad = Ok plain.

(** The results of the derivation on both sides. *)
Definition matching (client server : result AEAD) : Prop :=
  match client, server with
  | Ok c, Ok s => opens c s /\ opens s c
  | Ok _, _ | _, Ok _ => False
  | _, _ => True
  end.

Lemma quic_keys_match newGCM hkdf forwardSecure secret nonces connID chlo scfg cert divNonce : cipher_ok newGCM ->
  matching (DeriveQuicCryptoAESKeys newGCM hkdf forwardSecure secret nonces connID chlo scfg cert divNonce PerspectiveClient)
           (DeriveQuicCryptoAESKeys newGCM hkdf forwardSecure secret nonces connID chlo scfg cert divNonce PerspectiveServer).
Proof.
  intros Hc. unfold matching, DeriveQuicCryptoAESKeys, deriveKeys. destruct (hkdf _ _ _ _) as [s|e|]; simpl; [|done..].
  destruct (if forwardSecure then _ else _) as [[key2 iv2]|e|]; simpl; [|done..].
  unfold NewAEADAESGCM12. set (key1 := take 16 s). set (iv1 := take 4 (drop _ s)).
  destruct (zlen key1 =? 16), (zlen key2 =? 16), (zlen iv1 =? 4), (zlen iv2 =? 4); cbn [negb orb]; try done.
  destruct (newGCM key1) as [c1|e1|] eqn:E1, (newGCM key2) as [c2|e2|] eqn:E2; simpl; try done.
  split; intros plain pn ad; cbn [gcmAEAD aead_Open aead_Seal]; by eapply Hc.
Qed.

Lemma tls_keys_match newGCM mc : cipher_ok newGCM ->
  matching (DeriveAESKeys newGCM mc PerspectiveClient) (DeriveAESKeys newGCM mc PerspectiveServer).
Proof.
  intros Hc. unfold matching, DeriveAESKeys. destruct (computeKeyAndIV mc clientExporterLabel) as [[key1 iv1]|e|];
    destruct (computeKeyAndIV mc serverExporterLabel) as [[key2 iv2]|e'|]; simpl; try done.
  unfold NewAEADAESGCM. destruct (zlen iv1 =? ivLen), (zlen iv2 =? ivLen); cbn [negb orb]; try done.
  destruct (newGCM key1) as [c1|e1|] eqn:E1, (newGCM key2) as [c2|e2|] eqn:E2; simpl; try done.
  split; intros plain pn ad; cbn [gcmAEAD aead_Open aead_Seal]; by eapply Hc.
Qed.

(** With the same inputs the client and the server derive AEADs that match, for both
    levels: the one fails exactly when the other does, and what either seals the other
    opens.  The same holds for the keys that are exported from the TLS handshake. *)
Theorem derived_keys_match newGCM hkdf : cipher_ok newGCM ->
  (forall forwardSecure secret nonces connID chlo scfg cert divNonce,
    matching (DeriveQuicCryptoAESKeys newGCM hkdf forwardSecure secret nonces connID chlo scfg cert divNonce PerspectiveClient)
             (DeriveQuicCryptoAESKeys newGCM hkdf forwardSecure secret nonces connID chlo scfg cert divNonce PerspectiveServer)) /\
  (forall mc, matching (DeriveAESKeys newGCM mc PerspectiveClient) (DeriveAESKeys newGCM mc PerspectiveServer)).
Proof. intros Hc. split; intros; [by apply quic_keys_match|by apply tls_keys_match]. Qed.

(** A cipher and a derivation to evaluate the definitions with: the tag is the start of
    the key and the end of the nonce. *)
Definition toyTag (nonce key : list Z) : list Z := take 12 (take 4 key ++ drop 4 nonce ++ replicate 12 0).
Definition toyGCM (key : list Z) : result cipherAEAD :=
  Ok (mkCipher (fun nonce src ad =>
                  if bool_decide (drop (length src - 12) src = toyTag nonce key) then Ok (take (length src - 12) src)
                  else Err (errors_New "cipher: message authentication failed"))
               (fun nonce plain ad => plain ++ toyTag nonce key) 12).
Definition toyHkdf (secret salt info : list Z) (n : nat) : result (list Z) :=
  Ok (take n (secret ++ salt ++ replicate n 7)).

Lemma toyGCM_ok : cipher_ok toyGCM.
Proof.
  intros key c c' nonce plain ad [= <-] [= <-]. cbn [cipher_Open cipher_Seal].
  assert (El : length (toyTag nonce key) = 12%nat).
  { unfold toyTag. rewrite length_take, !length_app, length_replicate. lia. }
  rewrite length_app, El, Nat.add_sub, drop_app_length, take_app_length. by rewrite bool_decide_eq_true_2.
Qed.

Definition toyDerived (pers : Perspective) : result AEAD :=
  DeriveQuicCryptoAESKeys toyGCM toyHkdf false [1; 2; 3] [4; 5] 77 [6] [7] [8] [9] pers.

Lemma derived_keys_match_witness :
  match toyDerived PerspectiveClient, toyDerived PerspectiveServer with
  | Ok client, Ok server => opens client server /\ opens server client
  | _, _ => False
  end.
Proof. exact (proj1 (derived_keys_match toyGCM toyHkdf toyGCM_ok) false [1; 2; 3] [4; 5] 77 [6] [7] [8] [9]). Defined.

(** ** Nonces *)

(** Under one key, two packets with different packet numbers never share a nonce, for
    either AEAD.  The nonce depends on the packet number only: the number of the path
    is not part of it. *)
Theorem nonces_distinct iv pn pn' : is_u64 pn -> is_u64 pn' ->
  (gcm12_makeNonce iv pn = gcm12_makeNonce iv pn' -> pn = pn') /\
  (zlen iv = ivLen -> gcm_makeNonce iv pn = gcm_makeNonce iv pn' -> pn = pn').
Proof.
  intros Hpn Hpn'. assert (Hinj : leEnc 8 pn = leEnc 8 pn' -> pn = pn').
  { intros E. rewrite <- (leVal_leEnc 8 pn), <- (leVal_leEnc 8 pn') by done. by rewrite E. }
  split.
  - unfold gcm12_makeNonce. rewrite !u64_small by done. intros E. apply app_inv_head in E. by apply Hinj.
  - unfold gcm_makeNonce, ivLen, zlen. rewrite !u64_small by done. intros Hiv E. apply Hinj.
    assert (Hx : forall l k v : list Z, length l = length v -> length k = length v ->
      zip_with Z.lxor l v = zip_with Z.lxor k v -> l = k).
    { clear. intros l k v. revert l k. induction v as [|x v IH]; intros [|a l] [|c k] Hl Hk; simpl in *; try done.
      intros [= E1 E2]. f_equal; [|apply IH; [lia|lia|done]].
      apply (f_equal (fun y => Z.lxor y x)) in E1.
      by rewrite !Z.lxor_assoc, Z.lxor_nilpotent, !Z.lxor_0_r in E1. }
    apply Hx in E; [|rewrite length_app, beEnc_length; simpl; lia..].
    apply app_inv_head in E. unfold beEnc in E. apply (f_equal (@rev Z)) in E. by rewrite !rev_involutive in E.
Qed.

Lemma nonces_distinct_witness : gcm12_makeNonce [1; 2; 3; 4] 5 <> gcm12_makeNonce [1; 2; 3; 4] 6.
Proof.
  intros E. assert (H : 5 = 6); [|discriminate H].
  refine (proj1 (nonces_distinct [1; 2; 3; 4] 5 6 _ _) E); unfold is_u64; lia.
Defined.
