(* ===== verification/ServerConfig.v ===== *)
(** * Key exchange and the server config (internal/crypto/curve_25519.go,
    internal/handshake/server_config.go, server_config_client.go)

    The server config is the message with which a server announces its static public key,
    its name and its orbit; the client parses it and computes the shared secret of the
    initial keys.  The curve and the random bytes are parameters. *)
From S2P Require Import Prelude Qerr ByteOrder Protocol PublicHeader ConnParams HandshakeMessage Aead.

(** ** Tags *)

Definition TagSCFG : Z := mkTag 83 67 70 71.
Definition TagSCID : Z := mkTag 83 67 73 68.
Definition TagKEXS : Z := mkTag 75 69 88 83.
Definition TagAEAD : Z := mkTag 65 69 65 68.
Definition TagPUBS : Z := mkTag 80 85 66 83.
Definition TagOBIT : Z := mkTag 79 66 73 84.
Definition TagEXPY : Z := mkTag 69 88 80 89.

(** ** Key exchange *)

Record KeyExchange : Type := mkKEX {
  PublicKey : list Z;
  CalculateSharedKey : list Z -> result (list Z);
}.

Section curve25519.
(** [curve25519.ScalarBaseMult] and [ScalarMult]. *)
Variable ScalarBaseMult : list Z -> list Z.
Variable ScalarMult : list Z -> list Z -> list Z.

(** The secret is masked, see https://cr.yp.to/ecdh.html *)
Definition clampSecret (secret : list Z) : list Z :=
  alter (fun b => Z.lor (Z.land b 127) 64) 31%nat (alter (fun b => Z.land b 248) 0%nat secret).

Definition curve25519_CalculateSharedKey (secret otherPublic : list Z) : result (list Z) :=
  if negb (zlen otherPublic =? 32) then Err (errors_New "Curve25519: expected public key of 32 byte")
  else Ok (ScalarMult secret otherPublic).

(** [rand] is what [rand.Read] gives. *)
Definition NewCurve25519KEX (rand : result (list Z)) : result KeyExchange :=
  match rand with
  | Ok secret =>
      let secret := clampSecret secret in
      Ok (mkKEX (ScalarBaseMult secret) (curve25519_CalculateSharedKey secret))
  | _ => Err (errors_New "Curve25519: could not create private key")
  end.
End curve25519.

(** ** server_config.go *)

(** [crypto.CertChain]. *)
Record CertChain : Type := mkCertChain {
  SignServerProof : list Z -> list Z -> list Z -> result (list Z);
  GetCertsCompressed : list Z -> list Z -> list Z -> result (list Z);
  GetLeafCert : list Z -> result (list Z);
}.

Record ServerConfig : Type := mkServerConfig {
  sc_kex : KeyExchange;
  sc_certChain : CertChain;
  sc_ID : list Z;
  sc_obit : list Z;
}.

(** [rand] gives the bytes that are read, or an error. *)
Definition NewServerConfig (rand : nat -> result (list Z)) (kex : KeyExchange) (certChain : CertChain) : result ServerConfig :=
  let* id := rand 16%nat in
  let* obit := rand 8%nat in
  Ok (mkServerConfig kex certChain id obit).

Definition ServerConfig_message (s : ServerConfig) : HandshakeMessage := mkHM TagSCFG
  (<[TagSCID := sc_ID s]> (<[TagKEXS := bytesOf "C255"]> (<[TagAEAD := bytesOf "AESG"]>
  (<[TagPUBS := [32; 0; 0] ++ PublicKey (sc_kex s)]> (<[TagOBIT := sc_obit s]>
  (<[TagEXPY := replicate 8 255]> ∅)))))).

Definition ServerConfig_Get (s : ServerConfig) : list Z := HandshakeMessage_Write (ServerConfig_message s).

Definition ServerConfig_Sign (s : ServerConfig) (sni chlo : list Z) : result (list Z) :=
  SignServerProof (sc_certChain s) sni chlo (ServerConfig_Get s).

Definition ServerConfig_GetCertsCompressed (s : ServerConfig) (sni commonSetHashes compressedHashes : list Z) : result (list Z) :=
  GetCertsCompressed (sc_certChain s) sni commonSetHashes compressedHashes.

(** ** server_config_client.go *)

Record serverConfigClient : Type := mkSCC {
  scc_raw : list Z;
  scc_ID : list Z;
  scc_obit : list Z;
  scc_expiry : Z;
  scc_kex : KeyExchange;
  scc_sharedSecret : list Z;
}.

Definition errMessageNotServerConfig : error := errors_New "ServerConfig must have TagSCFG".

Definition MinUint64 (a b : Z) : Z := if a <? b then a else b.

(** [time.Unix(sec, 0)]: the Unix epoch is 62135596800 seconds after the zero time. *)
Definition timeUnix (sec : Z) : Z := (62135596800 + sec) * Second.

(** The loops that search a list of 4-byte names: the position of the first that is found. *)
Fixpoint findName (n : nat) (i : Z) (names name : list Z) : Z :=
  match n with
  | O => -1
  | S n => if bool_decide (take 4 names = name) then i else findName n (i + 1) (drop 4 names) name
  end.

(** The loop over the PUBS value, from index [i]; every iteration consumes at least 4 bytes. *)
Fixpoint parsePubs (fuel : nat) (pubs : list Z) : result (list (Z * list Z)) :=
  match fuel with
  | O => Panic
  | S fuel =>
      if zlen pubs - 3 <=? 0 then Ok []
      else
      let last_len := leVal (take 3 pubs) in
      if last_len =? 0 then Err (QuicError qerr.CryptoInvalidValueLength "PUBS")
      else if 3 + last_len >? zlen pubs then Err (QuicError qerr.CryptoInvalidValueLength "PUBS")
      else
      let n := Z.to_nat last_len in
      let* rest := parsePubs fuel (drop (3 + n) pubs) in
      Ok ((last_len, take n (drop 3 pubs)) :: rest)
  end.

Definition notFound (name : string) : error := QuicError qerr.CryptoMessageParameterNotFound name.
Definition badLength (name : string) : error := QuicError qerr.CryptoInvalidValueLength name.

Definition getValue (tagMap : gmap Z (list Z)) (tag : Z) (name : string) : result (list Z) :=
  match tagMap !! tag with Some v => Ok v | None => Err (notFound name) end.

Definition check (b : bool) (e : error) : result unit := if b then Err e else Ok tt.

(** [newKEX] is the result of [crypto.NewCurve25519KEX()]. *)
Definition parseValues (newKEX : result KeyExchange) (raw : list Z) (tagMap : gmap Z (list Z)) : result serverConfigClient :=
  let* scfgID := getValue tagMap TagSCID "SCID" in
  let* _ := check (negb (zlen scfgID =? 16)) (badLength "SCID") in
  let* kexs := getValue tagMap TagKEXS "KEXS" in
  let* _ := check (negb (zlen kexs mod 4 =? 0)) (badLength "KEXS") in
  let c255Foundat := findName (length kexs / 4) 0 kexs (bytesOf "C255") in
  let* _ := check (c255Foundat <? 0)
    (QuicError qerr.CryptoNoSupport "KEXS: Could not find C255, other key exchanges are not supported") in
  let* aead := getValue tagMap TagAEAD "AEAD" in
  let* _ := check (negb (zlen aead mod 4 =? 0)) (badLength "AEAD") in
  let aesgFound := 0 <=? findName (length aead / 4) 0 aead (bytesOf "AESG") in
  let* _ := check (negb aesgFound) (QuicError qerr.CryptoNoSupport "AEAD") in
  let* pubs := getValue tagMap TagPUBS "PUBS" in
  let* pubs_kexs := parsePubs (S (length pubs)) pubs in
  match pubs_kexs !! Z.to_nat c255Foundat with
  | None => Err (notFound "KEXS not in PUBS")
  | Some (len, value) =>
      let* _ := check (negb (len =? 32)) (badLength "PUBS") in
      let* kex := newKEX in
      let* sharedSecret := CalculateSharedKey kex value in
      let* obit := getValue tagMap TagOBIT "OBIT" in
      let* _ := check (negb (zlen obit =? 8)) (badLength "OBIT") in
      let* expy := getValue tagMap TagEXPY "EXPY" in
      let* _ := check (negb (zlen expy =? 8)) (badLength "EXPY") in
      let expyTimestamp := MinUint64 (leVal expy) ((2 ^ 63 - 1) / 2) in
      Ok (mkSCC raw scfgID obit (timeUnix expyTimestamp) kex sharedSecret)
  end.

Definition parseServerConfig (newKEX : result KeyExchange) (data : list Z) : result serverConfigClient :=
  let* (message, _) := ParseHandshakeMessage data in
  if negb (hm_Tag message =? TagSCFG) then Err errMessageNotServerConfig
  else parseValues newKEX data (hm_Data message).

Definition IsExpired (s : serverConfigClient) (now : Z) : bool := scc_expiry s <? now.

Definition scc_Get (s : serverConfigClient) : list Z := scc_raw s.

(** ** The parser returns *)

Lemma parsePubs_no_panic fuel pubs : bytes_ok pubs -> (length pubs < fuel)%nat -> parsePubs fuel pubs <> Panic.
Proof.
  revert pubs. induction fuel as [|fuel IH]; intros pubs Hok Hf; [lia|]. cbn [parsePubs].
  destruct (zlen pubs - 3 <=? 0) eqn:E1; [done|]. destruct (_ =? 0) eqn:E2; [done|]. destruct (_ >? _) eqn:E3; [done|].
  assert (Ht : bytes_ok (take 3 pubs)) by (by apply Forall_take).
  pose proof (leVal_range _ Ht) as Hr. unfold zlen in *.
  specialize (IH (drop (3 + Z.to_nat (leVal (take 3 pubs))) pubs)).
  rewrite length_drop in IH. destruct (parsePubs fuel _); [done|done|]. apply IH; [by apply Forall_drop|lia].
Qed.

(** The value that is written is parsed as one key. *)
Lemma parsePubs_one key : zlen key = 32 -> parsePubs (S (length ([32; 0; 0] ++ key))) ([32; 0; 0] ++ key) = Ok [(32, key)].
Proof.
  intros Hk. assert (Ht : take 3 ([32; 0; 0] ++ key) = [32; 0; 0]) by done.
  assert (Hd : drop (3 + 32) ([32; 0; 0] ++ key) = []).
  { apply drop_ge. rewrite length_app. unfold zlen in Hk. simpl. lia. }
  assert (Hd3 : take 32 (drop 3 ([32; 0; 0] ++ key)) = key).
  { change (drop 3 ([32; 0; 0] ++ key)) with key. apply take_ge. unfold zlen in Hk. lia. }
  assert (Hz : zlen ([32; 0; 0] ++ key) = 35) by (rewrite zlen_app, Hk; done).
  remember ([32; 0; 0] ++ key) as pubs eqn:Ep. destruct (length pubs) as [|n] eqn:El; [unfold zlen in Hz; lia|].
  cbn [parsePubs]. rewrite Hz, Ht. change (leVal [32; 0; 0]) with 32. change (Z.to_nat 32) with 32%nat.
  change (35 - 3 <=? 0) with false. change (32 =? 0) with false. change (3 + 32 >? 35) with false. cbv iota.
  rewrite Hd, Hd3. reflexivity.
Qed.

(** ** The server config reaches the client *)

Lemma config_lookup s :
  hm_Data (ServerConfig_message s) !! TagSCID = Some (sc_ID s) /\
  hm_Data (ServerConfig_message s) !! TagKEXS = Some (bytesOf "C255") /\
  hm_Data (ServerConfig_message s) !! TagAEAD = Some (bytesOf "AESG") /\
  hm_Data (ServerConfig_message s) !! TagPUBS = Some ([32; 0; 0] ++ PublicKey (sc_kex s)) /\
  hm_Data (ServerConfig_message s) !! TagOBIT = Some (sc_obit s) /\
  hm_Data (ServerConfig_message s) !! TagEXPY = Some (replicate 8 255).
Proof.
  unfold ServerConfig_message. cbn [hm_Data]. 
  split_and!; repeat (rewrite lookup_insert_ne by (vm_compute; discriminate)); apply lookup_insert_eq.
Qed.

(** A config as the server makes it. *)
Record config_ok (s : ServerConfig) : Prop := {
  config_ok_ID : zlen (sc_ID s) = 16;
  config_ok_obit : zlen (sc_obit s) = 8;
  config_ok_key : zlen (PublicKey (sc_kex s)) = 32;
}.

Lemma size_insert_le (m : gmap Z (list Z)) k v n : (size m <= n)%nat -> (size (<[k := v]> m) <= S n)%nat.
Proof. intros H. rewrite map_size_insert. destruct (m !! k); simpl; lia. Qed.

Lemma config_message_ok s : config_ok s -> message_ok (ServerConfig_message s).
Proof.
  intros [Hid Hobit Hkey]. constructor.
  - unfold is_u32. vm_compute. intuition discriminate.
  - intros tag. unfold ServerConfig_message. cbn [hm_Data]. rewrite !lookup_insert_is_Some', lookup_empty.
    intros [<-|[<-|[<-|[<-|[<-|[<-|[? [=]]]]]]]]; unfold is_u32; vm_compute; intuition discriminate.
  - intros tag v. unfold ServerConfig_message. cbn [hm_Data]. rewrite !lookup_insert_Some, lookup_empty.
    unfold CryptoParameterMaxLength.
    intros [[_ <-]|[_ [[_ <-]|[_ [[_ <-]|[_ [[_ <-]|[_ [[_ <-]|[_ [[_ <-]|[_ [=]]]]]]]]]]]]];
      try (rewrite zlen_app, Hkey; vm_compute; discriminate); try lia; vm_compute; discriminate.
  - unfold ServerConfig_message. cbn [hm_Data]. 
    apply (Nat.le_trans _ 6); [|lia]. do 6 apply size_insert_le. by rewrite map_size_empty.
Qed.

(** The client parses every server config a server sends: it gets the name, the orbit and
    the shared secret of its key with the public key of the server, and the config is
    not expired before the year 146 billion; with a Diffie-Hellman group, that secret is
    the one the server computes from the public key of the client. *)
Theorem server_config_roundtrip s kex secret now :
  config_ok s -> CalculateSharedKey kex (PublicKey (sc_kex s)) = Ok secret -> now <= timeUnix (2 ^ 62 - 1) ->
  exists c, parseServerConfig (Ok kex) (ServerConfig_Get s) = Ok c /\
    scc_ID c = sc_ID s /\ scc_obit c = sc_obit s /\ scc_Get c = ServerConfig_Get s /\
    scc_kex c = kex /\ scc_sharedSecret c = secret /\ IsExpired c now = false.
Proof.
  intros Hs Hsecret Hnow. destruct (config_lookup s) as (E1 & E2 & E3 & E4 & E5 & E6).
  pose proof (proj1 (HandshakeMessage_parse _ [] (config_message_ok s Hs))) as Hp. rewrite app_nil_r in Hp.
  fold (ServerConfig_Get s) in Hp. unfold parseServerConfig. rewrite Hp. cbn [bind].
  change (hm_Tag (ServerConfig_message s) =? TagSCFG) with true. cbn [negb]. destruct Hs as [Hid Hobit Hkey].
  unfold parseValues, getValue. rewrite E1, E2, E3, E4, E5, E6. cbn [bind]. rewrite Hid, Hobit. cbn [negb Z.eqb Pos.eqb check bind].
  change (zlen (bytesOf "C255") mod 4 =? 0) with true. change (zlen (bytesOf "AESG") mod 4 =? 0) with true.
  change (findName (length (bytesOf "C255") / 4) 0 (bytesOf "C255") (bytesOf "C255")) with 0.
  change (findName (length (bytesOf "AESG") / 4) 0 (bytesOf "AESG") (bytesOf "AESG")) with 0.
  cbn [negb check bind Z.ltb Z.leb Z.compare]. rewrite parsePubs_one by exact Hkey. cbn [bind].
  change ([(32, PublicKey (sc_kex s))] !! Z.to_nat 0) with (Some (32, PublicKey (sc_kex s))). cbn [Z.eqb Pos.eqb negb check bind].
  rewrite Hsecret. cbn [bind]. change (zlen (replicate 8 255) =? 8) with true. cbn [negb check bind].
  change (MinUint64 (leVal (replicate 8 255)) ((2 ^ 63 - 1) / 2)) with (2 ^ 62 - 1).
  eexists. split; [reflexivity|]. split_and!; try reflexivity. unfold IsExpired. cbn [scc_expiry]. lia.
Qed.

Lemma server_config_roundtrip_witness :
  let server := mkKEX (replicate 32 1) (fun _ => Ok [2]) in
  let client := mkKEX (replicate 32 3) (fun _ => Ok [2]) in
  exists c, parseServerConfig (Ok client)
      (ServerConfig_Get (mkServerConfig server (mkCertChain (fun _ _ _ => Ok []) (fun _ _ _ => Ok []) (fun _ => Ok []))
        (replicate 16 4) (replicate 8 5))) = Ok c /\
    scc_sharedSecret c = [2].
Proof.
  intros server client.
  destruct (server_config_roundtrip (mkServerConfig server (mkCertChain (fun _ _ _ => Ok []) (fun _ _ _ => Ok []) (fun _ => Ok []))
    (replicate 16 4) (replicate 8 5)) client [2] 0) as (c & E & _ & _ & _ & _ & Es & _);
    [constructor; reflexivity|reflexivity|vm_compute; discriminate|].
  exists c. split; [exact E|exact Es].
Defined.

Lemma bind_no_panic {A B} (m : result A) (f : A -> result B) :
  m <> Panic -> (forall a, m = Ok a -> f a <> Panic) -> bind m f <> Panic.
Proof. destruct m; simpl; [intros _ H; by apply H|done..]. Qed.

Lemma getValue_no_panic m tag name : getValue m tag name <> Panic.
Proof. unfold getValue. by destruct (m !! tag). Qed.
Lemma check_no_panic b e : check b e <> Panic.
Proof. by destruct b. Qed.

(** Parsing a config never panics: the loops over its values end within their bounds. *)
Theorem parseServerConfig_total newKEX data :
  newKEX <> Panic -> (forall kex key, newKEX = Ok kex -> CalculateSharedKey kex key <> Panic) -> bytes_ok data ->
  parseServerConfig newKEX data <> Panic.
Proof.
  intros Hk Hc Hok. unfold parseServerConfig. pose proof (ParseHandshakeMessage_limits data) as Hl.
  pose proof (ParseHandshakeMessage_gives data) as Hm.
  destruct (ParseHandshakeMessage data) as [[msg r]|e|] eqn:E; [|done..]. specialize (Hm _ _ Hok eq_refl) as [Hm _].
  cbn [bind]. destruct (negb _); [done|]. unfold parseValues. cbv zeta.
  repeat (apply bind_no_panic; [first [apply getValue_no_panic|apply check_no_panic]|intros ? ?]).
  apply bind_no_panic.
  { apply parsePubs_no_panic; [|lia]. unfold getValue in *. by case_match; simplify_eq; eapply Hm. }
  intros pubs_kexs _. case_match; [|done]. case_match. apply bind_no_panic; [apply check_no_panic|intros ? _].
  apply bind_no_panic; [done|]. intros kex Ekex. apply bind_no_panic; [by apply Hc|intros ? _].
  repeat (apply bind_no_panic; [first [apply getValue_no_panic|apply check_no_panic]|intros ? ?]). done.
Qed.

(** The initial keys of a connection: the client, from the server config it received, and
    the server, from the public key in the client hello, compute the same shared secret,
    given that scalar multiplication commutes and keys have 32 bytes. *)
Theorem shared_secrets_agree base mult randc rands client server :
  (forall a b, mult a (base b) = mult b (base a)) -> (forall a, zlen (base a) = 32) ->
  NewCurve25519KEX base mult randc = Ok client -> NewCurve25519KEX base mult rands = Ok server ->
  exists secret, CalculateSharedKey client (PublicKey server) = Ok secret /\
                 CalculateSharedKey server (PublicKey client) = Ok secret.
Proof.
  intros Hcomm Hlen Hclient Hserver. unfold NewCurve25519KEX in *. destruct randc as [a| |], rands as [b| |]; try done.
  simplify_eq. cbn [CalculateSharedKey PublicKey]. unfold curve25519_CalculateSharedKey. rewrite !Hlen.
  exists (mult (clampSecret a) (base (clampSecret b))). change (32 =? 32) with true. cbn [negb]. split; [done|].
  by rewrite Hcomm.
Qed.
