(* ===== verification/Cookie.v ===== *)
(** * Source address tokens (internal/crypto/source_address_token.go,
    internal/handshake/cookie_generator.go, and the check of server.go)

    A token is handed to a client in a rejection and has to be in its next hello: it proves
    that the client receives packets at its address.  It is the encryption of the address and of
    the time it was issued. *)
From S2P Require Import Prelude ByteOrder Protocol PublicHeader ConnParams HandshakeMessage Aead ServerConfig.

Definition stkNonceSize : nat := 16.

(** [net.Addr]: an address of UDP, of which the IP is used, or any other, of which the
    string is used. *)
Inductive Addr : Type :=
| AddrUDP (IP : list Z) (Port : Z)
| AddrOther (name : list Z).

Record Cookie : Type := mkCookie { RemoteAddr : list Z; SentTime : Z }.

(** The struct that is serialized with ASN.1. *)
Record token : Type := mkToken { tok_Data : list Z; tok_Timestamp : Z }.

(** [crypto.StkSource], with the cipher of the source. *)
Definition stk_NewToken (aead : cipherAEAD) (rand : result (list Z)) (data : list Z) : result (list Z) :=
  let* nonce := rand in
  Ok (nonce ++ cipher_Seal aead nonce data []).

Definition stk_DecodeToken (aead : cipherAEAD) (p : list Z) : result (list Z) :=
  if (length p <? stkNonceSize)%nat then Err (errors_New "STK too short")
  else cipher_Open aead (take stkNonceSize p) (drop stkNonceSize p) [].

Definition cookiePrefixIP : Z := 0.
Definition cookiePrefixString : Z := 1.

Definition encodeRemoteAddr (remoteAddr : Addr) : list Z :=
  match remoteAddr with
  | AddrUDP IP _ => cookiePrefixIP :: IP
  | AddrOther name => cookiePrefixString :: name
  end.

Section cookies.
(** [net.IP.String], and [asn1.Marshal] and [Unmarshal] of a token. *)
Variable IP_String : list Z -> list Z.
Variable asn1_Marshal : token -> result (list Z).
Variable asn1_Unmarshal : list Z -> result (token * list Z).

Definition decodeRemoteAddr (data : list Z) : list Z :=
  match data with
  | [] => []
  | prefix :: rest => if prefix =? cookiePrefixIP then IP_String rest else rest
  end.

(** [now] is the time in seconds since the Unix epoch. *)
Definition NewToken (source : cipherAEAD) (rand : result (list Z)) (now : Z) (raddr : Addr) : result (list Z) :=
  let* data := asn1_Marshal (mkToken (encodeRemoteAddr raddr) now) in
  stk_NewToken source rand data.

(** No cookie, and no error, for the empty token. *)
Definition DecodeToken (source : cipherAEAD) (encrypted : list Z) : result (option Cookie) :=
  match encrypted with
  | [] => Ok None
  | _ =>
      let* data := stk_DecodeToken source encrypted in
      let* (t, rest) := asn1_Unmarshal data in
      match rest with
      | [] => Ok (Some (mkCookie (decodeRemoteAddr (tok_Data t)) (timeUnix (tok_Timestamp t))))
      | _ => Err (errors_New "rest when unpacking token")
      end
  end.

(** ** server.go *)

Definition CookieExpiryTime : Z := 24 * 3600 * Second.

Definition addrString (clientAddr : Addr) : list Z :=
  match clientAddr with AddrUDP IP _ => IP_String IP | AddrOther name => name end.

Definition defaultAcceptCookie (now : Z) (clientAddr : Addr) (cookie : option Cookie) : bool :=
  match cookie with
  | None => false
  | Some cookie =>
      if timeAdd (SentTime cookie) CookieExpiryTime <? now then false
      else bool_decide (addrString clientAddr = RemoteAddr cookie)
  end.

(** What is used of the cipher and the serialization. *)
Record source_ok (source : cipherAEAD) : Prop := {
  source_opens : forall nonce plain, cipher_Open source nonce (cipher_Seal source nonce plain []) [] = Ok plain;
  source_unmarshals : forall t data, asn1_Marshal t = Ok data -> asn1_Unmarshal data = Ok (t, []);
}.

Lemma NewToken_decodes source rand now raddr tok :
  source_ok source -> (forall nonce, rand = Ok nonce -> length nonce = stkNonceSize) ->
  NewToken source rand now raddr = Ok tok ->
  DecodeToken source tok = Ok (Some (mkCookie (addrString raddr) (timeUnix now))).
Proof.
  intros [Hopen Hasn] Hrand E. unfold NewToken, stk_NewToken in E.
  destruct (asn1_Marshal _) as [data| |] eqn:Em; [|done..]. cbn [bind] in E.
  destruct rand as [nonce| |]; [|done..]. specialize (Hrand nonce eq_refl). cbn [bind] in E. simplify_eq.
  unfold DecodeToken. destruct (nonce ++ _) as [|b l] eqn:El.
  { apply (f_equal length) in El. rewrite length_app in El. unfold stkNonceSize in Hrand. simpl in El. lia. }
  rewrite <- El. unfold stk_DecodeToken. rewrite length_app, Hrand.
  replace (_ <? stkNonceSize)%nat with false by (symmetry; apply Nat.ltb_ge; lia).
  rewrite take_app_length', drop_app_length' by done. rewrite Hopen. cbn [bind]. rewrite (Hasn _ _ Em). cbn [bind].
  cbn [tok_Data tok_Timestamp]. by destruct raddr.
Qed.

(** A source address token that the server issued is accepted, for 24 hours, from the
    address it was issued to, whatever the port, and from no other address; afterwards it is
    refused.  No token is never accepted. *)
Theorem token_accepted source rand issued raddr tok now clientAddr :
  source_ok source -> (forall nonce, rand = Ok nonce -> length nonce = stkNonceSize) ->
  NewToken source rand issued raddr = Ok tok ->
  (exists cookie, DecodeToken source tok = Ok cookie /\
    (defaultAcceptCookie now clientAddr cookie = true <->
     now <= timeUnix (issued + 24 * 3600) /\ addrString clientAddr = addrString raddr)) /\
  (forall cookie, DecodeToken source [] = Ok cookie -> defaultAcceptCookie now clientAddr cookie = false).
Proof.
  intros Hs Hr E. split.
  - eexists. split; [by eapply NewToken_decodes|]. unfold defaultAcceptCookie. cbn [SentTime RemoteAddr].
    unfold timeAdd, CookieExpiryTime, timeUnix. destruct (_ <? now) eqn:El.
    + split; [done|]. intros [H _]. lia.
    + rewrite bool_decide_eq_true. split; [intros ->; split; [lia|done]|by intros [_ ?]].
  - intros cookie [= <-]. done.
Qed.
End cookies.

Lemma token_accepted_witness :
  exists cookie,
    DecodeToken id (fun d => Ok (mkToken (drop 1 d) (default 0 (head d)), []))
      (mkCipher (fun _ c _ => Ok c) (fun _ p _ => p) 0) (replicate 16 9 ++ [100; 0; 10; 0; 0; 1]) = Ok cookie /\
    defaultAcceptCookie id (timeUnix 5000) (AddrUDP [10; 0; 0; 1] 4242) cookie = true.
Proof.
  destruct (token_accepted id (fun t => Ok (tok_Timestamp t :: tok_Data t))
    (fun d => Ok (mkToken (drop 1 d) (default 0 (head d)), [])) (mkCipher (fun _ c _ => Ok c) (fun _ p _ => p) 0)
    (Ok (replicate 16 9)) 100 (AddrUDP [10; 0; 0; 1] 4433) (replicate 16 9 ++ [100; 0; 10; 0; 0; 1]) (timeUnix 5000)
    (AddrUDP [10; 0; 0; 1] 4242)) as [[cookie [E H]] _].
  - constructor; [reflexivity|]. intros [d t] data Ed. injection Ed as <-. reflexivity.
  - intros nonce En. injection En as <-. reflexivity.
  - reflexivity.
  - exists cookie. split; [exact E|]. apply H. split; [vm_compute; discriminate|reflexivity].
Defined.
