(* ===== verification/CryptoServer.v ===== *)
(** * The handshake of the server (internal/handshake/crypto_setup_server.go)

    The crypto setup answers the hellos of the client, with a rejection until the client
    knows the server config and has a source address token, then with the server hello,
    and derives the keys.  Two goroutines work on it: the one that reads the crypto stream
    ([HandleCryptoStream]) and the one of the session that opens packets ([Open]); they
    meet in the mutex, in the channel [sentSHLO] and in [aeadChanged], by which the session
    learns of new keys.  The proofs are in CryptoServerProofs.v. *)
From S2P Require Import Prelude Qerr ByteOrder Protocol PublicHeader ConnParams PacketPacker HandshakeMessage Aead ServerConfig Cookie.

(** ** Tags *)

Definition TagCHLO : Z := mkTag 67 72 76 79.
Definition TagREJ : Z := mkTag 82 69 74 0.
Definition TagPAD : Z := mkTag 80 65 68 0.
Definition TagSNI : Z := mkTag 83 78 73 0.
Definition TagVER : Z := mkTag 86 69 82 0.
Definition TagCCS : Z := mkTag 67 67 83 0.
Definition TagCCRT : Z := mkTag 67 67 82 84.
Definition TagSVID : Z := mkTag 83 86 73 68.
Definition TagPDMD : Z := mkTag 80 68 77 68.
Definition TagFHL2 : Z := mkTag 70 72 76 50.
Definition TagNSTP : Z := mkTag 78 83 84 80.
Definition TagSTK : Z := mkTag 83 84 75 0.
Definition TagSNO : Z := mkTag 83 78 79 0.
Definition TagPROF : Z := mkTag 80 82 79 70.
Definition TagNONC : Z := mkTag 78 79 78 67.
Definition TagXLCT : Z := mkTag 88 76 67 84.
Definition TagCERT : Z := 4283716163.
Definition TagSHLO : Z := mkTag 83 72 76 79.

Definition ClientHelloMinimumSize : Z := 1024.

(** ** The channel on which new encryption levels are announced *)

(** All that was sent, and whether the channel is closed.  Its buffer holds 2 levels. *)
Record aeadChan : Type := mkChan { ac_sent : list EncryptionLevel; ac_closed : bool }.

(** To send on a closed channel or to close it again panics. *)
Definition chan_send (c : aeadChan) (l : EncryptionLevel) : result aeadChan :=
  if ac_closed c then Panic else Ok (mkChan (ac_sent c ++ [l]) false).
Definition chan_close (c : aeadChan) : result aeadChan :=
  if ac_closed c then Panic else Ok (mkChan (ac_sent c) true).

(** ** The crypto setup *)

(** The fields that do not change, with the functions they are; [se_rand env n] is what the
    [n]-th [rand.Read] of 32 bytes gives. *)
Record serverEnv : Type := mkServerEnv {
  se_connID : Z;
  se_remoteAddr : Addr;
  se_scfg : ServerConfig;
  se_version : Z;
  se_supportedVersions : list Z;
  se_acceptSTKCallback : Addr -> option Cookie -> bool;
  se_NewToken : Addr -> result (list Z);
  se_DecodeToken : list Z -> result (option Cookie);
  se_nullAEAD : AEAD;
  se_keyDerivation : bool -> list Z -> list Z -> Z -> list Z -> list Z -> list Z -> list Z -> Perspective -> result AEAD;
  se_keyExchange : KeyExchange;
  se_rand : nat -> result (list Z);
  se_Write : list Z -> option error;
}.

Record cryptoSetupServer : Type := mkServer {
  ss_diversificationNonce : list Z;
  ss_secureAEAD : option AEAD;
  ss_forwardSecureAEAD : option AEAD;
  ss_receivedForwardSecurePacket : bool;
  ss_receivedSecurePacket : bool;
  ss_sentSHLO : bool;
  ss_aeadChanged : aeadChan;
  ss_connectionParameters : connectionParametersManager;
  ss_cryptoStream : list (list Z);
}.

Definition ss_set_nonce (s : cryptoSetupServer) n := mkServer n (ss_secureAEAD s) (ss_forwardSecureAEAD s)
  (ss_receivedForwardSecurePacket s) (ss_receivedSecurePacket s) (ss_sentSHLO s) (ss_aeadChanged s) (ss_connectionParameters s) (ss_cryptoStream s).
Definition ss_set_secure (s : cryptoSetupServer) a := mkServer (ss_diversificationNonce s) a (ss_forwardSecureAEAD s)
  (ss_receivedForwardSecurePacket s) (ss_receivedSecurePacket s) (ss_sentSHLO s) (ss_aeadChanged s) (ss_connectionParameters s) (ss_cryptoStream s).
Definition ss_set_forwardSecure (s : cryptoSetupServer) a := mkServer (ss_diversificationNonce s) (ss_secureAEAD s) a
  (ss_receivedForwardSecurePacket s) (ss_receivedSecurePacket s) (ss_sentSHLO s) (ss_aeadChanged s) (ss_connectionParameters s) (ss_cryptoStream s).
Definition ss_set_receivedForwardSecure (s : cryptoSetupServer) := mkServer (ss_diversificationNonce s) (ss_secureAEAD s) (ss_forwardSecureAEAD s)
  true (ss_receivedSecurePacket s) (ss_sentSHLO s) (ss_aeadChanged s) (ss_connectionParameters s) (ss_cryptoStream s).
Definition ss_set_receivedSecure (s : cryptoSetupServer) := mkServer (ss_diversificationNonce s) (ss_secureAEAD s) (ss_forwardSecureAEAD s)
  (ss_receivedForwardSecurePacket s) true (ss_sentSHLO s) (ss_aeadChanged s) (ss_connectionParameters s) (ss_cryptoStream s).
Definition ss_set_sentSHLO (s : cryptoSetupServer) := mkServer (ss_diversificationNonce s) (ss_secureAEAD s) (ss_forwardSecureAEAD s)
  (ss_receivedForwardSecurePacket s) (ss_receivedSecurePacket s) true (ss_aeadChanged s) (ss_connectionParameters s) (ss_cryptoStream s).
Definition ss_set_chan (s : cryptoSetupServer) c := mkServer (ss_diversificationNonce s) (ss_secureAEAD s) (ss_forwardSecureAEAD s)
  (ss_receivedForwardSecurePacket s) (ss_receivedSecurePacket s) (ss_sentSHLO s) c (ss_connectionParameters s) (ss_cryptoStream s).
Definition ss_set_params (s : cryptoSetupServer) p := mkServer (ss_diversificationNonce s) (ss_secureAEAD s) (ss_forwardSecureAEAD s)
  (ss_receivedForwardSecurePacket s) (ss_receivedSecurePacket s) (ss_sentSHLO s) (ss_aeadChanged s) p (ss_cryptoStream s).
Definition ss_set_stream (s : cryptoSetupServer) w := mkServer (ss_diversificationNonce s) (ss_secureAEAD s) (ss_forwardSecureAEAD s)
  (ss_receivedForwardSecurePacket s) (ss_receivedSecurePacket s) (ss_sentSHLO s) (ss_aeadChanged s) (ss_connectionParameters s) w.

Definition NewCryptoSetup (params : connectionParametersManager) : cryptoSetupServer :=
  mkServer [] None None false false false (mkChan [] false) params [].

(** An operation on a state: what was changed before an error stays changed. *)
Definition st (S A : Type) : Type := S -> S * result A.
Definition sm_ret {S A} (a : A) : st S A := fun s => (s, Ok a).
Definition sm_bind {S A B} (m : st S A) (f : A -> st S B) : st S B :=
  fun s => match m s with (s, Ok a) => f a s | (s, Err e) => (s, Err e) | (s, Panic) => (s, Panic) end.
Definition sm_lift {S A} (r : result A) : st S A := fun s => (s, r).
Definition sm_modify {S} (f : S -> S) : st S unit := fun s => (f s, Ok tt).
Definition SM (A : Type) : Type := st cryptoSetupServer A.
Notation "'let!' x ':=' m 'in' k" := (sm_bind m (fun x => k))
  (at level 10, x pattern, m at level 100, k at level 200) : go_scope.

Definition sm_send (l : EncryptionLevel) : SM unit := fun s =>
  match chan_send (ss_aeadChanged s) l with
  | Ok c => (ss_set_chan s c, Ok tt)
  | _ => (s, Panic)
  end.

(** [h.secureAEAD, err = h.keyDerivation(...)]: an error leaves nil. *)
Definition sm_assign (set : cryptoSetupServer -> option AEAD -> cryptoSetupServer) (r : result AEAD) : SM unit := fun s =>
  match r with
  | Ok a => (set s (Some a), Ok tt)
  | Err e => (set s None, Err e)
  | Panic => (s, Panic)
  end.

Section server.
Variable env : serverEnv.
Notation scfg := (se_scfg env).

(** [cryptoData[tag]]: nil when there is no such tag. *)
Definition value (cryptoData : gmap Z (list Z)) (tag : Z) : list Z := default [] (cryptoData !! tag).

(** ** Which hellos are complete *)

Definition acceptSTK (token : list Z) : bool :=
  match se_DecodeToken env token with
  | Ok stk => se_acceptSTKCallback env (se_remoteAddr env) stk
  | _ => false
  end.

Definition isInchoateCHLO (cryptoData : gmap Z (list Z)) (cert : list Z) : bool :=
  match cryptoData !! TagPUBS with
  | None => true
  | Some _ =>
      match cryptoData !! TagSCID with
      | None => true
      | Some scid =>
          if negb (bool_decide (sc_ID scfg = scid)) then true
          else
          match cryptoData !! TagXLCT with
          | None => true
          | Some xlctTag =>
              if negb (zlen xlctTag =? 8) then true
              else if negb (HashCert cert =? leVal xlctTag) then true
              else negb (acceptSTK (value cryptoData TagSTK))
          end
      end
  end.

Definition validateClientNonce (nonce : list Z) : result unit :=
  if negb (zlen nonce =? 32) then Err (QuicError qerr.InvalidCryptoMessageParameter "invalid client nonce length")
  else if negb (bool_decide (take 8 (drop 4 nonce) = sc_obit scfg))
  then Err (QuicError qerr.InvalidCryptoMessageParameter "OBIT not matching")
  else Ok tt.

(** ** Rejections *)

(** Nothing of the setup changes. *)
Definition handleInchoateCHLO (sni chlo : list Z) (cryptoData : gmap Z (list Z)) : result (list Z) :=
  if zlen chlo <? ClientHelloMinimumSize then Err (QuicError qerr.CryptoInvalidValueLength "CHLO too small")
  else
  let* token := se_NewToken env (se_remoteAddr env) in
  let replyMap := <[TagSCFG := ServerConfig_Get scfg]> (<[TagSTK := token]> (<[TagSVID := bytesOf "quic-go"]> ∅)) in
  let* replyMap :=
    if acceptSTK (value cryptoData TagSTK) then
      let* proof := ServerConfig_Sign scfg sni chlo in
      let* certCompressed := ServerConfig_GetCertsCompressed scfg sni (value cryptoData TagCCS) (value cryptoData TagCCRT) in
      Ok (<[TagCERT := certCompressed]> (<[TagPROF := proof]> replyMap))
    else Ok replyMap in
  Ok (HandshakeMessage_Write (mkHM TagREJ replyMap)).

(** ** The complete hello *)

Definition versionTags : list Z := concat (map (fun v => leEnc 4 (VersionNumberToTag v)) (se_supportedVersions env)).

Definition handleCHLO (sni data : list Z) (cryptoData : gmap Z (list Z)) : SM (list Z) :=
  let pubs := value cryptoData TagPUBS in
  let! sharedSecret := sm_lift (CalculateSharedKey (sc_kex scfg) pubs) in
  let! certUncompressed := sm_lift (GetLeafCert (sc_certChain scfg) sni) in
  let! serverNonce := sm_lift (se_rand env 0) in
  let! _ := sm_modify (fun s => ss_set_nonce s (replicate 32 0)) in
  let! divNonce := sm_lift (se_rand env 1) in
  let! _ := sm_modify (fun s => ss_set_nonce s divNonce) in
  let clientNonce := value cryptoData TagNONC in
  let! _ := sm_lift (validateClientNonce clientNonce) in
  let! _ := sm_lift (check (negb (bool_decide (value cryptoData TagAEAD = bytesOf "AESG")))
    (QuicError qerr.CryptoNoSupport "Unsupported AEAD or KEXS")) in
  let! _ := sm_lift (check (negb (bool_decide (value cryptoData TagKEXS = bytesOf "C255")))
    (QuicError qerr.CryptoNoSupport "Unsupported AEAD or KEXS")) in
  let! _ := sm_assign ss_set_secure
    (se_keyDerivation env false sharedSecret clientNonce (se_connID env) data (ServerConfig_Get scfg) certUncompressed
       divNonce PerspectiveServer) in
  let! _ := sm_send EncryptionSecure in
  let fsNonce := clientNonce ++ serverNonce in
  let ephermalKex := se_keyExchange env in
  let! ephermalSharedSecret := sm_lift (CalculateSharedKey ephermalKex pubs) in
  let! _ := sm_assign ss_set_forwardSecure
    (se_keyDerivation env true ephermalSharedSecret fsNonce (se_connID env) data (ServerConfig_Get scfg) certUncompressed
       [] PerspectiveServer) in
  let! _ := (fun s =>
    match SetFromMap cryptoData (ss_connectionParameters s) with
    | (p, None) => (ss_set_params s p, Ok tt)
    | (p, Some e) => (ss_set_params s p, Err e)
    end) in
  let! replyMap := (fun s => (s, Ok (GetHelloMap (ss_connectionParameters s)))) in
  let replyMap := <[TagVER := versionTags]> (<[TagSNO := serverNonce]> (<[TagPUBS := PublicKey ephermalKex]> replyMap)) in
  sm_ret (HandshakeMessage_Write (mkHM TagSHLO replyMap)).

(** ** Messages *)

Definition ErrHOLExperiment : error := QuicError qerr.InvalidCryptoMessageParameter "HOL experiment. Unsupported".
Definition ErrNSTPExperiment : error := QuicError qerr.InvalidCryptoMessageParameter "NSTP experiment. Unsupported".

(** What is checked before the certificate is looked up: the server name. *)
Definition checkCHLO (cryptoData : gmap Z (list Z)) : result (list Z) :=
  if bool_decide (is_Some (cryptoData !! TagFHL2)) then Err ErrHOLExperiment
  else if bool_decide (is_Some (cryptoData !! TagNSTP)) then Err ErrNSTPExperiment
  else
  match cryptoData !! TagSNI with
  | None | Some [] => Err (QuicError qerr.CryptoMessageParameterNotFound "SNI required")
  | Some sni =>
      match cryptoData !! TagVER with
      | None => Err (QuicError qerr.InvalidCryptoMessageParameter "client hello missing version tag")
      | Some verSlice =>
          if negb (zlen verSlice =? 4) then Err (QuicError qerr.InvalidCryptoMessageParameter "incorrect version tag")
          else
          let ver := VersionTagToNumber (leVal verSlice) in
          if negb (ver =? se_version env) && IsSupportedVersion (se_supportedVersions env) ver
          then Err (QuicError qerr.VersionNegotiationMismatch "Downgrade attack detected")
          else Ok sni
      end
  end.

Definition sm_write (reply : list Z) : SM unit := fun s =>
  match se_Write env reply with
  | None => (ss_set_stream s (ss_cryptoStream s ++ [reply]), Ok tt)
  | Some e => (s, Err e)
  end.

(** Up to the reply, and whether it is the server hello; all the changes of the keys are
    made here, under the mutex. *)
Definition prepareReply (chloData : list Z) (cryptoData : gmap Z (list Z)) : SM (list Z * bool) :=
  let! sni := sm_lift (checkCHLO cryptoData) in
  let! certUncompressed := sm_lift (GetLeafCert (sc_certChain scfg) sni) in
  if negb (isInchoateCHLO cryptoData certUncompressed)
  then let! reply := handleCHLO sni chloData cryptoData in sm_ret (reply, true)
  else let! reply := sm_lift (handleInchoateCHLO sni chloData cryptoData) in sm_ret (reply, false).

Definition handleMessage (chloData : list Z) (cryptoData : gmap Z (list Z)) : SM bool :=
  let! (reply, hello) := prepareReply chloData cryptoData in
  let! _ := sm_write reply in
  if hello then
    let! _ := sm_send EncryptionForwardSecure in
    let! _ := sm_modify ss_set_sentSHLO in
    sm_ret true
  else sm_ret false.

(** The loop of the goroutine, on the bytes the client sends; each message has at least 8
    bytes.  The loop ends with an error when the stream does. *)
Fixpoint HandleCryptoStream (fuel : nat) (stream : list Z) : SM unit :=
  match fuel with
  | O => sm_lift Panic
  | S fuel =>
      match ParseHandshakeMessage stream with
      | Panic => sm_lift Panic
      | Err _ => sm_lift (Err (ErrCode qerr.HandshakeFailed))
      | Ok (message, rest) =>
          if negb (hm_Tag message =? TagCHLO) then sm_lift (Err (ErrCode qerr.InvalidCryptoMessageType))
          else
          let chloData := take (length stream - length rest) stream in
          let! done := handleMessage chloData (hm_Data message) in
          if done then sm_ret tt else HandleCryptoStream fuel rest
      end
  end.

(** ** Packets *)

(** The levels below the forward-secure one. *)
Definition server_openNull (src : list Z) (packetNumber : Z) (associatedData : list Z) (s : cryptoSetupServer) :
    cryptoSetupServer * result (list Z * EncryptionLevel) :=
  match aead_Open (se_nullAEAD env) src packetNumber associatedData with
  | Ok res => (s, Ok (res, EncryptionUnencrypted))
  | Err e => (s, Err e)
  | Panic => (s, Panic)
  end.

Definition server_openSecure (src : list Z) (packetNumber : Z) (associatedData : list Z) (s : cryptoSetupServer) :
    cryptoSetupServer * result (list Z * EncryptionLevel) :=
  match ss_secureAEAD s with
  | None => server_openNull src packetNumber associatedData s
  | Some a =>
      match aead_Open a src packetNumber associatedData with
      | Ok res => (ss_set_receivedSecure s, Ok (res, EncryptionSecure))
      | Err e => if ss_receivedSecurePacket s then (s, Err e) else server_openNull src packetNumber associatedData s
      | Panic => (s, Panic)
      end
  end.

(** [Open]; it waits, here [None], when it opens the first forward-secure packet before the
    server hello was sent. *)
Definition server_Open (src : list Z) (packetNumber : Z) (associatedData : list Z) (s : cryptoSetupServer) :
    option (cryptoSetupServer * result (list Z * EncryptionLevel)) :=
  match ss_forwardSecureAEAD s with
  | None => Some (server_openSecure src packetNumber associatedData s)
  | Some a =>
      match aead_Open a src packetNumber associatedData with
      | Ok res =>
          if ss_receivedForwardSecurePacket s then Some (s, Ok (res, EncryptionForwardSecure))
          else
          let s := ss_set_receivedForwardSecure s in
          if negb (ss_sentSHLO s) then None
          else
          match chan_close (ss_aeadChanged s) with
          | Ok c => Some (ss_set_chan s c, Ok (res, EncryptionForwardSecure))
          | _ => Some (s, Panic)
          end
      | Err e => if ss_receivedForwardSecurePacket s then Some (s, Err e) else Some (server_openSecure src packetNumber associatedData s)
      | Panic => Some (s, Panic)
      end
  end.

(** An AEAD as a sealer. *)
Definition sealerOf (a : AEAD) : Sealer := mkSealer (aead_Overhead a) (aead_Seal a).

Definition server_GetSealer (s : cryptoSetupServer) : EncryptionLevel * Sealer :=
  match ss_forwardSecureAEAD s with
  | Some a => (EncryptionForwardSecure, sealerOf a)
  | None => (EncryptionUnencrypted, sealerOf (se_nullAEAD env))
  end.

Definition server_GetSealerForCryptoStream (s : cryptoSetupServer) : EncryptionLevel * Sealer :=
  match ss_secureAEAD s with
  | Some a => (EncryptionSecure, sealerOf a)
  | None => (EncryptionUnencrypted, sealerOf (se_nullAEAD env))
  end.

Definition server_GetSealerWithEncryptionLevel (s : cryptoSetupServer) (encLevel : EncryptionLevel) : result Sealer :=
  match encLevel with
  | EncryptionUnencrypted => Ok (sealerOf (se_nullAEAD env))
  | EncryptionSecure =>
      match ss_secureAEAD s with
      | None => Err (errors_New "CryptoSetupServer: no secureAEAD")
      | Some a => Ok (sealerOf a)
      end
  | EncryptionForwardSecure =>
      match ss_forwardSecureAEAD s with
      | None => Err (errors_New "CryptoSetupServer: no forwardSecureAEAD")
      | Some a => Ok (sealerOf a)
      end
  | EncryptionUnspecified => Err (errors_New "CryptoSetupServer: no encryption level specified")
  end.

(** The interface the packer uses, at a state of the setup. *)
Definition server_CryptoSetup (s : cryptoSetupServer) : CryptoSetup :=
  mkCrypto (server_GetSealer s) (server_GetSealerWithEncryptionLevel s) (server_GetSealerForCryptoStream s)
    (ss_diversificationNonce s).
End server.
