(* ===== verification/CryptoServerProofs.v ===== *)
(** * What the handshake of the server guarantees

    The interleavings of the goroutine that handles the crypto stream and of the session that
    opens packets, as a step relation; invariants by induction on it. *)
From stdpp Require Import sorting.
From S2P Require Import Prelude Qerr ByteOrder Protocol PublicHeader ConnParams PacketPacker HandshakeMessage Aead ServerConfig Cookie.
From S2P Require Import CryptoServer.

(** ** Messages *)

(** An operation that returns early. *)
Ltac early E := injection E as <- <-; (split; [by constructor|]); (split; [done|]); by auto.

(** What messages do not touch. *)
Record untouched (s s' : cryptoSetupServer) : Prop := {
  untouched_fs : ss_receivedForwardSecurePacket s' = ss_receivedForwardSecurePacket s;
  untouched_sec : ss_receivedSecurePacket s' = ss_receivedSecurePacket s;
  untouched_shlo : ss_sentSHLO s' = ss_sentSHLO s;
}.

Section proofs.
Variable env : serverEnv.

(** A hello with which keys are derived: its values, the secrets, the certificate and the
    random bytes they are derived from. *)
Record derivation (sni chlo : list Z) (cryptoData : gmap Z (list Z)) (s' : cryptoSetupServer) : Prop := {
  drv_nonce : zlen (value cryptoData TagNONC) = 32;
  drv_orbit : take 8 (drop 4 (value cryptoData TagNONC)) = sc_obit (se_scfg env);
  drv_aead : value cryptoData TagAEAD = bytesOf "AESG";
  drv_kexs : value cryptoData TagKEXS = bytesOf "C255";
  drv_keys : exists secret ephermal cert serverNonce divNonce a b,
    CalculateSharedKey (sc_kex (se_scfg env)) (value cryptoData TagPUBS) = Ok secret /\
    CalculateSharedKey (se_keyExchange env) (value cryptoData TagPUBS) = Ok ephermal /\
    GetLeafCert (sc_certChain (se_scfg env)) sni = Ok cert /\
    se_keyDerivation env false secret (value cryptoData TagNONC) (se_connID env) chlo
      (ServerConfig_Get (se_scfg env)) cert divNonce PerspectiveServer = Ok a /\
    se_keyDerivation env true ephermal (value cryptoData TagNONC ++ serverNonce) (se_connID env) chlo
      (ServerConfig_Get (se_scfg env)) cert [] PerspectiveServer = Ok b /\
    ss_diversificationNonce s' = divNonce /\ ss_secureAEAD s' = Some a /\ ss_forwardSecureAEAD s' = Some b;
}.

Definition keyless (s : cryptoSetupServer) : Prop := ss_secureAEAD s = None /\ ss_forwardSecureAEAD s = None.

Lemma handleCHLO_outcome sni chlo cryptoData s s' r :
  handleCHLO env sni chlo cryptoData s = (s', r) -> keyless s -> ac_closed (ss_aeadChanged s) = false ->
  untouched s s' /\ ac_closed (ss_aeadChanged s') = false /\
  match r with
  | Ok _ => ac_sent (ss_aeadChanged s') = ac_sent (ss_aeadChanged s) ++ [EncryptionSecure] /\
            derivation sni chlo cryptoData s'
  | Err _ => ss_aeadChanged s' = ss_aeadChanged s \/
             ac_sent (ss_aeadChanged s') = ac_sent (ss_aeadChanged s) ++ [EncryptionSecure]
  | Panic => True
  end.
Proof.
  intros E [Hk1 Hk2] Hc. unfold handleCHLO, sm_bind, sm_lift, sm_modify, sm_assign, sm_send, sm_ret, chan_send in E.
  destruct s as [dn sec fs rfs rsec shlo ch par st]. cbn in Hk1, Hk2, Hc. subst sec fs.
  destruct (CalculateSharedKey (sc_kex _) _) as [secret| |] eqn:E1; cbn in E; [|early E..].
  destruct (GetLeafCert _ _) as [cert| |] eqn:E2; cbn in E; [|early E..].
  destruct (se_rand env 0) as [serverNonce| |] eqn:E3; cbn in E; [|early E..].
  destruct (se_rand env 1) as [divNonce| |] eqn:E4; cbn in E; [|early E..].
  unfold validateClientNonce in E. destruct (zlen _ =? 32) eqn:E5; cbn in E; [|early E].
  destruct (bool_decide _) eqn:E6 in E; cbn in E; [|early E].
  destruct (bool_decide (value _ TagAEAD = _)) eqn:E7 in E; cbn in E; [|early E].
  destruct (bool_decide (value _ TagKEXS = _)) eqn:E8 in E; cbn in E; [|early E].
  destruct (se_keyDerivation env false _ _ _ _ _ _ _ _) as [a| |] eqn:E9; cbn in E; [|early E..].
  rewrite Hc in E. cbn in E.
  destruct (CalculateSharedKey (se_keyExchange _) _) as [ephermal| |] eqn:E10; cbn in E; [|early E..].
  destruct (se_keyDerivation env true _ _ _ _ _ _ _ _) as [b| |] eqn:E11; cbn in E; [|early E..].
  destruct (SetFromMap _ _) as [p [e|]]; cbn in E; [early E|]. injection E as <- <-.
  split; [by constructor|]. split; [done|]. split; [done|]. constructor.
  - lia.
  - by apply bool_decide_eq_true in E6.
  - by apply bool_decide_eq_true in E7.
  - by apply bool_decide_eq_true in E8.
  - by exists secret, ephermal, cert, serverNonce, divNonce, a, b.
Qed.

(** The keys a setup has after a hello, however the hello ends: those of the secure level, with which the level was announced, and
    perhaps those of the forward-secure one.  The hello was checked before. *)
Record secured_keys (sni chlo : list Z) (cryptoData : gmap Z (list Z)) (s s' : cryptoSetupServer) : Prop := {
  scd_nonce : zlen (value cryptoData TagNONC) = 32;
  scd_orbit : take 8 (drop 4 (value cryptoData TagNONC)) = sc_obit (se_scfg env);
  scd_aead : value cryptoData TagAEAD = bytesOf "AESG";
  scd_kexs : value cryptoData TagKEXS = bytesOf "C255";
  scd_keys : exists secret cert a,
    CalculateSharedKey (sc_kex (se_scfg env)) (value cryptoData TagPUBS) = Ok secret /\
    GetLeafCert (sc_certChain (se_scfg env)) sni = Ok cert /\
    se_keyDerivation env false secret (value cryptoData TagNONC) (se_connID env) chlo
      (ServerConfig_Get (se_scfg env)) cert (ss_diversificationNonce s') PerspectiveServer = Ok a /\
    ss_secureAEAD s' = Some a /\
    forall b, ss_forwardSecureAEAD s' = Some b -> exists ephermal serverNonce,
      CalculateSharedKey (se_keyExchange env) (value cryptoData TagPUBS) = Ok ephermal /\
      se_keyDerivation env true ephermal (value cryptoData TagNONC ++ serverNonce) (se_connID env) chlo
        (ServerConfig_Get (se_scfg env)) cert [] PerspectiveServer = Ok b;
  scd_announced : ac_sent (ss_aeadChanged s') = ac_sent (ss_aeadChanged s) ++ [EncryptionSecure];
}.

(** No keys, and nothing announced. *)
Definition no_keys_yet (s s' : cryptoSetupServer) : Prop := keyless s' /\ ss_aeadChanged s' = ss_aeadChanged s.

Lemma handleCHLO_keys sni chlo cryptoData s s' r :
  handleCHLO env sni chlo cryptoData s = (s', r) -> keyless s -> ac_closed (ss_aeadChanged s) = false ->
  no_keys_yet s s' \/ secured_keys sni chlo cryptoData s s'.
Proof.
  intros E [Hk1 Hk2] Hc. unfold handleCHLO, sm_bind, sm_lift, sm_modify, sm_assign, sm_send, sm_ret, chan_send in E.
  destruct s as [dn sec fs rfs rsec shlo ch par st]. cbn in Hk1, Hk2, Hc. subst sec fs.
  destruct (CalculateSharedKey (sc_kex _) _) as [secret| |] eqn:E1; cbn in E; [|by left; simplify_eq..].
  destruct (GetLeafCert _ _) as [cert| |] eqn:E2; cbn in E; [|by left; simplify_eq..].
  destruct (se_rand env 0) as [serverNonce| |] eqn:E3; cbn in E; [|by left; simplify_eq..].
  destruct (se_rand env 1) as [divNonce| |] eqn:E4; cbn in E; [|by left; simplify_eq..].
  unfold validateClientNonce in E. destruct (zlen _ =? 32) eqn:E5; cbn in E; [|by left; simplify_eq].
  destruct (bool_decide _) eqn:E6 in E; cbn in E; [|by left; simplify_eq].
  destruct (bool_decide (value _ TagAEAD = _)) eqn:E7 in E; cbn in E; [|by left; simplify_eq].
  destruct (bool_decide (value _ TagKEXS = _)) eqn:E8 in E; cbn in E; [|by left; simplify_eq].
  destruct (se_keyDerivation env false _ _ _ _ _ _ _ _) as [a| |] eqn:E9; cbn in E; [|by left; simplify_eq..].
  apply Z.eqb_eq in E5. apply bool_decide_eq_true in E6, E7, E8. right.
  rewrite Hc in E. cbn in E.
  destruct (CalculateSharedKey (se_keyExchange _) _) as [ephermal| |] eqn:E10; cbn in E;
    [|by simplify_eq; constructor; try done; exists secret, cert, a; split_and!..].
  destruct (se_keyDerivation env true _ _ _ _ _ _ _ _) as [b| |] eqn:E11; cbn in E;
    [|by simplify_eq; constructor; try done; exists secret, cert, a; split_and!..].
  assert (Hs' : exists p, s' = mkServer divNonce (Some a) (Some b) rfs rsec shlo (mkChan (ac_sent ch ++ [EncryptionSecure]) false) p st)
    by (destruct (SetFromMap _ _) as [p [e|]]; cbn in E; injection E as <- _; by exists p).
  destruct Hs' as [p ->]. constructor; try done. exists secret, cert, a. split_and!; try done.
  intros b' [= <-]. by exists ephermal, serverNonce.
Qed.

(** What the server has checked before it derives keys. *)
Record proper_hello (cryptoData : gmap Z (list Z)) (sni : list Z) : Prop := {
  ph_sni : cryptoData !! TagSNI = Some sni /\ sni <> [];
  ph_version : exists ver, cryptoData !! TagVER = Some ver /\ zlen ver = 4 /\
    (VersionTagToNumber (leVal ver) = se_version env \/
     IsSupportedVersion (se_supportedVersions env) (VersionTagToNumber (leVal ver)) = false);
  ph_scid : cryptoData !! TagSCID = Some (sc_ID (se_scfg env));
  ph_xlct : exists cert xlct, GetLeafCert (sc_certChain (se_scfg env)) sni = Ok cert /\
    cryptoData !! TagXLCT = Some xlct /\ zlen xlct = 8 /\ leVal xlct = HashCert cert;
  ph_token : exists cookie, se_DecodeToken env (value cryptoData TagSTK) = Ok cookie /\
    se_acceptSTKCallback env (se_remoteAddr env) cookie = true;
}.

Lemma checkCHLO_ok cryptoData sni : checkCHLO env cryptoData = Ok sni ->
  (cryptoData !! TagSNI = Some sni /\ sni <> []) /\
  exists ver, cryptoData !! TagVER = Some ver /\ zlen ver = 4 /\
    (VersionTagToNumber (leVal ver) = se_version env \/
     IsSupportedVersion (se_supportedVersions env) (VersionTagToNumber (leVal ver)) = false).
Proof.
  unfold checkCHLO. destruct (bool_decide _); [done|]. destruct (bool_decide _); [done|].
  destruct (cryptoData !! TagSNI) as [[|b l]|]; [done| |done].
  destruct (cryptoData !! TagVER) as [ver|]; [|done]. destruct (zlen ver =? 4) eqn:El; cbn [negb]; [|done].
  destruct (_ =? se_version env) eqn:Ev; cbn [negb andb].
  - intros [= <-]. split; [done|]. exists ver. split_and!; [done|lia|left; lia].
  - destruct (IsSupportedVersion _ _) eqn:Es; [done|]. intros [= <-]. split; [done|]. exists ver. split_and!; [done|lia|by right].
Qed.

Lemma complete_hello cryptoData cert : isInchoateCHLO env cryptoData cert = false ->
  cryptoData !! TagSCID = Some (sc_ID (se_scfg env)) /\
  (exists xlct, cryptoData !! TagXLCT = Some xlct /\ zlen xlct = 8 /\ leVal xlct = HashCert cert) /\
  exists cookie, se_DecodeToken env (value cryptoData TagSTK) = Ok cookie /\
    se_acceptSTKCallback env (se_remoteAddr env) cookie = true.
Proof.
  unfold isInchoateCHLO, acceptSTK. destruct (cryptoData !! TagPUBS); [|done].
  destruct (cryptoData !! TagSCID) as [scid|]; [|done]. destruct (bool_decide _) eqn:E1; cbn [negb]; [|done].
  apply bool_decide_eq_true in E1 as <-.
  destruct (cryptoData !! TagXLCT) as [xlct|]; [|done]. destruct (zlen xlct =? 8) eqn:E2; cbn [negb]; [|done].
  destruct (HashCert cert =? _) eqn:E3; cbn [negb]; [|done].
  destruct (se_DecodeToken _ _) as [cookie| |]; [|done..]. intros Ht. apply negb_false_iff in Ht.
  split; [done|]. split; [exists xlct; split_and!; [done|lia|lia]|by exists cookie].
Qed.

Lemma prepareReply_outcome chlo cryptoData s s' r :
  prepareReply env chlo cryptoData s = (s', r) -> keyless s -> ac_closed (ss_aeadChanged s) = false ->
  untouched s s' /\ ac_closed (ss_aeadChanged s') = false /\
  match r with
  | Ok (_, true) => ac_sent (ss_aeadChanged s') = ac_sent (ss_aeadChanged s) ++ [EncryptionSecure] /\
      exists sni, proper_hello cryptoData sni /\ derivation sni chlo cryptoData s'
  | Ok (_, false) => s' = s
  | Err _ => ss_aeadChanged s' = ss_aeadChanged s \/
             ac_sent (ss_aeadChanged s') = ac_sent (ss_aeadChanged s) ++ [EncryptionSecure]
  | Panic => True
  end.
Proof.
  intros E Hk Hc. unfold prepareReply, sm_bind, sm_lift, sm_ret in E.
  assert (Hs : untouched s s) by by constructor.
  destruct (checkCHLO env cryptoData) as [sni| |] eqn:E1; [|by simplify_eq; auto..].
  destruct (GetLeafCert _ _) as [cert| |] eqn:E2; [|by simplify_eq; auto..].
  destruct (isInchoateCHLO _ _ _) eqn:E3; cbn [negb] in E.
  - destruct (handleInchoateCHLO _ _ _ _); by simplify_eq; auto.
  - destruct (handleCHLO _ _ _ _ _) as [s1 r1] eqn:E4.
    destruct (handleCHLO_outcome _ _ _ _ _ _ E4 Hk Hc) as (Hu & Hc' & Hr).
    destruct r1; simplify_eq; [|by auto..]. destruct Hr as [Hr Hd]. split_and!; [done..|].
    exists sni. split; [|done]. destruct (checkCHLO_ok _ _ E1) as [Hsni Hver]. destruct (complete_hello _ _ E3) as (? & [xlct ?] & ?).
    constructor; [done|done|done|by exists cert, xlct|done].
Qed.

Lemma prepareReply_keys chlo cryptoData s s' r :
  prepareReply env chlo cryptoData s = (s', r) -> keyless s -> ac_closed (ss_aeadChanged s) = false ->
  no_keys_yet s s' \/ exists sni, proper_hello cryptoData sni /\ secured_keys sni chlo cryptoData s s'.
Proof.
  intros E Hk Hc. unfold prepareReply, sm_bind, sm_lift, sm_ret in E.
  destruct (checkCHLO env cryptoData) as [sni| |] eqn:E1; [|by left; simplify_eq..].
  destruct (GetLeafCert _ _) as [cert| |] eqn:E2; [|by left; simplify_eq..].
  destruct (isInchoateCHLO _ _ _) eqn:E3; cbn [negb] in E.
  - left. destruct (handleInchoateCHLO _ _ _ _); by simplify_eq.
  - destruct (handleCHLO _ _ _ _ _) as [s1 r1] eqn:E4.
    assert (s1 = s') as -> by (destruct r1; by simplify_eq).
    destruct (handleCHLO_keys _ _ _ _ _ _ E4 Hk Hc) as [Hn|Hs]; [by left|right].
    exists sni. split; [|done]. destruct (checkCHLO_ok _ _ E1) as [Hsni Hver]. destruct (complete_hello _ _ E3) as (? & [xlct ?] & ?).
    constructor; [done|done|done|by exists cert, xlct|done].
Qed.

(** C38: however the handling of a client hello ends, with a reply, an error or a panic, the server has keys and has announced a level after
    it only when the hello names a server, was not downgraded, knows the server config and the certificate, carries a
    source address token that is accepted for its address, uses the orbit of the server and supports the algorithms; the keys it has
    then are derived from this hello with the secrets of its static and of its ephemeral key.  When it replies with a server hello it has
    the keys of both levels, and has announced the first one; a rejection changes nothing. *)
Theorem server_keys_checked chlo cryptoData s s' r :
  keyless s -> ac_closed (ss_aeadChanged s) = false ->
  prepareReply env chlo cryptoData s = (s', r) ->
  (no_keys_yet s s' \/ exists sni, proper_hello cryptoData sni /\ secured_keys sni chlo cryptoData s s') /\
  match r with
  | Ok (_, true) => exists sni, proper_hello cryptoData sni /\ derivation sni chlo cryptoData s' /\
      ac_sent (ss_aeadChanged s') = ac_sent (ss_aeadChanged s) ++ [EncryptionSecure]
  | Ok (_, false) => s' = s
  | _ => True
  end.
Proof.
  intros Hk Hc E. split; [by eapply prepareReply_keys|]. destruct (prepareReply_outcome _ _ _ _ _ E Hk Hc) as (_ & _ & H).
  destruct r as [[reply []]| |]; [|done..]. destruct H as [H [sni [H1 H2]]]. by exists sni.
Qed.

(** ** Packets *)

(** Where the goroutine of [HandleCryptoStream] is. *)
Inductive phase : Type :=
| Reading
| Replying (reply : list Z) (hello : bool)
| Written
| Signalled
| Finished
| Failed.

(** A step of either goroutine; the label is the level of a packet that was opened. *)
Inductive server_step : cryptoSetupServer * phase -> option EncryptionLevel -> cryptoSetupServer * phase -> Prop :=
| step_message chlo cryptoData s s' reply hello :
    prepareReply env chlo cryptoData s = (s', Ok (reply, hello)) ->
    server_step (s, Reading) None (s', Replying reply hello)
| step_message_err chlo cryptoData s s' e :
    prepareReply env chlo cryptoData s = (s', Err e) -> server_step (s, Reading) None (s', Failed)
| step_read_err s : server_step (s, Reading) None (s, Failed)
| step_write s s' reply hello :
    sm_write env reply s = (s', Ok tt) ->
    server_step (s, Replying reply hello) None (s', if hello then Written else Reading)
| step_write_err s s' reply hello e :
    sm_write env reply s = (s', Err e) -> server_step (s, Replying reply hello) None (s', Failed)
| step_signal s s' : sm_send EncryptionForwardSecure s = (s', Ok tt) -> server_step (s, Written) None (s', Signalled)
| step_sent s : server_step (s, Signalled) None (ss_set_sentSHLO s, Finished)
| step_open s s' ph src pn ad data lvl :
    server_Open env src pn ad s = Some (s', Ok (data, lvl)) -> server_step (s, ph) (Some lvl) (s', ph)
| step_open_err s s' ph src pn ad e :
    server_Open env src pn ad s = Some (s', Err e) -> server_step (s, ph) None (s', ph).

(** A run, with the levels of the packets that were opened, the last first. *)
Inductive server_run (params : connectionParametersManager) : cryptoSetupServer * phase -> list EncryptionLevel -> Prop :=
| run_new : server_run params (NewCryptoSetup params, Reading) []
| run_step st lvls l st' :
    server_run params st lvls -> server_step st l st' ->
    server_run params st' (match l with Some l => l :: lvls | None => lvls end).

(** What is announced and when, by phase. *)
Definition announced (s : cryptoSetupServer) (ph : phase) : Prop :=
  match ph with
  | Reading | Replying _ false => keyless s /\ ss_aeadChanged s = mkChan [] false /\ ss_sentSHLO s = false
  | Replying _ true | Written =>
      is_Some (ss_secureAEAD s) /\ is_Some (ss_forwardSecureAEAD s) /\
      ss_aeadChanged s = mkChan [EncryptionSecure] false /\ ss_sentSHLO s = false
  | Signalled =>
      is_Some (ss_secureAEAD s) /\ is_Some (ss_forwardSecureAEAD s) /\
      ss_aeadChanged s = mkChan [EncryptionSecure; EncryptionForwardSecure] false /\ ss_sentSHLO s = false
  | Finished =>
      is_Some (ss_secureAEAD s) /\ is_Some (ss_forwardSecureAEAD s) /\
      ss_aeadChanged s = mkChan [EncryptionSecure; EncryptionForwardSecure] (ss_receivedForwardSecurePacket s) /\
      ss_sentSHLO s = true
  | Failed => ac_closed (ss_aeadChanged s) = false /\ ss_sentSHLO s = false
  end.

Record server_inv (s : cryptoSetupServer) (ph : phase) : Prop := {
  inv_announced : announced s ph;
  inv_fs : ss_receivedForwardSecurePacket s = true -> ss_sentSHLO s = true /\ is_Some (ss_forwardSecureAEAD s);
  inv_sec : ss_receivedSecurePacket s = true -> is_Some (ss_secureAEAD s);
}.

(** What [Open] does, level by level. *)
Definition opened_below (s s' : cryptoSetupServer) (r : result (list Z * EncryptionLevel)) : Prop :=
  (s' = s /\ match r with
    | Ok (_, l) => l = EncryptionUnencrypted /\ (is_Some (ss_secureAEAD s) -> ss_receivedSecurePacket s = false)
    | _ => True
    end) \/
  (s' = ss_set_receivedSecure s /\ is_Some (ss_secureAEAD s) /\ exists d, r = Ok (d, EncryptionSecure)).

Lemma server_openSecure_outcome src pn ad s : opened_below s (server_openSecure env src pn ad s).1 (server_openSecure env src pn ad s).2.
Proof.
  assert (Hnull : (is_Some (ss_secureAEAD s) -> ss_receivedSecurePacket s = false) ->
    opened_below s (server_openNull env src pn ad s).1 (server_openNull env src pn ad s).2).
  { intros H. unfold server_openNull. left. by destruct (aead_Open _ _ _ _). }
  unfold server_openSecure. destruct (ss_secureAEAD s) as [a|] eqn:Es; [|apply Hnull; by intros []].
  destruct (aead_Open a src pn ad) as [res|e|]; [right; rewrite Es; by eauto| |by left].
  destruct (ss_receivedSecurePacket s) eqn:Er; [by left|by apply Hnull].
Qed.

Lemma server_Open_outcome src pn ad s s' r : server_Open env src pn ad s = Some (s', r) ->
  (s' = s /\ ss_receivedForwardSecurePacket s = true /\ match r with Ok (_, l) => l = EncryptionForwardSecure | _ => True end) \/
  ((is_Some (ss_forwardSecureAEAD s) -> ss_receivedForwardSecurePacket s = false) /\ opened_below s s' r) \/
  (ss_receivedForwardSecurePacket s = false /\ ss_sentSHLO s = true /\ is_Some (ss_forwardSecureAEAD s) /\
    ((exists d, r = Ok (d, EncryptionForwardSecure)) /\ ac_closed (ss_aeadChanged s) = false /\
      s' = ss_set_chan (ss_set_receivedForwardSecure s) (mkChan (ac_sent (ss_aeadChanged s)) true) \/
     r = Panic /\ ac_closed (ss_aeadChanged s) = true)).
Proof.
  unfold server_Open, chan_close. pose proof (server_openSecure_outcome src pn ad s) as Hsec.
  destruct (ss_forwardSecureAEAD s) as [a|] eqn:Ef.
  2:{ intros [= E]. rewrite E in Hsec. right; left. split; [by intros []|done]. }
  destruct (aead_Open a src pn ad) as [res|e|]; destruct (ss_receivedForwardSecurePacket s) eqn:Er.
  - intros [= <- <-]. by left.
  - cbn [ss_sentSHLO ss_set_receivedForwardSecure ss_aeadChanged]. destruct (ss_sentSHLO s) eqn:Eh; cbn [negb]; [|done].
    destruct (ac_closed _) eqn:Ec; intros [= <- <-]; right; right; split_and!; eauto 6.
  - intros [= <- <-]. by left.
  - intros [= E]. rewrite E in Hsec. by right; left.
  - intros [= <- <-]. by left.
  - intros [= <- <-]. right; left. split; [done|]. by left.
Qed.

Lemma keyless_unreceived s ph : server_inv s ph -> keyless s ->
  ss_receivedSecurePacket s = false /\ ss_receivedForwardSecurePacket s = false.
Proof.
  intros [_ Hf Hs] [Hk1 Hk2]. rewrite Hk1 in Hs. rewrite Hk2 in Hf. split.
  - destruct (ss_receivedSecurePacket s); [|done]. by destruct (Hs eq_refl).
  - destruct (ss_receivedForwardSecurePacket s); [|done]. by destruct (Hf eq_refl) as [_ []].
Qed.

Lemma server_Open_inv src pn ad s s' ph r :
  server_Open env src pn ad s = Some (s', r) -> server_inv s ph -> server_inv s' ph.
Proof.
  intros E Hinv. pose proof Hinv as [Ha Hf Hs].
  destruct (server_Open_outcome _ _ _ _ _ _ E) as [(-> & _)|[(_ & [(-> & _)|(-> & Hsome & _)])|
    (Hrf & Hh & Hsome & [(_ & Hc & ->)|(-> & Hc)])]]; [done|done| | |].
  - constructor; [|done|done]. by destruct ph as [|reply []| | | |].
  - constructor; [|done|done].
    destruct ph as [|reply []| | | |]; cbn [announced] in *; destruct_and?; try congruence.
    split_and!; [done|done| |done]. destruct s; cbn in *; by simplify_eq/=.
  - destruct ph as [|reply []| | | |]; cbn [announced] in Ha; destruct_and?; try congruence.
    match goal with H : ss_aeadChanged s = _ |- _ => rewrite H in Hc end. cbn in Hc. congruence.
Qed.

Lemma unreceived_open s ph :
  server_inv s ph -> ss_receivedForwardSecurePacket s = false -> ac_closed (ss_aeadChanged s) = false.
Proof.
  intros [Ha _ _] Hrf. destruct ph as [|reply []| | | |]; cbn [announced] in Ha; destruct_and?;
    try match goal with H : ss_aeadChanged s = _ |- _ => rewrite H end; done.
Qed.

Lemma crypto_step_inv st l st' : server_step st l st' -> server_inv st.1 st.2 -> server_inv st'.1 st'.2.
Proof.
  intros Hstep. destruct Hstep as [chlo cd s s' reply hello E|chlo cd s s' e E|s|s s' reply hello E|s s' reply hello e E
    |s s' E|s|s s' ph src pn ad data lvl E|s s' ph src pn ad e E]; cbn [fst snd]; intros Hinv; pose proof Hinv as [Ha Hf Hs].
  - destruct Ha as (Hk & Hc & Hh). destruct (keyless_unreceived _ _ Hinv Hk) as [Hrs Hrf].
    destruct (prepareReply_outcome _ _ _ _ _ E Hk ltac:(by rewrite Hc)) as ([U1 U2 U3] & Hc' & Hr).
    destruct hello; [|subst s'; by constructor].
    destruct Hr as (Hsent & sni & _ & [_ _ _ _ (secret & eph & cert & sn & dn & a & b & _ & _ & _ & _ & _ & _ & Ea & Eb)]).
    constructor; [|rewrite U1, Hrf; done|rewrite U2, Hrs; done]. cbn [announced]. rewrite Ea, Eb, U3.
    destruct (ss_aeadChanged s') as [sent closed]. cbn in Hc', Hsent. rewrite Hc in Hsent. by subst.
  - destruct Ha as (Hk & Hc & Hh). destruct (keyless_unreceived _ _ Hinv Hk) as [Hrs Hrf].
    destruct (prepareReply_outcome _ _ _ _ _ E Hk ltac:(by rewrite Hc)) as ([U1 U2 U3] & Hc' & _).
    constructor; [cbn [announced]; by rewrite U3|rewrite U1, Hrf; done|rewrite U2, Hrs; done].
  - destruct Ha as (Hk & Hc & Hh). constructor; [cbn [announced]; by rewrite Hc|done|done].
  - unfold sm_write in E. destruct (se_Write env reply); [done|]. injection E as <-. by destruct hello; constructor.
  - unfold sm_write in E. destruct (se_Write env reply); [|done]. injection E as <- <-.
    constructor; [|done|done]. destruct hello; cbn [announced] in *; destruct_and?; 
      by match goal with H : ss_aeadChanged s = _ |- _ => rewrite H end.
  - destruct Ha as (Hk1 & Hk2 & Hc & Hh). unfold sm_send in E. rewrite Hc in E. injection E as <-. by constructor.
  - destruct Ha as (Hk1 & Hk2 & Hc & Hh).
    assert (Hrf : ss_receivedForwardSecurePacket s = false).
    { destruct (ss_receivedForwardSecurePacket s); [|done]. destruct (Hf eq_refl). congruence. }
    constructor; [cbn; by rewrite Hrf|cbn; by rewrite Hrf|done].
  - by eapply server_Open_inv.
  - by eapply server_Open_inv.
Qed.

Lemma server_run_inv params st lvls : server_run params st lvls -> server_inv st.1 st.2.
Proof. induction 1 as [|st lvls l st' _ IH Hstep]; [by constructor|]. by eapply crypto_step_inv. Qed.

(** The two goroutines of the server announce its keys correctly in every interleaving: the
    session is told the secure level when both keys exist, the forward-secure level once the
    server hello was written, and the channel is closed, which completes the handshake,
    exactly when the first forward-secure packet was opened after that; no key exists
    before a complete hello.  The channel is never closed twice and nothing is sent on
    it when it is closed: no step panics. *)
Theorem server_announces params s ph lvls : server_run params (s, ph) lvls ->
  server_inv s ph /\ (ph = Written -> (sm_send EncryptionForwardSecure s).2 = Ok tt) /\
  (forall src pn ad s', server_Open env src pn ad s = Some (s', Panic) ->
     exists a, (ss_forwardSecureAEAD s = Some a \/ ss_secureAEAD s = Some a \/ se_nullAEAD env = a) /\
               aead_Open a src pn ad = Panic).
Proof.
  intros Hrun. pose proof (server_run_inv _ _ _ Hrun) as Hinv. cbn [fst snd] in Hinv. split; [done|]. split.
  - intros ->. destruct Hinv as [(_ & _ & Hc & _) _ _]. unfold sm_send. by rewrite Hc.
  - intros src pn ad s'. pose proof (unreceived_open _ _ Hinv) as Hnc.
    unfold server_Open, server_openSecure, server_openNull, chan_close.
    cbn [ss_aeadChanged ss_sentSHLO ss_set_receivedForwardSecure].
    repeat case_match; intros; simplify_eq; eauto 6; by specialize (Hnc eq_refl).
Qed.

(** ** Levels never decrease *)

Definition rank (l : EncryptionLevel) : Z :=
  match l with
  | EncryptionUnspecified => 0 | EncryptionUnencrypted => 1 | EncryptionSecure => 2 | EncryptionForwardSecure => 3
  end.

(** The flags record the levels that were seen, which are sorted, the last first. *)
Record levels_inv (s : cryptoSetupServer) (lvls : list EncryptionLevel) : Prop := {
  lvl_sorted : StronglySorted (fun l l' => rank l' <= rank l) lvls;
  lvl_fs : EncryptionForwardSecure ∈ lvls -> ss_receivedForwardSecurePacket s = true;
  lvl_sec : EncryptionSecure ∈ lvls -> ss_receivedSecurePacket s = true;
}.

(** A level that is at least all those that were seen. *)
Lemma levels_cons s s' lvls l :
  levels_inv s lvls -> (forall l', l' ∈ lvls -> rank l' <= rank l) ->
  (ss_receivedForwardSecurePacket s = true -> ss_receivedForwardSecurePacket s' = true) ->
  (ss_receivedSecurePacket s = true -> ss_receivedSecurePacket s' = true) ->
  (l = EncryptionForwardSecure -> ss_receivedForwardSecurePacket s' = true) ->
  (l = EncryptionSecure -> ss_receivedSecurePacket s' = true) ->
  levels_inv s' (l :: lvls).
Proof.
  intros [H1 H2 H3] Hmax Hf Hs Hlf Hls. constructor.
  - constructor; [done|]. apply List.Forall_forall. intros l' Hl'. apply Hmax. by apply list_elem_of_In.
  - rewrite elem_of_cons. intros [<-|?]; auto.
  - rewrite elem_of_cons. intros [<-|?]; auto.
Qed.

Lemma server_Open_levels src pn ad s s' ph data lvl lvls :
  server_Open env src pn ad s = Some (s', Ok (data, lvl)) -> server_inv s ph -> levels_inv s lvls ->
  levels_inv s' (lvl :: lvls).
Proof.
  intros E [Ha Hf Hs] Hl. pose proof Hl as [_ Lf Ls].
  destruct (server_Open_outcome _ _ _ _ _ _ E) as [(-> & Hrf & ->)|[(Hlow & [(-> & -> & Hsec)|(-> & Hsome & d & [= -> ->])])|
    (Hrf & Hh & Hsome & [((d & [= -> ->]) & Hc & ->)|([=] & _)])]].
  - apply (levels_cons s); try done. intros []; cbn; lia.
  - apply (levels_cons s); try done. intros [] Hin; cbn; try lia.
    + specialize (Ls Hin). specialize (Hsec (Hs Ls)). congruence.
    + specialize (Lf Hin). destruct (Hf Lf) as [_ Hsome]. specialize (Hlow Hsome). congruence.
  - apply (levels_cons s); try done. intros [] Hin; cbn; try lia.
    specialize (Lf Hin). destruct (Hf Lf) as [_ Hsome']. specialize (Hlow Hsome'). congruence.
  - apply (levels_cons s); try done. intros []; cbn; lia.
Qed.

(** C37: the encryption level of the packets the server accepts never decreases, in every
    interleaving with the handshake: once a packet of a level was opened, no packet of a
    lower level is, so that nobody without the keys can inject packets from then on. *)
Theorem server_levels_never_decrease params st lvls :
  server_run params st lvls -> StronglySorted (fun l l' => rank l' <= rank l) lvls.
Proof.
  intros Hrun. apply (lvl_sorted st.1).
  induction Hrun as [|st lvls l st' Hrun IH Hstep]; [constructor; [constructor|intros H; inversion H..]|].
  pose proof (server_run_inv _ _ _ Hrun) as Hinv.
  assert (Hsame : forall s', ss_receivedForwardSecurePacket s' = ss_receivedForwardSecurePacket st.1 ->
    ss_receivedSecurePacket s' = ss_receivedSecurePacket st.1 -> levels_inv s' lvls).
  { intros s' E1 E2. destruct IH as [H1 H2 H3]. constructor; rewrite ?E1, ?E2; done. }
  destruct Hstep as [chlo cd s s' reply hello E|chlo cd s s' e E|s|s s' reply hello E|s s' reply hello e E
    |s s' E|s|s s' ph src pn ad data lvl E|s s' ph src pn ad e E]; cbn [fst snd] in *.
  1,2: destruct (inv_announced _ _ Hinv) as (Hk & Hc & _);
    destruct (prepareReply_outcome _ _ _ _ _ E Hk ltac:(by rewrite Hc)) as ([U1 U2 U3] & _); by apply Hsame.
  - done.
  - unfold sm_write in E. destruct (se_Write env reply); [done|]. injection E as <-. by apply Hsame.
  - unfold sm_write in E. destruct (se_Write env reply); [|done]. injection E as <- <-. by apply Hsame.
  - unfold sm_send in E. destruct (chan_send _ _); [|done..]. injection E as <-. by apply Hsame.
  - by apply Hsame.
  - by eapply server_Open_levels.
  - destruct (server_Open_outcome _ _ _ _ _ _ E) as [(-> & _)|[(_ & [(-> & _)|(_ & _ & d & [=])])|
      (_ & _ & _ & [((d & [=]) & _)|([=] & _)])]]; by apply Hsame.
Qed.

(** ** The goroutine of the crypto stream *)

(** Without interference, a message is the sequence of its steps. *)
Lemma handleMessage_steps params chlo cryptoData s s' r lvls :
  server_run params (s, Reading) lvls -> handleMessage env chlo cryptoData s = (s', r) ->
  match r with
  | Ok true => server_run params (s', Finished) lvls
  | Ok false => server_run params (s', Reading) lvls
  | Err _ => server_run params (s', Failed) lvls
  | Panic => True
  end.
Proof.
  intros Hrun E. unfold handleMessage, sm_bind in E.
  destruct (prepareReply env chlo cryptoData s) as [s1 [[reply hello]|e|]] eqn:E1.
  2:{ injection E as <- <-. by apply (run_step _ _ _ None _ Hrun), (step_message_err _ _ _ _ _ E1). }
  2:{ by injection E as <- <-. }
  apply step_message, (run_step _ _ _ None _ Hrun) in E1.
  destruct (sm_write env reply s1) as [s2 [[]|e|]] eqn:E2.
  2:{ injection E as <- <-. by apply (run_step _ _ _ None _ E1), (step_write_err _ _ _ _ _ E2). }
  2:{ by injection E as <- <-. }
  apply (step_write _ _ _ hello), (run_step _ _ _ None _ E1) in E2. destruct hello; [|by injection E as <- <-].
  destruct (sm_send EncryptionForwardSecure s2) as [s3 [[]|e|]] eqn:E3.
  2:{ unfold sm_send in E3. by destruct (chan_send _ _). }
  2:{ by injection E as <- <-. }
  apply step_signal, (run_step _ _ _ None _ E2) in E3. cbn in E. injection E as <- <-.
  by apply (run_step _ _ _ None _ E3), step_sent.
Qed.

Lemma sm_bind_eq {S A B} (m : st S A) (f : A -> st S B) s s1 r : m s = (s1, r) ->
  sm_bind m f s = match r with Ok a => f a s1 | Err e => (s1, Err e) | Panic => (s1, Panic) end.
Proof. intros E. unfold sm_bind. rewrite E. by destruct r. Qed.

Lemma server_stream_fuel params stream fuel fuel' s lvls :
  server_run params (s, Reading) lvls -> (length stream < fuel)%nat -> (length stream < fuel')%nat ->
  HandleCryptoStream env fuel stream s = HandleCryptoStream env fuel' stream s /\
  match HandleCryptoStream env fuel stream s with
  | (s', Ok _) => server_run params (s', Finished) lvls
  | (s', Err _) => server_run params (s', Failed) lvls
  | (_, Panic) => True
  end.
Proof.
  revert stream fuel' s. induction fuel as [|fuel IH]; intros stream fuel' s Hrun Hf Hf'; [lia|].
  destruct fuel' as [|fuel']; [lia|]. cbn [HandleCryptoStream].
  assert (Hfail : server_run params (s, Failed) lvls) by apply (run_step _ _ _ None _ Hrun), step_read_err.
  pose proof (ParseHandshakeMessage_limits stream) as Hl.
  destruct (ParseHandshakeMessage stream) as [[message rest]|e|]; [|by split|by split].
  destruct Hl as (_ & _ & Hl). destruct (negb _); [by split|].
  destruct (handleMessage env (take (length stream - length rest) stream) (hm_Data message) s) as [s1 r] eqn:E.
  pose proof (handleMessage_steps _ _ _ _ _ _ _ Hrun E) as Hs. rewrite !(sm_bind_eq _ _ _ _ _ E).
  destruct r as [[]|e|]; [by split|apply IH; [done|lia|lia]|by split|by split].
Qed.

(** The loop over the crypto stream ends, whatever the client sends: with fuel for every
    byte of the stream the result no longer depends on it.  It ends with the server hello
    sent, or with an error; its whole run is a sequence of steps, to which the
    properties of the interleavings apply. *)
Theorem server_stream_ends params stream fuel s lvls :
  server_run params (s, Reading) lvls -> (length stream < fuel)%nat ->
  HandleCryptoStream env fuel stream s = HandleCryptoStream env (S (length stream)) stream s /\
  match HandleCryptoStream env fuel stream s with
  | (s', Ok _) => server_run params (s', Finished) lvls
  | (s', Err _) => server_run params (s', Failed) lvls
  | (_, Panic) => True
  end.
Proof.
  intros Hrun Hfuel. apply server_stream_fuel; [done|done|lia].
Qed.

(** ** Rejections do not amplify *)

Lemma Ok_inj {A} (a b : A) : Ok a = Ok b -> a = b.
Proof. by intros [=]. Qed.

(** As long as the client has not proved its address, a rejection contains neither
    proof nor certificate: it has 170 bytes and the token, and the hello it answers has at
    least 1024; with a token of at most 853 bytes the server never sends more than it got. *)
Theorem rejection_not_amplified sni chlo cryptoData reply token :
  config_ok (se_scfg env) -> se_NewToken env (se_remoteAddr env) = Ok token ->
  acceptSTK env (value cryptoData TagSTK) = false -> handleInchoateCHLO env sni chlo cryptoData = Ok reply ->
  zlen reply = 170 + zlen token /\ 1024 <= zlen chlo /\ (zlen token <= 853 -> zlen reply < zlen chlo).
Proof.
  intros [Hid Hobit Hkey] Htok Hacc. unfold handleInchoateCHLO, ClientHelloMinimumSize.
  destruct (zlen chlo <? 1024) eqn:E; [done|]. rewrite Htok. cbn [bind]. rewrite Hacc. cbn [bind].
  intros Hreply. apply Ok_inj in Hreply as <-.
  assert (Hcfg : zlen (ServerConfig_Get (se_scfg env)) = 131).
  { unfold ServerConfig_Get. rewrite HandshakeMessage_length.
    change (getTagsSorted (ServerConfig_message (se_scfg env))) with [TagAEAD; TagSCID; TagPUBS; TagKEXS; TagOBIT; TagEXPY].
    destruct (config_lookup (se_scfg env)) as (E1 & E2 & E3 & E4 & E5 & E6).
    unfold total. cbn [foldr]. rewrite E1, E2, E3, E4, E5, E6. cbn [default]. unfold id.
    rewrite zlen_app, Hid, Hobit, Hkey. reflexivity. }
  rewrite HandshakeMessage_length. set (cfg := ServerConfig_Get _) in *.
  set (m := mkHM TagREJ _). change (getTagsSorted m) with [TagSTK; TagSVID; TagSCFG].
  replace (size (hm_Data m)) with 3%nat by reflexivity. unfold total. cbn [foldr].
  change (hm_Data m !! TagSTK) with (Some token). change (hm_Data m !! TagSVID) with (Some (bytesOf "quic-go")).
  change (hm_Data m !! TagSCFG) with (Some cfg). cbn [default]. unfold id. rewrite Hcfg.
  change (zlen (bytesOf "quic-go")) with 7. lia.
Qed.
End proofs.
