(* ===== verification/CryptoClient.v ===== *)
(** * The handshake of the client (internal/handshake/crypto_setup_client.go)

    The client sends its hello until it has the keys: the rejections of the server give it a
    source address token, the server config, the certificates and the proof that the server
    owns them; the server hello gives the forward-secure keys.  The handshake can be
    cached in files, to send a complete hello at once.  The proofs are in
    CryptoClientProofs.v. *)
From S2P Require Import Prelude Qerr ByteOrder Protocol PublicHeader ConnParams PacketPacker HandshakeMessage Aead ServerConfig Cookie.
From S2P Require Import CryptoServer.

Definition MaxClientHellos : Z := 3.

(** [crypto.CertManager], with the certificate chain of type [C]. *)
Record CertManager (C : Type) : Type := mkCertManager {
  cm_SetData : C -> list Z -> C * option error;
  cm_GetCommonCertificateHashes : list Z;
  cm_GetLeafCert : C -> option (list Z);
  cm_GetLeafCertHash : C -> Z;
  cm_VerifyServerProof : C -> list Z -> list Z -> list Z -> bool;
  cm_Verify : C -> list Z -> option error;
}.
Arguments mkCertManager {C}.
Arguments cm_SetData {C}.
Arguments cm_GetCommonCertificateHashes {C}.
Arguments cm_GetLeafCert {C}.
Arguments cm_GetLeafCertHash {C}.
Arguments cm_VerifyServerProof {C}.
Arguments cm_Verify {C}.

(** The fields that do not change; [ce_newKEX] is the key exchange a server config is parsed
    with, [ce_rand] the 20 random bytes of the nonce, [ce_now] the time. *)
Record clientEnv (C : Type) : Type := mkClientEnv {
  ce_hostname : list Z;
  ce_connID : Z;
  ce_version : Z;
  ce_negotiatedVersions : list Z;
  ce_certManager : CertManager C;
  ce_keyDerivation : bool -> list Z -> list Z -> Z -> list Z -> list Z -> list Z -> list Z -> Perspective -> result AEAD;
  ce_newKEX : result KeyExchange;
  ce_nullAEAD : AEAD;
  ce_RequestConnectionIDTruncation : bool;
  ce_CacheHandshake : bool;
  ce_rand : result (list Z);
  ce_now : Z;
  ce_Write : list Z -> option error;
}.
Arguments mkClientEnv {C}.
Arguments ce_hostname {C}.
Arguments ce_connID {C}.
Arguments ce_version {C}.
Arguments ce_negotiatedVersions {C}.
Arguments ce_certManager {C}.
Arguments ce_keyDerivation {C}.
Arguments ce_newKEX {C}.
Arguments ce_nullAEAD {C}.
Arguments ce_RequestConnectionIDTruncation {C}.
Arguments ce_CacheHandshake {C}.
Arguments ce_rand {C}.
Arguments ce_now {C}.
Arguments ce_Write {C}.

(** A nil slice is empty.  [cc_files] are the files of the cache, [cc_cryptoStream] what was
    written to the crypto stream. *)
Record cryptoSetupClient (C : Type) : Type := mkClient {
  cc_serverConfig : option serverConfigClient;
  cc_stk : list Z;
  cc_sno : list Z;
  cc_nonc : list Z;
  cc_proof : list Z;
  cc_chloForSignature : list Z;
  cc_lastSentCHLO : list Z;
  cc_chain : C;
  cc_certData : list Z;
  cc_scfgData : list Z;
  cc_diversificationNonce : list Z;
  cc_clientHelloCounter : Z;
  cc_serverVerified : bool;
  cc_receivedSecurePacket : bool;
  cc_secureAEAD : option AEAD;
  cc_forwardSecureAEAD : option AEAD;
  cc_aeadChanged : aeadChan;
  cc_connectionParameters : connectionParametersManager;
  cc_files : gmap (list Z) (list Z);
  cc_cryptoStream : list (list Z);
}.

Arguments mkClient {C}.
Arguments cc_serverConfig {C}.
Arguments cc_stk {C}.
Arguments cc_sno {C}.
Arguments cc_nonc {C}.
Arguments cc_proof {C}.
Arguments cc_chloForSignature {C}.
Arguments cc_lastSentCHLO {C}.
Arguments cc_chain {C}.
Arguments cc_certData {C}.
Arguments cc_scfgData {C}.
Arguments cc_diversificationNonce {C}.
Arguments cc_clientHelloCounter {C}.
Arguments cc_serverVerified {C}.
Arguments cc_receivedSecurePacket {C}.
Arguments cc_secureAEAD {C}.
Arguments cc_forwardSecureAEAD {C}.
Arguments cc_aeadChanged {C}.
Arguments cc_connectionParameters {C}.
Arguments cc_files {C}.
Arguments cc_cryptoStream {C}.

(** ** Updates of the fields *)

Section updates.
Context {C : Type}.
Implicit Type s : cryptoSetupClient C.
Definition cc_set_serverConfig s v : cryptoSetupClient C := mkClient 
  v (cc_stk s) (cc_sno s) (cc_nonc s) (cc_proof s) (cc_chloForSignature s) (cc_lastSentCHLO s)
  (cc_chain s) (cc_certData s) (cc_scfgData s) (cc_diversificationNonce s) (cc_clientHelloCounter s)
  (cc_serverVerified s) (cc_receivedSecurePacket s) (cc_secureAEAD s) (cc_forwardSecureAEAD s)
  (cc_aeadChanged s) (cc_connectionParameters s) (cc_files s) (cc_cryptoStream s).
Definition cc_set_stk s v : cryptoSetupClient C := mkClient 
  (cc_serverConfig s) v (cc_sno s) (cc_nonc s) (cc_proof s) (cc_chloForSignature s) (cc_lastSentCHLO s)
  (cc_chain s) (cc_certData s) (cc_scfgData s) (cc_diversificationNonce s) (cc_clientHelloCounter s)
  (cc_serverVerified s) (cc_receivedSecurePacket s) (cc_secureAEAD s) (cc_forwardSecureAEAD s)
  (cc_aeadChanged s) (cc_connectionParameters s) (cc_files s) (cc_cryptoStream s).
Definition cc_set_sno s v : cryptoSetupClient C := mkClient 
  (cc_serverConfig s) (cc_stk s) v (cc_nonc s) (cc_proof s) (cc_chloForSignature s) (cc_lastSentCHLO s)
  (cc_chain s) (cc_certData s) (cc_scfgData s) (cc_diversificationNonce s) (cc_clientHelloCounter s)
  (cc_serverVerified s) (cc_receivedSecurePacket s) (cc_secureAEAD s) (cc_forwardSecureAEAD s)
  (cc_aeadChanged s) (cc_connectionParameters s) (cc_files s) (cc_cryptoStream s).
Definition cc_set_nonc s v : cryptoSetupClient C := mkClient 
  (cc_serverConfig s) (cc_stk s) (cc_sno s) v (cc_proof s) (cc_chloForSignature s) (cc_lastSentCHLO s)
  (cc_chain s) (cc_certData s) (cc_scfgData s) (cc_diversificationNonce s) (cc_clientHelloCounter s)
  (cc_serverVerified s) (cc_receivedSecurePacket s) (cc_secureAEAD s) (cc_forwardSecureAEAD s)
  (cc_aeadChanged s) (cc_connectionParameters s) (cc_files s) (cc_cryptoStream s).
Definition cc_set_proof s v : cryptoSetupClient C := mkClient 
  (cc_serverConfig s) (cc_stk s) (cc_sno s) (cc_nonc s) v (cc_chloForSignature s) (cc_lastSentCHLO s)
  (cc_chain s) (cc_certData s) (cc_scfgData s) (cc_diversificationNonce s) (cc_clientHelloCounter s)
  (cc_serverVerified s) (cc_receivedSecurePacket s) (cc_secureAEAD s) (cc_forwardSecureAEAD s)
  (cc_aeadChanged s) (cc_connectionParameters s) (cc_files s) (cc_cryptoStream s).
Definition cc_set_chloForSignature s v : cryptoSetupClient C := mkClient 
  (cc_serverConfig s) (cc_stk s) (cc_sno s) (cc_nonc s) (cc_proof s) v (cc_lastSentCHLO s) (cc_chain s)
  (cc_certData s) (cc_scfgData s) (cc_diversificationNonce s) (cc_clientHelloCounter s)
  (cc_serverVerified s) (cc_receivedSecurePacket s) (cc_secureAEAD s) (cc_forwardSecureAEAD s)
  (cc_aeadChanged s) (cc_connectionParameters s) (cc_files s) (cc_cryptoStream s).
Definition cc_set_lastSentCHLO s v : cryptoSetupClient C := mkClient 
  (cc_serverConfig s) (cc_stk s) (cc_sno s) (cc_nonc s) (cc_proof s) (cc_chloForSignature s) v
  (cc_chain s) (cc_certData s) (cc_scfgData s) (cc_diversificationNonce s) (cc_clientHelloCounter s)
  (cc_serverVerified s) (cc_receivedSecurePacket s) (cc_secureAEAD s) (cc_forwardSecureAEAD s)
  (cc_aeadChanged s) (cc_connectionParameters s) (cc_files s) (cc_cryptoStream s).
Definition cc_set_chain s v : cryptoSetupClient C := mkClient 
  (cc_serverConfig s) (cc_stk s) (cc_sno s) (cc_nonc s) (cc_proof s) (cc_chloForSignature s)
  (cc_lastSentCHLO s) v (cc_certData s) (cc_scfgData s) (cc_diversificationNonce s)
  (cc_clientHelloCounter s) (cc_serverVerified s) (cc_receivedSecurePacket s) (cc_secureAEAD s)
  (cc_forwardSecureAEAD s) (cc_aeadChanged s) (cc_connectionParameters s) (cc_files s)
  (cc_cryptoStream s).
Definition cc_set_certData s v : cryptoSetupClient C := mkClient 
  (cc_serverConfig s) (cc_stk s) (cc_sno s) (cc_nonc s) (cc_proof s) (cc_chloForSignature s)
  (cc_lastSentCHLO s) (cc_chain s) v (cc_scfgData s) (cc_diversificationNonce s)
  (cc_clientHelloCounter s) (cc_serverVerified s) (cc_receivedSecurePacket s) (cc_secureAEAD s)
  (cc_forwardSecureAEAD s) (cc_aeadChanged s) (cc_connectionParameters s) (cc_files s)
  (cc_cryptoStream s).
Definition cc_set_scfgData s v : cryptoSetupClient C := mkClient 
  (cc_serverConfig s) (cc_stk s) (cc_sno s) (cc_nonc s) (cc_proof s) (cc_chloForSignature s)
  (cc_lastSentCHLO s) (cc_chain s) (cc_certData s) v (cc_diversificationNonce s)
  (cc_clientHelloCounter s) (cc_serverVerified s) (cc_receivedSecurePacket s) (cc_secureAEAD s)
  (cc_forwardSecureAEAD s) (cc_aeadChanged s) (cc_connectionParameters s) (cc_files s)
  (cc_cryptoStream s).
Definition cc_set_diversificationNonce s v : cryptoSetupClient C := mkClient 
  (cc_serverConfig s) (cc_stk s) (cc_sno s) (cc_nonc s) (cc_proof s) (cc_chloForSignature s)
  (cc_lastSentCHLO s) (cc_chain s) (cc_certData s) (cc_scfgData s) v (cc_clientHelloCounter s)
  (cc_serverVerified s) (cc_receivedSecurePacket s) (cc_secureAEAD s) (cc_forwardSecureAEAD s)
  (cc_aeadChanged s) (cc_connectionParameters s) (cc_files s) (cc_cryptoStream s).
Definition cc_set_clientHelloCounter s v : cryptoSetupClient C := mkClient 
  (cc_serverConfig s) (cc_stk s) (cc_sno s) (cc_nonc s) (cc_proof s) (cc_chloForSignature s)
  (cc_lastSentCHLO s) (cc_chain s) (cc_certData s) (cc_scfgData s) (cc_diversificationNonce s) v
  (cc_serverVerified s) (cc_receivedSecurePacket s) (cc_secureAEAD s) (cc_forwardSecureAEAD s)
  (cc_aeadChanged s) (cc_connectionParameters s) (cc_files s) (cc_cryptoStream s).
Definition cc_set_serverVerified s v : cryptoSetupClient C := mkClient 
  (cc_serverConfig s) (cc_stk s) (cc_sno s) (cc_nonc s) (cc_proof s) (cc_chloForSignature s)
  (cc_lastSentCHLO s) (cc_chain s) (cc_certData s) (cc_scfgData s) (cc_diversificationNonce s)
  (cc_clientHelloCounter s) v (cc_receivedSecurePacket s) (cc_secureAEAD s) (cc_forwardSecureAEAD s)
  (cc_aeadChanged s) (cc_connectionParameters s) (cc_files s) (cc_cryptoStream s).
Definition cc_set_receivedSecurePacket s v : cryptoSetupClient C := mkClient 
  (cc_serverConfig s) (cc_stk s) (cc_sno s) (cc_nonc s) (cc_proof s) (cc_chloForSignature s)
  (cc_lastSentCHLO s) (cc_chain s) (cc_certData s) (cc_scfgData s) (cc_diversificationNonce s)
  (cc_clientHelloCounter s) (cc_serverVerified s) v (cc_secureAEAD s) (cc_forwardSecureAEAD s)
  (cc_aeadChanged s) (cc_connectionParameters s) (cc_files s) (cc_cryptoStream s).
Definition cc_set_secureAEAD s v : cryptoSetupClient C := mkClient 
  (cc_serverConfig s) (cc_stk s) (cc_sno s) (cc_nonc s) (cc_proof s) (cc_chloForSignature s)
  (cc_lastSentCHLO s) (cc_chain s) (cc_certData s) (cc_scfgData s) (cc_diversificationNonce s)
  (cc_clientHelloCounter s) (cc_serverVerified s) (cc_receivedSecurePacket s) v
  (cc_forwardSecureAEAD s) (cc_aeadChanged s) (cc_connectionParameters s) (cc_files s)
  (cc_cryptoStream s).
Definition cc_set_forwardSecureAEAD s v : cryptoSetupClient C := mkClient 
  (cc_serverConfig s) (cc_stk s) (cc_sno s) (cc_nonc s) (cc_proof s) (cc_chloForSignature s)
  (cc_lastSentCHLO s) (cc_chain s) (cc_certData s) (cc_scfgData s) (cc_diversificationNonce s)
  (cc_clientHelloCounter s) (cc_serverVerified s) (cc_receivedSecurePacket s) (cc_secureAEAD s) v
  (cc_aeadChanged s) (cc_connectionParameters s) (cc_files s) (cc_cryptoStream s).
Definition cc_set_aeadChanged s v : cryptoSetupClient C := mkClient 
  (cc_serverConfig s) (cc_stk s) (cc_sno s) (cc_nonc s) (cc_proof s) (cc_chloForSignature s)
  (cc_lastSentCHLO s) (cc_chain s) (cc_certData s) (cc_scfgData s) (cc_diversificationNonce s)
  (cc_clientHelloCounter s) (cc_serverVerified s) (cc_receivedSecurePacket s) (cc_secureAEAD s)
  (cc_forwardSecureAEAD s) v (cc_connectionParameters s) (cc_files s) (cc_cryptoStream s).
Definition cc_set_connectionParameters s v : cryptoSetupClient C := mkClient 
  (cc_serverConfig s) (cc_stk s) (cc_sno s) (cc_nonc s) (cc_proof s) (cc_chloForSignature s)
  (cc_lastSentCHLO s) (cc_chain s) (cc_certData s) (cc_scfgData s) (cc_diversificationNonce s)
  (cc_clientHelloCounter s) (cc_serverVerified s) (cc_receivedSecurePacket s) (cc_secureAEAD s)
  (cc_forwardSecureAEAD s) (cc_aeadChanged s) v (cc_files s) (cc_cryptoStream s).
Definition cc_set_files s v : cryptoSetupClient C := mkClient 
  (cc_serverConfig s) (cc_stk s) (cc_sno s) (cc_nonc s) (cc_proof s) (cc_chloForSignature s)
  (cc_lastSentCHLO s) (cc_chain s) (cc_certData s) (cc_scfgData s) (cc_diversificationNonce s)
  (cc_clientHelloCounter s) (cc_serverVerified s) (cc_receivedSecurePacket s) (cc_secureAEAD s)
  (cc_forwardSecureAEAD s) (cc_aeadChanged s) (cc_connectionParameters s) v (cc_cryptoStream s).
Definition cc_set_cryptoStream s v : cryptoSetupClient C := mkClient 
  (cc_serverConfig s) (cc_stk s) (cc_sno s) (cc_nonc s) (cc_proof s) (cc_chloForSignature s)
  (cc_lastSentCHLO s) (cc_chain s) (cc_certData s) (cc_scfgData s) (cc_diversificationNonce s)
  (cc_clientHelloCounter s) (cc_serverVerified s) (cc_receivedSecurePacket s) (cc_secureAEAD s)
  (cc_forwardSecureAEAD s) (cc_aeadChanged s) (cc_connectionParameters s) (cc_files s) v.
End updates.

Definition NewCryptoSetupClient {C} (chain : C) (params : connectionParametersManager) (files : gmap (list Z) (list Z)) :
    cryptoSetupClient C :=
  mkClient None [] [] [] [] [] [] chain [] [] [] 0 false false None None (mkChan [] false) params files [].

Definition errNoObitForClientNonce : error := errors_New "CryptoSetup BUG: No OBIT for client nonce available".
Definition errClientNonceAlreadyExists : error := errors_New "CryptoSetup BUG: A client nonce was already generated".
Definition errConflictingDiversificationNonces : error := errors_New "Received two different diversification nonces".

(** Seconds since the Unix epoch. *)
Definition unixSeconds (t : Z) : Z := t / Second - 62135596800.

Section client.
Context {C : Type}.
Variable env : clientEnv C.
Notation client := (cryptoSetupClient C).
Notation cm := (ce_certManager env).

Definition get {A} (f : client -> A) : st client A := fun s => (s, Ok (f s)).

(** [if v, ok := cryptoData[tag]; ok { ... }]. *)
Definition whenTag (cryptoData : gmap Z (list Z)) (tag : Z) (f : list Z -> st client unit) : st client unit :=
  match cryptoData !! tag with Some v => f v | None => sm_ret tt end.

Definition failIf (b : bool) (e : error) : st client unit := sm_lift (check b e).

(** ** The client nonce *)

Definition generateClientNonce : st client unit := fun s =>
  if negb (zlen (cc_nonc s) =? 0) then (s, Err errClientNonceAlreadyExists)
  else
  match cc_serverConfig s with
  | None => (s, Panic)
  | Some cfg =>
      if negb (zlen (scc_obit cfg) =? 8) then (s, Err errNoObitForClientNonce)
      else
      match ce_rand env with
      | Ok random => (cc_set_nonc s (beEnc 4 (u32 (unixSeconds (ce_now env))) ++ scc_obit cfg ++ random), Ok tt)
      | Err e => (s, Err e)
      | Panic => (s, Panic)
      end
  end.

(** [h.serverConfig, err = parseServerConfig(scfg)]: an error leaves nil. *)
Definition assignServerConfig (scfg : list Z) : st client unit := fun s =>
  match parseServerConfig (ce_newKEX env) scfg with
  | Ok cfg => (cc_set_serverConfig s (Some cfg), Ok tt)
  | Err e => (cc_set_serverConfig s None, Err e)
  | Panic => (s, Panic)
  end.

(** ** The cache of the handshake *)

Definition cacheName (kind : string) : list Z := bytesOf kind ++ ce_hostname env.

(** A file that exists is left as it is. *)
Definition writeBinaryFile (filename data : list Z) (s : client) : client :=
  match cc_files s !! filename with
  | Some _ => s
  | None => cc_set_files s (<[filename := data]> (cc_files s))
  end.

Definition readBinaryFile (filename : list Z) : st client (list Z) := fun s =>
  match cc_files s !! filename with
  | Some data => (s, Ok data)
  | None => (s, Err (errors_New "file does not exist"))
  end.

Definition cacheHandshake (s : client) : client :=
  let s := writeBinaryFile (cacheName "cache_sni_") (ce_hostname env) s in
  let s := writeBinaryFile (cacheName "cache_stk_") (cc_stk s) s in
  let s := writeBinaryFile (cacheName "cache_cert_") (cc_certData s) s in
  writeBinaryFile (cacheName "cache_scfg_") (cc_scfgData s) s.

Definition setCertData (data : list Z) : st client (option error) := fun s =>
  let '(chain, e) := cm_SetData cm (cc_chain s) data in (cc_set_chain s chain, Ok e).

Definition readCache : st client unit :=
  let! sni := readBinaryFile (cacheName "cache_sni_") in
  let! _ := failIf (negb (bool_decide (ce_hostname env = sni))) (errors_New "error when comparing SNI") in
  let! stk := readBinaryFile (cacheName "cache_stk_") in
  let! _ := sm_modify (fun s => cc_set_stk s stk) in
  let! certData := readBinaryFile (cacheName "cache_cert_") in
  let! _ := sm_modify (fun s => cc_set_certData s certData) in
  let! e := setCertData certData in
  let! _ := sm_lift (match e with Some e => Err e | None => Ok tt end) in
  let! scfgData := readBinaryFile (cacheName "cache_scfg_") in
  let! _ := sm_modify (fun s => cc_set_scfgData s scfgData) in
  let! _ := assignServerConfig scfgData in
  let! _ := generateClientNonce in
  sm_modify (fun s => cc_set_serverVerified s true).

(** Errors are only logged. *)
Definition useHandshakeCache : st client unit := fun s =>
  match readCache s with
  | (s, Panic) => (s, Panic)
  | (s, _) => (s, Ok tt)
  end.

(** ** Rejections *)

(** The certificates are verified for a fixed name. *)
Definition verifiedName : list Z := bytesOf "quic.clemente.io".

Definition handleSCFG (scfg : list Z) : st client unit :=
  let! _ := assignServerConfig scfg in
  let! expired := get (fun s => match cc_serverConfig s with Some cfg => IsExpired cfg (ce_now env) | None => false end) in
  let! _ := failIf expired (ErrCode qerr.CryptoServerConfigExpired) in
  let! _ := sm_modify (fun s => cc_set_scfgData s scfg) in
  let! nonc := get cc_nonc in
  if zlen nonc =? 0 then generateClientNonce else sm_ret tt.

Definition handleCERT (crt : list Z) : st client unit :=
  let! e := setCertData crt in
  let! _ := failIf (bool_decide (is_Some e)) (QuicError qerr.InvalidCryptoMessageParameter "Certificate data invalid") in
  let! _ := sm_modify (fun s => cc_set_certData s crt) in
  let! chain := get cc_chain in
  failIf (bool_decide (is_Some (cm_Verify cm chain verifiedName))) (ErrCode qerr.ProofInvalid).

Definition verifyProof : st client unit := fun s =>
  match cc_serverConfig s, cm_GetLeafCert cm (cc_chain s) with
  | Some cfg, Some _ =>
      if zlen (cc_proof s) =? 0 then (s, Ok tt)
      else if cm_VerifyServerProof cm (cc_chain s) (cc_proof s) (cc_chloForSignature s) (scc_Get cfg)
      then (cc_set_serverVerified s true, Ok tt)
      else (s, Err (ErrCode qerr.ProofInvalid))
  | _, _ => (s, Ok tt)
  end.

Definition handleREJMessage (cryptoData : gmap Z (list Z)) : st client unit :=
  let! _ := whenTag cryptoData TagSTK (fun stk => sm_modify (fun s => cc_set_stk s stk)) in
  let! _ := whenTag cryptoData TagSNO (fun sno => sm_modify (fun s => cc_set_sno s sno)) in
  let! _ := whenTag cryptoData TagSCFG handleSCFG in
  let! _ := whenTag cryptoData TagPROF (fun proof => sm_modify (fun s =>
    cc_set_chloForSignature (cc_set_proof s proof) (cc_lastSentCHLO s))) in
  let! _ := whenTag cryptoData TagCERT handleCERT in
  verifyProof.

(** ** The server hello *)

(** The loop over the negotiated versions. *)
Fixpoint matchVersions (negotiated : list Z) (verTags : list Z) : bool :=
  match negotiated with
  | [] => true
  | negotiatedVersion :: negotiated =>
      match leReadUint32 verTags with
      | Ok (verTag, rest) =>
          let ver := VersionTagToNumber verTag in
          let ver := if IsSupportedVersion SupportedVersions ver then ver else VersionUnsupported in
          if negb (ver =? negotiatedVersion) then false else matchVersions negotiated rest
      | _ => false
      end
  end.

Definition validateVersionList (verTags : list Z) : bool :=
  match ce_negotiatedVersions env with
  | [] => true
  | negotiated =>
      if negb (zlen verTags mod 4 =? 0) || negb (zlen verTags / 4 =? zlen negotiated) then false
      else matchVersions negotiated verTags
  end.

Definition client_send (l : EncryptionLevel) : st client unit := fun s =>
  match chan_send (cc_aeadChanged s) l with
  | Ok c => (cc_set_aeadChanged s c, Ok tt)
  | _ => (s, Panic)
  end.
Definition client_close : st client unit := fun s =>
  match chan_close (cc_aeadChanged s) with
  | Ok c => (cc_set_aeadChanged s c, Ok tt)
  | _ => (s, Panic)
  end.

Definition client_assign (set : client -> option AEAD -> client) (r : result AEAD) : st client unit := fun s =>
  match r with
  | Ok a => (set s (Some a), Ok tt)
  | Err e => (set s None, Err e)
  | Panic => (s, Panic)
  end.

(** [h.serverConfig]; a nil pointer is dereferenced. *)
Definition theConfig : st client serverConfigClient := fun s =>
  match cc_serverConfig s with Some cfg => (s, Ok cfg) | None => (s, Panic) end.

Definition leafCert (s : client) : list Z := default [] (cm_GetLeafCert cm (cc_chain s)).

Definition handleSHLOMessage (cryptoData : gmap Z (list Z)) : st client unit :=
  let! received := get cc_receivedSecurePacket in
  let! _ := failIf (negb received) (QuicError qerr.CryptoEncryptionLevelIncorrect "unencrypted SHLO message") in
  let! _ := whenTag cryptoData TagSNO (fun sno => sm_modify (fun s => cc_set_sno s sno)) in
  let! serverPubs := sm_lift (getValue cryptoData TagPUBS "PUBS") in
  let! verTag := sm_lift (match cryptoData !! TagVER with
    | Some v => Ok v
    | None => Err (QuicError qerr.InvalidCryptoMessageParameter "server hello missing version list") end) in
  let! _ := failIf (negb (validateVersionList verTag))
    (QuicError qerr.VersionNegotiationMismatch "Downgrade attack detected") in
  let! nonce := get (fun s => cc_nonc s ++ cc_sno s) in
  let! cfg := theConfig in
  let! ephermalSharedSecret := sm_lift (CalculateSharedKey (scc_kex cfg) serverPubs) in
  let! cert := get leafCert in
  let! chlo := get cc_lastSentCHLO in
  let! _ := client_assign cc_set_forwardSecureAEAD
    (ce_keyDerivation env true ephermalSharedSecret nonce (ce_connID env) chlo (scc_Get cfg) cert [] PerspectiveClient) in
  let! _ := (fun s =>
    match SetFromMap cryptoData (cc_connectionParameters s) with
    | (p, None) => (cc_set_connectionParameters s p, Ok tt)
    | (p, Some _) => (cc_set_connectionParameters s p, Err (ErrCode qerr.InvalidCryptoMessageParameter))
    end) in
  let! _ := client_send EncryptionForwardSecure in
  client_close.

(** ** The client hello *)

Definition getTags (s : client) : gmap Z (list Z) :=
  let tags := GetHelloMap (cc_connectionParameters s) in
  let tags := <[TagPDMD := bytesOf "X509"]> (<[TagSNI := ce_hostname env]> tags) in
  let ccs := cm_GetCommonCertificateHashes cm in
  let tags := if 0 <? zlen ccs then <[TagCCS := ccs]> tags else tags in
  let tags := <[TagVER := leEnc 4 (VersionNumberToTag (ce_version env))]> tags in
  let tags := if ce_RequestConnectionIDTruncation env then <[TagTCID := [0; 0; 0; 0]]> tags else tags in
  let tags := if 0 <? zlen (cc_stk s) then <[TagSTK := cc_stk s]> tags else tags in
  let tags := if 0 <? zlen (cc_sno s) then <[TagSNO := cc_sno s]> tags else tags in
  match cc_serverConfig s with
  | None => tags
  | Some cfg =>
      let tags := <[TagSCID := scc_ID cfg]> tags in
      match cm_GetLeafCert cm (cc_chain s) with
      | None => tags
      | Some _ =>
          <[TagPUBS := PublicKey (scc_kex cfg)]> (<[TagAEAD := bytesOf "AESG"]> (<[TagKEXS := bytesOf "C255"]>
          (<[TagXLCT := leEnc 8 (cm_GetLeafCertHash cm (cc_chain s))]> (<[TagNONC := cc_nonc s]> tags))))
      end
  end.

(** The loop over the map, in any order. *)
Definition tagsSize (tags : gmap Z (list Z)) : Z :=
  foldr (fun kv size => 8 + zlen kv.2 + size) 0 (map_to_list tags).

Definition addPadding (tags : gmap Z (list Z)) : gmap Z (list Z) :=
  let paddingSize := ClientHelloMinimumSize - tagsSize tags in
  if paddingSize >? 0 then <[TagPAD := replicate (Z.to_nat paddingSize) 0]> tags else tags.

Definition clientHello (s : client) : list Z := HandshakeMessage_Write (mkHM TagCHLO (addPadding (getTags s))).

Definition sendCHLO : st client unit :=
  let! _ := sm_modify (fun s => cc_set_clientHelloCounter s (cc_clientHelloCounter s + 1)) in
  let! counter := get cc_clientHelloCounter in
  let! _ := failIf (counter >? MaxClientHellos) (QuicError qerr.CryptoTooManyRejects "More than 3 rejects") in
  let! b := get clientHello in
  let! _ := (fun s =>
    match ce_Write env b with
    | None => (cc_set_cryptoStream s (cc_cryptoStream s ++ [b]), Ok tt)
    | Some e => (s, Err e)
    end) in
  sm_modify (fun s => cc_set_lastSentCHLO s b).

(** ** Keys *)

Definition maybeUpgradeCrypto : st client unit := fun s =>
  if negb (cc_serverVerified s) then (s, Ok tt)
  else
  let cert := leafCert s in
  match cc_secureAEAD s, cc_serverConfig s with
  | None, Some cfg =>
      if (0 <? zlen (scc_sharedSecret cfg)) && (0 <? zlen (cc_nonc s)) && (0 <? zlen cert) &&
         (0 <? zlen (cc_diversificationNonce s)) && (0 <? zlen (cc_lastSentCHLO s))
      then
        (let! _ := client_assign cc_set_secureAEAD
           (ce_keyDerivation env false (scc_sharedSecret cfg) (cc_nonc s ++ cc_sno s) (ce_connID env) (cc_lastSentCHLO s)
              (scc_Get cfg) cert (cc_diversificationNonce s) PerspectiveClient) in
         client_send EncryptionSecure) s
      else (s, Ok tt)
  | _, _ => (s, Ok tt)
  end.

(** ** The loop *)

(** What the loop waits for. *)
Inductive clientEvent : Type :=
| EvDivNonce (divNonce : list Z)
| EvMessage (message : HandshakeMessage)
| EvError (e : error).

(** Before it waits. *)
Definition clientTurn : st client unit :=
  let! _ := maybeUpgradeCrypto in
  let! needed := get (fun s => bool_decide (cc_secureAEAD s = None)) in
  if needed then sendCHLO else sm_ret tt.

Definition handleEvent (ev : clientEvent) : st client unit :=
  match ev with
  | EvDivNonce divNonce =>
      let! current := get cc_diversificationNonce in
      let! _ := failIf (negb (zlen current =? 0) && negb (bool_decide (current = divNonce))) errConflictingDiversificationNonces in
      sm_modify (fun s => cc_set_diversificationNonce s divNonce)
  | EvMessage message =>
      if hm_Tag message =? TagREJ then handleREJMessage (hm_Data message)
      else if hm_Tag message =? TagSHLO then
        let! _ := handleSHLOMessage (hm_Data message) in
        if ce_CacheHandshake env then sm_modify cacheHandshake else sm_ret tt
      else sm_lift (Err (ErrCode qerr.InvalidCryptoMessageType))
  | EvError e => sm_lift (Err e)
  end.

(** The loop on the events that come; it ends with an error only. *)
Fixpoint clientLoop (events : list clientEvent) : st client unit :=
  let! _ := clientTurn in
  match events with
  | [] => sm_ret tt
  | ev :: events => let! _ := handleEvent ev in clientLoop events
  end.

Definition client_HandleCryptoStream (events : list clientEvent) : st client unit :=
  let! _ := (if ce_CacheHandshake env then useHandshakeCache else sm_ret tt) in
  clientLoop events.

(** ** Packets *)

Definition client_Open (src : list Z) (packetNumber : Z) (associatedData : list Z) : st client (list Z * EncryptionLevel) := fun s =>
  let openNull :=
    match aead_Open (ce_nullAEAD env) src packetNumber associatedData with
    | Ok res => (s, Ok (res, EncryptionUnencrypted))
    | Err e => (s, Err e)
    | Panic => (s, Panic)
    end in
  match cc_forwardSecureAEAD s with
  | Some a =>
      match aead_Open a src packetNumber associatedData with
      | Ok data => (s, Ok (data, EncryptionForwardSecure))
      | Err e => (s, Err e)
      | Panic => (s, Panic)
      end
  | None =>
      match cc_secureAEAD s with
      | Some a =>
          match aead_Open a src packetNumber associatedData with
          | Ok data => (cc_set_receivedSecurePacket s true, Ok (data, EncryptionSecure))
          | Err e => if cc_receivedSecurePacket s then (s, Err e) else openNull
          | Panic => (s, Panic)
          end
      | None => openNull
      end
  end.

Definition client_GetSealer (s : client) : EncryptionLevel * Sealer :=
  match cc_forwardSecureAEAD s, cc_secureAEAD s with
  | Some a, _ => (EncryptionForwardSecure, sealerOf a)
  | None, Some a => (EncryptionSecure, sealerOf a)
  | None, None => (EncryptionUnencrypted, sealerOf (ce_nullAEAD env))
  end.

Definition client_GetSealerForCryptoStream : EncryptionLevel * Sealer := (EncryptionUnencrypted, sealerOf (ce_nullAEAD env)).

Definition client_GetSealerWithEncryptionLevel (s : client) (encLevel : EncryptionLevel) : result Sealer :=
  match encLevel with
  | EncryptionUnencrypted => Ok (sealerOf (ce_nullAEAD env))
  | EncryptionSecure =>
      match cc_secureAEAD s with
      | None => Err (errors_New "CryptoSetupClient: no secureAEAD")
      | Some a => Ok (sealerOf a)
      end
  | EncryptionForwardSecure =>
      match cc_forwardSecureAEAD s with
      | None => Err (errors_New "CryptoSetupClient: no forwardSecureAEAD")
      | Some a => Ok (sealerOf a)
      end
  | EncryptionUnspecified => Err (errors_New "CryptoSetupClient: no encryption level specified")
  end.

(** The packer of a client never asks for the diversification nonce. *)
Definition client_CryptoSetup (s : client) : CryptoSetup :=
  mkCrypto (client_GetSealer s) (client_GetSealerWithEncryptionLevel s) client_GetSealerForCryptoStream [].
End client.
