(* ===== verification/CryptoClientProofs.v ===== *)
(** * What the handshake of the client guarantees, and what it does not *)
From stdpp Require Import sorting.
From S2P Require Import Prelude Qerr ByteOrder Protocol PublicHeader ConnParams PacketPacker HandshakeMessage Aead ServerConfig Cookie.
From S2P Require Import CryptoServer CryptoServerProofs CryptoClient.

(** ** The size of a hello *)

Lemma tagsSize_insert m k v : m !! k = None -> tagsSize (<[k := v]> m) = 8 + zlen v + tagsSize m.
Proof.
  intros Hk. unfold tagsSize.
  assert (Hp : forall l l' : list (Z * list Z), l ≡ₚ l' ->
    foldr (fun kv size => 8 + zlen kv.2 + size) 0 l = foldr (fun kv size => 8 + zlen kv.2 + size) 0 l').
  { induction 1; simpl; lia. }
  rewrite (Hp _ _ (map_to_list_insert m k v Hk)). done.
Qed.

Lemma tagsSize_nonneg m : 0 <= tagsSize m.
Proof. unfold tagsSize. induction (map_to_list m) as [|[k v] l IH]; simpl; [done|]. pose proof (zlen_nonneg v). lia. Qed.

Lemma total_permutation data l l' : l ≡ₚ l' -> total data l = total data l'.
Proof. induction 1; simpl; lia. Qed.

(** A message has 8 bytes before its index. *)
Lemma message_size h : zlen (HandshakeMessage_Write h) = 8 + tagsSize (hm_Data h).
Proof.
  rewrite HandshakeMessage_length. unfold getTagsSorted. rewrite (total_permutation _ _ _ (merge_sort_Permutation Z.le _)).
  rewrite <- length_map_to_list. unfold tagsSize.
  assert (Hl : forall k v, (k, v) ∈ map_to_list (hm_Data h) -> hm_Data h !! k = Some v) by (intros k v; apply elem_of_map_to_list).
  assert (Hg : forall l : list (Z * list Z), (forall k v, (k, v) ∈ l -> hm_Data h !! k = Some v) ->
    8 * Z.of_nat (length l) + total (hm_Data h) (map fst l) = foldr (fun kv size => 8 + zlen kv.2 + size) 0 l).
  { clear Hl. induction l as [|[k v] l IH]; intros Hl; [done|]. cbn [map fst length]. 
    change (total (hm_Data h) (k :: map fst l)) with (zlen (default [] (hm_Data h !! k)) + total (hm_Data h) (map fst l)).
    rewrite (Hl k v) by left. cbn [foldr default fst snd]. change (id v) with v.
    rewrite <- IH; [lia|]. intros k' v' Hin. apply Hl. by right. }
  rewrite <- Hg by done. lia.
Qed.

Section hello.
Context {C : Type}.
Variable env : clientEnv C.

Lemma getTags_no_padding s : getTags env s !! TagPAD = None.
Proof.
  unfold getTags, GetHelloMap.
  repeat (case_match || rewrite lookup_insert_ne by (vm_compute; discriminate)); apply lookup_empty.
Qed.

(** Every hello is large enough for the server. *)
Lemma clientHello_size s : ClientHelloMinimumSize + 8 <= zlen (clientHello env s).
Proof.
  unfold clientHello, addPadding. rewrite message_size. cbn [hm_Data]. unfold ClientHelloMinimumSize.
  destruct (_ >? 0) eqn:E; [|lia]. rewrite tagsSize_insert by apply getTags_no_padding.
  unfold zlen. rewrite length_replicate. lia.
Qed.
End hello.

(** ** Steps *)

Section proofs.
Context {C : Type}.
Variable env : clientEnv C.
Notation client := (cryptoSetupClient C).

(** A relation that an operation maintains when it succeeds and, if [all], when it fails. *)
Definition keeps {A} (all : Prop) (R : client -> client -> Prop) (m : st client A) : Prop :=
  forall s, match m s with (s', Ok _) => R s s' | (s', _) => all -> R s s' end.

Lemma client_keeps_ret {A} all R `{!PreOrder R} (a : A) : keeps all R (sm_ret a).
Proof. intros s. cbn. reflexivity. Qed.
Lemma keeps_lift {A} all R `{!PreOrder R} (r : result A) : keeps all R (sm_lift r).
Proof. intros s. destruct r; cbn; intros; reflexivity. Qed.
Lemma keeps_failIf all R `{!PreOrder R} b e : keeps all R (failIf b e).
Proof. intros s. unfold failIf, check, sm_lift. destruct b; intros; reflexivity. Qed.
Lemma client_keeps_get {A} all R `{!PreOrder R} (f : client -> A) : keeps all R (get f).
Proof. intros s. cbn. reflexivity. Qed.
Lemma client_keeps_bind {A B} all R `{!PreOrder R} (m : st client A) (f : A -> st client B) :
  keeps all R m -> (forall a, keeps all R (f a)) -> keeps all R (sm_bind m f).
Proof.
  intros Hm Hf s. unfold sm_bind. specialize (Hm s). destruct (m s) as [s1 [a|e|]]; [|done..].
  specialize (Hf a s1). destruct (f a s1) as [s2 [b|e|]]; [by etrans|intros Ha; etrans; [exact Hm|by apply Hf]..].
Qed.
Lemma keeps_modify all R (f : client -> client) : (forall s, R s (f s)) -> keeps all R (sm_modify f).
Proof. intros H s. apply H. Qed.
Lemma keeps_whenTag all R `{!PreOrder R} cryptoData tag f : (forall v, keeps all R (f v)) -> keeps all R (whenTag cryptoData tag f).
Proof. intros H. unfold whenTag. destruct (cryptoData !! tag); [apply H|by apply client_keeps_ret]. Qed.
Lemma keeps_all {A} R (m : st client A) s : keeps True R m -> R s (m s).1.
Proof. intros H. specialize (H s). destruct (m s) as [s1 [a|e|]]; [done|by apply H..]. Qed.

(** Operations by structure; what is left are the updates. *)
Ltac keeps_tac :=
  repeat match goal with
  | |- keeps _ _ (sm_bind _ _) => apply client_keeps_bind; [assumption| |intros ?]
  | |- keeps _ _ (sm_ret _) => apply client_keeps_ret; assumption
  | |- keeps _ _ (sm_lift _) => apply keeps_lift; assumption
  | |- keeps _ _ (failIf _ _) => apply keeps_failIf; assumption
  | |- keeps _ _ (get _) => apply client_keeps_get; assumption
  | |- keeps _ _ (whenTag _ _ _) => apply keeps_whenTag; [assumption|intros ?]
  | |- keeps _ _ (sm_modify _) => apply keeps_modify; intros ?
  | |- keeps _ _ (if ?b then _ else _) => destruct b
  end.

(** The updates that events make. *)
Record closed_events (all : Prop) (R : client -> client -> Prop) : Prop := {
  ce_serverConfig : forall s v, R s (cc_set_serverConfig s v);
  ce_stk : forall s v, R s (cc_set_stk s v);
  ce_sno : forall s v, R s (cc_set_sno s v);
  ce_nonc : forall s v, R s (cc_set_nonc s v);
  ce_proof : forall s v w, R s (cc_set_chloForSignature (cc_set_proof s v) w);
  ce_chain : forall s v, R s (cc_set_chain s v);
  ce_certData : forall s v, R s (cc_set_certData s v);
  ce_scfgData : forall s v, R s (cc_set_scfgData s v);
  ce_divNonce : forall s v, R s (cc_set_diversificationNonce s v);
  ce_verified : forall s, R s (cc_set_serverVerified s true);
  ce_params : forall s v, R s (cc_set_connectionParameters s v);
  ce_files : forall s v, R s (cc_set_files s v);
  ce_keys : forall s v, all \/ is_Some v -> R s (cc_set_forwardSecureAEAD s v);
  ce_chan : forall s v, R s (cc_set_aeadChanged s v);
}.

Lemma handleEvent_keeps all R ev `{!PreOrder R} : closed_events all R -> keeps all R (handleEvent env ev).
Proof.
  intros H.
  assert (Hasg : forall scfg, keeps all R (assignServerConfig env scfg)).
  { intros scfg s. unfold assignServerConfig. destruct (parseServerConfig _ _); cbn; intros; solve [reflexivity|apply H]. }
  assert (Hgen : keeps all R (generateClientNonce env)).
  { intros s. unfold generateClientNonce. destruct (cc_serverConfig s) as [cfg|]; [destruct (negb (zlen (scc_obit cfg) =? 8))|];
      destruct (negb _), (ce_rand env); cbn; intros; solve [reflexivity|apply H]. }
  assert (Hcert : forall d, keeps all R (setCertData env d)).
  { intros d s. unfold setCertData. destruct (cm_SetData _ _ _). cbn. apply H. }
  assert (Hproof : keeps all R (verifyProof env)).
  { intros s. unfold verifyProof. destruct (cc_serverConfig s) as [cfg|], (cm_GetLeafCert (ce_certManager env) (cc_chain s));
      [|cbn; reflexivity..].
    destruct (_ =? 0); [cbn; reflexivity|]. destruct (cm_VerifyServerProof _ (cc_chain s) _ _ _); cbn; intros; solve [reflexivity|apply H]. }
  assert (Hcfg : keeps all R theConfig).
  { intros s. unfold theConfig. destruct (cc_serverConfig s); cbn; intros; reflexivity. }
  assert (Hset : forall r, keeps all R (client_assign cc_set_forwardSecureAEAD r)).
  { intros r s. destruct r; cbn; intros; [apply H; by right|apply H; by left|reflexivity]. }
  assert (Hsend : forall l, keeps all R (client_send l)).
  { intros l s. unfold client_send. destruct (chan_send _ _); cbn; intros; solve [reflexivity|apply H]. }
  assert (Hclose : keeps all R client_close).
  { intros s. unfold client_close. destruct (chan_close _); cbn; intros; solve [reflexivity|apply H]. }
  assert (Hparams : forall m : gmap Z (list Z), keeps all R (fun s => match SetFromMap m (cc_connectionParameters s) with
    | (p, None) => (cc_set_connectionParameters s p, Ok tt)
    | (p, Some _) => (cc_set_connectionParameters s p, Err (ErrCode qerr.InvalidCryptoMessageParameter)) end)).
  { intros m s. destruct (SetFromMap _ _) as [p [e|]]; cbn; intros; apply H. }
  assert (Hfile : forall n d s, R s (writeBinaryFile n d s)).
  { intros n d s. unfold writeBinaryFile. case_match; [reflexivity|apply H]. }
  destruct ev; cbn [handleEvent]; unfold handleREJMessage, handleSHLOMessage, handleSCFG, handleCERT; keeps_tac; auto; try apply Hparams; try apply H.
  unfold cacheHandshake. cbv zeta. do 3 (etrans; [|apply Hfile]). apply Hfile.
Qed.

(** *** The number of hellos *)

(** The counter counts the hellos, of which every one is large enough. *)
Record hellos_ok (s : client) : Prop := {
  hellos_count : zlen (cc_cryptoStream s) <= cc_clientHelloCounter s;
  hellos_max : zlen (cc_cryptoStream s) <= MaxClientHellos;
  hellos_size : Forall (fun b => ClientHelloMinimumSize <= zlen b) (cc_cryptoStream s);
}.

Definition same_hellos (s s' : client) : Prop :=
  cc_cryptoStream s' = cc_cryptoStream s /\ cc_clientHelloCounter s' = cc_clientHelloCounter s.
#[local] Instance same_hellos_pre : PreOrder same_hellos.
Proof. split; [by split|]. intros ? ? ? [? ?] [? ?]. split; congruence. Qed.

Lemma same_hellos_ok s s' : same_hellos s s' -> hellos_ok s -> hellos_ok s'.
Proof. intros [E1 E2] [H1 H2 H3]. constructor; rewrite ?E1, ?E2; done. Qed.

Lemma maybeUpgradeCrypto_hellos : keeps True same_hellos (maybeUpgradeCrypto env).
Proof.
  intros s. unfold maybeUpgradeCrypto, sm_bind, client_assign, client_send. by repeat (case_match; simplify_eq/=).
Qed.

Lemma sendCHLO_hellos s : hellos_ok s -> hellos_ok (sendCHLO env s).1.
Proof.
  intros [H1 H2 H3]. unfold sendCHLO, sm_bind, sm_modify, get, failIf, sm_lift, check. 
  cbn [cc_clientHelloCounter cc_set_clientHelloCounter].
  destruct (_ >? MaxClientHellos) eqn:E; cbn; [constructor; cbn; [lia|done|done]|].
  destruct (ce_Write env _); cbn; [constructor; cbn; [lia|done|done]|].
  constructor; cbn; [rewrite zlen_app; change (zlen [_]) with 1; lia|rewrite zlen_app; change (zlen [_]) with 1; lia|].
  apply Forall_app. split; [done|]. constructor; [|done].
  pose proof (clientHello_size env (cc_set_clientHelloCounter s (cc_clientHelloCounter s + 1))). unfold ClientHelloMinimumSize in *. lia.
Qed.

Lemma clientTurn_hellos s : hellos_ok s -> hellos_ok (clientTurn env s).1.
Proof.
  intros H. apply (same_hellos_ok _ _ (keeps_all _ _ s maybeUpgradeCrypto_hellos)) in H. unfold clientTurn, sm_bind, get.
  destruct (maybeUpgradeCrypto env s) as [s1 [[]|e|]]; [|done..]. cbn [fst] in H. destruct (bool_decide _); [|done].
  by apply sendCHLO_hellos.
Qed.

Lemma clientLoop_hellos events s : hellos_ok s -> hellos_ok (clientLoop env events s).1.
Proof.
  revert s. induction events as [|ev events IH]; intros s Hs; cbn [clientLoop]; unfold sm_bind at 1;
    pose proof (clientTurn_hellos s Hs) as Ht; destruct (clientTurn env s) as [s1 [[]|e|]]; try done.
  assert (Hev : hellos_ok (handleEvent env ev s1).1).
  { eapply same_hellos_ok; [|exact Ht]. apply keeps_all, (handleEvent_keeps True same_hellos); [typeclasses eauto|]. by constructor. }
  unfold sm_bind. destruct (handleEvent env ev s1) as [s2 [[]|e|]]; [by apply IH|done..].
Qed.

(** Whatever the server sends and however often, a client sends at most 3 hellos, each of at
    least 1024 bytes, so that the server does not reject it for its size: the handshake
    cannot be prolonged for ever. *)
Theorem client_hellos_bounded events chain params files :
  let '(s, _) := clientLoop env events (NewCryptoSetupClient chain params files) in
  zlen (cc_cryptoStream s) <= 3 /\ Forall (fun b => ClientHelloMinimumSize <= zlen b) (cc_cryptoStream s).
Proof.
  pose proof (clientLoop_hellos events (NewCryptoSetupClient chain params files)) as H.
  destruct (clientLoop _ _ _) as [s r]. destruct H as [_ H1 H2]; [|done]. constructor; [done|done|constructor].
Qed.

(** *** Levels never decrease *)

(** A step of the handshake that succeeds, or a packet; the label is the level of a packet that
    was opened.  A handshake that fails closes the session. *)
Inductive client_step : client -> option EncryptionLevel -> client -> Prop :=
| cstep_turn s s' : clientTurn env s = (s', Ok tt) -> client_step s None s'
| cstep_event ev s s' : handleEvent env ev s = (s', Ok tt) -> client_step s None s'
| cstep_open src pn ad s s' data lvl : client_Open env src pn ad s = (s', Ok (data, lvl)) -> client_step s (Some lvl) s'
| cstep_open_err src pn ad s s' e : client_Open env src pn ad s = (s', Err e) -> client_step s None s'.

Inductive client_run (s0 : client) : client -> list EncryptionLevel -> Prop :=
| crun_new : client_run s0 s0 []
| crun_step s lvls l s' :
    client_run s0 s lvls -> client_step s l s' ->
    client_run s0 s' (match l with Some l => l :: lvls | None => lvls end).

Definition keys_kept (s s' : client) : Prop :=
  cc_receivedSecurePacket s' = cc_receivedSecurePacket s /\
  (is_Some (cc_secureAEAD s) -> is_Some (cc_secureAEAD s')) /\
  (is_Some (cc_forwardSecureAEAD s) -> is_Some (cc_forwardSecureAEAD s')).
#[local] Instance keys_kept_pre : PreOrder keys_kept.
Proof. split; [done|]. intros ? ? ? (? & ? & ?) (? & ? & ?). split_and!; [congruence|auto..]. Qed.

Lemma handleEvent_keys ev : keeps False keys_kept (handleEvent env ev).
Proof. apply handleEvent_keeps; [typeclasses eauto|]. constructor; try done. by intros s v [[]|?]. Qed.

Lemma clientTurn_keys : keeps False keys_kept (clientTurn env).
Proof.
  intros s. unfold clientTurn, maybeUpgradeCrypto, sendCHLO, client_assign, client_send, failIf, sm_bind, get, sm_lift, sm_modify, sm_ret, check.
  repeat (case_match; simplify_eq/=; try done).
Qed.

Record client_levels (s : client) (lvls : list EncryptionLevel) : Prop := {
  cl_sorted : StronglySorted (fun l l' => rank l' <= rank l) lvls;
  cl_fs : EncryptionForwardSecure ∈ lvls -> is_Some (cc_forwardSecureAEAD s);
  cl_sec : EncryptionSecure ∈ lvls -> cc_receivedSecurePacket s = true;
  cl_key : cc_receivedSecurePacket s = true -> is_Some (cc_secureAEAD s);
}.

Lemma client_levels_kept s s' lvls : keys_kept s s' -> client_levels s lvls -> client_levels s' lvls.
Proof. intros (E & Hs & Hf) [H1 H2 H3 H4]. constructor; rewrite ?E; auto. Qed.

Lemma client_levels_cons s s' lvls l :
  client_levels s lvls -> (forall l', l' ∈ lvls -> rank l' <= rank l) ->
  cc_forwardSecureAEAD s' = cc_forwardSecureAEAD s -> cc_secureAEAD s' = cc_secureAEAD s ->
  (cc_receivedSecurePacket s = true \/ l = EncryptionSecure -> cc_receivedSecurePacket s' = true) ->
  (cc_receivedSecurePacket s' = true -> is_Some (cc_secureAEAD s)) ->
  (l = EncryptionForwardSecure -> is_Some (cc_forwardSecureAEAD s)) ->
  client_levels s' (l :: lvls).
Proof.
  intros [H1 H2 H3 H4] Hmax E1 E2 Hr Hk Hf. constructor; rewrite ?E1, ?E2; [| | |done].
  - constructor; [done|]. apply List.Forall_forall. intros l' Hl'. apply Hmax. by apply list_elem_of_In.
  - rewrite elem_of_cons. intros [<-|?]; auto.
  - rewrite elem_of_cons. intros [<-|?]; auto.
Qed.

Lemma client_Open_levels src pn ad s s' data lvl lvls :
  client_Open env src pn ad s = (s', Ok (data, lvl)) -> client_levels s lvls -> client_levels s' (lvl :: lvls).
Proof.
  intros E Hl. pose proof Hl as [_ Lf Ls Lk]. unfold client_Open in E.
  destruct (cc_forwardSecureAEAD s) as [a|] eqn:Ef.
  - destruct (aead_Open a src pn ad); [|discriminate..]. simplify_eq. apply (client_levels_cons s'); try done.
    + intros []; cbn; lia.
    + by intros [?|?].
  - assert (Hno : EncryptionForwardSecure ∉ lvls) by (intros Hin; by destruct (Lf Hin)).
    destruct (cc_secureAEAD s) as [a|] eqn:Es; [destruct (aead_Open a src pn ad)|].
    + simplify_eq. apply (client_levels_cons s); [done| |done|done|done|by rewrite Es|done].
      intros [] Hin; cbn; try lia. done.
    + destruct (cc_receivedSecurePacket s) eqn:Er; [discriminate|].
      destruct (aead_Open _ src pn ad); [|discriminate..]. simplify_eq.
      apply (client_levels_cons s'); [done| |done|done|by intros [?|?]|congruence|done].
      intros [] Hin; cbn; try lia; [|done]. by specialize (Ls Hin).
    + discriminate.
    + destruct (aead_Open _ src pn ad); [|discriminate..]. simplify_eq.
      apply (client_levels_cons s'); [done| |done|done|by intros [?|?]|by rewrite Es|done].
      intros [] Hin; cbn; try lia; [|done]. by destruct (Lk (Ls Hin)).
Qed.

(** The encryption level of the packets the client accepts never decreases, whatever
    messages and packets come in which order. *)
Theorem client_levels_never_decrease chain params files s lvls :
  client_run (NewCryptoSetupClient chain params files) s lvls -> StronglySorted (fun l l' => rank l' <= rank l) lvls.
Proof.
  intros Hrun. apply (cl_sorted s).
  induction Hrun as [|s lvls l s' _ IH Hstep]; [constructor; [constructor|intros H; inversion H..|done]|].
  destruct Hstep as [s s' E|ev s s' E|src pn ad s s' data lvl E|src pn ad s s' e E].
  - eapply client_levels_kept; [|exact IH]. pose proof (clientTurn_keys s) as H. by rewrite E in H.
  - eapply client_levels_kept; [|exact IH]. pose proof (handleEvent_keys ev s) as H. by rewrite E in H.
  - by apply (client_Open_levels src pn ad s s' data).
  - replace s' with s; [done|]. unfold client_Open in E. by repeat case_match; simplify_eq.
Qed.

(** *** A second server hello *)

(** The part of a hello that is needed to be accepted again. *)
Definition bareHello (cryptoData : gmap Z (list Z)) : gmap Z (list Z) :=
  filter (fun kv => kv.1 = TagPUBS \/ kv.1 = TagVER \/ kv.1 = TagSNO) cryptoData.

Lemma bareHello_lookup m tag : tag = TagPUBS \/ tag = TagVER \/ tag = TagSNO -> bareHello m !! tag = m !! tag.
Proof.
  intros Ht. unfold bareHello. rewrite map_lookup_filter. destruct (m !! tag); cbn; [|done].
  by rewrite option_guard_True.
Qed.

Lemma SetFromMap_nothing m p :
  m !! TagTCID = None -> m !! TagMSPC = None -> m !! TagMIDS = None -> m !! TagICSL = None ->
  m !! TagSFCW = None -> m !! TagCFCW = None -> SetFromMap m p = (p, None).
Proof.
  intros E1 E2 E3 E4 E5 E6. unfold SetFromMap, andThen, onceOnly, fromTag. rewrite E1, E2, E3, E4, E5, E6.
  rewrite (bool_decide_eq_false_2 (is_Some None)) by (by intros []). by repeat case_match; simplify_eq/=.
Qed.

Lemma bareHello_nothing m p : SetFromMap (bareHello m) p = (p, None).
Proof.
  assert (H : forall tag, tag <> TagPUBS -> tag <> TagVER -> tag <> TagSNO -> bareHello m !! tag = None).
  { intros tag H1 H2 H3. apply map_lookup_filter_None. right. intros x _ [?|[?|?]]; done. }
  apply SetFromMap_nothing; apply H; vm_compute; discriminate.
Qed.

(** When the client has accepted a server hello, a second one that repeats its key, its
    nonce and its versions, and leaves out the parameters, crashes the process: the level
    is sent on the channel that the first hello closed. *)
Theorem second_server_hello_panics s cryptoData s' :
  handleSHLOMessage env cryptoData s = (s', Ok tt) ->
  (handleSHLOMessage env (bareHello cryptoData) s').2 = Panic.
Proof.
  intros E. pose proof (bareHello_lookup cryptoData) as Hb. revert E.
  unfold handleSHLOMessage, whenTag, getValue. rewrite !Hb by auto.
  unfold sm_bind, sm_lift, sm_modify, sm_ret, get, failIf, check, theConfig, client_assign, client_send, client_close, leafCert.
  destruct s as [cfg stk sno nonc proof chlos chlo chain cd sd dn cnt ver rsec sec fs ch par files out]. cbn.
  destruct rsec; cbn; [|discriminate].
  destruct (cryptoData !! TagSNO) as [v|]; cbn; (destruct (cryptoData !! TagPUBS) as [pubs|]; cbn; [|discriminate]);
    (destruct (cryptoData !! TagVER) as [vt|]; cbn; [|discriminate]);
    (destruct (validateVersionList env vt) eqn:Ev; cbn; [|discriminate]);
    (destruct cfg as [cfg|]; cbn; [|discriminate]);
    (destruct (CalculateSharedKey (scc_kex cfg) pubs) as [sec'| |] eqn:Ek; cbn; [|discriminate..]);
    (destruct (ce_keyDerivation env true _ _ _ _ _ _ _ _) as [a| |] eqn:Ed; cbn; [|discriminate..]);
    (destruct (SetFromMap cryptoData par) as [p [e|]]; cbn; [discriminate|]);
    (destruct (chan_send ch EncryptionForwardSecure) as [c| |] eqn:Ec; cbn; [|discriminate..]);
    (destruct (chan_close c) as [c'| |] eqn:Ec'; cbn; [|discriminate..]);
    intros [= <-]; cbn; rewrite ?Ev; cbn; rewrite ?Ek; cbn; rewrite ?Ed; cbn; rewrite bareHello_nothing; cbn;
    unfold chan_close in Ec'; destruct (ac_closed c); [discriminate| |discriminate|]; by injection Ec' as <-.
Qed.

(** *** A cached handshake *)

(** The client after its hello. *)
Definition sentHello (s : client) : client :=
  let s := cc_set_clientHelloCounter s (cc_clientHelloCounter s + 1) in
  cc_set_lastSentCHLO (cc_set_cryptoStream s (cc_cryptoStream s ++ [clientHello env s])) (clientHello env s).

Lemma clientTurn_sends s :
  cc_diversificationNonce s = [] -> cc_secureAEAD s = None -> cc_clientHelloCounter s < MaxClientHellos ->
  (forall b, ce_Write env b = None) -> clientTurn env s = (sentHello s, Ok tt).
Proof.
  intros Hd Hs Hc Hw. unfold clientTurn. rewrite (sm_bind_eq _ _ s s (Ok tt)).
  - unfold sm_bind, get. rewrite bool_decide_eq_true_2 by done.
    unfold sendCHLO, sm_bind, sm_modify, get, failIf, check, sm_lift. cbn [cc_clientHelloCounter cc_set_clientHelloCounter].
    replace (_ >? MaxClientHellos) with false by lia. by rewrite Hw.
  - unfold maybeUpgradeCrypto. destruct (negb _); [done|]. rewrite Hs, Hd. destruct (cc_serverConfig s); [|done].
    change (0 <? zlen []) with false. by rewrite andb_false_r.
Qed.

(** The secure keys, when all they are derived from is there. *)
Lemma client_upgrades s cfg a :
  cc_serverVerified s = true -> cc_secureAEAD s = None -> cc_serverConfig s = Some cfg ->
  0 < zlen (scc_sharedSecret cfg) -> 0 < zlen (cc_nonc s) -> 0 < zlen (leafCert env s) ->
  0 < zlen (cc_diversificationNonce s) -> 0 < zlen (cc_lastSentCHLO s) -> ac_closed (cc_aeadChanged s) = false ->
  ce_keyDerivation env false (scc_sharedSecret cfg) (cc_nonc s ++ cc_sno s) (ce_connID env) (cc_lastSentCHLO s)
    (scc_Get cfg) (leafCert env s) (cc_diversificationNonce s) PerspectiveClient = Ok a ->
  maybeUpgradeCrypto env s = (cc_set_aeadChanged (cc_set_secureAEAD s (Some a))
    (mkChan (ac_sent (cc_aeadChanged s) ++ [EncryptionSecure]) false), Ok tt).
Proof.
  intros Hv Hsec Hcfg H1 H2 H3 H4 H5 Hch Ha. unfold maybeUpgradeCrypto. rewrite Hv, Hsec, Hcfg. cbn [negb].
  rewrite !(proj2 (Z.ltb_lt 0 _)) by assumption. cbn [andb]. unfold sm_bind, client_assign. rewrite Ha.
  unfold client_send, chan_send. change (cc_aeadChanged (cc_set_secureAEAD s (Some a))) with (cc_aeadChanged s). by rewrite Hch.
Qed.

(** The forward-secure keys, from a server hello. *)
Lemma client_accepts s m cfg sn pubs vt ephermal b q :
  cc_receivedSecurePacket s = true -> m !! TagSNO = Some sn -> m !! TagPUBS = Some pubs -> m !! TagVER = Some vt ->
  validateVersionList env vt = true -> cc_serverConfig s = Some cfg -> CalculateSharedKey (scc_kex cfg) pubs = Ok ephermal ->
  ce_keyDerivation env true ephermal (cc_nonc s ++ sn) (ce_connID env) (cc_lastSentCHLO s) (scc_Get cfg) (leafCert env s)
    [] PerspectiveClient = Ok b ->
  SetFromMap m (cc_connectionParameters s) = (q, None) -> ac_closed (cc_aeadChanged s) = false ->
  exists s', handleSHLOMessage env m s = (s', Ok tt) /\ cc_forwardSecureAEAD s' = Some b.
Proof.
  intros Hr V1 V2 V3 Hvl Hcfg Hk Hb Hset Hch.
  unfold handleSHLOMessage, whenTag, getValue. rewrite V1, V2, V3.
  unfold sm_bind, sm_lift, sm_modify, sm_ret, get, failIf, check, theConfig, client_assign, client_send, client_close, leafCert in *.
  destruct s as [cfg0 stk sno nonc proof chlos chlo chain cd sd dn cnt ver rsec sec fs ch par files out]. cbn in *. subst rsec cfg0.
  cbn. rewrite Hvl. cbn. rewrite Hk. cbn. rewrite Hb. cbn. rewrite Hset. cbn. unfold chan_send. rewrite Hch. cbn.
  eexists. split; reflexivity.
Qed.

(** What reading the cache leaves as it is. *)
Definition cache_same (s s' : client) : Prop :=
  cc_proof s' = cc_proof s /\ cc_sno s' = cc_sno s /\ cc_diversificationNonce s' = cc_diversificationNonce s /\
  cc_clientHelloCounter s' = cc_clientHelloCounter s /\ cc_secureAEAD s' = cc_secureAEAD s /\ cc_aeadChanged s' = cc_aeadChanged s.
#[local] Instance cache_same_pre : PreOrder cache_same.
Proof. split; [done|]. intros ? ? ? (? & ? & ? & ? & ? & ?) (? & ? & ? & ? & ? & ?). split_and!; congruence. Qed.

Lemma readCache_same : keeps True cache_same (readCache env).
Proof.
  assert (Hread : forall n, keeps True cache_same (readBinaryFile n)).
  { intros n s. unfold readBinaryFile. by destruct (cc_files s !! n). }
  assert (Hasg : forall scfg, keeps True cache_same (assignServerConfig env scfg)).
  { intros scfg s. unfold assignServerConfig. by destruct (parseServerConfig _ _). }
  assert (Hgen : keeps True cache_same (generateClientNonce env)).
  { intros s. unfold generateClientNonce. destruct (cc_serverConfig s) as [cfg|]; [destruct (negb (zlen (scc_obit cfg) =? 8))|];
      by destruct (negb _), (ce_rand env). }
  assert (Hcert : forall d, keeps True cache_same (setCertData env d)).
  { intros d s. unfold setCertData. by destruct (cm_SetData _ _ _). }
  assert (HP : PreOrder cache_same) by typeclasses eauto.
  unfold readCache. keeps_tac; auto; done.
Qed.

(** The cache is trusted only with a nonce. *)
Lemma readCache_verified s s' r : readCache env s = (s', r) -> cc_serverVerified s = false ->
  cc_serverVerified s' = true -> 0 < zlen (cc_nonc s').
Proof.
  unfold readCache, readBinaryFile, setCertData, assignServerConfig, generateClientNonce, failIf, check, sm_bind, sm_lift, sm_modify.
  destruct s as [cfg stk sno nonc proof chlos chlo chain cd sd dn cnt ver rsec sec fs ch par files out]. cbn.
  intros E -> Hv. revert E. 
  repeat (case_match; simplify_eq/=; try (by intros; simplify_eq/=)).
Qed.

(** C39: a client that uses a cached handshake trusts every server config it is sent, without any
    proof: after a rejection that contains nothing but a config of anybody, and a
    diversification nonce, it has the secure keys, derived from the secret it shares with the
    sender of that config. *)
Theorem cached_client_trusts_any_config chain params files s scfg cfg divNonce :
  ce_CacheHandshake env = true ->
  useHandshakeCache env (NewCryptoSetupClient chain params files) = (s, Ok tt) ->
  cc_serverVerified s = true -> 0 < zlen (leafCert env s) ->
  parseServerConfig (ce_newKEX env) scfg = Ok cfg -> IsExpired cfg (ce_now env) = false ->
  0 < zlen (scc_sharedSecret cfg) -> 0 < zlen divNonce -> (forall b, ce_Write env b = None) ->
  (forall chlo, exists a, ce_keyDerivation env false (scc_sharedSecret cfg) (cc_nonc s) (ce_connID env) chlo
     (scc_Get cfg) (leafCert env s) divNonce PerspectiveClient = Ok a) ->
  exists s' a chlo,
    client_HandleCryptoStream env [EvMessage (mkHM TagREJ {[TagSCFG := scfg]}); EvDivNonce divNonce]
      (NewCryptoSetupClient chain params files) = (s', Ok tt) /\
    cc_secureAEAD s' = Some a /\
    ce_keyDerivation env false (scc_sharedSecret cfg) (cc_nonc s) (ce_connID env) chlo (scc_Get cfg) (leafCert env s)
      divNonce PerspectiveClient = Ok a.
Proof.
  intros Hcache Huse Hv Hleaf Hparse Hexp Hsecret Hdn Hw Hkd.
  assert (Hread : exists r, readCache env (NewCryptoSetupClient chain params files) = (s, r)).
  { unfold useHandshakeCache in Huse. destruct (readCache _ _) as [s0 [?|?|]]; simplify_eq; eauto. }
  destruct Hread as [r Hread]. pose proof (readCache_verified _ _ _ Hread eq_refl Hv) as Hnonc.
  pose proof (keeps_all _ _ (NewCryptoSetupClient chain params files) readCache_same) as Hsame. rewrite Hread in Hsame.
  destruct Hsame as (Hp & Hsno & Hd & Hc & Hsec & Hch). cbn in Hp, Hsno, Hd, Hc, Hsec, Hch.
  unfold client_HandleCryptoStream. rewrite Hcache, (sm_bind_eq _ _ _ _ _ Huse). cbn [clientLoop].
  rewrite (sm_bind_eq _ _ _ _ _ (clientTurn_sends s Hd Hsec ltac:(rewrite Hc; done) Hw)).
  set (s1 := sentHello s).
  assert (Hrej : handleEvent env (EvMessage (mkHM TagREJ {[TagSCFG := scfg]})) s1 =
    (cc_set_scfgData (cc_set_serverConfig s1 (Some cfg)) scfg, Ok tt)).
  { cbn [handleEvent hm_Tag hm_Data]. rewrite Z.eqb_refl. unfold handleREJMessage, whenTag.
    rewrite lookup_singleton_eq, !lookup_singleton_ne by (vm_compute; discriminate).
    unfold handleSCFG, assignServerConfig, failIf, check, get, sm_bind, sm_lift, sm_modify, sm_ret. rewrite Hparse.
    cbn. rewrite Hexp. cbn. replace (zlen (cc_nonc s) =? 0) with false by lia. cbn. unfold verifyProof. cbn. rewrite Hp.
    by destruct (cm_GetLeafCert _ (cc_chain s)). }
  rewrite (sm_bind_eq _ _ _ _ _ Hrej). set (s2 := cc_set_scfgData _ _).
  rewrite (sm_bind_eq _ _ _ _ _ (clientTurn_sends s2 Hd Hsec ltac:(cbn; rewrite Hc; done) Hw)).
  set (s3 := sentHello s2).
  assert (Hdiv : handleEvent env (EvDivNonce divNonce) s3 = (cc_set_diversificationNonce s3 divNonce, Ok tt)).
  { unfold handleEvent, sm_bind, get, failIf, check, sm_lift. cbn. by rewrite Hd. }
  rewrite (sm_bind_eq _ _ _ _ _ Hdiv). set (s4 := cc_set_diversificationNonce _ _).
  destruct (Hkd (cc_lastSentCHLO s4)) as [a Ha].
  set (s5 := cc_set_aeadChanged (cc_set_secureAEAD s4 (Some a)) (mkChan [EncryptionSecure] false)).
  assert (Hup : maybeUpgradeCrypto env s4 = (s5, Ok tt)); unfold s5.
  { replace (mkChan [EncryptionSecure] false) with (mkChan (ac_sent (cc_aeadChanged s4) ++ [EncryptionSecure]) false)
      by (change (cc_aeadChanged s4) with (cc_aeadChanged s); by rewrite Hch).
    pose proof (clientHello_size env (cc_set_clientHelloCounter s2 (cc_clientHelloCounter s2 + 1))) as Hsize.
    unfold ClientHelloMinimumSize in Hsize. apply (client_upgrades s4 cfg); try assumption.
    - reflexivity.
    - change (0 < zlen (clientHello env (cc_set_clientHelloCounter s2 (cc_clientHelloCounter s2 + 1)))). lia.
    - change (cc_aeadChanged s4) with (cc_aeadChanged s). by rewrite Hch.
    - change (cc_sno s4) with (cc_sno s). rewrite Hsno, app_nil_r. exact Ha. }
  exists s5, a, (cc_lastSentCHLO s4). split_and!; [|done|done].
  rewrite (sm_bind_eq _ _ s4 s5 (Ok tt)); [done|]. unfold clientTurn. rewrite (sm_bind_eq _ _ _ _ _ Hup).
  unfold sm_bind, get. rewrite bool_decide_eq_false_2; done.
Qed.
End proofs.
