(* ===== verification/Handshake.v ===== *)
(** * Client and server together

    The complete hello of a client that knows the server config is accepted by the server, whose
    reply the client accepts; both then have the same keys.  The exchange is also run
    from the beginning with a concrete key exchange, cipher and certificate. *)
From stdpp Require Import sorting.
From S2P Require Import Prelude Qerr ByteOrder Protocol PublicHeader ConnParams PacketPacker HandshakeMessage Aead ServerConfig Cookie.
From S2P Require Import CryptoServer CryptoServerProofs CryptoClient CryptoClientProofs.

(** ** The values of a hello *)

Lemma lookup_if (b : bool) (k k' : Z) (v : list Z) (m : gmap Z (list Z)) : k <> k' ->
  (if b then <[k := v]> m else m) !! k' = m !! k'.
Proof. intros H. destruct b; [by rewrite lookup_insert_ne|done]. Qed.

(** A value that is only sent when it is not empty. *)
Lemma lookup_nonempty (k : Z) v (m : gmap Z (list Z)) : m !! k = None ->
  default [] ((if 0 <? zlen v then <[k := v]> m else m) !! k) = v.
Proof.
  intros Hk. destruct (0 <? zlen v) eqn:E; [by rewrite lookup_insert_eq|]. rewrite Hk.
  destruct v; [done|]. rewrite zlen_cons in E. pose proof (zlen_nonneg v). lia.
Qed.

Ltac tags_differ := (vm_compute; discriminate).
Ltac skip_tags := repeat first [rewrite lookup_insert_ne by tags_differ | rewrite lookup_if by tags_differ].

(** Six tags carry parameters. *)
Lemma SetFromMap_ext (m m' : gmap Z (list Z)) p :
  (forall tag, In tag [TagTCID; TagMSPC; TagMIDS; TagICSL; TagSFCW; TagCFCW] -> m !! tag = m' !! tag) ->
  SetFromMap m p = SetFromMap m' p.
Proof.
  intros H. unfold SetFromMap, andThen, onceOnly, fromTag.
  rewrite (H TagTCID), (H TagMSPC), (H TagMIDS), (H TagICSL), (H TagSFCW), (H TagCFCW) by (simpl; tauto). done.
Qed.

Section hello.
Context {C : Type}.
Variable cenv : clientEnv C.

(** The values of the complete hello. *)
Lemma hello_values s cfg cert :
  cc_serverConfig s = Some cfg -> cm_GetLeafCert (ce_certManager cenv) (cc_chain s) = Some cert ->
  let tags := addPadding (getTags cenv s) in
  tags !! TagFHL2 = None /\ tags !! TagNSTP = None /\ tags !! TagSNI = Some (ce_hostname cenv) /\
  tags !! TagVER = Some (leEnc 4 (VersionNumberToTag (ce_version cenv))) /\
  tags !! TagSCID = Some (scc_ID cfg) /\ tags !! TagPUBS = Some (PublicKey (scc_kex cfg)) /\
  tags !! TagXLCT = Some (leEnc 8 (cm_GetLeafCertHash (ce_certManager cenv) (cc_chain s))) /\
  tags !! TagNONC = Some (cc_nonc s) /\ tags !! TagAEAD = Some (bytesOf "AESG") /\ tags !! TagKEXS = Some (bytesOf "C255") /\
  value tags TagSTK = cc_stk s /\
  (ce_RequestConnectionIDTruncation cenv = false ->
   forall tag, In tag [TagTCID; TagMSPC; TagMIDS; TagICSL; TagSFCW; TagCFCW] ->
     tags !! tag = GetHelloMap (cc_connectionParameters s) !! tag).
Proof.
  intros Hcfg Hcert. unfold addPadding, value, getTags. cbv zeta. rewrite Hcfg, Hcert, Z.gtb_ltb.
  set (hello := GetHelloMap (cc_connectionParameters s)).
  assert (Hnone : forall tag, ~ In tag [TagICSL; TagMSPC; TagMIDS; TagCFCW; TagSFCW] -> hello !! tag = None).
  { intros tag Ht. unfold hello, GetHelloMap. simpl in Ht.
    repeat (rewrite lookup_insert_ne by tauto). apply lookup_empty. }
  split_and!.
  1-10: skip_tags; first [apply lookup_insert_eq | apply Hnone; vm_compute; intuition discriminate].
  - skip_tags.
    rewrite lookup_nonempty; [done|]. skip_tags. apply Hnone. vm_compute. intuition discriminate.
  - intros Htr tag Ht. rewrite Htr. simpl in Ht.
    destruct Ht as [<-|[<-|[<-|[<-|[<-|[<-|[]]]]]]]; by skip_tags.
Qed.
End hello.

(** ** The server accepts the complete hello *)

Section agreement.
Context {C : Type}.
Variables (cenv : clientEnv C) (senv : serverEnv).
Variable newGCM : list Z -> result cipherAEAD.
Variable hkdf : list Z -> list Z -> list Z -> nat -> result (list Z).
Notation scfg := (se_scfg senv).
Notation derive := (DeriveQuicCryptoAESKeys newGCM hkdf).

(** A client and a server of one connection: the client has parsed the server config, has the
    certificate of the server and a token that the server accepts; [secret] and [ephermal]
    are the secrets of its key with the static and the ephemeral key of the server. *)
Record compatible (c : cryptoSetupClient C) (cfg : serverConfigClient) (cert secret ephermal sn dn : list Z) : Prop := {
  cmp_client_kd : ce_keyDerivation cenv = derive;
  cmp_server_kd : se_keyDerivation senv = derive;
  cmp_connID : ce_connID cenv = se_connID senv;
  cmp_host : ce_hostname cenv <> [];
  cmp_version : VersionTagToNumber (VersionNumberToTag (ce_version cenv)) = se_version senv;
  cmp_versions : validateVersionList cenv (versionTags senv) = true;
  cmp_truncation : ce_RequestConnectionIDTruncation cenv = false;
  cmp_cfg : cc_serverConfig c = Some cfg;
  cmp_ID : scc_ID cfg = sc_ID scfg;
  cmp_raw : scc_Get cfg = ServerConfig_Get scfg;
  cmp_secret : scc_sharedSecret cfg = secret /\ 0 < zlen secret;
  cmp_static : CalculateSharedKey (sc_kex scfg) (PublicKey (scc_kex cfg)) = Ok secret;
  cmp_ephermal : CalculateSharedKey (se_keyExchange senv) (PublicKey (scc_kex cfg)) = Ok ephermal /\
                 CalculateSharedKey (scc_kex cfg) (PublicKey (se_keyExchange senv)) = Ok ephermal;
  cmp_client_cert : cm_GetLeafCert (ce_certManager cenv) (cc_chain c) = Some cert /\ 0 < zlen cert;
  cmp_server_cert : GetLeafCert (sc_certChain scfg) (ce_hostname cenv) = Ok cert;
  cmp_hash : cm_GetLeafCertHash (ce_certManager cenv) (cc_chain c) = HashCert cert;
  cmp_token : acceptSTK senv (cc_stk c) = true;
  cmp_nonce : exists t random, cc_nonc c = beEnc 4 t ++ sc_obit scfg ++ random /\ zlen (sc_obit scfg) = 8 /\ zlen random = 20;
  cmp_rand : se_rand senv 0 = Ok sn /\ se_rand senv 1 = Ok dn;
  cmp_sizes : zlen sn <= 4000 /\ 0 < zlen dn /\ zlen (PublicKey (se_keyExchange senv)) <= 4000 /\ zlen (versionTags senv) <= 4000;
}.

Lemma hello_complete c cfg cert secret ephermal sn dn :
  compatible c cfg cert secret ephermal sn dn ->
  let tags := addPadding (getTags cenv c) in
  checkCHLO senv tags = Ok (ce_hostname cenv) /\ isInchoateCHLO senv tags cert = false /\
  validateClientNonce senv (value tags TagNONC) = Ok tt.
Proof.
  intros H. destruct (hello_values cenv c cfg cert (cmp_cfg _ _ _ _ _ _ _ H) (proj1 (cmp_client_cert _ _ _ _ _ _ _ H)))
    as (F & N & SNI & V & ID & P & X & NC & A & K & T & _).
  set (tags := addPadding (getTags cenv c)) in *. clearbody tags. cbv zeta. destruct H.
  assert (Hver : leVal (leEnc 4 (VersionNumberToTag (ce_version cenv))) = VersionNumberToTag (ce_version cenv)).
  { apply leVal_leEnc. apply u32_range. }
  split_and!.
  - unfold checkCHLO. rewrite F, N, SNI, V, !(bool_decide_eq_false_2 (is_Some None)) by (by intros []).
    destruct (ce_hostname cenv) as [|b l]; [by destruct cmp_host0|].
    rewrite zlen_leEnc, Hver, cmp_version0, !Z.eqb_refl. reflexivity.
  - unfold isInchoateCHLO. rewrite P, ID, X, T, cmp_ID0, cmp_hash0, cmp_token0, bool_decide_eq_true_2 by done.
    rewrite zlen_leEnc, leVal_leEnc by (apply (fnv64a_Write_range _ cert), fnv64a_offset_u64). rewrite !Z.eqb_refl. reflexivity.
  - unfold validateClientNonce, value. rewrite NC. cbn [default]. destruct cmp_nonce0 as (t & random & -> & Hobit & Hr).
    change (id ?x) with x. rewrite !zlen_app, zlen_beEnc, Hobit, Hr. cbn [Z.add Z.eqb Pos.eqb negb].
    rewrite drop_app_length' by (by rewrite beEnc_length). rewrite take_app_length' by (unfold zlen in Hobit; lia).
    by rewrite bool_decide_eq_true_2.
Qed.

(** The server hello. *)
Definition serverHello (p : connectionParametersManager) (sn : list Z) : gmap Z (list Z) :=
  <[TagVER := versionTags senv]> (<[TagSNO := sn]> (<[TagPUBS := PublicKey (se_keyExchange senv)]> (GetHelloMap p))).

Definition serverAfter (s : cryptoSetupServer) (dn : list Z) (a b : AEAD) (p : connectionParametersManager) : cryptoSetupServer :=
  ss_set_params (ss_set_forwardSecure (ss_set_chan (ss_set_secure (ss_set_nonce s dn) (Some a))
    (mkChan (ac_sent (ss_aeadChanged s) ++ [EncryptionSecure]) false)) (Some b)) p.

Lemma server_replies c cfg cert secret ephermal sn dn s chlo a b :
  compatible c cfg cert secret ephermal sn dn ->
  cpm_flowControlNegotiated (ss_connectionParameters s) = false -> ac_closed (ss_aeadChanged s) = false ->
  derive false secret (cc_nonc c) (se_connID senv) chlo (ServerConfig_Get scfg) cert dn PerspectiveServer = Ok a ->
  derive true ephermal (cc_nonc c ++ sn) (se_connID senv) chlo (ServerConfig_Get scfg) cert [] PerspectiveServer = Ok b ->
  exists p, prepareReply senv chlo (addPadding (getTags cenv c)) s =
    (serverAfter s dn a b p, Ok (HandshakeMessage_Write (mkHM TagSHLO (serverHello p sn)), true)).
Proof.
  intros Hcmp Hn Hch Ha Hb. destruct (hello_complete _ _ _ _ _ _ _ Hcmp) as (Hchk & Hin & Hnc).
  destruct (hello_values cenv c cfg cert (cmp_cfg _ _ _ _ _ _ _ Hcmp) (proj1 (cmp_client_cert _ _ _ _ _ _ _ Hcmp)))
    as (_ & _ & _ & _ & _ & P & _ & NC & A & K & _ & Hpar).
  set (tags := addPadding (getTags cenv c)) in *. clearbody tags. destruct Hcmp.
  pose proof (SetFromMap_ext _ _ (ss_connectionParameters s) (Hpar cmp_truncation0)) as Hset.
  rewrite SetFromMap_hello in Hset by exact Hn. match type of Hset with _ = (?p, None) => exists p; set (q := p) in * end. clearbody q.
  unfold prepareReply, handleCHLO. unfold value in *. rewrite P, NC, A, K in *. cbn [default] in *. change (id ?x) with x in *.
  destruct cmp_rand0 as [R1 R2]. destruct cmp_ephermal0 as [E1 E2].
  unfold sm_bind, sm_lift, sm_modify, sm_assign, sm_send, sm_ret, check. rewrite Hchk, cmp_server_cert0, Hin.
  cbn [negb]. rewrite cmp_static0, R1, R2, Hnc, cmp_server_kd0, Ha, !bool_decide_eq_true_2 by done. cbn [negb].
  unfold chan_send. cbn [ss_aeadChanged ss_set_secure ss_set_nonce]. rewrite Hch, E1, Hb.
  cbn [ss_connectionParameters ss_set_forwardSecure ss_set_chan ss_set_secure ss_set_nonce]. rewrite Hset. reflexivity.
Qed.

(** ** The client accepts the server hello *)

Lemma serverHello_values p sn :
  serverHello p sn !! TagSNO = Some sn /\ serverHello p sn !! TagPUBS = Some (PublicKey (se_keyExchange senv)) /\
  serverHello p sn !! TagVER = Some (versionTags senv) /\
  (forall tag, In tag [TagTCID; TagMSPC; TagMIDS; TagICSL; TagSFCW; TagCFCW] -> serverHello p sn !! tag = GetHelloMap p !! tag).
Proof.
  unfold serverHello. split_and!; [skip_tags; apply lookup_insert_eq..|].
  intros tag Ht. simpl in Ht. destruct Ht as [<-|[<-|[<-|[<-|[<-|[<-|[]]]]]]]; by skip_tags.
Qed.

Lemma le32_length v : zlen (le32 v) = 4.
Proof. done. Qed.

Lemma serverHello_ok p sn : zlen sn <= 4000 -> zlen (PublicKey (se_keyExchange senv)) <= 4000 -> zlen (versionTags senv) <= 4000 ->
  message_ok (mkHM TagSHLO (serverHello p sn)).
Proof.
  intros H1 H2 H3. constructor.
  - unfold is_u32. vm_compute. intuition discriminate.
  - intros tag. unfold serverHello, GetHelloMap. cbn [hm_Data]. rewrite !lookup_insert_is_Some', lookup_empty.
    intros [<-|[<-|[<-|[<-|[<-|[<-|[<-|[<-|[? [=]]]]]]]]]]; unfold is_u32; vm_compute; intuition discriminate.
  - intros tag v. unfold serverHello, GetHelloMap, CryptoParameterMaxLength. cbn [hm_Data]. rewrite !lookup_insert_Some, lookup_empty.
    intros H. repeat (destruct H as [[_ <-]|[_ H]]; [rewrite ?le32_length; lia|]). done.
  - unfold serverHello, GetHelloMap. cbn [hm_Data]. apply (Nat.le_trans _ 8); [|lia]. do 8 apply size_insert_le. by rewrite map_size_empty.
Qed.

Lemma client_key_matches forwardSecure secret nonces connID chlo config cert dn a : cipher_ok newGCM ->
  derive forwardSecure secret nonces connID chlo config cert dn PerspectiveServer = Ok a ->
  exists a', derive forwardSecure secret nonces connID chlo config cert dn PerspectiveClient = Ok a' /\ opens a' a /\ opens a a'.
Proof.
  intros Hci Ha. pose proof (quic_keys_match newGCM hkdf forwardSecure secret nonces connID chlo config cert dn Hci) as Hm.
  rewrite Ha in Hm. destruct (derive _ _ _ _ _ _ _ _ PerspectiveClient) as [a'| |]; [by exists a'|destruct Hm..].
Qed.

(** C35: the handshake, from the complete hello of the client on: the server accepts the
    hello and replies with a server hello; from the diversification nonce in the header of
    the reply the client derives secure keys, and from the server hello forward-secure keys.
    At both levels the keys match: what either side seals, the other opens. *)
Theorem handshake_keys_agree c cfg cert secret ephermal sn dn s a b :
  cipher_ok newGCM -> compatible c cfg cert secret ephermal sn dn ->
  cpm_flowControlNegotiated (ss_connectionParameters s) = false -> ac_closed (ss_aeadChanged s) = false ->
  cpm_flowControlNegotiated (cc_connectionParameters c) = false -> ac_closed (cc_aeadChanged c) = false ->
  cc_serverVerified c = true -> cc_secureAEAD c = None -> cc_sno c = [] ->
  derive false secret (cc_nonc c) (se_connID senv) (clientHello cenv c) (ServerConfig_Get scfg) cert dn PerspectiveServer = Ok a ->
  derive true ephermal (cc_nonc c ++ sn) (se_connID senv) (clientHello cenv c) (ServerConfig_Get scfg) cert [] PerspectiveServer = Ok b ->
  exists s' reply hello c1 c2 a' b',
    prepareReply senv (clientHello cenv c) (addPadding (getTags cenv c)) s = (s', Ok (reply, true)) /\
    ParseHandshakeMessage reply = Ok (mkHM TagSHLO hello, []) /\
    maybeUpgradeCrypto cenv (cc_set_diversificationNonce (cc_set_lastSentCHLO c (clientHello cenv c)) (ss_diversificationNonce s')) = (c1, Ok tt) /\
    handleSHLOMessage cenv hello (cc_set_receivedSecurePacket c1 true) = (c2, Ok tt) /\
    ss_secureAEAD s' = Some a /\ cc_secureAEAD c1 = Some a' /\ opens a' a /\ opens a a' /\
    ss_forwardSecureAEAD s' = Some b /\ cc_forwardSecureAEAD c2 = Some b' /\ opens b' b /\ opens b b'.
Proof.
  intros Hci Hcmp Hn Hch Hnc Hcc Hv Hsec Hsno Ha Hb.
  destruct (server_replies _ _ _ _ _ _ _ s _ _ _ Hcmp Hn Hch Ha Hb) as [p Hrep].
  destruct Hcmp. destruct cmp_sizes0 as (S1 & S2 & S3 & S4). destruct cmp_ephermal0 as [E1 E2].
  destruct cmp_secret0 as [Es Hes]. destruct cmp_client_cert0 as [Ec Hec].
  destruct (client_key_matches _ _ _ _ _ _ _ _ _ Hci Ha) as (a' & Ea & O1 & O2).
  destruct (client_key_matches _ _ _ _ _ _ _ _ _ Hci Hb) as (b' & Eb & O3 & O4).
  pose proof (proj1 (HandshakeMessage_parse _ [] (serverHello_ok p sn S1 S3 S4))) as Hparse. rewrite app_nil_r in Hparse.
  destruct (serverHello_values p sn) as (V1 & V2 & V3 & Hpar).
  pose proof (SetFromMap_ext _ _ (cc_connectionParameters c) Hpar) as Hset. rewrite SetFromMap_hello in Hset by exact Hnc.
  match type of Hset with _ = (?q0, None) => set (q := q0) in * end. clearbody q.
  set (c0 := cc_set_diversificationNonce (cc_set_lastSentCHLO c (clientHello cenv c)) dn).
  pose proof (clientHello_size cenv c) as Hsize. unfold ClientHelloMinimumSize in Hsize.
  assert (Hleaf : leafCert cenv c0 = cert) by (unfold leafCert; change (cc_chain c0) with (cc_chain c); by rewrite Ec).
  assert (Hnonc : 0 < zlen (cc_nonc c)).
  { destruct cmp_nonce0 as (t & random & -> & Ho & Hr). rewrite !zlen_app, zlen_beEnc, Ho, Hr. lia. }
  assert (Hup : maybeUpgradeCrypto cenv c0 = (cc_set_aeadChanged (cc_set_secureAEAD c0 (Some a'))
    (mkChan (ac_sent (cc_aeadChanged c0) ++ [EncryptionSecure]) false), Ok tt)).
  { apply (client_upgrades cenv c0 cfg); try assumption; [by rewrite Es|by rewrite Hleaf|change (0 < zlen (clientHello cenv c)); lia|].
    rewrite Hleaf, Es, cmp_raw0, cmp_client_kd0, cmp_connID0. change (cc_sno c0) with (cc_sno c). rewrite Hsno, app_nil_r. exact Ea. }
  set (c1 := cc_set_aeadChanged _ _) in Hup.
  destruct (client_accepts cenv (cc_set_receivedSecurePacket c1 true) (serverHello p sn) cfg sn
    (PublicKey (se_keyExchange senv)) (versionTags senv) ephermal b' q) as (c2 & Hacc & Hfs); try assumption; try reflexivity.
  { change (leafCert cenv (cc_set_receivedSecurePacket c1 true)) with (leafCert cenv c0).
    rewrite Hleaf, cmp_raw0, cmp_client_kd0, cmp_connID0. exact Eb. }
  exists (serverAfter s dn a b p), (HandshakeMessage_Write (mkHM TagSHLO (serverHello p sn))), (serverHello p sn), c1, c2, a', b'.
  split_and!; try assumption; reflexivity.
Qed.
End agreement.
