(* ===== verification/HandshakeExamples.v ===== *)
(** * A handshake that is run

    A key exchange in the multiplicative group modulo 251, a cipher whose tag is the nonce and the
    key, one certificate and a proof that is made of lengths: with them the exchange of a client and a
    server is evaluated from the first hello to the forward-secure keys, and the theorems
    are applied to its states. *)
From stdpp Require Import sorting.
From S2P Require Import Prelude Qerr ByteOrder Protocol PublicHeader ConnParams PacketPacker HandshakeMessage Aead ServerConfig Cookie.
From S2P Require Import CryptoServer CryptoServerProofs CryptoClient CryptoClientProofs Handshake.

(** ** The parameters *)

Definition powMod (b e : Z) : Z := b ^ e mod 251.

Definition toyKEX (secret : Z) : KeyExchange :=
  mkKEX (replicate 32 (powMod 3 secret))
        (fun pub => if zlen pub =? 32 then Ok (replicate 24 (powMod (default 0 (head pub)) secret))
                    else Err (errors_New "Curve25519: expected public key of 32 byte")).

Definition toyCert : list Z := [1; 2; 3; 4].
Definition toyProof (chlo scfg : list Z) : list Z := leEnc 8 (zlen chlo * 1000 + zlen scfg).

Definition toyCertChain : CertChain :=
  mkCertChain (fun _ chlo scfg => Ok (toyProof chlo scfg)) (fun _ _ _ => Ok toyCert) (fun _ => Ok toyCert).

Definition toyCertManager : CertManager (list Z) :=
  mkCertManager (fun _ data => (data, None)) [] (fun c => match c with [] => None | _ => Some c end) HashCert
    (fun _ proof chlo scfg => bool_decide (proof = toyProof chlo scfg)) (fun _ _ => None).

Definition toyConfig : ServerConfig := mkServerConfig (toyKEX 5) toyCertChain (replicate 16 7) (replicate 8 8).
Definition toyToken : list Z := [42; 43].
Definition toyHost : list Z := bytesOf "quic.clemente.io".
Definition toyNow : Z := timeUnix 1500000000.

(** The server accepts its token only. *)
Definition toyServer : serverEnv :=
  mkServerEnv 77 (AddrUDP [10; 0; 0; 1] 4433) toyConfig VersionMP SupportedVersions
    (fun _ cookie => bool_decide (is_Some cookie)) (fun _ => Ok toyToken)
    (fun tok => match tok with [] => Ok None | _ => if bool_decide (tok = toyToken) then Ok (Some (mkCookie [] 0))
                               else Err (errors_New "no token") end)
    (NewNullAEAD (fun l => (0, HashCert l)) PerspectiveServer VersionMP)
    (DeriveQuicCryptoAESKeys toyGCM toyHkdf) (toyKEX 9)
    (fun n => Ok (replicate 32 (Z.of_nat n + 20))) (fun _ => None).

Definition toyClient (cache : bool) : clientEnv (list Z) :=
  mkClientEnv toyHost 77 VersionMP [] toyCertManager (DeriveQuicCryptoAESKeys toyGCM toyHkdf) (Ok (toyKEX 11))
    (NewNullAEAD (fun l => (0, HashCert l)) PerspectiveClient VersionMP) false cache (Ok (replicate 20 30)) toyNow (fun _ => None).

Definition toyParams (p : Perspective) : connectionParametersManager :=
  NewConnectionParamatersManager p VersionMP 100000 200000 (45 * Second).

Definition server0 : cryptoSetupServer := NewCryptoSetup (toyParams PerspectiveServer).
Definition client0 : cryptoSetupClient (list Z) := NewCryptoSetupClient [] (toyParams PerspectiveClient) ∅.

(** ** The exchange *)

(** The client sends its hello and gets the answer of the server; the first two are
    rejections. *)
Definition hello (st : cryptoSetupClient (list Z) * cryptoSetupServer) : option (cryptoSetupClient (list Z) * cryptoSetupServer * HandshakeMessage) :=
  let '(c, s) := st in
  match clientTurn (toyClient false) c with
  | (c, Ok _) =>
      match ParseHandshakeMessage (cc_lastSentCHLO c) with
      | Ok (chlo, _) =>
          match handleMessage toyServer (cc_lastSentCHLO c) (hm_Data chlo) s with
          | (s, Ok _) =>
              match ParseHandshakeMessage (List.last (ss_cryptoStream s) []) with
              | Ok (reply, _) => Some (c, s, reply)
              | _ => None
              end
          | _ => None
          end
      | _ => None
      end
  | _ => None
  end.

Definition rejected (st : cryptoSetupClient (list Z) * cryptoSetupServer) : option (cryptoSetupClient (list Z) * cryptoSetupServer) :=
  match hello st with
  | Some (c, s, reply) =>
      match handleEvent (toyClient false) (EvMessage reply) c with (c, Ok _) => Some (c, s) | _ => None end
  | None => None
  end.

(** After the third hello: the diversification nonce of the reply and its packet. *)
Definition secured (st : cryptoSetupClient (list Z) * cryptoSetupServer) : option (cryptoSetupClient (list Z) * cryptoSetupServer * HandshakeMessage) :=
  match hello st with
  | Some (c, s, reply) =>
      let '(c, _) := handleEvent (toyClient false) (EvDivNonce (ss_diversificationNonce s)) c in
      let '(c, _) := clientTurn (toyClient false) c in
      let '(_, sealer) := server_GetSealerForCryptoStream toyServer s in
      match client_Open (toyClient false) (Seal sealer [1; 2; 3] 5 [9]) 5 [9] c with
      | (c, Ok ([1; 2; 3], EncryptionSecure)) => Some (c, s, reply)
      | _ => None
      end
  | None => None
  end.

Definition completed (st : cryptoSetupClient (list Z) * cryptoSetupServer) : option (cryptoSetupClient (list Z) * cryptoSetupServer) :=
  match secured st with
  | Some (c, s, reply) =>
      match handleEvent (toyClient false) (EvMessage reply) c with (c, Ok _) => Some (c, s) | _ => None end
  | None => None
  end.

Definition verified : option (cryptoSetupClient (list Z) * cryptoSetupServer) := rejected (client0, server0) ≫= rejected.
Definition exchanged : option (cryptoSetupClient (list Z) * cryptoSetupServer) := verified ≫= completed.

(** The first rejection has neither proof nor certificate, the second verifies the server, and the
    third hello completes the handshake: a forward-secure packet of the client is opened by the
    server, which closes its channel. *)
Example handshake_runs :
  match exchanged with
  | Some (c, s) =>
      let '(lvl, sealer) := client_GetSealer (toyClient false) c in
      zlen (cc_cryptoStream c) = 3 /\ zlen (ss_cryptoStream s) = 3 /\
      cc_aeadChanged c = mkChan [EncryptionSecure; EncryptionForwardSecure] true /\ lvl = EncryptionForwardSecure /\
      match server_Open toyServer (Seal sealer [4; 5; 6] 7 [8]) 7 [8] s with
      | Some (s, Ok (data, lvl)) =>
          data = [4; 5; 6] /\ lvl = EncryptionForwardSecure /\
          ss_aeadChanged s = mkChan [EncryptionSecure; EncryptionForwardSecure] true
      | _ => False
      end
  | None => False
  end.
Proof. vm_compute. split_and!; reflexivity. Qed.

(** ** The theorems on its states *)

(** The client before its third hello, and that hello. *)
Definition client2 : cryptoSetupClient (list Z) := default client0 (fst <$> verified).
Definition chlo2 : list Z := clientHello (toyClient false) client2.
Definition tags2 : gmap Z (list Z) := addPadding (getTags (toyClient false) client2).
Definition config2 : serverConfigClient := default (mkSCC [] [] [] 0 (toyKEX 0) []) (cc_serverConfig client2).

Definition okOr {A} (d : A) (r : result A) : A := match r with Ok a => a | _ => d end.
Lemma okOr_eq {A} (d : A) (r : result A) : (match r with Ok _ => true | _ => false end) = true -> r = Ok (okOr d r).
Proof. by destruct r. Qed.

Lemma default_eq {A} (d : A) (o : option A) : (match o with Some _ => true | None => false end) = true -> o = Some (default d o).
Proof. by destruct o. Qed.

Definition secret2 : list Z := replicate 24 (powMod (powMod 3 11) 5).
Definition ephermal2 : list Z := replicate 24 (powMod (powMod 3 11) 9).

Lemma compatible2 : compatible (toyClient false) toyServer toyGCM toyHkdf client2 config2 toyCert secret2 ephermal2
  (replicate 32 20) (replicate 32 21).
Proof.
  constructor.
  1,2,3,7: reflexivity.
  - vm_compute. discriminate.
  - vm_compute. reflexivity.
  - vm_compute. reflexivity.
  - apply default_eq. vm_compute. reflexivity.
  - vm_compute. reflexivity.
  - vm_compute. reflexivity.
  - split; vm_compute; reflexivity.
  - vm_compute. reflexivity.
  - split; vm_compute; reflexivity.
  - split; vm_compute; reflexivity.
  - reflexivity.
  - vm_compute. reflexivity.
  - vm_compute. reflexivity.
  - exists 1500000000, (replicate 20 30). split_and!; vm_compute; reflexivity.
  - split; reflexivity.
  - split_and!; vm_compute; first [discriminate|reflexivity].
Qed.

Definition deriveServer (forwardSecure : bool) (secret nonces dn : list Z) : result AEAD :=
  DeriveQuicCryptoAESKeys toyGCM toyHkdf forwardSecure secret nonces (se_connID toyServer) (clientHello (toyClient false) client2)
    (ServerConfig_Get (se_scfg toyServer)) toyCert dn PerspectiveServer.
Definition noAEAD : AEAD := mkAEAD (fun _ _ _ => Panic) (fun _ _ _ => []) 0.

Lemma derivedServer2 : deriveServer false secret2 (cc_nonc client2) (replicate 32 21) =
  Ok (okOr noAEAD (deriveServer false secret2 (cc_nonc client2) (replicate 32 21))).
Proof. apply okOr_eq. vm_compute. reflexivity. Qed.
Lemma derivedServer3 : deriveServer true ephermal2 (cc_nonc client2 ++ replicate 32 20) [] =
  Ok (okOr noAEAD (deriveServer true ephermal2 (cc_nonc client2 ++ replicate 32 20) [])).
Proof. apply okOr_eq. vm_compute. reflexivity. Qed.

Lemma handshake_keys_agree_witness :
  exists s' reply hello c1 c2 a' b',
    prepareReply toyServer chlo2 tags2 server0 = (s', Ok (reply, true)) /\
    ParseHandshakeMessage reply = Ok (mkHM TagSHLO hello, []) /\
    maybeUpgradeCrypto (toyClient false) (cc_set_diversificationNonce (cc_set_lastSentCHLO client2 chlo2) (ss_diversificationNonce s')) = (c1, Ok tt) /\
    handleSHLOMessage (toyClient false) hello (cc_set_receivedSecurePacket c1 true) = (c2, Ok tt) /\
    cc_secureAEAD c1 = Some a' /\ cc_forwardSecureAEAD c2 = Some b'.
Proof.
  destruct (handshake_keys_agree (toyClient false) toyServer toyGCM toyHkdf client2 config2 toyCert secret2 ephermal2
    (replicate 32 20) (replicate 32 21) server0
    (okOr noAEAD (deriveServer false secret2 (cc_nonc client2) (replicate 32 21)))
    (okOr noAEAD (deriveServer true ephermal2 (cc_nonc client2 ++ replicate 32 20) [])) toyGCM_ok compatible2)
    as (s' & reply & hello & c1 & c2 & a' & b' & H1 & H2 & H3 & H4 & _ & H5 & _ & _ & _ & H6 & _).
  - reflexivity.
  - reflexivity.
  - vm_compute. reflexivity.
  - vm_compute. reflexivity.
  - vm_compute. reflexivity.
  - vm_compute. reflexivity.
  - vm_compute. reflexivity.
  - exact derivedServer2.
  - exact derivedServer3.
  - exists s', reply, hello, c1, c2, a', b'. split; [exact H1|]. split; [exact H2|]. split; [exact H3|].
    split; [exact H4|]. split; [exact H5|exact H6].
Defined.

(** The server after the third hello, with an unencrypted packet before and a secure one after. *)
Definition replied2 : cryptoSetupServer * result (list Z * bool) := prepareReply toyServer chlo2 tags2 server0.
Definition server2 : cryptoSetupServer := replied2.1.
Definition reply2 : list Z := match replied2.2 with Ok (r, _) => r | _ => [] end.

Lemma reply_eq {S} (p : S * result (list Z * bool)) : (match p.2 with Ok (_, h) => h | _ => false end) = true ->
  p = (p.1, Ok (match p.2 with Ok (r, _) => r | _ => [] end, true)).
Proof. by destruct p as [s [[r []]| |]]. Qed.
Lemma done_eq {S} (p : S * result unit) : (match p.2 with Ok _ => true | _ => false end) = true -> p = (p.1, Ok tt).
Proof. by destruct p as [s [[]| |]]. Qed.

Lemma replied2_eq : prepareReply toyServer chlo2 tags2 server0 = (server2, Ok (reply2, true)).
Proof. apply (reply_eq replied2). vm_compute. reflexivity. Qed.

Definition unencrypted2 : list Z := aead_Seal (ce_nullAEAD (toyClient false)) [1; 2] 3 [4].
Definition secure2 : list Z :=
  aead_Seal (okOr noAEAD (DeriveQuicCryptoAESKeys toyGCM toyHkdf false secret2 (cc_nonc client2) 77 chlo2
    (ServerConfig_Get toyConfig) toyCert (replicate 32 21) PerspectiveClient)) [5; 6] 7 [8].

(** An open whose result is known by its data and level. *)
Lemma open_eq env src pn ad s data lvl :
  match server_Open env src pn ad s with
  | Some (_, Ok (d, l)) => bool_decide (d = data) && bool_decide (l = lvl)
  | _ => false
  end = true ->
  server_Open env src pn ad s = Some (default s (fst <$> server_Open env src pn ad s), Ok (data, lvl)).
Proof.
  destruct (server_Open env src pn ad s) as [[s' [[d l]|e|]]|]; intros H; try discriminate.
  apply andb_true_iff in H as [H1%bool_decide_eq_true H2%bool_decide_eq_true]. by subst.
Qed.

Definition server3 : cryptoSetupServer := default server2 (fst <$> server_Open toyServer secure2 7 [8] server2).

Lemma run2 : server_run toyServer (toyParams PerspectiveServer) (server3, Replying reply2 true) [EncryptionSecure; EncryptionUnencrypted].
Proof.
  eapply (run_step _ _ (server2, Replying reply2 true) [EncryptionUnencrypted] (Some EncryptionSecure)).
  - eapply (run_step _ _ (server0, Reading) [EncryptionUnencrypted] None); [|exact (step_message _ _ _ _ _ _ _ replied2_eq)].
    eapply (run_step _ _ (server0, Reading) [] (Some EncryptionUnencrypted)); [apply run_new|].
    apply (step_open toyServer server0 server0 Reading unencrypted2 3 [4] [1; 2]). vm_compute. reflexivity.
  - apply (step_open toyServer server2 server3 (Replying reply2 true) secure2 7 [8] [5; 6]).
    apply open_eq. vm_compute. reflexivity.
Qed.

Lemma server_announces_witness :
  ss_aeadChanged server3 = mkChan [EncryptionSecure] false /\ is_Some (ss_forwardSecureAEAD server3) /\ ss_sentSHLO server3 = false.
Proof.
  destruct (server_announces toyServer (toyParams PerspectiveServer) server3 (Replying reply2 true) _ run2) as [[H _ _] _].
  destruct H as (_ & H1 & H2 & H3). split; [exact H2|]. split; [exact H1|exact H3].
Defined.

Lemma server_levels_never_decrease_witness :
  StronglySorted (fun l l' => rank l' <= rank l) [EncryptionSecure; EncryptionUnencrypted].
Proof. exact (server_levels_never_decrease toyServer (toyParams PerspectiveServer) _ _ run2). Defined.

Lemma server_keys_checked_witness :
  exists sni, proper_hello toyServer tags2 sni /\ ac_sent (ss_aeadChanged server2) = [EncryptionSecure].
Proof.
  destruct (server_keys_checked toyServer chlo2 tags2 server0 server2 (Ok (reply2, true)) (conj eq_refl eq_refl) eq_refl replied2_eq)
    as (_ & sni & H1 & _ & H2).
  exists sni. split; [exact H1|exact H2].
Defined.

(** The client that has received the server hello at the secure level, and handles it. *)
Definition secured2 : cryptoSetupClient (list Z) * cryptoSetupServer * HandshakeMessage :=
  default (client0, server0, mkHM 0 ∅) (verified ≫= secured).
Definition client3 : cryptoSetupClient (list Z) := secured2.1.1.
Definition shlo3 : gmap Z (list Z) := hm_Data secured2.2.
Definition client4 : cryptoSetupClient (list Z) := (handleSHLOMessage (toyClient false) shlo3 client3).1.

Lemma accepted3 : handleSHLOMessage (toyClient false) shlo3 client3 = (client4, Ok tt).
Proof. apply (done_eq (handleSHLOMessage (toyClient false) shlo3 client3)). vm_compute. reflexivity. Qed.

Lemma second_server_hello_panics_witness : (handleSHLOMessage (toyClient false) (bareHello shlo3) client4).2 = Panic.
Proof. exact (second_server_hello_panics (toyClient false) client3 shlo3 client4 accepted3). Defined.

(** The files of the cache after the handshake, and the config of somebody else. *)
Definition files4 : gmap (list Z) (list Z) := cc_files (cacheHandshake (toyClient true) client4).
Definition cached5 : cryptoSetupClient (list Z) * result unit :=
  useHandshakeCache (toyClient true) (NewCryptoSetupClient [] (toyParams PerspectiveClient) files4).
Definition intruder : list Z := ServerConfig_Get (mkServerConfig (toyKEX 99) toyCertChain (replicate 16 1) (replicate 8 2)).
Definition intruderConfig : result serverConfigClient := parseServerConfig (Ok (toyKEX 11)) intruder.
Definition intruderSecret : list Z := replicate 24 (powMod (powMod 3 99) 11).

Lemma cached5_eq : useHandshakeCache (toyClient true) (NewCryptoSetupClient [] (toyParams PerspectiveClient) files4) = (cached5.1, Ok tt).
Proof. apply (done_eq cached5). vm_compute. reflexivity. Qed.

Definition intruderKey (chlo : list Z) : result AEAD :=
  ce_keyDerivation (toyClient true) false (scc_sharedSecret (okOr config2 intruderConfig)) (cc_nonc cached5.1) (ce_connID (toyClient true)) chlo
    (scc_Get (okOr config2 intruderConfig)) (leafCert (toyClient true) cached5.1) (replicate 32 6) PerspectiveClient.

Lemma cached_client_trusts_any_config_witness :
  exists s' a, client_HandleCryptoStream (toyClient true)
      [EvMessage (mkHM TagREJ {[TagSCFG := intruder]}); EvDivNonce (replicate 32 6)]
      (NewCryptoSetupClient [] (toyParams PerspectiveClient) files4) = (s', Ok tt) /\ cc_secureAEAD s' = Some a.
Proof.
  destruct (cached_client_trusts_any_config (toyClient true) [] (toyParams PerspectiveClient) files4 cached5.1 intruder
    (okOr config2 intruderConfig) (replicate 32 6)) as (s' & a & chlo & H1 & H2 & _).
  - reflexivity.
  - exact cached5_eq.
  - vm_compute. reflexivity.
  - vm_compute. reflexivity.
  - apply (okOr_eq config2 intruderConfig). vm_compute. reflexivity.
  - vm_compute. reflexivity.
  - vm_compute. reflexivity.
  - vm_compute. reflexivity.
  - intros b. reflexivity.
  - intros chlo. exists (okOr noAEAD (intruderKey chlo)). apply (okOr_eq noAEAD (intruderKey chlo)). vm_compute. reflexivity.
  - exists s', a. split; [exact H1|exact H2].
Defined.
