(* ===== verification/Addr.v ===== *)
(** * Addresses as text (net.UDPAddr.String, and what server.go takes from it)

    The server compares and prints addresses by their text, and takes a number out of the
    text of the address of every new client. *)
From Stdlib Require Import Ascii.
From S2P Require Import Prelude Qerr ByteOrder Protocol WireStream WireControl.

(** ** The text of an address *)

Definition digit (d : Z) : Z := if d <? 10 then 48 + d else 87 + d.

(** [n] in base [base], without leading zeros; [fuel] is at least the number of digits. *)
Fixpoint format_base (fuel : nat) (base n : Z) : list Z :=
  match fuel with
  | O => []
  | S fuel => (if n <? base then [] else format_base fuel base (n / base)) ++ [digit (n mod base)]
  end.

Definition decimal (n : Z) : list Z := format_base 20 10 n.
Definition hex (n : Z) : list Z := format_base 4 16 n.
Definition hexByte (b : Z) : list Z := [digit (b / 16); digit (b mod 16)].

Fixpoint intersperse (sep : list Z) (l : list (list Z)) : list Z :=
  match l with
  | [] => []
  | [x] => x
  | x :: l => x ++ sep ++ intersperse sep l
  end.

(** The 16-bit groups of an IPv6 address. *)
Fixpoint groups (p : list Z) : list Z :=
  match p with
  | a :: b :: p => (a * 256 + b) :: groups p
  | _ => []
  end.

(** How many zeros the list starts with. *)
Fixpoint zeroRun (l : list Z) : nat :=
  match l with
  | 0 :: l => S (zeroRun l)
  | _ => O
  end.

(** The first of the longest runs of zeros, as its start and its end; [skip] groups are
    within the run that was found last. *)
Fixpoint longestZeros (i skip e0 e1 : nat) (l : list Z) : nat * nat :=
  match l with
  | [] => (e0, e1)
  | _ :: l' =>
      match skip with
      | S skip => longestZeros (S i) skip e0 e1 l'
      | O => let n := zeroRun l in
             if (e1 - e0 <? n)%nat then longestZeros (S i) n i (i + n) l'
             else longestZeros (S i) O e0 e1 l'
      end
  end.

Definition colon : Z := 58.
Definition dot : Z := 46.

Definition IPv6_String (p : list Z) : list Z :=
  let g := groups p in
  let '(e0, e1) := longestZeros 0 0 0 0 g in
  if (2 <=? e1 - e0)%nat
  then intersperse [colon] (map hex (take e0 g)) ++ [colon; colon] ++ intersperse [colon] (map hex (drop e1 g))
  else intersperse [colon] (map hex g).

Definition IP_String (ip : list Z) : list Z :=
  match ip with
  | [] => [60; 110; 105; 108; 62]
  | _ =>
      match To4 ip with
      | Some p4 => intersperse [dot] (map decimal p4)
      | None => if (length ip =? 16)%nat then IPv6_String ip else 63 :: concat (map hexByte ip)
      end
  end.

Definition string_bytes (s : string) : list Z :=
  map (fun a => Z.of_N (N_of_ascii a)) (String.list_ascii_of_string s).

(** [net.JoinHostPort]. *)
Definition JoinHostPort (host port : list Z) : list Z :=
  if existsb (fun c => (c =? colon) || (c =? 37)) host
  then [91] ++ host ++ [93; colon] ++ port else host ++ [colon] ++ port.

Definition UDPAddr_String (a : UDPAddr) : list Z :=
  let ip := match ua_IP a with [] => [] | ip => IP_String ip end in
  let host := if bool_decide (ua_Zone a = ""%string) then ip else ip ++ [37] ++ string_bytes (ua_Zone a) in
  JoinHostPort host (decimal (ua_Port a)).

(** ** The number the server takes out of it *)

Definition isDigit (c : Z) : bool := (48 <=? c) && (c <=? 57).

Fixpoint takeDigits (s : list Z) : list Z * list Z :=
  match s with
  | c :: s' => if isDigit c then let '(d, r) := takeDigits s' in (c :: d, r) else ([], s)
  | [] => ([], [])
  end.

(** [regexp.MustCompile(`\.(\d+):`).FindStringSubmatch]: the submatch of the leftmost
    match. *)
Fixpoint FindStringSubmatch (s : list Z) : option (list Z) :=
  match s with
  | [] => None
  | c :: s' =>
      if c =? dot then
        match takeDigits s' with
        | (d :: ds, c' :: _) => if c' =? colon then Some (d :: ds) else FindStringSubmatch s'
        | _ => FindStringSubmatch s'
        end
      else FindStringSubmatch s'
  end.

(** [strconv.ParseUint] of digits, its error ignored. *)
Definition ParseUint (s : list Z) : Z :=
  Z.min (2 ^ 64 - 1) (fold_left (fun n c => n * 10 + (c - 48)) s 0).

(** ** Lemmas *)

Lemma no_dot_no_match s : Forall (fun c => c <> dot) s -> FindStringSubmatch s = None.
Proof.
  induction 1 as [|c s Hc _ IH]; [reflexivity|]. cbn [FindStringSubmatch]. case_test; [contradiction|exact IH].
Qed.

Lemma takeDigits_app ds c r : Forall (fun c => isDigit c = true) ds -> isDigit c = false ->
  takeDigits (ds ++ c :: r) = (ds, c :: r).
Proof.
  intros Hds Hc. induction Hds as [|d ds Hd _ IH]; cbn [takeDigits app].
  - rewrite Hc. reflexivity.
  - rewrite Hd, IH. reflexivity.
Qed.

Lemma digits_skipped ds r : Forall (fun c => isDigit c = true) ds ->
  FindStringSubmatch (ds ++ r) = FindStringSubmatch r.
Proof.
  induction 1 as [|c ds Hc _ IH]; [reflexivity|]. cbn [FindStringSubmatch app].
  replace (c =? dot) with false; [exact IH|]. unfold isDigit, dot in *. symmetry. lia.
Qed.

Definition octet_ok (b : Z) : bool :=
  forallb isDigit (decimal b) && negb (bool_decide (decimal b = [])) && (ParseUint (decimal b) =? b).

Lemma octets_ok : forallb octet_ok (map Z.of_nat (seq 0 256)) = true.
Proof. vm_compute. reflexivity. Qed.

Lemma decimal_octet b : is_u8 b ->
  Forall (fun c => isDigit c = true) (decimal b) /\ decimal b <> [] /\ ParseUint (decimal b) = b.
Proof.
  intros Hb. pose proof octets_ok as H. rewrite forallb_forall in H.
  assert (Hi : In b (map Z.of_nat (seq 0 256))).
  { apply in_map_iff. exists (Z.to_nat b). split; [mlia|]. apply in_seq. mlia. }
  specialize (H b Hi). unfold octet_ok in H. rewrite !andb_true_iff, negb_true_iff in H. destruct H as [[H1 H2] H3].
  split; [apply Forall_forall; intros c Hc; rewrite forallb_forall in H1; apply H1; exact Hc|].
  split; [intros E; rewrite bool_decide_eq_false in H2; contradiction | lia].
Qed.

(** A match cannot start in the middle of an octet that is followed by another one. *)
Lemma octet_no_match b r : is_u8 b -> FindStringSubmatch (dot :: decimal b ++ dot :: r) = FindStringSubmatch (dot :: r).
Proof.
  intros Hb. destruct (decimal_octet b Hb) as (Hd & Hne & _).
  change (FindStringSubmatch (dot :: decimal b ++ dot :: r)) with
    (match takeDigits (decimal b ++ dot :: r) with
     | (d :: ds, c' :: _) => if c' =? colon then Some (d :: ds) else FindStringSubmatch (decimal b ++ dot :: r)
     | _ => FindStringSubmatch (decimal b ++ dot :: r)
     end).
  rewrite takeDigits_app by (assumption || reflexivity).
  rewrite digits_skipped by assumption. destruct (decimal b); [contradiction|]. reflexivity.
Qed.

Lemma octet_match b r : is_u8 b -> FindStringSubmatch (dot :: decimal b ++ colon :: r) = Some (decimal b).
Proof.
  intros Hb. destruct (decimal_octet b Hb) as (Hd & Hne & _).
  change (FindStringSubmatch (dot :: decimal b ++ colon :: r)) with
    (match takeDigits (decimal b ++ colon :: r) with
     | (d :: ds, c' :: _) => if c' =? colon then Some (d :: ds) else FindStringSubmatch (decimal b ++ colon :: r)
     | _ => FindStringSubmatch (decimal b ++ colon :: r)
     end).
  rewrite takeDigits_app by (assumption || reflexivity). destruct (decimal b); [contradiction|]. reflexivity.
Qed.

(** The number of a client with an IPv4 address is the last octet of that address. *)
Lemma IPv4_match a b c d port zone : is_u8 a -> is_u8 b -> is_u8 c -> is_u8 d -> zone = ""%string ->
  forall ip, To4 ip = Some [a; b; c; d] ->
  FindStringSubmatch (UDPAddr_String {| ua_IP := ip; ua_Port := port; ua_Zone := zone |}) = Some (decimal d).
Proof.
  intros Ha Hb Hc Hd -> ip Hip.
  assert (E : UDPAddr_String {| ua_IP := ip; ua_Port := port; ua_Zone := "" |} =
    JoinHostPort (decimal a ++ dot :: decimal b ++ dot :: decimal c ++ dot :: decimal d) (decimal port)).
  { unfold UDPAddr_String. cbn [ua_IP ua_Zone ua_Port]. rewrite bool_decide_eq_true_2 by reflexivity.
    destruct ip as [|x ip]; [discriminate|]. unfold IP_String. rewrite Hip. reflexivity. }
  rewrite E. clear E. unfold JoinHostPort.
  assert (Hno : forall x, is_u8 x -> existsb (fun c => (c =? colon) || (c =? 37)) (decimal x) = false).
  { intros x Hx. destruct (decimal_octet x Hx) as (Hds & _). induction Hds as [|y l Hy _ IH]; [reflexivity|].
    cbn [existsb]. rewrite IH, orb_false_r. unfold isDigit, colon in *. lia. }
  replace (existsb _ _) with false by (rewrite !existsb_app; cbn [existsb]; rewrite !existsb_app; cbn [existsb];
    rewrite !existsb_app; cbn [existsb]; rewrite !Hno by assumption; reflexivity).
  repeat (rewrite <- app_assoc; cbn [app]).
  destruct (decimal_octet a Ha) as (Hda & _).
  rewrite digits_skipped, !octet_no_match by assumption. apply octet_match. exact Hd.
Qed.

(** The text of an IPv6 address has no dot. *)
Lemma digit_not_dot n : 0 <= n -> digit n <> dot.
Proof. unfold digit, dot. case_test; lia. Qed.

Lemma format_base_not_dot fuel base n : 0 < base -> Forall (fun c => c <> dot) (format_base fuel base n).
Proof.
  intros Hb. revert n. induction fuel as [|fuel IH]; intros n; [constructor|]. cbn [format_base].
  apply Forall_app. split; [case_test; [constructor | apply IH]|].
  constructor; [|constructor]. apply digit_not_dot. pose proof (Z.mod_pos_bound n base Hb). lia.
Qed.

Lemma intersperse_not_dot l : Forall (Forall (fun c => c <> dot)) l -> Forall (fun c => c <> dot) (intersperse [colon] l).
Proof.
  induction 1 as [|x l Hx Hl IH]; [constructor|]. destruct l as [|y l]; [exact Hx|].
  change (Forall (fun c => c <> dot) (x ++ colon :: intersperse [colon] (y :: l))).
  apply Forall_app. split; [exact Hx|]. constructor; [discriminate | exact IH].
Qed.

Lemma hexes_not_dot l : Forall (fun c => c <> dot) (intersperse [colon] (map hex l)).
Proof.
  apply intersperse_not_dot, Forall_map, Forall_true. intros x. apply format_base_not_dot. lia.
Qed.

Lemma IPv6_no_match ip port : length ip = 16%nat -> To4 ip = None ->
  FindStringSubmatch (UDPAddr_String {| ua_IP := ip; ua_Port := port; ua_Zone := "" |}) = None.
Proof.
  intros Hl Hip. apply no_dot_no_match.
  assert (E : UDPAddr_String {| ua_IP := ip; ua_Port := port; ua_Zone := "" |} = JoinHostPort (IPv6_String ip) (decimal port)).
  { unfold UDPAddr_String. cbn [ua_IP ua_Zone ua_Port]. rewrite bool_decide_eq_true_2 by reflexivity.
    destruct ip as [|x ip]; [discriminate|]. unfold IP_String. rewrite Hip, Hl. reflexivity. }
  rewrite E. clear E.
  assert (Hip6 : Forall (fun c => c <> dot) (IPv6_String ip)).
  { unfold IPv6_String. destruct (longestZeros _ _ _ _ _) as [e0 e1]. case_test; [|apply hexes_not_dot].
    apply Forall_app. split; [apply hexes_not_dot|].
    constructor; [discriminate|]. constructor; [discriminate|]. apply hexes_not_dot. }
  assert (Hport : Forall (fun c => c <> dot) (decimal port)) by (apply format_base_not_dot; lia).
  unfold JoinHostPort. case_match; cbn [app].
  - constructor; [discriminate|]. apply Forall_app. split; [exact Hip6|].
    constructor; [discriminate|]. constructor; [discriminate|]. exact Hport.
  - apply Forall_app. split; [exact Hip6|]. constructor; [discriminate|]. exact Hport.
Qed.

Example addr_text_v4 : UDPAddr_String {| ua_IP := netIPv4 10 0 0 7; ua_Port := 443; ua_Zone := "" |} = string_bytes "10.0.0.7:443".
Proof. vm_compute. reflexivity. Qed.

Example addr_text_v6 :
  UDPAddr_String {| ua_IP := [32; 1; 13; 184; 0; 0; 0; 0; 0; 1; 0; 0; 0; 0; 0; 1]; ua_Port := 6121; ua_Zone := "" |} =
  string_bytes "[2001:db8::1:0:0:1]:6121".
Proof. vm_compute. reflexivity. Qed.
