(* ===== verification/Server.v ===== *)
(** * The server and the client (server.go, client.go)

    The server hands every datagram to the session of its connection, creates the sessions of
    new connections, answers packets of an unknown version, and forgets the sessions that
    ended.  The client does the same for its one connection, and starts anew with another
    version when the server does not speak the one it proposed.  Both see a session through
    the interface [packetHandler]. *)
From S2P Require Import Prelude Qerr ByteOrder Protocol WireStream WireControl PublicHeader HandshakeMessage.
From S2P Require Import CryptoServer Addr Cookie.

(** ** Packets on their way to a session *)

(** The socket of a packet is given by its local address. *)
Record receivedRawPacket : Type := mkRaw {
  raw_rcvPconn : UDPAddr;
  raw_remoteAddr : UDPAddr;
  raw_data : list Z;
  raw_rcvTime : Z;
}.

(** [rcv_raw] is the field [Raw] of the public header. *)
Record receivedPacket : Type := mkRcv {
  rcv_remoteAddr : UDPAddr;
  rcv_publicHeader : PublicHeader;
  rcv_raw : list Z;
  rcv_data : list Z;
  rcv_rcvTime : Z;
  rcv_rcvPconn : UDPAddr;
}.

(** What the server and the client use of a session.  [closeWith] stands for [closeRemote]
    and [Close], with which only the first error counts. *)
Class packetHandler (S : Type) : Type := {
  handlePacket : S -> receivedPacket -> S;
  GetVersion : S -> Z;
  session_RemoteAddr : S -> UDPAddr;
  session_close : S -> option error * bool -> S;
}.

(** A session keeps the version it was made for. *)
Class packetHandlerLaws (S : Type) `{packetHandler S} : Prop := {
  handlePacket_version : forall (s : S) p, GetVersion (handlePacket s p) = GetVersion s;
  session_close_version : forall (s : S) e, GetVersion (session_close s e) = GetVersion s;
}.

(** ** The configuration (interface.go) *)

(** [Epsilon] is a [float64], given by its bits. *)
Record Config : Type := mkConfig {
  Versions : list Z;
  RequestConnectionIDTruncation : bool;
  HandshakeTimeout : Z;
  IdleTimeout : Z;
  AcceptCookie : option (Z -> UDPAddr -> option Cookie -> bool);
  MaxReceiveStreamFlowControlWindow : Z;
  MaxReceiveConnectionFlowControlWindow : Z;
  KeepAlive : bool;
  CacheHandshake : bool;
  CreatePaths : bool;
  SchedulerName : string;
  WeightsFile : string;
  Training : bool;
  Epsilon : Z;
  AllowedCongestion : Z;
  DumpExperiences : bool;
}.

(** [&Config{}]. *)
Definition zeroConfig : Config :=
  mkConfig [] false 0 0 None 0 0 false false false "" "" false 0 0 false.

Definition DefaultHandshakeTimeout : Z := 10 * Second.
Definition DefaultIdleTimeout : Z := 30 * Second.
Definition DefaultMaxReceiveStreamFlowControlWindowServer : Z := 1 * 2 ^ 20.
Definition DefaultMaxReceiveConnectionFlowControlWindowServer : Z := 3 * 2 ^ 19.
Definition DefaultMaxReceiveStreamFlowControlWindowClient : Z := 16 * 2 ^ 20.
Definition DefaultMaxReceiveConnectionFlowControlWindowClient : Z := 24 * 2 ^ 20.

Definition orDefault (x default : Z) : Z := if x =? 0 then default else x.

(** [now] in seconds is an argument of [AcceptCookie], which reads the clock. *)
Definition acceptCookieOf (config : Config) : Z -> UDPAddr -> option Cookie -> bool :=
  match AcceptCookie config with
  | Some f => f
  | None => fun now addr => defaultAcceptCookie IP_String now (AddrUDP (ua_IP addr) (ua_Port addr))
  end.

Definition populateServerConfig (config : option Config) : Config :=
  let config := match config with
    | Some c => c
    | None => mkConfig [] false 0 0 None 0 0 false false true "" "" false 0 0 false
    end in
  mkConfig
    (match Versions config with [] => SupportedVersions | v => v end)
    false
    (orDefault (HandshakeTimeout config) DefaultHandshakeTimeout)
    (orDefault (IdleTimeout config) DefaultIdleTimeout)
    (Some (acceptCookieOf config))
    (orDefault (MaxReceiveStreamFlowControlWindow config) DefaultMaxReceiveStreamFlowControlWindowServer)
    (orDefault (MaxReceiveConnectionFlowControlWindow config) DefaultMaxReceiveConnectionFlowControlWindowServer)
    (KeepAlive config)
    false
    false
    (SchedulerName config) (WeightsFile config) (Training config) (Epsilon config) (AllowedCongestion config)
    (DumpExperiences config).

Definition populateClientConfig (config : option Config) : Config :=
  let config := match config with Some c => c | None => zeroConfig end in
  mkConfig
    (match Versions config with [] => SupportedVersions | v => v end)
    (RequestConnectionIDTruncation config)
    (orDefault (HandshakeTimeout config) DefaultHandshakeTimeout)
    (orDefault (IdleTimeout config) DefaultIdleTimeout)
    None
    (orDefault (MaxReceiveStreamFlowControlWindow config) DefaultMaxReceiveStreamFlowControlWindowClient)
    (orDefault (MaxReceiveConnectionFlowControlWindow config) DefaultMaxReceiveConnectionFlowControlWindowClient)
    (KeepAlive config)
    (CacheHandshake config)
    (CreatePaths config)
    "" "" false 0 0 false.

(** ** The server *)

Module Server.

(** The sessions are in [srv_store], and known by their index in it.  The goroutines of the
    server are lists too: [srv_running] are those that run a session, with the connection
    whose session they remove in the end, [srv_awaiting] those that wait for its handshake,
    [srv_timers] the timers that delete a connection.  [srv_clients] are the keys of
    [multiclients.S2], of which each is the text of a connection ID; [srv_modelID] is
    [TMP_ModelID], [srv_creationTime] is [multiclients.ServerCreationTime].  [srv_accepted]
    are the sessions that [Accept] returned, [srv_written] the datagrams of the server
    itself; [srv_serverError] is the error for which [errorChan] was closed. *)
Record server (S : Type) : Type := mkServer {
  srv_config : Config;
  srv_sessions : gmap Z (option nat);
  srv_store : list S;
  srv_running : list (nat * Z);
  srv_awaiting : list nat;
  srv_timers : list Z;
  srv_sessionQueue : list nat;
  srv_accepted : list nat;
  srv_clients : gset Z;
  srv_modelID : Z;
  srv_creationTime : Z;
  srv_written : list (UDPAddr * list Z);
  srv_serverError : option error;
}.
Arguments mkServer {S}.
Arguments srv_config {S}.
Arguments srv_sessions {S}.
Arguments srv_store {S}.
Arguments srv_running {S}.
Arguments srv_awaiting {S}.
Arguments srv_timers {S}.
Arguments srv_sessionQueue {S}.
Arguments srv_accepted {S}.
Arguments srv_clients {S}.
Arguments srv_modelID {S}.
Arguments srv_creationTime {S}.
Arguments srv_written {S}.
Arguments srv_serverError {S}.

(** [make(chan Session, 5)]. *)
Definition sessionQueueSize : nat := 5.

Section server.
Context {S : Type} `{packetHandler S}.
Implicit Types s : server S.

Definition set_store s (store : list S) : server S :=
  mkServer (srv_config s) (srv_sessions s) store (srv_running s) (srv_awaiting s) (srv_timers s)
    (srv_sessionQueue s) (srv_accepted s) (srv_clients s) (srv_modelID s) (srv_creationTime s) (srv_written s)
    (srv_serverError s).
Definition set_table s (sessions : gmap Z (option nat)) (running : list (nat * Z)) (timers : list Z)
    (clients : gset Z) : server S :=
  mkServer (srv_config s) sessions (srv_store s) running (srv_awaiting s) timers
    (srv_sessionQueue s) (srv_accepted s) clients (srv_modelID s) (srv_creationTime s) (srv_written s)
    (srv_serverError s).
Definition set_queue s (awaiting queue accepted : list nat) : server S :=
  mkServer (srv_config s) (srv_sessions s) (srv_store s) (srv_running s) awaiting (srv_timers s)
    queue accepted (srv_clients s) (srv_modelID s) (srv_creationTime s) (srv_written s)
    (srv_serverError s).
Definition write_to s (addr : UDPAddr) (packet : list Z) : server S :=
  mkServer (srv_config s) (srv_sessions s) (srv_store s) (srv_running s) (srv_awaiting s) (srv_timers s)
    (srv_sessionQueue s) (srv_accepted s) (srv_clients s) (srv_modelID s) (srv_creationTime s)
    (srv_written s ++ [(addr, packet)]) (srv_serverError s).

(** [ListenImpl], once the keys of the server are made. *)
Definition newServer (config : option Config) (modelID creationTime : Z) (clients : gset Z) : server S :=
  mkServer (populateServerConfig config) ∅ [] [] [] [] [] [] clients modelID creationTime [] None.

(** What is done for a new client before its session is made: the number of its model is
    taken from its address. *)
Definition registerClient s (connectionID : Z) (modelID now : Z) : server S :=
  mkServer (srv_config s) (srv_sessions s) (srv_store s) (srv_running s) (srv_awaiting s) (srv_timers s)
    (srv_sessionQueue s) (srv_accepted s) ({[ connectionID ]} ∪ srv_clients s) modelID
    (if IsZero (srv_creationTime s) then now else srv_creationTime s) (srv_written s) (srv_serverError s).

(** The new session gets its goroutines; [key] is the connection ID that was peeked, and
    [connectionID] that of the header. *)
Definition startSession s (key connectionID : Z) (session : S) : server S :=
  let r := length (srv_store s) in
  mkServer (srv_config s) (<[key := Some r]> (srv_sessions s)) (srv_store s ++ [session])
    (srv_running s ++ [(r, connectionID)]) (srv_awaiting s ++ [r]) (srv_timers s)
    (srv_sessionQueue s) (srv_accepted s) (srv_clients s) (srv_modelID s) (srv_creationTime s) (srv_written s)
    (srv_serverError s).

(** [session.handlePacket]. *)
Definition deliver s (r : nat) (p : receivedPacket) : server S :=
  match srv_store s !! r with
  | Some x => set_store s (<[r := handlePacket x p]> (srv_store s))
  | None => s
  end.

Section packets.
(** The function [newSession] of the server: its arguments are the connection to the client,
    the version and the connection ID, and the configuration. *)
Variable newSession : UDPAddr -> UDPAddr -> Z -> Z -> Config -> result S.

(** [writeErr] is the error of the socket, when a packet is written. *)
Definition server_handlePacket (writeErr : option error) (now : Z) s (rcvRawPacket : receivedRawPacket) :
    server S * result unit :=
  let remoteAddr := raw_remoteAddr rcvRawPacket in
  let packet := raw_data rcvRawPacket in
  let written := match writeErr with Some e => Err e | None => Ok tt end in
  match PeekConnectionID PerspectiveClient packet with
  | Panic => (s, Panic)
  | Err e => (s, Err (qerr.Wrap qerr.InvalidPacketHeader e))
  | Ok (connID, r) =>
  match srv_sessions s !! connID with
  | Some None => (s, Ok tt)
  | entry =>
  let session := match entry with Some (Some r) => Some r | _ => None end in
  let version := match session with
    | Some r => match srv_store s !! r with Some x => GetVersion x | None => VersionUnknown end
    | None => VersionUnknown
    end in
  match ParsePublicHeader PerspectiveClient version r with
  | Panic => (s, Panic)
  | Err e =>
      if bool_decide (e = ErrPacketWithUnknownVersion)
      then (write_to s remoteAddr (WritePublicReset connID 0 0), written)
      else (s, Err (qerr.Wrap qerr.InvalidPacketHeader e))
  | Ok (hdr, r) =>
  let raw := take (length packet - length r) packet in
  if ph_ResetFlag hdr
  then (s, match session with
           | Some _ => match ParsePublicReset r with Panic => Panic | _ => Ok tt end
           | None => Ok tt
           end)
  else
  let unsupported := ph_VersionFlag hdr && negb (IsSupportedVersion (Versions (srv_config s)) (ph_VersionNumber hdr)) in
  match session with
  | Some ref =>
      if unsupported then (s, Ok tt)
      else (deliver s ref (mkRcv remoteAddr hdr raw r (raw_rcvTime rcvRawPacket) (raw_rcvPconn rcvRawPacket)), Ok tt)
  | None =>
      if unsupported then
        if zlen packet <? ClientHelloMinimumSize + zlen raw
        then (s, Err (errors_New "dropping small packet with unknown version"))
        else match ComposeVersionNegotiation (ph_ConnectionID hdr) (Versions (srv_config s)) with
             | Ok reply => (write_to s remoteAddr reply, written)
             | Err e => (s, Err e)
             | Panic => (s, Panic)
             end
      else
      let version := ph_VersionNumber hdr in
      if negb (IsSupportedVersion (Versions (srv_config s)) version)
      then (s, Err (errors_New "Server BUG: negotiated version not supported"))
      else
      match FindStringSubmatch (UDPAddr_String remoteAddr) with
      | None => (s, Panic)
      | Some digits =>
          let s := registerClient s (ph_ConnectionID hdr) (ParseUint digits) now in
          match newSession (raw_rcvPconn rcvRawPacket) remoteAddr version (ph_ConnectionID hdr) (srv_config s) with
          | Panic => (s, Panic)
          | Err e => (s, Err e)
          | Ok session =>
              let ref := length (srv_store s) in
              let s := startSession s connID (ph_ConnectionID hdr) session in
              (deliver s ref (mkRcv remoteAddr hdr raw r (raw_rcvTime rcvRawPacket) (raw_rcvPconn rcvRawPacket)), Ok tt)
          end
      end
  end
  end
  end
  end.
End packets.

(** The connection stays in the map, without a session, until its timer fires.  [running] are
    the goroutines that go on. *)
Definition removeConnection s (id : Z) (running : list (nat * Z)) : server S :=
  set_table s (<[id := None]> (srv_sessions s)) running (srv_timers s ++ [id]) (srv_clients s ∖ {[ id ]}).

(** The function that [time.AfterFunc] calls; [timers] are those that are left. *)
Definition deleteConnection s (id : Z) (timers : list Z) : server S :=
  set_table s (delete id (srv_sessions s)) (srv_running s) timers (srv_clients s).

(** The goroutine that waits for the handshake of a session: an event that is not the last
    one changes nothing. *)
Definition handshakeEnds s (awaiting : list nat) (r : nat) (failed : bool) : option (server S) :=
  if failed then Some (set_queue s awaiting (srv_sessionQueue s) (srv_accepted s))
  else if (length (srv_sessionQueue s) <? sessionQueueSize)%nat
  then Some (set_queue s awaiting (srv_sessionQueue s ++ [r]) (srv_accepted s))
  else None.

(** [serve], when the sockets fail, without the call of [Close]. *)
Definition serveFails s (e : error) : server S :=
  mkServer (srv_config s) (srv_sessions s) (srv_store s) (srv_running s) (srv_awaiting s) (srv_timers s)
    (srv_sessionQueue s) (srv_accepted s) (srv_clients s) (srv_modelID s) (srv_creationTime s) (srv_written s) (Some e).

(** Blocks when there is neither a session nor an error; when there are both, [queueFirst]
    says which one is chosen. *)
Definition Accept (queueFirst : bool) s : option (server S * result nat) :=
  match srv_sessionQueue s, srv_serverError s with
  | [], None => None
  | [], Some e => Some (s, Err e)
  | r :: queue, None => Some (set_queue s (srv_awaiting s) queue (srv_accepted s ++ [r]), Ok r)
  | r :: queue, Some e =>
      if queueFirst then Some (set_queue s (srv_awaiting s) queue (srv_accepted s ++ [r]), Ok r) else Some (s, Err e)
  end.

(** [Close]: every session is closed; waiting for them to end, and closing the sockets, is
    left out. *)
Definition closeSession (store : list S) (entry : option nat) : list S :=
  match entry with
  | None => store
  | Some r => match store !! r with
              | Some x => <[r := session_close x (None, false)]> store
              | None => store
              end
  end.
Definition server_Close s : server S :=
  set_store s (fold_left closeSession (map snd (map_to_list (srv_sessions s))) (srv_store s)).
End server.
End Server.

(** ** The client *)

Module Client.

Definition errCloseSessionForNewVersion : error :=
  errors_New "closing session in order to recreate it with a new version".

(** The sessions are in [cl_store]; [cl_session] is the index of the one that is used, or
    [None] for nil.  [cl_chanClosed] tells whether [versionNegotiationChan] is closed. *)
Record client (S : Type) : Type := mkClient {
  cl_config : Config;
  cl_connectionID : Z;
  cl_version : Z;
  cl_versionNegotiated : bool;
  cl_receivedVersionNegotiationPacket : bool;
  cl_chanClosed : bool;
  cl_session : option nat;
  cl_store : list S;
}.
Arguments mkClient {S}.
Arguments cl_config {S}.
Arguments cl_connectionID {S}.
Arguments cl_version {S}.
Arguments cl_versionNegotiated {S}.
Arguments cl_receivedVersionNegotiationPacket {S}.
Arguments cl_chanClosed {S}.
Arguments cl_session {S}.
Arguments cl_store {S}.

(** The text of [%#x]. *)
Definition hexText (n : Z) : string :=
  "0x" +:+ String.string_of_list_ascii (map (fun b => Ascii.ascii_of_N (Z.to_N b)) (format_base 16 16 n)).

Definition publicResetError (rejected : Z) : error :=
  QuicError qerr.PublicReset ("Received a Public Reset for packet number " +:+ hexText rejected).

Section client.
Context {S : Type} `{packetHandler S}.
(** [newClientSession], of the address of the server, the version, the connection ID, the
    configuration and the versions the server offered. *)
Variable newClientSession : UDPAddr -> Z -> Z -> Config -> list Z -> result S.
Implicit Types c : client S.

Definition cl_set_store c (store : list S) : client S :=
  mkClient (cl_config c) (cl_connectionID c) (cl_version c) (cl_versionNegotiated c)
    (cl_receivedVersionNegotiationPacket c) (cl_chanClosed c) (cl_session c) store.
Definition cl_set_version c (version connectionID : Z) : client S :=
  mkClient (cl_config c) connectionID version (cl_versionNegotiated c)
    true (cl_chanClosed c) (cl_session c) (cl_store c).
Definition cl_set_session c (session : option nat) (store : list S) : client S :=
  mkClient (cl_config c) (cl_connectionID c) (cl_version c) (cl_versionNegotiated c)
    (cl_receivedVersionNegotiationPacket c) (cl_chanClosed c) session store.
Definition cl_set_negotiated c : client S :=
  mkClient (cl_config c) (cl_connectionID c) (cl_version c) true
    (cl_receivedVersionNegotiationPacket c) true (cl_session c) (cl_store c).

(** Call a method of the session [r] of the store; of nil, it panics. *)
Definition with_session c (r : option nat) (f : S -> S) : client S * result unit :=
  match r with
  | None => (c, Panic)
  | Some r => match cl_store c !! r with
              | Some x => (cl_set_store c (<[r := f x]> (cl_store c)), Ok tt)
              | None => (c, Panic)
              end
  end.

(** On an error the session is nil. *)
Definition createNewSession c (addr : UDPAddr) (negotiatedVersions : list Z) : client S * result unit :=
  match newClientSession addr (cl_version c) (cl_connectionID c) (cl_config c) negotiatedVersions with
  | Ok x => (cl_set_session c (Some (length (cl_store c))) (cl_store c ++ [x]), Ok tt)
  | Err e => (cl_set_session c None (cl_store c), Err e)
  | Panic => (c, Panic)
  end.

(** The client of [DialNonFWSecure], after [establishSecureConnection] made its first
    session. *)
Definition newClient (config : option Config) (connID : Z) (addr : UDPAddr) : client S * result unit :=
  let config := populateClientConfig config in
  match Versions config with
  | [] => (mkClient config connID 0 false false false None [], Panic)
  | version :: _ => createNewSession (mkClient config connID version false false false None []) addr []
  end.

(** [rand] is the connection ID that [GenerateConnectionID] draws. *)
Definition handlePacketWithVersionFlag (rand : result Z) c (hdr : PublicHeader) (remoteAddr : UDPAddr) :
    client S * result unit :=
  if existsb (fun v => v =? cl_version c) (ph_SupportedVersions hdr) then (c, Ok tt)
  else
  let newVersion := ChooseSupportedVersion (Versions (cl_config c)) (ph_SupportedVersions hdr) in
  if newVersion =? VersionUnsupported
  then (cl_set_version c (cl_version c) (cl_connectionID c), Err (ErrCode qerr.InvalidVersion))
  else
  match rand with
  | Panic => (c, Panic)
  | Err e => (cl_set_version c newVersion 0, Err e)
  | Ok connectionID =>
      let oldSession := cl_session c in
      let c := cl_set_version c newVersion connectionID in
      let '(c, res) := createNewSession c remoteAddr (ph_SupportedVersions hdr) in
      match with_session c oldSession (fun x => session_close x (Some errCloseSessionForNewVersion, false)) with
      | (c, Ok _) => (c, res)
      | (c, _) => (c, Panic)
      end
  end.

Definition client_handlePacket (rand : result Z) c (rcvRawPacket : receivedRawPacket) : client S * result unit :=
  let remoteAddr := raw_remoteAddr rcvRawPacket in
  let packet := raw_data rcvRawPacket in
  match ParsePublicHeader PerspectiveServer (cl_version c) packet with
  | Panic => (c, Panic)
  | Err _ => (c, Ok tt)
  | Ok (hdr, r) =>
  if ph_TruncateConnectionID hdr && negb (RequestConnectionIDTruncation (cl_config c)) then (c, Ok tt)
  else if negb (ph_TruncateConnectionID hdr) && negb (ph_ConnectionID hdr =? cl_connectionID c) then (c, Ok tt)
  else
  let raw := take (length packet - length r) packet in
  if ph_ResetFlag hdr then
    match cl_session c ≫= fun ref => cl_store c !! ref with
    | None => (c, Panic)
    | Some x =>
        if negb (bool_decide (UDPAddr_String (session_RemoteAddr x) = UDPAddr_String remoteAddr)) ||
           negb (ph_ConnectionID hdr =? cl_connectionID c)
        then (c, Ok tt)
        else match ParsePublicReset r with
             | Panic => (c, Panic)
             | Err _ => (c, Ok tt)
             | Ok (pr, _) =>
                 with_session c (cl_session c)
                   (fun x => session_close x (Some (publicResetError (pr_RejectedPacketNumber pr)), true))
             end
    end
  else if (cl_receivedVersionNegotiationPacket c || cl_versionNegotiated c) && ph_VersionFlag hdr then (c, Ok tt)
  else
  let negotiated :=
    if negb (ph_VersionFlag hdr) && negb (cl_versionNegotiated c)
    then if cl_chanClosed c then None else Some (cl_set_negotiated c)
    else Some c in
  match negotiated with
  | None => (c, Panic)
  | Some c =>
  if ph_VersionFlag hdr then
    match handlePacketWithVersionFlag rand c hdr remoteAddr with
    | (c, Err e) => with_session c (cl_session c) (fun x => session_close x (Some e, false))
    | (c, res) => (c, res)
    end
  else
    with_session c (cl_session c) (fun x => handlePacket x
      (mkRcv remoteAddr hdr raw r (raw_rcvTime rcvRawPacket) (raw_rcvPconn rcvRawPacket)))
  end
  end.
End client.
End Client.
