(* ===== verification/ServerProofs.v ===== *)
(** * Correctness of the server

    What becomes of a datagram, and the invariant of the table of the sessions together with
    the goroutines and the timers that work on it. *)
From S2P Require Import Prelude Qerr ByteOrder Protocol WireStream WireControl PublicHeader Frames ParserSafety.
From S2P Require Import HandshakeMessage CryptoServer Addr Cookie Server.
Import Server.

(** ** The header is read the same way twice *)

Lemma PeekConnectionID_reads packetSentBy r id r' : PeekConnectionID packetSentBy r = Ok (id, r') -> r' = r.
Proof. unfold PeekConnectionID, bind. case_match; congruence. Qed.

Lemma PeekConnectionID_parsed version r id r' h r'' :
  PeekConnectionID PerspectiveClient r = Ok (id, r') ->
  ParsePublicHeader PerspectiveClient version r = Ok (h, r'') -> ph_ConnectionID h = id.
Proof.
  destruct r as [|b r]; [discriminate|].
  unfold PeekConnectionID, ParsePublicHeader, rbind, bind, rfail, rret. cbn [ReadByte].
  rewrite !bool_decide_eq_true_2, !andb_true_r by reflexivity.
  rewrite !bool_decide_eq_false_2, !andb_false_r by discriminate.
  destruct (Z.land b 8 =? 0); [discriminate|]. destruct (_ && negb _); [discriminate|].
  destruct (ReadUint64 LittleEndian r) as [[x r1]| |]; [|discriminate..]. intros [= <- _]. cbn [negb andb fst].
  destruct (x =? 0); [discriminate|].
  repeat (case_match; try discriminate; subst); intros [= <- _]; reflexivity.
Qed.

Lemma ParsePublicHeader_first r h r' : ParsePublicHeader PerspectiveClient VersionUnknown r = Ok (h, r') ->
  ph_ResetFlag h = false -> ph_VersionFlag h = true.
Proof.
  destruct r as [|b r]; [discriminate|].
  unfold ParsePublicHeader, rbind, rfail, rret. cbn [ReadByte].
  rewrite !bool_decide_eq_true_2, !andb_true_r by reflexivity.
  rewrite !bool_decide_eq_false_2, !andb_false_r by discriminate.
  change (VersionUnknown =? VersionUnknown) with true. cbn [andb].
  destruct (Z.land b 1 >? 0) eqn:Ev, (Z.land b 2 >? 0) eqn:Er; cbn [orb negb andb];
    repeat (case_match; try discriminate; subst); intros [= <- _]; cbn; congruence.
Qed.

Lemma PeekConnectionID_safe packetSentBy : safe (PeekConnectionID packetSentBy).
Proof.
  intros r Hr. unfold PeekConnectionID.
  set (m := rbind ReadByte _). assert (Hm : safe m).
  { subst m. apply rbind_safe_any; [apply ReadByte_safe|]. intros b. apply if_safe; intros _; [apply rfail_safe_any|].
    apply if_safe; intros _; [apply rret_safe_any | apply (ReadUint64_safe 38)]. }
  specialize (Hm r Hr). unfold bind. destruct (m r) as [[x r']| |]; [|exact I | exact Hm].
  split; [exact I|]. split; [exact Hr | reflexivity].
Qed.

Lemma ReadUint64_le_safe : safe (ReadUint64 LittleEndian).
Proof. apply (ReadUint64_safe 38). Qed.
Lemma ReadUint32_le_safe : safe (ReadUint32 LittleEndian).
Proof. apply (ReadUint32_safe 38). Qed.
#[local] Hint Resolve ReadUint64_le_safe ReadUint32_le_safe : parse.

Lemma readVersions_safe fuel acc : safe (readVersions fuel acc).
Proof.
  revert acc. induction fuel as [|fuel IH]; intros acc r Hr; cbn [readVersions].
  - split; [exact I|]. split; [constructor | cbn; lia].
  - pose proof (ReadUint32_le_safe r Hr) as H32. destruct (ReadUint32 LittleEndian r) as [[v r']| |].
    + destruct H32 as (_ & Hr' & Hl). specialize (IH (acc ++ [VersionTagToNumber v]) r' Hr').
      destruct (readVersions fuel _ r') as [[x r2]| |]; [|exact I | exact IH].
      destruct IH as (_ & H2 & H3). split; [exact I|]. split; [exact H2 | lia].
    + split; [exact I|]. split; [constructor | cbn; lia].
    + destruct H32.
Qed.
#[local] Hint Resolve readVersions_safe : parse.

Lemma ParsePublicHeader_safe packetSentBy version : safe (ParsePublicHeader packetSentBy version).
Proof. unfold ParsePublicHeader. safe_steps. Qed.

Lemma ParsePublicReset_no_panic r : ParsePublicReset r <> Panic.
Proof.
  unfold ParsePublicReset, rbind. pose proof (ParseHandshakeMessage_limits r) as H. revert H.
  destruct (ParseHandshakeMessage r) as [[m r']| |]; [|discriminate | contradiction]. intros _.
  repeat case_match; discriminate.
Qed.

(** ** What the server writes *)

Lemma writeVersions_length vs : exists bytes, writeVersions vs = Ok bytes /\ zlen bytes = 4 * zlen vs.
Proof.
  induction vs as [|v vs (bytes & E & Hl)]; [exists []; split; reflexivity|].
  cbn [writeVersions]. rewrite E. eexists. split; [reflexivity|]. unfold zlen in *. rewrite length_app. cbn. lia.
Qed.

Lemma ComposeVersionNegotiation_length id vs : exists reply,
  ComposeVersionNegotiation id vs = Ok reply /\ zlen reply = 9 + 4 * zlen vs.
Proof.
  destruct (writeVersions_length vs) as (bytes & E & Hl). unfold ComposeVersionNegotiation. rewrite E.
  eexists. split; [reflexivity|]. unfold zlen in *. rewrite length_app. cbn. lia.
Qed.

Lemma WritePublicReset_length id pn nonce : zlen (WritePublicReset id pn nonce) = 49.
Proof. reflexivity. Qed.

Section server.
Context {S : Type} `{packetHandler S}.
Variable newSession : UDPAddr -> UDPAddr -> Z -> Z -> Config -> result S.
Implicit Types s : server S.

(** ** What becomes of a datagram *)

(** The packet as the session gets it. *)
Definition as_received (raw : receivedRawPacket) (hdr : PublicHeader) (body : list Z) : receivedPacket :=
  mkRcv (raw_remoteAddr raw) hdr (take (length (raw_data raw) - length body) (raw_data raw)) body
    (raw_rcvTime raw) (raw_rcvPconn raw).

(** A packet that may start a connection: it belongs to no session that is known and is in a
    version of the server. *)
Definition starts_connection s (raw : receivedRawPacket) (hdr : PublicHeader) (body : list Z) : Prop :=
  srv_sessions s !! ph_ConnectionID hdr = None /\
  ParsePublicHeader PerspectiveClient VersionUnknown (raw_data raw) = Ok (hdr, body) /\
  ph_VersionFlag hdr = true /\ ph_ResetFlag hdr = false /\
  IsSupportedVersion (Versions (srv_config s)) (ph_VersionNumber hdr) = true.

Inductive outcome (now : Z) s (raw : receivedRawPacket) : server S -> result unit -> Prop :=
| Dropped res : res <> Panic -> outcome now s raw s res
| ResetSent id res : srv_sessions s !! id <> Some None -> res <> Panic ->
    PeekConnectionID PerspectiveClient (raw_data raw) = Ok (id, raw_data raw) ->
    outcome now s raw (write_to s (raw_remoteAddr raw) (WritePublicReset id 0 0)) res
| VersionSent hdr body reply res : srv_sessions s !! ph_ConnectionID hdr = None -> res <> Panic ->
    ParsePublicHeader PerspectiveClient VersionUnknown (raw_data raw) = Ok (hdr, body) ->
    IsSupportedVersion (Versions (srv_config s)) (ph_VersionNumber hdr) = false ->
    ComposeVersionNegotiation (ph_ConnectionID hdr) (Versions (srv_config s)) = Ok reply ->
    ClientHelloMinimumSize <= zlen body ->
    (length body < length (raw_data raw))%nat ->
    outcome now s raw (write_to s (raw_remoteAddr raw) reply) res
| Delivered ref x hdr body : srv_sessions s !! ph_ConnectionID hdr = Some (Some ref) ->
    srv_store s !! ref = Some x ->
    ParsePublicHeader PerspectiveClient (GetVersion x) (raw_data raw) = Ok (hdr, body) ->
    ph_ResetFlag hdr = false ->
    outcome now s raw (deliver s ref (as_received raw hdr body)) (Ok tt)
| NoNumber hdr body : starts_connection s raw hdr body ->
    FindStringSubmatch (UDPAddr_String (raw_remoteAddr raw)) = None -> outcome now s raw s Panic
| NotCreated hdr body digits res : starts_connection s raw hdr body ->
    FindStringSubmatch (UDPAddr_String (raw_remoteAddr raw)) = Some digits ->
    (forall x, newSession (raw_rcvPconn raw) (raw_remoteAddr raw) (ph_VersionNumber hdr) (ph_ConnectionID hdr) (srv_config s) <> Ok x) ->
    outcome now s raw (registerClient s (ph_ConnectionID hdr) (ParseUint digits) now) res
| Created hdr body digits x : starts_connection s raw hdr body ->
    FindStringSubmatch (UDPAddr_String (raw_remoteAddr raw)) = Some digits ->
    newSession (raw_rcvPconn raw) (raw_remoteAddr raw) (ph_VersionNumber hdr) (ph_ConnectionID hdr) (srv_config s) = Ok x ->
    outcome now s raw
      (deliver (startSession (registerClient s (ph_ConnectionID hdr) (ParseUint digits) now)
                 (ph_ConnectionID hdr) (ph_ConnectionID hdr) x)
         (length (srv_store s)) (as_received raw hdr body)) (Ok tt).

(** Every session of the table is in the store. *)
Definition refs_ok s : Prop := forall id r, srv_sessions s !! id = Some (Some r) -> (r < length (srv_store s))%nat.

Lemma ParsePublicHeader_body version r h r' : bytes_ok r -> ParsePublicHeader PerspectiveClient version r = Ok (h, r') ->
  (length r' < length r)%nat.
Proof.
  intros Hr E. assert (He : reader_eats (ParsePublicHeader PerspectiveClient version)).
  { unfold ParsePublicHeader. eapply rbind_eats; [apply ReadByte_eats | apply ReadByte_safe|]. safe_steps. }
  specialize (He r Hr). rewrite E in He. apply He.
Qed.

Lemma written_no_panic (writeErr : option error) : match writeErr with Some e => Err e | None => Ok tt end <> @Panic unit.
Proof. destruct writeErr; discriminate. Qed.
#[local] Hint Resolve written_no_panic : core.

Lemma PeekConnectionID_of_parse version r h r' : ParsePublicHeader PerspectiveClient version r = Ok (h, r') ->
  PeekConnectionID PerspectiveClient r = Ok (ph_ConnectionID h, r).
Proof.
  intros Ep. assert (exists id, PeekConnectionID PerspectiveClient r = Ok (id, r)) as [id Epeek].
  { revert Ep. destruct r as [|b r]; [discriminate|].
    unfold PeekConnectionID, ParsePublicHeader, rbind, bind, rfail, rret. cbn [ReadByte].
    rewrite !bool_decide_eq_true_2, !andb_true_r by reflexivity.
    destruct (_ && negb _); [discriminate|]. destruct (Z.land b 8 =? 0); [discriminate|].
    destruct (ReadUint64 LittleEndian r) as [[x r1]| |]; [|discriminate..]. intros _. eexists. reflexivity. }
  rewrite Epeek. rewrite (PeekConnectionID_parsed _ _ _ _ _ _ Epeek Ep). reflexivity.
Qed.

(** A packet that starts a connection gets as far as the number of its client. *)
Lemma started_panics writeErr now s raw hdr body : starts_connection s raw hdr body ->
  FindStringSubmatch (UDPAddr_String (raw_remoteAddr raw)) = None ->
  server_handlePacket newSession writeErr now s raw = (s, Panic).
Proof.
  intros (Hid & Hp & Hv & Hr & Hs) Hf. unfold server_handlePacket.
  rewrite (PeekConnectionID_of_parse _ _ _ _ Hp), Hid. cbv zeta. rewrite Hp, Hr, Hv, Hs. cbn [andb negb].
  rewrite Hf. reflexivity.
Qed.

(** The packet, once its header is parsed for the session of its connection. *)
Lemma known_outcome now s raw ref x hdr body : bytes_ok (raw_data raw) ->
  srv_sessions s !! ph_ConnectionID hdr = Some (Some ref) -> srv_store s !! ref = Some x ->
  ParsePublicHeader PerspectiveClient (GetVersion x) (raw_data raw) = Ok (hdr, body) ->
  forall s' res,
  (if ph_ResetFlag hdr then (s, match ParsePublicReset body with Panic => Panic | _ => Ok tt end)
   else if ph_VersionFlag hdr && negb (IsSupportedVersion (Versions (srv_config s)) (ph_VersionNumber hdr))
   then (s, Ok tt) else (deliver s ref (as_received raw hdr body), Ok tt)) = (s', res) ->
  outcome now s raw s' res.
Proof.
  intros Hb Hid Hx Hp s' res. destruct (ph_ResetFlag hdr) eqn:Hreset; [|case_match].
  - pose proof (ParsePublicReset_no_panic body). intros [= <- <-]. apply Dropped. destruct (ParsePublicReset body); congruence.
  - intros [= <- <-]. apply Dropped. discriminate.
  - intros [= <- <-]. eapply Delivered; eassumption.
Qed.

(** The packet, once its header is parsed and its connection is not known. *)
Lemma unknown_outcome writeErr now s raw hdr body : bytes_ok (raw_data raw) ->
  srv_sessions s !! ph_ConnectionID hdr = None ->
  ParsePublicHeader PerspectiveClient VersionUnknown (raw_data raw) = Ok (hdr, body) ->
  ph_ResetFlag hdr = false ->
  ph_VersionFlag hdr && negb (IsSupportedVersion (Versions (srv_config s)) (ph_VersionNumber hdr)) = true ->
  forall s' res,
  (if zlen (raw_data raw) <? ClientHelloMinimumSize + zlen (take (length (raw_data raw) - length body) (raw_data raw))
   then (s, Err (errors_New "dropping small packet with unknown version"))
   else match ComposeVersionNegotiation (ph_ConnectionID hdr) (Versions (srv_config s)) with
        | Ok reply => (write_to s (raw_remoteAddr raw) reply, match writeErr with Some e => Err e | None => Ok tt end)
        | Err e => (s, Err e)
        | Panic => (s, Panic)
        end) = (s', res) ->
  outcome now s raw s' res.
Proof.
  intros Hb Hid Hp Hreset Huns s' res. apply andb_true_iff in Huns as [_ Huns]. apply negb_true_iff in Huns.
  pose proof (ParsePublicHeader_body _ _ _ _ Hb Hp) as Hl.
  case_test; intros Eq; [injection Eq as <- <-; apply Dropped; discriminate|].
  destruct (ComposeVersionNegotiation_length (ph_ConnectionID hdr) (Versions (srv_config s))) as (reply & Er & _).
  rewrite Er in Eq. injection Eq as <- <-. eapply VersionSent; eauto.
  unfold zlen in *. rewrite length_take in *. lia.
Qed.

Lemma server_outcome writeErr now s raw s' res : refs_ok s -> bytes_ok (raw_data raw) ->
  server_handlePacket newSession writeErr now s raw = (s', res) -> outcome now s raw s' res.
Proof.
  intros Hrefs Hb. unfold server_handlePacket.
  pose proof (PeekConnectionID_safe PerspectiveClient _ Hb) as Hpeek. revert Hpeek.
  destruct (PeekConnectionID PerspectiveClient (raw_data raw)) as [[id r]|e|] eqn:Epeek; [intros _ | intros _ | intros []].
  2:{ intros [= <- <-]. apply Dropped. discriminate. }
  pose proof (PeekConnectionID_reads _ _ _ _ Epeek) as ->.
  destruct (srv_sessions s !! id) as [[ref|]|] eqn:Eid; cbv zeta.
  - destruct (lookup_lt_is_Some_2 (srv_store s) ref) as [x Ex]; [exact (Hrefs _ _ Eid)|]. rewrite Ex.
    pose proof (ParsePublicHeader_safe PerspectiveClient (GetVersion x) _ Hb) as Hparse. revert Hparse.
    destruct (ParsePublicHeader _ _ _) as [[hdr body]|e|] eqn:Ep; [intros _ | intros _ | intros []].
    + pose proof (PeekConnectionID_parsed _ _ _ _ _ _ Epeek Ep) as Eq. subst id.
      eapply known_outcome; eassumption.
    + case_match; intros [= <- <-]; [|apply Dropped; discriminate]. apply ResetSent; [congruence | auto..].
  - intros [= <- <-]. apply Dropped. discriminate.
  - pose proof (ParsePublicHeader_safe PerspectiveClient VersionUnknown _ Hb) as Hparse. revert Hparse.
    destruct (ParsePublicHeader _ _ _) as [[hdr body]|e|] eqn:Ep; [intros _ | intros _ | intros []].
    + pose proof (PeekConnectionID_parsed _ _ _ _ _ _ Epeek Ep) as Eq. subst id.
      destruct (ph_ResetFlag hdr) eqn:Hreset; [intros [= <- <-]; apply Dropped; discriminate|].
      destruct (ph_VersionFlag hdr && _) eqn:Huns; [eapply unknown_outcome; eassumption|].
      pose proof (ParsePublicHeader_first _ _ _ Ep Hreset) as Hv. rewrite Hv in Huns. cbn [andb] in Huns.
      rewrite Huns. apply negb_false_iff in Huns.
      assert (Hst : starts_connection s raw hdr body) by (split_and!; assumption).
      destruct (FindStringSubmatch _) as [digits|] eqn:Ef; [|intros [= <- <-]; eapply NoNumber; eassumption].
      destruct (newSession _ _ _ _ _) as [x|e|] eqn:En; intros [= <- <-].
      * eapply Created; eassumption.
      * eapply NotCreated; [eassumption..|]. intros x. cbn in En. congruence.
      * eapply NotCreated; [eassumption..|]. intros x. cbn in En. congruence.
    + case_match; intros [= <- <-]; [|apply Dropped; discriminate]. apply ResetSent; [congruence | auto..].
Qed.

(** ** The steps of the server and its invariant *)

(** What may happen, in any order: a datagram arrives; the goroutine that runs a session
    ends; a timer fires; the handshake of a session ends; the application accepts a session;
    a session changes by itself; the sockets fail; the server is closed. *)
Inductive server_step s : server S -> Prop :=
| StepPacket writeErr now raw s' res : bytes_ok (raw_data raw) ->
    server_handlePacket newSession writeErr now s raw = (s', res) -> res <> Panic -> server_step s s'
| StepRunReturns r id before after : srv_running s = before ++ (r, id) :: after ->
    server_step s (removeConnection s id (before ++ after))
| StepTimer id before after : srv_timers s = before ++ id :: after ->
    server_step s (deleteConnection s id (before ++ after))
| StepHandshake r before after failed s' : srv_awaiting s = before ++ r :: after ->
    handshakeEnds s (before ++ after) r failed = Some s' -> server_step s s'
| StepAccept queueFirst s' res : Accept queueFirst s = Some (s', res) -> server_step s s'
| StepSession r x x' : srv_store s !! r = Some x -> GetVersion x' = GetVersion x ->
    server_step s (set_store s (<[r := x']> (srv_store s)))
| StepFails e : server_step s (serveFails s e)
| StepClose : server_step s (server_Close s).

Record server_inv s : Prop := {
  inv_live : forall id r, srv_sessions s !! id = Some (Some r) <-> (r, id) ∈ srv_running s;
  inv_closed : forall id, srv_sessions s !! id = Some None <-> id ∈ srv_timers s;
  inv_refs : NoDup (map fst (srv_running s));
  inv_ids : NoDup (map snd (srv_running s));
  inv_timers : NoDup (srv_timers s);
  inv_store : forall r, r ∈ map fst (srv_running s) -> (r < length (srv_store s))%nat;
  inv_versions : Forall (fun x => In (GetVersion x) (Versions (srv_config s))) (srv_store s);
  inv_queued : NoDup (srv_awaiting s ++ srv_sessionQueue s ++ srv_accepted s);
  inv_queue_refs : Forall (fun r => r < length (srv_store s))%nat (srv_awaiting s ++ srv_sessionQueue s ++ srv_accepted s);
  inv_clients : forall id r, srv_sessions s !! id = Some (Some r) -> id ∈ srv_clients s;
}.

Lemma inv_refs_ok s : server_inv s -> refs_ok s.
Proof.
  intros I id r Hid. apply (inv_store _ I). apply (inv_live _ I) in Hid.
  apply list_elem_of_fmap. exists (r, id). split; [reflexivity | exact Hid].
Qed.

(** Changes that leave the table alone. *)
Lemma inv_update s s' :
  srv_config s' = srv_config s -> srv_sessions s' = srv_sessions s -> srv_running s' = srv_running s ->
  srv_timers s' = srv_timers s -> length (srv_store s') = length (srv_store s) ->
  Forall (fun x => In (GetVersion x) (Versions (srv_config s))) (srv_store s') ->
  NoDup (srv_awaiting s' ++ srv_sessionQueue s' ++ srv_accepted s') ->
  srv_awaiting s' ++ srv_sessionQueue s' ++ srv_accepted s' ⊆ srv_awaiting s ++ srv_sessionQueue s ++ srv_accepted s ->
  srv_clients s ⊆ srv_clients s' -> server_inv s -> server_inv s'.
Proof.
  intros E1 E2 E3 E4 E5 Hv Hq Hsub Hc [I1 I2 I3 I4 I5 I6 I7 I8 I9 I10].
  split; rewrite ?E1, ?E2, ?E3, ?E4, ?E5; try assumption.
  - apply Forall_forall. intros r Hr. rewrite Forall_forall in I9. apply I9, list_elem_of_In, Hsub, list_elem_of_In, Hr.
  - intros id r Hid. apply Hc, (I10 _ _ Hid).
Qed.

Lemma inv_set_store s store : length store = length (srv_store s) ->
  Forall (fun x => In (GetVersion x) (Versions (srv_config s))) store -> server_inv s -> server_inv (set_store s store).
Proof.
  intros Hl Hv I. refine (inv_update s (set_store s store) eq_refl eq_refl eq_refl eq_refl Hl Hv _ _ _ I); [apply (inv_queued _ I) | done..].
Qed.

Lemma inv_insert_store s r x x' : srv_store s !! r = Some x -> GetVersion x' = GetVersion x ->
  server_inv s -> server_inv (set_store s (<[r := x']> (srv_store s))).
Proof.
  intros Hx Hv I. apply inv_set_store; [apply length_insert| |exact I].
  apply Forall_insert; [apply (inv_versions _ I)|]. rewrite Hv. exact (Forall_lookup_1 _ _ _ _ (inv_versions _ I) Hx).
Qed.

Context `{!packetHandlerLaws S}.
Hypothesis newSession_version : forall pconn addr v id config x, newSession pconn addr v id config = Ok x -> GetVersion x = v.

Lemma inv_deliver s ref p : server_inv s -> server_inv (deliver s ref p).
Proof.
  intros I. unfold deliver. destruct (srv_store s !! ref) as [x|] eqn:Ex; [|exact I].
  eapply inv_insert_store; [exact Ex | apply handlePacket_version | exact I].
Qed.

Lemma inv_write_to s addr reply : server_inv s -> server_inv (write_to s addr reply).
Proof. intros [I1 I2 I3 I4 I5 I6 I7 I8 I9 I10]. split; assumption. Qed.

Lemma inv_register s id n now : server_inv s -> server_inv (registerClient s id n now).
Proof.
  intros [I1 I2 I3 I4 I5 I6 I7 I8 I9 I10]. split; try assumption. intros id' r' Hid. cbn.
  apply elem_of_union_r, (I10 _ _ Hid).
Qed.

(** A new session, of a connection that is not in the table. *)
Lemma inv_start s id x : srv_sessions s !! id = None -> id ∈ srv_clients s -> In (GetVersion x) (Versions (srv_config s)) ->
  server_inv s -> server_inv (startSession s id id x).
Proof.
  intros Hid Hc Hx [I1 I2 I3 I4 I5 I6 I7 I8 I9 I10].
  assert (Hnew : forall r, (r, id) ∉ srv_running s) by (intros r Hr; apply I1 in Hr; congruence).
  split; cbn; try assumption.
  - intros id' r. rewrite elem_of_app, list_elem_of_singleton, <- I1.
    destruct (decide (id' = id)) as [->|Hne].
    + rewrite lookup_insert_eq, Hid. split; [intros [= <-]; right; reflexivity | intros [?|[= ->]]; [discriminate | reflexivity]].
    + rewrite lookup_insert_ne by congruence. split; [intros ?; left; assumption | intros [?|[= -> ->]]; [assumption | contradiction]].
  - intros id'. rewrite <- I2. destruct (decide (id' = id)) as [->|Hne].
    + rewrite lookup_insert_eq, Hid. split; discriminate.
    + rewrite lookup_insert_ne by congruence. reflexivity.
  - rewrite map_app. apply list.NoDup_app. split_and!; [assumption| |apply NoDup_singleton].
    intros r Hr ->%list_elem_of_singleton. specialize (I6 _ Hr). cbn in I6. lia.
  - rewrite map_app. apply list.NoDup_app. split_and!; [assumption| |apply NoDup_singleton].
    intros id' Hr Hid'. apply list_elem_of_singleton in Hid'. cbn in Hid'. subst id'.
    apply list_elem_of_fmap in Hr as ([r' id'] & Eid & Hr). cbn in Eid. subst id'. apply (Hnew _ Hr).
  - intros r. rewrite map_app, elem_of_app, length_app. cbn [map fst length]. rewrite list_elem_of_singleton.
    intros [Hr| ->]; [specialize (I6 _ Hr)|]; lia.
  - apply Forall_app. split; [assumption|]. constructor; [assumption | constructor].
  - rewrite <- app_assoc. cbn. apply list.NoDup_app in I8 as (N1 & N2 & N3). apply list.NoDup_app. split_and!; [assumption| |].
    + intros r Hr [->|Hr']%elem_of_cons; [|exact (N2 _ Hr Hr')].
      rewrite Forall_app in I9. destruct I9 as [I9 _]. rewrite Forall_forall in I9.
      apply list_elem_of_In in Hr. specialize (I9 _ Hr). lia.
    + apply list.NoDup_cons. split; [|assumption]. intros Hr. rewrite Forall_app in I9. destruct I9 as [_ I9].
      rewrite Forall_forall in I9. apply list_elem_of_In in Hr. specialize (I9 _ Hr). lia.
  - rewrite <- app_assoc, length_app. cbn. rewrite Forall_app in I9 |- *. destruct I9 as [H1 H2].
    split; [revert H1; apply Forall_impl | constructor; [lia|]; revert H2; apply Forall_impl]; intros r Hr; cbn in Hr |- *; lia.
  - intros id' r. destruct (decide (id' = id)) as [->|Hne]; [intros _; exact Hc|].
    rewrite lookup_insert_ne by congruence. apply I10.
Qed.

Lemma inv_removeConnection s r id before after : srv_running s = before ++ (r, id) :: after ->
  server_inv s -> server_inv (removeConnection s id (before ++ after)).
Proof.
  intros E [I1 I2 I3 I4 I5 I6 I7 I8 I9 I10]. rewrite E, map_app in I3, I4. cbn in I3, I4.
  assert (Hold : srv_sessions s !! id = Some (Some r)) by (apply I1; rewrite E; set_solver).
  assert (Hids : id ∉ map snd (before ++ after)).
  { rewrite map_app. apply list.NoDup_app in I4 as (_ & N2 & N3). apply list.NoDup_cons in N3 as [N3 _].
    rewrite elem_of_app. intros [Hb|Ha]; [|exact (N3 Ha)]. apply (N2 _ Hb). left. }
  assert (Hrun : forall p, p ∈ before ++ after -> p ∈ srv_running s) by (intros p; rewrite E; set_solver).
  split; cbn; try assumption.
  - intros id' r'. destruct (decide (id' = id)) as [->|Hne].
    + rewrite lookup_insert_eq. split; [discriminate|]. intros Hr. destruct Hids.
      apply list_elem_of_fmap. exists (r', id). split; [reflexivity | exact Hr].
    + rewrite lookup_insert_ne by congruence. rewrite I1, E. rewrite !elem_of_app, elem_of_cons. naive_solver.
  - intros id'. rewrite elem_of_app, list_elem_of_singleton. destruct (decide (id' = id)) as [->|Hne].
    + rewrite lookup_insert_eq. split; [intros _; right; reflexivity | reflexivity].
    + rewrite lookup_insert_ne by congruence. rewrite I2. naive_solver.
  - rewrite map_app. apply list.NoDup_app in I3 as (N1 & N2 & N3). apply list.NoDup_cons in N3 as [_ N3].
    apply list.NoDup_app. split_and!; [assumption| |assumption]. intros r' Hb Ha. apply (N2 _ Hb). right. exact Ha.
  - rewrite map_app. apply list.NoDup_app in I4 as (N1 & N2 & N3). apply list.NoDup_cons in N3 as [_ N3].
    apply list.NoDup_app. split_and!; [assumption| |assumption]. intros r' Hb Ha. apply (N2 _ Hb). right. exact Ha.
  - apply list.NoDup_app. split_and!; [assumption| |apply NoDup_singleton].
    intros id' Hid' ->%list_elem_of_singleton. apply I2 in Hid'. congruence.
  - intros r' Hr'. apply I6. apply list_elem_of_fmap in Hr' as (p & -> & Hp). apply list_elem_of_fmap. exists p. auto.
  - intros id' r' Hid'. destruct (decide (id' = id)) as [->|Hne]; [rewrite lookup_insert_eq in Hid'; discriminate|].
    rewrite lookup_insert_ne in Hid' by congruence. specialize (I10 _ _ Hid'). set_solver.
Qed.

Lemma inv_deleteConnection s id before after : srv_timers s = before ++ id :: after ->
  server_inv s -> server_inv (deleteConnection s id (before ++ after)).
Proof.
  intros E [I1 I2 I3 I4 I5 I6 I7 I8 I9 I10].
  assert (Hold : srv_sessions s !! id = Some None) by (apply I2; rewrite E; set_solver).
  rewrite E in I5. apply list.NoDup_app in I5 as (N1 & N2 & N3). apply list.NoDup_cons in N3 as [N3 N4].
  split; cbn; try assumption.
  - intros id' r. rewrite <- I1. destruct (decide (id' = id)) as [->|Hne];
      [rewrite lookup_delete_eq, Hold; split; discriminate | rewrite lookup_delete_ne by congruence; reflexivity].
  - intros id'. destruct (decide (id' = id)) as [->|Hne].
    + rewrite lookup_delete_eq. split; [discriminate|]. rewrite elem_of_app. intros [Hb|Ha]; [|contradiction].
      destruct (N2 _ Hb). left.
    + rewrite lookup_delete_ne by congruence. rewrite I2, E, !elem_of_app, elem_of_cons. naive_solver.
  - apply list.NoDup_app. split_and!; [assumption| |assumption]. intros id' Hb Ha. apply (N2 _ Hb). right. exact Ha.
  - intros id' r Hid'. apply lookup_delete_Some in Hid' as [_ Hid']. apply (I10 _ _ Hid').
Qed.

Lemma inv_set_queue s awaiting queue accepted rest :
  awaiting ++ queue ++ accepted ++ rest ≡ₚ srv_awaiting s ++ srv_sessionQueue s ++ srv_accepted s ->
  server_inv s -> server_inv (set_queue s awaiting queue accepted).
Proof.
  intros Hp I. assert (Hn := inv_queued _ I). rewrite <- Hp, !app_assoc in Hn. apply list.NoDup_app in Hn as (Hn & _).
  rewrite <- !app_assoc in Hn.
  refine (inv_update s (set_queue s awaiting queue accepted) eq_refl eq_refl eq_refl eq_refl eq_refl (inv_versions _ I) Hn _ _ I);
    [|done]. cbn. intros r Hr. rewrite <- Hp. set_solver.
Qed.

Lemma inv_handshakeEnds s r before after failed s' : srv_awaiting s = before ++ r :: after ->
  handshakeEnds s (before ++ after) r failed = Some s' -> server_inv s -> server_inv s'.
Proof.
  intros E Eh I. unfold handshakeEnds in Eh. destruct failed; [|case_match; [|discriminate]]; injection Eh as <-.
  - apply (inv_set_queue _ _ _ _ [r]); [|exact I]. rewrite E. solve_Permutation.
  - apply (inv_set_queue _ _ _ _ []); [|exact I]. rewrite E. solve_Permutation.
Qed.

Lemma inv_accept s queueFirst s' res : Accept queueFirst s = Some (s', res) -> server_inv s -> server_inv s'.
Proof.
  intros E I. unfold Accept in E. assert (forall r queue, srv_sessionQueue s = r :: queue ->
    server_inv (set_queue s (srv_awaiting s) queue (srv_accepted s ++ [r]))).
  { intros r queue Eq. apply (inv_set_queue _ _ _ _ []); [|exact I]. rewrite Eq. solve_Permutation. }
  repeat case_match; simplify_eq; auto.
Qed.

Lemma inv_close s : server_inv s -> server_inv (server_Close s).
Proof.
  intros I. unfold server_Close. generalize (map snd (map_to_list (srv_sessions s))). intros entries.
  assert (Hfold : forall store, length store = length (srv_store s) ->
    Forall (fun x => In (GetVersion x) (Versions (srv_config s))) store ->
    let store' := fold_left closeSession entries store in
    length store' = length (srv_store s) /\ Forall (fun x => In (GetVersion x) (Versions (srv_config s))) store').
  { induction entries as [|[r|] entries IH]; intros store Hl Hv; [split; assumption| |apply IH; assumption].
    cbn [fold_left closeSession]. destruct (store !! r) as [x|] eqn:Ex; [|apply IH; assumption].
    apply IH; [rewrite length_insert; exact Hl|]. apply Forall_insert; [exact Hv|].
    rewrite session_close_version. exact (Forall_lookup_1 _ _ _ _ Hv Ex). }
  destruct (Hfold (srv_store s) eq_refl (inv_versions _ I)) as [Hl Hv]. apply inv_set_store; assumption.
Qed.

Lemma inv_packet writeErr now s raw s' res : bytes_ok (raw_data raw) ->
  server_handlePacket newSession writeErr now s raw = (s', res) -> server_inv s -> server_inv s'.
Proof.
  intros Hb E I. apply server_outcome in E; [|apply inv_refs_ok; exact I | exact Hb].
  destruct E as [| | | | |hdr body digits res (Hid & _) |hdr body digits x (Hid & _ & _ & _ & Hv) _ En];
    try exact I; try (apply inv_write_to; exact I); try (apply inv_deliver; exact I).
  - apply inv_register; exact I.
  - apply inv_deliver, inv_start; [exact Hid | cbn; set_solver| |apply inv_register; exact I].
    rewrite (newSession_version _ _ _ _ _ _ En). apply IsSupportedVersion_In, Hv.
Qed.

Lemma server_step_inv s s' : server_step s s' -> server_inv s -> server_inv s'.
Proof.
  intros [] I.
  - eapply inv_packet; eassumption.
  - eapply inv_removeConnection; eassumption.
  - eapply inv_deleteConnection; eassumption.
  - eapply inv_handshakeEnds; eassumption.
  - eapply inv_accept; eassumption.
  - eapply inv_insert_store; eassumption.
  - destruct I. split; assumption.
  - apply inv_close, I.
Qed.

Lemma newServer_inv config modelID creationTime clients : server_inv (newServer config modelID creationTime clients).
Proof.
  assert (Hnil : forall (A : Type) (x : A), x ∉ []) by (intros A x Hx; inversion Hx).
  split; cbn; try apply NoDup_nil_2; try constructor; try discriminate;
    solve [intros Hx; destruct (Hnil _ _ Hx) | intros r Hx; destruct (Hnil _ _ Hx)].
Qed.

Lemma server_steps_inv config modelID creationTime clients s :
  rtc server_step (newServer config modelID creationTime clients) s -> server_inv s.
Proof.
  intros Hs. assert (I := newServer_inv config modelID creationTime clients). revert I.
  induction Hs as [|s1 s2 s3 H12 _ IH]; [tauto|]. intros I. apply IH. eapply server_step_inv; eassumption.
Qed.

(** C32: in whatever order datagrams arrive, sessions end, timers fire, handshakes end and the
    application accepts sessions: a connection has a session in the table exactly as long as
    the goroutine of that session runs, and no session has two connections; a connection whose
    session ended stays in the table without one exactly as long as its one timer runs, so
    that a timer never deletes a session; every session speaks a version of the
    configuration; and a session is accepted at most once. *)
Theorem server_sessions_consistent config modelID creationTime clients s :
  rtc server_step (newServer config modelID creationTime clients) s -> server_inv s.
Proof. apply server_steps_inv. Qed.

(** A datagram makes the server write at most one datagram, to the address it came from, and
    then it changes nothing else: a public reset of 49 bytes, or, when at least 1024 bytes
    follow the header, a version negotiation packet of 9 bytes and 4 for each version.
    A connection that was closed less than a minute ago gets neither. *)
Theorem server_replies_bounded config modelID creationTime clients s writeErr now raw s' res :
  rtc server_step (newServer config modelID creationTime clients) s -> bytes_ok (raw_data raw) ->
  server_handlePacket newSession writeErr now s raw = (s', res) ->
  srv_written s' = srv_written s \/
  exists id reply, s' = write_to s (raw_remoteAddr raw) reply /\ srv_sessions s !! id <> Some None /\
    ((reply = WritePublicReset id 0 0 /\ zlen reply = 49) \/
     (ComposeVersionNegotiation id (Versions (srv_config s)) = Ok reply /\
      zlen reply = 9 + 4 * zlen (Versions (srv_config s)) /\ 1024 < zlen (raw_data raw))).
Proof.
  intros I%server_steps_inv Hb E.
  apply server_outcome in E; [|apply inv_refs_ok; exact I | exact Hb].
  destruct E as [| id res Hid | hdr body reply res Hid _ _ _ Er Hl Hlt | ref x| | |hdr body digits x]; try (left; reflexivity).
  - right. exists id. eexists. split; [reflexivity|]. split; [exact Hid|]. left. split; reflexivity.
  - right. exists (ph_ConnectionID hdr), reply. split; [reflexivity|]. split; [congruence|]. right.
    destruct (ComposeVersionNegotiation_length (ph_ConnectionID hdr) (Versions (srv_config s))) as (reply' & Er' & Hr).
    rewrite Er in Er'. injection Er' as <-. split; [exact Er|]. split; [exact Hr|].
    unfold ClientHelloMinimumSize, zlen in *. lia.
  - left. unfold deliver. case_match; reflexivity.
  - left. unfold deliver. case_match; reflexivity.
Qed.

(** When sessions can be made, the server panics exactly on a packet that starts a connection
    and comes from an address in whose text no dot is followed by digits and a colon: no
    bytes of a packet make it panic otherwise, but every client with an IPv6 address does,
    with its first packet. *)
Theorem server_crashes_on_ipv6 config modelID creationTime clients s writeErr now raw :
  rtc server_step (newServer config modelID creationTime clients) s -> bytes_ok (raw_data raw) ->
  (forall pconn addr v id config, newSession pconn addr v id config <> Panic) ->
  ((server_handlePacket newSession writeErr now s raw).2 = Panic <->
   exists hdr body, starts_connection s raw hdr body /\
     FindStringSubmatch (UDPAddr_String (raw_remoteAddr raw)) = None) /\
  forall ip port hdr body, raw_remoteAddr raw = {| ua_IP := ip; ua_Port := port; ua_Zone := "" |} ->
    length ip = 16%nat -> To4 ip = None -> starts_connection s raw hdr body ->
    server_handlePacket newSession writeErr now s raw = (s, Panic).
Proof.
  intros I%server_steps_inv Hb Hnew. split.
  - destruct (server_handlePacket newSession writeErr now s raw) as [s' res] eqn:E. cbn [snd]. split.
    + intros ->. pose proof E as Eo. apply server_outcome in Eo; [|apply inv_refs_ok; exact I | exact Hb].
      inversion Eo; subst; try contradiction; [eauto|]. exfalso. revert E. unfold server_handlePacket.
      destruct H0 as (Hid & Hp & Hv & Hr & Hs).
      rewrite (PeekConnectionID_of_parse _ _ _ _ Hp), Hid. cbv zeta. rewrite Hp, Hr, Hv, Hs. cbn [andb negb].
      rewrite H1. cbn [srv_config registerClient]. case_match eqn:En; [discriminate..|]. apply Hnew in En. destruct En.
    + intros (hdr & body & Hst & Hf). rewrite (started_panics _ _ _ _ _ _ Hst Hf) in E. congruence.
  - intros ip port hdr body Ea Hl H4 Hst. eapply started_panics; [exact Hst|]. rewrite Ea. apply IPv6_no_match; assumption.
Qed.

(** The number of the model of a client with an IPv4 address is the last octet of it. *)
Theorem model_of_ipv4_client s writeErr now raw a b c d ip port x hdr body :
  raw_remoteAddr raw = {| ua_IP := ip; ua_Port := port; ua_Zone := "" |} -> To4 ip = Some [a; b; c; d] ->
  is_u8 a -> is_u8 b -> is_u8 c -> is_u8 d -> starts_connection s raw hdr body ->
  newSession (raw_rcvPconn raw) (raw_remoteAddr raw) (ph_VersionNumber hdr) (ph_ConnectionID hdr) (srv_config s) = Ok x ->
  exists s', server_handlePacket newSession writeErr now s raw = (s', Ok tt) /\ srv_modelID s' = d /\
    srv_sessions s' !! ph_ConnectionID hdr = Some (Some (length (srv_store s))) /\
    srv_store s' = srv_store s ++ [handlePacket x (as_received raw hdr body)].
Proof.
  intros Ea Hip Ha Hb Hc Hd (Hid & Hp & Hv & Hr & Hs) En. unfold server_handlePacket.
  rewrite (PeekConnectionID_of_parse _ _ _ _ Hp), Hid. cbv zeta. rewrite Hp, Hr, Hv, Hs. cbn [andb negb].
  rewrite Ea, (IPv4_match a b c d port "") by (assumption || reflexivity). rewrite <- Ea.
  cbn [srv_config registerClient]. rewrite En. eexists. split; [reflexivity|].
  unfold deliver. cbn [srv_store startSession registerClient]. rewrite lookup_app_r, Nat.sub_diag by lia.
  cbn [lookup list_lookup]. cbn [srv_modelID srv_sessions srv_store set_store startSession registerClient].
  split; [apply decimal_octet, Hd|]. split; [apply lookup_insert_eq|].
  rewrite <- (Nat.add_0_r (length (srv_store s))) at 1. rewrite insert_app_r. reflexivity.
Qed.
End server.
