(* ===== verification/ClientProofs.v ===== *)
(** * Correctness of the client

    The client changes its version at most once, and only to a version both sides speak; what
    ends its session from outside comes from the server's address. *)
From S2P Require Import Prelude Qerr ByteOrder Protocol WireStream WireControl PublicHeader Frames ParserSafety.
From S2P Require Import HandshakeMessage CryptoServer Addr Cookie Server ServerProofs.
Import Client.

Lemma ChooseSupportedVersion_In ours theirs v : ChooseSupportedVersion ours theirs = v -> v <> VersionUnsupported ->
  In v ours /\ In v theirs.
Proof.
  intros <-. induction ours as [|o ours IH]; [contradiction|]. cbn [ChooseSupportedVersion].
  destruct (offeredVersion theirs o) eqn:E.
  - intros _. split; [left; reflexivity | apply offeredVersion_In, E].
  - intros Hne. destruct (IH Hne) as [H1 H2]. split; [right; exact H1 | exact H2].
Qed.

Section client.
Context {S : Type} `{packetHandler S}.
Variable newClientSession : UDPAddr -> Z -> Z -> Config -> list Z -> result S.
Implicit Types c : client S.

(** A packet arrives, or the session changes by itself. *)
Inductive client_step c : client S -> Prop :=
| ClientPacket rand raw c' res : bytes_ok (raw_data raw) ->
    rand <> Panic -> client_handlePacket newClientSession rand c raw = (c', res) -> client_step c c'
| ClientSession r x x' : cl_store c !! r = Some x -> GetVersion x' = GetVersion x ->
    client_step c (cl_set_store c (<[r := x']> (cl_store c))).

(** At most one version negotiation packet counts: until it arrives there is one session, of
    the version that was proposed first; after it there are at most two. *)
Record client_inv c : Prop := {
  ci_version : In (cl_version c) (Versions (cl_config c));
  ci_chan : cl_chanClosed c = cl_versionNegotiated c;
  ci_session : exists r, cl_session c = Some r /\ (r < length (cl_store c))%nat;
  ci_first : cl_receivedVersionNegotiationPacket c = false ->
             head (Versions (cl_config c)) = Some (cl_version c) /\ length (cl_store c) = 1%nat;
  ci_count : (length (cl_store c) <= 2)%nat;
}.

(** What a step may change. *)
Record client_evolves c c' : Prop := {
  ce_config : cl_config c' = cl_config c;
  ce_store : (length (cl_store c) <= length (cl_store c'))%nat;
  ce_received : cl_receivedVersionNegotiationPacket c = true ->
    cl_receivedVersionNegotiationPacket c' = true /\ cl_version c' = cl_version c /\
    cl_connectionID c' = cl_connectionID c /\ cl_session c' = cl_session c;
  ce_negotiated : cl_versionNegotiated c = true ->
    cl_versionNegotiated c' = true /\ cl_version c' = cl_version c /\
    cl_connectionID c' = cl_connectionID c /\ cl_session c' = cl_session c;
}.

Definition same_negotiation c c' : Prop :=
  cl_config c' = cl_config c /\ cl_connectionID c' = cl_connectionID c /\ cl_version c' = cl_version c /\
  cl_versionNegotiated c' = cl_versionNegotiated c /\
  cl_receivedVersionNegotiationPacket c' = cl_receivedVersionNegotiationPacket c /\
  cl_chanClosed c' = cl_chanClosed c /\ cl_session c' = cl_session c /\ length (cl_store c') = length (cl_store c).

Lemma same_inv c c' : same_negotiation c c' -> client_inv c -> client_inv c'.
Proof.
  intros (E1 & E2 & E3 & E4 & E5 & E6 & E7 & E8) [I1 I2 I3 I4 I5].
  split; rewrite ?E1, ?E2, ?E3, ?E4, ?E5, ?E6, ?E7, ?E8; assumption.
Qed.

Lemma same_evolves c c' : same_negotiation c c' -> client_evolves c c'.
Proof.
  intros (E1 & E2 & E3 & E4 & E5 & E6 & E7 & E8). split; [assumption | lia | |]; intros; split_and!; congruence.
Qed.

Lemma with_session_same c r f c' res : with_session c r f = (c', res) -> same_negotiation c c'.
Proof.
  unfold with_session. repeat case_match; intros [= <- _]; unfold same_negotiation; cbn; rewrite ?length_insert; tauto.
Qed.

Lemma with_session_ok c r f : (r < length (cl_store c))%nat -> exists c', with_session c (Some r) f = (c', Ok tt).
Proof.
  intros Hr. unfold with_session. destruct (lookup_lt_is_Some_2 _ _ Hr) as [x ->]. eexists. reflexivity.
Qed.

Lemma evolves_same c c1 c2 : same_negotiation c1 c2 -> client_evolves c c1 -> client_evolves c c2.
Proof.
  intros (E1 & E2 & E3 & E4 & E5 & E6 & E7 & E8) [I1 I2 I3 I4].
  split; rewrite ?E1, ?E2, ?E3, ?E4, ?E5, ?E6, ?E7; [assumption | lia | assumption..].
Qed.

Section packets.
(** Sessions can be made, and there are random numbers. *)
Hypothesis new_ok : forall addr v id config vs, exists x, newClientSession addr v id config vs = Ok x.

Lemma version_flag_ok rand c hdr addr c' res : rand <> Panic ->
  cl_receivedVersionNegotiationPacket c = false -> cl_versionNegotiated c = false -> client_inv c ->
  handlePacketWithVersionFlag newClientSession rand c hdr addr = (c', res) ->
  res <> Panic /\ client_inv c' /\ client_evolves c c'.
Proof.
  intros Hrand Hr Hn I. unfold handlePacketWithVersionFlag. destruct (existsb _ _).
  { intros [= <- <-]. split; [discriminate|]. split; [exact I|]. apply same_evolves. unfold same_negotiation. tauto. }
  destruct I as [I1 I2 (r & Er & Hlt) I4 I5]. destruct (I4 Hr) as [Hfirst Hone].
  destruct (ChooseSupportedVersion _ _ =? VersionUnsupported) eqn:Ev.
  { intros [= <- <-]. split; [discriminate|]. split; split; cbn; try congruence; eauto; intros; congruence. }
  assert (In (ChooseSupportedVersion (Versions (cl_config c)) (ph_SupportedVersions hdr)) (Versions (cl_config c))).
  { apply (ChooseSupportedVersion_In (Versions (cl_config c)) (ph_SupportedVersions hdr)); [reflexivity | lia]. }
  destruct rand as [id|e|]; [| |contradiction].
  2:{ intros [= <- <-]. split; [discriminate|]. split; split; cbn; try congruence; eauto; intros; congruence. }
  destruct (new_ok addr (ChooseSupportedVersion (Versions (cl_config c)) (ph_SupportedVersions hdr)) id (cl_config c)
              (ph_SupportedVersions hdr)) as [x Ex].
  unfold createNewSession. cbn [cl_version cl_connectionID cl_config cl_set_version cl_store]. rewrite Ex, Er.
  set (c1 := cl_set_session _ _ _).
  destruct (with_session_ok c1 r (fun x => session_close x (Some errCloseSessionForNewVersion, false))) as [c2 E2];
    [cbn; rewrite length_app; cbn; lia|]. rewrite E2. intros [= <- <-]. split; [discriminate|].
  split; [eapply same_inv | eapply evolves_same]; try (eapply with_session_same, E2); subst c1; split; cbn;
    rewrite ?length_app; cbn; try (intros; congruence); try lia; eauto.
  eexists. split; [reflexivity | lia].
Qed.

Lemma client_packet_ok rand c raw c' res : rand <> Panic -> bytes_ok (raw_data raw) -> client_inv c ->
  client_handlePacket newClientSession rand c raw = (c', res) ->
  res <> Panic /\ client_inv c' /\ client_evolves c c'.
Proof.
  intros Hrand Hb I. unfold client_handlePacket.
  assert (Hsame : forall c', same_negotiation c c' -> client_inv c' /\ client_evolves c c')
    by (intros c'' Hc; split; [eapply same_inv; eassumption | apply same_evolves, Hc]).
  assert (Hrefl : same_negotiation c c) by (unfold same_negotiation; tauto).
  destruct (ci_session _ I) as (r & Er & Hlt). destruct (lookup_lt_is_Some_2 _ _ Hlt) as [x Ex].
  pose proof (ParsePublicHeader_safe PerspectiveServer (cl_version c) _ Hb) as Hparse. revert Hparse.
  destruct (ParsePublicHeader _ _ _) as [[hdr body]|e|]; [intros _ | intros _ | intros []].
  2:{ intros [= <- <-]. split; [discriminate | auto]. }
  destruct (_ && _); [intros [= <- <-]; split; [discriminate | auto]|].
  destruct (_ && _); [intros [= <- <-]; split; [discriminate | auto]|]. cbv zeta.
  rewrite Er. cbn [mbind option_bind]. destruct (ph_ResetFlag hdr).
  { rewrite Ex. destruct (_ || _); [intros [= <- <-]; split; [discriminate | auto]|].
    pose proof (ParsePublicReset_no_panic body).
    destruct (ParsePublicReset body) as [[pr r']|e|]; [|intros [= <- <-]; split; [discriminate | auto] | congruence].
    intros E. pose proof (with_session_same _ _ _ _ _ E). split; [|auto].
    destruct (with_session_ok c r (fun x => session_close x (Some (publicResetError (pr_RejectedPacketNumber pr)), true)) Hlt)
      as [c2 E2]. congruence. }
  destruct (_ && ph_VersionFlag hdr) eqn:Eold; [intros [= <- <-]; split; [discriminate | auto]|].
  destruct (ph_VersionFlag hdr) eqn:Ev; cbn [negb andb].
  - rewrite andb_true_r in Eold. apply orb_false_iff in Eold as [Erec Eneg].
    destruct (handlePacketWithVersionFlag _ _ _ _ _) as [c1 res1] eqn:E1.
    destruct (version_flag_ok _ _ _ _ _ _ Hrand Erec Eneg I E1) as (Hp1 & I1 & H1).
    destruct res1 as [[]|e|]; [intros [= <- <-]; auto | | contradiction].
    intros E. pose proof (with_session_same _ _ _ _ _ E) as Hs.
    destruct (ci_session _ I1) as (r1 & Er1 & Hlt1). rewrite Er1 in E.
    destruct (with_session_ok c1 r1 (fun x => session_close x (Some e, false)) Hlt1) as [c2 E2].
    split; [congruence|]. split; [eapply same_inv; eassumption | eapply evolves_same; eassumption].
  - destruct (cl_versionNegotiated c) eqn:Eneg; cbn [negb].
    + intros E. pose proof (with_session_same _ _ _ _ _ E). split; [|auto]. rewrite Er in E.
      destruct (with_session_ok c r (fun x => handlePacket x (mkRcv (raw_remoteAddr raw) hdr
        (take (length (raw_data raw) - length body) (raw_data raw)) body (raw_rcvTime raw) (raw_rcvPconn raw))) Hlt) as [c2 E2].
      congruence.
    + rewrite (ci_chan _ I), Eneg. intros E. pose proof (with_session_same _ _ _ _ _ E) as Hs.
      cbn [cl_session cl_set_negotiated] in E. rewrite Er in E.
      destruct (with_session_ok (cl_set_negotiated c) r (fun x => handlePacket x (mkRcv (raw_remoteAddr raw) hdr
        (take (length (raw_data raw) - length body) (raw_data raw)) body (raw_rcvTime raw) (raw_rcvPconn raw))) Hlt) as [c2 E2].
      split; [congruence|].
      split; [apply (same_inv _ _ Hs) | apply (evolves_same _ _ _ Hs)]; destruct I; split; cbn; auto; try congruence; lia.
Qed.

Lemma client_step_ok c c' : client_step c c' -> client_inv c -> client_inv c' /\ client_evolves c c'.
Proof.
  intros [rand raw c1 res Hb Hrand E | r x x' Ex Hv] I.
  - destruct (client_packet_ok _ _ _ _ _ Hrand Hb I E) as (_ & H1 & H2). split; assumption.
  - assert (Hs : same_negotiation c (cl_set_store c (<[r:=x']> (cl_store c))))
      by (unfold same_negotiation; cbn; rewrite length_insert; tauto).
    split; [eapply same_inv; eassumption | apply same_evolves, Hs].
Qed.

Lemma client_evolves_trans c1 c2 c3 : client_evolves c1 c2 -> client_evolves c2 c3 -> client_evolves c1 c3.
Proof.
  intros [A1 A2 A3 A4] [B1 B2 B3 B4]. split; [congruence | lia | |]; intros Hc.
  - destruct (A3 Hc) as (R & ? & ? & ?). destruct (B3 R) as (? & ? & ? & ?). split_and!; congruence.
  - destruct (A4 Hc) as (R & ? & ? & ?). destruct (B4 R) as (? & ? & ? & ?). split_and!; congruence.
Qed.

Lemma client_steps_ok c c' : rtc client_step c c' -> client_inv c -> client_inv c' /\ client_evolves c c'.
Proof.
  induction 1 as [c|c1 c2 c3 H12 _ IH]; intros I.
  - split; [exact I|]. apply same_evolves. unfold same_negotiation. tauto.
  - destruct (client_step_ok _ _ H12 I) as [I2 E12]. destruct (IH I2) as [I3 E23].
    split; [exact I3 | eapply client_evolves_trans; eassumption].
Qed.

Lemma newClient_inv config connID addr c : newClient newClientSession config connID addr = (c, Ok tt) -> client_inv c.
Proof.
  unfold newClient, createNewSession. destruct (Versions (populateClientConfig config)) as [|v vs] eqn:Ev; [discriminate|].
  cbn [cl_version cl_connectionID cl_config cl_store]. case_match; [|discriminate..]. intros [= <-].
  split; cbn [cl_version cl_chanClosed cl_session cl_store cl_config cl_set_session length app]; rewrite ?Ev; auto using in_eq.
  eexists. split; [reflexivity | lia].
Qed.

(** A client whose first session was made, and whose sessions can be made, never panics on a
    datagram: it does not close the channel of the version negotiation twice and always has a
    session.  Its version is one of its configuration; it starts at most two sessions; and
    once a version negotiation packet was accepted, or any other packet of the server arrived,
    its version, its connection ID and its session are final, whatever arrives later. *)
Theorem client_negotiates_once config connID addr c0 c :
  newClient newClientSession config connID addr = (c0, Ok tt) -> rtc client_step c0 c ->
  In (cl_version c) (Versions (populateClientConfig config)) /\ (length (cl_store c) <= 2)%nat /\
  (forall rand raw, rand <> Panic -> bytes_ok (raw_data raw) ->
     (client_handlePacket newClientSession rand c raw).2 <> Panic) /\
  (forall c', cl_receivedVersionNegotiationPacket c || cl_versionNegotiated c = true -> rtc client_step c c' ->
     cl_version c' = cl_version c /\ cl_connectionID c' = cl_connectionID c /\ cl_session c' = cl_session c).
Proof.
  intros E0 Hs. pose proof (newClient_inv _ _ _ _ E0) as I0. destruct (client_steps_ok _ _ Hs I0) as [I E].
  assert (Hc : cl_config c = populateClientConfig config).
  { rewrite (ce_config _ _ E). clear - E0. unfold newClient, createNewSession in E0.
    destruct (Versions _); [discriminate|]. cbn [cl_config cl_version cl_connectionID] in E0.
    destruct (newClientSession _ _ _ _ _); [|discriminate..]. injection E0 as <-. reflexivity. }
  split; [rewrite <- Hc; apply (ci_version _ I)|]. split; [apply (ci_count _ I)|]. split.
  - intros rand raw Hrand Hb. destruct (client_handlePacket newClientSession rand c raw) as [c1 res] eqn:E1.
    apply (client_packet_ok _ _ _ _ _ Hrand Hb I E1).
  - intros c' Hf Hs'. destruct (client_steps_ok _ _ Hs' I) as [_ E']. apply orb_true_iff in Hf as [Hf|Hf].
    + destruct (ce_received _ _ E' Hf) as (_ & H'). exact H'.
    + destruct (ce_negotiated _ _ E' Hf) as (_ & H'). exact H'.
Qed.
End packets.

(** A public reset changes the client only when it comes from the address the session sends
    to, carries the connection ID in full and parses; then it closes the session and does
    nothing else. *)
Theorem public_reset_checked rand c raw c' res hdr body :
  ParsePublicHeader PerspectiveServer (cl_version c) (raw_data raw) = Ok (hdr, body) -> ph_ResetFlag hdr = true ->
  client_handlePacket newClientSession rand c raw = (c', res) -> c' <> c ->
  exists r x pr rest, cl_session c = Some r /\ cl_store c !! r = Some x /\
    UDPAddr_String (session_RemoteAddr x) = UDPAddr_String (raw_remoteAddr raw) /\
    ph_ConnectionID hdr = cl_connectionID c /\ ParsePublicReset body = Ok (pr, rest) /\
    c' = cl_set_store c (<[r := session_close x (Some (publicResetError (pr_RejectedPacketNumber pr)), true)]> (cl_store c)).
Proof.
  intros Hp Hr. unfold client_handlePacket. rewrite Hp, Hr.
  destruct (_ && _); [intros [= <- _]; contradiction|]. destruct (_ && _); [intros [= <- _]; contradiction|].
  cbv zeta. destruct (cl_session c) as [r|] eqn:Er; cbn [mbind option_bind]; [|intros [= <- _]; contradiction].
  destruct (cl_store c !! r) as [x|] eqn:Ex; [|intros [= <- _]; contradiction].
  destruct (_ || _) eqn:Eaddr; [intros [= <- _]; contradiction|].
  destruct (ParsePublicReset body) as [[pr rest]|e|] eqn:Ep; [|intros [= <- _]; contradiction..].
  unfold with_session. rewrite Ex. intros [= <- _] _. apply orb_false_iff in Eaddr as [Ea Ei].
  apply negb_false_iff in Ea, Ei. apply bool_decide_eq_true in Ea.
  exists r, x, pr, rest. split_and!; [reflexivity | exact Ex | exact Ea | lia | reflexivity | reflexivity].
Qed.

(** When the session for the new version cannot be made, the session of the client is nil, and
    closing it panics. *)
Theorem failed_switch_panics id c raw hdr body r x e :
  ParsePublicHeader PerspectiveServer (cl_version c) (raw_data raw) = Ok (hdr, body) ->
  ph_TruncateConnectionID hdr = false -> ph_ConnectionID hdr = cl_connectionID c -> ph_ResetFlag hdr = false ->
  ph_VersionFlag hdr = true -> cl_receivedVersionNegotiationPacket c = false -> cl_versionNegotiated c = false ->
  cl_session c = Some r -> cl_store c !! r = Some x ->
  ~ In (cl_version c) (ph_SupportedVersions hdr) ->
  ChooseSupportedVersion (Versions (cl_config c)) (ph_SupportedVersions hdr) <> VersionUnsupported ->
  (forall v i, newClientSession (raw_remoteAddr raw) v i (cl_config c) (ph_SupportedVersions hdr) = Err e) ->
  (client_handlePacket newClientSession (Ok id) c raw).2 = Panic.
Proof.
  intros Hp Ht Hid Hr Hv Hrec Hneg Hs Hx Hin Hch Hnew. unfold client_handlePacket.
  rewrite Hp, Ht, Hid, Hr, Hv, Hrec, Hneg, Z.eqb_refl. cbn [andb negb orb]. unfold handlePacketWithVersionFlag.
  replace (existsb _ _) with false.
  2:{ symmetry. apply not_true_iff_false. rewrite existsb_exists. intros (v & Hv' & E). apply Hin.
      apply Z.eqb_eq in E. subst v. exact Hv'. }
  apply Z.eqb_neq in Hch. rewrite Hch. unfold createNewSession.
  cbn [cl_version cl_connectionID cl_config cl_set_version cl_store]. rewrite Hnew, Hs. unfold with_session.
  cbn [cl_store cl_set_session cl_set_version]. rewrite Hx. reflexivity.
Qed.
End client.
