(* ===== verification/EventLoop.v ===== *)
(** * The run loop of a session (session.go, internal/utils/timer.go)

    The session handles one event per turn of its loop: a packet that arrived, a timer, new
    keys, or that something wants to be sent.  After each it sends what there is to send and looks at
    its timeouts.  Packets that cannot be decrypted yet wait for the keys.  When the loop ends the streams
    and the paths are closed, and the peer is told. *)
From S2P Require Import Prelude Qerr ByteOrder Protocol WireStream WireControl AckRanges WireAck PublicHeader.
From S2P Require Import Frames ReceivedPackets Float32 RttStats SentPackets ConnParams FlowControl Congestion.
From S2P Require Import StreamFrameSorter StreamsMap Stream StreamFramer PacketNumberGenerator PacketPacker Path.
From S2P Require Import Scheduler Session Sending HandshakeMessage CryptoServer Addr Cookie Server.

(** ** The timer *)

(** [tm_fires] is the instant from which on there is a value in the channel of the timer; there
    is none once it was read. *)
Record Timer : Type := mkTimer { tm_read : bool; tm_deadline : Z; tm_fires : option Z }.

(** Made at the instant [now], it fires at once. *)
Definition NewTimer (now : Z) : Timer := mkTimer false zeroTime (Some now).

(** A value that was not read is drained. *)
Definition Timer_Reset (t : Timer) (deadline : Z) : Timer :=
  if deadline =? tm_deadline t then t else mkTimer false deadline (Some deadline).

(** After the value was received from the channel. *)
Definition Timer_SetRead (t : Timer) : Timer := mkTimer true (tm_deadline t) None.

Definition Timer_ready (t : Timer) (now : Z) : bool :=
  match tm_fires t with Some at_ => at_ <=? now | None => false end.

(** ** The state of the loop *)

Definition MaxSessionUnprocessedPackets : nat := 2500.
Definition MaxUndecryptablePackets : nat := 10.
Definition PublicResetTimeout : Z := 500 * Millisecond.

(** What is sent on [handshakeChan]: a level, or an error. *)
Inductive handshakeEvent : Type :=
| HandshakeLevel (l : EncryptionLevel)
| HandshakeError (err : option error).

(** [rl_handshakeEvents] is what is in [handshakeChan]; the channel of [aeadChanged] is nil
    once [rl_aeadDone]. *)
Record runLoop (C P : Type) : Type := mkLoop {
  rl_session : session C P;
  rl_config : Config;
  rl_receivedPackets : list receivedPacket;
  rl_undecryptablePackets : list receivedPacket;
  rl_receivedTooManyUndecrytablePacketsTime : Z;
  rl_lastNetworkActivityTime : Z;
  rl_keepAlivePingSent : bool;
  rl_sessionCreationTime : Z;
  rl_timer : Timer;
  rl_pathManagerLaunched : bool;
  rl_handshakeEvents : list handshakeEvent;
  rl_aeadDone : bool;
}.
Arguments mkLoop {C P}.
Arguments rl_session {C P}.
Arguments rl_config {C P}.
Arguments rl_receivedPackets {C P}.
Arguments rl_undecryptablePackets {C P}.
Arguments rl_receivedTooManyUndecrytablePacketsTime {C P}.
Arguments rl_lastNetworkActivityTime {C P}.
Arguments rl_keepAlivePingSent {C P}.
Arguments rl_sessionCreationTime {C P}.
Arguments rl_timer {C P}.
Arguments rl_pathManagerLaunched {C P}.
Arguments rl_handshakeEvents {C P}.
Arguments rl_aeadDone {C P}.

(** An event of the loop: what a case of its [select] receives.  [EvAead None] is the
    closing of [aeadChanged], [EvClose] an error that is sent while the loop waits. *)
Inductive event : Type :=
| EvClose (err : option error) (remote : bool)
| EvTimer
| EvSending
| EvPathTimer (id : Z)
| EvPacket
| EvAead (l : option EncryptionLevel).

Section loop.
Context {C P : Type} `{SendAlgorithm C} `{ConnectionParametersManager P}.
Implicit Types l : runLoop C P.
Implicit Types w : world C.
#[local] Notation M := (@M C P).
#[local] Notation "'bind!' x ':=' m 'in' k" := (mbind m (fun x => k)) (at level 200, x binder, right associativity).
#[local] Notation "m ';!' k" := (mbind m (fun _ => k)) (at level 100, right associativity).

Definition rl_set_session l (s : session C P) : runLoop C P :=
  mkLoop s (rl_config l) (rl_receivedPackets l) (rl_undecryptablePackets l) (rl_receivedTooManyUndecrytablePacketsTime l)
    (rl_lastNetworkActivityTime l) (rl_keepAlivePingSent l) (rl_sessionCreationTime l) (rl_timer l)
    (rl_pathManagerLaunched l) (rl_handshakeEvents l) (rl_aeadDone l).
Definition rl_set_packets l (received undecryptable : list receivedPacket) (tooMany : Z) : runLoop C P :=
  mkLoop (rl_session l) (rl_config l) received undecryptable tooMany
    (rl_lastNetworkActivityTime l) (rl_keepAlivePingSent l) (rl_sessionCreationTime l) (rl_timer l)
    (rl_pathManagerLaunched l) (rl_handshakeEvents l) (rl_aeadDone l).
Definition rl_set_activity l (lastNetworkActivityTime : Z) (keepAlivePingSent : bool) : runLoop C P :=
  mkLoop (rl_session l) (rl_config l) (rl_receivedPackets l) (rl_undecryptablePackets l)
    (rl_receivedTooManyUndecrytablePacketsTime l) lastNetworkActivityTime keepAlivePingSent (rl_sessionCreationTime l)
    (rl_timer l) (rl_pathManagerLaunched l) (rl_handshakeEvents l) (rl_aeadDone l).
Definition rl_set_timer l (t : Timer) : runLoop C P :=
  mkLoop (rl_session l) (rl_config l) (rl_receivedPackets l) (rl_undecryptablePackets l)
    (rl_receivedTooManyUndecrytablePacketsTime l) (rl_lastNetworkActivityTime l) (rl_keepAlivePingSent l)
    (rl_sessionCreationTime l) t (rl_pathManagerLaunched l) (rl_handshakeEvents l) (rl_aeadDone l).
Definition rl_set_launched l : runLoop C P :=
  mkLoop (rl_session l) (rl_config l) (rl_receivedPackets l) (rl_undecryptablePackets l)
    (rl_receivedTooManyUndecrytablePacketsTime l) (rl_lastNetworkActivityTime l) (rl_keepAlivePingSent l)
    (rl_sessionCreationTime l) (rl_timer l) true (rl_handshakeEvents l) (rl_aeadDone l).
Definition rl_set_handshake l (events : list handshakeEvent) (done : bool) : runLoop C P :=
  mkLoop (rl_session l) (rl_config l) (rl_receivedPackets l) (rl_undecryptablePackets l)
    (rl_receivedTooManyUndecrytablePacketsTime l) (rl_lastNetworkActivityTime l) (rl_keepAlivePingSent l)
    (rl_sessionCreationTime l) (rl_timer l) (rl_pathManagerLaunched l) events done.

Definition newLoop (s : session C P) (config : Config) (now : Z) : runLoop C P :=
  mkLoop s config [] [] zeroTime now false now (NewTimer now) false [] false.

Definition handshakeComplete l : bool := ses_handshakeComplete (rl_session l).

Definition idleTimeout l : Z := GetIdleConnectionStateLifetime (ses_params (rl_session l)).

(** The deadline of the timer. *)
Definition deadline l : Z :=
  let deadline :=
    if KeepAlive (rl_config l) && handshakeComplete l && negb (rl_keepAlivePingSent l)
    then timeAdd (rl_lastNetworkActivityTime l) (Z.quot (idleTimeout l) 2)
    else timeAdd (rl_lastNetworkActivityTime l) (idleTimeout l) in
  let deadline :=
    if negb (handshakeComplete l)
    then MinTime deadline (timeAdd (rl_sessionCreationTime l) (HandshakeTimeout (rl_config l))) else deadline in
  if negb (IsZero (rl_receivedTooManyUndecrytablePacketsTime l))
  then MinTime deadline (timeAdd (rl_receivedTooManyUndecrytablePacketsTime l) PublicResetTimeout) else deadline.

Definition maybeResetTimer l : runLoop C P := rl_set_timer l (Timer_Reset (rl_timer l) (deadline l)).

(** [session.handlePacket]: a packet that finds the channel full is dropped. *)
Definition loop_handlePacket l (p : receivedPacket) : runLoop C P :=
  if (length (rl_receivedPackets l) <? MaxSessionUnprocessedPackets)%nat
  then rl_set_packets l (rl_receivedPackets l ++ [p]) (rl_undecryptablePackets l)
         (rl_receivedTooManyUndecrytablePacketsTime l)
  else l.

Definition tryQueueingUndecryptablePacket (now : Z) l (p : receivedPacket) : runLoop C P :=
  if handshakeComplete l then l
  else if (MaxUndecryptablePackets <? length (rl_undecryptablePackets l) + 1)%nat then
    if IsZero (rl_receivedTooManyUndecrytablePacketsTime l)
    then maybeResetTimer (rl_set_packets l (rl_receivedPackets l) (rl_undecryptablePackets l) now)
    else l
  else rl_set_packets l (rl_receivedPackets l) (rl_undecryptablePackets l ++ [p])
         (rl_receivedTooManyUndecrytablePacketsTime l).

Definition tryDecryptingQueuedPackets l : runLoop C P :=
  let l := fold_left loop_handlePacket (rl_undecryptablePackets l) l in
  rl_set_packets l (rl_receivedPackets l) [] (rl_receivedTooManyUndecrytablePacketsTime l).

(** How an iteration of the loop ends: it goes on, [continue]s at once, leaves the loop, or
    panics. *)
Inductive turn : Type :=
| Next l
| Again l
| Break l
| Crash.

Definition on_session l (m : M unit) : option (runLoop C P * result unit) :=
  match m (rl_session l) with
  | None => None
  | Some (s, r) => Some (rl_set_session l s, r)
  end.

(** An operation of the session that cannot fail. *)
Definition run_session l (m : M unit) : option turn :=
  match on_session l m with
  | None => None
  | Some (l, Panic) => Some Crash
  | Some (l, _) => Some (Next l)
  end.

Section turns.
Variable fuel : nat.
Variable Open : AeadOpen.

(** A packet from the channel; [handlePacketImpl] notes the time of the packet first. *)
Definition handleReceived w l (p : receivedPacket) : option turn :=
  let rcvTime := if IsZero (rcv_rcvTime p) then w_now w else rcv_rcvTime p in
  let l := rl_set_activity l rcvTime false in
  match on_session l (handlePacketImpl fuel Open w (rcv_publicHeader p) (rcv_raw p) (rcv_data p) (rcv_rcvPconn p)
                        (rcv_remoteAddr p) rcvTime) with
  | None => None
  | Some (l, Ok _) => Some (Next l)
  | Some (l, Panic) => Some Crash
  | Some (l, Err e) =>
      if isDecryptionFailure e then Some (Again (tryQueueingUndecryptablePacket (w_now w) l p))
      else match on_session l (closeLocal (Some e)) with
           | Some (l, _) => Some (Again l)
           | None => None
           end
  end.

(** The second [select] of the loop; an event that is not there is not received. *)
Definition receive w l (ev : event) : option turn :=
  match ev with
  | EvClose err remote =>
      match on_session l (closeWith err remote ;!
        (bind! pm := mget ses_pathManager in
         match pm with
         | Some _ => mset (fun s => ses_set_paths s (path_close <$> ses_paths s))
         | None => mret tt
         end)) with
      | Some (l, _) => Some (Break l)
      | None => None
      end
  | EvTimer =>
      if Timer_ready (rl_timer l) (w_now w) then Some (Next (rl_set_timer l (Timer_SetRead (rl_timer l)))) else None
  | EvSending =>
      if ses_sendingScheduled (rl_session l)
      then run_session l (mset (fun s => ses_set_signals s (ses_lastPathsFrameSent s) (ses_closeErr s) false (ses_written s)))
      else None
  | EvPathTimer id => Some (Next l)
  | EvPacket =>
      match rl_receivedPackets l with
      | [] => None
      | p :: packets =>
          handleReceived w (rl_set_packets l packets (rl_undecryptablePackets l)
            (rl_receivedTooManyUndecrytablePacketsTime l)) p
      end
  | EvAead None =>
      if rl_aeadDone l then None
      else run_session (rl_set_handshake l (rl_handshakeEvents l) true) (mset ses_set_handshakeComplete)
  | EvAead (Some level) =>
      if rl_aeadDone l then None
      else
      let l := tryDecryptingQueuedPackets l in
      if (length (rl_handshakeEvents l) <? 3)%nat
      then Some (Next (rl_set_handshake l (rl_handshakeEvents l ++ [HandshakeLevel level]) false)) else None
  end.

(** The path manager creates paths as soon as the handshake is complete, and stops when it
    cannot. *)
Definition launchPathManager w : M unit :=
  bind! create := mget ses_createPaths in
  if create : bool then
    bind! err := mtry (createPaths w) in
    match err with
    | Some _ => mset (fun s => ses_set_paths s (path_close <$> ses_paths s))
    | None => mret tt
    end
  else mret tt.

(** What every turn ends with, on the session. *)
Definition checkTimeouts w l : M unit :=
  let now := w_now w in
  (if negb (IsZero (rl_receivedTooManyUndecrytablePacketsTime l)) &&
      (timeAdd (rl_receivedTooManyUndecrytablePacketsTime l) PublicResetTimeout <? now) &&
      negb (length (rl_undecryptablePackets l) =? 0)%nat
   then closeLocal (Some (QuicError qerr.DecryptionFailure "too many undecryptable packets received")) else mret tt) ;!
  (if negb (handshakeComplete l) && (timeSub now (rl_sessionCreationTime l) >=? HandshakeTimeout (rl_config l))
   then closeLocal (Some (QuicError qerr.HandshakeTimeout "Crypto handshake did not complete in time.")) else mret tt) ;!
  (if handshakeComplete l && (timeSub now (rl_lastNetworkActivityTime l) >=? idleTimeout l)
   then closeLocal (Some (QuicError qerr.NetworkIdleTimeout "No recent network activity.")) else mret tt).

Definition sendPathsFrame w l : M unit :=
  bind! version := mget ses_version in
  bind! last := mget ses_lastPathsFrameSent in
  bind! open := mget (fun s => length (sm_openStreams (ses_streams s))) in
  if handshakeComplete l && (version >=? VersionMP) && (timeSub (w_now w) last >=? 200 * Millisecond) && (2 <? open)%nat
  then schedulePathsFrame w else mret tt.

Definition keepAlive w l : bool :=
  KeepAlive (rl_config l) && handshakeComplete l &&
  (timeSub (w_now w) (rl_lastNetworkActivityTime l) >=? Z.quot (idleTimeout l) 2).

Definition launches l : bool :=
  negb (rl_pathManagerLaunched l) && handshakeComplete l && bool_decide (is_Some (ses_pathManager (rl_session l))).

(** The rest of a turn; [timerPth] is the path whose timer fired. *)
Definition endTurn w (ws : list (world C)) (timerPth : option Z) l : option turn :=
  run_session
    (let l := if launches l then rl_set_launched l else l in
     if keepAlive w l then rl_set_activity l (rl_lastNetworkActivityTime l) true else l)
    (match timerPth with Some id => handlePathTimer w id | None => mret tt end ;!
     (if launches l then launchPathManager w else mret tt) ;!
     (if keepAlive w l then mforeach (queueControlFrame (FPing mkPingFrame)) (w_pathOrder w) else mret tt) ;!
     (bind! err := mtry (sendPacket w ws) in
      match err with Some e => closeLocal (Some e) | None => mret tt end) ;!
     checkTimeouts w l ;!
     sendPathsFrame w l ;!
     garbageCollectStreams).

(** One turn of the loop.  When an error closed the session before, the loop is left at once. *)
Definition turn_of w (ws : list (world C)) l (ev : event) : option turn :=
  match ses_closeErr (rl_session l) with
  | Some _ =>
      match on_session l (mset (fun s => ses_set_paths s (path_close <$> ses_paths s))) with
      | Some (l, _) => Some (Break l)
      | None => None
      end
  | None =>
      match receive w (maybeResetTimer l) ev with
      | Some (Next l) => endTurn w ws (match ev with EvPathTimer id => Some id | _ => None end) l
      | other => other
      end
  end.
End turns.

(** ** The end of the loop *)

Definition write_initial w (raw : list Z) : M unit :=
  mset (fun s => ses_set_signals s (ses_lastPathsFrameSent s) (ses_closeErr s) (ses_sendingScheduled s)
          (ses_written s ++ [(InitialPathID, raw)])) ;!
  merr (w_write w InitialPathID raw).

Definition sendPublicReset w (connectionID rejectedPacketNumber : Z) : M unit :=
  bind! _ := get_path InitialPathID in write_initial w (WritePublicReset connectionID rejectedPacketNumber 0).

(** The text of an error as the bytes of the frame. *)
Definition sendConnectionClose w (quicErr : Z * string) : M unit :=
  bind! p := get_path InitialPathID in
  put_path InitialPathID (set_generator_of p (p_packetNumberGenerator p) (GetLeastUnacked (p_sentPacketHandler p))) ;!
  bind! packet := packing w InitialPathID (fun env crypto now rand ps =>
    PackConnectionClose env crypto now rand ps {| cc_ErrorCode := fst quicErr; cc_ReasonPhrase := string_bytes (snd quicErr) |}) in
  match packet with
  | Some packet => write_initial w (pkt_raw packet)
  | None => mpanic
  end.

(** [closePaths] waits until the goroutines of the paths have ended. *)
Definition handleCloseError w (connectionID : Z) (closeErr : option error * bool) : M unit :=
  let err := match fst closeErr with Some e => e | None => ErrCode qerr.PeerGoingAway end in
  let quicErr := qerr.ToQuicError err in
  (fun s => match CloseWithError (fun str => Cancel str (Some (QuicError (fst quicErr) (snd quicErr)))) (ses_streams s)
                    (QuicError (fst quicErr) (snd quicErr)) with
            | Ok m => Some (ses_set_streams s m (ses_fcm s), Ok tt)
            | Err e => Some (s, Err e)
            | Panic => Some (s, Panic)
            end) ;!
  if bool_decide (err = Client.errCloseSessionForNewVersion) then mret tt
  else
  mset (fun s => ses_set_paths s (path_close <$> ses_paths s)) ;!
  if snd closeErr then mret tt
  else if (fst quicErr =? qerr.DecryptionFailure) || bool_decide (err = ErrHOLExperiment) || bool_decide (err = ErrNSTPExperiment)
  then bind! p := get_path InitialPathID in sendPublicReset w connectionID (p_lastRcvdPacketNumber p)
  else sendConnectionClose w quicErr.

(** What [run] does when it left the loop; it returns the error that closed the session. *)
Definition finishRun w (connectionID : Z) l : option (runLoop C P * result (option error)) :=
  match ses_closeErr (rl_session l) with
  | None => None
  | Some closeErr =>
      let l := if handshakeComplete l then l
               else rl_set_handshake l (rl_handshakeEvents l ++ [HandshakeError (fst closeErr)]) (rl_aeadDone l) in
      match on_session l (handleCloseError w connectionID closeErr) with
      | None => None
      | Some (l, Panic) => Some (l, Panic)
      | Some (l, _) => Some (l, Ok (fst closeErr))
      end
  end.

(** ** A session, as the server and the client see it *)

(** The initial path is never removed. *)
#[export] Instance loop_packetHandler : packetHandler (runLoop C P) := {
  handlePacket := loop_handlePacket;
  GetVersion := fun l => ses_version (rl_session l);
  session_RemoteAddr := fun l => match ses_paths (rl_session l) !! InitialPathID with
    | Some p => conn_RemoteAddr (p_conn p)
    | None => {| ua_IP := []; ua_Port := 0; ua_Zone := "" |}
    end;
  session_close := fun l e => match closeWith (fst e) (snd e) (rl_session l) with
    | Some (s, _) => rl_set_session l s
    | None => l
    end;
}.

#[export] Instance loop_packetHandlerLaws : packetHandlerLaws (runLoop C P).
Proof.
  split.
  - intros l p. cbn. unfold loop_handlePacket. case_match; reflexivity.
  - intros l e. cbn. destruct (ses_closeErr (rl_session l)); reflexivity.
Qed.
End loop.
