(* ===== verification/EventLoopProofs.v ===== *)
(** * Correctness of the run loop

    What a session keeps for later is bounded, a session whose time is up is closed by the
    next turn of its loop, and the timer that is to cause that turn is set, but for two cases
    in which it is not. *)
From S2P Require Import Prelude Qerr ByteOrder Protocol WireStream WireControl AckRanges WireAck PublicHeader.
From S2P Require Import Frames ReceivedPackets Float32 RttStats SentPackets ConnParams FlowControl Congestion.
From S2P Require Import StreamFrameSorter StreamsMap Stream StreamFramer PacketNumberGenerator PacketPacker Path.
From S2P Require Import Scheduler Session Sending SessionProofs HandshakeMessage CryptoServer Addr Cookie Server EventLoop.

Section loop.
Context {C P : Type} `{SendAlgorithm C} `{ConnectionParametersManager P}.
Implicit Types l : runLoop C P.
Implicit Types w : world C.
#[local] Notation M := (@M C P).

(** ** Operations that do not fail *)

Definition noerr {A} (m : M A) : Prop := forall s s' e, m s <> Some (s', Err e).

Lemma noerr_ret {A} (a : A) : noerr (mret a).
Proof. intros s s' e. discriminate. Qed.
Lemma noerr_get {A} (f : session C P -> A) : noerr (mget f).
Proof. intros s s' e. discriminate. Qed.
Lemma noerr_set f : noerr (mset f).
Proof. intros s s' e. discriminate. Qed.
Lemma noerr_get_path id : noerr (get_path id).
Proof. intros s s' e. unfold get_path. case_match; discriminate. Qed.
Lemma noerr_put_path id p : noerr (put_path id p).
Proof. apply noerr_set. Qed.
Lemma noerr_bind {A B} (m : M A) (k : A -> M B) : noerr m -> (forall a, noerr (k a)) -> noerr (mbind m k).
Proof.
  intros Hm Hk s s' e. unfold mbind. pose proof (Hm s) as Hs. destruct (m s) as [[s1 [a|e1|]]|]; [apply Hk| |discriminate..].
  intros [= -> ->]. eapply Hs. reflexivity.
Qed.
Lemma noerr_try m : noerr (mtry m).
Proof. intros s s' e. unfold mtry. destruct (m s) as [[s1 [a|e1|]]|]; discriminate. Qed.
Lemma noerr_foreach {A} (f : A -> M unit) xs : (forall a, noerr (f a)) -> noerr (mforeach f xs).
Proof. intros Hf. induction xs; [apply noerr_ret | apply noerr_bind; auto]. Qed.
Lemma noerr_queueControlFrame f id : noerr (queueControlFrame f id).
Proof. intros s s' e. unfold queueControlFrame. repeat case_match; discriminate. Qed.
Lemma noerr_closeLocal e : noerr (closeLocal e).
Proof. apply noerr_set. Qed.
Lemma noerr_schedulePathsFrame w : noerr (schedulePathsFrame w).
Proof. apply noerr_set. Qed.
End loop.

#[local] Hint Resolve noerr_ret noerr_get noerr_set noerr_get_path noerr_put_path noerr_try noerr_queueControlFrame
  noerr_closeLocal noerr_schedulePathsFrame : session.
Ltac noerr_steps :=
  repeat first [ solve [auto with session nocore] | apply noerr_foreach; intros ? | apply noerr_bind; [|intros ?] | case_match ].

Section turns.
Context {C P : Type} `{SendAlgorithm C} `{ConnectionParametersManager P}.
Implicit Types l : runLoop C P.
Implicit Types w : world C.
#[local] Notation M := (@M C P).
#[local] Notation keeps m := (@keeps C P _ m).

Lemma noerr_handlePathTimer w id : noerr (C := C) (P := P) (handlePathTimer w id).
Proof. unfold handlePathTimer. noerr_steps. Qed.
Lemma noerr_launchPathManager w : noerr (C := C) (P := P) (launchPathManager w).
Proof. unfold launchPathManager. noerr_steps. Qed.
#[local] Hint Resolve noerr_handlePathTimer noerr_launchPathManager : session.

Lemma keeps_close_paths : keeps (mset (fun s => ses_set_paths s (path_close <$> ses_paths s))).
Proof.
  apply keeps_set. intros s Hs. apply map_paths_ok; [exact Hs|]. intros p. by constructor.
Qed.
#[local] Hint Resolve keeps_close_paths keeps_handlePacketImpl keeps_sendPacket keeps_handlePathTimer keeps_createPaths
  keeps_garbageCollectStreams : session.

Lemma keeps_launchPathManager w : keeps (launchPathManager w).
Proof. unfold launchPathManager. keeps. Qed.
Lemma keeps_checkTimeouts w l : keeps (checkTimeouts w l).
Proof. unfold checkTimeouts, closeLocal. keeps. Qed.
Lemma keeps_sendPathsFrame w l : keeps (sendPathsFrame w l).
Proof. unfold sendPathsFrame. keeps. Qed.
#[local] Hint Resolve keeps_launchPathManager keeps_checkTimeouts keeps_sendPathsFrame : session.

(** ** A turn *)

(** The reasons for which a turn closes the session. *)
Definition undecryptable_timeout w l : bool :=
  negb (IsZero (rl_receivedTooManyUndecrytablePacketsTime l)) &&
  (timeAdd (rl_receivedTooManyUndecrytablePacketsTime l) PublicResetTimeout <? w_now w) &&
  negb (length (rl_undecryptablePackets l) =? 0)%nat.
Definition handshake_timeout w l : bool :=
  negb (handshakeComplete l) && (timeSub (w_now w) (rl_sessionCreationTime l) >=? HandshakeTimeout (rl_config l)).
Definition idle_timeout w l : bool :=
  handshakeComplete l && (timeSub (w_now w) (rl_lastNetworkActivityTime l) >=? idleTimeout l).
Definition timed_out w l : bool := undecryptable_timeout w l || handshake_timeout w l || idle_timeout w l.

Lemma bind_ok_inv {A B} (m : M A) (k : A -> M B) s s' r : noerr m -> r <> Panic -> mbind m k s = Some (s', r) ->
  exists s1 a, m s = Some (s1, Ok a) /\ k a s1 = Some (s', r).
Proof.
  intros Hm Hr. unfold mbind. pose proof (Hm s) as Hs. destruct (m s) as [[s1 [a|e|]]|]; [eauto| | |discriminate].
  - exfalso. exact (Hs _ _ eq_refl).
  - intros [= _ <-]. contradiction.
Qed.

Lemma closeLocal_closes e s s' r : closeLocal (C := C) (P := P) e s = Some (s', r) -> ses_closeErr s' <> None.
Proof. intros [= <- _]. destruct (ses_closeErr s) eqn:E; cbn; congruence. Qed.

(** The session once one of several conditions closed it. *)
Lemma closes_first (b : bool) e (k : M unit) s s' r : keeps k ->
  keyed s -> mbind (if b then closeLocal e else mret tt) (fun _ => k) s = Some (s', r) -> b = true ->
  ses_closeErr s' <> None.
Proof.
  intros Hk Hs E ->. unfold mbind in E. destruct (closeLocal e s) as [[s1 [[]|e1|]]|] eqn:E1; try discriminate.
  pose proof (closeLocal_closes _ _ _ _ E1) as H1. destruct (keeps_closeWith e false _ _ _ Hs E1) as [Hs1 _].
  destruct (Hk _ _ _ Hs1 E) as [_ Ev]. destruct (ses_closeErr s1) as [x|] eqn:Ex; [|contradiction].
  rewrite (ev_closeErr _ _ Ev _ Ex). discriminate.
Qed.

Lemma checkTimeouts_closes w l s s' r : keyed s -> checkTimeouts w l s = Some (s', r) -> timed_out w l = true ->
  ses_closeErr s' <> None.
Proof.
  intros Hs E Ht. unfold checkTimeouts in E. fold (undecryptable_timeout w l) (handshake_timeout w l) (idle_timeout w l) in E.
  assert (Hk2 : keeps (if idle_timeout w l then closeLocal (Some (QuicError qerr.NetworkIdleTimeout "No recent network activity.")) else mret tt))
    by (unfold closeLocal; keeps).
  assert (Hk1 : keeps (mbind (if handshake_timeout w l
    then closeLocal (Some (QuicError qerr.HandshakeTimeout "Crypto handshake did not complete in time.")) else mret tt)
    (fun _ => if idle_timeout w l then closeLocal (Some (QuicError qerr.NetworkIdleTimeout "No recent network activity.")) else mret tt)))
    by (unfold closeLocal; keeps).
  unfold timed_out in Ht. destruct (undecryptable_timeout w l) eqn:E1.
  { exact (closes_first true _ _ _ _ _ Hk1 Hs E eq_refl). }
  unfold mbind at 1 in E. cbn [mret] in E. destruct (handshake_timeout w l) eqn:E2.
  { exact (closes_first true _ _ _ _ _ Hk2 Hs E eq_refl). }
  unfold mbind in E. cbn [mret] in E. cbn [orb] in Ht. rewrite Ht in E. eapply closeLocal_closes, E.
Qed.

(** What the rest of a turn leaves alone, and that it closes the session in time. *)
Record turn_ended w l l' : Prop := {
  te_config : rl_config l' = rl_config l;
  te_received : rl_receivedPackets l' = rl_receivedPackets l;
  te_undecryptable : rl_undecryptablePackets l' = rl_undecryptablePackets l;
  te_tooMany : rl_receivedTooManyUndecrytablePacketsTime l' = rl_receivedTooManyUndecrytablePacketsTime l;
  te_activity : rl_lastNetworkActivityTime l' = rl_lastNetworkActivityTime l;
  te_created : rl_sessionCreationTime l' = rl_sessionCreationTime l;
  te_timer : rl_timer l' = rl_timer l;
  te_events : rl_handshakeEvents l' = rl_handshakeEvents l;
  te_aeadDone : rl_aeadDone l' = rl_aeadDone l;
  te_ping : rl_keepAlivePingSent l' = rl_keepAlivePingSent l || keepAlive w l;
  te_keyed : keyed (rl_session l');
  te_evolves : evolves (rl_session l) (rl_session l');
  te_timeouts : timed_out w l = true -> ses_closeErr (rl_session l') <> None;
}.

Lemma endTurn_ended w ws timerPth l l' : keyed (rl_session l) -> endTurn w ws timerPth l = Some (Next l') -> turn_ended w l l'.
Proof.
  intros Hs. unfold endTurn, run_session, on_session. cbv zeta.
  set (l0 := if keepAlive w (if launches l then _ else l) then _ else _).
  assert (Hl0 : rl_session l0 = rl_session l) by (subst l0; destruct (launches l); case_match; reflexivity).
  match goal with |- context [mbind ?m ?k (rl_session l0)] => set (body := mbind m k) end.
  rewrite Hl0. destruct (body (rl_session l)) as [[s' r]|] eqn:E; [|discriminate].
  assert (Hr : r <> Panic -> keyed s' /\ evolves (rl_session l) s' /\ (timed_out w l = true -> ses_closeErr s' <> None)).
  { intros Hr. subst body. apply bind_ok_inv in E as (s1 & [] & E1 & E); [|noerr_steps|exact Hr].
    apply bind_ok_inv in E as (s2 & [] & E2 & E); [|noerr_steps|exact Hr].
    apply bind_ok_inv in E as (s3 & [] & E3 & E); [|noerr_steps|exact Hr].
    apply bind_ok_inv in E as (s4 & [] & E4 & E); [|noerr_steps|exact Hr].
    assert (K1 : keyed s1 /\ evolves (rl_session l) s1) by (refine ((_ : keeps _) _ _ _ Hs E1); keeps).
    destruct K1 as [K1 V1].
    assert (K2 : keyed s2 /\ evolves s1 s2) by (refine ((_ : keeps _) _ _ _ K1 E2); keeps). destruct K2 as [K2 V2].
    assert (K3 : keyed s3 /\ evolves s2 s3) by (refine ((_ : keeps _) _ _ _ K2 E3); keeps). destruct K3 as [K3 V3].
    assert (K4 : keyed s4 /\ evolves s3 s4) by (refine ((_ : keeps _) _ _ _ K3 E4); unfold closeLocal; keeps).
    destruct K4 as [K4 V4]. assert (V := transitivity V1 (transitivity V2 (transitivity V3 V4))).
    apply bind_ok_inv in E as (s5 & [] & E5 & E); [|unfold checkTimeouts; noerr_steps|exact Hr].
    destruct (keeps_checkTimeouts _ _ _ _ _ K4 E5) as [K5 V5].
    assert (K6 : keyed s' /\ evolves s5 s') by (refine ((_ : keeps _) _ _ _ K5 E); keeps). destruct K6 as [K6 V6].
    split; [exact K6|]. split; [exact (transitivity V (transitivity V5 V6))|]. intros Ht.
    pose proof (checkTimeouts_closes _ _ _ _ _ K4 E5 Ht) as Hc. destruct (ses_closeErr s5) as [x|] eqn:Ex; [|contradiction].
    rewrite (ev_closeErr _ _ V6 _ Ex). discriminate. }
  intros Eq. assert (Hl' : l' = rl_set_session l0 s' /\ r <> Panic) by (destruct r; split; congruence).
  destruct Hl' as [-> Hp]. destruct (Hr Hp) as (K & V & T). subst l0. clear E Hr Eq.
  assert (Hka : keepAlive w (if launches l then rl_set_launched l else l) = keepAlive w l) by (destruct (launches l); reflexivity).
  rewrite Hka. destruct (keepAlive w l) eqn:Ek, (launches l); constructor; rewrite ?Ek, ?orb_true_r, ?orb_false_r;
    solve [reflexivity | assumption].
Qed.

(** ** What waits is bounded *)

(** The timer fires at its deadline, but for the first time, before it was set. *)
Definition timer_wf (t : Timer) : Prop := forall a, tm_fires t = Some a -> a = tm_deadline t \/ tm_deadline t = zeroTime.

Record loop_bounded l : Prop := {
  lb_received : (length (rl_receivedPackets l) <= MaxSessionUnprocessedPackets)%nat;
  lb_undecryptable : (length (rl_undecryptablePackets l) <= MaxUndecryptablePackets)%nat;
  lb_events : (length (rl_handshakeEvents l) <= 3)%nat;
  lb_keyed : keyed (rl_session l);
  lb_timer : timer_wf (rl_timer l);
}.

Lemma Timer_Reset_wf t d : timer_wf t -> timer_wf (Timer_Reset t d).
Proof. intros Ht. unfold Timer_Reset. case_match; [exact Ht|]. intros a [= <-]. left. reflexivity. Qed.

Lemma maybeResetTimer_bounded l : loop_bounded l -> loop_bounded (maybeResetTimer l).
Proof. intros []. split; try assumption. apply Timer_Reset_wf. assumption. Qed.

Lemma handlePacket_bounded l p : loop_bounded l -> loop_bounded (loop_handlePacket l p).
Proof.
  intros [B1 B2 B3 B4 B5]. unfold loop_handlePacket. destruct (_ <? _)%nat eqn:E; [|split; assumption].
  split; cbn; try assumption. rewrite length_app. cbn. apply Nat.ltb_lt in E. lia.
Qed.

Lemma handlePackets_bounded ps l : loop_bounded l -> loop_bounded (fold_left loop_handlePacket ps l).
Proof. revert l. induction ps as [|p ps IH]; intros l B; [exact B|]. apply IH, handlePacket_bounded, B. Qed.

Lemma tryDecrypting_bounded l : loop_bounded l -> loop_bounded (tryDecryptingQueuedPackets l).
Proof.
  intros B. apply (handlePackets_bounded (rl_undecryptablePackets l)) in B as [B1 B2 B3 B4 B5].
  split; cbn [tryDecryptingQueuedPackets rl_set_packets rl_receivedPackets rl_undecryptablePackets rl_handshakeEvents rl_session];
    try assumption. cbn. lia.
Qed.

Lemma tryQueueing_bounded now l p : loop_bounded l -> loop_bounded (tryQueueingUndecryptablePacket now l p).
Proof.
  intros [B1 B2 B3 B4 B5]. unfold tryQueueingUndecryptablePacket. repeat case_match; try (split; assumption).
  { apply maybeResetTimer_bounded. split; assumption. }
  split; cbn; try assumption. rewrite length_app. cbn. match goal with E : (_ <? _)%nat = false |- _ => apply Nat.ltb_ge in E end. lia.
Qed.

Lemma on_session_keeps l m l' r : keeps m -> keyed (rl_session l) -> on_session l m = Some (l', r) ->
  exists s', l' = rl_set_session l s' /\ keyed s' /\ evolves (rl_session l) s'.
Proof.
  intros Hm Hk. unfold on_session. destruct (m (rl_session l)) as [[s' r']|] eqn:E; [|discriminate].
  intros [= <- _]. destruct (Hm _ _ _ Hk E). eauto.
Qed.

Lemma on_session_bounded l m l' r : keeps m -> loop_bounded l -> on_session l m = Some (l', r) -> loop_bounded l'.
Proof.
  intros Hm B E. destruct (on_session_keeps _ _ _ _ Hm (lb_keyed _ B) E) as (s' & -> & Hk & _). destruct B. split; assumption.
Qed.

Lemma run_session_bounded l m l' : keeps m -> loop_bounded l -> run_session l m = Some (Next l') -> loop_bounded l'.
Proof.
  intros Hm B. unfold run_session. destruct (on_session l m) as [[l1 r]|] eqn:E; [|discriminate].
  intros Eq. assert (l' = l1) as -> by (destruct r; congruence). eapply on_session_bounded; eassumption.
Qed.

Lemma set_activity_bounded l t b : loop_bounded l -> loop_bounded (rl_set_activity l t b).
Proof. intros []. split; assumption. Qed.

Definition goes_on (t : turn) (l' : runLoop C P) : Prop := t = Next l' \/ t = Again l'.

Lemma handleReceived_bounded fuel Open w l p t l' : loop_bounded l ->
  handleReceived fuel Open w l p = Some t -> goes_on t l' -> loop_bounded l'.
Proof.
  intros B E Hg. unfold handleReceived in E. cbv zeta in E. apply (set_activity_bounded _ (if IsZero (rcv_rcvTime p) then w_now w else rcv_rcvTime p) false) in B.
  destruct (on_session _ _) as [[l1 r]|] eqn:E1; [|discriminate].
  apply on_session_bounded in E1; [|auto with session | exact B].
  destruct r as [[]|e|]; [| |injection E as <-; destruct Hg; discriminate].
  - injection E as <-. destruct Hg as [[= <-]|Hg]; [exact E1 | discriminate].
  - destruct (isDecryptionFailure e).
    + injection E as <-. destruct Hg as [Hg|[= <-]]; [discriminate|]. apply tryQueueing_bounded, E1.
    + destruct (on_session l1 _) as [[l2 r2]|] eqn:E2; [|discriminate]. injection E as <-.
      destruct Hg as [Hg|[= <-]]; [discriminate|]. eapply on_session_bounded; [|exact E1 | exact E2]. unfold closeLocal. keeps.
Qed.

Lemma receive_bounded fuel Open w l ev t l' : loop_bounded l -> receive fuel Open w l ev = Some t -> goes_on t l' -> loop_bounded l'.
Proof.
  intros B E Hg. destruct ev as [err remote| | |id| |[level|]]; cbn [receive] in E.
  - destruct (on_session _ _) as [[l1 r]|]; [|discriminate]. injection E as <-. destruct Hg; discriminate.
  - destruct (Timer_ready _ _); [|discriminate]. injection E as <-. destruct Hg as [[= <-]|Hg]; [|discriminate].
    destruct B. split; try assumption. intros a [=].
  - destruct (ses_sendingScheduled _); [|discriminate]. destruct Hg as [-> | ->].
    + eapply run_session_bounded; [|exact B | exact E]. apply keeps_update. intros s0. split_and!; done.
    + unfold run_session in E. repeat case_match; discriminate.
  - injection E as <-. destruct Hg as [[= <-]|Hg]; [exact B | discriminate].
  - destruct (rl_receivedPackets l) as [|p ps] eqn:Ep; [discriminate|].
    eapply handleReceived_bounded; [|exact E | exact Hg]. destruct B as [B1 B2 B3 B4 B5]. split; try assumption.
    rewrite Ep in B1. cbn [length rl_set_packets rl_receivedPackets] in *. lia.
  - destruct (rl_aeadDone l); [discriminate|]. apply tryDecrypting_bounded in B. destruct (_ <? 3)%nat eqn:E3; [|discriminate].
    injection E as <-. destruct Hg as [[= <-]|Hg]; [|discriminate]. destruct B as [B1 B2 B3 B4 B5].
    split; try assumption. apply Nat.ltb_lt in E3.
    change (length (rl_handshakeEvents (tryDecryptingQueuedPackets l) ++ [HandshakeLevel level]) <= 3)%nat.
    rewrite length_app. cbn [length]. lia.
  - destruct (rl_aeadDone l); [discriminate|]. destruct Hg as [-> | ->].
    + assert (B' : loop_bounded (rl_set_handshake l (rl_handshakeEvents l) true)) by (destruct B; split; assumption).
      eapply run_session_bounded; [|exact B' | exact E]. apply keeps_update. intros s0. split_and!; done.
    + unfold run_session in E. repeat case_match; discriminate.
Qed.

(** A turn of the loop, or what others do to the session: a packet arrives, it is closed, an
    event of the handshake is read. *)
Inductive loop_step : runLoop C P -> runLoop C P -> Prop :=
| LoopTurn fuel Open w ws ev l t l' : turn_of fuel Open w ws l ev = Some t -> goes_on t l' -> loop_step l l'
| LoopPacket p l : loop_step l (handlePacket l p)
| LoopClose e l : loop_step l (session_close l e)
| LoopRead e events l : rl_handshakeEvents l = e :: events -> loop_step l (rl_set_handshake l events (rl_aeadDone l)).

Lemma loop_step_bounded l l' : loop_step l l' -> loop_bounded l -> loop_bounded l'.
Proof.
  intros [fuel Open w ws ev l0 t l1 E Hg|p l0|e l0|e events l0 Ee] B.
  - unfold turn_of in E. destruct (ses_closeErr (rl_session l0)).
    { destruct (on_session _ _) as [[l2 r]|]; [|discriminate]. injection E as <-. destruct Hg; discriminate. }
    apply maybeResetTimer_bounded in B. destruct (receive _ _ _ _ _) as [t1|] eqn:E1; [|discriminate].
    destruct t1 as [l2|l2|l2|]; [|injection E as <-; eapply receive_bounded; eassumption | injection E as <-; destruct Hg; discriminate..].
    assert (B2 : loop_bounded l2) by (eapply receive_bounded; [exact B | exact E1 | left; reflexivity]).
    assert (E' : endTurn w ws (match ev with EvPathTimer id => Some id | _ => None end) l2 = Some (Next l1)).
    { unfold endTurn, run_session in E |- *. destruct (on_session _ _) as [[l3 r]|]; [|discriminate].
      destruct r; injection E as <-; destruct Hg as [[= <-]|Hg]; congruence. }
    destruct (endTurn_ended _ _ _ _ _ (lb_keyed _ B2) E') as [T1 T2 T3 T4 T5 T6 T7 T8 T9 T10 T11 T12 T13].
    destruct B2 as [B21 B22 B23 B24 B25]. split; rewrite ?T2, ?T3, ?T7, ?T8; assumption.
  - apply handlePacket_bounded, B.
  - destruct B as [B1 B2 B3 B4 B5]. split; try assumption. exact (proj1 (keeps_closeWith (fst e) (snd e) _ _ _ B4 eq_refl)).
  - destruct B as [B1 B2 B3 B4 B5]. split; try assumption. rewrite Ee in B3. cbn [length rl_set_handshake rl_handshakeEvents] in *. lia.
Qed.

Lemma loop_steps_bounded s config now l : keyed s -> rtc loop_step (newLoop s config now) l -> loop_bounded l.
Proof.
  intros Hs Hl. assert (B0 : loop_bounded (newLoop s config now))
    by (split; cbn; [lia..|exact Hs | intros a [= <-]; right; reflexivity]). revert B0.
  induction Hl as [|l1 l2 l3 H12 _ IH]; [tauto|]. intros B. apply IH. eapply loop_step_bounded; eassumption.
Qed.

(** C34: whatever packets a peer sends, and in whatever order things happen: a session never holds
    more than 2500 packets that it did not handle yet, nor more than 10 that it cannot decrypt. *)
Theorem session_queues_bounded s config now l : keyed s -> rtc loop_step (newLoop s config now) l ->
  (length (rl_receivedPackets l) <= 2500)%nat /\ (length (rl_undecryptablePackets l) <= 10)%nat /\
  (length (rl_handshakeEvents l) <= 3)%nat.
Proof.
  intros Hs Hl. destruct (loop_steps_bounded _ _ _ _ Hs Hl) as [B1 B2 B3 _ _]. split_and!; assumption.
Qed.

(** ** Timeouts *)

Lemma handlePackets_session ps l : rl_session (fold_left loop_handlePacket ps l) = rl_session l.
Proof.
  revert l. induction ps as [|p ps IH]; intros l; [reflexivity|]. cbn [fold_left]. rewrite IH.
  unfold loop_handlePacket. case_match; reflexivity.
Qed.

Lemma run_session_evolves l m l' : keeps m -> keyed (rl_session l) -> run_session l m = Some (Next l') ->
  keyed (rl_session l') /\ evolves (rl_session l) (rl_session l').
Proof.
  intros Hm Hk. unfold run_session. destruct (on_session l m) as [[l1 r]|] eqn:E; [|discriminate].
  intros Eq. assert (l' = l1) as -> by (destruct r; congruence).
  destruct (on_session_keeps _ _ _ _ Hm Hk E) as (s' & -> & H1 & H2). split; assumption.
Qed.

Lemma receive_evolves fuel Open w l ev l' : keyed (rl_session l) -> receive fuel Open w l ev = Some (Next l') ->
  keyed (rl_session l') /\ evolves (rl_session l) (rl_session l').
Proof.
  intros Hk E. destruct ev as [err remote| | |id| |[level|]]; cbn [receive] in E.
  - destruct (on_session _ _) as [[l1 r]|]; discriminate.
  - destruct (Timer_ready _ _); [|discriminate]. injection E as <-. split; [exact Hk | reflexivity].
  - destruct (ses_sendingScheduled _); [|discriminate]. eapply run_session_evolves; [|exact Hk | exact E].
    apply keeps_update. intros s0. split_and!; done.
  - injection E as <-. split; [exact Hk | reflexivity].
  - destruct (rl_receivedPackets l) as [|p ps]; [discriminate|]. unfold handleReceived in E.
    destruct (on_session _ _) as [[l1 r]|] eqn:E1; [|discriminate].
    apply on_session_keeps in E1 as (s' & -> & Hk' & Hev); [|auto with session | exact Hk].
    destruct r as [[]|e|]; [injection E as <-; split; assumption | |discriminate].
    destruct (isDecryptionFailure e); [discriminate|]. destruct (on_session _ _) as [[l2 r2]|]; discriminate.
  - destruct (rl_aeadDone l); [discriminate|]. destruct (_ <? 3)%nat; [|discriminate]. injection E as <-.
    assert (Es : rl_session (tryDecryptingQueuedPackets l) = rl_session l)
      by exact (handlePackets_session (rl_undecryptablePackets l) l).
    change (keyed (rl_session (tryDecryptingQueuedPackets l)) /\ evolves (rl_session l) (rl_session (tryDecryptingQueuedPackets l))).
    rewrite Es. split; [exact Hk | reflexivity].
  - destruct (rl_aeadDone l); [discriminate|]. eapply run_session_evolves in E; [exact E | |exact Hk].
    apply keeps_update. intros s0. split_and!; done.
Qed.

(** A turn that goes on, as its two parts. *)
Lemma turn_parts fuel Open w ws l ev l' : turn_of fuel Open w ws l ev = Some (Next l') ->
  ses_closeErr (rl_session l) = None /\
  exists l1, receive fuel Open w (maybeResetTimer l) ev = Some (Next l1) /\
    endTurn w ws (match ev with EvPathTimer id => Some id | _ => None end) l1 = Some (Next l').
Proof.
  unfold turn_of. destruct (ses_closeErr (rl_session l)); [destruct (on_session _ _) as [[l2 r]|]; discriminate|].
  destruct (receive _ _ _ _ _) as [[l1|l1|l1|]|]; try discriminate. intros E. split; [reflexivity|]. exists l1. split; [reflexivity | exact E].
Qed.

Lemma turn_ended_of fuel Open w ws l ev l' : keyed (rl_session l) -> turn_of fuel Open w ws l ev = Some (Next l') ->
  exists l1, receive fuel Open w (maybeResetTimer l) ev = Some (Next l1) /\
    evolves (rl_session l) (rl_session l1) /\ turn_ended w l1 l'.
Proof.
  intros Hk E. apply turn_parts in E as (_ & l1 & E1 & E2). exists l1. split; [exact E1|].
  destruct (receive_evolves _ _ _ _ _ _ (Hk : keyed (rl_session (maybeResetTimer l))) E1) as [Hk1 Hev].
  split; [exact Hev|]. eapply endTurn_ended; eassumption.
Qed.

Lemma complete_mono l l' : evolves (rl_session l) (rl_session l') -> handshakeComplete l = true -> handshakeComplete l' = true.
Proof. intros Hev. apply (ev_complete _ _ Hev). Qed.

Lemma idleTimeout_same l l' : evolves (rl_session l) (rl_session l') -> idleTimeout l' = idleTimeout l.
Proof. intros Hev. unfold idleTimeout. rewrite (ev_params _ _ Hev). reflexivity. Qed.

(** The turn takes a packet that cannot be decrypted. *)
Definition undecryptable_turn fuel Open w l (ev : event) : Prop :=
  exists p packets s e, ev = EvPacket /\ rl_receivedPackets l = p :: packets /\
    handlePacketImpl fuel Open w (rcv_publicHeader p) (rcv_raw p) (rcv_data p) (rcv_rcvPconn p) (rcv_remoteAddr p)
      (if IsZero (rcv_rcvTime p) then w_now w else rcv_rcvTime p) (rl_session l) = Some (s, Err e) /\
    isDecryptionFailure e = true.

(** The loop after a turn that did not panic. *)
Definition loop_after (t : turn) : option (runLoop C P) :=
  match t with Next l | Again l | Break l => Some l | Crash => None end.

Lemma receive_leaves fuel Open w l ev t l' : receive fuel Open w l ev = Some t -> loop_after t = Some l' ->
  t = Next l' \/ undecryptable_turn fuel Open w l ev \/ ses_closeErr (rl_session l') <> None.
Proof.
  destruct ev as [err remote| | |id| |[lvl|]]; cbn [receive]; intros E Hl.
  - right. right. unfold on_session in E.
    assert (Hc : forall s : session C P, ses_closeErr s <> None ->
      mbind (mget ses_pathManager) (fun pm => match pm with
         | Some _ => mset (fun s => ses_set_paths s (path_close <$> ses_paths s)) | None => mret tt end) s =
      Some (match ses_pathManager s with Some _ => ses_set_paths s (path_close <$> ses_paths s) | None => s end, Ok tt))
      by (intros s _; unfold mbind, mget; destruct (ses_pathManager s); reflexivity).
    unfold mbind at 1, closeWith, mset at 1 in E. rewrite Hc in E.
    + injection E as <-. injection Hl as <-. cbn. destruct (ses_closeErr (rl_session l)) eqn:Ec; cbn; case_match; cbn; congruence.
    + destruct (ses_closeErr (rl_session l)) eqn:Ec; cbn; congruence.
  - destruct (Timer_ready _ _); [|discriminate]. injection E as <-. injection Hl as <-. auto.
  - destruct (ses_sendingScheduled _); [|discriminate]. injection E as <-. injection Hl as <-. auto.
  - injection E as <-. injection Hl as <-. auto.
  - destruct (rl_receivedPackets l) as [|p packets] eqn:Ep; [discriminate|]. unfold handleReceived, on_session in E. cbn [rl_session rl_set_activity rl_set_packets] in E.
    destruct (handlePacketImpl _ _ _ _ _ _ _ _ _ _) as [[s [[]|e|]]|] eqn:Eh; [| | |discriminate].
    + injection E as <-. injection Hl as <-. auto.
    + destruct (isDecryptionFailure e) eqn:Ee.
      * right. left. exists p, packets, s, e. split_and!; [reflexivity | exact Ep | exact Eh | exact Ee].
      * right. right. injection E as <-. injection Hl as <-. cbn. destruct (ses_closeErr s) eqn:Ec; cbn; congruence.
    + injection E as <-. discriminate Hl.
  - destruct (rl_aeadDone l); [discriminate|]. destruct (_ <? 3)%nat; [|discriminate]. injection E as <-. injection Hl as <-. auto.
  - destruct (rl_aeadDone l); [discriminate|]. injection E as <-. injection Hl as <-. auto.
Qed.

(** The timeouts at the end of a turn whose event was handled. *)
Lemma Next_closes fuel Open w ws l ev l' : keyed (rl_session l) ->
  turn_of fuel Open w ws l ev = Some (Next l') ->
  undecryptable_timeout w l' || handshake_timeout w l' || (handshakeComplete l && idle_timeout w l') = true ->
  ses_closeErr (rl_session l') <> None.
Proof.
  intros Hk E Ht. destruct (turn_ended_of _ _ _ _ _ _ _ Hk E) as (l1 & _ & Hev & [T1 T2 T3 T4 T5 T6 T7 T8 T9 T10 T11 T12 T13]).
  apply T13. unfold timed_out. apply orb_true_iff in Ht as [Ht|Ht]; [apply orb_true_iff in Ht as [Ht|Ht]|].
  - unfold undecryptable_timeout in *. rewrite T3, T4 in Ht. rewrite Ht. reflexivity.
  - unfold handshake_timeout in Ht |- *. rewrite T1, T6 in Ht. apply andb_true_iff in Ht as [Hn Ht].
    assert (handshakeComplete l1 = false) as -> by
      (destruct (handshakeComplete l1) eqn:Ec; [apply (complete_mono _ _ T12) in Ec; rewrite Ec in Hn; discriminate | reflexivity]).
    rewrite Ht, orb_true_r. reflexivity.
  - apply andb_true_iff in Ht as [Hn Ht]. unfold idle_timeout in *. rewrite T5, (idleTimeout_same _ _ T12) in Ht.
    apply andb_true_iff in Ht as [_ Ht]. rewrite (complete_mono _ _ Hev Hn), Ht, orb_true_r. reflexivity.
Qed.

(** C33: after every turn of its loop that does not panic, but for one that takes a packet that cannot be decrypted, which goes on with the
    next turn at once, a session is closed when the time for the handshake is up,
    when it was idle for too long and its handshake was complete before the turn, or when packets wait for
    keys that did not come in time; and the turn after that one is the last. *)
Theorem timeouts_close_session fuel Open w ws l ev t l' : keyed (rl_session l) ->
  turn_of fuel Open w ws l ev = Some t -> loop_after t = Some l' ->
  undecryptable_turn fuel Open w l ev \/
  (undecryptable_timeout w l' || handshake_timeout w l' || (handshakeComplete l && idle_timeout w l') = true ->
   ses_closeErr (rl_session l') <> None /\
   forall fuel' Open' w' ws' ev', exists l'', turn_of fuel' Open' w' ws' l' ev' = Some (Break l'')).
Proof.
  intros Hk E Hl.
  assert (Hc : undecryptable_turn fuel Open w l ev \/
    (undecryptable_timeout w l' || handshake_timeout w l' || (handshakeComplete l && idle_timeout w l') = true ->
     ses_closeErr (rl_session l') <> None)).
  { pose proof (Next_closes fuel Open w ws l ev l' Hk) as Hnext. unfold turn_of in E, Hnext. destruct (ses_closeErr (rl_session l)) as [x|] eqn:Ec.
    - right. intros _. unfold on_session, mset in E. injection E as <-. injection Hl as <-. cbn. rewrite Ec. discriminate.
    - destruct (receive fuel Open w (maybeResetTimer l) ev) as [t1|] eqn:E1; [|discriminate].
      assert (Hother : t1 = t -> undecryptable_turn fuel Open w l ev \/ (exists l1, t1 = Next l1) \/ ses_closeErr (rl_session l') <> None).
      { intros <-. destruct (receive_leaves _ _ _ _ _ _ _ E1 Hl) as [->|[Hu|Hu]]; eauto. }
      destruct t1 as [l1|l1|l1|]; [|injection E as <-; destruct (Hother eq_refl) as [Hu|[[? [=]]|Hu]]; eauto..].
      right. unfold endTurn, run_session in E, Hnext. destruct (on_session _ _) as [[l2 [[]|e|]]|]; [| | |discriminate E];
        injection E as <-; try discriminate Hl; injection Hl as <-; apply Hnext; reflexivity. }
  destruct Hc as [Hu|Hc]; [left; exact Hu | right]. intros Ht. specialize (Hc Ht). split; [exact Hc|].
  intros fuel' Open' w' ws' ev'. unfold turn_of. destruct (ses_closeErr (rl_session l')) as [x|]; [|contradiction]. eexists. reflexivity.
Qed.

(** ** The timer *)

Lemma timeSub_ge now t d : 0 <= d < 2 ^ 63 -> (timeSub now t >=? d) = false -> now < t + d.
Proof. unfold timeSub. zpow. lia. Qed.

Lemma quot2_bounds d : 0 <= d < 2 ^ 63 -> 0 <= Z.quot d 2 < 2 ^ 63 /\ Z.quot d 2 <= d.
Proof. intros Hd. rewrite Z.quot_div_nonneg by lia. pose proof (Z.div_pos d 2). pose proof (Z.div_le_upper_bound d 2 d). lia. Qed.

(** A turn for the timer changes nothing but the timer before the rest of the turn. *)
Lemma timer_turn fuel Open w ws l l' : keyed (rl_session l) -> turn_of fuel Open w ws l EvTimer = Some (Next l') ->
  Timer_ready (rl_timer (maybeResetTimer l)) (w_now w) = true /\
  turn_ended w (rl_set_timer l (Timer_SetRead (rl_timer (maybeResetTimer l)))) l'.
Proof.
  intros Hk E. destruct (turn_ended_of _ _ _ _ _ _ _ Hk E) as (l1 & E1 & _ & T). cbn [receive] in E1.
  destruct (Timer_ready _ _) eqn:Er; [|discriminate]. split; [reflexivity|]. injection E1 as <-. exact T.
Qed.

Lemma ready_deadline l now : timer_wf (rl_timer l) -> 0 < deadline l ->
  Timer_ready (rl_timer (maybeResetTimer l)) now = true -> deadline l <= now.
Proof.
  intros Hwf Hd. cbn [maybeResetTimer rl_set_timer rl_timer]. unfold Timer_Reset, Timer_ready. destruct (deadline l =? _) eqn:E.
  - destruct (tm_fires (rl_timer l)) as [a|] eqn:Ef; [|discriminate]. intros Ha.
    destruct (Hwf a Ef) as [-> |Hz]; unfold zeroTime in *; lia.
  - cbn [tm_fires]. lia.
Qed.

Lemma reset_deadline l : tm_deadline (rl_timer (maybeResetTimer l)) = deadline l.
Proof. cbn [maybeResetTimer rl_set_timer rl_timer]. unfold Timer_Reset. destruct (deadline l =? _) eqn:E; [lia | reflexivity]. Qed.

(** When the timer fires, the handshake is complete and the packets that could not be
    decrypted were never too many, then either the session is closed in this turn, or the
    timer is set anew, to an instant that is still to come.  So an idle session is closed
    although no packet arrives any more. *)
Theorem timer_set_again s config start fuel Open w ws l l' : keyed s -> rtc loop_step (newLoop s config start) l ->
  turn_of fuel Open w ws l EvTimer = Some (Next l') ->
  handshakeComplete l = true -> rl_receivedTooManyUndecrytablePacketsTime l = zeroTime ->
  0 < rl_lastNetworkActivityTime l -> 0 <= idleTimeout l < 2 ^ 63 ->
  ses_closeErr (rl_session l') <> None \/
  (w_now w < deadline l' /\ rl_timer (maybeResetTimer l') = mkTimer false (deadline l') (Some (deadline l'))).
Proof.
  intros Hs Hl E Hc Hz Hact Hidle. pose proof (loop_steps_bounded _ _ _ _ Hs Hl) as B.
  destruct (timer_turn _ _ _ _ _ _ (lb_keyed _ B) E) as (Er & [T1 T2 T3 T4 T5 T6 T7 T8 T9 T10 T11 T12 T13]).
  destruct (ses_closeErr (rl_session l')) as [x|] eqn:Ec; [left; discriminate|]. right.
  cbn [rl_set_timer rl_config rl_receivedTooManyUndecrytablePacketsTime rl_lastNetworkActivityTime rl_timer rl_keepAlivePingSent] in *.
  assert (Hnt : timed_out w (rl_set_timer l (Timer_SetRead (rl_timer (maybeResetTimer l)))) = false)
    by (destruct (timed_out w _); [destruct T13; reflexivity | reflexivity]).
  unfold timed_out in Hnt. apply orb_false_iff in Hnt as [_ Hnt].
  change (handshakeComplete l && (timeSub (w_now w) (rl_lastNetworkActivityTime l) >=? idleTimeout l) = false) in Hnt.
  rewrite Hc in Hnt. cbn [andb] in Hnt. apply timeSub_ge in Hnt; [|exact Hidle].
  assert (Hc' : handshakeComplete l' = true) by exact (complete_mono _ _ T12 Hc).
  assert (Hi' : idleTimeout l' = idleTimeout l) by exact (idleTimeout_same _ _ T12).
  destruct (quot2_bounds _ Hidle) as [Hq Hq'].
  assert (Hlow : w_now w < deadline l').
  { unfold deadline. rewrite T1, T4, T5, Hc', Hi', Hz. cbn [negb andb IsZero zeroTime Z.eqb]. rewrite andb_true_r.
    destruct (KeepAlive (rl_config l) && negb (rl_keepAlivePingSent l')) eqn:Ek; [|exact Hnt].
    apply andb_true_iff in Ek as [Eka Ep]. rewrite T10 in Ep. apply negb_true_iff, orb_false_iff in Ep as [_ Ep].
    change (KeepAlive (rl_config l) && handshakeComplete l &&
      (timeSub (w_now w) (rl_lastNetworkActivityTime l) >=? Z.quot (idleTimeout l) 2) = false) in Ep.
    rewrite Eka, Hc in Ep. cbn [andb] in Ep. apply timeSub_ge in Ep; [exact Ep | exact Hq]. }
  split; [exact Hlow|].
  assert (Hold : deadline l <= w_now w).
  { apply ready_deadline; [apply (lb_timer _ B)| |exact Er]. unfold deadline. rewrite Hc, Hz.
    cbn [negb IsZero zeroTime Z.eqb]. unfold timeAdd. clear - Hact Hidle Hq. case_match; lia. }
  cbn [maybeResetTimer rl_set_timer rl_timer]. rewrite T7. unfold Timer_Reset, Timer_SetRead at 1. cbn [tm_deadline].
  rewrite reset_deadline. destruct (deadline l' =? deadline l) eqn:Ee; [|reflexivity].
  apply Z.eqb_eq in Ee. clear - Ee Hlow Hold. lia.
Qed.

(** The timer was read and is not set again, as its deadline stays the same. *)
Definition timer_dead l : Prop := tm_fires (rl_timer l) = None /\ tm_deadline (rl_timer l) = deadline l.

(** A turn without news from the peer: the timer, the timer of a path, or something to send. *)
Definition silent_event (ev : event) : Prop :=
  match ev with EvTimer | EvSending | EvPathTimer _ => True | _ => False end.

Inductive silent_step l l' : Prop :=
| SilentTurn fuel Open w ws ev : silent_event ev -> turn_of fuel Open w ws l ev = Some (Next l') ->
    handshakeComplete l' = handshakeComplete l -> silent_step l l'.

Lemma deadline_same l l' : KeepAlive (rl_config l) = false -> rl_config l' = rl_config l ->
  handshakeComplete l' = handshakeComplete l -> idleTimeout l' = idleTimeout l ->
  rl_lastNetworkActivityTime l' = rl_lastNetworkActivityTime l -> rl_sessionCreationTime l' = rl_sessionCreationTime l ->
  rl_receivedTooManyUndecrytablePacketsTime l' = rl_receivedTooManyUndecrytablePacketsTime l -> deadline l' = deadline l.
Proof. intros Hk E1 E2 E3 E4 E5 E6. unfold deadline. rewrite E1, E2, E3, E4, E5, E6, Hk. reflexivity. Qed.

(** What a silent turn leaves as it is. *)
Lemma silent_turn fuel Open w ws ev l l' : keyed (rl_session l) -> silent_event ev -> KeepAlive (rl_config l) = false ->
  turn_of fuel Open w ws l ev = Some (Next l') -> handshakeComplete l' = handshakeComplete l ->
  keyed (rl_session l') /\ rl_config l' = rl_config l /\ deadline l' = deadline l /\
  rl_timer l' = match ev with EvTimer => Timer_SetRead (rl_timer (maybeResetTimer l)) | _ => rl_timer (maybeResetTimer l) end.
Proof.
  intros Hk Hsil Hka E Hc. destruct (turn_ended_of _ _ _ _ _ _ _ Hk E) as (l1 & E1 & Hev & [T1 T2 T3 T4 T5 T6 T7 T8 T9 T10 T11 T12 T13]).
  assert (Hl1 : rl_config l1 = rl_config l /\ rl_receivedTooManyUndecrytablePacketsTime l1 = rl_receivedTooManyUndecrytablePacketsTime l /\
    rl_lastNetworkActivityTime l1 = rl_lastNetworkActivityTime l /\ rl_sessionCreationTime l1 = rl_sessionCreationTime l /\
    rl_timer l1 = match ev with EvTimer => Timer_SetRead (rl_timer (maybeResetTimer l)) | _ => rl_timer (maybeResetTimer l) end).
  { destruct ev; try contradiction; cbn [receive] in E1.
    - destruct (Timer_ready _ _); [|discriminate]. injection E1 as <-. split_and!; reflexivity.
    - destruct (ses_sendingScheduled _); [|discriminate]. injection E1 as <-. split_and!; reflexivity.
    - injection E1 as <-. split_and!; reflexivity. }
  destruct Hl1 as (L1 & L2 & L3 & L4 & L5). split; [exact T11|]. split; [congruence|]. split; [|congruence].
  apply deadline_same; try congruence. rewrite (idleTimeout_same _ _ T12). exact (idleTimeout_same _ _ Hev).
Qed.

(** Without keep-alives, when the timer fires before the session is to be closed, it never
    fires again as long as nothing comes from the peer: its deadline stays the one that has
    passed, and a timer is not set anew to the deadline it has.  This is so when the idle timeout is
    shorter than what is left for the handshake, and once too many packets could not be
    decrypted, however the session got on.  The timeouts that are still to come are then not
    noticed, unless another event causes a turn of the loop. *)
Theorem timer_not_set_again fuel Open w ws l l' l'' : keyed (rl_session l) -> KeepAlive (rl_config l) = false ->
  turn_of fuel Open w ws l EvTimer = Some (Next l') -> handshakeComplete l' = handshakeComplete l ->
  rtc silent_step l' l'' -> ses_closeErr (rl_session l'') = None ->
  forall fuel' Open' w' ws', turn_of fuel' Open' w' ws' l'' EvTimer = None.
Proof.
  intros Hk Hka E Hc Hs Hcl.
  destruct (silent_turn _ _ _ _ EvTimer _ _ Hk (I : silent_event EvTimer) Hka E Hc) as (Hk' & Hcfg & Hd & Ht).
  assert (Hdead : keyed (rl_session l') /\ KeepAlive (rl_config l') = false /\ timer_dead l').
  { split; [exact Hk'|]. split; [congruence|]. unfold timer_dead. rewrite Ht, Hd. split; [reflexivity | exact (reset_deadline l)]. }
  clear - Hdead Hs Hcl. assert (timer_dead l'') as [Hf Hdl].
  { clear Hcl. induction Hs as [l|l1 l2 l3 [fuel Open w ws ev Hsil E Hc] _ IH]; [apply Hdead|]. apply IH.
    destruct Hdead as (Hk & Hka & Hf & Hdl). destruct (silent_turn _ _ _ _ _ _ _ Hk Hsil Hka E Hc) as (Hk' & Hcfg & Hd & Ht).
    split; [exact Hk'|]. split; [congruence|]. unfold timer_dead. rewrite Ht, Hd.
    assert (Et : rl_timer (maybeResetTimer l1) = rl_timer l1)
      by (cbn [maybeResetTimer rl_set_timer rl_timer]; unfold Timer_Reset; rewrite Hdl, Z.eqb_refl; reflexivity).
    rewrite Et. destruct ev; cbn; split; congruence. }
  intros fuel Open w ws. unfold turn_of. rewrite Hcl. cbn [receive].
  assert (Et : rl_timer (maybeResetTimer l'') = rl_timer l'')
    by (cbn [maybeResetTimer rl_set_timer rl_timer]; unfold Timer_Reset; rewrite Hdl, Z.eqb_refl; reflexivity).
  rewrite Et. unfold Timer_ready. rewrite Hf. reflexivity.
Qed.
End turns.
