(* ===== verification/ServerExamples.v ===== *)
(** * A server, a client and a run loop to run

    The sessions of the examples are run loops around the sessions of the development, so that
    the server and the client are put together with what they call; the theorems on them are
    applied here. *)
From S2P Require Import Prelude Qerr ByteOrder Protocol WireStream WireControl AckRanges WireAck PublicHeader.
From S2P Require Import Frames ReceivedPackets Float32 RttStats SentPackets ConnParams FlowControl Congestion.
From S2P Require Import StreamFrameSorter StreamsMap Stream StreamFramer PacketNumberGenerator PacketPacker Path.
From S2P Require Import Scheduler Session Sending SentPacketsProofs FlowControlProofs StreamsMapProofs.
From S2P Require Import PacketPackerProofs SchedulerProofs SessionProofs SendingProofs SessionExamples.
From S2P Require Import HandshakeMessage CryptoServer CryptoServerProofs Addr Cookie Server ServerProofs ClientProofs EventLoop EventLoopProofs.
Import Server Client.

#[local] Notation loop := (runLoop unit connectionParametersManager).

(** ** Packets *)

Definition here : UDPAddr := {| ua_IP := netIPv4 10 0 0 1; ua_Port := 6121; ua_Zone := "" |}.
Definition there : UDPAddr := {| ua_IP := netIPv4 10 0 0 7; ua_Port := 40000; ua_Zone := "" |}.
Definition there6 : UDPAddr :=
  {| ua_IP := [32; 1; 13; 184; 0; 0; 0; 0; 0; 0; 0; 0; 0; 0; 0; 1]; ua_Port := 40000; ua_Zone := "" |}.

Definition first_header : PublicHeader := {|
  ph_ConnectionID := 77; ph_PathID := 0; ph_VersionFlag := true; ph_ResetFlag := false; ph_TruncateConnectionID := false;
  ph_MultipathFlag := false; ph_PacketNumberLen := 1; ph_PacketNumber := 1; ph_VersionNumber := VersionMP;
  ph_SupportedVersions := []; ph_DiversificationNonce := [] |}.

Definition written (m : writer) : list Z := match m with Ok b => b | _ => [] end.
Definition first_packet : list Z := written (PublicHeader_Write first_header VersionMP PerspectiveClient) ++ [1; 2; 3].
Definition first_raw (from : UDPAddr) : receivedRawPacket := mkRaw here from first_packet 5000.

(** ** The server *)

Definition sample_new (pconn addr : UDPAddr) (v id : Z) (config : Config) : result loop :=
  Ok (newLoop (session_setup PerspectiveServer v id (CreatePaths config) (env_params example_env) (Some [])
                 (mkConn pconn addr) SchRTT sample_world) config 1000).

Lemma sample_new_version pconn addr v id config x : sample_new pconn addr v id config = Ok x -> GetVersion x = v.
Proof. intros [= <-]. cbn. unfold session_setup. case_match. reflexivity. Qed.

Definition server0 : server loop := newServer None 0 0 ∅.
Definition server1 : server loop := (server_handlePacket sample_new None 2000 server0 (first_raw there)).1.

Lemma first_bytes_ok : bytes_ok first_packet.
Proof. apply (bool_decide_unpack _). vm_compute. exact I. Qed.

Lemma server1_reached : rtc (server_step sample_new) server0 server1.
Proof.
  apply rtc_once. apply (StepPacket sample_new server0 None 2000 (first_raw there) server1
    (server_handlePacket sample_new None 2000 server0 (first_raw there)).2).
  - exact first_bytes_ok.
  - unfold server1. destruct (server_handlePacket _ _ _ _ _). reflexivity.
  - vm_compute. discriminate.
Qed.

Lemma server_sessions_consistent_witness :
  server_inv server1 /\ srv_sessions server1 !! 77 = Some (Some 0%nat) /\ srv_modelID server1 = 7.
Proof.
  split; [|split; vm_compute; reflexivity].
  apply (server_sessions_consistent sample_new sample_new_version None 0 0 ∅ server1 server1_reached).
Defined.

(** A packet of an unknown version, too short for an answer. *)
Definition lost_packet : list Z := [8; 5; 0; 0; 0; 0; 0; 0; 0; 9].
Definition lost_raw : receivedRawPacket := mkRaw here there lost_packet 6000.

Lemma lost_bytes_ok : bytes_ok lost_packet.
Proof. apply (bool_decide_unpack _). vm_compute. exact I. Qed.

Lemma server_replies_bounded_witness :
  exists reply, srv_written (server_handlePacket sample_new None 3000 server1 lost_raw).1 = [(there, reply)] /\ zlen reply = 49.
Proof.
  assert (Hw : length (srv_written (server_handlePacket sample_new None 3000 server1 lost_raw).1) = 1%nat) by (vm_compute; reflexivity).
  assert (Hb : bytes_ok (raw_data lost_raw)) by exact lost_bytes_ok.
  destruct (server_handlePacket sample_new None 3000 server1 lost_raw) as [s' res] eqn:E. cbn [fst] in *.
  assert (H1 : srv_written server1 = []) by (vm_compute; reflexivity).
  destruct (server_replies_bounded sample_new sample_new_version None 0 0 ∅ server1 None 3000 lost_raw s' res
    server1_reached Hb E) as [Hn|(id & reply & Es & _ & [[_ Hl]|(_ & _ & Hl)])].
  - rewrite Hn, H1 in Hw. discriminate Hw.
  - exists reply. rewrite Es. split; [exact (f_equal (fun x => x ++ [(there, reply)]) H1) | exact Hl].
  - exfalso. vm_compute in Hl. discriminate.
Defined.

Lemma first_starts from : exists hdr body, starts_connection server0 (first_raw from) hdr body.
Proof.
  destruct (ParsePublicHeader PerspectiveClient VersionUnknown first_packet) as [[hdr body]| |] eqn:E;
    [|vm_compute in E; discriminate E..].
  exists hdr, body. assert (Hh : hdr = first_header).
  { assert (Ev : ParsePublicHeader PerspectiveClient VersionUnknown first_packet = Ok (first_header, [1; 2; 3]))
      by (vm_compute; reflexivity). rewrite E in Ev. apply Ok_inj in Ev. exact (f_equal fst Ev). }
  split; [rewrite Hh; vm_compute; reflexivity|]. split; [exact E|]. rewrite Hh. split_and!; vm_compute; reflexivity.
Qed.

Lemma server_crashes_on_ipv6_witness :
  server_handlePacket sample_new None 2000 server0 (first_raw there6) = (server0, Panic) /\
  (server_handlePacket sample_new None 2000 server0 (first_raw there)).2 <> Panic.
Proof.
  assert (Hnew : forall pconn addr v id config, sample_new pconn addr v id config <> Panic) by discriminate.
  destruct (server_crashes_on_ipv6 sample_new sample_new_version None 0 0 ∅ server0 None 2000 (first_raw there6)
    (rtc_refl _ _) first_bytes_ok Hnew) as [_ H6].
  split; [|vm_compute; discriminate]. destruct (first_starts there6) as (hdr & body & Hst).
  apply (H6 (ua_IP there6) (ua_Port there6) hdr body); [reflexivity..|exact Hst].
Defined.

(** ** The client *)

Definition sample_newClient (addr : UDPAddr) (v id : Z) (config : Config) (negotiated : list Z) : result loop :=
  Ok (newLoop (session_setup PerspectiveClient v id (CreatePaths config) (env_params example_env) (Some [])
                 (mkConn here addr) SchRTT sample_world) config 1000).

Definition client0 : client loop := (newClient sample_newClient None 77 there).1.

(** The server answers with a version negotiation packet: it speaks version 38. *)
Definition negotiation_raw : receivedRawPacket :=
  mkRaw here there (written (ComposeVersionNegotiation 77 [Version38; 40])) 3000.
Definition client1 : client loop := (client_handlePacket sample_newClient (Ok 88) client0 negotiation_raw).1.

Lemma client1_reached : rtc (client_step sample_newClient) client0 client1.
Proof.
  apply rtc_once. apply (ClientPacket sample_newClient client0 (Ok 88) negotiation_raw client1
    (client_handlePacket sample_newClient (Ok 88) client0 negotiation_raw).2).
  - apply (bool_decide_unpack _). vm_compute. exact I.
  - discriminate.
  - unfold client1. destruct (client_handlePacket _ _ _ _). reflexivity.
Qed.

Lemma client_negotiates_once_witness :
  cl_version client1 = Version38 /\ cl_connectionID client1 = 88 /\ cl_session client1 = Some 1%nat /\
  forall c', rtc (client_step sample_newClient) client1 c' -> cl_version c' = Version38 /\ cl_connectionID c' = 88.
Proof.
  assert (Hv : cl_version client1 = Version38) by (vm_compute; reflexivity).
  assert (Hi : cl_connectionID client1 = 88) by (vm_compute; reflexivity).
  split; [exact Hv|]. split; [exact Hi|]. split; [vm_compute; reflexivity|].
  assert (E0 : newClient sample_newClient None 77 there = (client0, Ok tt)) by reflexivity.
  destruct (client_negotiates_once sample_newClient (fun addr v id config vs => ex_intro _ _ eq_refl) None 77 there client0 client1
    E0 client1_reached) as (_ & _ & _ & Hfinal).
  intros c' Hc. destruct (Hfinal c') as (H1 & H2 & _); [vm_compute; reflexivity | exact Hc|].
  split; congruence.
Defined.

Definition reset_raw : receivedRawPacket := mkRaw here there (WritePublicReset 77 5 6) 4000.

Lemma public_reset_checked_witness :
  exists x, cl_store client0 !! 0%nat = Some x /\
  (client_handlePacket sample_newClient (Ok 88) client0 reset_raw).1 =
    cl_set_store client0 [session_close x (Some (publicResetError 5), true)].
Proof.
  destruct (client_handlePacket sample_newClient (Ok 88) client0 reset_raw) as [c' res] eqn:E.
  assert (Hne : c' <> client0).
  { intros ->. apply (f_equal (fun r => match cl_store r.1 with x :: _ => ses_closeErr (rl_session x) | [] => None end)) in E.
    vm_compute in E. discriminate E. }
  destruct (ParsePublicHeader PerspectiveServer (cl_version client0) (raw_data reset_raw)) as [[hdr body]| |] eqn:Ep;
    [|vm_compute in Ep; discriminate Ep..].
  assert (Hb : ph_ResetFlag hdr = true /\ body = drop 9 (WritePublicReset 77 5 6)).
  { pose proof Ep as Ep'. vm_compute in Ep'. apply Ok_inj in Ep'. inversion Ep'. split; [reflexivity|]. vm_compute. reflexivity. }
  destruct Hb as [Hr Hb].
  destruct (public_reset_checked sample_newClient (Ok 88) client0 reset_raw c' res hdr body Ep Hr E Hne)
    as (r & x & pr & rest & Hs & Hx & _ & _ & Hpr & ->).
  assert (r = 0%nat) as -> by (vm_compute in Hs; congruence).
  exists x. split; [exact Hx|]. rewrite Hb in Hpr. vm_compute in Hpr. apply Ok_inj in Hpr. inversion Hpr. reflexivity.
Defined.

(** ** The run loop *)

(** No packet can be decrypted. *)
Definition no_keys : AeadOpen := fun _ _ _ => Err (errors_New "no keys").

Definition at_time (now : Z) : world unit :=
  mkWorld now (fun _ _ => None) sample_crypto (fun _ _ => None) (fun _ => tt) [0] [] [[0]; [0]; [0]] false.

Definition loop0 (keepAlive complete : bool) (handshakeTimeout : Z) : loop :=
  newLoop (if complete then ses_set_handshakeComplete sample_session else sample_session)
    (mkConfig [VersionMP] false handshakeTimeout 0 None 0 0 keepAlive false false "" "" false 0 0 false) 1000.

Lemma loop0_keyed keepAlive complete handshakeTimeout : keyed (rl_session (loop0 keepAlive complete handshakeTimeout)).
Proof.
  pose proof (proj1 (session_setup_ok PerspectiveServer VersionMP 77 false (env_params example_env) (Some []) example_conn SchRTT sample_world)) as Hk.
  destruct complete; exact Hk.
Qed.

(** What is computed of a turn holds of its result. *)
Lemma on_result {A B} (f : A -> B) (b : B) (t t' : A) : t = t' -> f t = b -> f t' = b.
Proof. intros <-. exact id. Qed.

(** A packet that cannot be decrypted waits. *)
Definition waiting_packet : receivedPacket := mkRcv there first_header (take 14 first_packet) [1; 2; 3] 2000 here.
Definition loop1 : loop := handlePacket (loop0 false false Second) waiting_packet.

Lemma session_queues_bounded_witness :
  match turn_of 2 no_keys (at_time 3000) [at_time 3000; at_time 3000] loop1 EvPacket with
  | Some (Again l) => (length (rl_undecryptablePackets l) <= 10)%nat /\ length (rl_undecryptablePackets l) = 1%nat
  | _ => False
  end.
Proof.
  destruct (turn_of 2 no_keys (at_time 3000) [at_time 3000; at_time 3000] loop1 EvPacket) as [[l|l|l|]|] eqn:E;
    try (vm_compute in E; discriminate E).
  destruct (session_queues_bounded _ (rl_config (loop0 false false Second)) 1000 l (loop0_keyed false false Second)) as (_ & Hb & _).
  - eapply rtc_l; [apply (LoopPacket waiting_packet)|]. apply rtc_once.
    eapply LoopTurn; [exact E | right; reflexivity].
  - split; [exact Hb|]. exact (on_result (fun t : option (@turn unit connectionParametersManager) => match t with Some (Again l) => length (rl_undecryptablePackets l) | _ => O end)
      _ _ _ E ltac:(vm_compute; reflexivity)).
Defined.

(** The handshake does not complete in time. *)
Lemma timeouts_close_session_witness :
  match turn_of 2 no_keys (at_time (2 * Second)) [at_time (2 * Second); at_time (2 * Second)] (loop0 false false Second) (EvPathTimer 0) with
  | Some (Next l) => ses_closeErr (rl_session l) <> None
  | _ => False
  end.
Proof.
  destruct (turn_of 2 no_keys (at_time (2 * Second)) [at_time (2 * Second); at_time (2 * Second)] (loop0 false false Second) (EvPathTimer 0))
    as [[l|l|l|]|] eqn:E; try (vm_compute in E; discriminate E).
  destruct (timeouts_close_session _ _ _ _ _ _ _ l (loop0_keyed false false Second) E eq_refl) as [(p & ps & s & e & [=] & _)|Hc].
  refine (proj1 (Hc _)).
  pose proof (on_result (fun t : option (@turn unit connectionParametersManager) => match t with Some (Next l) => handshake_timeout (at_time (2 * Second)) l | _ => false end)
    true _ _ E ltac:(vm_compute; reflexivity)) as Ht. cbv beta match in Ht. rewrite Ht, orb_true_r. reflexivity.
Defined.

(** A packet that cannot be decrypted keeps the loop from looking at the timeouts: two seconds later the session, which
    was to complete its handshake within one, is not closed in the turn that takes the packet. *)
Example timeout_not_seen :
  match turn_of 2 no_keys (at_time (2 * Second)) [at_time (2 * Second); at_time (2 * Second)] loop1 EvPacket with
  | Some (Again l) => handshake_timeout (at_time (2 * Second)) l = true /\ ses_closeErr (rl_session l) = None
  | _ => False
  end.
Proof. vm_compute. split; reflexivity. Qed.

Definition deadline_after (t : option (@turn unit connectionParametersManager)) : Z :=
  match t with Some (Next l) => deadline l | _ => 0 end.

(** With keep-alives, a ping is sent after half of the idle timeout. *)
Lemma timer_set_again_witness :
  match turn_of 2 no_keys (at_time (15 * Second + 1000)) [at_time (15 * Second + 1000); at_time (15 * Second + 1000)]
          (loop0 true true Second) EvTimer with
  | Some (Next l) => rl_timer (maybeResetTimer l) = mkTimer false (30 * Second + 1000) (Some (30 * Second + 1000))
  | _ => False
  end.
Proof.
  destruct (turn_of 2 no_keys (at_time (15 * Second + 1000)) [at_time (15 * Second + 1000); at_time (15 * Second + 1000)]
    (loop0 true true Second) EvTimer) as [[l|l|l|]|] eqn:E; try (vm_compute in E; discriminate E).
  destruct (timer_set_again _ (rl_config (loop0 true true Second)) 1000 _ _ _ _ _ l (loop0_keyed true true Second) (rtc_refl _ _) E) as [Hc|[_ Ht]];
    [reflexivity.. | vm_compute; split; [discriminate | reflexivity] | |].
  - destruct Hc. exact (on_result (fun t : option (@turn unit connectionParametersManager) => match t with Some (Next l) => ses_closeErr (rl_session l) | _ => Some (None, true) end)
      None _ _ E ltac:(vm_compute; reflexivity)).
  - pose proof (on_result deadline_after
      (30 * Second + 1000) _ _ E ltac:(vm_compute; reflexivity)) as Hd. cbn [deadline_after] in Hd. rewrite Ht, Hd. reflexivity.
Defined.

(** The idle timeout is half a minute, the handshake may take a minute: nothing happens then. *)
Lemma timer_not_set_again_witness :
  match turn_of 2 no_keys (at_time (30 * Second + 1000)) [at_time (30 * Second + 1000); at_time (30 * Second + 1000)]
          (loop0 false false (60 * Second)) EvTimer with
  | Some (Next l) => forall fuel Open w ws, turn_of fuel Open w ws l EvTimer = None
  | _ => False
  end.
Proof.
  destruct (turn_of 2 no_keys (at_time (30 * Second + 1000)) [at_time (30 * Second + 1000); at_time (30 * Second + 1000)]
    (loop0 false false (60 * Second)) EvTimer) as [[l|l|l|]|] eqn:E; try (vm_compute in E; discriminate E).
  apply (timer_not_set_again _ _ _ _ _ l l (loop0_keyed false false (60 * Second)) eq_refl E); [| apply rtc_refl |].
  - exact (on_result (fun t : option (@turn unit connectionParametersManager) => match t with Some (Next l) => handshakeComplete l | _ => true end)
      false _ _ E ltac:(vm_compute; reflexivity)).
  - exact (on_result (fun t : option (@turn unit connectionParametersManager) => match t with Some (Next l) => ses_closeErr (rl_session l) | _ => Some (None, true) end)
      None _ _ E ltac:(vm_compute; reflexivity)).
Defined.
