(* ===== verification/Certs.v ===== *)
(** * Certificate chains (internal/crypto/cert_compression.go, cert_dict.go, cert_sets.go,
    cert_cache.go, cert_chain.go, cert_manager.go)

    The server sends its certificates compressed: a certificate that the client has, or that is
    in a set both know, is named; the others are compressed with zlib and a dictionary.  zlib,
    the parser of certificates and the signatures are parameters. *)
From S2P Require Import Prelude Qerr ByteOrder Protocol PublicHeader Frames ParserSafety Aead ServerConfig CryptoClient.

(** The dictionary of cert_dict.go. *)
Definition certDictZlib : list Z := [
  4; 2; 48; 0; 48; 29; 6; 3; 85; 29; 37; 4; 22; 48; 20; 6; 8; 43; 6; 1; 5; 5; 7; 3; 1; 6; 8; 43; 6; 1; 5; 5; 7; 3;
  2; 48; 95; 6; 9; 96; 134; 72; 1; 134; 248; 66; 4; 1; 6; 6; 11; 96; 134; 72; 1; 134; 253; 109; 1; 7; 23; 1; 48;
  51; 32; 69; 120; 116; 101; 110; 100; 101; 100; 32; 86; 97; 108; 105; 100; 97; 116; 105; 111; 110; 32; 83; 32; 76;
  105; 109; 105; 116; 101; 100; 49; 52; 32; 83; 83; 76; 32; 67; 65; 48; 30; 23; 13; 49; 50; 32; 83; 101; 99; 117;
  114; 101; 32; 83; 101; 114; 118; 101; 114; 32; 67; 65; 48; 45; 97; 105; 97; 46; 118; 101; 114; 105; 115; 105;
  103; 110; 46; 99; 111; 109; 47; 69; 45; 99; 114; 108; 46; 118; 101; 114; 105; 115; 105; 103; 110; 46; 99; 111;
  109; 47; 69; 46; 99; 101; 114; 48; 13; 6; 9; 42; 134; 72; 134; 247; 13; 1; 1; 5; 5; 0; 3; 130; 1; 1; 0; 74; 46;
  99; 111; 109; 47; 114; 101; 115; 111; 117; 114; 99; 101; 115; 47; 99; 112; 115; 32; 40; 99; 41; 48; 48; 9; 6; 3;
  85; 29; 19; 4; 2; 48; 0; 48; 29; 48; 13; 6; 9; 42; 134; 72; 134; 247; 13; 1; 1; 5; 5; 0; 3; 130; 1; 1; 0; 123;
  48; 29; 6; 3; 85; 29; 14; 48; 130; 1; 34; 48; 13; 6; 9; 42; 134; 72; 134; 247; 13; 1; 1; 1; 5; 0; 3; 130; 1; 15;
  0; 48; 130; 1; 10; 2; 130; 1; 1; 0; 210; 111; 100; 111; 99; 97; 46; 99; 111; 109; 47; 67; 46; 99; 114; 108; 48;
  29; 6; 3; 85; 29; 14; 4; 22; 4; 20; 180; 46; 103; 108; 111; 98; 97; 108; 115; 105; 103; 110; 46; 99; 111; 109;
  47; 114; 48; 11; 6; 3; 85; 29; 15; 4; 4; 3; 2; 1; 48; 13; 6; 9; 42; 134; 72; 134; 247; 13; 1; 1; 5; 5; 0; 48;
  129; 202; 49; 11; 48; 9; 6; 3; 85; 4; 6; 19; 2; 85; 83; 49; 16; 48; 14; 6; 3; 85; 4; 8; 19; 7; 65; 114; 105; 122;
  111; 110; 97; 49; 19; 48; 17; 6; 3; 85; 4; 7; 19; 10; 83; 99; 111; 116; 116; 115; 100; 97; 108; 101; 49; 26; 48;
  24; 6; 3; 85; 4; 10; 19; 17; 71; 111; 68; 97; 100; 100; 121; 46; 99; 111; 109; 44; 32; 73; 110; 99; 46; 49; 51;
  48; 49; 6; 3; 85; 4; 11; 19; 42; 104; 116; 116; 112; 58; 47; 47; 99; 101; 114; 116; 105; 102; 105; 99; 97; 116;
  101; 115; 46; 103; 111; 100; 97; 100; 100; 121; 46; 99; 111; 109; 47; 114; 101; 112; 111; 115; 105; 116; 111;
  114; 121; 49; 48; 48; 46; 6; 3; 85; 4; 3; 19; 39; 71; 111; 32; 68; 97; 100; 100; 121; 32; 83; 101; 99; 117; 114;
  101; 32; 67; 101; 114; 116; 105; 102; 105; 99; 97; 116; 105; 111; 110; 32; 65; 117; 116; 104; 111; 114; 105; 116;
  121; 49; 17; 48; 15; 6; 3; 85; 4; 5; 19; 8; 48; 55; 57; 54; 57; 50; 56; 55; 48; 30; 23; 13; 49; 49; 48; 14; 6; 3;
  85; 29; 15; 1; 1; 255; 4; 4; 3; 2; 5; 160; 48; 12; 6; 3; 85; 29; 19; 1; 1; 255; 4; 2; 48; 0; 48; 29; 48; 15; 6;
  3; 85; 29; 19; 1; 1; 255; 4; 5; 48; 3; 1; 1; 0; 48; 29; 6; 3; 85; 29; 37; 4; 22; 48; 20; 6; 8; 43; 6; 1; 5; 5; 7;
  3; 1; 6; 8; 43; 6; 1; 5; 5; 7; 3; 2; 48; 14; 6; 3; 85; 29; 15; 1; 1; 255; 4; 4; 3; 2; 5; 160; 48; 51; 6; 3; 85;
  29; 31; 4; 44; 48; 42; 48; 40; 160; 38; 160; 36; 134; 34; 104; 116; 116; 112; 58; 47; 47; 99; 114; 108; 46; 103;
  111; 100; 97; 100; 100; 121; 46; 99; 111; 109; 47; 103; 100; 115; 49; 45; 50; 48; 42; 48; 40; 6; 8; 43; 6; 1; 5;
  5; 7; 2; 1; 22; 28; 104; 116; 116; 112; 115; 58; 47; 47; 119; 119; 119; 46; 118; 101; 114; 105; 115; 105; 103;
  110; 46; 99; 111; 109; 47; 99; 112; 115; 48; 52; 48; 48; 48; 48; 48; 48; 90; 23; 13; 49; 51; 48; 53; 48; 57; 6;
  8; 43; 6; 1; 5; 5; 7; 48; 2; 134; 45; 104; 116; 116; 112; 58; 47; 47; 115; 48; 57; 48; 55; 6; 8; 43; 6; 1; 5; 5;
  7; 2; 48; 68; 6; 3; 85; 29; 32; 4; 61; 48; 59; 48; 57; 6; 11; 96; 134; 72; 1; 134; 248; 69; 1; 7; 23; 6; 49; 11;
  48; 9; 6; 3; 85; 4; 6; 19; 2; 71; 66; 49; 27; 83; 49; 23; 48; 21; 6; 3; 85; 4; 10; 19; 14; 86; 101; 114; 105; 83;
  105; 103; 110; 44; 32; 73; 110; 99; 46; 49; 31; 48; 29; 6; 3; 85; 4; 11; 19; 22; 86; 101; 114; 105; 83; 105; 103;
  110; 32; 84; 114; 117; 115; 116; 32; 78; 101; 116; 119; 111; 114; 107; 49; 59; 48; 57; 6; 3; 85; 4; 11; 19; 50;
  84; 101; 114; 109; 115; 32; 111; 102; 32; 117; 115; 101; 32; 97; 116; 32; 104; 116; 116; 112; 115; 58; 47; 47;
  119; 119; 119; 46; 118; 101; 114; 105; 115; 105; 103; 110; 46; 99; 111; 109; 47; 114; 112; 97; 32; 40; 99; 41;
  48; 49; 16; 48; 14; 6; 3; 85; 4; 7; 19; 7; 83; 49; 19; 48; 17; 6; 3; 85; 4; 11; 19; 10; 71; 49; 19; 48; 17; 6;
  11; 43; 6; 1; 4; 1; 130; 55; 60; 2; 1; 3; 19; 2; 85; 49; 22; 48; 20; 6; 3; 85; 4; 3; 20; 49; 25; 48; 23; 6; 3;
  85; 4; 3; 19; 49; 29; 48; 27; 6; 3; 85; 4; 15; 19; 20; 80; 114; 105; 118; 97; 116; 101; 32; 79; 114; 103; 97;
  110; 105; 122; 97; 116; 105; 111; 110; 49; 18; 49; 33; 48; 31; 6; 3; 85; 4; 11; 19; 24; 68; 111; 109; 97; 105;
  110; 32; 67; 111; 110; 116; 114; 111; 108; 32; 86; 97; 108; 105; 100; 97; 116; 101; 100; 49; 20; 49; 49; 48; 47;
  6; 3; 85; 4; 11; 19; 40; 83; 101; 101; 32; 119; 119; 119; 46; 114; 58; 47; 47; 115; 101; 99; 117; 114; 101; 46;
  103; 71; 108; 111; 98; 97; 108; 83; 105; 103; 110; 49; 83; 101; 114; 118; 101; 114; 67; 65; 46; 99; 114; 108; 86;
  101; 114; 105; 83; 105; 103; 110; 32; 67; 108; 97; 115; 115; 32; 51; 32; 69; 99; 114; 108; 46; 103; 101; 111;
  116; 114; 117; 115; 116; 46; 99; 111; 109; 47; 99; 114; 108; 115; 47; 115; 100; 49; 26; 48; 24; 6; 3; 85; 4; 10;
  104; 116; 116; 112; 58; 47; 47; 69; 86; 73; 110; 116; 108; 45; 99; 99; 114; 116; 46; 103; 119; 119; 119; 46; 103;
  105; 99; 101; 114; 116; 46; 99; 111; 109; 47; 49; 111; 99; 115; 112; 46; 118; 101; 114; 105; 115; 105; 103; 110;
  46; 99; 111; 109; 48; 57; 114; 97; 112; 105; 100; 115; 115; 108; 46; 99; 111; 115; 46; 103; 111; 100; 97; 100;
  100; 121; 46; 99; 111; 109; 47; 114; 101; 112; 111; 115; 105; 116; 111; 114; 121; 47; 48; 129; 128; 6; 8; 43; 6;
  1; 5; 5; 7; 1; 1; 4; 116; 48; 114; 48; 36; 6; 8; 43; 6; 1; 5; 5; 7; 48; 1; 134; 24; 104; 116; 116; 112; 58; 47;
  47; 111; 99; 115; 112; 46; 103; 111; 100; 97; 100; 100; 121; 46; 99; 111; 109; 47; 48; 74; 6; 8; 43; 6; 1; 5; 5;
  7; 48; 2; 134; 62; 104; 116; 116; 112; 58; 47; 47; 99; 101; 114; 116; 105; 102; 105; 99; 97; 116; 101; 115; 46;
  103; 111; 100; 97; 100; 100; 121; 46; 99; 111; 109; 47; 114; 101; 112; 111; 115; 105; 116; 111; 114; 121; 47;
  103; 100; 95; 105; 110; 116; 101; 114; 109; 101; 100; 105; 97; 116; 101; 46; 99; 114; 116; 48; 31; 6; 3; 85; 29;
  35; 4; 24; 48; 22; 128; 20; 253; 172; 97; 50; 147; 108; 69; 214; 226; 238; 133; 95; 154; 186; 231; 118; 153; 104;
  204; 231; 48; 39; 134; 41; 104; 116; 116; 112; 58; 47; 47; 99; 134; 48; 104; 116; 116; 112; 58; 47; 47; 115].

Inductive entry : Type :=
| entryCompressed
| entryCached (h : Z)
| entryCommon (h i : Z).

#[export] Instance entry_eq_dec : EqDecision entry.
Proof. solve_decision. Defined.

Definition isCompressed (e : entry) : bool := match e with entryCompressed => true | _ => false end.

(** The hashes, 8 bytes each. *)
Fixpoint chunks8 (n : nat) (hashes : list Z) : list Z :=
  match n with
  | O => []
  | S n => leVal (take 8 hashes) :: chunks8 n (drop 8 hashes)
  end.

Definition splitHashes (hashes : list Z) : result (list Z) :=
  if negb (zlen hashes mod 8 =? 0) then Err (errors_New "expected a multiple of 8 bytes for CCS / CCRT hashes")
  else Ok (chunks8 (length hashes / 8) hashes).

(** The index of the certificate, or -1. *)
Fixpoint findCertFrom (i : Z) (set : list (list Z)) (cert : list Z) : Z :=
  match set with
  | [] => -1
  | c :: set => if bool_decide (c = cert) then i else findCertFrom (i + 1) set cert
  end.
Definition findCertInSet (set : list (list Z)) (cert : list Z) : Z := findCertFrom 0 set cert.

(** ** Compression *)

Section compression.
(** The sets of common certificates, by their hash. *)
Variable certSets : gmap Z (list (list Z)).
(** What a zlib writer writes for a text, with a dictionary; the text a zlib reader reads from
    the bytes that are left; and what a call of [Read] with a buffer of [n] bytes does when the
    text still to be read is given: the bytes it reads, the rest and the error. *)
Variable deflate : list Z -> list Z -> list Z.
Variable inflate : list Z -> list Z -> result (list Z).
Variable zread : list Z -> nat -> list Z * list Z * option error.

Fixpoint commonEntry (setHashes : list Z) (cert : list Z) : entry :=
  match setHashes with
  | [] => entryCompressed
  | setHash :: setHashes =>
      match certSets !! setHash with
      | None => commonEntry setHashes cert
      | Some set =>
          let pos := findCertInSet set cert in
          if pos >=? 0 then entryCommon setHash (u32 pos) else commonEntry setHashes cert
      end
  end.

Definition buildEntry (cachedHashes setHashes : list Z) (cert : list Z) : entry :=
  if existsb (fun h => HashCert cert =? h) cachedHashes then entryCached (HashCert cert)
  else commonEntry setHashes cert.

Definition buildEntries (chain : list (list Z)) (cachedHashes setHashes : list Z) : list entry :=
  map (buildEntry cachedHashes setHashes) chain.

(** The certificates that are not compressed, in reverse order, and the dictionary. *)
Definition buildZlibDictForEntries (entries : list entry) (chain : list (list Z)) : list Z :=
  concat (rev (map snd (filter (fun ec => isCompressed ec.1 = false) (zip entries chain)))) ++ certDictZlib.

Definition writeEntry (e : entry) : list Z :=
  match e with
  | entryCompressed => [1]
  | entryCached h => 2 :: leEnc 8 h
  | entryCommon h i => 3 :: leEnc 8 h ++ leEnc 4 i
  end.

(** The certificates that are to be compressed. *)
Definition compressedCerts (entries : list entry) (chain : list (list Z)) : list (list Z) :=
  map snd (filter (fun ec => isCompressed ec.1 = true) (zip entries chain)).

Definition certFrame (cert : list Z) : list Z := leEnc 4 (zlen cert) ++ cert.

Definition totalUncompressedLen (certs : list (list Z)) : Z := foldr (fun c n => 4 + zlen c + n) 0 certs.

Definition compressChain (chain : list (list Z)) (pCommonSetHashes pCachedHashes : list Z) : result (list Z) :=
  let* cachedHashes := splitHashes pCachedHashes in
  let* setHashes := splitHashes pCommonSetHashes in
  let entries := buildEntries chain cachedHashes setHashes in
  let certs := compressedCerts entries chain in
  let total := totalUncompressedLen certs in
  Ok (concat (map writeEntry entries) ++ [0] ++
      if total >? 0
      then leEnc 4 (u32 total) ++ deflate (buildZlibDictForEntries entries chain) (concat (map certFrame certs))
      else []).

(** ** Decompression *)

(** The list of the entries, with the certificates that are known.  A byte that cannot be read
    counts as the end of the list. *)
Fixpoint readEntries (fuel : nat) (entries : list entry) (chain : list (list Z)) (r : list Z) :
    result (list entry * list (list Z) * list Z) :=
  match fuel, r with
  | _, [] => Ok (entries, chain, [])
  | O, _ => Panic
  | S fuel, entryTypeByte :: r =>
      if entryTypeByte =? 0 then Ok (entries, chain, r)
      else match entryTypeByte with
      | 2 => Err (errors_New "unexpected cached certificate")
      | 3 =>
          let* (h, r) := ReadUint64 LittleEndian r in
          let* (i, r) := ReadUint32 LittleEndian r in
          match certSets !! h with
          | None => Err (errors_New "unknown certSet")
          | Some certSet =>
              if i >=? u32 (zlen certSet) then Err (errors_New "certificate not found in certSet")
              else match certSet !! Z.to_nat i with
                   | None => Panic
                   | Some cert => readEntries fuel (entries ++ [entryCommon h i]) (chain ++ [cert]) r
                   end
          end
      | 1 => readEntries fuel (entries ++ [entryCompressed]) (chain ++ [[]]) r
      | _ => Err (errors_New "unknown entryType")
      end
  end.

(** The first entry that is compressed, from an index on. *)
Fixpoint nextCompressed (entries : list entry) (certIndex : nat) : option nat :=
  match entries, certIndex with
  | [], _ => None
  | e :: entries, O => if isCompressed e then Some O else S <$> nextCompressed entries O
  | _ :: entries, S i => S <$> nextCompressed entries i
  end.

(** A buffer of [n] bytes into which [l] was read. *)
Definition buffer (n : nat) (l : list Z) : list Z := l ++ replicate (n - length l) 0.

Fixpoint readCerts (fuel : nat) (totalLength uncompressedLength : Z) (certIndex : nat) (entries : list entry)
    (chain : list (list Z)) (text : list Z) : result (list (list Z)) :=
  match fuel with
  | O => Panic
  | S fuel =>
      if negb (totalLength <? uncompressedLength) then Ok chain
      else
      match zread text 4 with
      | (_, _, Some e) => Err e
      | (lenBytes, text, None) =>
          let certLen := leVal (buffer 4 lenBytes) in
          let '(read, text, err) := zread text (Z.to_nat certLen) in
          match err, u32 (zlen read) =? certLen with
          | Some e, false => Err e
          | _, _ =>
              match nextCompressed entries certIndex with
              | None => Err (errors_New "CertCompression BUG: no element to save uncompressed certificate")
              | Some i =>
                  readCerts fuel (u32 (totalLength + u32 (4 + certLen))) uncompressedLength (S i) entries
                    (<[i := buffer (Z.to_nat certLen) read]> chain) text
              end
          end
      end
  end.

(** Each iteration of the loop takes another entry. *)
Definition decompressChain (data : list Z) : result (list (list Z)) :=
  let* (entries, chain, r) := readEntries (length data) [] [] data in
  match entries with
  | [] => Ok []
  | _ =>
      if existsb isCompressed entries then
        let* (uncompressedLength, r) := ReadUint32 LittleEndian r in
        let* text := inflate (buildZlibDictForEntries entries chain) r in
        readCerts (S (length entries)) 0 uncompressedLength 0 entries chain text
      else Ok chain
  end.
End compression.

(** ** Lemmas *)

Lemma findCertFrom_spec set cert i : 0 <= i -> 0 <= findCertFrom i set cert ->
  i <= findCertFrom i set cert < i + zlen set /\ set !! Z.to_nat (findCertFrom i set cert - i) = Some cert.
Proof.
  revert i. induction set as [|c set IH]; intros i Hi; cbn [findCertFrom]; [lia|].
  rewrite bool_decide_decide. destruct (decide (c = cert)) as [->|Hne].
  - intros _. rewrite Z.sub_diag. unfold zlen. cbn [length]. split; [lia | reflexivity].
  - intros Hp. destruct (IH (i + 1)) as [Hr Hl]; [lia | exact Hp|]. unfold zlen in *. cbn [length]. split; [lia|].
    replace (Z.to_nat (findCertFrom (i + 1) set cert - i)) with (S (Z.to_nat (findCertFrom (i + 1) set cert - (i + 1)))) by lia.
    exact Hl.
Qed.

Section roundtrip.
Variable certSets : gmap Z (list (list Z)).
Variable deflate : list Z -> list Z -> list Z.
Variable inflate : list Z -> list Z -> result (list Z).
Variable zread : list Z -> nat -> list Z * list Z * option error.

Implicit Types (f : list Z -> entry) (pre suf chain : list (list Z)).

(** The hashes of the sets are 64-bit numbers, their indices fit into 32 bits. *)
Definition sets_ok : Prop := forall h set, certSets !! h = Some set -> is_u64 h /\ zlen set < 2 ^ 32.

(** An entry that names the certificate. *)
Definition names (e : entry) (cert : list Z) : Prop :=
  match e with
  | entryCompressed => True
  | entryCached _ => False
  | entryCommon h i => exists set, certSets !! h = Some set /\ 0 <= i < zlen set /\ set !! Z.to_nat i = Some cert
  end.

Lemma commonEntry_names setHashes cert : sets_ok -> names (commonEntry certSets setHashes cert) cert.
Proof.
  intros Hok. induction setHashes as [|h hs IH]; [exact I|]. cbn [commonEntry].
  destruct (certSets !! h) as [set|] eqn:E; [|exact IH].
  destruct (findCertInSet set cert >=? 0) eqn:Ef; [|exact IH].
  unfold findCertInSet in *. destruct (findCertFrom_spec set cert 0) as [Hr Hl]; [lia..|].
  destruct (Hok h set E) as [_ Hlen]. rewrite Z.sub_0_r in Hl.
  exists set. rewrite u32_small by (unfold is_u32; lia). split; [exact E|]. split; [lia | exact Hl].
Qed.

(** What is known of a certificate before the text is decompressed. *)
Definition known (e : entry) (cert : list Z) : list Z := if isCompressed e then [] else cert.

Lemma readEntries_written f chain acc cacc rest fuel : sets_ok -> (forall c, c ∈ chain -> names (f c) c) ->
  (length chain < fuel)%nat ->
  readEntries certSets fuel acc cacc (concat (map writeEntry (map f chain)) ++ 0 :: rest) =
  Ok (acc ++ map f chain, cacc ++ map (fun c => known (f c) c) chain, rest).
Proof.
  intros Hok. revert acc cacc fuel. induction chain as [|c chain IH]; intros acc cacc fuel Hn Hf; cbn [map concat].
  - destruct fuel; [cbn in Hf; lia|]. cbn. rewrite !app_nil_r. reflexivity.
  - destruct fuel as [|fuel]; [cbn in Hf; lia|]. cbn [length] in Hf.
    assert (IH' := fun acc cacc => IH acc cacc fuel (fun c Hc => Hn c (list_elem_of_further _ _ _ Hc)) ltac:(lia)). clear IH.
    specialize (Hn c (list_elem_of_here _ _)). destruct (f c) as [|h|h i] eqn:Ec; cbn [writeEntry app readEntries]; [|destruct Hn|].
    + cbn [Z.eqb]. rewrite IH', <- !app_assoc. reflexivity.
    + destruct Hn as (set & Es & Hi & Hl). destruct (Hok h set Es) as [Hh Hlen]. cbn [Z.eqb Pos.eqb].
      rewrite <- !app_assoc. cbn [ReadUint64 LittleEndian]. rewrite le_read_enc64 by exact Hh. cbn [bind].
      cbn [ReadUint32 LittleEndian]. rewrite le_read_enc32 by (unfold is_u32; lia). cbn [bind]. rewrite Es.
      rewrite u32_small by (unfold is_u32, zlen in *; lia). replace (i >=? zlen set) with false by lia.
      rewrite Hl, IH', <- !app_assoc. reflexivity.
Qed.

Lemma nextCompressed_at f pre c suf : isCompressed (f c) = true ->
  nextCompressed (map f (pre ++ c :: suf)) (length pre) = Some (length pre).
Proof.
  intros Hc. induction pre as [|p pre IH]; cbn [app map length nextCompressed]; [rewrite Hc; reflexivity|].
  rewrite IH. reflexivity.
Qed.

Lemma nextCompressed_skip f pre c suf : isCompressed (f c) = false ->
  nextCompressed (map f (pre ++ c :: suf)) (length pre) = nextCompressed (map f (pre ++ c :: suf)) (S (length pre)).
Proof.
  intros Hc. induction pre as [|p pre IH]; cbn [app map length nextCompressed]; [|rewrite IH; reflexivity].
  rewrite Hc. reflexivity.
Qed.

Lemma readCerts_skip fuel total len i j entries chain text : nextCompressed entries i = nextCompressed entries j ->
  readCerts zread fuel total len i entries chain text = readCerts zread fuel total len j entries chain text.
Proof. intros E. destruct fuel; [reflexivity|]. cbn [readCerts]. rewrite E. reflexivity. Qed.

(** The certificates of a chain that are compressed. *)
Definition toCompress (f : list Z -> entry) (chain : list (list Z)) : list (list Z) :=
  filter (fun c => isCompressed (f c) = true) chain.

Lemma compressedCerts_map f chain : compressedCerts (map f chain) chain = toCompress f chain.
Proof.
  unfold compressedCerts, toCompress. induction chain as [|c chain IH]; [reflexivity|]. cbn [map zip].
  rewrite !filter_cons. cbn [fst]. destruct (decide (isCompressed (f c) = true)); cbn [map snd]; rewrite IH; reflexivity.
Qed.

Lemma dict_known f chain :
  buildZlibDictForEntries (map f chain) (map (fun c => known (f c) c) chain) = buildZlibDictForEntries (map f chain) chain.
Proof.
  unfold buildZlibDictForEntries. f_equal. f_equal. f_equal.
  induction chain as [|c chain IH]; [reflexivity|]. cbn [map zip]. rewrite !filter_cons. cbn [fst].
  destruct (decide (isCompressed (f c) = false)) as [E|]; [|exact IH]. cbn [map snd]. rewrite IH. unfold known. rewrite E. reflexivity.
Qed.

(** A [Read] fills its buffer when there is enough text left, and reports the end of the text
    only with the last byte.  The decompression relies on it, though an [io.Reader] does not promise it: see
    [short_read_corrupts]. *)
Definition reads_full : Prop := forall text n, (n <= length text)%nat ->
  exists err, zread text n = (take n text, drop n text, err) /\ (drop n text <> [] -> err = None).

Lemma totalUncompressedLen_nonneg certs : 0 <= totalUncompressedLen certs.
Proof. induction certs as [|c certs IH]; cbn [totalUncompressedLen foldr]; [lia|]. unfold totalUncompressedLen, zlen in *. lia. Qed.

Lemma readCerts_all f suf pre total fuel : reads_full -> (forall c, c ∈ suf -> c <> []) ->
  0 <= total -> total + totalUncompressedLen (toCompress f suf) < 2 ^ 32 ->
  (length (toCompress f suf) < fuel)%nat ->
  readCerts zread fuel total (total + totalUncompressedLen (toCompress f suf)) (length pre) (map f (pre ++ suf))
    (pre ++ map (fun c => known (f c) c) suf) (concat (map certFrame (toCompress f suf))) = Ok (pre ++ suf).
Proof.
  intros Hread. revert pre total fuel. induction suf as [|c suf IH]; intros pre total fuel Hne Ht Hmax Hfuel.
  { destruct fuel; [cbn in Hfuel; lia|]. cbn [readCerts toCompress filter list_filter totalUncompressedLen foldr map]. rewrite Z.add_0_r, Z.ltb_irrefl. reflexivity. }
  assert (Hne' : forall x, x ∈ suf -> x <> []) by (intros x Hx; apply Hne; right; exact Hx).
  assert (Hc : c <> []) by (apply Hne; left).
  specialize (IH (pre ++ [c])). rewrite length_app, <- !app_assoc in IH. cbn [length app] in IH.
  unfold toCompress in *. rewrite filter_cons in *. cbn [map]. unfold known at 1.
  destruct (decide (isCompressed (f c) = true)) as [Ec|Ec].
  - rewrite Ec. cbn [length] in Hfuel. destruct fuel as [|fuel]; [lia|].
    cbn [totalUncompressedLen foldr] in Hmax |- *. fold (totalUncompressedLen (filter (fun c => isCompressed (f c) = true) suf)) in *.
    set (rest := totalUncompressedLen _) in *. assert (Hrest : 0 <= rest) by apply totalUncompressedLen_nonneg.
    assert (Hlen : 0 < zlen c) by (destruct c; [contradiction | unfold zlen; cbn [length]; lia]).
    cbn [readCerts map concat]. replace (total <? total + (4 + zlen c + rest)) with true by lia. cbn [negb].
    unfold certFrame at 1. rewrite <- !app_assoc. set (more := concat _).
    destruct (Hread (leEnc 4 (zlen c) ++ c ++ more) 4%nat) as (e1 & E1 & He1); [rewrite length_app, leEnc_length; lia|].
    rewrite E1. rewrite (drop_app_length' (leEnc 4 (zlen c))) in He1 |- * by (symmetry; apply leEnc_length).
    rewrite (take_app_length' (leEnc 4 (zlen c))) by (symmetry; apply leEnc_length).
    rewrite He1 by (destruct c; [contradiction | discriminate]).
    assert (Hlv : leVal (buffer 4 (leEnc 4 (zlen c))) = zlen c).
    { unfold buffer. rewrite leEnc_length. cbn [Nat.sub replicate]. rewrite app_nil_r. apply leVal_leEnc. lia. }
    rewrite Hlv. replace (Z.to_nat (zlen c)) with (length c) by (unfold zlen; lia).
    destruct (Hread (c ++ more) (length c)) as (e2 & E2 & _); [rewrite length_app; lia|].
    rewrite E2, take_app_length, drop_app_length. rewrite u32_small by (unfold is_u32; lia). rewrite Z.eqb_refl.
    rewrite nextCompressed_at by exact Ec.
    assert (Hnext : readCerts zread fuel (u32 (total + u32 (4 + zlen c))) (total + (4 + zlen c + rest)) (S (length pre))
      (map f (pre ++ c :: suf)) (<[length pre := buffer (length c) c]> (pre ++ [] :: map (fun c0 => known (f c0) c0) suf)) more = Ok (pre ++ c :: suf)).
    { rewrite (u32_small (4 + zlen c)), u32_small by (unfold is_u32; lia).
      unfold buffer. rewrite Nat.sub_diag. cbn [replicate]. rewrite app_nil_r.
      rewrite <- (Nat.add_0_r (length pre)) at 2. rewrite insert_app_r. cbn [list_insert insert].
      replace (total + (4 + zlen c + rest)) with (total + (4 + zlen c) + rest) by lia.
      replace (S (length pre)) with (length pre + 1)%nat by lia. apply IH; [exact Hne' | lia | lia | lia]. }
    destruct e2; exact Hnext.
  - apply not_true_is_false in Ec. rewrite Ec. rewrite (readCerts_skip _ _ _ (length pre) (S (length pre))) by (apply nextCompressed_skip, Ec).
    replace (S (length pre)) with (length pre + 1)%nat by lia. apply IH; assumption.
Qed.

Lemma entries_length es : (length es <= length (concat (map writeEntry es)))%nat.
Proof.
  induction es as [|e es IH]; [reflexivity|]. cbn [map concat length]. rewrite length_app.
  assert (1 <= length (writeEntry e))%nat by (destruct e; cbn; lia). lia.
Qed.

Lemma toCompress_length f chain : totalUncompressedLen (toCompress f chain) <= totalUncompressedLen chain /\
  (length (toCompress f chain) <= length chain)%nat.
Proof.
  unfold toCompress. induction chain as [|c chain [IH1 IH2]]; [split; reflexivity|]. rewrite filter_cons.
  destruct (decide _); cbn [totalUncompressedLen foldr length]; fold (totalUncompressedLen chain);
    fold (totalUncompressedLen (filter (fun c => isCompressed (f c) = true) chain)); unfold zlen; lia.
Qed.

Lemma some_compressed f chain : existsb isCompressed (map f chain) = (totalUncompressedLen (toCompress f chain) >? 0).
Proof.
  unfold toCompress. induction chain as [|c chain IH]; [reflexivity|]. cbn [map existsb]. rewrite filter_cons.
  destruct (decide (isCompressed (f c) = true)) as [E|E].
  - rewrite E. cbn [orb totalUncompressedLen foldr]. fold (totalUncompressedLen (filter (fun c => isCompressed (f c) = true) chain)).
    pose proof (totalUncompressedLen_nonneg (filter (fun c => isCompressed (f c) = true) chain)). unfold zlen. lia.
  - apply not_true_is_false in E. rewrite E. exact IH.
Qed.

Lemma none_compressed f chain : existsb isCompressed (map f chain) = false -> map (fun c => known (f c) c) chain = chain.
Proof.
  induction chain as [|c chain IH]; [reflexivity|]. cbn [map existsb]. intros [E1 E2]%orb_false_iff.
  rewrite IH by exact E2. unfold known. rewrite E1. reflexivity.
Qed.

Lemma buildEntries_map chain setHashes : buildEntries certSets chain [] setHashes = map (commonEntry certSets setHashes) chain.
Proof. reflexivity. Qed.

Lemma chain_roundtrip_gen chain pCommonSetHashes data : sets_ok -> reads_full ->
  (forall dict text, inflate dict (deflate dict text) = Ok text) ->
  (forall c, c ∈ chain -> c <> []) -> totalUncompressedLen chain < 2 ^ 32 ->
  compressChain certSets deflate chain pCommonSetHashes [] = Ok data ->
  decompressChain certSets inflate zread data = Ok chain.
Proof.
  intros Hok Hread Hz Hne Hlen. unfold compressChain. change (splitHashes []) with (Ok (A := list Z) []). cbn [bind].
  destruct (splitHashes pCommonSetHashes) as [hs| |]; [|discriminate..]. cbn [bind].
  rewrite buildEntries_map, compressedCerts_map. set (f := commonEntry certSets hs).
  set (tail := if totalUncompressedLen (toCompress f chain) >? 0 then _ else _). intros [= <-].
  destruct (toCompress_length f chain) as [Hl1 Hl2]. pose proof (totalUncompressedLen_nonneg (toCompress f chain)) as Hl0.
  unfold decompressChain. cbn [app].
  assert (Hfuel : forall rest : list Z, (length chain < length (concat (map writeEntry (map f chain)) ++ 0%Z :: rest))%nat).
  { intros rest. rewrite length_app. cbn [length]. pose proof (entries_length (map f chain)) as Hw. rewrite length_map in Hw. lia. }
  rewrite (readEntries_written f chain [] [] _ _ Hok (fun c _ => commonEntry_names hs c Hok) (Hfuel _)).
  cbn [bind app]. subst tail. rewrite some_compressed.
  destruct (map f chain) as [|e es] eqn:Em; [destruct chain; [reflexivity | discriminate]|]. rewrite <- Em. clear Hfuel e es Em.
  destruct (totalUncompressedLen (toCompress f chain) >? 0) eqn:Et.
  - rewrite u32_small by (unfold is_u32; lia). cbn [ReadUint32 LittleEndian]. rewrite le_read_enc32 by (unfold is_u32; lia). cbn [bind].
    rewrite dict_known, Hz. cbn [bind].
    apply (readCerts_all f chain [] 0); try assumption; [lia..|]. rewrite length_map. lia.
  - rewrite none_compressed; [reflexivity|]. rewrite some_compressed. exact Et.
Qed.
End roundtrip.

(** The certificates of the server arrive at the client as they are, whichever of the common
    sets the client named: when zlib returns what was compressed, and every [Read] fills
    its buffer, which is not promised. *)
Theorem chain_roundtrip certSets deflate inflate zread chain pCommonSetHashes data :
  sets_ok certSets -> reads_full zread -> (forall dict text, inflate dict (deflate dict text) = Ok text) ->
  (forall c, c ∈ chain -> c <> []) -> totalUncompressedLen chain < 2 ^ 32 ->
  compressChain certSets deflate chain pCommonSetHashes [] = Ok data ->
  decompressChain certSets inflate zread data = Ok chain.
Proof. apply chain_roundtrip_gen. Qed.

(** A [Read] may return fewer bytes than its buffer holds, without an error.  Then a
    certificate that is too long is cut and filled up with zeros, without an error: here a
    reader that returns at most 5 bytes at a time. *)
Definition five_bytes (text : list Z) (n : nat) : list Z * list Z * option error :=
  (take (Nat.min 5 n) text, drop (Nat.min 5 n) text, None).

Example short_read_corrupts :
  (let* data := compressChain ∅ (fun _ text => text) [[1; 2; 3; 4; 5; 6]] [] [] in
   decompressChain ∅ (fun _ data => Ok data) five_bytes data) = Ok [[1; 2; 3; 4; 5; 0]].
Proof. vm_compute. reflexivity. Qed.

(** ** Decompression ends *)

Lemma ReadUint32_range r i r' : ReadUint32 LittleEndian r = Ok (i, r') -> is_u32 i.
Proof.
  cbn [ReadUint32 LittleEndian]. unfold leReadUint32, rbind, rret. destruct r as [|b1 [|b2 [|b3 [|b4 r]]]]; cbn [ReadByte]; try discriminate.
  intros [= <- _]. apply u32_range.
Qed.

Lemma readEntries_total certSets fuel entries chain r : bytes_ok r -> (length r <= fuel)%nat ->
  match readEntries certSets fuel entries chain r with Ok (_, _, r') => bytes_ok r' | Err _ => True | Panic => False end.
Proof.
  revert entries chain r. induction fuel as [|fuel IH]; intros entries chain r Hr Hl.
  { destruct r; [constructor | cbn in Hl; lia]. }
  destruct r as [|b r]; [constructor|]. cbn [readEntries]. inversion Hr as [|? ? _ Hr0]; subst. clear Hr. rename Hr0 into Hr. cbn [length] in Hl.
  destruct (b =? 0); [exact Hr|].
  assert (Hc : match (let* (h, r) := ReadUint64 LittleEndian r in
          let* (i, r) := ReadUint32 LittleEndian r in
          match certSets !! h with
          | None => Err (errors_New "unknown certSet")
          | Some certSet =>
              if i >=? u32 (zlen certSet) then Err (errors_New "certificate not found in certSet")
              else match certSet !! Z.to_nat i with
                   | None => Panic
                   | Some cert => readEntries certSets fuel (entries ++ [entryCommon h i]) (chain ++ [cert]) r
                   end
          end) with Ok (_, _, r') => bytes_ok r' | Err _ => True | Panic => False end).
  { pose proof (ReadUint64_safe 38 r Hr) as H1. change (GetByteOrder 38) with LittleEndian in H1.
    destruct (ReadUint64 LittleEndian r) as [[h r1]| |]; [|exact I | exact H1]. destruct H1 as (_ & Hr1 & Hl1). cbn [bind].
    pose proof (ReadUint32_safe 38 r1 Hr1) as H2. change (GetByteOrder 38) with LittleEndian in H2.
    destruct (ReadUint32 LittleEndian r1) as [[i r2]| |] eqn:E2; [|exact I | exact H2]. destruct H2 as (_ & Hr2 & Hl2). cbn [bind].
    destruct (certSets !! h) as [set|]; [|exact I]. destruct (i >=? u32 (zlen set)) eqn:Ei; [exact I|].
    destruct (set !! Z.to_nat i) eqn:El; [apply IH; [exact Hr2 | lia]|]. apply lookup_ge_None in El.
    assert (u32 (zlen set) <= zlen set) by (unfold u32, wrap; apply Z.mod_le; unfold zlen; lia).
    pose proof (ReadUint32_range _ _ _ E2) as Hi. unfold is_u32, zlen in *. lia. }
  destruct b as [|p|p]; [exact I| |exact I].
  destruct p as [[?|?|]|[?|?|]|]; first [exact Hc | apply IH; [exact Hr | lia] | exact I].
Qed.

Lemma nextCompressed_range entries i j : nextCompressed entries i = Some j -> (i <= j < length entries)%nat.
Proof.
  revert i j. induction entries as [|e entries IH]; intros i j; [discriminate|]. cbn [nextCompressed length].
  destruct i as [|i]; [destruct (isCompressed e); [intros [= <-]; lia|]|]; intros (j' & E & ->)%fmap_Some; apply IH in E; lia.
Qed.

Lemma readCerts_total zread fuel total len i entries chain text : (length entries < fuel + i)%nat -> (i <= length entries)%nat ->
  readCerts zread fuel total len i entries chain text <> Panic.
Proof.
  revert total i chain text. induction fuel as [|fuel IH]; intros total i chain text Hf Hi; [lia|]. cbn [readCerts].
  destruct (negb _); [discriminate|]. destruct (zread text 4%nat) as [[lenBytes text1] [e|]]; [discriminate|].
  destruct (zread text1 _) as [[read text2] err].
  assert (Hnext : match nextCompressed entries i with
    | None => Err (errors_New "CertCompression BUG: no element to save uncompressed certificate")
    | Some j => readCerts zread fuel (u32 (total + u32 (4 + leVal (buffer 4 lenBytes)))) len (S j) entries
        (<[j := buffer (Z.to_nat (leVal (buffer 4 lenBytes))) read]> chain) text2
    end <> Panic).
  { destruct (nextCompressed entries i) as [j|] eqn:Ej; [|discriminate]. apply nextCompressed_range in Ej. apply IH; lia. }
  destruct err as [e|]; [destruct (_ =? _)|]; [exact Hnext | discriminate | exact Hnext].
Qed.

(** Whatever a server sends for its certificates, and however zlib reads it, decompression
    ends, after at most one iteration for each certificate and one more, and does not
    panic. *)
Theorem decompressChain_total certSets inflate zread data : bytes_ok data ->
  (forall dict r, inflate dict r <> Panic) -> decompressChain certSets inflate zread data <> Panic.
Proof.
  intros Hb Hz. unfold decompressChain.
  pose proof (readEntries_total certSets (length data) [] [] data Hb (le_n _)) as He.
  destruct (readEntries _ _ _ _ _) as [[[entries chain] r]| |]; [|discriminate | contradiction]. cbn [bind].
  rename He into Hr. destruct entries as [|e entries]; [discriminate|]. destruct (existsb _ _); [|discriminate].
  pose proof (ReadUint32_safe 38 r Hr) as H2. change (GetByteOrder 38) with LittleEndian in H2.
  destruct (ReadUint32 LittleEndian r) as [[n r']| |]; [|discriminate | contradiction]. cbn [bind].
  specialize (Hz (buildZlibDictForEntries (e :: entries) chain) r'). destruct (inflate _ _) as [text| |]; [|discriminate | contradiction].
  cbn [bind]. apply readCerts_total; lia.
Qed.

(** ** The cache of compressed chains (cert_cache.go) *)

Definition cacheKey (chain : list (list Z)) (pCommonSetHashes pCachedHashes : list Z) : Z :=
  fnv64a_Write (fnv64a_Write (fold_left fnv64a_Write chain fnv64a_offset) pCommonSetHashes) pCachedHashes.

(** [evicted] is the key of the result that the cache drops for a new one. *)
Definition getCompressedCert (certSets : gmap Z (list (list Z))) (deflate : list Z -> list Z -> list Z)
    (cache : gmap Z (list Z)) (evicted : option Z) (chain : list (list Z)) (pCommonSetHashes pCachedHashes : list Z) :
    gmap Z (list Z) * result (list Z) :=
  let hash := cacheKey chain pCommonSetHashes pCachedHashes in
  match cache !! hash with
  | Some res => (cache, Ok res)
  | None =>
      match compressChain certSets deflate chain pCommonSetHashes pCachedHashes with
      | Ok res => (<[hash := res]> (match evicted with Some k => delete k cache | None => cache end), Ok res)
      | Err e => (cache, Err e)
      | Panic => (cache, Panic)
      end
  end.

Lemma cacheKey_boundary chain a b a' b' : a ++ b = a' ++ b' -> cacheKey chain a b = cacheKey chain a' b'.
Proof. intros E. unfold cacheKey, fnv64a_Write. rewrite <- !fold_left_app, E. reflexivity. Qed.

(** The key of the cache is a hash of the two lists of hashes of a client one after the other,
    without their boundary: a client gets what was compressed for another one
    whose lists are different but make up the same bytes. *)
Theorem cache_ignores_boundary certSets deflate cache evicted evicted' chain a b a' b' cache1 data :
  getCompressedCert certSets deflate cache evicted chain a b = (cache1, Ok data) -> a ++ b = a' ++ b' ->
  getCompressedCert certSets deflate cache1 evicted' chain a' b' = (cache1, Ok data).
Proof.
  unfold getCompressedCert. intros E Eab. rewrite <- (cacheKey_boundary chain a b a' b' Eab).
  destruct (cache !! cacheKey chain a b) as [res|] eqn:Ec; [injection E as <- <-; rewrite Ec; reflexivity|].
  destruct (compressChain _ _ _ _ _); [|discriminate..]. injection E as <- <-. rewrite lookup_insert_eq. reflexivity.
Qed.

(** A client that names the certificate as one it has makes the server refer to it; the next
    client, which sends the same bytes as the hash of a set, cannot read that. *)
Example cache_poisoned :
  let chain := [[1; 2; 3]] in
  let h := leEnc 8 (HashCert [1; 2; 3]) in
  let cache := (getCompressedCert ∅ (fun _ text => text) ∅ None chain [] h).1 in
  (let* data := (getCompressedCert ∅ (fun _ text => text) cache None chain h []).2 in
   decompressChain ∅ (fun _ data => Ok data) five_bytes data) = Err (errors_New "unexpected cached certificate").
Proof. vm_compute. reflexivity. Qed.

(** ** The certificates of the server (cert_chain.go) *)

Section chains.
(** The type of the private keys. *)
Context {K : Type}.

Record tlsCertificate : Type := mkCertificate { tc_Certificate : list (list Z); tc_PrivateKey : K }.

Record tlsConfig : Type := mkTLSConfig {
  GetCertificate : option (list Z -> result (option tlsCertificate));
  Certificates : list tlsCertificate;
  NameToCertificate : option (gmap (list Z) tlsCertificate);
}.

(** [GetConfigForClient] of the configuration of the server may return nil. *)
Record certChain : Type := mkChain {
  cc_config : tlsConfig;
  cc_GetConfigForClient : option (list Z -> result (option tlsConfig));
}.

Definition errNoMatchingCertificate : error := errors_New "no matching certificate found".

Definition maybeGetConfigForClient (c : certChain) (sni : list Z) : result (option tlsConfig) :=
  match cc_GetConfigForClient c with
  | None => Ok (Some (cc_config c))
  | Some f => f sni
  end.

(** [strings.ToLower], for ASCII. *)
Definition toLower (s : list Z) : list Z := map (fun c => if (65 <=? c) && (c <=? 90) then c + 32 else c) s.

Fixpoint dropDots (s : list Z) : list Z :=
  match s with
  | c :: s' => if c =? 46 then dropDots s' else s
  | [] => []
  end.
Definition trimDots (s : list Z) : list Z := rev (dropDots (rev s)).

(** [strings.Split(name, ".")]. *)
Fixpoint split (label s : list Z) : list (list Z) :=
  match s with
  | [] => [label]
  | c :: s => if c =? 46 then label :: split [] s else split (label ++ [c]) s
  end.

Definition join (labels : list (list Z)) : list Z :=
  match labels with
  | [] => []
  | l :: labels => l ++ concat (map (fun x => 46 :: x) labels)
  end.

(** The loop over the labels: those before the index are wildcards already. *)
Fixpoint tryWildcards (names : gmap (list Z) tlsCertificate) (before labels : list (list Z)) : option tlsCertificate :=
  match labels with
  | [] => None
  | _ :: labels =>
      let before := before ++ [[42]] in
      match names !! join (before ++ labels) with
      | Some cert => Some cert
      | None => tryWildcards names before labels
      end
  end.

Definition selectCertificate (c : tlsConfig) (sni : list Z) : result tlsCertificate :=
  match Certificates c with
  | [] => Err errNoMatchingCertificate
  | first :: more =>
      match more, NameToCertificate c with
      | [], _ | _, None => Ok first
      | _, Some names =>
          let name := trimDots (toLower sni) in
          match names !! name with
          | Some cert => Ok cert
          | None => match tryWildcards names [] (split [] name) with
                    | Some cert => Ok cert
                    | None => Ok first
                    end
          end
      end
  end.

Definition getCertForSNI (cc : certChain) (sni : list Z) : result tlsCertificate :=
  let* c := maybeGetConfigForClient cc sni in
  match c with
  | None => Panic
  | Some c =>
      match GetCertificate c with
      | Some f =>
          let* cert := f sni in
          match cert with
          | Some cert => Ok cert
          | None => selectCertificate c sni
          end
      | None => selectCertificate c sni
      end
  end.

Definition chain_GetLeafCert (cc : certChain) (sni : list Z) : result (list Z) :=
  let* cert := getCertForSNI cc sni in
  match tc_Certificate cert with [] => Panic | c :: _ => Ok c end.

Section interface.
Variable certSets : gmap Z (list (list Z)).
Variable deflate : list Z -> list Z -> list Z.
(** [signServerProof]. *)
Variable sign : tlsCertificate -> list Z -> list Z -> result (list Z).

(** What the handshake sees of the chain, with the cache as it is. *)
Definition certChain_interface (cc : certChain) (cache : gmap Z (list Z)) : CertChain :=
  mkCertChain
    (fun sni chlo serverConfigData => let* cert := getCertForSNI cc sni in sign cert chlo serverConfigData)
    (fun sni pCommonSetHashes pCachedHashes =>
       let* cert := getCertForSNI cc sni in
       (getCompressedCert certSets deflate cache None (tc_Certificate cert) pCommonSetHashes pCachedHashes).2)
    (chain_GetLeafCert cc).
End interface.

(** A configuration function that returns nil, which crypto/tls documents as a request to use
    the original configuration, makes the server panic. *)
Theorem nil_config_panics cc f sni : cc_GetConfigForClient cc = Some f -> f sni = Ok None -> getCertForSNI cc sni = Panic.
Proof. intros E Ef. unfold getCertForSNI, maybeGetConfigForClient. rewrite E, Ef. reflexivity. Qed.

(** The certificate that is selected is one of the configuration. *)
Lemma tryWildcards_In names before labels cert : tryWildcards names before labels = Some cert ->
  exists name, names !! name = Some cert.
Proof.
  revert before. induction labels as [|l labels IH]; intros before; [discriminate|]. cbn [tryWildcards].
  destruct (names !! _) as [c|] eqn:E; [intros [= <-]; eauto | apply IH].
Qed.

Theorem selectCertificate_configured c sni cert : selectCertificate c sni = Ok cert ->
  In cert (Certificates c) \/ exists names name, NameToCertificate c = Some names /\ names !! name = Some cert.
Proof.
  unfold selectCertificate. destruct (Certificates c) as [|first more]; [discriminate|].
  destruct more as [|second more]; [intros [= <-]; left; left; reflexivity|].
  destruct (NameToCertificate c) as [names|]; [|intros [= <-]; left; left; reflexivity].
  destruct (names !! _) as [x|] eqn:E1; [intros [= <-]; right; eauto|].
  destruct (tryWildcards _ _ _) as [x|] eqn:E2; intros [= <-]; [|left; left; reflexivity].
  right. destruct (tryWildcards_In _ _ _ _ E2) as [name Hn]. eauto.
Qed.
End chains.
