(* ===== verification/CertManager.v ===== *)
(** * The certificates of the client and the server proof (internal/crypto/cert_manager.go,
    server_proof.go)

    The client decompresses and parses the chain of the server, verifies it, and verifies the
    signature of the server config with its leaf.  The parser and the verification of
    certificates (crypto/x509), SHA-256 and the signatures (crypto/rsa, crypto/ecdsa) are
    parameters.  The last theorems put the two sides together: what the server announces and signs
    is what the client gets and accepts, which is what the handshake needs of them. *)
From S2P Require Import Prelude Qerr ByteOrder Protocol Frames ParserSafety Aead ServerConfig CryptoClient Certs.

(** ** server_proof.go *)

Section proof.
Variable sha256 : list Z -> list Z.

(** The keys that occur as the public key of a certificate. *)
Inductive publicKey : Type :=
| rsaPublicKey (id : Z)
| ecdsaPublicKey (id : Z)
| otherPublicKey (id : Z).

(** A private key may be something that does not sign. *)
Inductive privateKey : Type :=
| rsaPrivateKey (id : Z)
| signerKey (id : Z)
| noSigner.

(** The options of a signature: those of PSS, or the hash alone. *)
Inductive signerOpts : Type :=
| PSSOptions (SaltLength : Z)
| optsSHA256.

(** [key.Sign] with its randomness, [rsa.VerifyPSS], [asn1.Unmarshal] of a pair of integers
    with the bytes that are left, and [ecdsa.Verify]. *)
Variable Sign : privateKey -> list Z -> signerOpts -> result (list Z).
Variable VerifyPSS : Z -> list Z -> list Z -> signerOpts -> bool.
Variable Unmarshal : list Z -> result (Z * Z * list Z).
Variable ecdsaVerify : Z -> list Z -> Z -> Z -> bool.

(** What is hashed, and its hash: the same lines in both functions. *)
Definition proofDigest (chlo serverConfigData : list Z) : list Z :=
  sha256 (bytesOf "QUIC CHLO and server config signature" ++ [0] ++ [32; 0; 0; 0] ++ sha256 chlo ++ serverConfigData).

Definition signServerProof (key : privateKey) (chlo serverConfigData : list Z) : result (list Z) :=
  match key with
  | noSigner => Err (errors_New "expected PrivateKey to implement crypto.Signer")
  | rsaPrivateKey _ => Sign key (proofDigest chlo serverConfigData) (PSSOptions 32)
  | signerKey _ => Sign key (proofDigest chlo serverConfigData) optsSHA256
  end.

(** [cert.PublicKey.( *ecdsa.PublicKey)] panics for another key. *)
Definition verifyServerProof (proof : list Z) (key : publicKey) (chlo serverConfigData : list Z) : result bool :=
  match key with
  | rsaPublicKey id => Ok (VerifyPSS id (proofDigest chlo serverConfigData) proof (PSSOptions 32))
  | _ =>
      match Unmarshal proof with
      | Ok (R, S0, rest) =>
          if negb (zlen rest =? 0) then Ok false
          else match key with
               | ecdsaPublicKey id => Ok (ecdsaVerify id (proofDigest chlo serverConfigData) R S0)
               | _ => Panic
               end
      | _ => Ok false
      end
  end.

(** The public key of a private key, and signatures that the public key verifies: as
    crypto/rsa and crypto/ecdsa document them. *)
Inductive key_pair : privateKey -> publicKey -> Prop :=
| pair_rsa id : key_pair (rsaPrivateKey id) (rsaPublicKey id)
| pair_ecdsa id : key_pair (signerKey id) (ecdsaPublicKey id).

Definition rsa_verifies : Prop := forall id digest sig,
  Sign (rsaPrivateKey id) digest (PSSOptions 32) = Ok sig -> VerifyPSS id digest sig (PSSOptions 32) = true.
Definition ecdsa_verifies : Prop := forall id digest sig,
  Sign (signerKey id) digest optsSHA256 = Ok sig ->
  exists R S0, Unmarshal sig = Ok (R, S0, []) /\ ecdsaVerify id digest R S0 = true.

Lemma proof_verifies key pub chlo serverConfigData proof : rsa_verifies -> ecdsa_verifies -> key_pair key pub ->
  signServerProof key chlo serverConfigData = Ok proof -> verifyServerProof proof pub chlo serverConfigData = Ok true.
Proof.
  intros Hrsa Hec [id|id] Hs; cbn [signServerProof] in Hs; unfold verifyServerProof.
  - rewrite (Hrsa _ _ _ Hs). reflexivity.
  - destruct (Hec _ _ _ Hs) as (R & S0 & -> & Hv). cbn. rewrite Hv. reflexivity.
Qed.

(** A key that is neither of RSA nor of ECDSA (DSA, Ed25519) makes the client panic, as soon as the
    proof has the form of an ECDSA signature. *)
Theorem other_key_panics id proof R S0 chlo serverConfigData : Unmarshal proof = Ok (R, S0, []) ->
  verifyServerProof proof (otherPublicKey id) chlo serverConfigData = Panic.
Proof. intros E. unfold verifyServerProof. rewrite E. reflexivity. Qed.
End proof.

(** ** cert_manager.go *)

Definition errNoCertificateChain : error := errors_New "CertManager BUG: No certicifate chain loaded".

(** What is used of a parsed certificate. *)
Record x509Certificate : Type := mkX509 { Raw : list Z; x_PublicKey : publicKey }.

(** The options of a verification; [Roots] and [Intermediates] are pools, which may be nil. *)
Record VerifyOptions : Type := mkVerifyOptions {
  DNSName : list Z;
  Intermediates : option (list x509Certificate);
  Roots : option (list x509Certificate);
  CurrentTime : option Z;
}.

(** The fields of the configuration of the client that are used. *)
Record clientTLS : Type := mkClientTLS {
  InsecureSkipVerify : bool;
  RootCAs : option (list x509Certificate);
  tls_Time : option Z;
}.

Record certManager : Type := mkManager { cm_chain : list x509Certificate; cm_config : option clientTLS }.

Section manager.
Variable certSets : gmap Z (list (list Z)).
Variable inflate : list Z -> list Z -> result (list Z).
Variable zread : list Z -> nat -> list Z * list Z * option error.
(** [x509.ParseCertificate], [Verify] of a certificate, and the verification of the proof. *)
Variable ParseCertificate : list Z -> error + x509Certificate.
Variable x509Verify : x509Certificate -> VerifyOptions -> option error.
Variable verifyProof : list Z -> publicKey -> list Z -> list Z -> result bool.

Definition NewCertManager (config : option clientTLS) : certManager := mkManager [] config.

Fixpoint parseChain (byteChain : list (list Z)) : error + list x509Certificate :=
  match byteChain with
  | [] => inr []
  | data :: byteChain =>
      match ParseCertificate data with
      | inl e => inl e
      | inr cert => match parseChain byteChain with inl e => inl e | inr chain => inr (cert :: chain) end
      end
  end.

Definition SetData (c : certManager) (data : list Z) : result certManager :=
  match decompressChain certSets inflate zread data with
  | Panic => Panic
  | Err _ => Err (QuicError qerr.InvalidCryptoMessageParameter "Certificate data invalid")
  | Ok byteChain =>
      match parseChain byteChain with
      | inl e => Err e
      | inr chain => Ok (mkManager chain (cm_config c))
      end
  end.

(** [order] is the order in which the map of the sets is iterated. *)
Definition getCommonCertificateHashes (order : list Z) : list Z := concat (map (leEnc 8) order).

Definition manager_GetLeafCert (c : certManager) : option (list Z) :=
  match cm_chain c with [] => None | leaf :: _ => Some (Raw leaf) end.

Definition GetLeafCertHash (c : certManager) : result Z :=
  match manager_GetLeafCert c with
  | None => Err errNoCertificateChain
  | Some leafCert => Ok (fnv64a_Write fnv64a_offset leafCert)
  end.

Definition VerifyServerProof (c : certManager) (proof chlo serverConfigData : list Z) : result bool :=
  match cm_chain c with
  | [] => Ok false
  | leaf :: _ => verifyProof proof (x_PublicKey leaf) chlo serverConfigData
  end.

(** The time is set only when there is a configuration: [now] is the time of the clock. *)
Definition Verify (now : Z) (c : certManager) (hostname : list Z) : option error :=
  match cm_chain c with
  | [] => Some errNoCertificateChain
  | leafCert :: intermediates =>
      if match cm_config c with Some config => InsecureSkipVerify config | None => false end then None
      else
      let '(roots, time) :=
        match cm_config c with
        | None => (None, None)
        | Some config => (RootCAs config, Some (match tls_Time config with None => now | Some t => t end))
        end in
      x509Verify leafCert
        (mkVerifyOptions hostname (match intermediates with [] => None | _ => Some intermediates end) roots time)
  end.

(** What the handshake sees of the manager.  It ignores the error of [GetLeafCertHash], whose
    first result is then 0.  [SetData] does not panic, see [SetData_total]; that
    [VerifyServerProof] does for some keys, see [other_key_panics], is not seen here. *)
Definition certManager_interface (now : Z) (order : list Z) : CertManager certManager :=
  mkCertManager
    (fun c data => match SetData c data with Ok c' => (c', None) | Err e => (c, Some e) | Panic => (c, None) end)
    (getCommonCertificateHashes order)
    manager_GetLeafCert
    (fun c => match GetLeafCertHash c with Ok h => h | _ => 0 end)
    (fun c proof chlo scfg => match VerifyServerProof c proof chlo scfg with Ok b => b | _ => false end)
    (Verify now).

(** No data of a server makes the manager panic. *)
Theorem SetData_total c data : bytes_ok data -> (forall dict r, inflate dict r <> Panic) -> SetData c data <> Panic.
Proof.
  intros Hb Hz. unfold SetData. pose proof (decompressChain_total certSets inflate zread data Hb Hz) as Ht.
  destruct (decompressChain _ _ _ _) as [byteChain| |]; [|discriminate | contradiction].
  destruct (parseChain byteChain); discriminate.
Qed.

(** Data that is refused leaves the chain as it was. *)
Lemma SetData_refused now order c data c' e :
  cm_SetData (certManager_interface now order) c data = (c', Some e) -> c' = c.
Proof. cbn. destruct (SetData c data); intros [= <- _]; reflexivity. Qed.

(** Without a chain nothing is accepted, whatever the configuration is. *)
Theorem no_chain_refused now order config proof chlo scfg hostname :
  let cm := certManager_interface now order in
  cm_VerifyServerProof cm (NewCertManager config) proof chlo scfg = false /\
  cm_Verify cm (NewCertManager config) hostname = Some errNoCertificateChain /\
  cm_GetLeafCert cm (NewCertManager config) = None.
Proof. split_and!; reflexivity. Qed.

(** A parsed certificate keeps its bytes. *)
Definition keeps_raw : Prop := forall data cert, ParseCertificate data = inr cert -> Raw cert = data.

Lemma parseChain_raw byteChain chain : keeps_raw -> parseChain byteChain = inr chain -> map Raw chain = byteChain.
Proof.
  intros Hp. revert chain. induction byteChain as [|data l IH]; cbn [parseChain]; intros chain; [intros [= <-]; reflexivity|].
  destruct (ParseCertificate data) as [e|cert] eqn:E; [discriminate|].
  destruct (parseChain l) as [e|rest]; [discriminate|]. intros [= <-]. cbn [map]. rewrite (Hp _ _ E), (IH rest); reflexivity.
Qed.

Lemma parseChain_ok byteChain : (forall data, data ∈ byteChain -> exists cert, ParseCertificate data = inr cert) ->
  exists chain, parseChain byteChain = inr chain.
Proof.
  induction byteChain as [|data l IH]; intros H; cbn [parseChain]; [eauto|].
  destruct (H data (list_elem_of_here _ _)) as [cert ->].
  destruct IH as [chain ->]; [|eauto]. intros d Hd. apply H. right. exact Hd.
Qed.
End manager.

(** ** From the server to the client *)

Section transfer.
Variable certSets : gmap Z (list (list Z)).
Variable deflate : list Z -> list Z -> list Z.
Variable inflate : list Z -> list Z -> result (list Z).
Variable zread : list Z -> nat -> list Z * list Z * option error.
Variable ParseCertificate : list Z -> error + x509Certificate.
Variable x509Verify : x509Certificate -> VerifyOptions -> option error.
Variable sha256 : list Z -> list Z.
Variable Sign : privateKey -> list Z -> signerOpts -> result (list Z).
Variable VerifyPSS : Z -> list Z -> list Z -> signerOpts -> bool.
Variable Unmarshal : list Z -> result (Z * Z * list Z).
Variable ecdsaVerify : Z -> list Z -> Z -> Z -> bool.

(** The two sides, as the handshake uses them. *)
Definition serverSide (cc : certChain (K := privateKey)) (cache : gmap Z (list Z)) : CertChain :=
  certChain_interface certSets deflate (fun cert => signServerProof sha256 Sign (tc_PrivateKey cert)) cc cache.
Definition clientSide (now : Z) (order : list Z) : CertManager certManager :=
  certManager_interface certSets inflate zread ParseCertificate x509Verify
    (verifyServerProof sha256 VerifyPSS Unmarshal ecdsaVerify) now order.

(** The packages behave as they are documented; and the reads of zlib fill their buffers, which they need not do. *)
Record packages_ok : Prop := {
  po_sets : sets_ok certSets;
  po_read : reads_full zread;
  po_zlib : forall dict text, inflate dict (deflate dict text) = Ok text;
  po_raw : keeps_raw ParseCertificate;
  po_rsa : rsa_verifies Sign VerifyPSS;
  po_ecdsa : ecdsa_verifies Sign Unmarshal ecdsaVerify;
}.

(** The certificates of a server: they parse, they are not empty, together they are shorter than
    4 GB, and the key of the first one is that of the server. *)
Record cert_usable (cert : tlsCertificate (K := privateKey)) (leaf : x509Certificate) : Prop := {
  us_leaf : exists data rest, tc_Certificate cert = data :: rest /\ ParseCertificate data = inr leaf;
  us_parse : forall data, data ∈ tc_Certificate cert -> data <> [] /\ exists c, ParseCertificate data = inr c;
  us_size : totalUncompressedLen (tc_Certificate cert) < 2 ^ 32;
  us_key : key_pair (tc_PrivateKey cert) (x_PublicKey leaf);
}.

(** The cache holds for this request what would be computed. *)
Definition cache_true (cache : gmap Z (list Z)) (chain : list (list Z)) (commonHashes cachedHashes : list Z) : Prop :=
  forall data, cache !! cacheKey chain commonHashes cachedHashes = Some data ->
    compressChain certSets deflate chain commonHashes cachedHashes = Ok data.

Lemma getCompressedCert_true cache evicted chain commonHashes cachedHashes : cache_true cache chain commonHashes cachedHashes ->
  (getCompressedCert certSets deflate cache evicted chain commonHashes cachedHashes).2 =
  compressChain certSets deflate chain commonHashes cachedHashes.
Proof.
  intros Hc. unfold getCompressedCert. destruct (cache !! _) as [data|] eqn:E; [symmetry; apply Hc, E|].
  destruct (compressChain _ _ _ _ _); reflexivity.
Qed.

Lemma SetData_sent cert leaf hashes data c : packages_ok -> cert_usable cert leaf ->
  compressChain certSets deflate (tc_Certificate cert) hashes [] = Ok data ->
  exists chain, SetData certSets inflate zread ParseCertificate c data = Ok (mkManager (leaf :: chain) (cm_config c)) /\
    map Raw (leaf :: chain) = tc_Certificate cert.
Proof.
  intros P U Hd. destruct (us_leaf _ _ U) as (raw & rest & Ec & Hl).
  assert (Hdec : decompressChain certSets inflate zread data = Ok (tc_Certificate cert)).
  { refine (chain_roundtrip_gen certSets deflate inflate zread _ hashes data (po_sets P) (po_read P) (po_zlib P) _ (us_size _ _ U) Hd).
    intros d Hin. apply (us_parse _ _ U d Hin). }
  destruct (parseChain_ok ParseCertificate (tc_Certificate cert)) as [chain Hch]; [intros d Hin; apply (us_parse _ _ U d Hin)|].
  pose proof (parseChain_raw ParseCertificate _ _ (po_raw P) Hch) as Hraw.
  unfold SetData. rewrite Hdec, Hch. rewrite Ec in Hch. cbn [parseChain] in Hch. rewrite Hl in Hch.
  destruct (parseChain _ rest) as [e|chain']; [discriminate|]. injection Hch as <-. eauto.
Qed.

(** The certificates that the server sends for a name, whatever common sets the client
    announces, are accepted by the client and are those of the server; the leaf and its hash are what
    the server computes them to be; and the client accepts the proof with which the server signs the
    hello and its config.  This needs reads that fill their buffers, and a cache without a collision of its keys. *)
Theorem certs_reach_client now order cc cache cert leaf sni data c chlo scfg proof :
  packages_ok -> cert_usable cert leaf -> getCertForSNI cc sni = Ok cert ->
  cache_true cache (tc_Certificate cert) (cm_GetCommonCertificateHashes (clientSide now order)) [] ->
  GetCertsCompressed (serverSide cc cache) sni (cm_GetCommonCertificateHashes (clientSide now order)) [] = Ok data ->
  SignServerProof (serverSide cc cache) sni chlo scfg = Ok proof ->
  exists c', cm_SetData (clientSide now order) c data = (c', None) /\
    map Raw (cm_chain c') = tc_Certificate cert /\
    GetLeafCert (serverSide cc cache) sni = Ok (Raw leaf) /\
    cm_GetLeafCert (clientSide now order) c' = Some (Raw leaf) /\
    cm_GetLeafCertHash (clientSide now order) c' = HashCert (Raw leaf) /\
    cm_VerifyServerProof (clientSide now order) c' proof chlo scfg = true.
Proof.
  intros P U Hsni Hcache. cbn [serverSide certChain_interface GetCertsCompressed SignServerProof GetLeafCert]. unfold chain_GetLeafCert.
  rewrite Hsni. cbn [bind]. rewrite getCompressedCert_true by exact Hcache. intros Hd Hs.
  destruct (SetData_sent cert leaf _ data c P U Hd) as (chain & Hset & Hraw).
  pose proof (proof_verifies _ _ _ _ _ _ _ _ _ _ (po_rsa P) (po_ecdsa P) (us_key _ _ U) Hs) as Hv.
  exists (mkManager (leaf :: chain) (cm_config c)). cbn [clientSide certManager_interface cm_SetData cm_GetLeafCert cm_GetLeafCertHash
    cm_VerifyServerProof]. rewrite Hset. split_and!; try reflexivity; [exact Hraw | |].
  - rewrite <- Hraw. reflexivity.
  - unfold VerifyServerProof. cbn [cm_chain]. rewrite Hv. reflexivity.
Qed.
End transfer.

(** ** An example

    A chain of two certificates, of which the client knows the first one as a common one.  zlib stores
    the text, a signature is the digest. *)
Definition storedSets : gmap Z (list (list Z)) := {[ 5 := [[7]; [9; 9]] ]}.
Definition storeDeflate (dict text : list Z) : list Z := text.
Definition storeInflate (dict data : list Z) : result (list Z) := Ok data.
Definition storeRead (text : list Z) (n : nat) : list Z * list Z * option error := (take n text, drop n text, None).
Definition toyParse (data : list Z) : error + x509Certificate := inr (mkX509 data (rsaPublicKey 1)).
Definition toyX509Verify (cert : x509Certificate) (opts : VerifyOptions) : option error := None.
Definition toySha (l : list Z) : list Z := leEnc 8 (HashCert l).
Definition toySign (key : privateKey) (digest : list Z) (opts : signerOpts) : result (list Z) := Ok digest.
Definition toyPSS (id : Z) (digest sig : list Z) (opts : signerOpts) : bool := bool_decide (sig = digest).
Definition toyUnmarshal (sig : list Z) : result (Z * Z * list Z) := Ok (leVal sig, 0, []).
Definition toyEcdsa (id : Z) (digest : list Z) (r s : Z) : bool := r =? leVal digest.
Definition toyCertificate : tlsCertificate (K := privateKey) := mkCertificate [[9; 9]; [1; 2; 3]] (rsaPrivateKey 1).
Definition toyChain : certChain (K := privateKey) := mkChain (mkTLSConfig None [toyCertificate] None) None.
Definition toyServerSide : CertChain := serverSide storedSets storeDeflate toySha toySign toyChain ∅.
Definition toyClientSide : CertManager certManager :=
  clientSide storedSets storeInflate storeRead toyParse toyX509Verify toySha toyPSS toyUnmarshal toyEcdsa 0 [5].
Definition toyCertData : list Z := [3] ++ leEnc 8 5 ++ leEnc 4 1 ++ [1; 0] ++ leEnc 4 7 ++ leEnc 4 3 ++ [1; 2; 3].

Lemma toy_packages_ok : packages_ok storedSets storeDeflate storeInflate storeRead toyParse toySign toyPSS toyUnmarshal toyEcdsa.
Proof.
  split.
  - intros h set. unfold storedSets. rewrite lookup_singleton_Some. intros [<- <-]. split; [unfold is_u64; lia | reflexivity].
  - intros text n _. exists None. split; [reflexivity|]. intros _. reflexivity.
  - reflexivity.
  - intros data cert [= <-]. reflexivity.
  - intros id digest sig [= <-]. apply bool_decide_eq_true_2. reflexivity.
  - intros id digest sig [= <-]. exists (leVal digest), 0. split; [reflexivity|]. apply Z.eqb_refl.
Qed.

Lemma toy_cert_usable : cert_usable toyParse toyCertificate (mkX509 [9; 9] (rsaPublicKey 1)).
Proof.
  split.
  - exists [9; 9], [[1; 2; 3]]. split; reflexivity.
  - intros data Hin. unfold toyParse. apply list_elem_of_In in Hin.
    destruct Hin as [<-|[<-|[]]]; (split; [discriminate|]); eauto.
  - reflexivity.
  - constructor.
Qed.

Lemma certs_reach_client_witness : exists c',
  cm_SetData toyClientSide (NewCertManager None) toyCertData = (c', None) /\
  map Raw (cm_chain c') = [[9; 9]; [1; 2; 3]] /\
  GetLeafCert toyServerSide (bytesOf "quic") = Ok [9; 9] /\
  cm_GetLeafCert toyClientSide c' = Some [9; 9] /\
  cm_GetLeafCertHash toyClientSide c' = HashCert [9; 9] /\
  cm_VerifyServerProof toyClientSide c' (proofDigest toySha [1] [2]) [1] [2] = true.
Proof.
  refine (certs_reach_client storedSets storeDeflate storeInflate storeRead toyParse toyX509Verify toySha toySign toyPSS
    toyUnmarshal toyEcdsa 0 [5] toyChain ∅ toyCertificate (mkX509 [9; 9] (rsaPublicKey 1)) (bytesOf "quic") toyCertData
    (NewCertManager None) [1] [2] (proofDigest toySha [1] [2]) toy_packages_ok toy_cert_usable _ _ _ _).
  - reflexivity.
  - intros data E. rewrite lookup_empty in E. discriminate E.
  - vm_compute. reflexivity.
  - reflexivity.
Defined.
