(* ===== verification/ConcurrentMap.v ===== *)
(** * The sharded map of the central scheduler (internal/multiclients/qlearning.go)

    [ConcurrentMap] cuts a map into [SHARD_COUNT] maps by a hash of the key, each with its own
    lock.  An operation on one key holds the lock of its shard, so that it is one step; an
    operation on the whole map visits the shards one after the other, and the map may change
    in between.  The order in which a map is iterated, and that in which the goroutines of a
    snapshot deliver what they read, is left open: the theorems hold for each.  A string is the
    list of its bytes. *)
From S2P Require Import Prelude.

Definition SHARD_COUNT : nat := 32.

(** [hash *= prime32; hash ^= uint32(key[i])]. *)
Definition fnv32 (key : list Z) : Z :=
  fold_left (fun hash b => Z.lxor (u32 (hash * 16777619)) b) key 2166136261.

Definition shardIndex (key : list Z) : nat := Z.to_nat (fnv32 key mod Z.of_nat SHARD_COUNT).

Section map.
Context {V : Type}.
Implicit Types (key : list Z) (v : V).

Abbreviation shard := (gmap (list Z) V).
Abbreviation ConcurrentMap := (list shard).
Implicit Types (m : ConcurrentMap) (items : shard).

Definition NewConcurrentMap : ConcurrentMap := replicate SHARD_COUNT ∅.

(** The index of a slice is checked. *)
Definition GetShard m key : result shard :=
  match m !! shardIndex key with Some items => Ok items | None => Panic end.

(** What [f] makes of the shard of a key is kept; the second component is the result. *)
Definition onShard {A} m key (f : shard -> shard * A) : result (ConcurrentMap * A) :=
  let* items := GetShard m key in
  let '(items, a) := f items in
  Ok (<[shardIndex key := items]> m, a).

Definition Set_ m key v : result (ConcurrentMap * unit) := onShard m key (fun items => (<[key := v]> items, tt)).

(** [data] in the order of its iteration. *)
Fixpoint MSet m (data : list (list Z * V)) : result ConcurrentMap :=
  match data with
  | [] => Ok m
  | (key, value) :: data => let* (m, _) := Set_ m key value in MSet m data
  end.

(** The callback gets whether there is a value and the value, nil otherwise. *)
Definition Upsert m key v (cb : option V -> V -> V) : result (ConcurrentMap * V) :=
  onShard m key (fun items => let res := cb (items !! key) v in (<[key := res]> items, res)).

Definition SetIfAbsent m key v : result (ConcurrentMap * bool) :=
  onShard m key (fun items =>
    match items !! key with Some _ => (items, false) | None => (<[key := v]> items, true) end).

Definition Get m key : result (option V) := let* items := GetShard m key in Ok (items !! key).

Definition Has m key : result bool := let* items := GetShard m key in Ok (bool_decide (is_Some (items !! key))).

Definition Remove m key : result (ConcurrentMap * unit) := onShard m key (fun items => (delete key items, tt)).

Definition RemoveCb m key (cb : list Z -> option V -> bool) : result (ConcurrentMap * bool) :=
  onShard m key (fun items =>
    let remove := cb key (items !! key) in
    (if remove && bool_decide (is_Some (items !! key)) then delete key items else items, remove)).

Definition Pop_ m key : result (ConcurrentMap * option V) :=
  onShard m key (fun items => (delete key items, items !! key)).

(** *** Operations on all shards

    [Count] locks one shard after the other: [at i] is the map when shard [i] is locked. *)
Fixpoint countFrom (at_ : nat -> ConcurrentMap) (i n : nat) (count : Z) : result Z :=
  match n with
  | O => Ok count
  | S n =>
      match at_ i !! i with
      | None => Panic
      | Some items => countFrom at_ (S i) n (count + Z.of_nat (size items))
      end
  end.
Definition CountDuring (at_ : nat -> ConcurrentMap) : result Z := countFrom at_ 0 SHARD_COUNT 0.
(** When nothing changes meanwhile. *)
Definition Count m : result Z := CountDuring (fun _ => m).
Definition IsEmpty m : result bool := let* n := Count m in Ok (n =? 0).

(** [chans[i]] delivers the items of shard [i], in some order. *)
Definition snapshot m (chans : list (list (list Z * V))) : Prop :=
  Forall2 (fun (items : shard) ch => ch ≡ₚ map_to_list items) m chans.

(** The goroutines of [fanIn] pass on the heads of the channels in any order. *)
Inductive fanIn : list (list (list Z * V)) -> list (list Z * V) -> Prop :=
| fanIn_done chans : Forall (fun ch => ch = []) chans -> fanIn chans []
| fanIn_step chans1 t ch chans2 out :
    fanIn (chans1 ++ ch :: chans2) out -> fanIn (chans1 ++ (t :: ch) :: chans2) (t :: out).

(** What [Iter] and [IterBuffered] may deliver. *)
Definition IterBuffered m (out : list (list Z * V)) : Prop := exists chans, snapshot m chans /\ fanIn chans out.

(** [Items] and [Clear], for the items in the order they are delivered. *)
Definition Items (delivered : list (list Z * V)) : shard := fold_left (fun tmp t => <[t.1 := t.2]> tmp) delivered ∅.
Fixpoint Clear m (delivered : list (list Z * V)) : result ConcurrentMap :=
  match delivered with
  | [] => Ok m
  | t :: delivered => let* (m, _) := Remove m t.1 in Clear m delivered
  end.

(** The calls of [IterCb]: shard after shard, each in some order. *)
Definition IterCb {S} (fn : S -> list Z -> V -> S) m (order : shard -> list (list Z * V)) (s : S) : S :=
  fold_left (fun s items => fold_left (fun s t => fn s t.1 t.2) (order items) s) m s.

(** What [Keys] may deliver: its goroutines send to one channel. *)
Definition Keys m (out : list (list Z)) : Prop := exists ts, IterBuffered m ts /\ out = ts.*1.

(** [json.Marshal] is a parameter. *)
Definition MarshalJSON (Marshal : shard -> result (list Z)) (delivered : list (list Z * V)) : result (list Z) :=
  Marshal (Items delivered).

(** ** The map it stands for *)

(** Each key is in the shard of its hash. *)
Record sharded m : Prop := {
  sh_length : length m = SHARD_COUNT;
  sh_hash : forall i items key v, m !! i = Some items -> items !! key = Some v -> shardIndex key = i;
}.

(** The map without the shards. *)
Definition contents m : shard := ⋃ m.

Lemma shardIndex_lt key : (shardIndex key < SHARD_COUNT)%nat.
Proof. unfold shardIndex, SHARD_COUNT. pose proof (Z.mod_pos_bound (fnv32 key) 32). lia. Qed.

Lemma GetShard_ok m key : sharded m -> exists items, m !! shardIndex key = Some items /\ GetShard m key = Ok items.
Proof.
  intros Hm. destruct (lookup_lt_is_Some_2 m (shardIndex key)) as [items E].
  { rewrite (sh_length _ Hm). apply shardIndex_lt. }
  exists items. unfold GetShard. rewrite E. split; reflexivity.
Qed.

Lemma contents_lookup_Some m key v : sharded m ->
  (contents m !! key = Some v <-> exists items, m !! shardIndex key = Some items /\ items !! key = Some v).
Proof.
  intros Hm. destruct Hm as [_ Hh]. unfold contents. assert (Hg : forall k j, (forall i items, m !! i = Some items -> is_Some (items !! k) -> i = j) ->
    (⋃ m : shard) !! k = m !! j ≫= lookup k).
  { intros k. clear Hh. induction m as [|items m IH]; intros j Hj; [rewrite lookup_nil; cbn; apply lookup_empty|].
    cbn [union_list foldr]. unfold union_list in *. cbn [foldr]. destruct (items !! k) as [w|] eqn:Ek.
    - assert (j = 0%nat) as -> by (symmetry; apply (Hj 0%nat items eq_refl); rewrite Ek; eauto). cbn.
      rewrite Ek. apply lookup_union_Some_l. exact Ek.
    - rewrite lookup_union_r by exact Ek. destruct j as [|j].
      + cbn. rewrite Ek. rewrite (IH (length m)).
        * rewrite (proj2 (lookup_ge_None m (length m))) by lia. reflexivity.
        * intros i its Hi Hs. discriminate (Hj (S i) its Hi Hs).
      + cbn. apply IH. intros i its Hi Hs. specialize (Hj (S i) its Hi Hs). lia. }
  rewrite (Hg key (shardIndex key)).
  - destruct (m !! shardIndex key) as [items|]; cbn; split; intros H; [eauto | | discriminate | ].
    + destruct H as (its & [= <-] & Hv). exact Hv.
    + destruct H as (its & H & _). discriminate H.
  - intros i items Hi [w Hw]. symmetry. exact (Hh i items key w Hi Hw).
Qed.

Lemma contents_lookup m key items : sharded m -> m !! shardIndex key = Some items -> contents m !! key = items !! key.
Proof.
  intros Hm E. destruct (items !! key) as [v|] eqn:Ev; [apply contents_lookup_Some; eauto|].
  apply eq_None_not_Some. intros [v Hv]. apply contents_lookup_Some in Hv as (items' & E' & Hv); [|exact Hm]. congruence.
Qed.

(** An operation on the shard of a key that touches this key only. *)
Lemma onShard_ok {A} m key (f : shard -> shard * A) : sharded m ->
  (forall items k, k <> key -> (f items).1 !! k = items !! k) ->
  exists items m', m !! shardIndex key = Some items /\ onShard m key f = Ok (m', (f items).2) /\ sharded m' /\
    contents m' = partial_alter (fun _ => (f items).1 !! key) key (contents m).
Proof.
  intros Hm Hf. destruct (GetShard_ok m key Hm) as (items & E & Eg). exists items, (<[shardIndex key := (f items).1]> m).
  assert (Hm' : sharded (<[shardIndex key := (f items).1]> m)).
  { split; [rewrite length_insert; apply Hm|]. intros i its k v [(<- & <- & _)|[_ Hi]]%list_lookup_insert_Some Hk.
    - destruct (decide (k = key)) as [->|Hne]; [reflexivity|]. rewrite Hf in Hk by exact Hne. exact (sh_hash _ Hm _ _ _ _ E Hk).
    - exact (sh_hash _ Hm _ _ _ _ Hi Hk). }
  split; [exact E|]. split; [unfold onShard; rewrite Eg; cbn [bind]; destruct (f items); reflexivity|]. split; [exact Hm'|].
  apply map_eq. intros k. destruct (decide (k = key)) as [->|Hne].
  - rewrite lookup_partial_alter_eq. apply contents_lookup; [exact Hm'|]. apply list_lookup_insert_eq. rewrite (sh_length _ Hm). apply shardIndex_lt.
  - rewrite lookup_partial_alter_ne by congruence. destruct (GetShard_ok m k Hm) as (its & Ek & _).
    rewrite (contents_lookup m k its Hm Ek). destruct (decide (shardIndex k = shardIndex key)) as [Es|Es].
    + rewrite (contents_lookup _ k (f items).1 Hm'); [|rewrite Es; apply list_lookup_insert_eq; rewrite (sh_length _ Hm); apply shardIndex_lt].
      rewrite Hf by exact Hne. congruence.
    + rewrite (contents_lookup _ k its Hm'); [reflexivity|]. rewrite list_lookup_insert_ne by congruence. exact Ek.
Qed.

(** ** One key at a time: the map of Go

    The operations on a key, and what they do to a map. *)
Inductive op : Type :=
| OpSet key v
| OpUpsert key v (cb : option V -> V -> V)
| OpSetIfAbsent key v
| OpGet key
| OpHas key
| OpRemove key
| OpRemoveCb key (cb : list Z -> option V -> bool)
| OpPop key.

Inductive answer : Type :=
| ANone
| AValue v
| AFound (o : option V)
| ABool (b : bool).

Definition answered {A} (wrap : A -> answer) (r : result (ConcurrentMap * A)) : result (ConcurrentMap * answer) :=
  let* (m, a) := r in Ok (m, wrap a).

Definition run m (o : op) : result (ConcurrentMap * answer) :=
  match o with
  | OpSet key v => answered (fun _ => ANone) (Set_ m key v)
  | OpUpsert key v cb => answered AValue (Upsert m key v cb)
  | OpSetIfAbsent key v => answered ABool (SetIfAbsent m key v)
  | OpGet key => let* r := Get m key in Ok (m, AFound r)
  | OpHas key => let* r := Has m key in Ok (m, ABool r)
  | OpRemove key => answered (fun _ => ANone) (Remove m key)
  | OpRemoveCb key cb => answered ABool (RemoveCb m key cb)
  | OpPop key => answered AFound (Pop_ m key)
  end.

Definition spec (c : shard) (o : op) : shard * answer :=
  match o with
  | OpSet key v => (<[key := v]> c, ANone)
  | OpUpsert key v cb => (<[key := cb (c !! key) v]> c, AValue (cb (c !! key) v))
  | OpSetIfAbsent key v => match c !! key with Some _ => (c, ABool false) | None => (<[key := v]> c, ABool true) end
  | OpGet key => (c, AFound (c !! key))
  | OpHas key => (c, ABool (bool_decide (is_Some (c !! key))))
  | OpRemove key => (delete key c, ANone)
  | OpRemoveCb key cb => (if cb key (c !! key) then delete key c else c, ABool (cb key (c !! key)))
  | OpPop key => (delete key c, AFound (c !! key))
  end.

Lemma run_answered {A} (wrap : A -> answer) m key (f : shard -> shard * A) c' a : sharded m ->
  (forall items k, k <> key -> (f items).1 !! k = items !! k) ->
  (forall items, items !! key = contents m !! key ->
     partial_alter (fun _ => (f items).1 !! key) key (contents m) = c' /\ wrap (f items).2 = a) ->
  exists m', answered wrap (onShard m key f) = Ok (m', a) /\ sharded m' /\ contents m' = c'.
Proof.
  intros Hm Hf Hc. destruct (onShard_ok m key f Hm Hf) as (items & m' & E & -> & Hm' & Hcon).
  destruct (Hc items) as [<- <-]; [symmetry; apply contents_lookup; assumption|]. exists m'. split_and!; [reflexivity | assumption..].
Qed.

Lemma alter_same (c : shard) key o : c !! key = o -> partial_alter (fun _ => o) key c = c.
Proof.
  intros E. apply map_eq. intros k. destruct (decide (k = key)) as [->|Hne]; [rewrite lookup_partial_alter_eq; symmetry; exact E|].
  rewrite lookup_partial_alter_ne by congruence. reflexivity.
Qed.

Lemma run_spec m o : sharded m ->
  exists m', run m o = Ok (m', (spec (contents m) o).2) /\ sharded m' /\ contents m' = (spec (contents m) o).1.
Proof.
  intros Hm. destruct o as [key v|key v cb|key v|key|key|key|key cb|key]; cbn [run spec];
    try (destruct (GetShard_ok m key Hm) as (items & E & Eg); unfold Get, Has; rewrite Eg; cbn [bind];
         rewrite (contents_lookup m key items Hm E); exists m; split_and!; [reflexivity | exact Hm | reflexivity]).
  - eapply run_answered; [exact Hm | | ]; cbn.
    + intros items k Hne. apply lookup_insert_ne. congruence.
    + intros items _. rewrite lookup_insert_eq. split; reflexivity.
  - eapply run_answered; [exact Hm | | ]; cbn.
    + intros items k Hne. apply lookup_insert_ne. congruence.
    + intros items ->. rewrite lookup_insert_eq. split; reflexivity.
  - eapply run_answered; [exact Hm | | ].
    + intros items k Hne. destruct (items !! key); cbn; [reflexivity | apply lookup_insert_ne; congruence].
    + intros items Hi. rewrite Hi. destruct (contents m !! key) as [w|] eqn:E; cbn [fst snd].
      * rewrite Hi. split; [apply alter_same, E | reflexivity].
      * rewrite lookup_insert_eq. split; reflexivity.
  - eapply run_answered; [exact Hm | | ]; cbn.
    + intros items k Hne. apply lookup_delete_ne. congruence.
    + intros items _. rewrite lookup_delete_eq. split; reflexivity.
  - eapply run_answered; [exact Hm | | ]; cbn [fst snd].
    + intros items k Hne. destruct (_ && _); [apply lookup_delete_ne; congruence | reflexivity].
    + intros items Hi. rewrite Hi. split; [|reflexivity]. destruct (cb key (contents m !! key)); cbn [andb].
      * destruct (contents m !! key) as [w|] eqn:E; cbn; [rewrite lookup_delete_eq; reflexivity|].
        rewrite Hi. rewrite alter_same by exact E. symmetry. apply delete_id. exact E.
      * rewrite Hi. apply alter_same. reflexivity.
  - eapply run_answered; [exact Hm | | ]; cbn.
    + intros items k Hne. apply lookup_delete_ne. congruence.
    + intros items Hi. rewrite lookup_delete_eq, Hi. split; reflexivity.
Qed.

Fixpoint runs m (os : list op) : result (ConcurrentMap * list answer) :=
  match os with
  | [] => Ok (m, [])
  | o :: os => let* (m, a) := run m o in let* (m, l) := runs m os in Ok (m, a :: l)
  end.

Fixpoint specs (c : shard) (os : list op) : shard * list answer :=
  match os with
  | [] => (c, [])
  | o :: os => let '(c, a) := spec c o in let '(c, l) := specs c os in (c, a :: l)
  end.

Lemma runs_specs m os : sharded m ->
  exists m', runs m os = Ok (m', (specs (contents m) os).2) /\ sharded m' /\ contents m' = (specs (contents m) os).1.
Proof.
  revert m. induction os as [|o os IH]; intros m Hm; cbn [runs specs]; [exists m; split_and!; [reflexivity | exact Hm | reflexivity]|].
  destruct (run_spec m o Hm) as (m1 & -> & Hm1 & Ec). cbn [bind]. destruct (spec (contents m) o) as [c a]. cbn [fst snd] in *. subst c.
  destruct (IH m1 Hm1) as (m2 & -> & Hm2 & Ec). cbn [bind]. destruct (specs (contents m1) os) as [c l]. cbn [fst snd] in *.
  exists m2. split_and!; [reflexivity | exact Hm2 | exact Ec].
Qed.

(** ** Whole maps *)

Lemma New_sharded : sharded NewConcurrentMap /\ contents NewConcurrentMap = ∅.
Proof.
  assert (H : sharded NewConcurrentMap).
  { split; [apply length_replicate|]. intros i items key v [-> _]%lookup_replicate Hk. rewrite lookup_empty in Hk. discriminate Hk. }
  split; [exact H|]. apply map_eq. intros key. rewrite (contents_lookup _ key ∅ H); [reflexivity|].
  apply lookup_replicate_2, shardIndex_lt.
Qed.

Lemma elem_of_items m key v :
  (key, v) ∈ concat (map map_to_list m) <-> exists i items, m !! i = Some items /\ items !! key = Some v.
Proof.
  rewrite list_elem_of_In, in_concat. split.
  - intros (l & (items & <- & Hin)%in_map_iff & Hl). apply list_elem_of_In, list_elem_of_lookup in Hin as [i Hi].
    apply list_elem_of_In, elem_of_map_to_list in Hl. eauto.
  - intros (i & items & Hi & Hv). exists (map_to_list items). split.
    + apply in_map, list_elem_of_In, list_elem_of_lookup. eauto.
    + apply list_elem_of_In, elem_of_map_to_list, Hv.
Qed.

Lemma items_NoDup m : (forall i items key v, m !! i = Some items -> items !! key = Some v -> shardIndex key = i) ->
  NoDup (concat (map map_to_list m)).
Proof.
  induction m as [|items m IH] using rev_ind; intros Hh; [constructor|].
  rewrite map_app, concat_app. cbn [map concat]. rewrite app_nil_r. apply list.NoDup_app. split_and!; [| |apply NoDup_map_to_list].
  - apply IH. intros i its key v Hi. apply Hh. rewrite lookup_app_l by (apply lookup_lt_Some in Hi; exact Hi). exact Hi.
  - intros [key v] (i & its & Hi & Hl)%elem_of_items Hin2%elem_of_map_to_list. pose proof (lookup_lt_Some _ _ _ Hi) as Hlt.
    assert (H1 := Hh i its key v ltac:(rewrite lookup_app_l by exact Hlt; exact Hi) Hl).
    assert (H2 := Hh (length m) items key v ltac:(rewrite lookup_app_r, Nat.sub_diag by lia; reflexivity) Hin2). lia.
Qed.

(** The items of all shards are those of the map. *)
Lemma contents_items m : sharded m -> concat (map map_to_list m) ≡ₚ map_to_list (contents m).
Proof.
  intros Hm. apply NoDup_Permutation; [apply items_NoDup, Hm | apply NoDup_map_to_list|].
  intros [key v]. rewrite elem_of_map_to_list, (contents_lookup_Some m key v Hm), elem_of_items. split.
  - intros (i & its & Hi & Hv). rewrite (sh_hash _ Hm i its key v Hi Hv). eauto.
  - intros (its & Hi & Hv). eauto.
Qed.

Lemma countFrom_sum m (n i : nat) count : length m = (i + n)%nat ->
  countFrom (fun _ => m) i n count = Ok (count + Z.of_nat (length (concat (map map_to_list (drop i m))))).
Proof.
  revert i count. induction n as [|n IH]; intros i count Hl; cbn [countFrom].
  - rewrite drop_ge by lia. cbn. rewrite Z.add_0_r. reflexivity.
  - destruct (lookup_lt_is_Some_2 m i ltac:(lia)) as [items E]. rewrite E, IH by lia. rewrite (drop_S m items i E).
    cbn [map concat]. rewrite length_app, length_map_to_list. f_equal. lia.
Qed.

(** [Count] is the size of the map, when nothing changes it meanwhile. *)
Lemma Count_size m : sharded m -> Count m = Ok (Z.of_nat (size (contents m))).
Proof.
  intros Hm. unfold Count, CountDuring. rewrite countFrom_sum by (rewrite (sh_length _ Hm); reflexivity).
  rewrite drop_0, (contents_items m Hm), length_map_to_list. reflexivity.
Qed.

(** What the goroutines deliver is what the shards hold, in some order. *)
Lemma fanIn_perm chans out : fanIn chans out -> out ≡ₚ concat chans.
Proof.
  induction 1 as [chans Hn|chans1 t ch chans2 out _ IH].
  - induction Hn as [|ch chans -> _ IH]; cbn; auto.
  - rewrite IH, !concat_app. cbn [concat app]. rewrite <- Permutation_middle. reflexivity.
Qed.

Lemma IterBuffered_perm m out : sharded m -> IterBuffered m out -> out ≡ₚ map_to_list (contents m).
Proof.
  intros Hm (chans & Hs & Hf). rewrite (fanIn_perm _ _ Hf), <- (contents_items m Hm). clear Hf.
  unfold snapshot in Hs. clear Hm. induction Hs as [|items ch m' chans' Hp _ IH]; [reflexivity|]. cbn [map concat]. rewrite Hp, IH. reflexivity.
Qed.

(** Every run of the goroutines ends, and delivers something. *)
Lemma fanIn_exists chans : exists out, fanIn chans out.
Proof.
  remember (length (concat chans)) as n eqn:En. revert chans En. induction n as [|n IH]; intros chans En.
  - exists []. constructor. induction chans as [|ch chans IHc]; constructor; cbn [concat] in En; rewrite length_app in En.
    + destruct ch; [reflexivity | cbn in En; lia].
    + apply IHc. lia.
  - destruct (list_find (fun ch => ch <> []) chans) as [[i ch]|] eqn:Ef.
    + apply list_find_Some in Ef as (Ei & Hne & _). destruct ch as [|t ch]; [contradiction|].
      pose proof (take_drop_middle chans i _ Ei) as Ec. rewrite <- Ec in En |- *.
      destruct (IH (take i chans ++ ch :: drop (S i) chans)) as [out Ho].
      { rewrite concat_app in En |- *. cbn [concat] in En |- *. rewrite !length_app in En |- *. cbn [length] in En. lia. }
      exists (t :: out). constructor. exact Ho.
    + exfalso. apply list_find_None in Ef. assert (concat chans = []) as H; [|rewrite H in En; discriminate En].
      clear En IH. induction Ef as [|ch chans Hn _ IHc]; [reflexivity|]. cbn. rewrite IHc.
      destruct ch; [reflexivity|]. exfalso. apply Hn. discriminate.
Qed.

Lemma snapshot_items m : snapshot m (map map_to_list m).
Proof. unfold snapshot. induction m; constructor; auto. Qed.

Lemma Items_perm (c : shard) out : out ≡ₚ map_to_list c -> Items out = c.
Proof.
  intros Hp. assert (Hnd : NoDup out.*1) by (rewrite Hp; apply NoDup_fst_map_to_list).
  assert (H : forall tmp : shard, fold_left (fun tmp (t : list Z * V) => <[t.1 := t.2]> tmp) out tmp = list_to_map (rev out) ∪ tmp).
  { clear Hp Hnd. induction out as [|[k v] out IH]; intros tmp; [cbn; symmetry; apply (left_id_L ∅ (∪))|].
    cbn [fold_left rev]. rewrite IH, list_to_map_app. cbn [list_to_map]. rewrite <- (assoc_L (∪)). f_equal.
    cbn. rewrite insert_empty, insert_union_singleton_l. reflexivity. }
  unfold Items. rewrite H, (right_id_L ∅ (∪)). rewrite <- (list_to_map_to_list c). symmetry.
  apply list_to_map_proper; [apply NoDup_fst_map_to_list|]. rewrite <- Hp. apply Permutation_rev.
Qed.

Lemma Clear_ok m delivered : sharded m -> exists m', Clear m delivered = Ok m' /\ sharded m' /\
  contents m' = foldl (fun c t => delete t.1 c) (contents m) delivered.
Proof.
  revert m. induction delivered as [|t delivered IH]; intros m Hm; cbn [Clear foldl]; [eauto|].
  destruct (run_spec m (OpRemove t.1) Hm) as (m1 & Hr & Hm1 & Hc). cbn [run spec fst snd] in Hr, Hc. unfold answered in Hr.
  destruct (Remove m t.1) as [[m2 []]| |]; cbn [bind] in Hr; [|discriminate Hr..]. injection Hr as ->. cbn [bind].
  destruct (IH m1 Hm1) as (m' & E & Hm' & Hc'). exists m'. rewrite Hc', Hc. split_and!; [exact E | exact Hm' | reflexivity].
Qed.

Lemma deletes_lookup (c : shard) (ts : list (list Z * V)) key :
  foldl (fun c t => delete t.1 c) c ts !! key = if decide (key ∈ ts.*1) then None else c !! key.
Proof.
  revert c. induction ts as [|[k v] ts IH]; intros c; cbn [foldl fmap list_fmap].
  - rewrite decide_False by set_solver. reflexivity.
  - rewrite IH. cbn [fst]. destruct (decide (key = k)) as [->|Hne].
    + rewrite lookup_delete_eq, (decide_True (P := k ∈ k :: ts.*1)) by set_solver. destruct (decide _); reflexivity.
    + rewrite lookup_delete_ne by congruence. destruct (decide (key ∈ ts.*1)); [rewrite decide_True by set_solver | rewrite decide_False by set_solver]; reflexivity.
Qed.

(** C28: The sharded map is a map: whatever the clients do, in every order of their operations, no
    index is out of range, each operation answers as on a map that is not sharded, and in the end
    the number of items, what an iteration delivers (in every order of the iterations and of the
    goroutines, of which there is one) and the result of [Clear] are those of that map. *)
Theorem concurrent_map_refines os : exists m,
  runs NewConcurrentMap os = Ok (m, (specs ∅ os).2) /\
  let c := (specs ∅ os).1 in
  Count m = Ok (Z.of_nat (size c)) /\ IsEmpty m = Ok (bool_decide (c = ∅)) /\
  (exists out, IterBuffered m out) /\
  forall out, IterBuffered m out ->
    Items out = c /\ out.*1 ≡ₚ (map_to_list c).*1 /\
    exists m', Clear m out = Ok m' /\ Count m' = Ok 0.
Proof.
  destruct New_sharded as [H0 E0]. destruct (runs_specs NewConcurrentMap os H0) as (m & Hr & Hm & Hc). rewrite E0 in Hr, Hc.
  exists m. split; [exact Hr|]. cbv zeta. rewrite <- Hc. split_and!.
  - apply Count_size, Hm.
  - unfold IsEmpty. rewrite Count_size by exact Hm. cbn [bind]. f_equal. destruct (bool_decide_reflect (contents m = ∅)) as [->|Hne].
    + rewrite map_size_empty. reflexivity.
    + apply Z.eqb_neq. rewrite <- map_size_empty_iff in Hne. lia.
  - destruct (fanIn_exists (map map_to_list m)) as [out Ho]. exists out, (map map_to_list m). split; [apply snapshot_items | exact Ho].
  - intros out Ho. pose proof (IterBuffered_perm m out Hm Ho) as Hp. split_and!.
    + apply Items_perm, Hp.
    + rewrite Hp. reflexivity.
    + destruct (Clear_ok m out Hm) as (m' & Ec & Hm' & Hc'). exists m'. split; [exact Ec|].
      rewrite Count_size, Hc' by exact Hm'. enough (foldl (fun (c : shard) (t : list Z * V) => delete t.1 c) (contents m) out = ∅) as -> by (rewrite map_size_empty; reflexivity).
      apply map_eq. intros key.
      rewrite deletes_lookup, lookup_empty. destruct (decide _) as [|Hni]; [reflexivity|]. apply eq_None_not_Some. intros [v Hv].
      apply Hni, list_elem_of_fmap. exists (key, v). split; [reflexivity|]. rewrite Hp. apply elem_of_map_to_list, Hv.
Qed.
End map.

(** [Count] is no snapshot: here a client sets the item 3, whose shard was counted before, and then
    removes the item 1, whose shard was not counted yet: the map seems to be empty although it never
    is. *)
Definition countedMap (i : nat) : list (gmap (list Z) Z) :=
  let os := OpSet [49] 1 :: if (i <=? 12)%nat then [] else [OpSet [51] 3; OpRemove [49]] in
  match runs NewConcurrentMap os with Ok (m, _) => m | _ => [] end.

Example count_no_snapshot : CountDuring countedMap = Ok 0 /\ Count (countedMap 0) = Ok 1 /\ Count (countedMap 31) = Ok 1.
Proof. vm_compute. split_and!; reflexivity. Qed.
