(* ===== verification/Learning.v ===== *)
(** * The schedulers that learn (scheduler.go, scheduler_dl.go, scheduler_drl.go)

    Peekaboo, QSAT, Q-learning, Q-learning for many clients, DQN and SAC: how they select a path
    and how an acknowledgement changes what they have learnt.  The fields of the scheduler are
    cut into one record for each of them.  A float64 is a number of the executable IEEE 754
    specification, as in Float32.v.  The random numbers, the time and the answers of the learning service
    are arguments; the matrix operations of gonum are parameters.  As in Scheduler.v the loops over
    [s.paths] get the entries in the order they meet them. *)
From S2P Require Import Prelude Qerr ByteOrder Protocol WireStream WireControl AckRanges WireAck PublicHeader.
From S2P Require Import Frames ReceivedPackets Float32 RttStats SentPackets ConnParams FlowControl Congestion.
From S2P Require Import StreamFrameSorter StreamsMap Stream PacketNumberGenerator Path Scheduler ConcurrentMap.

(** ** float64 *)

Definition float64 : Type := spec_float.
Definition f64_add (a b : float64) : float64 := SFadd 53 1024 a b.
Definition f64_sub (a b : float64) : float64 := SFsub 53 1024 a b.
Definition f64_zero : float64 := S754_zero false.
Definition f64_one : float64 := f64_of_Z 1.
(** The decimal constant [n / d]. *)
Definition f64_const (n d : Z) : float64 := f64_div (f64_of_Z n) (f64_of_Z d).
(** [float64(x)] of a float32, which is exact. *)
Definition f64_of_f32 (x : float32) : float64 :=
  match x with
  | S754_finite s m e => binary_normalize 53 1024 (if s then Z.neg m else Z.pos m) e s
  | _ => x
  end.

Declare Scope f64_scope.
Delimit Scope f64_scope with f64.
Infix "+" := f64_add : f64_scope.
Infix "-" := f64_sub : f64_scope.
Infix "*" := f64_mul : f64_scope.
Infix "/" := f64_div : f64_scope.
Infix "<?" := SFltb : f64_scope.
Infix "<=?" := SFleb : f64_scope.
Infix "=?" := SFeqb : f64_scope.

(** ** Times and goodput *)

Definition NormalizeTimes (stat : Z) : float64 := (f64_of_Z stat / f64_of_Z Millisecond)%f64.

(** [elapsed] is the time since the session was created. *)
Definition NormalizeGoodput (elapsed packetNumber retransNumber : Z) : float64 :=
  let elapsedtime := (NormalizeTimes elapsed / f64_of_Z 1000)%f64 in
  ((f64_of_Z packetNumber - f64_of_Z retransNumber) / f64_of_Z 1024 / f64_of_Z 1024 / elapsedtime *
   f64_of_Z DefaultTCPMSS)%f64.

(** ** Levels *)

(** The chain of comparisons: the first threshold above [x], else the last level. *)
Fixpoint levelBelow (thresholds : list float64) (x : float64) (i : Z) : Z :=
  match thresholds with
  | [] => i
  | t :: thresholds => if (x <? t)%f64 then i else levelBelow thresholds x (i + 1)
  end.
(** The chain with [>=], for [sr_Rate]. *)
Fixpoint levelAtLeast (thresholds : list float64) (x : float64) (i : Z) : Z :=
  match thresholds with
  | [] => i
  | t :: thresholds => if (t <=? x)%f64 then i else levelAtLeast thresholds x (i + 1)
  end.

(** [clv_state] and [clv_state2], as [setup] sets them. *)
Definition clv_state : list float64 := [f64_const 3 10; f64_const 5 10; f64_const 7 10; f64_const 9 10].
Definition clv_state2 : list float64 := clv_state.

(** The first seven of [sch.state] and of [sch.Qstate], which nothing sets. *)
Definition qsatThresholds : list float64 := replicate 7 f64_zero.

(** [float32(BSend) / (float32(DefaultMaxCongestionWindow) * 300)]; [BSend] is the send window
    of stream 5, or 0 when there is no such stream. *)
Definition sendWindowShare (BSend : Z) : float32 :=
  f32_div (f32_of_Z BSend) (f32_mul (f32_of_Z DefaultMaxCongestionWindow) (f32_of_Z 300)).

(** [f_sendingRate] and [s_sendingRate]: the shares the two paths have of the rate of both. *)
Definition sendingRates (cwnd1 rtt1 cwnd2 rtt2 : Z) : float64 * float64 :=
  let total := (f64_of_Z cwnd1 / f64_of_Z rtt1 + f64_of_Z cwnd2 / f64_of_Z rtt2)%f64 in
  ((f64_of_Z cwnd1 / f64_of_Z rtt1 / total)%f64, (f64_of_Z cwnd2 / f64_of_Z rtt2 / total)%f64).

(** ** The parameters *)

Record params : Type := mkParams {
  Alpha : float64;
  Beta : float64;
  Delta : float64;
  Gamma : float64;
  Epsilon : float64;
  AdaDivisor : float64;
}.

(** The numbers of a line each; [Fscanln] leaves a value at 0 when there is none. *)
Definition readParams (config : list float64) : params :=
  let at_ i := default f64_zero (config !! i) in
  mkParams (at_ 0%nat) (at_ 1%nat) (at_ 2%nat) (at_ 3%nat) (at_ 4%nat) (at_ 5%nat).
(** [setup] reads ./config/qsat, and panics when it cannot be opened. *)
Definition setupParams (file : option (list float64)) : result params :=
  match file with None => Panic | Some config => Ok (readParams config) end.

(** ** What the schedulers have in common *)

(** The orders of the loops: over two paths, for a retransmission, over all paths, and the two
    of [selectPathLowLatency]. *)
Record orders (C : Type) : Type := mkOrders {
  o_two : list (Z * path C);
  o_low : list (Z * path C);
  o_all : list (Z * path C);
  o_low1 : list (Z * path C);
  o_low2 : list (Z * path C);
}.
Arguments mkOrders {C}.
Arguments o_two {C}.
Arguments o_low {C}.
Arguments o_all {C}.
Arguments o_low1 {C}.
Arguments o_low2 {C}.

(** The call for which a path is selected. *)
Record request (C : Type) : Type := mkRequest {
  rq_paths : gmap Z (path C);
  rq_hasRetransmission : bool;
  rq_hasStreamRetransmission : bool;
  rq_fromPth : option (path C);
  rq_orders : orders C;
}.
Arguments mkRequest {C}.
Arguments rq_paths {C}.
Arguments rq_hasRetransmission {C}.
Arguments rq_hasStreamRetransmission {C}.
Arguments rq_fromPth {C}.
Arguments rq_orders {C}.

Section learners.
Context {C : Type} `{SendAlgorithm C}.
Implicit Types p : path C.
Implicit Types ps : gmap Z (path C).
Implicit Types range : list (Z * path C).
Implicit Types rq : request C.

Definition lowLatency (sch : scheduler) rq : result (scheduler * option Z) :=
  selectPathLowLatency sch (rq_paths rq) (rq_hasRetransmission rq) (rq_hasStreamRetransmission rq) (rq_fromPth rq)
    (o_low1 (rq_orders rq)) (o_low2 (rq_orders rq)).

(** The cases with which the selections begin: at most one path, two paths (the one that is not
    the initial path), and a retransmission from a path that was not probed yet.  [None] when none
    of them returns. *)
Definition preselect (sch : scheduler) rq : result (option (option Z)) :=
  let ps := rq_paths rq in
  if Z.of_nat (size ps) <=? 1 then
    let* pth := onlyInitialPath ps (rq_hasRetransmission rq) in Ok (Some pth)
  else
  match (if Z.of_nat (size ps) =? 2 then otherPath (o_two (rq_orders rq)) else None) with
  | Some pathID => Ok (Some (Some pathID))
  | None =>
      let* low := lowQuotaPath (sch_quotas sch) (rq_hasRetransmission rq) (rq_hasStreamRetransmission rq)
        (rq_fromPth rq) (o_low (rq_orders rq)) in
      Ok (match low with Some pathID => Some (Some pathID) | None => None end)
  end.

(** The paths but the initial one, in the order of the loop. *)
Definition availablePaths range : list Z := filter (fun id => id <> InitialPathID) range.*1.

(** The loop that orders the paths: the one with the lowest ID, and another one. *)
Definition orderStep (fs : Z * Z) (pathID : Z) : Z * Z :=
  let '(firstPath, secondPath) := fs in
  if firstPath =? 255 then (pathID, secondPath)
  else if pathID <? firstPath then (pathID, firstPath)
  else (firstPath, pathID).
Definition orderPaths range : Z * Z := fold_left orderStep (availablePaths range) (255, 255).

(** A value of the maps that the loops fill, 0 for a path there is not. *)
Definition stat ps (f : path C -> Z) (id : Z) : Z := match ps !! id with Some p => f p | None => 0 end.
Definition latestRTT p : Z := rtt_latestRTT (p_rttStats p).
Definition inFlight p : Z := sp_bytesInFlight (p_sentPacketHandler p).
Definition sentPackets p : Z := sp_packets (p_sentPacketHandler p).
Definition retransPackets p : Z := sp_retransmissions (p_sentPacketHandler p).

(** [s.paths[availablePaths[action]]]: the index is checked, a nil path is dereferenced. *)
Definition actionPath rq (action : Z) : result (Z * path C) :=
  match availablePaths (o_all (rq_orders rq)) !! Z.to_nat action with
  | None => Panic
  | Some id => let* p := getPath (rq_paths rq) id in Ok (id, p)
  end.

(** The initial path, for a retransmission. *)
Definition initialForRetransmission rq : result (option Z) :=
  if rq_hasRetransmission rq then
    let* p := getPath (rq_paths rq) InitialPathID in
    Ok (if path_SendingAllowed p then Some InitialPathID else None)
  else Ok None.

(** The sending rates of the first and of the second path. *)
Definition rates ps range : float64 * float64 :=
  let '(f, s) := orderPaths range in
  sendingRates (stat ps cwnd f) (stat ps latestRTT f) (stat ps cwnd s) (stat ps latestRTT s).

(** *** Rewards *)

(** The maps of the functions that learn have no entry for the initial path. *)
Definition rewardStat ps (f : path C -> Z) (id : Z) : Z := if id =? InitialPathID then 0 else stat ps f id.

(** [cwndlevel], 0 for a path there is not. *)
Definition cwndlevel ps (id : Z) : float32 :=
  if id =? InitialPathID then f64_zero else
  match ps !! id with
  | None => f64_zero
  | Some p => if SFeqb (f32_of_Z (cwnd p)) f64_zero then f32_of_Z 1
              else f32_div (f32_of_Z (inFlight p)) (f32_of_Z (cwnd p))
  end.

(** The reward of QSAT and of Q-learning. *)
Definition reward (pr : params) ps (id : Z) : float64 :=
  let base := ((f64_one - Alpha pr - Beta pr) * f64_of_f32 (cwndlevel ps id) -
               Alpha pr * (NormalizeTimes (rewardStat ps latestRTT id) / f64_of_Z 50))%f64 in
  if SFltb f64_zero (f32_of_Z (rewardStat ps sentPackets id)) then
    (base - Beta pr * f64_of_f32 (f32_div (f32_mul (f32_of_Z 5) (f32_of_Z (rewardStat ps retransPackets id)))
                                          (f32_of_Z (rewardStat ps sentPackets id))))%f64
  else base.

(** [reWard[id]] of the map that has the rewards of the first and of the second path. *)
Definition rewardAt (r : Z -> float64) (fs : Z * Z) (id : Z) : float64 :=
  if (id =? fs.1) || (id =? fs.2) then r id else f64_zero.

(** The column of the path, and whether its reward is 0, with which nothing is learnt. *)
Definition columnOf (fs : Z * Z) (pathID : Z) : Z := if pathID =? fs.1 then 0 else 1.
Definition noReward (r : Z -> float64) (fs : Z * Z) (pathID : Z) : bool :=
  ((if (pathID =? fs.1)%Z then r fs.1 else r fs.2) =? f64_zero)%f64.

(** The new value of an entry. *)
Definition bellman (pr : params) (old rew maxNext : float64) : float64 :=
  ((f64_one - Delta pr) * old + Delta pr * (rew + Gamma pr * maxNext))%f64.

(** The actions in the order in which they are preferred; [None] when nothing is known. *)
Definition preferred (q0 q1 : float64) : option (Z * Z) :=
  if (q0 =? f64_zero)%f64 && (q1 =? q0)%f64 then None
  else if (q1 <? q0)%f64 then Some (0, 1) else Some (1, 0).

(** ** Peekaboo *)

(** The matrices and vectors of the linear bandits of the first and of the second path. *)
Record bandit : Type := mkBandit {
  MAaF : list (list float64);
  MAaS : list (list float64);
  MbaF : list float64;
  MbaS : list float64;
}.

Section peek.
(** [Inverse] and [Product] of gonum; a vector is a column. *)
Variable Inverse : list (list float64) -> list (list float64).
Variable Product : list (list float64) -> list (list float64) -> list (list float64).

Definition column (v : list float64) : list (list float64) := map (fun x => [x]) v.

Definition features (best second : path C) (BSend : Z) : list float64 :=
  let rttf := latestRTT best in
  let rtts := latestRTT second in
  if (0 <? rtts) && (0 <? rttf) then
    [f64_of_Z (cwnd best) / f64_of_Z rttf; f64_of_Z (inFlight second) / f64_of_Z rtts;
     f64_of_Z BSend / f64_of_Z rttf; f64_of_Z BSend / f64_of_Z rtts;
     f64_of_Z (inFlight best) / f64_of_Z rttf; f64_of_Z (cwnd second) / f64_of_Z rtts]%f64
  else replicate 6 f64_zero.

(** [thetaPro.At(0, 0)]: the product of the transposed theta and the features. *)
Definition banditValue (A : list (list float64)) (b feature : list float64) : float64 :=
  let theta := Product (Inverse A) (column b) in
  default f64_zero (head (concat (Product [concat theta] (column feature)))).

(** The loop: that of BLEST, without the test whether sending is allowed on the path. *)
Definition peekStep (s : selection) (e : Z * path C) : selection :=
  let '(pathID, pth) := e in
  if p_potentiallyFailed pth then s
  else if pathID =? InitialPathID then s
  else
  let currentRTT := pathRTT pth in
  if negb (sel_lowerRTT s =? 0) && (currentRTT =? 0) then s
  else
  let '(q, skip) := unprobed s pathID currentRTT in
  let s := sel_set_quotas s q in
  if skip then s
  else if currentRTT >=? sel_lowerRTT s then
    let s' := if ((sel_secondRTT s =? 0) || (currentRTT <? sel_secondRTT s)) && path_SendingAllowed pth
      then mkSel (sel_quotas s) (sel_path s) (sel_lowerRTT s) (sel_pathID s) (Some pathID) currentRTT else s in
    if negb (currentRTT =? 0) && negb (sel_lowerRTT s =? 0) && isSome (sel_path s) then s'
    else sel_update s' pathID currentRTT
  else sel_update s pathID currentRTT.

(** Whether it waits for the best path: the bandit decides, and [draw], [rand.Intn(100)]. *)
Definition peekWaits (b : bandit) (best second : path C) (BSend draw : Z) : bool :=
  let feature := features best second BSend in
  if (banditValue (MAaS b) (MbaS b) feature <? banditValue (MAaF b) (MbaF b) feature)%f64
  then draw <? 70 else negb (draw <? 90).

Definition selectPathPeek (b : bandit) (BSend draw : Z) (sch : scheduler) rq : result (scheduler * option Z) :=
  let ps := rq_paths rq in
  let hasRetransmission := rq_hasRetransmission rq in
  if Z.of_nat (size ps) <=? 1 then
    let* pth := onlyInitialPath ps hasRetransmission in Ok (sch, pth)
  else
  let* low := lowQuotaPath (sch_quotas sch) hasRetransmission (rq_hasStreamRetransmission rq) (rq_fromPth rq)
    (o_low (rq_orders rq)) in
  match low with
  | Some pathID => Ok (sch, Some pathID)
  | None =>
      let s := fold_left peekStep (o_all (rq_orders rq)) (noSelection (sch_quotas sch)) in
      let sch := mkSch (sel_quotas s) (sch_waiting sch) in
      match sel_path s with
      | None => Ok (sch, sel_second s)
      | Some bestID =>
          let* best := getPath ps bestID in
          if path_SendingAllowed best then Ok (mkSch (sel_quotas s) 0, Some bestID)
          else
          match sel_second s with
          | None => Ok (sch, None)
          | Some secondID =>
              let* second := getPath ps secondID in
              if hasRetransmission && path_SendingAllowed second then Ok (sch, Some secondID)
              else if hasRetransmission then
                Ok (sch, if bool_decide (is_Some (ps !! InitialPathID)) then Some InitialPathID else None)
              else if sch_waiting sch =? 1 then Ok (sch, None)
              else if peekWaits b best second BSend draw then Ok (mkSch (sel_quotas s) 1, None)
              else Ok (mkSch (sel_quotas s) 0, Some secondID)
          end
      end
  end.
End peek.

(** ** QSAT *)

Record qsat : Type := mkQsat {
  Qqtable : gmap (Z * Z) float64;
  QoldState : gmap (Z * Z) float64;
  QcountState : gmap Z Z;
}.

Definition qsat0 : qsat := mkQsat ∅ ∅ ∅.
Definition Qvalue (q : qsat) (row col : Z) : float64 := default f64_zero (Qqtable q !! (row, col)).
Definition qsatRow (x : float64) : Z := levelBelow qsatThresholds x 0.

(** [draw] is [rand.Float64()]. *)
Definition selectPathQSAT (pr : params) (draw : float64) (BSend : Z) (sch : scheduler) (q : qsat) rq :
    result (scheduler * qsat * option Z) :=
  let minRTT q := let* (sch, pth) := lowLatency sch rq in Ok (sch, q, pth) in
  if (Epsilon pr <? draw)%f64 then minRTT q
  else
  let* pre := preselect sch rq in
  match pre with
  | Some pth => Ok (sch, q, pth)
  | None =>
      let ro := qsatRow (f64_of_f32 (sendWindowShare BSend)) in
      let q := mkQsat (Qqtable q) (QoldState q) (<[ro := u32 (default 0 (QcountState q !! ro) + 1)]> (QcountState q)) in
      match preferred (Qvalue q ro 0) (Qvalue q ro 1) with
      | None => minRTT q
      | Some (action, action2) =>
          let* (id, p) := actionPath rq action in
          let* (id2, p2) := actionPath rq action2 in
          if (pathRTT p2 <? pathRTT p) && path_SendingAllowed p2 then Ok (sch, q, Some id2)
          else if path_SendingAllowed p then Ok (sch, q, Some id)
          else let* pth := initialForRetransmission rq in Ok (sch, q, pth)
      end
  end.

(** A packet was sent on path [pathID]. *)
Definition qsatSent (BSend : Z) (q : qsat) (pathID packetNumber : Z) : qsat :=
  if (0 <? pathID) && (0 <? packetNumber) then
    let BSend1 := f32_div (f32_div (f32_of_Z BSend) (f32_of_Z DefaultMaxCongestionWindow)) (f32_of_Z 300) in
    mkQsat (Qqtable q) (<[(pathID, packetNumber) := f64_of_f32 BSend1]> (QoldState q)) (QcountState q)
  else q.

Definition GetStateAndRewardQSAT (pr : params) (BSend : Z) ps range (pth : path C) (q : qsat) : qsat :=
  let fs := orderPaths range in
  let key := (p_pathID pth, p_lastRcvdPacketNumber pth) in
  let oldBSend := default f64_zero (QoldState q !! key) in
  let q := mkQsat (Qqtable q) (delete key (QoldState q)) (QcountState q) in
  let rew := reward pr ps in
  if noReward rew fs (p_pathID pth) then q
  else
  let col := columnOf fs (p_pathID pth) in
  let ro := qsatRow (f64_of_f32 (sendWindowShare BSend)) in
  let ro1 := qsatRow oldBSend in
  let maxNextState := if (Qvalue q ro 0 <? Qvalue q ro 1)%f64 then Qvalue q ro 1 else Qvalue q ro 0 in
  let newValue := bellman pr (Qvalue q ro1 col) (rewardAt rew fs (p_pathID pth)) maxNextState in
  mkQsat (<[(ro1, col) := newValue]> (Qqtable q)) (QoldState q) (QcountState q).

(** ** Q-learning *)

(** The levels of the two paths are the rows of the table, which has 5 x 5 of them. *)
Record qlearning : Type := mkQL {
  qtable : gmap (Z * Z * Z) float64;
  currentState_f : Z;
  currentState_s : Z;
  countState : gmap (Z * Z) Z;
  preRTT : gmap Z Z;
  iRTT : gmap Z float64;
  ql_record : Z;
}.

(** [setup] sets [record] to 1. *)
Definition qlearning0 : qlearning := mkQL ∅ 0 0 ∅ ∅ ∅ 1.

Definition level (x : float64) : Z := levelBelow clv_state x 0.

(** The index of an array of 5 is checked. *)
Definition in5 (i : Z) : bool := (0 <=? i) && (i <? 5).
Definition qtableAt (q : qlearning) (f s col : Z) : result float64 :=
  if in5 f && in5 s then Ok (default f64_zero (qtable q !! (f, s, col))) else Panic.

Definition selectPathQlearning (pr : params) (draw : float64) (sch : scheduler) (q : qlearning) rq :
    result (scheduler * qlearning * option Z) :=
  let minRTT q := let* (sch, pth) := lowLatency sch rq in Ok (sch, q, pth) in
  if (draw <=? Epsilon pr)%f64 then minRTT q
  else
  let* pre := preselect sch rq in
  match pre with
  | Some pth => Ok (sch, q, pth)
  | None =>
      let '(f_rate, s_rate) := rates (rq_paths rq) (o_all (rq_orders rq)) in
      let f := level f_rate in
      let s := level s_rate in
      let* q0 := qtableAt q f s 0 in
      let* q1 := qtableAt q f s 1 in
      let q := mkQL (qtable q) (currentState_f q) (currentState_s q)
        (<[(f, s) := u32 (default 0 (countState q !! (f, s)) + 1)]> (countState q)) (preRTT q) (iRTT q) (ql_record q) in
      match preferred q0 q1 with
      | None => minRTT q
      | Some (action, action2) =>
          let* (id, p) := actionPath rq action in
          if path_SendingAllowed p then Ok (sch, q, Some id)
          else
          let* (id2, p2) := actionPath rq action2 in
          if (pathRTT p2 <? pathRTT p) && path_SendingAllowed p2 then Ok (sch, q, Some id2)
          else let* pth := initialForRetransmission rq in Ok (sch, q, pth)
      end
  end.

(** The moving average of the change of the latest RTT. *)
Definition trackRTT (q : qlearning) (id rtt : Z) : qlearning :=
  let pre := default 0 (preRTT q !! id) in
  let i := if pre =? 0 then iRTT q
    else <[id := (f64_const 1 2 * default f64_zero (iRTT q !! id) + f64_const 1 2 * NormalizeTimes (i64 (rtt - pre)))%f64]> (iRTT q) in
  mkQL (qtable q) (currentState_f q) (currentState_s q) (countState q) (<[id := rtt]> (preRTT q)) i (ql_record q).

Definition GetStateAndRewardQlearning (pr : params) ps range (pth : path C) (q : qlearning) : result qlearning :=
  let id := p_pathID pth in
  let fs := orderPaths range in
  let q := trackRTT q id (rewardStat ps latestRTT id) in
  let rew := reward pr ps in
  let '(f_rate, s_rate) := rates ps range in
  if noReward rew fs id then Ok q
  else
  let col := columnOf fs id in
  let f := level f_rate in
  let s := level s_rate in
  let* n0 := qtableAt q f s 0 in
  let* n1 := qtableAt q f s 1 in
  let maxNextState := if (n1 <? n0)%f64 then n0 else n1 in
  let* old := qtableAt q (currentState_f q) (currentState_s q) col in
  let newValue := bellman pr old (rewardAt rew fs id) maxNextState in
  Ok (mkQL (<[(currentState_f q, currentState_s q, col) := newValue]> (qtable q)) f s (countState q) (preRTT q) (iRTT q)
        (u64 (ql_record q + 1))).

(** ** Q-learning for many clients *)

Record StateMulti : Type := mkStateMulti {
  FRTT : Z;
  SRTT : Z;
  FCWND : Z;
  SCWND : Z;
  FInP : Z;
  SInP : Z;
}.

(** The server stores a pointer for a new session, the scheduler a value. *)
Inductive s2Value : Type :=
| S2Pointer
| S2State (st : StateMulti).

Definition levels4 : Type := (Z * Z * Z * Z)%type.

(** The variables of the package multiclients that the schedulers of all sessions share. *)
Record central : Type := mkCentral {
  MultiQtable : gmap (levels4 * Z) float64;
  S2 : list (gmap (list Z) s2Value);
  Flag_update : bool;
}.

Record multi : Type := mkMulti {
  m_current : levels4;
  m_countSelectPath : Z;
  list_State : gmap (Z * Z) levels4;
  m_record : Z;
}.

Definition multi0 : multi := mkMulti (0, 0, 0, 0) 0 ∅ 1.
Definition central0 : central := mkCentral ∅ NewConcurrentMap false.

Definition in5s (l : levels4) : bool := let '(a, b, c, d) := l in in5 a && in5 b && in5 c && in5 d.
Definition multiQ (ce : central) (l : levels4) (col : Z) : result float64 :=
  if in5s l then Ok (default f64_zero (MultiQtable ce !! (l, col))) else Panic.

(** The state of this session, when the server registered it. *)
Definition shareState (connID : list Z) (st : StateMulti) (S2 : list (gmap (list Z) s2Value)) :
    result (list (gmap (list Z) s2Value)) :=
  let* old := Get S2 connID in
  match old with
  | Some _ => let* (S2, _) := Set_ S2 connID (S2State st) in Ok S2
  | None => Ok S2
  end.

(** The sums over the items that are values, in the order of the iteration. *)
Definition otherRates (items : list s2Value) : float64 * float64 :=
  fold_left (fun r v => match v with
    | S2Pointer => r
    | S2State st => let '(f, s) := sendingRates (FCWND st) (FRTT st) (SCWND st) (SRTT st) in ((r.1 + f)%f64, (r.2 + s)%f64)
    end) items (f64_zero, f64_zero).
Definition sumOf (f : StateMulti -> Z) (items : list s2Value) : Z :=
  fold_left (fun n v => match v with S2Pointer => n | S2State st => n +u f st end) items 0.

(** The levels of the network: the sending rates of this session, and the mean of the others'.
    [items] are the items of [S2] in the order of the iteration. *)
Definition networkLevels ps range (S2 : list (gmap (list Z) s2Value)) (items : list s2Value) : result levels4 :=
  let '(f_rate, s_rate) := rates ps range in
  let* n := Count S2 in
  let '(fr_Rate, sr_Rate) :=
    if n >? 1 then
      let '(f, s) := otherRates items in
      (((f - f_rate) / f64_of_Z (n - 1))%f64, ((s - s_rate) / f64_of_Z (n - 1))%f64)
    else (f64_zero, f64_zero) in
  Ok (level f_rate, level s_rate, levelBelow clv_state2 fr_Rate 0, levelAtLeast clv_state2 sr_Rate 0).

Definition selectPathQlearningMultiClients (pr : params) (draw : float64) (connID : list Z) (items : list s2Value)
    (sch : scheduler) (ce : central) (mu : multi) rq : result (scheduler * central * multi * option Z) :=
  let minRTT ce mu := let* (sch, pth) := lowLatency sch rq in Ok (sch, ce, mu, pth) in
  if (draw <=? Epsilon pr)%f64 then minRTT ce mu
  else
  let* pre := preselect sch rq in
  match pre with
  | Some pth => Ok (sch, ce, mu, pth)
  | None =>
      let ps := rq_paths rq in
      let range := o_all (rq_orders rq) in
      let '(f, s) := orderPaths range in
      let* S2 := shareState connID (mkStateMulti (stat ps latestRTT f) (stat ps latestRTT s) (stat ps cwnd f)
        (stat ps cwnd s) (stat ps inFlight f) (stat ps inFlight s)) (S2 ce) in
      let* n := Count S2 in
      let '(fr_Cap, sr_Cap) := if n >? 1 then (sumOf FCWND items, sumOf SCWND items) else (0, 0) in
      let* levels := networkLevels ps range S2 items in
      let mu := mkMulti levels (m_countSelectPath mu) (list_State mu) (m_record mu) in
      let ce := mkCentral (MultiQtable ce) S2 true in
      let* q0 := multiQ ce levels 0 in
      let* q1 := multiQ ce levels 1 in
      let room action := ((action =? 0) && (fr_Cap <? 1024 * 1024)) || ((action =? 1) && (sr_Cap <? 1024 * 1024)) in
      let counted := mkMulti levels ((m_countSelectPath mu + 1) mod 2 ^ 16) (list_State mu) (m_record mu) in
      match (if (q0 =? f64_zero)%f64 && (q1 =? f64_zero)%f64 then None
             else if (q1 <? q0)%f64 then Some (0, 1) else Some (1, 0)) with
      | None => minRTT ce mu
      | Some (action, action2) =>
          let* (id, p) := actionPath rq action in
          if path_SendingAllowed p && room action then Ok (sch, ce, counted, Some id)
          else
          let* (id2, p2) := actionPath rq action2 in
          if (pathRTT p2 <? pathRTT p) && path_SendingAllowed p2 && room action2 then Ok (sch, ce, counted, Some id2)
          else Ok (sch, ce, mu, None)
      end
  end.

(** The line that would remember the state of the packet is a comment. *)
Definition multiSent (ce : central) (pathID packetNumber : Z) : central :=
  if (0 <? pathID) && (0 <? packetNumber) && Flag_update ce then mkCentral (MultiQtable ce) (S2 ce) false else ce.

Definition maxQ (q0 q1 : float64) : float64 := if (q1 <? q0)%f64 then q0 else q1.

(** The update of both functions: the value of the current state is read, that of the state of
    the packet is written. *)
Definition multiLearn (pr : params) (ce : central) (mu : multi) (next old : levels4) (col : Z) (rew : float64) :
    result (central * multi) :=
  let mu := mkMulti (m_current mu) (m_countSelectPath mu) (list_State mu) (u64 (m_record mu + 1)) in
  let* n0 := multiQ ce next 0 in
  let* n1 := multiQ ce next 1 in
  let* cur := multiQ ce (m_current mu) col in
  let newValue := bellman pr cur rew (maxQ n0 n1) in
  if in5s old then Ok (mkCentral (<[(old, col) := newValue]> (MultiQtable ce)) (S2 ce) (Flag_update ce), mu) else Panic.

Definition multiReward (pr : params) ps (id : Z) : float64 :=
  ((f64_one - AdaDivisor pr) * f64_of_f32 (cwndlevel ps id) - Alpha pr * NormalizeTimes (rewardStat ps latestRTT id))%f64.

Definition stateOf (mu : multi) (pth : path C) : levels4 :=
  default (0, 0, 0, 0) (list_State mu !! (p_pathID pth, p_lastRcvdPacketNumber pth)).

Definition GetStateAndRewardMultiClients (pr : params) (items : list s2Value) ps range (pth : path C)
    (ce : central) (mu : multi) : result (central * multi) :=
  let fs := orderPaths range in
  let rew := multiReward pr ps in
  let* next := networkLevels ps range (S2 ce) items in
  if noReward rew fs (p_pathID pth) then Ok (ce, mu)
  else multiLearn pr ce mu next (stateOf mu pth) (columnOf fs (p_pathID pth)) (rewardAt rew fs (p_pathID pth)).

Definition GetStateAndRewardMultiClientsRetrans (pr : params) range (pth : path C)
    (ce : central) (mu : multi) : result (central * multi) :=
  let fs := orderPaths range in
  let old := stateOf mu pth in
  multiLearn pr ce mu old old (columnOf fs (p_pathID pth)) (rewardAt (fun _ => SFopp (Beta pr)) fs (p_pathID pth)).

(** What an acknowledgement does; [lost] when it made packets lost. *)
Definition multiAck (pr : params) (lost : bool) (items : list s2Value) ps range (pth : path C)
    (ce : central) (mu : multi) : result (central * multi) :=
  if p_pathID pth =? InitialPathID then Ok (ce, mu)
  else
  match list_State mu !! (p_pathID pth, p_lastRcvdPacketNumber pth) with
  | None => Ok (ce, mu)
  | Some _ =>
      if lost then GetStateAndRewardMultiClientsRetrans pr range pth ce mu
      else GetStateAndRewardMultiClients pr items ps range pth ce mu
  end.

(** What a retransmission does (getRetransmission). *)
Definition multiRetransmission (pr : params) range (pth : path C) (ce : central) (mu : multi) : result (central * multi) :=
  match list_State mu !! (p_pathID pth, p_lastRcvdPacketNumber pth) with
  | None => Ok (ce, mu)
  | Some _ => GetStateAndRewardMultiClientsRetrans pr range pth ce mu
  end.
End learners.
