(* ===== verification/Sac.v ===== *)
(** * The schedulers that ask the learning service (scheduler.go, scheduler_dl.go, scheduler_drl.go)

    DQN, SAC and SAC for many clients.  SAC asks an HTTP service for the probability of the second
    path, in a goroutine, and reports the rewards of its packets to it.  The requests that are under
    way are part of the state, an answer is an event; what is posted is collected.  Both SAC
    schedulers have the same code but for the state they send: the common part takes the state as a
    parameter. *)
From S2P Require Import Prelude Qerr ByteOrder Protocol WireStream WireControl AckRanges WireAck PublicHeader.
From S2P Require Import Frames ReceivedPackets Float32 RttStats SentPackets ConnParams FlowControl Congestion.
From S2P Require Import StreamFrameSorter StreamsMap Stream PacketNumberGenerator Path Scheduler ConcurrentMap Learning.

Record StateDQN : Type := mkStateDQN {
  CWNDf : float64;
  INPf : float64;
  SRTTf : float64;
  CWNDs : float64;
  INPs : float64;
  SRTTs : float64;
}.

Record StateSACMulti : Type := mkStateSACMulti {
  own : StateDQN;
  all : StateDQN;
  CNumber : Z;
}.

Record RewardPayload (T : Type) : Type := mkPayload {
  rp_State : T;
  rp_NextState : T;
  rp_Action : float64;
  rp_Reward : float64;
  rp_Done : bool;
  rp_ModelID : Z;
  rp_CountReward : Z;
}.
Arguments mkPayload {T}.
Arguments rp_State {T}.
Arguments rp_NextState {T}.
Arguments rp_Action {T}.
Arguments rp_Reward {T}.
Arguments rp_Done {T}.
Arguments rp_ModelID {T}.
Arguments rp_CountReward {T}.

(** The values of [multiclients.List_Reward_DQN], of either type. *)
Inductive rewardValue : Type :=
| PayloadDQN (x : RewardPayload StateDQN)
| PayloadMulti (x : RewardPayload StateSACMulti).

(** The fields of a SAC scheduler; [sac_pending] are the states of the requests under way,
    [sac_posted] the payloads posted to the service. *)
Record sac (T : Type) : Type := mkSac {
  sac_listState : gmap (Z * Z) T;
  sac_listAction : gmap (Z * Z) float64;
  sac_currentState : T;
  sac_prob : float64;
  sac_countAction : Z;
  sac_modelID : Z;
  sac_timeGetAction : Z;
  sac_pending : list T;
  sac_posted : list (RewardPayload T);
}.
Arguments mkSac {T}.
Arguments sac_listState {T}.
Arguments sac_listAction {T}.
Arguments sac_currentState {T}.
Arguments sac_prob {T}.
Arguments sac_countAction {T}.
Arguments sac_modelID {T}.
Arguments sac_timeGetAction {T}.
Arguments sac_pending {T}.
Arguments sac_posted {T}.

Definition zeroDQN : StateDQN := mkStateDQN f64_zero f64_zero f64_zero f64_zero f64_zero f64_zero.
Definition zeroSACMulti : StateSACMulti := mkStateSACMulti zeroDQN zeroDQN 0.

Abbreviation rewards := (list (gmap (list Z) rewardValue)).

(** An answer of the service: an error of the request, an error it reports, or probabilities. *)
Inductive serviceAnswer : Type :=
| AnswerFailed
| AnswerError (text : string)
| AnswerProbability (probability : list float64).

Section sac.
Context {C : Type} `{SendAlgorithm C} {T : Type}.
Implicit Types rq : request C.
Implicit Types ps : gmap Z (path C).
Implicit Types sa : sac T.
(** How the payloads are stored, the type assertion, and [strconv.FormatFloat(x, 'E', -1, 64)]. *)
Variable wrap : RewardPayload T -> rewardValue.
Variable unwrap : rewardValue -> option (RewardPayload T).
Variable FormatFloat : float64 -> list Z.

(** The end of [setup] and the state before. *)
Definition sac0 (zero : T) (modelID now : Z) : sac T := mkSac ∅ ∅ zero f64_zero 0 modelID now [] [].

Definition setNextState (x : RewardPayload T) (st : T) : RewardPayload T :=
  mkPayload (rp_State x) st (rp_Action x) (rp_Reward x) (rp_Done x) (rp_ModelID x) (rp_CountReward x).

(** [sch.getActionAsync]: a request is under way. *)
Definition askService sa (st : T) : sac T :=
  mkSac (sac_listState sa) (sac_listAction sa) (sac_currentState sa) (sac_prob sa) (sac_countAction sa) (sac_modelID sa)
    (sac_timeGetAction sa) (sac_pending sa ++ [st]) (sac_posted sa).

Definition sac_set_prob sa (prob : float64) : sac T :=
  mkSac (sac_listState sa) (sac_listAction sa) (sac_currentState sa) prob (sac_countAction sa) (sac_modelID sa)
    (sac_timeGetAction sa) (sac_pending sa) (sac_posted sa).
Definition sac_set_count sa (n : Z) : sac T :=
  mkSac (sac_listState sa) (sac_listAction sa) (sac_currentState sa) (sac_prob sa) n (sac_modelID sa)
    (sac_timeGetAction sa) (sac_pending sa) (sac_posted sa).
(** A new decision period. *)
Definition sac_renew sa (st : T) (now : Z) : sac T :=
  mkSac (sac_listState sa) (sac_listAction sa) st (sac_prob sa) 0 (sac_modelID sa) now (sac_pending sa) (sac_posted sa).

(** The count of the selections since the last request: every twelfth asks again.  [None] when the
    type assertion fails. *)
Definition sacCount (now : Z) sa (rw : rewards) (stateData : T) : result (option (sac T * rewards)) :=
  if sac_countAction sa >? 10 then
    let connID := FormatFloat (sac_prob sa) in
    let* old := Get rw connID in
    match old with
    | None => Ok (Some (askService (sac_renew sa stateData now) stateData, rw))
    | Some v =>
        match unwrap v with
        | None => Ok None
        | Some x =>
            let* (rw, _) := Set_ rw connID (wrap (setNextState x stateData)) in
            Ok (Some (askService (sac_renew sa stateData now) stateData, rw))
        end
    end
  else Ok (Some (sac_set_count sa (sac_countAction sa + 1), rw)).

(** The selection, once [stateData] is computed; [draw] is [r.Float64()]. *)
Definition sacSelect (now : Z) (draw : float64) (sch : scheduler) sa (rw : rewards) (stateData : T) rq :
    result (scheduler * sac T * rewards * option Z) :=
  let minRTT sa := let* (sch, pth) := lowLatency sch rq in Ok (sch, sa, rw, pth) in
  if (sac_prob sa =? f64_zero)%f64 then minRTT (askService (sac_set_prob sa f64_one) stateData)
  else if (sac_prob sa =? f64_one)%f64 then minRTT sa
  else
  let* counted := sacCount now sa rw stateData in
  match counted with
  | None => Ok (sch, sa, rw, None)
  | Some (sa, rw) =>
      let action := if (draw <? sac_prob sa)%f64 then 1 else 0 in
      let* (id, p) := actionPath rq action in
      if path_SendingAllowed p then Ok (sch, sa, rw, Some id)
      else let* pth := initialForRetransmission rq in Ok (sch, sa, rw, pth)
  end.

(** A packet was sent. *)
Definition sacSent sa (pathID packetNumber : Z) : sac T :=
  if (0 <? pathID) && (0 <? packetNumber) then
    mkSac (<[(pathID, packetNumber) := sac_currentState sa]> (sac_listState sa))
      (<[(pathID, packetNumber) := sac_prob sa]> (sac_listAction sa)) (sac_currentState sa) (sac_prob sa) (sac_countAction sa)
      (sac_modelID sa) (sac_timeGetAction sa) (sac_pending sa) (sac_posted sa)
  else sa.

(** The answer to the [i]-th request that is under way. *)
Definition sacAnswered (i : nat) (answer : serviceAnswer) sa (rw : rewards) : result (sac T * rewards) :=
  match sac_pending sa !! i with
  | None => Ok (sa, rw)
  | Some state =>
      let sa := mkSac (sac_listState sa) (sac_listAction sa) (sac_currentState sa) (sac_prob sa) (sac_countAction sa)
        (sac_modelID sa) (sac_timeGetAction sa) (delete i (sac_pending sa)) (sac_posted sa) in
      match answer with
      | AnswerFailed | AnswerError _ => Ok (sa, rw)
      | AnswerProbability [] => Panic
      | AnswerProbability (prob :: _) =>
          let sa := sac_set_prob sa prob in
          let* (rw, _) := Set_ rw (FormatFloat prob)
            (wrap (mkPayload state state prob f64_zero false (sac_modelID sa) 0)) in
          Ok (sa, rw)
      end
  end.

(** The reward of a packet that was acknowledged. *)
Definition sacReward ps (elapsed id : Z) : float64 :=
  let goodput := (NormalizeGoodput elapsed (rewardStat ps sentPackets id) (rewardStat ps retransPackets id) / f64_of_Z 100)%f64 in
  let rttrate := (f64_of_Z (rewardStat ps latestRTT id) / f64_of_Z 100 / f64_of_Z 1000000)%f64 in
  (goodput - rttrate)%f64.

(** [elapsed] is the time since the session was created.  After nine rewards their mean is posted. *)
Definition GetStateAndRewardSAC (elapsed : Z) ps (pth : path C) sa (rw : rewards) : result (sac T * rewards) :=
  let id := p_pathID pth in
  let rew := sacReward ps elapsed id in
  let old_action := default f64_zero (sac_listAction sa !! (id, p_lastRcvdPacketNumber pth)) in
  let connID := FormatFloat old_action in
  let* found := Get rw connID in
  match found with
  | None => Ok (sa, rw)
  | Some v =>
      match unwrap v with
      | None => Ok (sa, rw)
      | Some x =>
          let total := (rp_Reward x + rew * (if (id =? 1)%Z then old_action else f64_one - old_action))%f64 in
          let count := (rp_CountReward x + 1) mod 2 ^ 16 in
          if count >? 8 then
            let mean := (total / f64_of_Z count)%f64 in
            let post := mkPayload (rp_State x) (rp_NextState x) old_action mean false (sac_modelID sa) 0 in
            let* (rw, _) := Set_ rw connID
              (wrap (mkPayload (rp_State x) (rp_NextState x) old_action f64_zero (rp_Done x) (rp_ModelID x) 0)) in
            Ok (mkSac (sac_listState sa) (sac_listAction sa) (sac_currentState sa) (sac_prob sa) (sac_countAction sa)
                  (sac_modelID sa) (sac_timeGetAction sa) (sac_pending sa) (sac_posted sa ++ [post]), rw)
          else
            let* (rw, _) := Set_ rw connID
              (wrap (mkPayload (rp_State x) (rp_NextState x) (rp_Action x) total (rp_Done x) (rp_ModelID x) count)) in
            Ok (sa, rw)
      end
  end.
End sac.

(** ** The states *)

Section states.
Context {C : Type} `{SendAlgorithm C}.
Implicit Types rq : request C.
Implicit Types ps : gmap Z (path C).

Definition unwrapDQN (v : rewardValue) : option (RewardPayload StateDQN) := match v with PayloadDQN x => Some x | _ => None end.
Definition unwrapMulti (v : rewardValue) : option (RewardPayload StateSACMulti) := match v with PayloadMulti x => Some x | _ => None end.

(** [float64(n) / float64(DefaultMaxCongestionWindow*1024)] and [x / 100.0 / 1000000.0]. *)
Definition windowShare (n : Z) : float64 := (f64_of_Z n / f64_of_Z (DefaultMaxCongestionWindow * 1024))%f64.
Definition scaledTime (x : float64) : float64 := (x / f64_of_Z 100 / f64_of_Z 1000000)%f64.

(** The state of this session. *)
Definition stateSAC rq : StateDQN :=
  let ps := rq_paths rq in
  let '(f, s) := orderPaths (o_all (rq_orders rq)) in
  mkStateDQN (windowShare (stat ps cwnd f)) (windowShare (stat ps inFlight f)) (scaledTime (NormalizeTimes (stat ps pathRTT f)))
    (windowShare (stat ps cwnd s)) (windowShare (stat ps inFlight s)) (scaledTime (NormalizeTimes (stat ps pathRTT s))).

Definition selectPathSAC (FormatFloat : float64 -> list Z) (now : Z) (draw : float64) (sch : scheduler)
    (sa : sac StateDQN) (rw : rewards) rq : result (scheduler * sac StateDQN * rewards * option Z) :=
  let* pre := preselect sch rq in
  match pre with
  | Some pth => Ok (sch, sa, rw, pth)
  | None => sacSelect PayloadDQN unwrapDQN FormatFloat now draw sch sa rw (stateSAC rq) rq
  end.

(** The sums over all sessions, 0 when there is at most one.  The bytes in flight on the second path
    are summed up from those of the first one. *)
Definition allSessions (n : Z) (items : list s2Value) : StateDQN :=
  if n >? 1 then
    mkStateDQN (windowShare (sumOf FCWND items)) (windowShare (sumOf FInP items))
      (scaledTime (NormalizeTimes (fold_left (fun n v => match v with S2State st => i64 (n + FRTT st) | _ => n end) items 0)))
      (windowShare (sumOf SCWND items)) (windowShare (sumOf FInP items))
      (scaledTime (NormalizeTimes (fold_left (fun n v => match v with S2State st => i64 (n + SRTT st) | _ => n end) items 0)))
  else mkStateDQN (windowShare 0) (windowShare 0) (scaledTime f64_zero) (windowShare 0) (windowShare 0) (scaledTime f64_zero).

(** [items] are the items of [S2] in the order of the iteration. *)
Definition selectPathSACMulti (FormatFloat : float64 -> list Z) (now : Z) (draw : float64) (connID : list Z)
    (items : list s2Value) (sch : scheduler) (s2 : list (gmap (list Z) s2Value)) (sa : sac StateSACMulti) (rw : rewards) rq :
    result (scheduler * list (gmap (list Z) s2Value) * sac StateSACMulti * rewards * option Z) :=
  let* pre := preselect sch rq in
  match pre with
  | Some pth => Ok (sch, s2, sa, rw, pth)
  | None =>
      let ps := rq_paths rq in
      let '(f, s) := orderPaths (o_all (rq_orders rq)) in
      let* s2 := shareState connID (mkStateMulti (stat ps latestRTT f) (stat ps latestRTT s) (stat ps cwnd f)
        (stat ps cwnd s) (stat ps inFlight f) (stat ps inFlight s)) s2 in
      let* n := Count s2 in
      let stateData := mkStateSACMulti (stateSAC rq) (allSessions n items) n in
      let* (sch, sa, rw, pth) := sacSelect PayloadMulti unwrapMulti FormatFloat now draw sch sa rw stateData rq in
      Ok (sch, s2, sa, rw, pth)
  end.

(** The answer to a request and the rewards, of each of the two schedulers. *)
Definition getActionAsync (FormatFloat : float64 -> list Z) (i : nat) (answer : serviceAnswer) (sa : sac StateDQN) (rw : rewards) :
    result (sac StateDQN * rewards) := sacAnswered PayloadDQN FormatFloat i answer sa rw.
Definition getActionAsyncMulti (FormatFloat : float64 -> list Z) (i : nat) (answer : serviceAnswer) (sa : sac StateSACMulti) (rw : rewards) :
    result (sac StateSACMulti * rewards) := sacAnswered PayloadMulti FormatFloat i answer sa rw.
Definition rewardSAC (FormatFloat : float64 -> list Z) (elapsed : Z) ps (pth : path C) (sa : sac StateDQN) (rw : rewards) :
    result (sac StateDQN * rewards) := GetStateAndRewardSAC PayloadDQN unwrapDQN FormatFloat elapsed ps pth sa rw.
Definition GetStateAndRewardSACMulti (FormatFloat : float64 -> list Z) (elapsed : Z) ps (pth : path C) (sa : sac StateSACMulti)
    (rw : rewards) : result (sac StateSACMulti * rewards) := GetStateAndRewardSAC PayloadMulti unwrapMulti FormatFloat elapsed ps pth sa rw.

(** ** DQN *)

(** It computes its state, and then selects nothing but the initial path for a retransmission; the
    lines that ask for an action are comments. *)
Definition stateDQN rq : StateDQN :=
  let ps := rq_paths rq in
  let '(f, s) := orderPaths (o_all (rq_orders rq)) in
  mkStateDQN (f64_of_Z (stat ps cwnd f)) (f64_of_Z (stat ps inFlight f)) (f64_of_Z (stat ps pathRTT f))
    (f64_of_Z (stat ps cwnd s)) (f64_of_Z (stat ps inFlight s)) (f64_of_Z (stat ps pathRTT s)).

Definition selectPathDQN (sch : scheduler) (current : StateDQN) rq : result (StateDQN * option Z) :=
  let* pre := preselect sch rq in
  match pre with
  | Some pth => Ok (current, pth)
  | None => let* pth := initialForRetransmission rq in Ok (stateDQN rq, pth)
  end.
End states.

(** ** The selection by name *)

(** The learning scheduler of a session, by its name: peek, qsat, fuzzyqsat, multiclients, dqn, sac,
    sacmulti. *)
Inductive learner : Type :=
| LPeek (b : bandit)
| LQSAT (q : qsat)
| LQlearning (q : qlearning)
| LMulti (m : multi)
| LDQN (st : StateDQN)
| LSAC (sa : sac StateDQN)
| LSACMulti (sa : sac StateSACMulti).

(** What all sessions share. *)
Record shared : Type := mkShared { sh_central : central; sh_rewards : rewards }.

(** What a selection reads of the world: random numbers, the send window of stream 5, the time, the
    connection ID as a string and the items of [S2] in the order of their iteration. *)
Record draws : Type := mkDraws {
  d_float : float64;
  d_int : Z;
  d_BSend : Z;
  d_now : Z;
  d_connID : list Z;
  d_items : list s2Value;
}.

Section select.
Context {C : Type} `{SendAlgorithm C}.
Variable Inverse : list (list float64) -> list (list float64).
Variable Product : list (list float64) -> list (list float64) -> list (list float64).
Variable FormatFloat : float64 -> list Z.

Definition selectLearner (pr : params) (dr : draws) (sch : scheduler) (l : learner) (sh : shared) (rq : request C) :
    result (scheduler * learner * shared * option Z) :=
  match l with
  | LPeek b =>
      let* (sch, pth) := selectPathPeek Inverse Product b (d_BSend dr) (d_int dr) sch rq in Ok (sch, l, sh, pth)
  | LQSAT q =>
      let* (sch, q, pth) := selectPathQSAT pr (d_float dr) (d_BSend dr) sch q rq in Ok (sch, LQSAT q, sh, pth)
  | LQlearning q =>
      let* (sch, q, pth) := selectPathQlearning pr (d_float dr) sch q rq in Ok (sch, LQlearning q, sh, pth)
  | LMulti m =>
      let* (sch, ce, m, pth) := selectPathQlearningMultiClients pr (d_float dr) (d_connID dr) (d_items dr) sch (sh_central sh) m rq in
      Ok (sch, LMulti m, mkShared ce (sh_rewards sh), pth)
  | LDQN st =>
      let* (st, pth) := selectPathDQN sch st rq in Ok (sch, LDQN st, sh, pth)
  | LSAC sa =>
      let* (sch, sa, rw, pth) := selectPathSAC FormatFloat (d_now dr) (d_float dr) sch sa (sh_rewards sh) rq in
      Ok (sch, LSAC sa, mkShared (sh_central sh) rw, pth)
  | LSACMulti sa =>
      let* (sch, s2, sa, rw, pth) := selectPathSACMulti FormatFloat (d_now dr) (d_float dr) (d_connID dr) (d_items dr) sch
        (S2 (sh_central sh)) sa (sh_rewards sh) rq in
      Ok (sch, LSACMulti sa, mkShared (mkCentral (MultiQtable (sh_central sh)) s2 (Flag_update (sh_central sh))) rw, pth)
  end.
End select.
