(* ===== verification/LearningProofs.v ===== *)
(** * What the schedulers that learn select and learn

    Every selection returns, and returns a path of the session on which sending is allowed; what the
    tables of the schedulers can come to hold, and what follows for the paths they select. *)
From S2P Require Import Prelude Qerr ByteOrder Protocol WireStream WireControl AckRanges WireAck PublicHeader.
From S2P Require Import Frames ReceivedPackets Float32 RttStats SentPackets ConnParams FlowControl Congestion.
From S2P Require Import StreamFrameSorter StreamsMap Stream PacketNumberGenerator Path Scheduler SchedulerProofs.
From S2P Require Import ConcurrentMap Learning Sac.

Lemma filter_keeps_all {A} (P : A -> Prop) `{forall x, Decision (P x)} (l : list A) : Forall P l -> filter P l = l.
Proof. induction 1 as [|x l Hx _ IH]; [reflexivity|]. rewrite filter_cons_True by exact Hx. f_equal. exact IH. Qed.

Section selections.
Context {C : Type} `{SendAlgorithm C}.
Implicit Types p : path C.
Implicit Types ps : gmap Z (path C).
Implicit Types range : list (Z * path C).
Implicit Types rq : request C.

(** A call as the sending loop makes it: the orders are orders of the paths of the session, which
    has its initial path, and stream data is sent again from a path. *)
Record request_ok rq : Prop := {
  ro_two : o_two (rq_orders rq) ≡ₚ map_to_list (rq_paths rq);
  ro_low : o_low (rq_orders rq) ≡ₚ map_to_list (rq_paths rq);
  ro_all : o_all (rq_orders rq) ≡ₚ map_to_list (rq_paths rq);
  ro_low1 : o_low1 (rq_orders rq) ≡ₚ map_to_list (rq_paths rq);
  ro_low2 : o_low2 (rq_orders rq) ≡ₚ map_to_list (rq_paths rq);
  ro_initial : is_Some (rq_paths rq !! InitialPathID);
  ro_from : rq_hasRetransmission rq && rq_hasStreamRetransmission rq = true -> rq_fromPth rq <> None;
}.

(** The path is one of the session; and sending is allowed on it, unless something is sent again
    or it is the only path but the initial one. *)
Definition path_ok rq (id : Z) : Prop :=
  exists p, rq_paths rq !! id = Some p /\
    (rq_hasRetransmission rq = false ->
     path_SendingAllowed p = true \/ (size (rq_paths rq) = 2%nat /\ id <> InitialPathID)).

(** Sending is allowed on every path of the session and none of them failed. *)
Definition all_open rq : Prop :=
  forall id p, rq_paths rq !! id = Some p -> path_SendingAllowed p = true /\ p_potentiallyFailed p = false.

(** The selection is a path as above; there is none although every path is open only in the case [N]. *)
Definition selection_ok (N : Prop) rq (sel : option Z) : Prop :=
  match sel with
  | None => all_open rq -> N
  | Some id => path_ok rq id
  end.

Lemma onlyInitialPath_ok N rq : request_ok rq ->
  exists sel, onlyInitialPath (rq_paths rq) (rq_hasRetransmission rq) = Ok sel /\ selection_ok N rq sel.
Proof.
  intros R. destruct (ro_initial _ R) as [p Hp]. unfold onlyInitialPath. rewrite Hp. eexists. split; [reflexivity|].
  destruct (negb _ && negb _) eqn:E.
  { intros Ho. destruct (Ho _ _ Hp) as [Ha _]. rewrite Ha, andb_false_r in E. discriminate E. } exists p. split; [exact Hp|]. intros Hn. rewrite Hn in E. left.
  destruct (path_SendingAllowed p); [reflexivity | discriminate E].
Qed.

Lemma lowQuotaPath_ok q rq range : request_ok rq -> range ≡ₚ map_to_list (rq_paths rq) ->
  exists low, lowQuotaPath q (rq_hasRetransmission rq) (rq_hasStreamRetransmission rq) (rq_fromPth rq) range = Ok low /\
    forall id, low = Some id -> path_ok rq id.
Proof.
  intros R Hr. destruct (lowQuotaPath_spec q (rq_paths rq) (rq_hasRetransmission rq) (rq_hasStreamRetransmission rq) (rq_fromPth rq) range Hr (ro_from _ R))
    as (low & E & Hl). exists low. split; [exact E|]. intros id ->.
  destruct Hl as [(from & _ & Hret & _) (from' & _ & [p Hp] & _)]. exists p. split; [exact Hp|]. intros Hn. rewrite Hn in Hret. discriminate Hret.
Qed.

Lemma otherPath_spec range : match otherPath range with
  | Some id => id ∈ range.*1 /\ id <> InitialPathID
  | None => forall id, id ∈ range.*1 -> id = InitialPathID
  end.
Proof.
  induction range as [|[id p] range IH]; cbn [otherPath]; [intros id []%elem_of_nil|].
  destruct (Z.eqb_spec id InitialPathID) as [->|Hne]; cbn [negb].
  - destruct (otherPath range); cbn; [set_solver|]. intros id [->|Hin]%elem_of_cons; [reflexivity | apply IH, Hin].
  - split; [left | exact Hne].
Qed.

Lemma availablePaths_length rq range : request_ok rq -> range ≡ₚ map_to_list (rq_paths rq) ->
  length (availablePaths range) = pred (size (rq_paths rq)).
Proof.
  intros R Hr. destruct (ro_initial _ R) as [p Hp]. unfold availablePaths. rewrite Hr, <- length_map_to_list.
  assert (Hd := lookup_delete_eq (rq_paths rq) InitialPathID). set (m := delete InitialPathID (rq_paths rq)) in *.
  assert (E : rq_paths rq = <[InitialPathID := p]> m) by (symmetry; apply insert_delete_id, Hp). rewrite E, map_to_list_insert by exact Hd.
  cbn [fmap list_fmap fst length pred]. rewrite filter_cons_False by auto. rewrite filter_keeps_all; [apply length_fmap|].
  apply Forall_forall. intros id (x & -> & Hin)%list_elem_of_In%list_elem_of_fmap. destruct x as [id p']. cbn [fst].
  apply elem_of_map_to_list in Hin. congruence.
Qed.

Lemma other_path rq range : request_ok rq -> range ≡ₚ map_to_list (rq_paths rq) -> 1 < Z.of_nat (size (rq_paths rq)) ->
  exists id p, (id, p) ∈ range /\ rq_paths rq !! id = Some p /\ id <> InitialPathID.
Proof.
  intros R Hr Hgt. pose proof (availablePaths_length rq range R Hr) as Hl.
  destruct (availablePaths range) as [|id l] eqn:Ea; [cbn in Hl; lia|].
  assert (Hin : id ∈ availablePaths range) by (rewrite Ea; left). apply list_elem_of_filter in Hin as [Hne Hin].
  apply (elem_of_range_fst (rq_paths rq)) in Hin as [p Hp]; [|exact Hr]. exists id, p. split_and!; [|exact Hp|exact Hne].
  rewrite Hr. apply elem_of_map_to_list, Hp.
Qed.

Lemma other_usable rq range : request_ok rq -> range ≡ₚ map_to_list (rq_paths rq) -> 1 < Z.of_nat (size (rq_paths rq)) -> all_open rq ->
  exists e, e ∈ range /\ usable (rq_hasRetransmission rq) e = true.
Proof.
  intros R Hr Hgt Ho. destruct (other_path rq range R Hr Hgt) as (id & p & Hin & Hp & Hne). destruct (Ho _ _ Hp) as [Ha Hf].
  exists (id, p). split; [exact Hin|]. unfold usable. rewrite Ha, Hf, andb_false_r. apply Z.eqb_neq in Hne. rewrite Hne. reflexivity.
Qed.

Lemma lowLatency_ok N sch rq : request_ok rq -> exists sch' sel, lowLatency sch rq = Ok (sch', sel) /\ selection_ok N rq sel.
Proof.
  intros R. unfold lowLatency, selectPathLowLatency. destruct (Z.leb_spec (Z.of_nat (size (rq_paths rq))) 1) as [|Hgt].
  { destruct (onlyInitialPath_ok N rq R) as (sel & -> & Hs). cbn [bind]. eauto. }
  destruct (lowQuotaPath_ok (sch_quotas sch) rq _ R (ro_low1 _ R)) as (low & -> & Hl). cbn [bind].
  destruct low as [id|]; [eexists _, _; split; [reflexivity|]; exact (Hl id eq_refl)|]. destruct (lowLatency_best (sch_quotas sch) (rq_hasRetransmission rq) (o_low2 (rq_orders rq))) as [_ Hb].
  eexists _, _. split; [reflexivity|]. destruct (sel_path _) as [id|].
  2:{ intros Ho. destruct (other_usable rq (o_low2 (rq_orders rq)) R (ro_low2 _ R) Hgt Ho) as (e & He & Hu). rewrite (Hb e He) in Hu. discriminate Hu. }
  destruct Hb as (p & Hin & Hu & _).
  rewrite (ro_low2 _ R), elem_of_map_to_list in Hin. exists p. split; [exact Hin|]. intros Hn. left. unfold usable in Hu. rewrite Hn in Hu.
  destruct (path_SendingAllowed p); [reflexivity | discriminate Hu].
Qed.

(** With more than two paths there are two to choose from. *)
Lemma actionPath_ok rq action : request_ok rq -> (2 < size (rq_paths rq))%nat -> 0 <= action <= 1 ->
  exists id p, actionPath rq action = Ok (id, p) /\ rq_paths rq !! id = Some p /\ id <> InitialPathID.
Proof.
  intros R Hs Ha. unfold actionPath. destruct (lookup_lt_is_Some_2 (availablePaths (o_all (rq_orders rq))) (Z.to_nat action)) as [id E].
  { rewrite (availablePaths_length rq) by (exact R || apply R). lia. }
  rewrite E. apply list_elem_of_lookup_2 in E. unfold availablePaths in E. apply list_elem_of_filter in E as [Hne Hin].
  apply (elem_of_range_fst (rq_paths rq)) in Hin as [p Hp]; [|apply R]. exists id, p. unfold getPath. rewrite Hp. split_and!; [reflexivity..|exact Hne].
Qed.

Lemma initialForRetransmission_ok (N : Prop) rq : request_ok rq -> (all_open rq -> rq_hasRetransmission rq = false -> N) ->
  exists sel, initialForRetransmission rq = Ok sel /\ selection_ok N rq sel.
Proof.
  intros R HN. unfold initialForRetransmission. destruct (rq_hasRetransmission rq) eqn:E;
    [|exists None; split; [reflexivity|]; intros Ho; apply (HN Ho eq_refl)].
  destruct (ro_initial _ R) as [p Hp]. unfold getPath. rewrite Hp. cbn [bind]. eexists. split; [reflexivity|].
  destruct (path_SendingAllowed p) eqn:Ea; [|intros Ho; destruct (Ho _ _ Hp); congruence]. exists p. split; [exact Hp|]. congruence.
Qed.

Lemma preselect_ok N sch rq : request_ok rq -> exists pre, preselect sch rq = Ok pre /\
  match pre with Some sel => selection_ok N rq sel | None => (2 < size (rq_paths rq))%nat end.
Proof.
  intros R. unfold preselect. destruct (Z.leb_spec (Z.of_nat (size (rq_paths rq))) 1) as [|Hgt].
  { destruct (onlyInitialPath_ok N rq R) as (sel & -> & Hs). eexists. split; [reflexivity | exact Hs]. }
  assert (Hrest : (2 < size (rq_paths rq))%nat -> exists pre,
    (let* low := lowQuotaPath (sch_quotas sch) (rq_hasRetransmission rq) (rq_hasStreamRetransmission rq) (rq_fromPth rq)
      (o_low (rq_orders rq)) in Ok (match low with Some pathID => Some (Some pathID) | None => None end)) = Ok pre /\
    match pre with Some sel => selection_ok N rq sel | None => (2 < size (rq_paths rq))%nat end).
  { intros Hs. destruct (lowQuotaPath_ok (sch_quotas sch) rq _ R (ro_low _ R)) as (low & -> & Hl). eexists. split; [reflexivity|].
    destruct low as [id|]; [exact (Hl id eq_refl) | exact Hs]. }
  destruct (Z.eqb_spec (Z.of_nat (size (rq_paths rq))) 2) as [E2|Hne]; [|apply Hrest; lia].
  pose proof (otherPath_spec (o_two (rq_orders rq))) as Ho. destruct (otherPath _) as [id|].
  - destruct Ho as [Hin Hne]. apply (elem_of_range_fst (rq_paths rq)) in Hin as [p Hp]; [|apply R]. eexists. split; [reflexivity|].
    exists p. split; [exact Hp|]. intros _. right. split; [lia | exact Hne].
  - exfalso. pose proof (availablePaths_length rq _ R (ro_two _ R)) as Hl. replace (size (rq_paths rq)) with 2%nat in Hl by lia. cbn in Hl.
    destruct (availablePaths _) as [|id l] eqn:Ea; [discriminate Hl|].
    assert (Hin : id ∈ availablePaths (o_two (rq_orders rq))) by (rewrite Ea; left). apply list_elem_of_filter in Hin as [Hn Hin]. auto.
Qed.

(** What a selection returns, when it returns [sel] in the last component. *)
Definition selects {A} (N : Prop) rq (r : result (A * option Z)) : Prop := exists a sel, r = Ok (a, sel) /\ selection_ok N rq sel.

Lemma selects_intro {A} N rq (a : A) sel : selection_ok N rq sel -> selects N rq (Ok (a, sel)).
Proof. intros Hs. exists a, sel. split; [reflexivity | exact Hs]. Qed.

(** The branches that select the lowest round trip time. *)
Ltac min_rtt R :=
  match goal with |- context [lowLatency ?sch ?rq] =>
    let Hsel := fresh in
    match goal with |- selects ?N _ _ => destruct (lowLatency_ok N sch rq R) as (? & ? & -> & Hsel) end; apply selects_intro, Hsel end.

Lemma selects_allowed {A} N rq (a : A) id p : rq_paths rq !! id = Some p -> path_SendingAllowed p = true -> selects N rq (Ok (a, Some id)).
Proof. intros Hp Ha. apply selects_intro. exists p. split; [exact Hp|]. intros _. left. exact Ha. Qed.

Lemma selects_initial {A} (N : Prop) rq (a : A) : request_ok rq -> (all_open rq -> rq_hasRetransmission rq = false -> N) ->
  selects N rq (let* pth := initialForRetransmission rq in Ok (a, pth)).
Proof. intros R HN. destruct (initialForRetransmission_ok N rq R HN) as (sel & -> & Hs). apply selects_intro, Hs. Qed.

(** The path that was to be taken is not open. *)
Lemma not_open rq id p (N : Prop) : rq_paths rq !! id = Some p -> path_SendingAllowed p = false -> all_open rq -> N.
Proof. intros Hp Ha Ho. destruct (Ho _ _ Hp). congruence. Qed.

Lemma selects_preselect {A} N sch rq (pre : option Z -> result (A * option Z)) (rest : result (A * option Z)) : request_ok rq ->
  (forall sel, selection_ok N rq sel -> selects N rq (pre sel)) -> ((2 < size (rq_paths rq))%nat -> selects N rq rest) ->
  selects N rq (let* o := preselect sch rq in match o with Some pth => pre pth | None => rest end).
Proof.
  intros R Hp Hr. destruct (preselect_ok N sch rq R) as (o & -> & Hs). cbn [bind]. destruct o as [sel|]; auto.
Qed.

(** Read the next path of an action. *)
Tactic Notation "next_action" constr(R) constr(Hs) ident(id) ident(p) ident(Hp) :=
  match goal with |- context [actionPath ?rq ?action] =>
    destruct (actionPath_ok rq action R Hs ltac:(lia)) as (id & p & -> & Hp & _); cbn [bind] end.

Lemma preferred_range q0 q1 a a2 : preferred q0 q1 = Some (a, a2) -> 0 <= a <= 1 /\ 0 <= a2 <= 1.
Proof. unfold preferred. destruct (_ && _); [discriminate|]. destruct (_ <? _)%f64; intros [= <- <-]; lia. Qed.

Lemma selectPathQSAT_ok pr draw BSend sch q rq : request_ok rq -> selects False rq (selectPathQSAT pr draw BSend sch q rq).
Proof.
  intros R. unfold selectPathQSAT. destruct (_ <? _)%f64; [min_rtt R|].
  apply selects_preselect; [exact R | intros sel; apply selects_intro|]. intros Hs. set (q' := mkQsat _ _ _).
  destruct (preferred _ _) as [[a a2]|] eqn:Ep; [|min_rtt R].
  destruct (preferred_range _ _ _ _ Ep) as [Ha Ha2]. next_action R Hs id p Hp. next_action R Hs id2 p2 Hp2.
  destruct (_ && path_SendingAllowed p2) eqn:E2; [apply andb_true_iff in E2 as [_ E2]; exact (selects_allowed _ _ _ _ _ Hp2 E2)|].
  destruct (path_SendingAllowed p) eqn:E1; [exact (selects_allowed _ _ _ _ _ Hp E1) |].
  apply (selects_initial _ rq _ R). intros Ho _. exact (not_open rq id p _ Hp E1 Ho).
Qed.

Lemma levelBelow_range thresholds x i : i <= levelBelow thresholds x i <= i + Z.of_nat (length thresholds).
Proof.
  revert i. induction thresholds as [|t ts IH]; intros i; cbn [levelBelow length]; [lia|].
  destruct (_ <? _)%f64; [lia|]. specialize (IH (i + 1)). lia.
Qed.
Lemma levelAtLeast_range thresholds x i : i <= levelAtLeast thresholds x i <= i + Z.of_nat (length thresholds).
Proof.
  revert i. induction thresholds as [|t ts IH]; intros i; cbn [levelAtLeast length]; [lia|].
  destruct (_ <=? _)%f64; [lia|]. specialize (IH (i + 1)). lia.
Qed.

Lemma level_in5 x : in5 (level x) = true.
Proof. unfold in5, level. pose proof (levelBelow_range clv_state x 0) as Hl. cbn [clv_state length] in Hl. lia. Qed.

Lemma qtableAt_ok q f s col : in5 f = true -> in5 s = true -> qtableAt q f s col = Ok (default f64_zero (qtable q !! (f, s, col))).
Proof. intros Hf Hs. unfold qtableAt. rewrite Hf, Hs. reflexivity. Qed.

Lemma selectPathQlearning_ok pr draw sch q rq : request_ok rq -> selects False rq (selectPathQlearning pr draw sch q rq).
Proof.
  intros R. unfold selectPathQlearning. destruct (_ <=? _)%f64; [min_rtt R|].
  apply selects_preselect; [exact R | intros sel; apply selects_intro|]. intros Hs.
  destruct (rates _ _) as [fr sr]. rewrite !qtableAt_ok by apply level_in5. cbn [bind]. set (q' := mkQL _ _ _ _ _ _ _).
  destruct (preferred _ _) as [[a a2]|] eqn:Ep; [|min_rtt R].
  destruct (preferred_range _ _ _ _ Ep) as [Ha Ha2]. next_action R Hs id p Hp.
  destruct (path_SendingAllowed p) eqn:E1; [exact (selects_allowed _ _ _ _ _ Hp E1)|]. next_action R Hs id2 p2 Hp2.
  destruct (_ && path_SendingAllowed p2) eqn:E2; [apply andb_true_iff in E2 as [_ E2]; exact (selects_allowed _ _ _ _ _ Hp2 E2)|].
  apply (selects_initial _ rq _ R). intros Ho _. exact (not_open rq id p _ Hp E1 Ho).
Qed.

Lemma Get_ok {V} (m : list (gmap (list Z) V)) key : sharded m -> Get m key = Ok (contents m !! key).
Proof.
  intros Hs. destruct (run_spec m (OpGet key) Hs) as (m' & Hg & _). cbn [run spec snd] in Hg.
  destruct (Get m key); cbn [bind] in Hg; [|discriminate Hg..]. injection Hg as _ ->. reflexivity.
Qed.
Lemma Set_ok {V} (m : list (gmap (list Z) V)) key v : sharded m ->
  exists m', Set_ m key v = Ok (m', tt) /\ sharded m' /\ contents m' = <[key := v]> (contents m).
Proof.
  intros Hs. destruct (run_spec m (OpSet key v) Hs) as (m' & Hr & Hm' & Hc). cbn [run spec fst snd] in Hr, Hc. unfold answered in Hr.
  destruct (Set_ _ _ _) as [[m'' []]| |]; cbn [bind] in Hr; [|discriminate Hr..]. injection Hr as ->. eauto.
Qed.

Lemma shareState_ok connID st s2 : sharded s2 ->
  exists s2', shareState connID st s2 = Ok s2' /\ sharded s2' /\ size (contents s2') = size (contents s2).
Proof.
  intros Hs. unfold shareState. rewrite (Get_ok _ _ Hs). cbn [bind]. destruct (contents s2 !! connID) as [v|] eqn:E; [|eauto].
  destruct (Set_ok s2 connID (S2State st) Hs) as (s2' & -> & Hs' & Hc). cbn [bind]. eexists. split_and!; [reflexivity | exact Hs'|].
  rewrite Hc, map_size_insert, E. reflexivity.
Qed.

Lemma networkLevels_ok ps range s2 items : sharded s2 -> exists l, networkLevels ps range s2 items = Ok l /\ in5s l = true.
Proof.
  intros Hs. unfold networkLevels. destruct (rates ps range) as [fr sr]. rewrite (Count_size _ Hs). cbn [bind].
  set (others := if _ >? 1 then _ else _). destruct others as [f s]. eexists. split; [reflexivity|]. unfold in5s.
  rewrite !level_in5. cbn [andb]. unfold in5.
  pose proof (levelBelow_range clv_state2 f 0) as H1. pose proof (levelAtLeast_range clv_state2 s 0) as H2.
  cbn [clv_state2 clv_state length] in H1, H2. apply andb_true_iff. split; lia.
Qed.

Lemma multiQ_ok ce l col : in5s l = true -> multiQ ce l col = Ok (default f64_zero (MultiQtable ce !! (l, col))).
Proof. intros Hl. unfold multiQ. rewrite Hl. reflexivity. Qed.

Lemma selectPathQlearningMultiClients_ok pr draw connID items sch ce mu rq : request_ok rq -> sharded (S2 ce) ->
  selects ((2 < size (rq_paths rq))%nat /\ (1 < size (contents (S2 ce)))%nat) rq
    (selectPathQlearningMultiClients pr draw connID items sch ce mu rq).
Proof.
  intros R Hs2. set (N := _ /\ _). unfold selectPathQlearningMultiClients. destruct (_ <=? _)%f64; [min_rtt R|].
  apply selects_preselect; [exact R | intros sel; apply selects_intro|]. intros Hs.
  destruct (orderPaths _) as [f s]. destruct (shareState_ok connID (mkStateMulti (stat (rq_paths rq) latestRTT f) (stat (rq_paths rq) latestRTT s)
    (stat (rq_paths rq) cwnd f) (stat (rq_paths rq) cwnd s) (stat (rq_paths rq) inFlight f) (stat (rq_paths rq) inFlight s)) (S2 ce) Hs2) as (s2 & -> & Hs2' & Hsize).
  cbn [bind]. rewrite (Count_size _ Hs2'). cbn [bind]. set (caps := if _ >? 1 then _ else _).
  assert (Hcaps : caps = (0, 0) \/ N).
  { unfold caps. destruct (Z.gtb_spec (Z.of_nat (size (contents s2))) 1); [right; split; [exact Hs | lia] | left; reflexivity]. }
  clearbody caps. destruct caps as [fcap scap].
  destruct (networkLevels_ok (rq_paths rq) (o_all (rq_orders rq)) s2 items Hs2') as (l & -> & Hl). cbn [bind].
  rewrite !multiQ_ok by exact Hl. cbn [bind]. set (q0 := default _ _). set (q1 := default _ (_ !! (_, 1))).
  destruct (_ && (q1 =? _)%f64); [min_rtt R|].
  assert (Hgo : forall a a2, 0 <= a <= 1 -> 0 <= a2 <= 1 -> forall (mu' mu'' : multi) (r1 r2 : bool), (r1 = true \/ N) ->
    selects N rq (let* (id, p) := actionPath rq a in
      if path_SendingAllowed p && r1 then Ok (sch, mkCentral (MultiQtable ce) s2 true, mu', Some id)
      else let* (id2, p2) := actionPath rq a2 in
        if (pathRTT p2 <? pathRTT p) && path_SendingAllowed p2 && r2
        then Ok (sch, mkCentral (MultiQtable ce) s2 true, mu', Some id2) else Ok (sch, mkCentral (MultiQtable ce) s2 true, mu'', None))).
  { intros a a2 Ha Ha2 mu' mu'' r1 r2 Hr1. next_action R Hs id p Hp.
    destruct (path_SendingAllowed p && _) eqn:E1; [apply andb_true_iff in E1 as [E1 _]; exact (selects_allowed _ _ _ _ _ Hp E1)|].
    next_action R Hs id2 p2 Hp2. destruct (_ && path_SendingAllowed p2 && _) eqn:E2.
    - apply andb_true_iff in E2 as [E2 _]. apply andb_true_iff in E2 as [_ E2]. exact (selects_allowed _ _ _ _ _ Hp2 E2).
    - apply selects_intro. intros Ho. destruct Hr1 as [->|HN]; [|exact HN]. rewrite andb_true_r in E1. exact (not_open rq id p _ Hp E1 Ho). }
  destruct (q1 <? q0)%f64; apply Hgo; try lia; (destruct Hcaps as [[= -> ->]|HN]; [left; reflexivity | right; exact HN]).
Qed.

Lemma selectPathDQN_ok sch st rq : request_ok rq ->
  selects ((2 < size (rq_paths rq))%nat /\ rq_hasRetransmission rq = false) rq (selectPathDQN sch st rq).
Proof.
  intros R. unfold selectPathDQN. apply selects_preselect; [exact R | intros sel; apply selects_intro|]. intros Hs.
  apply (selects_initial _ rq _ R). intros _ Hr. split; [exact Hs | exact Hr].
Qed.

(** ** SAC *)

(** What waits to be posted for the probability [prob] is a payload of another type. *)
Definition other_type {T} (unwrap : rewardValue -> option (RewardPayload T)) (FormatFloat : float64 -> list Z) (prob : float64)
    (rw : rewards) : Prop :=
  exists v, contents rw !! FormatFloat prob = Some v /\ unwrap v = None.

Lemma sacCount_ok {T} (wrap : RewardPayload T -> rewardValue) unwrap FormatFloat now sa rw st : sharded rw ->
  exists r, sacCount wrap unwrap FormatFloat now sa rw st = Ok r /\
    match r with Some (_, rw') => sharded rw' | None => other_type unwrap FormatFloat (sac_prob sa) rw end.
Proof.
  intros Hs. unfold sacCount. destruct (_ >? 10); [|eexists; split; [reflexivity | exact Hs]].
  rewrite (Get_ok _ _ Hs). cbn [bind]. destruct (contents rw !! _) as [v|] eqn:Ev; [|eexists; split; [reflexivity | exact Hs]].
  destruct (unwrap v) as [x|] eqn:Eu; [|eexists; split; [reflexivity | exists v; split; [exact Ev | exact Eu]]].
  destruct (Set_ok rw (FormatFloat (sac_prob sa)) (wrap (setNextState x st)) Hs) as (rw' & -> & Hs' & _). eexists. split; [reflexivity | exact Hs'].
Qed.

Lemma sacSelect_ok {T} (wrap : RewardPayload T -> rewardValue) unwrap FormatFloat now draw sch sa rw st rq :
  request_ok rq -> sharded rw -> (2 < size (rq_paths rq))%nat ->
  selects ((2 < size (rq_paths rq))%nat /\ other_type unwrap FormatFloat (sac_prob sa) rw) rq
    (sacSelect wrap unwrap FormatFloat now draw sch sa rw st rq).
Proof.
  intros R Hrw Hs. unfold sacSelect. destruct (_ =? _)%f64; [min_rtt R|].
  destruct (_ =? _)%f64; [min_rtt R|].
  destruct (sacCount_ok wrap unwrap FormatFloat now sa rw st Hrw) as (r & -> & Hr). cbn [bind].
  destruct r as [[sa' rw']|]; [|apply selects_intro; intros _; split; [exact Hs | exact Hr]].
  assert (Ha : forall b : bool, 0 <= (if b then 1 else 0) <= 1) by (intros []; lia). specialize (Ha (draw <? sac_prob sa')%f64).
  next_action R Hs id p Hp. destruct (path_SendingAllowed p) eqn:E1; [exact (selects_allowed _ _ _ _ _ Hp E1)|].
  apply (selects_initial _ rq _ R). intros Ho _. exact (not_open rq id p _ Hp E1 Ho).
Qed.

Lemma selectPathSAC_ok FormatFloat now draw sch sa rw rq : request_ok rq -> sharded rw ->
  selects ((2 < size (rq_paths rq))%nat /\ other_type unwrapDQN FormatFloat (sac_prob sa) rw) rq
    (selectPathSAC FormatFloat now draw sch sa rw rq).
Proof.
  intros R Hrw. unfold selectPathSAC. apply selects_preselect; [exact R | intros sel; apply selects_intro|]. intros Hs.
  apply sacSelect_ok; assumption.
Qed.

Lemma selectPathSACMulti_ok FormatFloat now draw connID items sch s2 sa rw rq : request_ok rq -> sharded s2 -> sharded rw ->
  selects ((2 < size (rq_paths rq))%nat /\ other_type unwrapMulti FormatFloat (sac_prob sa) rw) rq
    (selectPathSACMulti FormatFloat now draw connID items sch s2 sa rw rq).
Proof.
  intros R Hs2 Hrw. unfold selectPathSACMulti. apply selects_preselect; [exact R | intros sel; apply selects_intro|]. intros Hs.
  destruct (orderPaths _) as [f s]. destruct (shareState_ok connID (mkStateMulti (stat (rq_paths rq) latestRTT f) (stat (rq_paths rq) latestRTT s)
    (stat (rq_paths rq) cwnd f) (stat (rq_paths rq) cwnd s) (stat (rq_paths rq) inFlight f) (stat (rq_paths rq) inFlight s)) s2 Hs2) as (s2' & -> & Hs2' & _).
  cbn [bind]. rewrite (Count_size _ Hs2'). cbn [bind]. set (st := mkStateSACMulti _ _ _).
  destruct (sacSelect_ok PayloadMulti unwrapMulti FormatFloat now draw sch sa rw st rq R Hrw Hs) as ([[sch' sa'] rw'] & sel & -> & Hsel).
  apply selects_intro, Hsel.
Qed.

(** ** Peekaboo *)

(** What the loop keeps: its best path is a path of the session, and on its second best one sending is
    allowed. *)
Definition peek_inv ps (s : selection) : Prop :=
  (forall id, sel_path s = Some id -> is_Some (ps !! id)) /\
  (forall id, sel_second s = Some id -> exists p, ps !! id = Some p /\ path_SendingAllowed p = true).

Lemma peekStep_inv ps s e : peek_inv ps s -> ps !! e.1 = Some e.2 -> peek_inv ps (peekStep s e).
Proof.
  destruct e as [id p]. cbn [fst snd]. intros [H1 H2] Hp. unfold peekStep. destruct (p_potentiallyFailed p); [split; assumption|].
  destruct (id =? InitialPathID); [split; assumption|]. destruct (negb _ && _); [split; assumption|].
  destruct (unprobed s id (pathRTT p)) as [q skip]. destruct skip; [split; assumption|].
  assert (Hu : forall s', (forall id, sel_second s' = Some id -> exists p, ps !! id = Some p /\ path_SendingAllowed p = true) ->
    peek_inv ps (sel_update s' id (pathRTT p))) by (intros s' Hs'; split; [intros ? [= <-]; eauto | exact Hs']).
  destruct (_ >=? _); [|apply Hu, H2]. destruct (_ && path_SendingAllowed p) eqn:Ea.
  - apply andb_true_iff in Ea as [_ Ea]. destruct (_ && _ && _); [split; cbn; [exact H1 | intros ? [= <-]; eauto]|].
    apply Hu. cbn. intros ? [= <-]. eauto.
  - destruct (_ && _ && _); [split; assumption | apply Hu, H2].
Qed.

Lemma peek_loop ps range s : (forall e, e ∈ range -> ps !! e.1 = Some e.2) -> peek_inv ps s -> peek_inv ps (fold_left peekStep range s).
Proof.
  revert s. induction range as [|e range IH]; intros s Hr Hs; [exact Hs|]. cbn [fold_left]. apply IH; [intros; apply Hr; right; assumption|].
  apply peekStep_inv; [exact Hs | apply Hr; left].
Qed.

(** A path is found once the loop met one that did not fail, the initial one apart. *)
Definition peek_found (s : selection) : Prop := is_Some (sel_path s) \/ (sel_path s = None /\ sel_lowerRTT s = 0).

Lemma peekStep_found s e : peek_found s ->
  peek_found (peekStep s e) /\ (is_Some (sel_path s) -> is_Some (sel_path (peekStep s e))) /\
  (p_potentiallyFailed e.2 = false -> e.1 <> InitialPathID -> is_Some (sel_path (peekStep s e))).
Proof.
  destruct e as [id p]. cbn [fst snd]. intros Hf.
  assert (Hboth : (peek_found (peekStep s (id, p)) /\ (is_Some (sel_path s) -> is_Some (sel_path (peekStep s (id, p))))) /\
    (sel_path s = None -> p_potentiallyFailed p = false -> id <> InitialPathID -> is_Some (sel_path (peekStep s (id, p))))).
  { unfold peekStep, peek_found in *. unfold unprobed. split.
    - destruct Hf as [[b Hb]|[Hb Hl]]; repeat (case_match; cbn; simplify_eq); cbn; split; eauto; rewrite ?Hb, ?Hl in *; eauto; discriminate.
    - intros Hb -> Hne%Z.eqb_neq. rewrite Hne. destruct Hf as [[b Hb']|[_ Hl]]; [congruence|]. rewrite Hl, Hb. cbn [Z.eqb negb andb isSome].
      repeat (case_match; cbn; simplify_eq); cbn; eauto; rewrite ?Hb, ?Hl, ?andb_false_r in *; eauto; discriminate. }
  destruct Hboth as [[H1 H2] H3]. split_and!; [exact H1 | exact H2|]. intros Hp Hne. destruct (sel_path s) eqn:E; [apply H2; eauto | auto].
Qed.

Lemma peek_finds range s : peek_found s ->
  (is_Some (sel_path s) \/ exists id p, (id, p) ∈ range /\ p_potentiallyFailed p = false /\ id <> InitialPathID) ->
  is_Some (sel_path (fold_left peekStep range s)).
Proof.
  revert s. induction range as [|e range IH]; intros s Hf Hs; cbn [fold_left].
  { destruct Hs as [Hs|(id & p & []%elem_of_nil & _)]. exact Hs. }
  destruct (peekStep_found s e Hf) as (H1 & H2 & H3). apply IH; [exact H1|].
  destruct Hs as [Hs|(id & p & [<-|Hin]%elem_of_cons & Hp & Hne)]; [left; auto | left; apply H3; [exact Hp | exact Hne] | right; eauto].
Qed.

Lemma selectPathPeek_ok Inverse Product b BSend draw sch rq : request_ok rq ->
  selects False rq (selectPathPeek Inverse Product b BSend draw sch rq).
Proof.
  intros R. unfold selectPathPeek. destruct (Z.leb_spec (Z.of_nat (size (rq_paths rq))) 1) as [|Hgt].
  { destruct (onlyInitialPath_ok False rq R) as (sel & -> & Hs). apply selects_intro, Hs. }
  destruct (lowQuotaPath_ok (sch_quotas sch) rq _ R (ro_low _ R)) as (low & -> & Hl). cbn [bind].
  destruct low as [id|]; [apply selects_intro, (Hl id eq_refl)|].
  assert (Hfind : all_open rq -> is_Some (sel_path (fold_left peekStep (o_all (rq_orders rq)) (noSelection (sch_quotas sch))))).
  { intros Ho. apply peek_finds; [right; split; reflexivity|]. right.
    destruct (other_path rq _ R (ro_all _ R) Hgt) as (id & p & Hin & Hp & Hne). exists id, p. split_and!; [exact Hin | apply (Ho _ _ Hp) | exact Hne]. }
  destruct (peek_loop (rq_paths rq) (o_all (rq_orders rq)) (noSelection (sch_quotas sch))) as [H1 H2].
  { intros [id p] Hin. rewrite (ro_all _ R) in Hin. apply elem_of_map_to_list, Hin. }
  { split; intros ? [=]. }
  set (s := fold_left _ _ _) in *. clearbody s.
  assert (Hsecond : forall id (sch' : scheduler), sel_second s = Some id -> selects False rq (Ok (sch', Some id))).
  { intros id sch' E. destruct (H2 id E) as (p & Hp & Ha). exact (selects_allowed False rq sch' id p Hp Ha). }
  destruct (sel_path s) as [bestID|].
  2:{ destruct (sel_second s) as [id|]; [apply Hsecond; reflexivity |]. apply selects_intro. intros Ho. destruct (Hfind Ho) as [? [=]]. }
  destruct (H1 bestID eq_refl) as [best Hb]. unfold getPath at 1. rewrite Hb. cbn [bind].
  destruct (path_SendingAllowed best) eqn:Eb; [exact (selects_allowed _ _ _ _ _ Hb Eb)|].
  pose proof (not_open rq bestID best False Hb Eb) as Hno.
  destruct (sel_second s) as [secondID|]; [|apply selects_intro; exact Hno].
  destruct (H2 secondID eq_refl) as (second & Hs & Ha). unfold getPath. rewrite Hs. cbn [bind]. rewrite Ha.
  destruct (rq_hasRetransmission rq); cbn [andb]; [apply Hsecond; reflexivity|].
  destruct (_ =? 1); [apply selects_intro; exact Hno|]. destruct (peekWaits _ _ _ _ _ _ _); [apply selects_intro; exact Hno | apply Hsecond; reflexivity].
Qed.

(** When a scheduler that learns selects no path although every path is open: Peekaboo, QSAT and Q-learning never;
    DQN when there are more than two paths and nothing is sent again; Q-learning for several clients when there are
    more than two paths and another client shares its state; SAC when there are more than two paths and a payload of
    another type is stored for its probability. *)
Definition selects_nothing (FormatFloat : float64 -> list Z) (l : learner) (sh : shared) rq : Prop :=
  match l with
  | LPeek _ | LQSAT _ | LQlearning _ => False
  | LMulti _ => (2 < size (rq_paths rq))%nat /\ (1 < size (contents (S2 (sh_central sh))))%nat
  | LDQN _ => (2 < size (rq_paths rq))%nat /\ rq_hasRetransmission rq = false
  | LSAC sa => (2 < size (rq_paths rq))%nat /\ other_type unwrapDQN FormatFloat (sac_prob sa) (sh_rewards sh)
  | LSACMulti sa => (2 < size (rq_paths rq))%nat /\ other_type unwrapMulti FormatFloat (sac_prob sa) (sh_rewards sh)
  end.

(** C21: Every scheduler that learns returns whenever it is asked, without a panic, whatever it
    has learnt, whatever the random numbers are and in every order of its loops.  A path that it
    selects is one of the session, and unless something is sent again sending is allowed on it, or it is
    the only path besides the initial one, for which the schedulers do not look.  When sending is allowed on
    every path and none of them failed it does select a path, but in the cases of [selects_nothing]: the schedulers for
    several clients, DQN and SAC have such cases, all with more than two paths. *)
Theorem learners_select_usable Inverse Product FormatFloat pr dr sch l sh rq :
  request_ok rq -> sharded (S2 (sh_central sh)) -> sharded (sh_rewards sh) ->
  exists sch' l' sh' sel,
    selectLearner Inverse Product FormatFloat pr dr sch l sh rq = Ok (sch', l', sh', sel) /\
    match sel with
    | Some id => path_ok rq id
    | None => all_open rq -> selects_nothing FormatFloat l sh rq
    end.
Proof.
  intros R Hs2 Hrw. unfold selectLearner. destruct l as [b|q|q|m|st|sa|sa].
  - destruct (selectPathPeek_ok Inverse Product b (d_BSend dr) (d_int dr) sch rq R) as (sch' & sel & -> & Hs). eauto 7.
  - destruct (selectPathQSAT_ok pr (d_float dr) (d_BSend dr) sch q rq R) as ([sch' q'] & sel & -> & Hs). eauto 7.
  - destruct (selectPathQlearning_ok pr (d_float dr) sch q rq R) as ([sch' q'] & sel & -> & Hs). eauto 7.
  - destruct (selectPathQlearningMultiClients_ok pr (d_float dr) (d_connID dr) (d_items dr) sch (sh_central sh) m rq R Hs2)
      as ([[sch' ce] m'] & sel & -> & Hs). eauto 7.
  - destruct (selectPathDQN_ok sch st rq R) as (st' & sel & -> & Hs). eauto 7.
  - destruct (selectPathSAC_ok FormatFloat (d_now dr) (d_float dr) sch sa (sh_rewards sh) rq R Hrw) as ([[sch' sa'] rw] & sel & -> & Hs). eauto 7.
  - destruct (selectPathSACMulti_ok FormatFloat (d_now dr) (d_float dr) (d_connID dr) (d_items dr) sch (S2 (sh_central sh)) sa (sh_rewards sh) rq R Hs2 Hrw)
      as ([[[sch' s2] sa'] rw] & sel & -> & Hs). eauto 7.
Qed.
End selections.
