(* ===== verification/LearningTables.v ===== *)
(** * What the schedulers that learn can learn

    Invariants of the states the schedulers reach, by induction on their steps: the table of QSAT has
    one row, that of many clients stays empty, that of Q-learning stays in its bounds, and SAC depends
    on the first answer of its service. *)
From S2P Require Import Prelude Qerr ByteOrder Protocol WireStream WireControl AckRanges WireAck PublicHeader.
From S2P Require Import Frames ReceivedPackets Float32 RttStats SentPackets ConnParams FlowControl Congestion.
From S2P Require Import StreamFrameSorter StreamsMap Stream PacketNumberGenerator Path Scheduler SchedulerProofs.
From S2P Require Import ConcurrentMap Learning Sac LearningProofs.

(** ** Signs of floats *)

Definition f_nonneg (x : spec_float) : bool :=
  match x with S754_finite true _ _ | S754_infinity true => false | _ => true end.

Lemma nonneg_not_below x : f_nonneg x = true -> SFltb x f64_zero = false.
Proof. destruct x as [[]|[]| |[] m e]; cbn; congruence. Qed.

Lemma round_aux_nonneg prec emax m e l : f_nonneg (binary_round_aux prec emax false m e l) = true.
Proof.
  unfold binary_round_aux. destruct (shr_fexp _ _ _ _ _) as [mrs e1]. destruct (shr_fexp _ _ _ _ _) as [mrs2 e2].
  destruct (shr_m mrs2); [reflexivity| |reflexivity]. destruct (_ <=? _); reflexivity.
Qed.

Lemma binary_round_nonneg prec emax m e : f_nonneg (binary_round prec emax false m e) = true.
Proof. unfold binary_round. destruct (shl_align _ _ _) as [m1 e1]. apply round_aux_nonneg. Qed.

Lemma normalize_nonneg prec emax n e : 0 <= n -> f_nonneg (binary_normalize prec emax n e false) = true.
Proof. destruct n as [|p|p]; cbn; [reflexivity | intros _; apply binary_round_nonneg | lia]. Qed.

Lemma div_nonneg prec emax x y : f_nonneg x = true -> f_nonneg y = true -> SFeqb y f64_zero = false -> f_nonneg (SFdiv prec emax x y) = true.
Proof.
  intros Hx Hy Hz. destruct y as [sy|[]| |[] my ey]; try discriminate Hy; try discriminate Hz; destruct x as [sx|[]| |[] mx ex]; try discriminate Hx; try reflexivity.
  cbn [SFdiv]. destruct (SFdiv_core_binary _ _ _ _ _ _) as [[mz ez] lz]. apply round_aux_nonneg.
Qed.

Lemma f64_of_f32_nonneg x : f_nonneg x = true -> f_nonneg (f64_of_f32 x) = true.
Proof. destruct x as [[]|[]| |[] m e]; try reflexivity; try discriminate. intros _. apply normalize_nonneg. lia. Qed.

Lemma share_nonneg BSend : 0 <= BSend -> f_nonneg (f64_of_f32 (sendWindowShare BSend)) = true.
Proof.
  intros Hb. apply f64_of_f32_nonneg, div_nonneg; [apply normalize_nonneg, Hb | vm_compute; reflexivity..].
Qed.

(** ** QSAT *)

(** None of the thresholds of QSAT is above 0, so that every state is the last one. *)
Lemma qsatRow_last x : f_nonneg x = true -> qsatRow x = 7.
Proof.
  intros Hx. unfold qsatRow, qsatThresholds. cbn [replicate levelBelow]. rewrite !nonneg_not_below by exact Hx. reflexivity.
Qed.

Section tables.
Context {C : Type} `{SendAlgorithm C}.
Implicit Types p : path C.
Implicit Types ps : gmap Z (path C).
Implicit Types range : list (Z * path C).
Implicit Types rq : request C.

(** The steps of QSAT: a selection, a packet that is sent, an acknowledgement; the send window is not
    negative. *)
Inductive qsat_step (pr : params) : qsat -> qsat -> Prop :=
| qsat_select q draw BSend sch rq sch' q' sel : 0 <= BSend ->
    selectPathQSAT pr draw BSend sch q rq = Ok (sch', q', sel) -> qsat_step pr q q'
| qsat_sent q BSend pathID packetNumber : 0 <= BSend -> qsat_step pr q (qsatSent BSend q pathID packetNumber)
| qsat_acked q BSend ps range pth : 0 <= BSend -> qsat_step pr q (GetStateAndRewardQSAT pr BSend ps range pth q).

Definition qsat_inv (q : qsat) : Prop :=
  (forall row col, row <> 7 -> Qqtable q !! (row, col) = None) /\ (forall k x, QoldState q !! k = Some x -> f_nonneg x = true).

Lemma selectPathQSAT_tables pr draw BSend sch q rq sch' q' sel :
  selectPathQSAT pr draw BSend sch q rq = Ok (sch', q', sel) -> Qqtable q' = Qqtable q /\ QoldState q' = QoldState q.
Proof.
  unfold selectPathQSAT. intros E. destruct (_ <? _)%f64.
  { destruct (lowLatency sch rq) as [[? ?]| |]; cbn [bind] in E; [|discriminate E..]. injection E as _ <- _. split; reflexivity. }
  destruct (preselect sch rq) as [[pre|]| |]; cbn [bind] in E; try discriminate E; [injection E as _ <- _; split; reflexivity|].
  destruct (preferred _ _) as [[a a2]|].
  2:{ destruct (lowLatency sch rq) as [[? ?]| |]; cbn [bind] in E; [|discriminate E..]. injection E as _ <- _. split; reflexivity. }
  destruct (actionPath rq a) as [[id p]| |]; cbn [bind] in E; [|discriminate E..].
  destruct (actionPath rq a2) as [[id2 p2]| |]; cbn [bind] in E; [|discriminate E..].
  destruct (_ && _); [injection E as _ <- _; split; reflexivity|]. destruct (path_SendingAllowed p); [injection E as _ <- _; split; reflexivity|].
  destruct (initialForRetransmission rq); cbn [bind] in E; [|discriminate E..]. injection E as _ <- _. split; reflexivity.
Qed.

Lemma old_share_nonneg BSend : 0 <= BSend ->
  f_nonneg (f64_of_f32 (f32_div (f32_div (f32_of_Z BSend) (f32_of_Z DefaultMaxCongestionWindow)) (f32_of_Z 300))) = true.
Proof.
  intros Hb. apply f64_of_f32_nonneg, div_nonneg; [apply div_nonneg; [apply normalize_nonneg, Hb | vm_compute; reflexivity..] | vm_compute; reflexivity..].
Qed.

Lemma qsat_step_inv pr q q' : qsat_step pr q q' -> qsat_inv q -> qsat_inv q'.
Proof.
  intros Hstep [H1 H2]. destruct Hstep as [q draw BSend sch rq sch' q' sel Hb E|q BSend pathID pn Hb|q BSend ps range pth Hb].
  - destruct (selectPathQSAT_tables _ _ _ _ _ _ _ _ _ E) as [E1 E2]. unfold qsat_inv. rewrite E1, E2. split; assumption.
  - unfold qsatSent. destruct (_ && _); [|split; assumption]. split; [exact H1|]. cbn. intros k x [[<- <-]|[_ Hk]]%lookup_insert_Some; [|eauto].
    apply old_share_nonneg, Hb.
  - unfold GetStateAndRewardQSAT. assert (Hd : forall k x, delete (p_pathID pth, p_lastRcvdPacketNumber pth) (QoldState q) !! k = Some x -> f_nonneg x = true).
    { intros k x [_ Hk]%lookup_delete_Some. eauto. }
    destruct (noReward _ _ _); [split; assumption|]. split; [|exact Hd]. intros row col Hrow. cbn [Qqtable].
    rewrite lookup_insert_ne; [apply H1, Hrow|]. intros [= Hr _]. apply Hrow. rewrite <- Hr. apply qsatRow_last.
    destruct (QoldState q !! _) as [x|] eqn:Eo; [exact (H2 _ _ Eo) | reflexivity].
Qed.

Lemma qsat_reaches pr q : rtc (qsat_step pr) qsat0 q -> qsat_inv q.
Proof.
  intros Hr. assert (H0 : qsat_inv qsat0) by (split; cbn; intros; [apply lookup_empty | rewrite lookup_empty in *; discriminate]).
  revert H0. induction Hr as [|q1 q2 q3 Hs _ IH]; [auto|]. intros H1. apply IH. exact (qsat_step_inv _ _ _ Hs H1).
Qed.

(** QSAT learns nothing about its state: whatever happens, its table has values in one row only, and the
    send window, from which its rows are made, has no influence on the path it selects or on what an
    acknowledgement teaches it, because the thresholds between the rows are never set. *)
Theorem qsat_ignores_window pr q : rtc (qsat_step pr) qsat0 q ->
  (forall row col, row <> 7 -> Qvalue q row col = f64_zero) /\
  (forall draw BSend BSend' sch rq, 0 <= BSend -> 0 <= BSend' ->
     selectPathQSAT pr draw BSend sch q rq = selectPathQSAT pr draw BSend' sch q rq) /\
  (forall BSend BSend' ps range pth, 0 <= BSend -> 0 <= BSend' ->
     GetStateAndRewardQSAT pr BSend ps range pth q = GetStateAndRewardQSAT pr BSend' ps range pth q).
Proof.
  intros Hr. destruct (qsat_reaches pr q Hr) as [H1 H2]. split_and!.
  - intros row col Hrow. unfold Qvalue. rewrite (H1 row col Hrow). reflexivity.
  - intros draw BSend BSend' sch rq Hb Hb'. unfold selectPathQSAT. rewrite !qsatRow_last by (apply share_nonneg; assumption). reflexivity.
  - intros BSend BSend' ps range pth Hb Hb'. unfold GetStateAndRewardQSAT. rewrite !(qsatRow_last (f64_of_f32 _)) by (apply share_nonneg; assumption). reflexivity.
Qed.

(** ** Q-learning *)

Inductive qlearning_step (pr : params) : qlearning -> qlearning -> Prop :=
| ql_select q draw sch rq sch' q' sel : selectPathQlearning pr draw sch q rq = Ok (sch', q', sel) -> qlearning_step pr q q'
| ql_acked q q' ps range pth : GetStateAndRewardQlearning pr ps range pth q = Ok q' -> qlearning_step pr q q'.

Definition qlearning_inv (q : qlearning) : Prop := in5 (currentState_f q) = true /\ in5 (currentState_s q) = true.

(** An entry of the table, and the larger one of a state. *)
Definition tableValue (q : qlearning) (f s col : Z) : float64 := default f64_zero (qtable q !! (f, s, col)).
Definition bestValue (q : qlearning) (f s : Z) : float64 :=
  if (tableValue q f s 1 <? tableValue q f s 0)%f64 then tableValue q f s 0 else tableValue q f s 1.

(** What an acknowledgement does from a state in the bounds: the table is changed in one entry at most,
    that of the last state in the column of the path. *)
Lemma GetStateAndRewardQlearning_spec pr ps range pth q : qlearning_inv q ->
  exists q', GetStateAndRewardQlearning pr ps range pth q = Ok q' /\ qlearning_inv q' /\
    let col := columnOf (orderPaths range) (p_pathID pth) in
    (if noReward (reward pr ps) (orderPaths range) (p_pathID pth) 
     then qtable q' = qtable q /\ currentState_f q' = currentState_f q /\ currentState_s q' = currentState_s q
     else qtable q' = <[(currentState_f q, currentState_s q, col) :=
         bellman pr (tableValue q (currentState_f q) (currentState_s q) col) (rewardAt (reward pr ps) (orderPaths range) (p_pathID pth))
           (bestValue q (level (rates ps range).1) (level (rates ps range).2))]> (qtable q) /\
       currentState_f q' = level (rates ps range).1 /\ currentState_s q' = level (rates ps range).2).
Proof.
  intros [Hf Hs]. unfold GetStateAndRewardQlearning. set (q1 := trackRTT q _ _).
  assert (E : qtable q1 = qtable q /\ currentState_f q1 = currentState_f q /\ currentState_s q1 = currentState_s q) by (split_and!; reflexivity).
  clearbody q1. destruct E as (E1 & E2 & E3). destruct (rates ps range) as [fr sr]. cbn [fst snd].
  destruct (noReward _ _ _); [exists q1; split_and!; [reflexivity | split; congruence | exact E1 | exact E2 | exact E3]|].
  rewrite !qtableAt_ok by apply level_in5. cbn [bind]. rewrite qtableAt_ok by congruence. cbn [bind]. rewrite E1, E2, E3.
  eexists. split_and!; [reflexivity | split; apply level_in5 | reflexivity..].
Qed.

Lemma selectPathQlearning_same pr draw sch q rq sch' q' sel : selectPathQlearning pr draw sch q rq = Ok (sch', q', sel) ->
  qtable q' = qtable q /\ currentState_f q' = currentState_f q /\ currentState_s q' = currentState_s q.
Proof.
  unfold selectPathQlearning. intros E. destruct (_ <=? _)%f64.
  { destruct (lowLatency sch rq) as [[? ?]| |]; cbn [bind] in E; [|discriminate E..]. injection E as _ <- _. split_and!; reflexivity. }
  destruct (preselect sch rq) as [[pre|]| |]; cbn [bind] in E; try discriminate E; [injection E as _ <- _; split_and!; reflexivity|].
  destruct (rates _ _) as [fr sr]. rewrite !qtableAt_ok in E by apply level_in5. cbn [bind] in E. destruct (preferred _ _) as [[a a2]|].
  2:{ destruct (lowLatency sch rq) as [[? ?]| |]; cbn [bind] in E; [|discriminate E..]. injection E as _ <- _. split_and!; reflexivity. }
  destruct (actionPath rq a) as [[id p]| |]; cbn [bind] in E; [|discriminate E..].
  destruct (path_SendingAllowed p); [injection E as _ <- _; split_and!; reflexivity|].
  destruct (actionPath rq a2) as [[id2 p2]| |]; cbn [bind] in E; [|discriminate E..].
  destruct (_ && _); [injection E as _ <- _; split_and!; reflexivity|].
  destruct (initialForRetransmission rq); cbn [bind] in E; [|discriminate E..]. injection E as _ <- _. split_and!; reflexivity.
Qed.

Lemma qlearning_reaches pr q : rtc (qlearning_step pr) qlearning0 q ->
  qlearning_inv q /\ (forall f s col, in5 f && in5 s && ((col =? 0) || (col =? 1)) = false -> qtable q !! (f, s, col) = None).
Proof.
  intros Hr. assert (H0 : qlearning_inv qlearning0 /\ (forall f s col, in5 f && in5 s && ((col =? 0) || (col =? 1)) = false -> qtable qlearning0 !! (f, s, col) = None))
    by (split; [split; reflexivity | intros; apply lookup_empty]).
  revert H0. induction Hr as [|q1 q2 q3 Hstep _ IH]; [auto|]. intros [Hi Ht]. apply IH. destruct Hstep as [q draw sch rq sch' q' sel E|q q' ps range pth E].
  - destruct (selectPathQlearning_same _ _ _ _ _ _ _ _ E) as (E1 & E2 & E3). unfold qlearning_inv. rewrite E1, E2, E3. split; assumption.
  - destruct (GetStateAndRewardQlearning_spec pr ps range pth q Hi) as (q2 & E2 & Hi2 & Hq). rewrite E in E2. injection E2 as <-.
    split; [exact Hi2|]. intros f s col Hb. cbv zeta in Hq. destruct (noReward _ _ _); [destruct Hq as [-> _]; apply Ht, Hb|].
    destruct Hq as [-> _]. rewrite lookup_insert_ne; [apply Ht, Hb|]. intros [= <- <- <-]. destruct Hi as [Hf Hs]. rewrite Hf, Hs in Hb.
    unfold columnOf in Hb. destruct (p_pathID pth =? _); discriminate Hb.
Qed.

(** C22: Q-learning, from its start and after any selections and acknowledgements: an acknowledgement never
    indexes its table out of bounds.  When the reward of the path is 0 it leaves the table and the current state as they
    are; otherwise it changes one entry, that of the state the acknowledgement before left and of the column of the
    path, to the value of the Bellman equation with the reward and the best entry of the new state, and the
    levels of the rates are the new state. *)
Theorem qlearning_learns_one_entry pr q ps range pth : rtc (qlearning_step pr) qlearning0 q ->
  let rew := reward pr ps in
  let fs := orderPaths range in
  let id := p_pathID pth in
  let f := level (rates ps range).1 in
  let s := level (rates ps range).2 in
  exists q', GetStateAndRewardQlearning pr ps range pth q = Ok q' /\
    in5 (currentState_f q) && in5 (currentState_s q) = true /\
    (noReward rew fs id = true ->
     qtable q' = qtable q /\ currentState_f q' = currentState_f q /\ currentState_s q' = currentState_s q) /\
    (noReward rew fs id = false ->
     qtable q' = <[(currentState_f q, currentState_s q, columnOf fs id) :=
       bellman pr (tableValue q (currentState_f q) (currentState_s q) (columnOf fs id)) (rewardAt rew fs id) (bestValue q f s)]> (qtable q) /\
     currentState_f q' = f /\ currentState_s q' = s).
Proof.
  intros Hr rew fs id f s. destruct (qlearning_reaches pr q Hr) as [Hi _].
  destruct (GetStateAndRewardQlearning_spec pr ps range pth q Hi) as (q' & E & _ & Hq). cbv zeta in Hq. exists q'.
  split; [exact E|]. split; [apply andb_true_iff; exact Hi|].
  split; intros En; unfold rew, fs, id in En; rewrite En in Hq; exact Hq.
Qed.

(** ** Many clients *)

(** The sessions of a server with this scheduler, and what they share. *)
Record multiSystem : Type := mkMS { ms_central : central; ms_sessions : gmap Z multi }.

(** The steps of the sessions, and of the server, which adds sessions to [S2] and removes them. *)
Inductive multi_step (pr : params) : multiSystem -> multiSystem -> Prop :=
| multi_new ce ss i : multi_step pr (mkMS ce ss) (mkMS ce (<[i := multi0]> ss))
| multi_select ce ss i m draw connID items sch rq sch' ce' m' sel : ss !! i = Some m -> request_ok rq ->
    selectPathQlearningMultiClients pr draw connID items sch ce m rq = Ok (sch', ce', m', sel) ->
    multi_step pr (mkMS ce ss) (mkMS ce' (<[i := m']> ss))
| multi_sent ce ss pathID packetNumber : multi_step pr (mkMS ce ss) (mkMS (multiSent ce pathID packetNumber) ss)
| multi_acked ce ss i m lost items ps range pth ce' m' : ss !! i = Some m ->
    multiAck pr lost items ps range pth ce m = Ok (ce', m') -> multi_step pr (mkMS ce ss) (mkMS ce' (<[i := m']> ss))
| multi_retransmits ce ss i m range (pth : path C) ce' m' : ss !! i = Some m ->
    multiRetransmission pr range pth ce m = Ok (ce', m') -> multi_step pr (mkMS ce ss) (mkMS ce' (<[i := m']> ss))
| multi_server ce ss s2 : sharded s2 -> multi_step pr (mkMS ce ss) (mkMS (mkCentral (MultiQtable ce) s2 (Flag_update ce)) ss).

Definition multi_inv (s : multiSystem) : Prop :=
  MultiQtable (ms_central s) = ∅ /\ sharded (S2 (ms_central s)) /\ forall i m, ms_sessions s !! i = Some m -> list_State m = ∅.

(** A selection of a session whose table is empty: what the lowest round trip time gives, unless one of the
    first cases applies. *)
Lemma multi_select_empty pr draw connID items sch ce m rq : request_ok rq -> sharded (S2 ce) -> MultiQtable ce = ∅ ->
  exists ce' m', MultiQtable ce' = ∅ /\ sharded (S2 ce') /\ list_State m' = list_State m /\
  selectPathQlearningMultiClients pr draw connID items sch ce m rq =
    let* pre := if (draw <=? Epsilon pr)%f64 then Ok None else preselect sch rq in
    match pre with
    | Some pth => Ok (sch, ce, m, pth)
    | None => let* (sch', pth) := lowLatency sch rq in Ok (sch', ce', m', pth)
    end.
Proof.
  intros R Hs2 Hq. unfold selectPathQlearningMultiClients. destruct (_ <=? _)%f64; [exists ce, m; split_and!; auto|].
  destruct (preselect_ok True sch rq R) as (pre & -> & Hpre). cbn [bind]. destruct pre as [pth|]; [exists ce, m; split_and!; auto|].
  destruct (orderPaths _) as [f s]. destruct (shareState_ok connID (mkStateMulti (stat (rq_paths rq) latestRTT f) (stat (rq_paths rq) latestRTT s)
    (stat (rq_paths rq) cwnd f) (stat (rq_paths rq) cwnd s) (stat (rq_paths rq) inFlight f) (stat (rq_paths rq) inFlight s)) (S2 ce) Hs2) as (s2 & -> & Hs2' & _).
  cbn [bind]. rewrite (Count_size _ Hs2'). cbn [bind]. set (caps := if _ >? 1 then _ else _). destruct caps as [fcap scap].
  destruct (networkLevels_ok (rq_paths rq) (o_all (rq_orders rq)) s2 items Hs2') as (l & -> & Hl). cbn [bind].
  rewrite !multiQ_ok by exact Hl. cbn [bind MultiQtable]. rewrite Hq, !lookup_empty. cbn [default].
  exists (mkCentral ∅ s2 true), (mkMulti l (m_countSelectPath m) (list_State m) (m_record m)). split_and!; auto.
Qed.

Lemma multi_step_inv pr s s' : multi_step pr s s' -> multi_inv s -> multi_inv s'.
Proof.
  intros Hstep (Hq & Hs2 & Hl).
  assert (Hins : forall ce ss i m, (forall i m, ss !! i = Some m -> list_State m = ∅) -> list_State m = ∅ ->
    MultiQtable ce = ∅ -> sharded (S2 ce) -> multi_inv (mkMS ce (<[i := m]> ss))).
  { intros ce ss i m H1 H2 H3 H4. split_and!; [exact H3 | exact H4|]. cbn. intros j m' [[<- <-]|[_ Hj]]%lookup_insert_Some; eauto. }
  destruct Hstep as [ce ss i|ce ss i m draw connID items sch rq sch' ce' m' sel Hi R E|ce ss pid pn|ce ss i m lost items ps range pth ce' m' Hi E|ce ss i m range pth ce' m' Hi E|ce ss s2 Hs];
    cbn [ms_central ms_sessions] in *.
  - apply Hins; auto.
  - destruct (multi_select_empty pr draw connID items sch ce m rq R Hs2 Hq) as (ce1 & m1 & H1 & H2 & H3 & E1). rewrite E in E1.
    assert (Hcase : (ce' = ce /\ m' = m) \/ (ce' = ce1 /\ m' = m1)).
    { destruct (if (draw <=? Epsilon pr)%f64 then Ok None else preselect sch rq) as [[pth|]| |]; cbn [bind] in E1; try discriminate E1.
      - injection E1 as -> -> -> ->. left. split; reflexivity.
      - destruct (lowLatency sch rq) as [[? ?]| |]; cbn [bind] in E1; try discriminate E1. injection E1 as -> -> -> ->. right. split; reflexivity. }
    destruct Hcase as [[-> ->]|[-> ->]]; apply Hins; auto; rewrite ?H3; eauto.
  - unfold multiSent. destruct (_ && _); split_and!; auto.
  - unfold multiAck in E. destruct (_ =? _); [injection E as <- <-; apply Hins; eauto|].
    rewrite (Hl i m Hi), lookup_empty in E. injection E as <- <-. apply Hins; eauto.
  - unfold multiRetransmission in E. rewrite (Hl i m Hi), lookup_empty in E. injection E as <- <-. apply Hins; eauto.
  - split_and!; auto.
Qed.

Lemma multi_reaches pr s : rtc (multi_step pr) (mkMS central0 ∅) s -> multi_inv s.
Proof.
  intros Hr. assert (H0 : multi_inv (mkMS central0 ∅)).
  { split_and!; [reflexivity | apply New_sharded | cbn; intros i m Hi; rewrite lookup_empty in Hi; discriminate Hi]. }
  revert H0. induction Hr as [|s1 s2 s3 Hs _ IH]; [auto|]. intros H1. apply IH. exact (multi_step_inv _ _ _ Hs H1).
Qed.

(** C23: The scheduler for many clients never learns: whatever its sessions and the server do, in every order,
    acknowledgements and retransmissions change nothing, and with more than two paths, when no stream data is
    sent again to a path with fewer packets, it selects the path that the lowest-RTT scheduler selects. *)
Theorem multiclients_never_learns pr s i m : rtc (multi_step pr) (mkMS central0 ∅) s -> ms_sessions s !! i = Some m ->
  (forall lost items ps range pth, multiAck pr lost items ps range pth (ms_central s) m = Ok (ms_central s, m)) /\
  (forall range (pth : path C), multiRetransmission pr range pth (ms_central s) m = Ok (ms_central s, m)) /\
  (forall draw connID items sch rq, request_ok rq -> preselect sch rq = Ok None ->
     exists sch' ce' m' sel, lowLatency sch rq = Ok (sch', sel) /\
       selectPathQlearningMultiClients pr draw connID items sch (ms_central s) m rq = Ok (sch', ce', m', sel)).
Proof.
  intros Hr Hi. destruct (multi_reaches pr s Hr) as (Hq & Hs2 & Hl). specialize (Hl i m Hi). split_and!.
  - intros lost items ps range pth. unfold multiAck. rewrite Hl, lookup_empty. destruct (_ =? _); reflexivity.
  - intros range pth. unfold multiRetransmission. rewrite Hl, lookup_empty. reflexivity.
  - intros draw connID items sch rq R Hp. destruct (multi_select_empty pr draw connID items sch (ms_central s) m rq R Hs2 Hq) as (ce' & m' & _ & _ & _ & E).
    destruct (lowLatency_ok True sch rq R) as (sch' & sel & El & _). exists sch', ce', m', sel. split; [exact El|].
    rewrite E, Hp, El. destruct (_ <=? _)%f64; reflexivity.
Qed.

(** ** SAC *)

Section sac.
Context {T : Type} (wrap : RewardPayload T -> rewardValue) (unwrap : rewardValue -> option (RewardPayload T)).
Context (FormatFloat : float64 -> list Z).
Implicit Types sa : sac T.

(** The steps of a session with SAC, with the number of the requests for a probability that each of them makes; the
    answers of the service are those in [answers].  A selection that is made before the state is looked at changes
    nothing of this.  The payloads are shared with the other sessions, which may change them too. *)
Inductive sac_step (answers : serviceAnswer -> Prop) : nat -> sac T * rewards -> sac T * rewards -> Prop :=
| sac_selects sa rw now draw sch st rq sch' sa' rw' sel n :
    sacSelect wrap unwrap FormatFloat now draw sch sa rw st rq = Ok (sch', sa', rw', sel) ->
    length (sac_pending sa') = (n + length (sac_pending sa))%nat -> sac_step answers n (sa, rw) (sa', rw')
| sac_sends sa rw pathID packetNumber : sac_step answers 0 (sa, rw) (sacSent sa pathID packetNumber, rw)
| sac_answered sa rw i answer sa' rw' : answers answer ->
    sacAnswered wrap FormatFloat i answer sa rw = Ok (sa', rw') -> sac_step answers 0 (sa, rw) (sa', rw')
| sac_acked sa rw elapsed ps pth sa' rw' :
    GetStateAndRewardSAC wrap unwrap FormatFloat elapsed ps pth sa rw = Ok (sa', rw') -> sac_step answers 0 (sa, rw) (sa', rw')
| sac_others sa rw rw' : sac_step answers 0 (sa, rw) (sa, rw').

(** A run, with the number of the requests that were made during it. *)
Inductive sac_run (answers : serviceAnswer -> Prop) : nat -> sac T * rewards -> sac T * rewards -> Prop :=
| sac_start st : sac_run answers 0 st st
| sac_more n m st1 st2 st3 : sac_step answers n st1 st2 -> sac_run answers m st2 st3 -> sac_run answers (n + m) st1 st3.

Definition failing (answer : serviceAnswer) : Prop := match answer with AnswerProbability _ => False | _ => True end.

(** Before the first request, and after it was made: [n] is the number of the requests so far. *)
Definition sac_waiting (n : nat) sa : Prop :=
  (n = 0%nat /\ sac_prob sa = f64_zero /\ sac_pending sa = []) \/ (n = 1%nat /\ sac_prob sa = f64_one).

Lemma f64_one_facts : (f64_zero =? f64_zero)%f64 = true /\ (f64_one =? f64_zero)%f64 = false /\ (f64_one =? f64_one)%f64 = true.
Proof. vm_compute. split_and!; reflexivity. Qed.

Lemma sacSelect_waiting n now draw sch sa rw st rq : sac_waiting n sa ->
  sacSelect wrap unwrap FormatFloat now draw sch sa rw st rq =
    let* (sch', pth) := lowLatency sch rq in
    Ok (sch', if (n =? 0)%nat then askService (sac_set_prob sa f64_one) st else sa, rw, pth).
Proof.
  destruct f64_one_facts as (F1 & F2 & F3). intros [(-> & Hp & Hn)|[-> Hp]]; unfold sacSelect; rewrite Hp.
  - rewrite F1. reflexivity.
  - rewrite F2, F3. reflexivity.
Qed.

Lemma sac_step_waiting n k st st' : sac_step failing k st st' -> sac_waiting n st.1 -> sac_waiting (n + k) st'.1.
Proof.
  intros Hstep Hw. destruct Hstep as [sa rw now draw sch st rq sch' sa' rw' sel k E Hk|sa rw pid pn|sa rw i answer sa' rw' Ha E|sa rw elapsed ps pth sa' rw' E|sa rw rw'];
    cbn [fst] in *; rewrite ?Nat.add_0_r.
  - rewrite (sacSelect_waiting n _ _ _ _ _ _ _ Hw) in E. destruct (lowLatency sch rq) as [[? ?]| |]; cbn [bind] in E; try discriminate E.
    injection E as _ <- _ _. right. destruct Hw as [(-> & Hp & Hn)|[-> Hp]]; cbn in Hk |- *.
    + rewrite length_app in Hk. cbn in Hk. split; [lia | reflexivity].
    + split; [lia | exact Hp].
  - unfold sacSent. destruct (_ && _); exact Hw.
  - unfold sacAnswered in E. destruct (sac_pending sa !! i) as [x|] eqn:Ei; [|injection E as <- _; exact Hw].
    destruct Hw as [(-> & Hp & Hn)|[-> Hp]]; [rewrite Hn in Ei; discriminate Ei|].
    destruct answer as [|text|probs]; [| |destruct Ha]; injection E as <- _; right; split; [reflexivity | exact Hp..| reflexivity | exact Hp].
  - unfold GetStateAndRewardSAC in E. destruct (Get rw _) as [[v|]| |]; cbn [bind] in E; try discriminate E; [|injection E as <- _; exact Hw].
    destruct (unwrap v) as [x|]; [|injection E as <- _; exact Hw]. destruct (_ >? 8).
    + destruct (Set_ rw _ _) as [[? []]| |]; cbn [bind] in E; try discriminate E. injection E as <- _. exact Hw.
    + destruct (Set_ rw _ _) as [[? []]| |]; cbn [bind] in E; try discriminate E. injection E as <- _. exact Hw.
  - exact Hw.
Qed.

Lemma sac_run_keeps n k st st' : sac_run failing n st st' -> sac_waiting k st.1 -> sac_waiting (k + n) st'.1.
Proof.
  intros Hr. revert k. induction Hr as [st|n m st1 st2 st3 Hs _ IH]; intros k Hk; [rewrite Nat.add_0_r; exact Hk|].
  rewrite Nat.add_assoc. apply IH. exact (sac_step_waiting _ _ _ _ Hs Hk).
Qed.

Lemma sac_run_waiting n zero modelID start rw0 st : sac_run failing n (sac0 zero modelID start, rw0) st -> sac_waiting n st.1.
Proof. intros Hr. apply (sac_run_keeps n 0 _ _ Hr). left. split_and!; reflexivity. Qed.

(** An answer without a probability stops the process: it indexes an empty slice. *)
Theorem empty_answer_panics i sa rw st : sac_pending sa !! i = Some st -> sacAnswered wrap FormatFloat i (AnswerProbability []) sa rw = Panic.
Proof. intros E. unfold sacAnswered. rewrite E. reflexivity. Qed.
End sac.

(** C24: SAC without its service: while no request is answered with a probability, whatever else happens to the session,
    SAC makes one request for a probability and no other, also after that request failed.  It makes it in the first
    selection that is not made before the state is looked at (only the initial path, one path besides it, or
    stream data for a path with fewer packets); every such selection is that of the lowest-RTT scheduler, for
    good. *)
Theorem sac_without_service FormatFloat n zero modelID start rw0 sa rw :
  sac_run PayloadDQN unwrapDQN FormatFloat failing n (sac0 zero modelID start, rw0) (sa, rw) ->
  (n <= 1)%nat /\
  forall now draw sch rq, exists sa',
    selectPathSAC FormatFloat now draw sch sa rw rq = (let* pre := preselect sch rq in
      match pre with
      | Some pth => Ok (sch, sa, rw, pth)
      | None => let* (sch', pth) := lowLatency sch rq in Ok (sch', sa', rw, pth)
      end) /\
    sac_pending sa' = (if (n =? 0)%nat then [stateSAC rq] else sac_pending sa) /\ sac_prob sa' = f64_one.
Proof.
  intros Hr. pose proof (sac_run_waiting _ _ _ _ _ _ _ _ _ Hr) as Hw. cbn [fst] in Hw.
  split; [destruct Hw as [[-> _]|[-> _]]; lia|]. intros now draw sch rq. unfold selectPathSAC.
  exists (if (n =? 0)%nat then askService (sac_set_prob sa f64_one) (stateSAC rq) else sa). split_and!.
  - destruct (preselect sch rq) as [[pth|]| |]; [reflexivity| |reflexivity..]. cbn [bind].
    rewrite (sacSelect_waiting PayloadDQN unwrapDQN FormatFloat n _ _ _ _ _ _ _ Hw). reflexivity.
  - destruct Hw as [(-> & Hp & Hn)|[-> Hp]]; [cbn; rewrite Hn|]; reflexivity.
  - destruct Hw as [(-> & Hp & Hn)|[-> Hp]]; [reflexivity | exact Hp].
Qed.

(** The scheduler for several clients asks once too, and then stays with the lowest round trip time. *)
Theorem sac_multi_without_service FormatFloat n zero modelID start rw0 sa rw :
  sac_run PayloadMulti unwrapMulti FormatFloat failing n (sac0 zero modelID start, rw0) (sa, rw) ->
  (n <= 1)%nat /\
  forall now draw sch st rq, exists sa',
    sacSelect PayloadMulti unwrapMulti FormatFloat now draw sch sa rw st rq =
      (let* (sch', pth) := lowLatency sch rq in Ok (sch', sa', rw, pth)) /\
    (n = 1%nat -> sa' = sa).
Proof.
  intros Hr. pose proof (sac_run_waiting _ _ _ _ _ _ _ _ _ Hr) as Hw. cbn [fst] in Hw.
  split; [destruct Hw as [[-> _]|[-> _]]; lia|]. intros now draw sch st rq. eexists.
  split; [exact (sacSelect_waiting PayloadMulti unwrapMulti FormatFloat n _ _ _ _ _ _ _ Hw)|]. intros ->. reflexivity.
Qed.

(** DQN sends nothing: with more than two paths and nothing to send again it selects no path. *)
Theorem dqn_selects_nothing sch st rq : request_ok rq -> (2 < size (rq_paths rq))%nat -> rq_hasRetransmission rq = false ->
  selectPathDQN sch st rq = Ok (stateDQN rq, None).
Proof.
  intros R Hs Hr. unfold selectPathDQN, preselect, lowQuotaPath, initialForRetransmission. rewrite Hr.
  replace (Z.of_nat (size (rq_paths rq)) <=? 1) with false by lia. replace (Z.of_nat (size (rq_paths rq)) =? 2) with false by lia. reflexivity.
Qed.
End tables.

(** The level of the rate of the others on the second path has two values only: the comparisons are the wrong way
    round, so that the first one that fails makes the others fail. *)
Theorem sr_level_binary x : levelAtLeast clv_state2 x 0 = 0 \/ levelAtLeast clv_state2 x 0 = 4.
Proof.
  unfold clv_state2, clv_state. set (t3 := f64_const 3 10). set (t5 := f64_const 5 10). set (t7 := f64_const 7 10). set (t9 := f64_const 9 10).
  vm_compute in t3, t5, t7, t9. subst t3 t5 t7 t9. cbn [levelAtLeast].
  destruct x as [s|s| |s m e]; try (destruct s; vm_compute; auto; fail); [vm_compute; auto|].
  destruct s; [vm_compute; auto|].
  unfold SFleb, SFcompare. destruct (Z.compare_spec (-54) e) as [<-|Hlt|Hgt].
  - match goal with |- context [Pos.compare_cont Eq ?a m] => destruct (Pos.compare_cont Eq a m) end; auto.
  - auto.
  - replace (Z.compare (-53) e) with Gt by (symmetry; apply Z.compare_gt_iff; lia). auto.
Qed.
