(* ===== verification/LearningExamples.v ===== *)
(** * Schedulers that learn, run

    Sessions with three paths on which the schedulers are run: the witnesses of the theorems, and a table of
    which the order of an iteration decides what it means. *)
From S2P Require Import Prelude Qerr ByteOrder Protocol WireStream WireControl AckRanges WireAck PublicHeader.
From S2P Require Import Frames ReceivedPackets Float32 RttStats SentPackets ConnParams FlowControl Congestion.
From S2P Require Import SentPacketsProofs StreamFrameSorter StreamsMap Stream PacketNumberGenerator Path Scheduler SchedulerProofs.
From S2P Require Import ConcurrentMap Learning Sac LearningProofs LearningTables.

Definition learnPaths : gmap Z (path unit) := example_paths (10 * Millisecond) (20 * Millisecond).
Definition learnOrder : list (Z * path unit) := map_to_list learnPaths.
Definition learnOrders (range : list (Z * path unit)) : orders unit := mkOrders range range range range range.
Definition learnRequest : request unit := mkRequest learnPaths false false None (learnOrders learnOrder).
Definition learnPath : path unit := example_path 1 (10 * Millisecond).

(** The parameters of the configuration file of the simulation. *)
Definition learnParams : params := readParams [f64_const 3 10; f64_const 2 10; f64_const 5 10; f64_const 9 10; f64_const 1 100; f64_const 1 10].
Definition learnDraws : draws := mkDraws (f64_const 1 2) 80 100000 0 [55] [].

Lemma learnRequest_ok : request_ok learnRequest.
Proof. split; try reflexivity; [vm_compute; eauto | discriminate]. Qed.

Lemma learnRequest_open : all_open learnRequest.
Proof.
  assert (Hall : Forall (fun e => path_SendingAllowed e.2 = true /\ p_potentiallyFailed e.2 = false) learnOrder)
    by (apply Forall_forall; apply List.Forall_forall; vm_compute; repeat constructor).
  intros id p Hp. apply elem_of_map_to_list in Hp. rewrite list.Forall_forall in Hall. exact (Hall (id, p) Hp).
Qed.

Lemma rewards_sharded : sharded (NewConcurrentMap (V := rewardValue)).
Proof. apply New_sharded. Qed.

Lemma s2_sharded : sharded (NewConcurrentMap (V := s2Value)).
Proof. apply New_sharded. Qed.

Definition formatZero (x : float64) : list Z := [48].

Lemma learners_select_usable_witness : exists sch' l' sh' sel,
  selectLearner (fun A => A) (fun _ b => b) formatZero learnParams learnDraws example_scheduler (LQlearning qlearning0)
    (mkShared central0 NewConcurrentMap) learnRequest = Ok (sch', l', sh', Some sel) /\ path_ok learnRequest sel.
Proof.
  destruct (learners_select_usable (fun A => A) (fun _ b => b) formatZero learnParams learnDraws example_scheduler (LQlearning qlearning0)
    (mkShared central0 NewConcurrentMap) learnRequest learnRequest_ok s2_sharded rewards_sharded) as (sch' & l' & sh' & sel & E & Hs).
  destruct sel as [id|]; [exists sch', l', sh', id; split; [exact E | exact Hs]|].
  destruct (Hs learnRequest_open).
Defined.

(** QSAT after an acknowledgement: a value in row 7. *)
Definition qsat1 : qsat := GetStateAndRewardQSAT learnParams 100000 learnPaths learnOrder learnPath qsat0.
Example qsat1_learnt : (Qvalue qsat1 7 0 =? f64_zero)%f64 = false.
Proof. vm_compute. reflexivity. Qed.

Lemma qsat_ignores_window_witness : Qvalue qsat1 3 0 = f64_zero /\
  selectPathQSAT learnParams f64_zero 0 example_scheduler qsat1 learnRequest =
  selectPathQSAT learnParams f64_zero 750000 example_scheduler qsat1 learnRequest.
Proof.
  assert (Hr : rtc (qsat_step (C := unit) learnParams) qsat0 qsat1) by (apply rtc_once, qsat_acked; lia).
  destruct (qsat_ignores_window learnParams qsat1 Hr) as (H1 & H2 & _). split; [apply H1; lia | apply H2; lia].
Defined.

(** Q-learning after an acknowledgement on path 1, and the table entry that it changed. *)
Definition qlearning1 : qlearning :=
  match GetStateAndRewardQlearning learnParams learnPaths learnOrder learnPath qlearning0 with Ok q => q | _ => qlearning0 end.

Lemma qlearning1_reached : rtc (qlearning_step (C := unit) learnParams) qlearning0 qlearning1.
Proof. apply rtc_once. apply (ql_acked learnParams qlearning0 qlearning1 learnPaths learnOrder learnPath). vm_compute. reflexivity. Qed.

Lemma qlearning_learns_one_entry_witness : exists q',
  GetStateAndRewardQlearning learnParams learnPaths learnOrder learnPath qlearning1 = Ok q' /\
  exists x, qtable q' = <[(2, 1, 0) := x]> (qtable qlearning1).
Proof.
  destruct (qlearning_learns_one_entry learnParams qlearning1 learnPaths learnOrder learnPath qlearning1_reached) as (q' & E & _ & _ & Hq).
  exists q'. split; [exact E|]. destruct Hq as [Hq _]; [vm_compute; reflexivity|]. eexists. exact Hq.
Defined.

(** What the table says about the first path is applied to the path the loop meets first: with the same table
    and the same paths the order of the iteration decides which path is used. *)
Definition learntTable : qlearning := mkQL {[ (2, 1, 0) := f64_one ]} 0 0 ∅ ∅ ∅ 1.
Definition selectedIn (range : list (Z * path unit)) : result (option Z) :=
  let* (_, _, sel) := selectPathQlearning learnParams f64_one example_scheduler learntTable
    (mkRequest learnPaths false false None (learnOrders range)) in Ok sel.

Example order_decides : selectedIn learnOrder = Ok (Some 3) /\ selectedIn (rev learnOrder) = Ok (Some 1).
Proof. vm_compute. split_and!; reflexivity. Qed.

(** A server with one session that uses the scheduler for many clients. *)
Lemma multiclients_never_learns_witness : exists sch' ce' m' sel,
  lowLatency example_scheduler learnRequest = Ok (sch', sel) /\
  selectPathQlearningMultiClients learnParams f64_one [55] [] example_scheduler central0 multi0 learnRequest = Ok (sch', ce', m', sel).
Proof.
  assert (Hr : rtc (multi_step (C := unit) learnParams) (mkMS central0 ∅) (mkMS central0 (<[7 := multi0]> ∅))) by (apply rtc_once, multi_new).
  destruct (multiclients_never_learns learnParams _ 7 multi0 Hr (lookup_insert_eq _ _ _)) as (_ & _ & Hs).
  apply (Hs f64_one [55] [] example_scheduler learnRequest learnRequest_ok). vm_compute. reflexivity.
Defined.

(** SAC after its first selection and the failure of its request. *)
Definition sacStart : sac StateDQN := sac0 zeroDQN 0 0.
Definition sacAsked : sac StateDQN :=
  match sacSelect PayloadDQN unwrapDQN formatZero 0 f64_zero example_scheduler sacStart NewConcurrentMap zeroDQN learnRequest with
  | Ok (_, sa, _, _) => sa | _ => sacStart end.
Definition sacFailed : sac StateDQN :=
  match sacAnswered PayloadDQN formatZero 0 AnswerFailed sacAsked NewConcurrentMap with Ok (sa, _) => sa | _ => sacStart end.

Lemma sac_without_service_witness : exists sa',
  selectPathSAC formatZero 1 f64_zero example_scheduler sacFailed NewConcurrentMap learnRequest =
    (let* (sch', pth) := lowLatency example_scheduler learnRequest in Ok (sch', sa', NewConcurrentMap, pth)) /\
  sac_pending sa' = [].
Proof.
  assert (Hr : sac_run (C := unit) PayloadDQN unwrapDQN formatZero failing 1 (sac0 zeroDQN 0 0, NewConcurrentMap) (sacFailed, NewConcurrentMap)).
  { apply (sac_more _ _ _ _ 1 0 _ (sacAsked, NewConcurrentMap)); [|apply (sac_more _ _ _ _ 0 0 _ (sacFailed, NewConcurrentMap)); [|apply sac_start]].
    - eapply sac_selects with (rq := learnRequest) (sch := example_scheduler) (now := 0) (draw := f64_zero) (st := zeroDQN); vm_compute; reflexivity.
    - apply (sac_answered _ _ _ _ _ _ 0%nat AnswerFailed); [exact I | vm_compute; reflexivity]. }
  destruct (sac_without_service (C := unit) formatZero 1 zeroDQN 0 0 _ _ _ Hr) as [_ H2].
  destruct (H2 1 f64_zero example_scheduler learnRequest) as (sa' & E & Hp & _). exists sa'. split; [exact E|].
  rewrite Hp. vm_compute. reflexivity.
Defined.
