(* ===== verification/LinkedList.v ===== *)
(** * Linked lists (internal/utils/byteinterval_linkedlist.go and the two other instances of the template,
    packetinterval_linkedlist.go and ackhandler/packet_linkedlist.go)

    A list is a ring of elements that are linked in both directions, through a root element inside the list.
    The model is a heap: the elements by their pointers, the lengths of the lists by the lists.  An element
    that is dereferenced and does not exist is a panic.  The theorems relate the heap to the contents of all
    lists of it, which are plain lists: it is these that the other files use for the history of sent
    packets, the ranges of received packets and the gaps of a stream. *)
From S2P Require Import Prelude.

(** [&l.root], or an element of its own. *)
Inductive ptr : Type :=
| PRoot (l : Z)
| PElem (n : Z).
#[export] Instance ptr_eq_dec : EqDecision ptr.
Proof. solve_decision. Defined.
#[export] Instance ptr_countable : Countable ptr :=
  inj_countable' (fun p => match p with PRoot l => inl l | PElem n => inr n end)
    (fun s => match s with inl l => PRoot l | inr n => PElem n end) ltac:(by intros []).

Section list.
Context {V : Type}.

Record element : Type := mkElement {
  e_next : option ptr;
  e_prev : option ptr;
  e_list : option Z;
  e_Value : V;
}.

(** [h_fresh] is above all pointers and lists in use. *)
Record heap : Type := mkHeap {
  h_elems : gmap ptr element;
  h_len : gmap Z Z;
  h_fresh : Z;
}.
Implicit Types (h : heap) (e : ptr) (l : Z) (v : V).

Definition load h (p : ptr) : result element := match h_elems h !! p with Some el => Ok el | None => Panic end.
Definition deref (o : option ptr) : result ptr := match o with Some p => Ok p | None => Panic end.
Definition update h (p : ptr) (f : element -> element) : result heap :=
  let* el := load h p in Ok (mkHeap (<[p := f el]> (h_elems h)) (h_len h) (h_fresh h)).
Definition set_next (o : option ptr) (el : element) : element := mkElement o (e_prev el) (e_list el) (e_Value el).
Definition set_prev (o : option ptr) (el : element) : element := mkElement (e_next el) o (e_list el) (e_Value el).
Definition set_list (o : option Z) (el : element) : element := mkElement (e_next el) (e_prev el) o (e_Value el).
Definition set_len h l (n : Z) : heap := mkHeap (h_elems h) (<[l := n]> (h_len h)) (h_fresh h).
Definition lenOf h l : Z := default 0 (h_len h !! l).

(** *** Operations *)

Definition Next h e : result (option ptr) :=
  let* el := load h e in
  Ok (match e_list el with
      | Some l => if bool_decide (e_next el = Some (PRoot l)) then None else e_next el
      | None => None
      end).

Definition Prev h e : result (option ptr) :=
  let* el := load h e in
  Ok (match e_list el with
      | Some l => if bool_decide (e_prev el = Some (PRoot l)) then None else e_prev el
      | None => None
      end).

Definition Init h l : result heap :=
  let* h := update h (PRoot l) (set_next (Some (PRoot l))) in
  let* h := update h (PRoot l) (set_prev (Some (PRoot l))) in
  Ok (set_len h l 0).

(** [new(List).Init()]; [zero] is the zero value of the elements. *)
Definition NewList (zero : V) h : result (heap * Z) :=
  let l := h_fresh h in
  let h := mkHeap (<[PRoot l := mkElement None None None zero]> (h_elems h)) (<[l := 0]> (h_len h)) (l + 1) in
  let* h := Init h l in Ok (h, l).

Definition Len h l : Z := lenOf h l.

Definition Front h l : result (option ptr) :=
  if lenOf h l =? 0 then Ok None else let* r := load h (PRoot l) in Ok (e_next r).

Definition Back h l : result (option ptr) :=
  if lenOf h l =? 0 then Ok None else let* r := load h (PRoot l) in Ok (e_prev r).

Definition lazyInit h l : result heap :=
  let* r := load h (PRoot l) in
  match e_next r with None => Init h l | Some _ => Ok h end.

Definition insert_elem h l (e at_ : ptr) : result heap :=
  let* a := load h at_ in
  let n := e_next a in
  let* h := update h at_ (set_next (Some e)) in
  let* h := update h e (set_prev (Some at_)) in
  let* h := update h e (set_next n) in
  let* n := deref n in
  let* h := update h n (set_prev (Some e)) in
  let* h := update h e (set_list (Some l)) in
  Ok (set_len h l (lenOf h l + 1)).

Definition insertValue h l v (at_ : ptr) : result (heap * ptr) :=
  let e := PElem (h_fresh h) in
  let h := mkHeap (<[e := mkElement None None None v]> (h_elems h)) (h_len h) (h_fresh h + 1) in
  let* h := insert_elem h l e at_ in Ok (h, e).

Definition remove_elem h l e : result heap :=
  let* el := load h e in
  let* prev := deref (e_prev el) in
  let* h := update h prev (set_next (e_next el)) in
  let* el := load h e in
  let* next := deref (e_next el) in
  let* h := update h next (set_prev (e_prev el)) in
  let* h := update h e (set_next None) in
  let* h := update h e (set_prev None) in
  let* h := update h e (set_list None) in
  Ok (set_len h l (lenOf h l - 1)).

Definition Remove_elem h l e : result (heap * V) :=
  let* el := load h e in
  if bool_decide (e_list el = Some l) then let* h := remove_elem h l e in Ok (h, e_Value el)
  else Ok (h, e_Value el).

Definition PushFront h l v : result (heap * ptr) :=
  let* h := lazyInit h l in insertValue h l v (PRoot l).

Definition PushBack h l v : result (heap * ptr) :=
  let* h := lazyInit h l in
  let* r := load h (PRoot l) in
  let* p := deref (e_prev r) in insertValue h l v p.

Definition InsertBefore h l v (mark : ptr) : result (heap * option ptr) :=
  let* m := load h mark in
  if negb (bool_decide (e_list m = Some l)) then Ok (h, None)
  else let* p := deref (e_prev m) in let* (h, e) := insertValue h l v p in Ok (h, Some e).

Definition InsertAfter h l v (mark : ptr) : result (heap * option ptr) :=
  let* m := load h mark in
  if negb (bool_decide (e_list m = Some l)) then Ok (h, None)
  else let* (h, e) := insertValue h l v mark in Ok (h, Some e).

Definition MoveToFront h l e : result heap :=
  let* el := load h e in
  let* r := load h (PRoot l) in
  if negb (bool_decide (e_list el = Some l)) || bool_decide (e_next r = Some e) then Ok h
  else let* h := remove_elem h l e in insert_elem h l e (PRoot l).

(** In [l.insert(l.remove(e), l.root.prev)] the pointer is read after the call, as the compiler orders it. *)
Definition MoveToBack h l e : result heap :=
  let* el := load h e in
  let* r := load h (PRoot l) in
  if negb (bool_decide (e_list el = Some l)) || bool_decide (e_prev r = Some e) then Ok h
  else let* h := remove_elem h l e in
       let* r := load h (PRoot l) in
       let* p := deref (e_prev r) in insert_elem h l e p.

Definition MoveBefore h l (e mark : ptr) : result heap :=
  let* el := load h e in
  let* m := load h mark in
  if negb (bool_decide (e_list el = Some l)) || bool_decide (e = mark) || negb (bool_decide (e_list m = Some l)) then Ok h
  else let* h := remove_elem h l e in
       let* m := load h mark in
       let* p := deref (e_prev m) in insert_elem h l e p.

Definition MoveAfter h l (e mark : ptr) : result heap :=
  let* el := load h e in
  let* m := load h mark in
  if negb (bool_decide (e_list el = Some l)) || bool_decide (e = mark) || negb (bool_decide (e_list m = Some l)) then Ok h
  else let* h := remove_elem h l e in insert_elem h l e mark.

(** The loops over another list, which may be the list itself: the length is read before. *)
Fixpoint pushBackLoop h l (i : nat) (e : option ptr) : result heap :=
  match i with
  | O => Ok h
  | S i =>
      let* p := deref e in
      let* el := load h p in
      let* r := load h (PRoot l) in
      let* back := deref (e_prev r) in
      let* (h, _) := insertValue h l (e_Value el) back in
      let* next := Next h p in
      pushBackLoop h l i next
  end.
Definition PushBackList h l (other : Z) : result heap :=
  let* h := lazyInit h l in
  let* front := Front h other in
  pushBackLoop h l (Z.to_nat (Len h other)) front.

Fixpoint pushFrontLoop h l (i : nat) (e : option ptr) : result heap :=
  match i with
  | O => Ok h
  | S i =>
      let* p := deref e in
      let* el := load h p in
      let* (h, _) := insertValue h l (e_Value el) (PRoot l) in
      let* prev := Prev h p in
      pushFrontLoop h l i prev
  end.
Definition PushFrontList h l (other : Z) : result heap :=
  let* h := lazyInit h l in
  let* back := Back h other in
  pushFrontLoop h l (Z.to_nat (Len h other)) back.

(** ** What the heap stands for *)

Definition nextOf h p : option ptr := h_elems h !! p ≫= e_next.
Definition prevOf h p : option ptr := h_elems h !! p ≫= e_prev.
Definition listOf h p : option Z := h_elems h !! p ≫= e_list.
Definition valueOf h p : option V := e_Value <$> h_elems h !! p.

(** The pointers follow each other, in both directions. *)
Fixpoint links h (ps : list ptr) : Prop :=
  match ps with
  | x :: ((y :: _) as ps') => nextOf h x = Some y /\ prevOf h y = Some x /\ links h ps'
  | _ => True
  end.

Abbreviation contents := (gmap Z (list (Z * V))).
Implicit Types (A : contents) (xs ys : list (Z * V)).

Definition elems xs : list ptr := map (fun x => PElem x.1) xs.
Definition ring l xs : list ptr := PRoot l :: elems xs ++ [PRoot l].

(** The list [l] holds the elements [xs]. *)
Record holds h l xs : Prop := {
  hd_ring : links h (ring l xs);
  hd_nodup : NoDup xs.*1;
  hd_len : h_len h !! l = Some (Z.of_nat (length xs));
  hd_elems : forall i v, (i, v) ∈ xs -> listOf h (PElem i) = Some l /\ valueOf h (PElem i) = Some v;
  hd_root : is_Some (h_elems h !! PRoot l) /\ listOf h (PRoot l) = None;
}.

(** The lists of the heap; an element that says it is in a list is in it. *)
Record represents h A : Prop := {
  rp_holds : forall l xs, A !! l = Some xs -> holds h l xs;
  rp_owned : forall p l, listOf h p = Some l -> exists i xs, p = PElem i /\ A !! l = Some xs /\ i ∈ xs.*1;
  rp_fresh : (forall i, is_Some (h_elems h !! PElem i) -> i < h_fresh h) /\ (forall l, is_Some (h_elems h !! PRoot l) -> l < h_fresh h);
}.

Lemma links_split h a x b : links h (a ++ x :: b) <-> links h (a ++ [x]) /\ links h (x :: b).
Proof.
  induction a as [|y a IH]; [cbn [app]; split; [intros Hl; split; [exact I | exact Hl] | intros [_ Hl]; exact Hl]|].
  destruct a as [|z a]; cbn [app] in *.
  - cbn [links]. destruct b; tauto.
  - cbn [links] in *. tauto.
Qed.

(** Links depend on the next pointers of all but the last element, and on the previous ones of all but the first. *)
Lemma links_frame h h' ps : links h ps -> (forall x, x ∈ removelast ps -> nextOf h' x = nextOf h x) ->
  (forall y, y ∈ tail ps -> prevOf h' y = prevOf h y) -> links h' ps.
Proof.
  induction ps as [|x ps IH]; [auto|]. destruct ps as [|y ps]; [auto|]. cbn [links tail]. intros (H1 & H2 & H3) Hn Hp.
  rewrite Hn, Hp by (cbn [removelast]; left). split_and!; [exact H1 | exact H2|]. apply IH; [exact H3 | |].
  - intros z Hz. apply Hn. cbn [removelast]. right. exact Hz.
  - intros z Hz. apply Hp. right. exact Hz.
Qed.

(** *** What the two operations on pointers do *)

Ltac views := intros; unfold nextOf, prevOf, listOf, valueOf; cbn [h_elems set_len];
  rewrite ?lookup_insert; repeat case_decide; simplify_eq; cbn;
  repeat match goal with Hx : h_elems ?h !! ?p = Some _ |- context [h_elems ?h !! ?p] => rewrite Hx end; cbn;
  first [reflexivity | congruence | split; eauto].

Lemma insert_views h l e at_ n ea ee en : e <> at_ -> e <> n ->
  h_elems h !! at_ = Some ea -> e_next ea = Some n -> h_elems h !! e = Some ee -> h_elems h !! n = Some en ->
  exists h', insert_elem h l e at_ = Ok h' /\
    (forall q, nextOf h' q = if decide (q = e) then Some n else if decide (q = at_) then Some e else nextOf h q) /\
    (forall q, prevOf h' q = if decide (q = e) then Some at_ else if decide (q = n) then Some e else prevOf h q) /\
    (forall q, listOf h' q = if decide (q = e) then Some l else listOf h q) /\
    (forall q, valueOf h' q = valueOf h q) /\
    (forall q, is_Some (h_elems h' !! q) <-> is_Some (h_elems h !! q)) /\
    h_len h' = <[l := lenOf h l + 1]> (h_len h) /\ h_fresh h' = h_fresh h.
Proof.
  intros Hea Hen Ha Hn He Hnn. unfold insert_elem, update, load. rewrite Ha. cbn [bind h_elems h_len h_fresh].
  rewrite (lookup_insert_ne _ at_ e) by congruence. rewrite He. cbn [bind h_elems h_len h_fresh].
  rewrite lookup_insert_eq. cbn [bind h_elems h_len h_fresh]. rewrite Hn. cbn [bind deref].
  set (el := set_next _ _). rewrite insert_insert_eq. rewrite (lookup_insert_ne _ e n) by congruence.
  destruct (decide (n = at_)) as [->|Hna].
  - rewrite lookup_insert_eq. cbn [bind h_elems h_len h_fresh]. rewrite (lookup_insert_ne _ at_ e), lookup_insert_eq by congruence. cbn [bind].
    eexists. split; [reflexivity|]. subst el. unfold lenOf. split_and!; try reflexivity; views.
  - rewrite (lookup_insert_ne _ at_ n), Hnn by congruence. cbn [bind h_elems h_len h_fresh].
    rewrite (lookup_insert_ne _ n e), lookup_insert_eq by congruence. cbn [bind].
    eexists. split; [reflexivity|]. subst el. unfold lenOf. split_and!; try reflexivity; views.
Qed.

Lemma remove_views h l e prev next ee ep en : e <> prev -> e <> next ->
  h_elems h !! e = Some ee -> e_prev ee = Some prev -> e_next ee = Some next -> h_elems h !! prev = Some ep -> h_elems h !! next = Some en ->
  exists h', remove_elem h l e = Ok h' /\
    (forall q, nextOf h' q = if decide (q = e) then None else if decide (q = prev) then Some next else nextOf h q) /\
    (forall q, prevOf h' q = if decide (q = e) then None else if decide (q = next) then Some prev else prevOf h q) /\
    (forall q, listOf h' q = if decide (q = e) then None else listOf h q) /\
    (forall q, valueOf h' q = valueOf h q) /\
    (forall q, is_Some (h_elems h' !! q) <-> is_Some (h_elems h !! q)) /\
    h_len h' = <[l := lenOf h l - 1]> (h_len h) /\ h_fresh h' = h_fresh h.
Proof.
  intros Hep Hen He Hp Hn Hpp Hnn. unfold remove_elem, update, load. rewrite He. cbn [bind h_elems h_len h_fresh].
  rewrite Hp. cbn [bind deref]. rewrite Hpp. cbn [bind h_elems h_len h_fresh]. rewrite (lookup_insert_ne _ prev e), He by congruence. cbn [bind].
  rewrite Hn. cbn [bind deref h_elems h_len h_fresh]. destruct (decide (next = prev)) as [->|Hnp].
  - rewrite lookup_insert_eq. cbn [bind h_elems h_len h_fresh]. rewrite insert_insert_eq, (lookup_insert_ne _ prev e), He by congruence.
    cbn [bind h_elems h_len h_fresh]. rewrite !lookup_insert_eq. cbn [bind h_elems h_len h_fresh]. rewrite !lookup_insert_eq. cbn [bind h_elems].
    rewrite !insert_insert_eq. eexists. split; [reflexivity|]. unfold lenOf. split_and!; try reflexivity; views.
  - rewrite (lookup_insert_ne _ prev next), Hnn by congruence. cbn [bind h_elems h_len h_fresh].
    rewrite (lookup_insert_ne _ next e), (lookup_insert_ne _ prev e), He by congruence.
    cbn [bind h_elems h_len h_fresh]. rewrite !lookup_insert_eq. cbn [bind h_elems h_len h_fresh]. rewrite !lookup_insert_eq. cbn [bind h_elems].
    rewrite !insert_insert_eq. eexists. split; [reflexivity|]. unfold lenOf. split_and!; try reflexivity; views.
Qed.

(** *** Rings *)

Lemma elems_app xs ys : elems (xs ++ ys) = elems xs ++ elems ys.
Proof. apply map_app. Qed.

Lemma elem_of_elems p xs : p ∈ elems xs <-> exists i v, p = PElem i /\ (i, v) ∈ xs.
Proof.
  unfold elems. rewrite list_elem_of_In, in_map_iff. split.
  - intros ([i v] & <- & Hin%list_elem_of_In). eauto.
  - intros (i & v & -> & Hin). exists (i, v). split; [reflexivity | apply list_elem_of_In, Hin].
Qed.

Lemma elems_NoDup xs : NoDup xs.*1 -> NoDup (elems xs).
Proof.
  intros Hn. replace (elems xs) with (PElem <$> xs.*1) by (unfold elems; rewrite <- list_fmap_compose; reflexivity).
  apply NoDup_fmap_2; [intros ? ? [=]; assumption | exact Hn].
Qed.

Lemma root_not_elem l xs : PRoot l ∉ elems xs.
Proof. intros (i & v & [=] & _)%elem_of_elems. Qed.

(** The element before the position between [xs] and [ys], and the one after it. *)
Definition before l xs : ptr := List.last (elems xs) (PRoot l).
Definition after l ys : ptr := hd (PRoot l) (elems ys).

Lemma before_split l xs : exists a, PRoot l :: elems xs = a ++ [before l xs].
Proof.
  unfold before. induction (elems xs) as [|x zs _] using rev_ind; [exists []; reflexivity|]. rewrite last_last. exists (PRoot l :: zs). reflexivity.
Qed.
Lemma after_split l ys : exists b, elems ys ++ [PRoot l] = after l ys :: b.
Proof. unfold after. destruct (elems ys); cbn; eauto. Qed.

Lemma removelast_in {B} (x : B) ps : x ∈ removelast ps -> x ∈ ps.
Proof.
  induction ps as [|y ps IH]; [auto|]. destruct ps as [|z ps]; [intros []%elem_of_nil|]. cbn [removelast].
  intros [->|Hx]%elem_of_cons; [left | right; apply IH, Hx].
Qed.

(** A pointer of the ring of [l]. *)
Definition in_ring h l p : Prop := p = PRoot l \/ listOf h p = Some l.

Lemma holds_in_ring h l xs p : holds h l xs -> p ∈ PRoot l :: elems xs -> in_ring h l p /\ is_Some (h_elems h !! p).
Proof.
  intros Hh [->|(i & v & -> & Hin)%elem_of_elems]%elem_of_cons; [split; [left; reflexivity | apply Hh]|].
  destruct (hd_elems _ _ _ Hh i v Hin) as [Hl _]. split; [right; exact Hl|]. unfold listOf in Hl. destruct (h_elems h !! PElem i); [eauto | discriminate Hl].
Qed.

Lemma rings_disjoint h A l l' xs p : represents h A -> A !! l = Some xs -> in_ring h l p -> in_ring h l' p -> l = l'.
Proof.
  intros R Hx [->|H1] [E|H2].
  - congruence.
  - destruct (rp_owned _ _ R _ _ H2) as (i & ? & [=] & _).
  - subst. destruct (rp_owned _ _ R _ _ H1) as (i & ? & [=] & _).
  - congruence.
Qed.

Lemma before_in l xs : before l xs ∈ PRoot l :: elems xs.
Proof. destruct (before_split l xs) as [a ->]. apply elem_of_app. right. left. Qed.
Lemma after_in l ys : after l ys ∈ PRoot l :: elems ys.
Proof. unfold after. destruct (elems ys); cbn; [left | right; left]. Qed.

Lemma ring_at l xs ys a b : PRoot l :: elems xs = a ++ [before l xs] -> elems ys ++ [PRoot l] = after l ys :: b ->
  ring l (xs ++ ys) = a ++ before l xs :: after l ys :: b.
Proof.
  intros Ea Eb. unfold ring. rewrite elems_app, <- app_assoc, Eb, app_comm_cons, Ea, <- app_assoc. reflexivity.
Qed.

(** What is linked at a position. *)
Lemma holds_at h l xs ys : holds h l (xs ++ ys) -> nextOf h (before l xs) = Some (after l ys) /\ prevOf h (after l ys) = Some (before l xs).
Proof.
  intros Hh. destruct (before_split l xs) as [a Ea]. destruct (after_split l ys) as [b Eb].
  pose proof (hd_ring _ _ _ Hh) as Hr. rewrite (ring_at l xs ys a b Ea Eb), links_split in Hr. cbn [links] in Hr. tauto.
Qed.

Lemma holds_frame h h' l xs : holds h l xs ->
  (forall p, p ∈ PRoot l :: elems xs -> nextOf h' p = nextOf h p /\ prevOf h' p = prevOf h p /\ listOf h' p = listOf h p /\ valueOf h' p = valueOf h p /\
     (is_Some (h_elems h !! p) -> is_Some (h_elems h' !! p))) ->
  h_len h' !! l = h_len h !! l -> holds h' l xs.
Proof.
  intros Hh Hf Hl. assert (Hin : forall p, p ∈ ring l xs -> p ∈ PRoot l :: elems xs).
  { intros p [->|[Hp|Hp]%elem_of_app]%elem_of_cons; [left | right; exact Hp|]. apply list_elem_of_singleton in Hp as ->. left. }
  split.
  - apply (links_frame h h'); [apply Hh | |]; intros p Hp; apply Hf, Hin.
    + apply removelast_in, Hp.
    + unfold ring in *. right. exact Hp.
  - apply Hh.
  - rewrite Hl. apply Hh.
  - intros i v Hi. assert (Hp : PElem i ∈ PRoot l :: elems xs) by (right; apply elem_of_elems; eauto).
    destruct (Hf _ Hp) as (_ & _ & -> & -> & _). apply (hd_elems _ _ _ Hh), Hi.
  - destruct (Hf (PRoot l)) as (_ & _ & -> & _ & Hs); [left|]. destruct (hd_root _ _ _ Hh) as [H1 H2]. auto.
Qed.

(** The two halves of a ring are kept when the pointers are changed at the position between them. *)
Lemma halves_frame h h' l xs ys a b : NoDup (xs ++ ys).*1 ->
  PRoot l :: elems xs = a ++ [before l xs] -> elems ys ++ [PRoot l] = after l ys :: b ->
  links h (a ++ [before l xs]) -> links h (after l ys :: b) ->
  (forall q, q ∈ PRoot l :: elems (xs ++ ys) -> q <> before l xs -> nextOf h' q = nextOf h q) ->
  (forall q, q ∈ PRoot l :: elems (xs ++ ys) -> q <> after l ys -> prevOf h' q = prevOf h q) ->
  links h' (a ++ [before l xs]) /\ links h' (after l ys :: b).
Proof.
  intros Hnd Ea Eb L1 L2 Hn Hp. rewrite fmap_app in Hnd. apply list.NoDup_app in Hnd as (N1 & Hdis & N2).
  assert (Hd : forall p, p ∈ elems xs -> p ∉ elems ys).
  { intros p (i & v & -> & Hi)%elem_of_elems (j & w & [= <-] & Hj)%elem_of_elems. apply (Hdis i); apply list_elem_of_fmap; [exists (i, v) | exists (i, w)]; auto. }
  assert (Na : NoDup (a ++ [before l xs])) by (rewrite <- Ea; constructor; [apply root_not_elem | apply elems_NoDup, N1]).
  assert (Nb : NoDup (after l ys :: b)).
  { rewrite <- Eb. apply list.NoDup_app. split_and!; [apply elems_NoDup, N2 | | apply NoDup_singleton]. intros p Hin ->%list_elem_of_singleton. exact (root_not_elem _ _ Hin). }
  apply list.NoDup_app in Na as (_ & Na & _). apply list.NoDup_cons in Nb as [Nb _]. rewrite elems_app in Hn, Hp. split.
  - apply (links_frame h h'); [exact L1 | |].
    + intros x Hx. rewrite removelast_last in Hx. apply Hn; [|intros ->; apply (Na _ Hx); left].
      assert (Hin : x ∈ PRoot l :: elems xs) by (rewrite Ea; apply elem_of_app; auto). set_solver.
    + rewrite <- Ea. cbn [tail]. intros y Hy. apply Hp; [set_solver|]. intros ->. pose proof (after_in l ys) as [E|Hin]%elem_of_cons.
      * rewrite E in Hy. exact (root_not_elem _ _ Hy).
      * exact (Hd _ Hy Hin).
  - apply (links_frame h h'); [exact L2 | |].
    + rewrite <- Eb, removelast_last. intros x Hx. apply Hn; [set_solver|]. intros ->. pose proof (before_in l xs) as [E|Hin]%elem_of_cons.
      * rewrite E in Hx. exact (root_not_elem _ _ Hx).
      * exact (Hd _ Hin Hx).
    + cbn [tail]. intros y Hy. apply Hp; [|intros ->; exact (Nb Hy)].
      assert (Hin : y ∈ elems ys ++ [PRoot l]) by (rewrite Eb; right; exact Hy). set_solver.
Qed.

Lemma listOf_elem h A l p : represents h A -> listOf h (PRoot l) = Some p -> False.
Proof. intros R E. destruct (rp_owned _ _ R _ _ E) as (i & ? & [=] & _). Qed.

(** The other lists, when the pointers of the ring of [l] and of an element that is in no other list are changed. *)
Lemma others_frame h h' A l zs i : represents h A -> A !! l = Some zs -> (forall l', listOf h (PElem i) = Some l' -> l' = l) ->
  (forall q, q <> PElem i -> ~ in_ring h l q -> nextOf h' q = nextOf h q /\ prevOf h' q = prevOf h q /\ listOf h' q = listOf h q) ->
  (forall q, valueOf h' q = valueOf h q) -> (forall q, is_Some (h_elems h' !! q) <-> is_Some (h_elems h !! q)) ->
  (forall l', l' <> l -> h_len h' !! l' = h_len h !! l') ->
  forall l' xs, l' <> l -> A !! l' = Some xs -> holds h' l' xs.
Proof.
  intros R Hz Hi Hf Hv Hs Hlen l' xs Hne Hx. pose proof (rp_holds _ _ R _ _ Hx) as Hh. apply (holds_frame h h'); [exact Hh | | apply Hlen, Hne].
  intros p Hp. destruct (holds_in_ring _ _ _ _ Hh Hp) as [Hr Hsome].
  destruct (Hf p) as (-> & -> & ->).
  - intros ->. destruct Hr as [[=]|Hr]. exact (Hne (Hi _ Hr)).
  - intros Hr'. apply Hne. exact (rings_disjoint h A l' l xs p R Hx Hr Hr').
  - rewrite Hv. split_and!; try reflexivity. intros _. apply Hs, Hsome.
Qed.

Lemma insert_ok h A l xs ys i v : represents h A -> A !! l = Some (xs ++ ys) ->
  is_Some (h_elems h !! PElem i) -> listOf h (PElem i) = None -> valueOf h (PElem i) = Some v ->
  exists h', insert_elem h l (PElem i) (before l xs) = Ok h' /\ represents h' (<[l := xs ++ (i, v) :: ys]> A) /\ h_fresh h' = h_fresh h /\
    (forall q, valueOf h' q = valueOf h q).
Proof.
  intros R HA [ee He] Hl Hv. pose proof (rp_holds _ _ R _ _ HA) as Hh. destruct (holds_at h l xs ys Hh) as [Hnext Hprev].
  destruct (before_split l xs) as [a Ea]. destruct (after_split l ys) as [b Eb].
  assert (Hbin : before l xs ∈ PRoot l :: elems (xs ++ ys)) by (rewrite elems_app; pose proof (before_in l xs); set_solver).
  assert (Hain : after l ys ∈ PRoot l :: elems (xs ++ ys)) by (rewrite elems_app; pose proof (after_in l ys); set_solver).
  assert (Hnot : forall q, q ∈ PRoot l :: elems (xs ++ ys) -> q <> PElem i).
  { intros q Hq ->. destruct (holds_in_ring _ _ _ _ Hh Hq) as [[[=]|Hq'] _]. congruence. }
  destruct (holds_in_ring _ _ _ _ Hh Hbin) as [Hbr [eb Heb]]. destruct (holds_in_ring _ _ _ _ Hh Hain) as [Har [ea Hea]].
  assert (Hn : e_next eb = Some (after l ys)) by (unfold nextOf in Hnext; rewrite Heb in Hnext; exact Hnext).
  destruct (insert_views h l (PElem i) (before l xs) (after l ys) eb ee ea) as (h' & E & Vn & Vp & Vl & Vv & Vs & Hlen & Hfr); auto.
  { intros Heq. exact (Hnot _ Hbin (eq_sym Heq)). } { intros Heq. exact (Hnot _ Hain (eq_sym Heq)). }
  exists h'. split; [exact E|]. split; [|split; [exact Hfr | exact Vv]].
  assert (Hi : i ∉ (xs ++ ys).*1).
  { intros ([j w] & -> & Hin)%list_elem_of_fmap. apply (Hnot (PElem j)); [right; apply elem_of_elems; eauto | reflexivity]. }
  assert (Hle : h_len h !! l = Some (Z.of_nat (length (xs ++ ys)))) by apply Hh.
  split.
  - intros l' zs [[<- <-]|[Hne Hz]]%lookup_insert_Some.
    + pose proof (hd_ring _ _ _ Hh) as Hring. rewrite (ring_at l xs ys a b Ea Eb), links_split in Hring. destruct Hring as [L1 L2]. cbn [links] in L2.
      destruct (halves_frame h h' l xs ys a b (hd_nodup _ _ _ Hh) Ea Eb L1 ltac:(tauto)) as [L1' L2'].
      { intros q Hq Hqb. rewrite Vn, decide_False, decide_False by auto. reflexivity. }
      { intros q Hq Hqa. rewrite Vp, decide_False, decide_False by auto. reflexivity. }
      split.
      * replace (ring l (xs ++ (i, v) :: ys)) with (a ++ before l xs :: PElem i :: after l ys :: b).
        2:{ unfold ring. rewrite elems_app. cbn [elems map fst]. rewrite <- app_assoc. cbn [app]. fold (elems ys). rewrite Eb, app_comm_cons, Ea, <- app_assoc. reflexivity. }
        apply links_split. split; [exact L1'|]. split; [|split; [|split; [|split]]]; [| | | |exact L2'].
        -- rewrite Vn, decide_False, decide_True by auto. reflexivity.
        -- rewrite Vp, decide_True by reflexivity. reflexivity.
        -- rewrite Vn, decide_True by reflexivity. reflexivity.
        -- rewrite Vp, decide_False, decide_True by auto. reflexivity.
      * rewrite fmap_app. cbn [fmap list_fmap fst]. rewrite <- Permutation_middle, <- fmap_app. constructor; [exact Hi | apply Hh].
      * rewrite Hlen, lookup_insert_eq. unfold lenOf. rewrite Hle. cbn [default]. rewrite !length_app. cbn [length]. f_equal. change (id ?x) with x. lia.
      * intros j w [Hin|[[= -> ->]|Hin]%elem_of_cons]%elem_of_app; rewrite Vl, Vv;
          [|split; [rewrite decide_True by reflexivity; reflexivity | exact Hv]|];
          (rewrite decide_False by (intros [= ->]; apply Hi, list_elem_of_fmap; exists (i, w); set_solver); apply (hd_elems _ _ _ Hh); set_solver).
      * rewrite Vl, decide_False by discriminate. rewrite Vs. apply Hh.
    + refine (others_frame h h' A l (xs ++ ys) i R HA _ _ Vv Vs _ l' zs (not_eq_sym Hne) Hz); [congruence | |].
      * intros q Hq Hr. rewrite Vn, Vp, Vl, !(decide_False (P := q = PElem i)) by exact Hq. rewrite !decide_False by (intros ->; contradiction). auto.
      * intros l2 Hl2. rewrite Hlen, lookup_insert_ne by congruence. reflexivity.
  - intros p l'. rewrite Vl. case_decide as Ep.
    + intros [= <-]. exists i, (xs ++ (i, v) :: ys). split_and!; [exact Ep | apply lookup_insert_eq|]. rewrite fmap_app. set_solver.
    + intros Hp. destruct (rp_owned _ _ R _ _ Hp) as (j & zs & -> & Hz & Hj). destruct (decide (l' = l)) as [->|Hne].
      * rewrite HA in Hz. injection Hz as <-. exists j, (xs ++ (i, v) :: ys). split_and!; [reflexivity | apply lookup_insert_eq|]. rewrite fmap_app in *. set_solver.
      * exists j, zs. split_and!; [reflexivity | rewrite lookup_insert_ne by congruence; exact Hz | exact Hj].
  - rewrite Hfr. destruct (rp_fresh _ _ R) as [F1 F2]. split; intros j Hj; rewrite Vs in Hj; auto.
Qed.

Lemma before_last l xs i v : before l (xs ++ [(i, v)]) = PElem i.
Proof. unfold before. rewrite elems_app. apply last_last. Qed.

Lemma remove_ok h A l xs ys i v : represents h A -> A !! l = Some (xs ++ (i, v) :: ys) ->
  exists h', remove_elem h l (PElem i) = Ok h' /\ represents h' (<[l := xs ++ ys]> A) /\ h_fresh h' = h_fresh h /\
    is_Some (h_elems h' !! PElem i) /\ listOf h' (PElem i) = None /\ (forall q, valueOf h' q = valueOf h q).
Proof.
  intros R HA. pose proof (rp_holds _ _ R _ _ HA) as Hh. destruct (holds_at h l xs ((i, v) :: ys) Hh) as [Hn1 Hp1].
  assert (Hh' := Hh). replace (xs ++ (i, v) :: ys) with ((xs ++ [(i, v)]) ++ ys) in Hh' by (rewrite <- app_assoc; reflexivity).
  destruct (holds_at h l (xs ++ [(i, v)]) ys Hh') as [Hn2 Hp2]. rewrite before_last in Hn2, Hp2. change (after l ((i, v) :: ys)) with (PElem i) in Hn1, Hp1.
  destruct (before_split l xs) as [a Ea]. destruct (after_split l ys) as [b Eb].
  assert (Hnd : NoDup (i :: (xs ++ ys).*1)).
  { pose proof (hd_nodup _ _ _ Hh) as Hnd. rewrite fmap_app in Hnd. cbn [fmap list_fmap fst] in Hnd. rewrite <- Permutation_middle, <- fmap_app in Hnd. exact Hnd. }
  apply list.NoDup_cons in Hnd as [Hi Hnd].
  assert (Hsub : forall q, q ∈ PRoot l :: elems (xs ++ ys) -> q ∈ PRoot l :: elems (xs ++ (i, v) :: ys) /\ q <> PElem i).
  { intros q Hq. split; [rewrite elems_app in Hq |- *; cbn [elems map]; fold (elems ys); set_solver|]. intros ->.
    apply elem_of_cons in Hq as [[=]|(j & w & [= <-] & Hq)%elem_of_elems]. apply Hi, list_elem_of_fmap. exists (i, w). auto. }
  assert (Hbin : before l xs ∈ PRoot l :: elems (xs ++ ys)) by (rewrite elems_app; pose proof (before_in l xs); set_solver).
  assert (Hain : after l ys ∈ PRoot l :: elems (xs ++ ys)) by (rewrite elems_app; pose proof (after_in l ys); set_solver).
  destruct (holds_in_ring _ _ _ _ Hh (proj1 (Hsub _ Hbin))) as [Hbr [eb Heb]]. destruct (holds_in_ring _ _ _ _ Hh (proj1 (Hsub _ Hain))) as [Har [ea Hea]].
  destruct (hd_elems _ _ _ Hh i v ltac:(set_solver)) as [Hli Hvi].
  destruct (h_elems h !! PElem i) as [ee|] eqn:He; [|unfold listOf in Hli; rewrite He in Hli; discriminate Hli].
  unfold prevOf in Hp1. unfold nextOf in Hn2. rewrite He in Hp1, Hn2. cbn in Hp1, Hn2.
  destruct (remove_views h l (PElem i) (before l xs) (after l ys) ee eb ea) as (h' & E & Vn & Vp & Vl & Vv & Vs & Hlen & Hfr); auto.
  { intros Heq. exact (proj2 (Hsub _ Hbin) (eq_sym Heq)). } { intros Heq. exact (proj2 (Hsub _ Hain) (eq_sym Heq)). }
  exists h'. assert (Hin_ring : in_ring h l (PElem i)) by (right; exact Hli).
  assert (Hle : h_len h !! l = Some (Z.of_nat (length (xs ++ (i, v) :: ys)))) by apply Hh.
  split; [exact E|]. split; [|split_and!; [exact Hfr | rewrite Vs, He; eauto | rewrite Vl, decide_True by reflexivity; reflexivity | exact Vv]].
  split.
  - intros l' zs [[<- <-]|[Hne Hz]]%lookup_insert_Some.
    + pose proof (hd_ring _ _ _ Hh) as Hring. rewrite (ring_at l xs ((i, v) :: ys) a (after l ys :: b)) in Hring; [|exact Ea | cbn; fold (elems ys); rewrite Eb; reflexivity].
      rewrite links_split in Hring. destruct Hring as [L1 L2]. cbn [links] in L2. destruct L2 as (_ & _ & L2). 
      change (links h ([PElem i] ++ after l ys :: b)) in L2. rewrite links_split in L2. destruct L2 as [_ L2].
      destruct (halves_frame h h' l xs ys a b Hnd Ea Eb L1 L2) as [L1' L2'].
      { intros q Hq Hqb. rewrite Vn, decide_False, decide_False by (auto || apply Hsub, Hq). reflexivity. }
      { intros q Hq Hqa. rewrite Vp, decide_False, decide_False by (auto || apply Hsub, Hq). reflexivity. }
      split.
      * rewrite (ring_at l xs ys a b Ea Eb). apply links_split. split; [exact L1'|]. split_and!; [| |exact L2'].
        -- rewrite Vn, decide_False, decide_True by (auto || apply Hsub, Hbin). reflexivity.
        -- rewrite Vp, decide_False, decide_True by (auto || apply Hsub, Hain). reflexivity.
      * exact Hnd.
      * rewrite Hlen, lookup_insert_eq. unfold lenOf. rewrite Hle. cbn [default]. rewrite !length_app. cbn [length]. f_equal. change (id ?x) with x. lia.
      * intros j w Hin. rewrite Vl, Vv, decide_False by (intros [= ->]; apply Hi, list_elem_of_fmap; exists (i, w); auto). apply (hd_elems _ _ _ Hh). set_solver.
      * rewrite Vl, decide_False by discriminate. rewrite Vs. apply Hh.
    + refine (others_frame h h' A l (xs ++ (i, v) :: ys) i R HA _ _ Vv Vs _ l' zs (not_eq_sym Hne) Hz); [congruence | |].
      * intros q Hq Hr. rewrite Vn, Vp, Vl, !(decide_False (P := q = PElem i)) by exact Hq. rewrite !decide_False by (intros ->; contradiction). auto.
      * intros l2 Hl2. rewrite Hlen, lookup_insert_ne by congruence. reflexivity.
  - intros p l'. rewrite Vl. case_decide as Ep; [discriminate|]. intros Hp. destruct (rp_owned _ _ R _ _ Hp) as (j & zs & -> & Hz & Hj).
    destruct (decide (l' = l)) as [->|Hne].
    + rewrite HA in Hz. injection Hz as <-. exists j, (xs ++ ys). split_and!; [reflexivity | apply lookup_insert_eq|].
      rewrite fmap_app in Hj |- *. cbn [fmap list_fmap fst] in Hj. assert (j <> i) by congruence. set_solver.
    + exists j, zs. split_and!; [reflexivity | rewrite lookup_insert_ne by congruence; exact Hz | exact Hj].
  - rewrite Hfr. destruct (rp_fresh _ _ R) as [F1 F2]. split; intros j Hj; rewrite Vs in Hj; auto.
Qed.

(** *** What the operations read *)

Lemma load_elem h A l xs ys i v : represents h A -> A !! l = Some (xs ++ (i, v) :: ys) ->
  load h (PElem i) = Ok (mkElement (Some (after l ys)) (Some (before l xs)) (Some l) v).
Proof.
  intros R HA. pose proof (rp_holds _ _ R _ _ HA) as Hh. destruct (holds_at h l xs ((i, v) :: ys) Hh) as [_ Hp1].
  assert (Hh' := Hh). replace (xs ++ (i, v) :: ys) with ((xs ++ [(i, v)]) ++ ys) in Hh' by (rewrite <- app_assoc; reflexivity).
  destruct (holds_at h l (xs ++ [(i, v)]) ys Hh') as [Hn2 _]. rewrite before_last in Hn2. change (after l ((i, v) :: ys)) with (PElem i) in Hp1.
  destruct (hd_elems _ _ _ Hh i v ltac:(set_solver)) as [Hl Hv]. unfold load, nextOf, prevOf, listOf, valueOf in *.
  destruct (h_elems h !! PElem i) as [[n p o w]|]; [|discriminate Hl]. cbn in *. congruence.
Qed.

Lemma load_root h A l xs : represents h A -> A !! l = Some xs ->
  exists z, load h (PRoot l) = Ok (mkElement (Some (after l xs)) (Some (before l xs)) None z).
Proof.
  intros R HA. pose proof (rp_holds _ _ R _ _ HA) as Hh. destruct (holds_at h l [] xs Hh) as [Hn _]. change (before l []) with (PRoot l) in Hn.
  assert (Hh' := Hh). rewrite <- (app_nil_r xs) in Hh'. destruct (holds_at h l xs [] Hh') as [_ Hp]. change (after l []) with (PRoot l) in Hp.
  destruct (hd_root _ _ _ Hh) as [_ Hl]. unfold load, nextOf, prevOf, listOf in *. destruct (h_elems h !! PRoot l) as [[n p o w]|]; [|discriminate Hn].
  cbn in *. exists w. congruence.
Qed.

(** An element that is not in [l]. *)
Lemma load_other h A l xs i : represents h A -> A !! l = Some xs -> is_Some (h_elems h !! PElem i) -> i ∉ xs.*1 ->
  exists el, load h (PElem i) = Ok el /\ e_list el <> Some l /\ valueOf h (PElem i) = Some (e_Value el).
Proof.
  intros R HA [el E] Hi. exists el. unfold load, valueOf. rewrite E. split_and!; try reflexivity. intros Hl.
  destruct (rp_owned _ _ R (PElem i) l) as (j & zs & [= <-] & Hz & Hj); [unfold listOf; rewrite E; exact Hl|]. congruence.
Qed.

Lemma lenOf_ok h A l xs : represents h A -> A !! l = Some xs -> lenOf h l = Z.of_nat (length xs).
Proof. intros R HA. unfold lenOf. rewrite (hd_len _ _ _ (rp_holds _ _ R _ _ HA)). reflexivity. Qed.

Lemma after_root l ys : bool_decide (Some (after l ys) = Some (PRoot l)) = bool_decide (ys = []).
Proof. unfold after. destruct ys as [|[i v] ys]; cbn; [rewrite !bool_decide_eq_true_2 by reflexivity | rewrite !bool_decide_eq_false_2 by discriminate]; reflexivity. Qed.
Lemma before_root l xs : bool_decide (Some (before l xs) = Some (PRoot l)) = bool_decide (xs = []).
Proof.
  destruct xs as [|[i v] xs _] using rev_ind; [unfold before; cbn; rewrite !bool_decide_eq_true_2 by reflexivity; reflexivity|].
  rewrite before_last, !bool_decide_eq_false_2; [reflexivity | destruct xs; discriminate | discriminate].
Qed.

(** [Front], [Back], [Next] and [Prev] walk through the list. *)
Lemma Front_ok h A l xs : represents h A -> A !! l = Some xs -> Front h l = Ok (head (elems xs)).
Proof.
  intros R HA. unfold Front. rewrite (lenOf_ok h A l xs R HA). destruct xs as [|x xs]; [reflexivity|].
  rewrite (proj2 (Z.eqb_neq (Z.of_nat (length (x :: xs))) 0)) by (rewrite length_cons; lia). destruct (load_root h A l _ R HA) as [z ->]. reflexivity.
Qed.
Lemma Back_ok h A l xs : represents h A -> A !! l = Some xs -> Back h l = Ok (list.last (elems xs)).
Proof.
  intros R HA. unfold Back. rewrite (lenOf_ok h A l xs R HA). destruct xs as [|[i v] xs _] using rev_ind; [reflexivity|].
  rewrite (proj2 (Z.eqb_neq (Z.of_nat (length (xs ++ [(i, v)]))) 0)) by (rewrite length_app, length_cons; lia). destruct (load_root h A l _ R HA) as [z ->].
  cbn [bind e_prev]. rewrite before_last, elems_app. cbn [elems map fst]. rewrite last_snoc. reflexivity.
Qed.
Lemma Next_ok h A l xs ys i v : represents h A -> A !! l = Some (xs ++ (i, v) :: ys) -> Next h (PElem i) = Ok (head (elems ys)).
Proof.
  intros R HA. unfold Next. rewrite (load_elem h A l xs ys i v R HA). cbn [bind e_list e_next]. rewrite after_root.
  destruct ys as [|[j w] ys]; [reflexivity|]. rewrite bool_decide_eq_false_2 by discriminate. reflexivity.
Qed.
Lemma Prev_ok h A l xs ys i v : represents h A -> A !! l = Some (xs ++ (i, v) :: ys) -> Prev h (PElem i) = Ok (list.last (elems xs)).
Proof.
  intros R HA. unfold Prev. rewrite (load_elem h A l xs ys i v R HA). cbn [bind e_list e_prev]. rewrite before_root.
  destruct xs as [|[j w] xs _] using rev_ind; [reflexivity|]. rewrite bool_decide_eq_false_2 by (destruct xs; discriminate).
  rewrite before_last, elems_app. cbn [elems map fst]. rewrite last_snoc. reflexivity.
Qed.

Lemma lazyInit_ok h A l xs : represents h A -> A !! l = Some xs -> lazyInit h l = Ok h.
Proof. intros R HA. unfold lazyInit. destruct (load_root h A l xs R HA) as [z ->]. reflexivity. Qed.

(** *** Insertion of a new element *)

Lemma alloc_ok h A v : represents h A ->
  let h' := mkHeap (<[PElem (h_fresh h) := mkElement None None None v]> (h_elems h)) (h_len h) (h_fresh h + 1) in
  represents h' A /\ is_Some (h_elems h' !! PElem (h_fresh h)) /\ listOf h' (PElem (h_fresh h)) = None /\ valueOf h' (PElem (h_fresh h)) = Some v.
Proof.
  intros R h'. assert (Hne : h_elems h !! PElem (h_fresh h) = None).
  { apply eq_None_not_Some. intros Hs. apply (rp_fresh _ _ R) in Hs. lia. }
  assert (Hsame : forall q, q <> PElem (h_fresh h) -> h_elems h' !! q = h_elems h !! q) by (intros q Hq; apply lookup_insert_ne; congruence).
  split; [|unfold listOf, valueOf, h'; cbn; rewrite !lookup_insert_eq; eauto]. split.
  - intros l xs HA. pose proof (rp_holds _ _ R _ _ HA) as Hh. apply (holds_frame h h'); [exact Hh | | reflexivity].
    intros p Hp. destruct (holds_in_ring _ _ _ _ Hh Hp) as [_ Hs]. unfold nextOf, prevOf, listOf, valueOf.
    rewrite Hsame by (intros ->; rewrite Hne in Hs; destruct Hs as [? [=]]). auto.
  - intros p l. unfold listOf. destruct (decide (p = PElem (h_fresh h))) as [->|Hp].
    + unfold h'. cbn. rewrite lookup_insert_eq. discriminate.
    + rewrite Hsame by exact Hp. apply (rp_owned _ _ R).
  - cbn [h_fresh]. destruct (rp_fresh _ _ R) as [F1 F2]. split; intros j Hj.
    + destruct (decide (j = h_fresh h)) as [->|Hj']; [cbn; lia|]. rewrite Hsame in Hj by congruence. specialize (F1 j Hj). cbn. lia.
    + rewrite Hsame in Hj by discriminate. specialize (F2 j Hj). cbn. lia.
Qed.

Lemma insertValue_ok h A l xs ys v : represents h A -> A !! l = Some (xs ++ ys) ->
  exists h', insertValue h l v (before l xs) = Ok (h', PElem (h_fresh h)) /\ represents h' (<[l := xs ++ (h_fresh h, v) :: ys]> A) /\ h_fresh h' = h_fresh h + 1 /\
    (forall q, valueOf h' q = if decide (q = PElem (h_fresh h)) then Some v else valueOf h q).
Proof.
  intros R HA. unfold insertValue. destruct (alloc_ok h A v R) as (R' & Hs & Hl & Hv). cbv zeta in *. set (h1 := mkHeap _ _ _) in *.
  destruct (insert_ok h1 A l xs ys (h_fresh h) v R' HA Hs Hl Hv) as (h' & -> & R2 & Hf & Hv'). exists h'. split_and!; [reflexivity | exact R2 | exact Hf|].
  intros q. rewrite Hv'. case_decide as Eq; [subst q; exact Hv|]. unfold valueOf, h1. cbn. rewrite lookup_insert_ne by congruence. reflexivity.
Qed.
End list.
Arguments element : clear implicits.
Arguments heap : clear implicits.
