(* ===== verification/LinkedListSpec.v ===== *)
(** * Linked lists, against plain lists

    What the operations of the ring of elements promise: the lists of a program are plain lists of the
    elements with their values, and a program that runs on the heap gets the answers that it gets on the
    plain lists. *)
From S2P Require Import Prelude LinkedList.

Section spec.
Context {V : Type} (zero : V).
Implicit Types (v : V) (h : heap V) (l i m : Z) (xs ys : list (Z * V)).

(** ** Programs *)

(** A program names lists and elements by the numbers they were created with. *)
Inductive list_op : Type :=
| LNew
| LLen (l : Z)
| LFront (l : Z)
| LBack (l : Z)
| LNext (i : Z)
| LPrev (i : Z)
| LRemove (l i : Z)
| LPushFront (l : Z) (v : V)
| LPushBack (l : Z) (v : V)
| LInsertBefore (l : Z) (v : V) (m : Z)
| LInsertAfter (l : Z) (v : V) (m : Z)
| LMoveToFront (l i : Z)
| LMoveToBack (l i : Z)
| LMoveBefore (l i m : Z)
| LMoveAfter (l i m : Z)
| LPushBackList (l other : Z)
| LPushFrontList (l other : Z).

Inductive list_answer : Type :=
| RNothing
| RList (l : Z)
| RLen (n : Z)
| RElem (e : option ptr)
| RValue (v : V).

Definition heapStep h (o : list_op) : result (heap V * list_answer) :=
  match o with
  | LNew => let* (h, l) := NewList zero h in Ok (h, RList l)
  | LLen l => Ok (h, RLen (Len h l))
  | LFront l => let* e := Front h l in Ok (h, RElem e)
  | LBack l => let* e := Back h l in Ok (h, RElem e)
  | LNext i => let* e := Next h (PElem i) in Ok (h, RElem e)
  | LPrev i => let* e := Prev h (PElem i) in Ok (h, RElem e)
  | LRemove l i => let* (h, v) := Remove_elem h l (PElem i) in Ok (h, RValue v)
  | LPushFront l v => let* (h, e) := PushFront h l v in Ok (h, RElem (Some e))
  | LPushBack l v => let* (h, e) := PushBack h l v in Ok (h, RElem (Some e))
  | LInsertBefore l v m => let* (h, e) := InsertBefore h l v (PElem m) in Ok (h, RElem e)
  | LInsertAfter l v m => let* (h, e) := InsertAfter h l v (PElem m) in Ok (h, RElem e)
  | LMoveToFront l i => let* h := MoveToFront h l (PElem i) in Ok (h, RNothing)
  | LMoveToBack l i => let* h := MoveToBack h l (PElem i) in Ok (h, RNothing)
  | LMoveBefore l i m => let* h := MoveBefore h l (PElem i) (PElem m) in Ok (h, RNothing)
  | LMoveAfter l i m => let* h := MoveAfter h l (PElem i) (PElem m) in Ok (h, RNothing)
  | LPushBackList l other => let* h := PushBackList h l other in Ok (h, RNothing)
  | LPushFrontList l other => let* h := PushFrontList h l other in Ok (h, RNothing)
  end.

Fixpoint heapRun h (os : list list_op) : result (heap V * list list_answer) :=
  match os with
  | [] => Ok (h, [])
  | o :: os => let* (h, a) := heapStep h o in let* (h, rs) := heapRun h os in Ok (h, a :: rs)
  end.

(** ** Plain lists *)

Record lists : Type := mkLists {
  al_lists : gmap Z (list (Z * V));
  al_values : gmap Z V;  (* of all elements, in a list or not *)
  al_fresh : Z;
}.
Implicit Types (s : lists).

Definition without i xs : list (Z * V) := filter (fun x => x.1 <> i) xs.
Fixpoint putBefore m (x : Z * V) xs : list (Z * V) :=
  match xs with [] => [] | y :: ys => if decide (y.1 = m) then x :: y :: ys else y :: putBefore m x ys end.
Fixpoint putAfter m (x : Z * V) xs : list (Z * V) :=
  match xs with [] => [] | y :: ys => if decide (y.1 = m) then y :: x :: ys else y :: putAfter m x ys end.
Fixpoint following i xs : option ptr :=
  match xs with [] => None | y :: ys => if decide (y.1 = i) then head (elems ys) else following i ys end.
Fixpoint copies (f : Z) ys : list (Z * V) :=
  match ys with [] => [] | y :: ys => (f, y.2) :: copies (f + 1) ys end.

(** The list that an element is in. *)
Definition ownerOf (A : gmap Z (list (Z * V))) i : option (list (Z * V)) :=
  snd <$> head (filter (fun x => i ∈ x.2.*1) (map_to_list A)).

Definition setList s l xs : lists := mkLists (<[l := xs]> (al_lists s)) (al_values s) (al_fresh s).
Definition addAll s l xs (new : list (Z * V)) : lists :=
  mkLists (<[l := xs]> (al_lists s)) (foldl (fun vs x => <[x.1 := x.2]> vs) (al_values s) new) (al_fresh s + Z.of_nat (length new)).

(** The operations; [None] where the program names a list or an element that does not exist. *)
Definition add s l v (place : Z * V -> list (Z * V)) : lists * list_answer :=
  let x := (al_fresh s, v) in (addAll s l (place x) [x], RElem (Some (PElem (al_fresh s)))).
Definition move s l i (place : Z * V -> list (Z * V) -> list (Z * V)) : option (lists * list_answer) :=
  xs ← al_lists s !! l; v ← al_values s !! i;
  Some (if decide (i ∈ xs.*1) then setList s l (place (i, v) (without i xs)) else s, RNothing).

Definition listStep s (o : list_op) : option (lists * list_answer) :=
  match o with
  | LNew => Some (mkLists (<[al_fresh s := []]> (al_lists s)) (al_values s) (al_fresh s + 1), RList (al_fresh s))
  | LLen l => xs ← al_lists s !! l; Some (s, RLen (Z.of_nat (length xs)))
  | LFront l => xs ← al_lists s !! l; Some (s, RElem (head (elems xs)))
  | LBack l => xs ← al_lists s !! l; Some (s, RElem (list.last (elems xs)))
  | LNext i => _ ← al_values s !! i; Some (s, RElem (ownerOf (al_lists s) i ≫= following i))
  | LPrev i => _ ← al_values s !! i; Some (s, RElem (ownerOf (al_lists s) i ≫= (fun xs => following i (rev xs))))
  | LRemove l i =>
      xs ← al_lists s !! l; v ← al_values s !! i;
      Some (if decide (i ∈ xs.*1) then setList s l (without i xs) else s, RValue v)
  | LPushFront l v => xs ← al_lists s !! l; Some (add s l v (fun x => x :: xs))
  | LPushBack l v => xs ← al_lists s !! l; Some (add s l v (fun x => xs ++ [x]))
  | LInsertBefore l v m =>
      xs ← al_lists s !! l; _ ← al_values s !! m;
      Some (if decide (m ∈ xs.*1) then add s l v (fun x => putBefore m x xs) else (s, RElem None))
  | LInsertAfter l v m =>
      xs ← al_lists s !! l; _ ← al_values s !! m;
      Some (if decide (m ∈ xs.*1) then add s l v (fun x => putAfter m x xs) else (s, RElem None))
  | LMoveToFront l i => move s l i (fun x ys => x :: ys)
  | LMoveToBack l i => move s l i (fun x ys => ys ++ [x])
  | LMoveBefore l i m =>
      xs ← al_lists s !! l; _ ← al_values s !! m;
      if decide (i <> m /\ m ∈ xs.*1) then move s l i (putBefore m) else _ ← al_values s !! i; Some (s, RNothing)
  | LMoveAfter l i m =>
      xs ← al_lists s !! l; _ ← al_values s !! m;
      if decide (i <> m /\ m ∈ xs.*1) then move s l i (putAfter m) else _ ← al_values s !! i; Some (s, RNothing)
  | LPushBackList l other =>
      xs ← al_lists s !! l; ys ← al_lists s !! other;
      let new := copies (al_fresh s) ys in Some (addAll s l (xs ++ new) new, RNothing)
  | LPushFrontList l other =>
      xs ← al_lists s !! l; ys ← al_lists s !! other;
      let new := copies (al_fresh s) (rev ys) in Some (addAll s l (rev new ++ xs) new, RNothing)
  end.

Fixpoint listRun s (os : list list_op) : option (lists * list list_answer) :=
  match os with
  | [] => Some (s, [])
  | o :: os => '(s, a) ← listStep s o; '(s, rs) ← listRun s os; Some (s, a :: rs)
  end.

Definition noHeap : heap V := mkHeap ∅ ∅ 0.
Definition noLists : lists := mkLists ∅ ∅ 0.

(** *** Refinement *)

Record stands_for h s : Prop := {
  sf_lists : represents h (al_lists s);
  sf_values : forall i, al_values s !! i = valueOf h (PElem i);
  sf_fresh : al_fresh s = h_fresh h;
}.

(** *** Positions in a plain list *)

Lemma without_skip i a b : i ∉ a.*1 -> without i (a ++ b) = a ++ without i b.
Proof.
  induction a as [|x a IH]; [reflexivity|]. cbn [fmap list_fmap]. intros [Hx Ha]%not_elem_of_cons. cbn [app]. unfold without in *.
  rewrite filter_cons, decide_True by congruence. rewrite IH by exact Ha. reflexivity.
Qed.
Lemma putBefore_at m x a v b : m ∉ a.*1 -> putBefore m x (a ++ (m, v) :: b) = a ++ x :: (m, v) :: b.
Proof.
  induction a as [|y a IH]; cbn [app putBefore fmap list_fmap fst]; [rewrite decide_True by reflexivity; reflexivity|].
  intros [Hy Ha]%not_elem_of_cons. rewrite decide_False, IH by congruence. reflexivity.
Qed.
Lemma putAfter_at m x a v b : m ∉ a.*1 -> putAfter m x (a ++ (m, v) :: b) = a ++ (m, v) :: x :: b.
Proof.
  induction a as [|y a IH]; cbn [app putAfter fmap list_fmap fst]; [rewrite decide_True by reflexivity; reflexivity|].
  intros [Hy Ha]%not_elem_of_cons. rewrite decide_False, IH by congruence. reflexivity.
Qed.
Lemma following_at i a v b : i ∉ a.*1 -> following i (a ++ (i, v) :: b) = head (elems b).
Proof.
  induction a as [|y a IH]; cbn [app following fmap list_fmap fst]; [rewrite decide_True by reflexivity; reflexivity|].
  intros [Hy Ha]%not_elem_of_cons. rewrite decide_False, IH by congruence. reflexivity.
Qed.

Lemma at_element xs i : NoDup xs.*1 -> i ∈ xs.*1 ->
  exists a v b, xs = a ++ (i, v) :: b /\ i ∉ a.*1 /\ i ∉ b.*1 /\ without i xs = a ++ b.
Proof.
  intros Hn ([j v] & -> & Hin)%list_elem_of_fmap. apply list_elem_of_split in Hin as (a & b & ->). cbn [fst].
  rewrite fmap_app in Hn. cbn [fmap list_fmap fst] in Hn. rewrite <- Permutation_middle in Hn.
  apply list.NoDup_cons in Hn as [[Ha Hb]%not_elem_of_app _]. exists a, v, b. split_and!; try assumption; [reflexivity|].
  rewrite without_skip by exact Ha. f_equal. unfold without. rewrite filter_cons, decide_False by (cbn; tauto).
  change (without j b = b). rewrite <- (app_nil_r b) at 1. rewrite without_skip by exact Hb. apply app_nil_r.
Qed.

Lemma rev_elems_head xs : head (elems (rev xs)) = list.last (elems xs).
Proof.
  destruct xs as [|x xs _] using rev_ind; [reflexivity|]. rewrite rev_app_distr, (elems_app xs). cbn [rev app elems map head]. symmetry. apply last_snoc.
Qed.

Lemma setList_same s l xs : al_lists s !! l = Some xs -> setList s l xs = s.
Proof. intros HA. unfold setList. rewrite insert_id by exact HA. destruct s; reflexivity. Qed.

(** *** What the heap says of an element *)

Section state.
Context (h : heap V) (s : lists) (Hs : stands_for h s).

Lemma sf_nodup l xs : al_lists s !! l = Some xs -> NoDup xs.*1.
Proof. intros HA. exact (hd_nodup _ _ _ (rp_holds _ _ (sf_lists _ _ Hs) _ _ HA)). Qed.

Lemma sf_element i v : al_values s !! i = Some v -> exists el, load h (PElem i) = Ok el /\ h_elems h !! PElem i = Some el /\ e_Value el = v.
Proof.
  rewrite (sf_values _ _ Hs). unfold valueOf, load. destruct (h_elems h !! PElem i) as [el|]; [|discriminate]. intros [= <-]. eauto.
Qed.

Lemma sf_owner l xs i el : al_lists s !! l = Some xs -> h_elems h !! PElem i = Some el -> (e_list el = Some l <-> i ∈ xs.*1).
Proof.
  intros HA He. assert (E : listOf h (PElem i) = e_list el) by (unfold listOf; rewrite He; reflexivity). rewrite <- E. split.
  - intros Hl. destruct (rp_owned _ _ (sf_lists _ _ Hs) _ _ Hl) as (j & ys & [= <-] & Hy & Hj). congruence.
  - intros ([j v] & -> & Hin)%list_elem_of_fmap. exact (proj1 (hd_elems _ _ _ (rp_holds _ _ (sf_lists _ _ Hs) _ _ HA) _ _ Hin)).
Qed.

(** An element of a list, with its value. *)
Lemma sf_position l xs i v : al_lists s !! l = Some xs -> al_values s !! i = Some v -> i ∈ xs.*1 ->
  exists a b, xs = a ++ (i, v) :: b /\ i ∉ a.*1 /\ i ∉ b.*1 /\ without i xs = a ++ b.
Proof.
  intros HA Hv Hi. destruct (at_element xs i (sf_nodup l xs HA) Hi) as (a & w & b & -> & Ha & Hb & Hw). exists a, b.
  assert (Hin : (i, w) ∈ a ++ (i, w) :: b) by set_solver.
  destruct (hd_elems _ _ _ (rp_holds _ _ (sf_lists _ _ Hs) _ _ HA) _ _ Hin) as [_ Hw']. rewrite (sf_values _ _ Hs) in Hv.
  rewrite Hv in Hw'. injection Hw' as <-. auto.
Qed.

Lemma ownerOf_ok l xs i : al_lists s !! l = Some xs -> i ∈ xs.*1 -> ownerOf (al_lists s) i = Some xs.
Proof.
  intros HA Hi. unfold ownerOf. set (ls := filter _ _).
  assert (Hin : (l, xs) ∈ ls) by (apply list_elem_of_filter; split; [exact Hi | apply elem_of_map_to_list, HA]).
  destruct ls as [|[l' xs'] ls'] eqn:E; [apply elem_of_nil in Hin as []|]. cbn. f_equal.
  assert (Hin' : (l', xs') ∈ ls) by (rewrite E; left). apply list_elem_of_filter in Hin' as [Hi' HA'%elem_of_map_to_list]. cbn in Hi'.
  assert (Hl : l = l'); [|congruence]. apply list_elem_of_fmap in Hi as ([? v] & -> & Hi). apply list_elem_of_fmap in Hi' as ([? v'] & E' & Hi').
  cbn [fst] in E'. subst. destruct (hd_elems _ _ _ (rp_holds _ _ (sf_lists _ _ Hs) _ _ HA) _ _ Hi) as [H1 _].
  destruct (hd_elems _ _ _ (rp_holds _ _ (sf_lists _ _ Hs) _ _ HA') _ _ Hi') as [H2 _]. congruence.
Qed.

Lemma ownerOf_none i : listOf h (PElem i) = None -> ownerOf (al_lists s) i = None.
Proof.
  intros Hl. unfold ownerOf. destruct (filter _ _) as [|[l xs] ls] eqn:E; [reflexivity|]. exfalso.
  assert (Hin : (l, xs) ∈ (l, xs) :: ls) by left. rewrite <- E in Hin.
  apply list_elem_of_filter in Hin as [([? v] & -> & Hi)%list_elem_of_fmap HA%elem_of_map_to_list].
  destruct (hd_elems _ _ _ (rp_holds _ _ (sf_lists _ _ Hs) _ _ HA) _ _ Hi) as [H1 _]. cbn in *. congruence.
Qed.

(** [Next] and [Prev], of elements that are in a list and of others. *)
Lemma neighbours_ok i v : al_values s !! i = Some v ->
  Next h (PElem i) = Ok (ownerOf (al_lists s) i ≫= following i) /\
  Prev h (PElem i) = Ok (ownerOf (al_lists s) i ≫= (fun xs => following i (rev xs))).
Proof.
  intros Hv. destruct (sf_element i v Hv) as (el & Hld & He & _). destruct (e_list el) as [l|] eqn:El.
  - assert (Hl : listOf h (PElem i) = Some l) by (unfold listOf; rewrite He; exact El).
    destruct (rp_owned _ _ (sf_lists _ _ Hs) _ _ Hl) as (j & xs & [= <-] & HA & Hi). rewrite (ownerOf_ok l xs i HA Hi).
    destruct (sf_position l xs i v HA Hv Hi) as (a & b & -> & Ha & Hb & _). cbn [mbind option_bind].
    rewrite (Next_ok h (al_lists s) l a b i v), (Prev_ok h (al_lists s) l a b i v) by (apply Hs || exact HA).
    rewrite following_at by exact Ha. rewrite rev_app_distr. cbn [rev]. rewrite <- app_assoc. cbn [app].
    rewrite following_at, rev_elems_head; [auto|]. intros (x & Ex & Hx)%list_elem_of_fmap. apply Hb, list_elem_of_fmap. exists x. split; [exact Ex | apply list_elem_of_In, in_rev, list_elem_of_In, Hx].
  - assert (Hl : listOf h (PElem i) = None) by (unfold listOf; rewrite He; exact El).
    rewrite ownerOf_none by exact Hl. unfold Next, Prev. rewrite Hld. cbn [bind]. rewrite El. auto.
Qed.

(** *** New elements and elements that move *)

Lemma place_new l p q v : al_lists s !! l = Some (p ++ q) ->
  exists h', insertValue h l v (before l p) = Ok (h', PElem (al_fresh s)) /\
    stands_for h' (addAll s l (p ++ (al_fresh s, v) :: q) [(al_fresh s, v)]).
Proof.
  intros HA. destruct (insertValue_ok h _ l p q v (sf_lists _ _ Hs) HA) as (h' & E & R & Hf & Hv). rewrite <- (sf_fresh _ _ Hs) in *.
  exists h'. split; [exact E|]. split; [exact R | | cbn; rewrite Hf; lia].
  intros i. cbn [al_values addAll foldl fst snd]. rewrite Hv, lookup_insert, (sf_values _ _ Hs). repeat case_decide; congruence.
Qed.

Lemma relocate l a b i v : al_lists s !! l = Some (a ++ (i, v) :: b) ->
  exists h1, remove_elem h l (PElem i) = Ok h1 /\ stands_for h1 (setList s l (a ++ b)) /\
    forall p q, a ++ b = p ++ q ->
      exists h', insert_elem h1 l (PElem i) (before l p) = Ok h' /\ stands_for h' (setList s l (p ++ (i, v) :: q)).
Proof.
  intros HA. destruct (remove_ok h _ l a b i v (sf_lists _ _ Hs) HA) as (h1 & E1 & R1 & F1 & S1 & L1 & V1).
  exists h1. split; [exact E1|]. split; [split; [exact R1 | intros j; rewrite V1; apply Hs | cbn; rewrite F1; apply Hs]|].
  intros p q E. rewrite E in R1.
  assert (Hv : valueOf h1 (PElem i) = Some v).
  { rewrite V1. apply (hd_elems _ _ _ (rp_holds _ _ (sf_lists _ _ Hs) _ _ HA)). set_solver. }
  destruct (insert_ok h1 _ l p q i v R1 (lookup_insert_eq _ _ _) S1 L1 Hv) as (h' & E' & R' & F' & V'). rewrite insert_insert_eq in R'.
  exists h'. split; [exact E'|]. split; [exact R' | intros j; rewrite V', V1; apply Hs | cbn; rewrite F', F1; apply Hs].
Qed.
End state.

(** The guards of the operations that take an element. *)
Lemma sf_guard h s l xs i v : stands_for h s -> al_lists s !! l = Some xs -> al_values s !! i = Some v ->
  exists el, load h (PElem i) = Ok el /\ e_Value el = v /\ bool_decide (e_list el = Some l) = bool_decide (i ∈ xs.*1).
Proof.
  intros Hs HA Hv. destruct (sf_element h s Hs i v Hv) as (el & Hld & He & Hval). exists el. split_and!; [exact Hld | exact Hval|].
  apply bool_decide_ext. exact (sf_owner h s Hs l xs i el HA He).
Qed.

Lemma Remove_ok h s l xs i v : stands_for h s -> al_lists s !! l = Some xs -> al_values s !! i = Some v ->
  exists h', Remove_elem h l (PElem i) = Ok (h', v) /\ stands_for h' (if decide (i ∈ xs.*1) then setList s l (without i xs) else s).
Proof.
  intros Hs HA Hv. unfold Remove_elem. destruct (sf_guard h s l xs i v Hs HA Hv) as (el & -> & Hval & Hg). cbn [bind]. rewrite Hval, Hg.
  destruct (decide (i ∈ xs.*1)) as [Hi|Hi]; [rewrite bool_decide_eq_true_2 by exact Hi | rewrite bool_decide_eq_false_2 by exact Hi; eauto].
  destruct (sf_position h s Hs l xs i v HA Hv Hi) as (a & b & -> & _ & _ & ->).
  destruct (relocate h s Hs l a b i v HA) as (h1 & -> & H1 & _). eauto.
Qed.

Lemma MoveToFront_ok h s l xs i v : stands_for h s -> al_lists s !! l = Some xs -> al_values s !! i = Some v ->
  exists h', MoveToFront h l (PElem i) = Ok h' /\ stands_for h' (if decide (i ∈ xs.*1) then setList s l ((i, v) :: without i xs) else s).
Proof.
  intros Hs HA Hv. unfold MoveToFront. destruct (sf_guard h s l xs i v Hs HA Hv) as (el & -> & _ & Hg). cbn [bind].
  destruct (load_root h _ l xs (sf_lists _ _ Hs) HA) as [z ->]. cbn [bind e_next]. rewrite Hg; clear Hg.
  destruct (decide (i ∈ xs.*1)) as [Hi|Hi]; [rewrite bool_decide_eq_true_2 by exact Hi | rewrite bool_decide_eq_false_2 by exact Hi; cbn; eauto].
  destruct (sf_position h s Hs l xs i v HA Hv Hi) as (a & b & -> & Ha & _ & ->). cbn [negb orb].
  destruct (relocate h s Hs l a b i v HA) as (h1 & -> & _ & Hput). case_bool_decide as Hf; [|exact (Hput [] (a ++ b) eq_refl)].
  destruct a as [|[j w] a]; [|unfold after in Hf; cbn in Hf; injection Hf as ->; exfalso; apply Ha; left].
  cbn [app] in *; rewrite (setList_same s l _ HA). eauto.
Qed.

Lemma MoveToBack_ok h s l xs i v : stands_for h s -> al_lists s !! l = Some xs -> al_values s !! i = Some v ->
  exists h', MoveToBack h l (PElem i) = Ok h' /\ stands_for h' (if decide (i ∈ xs.*1) then setList s l (without i xs ++ [(i, v)]) else s).
Proof.
  intros Hs HA Hv. unfold MoveToBack. destruct (sf_guard h s l xs i v Hs HA Hv) as (el & -> & _ & Hg). cbn [bind].
  destruct (load_root h _ l xs (sf_lists _ _ Hs) HA) as [z ->]. cbn [bind e_prev]. rewrite Hg; clear Hg.
  destruct (decide (i ∈ xs.*1)) as [Hi|Hi]; [rewrite bool_decide_eq_true_2 by exact Hi | rewrite bool_decide_eq_false_2 by exact Hi; cbn; eauto].
  destruct (sf_position h s Hs l xs i v HA Hv Hi) as (a & b & -> & _ & Hb & ->). cbn [negb orb].
  destruct (relocate h s Hs l a b i v HA) as (h1 & -> & H1 & Hput). case_bool_decide as Hf.
  - destruct b as [|[j w] b _] using rev_ind; [rewrite app_nil_r, (setList_same s l _ HA); eauto|].
    rewrite app_comm_cons, app_assoc, before_last in Hf. injection Hf as ->. exfalso. apply Hb. rewrite fmap_app. set_solver.
  - cbn [bind]. destruct (load_root h1 _ l (a ++ b) (sf_lists _ _ H1) (lookup_insert_eq _ _ _)) as [z' ->]. cbn [bind e_prev deref].
    apply Hput. symmetry. apply app_nil_r.
Qed.

(** [MoveBefore] and [MoveAfter], past their guards. *)
Lemma move_beside h s l xs i m v w : stands_for h s -> al_lists s !! l = Some xs -> al_values s !! i = Some v -> al_values s !! m = Some w ->
  i ∈ xs.*1 -> m ∈ xs.*1 -> i <> m ->
  exists h1 p q, remove_elem h l (PElem i) = Ok h1 /\ load h1 (PElem m) = Ok (mkElement (Some (after l q)) (Some (before l p)) (Some l) w) /\
    without i xs = p ++ (m, w) :: q /\ m ∉ p.*1 /\
    (exists h', insert_elem h1 l (PElem i) (before l p) = Ok h' /\ stands_for h' (setList s l (p ++ (i, v) :: (m, w) :: q))) /\
    (exists h', insert_elem h1 l (PElem i) (PElem m) = Ok h' /\ stands_for h' (setList s l (p ++ (m, w) :: (i, v) :: q))).
Proof.
  intros Hs HA Hv Hw Hi Hm Hne. destruct (sf_position h s Hs l xs i v HA Hv Hi) as (a & b & -> & Ha & Hb & ->).
  destruct (relocate h s Hs l a b i v HA) as (h1 & -> & H1 & Hput).
  assert (HA1 : al_lists (setList s l (a ++ b)) !! l = Some (a ++ b)) by apply lookup_insert_eq.
  destruct (sf_position h1 _ H1 l (a ++ b) m w HA1 Hw) as (p & q & E & Hp & _ & _).
  { rewrite fmap_app in Hm |- *. cbn [fmap list_fmap fst] in Hm. set_solver. }
  exists h1, p, q. split_and!; [reflexivity | | exact E | exact Hp | exact (Hput _ _ E) |].
  - rewrite E in HA1, H1. exact (load_elem h1 _ l p q m w (sf_lists _ _ H1) HA1).
  - destruct (Hput (p ++ [(m, w)]) q) as (h' & Hh' & Hs'); [rewrite E, <- app_assoc; reflexivity|]. rewrite before_last in Hh'.
    rewrite <- app_assoc in Hs'. eauto.
Qed.

Lemma beside_guard h s l xs i m v w (f : result (heap V)) : stands_for h s -> al_lists s !! l = Some xs -> al_values s !! i = Some v -> al_values s !! m = Some w ->
  (let* el := load h (PElem i) in let* k := load h (PElem m) in
   if negb (bool_decide (e_list el = Some l)) || bool_decide (PElem i = PElem m) || negb (bool_decide (e_list k = Some l)) then Ok h else f) =
  if decide ((i <> m /\ m ∈ xs.*1) /\ i ∈ xs.*1) then f else Ok h.
Proof.
  intros Hs HA Hv Hw. destruct (sf_guard h s l xs i v Hs HA Hv) as (el & -> & _ & Hi). destruct (sf_guard h s l xs m w Hs HA Hw) as (k & -> & _ & Hm).
  cbn [bind]. rewrite Hi, Hm; clear Hi Hm. repeat case_bool_decide; case_decide; cbn; try reflexivity; exfalso; naive_solver.
Qed.

Lemma MoveBefore_ok h s l xs i m v w : stands_for h s -> al_lists s !! l = Some xs -> al_values s !! i = Some v -> al_values s !! m = Some w ->
  exists h', MoveBefore h l (PElem i) (PElem m) = Ok h' /\
    stands_for h' (if decide ((i <> m /\ m ∈ xs.*1) /\ i ∈ xs.*1) then setList s l (putBefore m (i, v) (without i xs)) else s).
Proof.
  intros Hs HA Hv Hw. unfold MoveBefore. rewrite (beside_guard h s l xs i m v w _ Hs HA Hv Hw). case_decide as Hd; [|eauto].
  destruct (move_beside h s l xs i m v w) as (h1 & p & q & -> & Hld & -> & Hp & Hb & _); try tauto. cbn [bind]. rewrite Hld. cbn [bind e_prev deref].
  rewrite putBefore_at by exact Hp. exact Hb.
Qed.

Lemma MoveAfter_ok h s l xs i m v w : stands_for h s -> al_lists s !! l = Some xs -> al_values s !! i = Some v -> al_values s !! m = Some w ->
  exists h', MoveAfter h l (PElem i) (PElem m) = Ok h' /\
    stands_for h' (if decide ((i <> m /\ m ∈ xs.*1) /\ i ∈ xs.*1) then setList s l (putAfter m (i, v) (without i xs)) else s).
Proof.
  intros Hs HA Hv Hw. unfold MoveAfter. rewrite (beside_guard h s l xs i m v w _ Hs HA Hv Hw). case_decide as Hd; [|eauto].
  destruct (move_beside h s l xs i m v w) as (h1 & p & q & -> & _ & -> & Hp & _ & Ha); try tauto. cbn [bind].
  rewrite putAfter_at by exact Hp. exact Ha.
Qed.

(** *** New elements at their places *)

Lemma PushFront_ok h s l xs v : stands_for h s -> al_lists s !! l = Some xs ->
  exists h', PushFront h l v = Ok (h', PElem (al_fresh s)) /\ stands_for h' (addAll s l ((al_fresh s, v) :: xs) [(al_fresh s, v)]).
Proof.
  intros Hs HA. unfold PushFront. rewrite (lazyInit_ok h _ l xs (sf_lists _ _ Hs) HA). exact (place_new h s Hs l [] xs v HA).
Qed.

Lemma PushBack_ok h s l xs v : stands_for h s -> al_lists s !! l = Some xs ->
  exists h', PushBack h l v = Ok (h', PElem (al_fresh s)) /\ stands_for h' (addAll s l (xs ++ [(al_fresh s, v)]) [(al_fresh s, v)]).
Proof.
  intros Hs HA. unfold PushBack. rewrite (lazyInit_ok h _ l xs (sf_lists _ _ Hs) HA). cbn [bind].
  destruct (load_root h _ l xs (sf_lists _ _ Hs) HA) as [z ->]. cbn [bind e_prev deref].
  apply (place_new h s Hs l xs [] v). rewrite app_nil_r. exact HA.
Qed.

Lemma Insert_ok h s l xs m v w : stands_for h s -> al_lists s !! l = Some xs -> al_values s !! m = Some w ->
  (exists h', InsertBefore h l v (PElem m) = Ok (h', if decide (m ∈ xs.*1) then Some (PElem (al_fresh s)) else None) /\
     stands_for h' (if decide (m ∈ xs.*1) then addAll s l (putBefore m (al_fresh s, v) xs) [(al_fresh s, v)] else s)) /\
  (exists h', InsertAfter h l v (PElem m) = Ok (h', if decide (m ∈ xs.*1) then Some (PElem (al_fresh s)) else None) /\
     stands_for h' (if decide (m ∈ xs.*1) then addAll s l (putAfter m (al_fresh s, v) xs) [(al_fresh s, v)] else s)).
Proof.
  intros Hs HA Hw. unfold InsertBefore, InsertAfter. destruct (sf_guard h s l xs m w Hs HA Hw) as (el & Hld & _ & Hg).
  destruct (decide (m ∈ xs.*1)) as [Hm|Hm]; [|rewrite Hld; cbn [bind]; rewrite Hg, bool_decide_eq_false_2 by exact Hm; split; eauto].
  destruct (sf_position h s Hs l xs m w HA Hw Hm) as (a & b & -> & Ha & _ & _). rewrite putBefore_at, putAfter_at by exact Ha.
  rewrite (load_elem h _ l a b m w (sf_lists _ _ Hs) HA) in *. cbn [bind e_list e_prev deref]. rewrite bool_decide_eq_true_2 by reflexivity. cbn [negb]. split.
  - destruct (place_new h s Hs l a ((m, w) :: b) v HA) as (h' & -> & Hs'). cbn. eauto.
  - destruct (place_new h s Hs l (a ++ [(m, w)]) b v) as (h' & E & Hs'); [rewrite HA, <- app_assoc; reflexivity|].
    rewrite before_last in E. rewrite E. rewrite <- app_assoc in Hs'. cbn. eauto.
Qed.

(** *** Copies of lists *)

Lemma addAll_cons s l xs ys x new : addAll (addAll s l ys [x]) l xs new = addAll s l xs (x :: new).
Proof. unfold addAll. cbn [al_lists al_values al_fresh foldl length]. rewrite insert_insert_eq. f_equal. lia. Qed.

Lemma pushBackLoop_ok l o rest : forall h s pre extra xs, stands_for h s -> al_lists s !! l = Some xs -> al_lists s !! o = Some (pre ++ rest ++ extra) ->
  exists h', pushBackLoop h l (length rest) (head (elems (rest ++ extra))) = Ok h' /\
    stands_for h' (addAll s l (xs ++ copies (al_fresh s) rest) (copies (al_fresh s) rest)).
Proof.
  induction rest as [|[i v] rest IH]; intros h s pre extra xs Hs HA HO.
  { exists h. split; [reflexivity|]. unfold addAll. cbn [copies foldl length]. rewrite app_nil_r, insert_id, Z.add_0_r by exact HA. destruct s. exact Hs. }
  cbn [length app elems map head fst pushBackLoop bind deref]. rewrite (load_elem h _ o pre (rest ++ extra) i v (sf_lists _ _ Hs) HO). cbn [bind e_Value].
  destruct (load_root h _ l xs (sf_lists _ _ Hs) HA) as [z ->]. cbn [bind e_prev deref].
  destruct (place_new h s Hs l xs [] v) as (h1 & -> & H1); [rewrite app_nil_r; exact HA|]. cbn [bind].
  set (s1 := addAll s l (xs ++ [(al_fresh s, v)]) [(al_fresh s, v)]) in *.
  assert (HO1 : exists extra', al_lists s1 !! o = Some ((pre ++ [(i, v)]) ++ rest ++ extra')).
  { unfold s1. cbn [al_lists addAll]. destruct (decide (o = l)) as [->|Hne].
    - rewrite lookup_insert_eq. exists (extra ++ [(al_fresh s, v)]). rewrite HA in HO. injection HO as ->. f_equal. rewrite <- !app_assoc. cbn [app]. rewrite <- app_assoc. reflexivity.
    - rewrite lookup_insert_ne by congruence. exists extra. rewrite HO, <- app_assoc. reflexivity. }
  destruct HO1 as [extra' HO1]. rewrite (Next_ok h1 _ o pre (rest ++ extra') i v (sf_lists _ _ H1)) by (rewrite HO1, <- app_assoc; reflexivity). cbn [bind].
  destruct (IH h1 s1 _ extra' _ H1 (lookup_insert_eq _ _ _) HO1) as (h' & E & H'). exists h'. split; [exact E|].
  unfold s1 in H' at 1. rewrite addAll_cons, <- app_assoc in H'. exact H'.
Qed.

Lemma pushFrontLoop_ok l o rest : forall h s extra post xs, stands_for h s -> al_lists s !! l = Some xs -> al_lists s !! o = Some (extra ++ rev rest ++ post) ->
  exists h', pushFrontLoop h l (length rest) (list.last (elems (extra ++ rev rest))) = Ok h' /\
    stands_for h' (addAll s l (rev (copies (al_fresh s) rest) ++ xs) (copies (al_fresh s) rest)).
Proof.
  induction rest as [|[i v] rest IH]; intros h s extra post xs Hs HA HO.
  { exists h. split; [reflexivity|]. unfold addAll. cbn [copies foldl length rev app]. rewrite insert_id, Z.add_0_r by exact HA. destruct s. exact Hs. }
  cbn [rev] in HO |- *. rewrite app_assoc, elems_app. cbn [elems map fst]. rewrite last_snoc. cbn [length pushFrontLoop bind deref].
  replace (extra ++ (rev rest ++ [(i, v)]) ++ post) with ((extra ++ rev rest) ++ (i, v) :: post) in HO by (rewrite <- !app_assoc; reflexivity).
  rewrite (load_elem h _ o (extra ++ rev rest) post i v (sf_lists _ _ Hs) HO). cbn [bind e_Value].
  destruct (place_new h s Hs l [] xs v HA) as (h1 & Ei & H1). change (before l []) with (PRoot l) in Ei. rewrite Ei. cbn [bind app] in *.
  set (s1 := addAll s l ((al_fresh s, v) :: xs) [(al_fresh s, v)]) in *.
  assert (HO1 : exists extra', al_lists s1 !! o = Some (extra' ++ rev rest ++ (i, v) :: post)).
  { unfold s1. cbn [al_lists addAll]. destruct (decide (o = l)) as [->|Hne].
    - rewrite lookup_insert_eq. exists ((al_fresh s, v) :: extra). rewrite HA in HO. injection HO as ->. f_equal. cbn [app]. rewrite <- !app_assoc. reflexivity.
    - rewrite lookup_insert_ne by congruence. exists extra. rewrite HO, <- app_assoc. reflexivity. }
  destruct HO1 as [extra' HO1]. rewrite (Prev_ok h1 _ o (extra' ++ rev rest) post i v (sf_lists _ _ H1)) by (rewrite HO1, <- app_assoc; reflexivity). cbn [bind].
  destruct (IH h1 s1 extra' _ _ H1 (lookup_insert_eq _ _ _) HO1) as (h' & E & H'). exists h'. split; [exact E|].
  unfold s1 in H' at 1. rewrite addAll_cons in H'. cbn [copies rev snd]. rewrite <- app_assoc. exact H'.
Qed.

Lemma PushBackList_ok h s l o xs ys : stands_for h s -> al_lists s !! l = Some xs -> al_lists s !! o = Some ys ->
  exists h', PushBackList h l o = Ok h' /\ stands_for h' (addAll s l (xs ++ copies (al_fresh s) ys) (copies (al_fresh s) ys)).
Proof.
  intros Hs HA HO. unfold PushBackList. rewrite (lazyInit_ok h _ l xs (sf_lists _ _ Hs) HA). cbn [bind].
  rewrite (Front_ok h _ o ys (sf_lists _ _ Hs) HO). cbn [bind]. unfold Len. rewrite (lenOf_ok h _ o ys (sf_lists _ _ Hs) HO), Nat2Z.id.
  replace (head (elems ys)) with (head (elems (ys ++ []))) by (rewrite app_nil_r; reflexivity). apply (pushBackLoop_ok l o ys h s [] [] xs Hs HA). rewrite app_nil_r. exact HO.
Qed.

Lemma PushFrontList_ok h s l o xs ys : stands_for h s -> al_lists s !! l = Some xs -> al_lists s !! o = Some ys ->
  exists h', PushFrontList h l o = Ok h' /\ stands_for h' (addAll s l (rev (copies (al_fresh s) (rev ys)) ++ xs) (copies (al_fresh s) (rev ys))).
Proof.
  intros Hs HA HO. unfold PushFrontList. rewrite (lazyInit_ok h _ l xs (sf_lists _ _ Hs) HA). cbn [bind].
  rewrite (Back_ok h _ o ys (sf_lists _ _ Hs) HO). cbn [bind]. unfold Len. rewrite (lenOf_ok h _ o ys (sf_lists _ _ Hs) HO), Nat2Z.id.
  rewrite <- (length_rev ys). destruct (pushFrontLoop_ok l o (rev ys) h s [] [] xs Hs HA) as (h' & E & H').
  - rewrite rev_involutive, app_nil_r. exact HO.
  - cbn [app] in E. rewrite rev_involutive in E. eauto.
Qed.

(** *** New lists *)

Lemma NewList_ok h s : stands_for h s ->
  exists h', NewList zero h = Ok (h', al_fresh s) /\ stands_for h' (mkLists (<[al_fresh s := []]> (al_lists s)) (al_values s) (al_fresh s + 1)).
Proof.
  intros Hs. unfold NewList, Init, update, load. cbn [bind h_elems h_len h_fresh]. rewrite lookup_insert_eq. cbn [bind h_elems h_len h_fresh].
  rewrite lookup_insert_eq. cbn [bind h_elems h_len h_fresh set_len]. rewrite !insert_insert_eq. rewrite (sf_fresh _ _ Hs).
  eexists. split; [reflexivity|]. unfold set_len. cbn [h_elems h_len h_fresh]. rewrite insert_insert_eq. set (f := h_fresh h). set (root := set_prev _ _). pose proof (sf_lists _ _ Hs) as R.
  set (h' := mkHeap _ _ _). assert (Hsame : forall p, p <> PRoot f -> h_elems h' !! p = h_elems h !! p) by (intros p Hp; apply lookup_insert_ne; congruence).
  assert (Hroot : h_elems h' !! PRoot f = Some root) by apply lookup_insert_eq.
  split; [|intros i; unfold valueOf; rewrite Hsame by discriminate; apply Hs | reflexivity]. split; cbn [al_lists].
  - intros l xs [[<- <-]|[Hne HA]]%lookup_insert_Some.
    + split; [unfold ring; cbn [elems map app links]; unfold nextOf, prevOf; rewrite Hroot; auto | constructor | apply lookup_insert_eq | intros i v []%elem_of_nil|].
      unfold listOf. rewrite Hroot. cbn. eauto.
    + pose proof (rp_holds _ _ R _ _ HA) as Hh. apply (holds_frame h h'); [exact Hh | | apply lookup_insert_ne; congruence].
      intros p Hp. unfold nextOf, prevOf, listOf, valueOf. rewrite Hsame; [auto|].
      intros ->. apply elem_of_cons in Hp as [[= Hl]|(? & ? & [=] & _)%elem_of_elems]. congruence.
  - intros p l. unfold listOf. destruct (decide (p = PRoot f)) as [->|Hp]; [rewrite Hroot; discriminate|]. rewrite Hsame by exact Hp. intros Hl.
    destruct (rp_owned _ _ R _ _ Hl) as (i & xs & -> & HA & Hi). exists i, xs. split_and!; [reflexivity | | exact Hi].
    rewrite lookup_insert_ne; [exact HA|]. intros <-. pose proof (hd_root _ _ _ (rp_holds _ _ R _ _ HA)) as [Hs' _].
    apply (rp_fresh _ _ R) in Hs'. unfold f in Hs'. lia.
  - destruct (rp_fresh _ _ R) as [F1 F2]. cbn [h_fresh h']. split; intros j Hj.
    + rewrite Hsame in Hj by discriminate. specialize (F1 j Hj). cbn. lia.
    + destruct (decide (j = f)) as [->|Hne]; [cbn; lia|]. rewrite Hsame in Hj by congruence. specialize (F2 j Hj). cbn. unfold f. lia.
Qed.

(** *** All operations *)

(** The lists and the elements that a step looks up. *)
Ltac looked_up E := repeat match type of E with context [?r ≫= _] => destruct r eqn:?; [|discriminate E]; cbn [mbind option_bind] in E end.
Ltac by_lemma L := edestruct L as (h' & Heq & Hrep); [eassumption ..|]; exists h'; rewrite Heq; cbn [bind]; split; [reflexivity | exact Hrep].

Lemma step_refines h s o s' a : stands_for h s -> listStep s o = Some (s', a) -> exists h', heapStep h o = Ok (h', a) /\ stands_for h' s'.
Proof.
  intros Hs. destruct o as [|l|l|l|i|i|l i|l v|l v|l v m|l v m|l i|l i|l i m|l i m|l o|l o]; cbn [listStep heapStep]; unfold move, add; intros E; looked_up E.
  - injection E as <- <-. by_lemma NewList_ok.
  - injection E as <- <-. unfold Len. erewrite lenOf_ok by (apply Hs || eassumption). eauto.
  - injection E as <- <-. erewrite Front_ok by (apply Hs || eassumption). cbn. eauto.
  - injection E as <- <-. erewrite Back_ok by (apply Hs || eassumption). cbn. eauto.
  - injection E as <- <-. edestruct neighbours_ok as [-> _]; [eassumption ..|]. cbn. eauto.
  - injection E as <- <-. edestruct neighbours_ok as [_ ->]; [eassumption ..|]. cbn. eauto.
  - injection E as <- <-. by_lemma Remove_ok.
  - injection E as <- <-. by_lemma PushFront_ok.
  - injection E as <- <-. by_lemma PushBack_ok.
  - edestruct Insert_ok as [(h' & Heq & Hrep) _]; [eassumption ..|]. exists h'. rewrite Heq. cbn [bind]. case_decide; injection E as <- <-; auto.
  - edestruct Insert_ok as [_ (h' & Heq & Hrep)]; [eassumption ..|]. exists h'. rewrite Heq. cbn [bind]. case_decide; injection E as <- <-; auto.
  - injection E as <- <-. by_lemma MoveToFront_ok.
  - injection E as <- <-. by_lemma MoveToBack_ok.
  - destruct (al_values s !! i) as [vi|] eqn:Hv; [cbn [mbind option_bind] in E | case_decide; discriminate E]. edestruct MoveBefore_ok as (h' & -> & Hrep); [eassumption ..|]. exists h'. cbn [bind].
    repeat case_decide; injection E as <- <-; first [tauto | split; [reflexivity | exact Hrep]].
  - destruct (al_values s !! i) as [vi|] eqn:Hv; [cbn [mbind option_bind] in E | case_decide; discriminate E]. edestruct MoveAfter_ok as (h' & -> & Hrep); [eassumption ..|]. exists h'. cbn [bind].
    repeat case_decide; injection E as <- <-; first [tauto | split; [reflexivity | exact Hrep]].
  - injection E as <- <-. by_lemma (PushBackList_ok h s l o).
  - injection E as <- <-. by_lemma (PushFrontList_ok h s l o).
Qed.

Lemma run_refines os : forall h s s' rs, stands_for h s -> listRun s os = Some (s', rs) -> exists h', heapRun h os = Ok (h', rs) /\ stands_for h' s'.
Proof.
  induction os as [|o os IH]; intros h s s' rs Hs; cbn [listRun heapRun].
  - intros [= <- <-]. eauto.
  - destruct (listStep s o) as [[s1 a]|] eqn:E; [|discriminate]. cbn [mbind option_bind].
    destruct (listRun s1 os) as [[s2 rs2]|] eqn:E2; [|discriminate]. intros [= <- <-].
    destruct (step_refines h s o s1 a Hs E) as (h1 & -> & H1). cbn [bind]. destruct (IH h1 s1 s2 rs2 H1 E2) as (h' & -> & H'). cbn. eauto.
Qed.

Lemma nothing_stands : stands_for noHeap noLists.
Proof. split; [|intros i; reflexivity | reflexivity]. split; [intros l xs [=] | intros p l [=] | split; intros i [? [=]]]. Qed.

(** C29: The ring of elements implements lists: a program that creates lists, walks through them, adds, inserts,
    removes and moves elements and copies lists, also a list into itself, runs without a nil dereference as long
    as it names lists and elements that it created, gets the answers it gets from plain lists, and leaves rings
    of exactly their contents. *)
Theorem linked_list_refines os s rs : listRun noLists os = Some (s, rs) ->
  exists h, heapRun noHeap os = Ok (h, rs) /\ represents h (al_lists s) /\
    forall l xs, al_lists s !! l = Some xs -> Len h l = Z.of_nat (length xs) /\ Front h l = Ok (head (elems xs)) /\ Back h l = Ok (list.last (elems xs)).
Proof.
  intros E. destruct (run_refines os noHeap noLists s rs nothing_stands E) as (h & Hr & Hs). exists h. split; [exact Hr|]. split; [apply Hs|].
  intros l xs HA. unfold Len. erewrite lenOf_ok, Front_ok, Back_ok by (apply Hs || exact HA). auto.
Qed.
End spec.

(** Two lists: elements are inserted and moved, one list is copied into the other and then into itself. *)
Definition sampleProgram : list (list_op (V := Z)) :=
  [LNew; LPushBack 0 10; LPushBack 0 20; LPushFront 0 5; LNew; LPushBackList 4 0; LMoveToFront 0 2; LInsertBefore 0 7 1; LRemove 0 3; LMoveAfter 0 2 1;
   LNext 1; LPrev 3; LPushBackList 0 0; LPushFrontList 4 4; LLen 4; LBack 0; LInsertAfter 4 9 1].
Lemma linked_list_refines_witness :
  exists h rs, heapRun 0 noHeap sampleProgram = Ok (h, rs) /\ Len h 0 = 6 /\ Len h 4 = 6 /\
    rs !! 10%nat = Some (RElem (Some (PElem 2))) /\ rs !! 11%nat = Some (RElem None) /\ rs !! 16%nat = Some (RElem None).
Proof.
  destruct (listRun noLists sampleProgram) as [[s rs]|] eqn:E; [|vm_compute in E; discriminate E].
  destruct (linked_list_refines 0 sampleProgram s rs E) as (h & Hr & _ & Hl). exists h, rs.
  vm_compute in E. injection E as <- <-. destruct (Hl 0 _ eq_refl) as [L0 _]. destruct (Hl 4 _ eq_refl) as [L4 _].
  split; [exact Hr|]. rewrite L0, L4. split_and!; reflexivity.
Defined.
