(* ===== verification/H2Request.v ===== *)
(** * Requests and responses of HTTP/2 over QUIC (h2quic/request.go, request_writer.go, response.go)

    How a request becomes header fields, and how the server makes a request of them; the
    same for responses.  A text is the list of its bytes.  [http.Header] is a map; the order of an
    iteration over it is an argument.  The functions of golang.org/x/net and net/url are
    parameters.  Case conversion is that of the ASCII letters, of which the names of header fields are
    made. *)
From S2P Require Import Prelude Qerr ByteOrder Protocol WireStream WireControl Addr.

Abbreviation text := (list Z).
Abbreviation lit := string_bytes.

(** ** Text *)

Definition isUpper (c : Z) : bool := (65 <=? c) && (c <=? 90).
Definition isLower (c : Z) : bool := (97 <=? c) && (c <=? 122).
Definition lowerByte (c : Z) : Z := if isUpper c then c + 32 else c.
Definition upperByte (c : Z) : Z := if isLower c then c - 32 else c.
(** [strings.ToLower]. *)
Definition ToLower (s : text) : text := map lowerByte s.

(** The bytes of a token (net/textproto). *)
Definition validHeaderFieldByte (c : Z) : bool :=
  isUpper c || isLower c || isDigit c || bool_decide (c ∈ lit "!#$%&'*+-.^_`|~").

Fixpoint canonical (upper : bool) (s : text) : text :=
  match s with
  | [] => []
  | c :: s => let c' := if upper then upperByte c else lowerByte c in c' :: canonical (c' =? 45) s
  end.
(** [http.CanonicalHeaderKey]: a text that is no token is left alone. *)
Definition CanonicalHeaderKey (s : text) : text :=
  if forallb validHeaderFieldByte s then canonical true s else s.

(** [strings.Join]. *)
Definition Join : list text -> text -> text := fun l sep => intersperse sep l.

(** [strconv.FormatInt(n, 10)]. *)
Definition FormatInt (n : Z) : text := if n <? 0 then 45 :: decimal (- n) else decimal n.

Definition digitsValue (s : text) : Z := fold_left (fun n c => n * 10 + (c - 48)) s 0.
(** [strconv.ParseInt(s, 10, 64)], which [strconv.Atoi] is too; the message is without the text. *)
Definition ParseInt (s : text) : result Z :=
  let '(neg, digits) := match s with c :: s' => if c =? 45 then (true, s') else if c =? 43 then (false, s') else (false, s) | [] => (false, s) end in
  if bool_decide (digits = []) || negb (forallb isDigit digits) then Err (errors_New "strconv.ParseInt: invalid syntax")
  else
  let n := if neg then - digitsValue digits else digitsValue digits in
  if (- 2 ^ 63 <=? n) && (n <? 2 ^ 63) then Ok n else Err (errors_New "strconv.ParseInt: value out of range").

(** ** Headers *)

Abbreviation Header := (gmap text (list text)).
Definition Header_values (h : Header) (key : text) : list text := default [] (h !! key).
Definition Header_Get (h : Header) (key : text) : text := default [] (head (Header_values h (CanonicalHeaderKey key))).
Definition Header_Add (h : Header) (key value : text) : Header :=
  <[CanonicalHeaderKey key := Header_values h (CanonicalHeaderKey key) ++ [value]]> h.
Definition Header_Set (h : Header) (key value : text) : Header := <[CanonicalHeaderKey key := [value]]> h.
Definition Header_Del (h : Header) (key : text) : Header := delete (CanonicalHeaderKey key) h.

(** [hpack.HeaderField]; a pseudo header starts with a colon. *)
Record HeaderField : Type := mkField { hf_Name : text; hf_Value : text }.
Definition IsPseudo (f : HeaderField) : bool := match hf_Name f with c :: _ => c =? colon | [] => false end.

(** What is used of net/url and golang.org/x/net. *)
Class WebLibs : Type := {
  URL : Type;
  url_Parse : text -> result URL;
  url_RequestURI : URL -> text;
  url_Scheme : URL -> text;
  url_Host : URL -> text;
  url_Opaque : URL -> text;
  ValidHeaderFieldName : text -> bool;
  ValidHeaderFieldValue : text -> bool;
  PunycodeHostPort : text -> result text;
  PseudoValue : list HeaderField -> text -> text;
  RegularFields : list HeaderField -> list HeaderField;
}.

Section messages.
Context `{WebLibs}.

(** ** Requests *)

(** The fields that are used; of the body whether there is one. *)
Record Request : Type := mkRequest {
  req_Method : text;
  req_URL : option URL;
  req_Header : Header;
  req_Body : bool;
  req_ContentLength : Z;
  req_Host : text;
  req_RequestURI : text;
}.

(** What the loop over the header fields collects. *)
Record parsed : Type := mkParsed {
  ps_path : text;
  ps_authority : text;
  ps_method : text;
  ps_contentLength : text;
  ps_headers : Header;
}.

Definition parseField (p : parsed) (h : HeaderField) : parsed :=
  let name := hf_Name h in
  let value := hf_Value h in
  if bool_decide (name = lit ":path") then mkParsed value (ps_authority p) (ps_method p) (ps_contentLength p) (ps_headers p)
  else if bool_decide (name = lit ":method") then mkParsed (ps_path p) (ps_authority p) value (ps_contentLength p) (ps_headers p)
  else if bool_decide (name = lit ":authority") then mkParsed (ps_path p) value (ps_method p) (ps_contentLength p) (ps_headers p)
  else if bool_decide (name = lit "content-length") then mkParsed (ps_path p) (ps_authority p) (ps_method p) value (ps_headers p)
  else if IsPseudo h then p
  else mkParsed (ps_path p) (ps_authority p) (ps_method p) (ps_contentLength p) (Header_Add (ps_headers p) name value).

(** Several cookies are one header. *)
Definition joinCookies (h : Header) : Header :=
  match Header_values h (lit "Cookie") with
  | [] => h
  | cookies => Header_Set h (lit "Cookie") (Join cookies (lit "; "))
  end.

Definition requestFromHeaders (headers : list HeaderField) : result Request :=
  let p := fold_left parseField headers (mkParsed [] [] [] [] ∅) in
  let httpHeaders := joinCookies (ps_headers p) in
  if bool_decide (ps_path p = []) || bool_decide (ps_authority p = []) || bool_decide (ps_method p = [])
  then Err (errors_New ":path, :authority and :method must not be empty")
  else
  let* u := url_Parse (ps_path p) in
  let* contentLength := if bool_decide (ps_contentLength p = []) then Ok 0 else ParseInt (ps_contentLength p) in
  Ok (mkRequest (ps_method p) (Some u) httpHeaders false contentLength (ps_authority p) (ps_path p)).

Definition hostnameFromRequest (req : Request) : text :=
  if negb (bool_decide (req_Host req = [])) then req_Host req
  else match req_URL req with Some u => url_Host u | None => [] end.

(** *** What the client writes *)

Definition shouldSendReqContentLength (method : text) (contentLength : Z) : bool :=
  if contentLength >? 0 then true
  else if contentLength <? 0 then false
  else bool_decide (method = lit "POST") || bool_decide (method = lit "PUT") || bool_decide (method = lit "PATCH").

Definition validPseudoPath (v : text) : bool :=
  match v with
  | c :: v' => ((c =? 47) && match v' with [] => true | c' :: _ => negb (c' =? 47) end) || bool_decide (v = lit "*")
  | [] => false
  end.

Definition actualContentLength (req : Request) : Z :=
  if negb (req_Body req) then 0 else if negb (req_ContentLength req =? 0) then req_ContentLength req else -1.

(** [strings.TrimPrefix]. *)
Definition TrimPrefix (s prefix : text) : text := if bool_decide (prefix `prefix_of` s) then drop (length prefix) s else s.

Definition defaultUserAgent : text := lit "quic-go".

(** The headers that are not sent: the host and the content length, which are sent otherwise, and those of a
    connection. *)
Definition notSent (lowKey : text) : bool :=
  bool_decide (lowKey ∈ [lit "host"; lit "content-length"; lit "connection"; lit "proxy-connection"; lit "transfer-encoding"; lit "upgrade"; lit "keep-alive"]).

(** The fields of one entry of the map. *)
Definition entryFields (e : text * list text) : list HeaderField :=
  let lowKey := ToLower e.1 in
  if notSent lowKey then []
  else
  let vv := if bool_decide (lowKey = lit "user-agent")
            then match e.2 with [] => [] | v :: _ => if bool_decide (v = []) then [] else [v] end
            else e.2 in
  map (mkField lowKey) vv.

(** A nil URL is dereferenced. *)
Definition needURL (req : Request) : result URL := match req_URL req with Some u => Ok u | None => Panic end.

(** The fields for the path and the scheme, which a CONNECT does not have. *)
Definition pathFields (req : Request) (host : text) : result (list HeaderField) :=
  if bool_decide (req_Method req = lit "CONNECT") then Ok []
  else
  let* u := needURL req in
  let fields path := Ok [mkField (lit ":path") path; mkField (lit ":scheme") (url_Scheme u)] in
  let path := url_RequestURI u in
  if validPseudoPath path then fields path
  else
  let path := TrimPrefix path (url_Scheme u ++ lit "://" ++ host) in
  if validPseudoPath path then fields path
  else if negb (bool_decide (url_Opaque u = [])) then Err (errors_New "invalid request :path from URL.Opaque")
  else Err (errors_New "invalid request :path").

Definition invalidEntry (e : text * list text) : option error :=
  if negb (ValidHeaderFieldName e.1) then Some (errors_New "invalid HTTP header name")
  else if negb (forallb ValidHeaderFieldValue e.2) then Some (errors_New "invalid HTTP header value") else None.

(** [order1] and [order2] are the entries of the headers in the orders of the two loops. *)
Definition encodeHeaders (req : Request) (order1 order2 : list (text * list text)) (addGzipHeader : bool) (trailers : text)
    (contentLength : Z) : result (list HeaderField) :=
  let* host := if bool_decide (req_Host req = []) then let* u := needURL req in Ok (url_Host u) else Ok (req_Host req) in
  let* host := PunycodeHostPort host in
  let* path := pathFields req host in
  match head (omap invalidEntry order1) with
  | Some e => Err e
  | None =>
      let didUA := existsb (fun e => bool_decide (ToLower e.1 = lit "user-agent")) order2 in
      Ok ([mkField (lit ":authority") host; mkField (lit ":method") (req_Method req)] ++ path ++
          (if bool_decide (trailers = []) then [] else [mkField (lit "trailer") trailers]) ++
          concat (map entryFields order2) ++
          (if shouldSendReqContentLength (req_Method req) contentLength then [mkField (lit "content-length") (FormatInt contentLength)] else []) ++
          (if addGzipHeader then [mkField (lit "accept-encoding") (lit "gzip")] else []) ++
          (if didUA then [] else [mkField (lit "user-agent") defaultUserAgent]))
  end.

(** The HEADERS frames on the header stream; the fields stand for the block that HPACK makes of them. *)
Record HeadersFrame : Type := mkHeaders {
  hf_StreamID : Z;
  hf_EndHeaders : bool;
  hf_EndStream : bool;
  hf_Fields : list HeaderField;
}.

(** The error of [encodeHeaders] is dropped: the buffer is empty then. *)
Definition WriteRequest (req : Request) (order1 order2 : list (text * list text)) (dataStreamID : Z) (endStream requestGzip : bool) :
    result HeadersFrame :=
  match encodeHeaders req order1 order2 requestGzip [] (actualContentLength req) with
  | Ok fields => Ok (mkHeaders (dataStreamID mod 2 ^ 32) true endStream fields)
  | Err _ => Ok (mkHeaders (dataStreamID mod 2 ^ 32) true endStream [])
  | Panic => Panic
  end.

(** ** Responses *)

Record Response : Type := mkResponse {
  res_StatusCode : Z;
  res_Status : text;
  res_Header : Header;
  res_Trailer : list text;
  res_ContentLength : Z;
}.

(** [textproto.TrimString]: spaces, tabs and ends of lines. *)
Definition isSpace (c : Z) : bool := (c =? 32) || (c =? 9) || (c =? 10) || (c =? 13).
Fixpoint trimLeft (s : text) : text := match s with c :: s' => if isSpace c then trimLeft s' else s | [] => [] end.
Definition TrimString (s : text) : text := rev (trimLeft (rev (trimLeft s))).

(** [strings.Split(v, ",")]. *)
Fixpoint splitComma (cur s : text) : list text :=
  match s with
  | [] => [rev cur]
  | c :: s => if c =? 44 then rev cur :: splitComma [] s else splitComma (c :: cur) s
  end.

(** The elements that the function is called with. *)
Definition foreachHeaderElement (v : text) : list text :=
  let v := TrimString v in
  if bool_decide (v = []) then []
  else if negb (bool_decide (44 ∈ v)) then [v]
  else filter (fun f => f <> []) (map TrimString (splitComma [] v)).

Definition responseField (r : Header * list text) (hf : HeaderField) : Header * list text :=
  let key := CanonicalHeaderKey (hf_Name hf) in
  if bool_decide (key = lit "Trailer")
  then (r.1, r.2 ++ map CanonicalHeaderKey (foreachHeaderElement (hf_Value hf)))
  else (<[key := Header_values r.1 key ++ [hf_Value hf]]> r.1, r.2).

(** [StatusText] is that of net/http; a frame that was not read with a limit is never truncated. *)
Definition responseFromHeaders (StatusText : Z -> text) (truncated : bool) (f : list HeaderField) : result Response :=
  if truncated then Err (errors_New "http2: response header list larger than advertised limit")
  else
  let status := PseudoValue f (lit "status") in
  if bool_decide (status = []) then Err (errors_New "missing status pseudo header")
  else
  match ParseInt status with
  | Ok statusCode =>
      let '(header, trailer) := fold_left responseField (RegularFields f) (∅, []) in
      Ok (mkResponse statusCode (status ++ [32] ++ StatusText statusCode) header trailer 0)
  | Err _ => Err (errors_New "malformed non-numeric status pseudo header")
  | Panic => Panic
  end.

Definition setLength (res : Response) (isHead streamEnded : bool) : Response :=
  if negb streamEnded || isHead then
    let len := match Header_values (res_Header res) (lit "Content-Length") with
               | [clen] => match ParseInt clen with Ok n => n | _ => -1 end
               | _ => -1
               end in
    mkResponse (res_StatusCode res) (res_Status res) (res_Header res) (res_Trailer res) len
  else res.

(** The fields of a response (responseWriter.WriteHeader). *)
Definition responseFields (status : Z) (order : list (text * list text)) : list HeaderField :=
  mkField (lit ":status") (FormatInt status) :: concat (map (fun e => map (mkField (ToLower e.1)) e.2) order).

Definition bodyAllowedForStatus (status : Z) : bool :=
  negb (((100 <=? status) && (status <=? 199)) || (status =? 204) || (status =? 304)).
End messages.
