(* ===== verification/H2RequestProofs.v ===== *)
(** * Requests and responses of HTTP/2 over QUIC survive the header stream *)
From S2P Require Import Prelude Qerr ByteOrder Protocol WireStream WireControl Addr H2Request.

(** ** Numbers as text *)

Lemma digitsValue_app a b : digitsValue (a ++ [b]) = digitsValue a * 10 + (b - 48).
Proof. unfold digitsValue. rewrite fold_left_app. reflexivity. Qed.

Lemma format_base_digits fuel n : 0 <= n ->
  forallb isDigit (format_base fuel 10 n) = true /\ (fuel <> 0%nat -> format_base fuel 10 n <> []) /\
  (n < 10 ^ Z.of_nat fuel -> digitsValue (format_base fuel 10 n) = n).
Proof.
  revert n. induction fuel as [|fuel IH]; intros n Hn; cbn [format_base].
  - split_and!; [reflexivity | congruence|]. cbn. lia.
  - pose proof (Z.mod_pos_bound n 10 ltac:(lia)) as Hm. pose proof (Z.div_mod n 10 ltac:(lia)) as Hd.
    assert (Hdigit : digit (n mod 10) = 48 + n mod 10) by (unfold digit; rewrite (proj2 (Z.ltb_lt _ _)) by lia; reflexivity).
    destruct (IH (n / 10) ltac:(apply Z.div_pos; lia)) as (I1 & _ & I3). rewrite Hdigit. split_and!.
    + rewrite forallb_app. cbn [forallb]. rewrite andb_true_r. apply andb_true_iff. split; [case_match; [reflexivity | exact I1]|].
      unfold isDigit. lia.
    + intros _ E. apply app_eq_nil in E as [_ [=]].
    + intros Hb. rewrite digitsValue_app. destruct (n <? 10) eqn:E10.
      * rewrite Z.mod_small by lia. cbn. lia.
      * rewrite I3; [lia|]. rewrite Nat2Z.inj_succ, Z.pow_succ_r in Hb by lia. apply Z.div_lt_upper_bound; lia.
Qed.

Lemma ParseInt_FormatInt n : 0 <= n < 2 ^ 63 -> ParseInt (FormatInt n) = Ok n /\ FormatInt n <> [].
Proof.
  intros Hn. unfold FormatInt. rewrite (proj2 (Z.ltb_ge n 0)) by lia. unfold decimal.
  destruct (format_base_digits 20 n ltac:(lia)) as (H1 & H2 & H3). specialize (H2 ltac:(lia)). specialize (H3 ltac:(cbn; lia)).
  split; [|exact H2]. unfold ParseInt. set (s := format_base 20 10 n) in *. destruct s as [|c s'] eqn:E; [congruence|].
  assert (Hc : isDigit c = true) by (cbn [forallb] in H1; apply andb_true_iff in H1; tauto). unfold isDigit in Hc.
  rewrite (proj2 (Z.eqb_neq c 45)), (proj2 (Z.eqb_neq c 43)) by lia. rewrite bool_decide_eq_false_2 by congruence. rewrite H1. cbn [negb orb].
  rewrite H3. replace ((- 2 ^ 63 <=? n) && (n <? 2 ^ 63)) with true by lia. reflexivity.
Qed.

(** ** The names of header fields *)

Definition tokenText (s : text) : Prop := forallb validHeaderFieldByte s = true.
(** A key as the maps have it. *)
Definition canonicalKey (k : text) : Prop := tokenText k /\ CanonicalHeaderKey k = k.

Lemma lower_facts c : upperByte (lowerByte c) = upperByte c /\ lowerByte (lowerByte c) = lowerByte c /\ lowerByte (upperByte c) = lowerByte c /\
  validHeaderFieldByte (lowerByte c) = validHeaderFieldByte c.
Proof.
  unfold upperByte, lowerByte, validHeaderFieldByte, isUpper, isLower.
  destruct ((65 <=? c) && (c <=? 90)) eqn:E.
  - replace ((97 <=? c + 32) && (c + 32 <=? 122)) with true by lia. replace ((97 <=? c) && (c <=? 122)) with false by lia.
    replace ((65 <=? c + 32) && (c + 32 <=? 90)) with false by lia. rewrite E. cbn [orb]. split_and!; lia.
  - rewrite E. destruct ((97 <=? c) && (c <=? 122)) eqn:E2; [|rewrite E; auto].
    replace ((65 <=? c - 32) && (c - 32 <=? 90)) with true by lia. split_and!; try reflexivity; lia.
Qed.

Lemma canonical_lower u s : canonical u (ToLower s) = canonical u s.
Proof.
  revert u. induction s as [|c s IH]; intros u; [reflexivity|]. cbn [ToLower map canonical]. fold (ToLower s).
  destruct (lower_facts c) as (E1 & E2 & _). destruct u; rewrite ?E1, ?E2, IH; reflexivity.
Qed.

Lemma token_lower s : tokenText (ToLower s) <-> tokenText s.
Proof.
  unfold tokenText. induction s as [|c s IH]; [reflexivity|]. cbn [ToLower map forallb]. fold (ToLower s).
  destruct (lower_facts c) as (_ & _ & _ & ->). destruct (validHeaderFieldByte c); cbn [andb]; [exact IH | split; discriminate].
Qed.

Lemma canonical_key_lower k : canonicalKey k -> CanonicalHeaderKey (ToLower k) = k.
Proof.
  intros [Ht Hk]. unfold CanonicalHeaderKey in *. pose proof (proj2 (token_lower k) Ht) as Hl. unfold tokenText in *.
  rewrite Hl, canonical_lower. rewrite Ht in Hk. exact Hk.
Qed.

(** Lower case names are equal when the keys are. *)
Lemma lower_inj k k' : canonicalKey k -> canonicalKey k' -> ToLower k = ToLower k' -> k = k'.
Proof. intros H1 H2 E. rewrite <- (canonical_key_lower k H1), <- (canonical_key_lower k' H2), E. reflexivity. Qed.

(** ** Headers *)

Definition valuesFor (K : text) (fs : list HeaderField) : list text :=
  map hf_Value (filter (fun f => CanonicalHeaderKey (hf_Name f) = K) fs).

Lemma valuesFor_app K a b : valuesFor K (a ++ b) = valuesFor K a ++ valuesFor K b.
Proof. unfold valuesFor. rewrite list.filter_app, map_app. reflexivity. Qed.

Lemma valuesFor_map K n vs : valuesFor K (map (mkField n) vs) = if decide (CanonicalHeaderKey n = K) then vs else [].
Proof.
  unfold valuesFor. induction vs as [|v vs IH]; [case_decide; reflexivity|]. cbn [map]. rewrite filter_cons. cbn [hf_Name].
  destruct (decide (CanonicalHeaderKey n = K)) as [E|E]; cbn [map hf_Value]; rewrite IH; reflexivity.
Qed.

Lemma Header_Add_values h k v K : Header_values (Header_Add h k v) K = Header_values h K ++ (if decide (CanonicalHeaderKey k = K) then [v] else []).
Proof.
  unfold Header_Add, Header_values. rewrite lookup_insert. case_decide as E; [subst; reflexivity | rewrite app_nil_r; reflexivity].
Qed.

(** A field that [requestFromHeaders] adds to the headers. *)
Definition regular (f : HeaderField) : Prop := tokenText (hf_Name f) /\ hf_Name f <> lit "content-length".

Lemma parseField_regular p f : regular f ->
  parseField p f = mkParsed (ps_path p) (ps_authority p) (ps_method p) (ps_contentLength p) (Header_Add (ps_headers p) (hf_Name f) (hf_Value f)).
Proof.
  intros [Ht Hn]. unfold parseField. assert (Hc : forall s, hf_Name f <> 58 :: s).
  { intros s E. unfold tokenText in Ht. rewrite E in Ht. cbn in Ht. discriminate Ht. }
  rewrite !bool_decide_eq_false_2 by (exact Hn || apply Hc). unfold IsPseudo. destruct (hf_Name f) as [|c s] eqn:E; [reflexivity|].
  destruct (c =? colon) eqn:Ec; [|reflexivity]. exfalso. apply (Hc s). f_equal. unfold colon in Ec. lia.
Qed.

Lemma parse_regular fs : Forall regular fs -> forall p,
  let p' := fold_left parseField fs p in
  ps_path p' = ps_path p /\ ps_authority p' = ps_authority p /\ ps_method p' = ps_method p /\ ps_contentLength p' = ps_contentLength p /\
  forall K, Header_values (ps_headers p') K = Header_values (ps_headers p) K ++ valuesFor K fs.
Proof.
  induction 1 as [|f fs Hf _ IH]; intros p; cbn [fold_left].
  - split_and!; try reflexivity. intros K. unfold valuesFor. cbn. rewrite app_nil_r. reflexivity.
  - rewrite (parseField_regular p f Hf). destruct (IH (mkParsed (ps_path p) (ps_authority p) (ps_method p) (ps_contentLength p) (Header_Add (ps_headers p) (hf_Name f) (hf_Value f)))) as (H1 & H2 & H3 & H4 & H5).
    cbv zeta in *. split_and!; try assumption. intros K. rewrite H5. cbn [ps_headers]. rewrite Header_Add_values, <- app_assoc. f_equal.
    unfold valuesFor. rewrite filter_cons. case_decide; reflexivity.
Qed.

(** The fields of the entries of a map. *)
Lemma valuesFor_entries (g : text -> list text -> list text) K es : Forall (fun e : text * list text => canonicalKey e.1) es -> NoDup es.*1 ->
  valuesFor K (concat (map (fun e => map (mkField (ToLower e.1)) (g e.1 e.2)) es)) =
  match (list_to_map es : Header) !! K with Some vv => g K vv | None => [] end.
Proof.
  induction es as [|[k vv] es IH]; intros Hc Hn; [reflexivity|]. apply list.Forall_cons in Hc as [Hk Hc]. cbn [fmap list_fmap fst] in Hn.
  apply list.NoDup_cons in Hn as [Hki Hn]. cbn [map concat fst snd list_to_map foldr]. rewrite valuesFor_app, valuesFor_map, IH by assumption.
  cbn [fst] in Hk. rewrite (canonical_key_lower k Hk), lookup_insert. case_decide as E; [|reflexivity]. subst K.
  rewrite (not_elem_of_list_to_map_1 (M := gmap text) es k Hki). apply app_nil_r.
Qed.

(** ** Requests *)

(** What is sent of an entry of the headers. *)
Definition sentValues (k : text) (vv : list text) : list text :=
  if bool_decide (k ∈ [lit "Host"; lit "Content-Length"; lit "Connection"; lit "Proxy-Connection"; lit "Transfer-Encoding"; lit "Upgrade"; lit "Keep-Alive"]) then []
  else if bool_decide (k = lit "User-Agent") then match vv with [] => [] | v :: _ => if bool_decide (v = []) then [] else [v] end
  else vv.

Lemma lower_lit (K L : string) k : canonicalKey k -> canonicalKey (lit K) -> ToLower (lit K) = lit L -> (ToLower k = lit L <-> k = lit K).
Proof. intros Hk HK E. rewrite <- E. split; [apply lower_inj; assumption | intros ->; reflexivity]. Qed.

Ltac canonical_lit := split; vm_compute; reflexivity.

Lemma notSent_lower k : canonicalKey k ->
  notSent (ToLower k) = bool_decide (k ∈ [lit "Host"; lit "Content-Length"; lit "Connection"; lit "Proxy-Connection"; lit "Transfer-Encoding"; lit "Upgrade"; lit "Keep-Alive"]).
Proof.
  intros Hk. unfold notSent. apply bool_decide_ext. rewrite !elem_of_cons, !elem_of_nil.
  rewrite (lower_lit "Host"), (lower_lit "Content-Length"), (lower_lit "Connection"), (lower_lit "Proxy-Connection"), (lower_lit "Transfer-Encoding"),
    (lower_lit "Upgrade"), (lower_lit "Keep-Alive") by (assumption || canonical_lit || (vm_compute; reflexivity)). reflexivity.
Qed.

Lemma entryFields_sent e : canonicalKey e.1 -> entryFields e = map (mkField (ToLower e.1)) (sentValues e.1 e.2).
Proof.
  intros Hk. unfold entryFields, sentValues. rewrite (notSent_lower _ Hk). destruct (bool_decide (e.1 ∈ _)); [reflexivity|].
  rewrite (bool_decide_ext (ToLower e.1 = lit "user-agent") (e.1 = lit "User-Agent")); [reflexivity|].
  apply lower_lit; [exact Hk | canonical_lit | vm_compute; reflexivity].
Qed.

Lemma entryFields_regular e : canonicalKey e.1 -> Forall regular (entryFields e).
Proof.
  intros Hk. apply Forall_forall. intros f Hf. unfold entryFields in Hf. destruct (notSent (ToLower e.1)) eqn:En; [destruct Hf|].
  apply in_map_iff in Hf as (v & <- & _). split; [apply token_lower, Hk|]. cbn [hf_Name]. intros E.
  unfold notSent in En. apply bool_decide_eq_false in En. apply En. rewrite E. set_solver.
Qed.

(** The headers of the request that the server gets. *)
Definition receivedValues (h : Header) (gzip : bool) (K : text) : list text :=
  let vs := match h !! K with Some vv => sentValues K vv | None => [] end ++
            (if gzip && bool_decide (K = lit "Accept-Encoding") then [lit "gzip"] else []) ++
            (if bool_decide (K = lit "User-Agent" /\ h !! K = None) then [defaultUserAgent] else []) in
  if bool_decide (K = lit "Cookie") then match vs with [] => [] | _ => [Join vs (lit "; ")] end else vs.

Lemma joinCookies_values h K : Header_values (joinCookies h) K =
  if bool_decide (K = lit "Cookie") then match Header_values h K with [] => [] | vs => [Join vs (lit "; ")] end else Header_values h K.
Proof.
  unfold joinCookies. case_bool_decide as E.
  - subst K. destruct (Header_values h (lit "Cookie")) as [|v vs] eqn:Ev; [exact Ev|]. unfold Header_Set, Header_values.
    change (CanonicalHeaderKey (lit "Cookie")) with (lit "Cookie"). rewrite lookup_insert_eq. reflexivity.
  - destruct (Header_values h (lit "Cookie")) as [|v vs] eqn:Ev; [reflexivity|]. unfold Header_Set, Header_values.
    change (CanonicalHeaderKey (lit "Cookie")) with (lit "Cookie"). rewrite lookup_insert_ne by congruence. reflexivity.
Qed.

Section roundtrip.
Context `{WebLibs}.

Lemma parse_authority p v : parseField p (mkField (lit ":authority") v) = mkParsed (ps_path p) v (ps_method p) (ps_contentLength p) (ps_headers p).
Proof. reflexivity. Qed.
Lemma parse_method p v : parseField p (mkField (lit ":method") v) = mkParsed (ps_path p) (ps_authority p) v (ps_contentLength p) (ps_headers p).
Proof. reflexivity. Qed.
Lemma parse_path p v : parseField p (mkField (lit ":path") v) = mkParsed v (ps_authority p) (ps_method p) (ps_contentLength p) (ps_headers p).
Proof. reflexivity. Qed.
Lemma parse_scheme p v : parseField p (mkField (lit ":scheme") v) = p.
Proof. reflexivity. Qed.
Lemma parse_length p v : parseField p (mkField (lit "content-length") v) = mkParsed (ps_path p) (ps_authority p) (ps_method p) v (ps_headers p).
Proof. reflexivity. Qed.

(** The fields of the headers, with the content length in between. *)
Lemma parse_entries (h : Header) order : order ≡ₚ map_to_list h -> (forall k, is_Some (h !! k) -> canonicalKey k) ->
  let fs := concat (map entryFields order) in
  Forall regular fs /\ forall K, valuesFor K fs = match h !! K with Some vv => sentValues K vv | None => [] end.
Proof.
  intros Ho Hk fs. assert (Hc : Forall (fun e : text * list text => canonicalKey e.1) order).
  { apply Forall_forall. intros [k vv] Hin%list_elem_of_In. apply Hk. rewrite Ho in Hin. apply elem_of_map_to_list in Hin. cbn. rewrite Hin. eauto. }
  split.
  - unfold fs. clear Ho fs. induction Hc as [|e es He _ IH]; [constructor|]. cbn [map concat]. apply Forall_app. split; [apply entryFields_regular, He | exact IH].
  - intros K. replace fs with (concat (map (fun e => map (mkField (ToLower e.1)) (sentValues e.1 e.2)) order)).
    2:{ unfold fs. f_equal. clear Ho fs. induction Hc as [|e es He _ IH]; [reflexivity|]. cbn [map]. rewrite IH, entryFields_sent by exact He. reflexivity. }
    assert (Hn : NoDup order.*1) by (rewrite Ho; apply NoDup_fst_map_to_list).
    rewrite (valuesFor_entries sentValues K order Hc Hn). rewrite (list_to_map_proper order (map_to_list h) Hn Ho), list_to_map_to_list. reflexivity.
Qed.

Lemma didUA_ok (h : Header) order : order ≡ₚ map_to_list h -> (forall k, is_Some (h !! k) -> canonicalKey k) ->
  existsb (fun e => bool_decide (ToLower e.1 = lit "user-agent")) order = bool_decide (is_Some (h !! lit "User-Agent")).
Proof.
  intros Ho Hk. apply eq_true_iff_eq. rewrite existsb_exists, bool_decide_eq_true. split.
  - intros ([k vv] & Hin%list_elem_of_In & E%bool_decide_eq_true). rewrite Ho in Hin. apply elem_of_map_to_list in Hin. cbn [fst] in E.
    apply (lower_lit "User-Agent") in E as ->; [rewrite Hin; eauto | apply Hk; rewrite Hin; eauto | canonical_lit | vm_compute; reflexivity].
  - intros [vv Hv]. exists (lit "User-Agent", vv). split; [apply list_elem_of_In; rewrite Ho; apply elem_of_map_to_list, Hv|].
    apply bool_decide_eq_true. vm_compute. reflexivity.
Qed.

(** The fields of a request, with the content length between those of its headers. *)
Lemma parse_request host method path scheme regs len rest : Forall regular regs -> Forall regular rest ->
  let p := fold_left parseField (mkField (lit ":authority") host :: mkField (lit ":method") method :: mkField (lit ":path") path :: mkField (lit ":scheme") scheme ::
    regs ++ match len with Some v => [mkField (lit "content-length") v] | None => [] end ++ rest) (mkParsed [] [] [] [] ∅) in
  ps_path p = path /\ ps_authority p = host /\ ps_method p = method /\ ps_contentLength p = default [] len /\
  forall K, Header_values (ps_headers p) K = valuesFor K regs ++ valuesFor K rest.
Proof.
  intros Hr1 Hr2. cbn [fold_left]. rewrite parse_authority, parse_method, parse_path, parse_scheme, !fold_left_app. cbn [ps_path ps_authority ps_method ps_contentLength ps_headers].
  set (p1 := mkParsed _ _ _ _ _). destruct (parse_regular regs Hr1 p1) as (A1 & A2 & A3 & A4 & A5). cbv zeta in *. set (p2 := fold_left parseField regs p1) in *.
  set (p3 := fold_left parseField _ p2).
  assert (H3 : ps_path p3 = path /\ ps_authority p3 = host /\ ps_method p3 = method /\ ps_contentLength p3 = default [] len /\ ps_headers p3 = ps_headers p2).
  { unfold p3. destruct len as [v|]; cbn [fold_left]; [rewrite parse_length|]; cbn; split_and!; assumption || reflexivity. }
  destruct H3 as (B1 & B2 & B3 & B4 & B5). destruct (parse_regular rest Hr2 p3) as (D1 & D2 & D3 & D4 & D5). cbv zeta in *.
  split_and!; try congruence. intros K. rewrite D5, B5, A5. reflexivity.
Qed.

Lemma rest_values (h : Header) (gzip : bool) :
  let rest := (if gzip then [mkField (lit "accept-encoding") (lit "gzip")] else []) ++
    (if bool_decide (is_Some (h !! lit "User-Agent")) then [] else [mkField (lit "user-agent") defaultUserAgent]) in
  Forall regular rest /\ forall K, valuesFor K rest = (if gzip && bool_decide (K = lit "Accept-Encoding") then [lit "gzip"] else []) ++
    (if bool_decide (K = lit "User-Agent" /\ h !! K = None) then [defaultUserAgent] else []).
Proof.
  intros rest. split.
  - apply Forall_app. split; [destruct gzip | destruct (bool_decide _)]; repeat constructor; vm_compute; discriminate || reflexivity.
  - intros K. unfold rest. rewrite valuesFor_app. f_equal.
    + destruct gzip; [|reflexivity]. change [mkField (lit "accept-encoding") (lit "gzip")] with (map (mkField (lit "accept-encoding")) [lit "gzip"]).
      rewrite valuesFor_map. change (CanonicalHeaderKey (lit "accept-encoding")) with (lit "Accept-Encoding"). cbn [andb].
      case_decide; case_bool_decide; congruence.
    + case_bool_decide as Hs; cbn [valuesFor].
      * rewrite bool_decide_eq_false_2; [reflexivity|]. intros [-> Hn]. rewrite Hn in Hs. destruct Hs as [? [=]].
      * change [mkField (lit "user-agent") defaultUserAgent] with (map (mkField (lit "user-agent")) [defaultUserAgent]).
        rewrite valuesFor_map. change (CanonicalHeaderKey (lit "user-agent")) with (lit "User-Agent").
        case_decide as E; case_bool_decide as E2; try reflexivity; [|naive_solver]. exfalso. apply E2. split; [congruence|]. subst K. apply eq_None_not_Some, Hs.
Qed.

(** The path of a URL that goes into the request: without the scheme and the host when they are in front of it. *)
Definition sentPath (u : URL) (host : text) : text :=
  if validPseudoPath (url_RequestURI u) then url_RequestURI u else TrimPrefix (url_RequestURI u) (url_Scheme u ++ lit "://" ++ host).

(** A request that can be sent, with its URL, its host as it is written and the URL of its path: it is not a CONNECT, which has no
    path, its headers are valid and have the keys that [Header.Add] and [Header.Set] give them. *)
Record sendable (req : Request) (u : URL) (host : text) (u' : URL) : Prop := {
  sd_url : req_URL req = Some u;
  sd_host : PunycodeHostPort (hostnameFromRequest req) = Ok host /\ host <> [];
  sd_path : validPseudoPath (sentPath u host) = true /\ url_Parse (sentPath u host) = Ok u';
  sd_method : req_Method req <> [] /\ req_Method req <> lit "CONNECT";
  sd_length : req_ContentLength req < 2 ^ 63;
  sd_keys : forall k, is_Some (req_Header req !! k) -> canonicalKey k;
  sd_valid : forall k vv, req_Header req !! k = Some vv -> ValidHeaderFieldName k = true /\ forallb ValidHeaderFieldValue vv = true;
}.

Lemma sendable_pathFields req u host u' : sendable req u host u' ->
  pathFields req host = Ok [mkField (lit ":path") (sentPath u host); mkField (lit ":scheme") (url_Scheme u)].
Proof.
  intros S. destruct (sd_method _ _ _ _ S) as [_ Hc]. destruct (sd_path _ _ _ _ S) as [Hp _]. unfold pathFields, needURL, sentPath in *.
  rewrite bool_decide_eq_false_2 by exact Hc. rewrite (sd_url _ _ _ _ S). cbn [bind].
  destruct (validPseudoPath (url_RequestURI u)) eqn:E; [reflexivity|]. rewrite Hp. reflexivity.
Qed.

Lemma sendable_headers req u host u' order : sendable req u host u' -> order ≡ₚ map_to_list (req_Header req) -> head (omap invalidEntry order) = None.
Proof.
  intros S Ho. destruct (omap invalidEntry order) as [|e es] eqn:E; [reflexivity|]. exfalso.
  assert (Hin : e ∈ omap invalidEntry order) by (rewrite E; left). apply list_elem_of_omap in Hin as ([k vv] & Hin & He).
  rewrite Ho in Hin. apply elem_of_map_to_list in Hin. destruct (sd_valid _ _ _ _ S _ _ Hin) as [H1 H2].
  unfold invalidEntry in He. cbn [fst snd] in He. rewrite H1, H2 in He. discriminate He.
Qed.

Lemma sent_length method len : (if shouldSendReqContentLength method len then len else 0) = Z.max 0 len.
Proof.
  unfold shouldSendReqContentLength. destruct (Z.gtb_spec len 0); [lia|]. destruct (Z.ltb_spec len 0); [lia|].
  destruct (_ || _); lia.
Qed.

(** C25: A request reaches the server as it was made: from the fields of the HEADERS frame that the client writes, the server
    makes a request with the same method, whose host is that of the request, or of its URL when it names none, in
    Punycode, whose path is that of the URL, and whose content length is that of the request when it has a body of a known length and
    0 otherwise.  Its headers are those of the client but for the host, the content length and the headers of a connection, with all
    cookies in one header, at most one user agent, the default one when there was none, and gzip among the accepted encodings when it was
    asked for; the order in which the client iterates over its headers does not matter.  The request names a method, which is not
    CONNECT, and a host, its path is one the server can parse, and its headers are valid and have canonical keys ([sendable]). *)
Theorem request_roundtrip req u host u' order1 order2 stream endStream gzip : sendable req u host u' ->
  order1 ≡ₚ map_to_list (req_Header req) -> order2 ≡ₚ map_to_list (req_Header req) ->
  exists fs req', WriteRequest req order1 order2 stream endStream gzip = Ok (mkHeaders (stream mod 2 ^ 32) true endStream fs) /\
    requestFromHeaders fs = Ok req' /\ req_Method req' = req_Method req /\
    req_Host req' = host /\ req_RequestURI req' = sentPath u host /\ req_URL req' = Some u' /\
    req_ContentLength req' = Z.max 0 (actualContentLength req) /\
    forall K, Header_values (req_Header req') K = receivedValues (req_Header req) gzip K.
Proof.
  intros S Ho1 Ho. pose proof (sd_keys _ _ _ _ S) as Hk. destruct (sd_method _ _ _ _ S) as [Hm _]. destruct (sd_host _ _ _ _ S) as [Eh Hh].
  destruct (sd_path _ _ _ _ S) as [Hp Hu]. set (path := sentPath u host) in *.
  assert (Hpath : path <> []) by (intros E; rewrite E in Hp; discriminate Hp).
  set (len := actualContentLength req). assert (Hlen : len < 2 ^ 63).
  { pose proof (sd_length _ _ _ _ S). unfold len, actualContentLength. repeat case_match; lia. }
  destruct (parse_entries (req_Header req) order2 Ho Hk) as [Hreg Hvals]. cbv zeta in *. set (regs := concat _) in *.
  set (send := shouldSendReqContentLength (req_Method req) len).
  destruct (rest_values (req_Header req) gzip) as [Hrr Hrv]. cbv zeta in *. set (rest := _ ++ _) in Hrr, Hrv.
  set (fs := mkField (lit ":authority") host :: mkField (lit ":method") (req_Method req) :: mkField (lit ":path") path :: mkField (lit ":scheme") (url_Scheme u) ::
    regs ++ match (if send then Some (FormatInt len) else None) with Some v => [mkField (lit "content-length") v] | None => [] end ++ rest).
  assert (Efs : encodeHeaders req order1 order2 gzip [] len = Ok fs).
  { unfold encodeHeaders. unfold hostnameFromRequest in Eh. rewrite (sd_url _ _ _ _ S) in Eh.
    replace (if bool_decide (req_Host req = []) then let* u := needURL req in Ok (url_Host u) else Ok (req_Host req)) with
      (Ok (if negb (bool_decide (req_Host req = [])) then req_Host req else url_Host u))
      by (unfold needURL; rewrite (sd_url _ _ _ _ S); destruct (bool_decide _); reflexivity).
    cbn [bind]. rewrite Eh. cbn [bind]. rewrite (sendable_pathFields _ _ _ _ S). cbn [bind]. rewrite (sendable_headers _ _ _ _ _ S Ho1).
    rewrite (didUA_ok (req_Header req) order2 Ho Hk). rewrite bool_decide_eq_true_2 by reflexivity. unfold fs, regs, rest, send. cbn [app].
    destruct (shouldSendReqContentLength _ _); reflexivity. }
  destruct (parse_request host (req_Method req) path (url_Scheme u) regs (if send then Some (FormatInt len) else None) rest Hreg Hrr) as (P1 & P2 & P3 & P4 & P5).
  cbv zeta in *. fold fs in P1, P2, P3, P4, P5.
  assert (Hlen' : (if bool_decide (default [] (if send then Some (FormatInt len) else None) = []) then Ok 0 else ParseInt (default [] (if send then Some (FormatInt len) else None)))
    = Ok (Z.max 0 len)).
  { rewrite <- (sent_length (req_Method req)). fold send. destruct send eqn:Es; [|reflexivity].
    assert (Hpos : 0 <= len) by (unfold send, shouldSendReqContentLength in Es; destruct (len >? 0) eqn:E1; [lia|]; destruct (len <? 0) eqn:E2; [discriminate Es | lia]).
    destruct (ParseInt_FormatInt len) as [Hpi Hne]; [lia|]. cbn [default]. change (id ?x) with x. rewrite bool_decide_eq_false_2 by exact Hne. exact Hpi. }
  exists fs. eexists. split; [unfold WriteRequest; fold len; rewrite Efs; reflexivity|].
  split; [unfold requestFromHeaders; rewrite P1, P2, P3, P4, !bool_decide_eq_false_2 by assumption; cbn [orb]; rewrite Hu; cbn [bind]; rewrite Hlen'; reflexivity|].
  cbn [req_Method req_Host req_RequestURI req_URL req_ContentLength req_Header]. split_and!; try reflexivity.
  intros K. rewrite joinCookies_values, P5, Hvals, Hrv. unfold receivedValues. cbv zeta. set (vs := _ ++ _). destruct vs; reflexivity.
Qed.

(** ** Responses *)

Lemma responseField_values fs : forall h0 t0 K, K <> lit "Trailer" ->
  Header_values (fold_left responseField fs (h0, t0)).1 K = Header_values h0 K ++ valuesFor K fs.
Proof.
  induction fs as [|f fs IH]; intros h0 t0 K HK; cbn [fold_left]; [unfold valuesFor; cbn; rewrite app_nil_r; reflexivity|].
  unfold responseField at 2. cbn [fst snd]. unfold valuesFor. rewrite filter_cons. case_bool_decide as E.
  - rewrite IH by exact HK. rewrite decide_False by congruence. reflexivity.
  - rewrite IH by exact HK. unfold Header_values at 1. rewrite lookup_insert. case_decide as E2; [|reflexivity].
    cbn [default map]. change (id ?x) with x. rewrite E2, <- app_assoc. reflexivity.
Qed.

(** What golang.org/x/net documents of the fields of a HEADERS frame. *)
Context (PseudoValue_first : forall name v rest, PseudoValue (mkField (colon :: name) v :: rest) name = v).
Context (RegularFields_rest : forall pre rest, Forall (fun f => IsPseudo f = true) pre -> Forall (fun f => IsPseudo f = false) rest ->
  RegularFields (pre ++ rest) = rest).

(** A response reaches the client as the handler made it: the status and all headers but those that
    announce trailers. *)
Theorem response_roundtrip (StatusText : Z -> text) (status : Z) (h : Header) (order : list (text * list text)) :
  order ≡ₚ map_to_list h -> (forall k, is_Some (h !! k) -> canonicalKey k) -> 0 <= status < 2 ^ 63 ->
  exists res, responseFromHeaders StatusText false (responseFields status order) = Ok res /\ res_StatusCode res = status /\
    forall K, K <> lit "Trailer" -> Header_values (res_Header res) K = Header_values h K.
Proof.
  intros Ho Hk Hst. destruct (ParseInt_FormatInt status Hst) as [Hp Hne].
  assert (Hc : Forall (fun e : text * list text => canonicalKey e.1) order).
  { apply Forall_forall. intros [k vv] Hin%list_elem_of_In. apply Hk. rewrite Ho in Hin. apply elem_of_map_to_list in Hin. cbn. rewrite Hin. eauto. }
  unfold responseFromHeaders, responseFields. set (fs := concat _). change (lit ":status") with (colon :: lit "status"). rewrite PseudoValue_first.
  rewrite bool_decide_eq_false_2 by exact Hne. rewrite Hp.
  change (mkField (colon :: lit "status") (FormatInt status) :: fs) with ([mkField (colon :: lit "status") (FormatInt status)] ++ fs).
  rewrite RegularFields_rest; [|repeat constructor|].
  - destruct (fold_left responseField fs (∅, [])) as [hd tr] eqn:Ef. eexists. split; [reflexivity|]. cbn. split; [reflexivity|]. intros K HK.
    pose proof (responseField_values fs ∅ [] K HK) as Hv. rewrite Ef in Hv. cbn [fst] in Hv. rewrite Hv. unfold Header_values at 1. rewrite lookup_empty. cbn [default app].
    assert (Hn : NoDup order.*1) by (rewrite Ho; apply NoDup_fst_map_to_list). change (id ?x) with x. cbn [app].
    unfold fs. rewrite (valuesFor_entries (fun _ vv => vv) K order Hc Hn). rewrite (list_to_map_proper order (map_to_list h) Hn Ho), list_to_map_to_list. reflexivity.
  - unfold fs. clear Ho Hk fs. induction Hc as [|e es He _ IH]; [constructor|]. cbn [map concat]. apply Forall_app. split; [|exact IH].
    apply Forall_forall. intros f (v & <- & _)%in_map_iff. unfold IsPseudo. cbn [hf_Name]. pose proof (proj2 (token_lower _) (proj1 He)) as Ht. unfold tokenText in Ht.
    destruct (ToLower e.1) as [|c s]; [reflexivity|]. destruct (c =? colon) eqn:Ec; [|reflexivity]. apply Z.eqb_eq in Ec as ->. discriminate Ht.
Qed.
End roundtrip.
