(* ===== verification/H2Server.v ===== *)
(** * The server of HTTP/2 over QUIC (h2quic/server.go, response_writer.go, request_body.go)

    The header stream brings requests; each is handled by a goroutine that writes the response.
    The frames of golang.org/x/net/http2 and the decoder of HPACK are parameters.  What the handler of
    the application does is a list of the calls it makes, in their order, and whether it panics
    then; what happens to the streams is recorded in order. *)
From S2P Require Import Prelude Qerr ByteOrder Protocol WireStream WireControl Addr H2Request.

Section server.
Context `{WebLibs}.

(** ** What happens to the streams *)

Inductive effect : Type :=
| EHeaders (f : HeadersFrame)  (* on the header stream *)
| EWrite (p : list Z)  (* the others on the data stream *)
| ERead
| ECloseRemote (offset : Z)
| EReset
| EClose
| ESleep
| ESessionClose (e : option error).

(** ** The response writer *)

Record responseWriter : Type := mkRW {
  rw_dataStreamID : Z;
  rw_header : Header;
  rw_status : Z;
  rw_headerWritten : bool;
}.

Definition newResponseWriter (dataStreamID : Z) : responseWriter := mkRW dataStreamID ∅ 0 false.

(** The order of the iteration over the headers. *)
Context (order : Header -> list (text * list text)).

Definition WriteHeader (w : responseWriter) (status : Z) : responseWriter * list effect :=
  if rw_headerWritten w then (w, [])
  else (mkRW (rw_dataStreamID w) (rw_header w) status true,
        [EHeaders (mkHeaders (rw_dataStreamID w mod 2 ^ 32) true false (responseFields status (order (rw_header w))))]).

(** The number of bytes that the stream takes is that of its own Write. *)
Definition rw_Write (w : responseWriter) (p : list Z) : responseWriter * list effect * option error :=
  let '(w, effects) := if negb (rw_headerWritten w) then WriteHeader w 200 else (w, []) in
  if negb (bodyAllowedForStatus (rw_status w)) then (w, effects, Some (errors_New "http: request method or response status code does not allow body"))
  else (w, effects ++ [EWrite p], None).

(** ** Handlers *)

Inductive call : Type :=
| CHeader (h : Header)  (* the map that Header returns was changed to this *)
| CWriteHeader (status : Z)
| CWrite (p : list Z)
| CRead.

(** The calls, with the response writer and [requestRead] of the body. *)
Fixpoint runHandler (w : responseWriter) (requestRead : bool) (calls : list call) : responseWriter * bool * list effect :=
  match calls with
  | [] => (w, requestRead, [])
  | c :: calls =>
      let '(w, requestRead, effects) :=
        match c with
        | CHeader h => (mkRW (rw_dataStreamID w) h (rw_status w) (rw_headerWritten w), requestRead, [])
        | CWriteHeader status => let '(w, effects) := WriteHeader w status in (w, requestRead, effects)
        | CWrite p => let '(w, effects, _) := rw_Write w p in (w, requestRead, effects)
        | CRead => (w, true, [ERead])
        end in
      let '(w, requestRead, effects') := runHandler w requestRead calls in
      (w, requestRead, effects ++ effects')
  end.

(** A request that is handled. *)
Record started : Type := mkStarted {
  st_request : Request;
  st_remoteAddr : text;
  st_streamID : Z;
  st_streamEnded : bool;
  st_effects : list effect;
}.

(** The goroutine of the request. *)
Definition serveRequest (CloseAfterFirstRequest : bool) (r : started) (calls : list call) (panicked : bool) : list effect :=
  let '(w, requestRead, effects) := runHandler (newResponseWriter (st_streamID r)) false calls in
  let '(w, effects') := WriteHeader w (if panicked then 500 else 200) in
  effects ++ effects' ++
  (if negb (st_streamEnded r) && negb requestRead then [EReset] else []) ++ [EClose] ++
  (if CloseAfterFirstRequest then [ESleep; ESessionClose None] else []).

(** ** Requests *)

(** What [ReadFrame] returns. *)
Inductive h2frame : Type :=
| FHeaders (streamID : Z) (headersEnded streamEnded : bool) (block : list Z)
| FOther (streamID : Z).

Section requests.
Context {Decoder : Type} (DecodeFull : Decoder -> list Z -> Decoder * result (list HeaderField)).
(** The data stream: there may be none although there is no error. *)
Context (GetOrOpenStream : Z -> result bool).
Context (remoteAddr : text).

Definition handleRequest (dec : Decoder) (frame : result h2frame) : Decoder * result (option started) :=
  match frame with
  | Err _ => (dec, Err (QuicError qerr.HeadersStreamDataDecompressFailure "cannot read frame"))
  | Panic => (dec, Panic)
  | Ok (FOther _) => (dec, Err (QuicError qerr.InvalidHeadersStreamData "expected a header frame"))
  | Ok (FHeaders streamID headersEnded ended block) =>
      if negb headersEnded then (dec, Err (errors_New "http2 header continuation not implemented"))
      else
      let '(dec, headers) := DecodeFull dec block in
      (dec,
       let* headers := headers in
       let* req := requestFromHeaders headers in
       let* dataStream := GetOrOpenStream streamID in
       if negb dataStream then Ok None
       else Ok (Some (mkStarted
         (mkRequest (req_Method req) (req_URL req) (req_Header req) true (req_ContentLength req) (req_Host req) (req_RequestURI req))
         remoteAddr streamID ended (if ended then [ECloseRemote 0; ERead] else []))))
  end.

(** The loop over the header stream: the requests that were started, and the error with which the
    session is closed; [None] when it waits for another frame. *)
Fixpoint requestLoop (dec : Decoder) (frames : list (result h2frame)) : list started * option (result error) :=
  match frames with
  | [] => ([], None)
  | frame :: frames =>
      match handleRequest dec frame with
      | (dec, Ok r) => let '(rs, e) := requestLoop dec frames in (match r with Some r => r :: rs | None => rs end, e)
      | (_, Err e) => ([], Some (Ok e))
      | (_, Panic) => ([], Some Panic)
      end
  end.

Definition handleHeaderStream (newDecoder : Decoder) (accepted : result Z) (frames : list (result h2frame)) : list started * option (result error) :=
  match accepted with
  | Err e => ([], Some (Ok (qerr.Wrap qerr.InvalidHeadersStreamData e)))
  | Panic => ([], Some Panic)
  | Ok streamID =>
      if negb (streamID =? 3) then ([], Some (Ok (QuicError qerr.InternalError "h2quic server BUG: header stream does not have stream ID 3")))
      else requestLoop newDecoder frames
  end.
End requests.

(** ** The server *)

(** [hs_server] is whether there is an [http.Server]; a listener is a number. *)
Record Server : Type := mkServer {
  hs_server : bool;
  hs_port : Z;
  hs_listener : option Z;
  hs_supportedVersionsAsString : text;
}.

(** Up to the loop that accepts sessions; [listen] is the result of [quicListen]. *)
Definition serveImpl (s : Server) (listen : result Z) : Server * result Z :=
  if negb (hs_server s) then (s, Err (errors_New "use of h2quic.Server without http.Server"))
  else
  match hs_listener s with
  | Some _ => (s, Err (errors_New "ListenAndServe may only be called once"))
  | None =>
      match listen with
      | Ok ln => (mkServer (hs_server s) (hs_port s) (Some ln) (hs_supportedVersionsAsString s), Ok ln)
      | Err e => (s, Err e)
      | Panic => (s, Panic)
      end
  end.

(** [close] is what closing the listener returns. *)
Definition h2_Close (s : Server) (close : Z -> option error) : Server * option error :=
  match hs_listener s with
  | Some ln => (mkServer (hs_server s) (hs_port s) None (hs_supportedVersionsAsString s), close ln)
  | None => (s, None)
  end.

(** [lookup] is the port of the address of the server. *)
Definition SetQuicHeaders (s : Server) (lookup : result Z) (hdr : Header) : Server * result Header :=
  match (if hs_port s =? 0 then let* p := lookup in Ok (u32 p) else Ok (hs_port s)) with
  | Err e => (s, Err e)
  | Panic => (s, Panic)
  | Ok port =>
      let versions := match hs_supportedVersionsAsString s with
                      | [] => Join (map FormatInt SupportedVersions) [44]
                      | versions => versions
                      end in
      (mkServer (hs_server s) port (hs_listener s) versions,
       Ok (Header_Add hdr (lit "Alt-Svc") (lit "quic=" ++ [34; colon] ++ decimal port ++ [34] ++ lit "; ma=2592000; v=" ++ [34] ++ versions ++ [34])))
  end.

(** ** What a handler can make of a response *)

(** The status of the response: the first that was written, 200 with the first byte of the body or at the end,
    500 after a panic; and the headers at that time. *)
Fixpoint responseOf (h : Header) (calls : list call) (panicked : bool) : Z * Header :=
  match calls with
  | [] => (if panicked then 500 else 200, h)
  | CHeader h :: calls => responseOf h calls panicked
  | CWriteHeader status :: _ => (status, h)
  | CWrite _ :: _ => (200, h)
  | CRead :: calls => responseOf h calls panicked
  end.
Definition bodyOf (effects : list effect) : list (list Z) := omap (fun e => match e with EWrite p => Some p | _ => None end) effects.
Definition writesOf (calls : list call) : list (list Z) := omap (fun c => match c with CWrite p => Some p | _ => None end) calls.
Definition readsBody (calls : list call) : bool := existsb (fun c => match c with CRead => true | _ => false end) calls.
(** Reads only, and reads and writes. *)
Definition onlyReads (effects : list effect) : Prop := Forall (fun e => e = ERead) effects.
Definition onlyBody (effects : list effect) : Prop := Forall (fun e => e = ERead \/ exists p, e = EWrite p) effects.

(** Once the header is written. *)
Lemma runHandler_written w read calls : rw_headerWritten w = true ->
  exists w' effects, runHandler w read calls = (w', read || readsBody calls, effects) /\ rw_headerWritten w' = true /\ rw_status w' = rw_status w /\
    onlyBody effects /\ bodyOf effects = if bodyAllowedForStatus (rw_status w) then writesOf calls else [].
Proof.
  revert w read. induction calls as [|c calls IH]; intros w read Hw; cbn [runHandler].
  - exists w, []. rewrite orb_false_r. split_and!; try reflexivity; [exact Hw | constructor | case_match; reflexivity].
  - destruct c as [h|status|p|].
    + destruct (IH (mkRW (rw_dataStreamID w) h (rw_status w) (rw_headerWritten w)) read Hw) as (w' & ef & -> & H1 & H2 & H3 & H4). exists w', ef. split_and!; assumption || reflexivity.
    + unfold WriteHeader. rewrite Hw. destruct (IH w read Hw) as (w' & ef & -> & H1 & H2 & H3 & H4). exists w', ef. split_and!; assumption || reflexivity.
    + unfold rw_Write. rewrite Hw. cbn [negb]. destruct (IH w read Hw) as (w' & ef & E & H1 & H2 & H3 & H4).
      destruct (bodyAllowedForStatus (rw_status w)) eqn:Eb; cbn [negb]; rewrite E.
      * exists w', (EWrite p :: ef). split_and!; try assumption; try reflexivity; [constructor; eauto|]. change (p :: bodyOf ef = p :: writesOf calls). rewrite H4. reflexivity.
      * exists w', ef. split_and!; assumption || reflexivity.
    + destruct (IH w true Hw) as (w' & ef & -> & H1 & H2 & H3 & H4). exists w', (ERead :: ef). split_and!; try assumption; [|constructor; auto].
      cbn [readsBody existsb]. destruct read; reflexivity.
Qed.

(** The frame of the response. *)
Definition responseFrame (id : Z) (r : Z * Header) : effect := EHeaders (mkHeaders (id mod 2 ^ 32) true false (responseFields r.1 (order r.2))).

Lemma runHandler_first id calls panicked : forall h read,
  let '(status, h') := responseOf h calls panicked in
  exists w' effects, runHandler (mkRW id h 0 false) read calls = (w', read || readsBody calls, effects) /\
    if rw_headerWritten w'
    then exists pre post, effects = pre ++ responseFrame id (status, h') :: post /\ onlyReads pre /\ onlyBody post /\
           bodyOf post = (if bodyAllowedForStatus status then writesOf calls else [])
    else w' = mkRW id h' 0 false /\ onlyReads effects /\ writesOf calls = [] /\ status = if panicked then 500 else 200.
Proof.
  induction calls as [|c calls IH]; intros h read; cbn [responseOf].
  - exists (mkRW id h 0 false), []. rewrite orb_false_r. split; [reflexivity|]. cbn. split_and!; try reflexivity. constructor.
  - destruct c as [h1|status|p|]; cbn [runHandler].
    + cbn [rw_dataStreamID rw_status rw_headerWritten]. specialize (IH h1 read). destruct (responseOf h1 calls panicked) as [status h'].
      destruct IH as (w' & ef & -> & Hw). exists w', ef. split; [reflexivity | exact Hw].
    + cbn [WriteHeader rw_headerWritten rw_dataStreamID rw_header].
      destruct (runHandler_written (mkRW id h status true) read calls eq_refl) as (w' & ef & -> & H1 & _ & H3 & H4). eexists w', _. split; [reflexivity|].
      rewrite H1. exists [], ef. split_and!; [reflexivity | constructor | exact H3 | exact H4].
    + cbn [rw_Write rw_headerWritten negb WriteHeader rw_dataStreamID rw_header rw_status].
      destruct (runHandler_written (mkRW id h 200 true) read calls eq_refl) as (w' & ef & E & H1 & _ & H3 & H4). unfold rw_Write. cbn. rewrite E.
      eexists w', _. split; [reflexivity|]. rewrite H1. exists [], (EWrite p :: ef). split_and!; [reflexivity | constructor | constructor; eauto|].
      change (p :: bodyOf ef = p :: writesOf calls). rewrite H4. reflexivity.
    + specialize (IH h true). destruct (responseOf h calls panicked) as [status h']. destruct IH as (w' & ef & -> & Hw). exists w', (ERead :: ef).
      split; [cbn; destruct read; reflexivity|]. destruct (rw_headerWritten w').
      * destruct Hw as (pre & post & -> & H1 & H2 & H3). exists (ERead :: pre), post. split_and!; [reflexivity | constructor; auto | exact H2 | exact H3].
      * destruct Hw as (H1 & H2 & H3 & H4). split_and!; auto. constructor; auto.
Qed.

(** C26: Whatever the handler does, one response is sent: exactly one header frame, for the stream of the request,
    with the status and the headers that the handler chose first, 200 when it chose none and 500 when it panicked
    before; what it writes follows the header, all of it in order, unless the status forbids a body; and then the stream is closed,
    after a reset when the body of the request was neither complete nor read. *)
Theorem response_once CloseAfterFirstRequest r calls panicked :
  let '(status, h) := responseOf ∅ calls panicked in
  exists pre post, serveRequest CloseAfterFirstRequest r calls panicked =
      pre ++ responseFrame (st_streamID r) (status, h) :: post ++
      (if negb (st_streamEnded r) && negb (readsBody calls) then [EReset] else []) ++ [EClose] ++
      (if CloseAfterFirstRequest then [ESleep; ESessionClose None] else []) /\
    onlyReads pre /\ onlyBody post /\ bodyOf post = (if bodyAllowedForStatus status then writesOf calls else []).
Proof.
  pose proof (runHandler_first (st_streamID r) calls panicked ∅ false) as Hf. destruct (responseOf ∅ calls panicked) as [status h].
  destruct Hf as (w' & ef & E & Hw). unfold serveRequest, newResponseWriter. rewrite E. cbn [orb]. unfold WriteHeader. destruct (rw_headerWritten w').
  - destruct Hw as (pre & post & -> & H1 & H2 & H3). exists pre, post. split; [|auto]. rewrite <- app_assoc. reflexivity.
  - destruct Hw as (-> & H1 & H3 & ->). exists ef, []. split_and!; [reflexivity | exact H1 | constructor|]. rewrite H3. case_match; reflexivity.
Qed.

(** A panic after the header was written is not seen by the client: the stream is closed as if the response
    were complete. *)
Theorem late_panic_unseen CloseAfterFirstRequest r calls : responseOf ∅ calls true = responseOf ∅ calls false ->
  serveRequest CloseAfterFirstRequest r calls true = serveRequest CloseAfterFirstRequest r calls false.
Proof.
  intros Er. unfold serveRequest, newResponseWriter. pose proof (runHandler_first (st_streamID r) calls true ∅ false) as H1.
  pose proof (runHandler_first (st_streamID r) calls false ∅ false) as H2. rewrite Er in H1. destruct (responseOf ∅ calls false) as [status h].
  destruct H1 as (w1 & e1 & E1 & C1). destruct H2 as (w2 & e2 & E2 & C2). rewrite E1. rewrite E1 in E2. injection E2 as <- <-.
  unfold WriteHeader. destruct (rw_headerWritten w1); [reflexivity|]. exfalso. destruct C1 as (_ & _ & _ & ->). destruct C2 as (_ & _ & _ & [=]).
Qed.
End server.
