(* ===== verification/H2Client.v ===== *)
(** * The client of HTTP/2 over QUIC (h2quic/client.go, roundtrip.go)

    A client has one session.  A goroutine reads the header stream and hands each response to the
    call of [RoundTrip] that waits for it, over a channel without a buffer; the calls run in goroutines of
    their own.  The actions of the goroutines are the steps of the model.  The decoder of HPACK, the frames
    of golang.org/x/net/http2 and idna are parameters. *)
From stdpp Require Import pretty.
From S2P Require Import Prelude Qerr ByteOrder Protocol WireStream WireControl Addr H2Request H2Server.

(** ** Addresses *)

(** Where a byte is in a text, first and last. *)
Fixpoint indexByte (c : Z) (s : text) : option nat :=
  match s with [] => None | c' :: s => if c' =? c then Some 0%nat else S <$> indexByte c s end.
Definition lastByte (c : Z) (s : text) : option nat := (fun i => length s - S i)%nat <$> indexByte c (rev s).

(** [net.SplitHostPort]; [None] for every error. *)
Definition SplitHostPort (hostport : text) : option (text * text) :=
  i ← lastByte colon hostport;
  '(host, j, k) ←
    (if bool_decide (head hostport = Some 91) then
       e ← indexByte 93 hostport;
       if (S e =? i)%nat then Some (drop 1 (take e hostport), 1%nat, S e) else None
     else
       let host := take i hostport in
       if bool_decide (colon ∈ host) then None else Some (host, 0%nat, 0%nat));
  if bool_decide (91 ∈ drop j hostport) || bool_decide (93 ∈ drop k hostport) then None
  else Some (host, drop (S i) hostport).

Section client.
Context `{WebLibs}.
Context (ToASCII : text -> result text) (StatusText : Z -> text).

Definition authorityAddr (scheme authority : text) : text :=
  let '(host, port) := match SplitHostPort authority with
                       | Some hp => hp
                       | None => (authority, if bool_decide (scheme = lit "http") then lit "80" else lit "443")
                       end in
  let host := match ToASCII host with Ok a => a | _ => host end in
  if bool_decide (head host = Some 91) && bool_decide (list.last host = Some 93)
  then host ++ [colon] ++ port else JoinHostPort host port.

(** ** The calls of RoundTrip *)

(** A call that waits in its loop; a response is nil or not, with the stream of its frame, and
    [pd_forget] is between its receipt and the removal of the channel. *)
Record pendingCall : Type := mkPending {
  pd_stream : Z;
  pd_isHead : bool;
  pd_requestedGzip : bool;
  pd_bodySent : bool;
  pd_response : option (Z * option Response);
  pd_forget : bool;
}.

Inductive rtCall : Type :=
| Waiting (p : pendingCall)
| Returned (stream : Z) (res : result Response).

(** The goroutine of the header stream: it sends the response of a frame of [stream] to a call. *)
Inductive headerReader : Type :=
| Reading
| Handing (call stream : Z) (rsp : option Response)
| Stopped.

(** [hc_responses] are the channels, by the call that made them; [hc_closed] are the errors with which
    the session was closed. *)
Record h2client : Type := mkClient {
  hc_responses : gmap Z Z;
  hc_headerErr : option error;
  hc_headerErrored : bool;
  hc_reader : headerReader;
  hc_calls : gmap Z rtCall;
  hc_closed : list error;
}.

Definition h2client0 : h2client := mkClient ∅ None false Reading ∅ [].

Definition set_reader (c : h2client) (r : headerReader) : h2client :=
  mkClient (hc_responses c) (hc_headerErr c) (hc_headerErrored c) r (hc_calls c) (hc_closed c).
Definition set_headerErr (c : h2client) (e : error) : h2client :=
  mkClient (hc_responses c) (Some e) (hc_headerErrored c) (hc_reader c) (hc_calls c) (hc_closed c).
Definition set_call (c : h2client) (i : Z) (r : rtCall) : h2client :=
  mkClient (hc_responses c) (hc_headerErr c) (hc_headerErrored c) (hc_reader c) (<[i := r]> (hc_calls c)) (hc_closed c).
(** The end of [handleHeaderStream]. *)
Definition stopReader (c : h2client) (e : error) : h2client :=
  mkClient (hc_responses c) (Some e) true Stopped (hc_calls c) (hc_closed c).

(** One turn of the loop of [handleHeaderStream], up to the send on the channel; [fields] is what the decoder
    makes of the block. *)
Definition readHeaders (c : h2client) (frame : result h2frame) (fields : result (list HeaderField)) : h2client :=
  match frame with
  | Ok (FHeaders stream _ _ _) =>
      match fields with
      | Ok fs =>
          match hc_responses c !! stream with
          | None => stopReader c (QuicError qerr.InternalError ("h2client BUG: response channel for stream " +:+ pretty stream +:+ " not found"))
          | Some call =>
              match responseFromHeaders StatusText false fs with
              | Ok rsp => set_reader c (Handing call stream (Some rsp))
              | Err e => set_reader (set_headerErr c (qerr.Wrap qerr.InternalError e)) (Handing call stream None)
              | Panic => c
              end
          end
      | _ => stopReader c (QuicError qerr.InvalidHeadersStreamData "cannot read header fields")
      end
  | Ok (FOther _) => stopReader c (QuicError qerr.InvalidHeadersStreamData "not a headers frame")
  | _ => stopReader c (QuicError qerr.HeadersStreamDataDecompressFailure "cannot read frame")
  end.

(** What [RoundTrip] checks before it opens a stream; [hostname] is that of the client. *)
Definition checkRoundTrip (hostname : text) (req : Request) (dial : option error) : result unit :=
  match req_URL req with
  | None => Panic
  | Some u =>
      if negb (bool_decide (url_Scheme u = lit "https")) then Err (errors_New "quic http2: unsupported scheme")
      else if negb (bool_decide (authorityAddr (lit "https") (hostnameFromRequest req) = hostname))
      then Err (errors_New "h2quic Client BUG: RoundTrip called for the wrong client")
      else match dial with Some e => Err e | None => Ok tt end
  end.

Definition requestsGzip (DisableCompression : bool) (req : Request) : bool :=
  negb DisableCompression && bool_decide (Header_Get (req_Header req) (lit "Accept-Encoding") = []) &&
  bool_decide (Header_Get (req_Header req) (lit "Range") = []) && negb (bool_decide (req_Method req = lit "HEAD")).

(** The call [i] opened [stream] and wrote its request, or failed to. *)
Definition startCall (DisableCompression : bool) (c : h2client) (i stream : Z) (req : Request) (written : option error) : h2client :=
  let call := match written with
              | None => Waiting (mkPending stream (bool_decide (req_Method req = lit "HEAD")) (requestsGzip DisableCompression req) (negb (req_Body req)) None false)
              | Some e => Returned stream (Err e)
              end in
  mkClient (<[stream := i]> (hc_responses c)) (hc_headerErr c) (hc_headerErrored c) (hc_reader c) (<[i := call]> (hc_calls c))
    (hc_closed c ++ match written with Some e => [e] | None => [] end).

(** A call that cannot open a stream closes the session, and returns the error. *)
Definition openFails (c : h2client) (e : error) : h2client :=
  mkClient (hc_responses c) (hc_headerErr c) (hc_headerErrored c) (hc_reader c) (hc_calls c) (hc_closed c ++ [e]).

(** The send and the receive on the channel happen together. *)
Definition handOver (c : h2client) : option h2client :=
  match hc_reader c with
  | Handing i stream rsp =>
      match hc_calls c !! i with
      | Some (Waiting p) =>
          if pd_forget p || (pd_bodySent p && bool_decide (is_Some (pd_response p))) then None
          else Some (set_call (set_reader c Reading) i
                 (Waiting (mkPending (pd_stream p) (pd_isHead p) (pd_requestedGzip p) (pd_bodySent p) (Some (stream, rsp)) true)))
      | _ => None
      end
  | _ => None
  end.

(** [delete(c.responses, dataStream.StreamID())]. *)
Definition forget (c : h2client) (i : Z) : option h2client :=
  match hc_calls c !! i with
  | Some (Waiting p) =>
      if pd_forget p then
        let c := set_call c i (Waiting (mkPending (pd_stream p) (pd_isHead p) (pd_requestedGzip p) (pd_bodySent p) (pd_response p) false)) in
        Some (mkClient (delete (pd_stream p) (hc_responses c)) (hc_headerErr c) (hc_headerErrored c) (hc_reader c) (hc_calls c) (hc_closed c))
      else None
  | _ => None
  end.

(** The body was written, or failed with an error. *)
Definition bodyWritten (c : h2client) (i : Z) (e : option error) : option h2client :=
  match hc_calls c !! i with
  | Some (Waiting p) =>
      if pd_forget p || pd_bodySent p then None
      else match e with
           | Some e => Some (set_call c i (Returned (pd_stream p) (Err e)))
           | None => Some (set_call c i (Waiting (mkPending (pd_stream p) (pd_isHead p) (pd_requestedGzip p) true (pd_response p) (pd_forget p))))
           end
  | _ => None
  end.

(** The call sees that the header stream failed. *)
Definition headerFailed (c : h2client) (i : Z) : option h2client :=
  match hc_calls c !! i, hc_headerErr c with
  | Some (Waiting p), Some e =>
      if negb (hc_headerErrored c) || pd_forget p || (pd_bodySent p && bool_decide (is_Some (pd_response p))) then None
      else
        let c := set_call c i (Returned (pd_stream p) (Err e)) in
        Some (mkClient (hc_responses c) (hc_headerErr c) (hc_headerErrored c) (hc_reader c) (hc_calls c) (hc_closed c ++ [e]))
  | _, _ => None
  end.

(** The response that is returned; whether it was uncompressed, or its body is left out, is not recorded. *)
Definition finishResponse (p : pendingCall) (res : Response) : Response :=
  let res := setLength res (pd_isHead p) false in
  if pd_isHead p then res
  else if pd_requestedGzip p && bool_decide (Header_Get (res_Header res) (lit "Content-Encoding") = lit "gzip") then
    mkResponse (res_StatusCode res) (res_Status res) (Header_Del (Header_Del (res_Header res) (lit "Content-Encoding")) (lit "Content-Length"))
      (res_Trailer res) (-1)
  else res.

(** The end of the loop: a nil response is dereferenced. *)
Definition finishCall (c : h2client) (i : Z) : option h2client :=
  match hc_calls c !! i with
  | Some (Waiting p) =>
      if pd_forget p || negb (pd_bodySent p) then None
      else match pd_response p with
           | None => None
           | Some (_, None) => Some (set_call c i (Returned (pd_stream p) Panic))
           | Some (_, Some res) => Some (set_call c i (Returned (pd_stream p) (Ok (finishResponse p res))))
           end
  | _ => None
  end.

(** The steps; a stream is opened once, and a call is made once. *)
Inductive h2step : h2client -> h2client -> Prop :=
| h2_start c dc i stream req written : hc_calls c !! i = None -> hc_responses c !! stream = None ->
    (forall j p, hc_calls c !! j = Some (Waiting p) -> pd_stream p <> stream) -> (forall j r, hc_calls c !! j <> Some (Returned stream r)) ->
    h2step c (startCall dc c i stream req written)
| h2_open c e : h2step c (openFails c e)
| h2_read c frame fields : hc_reader c = Reading -> h2step c (readHeaders c frame fields)
| h2_hand c c' : handOver c = Some c' -> h2step c c'
| h2_forget c i c' : forget c i = Some c' -> h2step c c'
| h2_body c i e c' : bodyWritten c i e = Some c' -> h2step c c'
| h2_failed c i c' : headerFailed c i = Some c' -> h2step c c'
| h2_finish c i c' : finishCall c i = Some c' -> h2step c c'.

(** *** Who gets which response *)

Definition streamOf (r : rtCall) : Z := match r with Waiting p => pd_stream p | Returned s _ => s end.

(** A channel belongs to the call of its stream, and what a call received came on its stream. *)
Record matched (c : h2client) : Prop := {
  mt_channels : forall s i, hc_responses c !! s = Some i -> streamOf <$> hc_calls c !! i = Some s;
  mt_handing : forall i s rsp, hc_reader c = Handing i s rsp -> streamOf <$> hc_calls c !! i = Some s;
  mt_received : forall i p s rsp, hc_calls c !! i = Some (Waiting p) -> pd_response p = Some (s, rsp) -> s = pd_stream p;
}.

(** A call is replaced by one with the same stream, and only streams that were there stay. *)
Lemma matched_set c c' i r r' : matched c -> hc_calls c !! i = Some r -> hc_calls c' = <[i := r']> (hc_calls c) -> streamOf r' = streamOf r ->
  (forall s j, hc_responses c' !! s = Some j -> hc_responses c !! s = Some j) ->
  (hc_reader c' = hc_reader c \/ hc_reader c' = Reading) ->
  (forall p s rsp, r' = Waiting p -> pd_response p = Some (s, rsp) -> s = pd_stream p) -> matched c'.
Proof.
  intros [M1 M2 M3] Hr Hc Hs Hresp Hrd Hrec.
  assert (Hstream : forall j, streamOf <$> hc_calls c' !! j = streamOf <$> hc_calls c !! j).
  { intros j. rewrite Hc, lookup_insert. case_decide as E; [subst j; rewrite Hr; cbn; rewrite Hs; reflexivity | reflexivity]. }
  split.
  - intros s j Hj. rewrite Hstream. auto.
  - intros j s rsp Hj. rewrite Hstream. destruct Hrd as [E|E]; rewrite E in Hj; [eauto | discriminate Hj].
  - intros j p s rsp. rewrite Hc, lookup_insert. case_decide; [intros [= ->]; eauto | eauto].
Qed.

Lemma matched_reader c rd e errored : matched c -> (forall i s rsp, rd = Handing i s rsp -> streamOf <$> hc_calls c !! i = Some s) ->
  matched (mkClient (hc_responses c) e errored rd (hc_calls c) (hc_closed c)).
Proof. intros [M1 M2 M3] Hr. split; assumption. Qed.

Lemma readHeaders_matched c frame fields : matched c -> matched (readHeaders c frame fields).
Proof.
  intros M. assert (Hstop : forall e, matched (stopReader c e)) by (intros e; apply (matched_reader c); [exact M | discriminate]).
  unfold readHeaders. destruct frame as [[stream he se block|stream]| |]; try apply Hstop. destruct fields as [fs| |]; try apply Hstop.
  destruct (hc_responses c !! stream) as [call|] eqn:E; [|apply Hstop]. pose proof (mt_channels _ M _ _ E) as Hs.
  destruct (responseFromHeaders StatusText false fs) as [rsp|e|]; [| |exact M]; apply (matched_reader c); try exact M; intros i s r [= <- <- <-]; exact Hs.
Qed.

(** The call [i], which waits with [p], is replaced. *)
Ltac replaced c i p M Ei := eapply (matched_set c _ i (Waiting p));
  [exact M | exact Ei | reflexivity | reflexivity | first [intros ? ? Hj; exact Hj | intros ? ? Hj; cbn in Hj; apply lookup_delete_Some in Hj; exact (proj2 Hj)] | first [left; reflexivity | right; reflexivity] | try discriminate].

Lemma h2step_matched c c' : h2step c c' -> matched c -> matched c'.
Proof.
  intros Hstep M. destruct Hstep as [c dc i stream req written Hi Hs H1 H2|c e|c frame fields _|c c' E|c i c' E|c i e c' E|c i c' E|c i c' E].
  - destruct M as [M1 M2 M3]. assert (Hother : forall r j, j <> i -> <[i := r]> (hc_calls c) !! j = hc_calls c !! j) by (intros; apply lookup_insert_ne; congruence).
    split; cbn [startCall hc_responses hc_calls hc_reader].
    + intros s j [[<- <-]|[Hne Hj]]%lookup_insert_Some; [rewrite lookup_insert_eq; destruct written; reflexivity|]. pose proof (M1 _ _ Hj) as Hm.
      rewrite Hother; [exact Hm|]. intros ->. rewrite Hi in Hm. discriminate Hm.
    + intros j s rsp Hj. pose proof (M2 _ _ _ Hj) as Hm. rewrite Hother; [exact Hm|]. intros ->. rewrite Hi in Hm. discriminate Hm.
    + intros j p s rsp [[<- Hp]|[Hne Hj]]%lookup_insert_Some; [destruct written; [discriminate Hp | injection Hp as <-; discriminate] | eauto].
  - destruct M as [M1 M2 M3]. split; assumption.
  - apply readHeaders_matched, M.
  - unfold handOver in E. destruct (hc_reader c) as [|i s rsp|] eqn:Er; try discriminate E. destruct (hc_calls c !! i) as [[p|]|] eqn:Ei; try discriminate E.
    destruct (_ || _); [discriminate E|]. injection E as <-. replaced c i p M Ei.
    intros p' s' rsp' [= <-] [= <- <-]. pose proof (mt_handing _ M _ _ _ Er) as Hm. rewrite Ei in Hm. injection Hm as ->. reflexivity.
  - unfold forget in E. destruct (hc_calls c !! i) as [[p|]|] eqn:Ei; try discriminate E. destruct (pd_forget p); [|discriminate E]. injection E as <-.
    replaced c i p M Ei. intros p' s rsp [= <-] Hr. exact (mt_received _ M _ _ _ _ Ei Hr).
  - unfold bodyWritten in E. destruct (hc_calls c !! i) as [[p|]|] eqn:Ei; try discriminate E. destruct (_ || _); [discriminate E|].
    destruct e as [e|]; injection E as <-; replaced c i p M Ei.
    intros p' s rsp [= <-] Hr. exact (mt_received _ M _ _ _ _ Ei Hr).
  - unfold headerFailed in E. destruct (hc_calls c !! i) as [[p|]|] eqn:Ei; try discriminate E. destruct (hc_headerErr c); [|discriminate E].
    destruct (_ || _); [discriminate E|]. injection E as <-. replaced c i p M Ei.
  - unfold finishCall in E. destruct (hc_calls c !! i) as [[p|]|] eqn:Ei; try discriminate E. destruct (_ || _); [discriminate E|].
    destruct (pd_response p) as [[s [res|]]|]; try discriminate E; injection E as <-; replaced c i p M Ei.
Qed.

(** A response goes to the call that asked for it: in every order of the actions of the calls and of the header
    stream, the response that a call receives was read from the stream that the call opened for its request, and every channel is that of the call
    of its stream. *)
Theorem responses_matched c : rtc h2step h2client0 c ->
  (forall i p s rsp, hc_calls c !! i = Some (Waiting p) -> pd_response p = Some (s, rsp) -> s = pd_stream p) /\
  (forall s i, hc_responses c !! s = Some i -> exists r, hc_calls c !! i = Some r /\ streamOf r = s).
Proof.
  intros Hr. assert (M : matched c).
  { assert (M0 : matched h2client0) by (split; [intros s i [=] | intros i s rsp [=] | intros i p s rsp [=]]).
    revert M0. induction Hr as [|c1 c2 c3 Hs _ IH]; [auto|]. intros M1. apply IH. exact (h2step_matched _ _ Hs M1). }
  split; [apply M|]. intros s i Hi. pose proof (mt_channels _ M _ _ Hi) as Hm. destruct (hc_calls c !! i) as [r|]; [|discriminate Hm]. injection Hm as <-. eauto.
Qed.

(** *** A response without a status *)

(** The error is recorded, but nil is sent to the call, which dereferences it: the process panics. *)
Theorem bad_status_panics c i p stream he se block fs e :
  hc_reader c = Reading -> hc_responses c !! stream = Some i -> hc_calls c !! i = Some (Waiting p) ->
  pd_bodySent p = true -> pd_response p = None -> pd_forget p = false -> responseFromHeaders StatusText false fs = Err e ->
  exists c1 c2 c3 c4, c1 = readHeaders c (Ok (FHeaders stream he se block)) (Ok fs) /\ handOver c1 = Some c2 /\ forget c2 i = Some c3 /\
    finishCall c3 i = Some c4 /\ hc_calls c4 !! i = Some (Returned (pd_stream p) Panic).
Proof.
  intros Hr Hs Hi Hb Hn Hf He. unfold readHeaders. rewrite Hs, He. eexists _, _, _, _. split; [reflexivity|].
  unfold handOver. cbn [hc_reader set_reader set_headerErr hc_calls]. rewrite Hi, Hf, Hb, Hn. cbn. split; [reflexivity|].
  unfold forget. cbn [hc_calls set_call set_reader]. rewrite lookup_insert_eq. cbn. split; [reflexivity|].
  unfold finishCall. cbn [hc_calls set_call]. rewrite lookup_insert_eq. cbn. split; [reflexivity|]. cbn. apply lookup_insert_eq.
Qed.

(** *** A call that is gone *)

(** The reader waits for a call that has returned. *)
Definition readerStuck (c : h2client) (i s : Z) (rsp : option Response) : Prop :=
  hc_reader c = Handing i s rsp /\ exists res, hc_calls c !! i = Some (Returned s res).

(** A call that received a response. *)
Definition gotResponse (r : rtCall) : bool :=
  match r with Waiting p => bool_decide (is_Some (pd_response p)) | Returned _ (Err _) => false | Returned _ _ => true end.

(** The calls with a response in [calls'] had it in [calls]. *)
Definition no_answers (calls calls' : gmap Z rtCall) : Prop :=
  forall j r', calls' !! j = Some r' -> gotResponse r' = true -> exists r, calls !! j = Some r /\ gotResponse r = true.

Lemma no_answers_insert calls k r' : (gotResponse r' = true -> exists r, calls !! k = Some r /\ gotResponse r = true) ->
  no_answers calls (<[k := r']> calls).
Proof. intros Hk j r. rewrite lookup_insert. case_decide; [subst j; intros [= <-]; exact Hk | eauto]. Qed.

Lemma stuck_step c c' i s rsp : h2step c c' -> readerStuck c i s rsp -> readerStuck c' i s rsp /\ no_answers (hc_calls c) (hc_calls c').
Proof.
  intros Hstep [Hrd [res Hi]].
  assert (Hkeep : forall c' k r0 r', hc_calls c !! k = r0 -> (forall st re, r0 <> Some (Returned st re)) -> hc_reader c' = hc_reader c -> hc_calls c' = <[k := r']> (hc_calls c) ->
    (gotResponse r' = true -> exists r, hc_calls c !! k = Some r /\ gotResponse r = true) ->
    readerStuck c' i s rsp /\ no_answers (hc_calls c) (hc_calls c')).
  { intros c1 k r0 r' H0 Hne H1 H2 H3. split; [|rewrite H2; apply no_answers_insert, H3]. split; [congruence|]. exists res. rewrite H2, lookup_insert_ne; [exact Hi|].
    intros ->. rewrite Hi in H0. exact (Hne _ _ (eq_sym H0)). }
  destruct Hstep as [c dc k stream req written Hk Hs H1 H2|c e|c frame fields Er|c c' E|c k c' E|c k e c' E|c k c' E|c k c' E].
  - eapply (Hkeep _ k None); [exact Hk | discriminate | reflexivity | reflexivity|]. destruct written; discriminate.
  - split; [split; [exact Hrd | eauto] | intros j r Hj Ha; eauto].
  - rewrite Hrd in Er. discriminate Er.
  - unfold handOver in E. rewrite Hrd, Hi in E. discriminate E.
  - unfold forget in E. destruct (hc_calls c !! k) as [[p|]|] eqn:Ek; try discriminate E. destruct (pd_forget p); [|discriminate E]. injection E as <-.
    eapply (Hkeep _ k _ _ Ek); [discriminate | reflexivity | reflexivity|]. intros Ha. eexists. split; [exact Ek | exact Ha].
  - unfold bodyWritten in E. destruct (hc_calls c !! k) as [[p|]|] eqn:Ek; try discriminate E. destruct (_ || _); [discriminate E|].
    destruct e as [e|]; injection E as <-; (eapply (Hkeep _ k _ _ Ek); [discriminate | reflexivity | reflexivity|]; intros Ha;
      first [discriminate Ha | eexists; split; [exact Ek | exact Ha]]).
  - unfold headerFailed in E. destruct (hc_calls c !! k) as [[p|]|] eqn:Ek; try discriminate E. destruct (hc_headerErr c) as [e|]; [|discriminate E].
    destruct (_ || _); [discriminate E|]. injection E as <-. eapply (Hkeep _ k _ _ Ek); [discriminate | reflexivity | reflexivity | discriminate].
  - unfold finishCall in E. destruct (hc_calls c !! k) as [[p|]|] eqn:Ek; try discriminate E. destruct (_ || _); [discriminate E|].
    destruct (pd_response p) as [[st [rs|]]|] eqn:Ep; try discriminate E; injection E as <-;
      (eapply (Hkeep _ k _ _ Ek); [discriminate | reflexivity | reflexivity|]; intros _; eexists; split; [exact Ek|]; cbn; rewrite Ep; reflexivity).
Qed.

Lemma stuck_steps c c' i s rsp : rtc h2step c c' -> readerStuck c i s rsp -> readerStuck c' i s rsp /\ no_answers (hc_calls c) (hc_calls c').
Proof.
  intros Hr. induction Hr as [c|c1 c2 c3 Hs _ IH]; intros Hst; [split; [exact Hst | intros j r Hj Ha; eauto]|].
  destruct (stuck_step _ _ _ _ _ Hs Hst) as [H1 H2]. destruct (IH H1) as [H3 H4]. split; [exact H3|].
  intros j r Hj Ha. destruct (H4 j r Hj Ha) as (r' & Hj' & Ha'). exact (H2 j r' Hj' Ha').
Qed.

(** A call that returned keeps its result. *)
Lemma returned_stays c c' i s res : h2step c c' -> hc_calls c !! i = Some (Returned s res) -> hc_calls c' !! i = Some (Returned s res).
Proof.
  intros Hstep Hi. destruct Hstep as [c dc k stream req written Hk _ _ _|c e|c frame fields _|c c' E|c k c' E|c k e c' E|c k c' E|c k c' E].
  - cbn. rewrite lookup_insert_ne by congruence. exact Hi.
  - exact Hi.
  - unfold readHeaders. repeat case_match; exact Hi.
  - unfold handOver in E. repeat (case_match; try discriminate E). injection E as <-. cbn. rewrite lookup_insert_ne by congruence. exact Hi.
  - unfold forget in E. repeat (case_match; try discriminate E). injection E as <-. cbn. rewrite lookup_insert_ne by congruence. exact Hi.
  - unfold bodyWritten in E. repeat (case_match; try discriminate E); injection E as <-; cbn; rewrite lookup_insert_ne by congruence; exact Hi.
  - unfold headerFailed in E. repeat (case_match; try discriminate E). injection E as <-. cbn. rewrite lookup_insert_ne by congruence. exact Hi.
  - unfold finishCall in E. repeat (case_match; try discriminate E); injection E as <-; cbn; rewrite lookup_insert_ne by congruence; exact Hi.
Qed.

(** No two calls have the same stream; a call that waits without a response, or that returned an error of its body, has its channel in
    the map.  [kept] are calls of the second kind. *)
Record channels (kept : Z -> Z -> Prop) (c : h2client) : Prop := {
  ch_distinct : forall i j r r', hc_calls c !! i = Some r -> hc_calls c !! j = Some r' -> streamOf r = streamOf r' -> i = j;
  ch_forget : forall i p, hc_calls c !! i = Some (Waiting p) -> pd_forget p = true -> pd_response p <> None;
  ch_waiting : forall i p, hc_calls c !! i = Some (Waiting p) -> pd_response p = None -> hc_responses c !! pd_stream p = Some i;
  ch_kept : forall i s, kept i s -> hc_responses c !! s = Some i /\ exists res, hc_calls c !! i = Some (Returned s res);
}.

(** A call is replaced by one of the same stream, the channels of the others stay. *)
Lemma channels_set kept c c' i p r' : channels kept c -> hc_calls c !! i = Some (Waiting p) -> hc_calls c' = <[i := r']> (hc_calls c) ->
  streamOf r' = pd_stream p ->
  (forall s j, s <> pd_stream p -> hc_responses c !! s = Some j -> hc_responses c' !! s = Some j) ->
  (forall p', r' = Waiting p' -> (pd_forget p' = true -> pd_response p' <> None) /\ (pd_response p' = None -> hc_responses c' !! pd_stream p = Some i)) ->
  channels kept c'.
Proof.
  intros [K1 K2 K3 K4] Hi Hc Hs Hresp Hnew.
  assert (Hstream : forall j r, hc_calls c' !! j = Some r -> exists r0, hc_calls c !! j = Some r0 /\ streamOf r0 = streamOf r).
  { intros j r. rewrite Hc, lookup_insert. case_decide; [subst j; intros [= <-]; exists (Waiting p); split; [exact Hi | symmetry; exact Hs] | eauto]. }
  split.
  - intros j k r r0 Hj Hk E. destruct (Hstream _ _ Hj) as (rj & Hj' & Ej). destruct (Hstream _ _ Hk) as (rk & Hk' & Ek). eapply K1; [exact Hj' | exact Hk' | congruence].
  - intros j q. rewrite Hc, lookup_insert. case_decide; [intros [= ->]; apply (Hnew q eq_refl) | eauto].
  - intros j q. rewrite Hc, lookup_insert. case_decide as Ej; [subst j; intros [= ->]; cbn in Hs; rewrite Hs; apply (Hnew q eq_refl)|].
    intros Hj Hq. apply Hresp; [|eauto]. intros E. apply Ej. symmetry. exact (K1 _ _ _ _ Hj Hi E).
  - intros j s Hk. destruct (K4 _ _ Hk) as (H1 & res & H2). assert (j <> i) by (intros ->; congruence). split.
    + apply Hresp; [|exact H1]. intros ->. pose proof (K1 j i _ _ H2 Hi eq_refl). contradiction.
    + exists res. rewrite Hc, lookup_insert_ne by congruence. exact H2.
Qed.

Lemma h2step_channels kept c c' : h2step c c' -> channels kept c -> channels kept c'.
Proof.
  intros Hstep K. destruct Hstep as [c dc i stream req written Hi Hs H1 H2|c e|c frame fields _|c c' E|c i c' E|c i e c' E|c i c' E|c i c' E].
  - destruct K as [K1 K2 K3 K4].
    assert (Hold : forall j r, hc_calls c !! j = Some r -> streamOf r <> stream) by (intros j [p|st res] Hj; [exact (H1 _ _ Hj) | intros <-; exact (H2 _ _ Hj)]).
    assert (Hnew : streamOf (match written with None => Waiting (mkPending stream (bool_decide (req_Method req = lit "HEAD")) (requestsGzip dc req) (negb (req_Body req)) None false)
      | Some e => Returned stream (Err e) end) = stream) by (destruct written; reflexivity).
    split; cbn [startCall hc_calls hc_responses].
    + intros j k r r' [[<- <-]|[Hj Ej]]%lookup_insert_Some [[<- <-]|[Hk Ek]]%lookup_insert_Some E; try reflexivity.
      * destruct (Hold _ _ Ek). congruence.
      * destruct (Hold _ _ Ej). congruence.
      * eapply K1; eassumption.
    + intros j p [[<- Hp]|[_ Hj]]%lookup_insert_Some; [destruct written; [discriminate Hp | injection Hp as <-; discriminate] | eauto].
    + intros j p [[<- Hp]|[_ Hj]]%lookup_insert_Some Hn; [destruct written; [discriminate Hp | injection Hp as <-; apply lookup_insert_eq]|].
      rewrite lookup_insert_ne; [eauto|]. intros E. exact (Hold _ _ Hj (eq_sym E)).
    + intros j s Hk. destruct (K4 _ _ Hk) as (H3 & res & H4). rewrite !lookup_insert_ne; [eauto | congruence..].
  - destruct K. split; assumption.
  - assert (Hsame : forall c', hc_calls c' = hc_calls c -> hc_responses c' = hc_responses c -> channels kept c')
      by (intros c' E1 E2; destruct K; split; rewrite ?E1, ?E2; assumption).
    apply Hsame; unfold readHeaders; repeat case_match; reflexivity.
  - unfold handOver in E. destruct (hc_reader c) as [|i s rsp|] eqn:Er; try discriminate E. destruct (hc_calls c !! i) as [[p|]|] eqn:Ei; try discriminate E.
    destruct (_ || _); [discriminate E|]. injection E as <-. eapply (channels_set kept c _ i p); [exact K | exact Ei | reflexivity | reflexivity | auto|].
    intros p' [= <-]. split; [discriminate | intros [=]].
  - unfold forget in E. destruct (hc_calls c !! i) as [[p|]|] eqn:Ei; try discriminate E. destruct (pd_forget p) eqn:Ef; [|discriminate E]. injection E as <-.
    eapply (channels_set kept c _ i p); [exact K | exact Ei | reflexivity | reflexivity | intros s j Hne Hj; cbn; rewrite lookup_delete_ne; [exact Hj | congruence]|].
    intros p' [= <-]. split; [discriminate|]. cbn. intros Hn. destruct (ch_forget _ _ K _ _ Ei Ef Hn).
  - unfold bodyWritten in E. destruct (hc_calls c !! i) as [[p|]|] eqn:Ei; try discriminate E. destruct (_ || _); [discriminate E|].
    destruct e as [e|]; injection E as <-; (eapply (channels_set kept c _ i p); [exact K | exact Ei | reflexivity | reflexivity | auto|]); [discriminate|].
    intros p' [= <-]. split; [exact (ch_forget _ _ K _ _ Ei) | exact (ch_waiting _ _ K _ _ Ei)].
  - unfold headerFailed in E. destruct (hc_calls c !! i) as [[p|]|] eqn:Ei; try discriminate E. destruct (hc_headerErr c); [|discriminate E].
    destruct (_ || _); [discriminate E|]. injection E as <-. eapply (channels_set kept c _ i p); [exact K | exact Ei | reflexivity | reflexivity | auto | discriminate].
  - unfold finishCall in E. destruct (hc_calls c !! i) as [[p|]|] eqn:Ei; try discriminate E. destruct (_ || _); [discriminate E|].
    destruct (pd_response p) as [[s [res|]]|]; try discriminate E; injection E as <-;
      (eapply (channels_set kept c _ i p); [exact K | exact Ei | reflexivity | reflexivity | auto | discriminate]).
Qed.

Lemma h2steps_channels kept c c' : rtc h2step c c' -> channels kept c -> channels kept c'.
Proof. intros Hr. induction Hr as [|c1 c2 c3 Hs _ IH]; [auto|]. intros K. apply IH. exact (h2step_channels _ _ _ Hs K). Qed.

Lemma responseFromHeaders_no_panic fs : responseFromHeaders StatusText false fs <> Panic.
Proof. unfold responseFromHeaders, ParseInt. repeat case_match; discriminate || congruence. Qed.

(** The response on the stream of the call [i] was read in [c], or is read now. *)
Inductive responseRead (i s : Z) : h2client -> h2client -> Prop :=
| rr_before c rsp : hc_reader c = Handing i s rsp -> responseRead i s c c
| rr_now c he se block fs : hc_reader c = Reading ->
    responseRead i s c (readHeaders c (Ok (FHeaders s he se block)) (Ok fs)).

(** C27: A call that returns because the body of its request could not be written, before it received its response, leaves its channel
    behind: it stays in the map, whatever happens then.  As soon as its response is read, the reader of the header stream waits for good to
    send it to nobody: whatever happens then, no call of this client, of those that run and of those that are made
    later, receives a response any more. *)
Theorem failed_body_blocks_all c i p e c1 : rtc h2step h2client0 c -> hc_calls c !! i = Some (Waiting p) -> pd_response p = None ->
  bodyWritten c i (Some e) = Some c1 ->
  forall c2, rtc h2step c1 c2 ->
  hc_calls c2 !! i = Some (Returned (pd_stream p) (Err e)) /\ hc_responses c2 !! pd_stream p = Some i /\
  forall c3, responseRead i (pd_stream p) c2 c3 ->
  forall c4, rtc h2step c3 c4 ->
  (exists rsp, hc_reader c4 = Handing i (pd_stream p) rsp) /\ handOver c4 = None /\
  forall j r', hc_calls c4 !! j = Some r' -> gotResponse r' = true -> exists r, hc_calls c2 !! j = Some r /\ gotResponse r = true.
Proof.
  intros H0 Hi Hn Hb c2 H12.
  assert (K : channels (fun _ _ => False) c).
  { apply (h2steps_channels _ _ _ H0). split; [intros j k r r' [=] | intros j q [=] | intros j q [=] | intros j s []]. }
  assert (Hb' := Hb). unfold bodyWritten in Hb. rewrite Hi in Hb. destruct (_ || _); [discriminate Hb|]. injection Hb as <-.
  set (c1 := set_call c i (Returned (pd_stream p) (Err e))) in *.
  assert (K1 : channels (fun j s => j = i /\ s = pd_stream p) c1).
  { destruct (h2step_channels _ c c1 (h2_body c i (Some e) c1 Hb') K) as [A1 A2 A3 _]. split; [exact A1 | exact A2 | exact A3|].
    intros j s [-> ->]. split; [exact (ch_waiting _ _ K _ _ Hi Hn)|]. eexists. cbn. apply lookup_insert_eq. }
  destruct (ch_kept _ _ (h2steps_channels _ _ _ H12 K1) i (pd_stream p)) as (Hr2 & res & Hi2); [split; reflexivity|].
  assert (Hdone : hc_calls c2 !! i = Some (Returned (pd_stream p) (Err e))).
  { assert (Hd1 : hc_calls c1 !! i = Some (Returned (pd_stream p) (Err e))) by (cbn; apply lookup_insert_eq).
    revert Hd1. clear -H12. induction H12 as [|c1 c2 c3 Hs _ IH]; [auto|]. intros Hd. apply IH. exact (returned_stays _ _ _ _ _ Hs Hd). }
  split; [exact Hdone|]. split; [exact Hr2|]. intros c3 Hrr c4 H34.
  assert (Hst : hc_calls c3 = hc_calls c2 /\ exists rsp, readerStuck c3 i (pd_stream p) rsp).
  { destruct Hrr as [c2 rsp Hrd|c2 he se block fs Hrd]; [split; [reflexivity|]; exists rsp; split; eauto|].
    unfold readHeaders. rewrite Hr2. pose proof (responseFromHeaders_no_panic fs) as Hnp.
    destruct (responseFromHeaders StatusText false fs); [| |contradiction]; (split; [reflexivity|]; eexists; split; [reflexivity | cbn; eauto]). }
  destruct Hst as (Hcalls & rsp & Hst). destruct (stuck_steps _ _ _ _ _ H34 Hst) as [[Hrd4 [res4 Hi4]] Hno]. split_and!.
  - exists rsp. exact Hrd4.
  - unfold handOver. rewrite Hrd4, Hi4. reflexivity.
  - rewrite <- Hcalls. exact Hno.
Qed.

(** ** The rest of the client *)

(** Dialing, with the results of the two calls; the header stream is the first one of the client. *)
Definition dial (dialed : option error) (opened : result Z) : result unit :=
  match dialed with
  | Some e => Err e
  | None =>
      let* stream := opened in
      if negb (stream =? 3) then Err (errors_New "h2quic Client BUG: StreamID of Header Stream is not 3") else Ok tt
  end.

(** The effects on the data stream: it is left open when the body cannot be copied. *)
Definition writeRequestBody (body : list Z) (copied : option error) (closed bodyClosed : option error) : list effect * option error :=
  let '(effects, err) := match copied with Some e => ([], Some e) | None => ([EWrite body; EClose], closed) end in
  (effects, match err with Some e => Some e | None => bodyClosed end).

(** The body of a response that was compressed: [gz_zr] is the decompressor, made with the first read; an error of
    making it is returned by every read from then on.  [read] is what the decompressor does. *)
Record gzipReader {R : Type} : Type := mkGzip { gz_zr : option R; gz_zerr : option error }.
Arguments gzipReader : clear implicits.
Definition gzip_Read {R} (NewReader : result R) (read : R -> R * result (list Z)) (gz : gzipReader R) : gzipReader R * result (list Z) :=
  match gz_zerr gz with
  | Some e => (gz, Err e)
  | None =>
      match (match gz_zr gz with Some zr => Ok zr | None => NewReader end) with
      | Ok zr => let '(zr, r) := read zr in (mkGzip R (Some zr) None, r)
      | Err e => (mkGzip R None (Some e), Err e)
      | Panic => (gz, Panic)
      end
  end.

(** *** The clients of a RoundTripper *)

Context (IsTokenRune : Z -> bool).
Definition validMethod (method : text) : bool := negb (bool_decide (method = [])) && forallb IsTokenRune method.

(** The checks of [RoundTripOpt]: whether the body is closed, and the error.  [order] are the headers in the order of the
    loop, [None] when the map is nil. *)
Definition checkRequest (req : Request) (order : option (list (text * list text))) : bool * option error :=
  match req_URL req with
  | None => (req_Body req, Some (errors_New "quic: nil Request.URL"))
  | Some u =>
      if bool_decide (url_Host u = []) then (req_Body req, Some (errors_New "quic: no Host in request URL"))
      else
      match order with
      | None => (req_Body req, Some (errors_New "quic: nil Request.Header"))
      | Some entries =>
          if negb (bool_decide (url_Scheme u = lit "https")) then (req_Body req, Some (errors_New "quic: unsupported protocol scheme"))
          else
          match head (omap (fun e => if negb (ValidHeaderFieldName e.1) then Some (errors_New "quic: invalid http header field name")
                                     else if negb (forallb ValidHeaderFieldValue e.2) then Some (errors_New "quic: invalid http header field value") else None) entries) with
          | Some e => (false, Some e)
          | None =>
              if negb (bool_decide (req_Method req = [])) && negb (validMethod (req_Method req)) then (req_Body req, Some (errors_New "quic: invalid method"))
              else (false, None)
          end
      end
  end.

(** [new] is the client that is made when there is none for the host. *)
Definition getClient (clients : gmap text Z) (hostname : text) (onlyCached : bool) (new : Z) : gmap text Z * result Z :=
  match clients !! hostname with
  | Some client => (clients, Ok client)
  | None => if onlyCached then (clients, Err (errors_New "h2quic: no cached connection was available")) else (<[hostname := new]> clients, Ok new)
  end.

(** The clients in the order of the loop, with what closing them returns: the first error ends it. *)
Fixpoint closeClients (order : list Z) (close : Z -> option error) : list Z * option error :=
  match order with
  | [] => ([], None)
  | client :: order =>
      match close client with
      | Some e => ([client], Some e)
      | None => let '(closed, e) := closeClients order close in (client :: closed, e)
      end
  end.
Definition RoundTripper_Close (clients : gmap text Z) (order : list Z) (close : Z -> option error) : gmap text Z * list Z * option error :=
  let '(closed, e) := closeClients order close in
  (match e with Some _ => clients | None => ∅ end, closed, e).
End client.

(** ** Sessions that are run *)

(** Concrete libraries: a URL is its path on one host. *)
#[export] Instance plainLibs : WebLibs := {|
  URL := text;
  url_Parse s := Ok s;
  url_RequestURI u := u;
  url_Scheme _ := lit "https";
  url_Host _ := lit "host";
  url_Opaque _ := [];
  ValidHeaderFieldName s := forallb validHeaderFieldByte s;
  ValidHeaderFieldValue _ := true;
  PunycodeHostPort h := Ok h;
  PseudoValue fs name := default [] (head (omap (fun f => if bool_decide (hf_Name f = colon :: name) then Some (hf_Value f) else None) fs));
  RegularFields fs := filter (fun f => IsPseudo f = false) fs;
|}.

Definition samplePost : Request := mkRequest (lit "POST") (Some (lit "/upload")) {[lit "Cookie" := [lit "a=1"; lit "b=2"]; lit "Connection" := [lit "close"]]} true 7 [] [].
Definition sampleGet : Request := mkRequest (lit "GET") (Some (lit "/")) ∅ false 0 [] [].
Definition noText (n : Z) : text := [].

(** Call 1 posts a body, call 2 gets something; the response to call 1 is read, and its body fails before it takes it. *)
Definition stuckClient : h2client :=
  let c := startCall false (startCall false h2client0 1 5 samplePost None) 2 7 sampleGet None in
  let c := readHeaders noText c (Ok (FHeaders 5 true false [])) (Ok [mkField (lit ":status") (lit "200")]) in
  default c (bodyWritten c 1 (Some EOF)).

Lemma stuckClient_reachable : rtc (h2step noText) h2client0 stuckClient.
Proof.
  eapply rtc_l; [apply (h2_start noText h2client0 false 1 5 samplePost None); [reflexivity | reflexivity | intros j p [=] | intros j r [=]]|].
  eapply rtc_l; [apply (h2_start noText _ false 2 7 sampleGet None); [reflexivity | reflexivity | |]|].
  { intros j p. cbn [startCall hc_calls h2client0]. intros [[<- [= <-]]|[_ [=]]]%lookup_insert_Some. discriminate. }
  { intros j r. cbn [startCall hc_calls h2client0]. intros [[<- [=]]|[_ [=]]]%lookup_insert_Some. }
  eapply rtc_l; [apply (h2_read noText _ (Ok (FHeaders 5 true false [])) (Ok [mkField (lit ":status") (lit "200")])); reflexivity|].
  eapply rtc_l; [apply (h2_body noText _ 1 (Some EOF)); reflexivity|]. apply rtc_refl.
Qed.
