(* ===== verification/H2Examples.v ===== *)
(** * HTTP/2 over QUIC: requests and clients that are run *)
From S2P Require Import Prelude Qerr ByteOrder Protocol WireStream WireControl Addr H2Request H2RequestProofs H2Server H2Client.

Lemma responses_matched_witness : exists p, hc_calls stuckClient !! 2 = Some (Waiting p) /\ pd_stream p = 7 /\
  (forall s i, hc_responses stuckClient !! s = Some i -> exists r, hc_calls stuckClient !! i = Some r /\ streamOf r = s).
Proof.
  destruct (responses_matched noText stuckClient stuckClient_reachable) as [_ H]. eexists. split; [reflexivity|]. split; [reflexivity | exact H].
Defined.

(** Call 1 posts a body, call 2 gets something; the body of call 1 fails, then its response arrives, then call 3 is made. *)
Definition twoCalls : h2client := startCall false (startCall false h2client0 1 5 samplePost None) 2 7 sampleGet None.
Definition bodyFailed : h2client := default twoCalls (bodyWritten twoCalls 1 (Some EOF)).
Definition responseArrived : h2client :=
  readHeaders noText bodyFailed (Ok (FHeaders 5 true false [])) (Ok [mkField (lit ":status") (lit "200")]).
Definition thirdCall : h2client := startCall false responseArrived 3 9 sampleGet None.

Lemma twoCalls_reachable : rtc (h2step noText) h2client0 twoCalls.
Proof.
  eapply rtc_l; [apply (h2_start noText h2client0 false 1 5 samplePost None); [reflexivity | reflexivity | intros j p [=] | intros j r [=]]|].
  apply rtc_once. apply h2_start; [reflexivity | reflexivity | |].
  - intros j p. cbn [startCall hc_calls h2client0]. intros [[<- [= <-]]|[_ [=]]]%lookup_insert_Some. discriminate.
  - intros j r. cbn [startCall hc_calls h2client0]. intros [[<- [=]]|[_ [=]]]%lookup_insert_Some.
Qed.

Lemma responseArrived_calls : hc_calls responseArrived = {[1 := Returned 5 (Err EOF); 2 := Waiting (mkPending 7 false true true None false)]}.
Proof. vm_compute. reflexivity. Qed.

Lemma failed_body_blocks_all_witness :
  hc_responses bodyFailed !! 5 = Some 1 /\ handOver thirdCall = None /\
  forall j r', hc_calls thirdCall !! j = Some r' -> gotResponse r' = false.
Proof.
  destruct (failed_body_blocks_all noText twoCalls 1 (mkPending 5 false true false None false) EOF bodyFailed twoCalls_reachable
    ltac:(vm_compute; reflexivity) eq_refl ltac:(vm_compute; reflexivity) bodyFailed (rtc_refl _ _)) as (_ & H1 & H2).
  split; [exact H1|]. destruct (H2 responseArrived) with thirdCall as (_ & H3 & H4).
  - apply rr_now. vm_compute. reflexivity.
  - apply rtc_once. apply h2_start; [vm_compute; reflexivity | vm_compute; reflexivity | |].
    + intros j p. rewrite responseArrived_calls. intros [[_ [=]]|[_ [_ [= <-]]%lookup_singleton_Some]]%lookup_insert_Some. discriminate.
    + intros j r. rewrite responseArrived_calls. intros [[_ [=]]|[_ [_ [=]]%lookup_singleton_Some]]%lookup_insert_Some.
  - split; [exact H3|]. intros j r' Hj. destruct (gotResponse r') eqn:Ea; [|reflexivity]. destruct (H4 j r' Hj Ea) as (r & Hr & Ha).
    change (hc_calls bodyFailed) with (hc_calls responseArrived) in Hr. rewrite responseArrived_calls in Hr.
    apply lookup_insert_Some in Hr as [[_ <-]|[_ Hr]]; [discriminate Ha|]. apply lookup_singleton_Some in Hr as [_ <-]. discriminate Ha.
Defined.

Definition sampleOrder : list (text * list text) := map_to_list (req_Header samplePost).

Lemma samplePost_sendable : sendable samplePost (lit "/upload") (lit "host") (lit "/upload").
Proof.
  constructor.
  - reflexivity.
  - split; [vm_compute; reflexivity | discriminate].
  - split; vm_compute; reflexivity.
  - split; vm_compute; discriminate.
  - vm_compute. reflexivity.
  - intros k [vv Hk]. unfold samplePost in Hk. cbn [req_Header] in Hk. apply lookup_insert_Some in Hk as [[<- _]|[_ Hk]]; [split; vm_compute; reflexivity|].
    apply lookup_singleton_Some in Hk as [<- _]. split; vm_compute; reflexivity.
  - intros k vv Hk. unfold samplePost in Hk. cbn [req_Header] in Hk. apply lookup_insert_Some in Hk as [[<- <-]|[_ Hk]]; [split; vm_compute; reflexivity|].
    apply lookup_singleton_Some in Hk as [<- <-]. split; vm_compute; reflexivity.
Qed.

Lemma request_roundtrip_witness : exists fs req', WriteRequest samplePost sampleOrder sampleOrder 5 false true = Ok (mkHeaders 5 true false fs) /\
  requestFromHeaders fs = Ok req' /\ req_Method req' = lit "POST" /\ req_Host req' = lit "host" /\ req_RequestURI req' = lit "/upload" /\ req_ContentLength req' = 7 /\
  Header_values (req_Header req') (lit "Cookie") = [lit "a=1; b=2"] /\ Header_values (req_Header req') (lit "User-Agent") = [lit "quic-go"] /\
  Header_values (req_Header req') (lit "Connection") = [].
Proof.
  destruct (request_roundtrip samplePost (lit "/upload") (lit "host") (lit "/upload") sampleOrder sampleOrder 5 false true samplePost_sendable (reflexivity _) (reflexivity _))
    as (fs & req' & E & E' & H1 & H2 & H3 & _ & H4 & H5).
  exists fs, req'. split; [exact E|]. split; [exact E'|]. split; [exact H1|]. split; [exact H2|]. split; [exact H3|]. split; [exact H4|].
  rewrite !H5. split_and!; vm_compute; reflexivity.
Defined.
