(* ===== verification/CryptoTLS.v ===== *)
(** * The handshake with TLS (internal/handshake/crypto_setup_tls.go, mint_utils.go, ephermal_cache.go)

    The setup that is used for the TLS version: the handshake is that of the mint library, whose
    outcome is an argument; the setup keeps the keys that are exported from it and gives them to the
    session.  One goroutine runs [HandleCryptoStream], that of the session opens and seals packets; the mutex
    makes the operations the steps.  At the end, the cache of the ephemeral key that the other handshake uses. *)
From S2P Require Import Prelude Qerr ByteOrder Protocol PublicHeader ConnParams PacketPacker HandshakeMessage Aead ServerConfig Cookie CryptoServer.

Record cryptoSetupTLS : Type := mkTLS {
  ts_perspective : Perspective;
  ts_nullAEAD : AEAD;
  ts_aead : option AEAD;
  ts_aeadChanged : aeadChan;
}.

(** [tlsToMintConfig]: the certificates as their bytes and whether their key can sign; [parse] is that of x509,
    [init] what the Init of the configuration returns. *)
Fixpoint mintChain {X} (parse : list Z -> result X) (chain : list (list Z)) : result (list X) :=
  match chain with
  | [] => Ok []
  | cert :: chain => let* c := parse cert in let* cs := mintChain parse chain in Ok (c :: cs)
  end.
Fixpoint mintCertificates {X} (parse : list Z -> result X) (certs : list (list (list Z) * bool)) : result (list (list X)) :=
  match certs with
  | [] => Ok []
  | (chain, signer) :: certs =>
      if negb signer then Panic
      else let* c := mintChain parse chain in let* cs := mintCertificates parse certs in Ok (c :: cs)
  end.
Definition tlsToMintConfig {X} (parse : list Z -> result X) (tlsConf : option (list (list (list Z) * bool))) (init : bool -> option error) (pers : Perspective) :
    result (list (list X)) :=
  let* certs := match tlsConf with Some certs => mintCertificates parse certs | None => Ok [] end in
  match init (bool_decide (pers = PerspectiveClient)) with Some e => Err e | None => Ok certs end.

Definition NewCryptoSetupTLS {X} (sum128 : list Z -> Z * Z) (perspective : Perspective) (version : Z) (conf : result X) : result cryptoSetupTLS :=
  let* _ := conf in Ok (mkTLS perspective (NewNullAEAD sum128 perspective version) None (mkChan [] false)).

(** [alert] is the text of an alert with its number, if there was one; [mc] is the connection after the handshake. *)
Definition tls_HandleCryptoStream (newGCM : list Z -> result cipherAEAD) (alert : option string) (mc : MintController) (h : cryptoSetupTLS) :
    cryptoSetupTLS * result unit :=
  match alert with
  | Some text => (h, Err (errors_New ("TLS handshake error: " +:+ text)))
  | None =>
      match DeriveAESKeys newGCM mc (ts_perspective h) with
      | Err e => (h, Err e)
      | Panic => (h, Panic)
      | Ok aead =>
          let h := mkTLS (ts_perspective h) (ts_nullAEAD h) (Some aead) (ts_aeadChanged h) in
          match (let* c := chan_send (ts_aeadChanged h) EncryptionForwardSecure in chan_close c) with
          | Ok c => (mkTLS (ts_perspective h) (ts_nullAEAD h) (ts_aead h) c, Ok tt)
          | Err e => (h, Err e)
          | Panic => (h, Panic)
          end
      end
  end.

Definition tls_Open (h : cryptoSetupTLS) (src : list Z) (packetNumber : Z) (associatedData : list Z) : result (list Z * EncryptionLevel) :=
  match ts_aead h with
  | Some a => let* data := aead_Open a src packetNumber associatedData in Ok (data, EncryptionForwardSecure)
  | None => let* data := aead_Open (ts_nullAEAD h) src packetNumber associatedData in Ok (data, EncryptionUnencrypted)
  end.

Definition tls_GetSealer (h : cryptoSetupTLS) : EncryptionLevel * Sealer :=
  match ts_aead h with
  | Some a => (EncryptionForwardSecure, sealerOf a)
  | None => (EncryptionUnencrypted, sealerOf (ts_nullAEAD h))
  end.

Definition tls_GetSealerWithEncryptionLevel (h : cryptoSetupTLS) (encLevel : EncryptionLevel) : result Sealer :=
  match encLevel with
  | EncryptionUnencrypted => Ok (sealerOf (ts_nullAEAD h))
  | EncryptionForwardSecure =>
      match ts_aead h with
      | None => Err (errors_New "CryptoSetup: no sealer with encryption level forward-secure")
      | Some a => Ok (sealerOf a)
      end
  | EncryptionSecure => Err (errors_New "CryptoSetup: no sealer with encryption level encrypted (not forward-secure)")
  | EncryptionUnspecified => Err (errors_New "CryptoSetup: no sealer with encryption level unknown")
  end.

Definition tls_GetSealerForCryptoStream (h : cryptoSetupTLS) : EncryptionLevel * Sealer := (EncryptionUnencrypted, sealerOf (ts_nullAEAD h)).

(** Neither side has a diversification nonce: asking for it panics. *)
Definition tls_DiversificationNonce (h : cryptoSetupTLS) : result (list Z) := Panic.

(** ** A handshake of both sides *)

(** With the same connection on both sides, either both setups complete or neither does.  A setup that completes announces
    the forward-secure level once, and no other; from then on what either side seals for a packet the other
    side opens, as forward-secure; and nothing is accepted any more that does not authenticate with the new keys, also
    not the packets of the crypto stream, which are still sealed without encryption. *)
Theorem tls_handshake_keys newGCM sum128 version mc : cipher_ok newGCM ->
  let setup pers := mkTLS pers (NewNullAEAD sum128 pers version) None (mkChan [] false) in
  let '(c, rc) := tls_HandleCryptoStream newGCM None mc (setup PerspectiveClient) in
  let '(s, rs) := tls_HandleCryptoStream newGCM None mc (setup PerspectiveServer) in
  (rc = Ok tt <-> rs = Ok tt) /\
  (rc = Ok tt ->
    ts_aeadChanged c = mkChan [EncryptionForwardSecure] true /\ ts_aeadChanged s = mkChan [EncryptionForwardSecure] true /\
    (forall plain pn ad, tls_Open s (Seal (tls_GetSealer c).2 plain pn ad) pn ad = Ok (plain, EncryptionForwardSecure)) /\
    (forall plain pn ad, tls_Open c (Seal (tls_GetSealer s).2 plain pn ad) pn ad = Ok (plain, EncryptionForwardSecure)) /\
    (forall src pn ad data level, tls_Open c src pn ad = Ok (data, level) -> level = EncryptionForwardSecure) /\
    (tls_GetSealerForCryptoStream s).1 = EncryptionUnencrypted).
Proof.
  intros Hc. pose proof (tls_keys_match newGCM mc Hc) as Hm. unfold matching in Hm. cbv zeta. unfold tls_HandleCryptoStream. cbn [ts_perspective ts_nullAEAD ts_aead ts_aeadChanged].
  destruct (DeriveAESKeys newGCM mc PerspectiveClient) as [ca|e|], (DeriveAESKeys newGCM mc PerspectiveServer) as [sa|e'|]; cbn; try contradiction;
    try (split; [split; discriminate | discriminate]).
  destruct Hm as [H1 H2]. split; [tauto|]. intros _. unfold tls_Open, tls_GetSealer. cbn [ts_aead ts_aeadChanged snd sealerOf Seal]. split_and!; try reflexivity.
  - intros plain pn ad. rewrite (H1 plain pn ad). reflexivity.
  - intros plain pn ad. rewrite (H2 plain pn ad). reflexivity.
  - intros src pn ad data level E. destruct (aead_Open ca src pn ad); cbn [bind] in E; try discriminate E. injection E as _ <-. reflexivity.
Qed.

(** ** The ephemeral key (ephermal_cache.go)

    The servers of a process share a key, which is made anew when it is too old.  The function reads the cache, and
    if need be reads and writes it again under the other lock: other goroutines may run in between. *)
Record kexCache (K : Type) : Type := mkKex { kexCurrent : option K; kexCurrentTime : Z }.
Arguments mkKex {K}.
Arguments kexCurrent {K}.
Arguments kexCurrentTime {K}.
Definition kexLifetime : Z := 60 * Second.

(** The first part; [None] when the second is needed. *)
Definition kexRead {K} (c : kexCache K) (now : Z) : option K :=
  match kexCurrent c with
  | Some kex => if timeSub now (kexCurrentTime c) <? kexLifetime then Some kex else None
  | None => None
  end.

(** The second part: [kex] is the new key, made at [made]; nil is returned when there was none and none can be made. *)
Definition kexRefresh {K} (c : kexCache K) (now : Z) (kex : result K) (made : Z) : kexCache K * option K :=
  let renew := match kex with Ok kex => (mkKex (Some kex) made, Some kex) | _ => (c, kexCurrent c) end in
  match kexCurrent c with
  | None => renew
  | Some old => if timeSub now (kexCurrentTime c) >? kexLifetime then renew else (c, Some old)
  end.

(** Whatever the other goroutines do between the two parts, a key that is returned is the one in the cache, and
    not older than a minute when it was looked at, unless a new one could not be made; and only then there may be none. *)
Theorem ephermal_key_fresh {K} (c1 c2 : kexCache K) now1 now2 kex made :
  let fresh c now k := kexCurrent c = Some k /\ (timeSub now (kexCurrentTime c) <= kexLifetime \/ kexCurrentTime c = made) in
  match kexRead c1 now1 with
  | Some k => fresh c1 now1 k
  | None => let '(c', r) := kexRefresh c2 now2 kex made in
      match kex with
      | Ok _ => exists k, r = Some k /\ fresh c' now2 k
      | _ => c' = c2 /\ r = kexCurrent c2
      end
  end.
Proof.
  cbv zeta. assert (H2 : let '(c', r) := kexRefresh c2 now2 kex made in
    match kex with
    | Ok _ => exists k, r = Some k /\ kexCurrent c' = Some k /\ (timeSub now2 (kexCurrentTime c') <= kexLifetime \/ kexCurrentTime c' = made)
    | _ => c' = c2 /\ r = kexCurrent c2
    end).
  { unfold kexRefresh. destruct (kexCurrent c2) as [old|] eqn:E2; [destruct (_ >? _) eqn:E3|]; destruct kex; cbn; eauto 6.
    exists old. split_and!; [reflexivity | exact E2 | left; lia]. }
  destruct (kexRead c1 now1) as [k|] eqn:E1; [|exact H2]. unfold kexRead in E1. destruct (kexCurrent c1); [|discriminate E1].
  destruct (_ <? _) eqn:E3; [|discriminate E1]. injection E1 as ->. split; [reflexivity | left; lia].
Qed.
