(* ===== verification/PconnManager.v ===== *)
(** * The sockets of a session (pconn_manager.go)

    A client has a socket on any address and one on each global unicast address of the interfaces it
    uses, which it looks for every two seconds; a server has the one on any address.  A goroutine
    reads each socket.  Sockets are numbers; the network of the host, what listening and reading
    return, is an argument.  The actions of the goroutines are the steps. *)
From S2P Require Import Prelude Qerr ByteOrder Protocol WireStream WireControl Addr.

(** ** net.IP *)

Definition IP_Equal (a b : list Z) : bool :=
  match To16 a, To16 b with
  | Some x, Some y => bool_decide (x = y)
  | _, _ => bool_decide (a = b)
  end.
Definition IPv6unspecified : list Z := replicate 16 0.
Definition IPv6loopback : list Z := replicate 15 0 ++ [1].
Definition IP_IsUnspecified (ip : list Z) : bool := IP_Equal ip (netIPv4 0 0 0 0) || IP_Equal ip IPv6unspecified.
Definition IP_IsLoopback (ip : list Z) : bool :=
  match To4 ip with Some ip4 => bool_decide (head ip4 = Some 127) | None => IP_Equal ip IPv6loopback end.
Definition IP_IsMulticast (ip : list Z) : bool :=
  match To4 ip with
  | Some ip4 => Z.land (hd 0 ip4) 240 =? 224
  | None => (length ip =? 16)%nat && (hd 0 ip =? 255)
  end.
Definition IP_IsLinkLocalUnicast (ip : list Z) : bool :=
  match To4 ip with
  | Some (a :: b :: _) => (a =? 169) && (b =? 254)
  | Some _ => false
  | None => (length ip =? 16)%nat && (hd 0 ip =? 254) && (Z.land (nth 1 ip 0) 192 =? 128)
  end.
Definition IP_IsGlobalUnicast (ip : list Z) : bool :=
  ((length ip =? 4)%nat || (length ip =? 16)%nat) && negb (IP_Equal ip (netIPv4 255 255 255 255)) &&
  negb (IP_IsUnspecified ip) && negb (IP_IsLoopback ip) && negb (IP_IsMulticast ip) && negb (IP_IsLinkLocalUnicast ip).

(** ** The manager *)

(** [pc_pconns] by the text of their addresses; the channels [changePaths] and [errorConn] hold one value;
    [pc_listening] are the sockets whose goroutine reads. *)
Record pconnManager : Type := mkPcm {
  pc_pconns : gmap (list Z) Z;
  pc_pconnAny : Z;
  pc_localAddrs : list UDPAddr;
  pc_changePaths : bool;
  pc_errorConn : option error;
  pc_listening : gset Z;
  pc_closedSockets : list Z;
  pc_closed : bool;
}.

(** The interfaces of the host: their names, and their addresses, each as [net.ParseCIDR] reads it. *)
Definition interface : Type := (list Z * result (list (result (list Z))))%type.

(** What the host does: [net.ListenUDP] on an address gives a socket, whose local address is resolved. *)
Record host : Type := mkHost {
  h_interfaces : result (list interface);
  h_ListenUDP : list Z -> result Z;
  h_LocalAddr : Z -> result UDPAddr;
}.

Definition setupPcm (pconnArg : option Z) (listenAny : result Z) : result pconnManager :=
  let* any := match pconnArg with Some pconn => Ok pconn | None => listenAny end in
  Ok (mkPcm ∅ any [] false None ∅ [] false).

(** [go pcm.listen(pconn)]. *)
Definition startListen (s : pconnManager) (pconn : Z) : pconnManager :=
  mkPcm (pc_pconns s) (pc_pconnAny s) (pc_localAddrs s) (pc_changePaths s) (pc_errorConn s) ({[pconn]} ∪ pc_listening s) (pc_closedSockets s) (pc_closed s).
(** The sends that do not block. *)
Definition signalPaths (s : pconnManager) : pconnManager :=
  mkPcm (pc_pconns s) (pc_pconnAny s) (pc_localAddrs s) true (pc_errorConn s) (pc_listening s) (pc_closedSockets s) (pc_closed s).

(** A turn of the loop of [listen] that fails: the goroutine ends. *)
Definition listenFails (s : pconnManager) (pconn : Z) (e : error) : pconnManager :=
  mkPcm (pc_pconns s) (pc_pconnAny s) (pc_localAddrs s) (pc_changePaths s) (match pc_errorConn s with Some e0 => Some e0 | None => Some e end)
    (pc_listening s ∖ {[pconn]}) (pc_closedSockets s) (pc_closed s).
Definition MaxReceivePacketSize : Z := 1452.
(** One that succeeds: the packet that is put into [rcvRawPackets]; more than the size of the buffer is cut off. *)
Definition listenReads (pconn : Z) (remoteAddr : UDPAddr) (data : list Z) (now : Z) : Z * UDPAddr * list Z * Z :=
  (pconn, remoteAddr, take (Z.to_nat MaxReceivePacketSize) data, now).

Definition createPconn (s : pconnManager) (hst : host) (ip : list Z) : pconnManager * result UDPAddr :=
  match (let* pconn := h_ListenUDP hst ip in let* locAddr := h_LocalAddr hst pconn in Ok (pconn, locAddr)) with
  | Err e => (s, Err e)
  | Panic => (s, Panic)
  | Ok (pconn, locAddr) =>
      let s := mkPcm (<[UDPAddr_String locAddr := pconn]> (pc_pconns s)) (pc_pconnAny s) (pc_localAddrs s) (pc_changePaths s) (pc_errorConn s)
        (pc_listening s) (pc_closedSockets s) (pc_closed s) in
      (signalPaths (startListen s pconn), Ok locAddr)
  end.

(** [strings.Contains]. *)
Fixpoint Contains (s sub : list Z) : bool :=
  bool_decide (sub `prefix_of` s) || match s with [] => false | _ :: s => Contains s sub end.
Definition usedInterface (name : list Z) : bool :=
  Contains name (string_bytes "eth") || Contains name (string_bytes "rmnet") || Contains name (string_bytes "wlan").

Definition appendLocal (s : pconnManager) (locAddr : UDPAddr) : pconnManager :=
  mkPcm (pc_pconns s) (pc_pconnAny s) (pc_localAddrs s ++ [locAddr]) (pc_changePaths s) (pc_errorConn s) (pc_listening s) (pc_closedSockets s) (pc_closed s).

(** The loop over the addresses of an interface, and the one over the interfaces; an error ends both. *)
Fixpoint createAddrs (s : pconnManager) (hst : host) (addrs : list (result (list Z))) : pconnManager * result unit :=
  match addrs with
  | [] => (s, Ok tt)
  | Err e :: _ => (s, Err e)
  | Panic :: _ => (s, Panic)
  | Ok ip :: addrs =>
      if negb (IP_IsGlobalUnicast ip) then createAddrs s hst addrs
      else if existsb (fun locAddr => IP_Equal ip (ua_IP locAddr)) (pc_localAddrs s) then createAddrs s hst addrs
      else match createPconn s hst ip with
           | (s, Ok locAddr) => createAddrs (appendLocal s locAddr) hst addrs
           | (s, Err e) => (s, Err e)
           | (s, Panic) => (s, Panic)
           end
  end.

Fixpoint createInterfaces (s : pconnManager) (hst : host) (ifaces : list interface) : pconnManager * result unit :=
  match ifaces with
  | [] => (s, Ok tt)
  | (name, addrs) :: ifaces =>
      if negb (usedInterface name) then createInterfaces s hst ifaces
      else match addrs with
           | Err e => (s, Err e)
           | Panic => (s, Panic)
           | Ok addrs =>
               match createAddrs s hst addrs with
               | (s, Ok _) => createInterfaces s hst ifaces
               | (s, e) => (s, e)
               end
           end
  end.

Definition createPconns (s : pconnManager) (hst : host) : pconnManager * result unit :=
  match h_interfaces hst with
  | Err e => (s, Err e)
  | Panic => (s, Panic)
  | Ok ifaces => createInterfaces s hst ifaces
  end.

(** The beginning of [run], and a turn of its loop when the timer fires; the errors are dropped. *)
Definition startRun (s : pconnManager) (perspective : Perspective) (hst : host) : pconnManager :=
  let s := startListen s (pc_pconnAny s) in
  signalPaths (match perspective with PerspectiveClient => (createPconns s hst).1 | PerspectiveServer => s end).
Definition timerTurn (s : pconnManager) (hst : host) : pconnManager := (createPconns s hst).1.

(** The end of [run]; [order] are the sockets in the order of the loop. *)
Definition closePconns (s : pconnManager) (order : list Z) : pconnManager :=
  mkPcm (pc_pconns s) (pc_pconnAny s) (pc_localAddrs s) (pc_changePaths s) (pc_errorConn s) (pc_listening s) (pc_closedSockets s ++ order ++ [pc_pconnAny s]) true.

(** ** One socket for each address *)

(** No two of the addresses have the same IP. *)
Definition distinctIPs (l : list UDPAddr) : Prop := ForallOrdPairs (fun a b => IP_Equal (ua_IP b) (ua_IP a) = false) l.
Definition hasSocket (s : pconnManager) (ip : list Z) : Prop := existsb (fun locAddr => IP_Equal ip (ua_IP locAddr)) (pc_localAddrs s) = true.

(** What the addresses of the manager mean: they are distinct, and their sockets are in the map. *)
Record pcm_ok (s : pconnManager) : Prop := {
  pok_distinct : distinctIPs (pc_localAddrs s);
  pok_sockets : forall a, a ∈ pc_localAddrs s -> is_Some (pc_pconns s !! UDPAddr_String a);
}.

(** Listening on an address gives a socket with that address. *)
Definition host_ok (hst : host) : Prop :=
  forall ip pconn a, h_ListenUDP hst ip = Ok pconn -> h_LocalAddr hst pconn = Ok a -> IP_Equal ip (ua_IP a) = true.

Definition canonicalIP (ip : list Z) : list Z + list Z := match To16 ip with Some x => inl x | None => inr ip end.
Lemma IP_Equal_canonical a b : IP_Equal a b = bool_decide (canonicalIP a = canonicalIP b).
Proof.
  unfold IP_Equal, canonicalIP. destruct (To16 a) as [x|] eqn:Ea, (To16 b) as [y|] eqn:Eb; try (apply bool_decide_ext; split; congruence).
Qed.

Lemma distinctIPs_snoc l a : distinctIPs l -> (forall b, b ∈ l -> IP_Equal (ua_IP a) (ua_IP b) = false) -> distinctIPs (l ++ [a]).
Proof.
  unfold distinctIPs. induction 1 as [|x l Hx _ IH]; intros Ha; cbn [app]; [repeat constructor|].
  constructor; [|apply IH; intros b Hb; apply Ha; right; exact Hb]. apply Forall_app. split; [exact Hx|]. constructor; [apply Ha; left | constructor].
Qed.

(** One address: it has a socket afterwards, and the others keep theirs. *)
Lemma newAddress_ok s hst ip s' a : host_ok hst -> pcm_ok s -> existsb (fun locAddr => IP_Equal ip (ua_IP locAddr)) (pc_localAddrs s) = false ->
  createPconn s hst ip = (s', Ok a) -> pcm_ok (appendLocal s' a) /\ hasSocket (appendLocal s' a) ip /\ pc_localAddrs s' = pc_localAddrs s.
Proof.
  intros Hh [D S] Hn E. unfold createPconn in E. destruct (h_ListenUDP hst ip) as [pconn| |] eqn:E1; cbn [bind] in E; try discriminate E.
  destruct (h_LocalAddr hst pconn) as [la| |] eqn:E2; cbn [bind] in E; try discriminate E. injection E as <- <-.
  pose proof (Hh ip pconn la E1 E2) as He. rewrite IP_Equal_canonical, bool_decide_eq_true in He. split; [|split; [|reflexivity]].
  - split; cbn [appendLocal signalPaths startListen pc_localAddrs pc_pconns].
    + apply distinctIPs_snoc; [exact D|]. intros b Hb. rewrite IP_Equal_canonical, <- He, <- IP_Equal_canonical.
      apply not_true_iff_false. intros Hb'. apply not_true_iff_false in Hn. apply Hn, existsb_exists. exists b. split; [apply list_elem_of_In, Hb | exact Hb'].
    + intros b [Hb| ->%list_elem_of_singleton]%elem_of_app; [|rewrite lookup_insert_eq; eauto].
      rewrite lookup_insert. case_decide; [eauto | exact (S b Hb)].
  - unfold hasSocket. cbn. rewrite existsb_app. cbn [existsb]. rewrite IP_Equal_canonical, He, bool_decide_eq_true_2 by reflexivity. rewrite orb_true_r. reflexivity.
Qed.

(** [s'] came out of [s] by a scan: nothing was lost. *)
Definition extends (s s' : pconnManager) : Prop := exists l, pc_localAddrs s' = pc_localAddrs s ++ l.
Lemma extends_socket s s' ip : extends s s' -> hasSocket s ip -> hasSocket s' ip.
Proof. intros [l E] Hs. unfold hasSocket in *. rewrite E, existsb_app, Hs. reflexivity. Qed.
Lemma extends_trans s1 s2 s3 : extends s1 s2 -> extends s2 s3 -> extends s1 s3.
Proof. intros [l1 E1] [l2 E2]. exists (l1 ++ l2). rewrite E2, E1, app_assoc. reflexivity. Qed.
Lemma extends_refl s : extends s s.
Proof. exists []. rewrite app_nil_r. reflexivity. Qed.

Lemma createAddrs_ok hst addrs : host_ok hst -> forall s s' r, pcm_ok s -> createAddrs s hst addrs = (s', r) ->
  pcm_ok s' /\ extends s s' /\ (r = Ok tt -> forall ip, Ok ip ∈ addrs -> IP_IsGlobalUnicast ip = true -> hasSocket s' ip).
Proof.
  intros Hh. induction addrs as [|a addrs IH]; intros s s' r Hok E; cbn [createAddrs] in E.
  - injection E as <- <-. split_and!; [exact Hok | apply extends_refl | intros _ ip []%elem_of_nil].
  - destruct a as [ip|e|]; [|injection E as <- <-; split_and!; [exact Hok | apply extends_refl | discriminate]..].
    destruct (IP_IsGlobalUnicast ip) eqn:Eg; cbn [negb] in E.
    2:{ destruct (IH s s' r Hok E) as (H1 & H2 & H3). split_and!; auto. intros Hr ip' [[= ->]|Hin]%elem_of_cons Hg; [congruence | auto]. }
    destruct (existsb _ (pc_localAddrs s)) eqn:Ex.
    { destruct (IH s s' r Hok E) as (H1 & H2 & H3). split_and!; auto.
      intros Hr ip' [[= ->]|Hin]%elem_of_cons Hg; [exact (extends_socket s s' ip H2 Ex) | auto]. }
    destruct (createPconn s hst ip) as [s1 [la|e|]] eqn:Ec.
    + destruct (newAddress_ok s hst ip s1 la Hh Hok Ex Ec) as (N1 & N2 & N3). destruct (IH _ s' r N1 E) as (H1 & H2 & H3).
      assert (He : extends s s') by (apply (extends_trans _ (appendLocal s1 la)); [exists [la]; cbn; rewrite N3; reflexivity | exact H2]).
      split_and!; auto. intros Hr ip' [[= ->]|Hin]%elem_of_cons Hg; [exact (extends_socket _ _ _ H2 N2) | auto].
    + injection E as <- <-. assert (s1 = s) as -> by (unfold createPconn in Ec; destruct (bind _ _) as [[]| |]; congruence).
      split_and!; [exact Hok | apply extends_refl | discriminate].
    + injection E as <- <-. assert (s1 = s) as -> by (unfold createPconn in Ec; destruct (bind _ _) as [[]| |]; congruence).
      split_and!; [exact Hok | apply extends_refl | discriminate].
Qed.

Lemma createInterfaces_ok hst ifaces : host_ok hst -> forall s s' r, pcm_ok s -> createInterfaces s hst ifaces = (s', r) ->
  pcm_ok s' /\ extends s s' /\
  (r = Ok tt -> forall name addrs ip, (name, Ok addrs) ∈ ifaces -> usedInterface name = true -> Ok ip ∈ addrs -> IP_IsGlobalUnicast ip = true -> hasSocket s' ip).
Proof.
  intros Hh. induction ifaces as [|[name addrs] ifaces IH]; intros s s' r Hok E; cbn [createInterfaces] in E.
  - injection E as <- <-. split_and!; [exact Hok | apply extends_refl | intros _ ? ? ? []%elem_of_nil].
  - destruct (usedInterface name) eqn:Eu; cbn [negb] in E.
    2:{ destruct (IH s s' r Hok E) as (H1 & H2 & H3). split_and!; auto. intros Hr n ad ip [[= -> _]|Hin]%elem_of_cons; [congruence | eauto]. }
    destruct addrs as [addrs|e|]; [|injection E as <- <-; split_and!; [exact Hok | apply extends_refl | discriminate]..].
    destruct (createAddrs s hst addrs) as [s1 [[]|e|]] eqn:Ea; destruct (createAddrs_ok hst addrs Hh s s1 _ Hok Ea) as (N1 & N2 & N3).
    + destruct (IH s1 s' r N1 E) as (H1 & H2 & H3). split_and!; [exact H1 | exact (extends_trans _ _ _ N2 H2)|].
      intros Hr n ad ip [[= -> ->]|Hin]%elem_of_cons Hu Hip Hg; [|eauto]. apply (extends_socket s1); [exact H2 | exact (N3 eq_refl ip Hip Hg)].
    + injection E as <- <-. split_and!; [exact N1 | exact N2 | discriminate].
    + injection E as <- <-. split_and!; [exact N1 | exact N2 | discriminate].
Qed.

(** The states of a manager that scans its host again and again; the host may change meanwhile. *)
Inductive scans : pconnManager -> pconnManager -> Prop :=
| scans_none s : scans s s
| scans_more s hst s2 : host_ok hst -> scans (timerTurn s hst) s2 -> scans s s2.

Lemma timerTurn_ok s hst : host_ok hst -> pcm_ok s -> pcm_ok (timerTurn s hst) /\ extends s (timerTurn s hst).
Proof.
  intros Hh Hok. unfold timerTurn, createPconns. destruct (h_interfaces hst) as [ifaces| |]; [|split; [exact Hok | apply extends_refl]..].
  destruct (createInterfaces s hst ifaces) as [s' r] eqn:E. destruct (createInterfaces_ok hst ifaces Hh s s' r Hok E) as (H1 & H2 & _). auto.
Qed.

(** However often the host is scanned, and however it changes, there is at most one socket for each address,
    every address in the list has its socket in the map, and no address is lost; and a scan that succeeds leaves a
    socket for every global unicast address of the interfaces that are used. *)
Theorem one_socket_per_address s hst ifaces s' : pcm_ok s -> host_ok hst -> scans s s' ->
  pcm_ok s' /\ extends s s' /\
  (h_interfaces hst = Ok ifaces -> (createPconns s' hst).2 = Ok tt ->
   forall name addrs ip, (name, Ok addrs) ∈ ifaces -> usedInterface name = true -> Ok ip ∈ addrs -> IP_IsGlobalUnicast ip = true ->
     hasSocket (timerTurn s' hst) ip).
Proof.
  intros Hok Hh Hs. revert Hok. induction Hs as [s|s h1 s2 Hh1 _ IH]; intros Hok.
  - split_and!; [exact Hok | apply extends_refl|]. intros Hi Hr. unfold timerTurn, createPconns in *. rewrite Hi in *.
    destruct (createInterfaces s hst ifaces) as [s1 r] eqn:E. cbn [fst snd] in *. exact (proj2 (proj2 (createInterfaces_ok hst ifaces Hh s s1 r Hok E)) Hr).
  - destruct (timerTurn_ok s h1 Hh1 Hok) as [H1 H2]. destruct (IH H1) as (H3 & H4 & H5). split_and!; [exact H3 | exact (extends_trans _ _ _ H2 H4) | exact H5].
Qed.

(** ** The signal for the path manager *)

(** The path manager takes the signal, and sees the addresses of that moment. *)
Definition takeSignal (s : pconnManager) : pconnManager * list UDPAddr :=
  (mkPcm (pc_pconns s) (pc_pconnAny s) (pc_localAddrs s) false (pc_errorConn s) (pc_listening s) (pc_closedSockets s) (pc_closed s), pc_localAddrs s).

(** [createPconn] sends the signal, and only then [createPconns] adds the address to the list: a path manager that takes
    the signal in between does not see the new address, and there is no other signal for it. *)
Theorem signal_before_address s hst ip s1 a : createPconn s hst ip = (s1, Ok a) -> a ∉ pc_localAddrs s ->
  pc_changePaths s1 = true /\ a ∉ (takeSignal s1).2 /\
  a ∈ pc_localAddrs (appendLocal (takeSignal s1).1 a) /\ pc_changePaths (appendLocal (takeSignal s1).1 a) = false.
Proof.
  intros E Ha. unfold createPconn in E. destruct (bind _ _) as [[pconn la]| |]; try discriminate E. injection E as <- <-. cbn. split_and!; auto.
  apply elem_of_app. right. left.
Qed.
